(* ===== verification/_CoqProject ===== *)
-Q . S2P
Prelude.v
StructOpsModel.v
StructOpsGen.v
StructOpsGrammar.v
StructOpsTyping.v
StructOpsRender.v
BpfTypes.v
BpfHelperTable.v
BpfProgTable.v
BpfCtxTable.v
BpfInit.v
BpfRegTypes.v
BpfMaps.v
BpfNewMap.v
WorkDir.v
Signal.v
Cover.v
Gate.v
WorkQueue.v
Word.v
Db.v
GoSort.v
Rand.v
MemAlloc.v
Heatmap.v
Prio.v
ProgTypes.v
ProgArgs.v
ProgTree.v
ProgValidate.v
ProgDefault.v
ExecEncode.v
ExecDecode.v
ExecSpec.v
ExecRoundtrip.v
ExecSafe.v
ProgLinks.v
ProgClone.v
ProgTrace.v
ProgLife.v
ProgInv.v
BpfCallGen.v
BpfCallSpec.v
BpfCallSafe.v
BpfCallRec.v
BpfCallProg.v
BpfFixRef.v
BpfRefSafe.v
BpfSpinLock.v
BpfCallKinds.v
BpfCSource.v
BpfSeed.v
Hints.v
HintArgs.v
ProgSize.v
ProgShrink.v
ProgEdits.v
ProgMinimize.v
