(* ===== verification/Prelude.v ===== *)
(** * Verification library for the BPF Runtime Fuzzer (BRF)

    The program is a fork of syzkaller, a coverage-guided kernel fuzzer written in
    Go, extended with BRF, which generates whole BPF programs.  This library
    models the parts below as Rocq functions and proves what they promise.

    ** Parts and files

    - [Prelude] (this file): outcomes of Go code ([res]), generators over an
      arbitrary stream of random draws ([Gen], for [randGen] of [prog/rand.go]),
      their total-correctness logic ([wp]), text and list lemmas.  [Word] has
      machine words and byte swaps, [GoSort] the contract of [sort].
    - Scheduler generator, [prog/brf_structops.go].  A struct_ops program is an
      MPTCP packet scheduler; it is generated as a tree of statements and printed
      as C.  [StructOpsModel] has the kfunc and field tables and the statement
      types, [StructOpsGen] the generator ([genStructOpsBody], [genIfElse],
      [genSubflowIter], [genStructOpsProg]), [StructOpsGrammar] describes as a
      relation which bodies it can produce, [StructOpsTyping] types and runs
      them, [StructOpsRender] is the printer ([genStructOpsSource]).
    - BPF tables, [prog/brf_types.go] and [prog/brf_legacy.go].  [BpfTypes] has
      the enumerations and records, [BpfHelperTable], [BpfProgTable] and
      [BpfCtxTable] the tables entry by entry, [BpfInit] what [InitFromSrc] makes
      of them, [BpfRegTypes] the register types offered for a helper argument
      ([genCompatibleRegTypes]) with the arrays its slices share, [BpfMaps] and
      [BpfNewMap] map types, structs, compatibility and [NewMap].
    - Helper-call generator, [prog/brf_legacy.go].  [BpfCallGen] has the program
      under construction ([BpfProg] with its calls, arguments, context variables
      and stack budget) and everything that [GenBpfProg] and [MutBpfProg] do:
      the [Generate] methods, context accesses, hints, nested helper calls.
      [BpfCallSpec] has the invariant of the program and the logic of
      computations on it, [BpfCallSafe], [BpfCallRec] and [BpfCallProg] the proofs
      for arguments, calls and programs.  [BpfFixRef] and [BpfRefSafe] are
      reference fixing ([FixRef]), [BpfSpinLock] lock balancing ([FixSpinLock]),
      [BpfCallKinds] tells which helpers a generation step can add, [BpfCSource]
      is the C text ([genCSource], [getArgConstraints]), [BpfSeed] the whole of
      [genSeedBpfProg] of [prog/brf.go].
    - System call programs, [prog/].  [ProgTypes] and [ProgArgs] have the types
      and arguments of [types.go] and [prog.go]; [ProgTree] walks, clones and
      removes calls ([analysis.go], [clone.go], [prog.go]) on a heap of result
      arguments that refer to each other; [ProgValidate] is [validation.go];
      [ProgDefault] shows what default arguments satisfy; [ProgLinks],
      [ProgClone], [ProgTrace], [ProgLife] and [ProgInv] state and prove the
      invariant of linked programs.  [ProgSize] has the length fields ([size.go]),
      [ProgMinimize] the whole of [minimization.go] with [pred], [removeCalls],
      [do] and the [minimize] methods; [ProgShrink] relates a program to a smaller
      one and [ProgEdits] shows that each step of minimization keeps it valid.
    - Executor format: [ExecEncode] ([encodingexec.go], [checksum.go]) and
      [ExecDecode] ([decodeexec.go]); [ExecSpec] is the meaning of a program as a
      list of instructions, [ExecRoundtrip] and [ExecSafe] relate the three.
    - Choices of the fuzzer: [Rand] (random integers of [rand.go]), [MemAlloc]
      ([alloc.go]), [Heatmap] ([heatmap.go]), [Prio] ([prio.go]), [Hints] and
      [HintArgs] ([hints.go]).
    - Work directory, [prog/brf.go]: [WorkDir] has [pruneWorkDir].
    - Fuzzer core: [Signal] ([pkg/signal]), [Cover] ([pkg/cover/cover.go]),
      [Gate] ([pkg/ipc/gate.go]) and [WorkQueue] ([syz-fuzzer/workqueue.go]).
    - Corpus database: [Db] has the file and the map of [pkg/db/db.go], with
      compression, hashes and failures of the file system as arguments.

    Both BPF generators draw from [randGen] and are reached from
    [genSeedBpfProg], which calls [pruneWorkDir], passes every program through
    [FixRef] and [FixSpinLock] and renders it.  System call programs are cloned,
    edited and validated, serialized for the executor and run inside the gate;
    their comparisons come back as hints and their coverage as signals, which
    feed the work queue with what is new.

    ** How the model corresponds to the code

    A Go function keeps its name where Rocq allows it.  State is passed
    explicitly; a panic (index out of range, nil dereference, [Intn] of a
    non-positive number, explicit [panic]) is the outcome [Panic].  A theorem
    stated with [wp] holds for every random stream, hence for every seed;
    [ensures] and [gens] say the same, with or without termination.  The
    iteration order of a Go map is an argument constrained only to be a
    permutation of the map (the classes [RangeOrder] and [MapRange]).  Where the
    code edits a slice that others share, the backing array is modelled: the
    register type tables in [BpfRegTypes], and in [BpfSpinLock] the array a range
    loop keeps while [append] moves the slice.  Result arguments, which point to
    each other, live in a heap of [ResultObj]; maps and calls of a BPF program are
    indices into the program.  Integers are [Z] or [N] with the wrap-around of
    their width written out where it matters.  Calls under a mutex are atomic
    steps of a transition system in [Gate].  Messages printed for debugging are
    left out.

    ** What the theorems show

    - Schedulers ([StructOpsTyping], [StructOpsRender]): for every seed generation
      returns; calls, operands and context accesses are in scope and well typed;
      nullable pointers are guarded; iterators are created and destroyed in stack
      order on every path; local names are unique; sizes and nesting are bounded;
      the text has balanced braces and declares exactly the kfuncs it uses.  One
      theorem shows that [get_send] may return without scheduling.
    - Tables and register types ([BpfInit], [BpfRegTypes]): initialisation never
      panics and registers each helper once; for every history of calls the
      offered register types are non-empty and among those the table lists.  Two
      theorems show how editing the shared arrays in place loses or keeps
      entries it should not.
    - Maps ([BpfNewMap]): [NewMap] never panics and keeps a program well-formed;
      reused values fit; the compatibility tables agree.  Two theorems show an
      alignment check on the wrong limits and a storage map that is never reused.
    - Helper-call programs ([BpfCSource], [BpfSeed]): generation, mutation and the
      two fixing passes never panic and keep the program well formed; the C text
      uses only names that are declared before, and declares none twice;
      references that leak get a release; locks are balanced.  Two theorems show
      a guard that is never true in C and a release that names a variable too
      early.
    - Locks ([BpfSpinLock]): a program with one lock call is balanced for every
      capacity of the slice, balanced programs are kept and mismatched pairs
      repaired; with two unpaired locks the fix fails.
    - System call programs ([ProgDefault], [ProgInv]): default arguments exist and
      are valid; [Clone] and [RemoveCall] keep the invariant of linked programs,
      which includes validity, and leave the original alone.
    - Lengths and minimization ([ProgSize], [ProgMinimize]): assigning sizes is
      idempotent and writes the sizes it should; [Minimize] terminates without a
      panic, whatever the predicate answers, and gives a valid program that has
      been accepted, with the call of interest where it says.
    - Executor format ([ExecSpec], [ExecSafe]): serialization refines the meaning
      of a program and a valid program survives the round trip.  Theorems show
      a reference within one call that is misread, a decoder that trusts a count,
      and a self-reference that makes [Clone] panic.
    - Hints ([Hints], [HintArgs]): exactly the replacements that an arithmetic
      reference definition justifies are tried, one at a time, on valid programs.
    - Choices ([Rand], [MemAlloc], [Heatmap], [Prio]): values are in range,
      allocations are free and aligned, choices have the promised weights.
    - Work directory ([WorkDir]): the sweep deletes only generated artifacts,
      oldest first, no more than needed to get under the cap.
    - Fuzzer core: signals form a join semilattice with difference, intersection,
      splitting and a serialization round trip; corpus minimization keeps the
      whole signal; the in-place coverage merge agrees with its reference; the
      gate never panics, bounds the activities and does not deadlock; the work
      queue refines a priority order and loses nothing.
    - Database ([Db]): it refines a versioned map whatever calls are made and
      however often an append is cut off by a crash.  Two theorems show what a
      write that fails and a compaction that fails leave behind.

    ** Fuel

    [genStructOpsProg] recurses through branches up to [ifElseMaxDepth]; its fuel
    exceeds that depth and the theorems show it is never used up.  The member loop
    of [generateStruct] has the size of the struct as fuel, since every member
    takes at least a byte.  [NewMap] makes the inner map of a map of maps by a call
    of itself with a random type, which no depth bounds; its fuel is arbitrary,
    and termination is proved for every other map type.  Theorems about programs
    take map creation as an argument ([MapMaker]) and give termination when it
    terminates.  [genBpfHelperCall] has 101 levels, since a call at a depth over
    100 fails.  [memAlloc.alloc] needs two rounds, since memory that has just been
    cleared has room; its search has a round per granule.  The loops of [Heatmap]
    and [Prio] have a round per element.  [DefaultArg] has a level per rank of the
    type, [findParent] and [climb] one per argument, the decoder and the reader of
    the database one per byte of input, [blobLoop] one per byte and per halving of
    its step; [again] has a round per path of the call, since each round that goes
    on adds to [triedPaths].  The theorems show that these are enough.  [fmtHex_go] has 64 rounds for 64-bit
    numbers.  All other recursion is structural.

    ** Not modelled

    [mutSeedBpfProg], which reads programs from gob files, and the system calls
    that load a BPF program ([prog/brf.go]); the text format of system call
    programs ([encoding.go]), their generation and most of their mutation
    ([generation.go], [rand.go], [mutation.go], [mutateSize] of [size.go],
    [resources.go], [rotation.go]), which need the descriptions generated for a
    target; [ReadCorpus] of [pkg/db], the description compiler, crash reports,
    managers, the dashboard and virtual machine drivers.  Compilers, [bpftool], the file system
    and the executor are reached by process or file I/O only.  What [sort.Slice]
    and the growth of slices leave open are arguments, so the theorems hold for
    every choice. *)

From stdpp Require Import base numbers strings pretty gmap list.

(** ** Outcomes of Go code

    A Go function either returns, or panics (index out of range, [Intn] with a
    non-positive bound, write to a nil map, an explicit [panic]).  [NoFuel] is
    the model's own outcome for a recursion whose fuel ran out; the theorems
    about fuelled functions show that it is never reached. *)
Inductive res (A : Type) : Type :=
| Ret (a : A)
| Panic
| NoFuel.
Arguments Ret {A} a.
Arguments Panic {A}.
Arguments NoFuel {A}.

#[global] Instance res_ret : MRet res := λ A a, Ret a.

#[global] Instance res_bind : MBind res := λ A B k m,
  match m with
  | Ret a => k a
  | Panic => Panic
  | NoFuel => NoFuel
  end.

(** What a lookup that must not fail returns: a miss is a panic. *)
Definition of_option {A} (o : option A) : res A :=
  match o with
  | Some a => Ret a
  | None => Panic
  end.

(** ** Randomness

    [randGen] embeds [*rand.Rand].  A generator is run against an arbitrary
    stream of draws, so a theorem that holds for every [rng] holds for every
    seed. *)
Record rng := mkRng { draws : nat → Z; cursor : nat }.

Definition Gen (A : Type) : Type := rng → res (A * rng).

#[global] Instance Gen_ret : MRet Gen := λ A a r, Ret (a, r).

#[global] Instance Gen_bind : MBind Gen := λ A B k m r,
  match m r with
  | Ret (a, r') => k a r'
  | Panic => Panic
  | NoFuel => NoFuel
  end.

Definition gen_panic {A} : Gen A := λ _, Panic.

Definition gen_nofuel {A} : Gen A := λ _, NoFuel.

(** A panic or a result inside a generator. *)
Definition liftRes {A} (m : res A) : Gen A := λ r,
  match m with
  | Ret a => Ret (a, r)
  | Panic => Panic
  | NoFuel => NoFuel
  end.

(** [Intn] of [math/rand]: a value in [[0, n)], panics when [n <= 0]. *)
Definition Intn (n : Z) : Gen Z := λ r,
  if bool_decide (n ≤ 0)%Z then Panic
  else Ret ((draws r (cursor r) `mod` n)%Z, mkRng (draws r) (S (cursor r))).

(** A Go index expression [l[i]]: out of range panics. *)
Definition index {A} (l : list A) (i : Z) : Gen A :=
  if bool_decide (i < 0)%Z then gen_panic
  else match l !! Z.to_nat i with
       | Some x => mret x
       | None => gen_panic
       end.

(** The idiom [l[r.Intn(len(l))]]. *)
Definition pick {A} (l : list A) : Gen A :=
  i ← Intn (Z.of_nat (length l));
  index l i.

(** ** Total correctness of a generator

    [wp m Q]: from every random stream, [m] returns (it neither panics nor runs
    out of fuel) and its result satisfies [Q]. *)
Definition wp {A} (m : Gen A) (Q : A → Prop) : Prop :=
  ∀ r, match m r with
       | Ret (a, _) => Q a
       | Panic => False
       | NoFuel => False
       end.

(** The result of running a generator, when there is one. *)
Definition run {A} (m : Gen A) (r : rng) : option A :=
  match m r with
  | Ret (a, _) => Some a
  | _ => None
  end.

(** ** Text *)

Definition nl : string := String (Ascii.ascii_of_nat 10) EmptyString.

Definition tab : string := String (Ascii.ascii_of_nat 9) EmptyString.

Definition dq : string := String (Ascii.ascii_of_nat 34) EmptyString.

(** The lower-case hexadecimal numeral of [Sprintf("%x")] for a non-negative
    integer.  Every round divides by sixteen, so [fuel] bits are enough for
    numbers below [2 ^ fuel]. *)
Definition hexDigit (d : Z) : string :=
  String.substring (Z.to_nat d) 1 "0123456789abcdef".

Fixpoint fmtHex_go (fuel : nat) (z : Z) (acc : string) : string :=
  match fuel with
  | O => acc
  | S f =>
      let acc := hexDigit (z `mod` 16) +:+ acc in
      if bool_decide (z < 16)%Z then acc else fmtHex_go f (z `div` 16) acc
  end.

Definition fmtHex (z : Z) : string := fmtHex_go 64 z EmptyString.

(** [strings.HasPrefix]. *)
Definition hasPrefix (s p : string) : bool := String.prefix p s.

(** Every character of [s] satisfies [f]. *)
Fixpoint all_chars (f : Ascii.ascii → bool) (s : string) : bool :=
  match s with
  | EmptyString => true
  | String c s' => f c && all_chars f s'
  end.

(** ** Lemmas on the outcome monad *)

Lemma wp_ret {A} (a : A) (Q : A → Prop) : Q a → wp (mret a) Q.
Proof. by intros ? r. Qed.

Lemma wp_bind {A B} (m : Gen A) (k : A → Gen B) (P : A → Prop) (Q : B → Prop) :
  wp m P → (∀ a, P a → wp (k a) Q) → wp (m ≫= k) Q.
Proof.
  intros Hm Hk r. unfold mbind, Gen_bind. specialize (Hm r).
  destruct (m r) as [[a r']| |]; [|done..]. by apply Hk.
Qed.

Lemma wp_liftRes {A} (m : res A) a (Q : A → Prop) : m = Ret a → Q a → wp (liftRes m) Q.
Proof. intros -> HQ r. exact HQ. Qed.

(** A branch on a random bit. *)
Lemma wp_branch {A} (m : Gen bool) (k1 k2 : Gen A) (Q : A → Prop) :
  wp m (λ _, True) → wp k1 Q → wp k2 Q → wp (b ← m; if (b : bool) then k1 else k2) Q.
Proof. intros Hm H1 H2. eapply wp_bind; [exact Hm|]. by intros [] _. Qed.

Lemma wp_mono {A} (m : Gen A) (P Q : A → Prop) :
  wp m P → (∀ a, P a → Q a) → wp m Q.
Proof.
  intros Hm HPQ r. specialize (Hm r). destruct (m r) as [[a r']| |]; auto.
Qed.

Lemma wp_and {A} (m : Gen A) (P Q : A → Prop) :
  wp m P → wp m Q → wp m (λ a, P a ∧ Q a).
Proof.
  intros HP HQ r. specialize (HP r). specialize (HQ r).
  destruct (m r) as [[a r']| |]; auto.
Qed.

Lemma wp_run {A} (m : Gen A) (Q : A → Prop) r :
  wp m Q → ∃ a, run m r = Some a ∧ Q a.
Proof.
  intros Hm. specialize (Hm r). unfold run.
  destruct (m r) as [[a r']| |]; [eauto|done..].
Qed.

Lemma wp_Intn (n : Z) (Q : Z → Prop) :
  (0 < n)%Z → (∀ i, (0 ≤ i < n)%Z → Q i) → wp (Intn n) Q.
Proof.
  intros Hn HQ r. unfold Intn. rewrite bool_decide_false by lia.
  apply HQ. by apply Z.mod_pos_bound.
Qed.

Lemma wp_index {A} (l : list A) (i : Z) (Q : A → Prop) :
  (0 ≤ i < Z.of_nat (length l))%Z →
  (∀ x, l !! Z.to_nat i = Some x → Q x) → wp (index l i) Q.
Proof.
  intros Hi HQ. unfold index. rewrite bool_decide_false by lia.
  destruct (l !! Z.to_nat i) as [x|] eqn:E.
  - by apply wp_ret, HQ.
  - apply lookup_ge_None in E. lia.
Qed.

Lemma wp_pick {A} (l : list A) (Q : A → Prop) :
  l ≠ [] → (∀ x, x ∈ l → Q x) → wp (pick l) Q.
Proof.
  intros Hl HQ. unfold pick.
  eapply wp_bind; [apply (wp_Intn _ (λ i, 0 ≤ i < Z.of_nat (length l))%Z)|]; [|done|].
  - destruct l; simpl; [done|lia].
  - intros i Hi. apply wp_index; [done|].
    intros x Hx. apply HQ. by eapply list_elem_of_lookup_2.
Qed.

(** ** Lemmas on text *)

Lemma all_chars_app f s1 s2 :
  all_chars f (s1 +:+ s2) = all_chars f s1 && all_chars f s2.
Proof.
  induction s1 as [|c s1 IH]; simpl; [done|]. by rewrite IH, andb_assoc.
Qed.

Lemma string_app_inj_l (s t1 t2 : string) : s +:+ t1 = s +:+ t2 → t1 = t2.
Proof. induction s as [|c s IH]; simpl; [done|]. intros [=]. auto. Qed.

Lemma string_app_assoc (s1 s2 s3 : string) :
  s1 +:+ (s2 +:+ s3) = (s1 +:+ s2) +:+ s3.
Proof.
  induction s1 as [|c s1 IH]; [done|]. exact (f_equal (String c) IH).
Qed.

Lemma string_app_nil_r (s : string) : s +:+ EmptyString = s.
Proof.
  induction s as [|c s IH]; [done|]. exact (f_equal (String c) IH).
Qed.

(** Decimal numerals contain only the characters accepted by [f] when [f]
    accepts the digits. *)
Lemma all_chars_pretty_N f (n : N) :
  (∀ k, f (pretty_N_char k) = true) → all_chars f (pretty n) = true.
Proof.
  intros Hf.
  assert (Hgo : ∀ x s, all_chars f s = true → all_chars f (pretty_N_go x s) = true).
  { intros x. induction (N.lt_wf_0 x) as [x _ IH]; intros s Hs.
    destruct (decide (x = 0)%N) as [->|Hx]; [done|].
    rewrite pretty_N_go_step by lia. apply IH; [apply N.div_lt; lia|].
    simpl. by rewrite Hf. }
  unfold pretty, pretty_N. case_decide; [|by apply Hgo].
  simpl. specialize (Hf 0%N). simpl in Hf. by rewrite Hf.
Qed.

(** Decimal digits. *)
Definition isDigit (c : Ascii.ascii) : bool :=
  let n := Ascii.nat_of_ascii c in (48 <=? n)%nat && (n <=? 57)%nat.

Lemma isDigit_pretty_N_char k : isDigit (pretty_N_char k) = true.
Proof. unfold pretty_N_char. by repeat case_match. Qed.

Lemma pretty_nat_digits (n : nat) : all_chars isDigit (pretty n) = true.
Proof. apply all_chars_pretty_N, isDigit_pretty_N_char. Qed.

(** A decimal numeral does not start with a non-digit. *)
Lemma pretty_nat_head (n : nat) c s : isDigit c = false → pretty n ≠ String c s.
Proof.
  intros Hc E. pose proof (pretty_nat_digits n) as H. rewrite E in H. simpl in H.
  by rewrite Hc in H.
Qed.

(** Hexadecimal numerals: their characters and their length. *)
Lemma hexDigit_cases z (P : string → Prop) :
  Forall P (hexDigit <$> [0; 1; 2; 3; 4; 5; 6; 7; 8; 9; 10; 11; 12; 13; 14; 15]%Z) →
  (0 ≤ z < 16)%Z → P (hexDigit z).
Proof.
  intros H Hz. rewrite Forall_forall in H. apply H, list_elem_of_fmap.
  exists z.
  split; [done|].
  assert (z = 0 ∨ z = 1 ∨ z = 2 ∨ z = 3 ∨ z = 4 ∨ z = 5 ∨ z = 6 ∨ z = 7 ∨ z = 8 ∨ z = 9
    ∨ z = 10 ∨ z = 11 ∨ z = 12 ∨ z = 13 ∨ z = 14 ∨ z = 15)%Z as Hc by lia.
  repeat destruct Hc as [->|Hc]; subst; repeat first [by left|right].
Qed.

Lemma string_length_app s1 s2 :
  String.length (s1 +:+ s2) = (String.length s1 + String.length s2)%nat.
Proof. induction s1 as [|c s1 IH]; [done|]. exact (f_equal S IH). Qed.

Lemma fmtHex_go_length fuel k z acc :
  (0 ≤ z < 16 ^ Z.of_nat (S k))%Z →
  (String.length (fmtHex_go fuel z acc) ≤ S k + String.length acc)%nat.
Proof.
  revert k z acc. induction fuel as [|fuel IH]; intros k z acc Hz; simpl; [lia|].
  assert (Hd : String.length (hexDigit (z `mod` 16)) = 1).
  { apply (hexDigit_cases _ (λ s, String.length s = 1)); [by repeat constructor|].
    by apply Z.mod_pos_bound. }
  case_bool_decide as Hlt; [rewrite string_length_app, Hd; lia|].
  destruct k as [|k]; [simpl in Hz; lia|]. etrans; [apply (IH k)|].
  - replace (Z.of_nat (S (S k))) with (Z.of_nat (S k) + 1)%Z in Hz by lia.
    rewrite Z.pow_add_r in Hz by lia. split; [apply Z.div_pos; lia|].
    apply Z.div_lt_upper_bound; lia.
  - rewrite string_length_app, Hd. lia.
Qed.

Lemma fmtHex_go_chars f fuel z acc :
  Forall (λ s, all_chars f s = true)
    (hexDigit <$> [0; 1; 2; 3; 4; 5; 6; 7; 8; 9; 10; 11; 12; 13; 14; 15]%Z) →
  all_chars f acc = true → all_chars f (fmtHex_go fuel z acc) = true.
Proof.
  intros Hf. revert z acc. induction fuel as [|fuel IH]; intros z acc Hacc; simpl; [done|].
  assert (Hd : all_chars f (hexDigit (z `mod` 16) +:+ acc) = true).
  { rewrite all_chars_app, Hacc, andb_true_r.
    apply (hexDigit_cases _ (λ s, all_chars f s = true)); [done|].
    by apply Z.mod_pos_bound. }
  case_bool_decide; [done|]. by apply IH.
Qed.

(** ** Lemmas on lists *)

Lemma exists_elem_nil {A} (P : A → Prop) : (∃ y, y ∈ ([] : list A) ∧ P y) ↔ False.
Proof. split; [|done]. by intros (y & Hy%not_elem_of_nil & _). Qed.

Lemma exists_elem_cons {A} (P : A → Prop) x l :
  (∃ y, y ∈ x :: l ∧ P y) ↔ P x ∨ ∃ y, y ∈ l ∧ P y.
Proof.
  split.
  - intros (y & [->|Hy]%elem_of_cons & HP); eauto.
  - intros [HP|(y & Hy & HP)]; [exists x|exists y]; split; auto;
      apply elem_of_cons; auto.
Qed.

Lemma exists_elem_app {A} (P : A → Prop) l1 l2 :
  (∃ y, y ∈ l1 ++ l2 ∧ P y) ↔ (∃ y, y ∈ l1 ∧ P y) ∨ ∃ y, y ∈ l2 ∧ P y.
Proof.
  split.
  - intros (y & [Hy|Hy]%elem_of_app & HP); eauto.
  - intros [(y & Hy & HP)|(y & Hy & HP)]; exists y; split; auto;
      apply elem_of_app; auto.
Qed.

(** A filter that keeps all elements or none. *)
Lemma filter_uniform {A} (P : A → Prop) `{!∀ x, Decision (P x)} (l : list A) (c : bool) :
  (∀ x, x ∈ l → P x ↔ c = true) → filter P l = if c then l else [].
Proof.
  intros Hf. induction l as [|x l IH]; [by destruct c|].
  assert (Hx := Hf x ltac:(left)). rewrite filter_cons, IH by (intros y Hy; apply Hf; by right).
  destruct c, (decide (P x)) as [HP|HP]; try done; exfalso; naive_solver.
Qed.

Lemma filter_fmap {A B} (f : A → B) (P : B → Prop) (Q : A → Prop)
    `{!∀ x, Decision (P x)} `{!∀ x, Decision (Q x)} (l : list A) :
  (∀ x, x ∈ l → P (f x) ↔ Q x) → filter P (f <$> l) = f <$> filter Q l.
Proof.
  intros Hf. induction l as [|x l IH]; [done|]. rewrite fmap_cons, !filter_cons.
  assert (Hx := Hf x ltac:(left)). rewrite IH by (intros y Hy; apply Hf; by right).
  destruct (decide (P (f x))), (decide (Q x)); try done; exfalso; tauto.
Qed.

(** ** Automation *)

Create HintDb gen discriminated.
#[export] Hint Resolve wp_ret : gen.

(** Finish a generator that returns. *)
Ltac wret := apply wp_ret; cbn beta.
