(* ===== verification/StructOpsModel.v ===== *)
(** * Data model of the struct_ops scheduler generator

    The types and tables of [prog/brf_structops.go]: the kfunc model
    ([BpfKfunc]), the writable context fields, the statements a generated body
    is made of ([StructOpsStmt]), the generated scheduler ([StructOpsProg]) and
    the generator's own scope ([bodyScope]); the traversals over the statement
    tree ([walkStmts] and its two clients). *)

From stdpp Require Import base numbers strings pretty gmap list.
From S2P Require Import Prelude.

Local Open Scope string_scope.
Local Open Scope list_scope.
Local Open Scope nat_scope.

(** [schedNameMax] mirrors MPTCP_SCHED_NAME_MAX. *)
Definition schedNameMax : nat := 16.

Record BpfKfunc := mkKfunc {
  kf_Name : string;
  kf_CDecl : string;
  kf_RetType : string;
  kf_ArgTypes : list string;
  kf_IsPtrRet : bool;
  kf_RetNull : bool
}.

Definition needsNullGuard (kf : BpfKfunc) : bool :=
  kf_IsPtrRet kf && kf_RetNull kf.

Definition mptcpSchedKfuncs : list BpfKfunc :=
  [ mkKfunc "bpf_mptcp_subflow_ctx"
      ("extern struct mptcp_subflow_context *" +:+ nl +:+
       "bpf_mptcp_subflow_ctx(const struct sock *sk) __ksym;")
      "struct mptcp_subflow_context *"
      ["const struct sock *"] true true;
    mkKfunc "mptcp_subflow_set_scheduled"
      ("extern void" +:+ nl +:+
       "mptcp_subflow_set_scheduled(struct mptcp_subflow_context *subflow," +:+ nl +:+
       tab +:+ tab +:+ tab +:+ "    bool scheduled) __ksym;")
      EmptyString
      ["struct mptcp_subflow_context *"; "bool"] false false;
    mkKfunc "bpf_mptcp_subflow_tcp_sock"
      ("extern struct sock *" +:+ nl +:+
       "bpf_mptcp_subflow_tcp_sock(const struct mptcp_subflow_context *subflow) __ksym;")
      "struct sock *"
      ["const struct mptcp_subflow_context *"] true true;
    mkKfunc "bpf_sk_stream_memory_free"
      ("extern bool" +:+ nl +:+
       "bpf_sk_stream_memory_free(const struct sock *sk) __ksym;")
      "bool"
      ["const struct sock *"] false true;
    mkKfunc "bpf_mptcp_subflow_queues_empty"
      ("extern bool" +:+ nl +:+
       "bpf_mptcp_subflow_queues_empty(struct sock *sk) __ksym;")
      "bool"
      ["struct sock *"] false false;
    mkKfunc "mptcp_subflow_active"
      ("extern bool" +:+ nl +:+
       "mptcp_subflow_active(struct mptcp_subflow_context *subflow) __ksym;")
      "bool"
      ["struct mptcp_subflow_context *"] false false;
    mkKfunc "mptcp_set_timeout"
      ("extern void" +:+ nl +:+
       "mptcp_set_timeout(struct sock *sk) __ksym;")
      EmptyString
      ["struct sock *"] false false;
    mkKfunc "mptcp_wnd_end"
      ("extern __u64" +:+ nl +:+
       "mptcp_wnd_end(const struct mptcp_sock *msk) __ksym;")
      "__u64"
      ["const struct mptcp_sock *"] false false ].

Definition mptcpSubflowIterKfuncs : list BpfKfunc :=
  [ mkKfunc "bpf_iter_mptcp_subflow_new"
      ("extern int" +:+ nl +:+
       "bpf_iter_mptcp_subflow_new(struct bpf_iter_mptcp_subflow *it," +:+ nl +:+
       tab +:+ tab +:+ tab +:+ "   struct sock *sk) __ksym;")
      "int"
      ["struct bpf_iter_mptcp_subflow *"; "struct sock *"] false false;
    mkKfunc "bpf_iter_mptcp_subflow_next"
      ("extern struct mptcp_subflow_context *" +:+ nl +:+
       "bpf_iter_mptcp_subflow_next(struct bpf_iter_mptcp_subflow *it) __ksym;")
      "struct mptcp_subflow_context *"
      ["struct bpf_iter_mptcp_subflow *"] true true;
    mkKfunc "bpf_iter_mptcp_subflow_destroy"
      ("extern void" +:+ nl +:+
       "bpf_iter_mptcp_subflow_destroy(struct bpf_iter_mptcp_subflow *it) __ksym;")
      EmptyString
      ["struct bpf_iter_mptcp_subflow *"] false false ].

Record StructOpsCtxField := mkCtxField {
  cf_Owner : string;
  cf_Field : string;
  cf_Accessor : string;
  cf_CType : string
}.

Definition mptcpSchedWriteFields : list StructOpsCtxField :=
  [ mkCtxField "struct mptcp_sock" "snd_burst" "msk->snd_burst" "int";
    mkCtxField "struct mptcp_subflow_context" "avg_pacing_rate"
      "subflow->avg_pacing_rate" "unsigned long" ].

Inductive StructOpsStmtKind : Type :=
| StructOpsStmtCtxRead
| StructOpsStmtCtxWrite
| StructOpsStmtArith
| StructOpsStmtKfuncCall
| StructOpsStmtSubflowIter
| StructOpsStmtIfElse.

#[global] Instance StructOpsStmtKind_eq_dec : EqDecision StructOpsStmtKind.
Proof. solve_decision. Defined.

(** One statement of a generated body.  As in the source it is a single struct
    whose [Kind] says which of its fields are meaningful; the branch and loop
    bodies nest. *)
Inductive StructOpsStmt : Type := mkStmt {
  st_Kind : StructOpsStmtKind;
  st_FieldIdx : Z;
  st_FieldAccessor : string;
  st_FieldCType : string;
  st_Var : string;
  st_CType : string;
  st_Val : Z;
  st_SrcVar : string;
  st_Op : string;
  st_KfuncIdx : nat;
  st_KfuncArgs : list string;
  st_NullGuard : bool;
  st_IterId : nat;
  st_IterSockExpr : string;
  st_IterBody : list StructOpsStmt;
  st_CondVar : string;
  st_CondOp : string;
  st_CondVal : Z;
  st_IfBody : list StructOpsStmt;
  st_ElseBody : list StructOpsStmt
}.

(** The composite literals of the generator, one per statement kind; the fields
    a literal does not name have Go's zero value. *)
Definition mkCtxRead (fi : Z) (acc ctype v : string) : StructOpsStmt :=
  {| st_Kind := StructOpsStmtCtxRead; st_FieldIdx := fi;
     st_FieldAccessor := acc; st_FieldCType := ctype; st_Var := v; st_CType := ctype;
     st_Val := 0; st_SrcVar := EmptyString; st_Op := EmptyString; st_KfuncIdx := 0;
     st_KfuncArgs := []; st_NullGuard := false; st_IterId := 0;
     st_IterSockExpr := EmptyString; st_IterBody := []; st_CondVar := EmptyString;
     st_CondOp := EmptyString; st_CondVal := 0; st_IfBody := []; st_ElseBody := [] |}.

Definition mkCtxWrite (fi : Z) (acc ctype : string) (val : Z) : StructOpsStmt :=
  {| st_Kind := StructOpsStmtCtxWrite; st_FieldIdx := fi;
     st_FieldAccessor := acc; st_FieldCType := ctype; st_Var := EmptyString;
     st_CType := EmptyString;
     st_Val := val; st_SrcVar := EmptyString; st_Op := EmptyString; st_KfuncIdx := 0;
     st_KfuncArgs := []; st_NullGuard := false; st_IterId := 0;
     st_IterSockExpr := EmptyString; st_IterBody := []; st_CondVar := EmptyString;
     st_CondOp := EmptyString; st_CondVal := 0; st_IfBody := []; st_ElseBody := [] |}.

Definition mkArith (v ctype src op : string) (val : Z) : StructOpsStmt :=
  {| st_Kind := StructOpsStmtArith; st_FieldIdx := 0;
     st_FieldAccessor := EmptyString; st_FieldCType := EmptyString; st_Var := v;
     st_CType := ctype;
     st_Val := val; st_SrcVar := src; st_Op := op; st_KfuncIdx := 0;
     st_KfuncArgs := []; st_NullGuard := false; st_IterId := 0;
     st_IterSockExpr := EmptyString; st_IterBody := []; st_CondVar := EmptyString;
     st_CondOp := EmptyString; st_CondVal := 0; st_IfBody := []; st_ElseBody := [] |}.

Definition mkKfuncCall (ki : nat) (args : list string) (v ctype : string)
    (guard : bool) : StructOpsStmt :=
  {| st_Kind := StructOpsStmtKfuncCall; st_FieldIdx := 0;
     st_FieldAccessor := EmptyString; st_FieldCType := EmptyString; st_Var := v;
     st_CType := ctype;
     st_Val := 0; st_SrcVar := EmptyString; st_Op := EmptyString; st_KfuncIdx := ki;
     st_KfuncArgs := args; st_NullGuard := guard; st_IterId := 0;
     st_IterSockExpr := EmptyString; st_IterBody := []; st_CondVar := EmptyString;
     st_CondOp := EmptyString; st_CondVal := 0; st_IfBody := []; st_ElseBody := [] |}.

Definition mkSubflowIter (id : nat) (v ctype sock : string)
    (body : list StructOpsStmt) : StructOpsStmt :=
  {| st_Kind := StructOpsStmtSubflowIter; st_FieldIdx := 0;
     st_FieldAccessor := EmptyString; st_FieldCType := EmptyString; st_Var := v;
     st_CType := ctype;
     st_Val := 0; st_SrcVar := EmptyString; st_Op := EmptyString; st_KfuncIdx := 0;
     st_KfuncArgs := []; st_NullGuard := false; st_IterId := id;
     st_IterSockExpr := sock; st_IterBody := body; st_CondVar := EmptyString;
     st_CondOp := EmptyString; st_CondVal := 0; st_IfBody := []; st_ElseBody := [] |}.

Definition mkIfElse (cv cop : string) (cval : Z)
    (ifb elseb : list StructOpsStmt) : StructOpsStmt :=
  {| st_Kind := StructOpsStmtIfElse; st_FieldIdx := 0;
     st_FieldAccessor := EmptyString; st_FieldCType := EmptyString; st_Var := EmptyString;
     st_CType := EmptyString;
     st_Val := 0; st_SrcVar := EmptyString; st_Op := EmptyString; st_KfuncIdx := 0;
     st_KfuncArgs := []; st_NullGuard := false; st_IterId := 0;
     st_IterSockExpr := EmptyString; st_IterBody := []; st_CondVar := cv;
     st_CondOp := cop; st_CondVal := cval; st_IfBody := ifb; st_ElseBody := elseb |}.

Record StructOpsProg := mkSop {
  sop_SchedName : string;
  sop_WriteFields : list StructOpsCtxField;
  sop_Kfuncs : list BpfKfunc;
  sop_IterKfuncs : list BpfKfunc;
  sop_GetSendBody : list StructOpsStmt;
  sop_InitBody : list StructOpsStmt;
  sop_ReleaseBody : list StructOpsStmt
}.

Record typedVal := mkVal { tv_expr : string; tv_ctype : string }.

#[global] Instance typedVal_eq_dec : EqDecision typedVal.
Proof. solve_decision. Defined.

Record ctxWriteField := mkWF { wf_accessor : string; wf_ctype : string }.

#[global] Instance ctxWriteField_eq_dec : EqDecision ctxWriteField.
Proof. solve_decision. Defined.

Record bodyScope := mkScope {
  sc_pool : list typedVal;
  sc_writeFields : list ctxWriteField;
  sc_allowIter : bool;
  sc_requireWrite : bool;
  sc_noReturn : bool;
  sc_allowIf : bool;
  sc_depth : nat;
  sc_minStmt : Z;
  sc_maxStmt : Z
}.

Definition ifElseMaxDepth : nat := 2.

Definition structOpsArithOps : list string := ["+"; "-"; "*"; "^"; "|"; "&"].

Definition structOpsCondOps : list string := [EmptyString; ">"; "<"; "=="; "!="; "&"].

(** [normalizeCType] strips every leading [const ].  The source loop tests
    [len(t) > 6 && t[:6] == "const "]; each round removes six characters, so
    the length of the string is enough fuel. *)
Fixpoint normalizeCType_go (fuel : nat) (t : string) : string :=
  match fuel with
  | O => t
  | S f =>
      if (6 <? String.length t)%nat && hasPrefix t "const "
      then normalizeCType_go f (String.substring 6 (String.length t - 6) t)
      else t
  end.

Definition normalizeCType (t : string) : string :=
  normalizeCType_go (String.length t) t.

Definition scalarCType (t : string) : bool :=
  bool_decide (normalizeCType t ∈
    ["int"; "unsigned long"; "bool"; "__u64"; "u64"; "long"]).

Definition schedWriteFieldsResolved : list ctxWriteField :=
  (λ f, mkWF (cf_Accessor f) (cf_CType f)) <$> mptcpSchedWriteFields.

Definition getSendScope : bodyScope := {|
  sc_pool := [mkVal "msk" "struct mptcp_sock *";
              mkVal "msk->first" "struct sock *";
              mkVal "subflow" "struct mptcp_subflow_context *"];
  sc_writeFields := schedWriteFieldsResolved;
  sc_allowIter := true;
  sc_requireWrite := true;
  sc_noReturn := false;
  sc_allowIf := true;
  sc_depth := 0;
  sc_minStmt := 3;
  sc_maxStmt := 8 |}.

Definition initReleaseScope : bodyScope := {|
  sc_pool := [mkVal "msk" "struct mptcp_sock *";
              mkVal "msk->first" "struct sock *"];
  sc_writeFields := [mkWF "msk->snd_burst" "int"];
  sc_allowIter := false;
  sc_requireWrite := false;
  sc_noReturn := true;
  sc_allowIf := false;
  sc_depth := 0;
  sc_minStmt := 2;
  sc_maxStmt := 4 |}.

(** [walkStmts] calls [fn] on every statement of the tree, a statement before
    the bodies nested in it; [fn]'s side effect is the accumulator. *)
Fixpoint walkStmt {A} (fn : A → StructOpsStmt → A) (st : StructOpsStmt) (acc : A) : A :=
  let walk := fix go (body : list StructOpsStmt) (acc : A) : A :=
    match body with
    | [] => acc
    | st :: rest => go rest (walkStmt fn st acc)
    end in
  let acc := fn acc st in
  match st_Kind st with
  | StructOpsStmtSubflowIter => walk (st_IterBody st) acc
  | StructOpsStmtIfElse => walk (st_ElseBody st) (walk (st_IfBody st) acc)
  | _ => acc
  end.

Definition walkStmts {A} (fn : A → StructOpsStmt → A) : list StructOpsStmt → A → A :=
  fix go (body : list StructOpsStmt) (acc : A) : A :=
    match body with
    | [] => acc
    | st :: rest => go rest (walkStmt fn st acc)
    end.

Definition usesSubflowIter (sop : StructOpsProg) : bool :=
  foldl (λ found b,
    walkStmts (λ found st,
      if bool_decide (st_Kind st = StructOpsStmtSubflowIter) then true else found)
      b found)
    false [sop_GetSendBody sop; sop_InitBody sop; sop_ReleaseBody sop].

(** The two kfuncs of the fixed prologue and epilogue of [get_send]. *)
Definition isSkeletonKfunc (kf : BpfKfunc) : bool :=
  bool_decide (kf_Name kf = "bpf_mptcp_subflow_ctx") ||
  bool_decide (kf_Name kf = "mptcp_subflow_set_scheduled").

Definition usedKfuncSet (sop : StructOpsProg) : gset nat :=
  foldl (λ used b,
    walkStmts (λ used st,
      if bool_decide (st_Kind st = StructOpsStmtKfuncCall)
      then {[st_KfuncIdx st]} ∪ used else used)
      b used)
    (list_to_set (fst <$> filter (λ ikf, isSkeletonKfunc ikf.2 = true)
       (zip (seq 0 (length (sop_Kfuncs sop))) (sop_Kfuncs sop))))
    [sop_GetSendBody sop; sop_InitBody sop; sop_ReleaseBody sop].

Definition usedKfuncIdxs (sop : StructOpsProg) : list nat :=
  filter (λ ki, ki ∈ usedKfuncSet sop) (seq 0 (length (sop_Kfuncs sop))).

(** All statements of the tree in the order [walkStmts] visits them. *)
Fixpoint flattenStmt (st : StructOpsStmt) : list StructOpsStmt :=
  st :: match st_Kind st with
        | StructOpsStmtSubflowIter => flat_map flattenStmt (st_IterBody st)
        | StructOpsStmtIfElse =>
            flat_map flattenStmt (st_IfBody st) ++ flat_map flattenStmt (st_ElseBody st)
        | _ => []
        end.

Definition flatten (body : list StructOpsStmt) : list StructOpsStmt :=
  flat_map flattenStmt body.

(** ** Induction on the statement tree *)

Section stmt_ind.
Variable P : StructOpsStmt → Prop.
Hypothesis HP : ∀ st, Forall P (st_IterBody st) → Forall P (st_IfBody st) →
  Forall P (st_ElseBody st) → P st.

Lemma stmt_ind (st : StructOpsStmt) : P st.
Proof.
  revert st. fix IH 1. intros st. apply HP.
  all: destruct st as [? ? ? ? ? ? ? ? ? ? ? ? ? ? b1 ? ? ? b2 b3]; simpl.
  - induction b1; constructor; auto.
  - induction b2; constructor; auto.
  - induction b3; constructor; auto.
Qed.
End stmt_ind.

Lemma walkStmt_unfold {A} (fn : A → StructOpsStmt → A) st acc :
  walkStmt fn st acc =
  match st_Kind st with
  | StructOpsStmtSubflowIter => walkStmts fn (st_IterBody st) (fn acc st)
  | StructOpsStmtIfElse =>
      walkStmts fn (st_ElseBody st) (walkStmts fn (st_IfBody st) (fn acc st))
  | _ => fn acc st
  end.
Proof. by destruct st as [[] ]. Qed.

Lemma flattenStmt_unfold st :
  flattenStmt st =
  st :: match st_Kind st with
        | StructOpsStmtSubflowIter => flatten (st_IterBody st)
        | StructOpsStmtIfElse => flatten (st_IfBody st) ++ flatten (st_ElseBody st)
        | _ => []
        end.
Proof. by destruct st. Qed.

(** [walkStmts] is the left fold of its visitor over the flattened tree. *)
Lemma walkStmts_foldl {A} (fn : A → StructOpsStmt → A) body acc :
  walkStmts fn body acc = foldl fn acc (flatten body).
Proof.
  assert (Hb : ∀ b, Forall (λ st, ∀ acc, walkStmt fn st acc = foldl fn acc (flattenStmt st)) b →
    ∀ acc, walkStmts fn b acc = foldl fn acc (flatten b)).
  { induction 1 as [|s b Hs Hb IH]; intros acc'; simpl; [done|].
    by rewrite IH, Hs, foldl_app. }
  apply Hb. apply Forall_true. clear body acc. intros st.
  induction st as [st H1 H2 H3] using stmt_ind. intros acc.
  rewrite walkStmt_unfold, flattenStmt_unfold.
  destruct (st_Kind st); simpl; rewrite ?Hb by done; [done..|].
  by rewrite foldl_app.
Qed.

Lemma flatten_app b1 b2 : flatten (b1 ++ b2) = flatten b1 ++ flatten b2.
Proof. apply flat_map_app. Qed.

Lemma usesSubflowIter_spec sop :
  usesSubflowIter sop = true ↔
  ∃ st, st ∈ flatten (sop_GetSendBody sop) ++ flatten (sop_InitBody sop)
           ++ flatten (sop_ReleaseBody sop)
        ∧ st_Kind st = StructOpsStmtSubflowIter.
Proof.
  assert (Hf : ∀ l found, foldl (λ found st,
      if bool_decide (st_Kind st = StructOpsStmtSubflowIter) then true else found) found l
      = true ↔ found = true ∨ ∃ st, st ∈ l ∧ st_Kind st = StructOpsStmtSubflowIter).
  { induction l as [|st l IH]; intros found; simpl; [rewrite exists_elem_nil; tauto|].
    rewrite IH, exists_elem_cons. case_bool_decide; tauto. }
  unfold usesSubflowIter. simpl. rewrite !walkStmts_foldl, !Hf, !exists_elem_app.
  split; [intros [[[|]|]|]; auto; done|tauto].
Qed.

Lemma usedKfuncSet_spec sop ki :
  ki ∈ usedKfuncSet sop ↔
  (∃ kf, sop_Kfuncs sop !! ki = Some kf ∧ isSkeletonKfunc kf = true) ∨
  ∃ st, st ∈ flatten (sop_GetSendBody sop) ++ flatten (sop_InitBody sop)
           ++ flatten (sop_ReleaseBody sop)
        ∧ st_Kind st = StructOpsStmtKfuncCall ∧ st_KfuncIdx st = ki.
Proof.
  assert (Hf : ∀ l (used : gset nat), ki ∈ foldl (λ used st,
      if bool_decide (st_Kind st = StructOpsStmtKfuncCall)
      then {[st_KfuncIdx st]} ∪ used else used) used l
      ↔ ki ∈ used ∨ ∃ st, st ∈ l ∧ st_Kind st = StructOpsStmtKfuncCall ∧ st_KfuncIdx st = ki).
  { induction l as [|st l IH]; intros used; simpl; [rewrite exists_elem_nil; tauto|].
    rewrite IH, exists_elem_cons. case_bool_decide; [|tauto].
    rewrite elem_of_union, elem_of_singleton. naive_solver. }
  unfold usedKfuncSet. simpl. rewrite !walkStmts_foldl, !Hf.
  rewrite elem_of_list_to_set, list_elem_of_fmap.
  assert (Hz : (∃ y, ki = y.1 ∧ y ∈ filter (λ ikf, isSkeletonKfunc ikf.2 = true)
      (zip (seq 0 (length (sop_Kfuncs sop))) (sop_Kfuncs sop)))
    ↔ ∃ kf, sop_Kfuncs sop !! ki = Some kf ∧ isSkeletonKfunc kf = true).
  { split.
    - intros ([i kf] & -> & [Hk (n & Hn)%list_elem_of_lookup]%list_elem_of_filter).
      apply lookup_zip_Some in Hn as [Hi Hkf]. apply lookup_seq in Hi as [-> _].
      simpl. eauto.
    - intros (kf & Hkf & Hk). exists (ki, kf). split; [done|].
      apply list_elem_of_filter. split; [done|]. apply list_elem_of_lookup.
      exists ki. apply lookup_zip_Some. split; [|done]. apply lookup_seq.
      split; [done|]. by eapply lookup_lt_Some. }
  rewrite Hz, !exists_elem_app. tauto.
Qed.

Lemma usedKfuncIdxs_spec sop ki :
  ki ∈ usedKfuncIdxs sop ↔ ki ∈ usedKfuncSet sop ∧ ki < length (sop_Kfuncs sop).
Proof.
  unfold usedKfuncIdxs. rewrite list_elem_of_filter, elem_of_seq. naive_solver lia.
Qed.
