(* ===== verification/StructOpsGen.v ===== *)
(** * The struct_ops scheduler generator

    The generating half of [prog/brf_structops.go]: [pickKfuncArgs],
    [genStructOpsBody] with its local closures, [genIfElse], [genSubflowIter]
    and [genStructOpsProg].  The recursion between a body and the bodies nested
    in it is fuelled; [genFuel] rounds are enough (see [StructOpsTyping]). *)

From stdpp Require Import base numbers strings pretty gmap list.
From S2P Require Import Prelude StructOpsModel.

Local Open Scope string_scope.
Local Open Scope list_scope.
Local Open Scope nat_scope.

(** [genStructOpsCtxValue]. *)
Definition genStructOpsCtxValue (ctype : string) : Gen Z :=
  if bool_decide (ctype = "int") then
    v ← Intn (2 ^ 32);
    mret (v - 2 ^ 31)%Z
  else Intn (2 ^ 31).

(** The candidate expressions of [pickKfuncArgs] for one parameter type. *)
Definition argCands (pt : string) (pool : list typedVal) : list string :=
  let want := normalizeCType pt in
  let cands := tv_expr <$> filter (λ v, tv_ctype v = want) pool in
  if bool_decide (want = "bool") then cands ++ ["true"; "false"] else cands.

(** [pickKfuncArgs]: [None] is the source's [nil, false]. *)
Fixpoint pickArgs (argTypes : list string) (pool : list typedVal) :
    Gen (option (list string)) :=
  match argTypes with
  | [] => mret (Some [])
  | pt :: rest =>
      match argCands pt pool with
      | [] => mret None
      | cands =>
          a ← pick cands;
          args ← pickArgs rest pool;
          mret (cons a <$> args)
      end
  end.

Definition pickKfuncArgs (kf : BpfKfunc) (pool : list typedVal) :
    Gen (option (list string)) :=
  pickArgs (kf_ArgTypes kf) pool.

(** The local variables of [genStructOpsBody] that its loop updates; [varId] is
    the counter shared by the whole callback. *)
Record readVar := mkRV { rv_name : string; rv_ctype : string }.

Record genState := mkGen {
  g_body : list StructOpsStmt;
  g_readVars : list readVar;
  g_pool : list typedVal;
  g_varId : nat
}.

Definition sVar (n : nat) : string := "s" +:+ pretty n.

Definition sfVar (n : nat) : string := "sf" +:+ pretty n.

(** The closure [callableKfuncs]. *)
Fixpoint callable_go (noReturn : bool) (pool : list typedVal) (ki : nat)
    (kfs : list BpfKfunc) : Gen (list nat) :=
  match kfs with
  | [] => mret []
  | kf :: rest =>
      if isSkeletonKfunc kf then callable_go noReturn pool (S ki) rest
      else if noReturn && needsNullGuard kf then callable_go noReturn pool (S ki) rest
      else
        args ← pickKfuncArgs kf pool;
        idxs ← callable_go noReturn pool (S ki) rest;
        mret (match args with Some _ => ki :: idxs | None => idxs end)
  end.

Definition callableKfuncs (sop : StructOpsProg) (sc : bodyScope)
    (pool : list typedVal) : Gen (list nat) :=
  callable_go (sc_noReturn sc) pool 0 (sop_Kfuncs sop).

(** The closure [emitCtxRead]. *)
Definition emitCtxRead (sc : bodyScope) (fi : Z) (g : genState) : Gen genState :=
  f ← index (sc_writeFields sc) fi;
  let v := sVar (g_varId g) in
  mret {| g_body := g_body g ++ [mkCtxRead fi (wf_accessor f) (wf_ctype f) v];
          g_readVars := g_readVars g ++ [mkRV v (wf_ctype f)];
          g_pool := g_pool g ++ [mkVal v (normalizeCType (wf_ctype f))];
          g_varId := S (g_varId g) |}.

(** The statement kinds the scope offers. *)
Definition kinds (sc : bodyScope) : list StructOpsStmtKind :=
  [StructOpsStmtCtxRead; StructOpsStmtCtxWrite; StructOpsStmtArith;
   StructOpsStmtKfuncCall]
  ++ (if sc_allowIter sc then [StructOpsStmtSubflowIter] else [])
  ++ (if sc_allowIf sc && (sc_depth sc <? ifElseMaxDepth)%nat
      then [StructOpsStmtIfElse] else []).

Definition haveWrite (body : list StructOpsStmt) : bool :=
  existsb (λ st, bool_decide (st_Kind st = StructOpsStmtCtxWrite)) body.

(** The kind of the next statement: a free draw, the forced write in the last
    position, then the fallbacks to a read. *)
Definition chooseKind (sop : StructOpsProg) (sc : bodyScope) (last : bool)
    (g : genState) : Gen StructOpsStmtKind :=
  kind ← pick (kinds sc);
  let kind := if sc_requireWrite sc && last && negb (haveWrite (g_body g))
              then StructOpsStmtCtxWrite else kind in
  let kind := if bool_decide (kind = StructOpsStmtArith)
                 && bool_decide (length (g_readVars g) = 0)
              then StructOpsStmtCtxRead else kind in
  kind ← (if bool_decide (kind = StructOpsStmtKfuncCall) then
            idxs ← callableKfuncs sop sc (g_pool g);
            mret (if bool_decide (length idxs = 0) then StructOpsStmtCtxRead else kind)
          else mret kind);
  mret (if bool_decide (kind = StructOpsStmtIfElse)
           && bool_decide (length (g_readVars g) = 0)
        then StructOpsStmtCtxRead else kind).

(** The [StructOpsStmtCtxWrite] case. *)
Definition emitCtxWrite (sc : bodyScope) (g : genState) : Gen genState :=
  fi ← Intn (Z.of_nat (length (sc_writeFields sc)));
  f ← index (sc_writeFields sc) fi;
  val ← genStructOpsCtxValue (wf_ctype f);
  mret {| g_body := g_body g ++ [mkCtxWrite fi (wf_accessor f) (wf_ctype f) val];
          g_readVars := g_readVars g; g_pool := g_pool g; g_varId := g_varId g |}.

(** The [StructOpsStmtArith] case. *)
Definition emitArith (g : genState) : Gen genState :=
  src ← pick (g_readVars g);
  let v := sVar (g_varId g) in
  op ← pick structOpsArithOps;
  val ← Intn (2 ^ 16);
  mret {| g_body := g_body g ++ [mkArith v (rv_ctype src) (rv_name src) op val];
          g_readVars := g_readVars g ++ [mkRV v (rv_ctype src)];
          g_pool := g_pool g ++ [mkVal v (normalizeCType (rv_ctype src))];
          g_varId := S (g_varId g) |}.

(** The three-way [switch] on the kfunc's return contract. *)
Definition bindKfuncResult (ki : nat) (kf : BpfKfunc) (args : list string)
    (g : genState) : genState :=
  let v := sVar (g_varId g) in
  let pool' := g_pool g ++ [mkVal v (normalizeCType (kf_RetType kf))] in
  if bool_decide (kf_RetType kf = EmptyString) then
    {| g_body := g_body g ++ [mkKfuncCall ki args EmptyString EmptyString false];
       g_readVars := g_readVars g; g_pool := g_pool g; g_varId := g_varId g |}
  else if needsNullGuard kf then
    {| g_body := g_body g ++ [mkKfuncCall ki args v (kf_RetType kf) true];
       g_readVars := g_readVars g; g_pool := pool'; g_varId := S (g_varId g) |}
  else
    {| g_body := g_body g ++ [mkKfuncCall ki args v (kf_RetType kf) false];
       g_readVars := if scalarCType (kf_RetType kf)
                     then g_readVars g ++ [mkRV v (kf_RetType kf)] else g_readVars g;
       g_pool := pool'; g_varId := S (g_varId g) |}.

(** The [StructOpsStmtKfuncCall] case. *)
Definition emitKfuncCall (sop : StructOpsProg) (sc : bodyScope) (g : genState) :
    Gen genState :=
  idxs ← callableKfuncs sop sc (g_pool g);
  ki ← pick idxs;
  kf ← index (sop_Kfuncs sop) (Z.of_nat ki);
  args ← pickKfuncArgs kf (g_pool g);
  match args with
  | None =>
      fi ← Intn (Z.of_nat (length (sc_writeFields sc)));
      emitCtxRead sc fi g
  | Some args => mret (bindKfuncResult ki kf args g)
  end.

(** A body generator: the scope and the counter give the body and the new
    counter. *)
Definition bodyGen : Type := bodyScope → nat → Gen (list StructOpsStmt * nat).

Definition branchScope (sc : bodyScope) (seedPool : list typedVal) : bodyScope := {|
  sc_pool := seedPool;
  sc_writeFields := sc_writeFields sc;
  sc_allowIter := sc_allowIter sc;
  sc_requireWrite := false;
  sc_noReturn := true;
  sc_allowIf := sc_allowIf sc;
  sc_depth := S (sc_depth sc);
  sc_minStmt := 1;
  sc_maxStmt := 3 |}.

(** [genIfElse]; [genBody] is the recursive call. *)
Definition genIfElse (genBody : bodyGen) (sc : bodyScope) (varId : nat)
    (seedPool : list typedVal) (condNames : list string) :
    Gen (StructOpsStmt * nat) :=
  condVar ← pick condNames;
  condOp ← pick structOpsCondOps;
  condVal ← (if bool_decide (condOp = EmptyString) then mret 0%Z else Intn (2 ^ 16));
  '(ifBody, varId) ← genBody (branchScope sc seedPool) varId;
  coin ← Intn 2;
  if bool_decide (coin = 0)%Z then
    '(elseBody, varId) ← genBody (branchScope sc seedPool) varId;
    mret (mkIfElse condVar condOp condVal ifBody elseBody, varId)
  else mret (mkIfElse condVar condOp condVal ifBody [], varId).

Definition loopScope (id : nat) : bodyScope := {|
  sc_pool := [mkVal "msk" "struct mptcp_sock *";
              mkVal "msk->first" "struct sock *";
              mkVal (sfVar id) "struct mptcp_subflow_context *"];
  sc_writeFields := [mkWF "msk->snd_burst" "int";
                     mkWF (sfVar id +:+ "->avg_pacing_rate") "unsigned long"];
  sc_allowIter := false;
  sc_requireWrite := false;
  sc_noReturn := true;
  sc_allowIf := false;
  sc_depth := 0;
  sc_minStmt := 0;
  sc_maxStmt := 3 |}.

(** [genSubflowIter]. *)
Definition genSubflowIter (genBody : bodyGen) (varId : nat) :
    Gen (StructOpsStmt * nat) :=
  '(loopBody, varId') ← genBody (loopScope varId) (S varId);
  mret (mkSubflowIter varId (sfVar varId) "struct mptcp_subflow_context *"
          "(struct sock *)msk" loopBody, varId').

(** The [switch kind] of the loop body. *)
Definition emitKind (genBody : bodyGen) (sop : StructOpsProg) (sc : bodyScope)
    (kind : StructOpsStmtKind) (g : genState) : Gen genState :=
  match kind with
  | StructOpsStmtCtxRead =>
      fi ← Intn (Z.of_nat (length (sc_writeFields sc)));
      emitCtxRead sc fi g
  | StructOpsStmtCtxWrite => emitCtxWrite sc g
  | StructOpsStmtArith => emitArith g
  | StructOpsStmtKfuncCall => emitKfuncCall sop sc g
  | StructOpsStmtSubflowIter =>
      '(st, varId) ← genSubflowIter genBody (g_varId g);
      mret {| g_body := g_body g ++ [st]; g_readVars := g_readVars g;
              g_pool := g_pool g; g_varId := varId |}
  | StructOpsStmtIfElse =>
      '(st, varId) ← genIfElse genBody sc (g_varId g) (g_pool g)
                       (rv_name <$> g_readVars g);
      mret {| g_body := g_body g ++ [st]; g_readVars := g_readVars g;
              g_pool := g_pool g; g_varId := varId |}
  end.

(** The loop [for i := 0; i < nStmt; i++]; [left] is [nStmt - i]. *)
Fixpoint genLoop (genBody : bodyGen) (sop : StructOpsProg) (sc : bodyScope)
    (left : nat) (g : genState) : Gen genState :=
  match left with
  | O => mret g
  | S left' =>
      kind ← chooseKind sop sc (bool_decide (left' = 0)) g;
      g' ← emitKind genBody sop sc kind g;
      genLoop genBody sop sc left' g'
  end.

(** [genStructOpsBody]. *)
Fixpoint genStructOpsBody (fuel : nat) (sop : StructOpsProg) : bodyGen :=
  λ sc varId,
  match fuel with
  | O => gen_nofuel
  | S fuel' =>
      let span := (sc_maxStmt sc - sc_minStmt sc + 1)%Z in
      let span := if bool_decide (span < 1)%Z then 1%Z else span in
      extra ← Intn span;
      g ← genLoop (genStructOpsBody fuel' sop) sop sc
            (Z.to_nat (sc_minStmt sc + extra))
            {| g_body := []; g_readVars := []; g_pool := sc_pool sc;
               g_varId := varId |};
      mret (g_body g, g_varId g)
  end.

(** A top-level body, two levels of branches and a loop body in the deepest
    branch. *)
Definition genFuel : nat := 4.

(** [genStructOpsProg]. *)
Definition genStructOpsProg : Gen StructOpsProg :=
  let sop := {| sop_SchedName := EmptyString;
                sop_WriteFields := mptcpSchedWriteFields;
                sop_Kfuncs := mptcpSchedKfuncs;
                sop_IterKfuncs := mptcpSubflowIterKfuncs;
                sop_GetSendBody := []; sop_InitBody := []; sop_ReleaseBody := [] |} in
  n ← Intn (2 ^ 24);
  let name := "brf_" +:+ fmtHex n in
  let name := if (schedNameMax <=? String.length name)%nat
              then String.substring 0 (schedNameMax - 1) name else name in
  '(getSend, varId) ← genStructOpsBody genFuel sop getSendScope 0;
  '(initB, varId) ← genStructOpsBody genFuel sop initReleaseScope varId;
  '(release, varId) ← genStructOpsBody genFuel sop initReleaseScope varId;
  mret {| sop_SchedName := name;
          sop_WriteFields := sop_WriteFields sop;
          sop_Kfuncs := sop_Kfuncs sop;
          sop_IterKfuncs := sop_IterKfuncs sop;
          sop_GetSendBody := getSend;
          sop_InitBody := initB;
          sop_ReleaseBody := release |}.

(** A fixed pseudo-random stream, for executing the model. *)
Definition lcg (seed : Z) : rng :=
  mkRng (λ n, Nat.iter (S n)
    (λ x, (x * 6364136223846793005 + 1442695040888963407) `mod` 2 ^ 64)%Z seed
    `div` 2 ^ 20)%Z 0.
