(* ===== verification/StructOpsGrammar.v ===== *)
(** * The language of generated bodies

    A nondeterministic description of what [genStructOpsBody] may emit: one
    rule per statement kind, every random choice replaced by an arbitrary
    admissible value.  The main lemma shows that the generator is total on
    well-formed scopes (it neither panics nor runs out of fuel) and that every
    body it returns is derived by the rules; the properties of generated bodies
    are then proved by rule induction. *)

From stdpp Require Import base numbers strings pretty gmap list.
From S2P Require Import Prelude StructOpsModel StructOpsGen.

Local Open Scope string_scope.
Local Open Scope list_scope.
Local Open Scope nat_scope.

(** The generator's local state, without the body built so far. *)
Record gst := mkGst { gs_rvs : list readVar; gs_pool : list typedVal; gs_id : nat }.

Definition gst_of (g : genState) : gst := mkGst (g_readVars g) (g_pool g) (g_varId g).

Definition entry (sc : bodyScope) (n : nat) : gst := mkGst [] (sc_pool sc) n.

(** [kf] may be called with [args] when every argument is a candidate for the
    parameter in its position. *)
Definition argsFor (kf : BpfKfunc) (pool : list typedVal) (args : list string) : Prop :=
  Forall2 (λ a pt, a ∈ argCands pt pool) args (kf_ArgTypes kf).

Definition callableIn (sc : bodyScope) (kf : BpfKfunc) : Prop :=
  isSkeletonKfunc kf = false ∧ (sc_noReturn sc = true → needsNullGuard kf = false).

Definition ctxValueOk (ctype : string) (v : Z) : Prop :=
  if bool_decide (ctype = "int") then (- 2 ^ 31 ≤ v < 2 ^ 31)%Z
  else (0 ≤ v < 2 ^ 31)%Z.

Definition iterStmt (n : nat) (body : list StructOpsStmt) : StructOpsStmt :=
  mkSubflowIter n (sfVar n) "struct mptcp_subflow_context *" "(struct sock *)msk" body.

Inductive genSteps (kfs : list BpfKfunc) :
    bodyScope → gst → list StructOpsStmt → gst → Prop :=
| GS_nil sc s : genSteps kfs sc s [] s
| GS_read sc rvs pool n fi f rest s' :
    sc_writeFields sc !! Z.to_nat fi = Some f →
    genSteps kfs sc
      (mkGst (rvs ++ [mkRV (sVar n) (wf_ctype f)])
             (pool ++ [mkVal (sVar n) (normalizeCType (wf_ctype f))]) (S n)) rest s' →
    genSteps kfs sc (mkGst rvs pool n)
      (mkCtxRead fi (wf_accessor f) (wf_ctype f) (sVar n) :: rest) s'
| GS_write sc s fi f v rest s' :
    sc_writeFields sc !! Z.to_nat fi = Some f → ctxValueOk (wf_ctype f) v →
    genSteps kfs sc s rest s' →
    genSteps kfs sc s (mkCtxWrite fi (wf_accessor f) (wf_ctype f) v :: rest) s'
| GS_arith sc rvs pool n src op v rest s' :
    src ∈ rvs → op ∈ structOpsArithOps → (0 ≤ v < 2 ^ 16)%Z →
    genSteps kfs sc
      (mkGst (rvs ++ [mkRV (sVar n) (rv_ctype src)])
             (pool ++ [mkVal (sVar n) (normalizeCType (rv_ctype src))]) (S n)) rest s' →
    genSteps kfs sc (mkGst rvs pool n)
      (mkArith (sVar n) (rv_ctype src) (rv_name src) op v :: rest) s'
| GS_call_void sc s ki kf args rest s' :
    kfs !! ki = Some kf → callableIn sc kf → argsFor kf (gs_pool s) args →
    kf_RetType kf = EmptyString →
    genSteps kfs sc s rest s' →
    genSteps kfs sc s (mkKfuncCall ki args EmptyString EmptyString false :: rest) s'
| GS_call_guard sc rvs pool n ki kf args rest s' :
    kfs !! ki = Some kf → callableIn sc kf → argsFor kf pool args →
    kf_RetType kf ≠ EmptyString → needsNullGuard kf = true →
    genSteps kfs sc
      (mkGst rvs (pool ++ [mkVal (sVar n) (normalizeCType (kf_RetType kf))]) (S n))
      rest s' →
    genSteps kfs sc (mkGst rvs pool n)
      (mkKfuncCall ki args (sVar n) (kf_RetType kf) true :: rest) s'
| GS_call_plain sc rvs pool n ki kf args rest s' :
    kfs !! ki = Some kf → callableIn sc kf → argsFor kf pool args →
    kf_RetType kf ≠ EmptyString → needsNullGuard kf = false →
    genSteps kfs sc
      (mkGst (if scalarCType (kf_RetType kf)
              then rvs ++ [mkRV (sVar n) (kf_RetType kf)] else rvs)
             (pool ++ [mkVal (sVar n) (normalizeCType (kf_RetType kf))]) (S n))
      rest s' →
    genSteps kfs sc (mkGst rvs pool n)
      (mkKfuncCall ki args (sVar n) (kf_RetType kf) false :: rest) s'
| GS_iter sc rvs pool n body s1 rest s' :
    sc_allowIter sc = true →
    genSteps kfs (loopScope n) (entry (loopScope n) (S n)) body s1 →
    genSteps kfs sc (mkGst rvs pool (gs_id s1)) rest s' →
    genSteps kfs sc (mkGst rvs pool n) (iterStmt n body :: rest) s'
| GS_if sc rvs pool n cv cop cval ifb elseb s1 s2 rest s' :
    sc_allowIf sc = true → sc_depth sc < ifElseMaxDepth →
    cv ∈ rvs → cop ∈ structOpsCondOps → (0 ≤ cval < 2 ^ 16)%Z → ifb ≠ [] →
    genSteps kfs (branchScope sc pool) (entry (branchScope sc pool) n) ifb s1 →
    genSteps kfs (branchScope sc pool) (entry (branchScope sc pool) (gs_id s1)) elseb s2 →
    genSteps kfs sc (mkGst rvs pool (gs_id s2)) rest s' →
    genSteps kfs sc (mkGst rvs pool n)
      (mkIfElse (rv_name cv) cop cval ifb elseb :: rest) s'.

(** A scope on which the generator does not panic. *)
Definition scope_ok (sc : bodyScope) : Prop :=
  sc_writeFields sc ≠ [] ∧ (0 ≤ sc_minStmt sc)%Z.

(** The nesting still possible below a scope: the fuel it needs. *)
Definition rank (sc : bodyScope) : nat :=
  1 + (if sc_allowIf sc then ifElseMaxDepth - sc_depth sc else 0)
    + (if sc_allowIter sc then 1 else 0).

(** The kfunc indices [callableKfuncs] returns, whatever it draws. *)
Definition callableSpec (sc : bodyScope) (kfs : list BpfKfunc) (pool : list typedVal)
    (ki : nat) : Prop :=
  ∃ kf, kfs !! ki = Some kf ∧ callableIn sc kf ∧
        Forall (λ pt, argCands pt pool ≠ []) (kf_ArgTypes kf).

(** ** The choices of one statement *)

Lemma wp_ctxValue ctype : wp (genStructOpsCtxValue ctype) (ctxValueOk ctype).
Proof.
  unfold genStructOpsCtxValue, ctxValueOk. case_bool_decide.
  - eapply wp_bind; [by apply (wp_Intn _ (λ v, 0 ≤ v < 2 ^ 32)%Z)|].
    intros v Hv. cbn beta in Hv. wret. lia.
  - by apply wp_Intn.
Qed.

Lemma wp_pickArgs argTypes pool :
  wp (pickArgs argTypes pool) (λ o,
    match o with
    | Some args => Forall2 (λ a pt, a ∈ argCands pt pool) args argTypes
    | None => Exists (λ pt, argCands pt pool = []) argTypes
    end).
Proof.
  induction argTypes as [|pt rest IH]; simpl; [by wret|].
  destruct (argCands pt pool) as [|c cs] eqn:Ec; [by wret; left|].
  eapply wp_bind; [apply (wp_pick (c :: cs) (λ a, a ∈ argCands pt pool));
    [done|by rewrite Ec]|].
  intros a Ha. eapply wp_bind; [apply IH|]. intros o Ho. wret.
  destruct o as [args|]; simpl; [by constructor|by right].
Qed.

(** Whether a kfunc is callable does not depend on the draws. *)
Lemma wp_callable_go sc pool kfs ki0 :
  wp (callable_go (sc_noReturn sc) pool ki0 kfs) (λ idxs,
    ∀ ki, ki ∈ idxs ↔ ki0 ≤ ki ∧ callableSpec sc kfs pool (ki - ki0)).
Proof.
  revert ki0. induction kfs as [|kf kfs IH]; intros ki0; simpl.
  { wret. intros ki. split; [by intros ?%not_elem_of_nil|].
    intros (_ & kf & Hkf & _). by rewrite lookup_nil in Hkf. }
  assert (Hcons : ∀ idxs b,
    (b = true ↔ callableIn sc kf ∧ Forall (λ pt, argCands pt pool ≠ []) (kf_ArgTypes kf)) →
    (∀ ki, ki ∈ idxs ↔ S ki0 ≤ ki ∧ callableSpec sc kfs pool (ki - S ki0)) →
    ∀ ki, ki ∈ (if b : bool then ki0 :: idxs else idxs)
      ↔ ki0 ≤ ki ∧ callableSpec sc (kf :: kfs) pool (ki - ki0)).
  { intros idxs b Hb Hidxs ki.
    destruct (decide (ki = ki0)) as [->|Hne].
    - rewrite Nat.sub_diag. trans (b = true).
      + destruct b; [rewrite elem_of_cons; naive_solver|].
        rewrite Hidxs. split; [lia|done].
      + rewrite Hb. unfold callableSpec. simpl. naive_solver.
    - trans (ki ∈ idxs); [destruct b; [rewrite elem_of_cons; naive_solver|done]|].
      rewrite Hidxs. destruct (decide (ki0 < ki)) as [Hlt|Hge].
      + replace (ki - ki0) with (S (ki - S ki0)) by lia. unfold callableSpec. simpl.
        split; intros [? ?]; (split; [lia|done]).
      + split; intros [? _]; lia. }
  destruct (isSkeletonKfunc kf) eqn:Esk.
  { eapply wp_mono; [apply IH|]. intros idxs Hidxs. apply (Hcons idxs false); [|done].
    unfold callableIn. split; [done|]. intros [[? _] _]. congruence. }
  destruct (sc_noReturn sc && needsNullGuard kf) eqn:Eng.
  { eapply wp_mono; [apply IH|]. intros idxs Hidxs. apply (Hcons idxs false); [|done].
    apply andb_true_iff in Eng as [E1 E2]. split; [done|].
    intros [[_ H] _]. rewrite H in E2; done. }
  eapply wp_bind; [apply wp_pickArgs|]. intros o Ho. eapply wp_bind; [apply IH|].
  intros idxs Hidxs. wret.
  assert (Hin : callableIn sc kf).
  { split; [done|]. intros E. by rewrite E in Eng. }
  destruct o as [args|].
  - apply (Hcons idxs true); [|done]. split; [|done]. intros _. split; [done|].
    clear -Ho. induction Ho as [|a pt args pts Ha]; constructor; [|done].
    intros E. rewrite E in Ha. by apply not_elem_of_nil in Ha.
  - apply (Hcons idxs false); [|done]. split; [done|]. intros [_ Hall].
    apply Exists_exists in Ho as (pt & Hpt & E).
    rewrite Forall_forall in Hall. by destruct (Hall pt).
Qed.

Lemma wp_callableKfuncs sop sc pool :
  wp (callableKfuncs sop sc pool) (λ idxs,
    ∀ ki, ki ∈ idxs ↔ callableSpec sc (sop_Kfuncs sop) pool ki).
Proof.
  eapply wp_mono; [apply wp_callable_go|]. simpl. intros idxs H ki.
  rewrite H, Nat.sub_0_r. split; [by intros [_ ?]|]. split; [lia|done].
Qed.

(** What a chosen kind guarantees about the state it was chosen in. *)
Definition kindReady (sop : StructOpsProg) (sc : bodyScope) (g : genState)
    (kind : StructOpsStmtKind) : Prop :=
  match kind with
  | StructOpsStmtArith => g_readVars g ≠ []
  | StructOpsStmtKfuncCall => ∃ ki, callableSpec sc (sop_Kfuncs sop) (g_pool g) ki
  | StructOpsStmtSubflowIter => sc_allowIter sc = true
  | StructOpsStmtIfElse =>
      sc_allowIf sc = true ∧ sc_depth sc < ifElseMaxDepth ∧ g_readVars g ≠ []
  | _ => True
  end.

Lemma kinds_spec sc k :
  k ∈ kinds sc →
  match k with
  | StructOpsStmtSubflowIter => sc_allowIter sc = true
  | StructOpsStmtIfElse => sc_allowIf sc = true ∧ sc_depth sc < ifElseMaxDepth
  | _ => True
  end.
Proof.
  unfold kinds. rewrite !elem_of_app. intros [H|[H|H]].
  - rewrite !elem_of_cons in H.
    destruct H as [->|[->|[->|[->|[]%not_elem_of_nil]]]]; done.
  - destruct (sc_allowIter sc); [|by apply not_elem_of_nil in H].
    by apply list_elem_of_singleton in H as ->.
  - destruct (sc_allowIf sc); [|by apply not_elem_of_nil in H]. simpl in H.
    destruct (Nat.ltb_spec (sc_depth sc) ifElseMaxDepth);
      [|by apply not_elem_of_nil in H].
    by apply list_elem_of_singleton in H as ->.
Qed.

Lemma wp_chooseKind sop sc last g :
  wp (chooseKind sop sc last g) (λ kind,
    kindReady sop sc g kind ∧
    (sc_requireWrite sc = true → last = true → haveWrite (g_body g) = false →
     kind = StructOpsStmtCtxWrite)).
Proof.
  unfold chooseKind.
  eapply wp_bind; [apply (wp_pick _ (λ k, k ∈ kinds sc)); [done|auto]|].
  intros k0 Hk0%kinds_spec.
  destruct (sc_requireWrite sc && last && negb (haveWrite (g_body g))) eqn:Ew.
  { eapply wp_bind; [by apply (wp_ret _ (λ k, k = StructOpsStmtCtxWrite))|].
    intros k ->. by wret. }
  assert (Hnw : sc_requireWrite sc = true → last = true →
      haveWrite (g_body g) = false → ∀ k, k = StructOpsStmtCtxWrite).
  { intros E1 E2 E3. by rewrite E1, E2, E3 in Ew. }
  destruct (bool_decide (k0 = StructOpsStmtArith) &&
            bool_decide (length (g_readVars g) = 0)) eqn:Ea.
  { eapply wp_bind; [by apply (wp_ret _ (λ k, k = StructOpsStmtCtxRead))|].
    intros k ->. wret. split; [done|]. auto. }
  assert (Harith : k0 = StructOpsStmtArith → g_readVars g ≠ []).
  { intros -> E. by rewrite E in Ea. }
  eapply wp_bind with (P := λ k, (k = StructOpsStmtCtxRead ∨ k = k0) ∧
    (k = StructOpsStmtKfuncCall → ∃ ki, callableSpec sc (sop_Kfuncs sop) (g_pool g) ki)).
  { clear Ea. case_bool_decide as Ek; [|wret; split; [by right|done]].
    eapply wp_bind; [apply wp_callableKfuncs|]. intros idxs Hidxs. wret.
    case_bool_decide as El; [by split; [left|]|]. split; [by right|]. intros _.
    destruct idxs as [|ki idxs]; [done|]. exists ki. apply Hidxs. by left. }
  intros k [Hk Hcall]. wret. split; [|auto].
  destruct (bool_decide (k = StructOpsStmtIfElse) &&
            bool_decide (length (g_readVars g) = 0)) eqn:Ei; [done|].
  destruct Hk as [->| ->]; [done|].
  destruct k0; simpl; auto. destruct Hk0 as [? ?]. repeat split; [done..|].
  intros E. by rewrite E in Ei.
Qed.

(** ** Adequacy of the rules *)

Lemma genSteps_app kfs sc s b1 s1 b2 s2 :
  genSteps kfs sc s b1 s1 → genSteps kfs sc s1 b2 s2 → genSteps kfs sc s (b1 ++ b2) s2.
Proof. intros H1 H2. induction H1; simpl; [done|econstructor; eauto..]. Qed.

(** What [genStructOpsBody] promises about the body it returns. *)
Definition bodyPost (kfs : list BpfKfunc) (sc : bodyScope) (n : nat)
    (out : list StructOpsStmt * nat) : Prop :=
  ∃ s', genSteps kfs sc (entry sc n) out.1 s' ∧ gs_id s' = out.2 ∧
    (sc_minStmt sc ≤ Z.of_nat (length out.1) ≤ Z.max (sc_minStmt sc) (sc_maxStmt sc))%Z ∧
    (sc_requireWrite sc = true → (0 < sc_minStmt sc)%Z → haveWrite out.1 = true).

(** One statement is appended, and the rules derive it. *)
Definition emitPost (kfs : list BpfKfunc) (sc : bodyScope) (kind : StructOpsStmtKind)
    (g g' : genState) : Prop :=
  ∃ st, g_body g' = g_body g ++ [st] ∧ genSteps kfs sc (gst_of g) [st] (gst_of g') ∧
    (kind = StructOpsStmtCtxWrite → st_Kind st = StructOpsStmtCtxWrite).

Section adequacy.
Context (sop : StructOpsProg) (genBody : bodyGen) (fuel : nat).
Abbreviation kfs := (sop_Kfuncs sop).
Hypothesis genBody_ok : ∀ sc n, scope_ok sc → rank sc ≤ fuel →
  wp (genBody sc n) (bodyPost kfs sc n).

Lemma wp_emitCtxRead sc g kind :
  scope_ok sc → kind ≠ StructOpsStmtCtxWrite →
  wp (fi ← Intn (Z.of_nat (length (sc_writeFields sc))); emitCtxRead sc fi g)
     (emitPost kfs sc kind g).
Proof.
  intros [Hwf _] Hk.
  eapply wp_bind;
    [apply (wp_Intn _ (λ i, 0 ≤ i < Z.of_nat (length (sc_writeFields sc)))%Z); [|done]|].
  { destruct (sc_writeFields sc); simpl; [done|lia]. }
  intros fi Hfi. unfold emitCtxRead.
  eapply wp_bind; [by apply (wp_index _ _ (λ f, sc_writeFields sc !! Z.to_nat fi = Some f))|].
  intros f Hf. wret. eexists. split_and!; [done| |done].
  apply GS_read; [done|]. apply GS_nil.
Qed.

Lemma wp_emitCtxWrite sc g :
  scope_ok sc → wp (emitCtxWrite sc g) (emitPost kfs sc StructOpsStmtCtxWrite g).
Proof.
  intros [Hwf _]. unfold emitCtxWrite.
  eapply wp_bind;
    [apply (wp_Intn _ (λ i, 0 ≤ i < Z.of_nat (length (sc_writeFields sc)))%Z); [|done]|].
  { destruct (sc_writeFields sc); simpl; [done|lia]. }
  intros fi Hfi.
  eapply wp_bind; [by apply (wp_index _ _ (λ f, sc_writeFields sc !! Z.to_nat fi = Some f))|].
  intros f Hf. eapply wp_bind; [apply wp_ctxValue|]. intros v Hv. wret.
  eexists. split_and!; [done| |done]. apply GS_write; [done..|]. apply GS_nil.
Qed.

Lemma wp_emitArith sc g :
  g_readVars g ≠ [] → wp (emitArith g) (emitPost kfs sc StructOpsStmtArith g).
Proof.
  intros Hrv. unfold emitArith.
  eapply wp_bind; [by apply (wp_pick _ (λ x, x ∈ g_readVars g))|]. intros src Hsrc.
  eapply wp_bind; [by apply (wp_pick _ (λ x, x ∈ structOpsArithOps))|]. intros op Hop.
  eapply wp_bind; [by apply (wp_Intn _ (λ v, 0 ≤ v < 2 ^ 16)%Z)|]. intros v Hv.
  wret. eexists. split_and!; [done| |done].
  apply GS_arith; [done..|]. apply GS_nil.
Qed.

Lemma bindKfuncResult_post sc g ki kf args kind :
  kfs !! ki = Some kf → callableIn sc kf → argsFor kf (g_pool g) args →
  kind ≠ StructOpsStmtCtxWrite →
  emitPost kfs sc kind g (bindKfuncResult ki kf args g).
Proof.
  intros Hki Hc Ha Hk. unfold bindKfuncResult. case_bool_decide as Hret.
  { eexists. split_and!; [done| |done]. eapply GS_call_void; [done..|]. apply GS_nil. }
  destruct (needsNullGuard kf) eqn:Hng; eexists; (split_and!; [done| |done]).
  - eapply GS_call_guard; [done..|]. apply GS_nil.
  - eapply GS_call_plain; [done..|]. apply GS_nil.
Qed.

Lemma wp_emitKfuncCall sc g :
  (∃ ki, callableSpec sc kfs (g_pool g) ki) →
  wp (emitKfuncCall sop sc g) (emitPost kfs sc StructOpsStmtKfuncCall g).
Proof.
  intros [ki0 Hki0]. unfold emitKfuncCall.
  eapply wp_bind; [apply wp_callableKfuncs|]. intros idxs Hidxs.
  eapply wp_bind; [apply (wp_pick _ (λ ki, callableSpec sc kfs (g_pool g) ki))|].
  { intros ->. apply Hidxs in Hki0. by apply not_elem_of_nil in Hki0. }
  { intros ki Hki. by apply Hidxs. }
  intros ki (kf & Hkf & Hcall & Hargs).
  eapply wp_bind; [apply (wp_index _ _ (λ x, x = kf))|].
  { apply lookup_lt_Some in Hkf. lia. }
  { intros x. rewrite Nat2Z.id. naive_solver. }
  intros ? ->. eapply wp_bind; [apply wp_pickArgs|]. intros [args|] Ho.
  - wret. by apply bindKfuncResult_post.
  - apply Exists_exists in Ho as (pt & Hpt & E).
    rewrite Forall_forall in Hargs. by destruct (Hargs pt).
Qed.

Lemma wp_emitIter sc g kind :
  sc_allowIter sc = true → rank sc ≤ S fuel → kind = StructOpsStmtSubflowIter →
  wp (emitKind genBody sop sc kind g) (emitPost kfs sc kind g).
Proof.
  intros Hai Hr ->. simpl. unfold genSubflowIter.
  eapply wp_bind with (P := λ out, ∃ body s1, out = (iterStmt (g_varId g) body, gs_id s1) ∧
    genSteps kfs (loopScope (g_varId g)) (entry (loopScope (g_varId g)) (S (g_varId g))) body s1).
  - eapply wp_bind.
    { apply genBody_ok; [done|]. unfold rank in *. rewrite Hai in Hr. simpl. lia. }
    intros [body n'] (s1 & Hs & E & _). simpl in *. subst n'. wret. by exists body, s1.
  - intros ? (body & s1 & -> & Hs). wret. eexists. split_and!; [done| |done].
    eapply GS_iter; [done..|]. apply GS_nil.
Qed.

Lemma wp_branchScope sc pool n :
  scope_ok sc → sc_allowIf sc = true → sc_depth sc < ifElseMaxDepth → rank sc ≤ S fuel →
  wp (genBody (branchScope sc pool) n) (λ out, out.1 ≠ [] ∧ ∃ s',
    genSteps kfs (branchScope sc pool) (entry (branchScope sc pool) n) out.1 s'
    ∧ gs_id s' = out.2).
Proof.
  intros [Hwf _] Hai Hd Hr. eapply wp_mono.
  - apply genBody_ok; [by split|]. unfold rank in *.
    cbn [branchScope sc_allowIf sc_depth sc_allowIter]. rewrite Hai in *. lia.
  - intros [b n'] (s' & Hs & Hid & Hlen & _). split; [|by exists s'].
    simpl in *. intros ->. simpl in Hlen. lia.
Qed.

Lemma wp_emitIf sc g kind :
  scope_ok sc → kindReady sop sc g kind → rank sc ≤ S fuel → kind = StructOpsStmtIfElse →
  wp (emitKind genBody sop sc kind g) (emitPost kfs sc kind g).
Proof.
  intros Hsc Hrd Hr ->. destruct Hrd as (Hai & Hd & Hrv). simpl. unfold genIfElse.
  eapply wp_bind with (P := λ out, ∃ cv cop cval ifb elseb s1 s2,
    out = (mkIfElse (rv_name cv) cop cval ifb elseb, gs_id s2) ∧
    cv ∈ g_readVars g ∧ cop ∈ structOpsCondOps ∧ (0 ≤ cval < 2 ^ 16)%Z ∧ ifb ≠ [] ∧
    genSteps kfs (branchScope sc (g_pool g)) (entry (branchScope sc (g_pool g)) (g_varId g)) ifb s1 ∧
    genSteps kfs (branchScope sc (g_pool g)) (entry (branchScope sc (g_pool g)) (gs_id s1)) elseb s2).
  - eapply wp_bind; [apply (wp_pick _ (λ x, ∃ cv, cv ∈ g_readVars g ∧ x = rv_name cv))|].
    { by destruct (g_readVars g). }
    { intros x (cv & -> & Hcv)%list_elem_of_fmap. eauto. }
    intros ? (cv & Hcv & ->).
    eapply wp_bind; [by apply (wp_pick _ (λ x, x ∈ structOpsCondOps))|]. intros cop Hcop.
    eapply wp_bind with (P := λ v, (0 ≤ v < 2 ^ 16)%Z).
    { case_bool_decide; [by wret|by apply wp_Intn]. }
    intros cval Hcval.
    eapply wp_bind; [by apply wp_branchScope|]. intros [ifb n1] (Hne & s1 & Hs1 & E1).
    simpl in *. subst n1.
    eapply wp_bind; [by apply (wp_Intn _ (λ _, True))|]. intros coin _. case_bool_decide.
    + eapply wp_bind; [by apply wp_branchScope|]. intros [elseb n2] (_ & s2 & Hs2 & E2).
      simpl in *. subst n2. wret. by exists cv, cop, cval, ifb, elseb, s1, s2.
    + wret. exists cv, cop, cval, ifb, [], s1, (entry (branchScope sc (g_pool g)) (gs_id s1)).
      split_and!; try done; [lia..|]. apply GS_nil.
  - intros ? (cv & cop & cval & ifb & elseb & s1 & s2 & -> & ? & ? & ? & ? & ? & ?).
    wret. eexists. split_and!; [done| |done]. eapply GS_if; [done..|]. apply GS_nil.
Qed.

Lemma wp_emitKind sc kind g :
  scope_ok sc → rank sc ≤ S fuel → kindReady sop sc g kind →
  wp (emitKind genBody sop sc kind g) (emitPost kfs sc kind g).
Proof.
  intros Hsc Hr Hrd. destruct kind; simpl in Hrd.
  - by apply wp_emitCtxRead.
  - by apply wp_emitCtxWrite.
  - by apply wp_emitArith.
  - by apply wp_emitKfuncCall.
  - by apply wp_emitIter.
  - by apply wp_emitIf.
Qed.

Lemma haveWrite_snoc b st :
  haveWrite (b ++ [st]) = haveWrite b || bool_decide (st_Kind st = StructOpsStmtCtxWrite).
Proof. unfold haveWrite. rewrite existsb_app. simpl. by rewrite orb_false_r. Qed.

Lemma wp_genLoop sc left g :
  scope_ok sc → rank sc ≤ S fuel →
  wp (genLoop genBody sop sc left g) (λ g', ∃ b,
    g_body g' = g_body g ++ b ∧ length b = left ∧
    genSteps kfs sc (gst_of g) b (gst_of g') ∧
    (sc_requireWrite sc = true → 0 < left → haveWrite (g_body g') = true)).
Proof.
  intros Hsc Hr. revert g. induction left as [|left IH]; intros g; simpl.
  { wret. exists []. rewrite app_nil_r. split_and!; [done..|constructor|lia]. }
  eapply wp_bind; [apply wp_chooseKind|]. intros kind [Hrd Hw].
  eapply wp_bind; [by apply wp_emitKind|]. intros g1 (st & Hb1 & Hs1 & Hk1).
  eapply wp_mono; [apply IH|]. intros g2 (b & Hb2 & Hlen & Hs2 & Hw2).
  exists (st :: b). split_and!.
  - by rewrite Hb2, Hb1, <- app_assoc.
  - simpl. by rewrite Hlen.
  - by eapply (genSteps_app _ _ _ [st]).
  - intros Hreq _. destruct left as [|left]; [|auto with lia].
    destruct b; [|done]. rewrite Hb2, app_nil_r, Hb1, haveWrite_snoc.
    destruct (haveWrite (g_body g)) eqn:Eh; [done|]. simpl.
    apply bool_decide_true, Hk1. by apply Hw; [|apply bool_decide_true|].
Qed.
End adequacy.

(** The generator is total and its output is derived by the rules. *)
Lemma genStructOpsBody_adequate fuel sop sc n :
  scope_ok sc → rank sc ≤ fuel →
  wp (genStructOpsBody fuel sop sc n) (bodyPost (sop_Kfuncs sop) sc n).
Proof.
  revert sc n. induction fuel as [|fuel IH]; intros sc n Hsc Hr.
  { unfold rank in Hr. lia. }
  simpl. set (span := if bool_decide _ then _ else _).
  assert (Hspan : span = Z.max 1 (sc_maxStmt sc - sc_minStmt sc + 1)%Z).
  { unfold span. case_bool_decide; lia. }
  eapply wp_bind; [apply (wp_Intn _ (λ i, 0 ≤ i < span)%Z); [lia|done]|].
  intros extra Hextra. cbn beta in Hextra.
  eapply wp_bind; [by apply (wp_genLoop sop _ fuel IH)|].
  intros g (b & Hb & Hlen & Hs & Hw). wret. simpl in Hb. subst b.
  destruct Hsc as [_ Hmin]. exists (gst_of g). simpl.
  split_and!; [done|done|lia|lia|]. intros Hreq Hpos. apply Hw; [done|lia].
Qed.
