(* ===== verification/StructOpsTyping.v ===== *)
(** * Static and dynamic correctness of generated schedulers

    The contract a generated body must satisfy, stated independently of the
    generator: a C typing judgement ([wt]) with block scoping, the writable
    surface of the kernel's [bpf_mptcp_sched_btf_struct_access] and the
    KF_RET_NULL rule; unique names of the declared locals ([decls]); and an
    execution semantics ([exec]) that records the iterator life cycle and the
    scheduling call on every path.  The theorems show that whatever the random
    draws, [genStructOpsProg] returns a program that satisfies the contract. *)

From stdpp Require Import base numbers strings pretty gmap list.
From S2P Require Import Prelude StructOpsModel StructOpsGen StructOpsGrammar.

Local Open Scope string_scope.
Local Open Scope list_scope.
Local Open Scope nat_scope.

(** ** Typing *)

(** The two writable fields, reached through a value in scope of the owning
    struct's pointer type. *)
Definition lvalueOk (G : list typedVal) (acc ctype : string) : Prop :=
  (acc = "msk->snd_burst" ∧ ctype = "int" ∧ mkVal "msk" "struct mptcp_sock *" ∈ G) ∨
  (∃ b, acc = b +:+ "->avg_pacing_rate" ∧ ctype = "unsigned long" ∧
        mkVal b "struct mptcp_subflow_context *" ∈ G).

(** The constant fits the C type it is stored to. *)
Definition fitsCType (ctype : string) (v : Z) : Prop :=
  if bool_decide (ctype = "int") then (- 2 ^ 31 ≤ v < 2 ^ 31)%Z
  else (0 ≤ v < 2 ^ 64)%Z.

Definition argOk (G : list typedVal) (a pt : string) : Prop :=
  mkVal a (normalizeCType pt) ∈ G ∨
  (normalizeCType pt = "bool" ∧ (a = "true" ∨ a = "false")).

(** A call statement respects the verifier contract of its kfunc: a void kfunc
    binds nothing, a KF_RET_NULL pointer is bound and guarded (only where a
    [return] is allowed), anything else is bound without a guard.  [G'] is the
    scope after the statement. *)
Definition callOk (ret : bool) (G : list typedVal) (kf : BpfKfunc) (v ct : string)
    (guard : bool) (G' : list typedVal) : Prop :=
  if bool_decide (kf_RetType kf = EmptyString)
  then v = EmptyString ∧ guard = false ∧ G' = G
  else v ≠ EmptyString ∧ ct = kf_RetType kf ∧ guard = needsNullGuard kf ∧
       (guard = true → ret = true) ∧ G' = G ++ [mkVal v (normalizeCType ct)].

(** [wt kfs ret G body G']: in a block that may return a value when [ret], with
    the values [G] in scope, [body] is well typed and leaves [G'] in scope.
    The bodies of loops and branches are blocks of their own: what they declare
    is not in scope after them. *)
Inductive wt (kfs : list BpfKfunc) :
    bool → list typedVal → list StructOpsStmt → list typedVal → Prop :=
| wt_nil ret G : wt kfs ret G [] G
| wt_read ret G fi acc ct v rest G' :
    lvalueOk G acc ct →
    wt kfs ret (G ++ [mkVal v (normalizeCType ct)]) rest G' →
    wt kfs ret G (mkCtxRead fi acc ct v :: rest) G'
| wt_write ret G fi acc ct val rest G' :
    lvalueOk G acc ct → fitsCType ct val →
    wt kfs ret G rest G' →
    wt kfs ret G (mkCtxWrite fi acc ct val :: rest) G'
| wt_arith ret G v ct src op val rest G' :
    mkVal src (normalizeCType ct) ∈ G → scalarCType ct = true →
    op ∈ structOpsArithOps →
    wt kfs ret (G ++ [mkVal v (normalizeCType ct)]) rest G' →
    wt kfs ret G (mkArith v ct src op val :: rest) G'
| wt_call ret G ki kf args v ct guard G1 rest G' :
    kfs !! ki = Some kf → Forall2 (argOk G) args (kf_ArgTypes kf) →
    callOk ret G kf v ct guard G1 →
    wt kfs ret G1 rest G' →
    wt kfs ret G (mkKfuncCall ki args v ct guard :: rest) G'
| wt_iter ret G id v body G1 rest G' :
    mkVal "msk" "struct mptcp_sock *" ∈ G →
    wt kfs false (G ++ [mkVal v "struct mptcp_subflow_context *"]) body G1 →
    wt kfs ret G rest G' →
    wt kfs ret G (mkSubflowIter id v "struct mptcp_subflow_context *"
                    "(struct sock *)msk" body :: rest) G'
| wt_if ret G cv ct cop cval ifb G1 elseb G2 rest G' :
    mkVal cv (normalizeCType ct) ∈ G → scalarCType ct = true → cop ∈ structOpsCondOps →
    ifb ≠ [] → wt kfs false G ifb G1 → wt kfs false G elseb G2 →
    wt kfs ret G rest G' →
    wt kfs ret G (mkIfElse cv cop cval ifb elseb :: rest) G'.

(** ** Declared names *)

Definition itVar (n : nat) : string := "it" +:+ pretty n.

(** The locals one rendered statement declares. *)
Definition declsStmt (st : StructOpsStmt) : list string :=
  (if bool_decide (st_Var st = EmptyString) then [] else [st_Var st]) ++
  (if bool_decide (st_Kind st = StructOpsStmtSubflowIter) then [itVar (st_IterId st)]
   else []).

Definition decls (body : list StructOpsStmt) : list string :=
  flat_map declsStmt (flatten body).

(** The names drawn from the counter value [k]. *)
Definition namedBy (k : nat) (x : string) : Prop :=
  x = sVar k ∨ x = sfVar k ∨ x = itVar k.

Definition freshNames (lo hi : nat) (l : list string) : Prop :=
  NoDup l ∧ ∀ x, x ∈ l → ∃ k, lo ≤ k < hi ∧ namedBy k x.

(** ** Nesting *)

Fixpoint ifDepthStmt (st : StructOpsStmt) : nat :=
  let ifDepth := fix go (b : list StructOpsStmt) : nat :=
    match b with [] => 0 | s :: r => Nat.max (ifDepthStmt s) (go r) end in
  match st_Kind st with
  | StructOpsStmtSubflowIter => ifDepth (st_IterBody st)
  | StructOpsStmtIfElse => S (Nat.max (ifDepth (st_IfBody st)) (ifDepth (st_ElseBody st)))
  | _ => 0
  end.

Definition ifDepth : list StructOpsStmt → nat :=
  fix go (b : list StructOpsStmt) : nat :=
    match b with [] => 0 | s :: r => Nat.max (ifDepthStmt s) (go r) end.

(** ** Execution *)

Inductive event : Type :=
| EvRead (acc : string)
| EvWrite (acc : string) (val : Z)
| EvCall (ki : nat)
| EvIterNew (id : nat)
| EvIterNext (id : nat) (more : bool)
| EvIterDestroy (id : nat)
| EvSched.

Inductive flow : Type := Fall | Return.

(** Every path through a rendered body.  A guarded call may find NULL and
    return; a loop runs any number of rounds; either branch may be taken. *)
Inductive exec : list StructOpsStmt → list event → flow → Prop :=
| ex_nil : exec [] [] Fall
| ex_read fi acc ct v rest t f :
    exec rest t f → exec (mkCtxRead fi acc ct v :: rest) (EvRead acc :: t) f
| ex_write fi acc ct val rest t f :
    exec rest t f → exec (mkCtxWrite fi acc ct val :: rest) (EvWrite acc val :: t) f
| ex_arith v ct src op val rest t f :
    exec rest t f → exec (mkArith v ct src op val :: rest) t f
| ex_call ki args v ct guard rest t f :
    exec rest t f → exec (mkKfuncCall ki args v ct guard :: rest) (EvCall ki :: t) f
| ex_call_null ki args v ct rest :
    exec (mkKfuncCall ki args v ct true :: rest) [EvCall ki] Return
| ex_iter id v ct sock body rest t1 t f :
    execLoop id body t1 Fall → exec rest t f →
    exec (mkSubflowIter id v ct sock body :: rest)
      (EvIterNew id :: t1 ++ EvIterDestroy id :: t) f
| ex_iter_ret id v ct sock body rest t1 :
    execLoop id body t1 Return →
    exec (mkSubflowIter id v ct sock body :: rest) (EvIterNew id :: t1) Return
| ex_then cv cop cval ifb elseb rest t1 t f :
    exec ifb t1 Fall → exec rest t f →
    exec (mkIfElse cv cop cval ifb elseb :: rest) (t1 ++ t) f
| ex_else cv cop cval ifb elseb rest t1 t f :
    exec elseb t1 Fall → exec rest t f →
    exec (mkIfElse cv cop cval ifb elseb :: rest) (t1 ++ t) f
| ex_then_ret cv cop cval ifb elseb rest t1 :
    exec ifb t1 Return → exec (mkIfElse cv cop cval ifb elseb :: rest) t1 Return
| ex_else_ret cv cop cval ifb elseb rest t1 :
    exec elseb t1 Return → exec (mkIfElse cv cop cval ifb elseb :: rest) t1 Return
with execLoop : nat → list StructOpsStmt → list event → flow → Prop :=
| el_done id body : execLoop id body [EvIterNext id false] Fall
| el_round id body t1 t2 f :
    exec body t1 Fall → execLoop id body t2 f →
    execLoop id body (EvIterNext id true :: t1 ++ t2) f
| el_ret id body t1 :
    exec body t1 Return → execLoop id body (EvIterNext id true :: t1) Return.

Scheme exec_mut := Induction for exec Sort Prop
with execLoop_mut := Induction for execLoop Sort Prop.
Combined Scheme exec_execLoop_ind from exec_mut, execLoop_mut.

(** The rendered [get_send]: the prologue obtains [subflow] and returns -1 when
    it is NULL, the body runs, the epilogue schedules and returns 0. *)
Inductive execGetSend (body : list StructOpsStmt) : list event → Z → Prop :=
| gs_no_subflow : execGetSend body [EvCall 0] (-1)
| gs_body_ret t : exec body t Return → execGetSend body (EvCall 0 :: t) (-1)
| gs_scheduled t : exec body t Fall → execGetSend body (EvCall 0 :: t ++ [EvSched]) 0.

(** The verifier's life cycle of open-coded iterators: the stack of live
    iterators after a trace, [None] when [next] or [destroy] meets an iterator
    that is not the innermost live one. *)
Fixpoint iterStack (open : list nat) (t : list event) : option (list nat) :=
  match t with
  | [] => Some open
  | EvIterNew id :: t => iterStack (id :: open) t
  | EvIterNext id _ :: t =>
      match open with
      | top :: _ => if bool_decide (top = id) then iterStack open t else None
      | [] => None
      end
  | EvIterDestroy id :: t =>
      match open with
      | top :: open => if bool_decide (top = id) then iterStack open t else None
      | [] => None
      end
  | _ :: t => iterStack open t
  end.

(** ** Helper lemmas *)

Lemma lvalueOk_mono G G' acc ct : G ⊆ G' → lvalueOk G acc ct → lvalueOk G' acc ct.
Proof.
  intros HG [(? & ? & ?)|(b & ? & ? & ?)]; [left|right]; [auto|]. exists b. auto.
Qed.

Lemma lvalueOk_scalar G acc ct : lvalueOk G acc ct → scalarCType ct = true.
Proof. by intros [(_ & -> & _)|(b & _ & -> & _)]. Qed.

Lemma ctxValueOk_fits ct v : ctxValueOk ct v → fitsCType ct v.
Proof. unfold ctxValueOk, fitsCType. case_bool_decide; lia. Qed.

Lemma argCands_ok G pool a pt :
  pool ⊆ G → a ∈ argCands pt pool → argOk G a pt.
Proof.
  intros HG. unfold argCands.
  assert (Hf : a ∈ tv_expr <$> filter (λ v, tv_ctype v = normalizeCType pt) pool →
    argOk G a pt).
  { intros ([e t] & -> & [Ht Hin]%list_elem_of_filter)%list_elem_of_fmap.
    simpl in *. subst t. left. by apply HG. }
  case_bool_decide as Hb; [|done]. intros [H|H]%elem_of_app; [auto|]. right.
  split; [done|]. rewrite !elem_of_cons in H.
  destruct H as [->|[->|[]%not_elem_of_nil]]; auto.
Qed.

Lemma argsFor_ok G pool kf args :
  pool ⊆ G → argsFor kf pool args → Forall2 (argOk G) args (kf_ArgTypes kf).
Proof. intros HG. unfold argsFor. induction 1; constructor; eauto using argCands_ok. Qed.

Lemma sVar_ne_empty n : sVar n ≠ EmptyString.
Proof. done. Qed.

#[export] Hint Resolve sVar_ne_empty ctxValueOk_fits lvalueOk_scalar : gen.

(** The generator's pool and operand table describe the C scope [G]. *)
Definition scopeInv (sc : bodyScope) (s : gst) : Prop :=
  mkVal "msk" "struct mptcp_sock *" ∈ gs_pool s ∧
  mkVal "msk->first" "struct sock *" ∈ gs_pool s ∧
  (∀ f, f ∈ sc_writeFields sc → lvalueOk (gs_pool s) (wf_accessor f) (wf_ctype f)) ∧
  (∀ rv, rv ∈ gs_rvs s →
     scalarCType (rv_ctype rv) = true ∧
     mkVal (rv_name rv) (normalizeCType (rv_ctype rv)) ∈ gs_pool s).

Lemma scopeInv_grow sc rvs rvs' pool x n n' :
  scopeInv sc (mkGst rvs pool n) →
  (∀ rv, rv ∈ rvs' → rv ∈ rvs ∨
     (scalarCType (rv_ctype rv) = true ∧
      x = mkVal (rv_name rv) (normalizeCType (rv_ctype rv)))) →
  scopeInv sc (mkGst rvs' (pool ++ [x]) n').
Proof.
  intros (H1 & H2 & H3 & H4) Hrv.
  assert (Hsub : pool ⊆ pool ++ [x]) by (intros y Hy; apply elem_of_app; auto).
  split_and!; simpl in *; auto.
  - intros f Hf. eauto using lvalueOk_mono.
  - intros rv Hin. destruct (Hrv rv Hin) as [Hold|[Hsc ->]].
    + destruct (H4 rv Hold). auto.
    + split; [done|]. apply elem_of_app. right. by apply list_elem_of_singleton.
Qed.

Lemma scopeInv_bind sc rvs pool n ct :
  scopeInv sc (mkGst rvs pool n) →
  scopeInv sc (mkGst (if scalarCType ct then rvs ++ [mkRV (sVar n) ct] else rvs)
                     (pool ++ [mkVal (sVar n) (normalizeCType ct)]) (S n)).
Proof.
  intros Hinv. eapply scopeInv_grow; [done|]. intros rv Hrv.
  destruct (scalarCType ct) eqn:Es; [|by left].
  apply elem_of_app in Hrv as [?|Hrv]; [by left|right].
  by apply list_elem_of_singleton in Hrv as ->.
Qed.

Lemma scopeInv_bind_scalar sc rvs pool n ct :
  scalarCType ct = true → scopeInv sc (mkGst rvs pool n) →
  scopeInv sc (mkGst (rvs ++ [mkRV (sVar n) ct])
                     (pool ++ [mkVal (sVar n) (normalizeCType ct)]) (S n)).
Proof. intros Hs Hinv%(scopeInv_bind _ _ _ _ ct). by rewrite Hs in Hinv. Qed.

Lemma scopeInv_field sc s fi f :
  scopeInv sc s → sc_writeFields sc !! fi = Some f →
  lvalueOk (gs_pool s) (wf_accessor f) (wf_ctype f).
Proof. intros (_ & _ & Hw & _) Hf. apply Hw. by eapply list_elem_of_lookup_2. Qed.

Lemma scopeInv_loop n : scopeInv (loopScope n) (entry (loopScope n) (S n)).
Proof.
  split_and!; simpl.
  - by left.
  - right. by left.
  - intros f [->|[->|[]%not_elem_of_nil]%elem_of_cons]%elem_of_cons.
    + left. split_and!; [done..|]. by left.
    + right. exists (sfVar n). split_and!; [done..|]. right. right. by left.
  - by intros rv ?%not_elem_of_nil.
Qed.

Lemma scopeInv_branch sc rvs pool n n' :
  scopeInv sc (mkGst rvs pool n) →
  scopeInv (branchScope sc pool) (entry (branchScope sc pool) n').
Proof.
  intros (H1 & H2 & H3 & _). split_and!; simpl in *; auto.
  by intros rv ?%not_elem_of_nil.
Qed.

Lemma scopeInv_id sc rvs pool n n' :
  scopeInv sc (mkGst rvs pool n) → scopeInv sc (mkGst rvs pool n').
Proof. done. Qed.

Lemma app_sub {A} (x : A) (l G : list A) : l ⊆ G → l ++ [x] ⊆ G ++ [x].
Proof. intros H y. rewrite !elem_of_app. intros [Hy|Hy]; [left; by apply H|by right]. Qed.

(** ** Generated bodies are well typed *)

Lemma genSteps_wt kfs sc s b s' G :
  genSteps kfs sc s b s' → scopeInv sc s → gs_pool s ⊆ G →
  ∃ G', wt kfs (negb (sc_noReturn sc)) G b G' ∧ gs_pool s' ⊆ G'.
Proof.
  intros Hg. revert G.
  induction Hg as
    [sc s|sc rvs pool n fi f rest s' Hf _ IH|sc s fi f v rest s' Hf Hv _ IH
    |sc rvs pool n src op v rest s' Hsrc Hop Hv _ IH
    |sc s ki kf args rest s' Hki Hc Ha Hr _ IH
    |sc rvs pool n ki kf args rest s' Hki Hc Ha Hr Hng _ IH
    |sc rvs pool n ki kf args rest s' Hki Hc Ha Hr Hng _ IH
    |sc rvs pool n body s1 rest s' Hai _ IHb _ IH
    |sc rvs pool n cv cop cval ifb elseb s1 s2 rest s' Hai Hd Hcv Hcop Hcval Hne _ IH1 _ IH2 _ IH];
    intros G Hinv HG; simpl in *.
  - exists G. split; [constructor|done].
  - pose proof (scopeInv_field _ _ _ _ Hinv Hf) as Hl.
    edestruct IH as (G' & ? & ?);
      [apply scopeInv_bind_scalar; eauto with gen|by apply app_sub|].
    exists G'. split; [|done]. apply wt_read; [by eapply lvalueOk_mono|done].
  - destruct (IH G) as (G' & ? & ?); [done..|]. exists G'. split; [|done].
    apply wt_write; [|by apply ctxValueOk_fits|done].
    eapply lvalueOk_mono; [done|]. by eapply scopeInv_field.
  - destruct (proj2 (proj2 (proj2 Hinv)) src Hsrc) as [Hsc Hin].
    edestruct IH as (G' & ? & ?); [by apply scopeInv_bind_scalar|by apply app_sub|].
    exists G'. split; [|done]. by apply wt_arith; [apply HG|..].
  - destruct (IH G) as (G' & ? & ?); [done..|]. exists G'. split; [|done].
    eapply wt_call; [done|by eapply argsFor_ok| |done].
    unfold callOk. by rewrite bool_decide_true.
  - edestruct IH as (G' & ? & ?);
      [by eapply scopeInv_grow; [|by left]|by apply app_sub|].
    exists G'. split; [|done]. eapply wt_call; [done|by eapply argsFor_ok| |done].
    unfold callOk. rewrite bool_decide_false by done. split_and!; [done..| |done].
    intros _. destruct Hc as [_ Hc]. destruct (sc_noReturn sc); [|done].
    rewrite Hc in Hng; done.
  - edestruct IH as (G' & ? & ?); [by apply scopeInv_bind|by apply app_sub|].
    exists G'. split; [|done]. eapply wt_call; [done|by eapply argsFor_ok| |done].
    unfold callOk. by rewrite bool_decide_false by done.
  - destruct (IHb (G ++ [mkVal (sfVar n) "struct mptcp_subflow_context *"])) as (G1 & ? & _).
    { apply scopeInv_loop. }
    { destruct Hinv as (? & ? & _).
      intros x [->|[->|Hx]%elem_of_cons]%elem_of_cons; apply elem_of_app; auto. }
    destruct (IH G) as (G' & ? & ?); [by eapply scopeInv_id|done|].
    exists G'. split; [|done]. by eapply wt_iter; [apply HG, Hinv|..].
  - destruct (IH1 G) as (G1 & ? & _); [by eapply scopeInv_branch|done|].
    destruct (IH2 G) as (G2 & ? & _); [by eapply scopeInv_branch|done|].
    destruct (IH G) as (G' & ? & ?); [by eapply scopeInv_id|done|].
    destruct (proj2 (proj2 (proj2 Hinv)) cv Hcv) as [? ?].
    exists G'. split; [|done]. by eapply wt_if; [apply HG|..].
Qed.

(** ** Declared names are unique *)

Lemma namedBy_inj k k' x : namedBy k x → namedBy k' x → k = k'.
Proof.
  assert (Hs : ∀ a b, sVar a ≠ sfVar b).
  { intros a b [= E]. by eapply (pretty_nat_head a); [|exact E]. }
  intros [->|[->| ->]] [E|[E|E]]; try discriminate E.
  2: by destruct (Hs _ _ E).
  2: by destruct (Hs _ _ (eq_sym E)).
  all: injection E as E; by apply (inj pretty).
Qed.

Lemma freshNames_nil n n' : freshNames n n' [].
Proof. split; [constructor|]. by intros x ?%not_elem_of_nil. Qed.

Lemma freshNames_app lo mid hi l1 l2 :
  freshNames lo mid l1 → freshNames mid hi l2 → lo ≤ mid ≤ hi →
  freshNames lo hi (l1 ++ l2).
Proof.
  intros [Hn1 H1] [Hn2 H2] Hle. split.
  - apply NoDup_app. split_and!; [done| |done]. intros x Hx1 Hx2.
    destruct (H1 x Hx1) as (k1 & ? & Hk1), (H2 x Hx2) as (k2 & ? & Hk2).
    assert (k1 = k2) by (by eapply namedBy_inj). lia.
  - intros x [Hx|Hx]%elem_of_app.
    + destruct (H1 x Hx) as (k & ? & ?). exists k. split; [lia|done].
    + destruct (H2 x Hx) as (k & ? & ?). exists k. split; [lia|done].
Qed.

Lemma freshNames_one n x : namedBy n x → freshNames n (S n) [x].
Proof.
  intros Hx. split; [apply NoDup_singleton|].
  intros y ->%list_elem_of_singleton. exists n. split; [lia|done].
Qed.

Lemma freshNames_iter n : freshNames n (S n) [sfVar n; itVar n].
Proof.
  split.
  - apply NoDup_cons. split; [|apply NoDup_singleton].
    intros E%list_elem_of_singleton. discriminate E.
  - intros y Hy. exists n. split; [lia|]. unfold namedBy.
    apply elem_of_cons in Hy as [->|Hy]; [auto|].
    apply list_elem_of_singleton in Hy as ->. auto.
Qed.

Lemma decls_cons st rest :
  decls (st :: rest) = flat_map declsStmt (flattenStmt st) ++ decls rest.
Proof. unfold decls. simpl. apply flat_map_app. Qed.

Lemma decls_iter n body : flat_map declsStmt (flattenStmt (iterStmt n body))
  = [sfVar n; itVar n] ++ decls body.
Proof. done. Qed.

Lemma decls_if cv cop cval ifb elseb :
  flat_map declsStmt (flattenStmt (mkIfElse cv cop cval ifb elseb))
  = decls ifb ++ decls elseb.
Proof. rewrite flattenStmt_unfold. simpl. apply flat_map_app. Qed.

Lemma genSteps_fresh kfs sc s b s' :
  genSteps kfs sc s b s' →
  gs_id s ≤ gs_id s' ∧ freshNames (gs_id s) (gs_id s') (decls b).
Proof.
  induction 1 as [| | | | | | | sc rvs pool n body s1 rest s' _ _ IHb _ IH
    | sc rvs pool n cv cop cval ifb elseb s1 s2 rest s' _ _ _ _ _ _ _ IH1 _ IH2 _ IH];
    simpl in *; destruct_and?; (split; [lia|]); rewrite ?decls_cons.
  1: apply freshNames_nil.
  1, 3, 5, 6: eapply freshNames_app; [apply freshNames_one; by left|done|lia].
  1, 2: done.
  - rewrite decls_iter, <- app_assoc.
    eapply freshNames_app; [apply freshNames_iter| |lia].
    eapply freshNames_app; [done..|lia].
  - rewrite decls_if, <- app_assoc. eapply freshNames_app; [done| |lia].
    eapply freshNames_app; [done..|lia].
Qed.

(** ** Branches nest at most [ifElseMaxDepth] deep *)

Lemma ifDepthStmt_unfold st :
  ifDepthStmt st =
  match st_Kind st with
  | StructOpsStmtSubflowIter => ifDepth (st_IterBody st)
  | StructOpsStmtIfElse => S (Nat.max (ifDepth (st_IfBody st)) (ifDepth (st_ElseBody st)))
  | _ => 0
  end.
Proof. by destruct st as [[] ]. Qed.

Lemma genSteps_depth kfs sc s b s' :
  genSteps kfs sc s b s' →
  ifDepth b ≤ if sc_allowIf sc then ifElseMaxDepth - sc_depth sc else 0.
Proof.
  induction 1 as [| | | | | | | sc rvs pool n body s1 rest s' _ _ IHb _ IH
    | sc rvs pool n cv cop cval ifb elseb s1 s2 rest s' Hai Hd _ _ _ _ _ IH1 _ IH2 _ IH];
    cbn [ifDepth]; rewrite ?ifDepthStmt_unfold;
    cbn [st_Kind mkCtxRead mkCtxWrite mkArith mkKfuncCall iterStmt mkSubflowIter mkIfElse
         st_IterBody st_IfBody st_ElseBody]; try lia.
  - cbn [loopScope sc_allowIf] in IHb. fold ifDepth. lia.
  - cbn [branchScope sc_allowIf sc_depth] in IH1, IH2. rewrite Hai in *.
    fold ifDepth. lia.
Qed.

(** ** Execution of well-typed bodies *)

(** A block that may not return falls through on every path. *)
Lemma wt_noreturn_fall kfs :
  (∀ b t f, exec b t f → ∀ G G', wt kfs false G b G' → f = Fall) ∧
  (∀ id b t f, execLoop id b t f → ∀ G G', wt kfs false G b G' → f = Fall).
Proof.
  apply exec_execLoop_ind; intros; try done;
    try match goal with H : wt _ _ _ (_ :: _) _ |- _ => inversion H; subst; clear H end;
    eauto.
  match goal with H : callOk _ _ _ _ _ _ _ |- _ => unfold callOk in H end.
  case_bool_decide; naive_solver.
Qed.

Lemma iterStack_skip t e open k :
  match e with EvRead _ | EvWrite _ _ | EvCall _ | EvSched => True | _ => False end →
  iterStack open ((e :: t) ++ k) = iterStack open (t ++ k).
Proof. by destruct e. Qed.

(** Whatever path is taken, a body leaves the stack of live iterators as it
    found it. *)
Lemma wt_iter_balanced kfs :
  (∀ b t f, exec b t f → ∀ ret G G', wt kfs ret G b G' →
     ∀ open k, iterStack open (t ++ k) = iterStack open k) ∧
  (∀ id b t f, execLoop id b t f → ∀ G G', wt kfs false G b G' →
     ∀ open k, iterStack (id :: open) (t ++ k) = iterStack (id :: open) k).
Proof.
  apply exec_execLoop_ind; intros; try done;
    try match goal with H : wt _ _ _ (_ :: _) _ |- _ => inversion H; subst; clear H end;
    try (rewrite iterStack_skip by done); eauto.
  - simpl. rewrite <- app_assoc. erewrite H by done. simpl.
    rewrite bool_decide_true by done. eauto.
  - simpl. rewrite <- (app_nil_r t1), <- app_assoc.
    by apply (proj2 (wt_noreturn_fall kfs)) with (G := G ++ [mkVal v "struct mptcp_subflow_context *"]) (G' := G1) in e.
  - rewrite <- app_assoc. erewrite H by done. eauto.
  - rewrite <- app_assoc. erewrite H by done. eauto.
  - simpl. rewrite bool_decide_true by done. done.
  - simpl. rewrite bool_decide_true by done. rewrite <- app_assoc.
    erewrite H by done. eauto.
  - simpl. rewrite bool_decide_true by done. eauto.
Qed.

(** A body that returns did so at a guarded call of its own top level. *)
Lemma wt_return_guard kfs b t f :
  exec b t f → ∀ ret G G', wt kfs ret G b G' → f = Return →
  ∃ t' ki kf, t = t' ++ [EvCall ki] ∧ kfs !! ki = Some kf ∧ needsNullGuard kf = true.
Proof.
  induction 1; intros ret G G' Hwt Hf; try done; inversion Hwt; subst; clear Hwt;
    try (edestruct IHexec as (t' & ki' & kf' & -> & ? & ?); [done..|];
         by eexists (_ :: t'), ki', kf');
    try (by edestruct IHexec; eauto).
  - exists [], ki, kf. split_and!; [done..|]. unfold callOk in *.
    case_bool_decide; naive_solver.
  - edestruct IHexec as (t' & ki' & kf' & -> & ? & ?); [done..|].
    exists (EvIterNew id :: t1 ++ EvIterDestroy id :: t'), ki', kf'.
    split_and!; [|done..]. simpl. by rewrite <- app_assoc.
  - by eapply (proj2 (wt_noreturn_fall kfs)) in H; [|done].
  - edestruct IHexec2 as (t' & ki' & kf' & -> & ? & ?); [done..|].
    exists (t1 ++ t'), ki', kf'. by rewrite <- app_assoc.
  - edestruct IHexec2 as (t' & ki' & kf' & -> & ? & ?); [done..|].
    exists (t1 ++ t'), ki', kf'. by rewrite <- app_assoc.
Qed.

Lemma exec_no_sched b t f : exec b t f → EvSched ∉ t.
Proof.
  assert (H : (∀ b t f, exec b t f → EvSched ∉ t) ∧
              (∀ id b t f, execLoop id b t f → EvSched ∉ t)).
  { apply exec_execLoop_ind; intros;
      rewrite ?not_elem_of_cons, ?not_elem_of_app, ?not_elem_of_cons;
      split_and?; auto using not_elem_of_nil. }
  apply H.
Qed.

(** ** The generated program *)

(** Everything the generator establishes about the program it returns. *)
Definition progPost (sop : StructOpsProg) : Prop :=
  sop_Kfuncs sop = mptcpSchedKfuncs ∧ sop_IterKfuncs sop = mptcpSubflowIterKfuncs ∧
  (∃ n, (0 ≤ n < 2 ^ 24)%Z ∧ sop_SchedName sop = "brf_" +:+ fmtHex n) ∧
  ∃ n1 n2 n3,
    bodyPost mptcpSchedKfuncs getSendScope 0 (sop_GetSendBody sop, n1) ∧
    bodyPost mptcpSchedKfuncs initReleaseScope n1 (sop_InitBody sop, n2) ∧
    bodyPost mptcpSchedKfuncs initReleaseScope n2 (sop_ReleaseBody sop, n3).

Lemma schedName_length n :
  (0 ≤ n < 2 ^ 24)%Z → String.length ("brf_" +:+ fmtHex n) ≤ 10.
Proof.
  intros Hn. rewrite string_length_app.
  pose proof (fmtHex_go_length 64 5 n EmptyString Hn) as H.
  unfold fmtHex. simpl (String.length "brf_"). simpl (String.length EmptyString) in H. lia.
Qed.

Lemma rank_getSend : rank getSendScope ≤ genFuel.
Proof. unfold rank, genFuel, ifElseMaxDepth. simpl. lia. Qed.

Lemma rank_initRelease : rank initReleaseScope ≤ genFuel.
Proof. unfold rank, genFuel, ifElseMaxDepth. simpl. lia. Qed.

#[local] Hint Resolve rank_getSend rank_initRelease : gen.

Lemma wp_genStructOpsProg : wp genStructOpsProg progPost.
Proof.
  unfold genStructOpsProg.
  eapply wp_bind; [by apply (wp_Intn _ (λ n, 0 ≤ n < 2 ^ 24)%Z)|].
  intros n Hn. cbn beta in Hn.
  pose proof (schedName_length n Hn) as Hlen.
  assert ((schedNameMax <=? String.length ("brf_" +:+ fmtHex n)) = false) as ->
    by (apply Nat.leb_gt; unfold schedNameMax; lia).
  eapply wp_bind; [apply genStructOpsBody_adequate; auto with gen; done|]. intros [b1 n1] H1.
  eapply wp_bind; [apply genStructOpsBody_adequate; auto with gen; done|]. intros [b2 n2] H2.
  eapply wp_bind; [apply genStructOpsBody_adequate; auto with gen; done|]. intros [b3 n3] H3.
  wret. split_and!; [done..|by eauto|]. by exists n1, n2, n3.
Qed.

Lemma scopeInv_getSend : scopeInv getSendScope (entry getSendScope 0).
Proof.
  split_and!; simpl.
  - by left.
  - right. by left.
  - intros f [->|[->|[]%not_elem_of_nil]%elem_of_cons]%elem_of_cons.
    + left. split_and!; [done..|]. by left.
    + right. exists "subflow". split_and!; [done..|]. right. right. by left.
  - by intros rv ?%not_elem_of_nil.
Qed.

Lemma scopeInv_initRelease n : scopeInv initReleaseScope (entry initReleaseScope n).
Proof.
  split_and!; simpl.
  - by left.
  - right. by left.
  - intros f [->|[]%not_elem_of_nil]%elem_of_cons. left. split_and!; [done..|]. by left.
  - by intros rv ?%not_elem_of_nil.
Qed.

(** The three callbacks of a scheduler are well typed: [get_send] with the
    values of its prologue in scope and allowed to return, [init] and [release]
    with [msk] only and not allowed to. *)
Definition wellTyped (sop : StructOpsProg) : Prop :=
  (∃ G, wt mptcpSchedKfuncs true
     [mkVal "msk" "struct mptcp_sock *"; mkVal "msk->first" "struct sock *";
      mkVal "subflow" "struct mptcp_subflow_context *"] (sop_GetSendBody sop) G) ∧
  Forall (λ b, ∃ G, wt mptcpSchedKfuncs false
     [mkVal "msk" "struct mptcp_sock *"; mkVal "msk->first" "struct sock *"] b G)
    [sop_InitBody sop; sop_ReleaseBody sop].

Lemma progPost_wellTyped sop : progPost sop → wellTyped sop.
Proof.
  intros (_ & _ & _ & n1 & n2 & n3 & (s1 & H1 & _) & (s2 & H2 & _) & (s3 & H3 & _)).
  split.
  - edestruct genSteps_wt as (G & ? & _); [exact H1|apply scopeInv_getSend|done|].
    by exists G.
  - repeat constructor.
    + edestruct genSteps_wt as (G & ? & _); [exact H2|apply scopeInv_initRelease|done|].
      by exists G.
    + edestruct genSteps_wt as (G & ? & _); [exact H3|apply scopeInv_initRelease|done|].
      by exists G.
Qed.

(** The draws under which the first statement of [get_send] is a guarded call
    of [bpf_mptcp_subflow_tcp_sock]. *)
Definition guardedDraws : rng := mkRng (λ n, if bool_decide (n = 2) then 3%Z else 0%Z) 0.

(** Characters of a C identifier that a scheduler name may use. *)
Definition isNameChar (c : Ascii.ascii) : bool :=
  let n := Ascii.nat_of_ascii c in
  isDigit c || ((97 <=? n) && (n <=? 122)) || (n =? 95).

(** ** Properties *)

(** C3: for every seed the generator terminates without a panic and the
    scheduler it returns is well typed: every argument of a kfunc call, every
    arithmetic operand and every branch condition is a value in scope of the
    required type, every context access targets one of the two fields the kernel
    lets a scheduler write, every KF_RET_NULL pointer is bound and guarded, and
    a guard (which returns) occurs only where a return is allowed: never inside
    a loop, a branch, [init] or [release]. *)
Theorem generated_schedulers_well_typed (r : rng) :
  ∃ sop, run genStructOpsProg r = Some sop ∧ wellTyped sop.
Proof.
  destruct (wp_run _ _ r wp_genStructOpsProg) as (sop & Hrun & Hp).
  exists sop. split; [done|]. by apply progPost_wellTyped.
Qed.

(** C7: on every path through a generated [get_send] the open-coded iterators
    are created, advanced and destroyed in stack order and none is left live;
    the path returns 0 exactly when it reached the epilogue that schedules the
    subflow, and otherwise it returns -1 right after a call that may yield
    NULL.  [init] and [release] always run to their end. *)
Theorem generated_callbacks_paths (r : rng) :
  ∃ sop, run genStructOpsProg r = Some sop ∧
    (∀ t ret, execGetSend (sop_GetSendBody sop) t ret →
       iterStack [] t = Some [] ∧
       ((ret = 0%Z ∧ last t = Some EvSched) ∨
        (ret = (-1)%Z ∧ EvSched ∉ t ∧
         ∃ ki kf, last t = Some (EvCall ki) ∧ mptcpSchedKfuncs !! ki = Some kf ∧
                  needsNullGuard kf = true))) ∧
    (∀ b t f, b ∈ [sop_InitBody sop; sop_ReleaseBody sop] → exec b t f →
       f = Fall ∧ iterStack [] t = Some []).
Proof.
  destruct (wp_run _ _ r wp_genStructOpsProg) as (sop & Hrun & Hp).
  exists sop. split; [done|]. destruct (progPost_wellTyped _ Hp) as [(G & Hwt) Hir].
  split.
  - intros t ret [|t' Ht|t' Ht].
    + split; [done|]. right. split_and!; [done| |by exists 0; eexists].
      by rewrite list_elem_of_singleton.
    + split.
      { simpl. pose proof (proj1 (wt_iter_balanced _) _ _ _ Ht _ _ _ Hwt [] []) as E.
        by rewrite app_nil_r in E. }
      right. destruct (wt_return_guard _ _ _ _ Ht _ _ _ Hwt eq_refl)
        as (t'' & ki & kf & -> & Hk & Hg).
      split_and!; [done| |exists ki, kf; split_and!; [|done..]].
      * apply not_elem_of_cons. split; [done|]. by eapply exec_no_sched.
      * by rewrite app_comm_cons, last_snoc.
    + split; [|left; split; [done|by rewrite app_comm_cons, last_snoc]].
      simpl. by rewrite (proj1 (wt_iter_balanced _) _ _ _ Ht _ _ _ Hwt).
  - intros b t f Hb Hex. rewrite Forall_forall in Hir.
    destruct (Hir b Hb) as (G' & Hwt'). split.
    + by eapply (proj1 (wt_noreturn_fall _)).
    + pose proof (proj1 (wt_iter_balanced _) _ _ _ Hex _ _ _ Hwt' [] []) as E.
      by rewrite app_nil_r in E.
Qed.

(** The locals declared anywhere in a generated scheduler (in the three
    callbacks, in loops and in branches) have pairwise distinct names, so no
    rendered declaration shadows or redeclares another. *)
Theorem generated_locals_unique (r : rng) :
  ∃ sop, run genStructOpsProg r = Some sop ∧
    NoDup (decls (sop_GetSendBody sop) ++ decls (sop_InitBody sop)
           ++ decls (sop_ReleaseBody sop)).
Proof.
  destruct (wp_run _ _ r wp_genStructOpsProg) as (sop & Hrun & Hp).
  exists sop. split; [done|].
  destruct Hp as (_ & _ & _ & n1 & n2 & n3 & (s1 & H1 & E1 & _) & (s2 & H2 & E2 & _)
    & (s3 & H3 & E3 & _)).
  apply genSteps_fresh in H1 as [? H1], H2 as [? H2], H3 as [? H3]. simpl in *. subst.
  eapply freshNames_app; [exact H1| |split; [done|]].
  - by eapply freshNames_app; [exact H2|exact H3|].
  - etrans; eassumption.
Qed.

(** The size and shape the generator promises: [get_send] has three to
    eight top-level statements, at least one of them a context write, and
    branches nest at most [ifElseMaxDepth] deep; [init] and [release] have two
    to four statements and no branches. *)
Theorem generated_shape (r : rng) :
  ∃ sop, run genStructOpsProg r = Some sop ∧
    3 ≤ length (sop_GetSendBody sop) ≤ 8 ∧
    haveWrite (sop_GetSendBody sop) = true ∧
    ifDepth (sop_GetSendBody sop) ≤ ifElseMaxDepth ∧
    Forall (λ b, 2 ≤ length b ≤ 4 ∧ ifDepth b = 0) [sop_InitBody sop; sop_ReleaseBody sop].
Proof.
  destruct (wp_run _ _ r wp_genStructOpsProg) as (sop & Hrun & Hp).
  exists sop. split; [done|].
  destruct Hp as (_ & _ & _ & n1 & n2 & n3 & (s1 & H1 & _ & L1 & W1) & (s2 & H2 & _ & L2 & _)
    & (s3 & H3 & _ & L3 & _)).
  apply genSteps_depth in H1, H2, H3. simpl in L1, L2, L3.
  cbn [getSendScope initReleaseScope sc_allowIf sc_depth fst] in H1, H2, H3.
  split_and!; [lia|lia|by apply W1|lia|].
  by repeat (apply Forall_cons; split; [cbn beta; lia|]).
Qed.

(** The scheduler name is ["brf_"] followed by lower-case hexadecimal
    digits, and with its terminator it fits MPTCP_SCHED_NAME_MAX. *)
Theorem generated_name_fits (r : rng) :
  ∃ sop, run genStructOpsProg r = Some sop ∧
    String.length (sop_SchedName sop) < schedNameMax ∧
    hasPrefix (sop_SchedName sop) "brf_" = true ∧
    all_chars isNameChar (sop_SchedName sop) = true.
Proof.
  destruct (wp_run _ _ r wp_genStructOpsProg) as (sop & Hrun & Hp).
  exists sop. split; [done|]. destruct Hp as (_ & _ & (n & Hn & ->) & _).
  split_and!.
  - pose proof (schedName_length n Hn). unfold schedNameMax. lia.
  - unfold hasPrefix. simpl. by destruct (fmtHex n).
  - rewrite all_chars_app. simpl. apply fmtHex_go_chars; [by repeat constructor|done].
Qed.

(** The guard of a top-level KF_RET_NULL call returns before the epilogue,
    so a generated [get_send] whose prologue found a subflow may still return
    -1 without scheduling one. *)
Theorem get_send_may_skip_scheduling :
  ∃ r sop t, run genStructOpsProg r = Some sop ∧
    execGetSend (sop_GetSendBody sop) (EvCall 0 :: t) (-1) ∧ t ≠ [] ∧
    EvSched ∉ EvCall 0 :: t.
Proof.
  exists guardedDraws. destruct (run genStructOpsProg guardedDraws) as [sop|] eqn:E;
    [|vm_compute in E; discriminate E].
  exists sop, [EvCall 2]. split; [done|].
  assert (Hb : ∃ args v ct rest,
    sop_GetSendBody sop = mkKfuncCall 2 args v ct true :: rest).
  { vm_compute in E. injection E as <-. by do 4 eexists. }
  destruct Hb as (args & v & ct & rest & ->).
  split_and!; [apply gs_body_ret, ex_call_null|done|].
  apply not_elem_of_cons. split; [done|]. by rewrite list_elem_of_singleton.
Qed.
