(* ===== verification/StructOpsRender.v ===== *)
(** * Rendering a scheduler to BPF C

    The rendering half of [prog/brf_structops.go]: [renderBody],
    [renderIfElse], [renderSubflowIter] and [genStructOpsSource].  A renderer
    returns the text it appends to the buffer; [None] is the panic of an index
    expression out of range ([sop.Kfuncs[st.KfuncIdx]]). *)

From stdpp Require Import base numbers strings pretty gmap list.
From S2P Require Import Prelude StructOpsModel StructOpsGen StructOpsGrammar StructOpsTyping.

Local Open Scope string_scope.
Local Open Scope list_scope.
Local Open Scope nat_scope.

(** The argument list of a call, separated by commas. *)
Fixpoint argList (ai : nat) (args : list string) : string :=
  match args with
  | [] => EmptyString
  | a :: rest => (if (0 <? ai) then ", " else EmptyString) +:+ a +:+ argList (S ai) rest
  end.

Definition renderCond (st : StructOpsStmt) : string :=
  if bool_decide (st_CondOp st = EmptyString) then st_CondVar st
  else st_CondVar st +:+ " " +:+ st_CondOp st +:+ " " +:+ pretty (st_CondVal st).

(** The [StructOpsStmtKfuncCall] case of [renderBody]. *)
Definition renderCall (sop : StructOpsProg) (st : StructOpsStmt) (indent : string) :
    option string :=
  kf ← sop_Kfuncs sop !! st_KfuncIdx st;
  let args := argList 0 (st_KfuncArgs st) in
  let call :=
    if bool_decide (st_Var st = EmptyString)
    then indent +:+ kf_Name kf +:+ "(" +:+ args +:+ ");" +:+ nl
    else indent +:+ st_CType st +:+ " " +:+ st_Var st +:+ " = " +:+ kf_Name kf
         +:+ "(" +:+ args +:+ ");" +:+ nl in
  let guard :=
    if st_NullGuard st
    then indent +:+ "if (!" +:+ st_Var st +:+ ")" +:+ nl +:+
         indent +:+ tab +:+ "return -1;" +:+ nl
    else EmptyString in
  Some (call +:+ guard).

Fixpoint renderStmt (sop : StructOpsProg) (st : StructOpsStmt) (indent : string) :
    option string :=
  let renderBody := fix go (body : list StructOpsStmt) (indent : string) : option string :=
    match body with
    | [] => Some EmptyString
    | st :: rest =>
        a ← renderStmt sop st indent;
        b ← go rest indent;
        Some (a +:+ b)
    end in
  match st_Kind st with
  | StructOpsStmtCtxRead =>
      Some (indent +:+ st_FieldCType st +:+ " " +:+ st_Var st +:+ " = "
            +:+ st_FieldAccessor st +:+ ";" +:+ nl)
  | StructOpsStmtCtxWrite =>
      Some (indent +:+ st_FieldAccessor st +:+ " = " +:+ pretty (st_Val st) +:+ ";" +:+ nl)
  | StructOpsStmtArith =>
      Some (indent +:+ st_CType st +:+ " " +:+ st_Var st +:+ " = " +:+ st_SrcVar st
            +:+ " " +:+ st_Op st +:+ " " +:+ pretty (st_Val st) +:+ ";" +:+ nl)
  | StructOpsStmtKfuncCall => renderCall sop st indent
  | StructOpsStmtSubflowIter =>
      let it := itVar (st_IterId st) in
      body ← renderBody (st_IterBody st) (indent +:+ tab);
      Some (indent +:+ "/* BRF-generated subflow iterator. */" +:+ nl +:+
            indent +:+ "struct bpf_iter_mptcp_subflow " +:+ it +:+ ";" +:+ nl +:+
            indent +:+ "struct mptcp_subflow_context *" +:+ st_Var st +:+ ";" +:+ nl +:+
            indent +:+ "bpf_iter_mptcp_subflow_new(&" +:+ it +:+ ", "
              +:+ st_IterSockExpr st +:+ ");" +:+ nl +:+
            indent +:+ "while ((" +:+ st_Var st +:+ " = bpf_iter_mptcp_subflow_next(&"
              +:+ it +:+ "))) {" +:+ nl +:+
            body +:+
            indent +:+ "}" +:+ nl +:+
            indent +:+ "bpf_iter_mptcp_subflow_destroy(&" +:+ it +:+ ");" +:+ nl)
  | StructOpsStmtIfElse =>
      ifb ← renderBody (st_IfBody st) (indent +:+ tab);
      elseb ← renderBody (st_ElseBody st) (indent +:+ tab);
      Some (indent +:+ "/* BRF-generated if/else. */" +:+ nl +:+
            indent +:+ "if (" +:+ renderCond st +:+ ") {" +:+ nl +:+
            ifb +:+
            (if (0 <? length (st_ElseBody st))
             then indent +:+ "} else {" +:+ nl +:+ elseb else EmptyString) +:+
            indent +:+ "}" +:+ nl)
  end.

Definition renderBody (sop : StructOpsProg) : list StructOpsStmt → string → option string :=
  fix go (body : list StructOpsStmt) (indent : string) : option string :=
    match body with
    | [] => Some EmptyString
    | st :: rest =>
        a ← renderStmt sop st indent;
        b ← go rest indent;
        Some (a +:+ b)
    end.

(** The extern declarations: the kfuncs the scheduler references, and the three
    iterator kfuncs when some body iterates. *)
Definition externDecls (sop : StructOpsProg) : option (list string) :=
  ks ← mapM (λ ki, kf_CDecl <$> sop_Kfuncs sop !! ki) (usedKfuncIdxs sop);
  Some (ks ++ if usesSubflowIter sop
              then "/* MPTCP subflow-iterator kfuncs (net/mptcp/bpf.c). */"
                   :: (kf_CDecl <$> sop_IterKfuncs sop)
              else []).

Fixpoint lines (l : list string) : string :=
  match l with
  | [] => EmptyString
  | x :: l => x +:+ nl +:+ lines l
  end.

(** One of the two [void] callbacks. *)
Definition renderVoidCallback (sop : StructOpsProg) (suffix : string)
    (body : list StructOpsStmt) : option string :=
  b ← renderBody sop body tab;
  Some ("SEC(" +:+ dq +:+ "struct_ops" +:+ dq +:+ ")" +:+ nl +:+
        "void BPF_PROG(" +:+ sop_SchedName sop +:+ suffix +:+ ", struct mptcp_sock *msk)"
          +:+ nl +:+ "{" +:+ nl +:+
        tab +:+ "/* BRF-generated body. */" +:+ nl +:+
        (if (length body =? 0) then tab +:+ "/* (empty) */" +:+ nl else EmptyString) +:+
        b +:+ "}" +:+ nl +:+ nl).

(** The [get_send] callback: fixed prologue, generated body, fixed epilogue. *)
Definition renderGetSend (sop : StructOpsProg) : option string :=
  b ← renderBody sop (sop_GetSendBody sop) tab;
  Some ("SEC(" +:+ dq +:+ "struct_ops" +:+ dq +:+ ")" +:+ nl +:+
        "int BPF_PROG(" +:+ sop_SchedName sop +:+ "_get_send, struct mptcp_sock *msk)"
          +:+ nl +:+ "{" +:+ nl +:+
        tab +:+ "struct mptcp_subflow_context *subflow;" +:+ nl +:+ nl +:+
        tab +:+ "subflow = bpf_mptcp_subflow_ctx(msk->first);" +:+ nl +:+
        tab +:+ "if (!subflow)" +:+ nl +:+
        tab +:+ tab +:+ "return -1;" +:+ nl +:+ nl +:+
        tab +:+ "/* BRF-generated body. */" +:+ nl +:+
        (if (length (sop_GetSendBody sop) =? 0) then tab +:+ "/* (empty) */" +:+ nl
         else EmptyString) +:+
        b +:+ nl +:+
        tab +:+ "mptcp_subflow_set_scheduled(subflow, true);" +:+ nl +:+
        tab +:+ "return 0;" +:+ nl +:+
        "}" +:+ nl +:+ nl).

(** The struct_ops map instance. *)
Definition renderInstance (sop : StructOpsProg) : string :=
  let n := sop_SchedName sop in
  "SEC(" +:+ dq +:+ ".struct_ops.link" +:+ dq +:+ ")" +:+ nl +:+
  "struct mptcp_sched_ops " +:+ n +:+ " = {" +:+ nl +:+
  tab +:+ ".init" +:+ tab +:+ tab +:+ "= (void *)" +:+ n +:+ "_init," +:+ nl +:+
  tab +:+ ".release" +:+ tab +:+ "= (void *)" +:+ n +:+ "_release," +:+ nl +:+
  tab +:+ ".get_send" +:+ tab +:+ "= (void *)" +:+ n +:+ "_get_send," +:+ nl +:+
  tab +:+ ".name" +:+ tab +:+ tab +:+ "= " +:+ dq +:+ n +:+ dq +:+ "," +:+ nl +:+
  "};" +:+ nl.

Definition renderHeader : string :=
  "// SPDX-License-Identifier: GPL-2.0" +:+ nl +:+
  "/* BRF-generated MPTCP struct_ops scheduler (Phase 3, Stage C). */" +:+ nl +:+
  "#include " +:+ dq +:+ "vmlinux.h" +:+ dq +:+ nl +:+
  "#include <bpf/bpf_helpers.h>" +:+ nl +:+
  "#include <bpf/bpf_tracing.h>" +:+ nl +:+ nl +:+
  "char _license[] SEC(" +:+ dq +:+ "license" +:+ dq +:+ ") = "
    +:+ dq +:+ "GPL" +:+ dq +:+ ";" +:+ nl +:+ nl.

(** [genStructOpsSource]. *)
Definition genStructOpsSource (sop : StructOpsProg) : option string :=
  externs ← externDecls sop;
  init ← renderVoidCallback sop "_init" (sop_InitBody sop);
  release ← renderVoidCallback sop "_release" (sop_ReleaseBody sop);
  getSend ← renderGetSend sop;
  Some (renderHeader +:+
        "/* MPTCP scheduler kfuncs (net/mptcp/bpf.c). */" +:+ nl +:+
        lines externs +:+ nl +:+
        init +:+ release +:+ getSend +:+ renderInstance sop).

(** ** Balanced text *)

Definition lbrace : Ascii.ascii := Ascii.ascii_of_nat 123.

Definition rbrace : Ascii.ascii := Ascii.ascii_of_nat 125.

Definition notBrace (c : Ascii.ascii) : bool :=
  negb (Ascii.eqb c lbrace) && negb (Ascii.eqb c rbrace).

(** The brace depth after [s], [None] when a brace is closed that was not
    opened. *)
Fixpoint braceDepth (d : nat) (s : string) : option nat :=
  match s with
  | EmptyString => Some d
  | String c s =>
      if Ascii.eqb c lbrace then braceDepth (S d) s
      else if Ascii.eqb c rbrace
           then match d with O => None | S d => braceDepth d s end
           else braceDepth d s
  end.

Definition balanced (s : string) : Prop := ∀ d, braceDepth d s = Some d.

(** The strings of a statement contain no brace, and its kfunc is in the
    table. *)
Definition clean (s : string) : Prop := all_chars notBrace s = true.

Definition cleanStmt (kfs : list BpfKfunc) (st : StructOpsStmt) : Prop :=
  Forall clean ([st_FieldAccessor st; st_FieldCType st; st_Var st; st_CType st;
    st_SrcVar st; st_Op st; st_IterSockExpr st; st_CondVar st; st_CondOp st]
    ++ st_KfuncArgs st) ∧
  st_KfuncIdx st < length kfs.

(** ** Lemmas on balanced text *)

Lemma braceDepth_app d s1 s2 :
  braceDepth d (s1 +:+ s2) = braceDepth d s1 ≫= λ d', braceDepth d' s2.
Proof.
  revert d. induction s1 as [|c s1 IH]; intros d; [done|].
  change (String c s1 +:+ s2) with (String c (s1 +:+ s2)). simpl.
  case_match; [apply IH|]. case_match; [destruct d; [done|]|]; apply IH.
Qed.

Lemma clean_balanced s : clean s → balanced s.
Proof.
  unfold clean, notBrace. intros Hs d. induction s as [|c s IH]; simpl in *; [done|].
  apply andb_true_iff in Hs as [Hc Hs]. apply andb_true_iff in Hc as [H1 H2].
  apply negb_true_iff in H1, H2. rewrite H1, H2. auto.
Qed.

Lemma clean_app s1 s2 : clean s1 → clean s2 → clean (s1 +:+ s2).
Proof. unfold clean. rewrite all_chars_app. by intros -> ->. Qed.

Lemma balanced_app_l d s k : balanced s → braceDepth d (s +:+ k) = braceDepth d k.
Proof. intros Hs. by rewrite braceDepth_app, (Hs d). Qed.

Lemma clean_app_l d s k : clean s → braceDepth d (s +:+ k) = braceDepth d k.
Proof. intros Hs. by apply balanced_app_l, clean_balanced. Qed.

Lemma balanced_app s1 s2 : balanced s1 → balanced s2 → balanced (s1 +:+ s2).
Proof. intros H1 H2 d. by rewrite balanced_app_l. Qed.

Lemma clean_pretty_N (n : N) : clean (pretty n).
Proof.
  apply all_chars_pretty_N. intros k. unfold pretty_N_char. by repeat case_match.
Qed.

Lemma clean_pretty_nat (n : nat) : clean (pretty n).
Proof. apply clean_pretty_N. Qed.

Lemma clean_pretty_Z (z : Z) : clean (pretty z).
Proof.
  destruct z as [|p|p]; [done|apply (clean_pretty_N (N.pos p))|].
  apply (clean_app "-"); [done|]. apply (clean_pretty_N (N.pos p)).
Qed.

Lemma clean_nl : clean nl. Proof. done. Qed.

Lemma clean_tab : clean tab. Proof. done. Qed.

Lemma clean_dq : clean dq. Proof. done. Qed.

Lemma clean_itVar n : clean (itVar n).
Proof. apply clean_app; [done|apply clean_pretty_nat]. Qed.

Lemma clean_sVar n : clean (sVar n).
Proof. apply clean_app; [done|apply clean_pretty_nat]. Qed.

Lemma clean_sfVar n : clean (sfVar n).
Proof. apply clean_app; [done|apply clean_pretty_nat]. Qed.

#[export] Hint Resolve clean_nl clean_tab clean_dq clean_itVar clean_sVar clean_sfVar
  clean_pretty_Z clean_pretty_nat clean_app : clean.

Lemma braceDepth_lit d d' s k :
  braceDepth d s = Some d' → braceDepth d (s +:+ k) = braceDepth d' k.
Proof. intros H. by rewrite braceDepth_app, H. Qed.

(** Walk through a concatenation: literals compute, clean and balanced parts are
    skipped. *)
Ltac balance :=
  repeat first
    [ rewrite clean_app_l by (eauto with clean; done)
    | rewrite balanced_app_l by eauto with clean
    | erewrite braceDepth_lit by (cbv; reflexivity) ];
  try first [ cbv; reflexivity | by apply clean_balanced; eauto with clean
            | by eauto with clean ].

Lemma argList_clean ai args : Forall clean args → clean (argList ai args).
Proof.
  intros H. revert ai. induction H as [|a args Ha _ IH]; intros ai; simpl; [done|].
  apply clean_app; [by case_match|]. by apply clean_app.
Qed.

Lemma renderCond_clean kfs st : cleanStmt kfs st → clean (renderCond st).
Proof.
  intros [Hf _]. rewrite Forall_app in Hf. destruct Hf as [Hf _].
  do 9 (apply Forall_cons in Hf as [? Hf]). unfold renderCond.
  case_bool_decide; repeat (apply clean_app; [done|]); auto with clean.
Qed.

Lemma renderCall_ok sop st indent :
  cleanStmt (sop_Kfuncs sop) st → Forall (λ kf, clean (kf_Name kf)) (sop_Kfuncs sop) →
  clean indent → ∃ t, renderCall sop st indent = Some t ∧ balanced t.
Proof.
  intros [Hf Hki] Hkfs Hi. destruct (lookup_lt_is_Some_2 _ _ Hki) as [kf Hkf].
  unfold renderCall. rewrite Hkf. simpl. eexists. split; [done|].
  rewrite Forall_app in Hf. destruct Hf as [Hf Ha].
  do 9 (apply Forall_cons in Hf as [? Hf]).
  assert (clean (kf_Name kf)) by (by eapply (Forall_lookup_1 _ _ _ _ Hkfs)).
  pose proof (argList_clean 0 _ Ha).
  apply balanced_app.
  - intros d. case_bool_decide; balance.
  - intros d. destruct (st_NullGuard st); balance.
Qed.

Section render_ok.
Context (sop : StructOpsProg).
Hypothesis Hkfs : Forall (λ kf, clean (kf_Name kf)) (sop_Kfuncs sop).

Definition renders (st : StructOpsStmt) : Prop :=
  Forall (cleanStmt (sop_Kfuncs sop)) (flattenStmt st) →
  ∀ indent, clean indent → ∃ t, renderStmt sop st indent = Some t ∧ balanced t.

Lemma renderBody_from body indent :
  Forall renders body → Forall (cleanStmt (sop_Kfuncs sop)) (flatten body) →
  clean indent → ∃ t, renderBody sop body indent = Some t ∧ balanced t.
Proof.
  intros Hr Hc Hi. induction Hr as [|st body Hst _ IH]; simpl; [by eexists|].
  simpl in Hc. apply Forall_app in Hc as [Hc1 Hc2].
  destruct (Hst Hc1 indent Hi) as (t1 & -> & ?), (IH Hc2) as (t2 & -> & ?).
  simpl. eexists. split; [done|]. by apply balanced_app.
Qed.

Lemma renderStmt_iter st indent :
  st_Kind st = StructOpsStmtSubflowIter → Forall renders (st_IterBody st) →
  cleanStmt (sop_Kfuncs sop) st →
  Forall (cleanStmt (sop_Kfuncs sop)) (flatten (st_IterBody st)) → clean indent →
  ∃ t, renderStmt sop st indent = Some t ∧ balanced t.
Proof.
  intros Ek Hr [Hf _] Hb Hi.
  destruct (renderBody_from _ (indent +:+ tab) Hr Hb) as (t & Et & Ht); [auto with clean|].
  assert (Hcl : clean (st_Var st) ∧ clean (st_IterSockExpr st)).
  { rewrite Forall_app in Hf. destruct Hf as [Hf _].
    do 9 (apply Forall_cons in Hf as [? Hf]). done. }
  destruct st; simpl in *. subst. unfold renderBody in Et. rewrite Et. simpl.
  eexists. split; [done|]. destruct Hcl. intros d. balance.
Qed.

Lemma renderStmt_if st indent :
  st_Kind st = StructOpsStmtIfElse → Forall renders (st_IfBody st) →
  Forall renders (st_ElseBody st) → cleanStmt (sop_Kfuncs sop) st →
  Forall (cleanStmt (sop_Kfuncs sop)) (flatten (st_IfBody st) ++ flatten (st_ElseBody st)) →
  clean indent → ∃ t, renderStmt sop st indent = Some t ∧ balanced t.
Proof.
  intros Ek Hr1 Hr2 Hst [Hb1 Hb2]%Forall_app Hi.
  destruct (renderBody_from _ (indent +:+ tab) Hr1 Hb1) as (t1 & Et1 & Ht1); [auto with clean|].
  destruct (renderBody_from _ (indent +:+ tab) Hr2 Hb2) as (t2 & Et2 & Ht2); [auto with clean|].
  pose proof (renderCond_clean _ _ Hst) as Hc.
  set (cond := renderCond st) in *.
  assert (Es : renderStmt sop st indent = Some (indent +:+ "/* BRF-generated if/else. */" +:+ nl +:+
            indent +:+ "if (" +:+ cond +:+ ") {" +:+ nl +:+ t1 +:+
            (if (0 <? length (st_ElseBody st))
             then indent +:+ "} else {" +:+ nl +:+ t2 else EmptyString) +:+
            indent +:+ "}" +:+ nl)).
  { unfold cond. destruct st; simpl in *. subst.
    unfold renderBody in Et1, Et2. by rewrite Et1, Et2. }
  eexists. split; [exact Es|]. intros d.
  destruct (0 <? length (st_ElseBody st)); rewrite <- ?string_app_assoc; balance.
Qed.

Lemma renderStmt_ok st : renders st.
Proof.
  induction st as [st H1 H2 H3] using stmt_ind. unfold renders.
  rewrite flattenStmt_unfold. intros [Hst Hsub]%Forall_cons indent Hi.
  destruct (st_Kind st) eqn:Ek.
  5: by apply renderStmt_iter.
  5: by apply renderStmt_if.
  4: { destruct st; simpl in *. subst. by apply renderCall_ok. }
  all: destruct Hst as [Hf _]; rewrite Forall_app in Hf; destruct Hf as [Hf _];
    do 9 (apply Forall_cons in Hf as [? Hf]);
    destruct st; simpl in *; subst; eexists; (split; [done|]); intros d; balance.
Qed.

Lemma renderBody_ok body indent :
  Forall (cleanStmt (sop_Kfuncs sop)) (flatten body) → clean indent →
  ∃ t, renderBody sop body indent = Some t ∧ balanced t.
Proof. apply renderBody_from, Forall_true, renderStmt_ok. Qed.
End render_ok.

(** ** Generated programs render *)

Lemma ops_clean op : op ∈ structOpsArithOps ∨ op ∈ structOpsCondOps → clean op.
Proof.
  assert (H : Forall clean (structOpsArithOps ++ structOpsCondOps)) by (by repeat constructor).
  rewrite Forall_forall in H. intros Hop. apply H, elem_of_app. done.
Qed.

Ltac forall_clean :=
  repeat (apply Forall_cons; split;
          [simpl; first [done | by auto using ops_clean with clean]|]);
  by apply Forall_nil.

Definition cleanKfunc (kf : BpfKfunc) : Prop := clean (kf_Name kf) ∧ clean (kf_RetType kf).

Definition cleanState (sc : bodyScope) (s : gst) : Prop :=
  Forall (λ v, clean (tv_expr v)) (gs_pool s) ∧
  Forall (λ rv, clean (rv_name rv) ∧ clean (rv_ctype rv)) (gs_rvs s) ∧
  Forall (λ f, clean (wf_accessor f) ∧ clean (wf_ctype f)) (sc_writeFields sc).

Lemma cleanState_bind sc rvs pool n n' ct t :
  cleanState sc (mkGst rvs pool n) → clean ct →
  cleanState sc (mkGst (rvs ++ [mkRV (sVar n) ct]) (pool ++ [mkVal (sVar n) t]) n') ∧
  cleanState sc (mkGst rvs (pool ++ [mkVal (sVar n) t]) n').
Proof.
  intros (H1 & H2 & H3) Hct. unfold cleanState. simpl in *.
  rewrite !Forall_app, !Forall_singleton. simpl. pose proof (clean_sVar n). tauto.
Qed.

Lemma cleanState_loop n n' : cleanState (loopScope n) (entry (loopScope n) n').
Proof.
  split_and!; simpl; [|constructor|].
  - forall_clean.
  - apply Forall_cons. split; [done|]. apply Forall_singleton. simpl.
    split; [|done]. apply clean_app; auto with clean.
Qed.

Lemma argCands_clean pool pt a :
  Forall (λ v, clean (tv_expr v)) pool → a ∈ argCands pt pool → clean a.
Proof.
  intros Hp Ha. rewrite Forall_forall in Hp. unfold argCands in Ha.
  assert (Hf : ∀ l, a ∈ tv_expr <$> filter (λ v, tv_ctype v = l) pool → clean a).
  { intros l (v & -> & [_ Hv]%list_elem_of_filter)%list_elem_of_fmap. auto. }
  case_bool_decide; [|by eapply Hf]. apply elem_of_app in Ha as [Ha|Ha]; [by eapply Hf|].
  apply elem_of_cons in Ha as [->|Ha]; [done|].
  by apply list_elem_of_singleton in Ha as ->.
Qed.

Lemma argsFor_clean kf pool args :
  Forall (λ v, clean (tv_expr v)) pool → argsFor kf pool args → Forall clean args.
Proof. intros Hp. unfold argsFor. induction 1; constructor; eauto using argCands_clean. Qed.

Ltac clean_stmt :=
  split; [apply Forall_app; split; [forall_clean|apply Forall_nil; done]|done].

Lemma genSteps_clean kfs sc s b s' :
  Forall cleanKfunc kfs → 0 < length kfs →
  genSteps kfs sc s b s' → cleanState sc s → Forall (cleanStmt kfs) (flatten b).
Proof.
  intros Hkfs Hlen.
  assert (Hki : ∀ ki kf, kfs !! ki = Some kf → ki < length kfs ∧ cleanKfunc kf).
  { intros ki kf E. split; [by eapply lookup_lt_Some|]. by eapply (Forall_lookup_1 _ _ _ _ Hkfs). }
  induction 1 as
    [sc s|sc rvs pool n fi f rest s' Hf _ IH|sc s fi f v rest s' Hf Hv _ IH
    |sc rvs pool n src op v rest s' Hsrc Hop Hv _ IH
    |sc s ki kf args rest s' E Hc Ha Hr _ IH
    |sc rvs pool n ki kf args rest s' E Hc Ha Hr Hng _ IH
    |sc rvs pool n ki kf args rest s' E Hc Ha Hr Hng _ IH
    |sc rvs pool n body s1 rest s' Hai _ IHb _ IH
    |sc rvs pool n cv cop cval ifb elseb s1 s2 rest s' Hai Hd Hcv Hcop Hcval Hne _ IH1 _ IH2 _ IH];
    intros Hs; [constructor| | | | | | | |].
  all: unfold flatten; cbn [flat_map]; fold (flatten rest); rewrite flattenStmt_unfold;
    apply Forall_app; pose proof Hs as (Hp & Hrv & Hwf); simpl in Hp, Hrv.
  - destruct (Forall_lookup_1 _ _ _ _ Hwf Hf) as [? ?].
    split; [|by apply IH; apply cleanState_bind].
    apply Forall_singleton. clean_stmt.
  - destruct (Forall_lookup_1 _ _ _ _ Hwf Hf) as [? ?].
    split; [|by apply IH]. apply Forall_singleton. clean_stmt.
  - rewrite Forall_forall in Hrv. destruct (Hrv src Hsrc) as [? ?].
    split; [|by apply IH; apply cleanState_bind]. apply Forall_singleton. clean_stmt.
  - destruct (Hki _ _ E) as [? [? ?]].
    split; [|by apply IH]. apply Forall_singleton.
    split; [|done]. apply Forall_app. split; [by repeat constructor|].
    by eapply argsFor_clean.
  - destruct (Hki _ _ E) as [? [? ?]].
    split; [|by apply IH; apply (cleanState_bind _ _ _ _ _ EmptyString)].
    apply Forall_singleton. split; [|done]. apply Forall_app. split; [|by eapply argsFor_clean].
    forall_clean.
  - destruct (Hki _ _ E) as [? [? ?]].
    destruct (cleanState_bind sc rvs pool n (S n) (kf_RetType kf)
      (normalizeCType (kf_RetType kf)) Hs) as [? ?]; [done|].
    split; [|apply IH; by case_match].
    apply Forall_singleton. split; [|done]. apply Forall_app. split; [|by eapply argsFor_clean].
    forall_clean.
  - split; [|by apply IH]. apply Forall_cons. split; [clean_stmt|].
    apply IHb, cleanState_loop.
  - rewrite Forall_forall in Hrv. destruct (Hrv cv Hcv) as [? ?].
    split; [|by apply IH]. apply Forall_cons. split; [clean_stmt|].
    apply Forall_app. split; [apply IH1|apply IH2]; by split_and!.
Qed.

Lemma cleanState_getSend : cleanState getSendScope (entry getSendScope 0).
Proof. split_and!; simpl; repeat (apply Forall_cons; split; [done|]); by apply Forall_nil. Qed.

Lemma cleanState_initRelease n : cleanState initReleaseScope (entry initReleaseScope n).
Proof. split_and!; simpl; repeat (apply Forall_cons; split; [done|]); by apply Forall_nil. Qed.

Lemma mptcpSchedKfuncs_clean : Forall cleanKfunc mptcpSchedKfuncs.
Proof. repeat (apply Forall_cons; split; [done|]). by apply Forall_nil. Qed.

Lemma progPost_clean sop :
  progPost sop →
  Forall (λ b, Forall (cleanStmt (sop_Kfuncs sop)) (flatten b))
    [sop_GetSendBody sop; sop_InitBody sop; sop_ReleaseBody sop].
Proof.
  intros (-> & _ & _ & n1 & n2 & n3 & (s1 & H1 & _) & (s2 & H2 & _) & (s3 & H3 & _)).
  repeat (apply Forall_cons; split); [..|by apply Forall_nil].
  all: eapply genSteps_clean; [apply mptcpSchedKfuncs_clean|simpl; lia|eassumption|].
  - apply cleanState_getSend.
  - apply cleanState_initRelease.
  - apply cleanState_initRelease.
Qed.

Lemma externDecls_some sop :
  ∃ ks, mapM (λ ki, kf_CDecl <$> sop_Kfuncs sop !! ki) (usedKfuncIdxs sop) = Some ks ∧
    Forall2 (λ ki d, kf_CDecl <$> sop_Kfuncs sop !! ki = Some d) (usedKfuncIdxs sop) ks.
Proof.
  destruct (mapM (λ ki, kf_CDecl <$> sop_Kfuncs sop !! ki) (usedKfuncIdxs sop)) as [ks|] eqn:E.
  - exists ks. split; [done|]. by apply mapM_Some.
  - apply mapM_None, Exists_exists in E as (ki & Hki & E).
    apply usedKfuncIdxs_spec in Hki as [_ Hlt].
    destruct (lookup_lt_is_Some_2 _ _ Hlt) as [kf Hkf]. by rewrite Hkf in E.
Qed.

Lemma kf_CDecls_clean :
  Forall (λ kf, clean (kf_CDecl kf)) mptcpSchedKfuncs ∧
  Forall (λ kf, clean (kf_CDecl kf)) mptcpSubflowIterKfuncs.
Proof. split; repeat (apply Forall_cons; split; [done|]); by apply Forall_nil. Qed.

Lemma lines_clean l : Forall clean l → clean (lines l).
Proof. induction 1; simpl; auto with clean. Qed.

Lemma externDecls_clean sop :
  progPost sop → ∃ ds, externDecls sop = Some ds ∧ Forall clean ds.
Proof.
  intros (Hk & Hi & _). destruct (externDecls_some sop) as (ks & Hks & Hf).
  destruct kf_CDecls_clean as [Hc1 Hc2]. unfold externDecls. rewrite Hks. simpl.
  eexists. split; [done|]. apply Forall_app. split.
  - clear Hks. induction Hf as [|ki d kis ds Hd _ IH]; constructor; [|done].
    rewrite Hk in Hd. destruct (mptcpSchedKfuncs !! ki) as [kf|] eqn:E; [|done].
    injection Hd as <-. by apply (Forall_lookup_1 _ _ _ _ Hc1 E).
  - case_match; [|by apply Forall_nil]. apply Forall_cons. split; [done|].
    rewrite Hi. apply Forall_fmap. exact Hc2.
Qed.

Lemma schedName_clean sop : progPost sop → clean (sop_SchedName sop).
Proof.
  intros (_ & _ & (n & _ & ->) & _). apply clean_app; [done|].
  by apply fmtHex_go_chars; [repeat constructor|].
Qed.

Lemma emptyMark_clean (b : bool) :
  clean (if b then tab +:+ "/* (empty) */" +:+ nl else EmptyString).
Proof. by destruct b. Qed.

Lemma renderHeader_clean : clean renderHeader.
Proof. done. Qed.

Lemma renderInstance_balanced sop : clean (sop_SchedName sop) → balanced (renderInstance sop).
Proof. intros Hn d. unfold renderInstance. balance. Qed.

#[local] Hint Resolve emptyMark_clean renderHeader_clean renderInstance_balanced : clean.

Lemma renderVoidCallback_ok sop suffix body t :
  renderBody sop body tab = Some t → balanced t → clean (sop_SchedName sop) → clean suffix →
  ∃ t', renderVoidCallback sop suffix body = Some t' ∧ balanced t'.
Proof.
  intros E Ht Hn Hs. unfold renderVoidCallback. rewrite E. simpl mbind.
  eexists. split; [done|]. intros d. balance.
Qed.

Lemma renderGetSend_ok sop t :
  renderBody sop (sop_GetSendBody sop) tab = Some t → balanced t →
  clean (sop_SchedName sop) → ∃ t', renderGetSend sop = Some t' ∧ balanced t'.
Proof.
  intros E Ht Hn. unfold renderGetSend. rewrite E. simpl mbind.
  eexists. split; [done|]. intros d. balance.
Qed.

(** The declarations of the two tables are pairwise distinct. *)
Lemma CDecls_NoDup :
  NoDup ("/* MPTCP subflow-iterator kfuncs (net/mptcp/bpf.c). */" ::
         (kf_CDecl <$> mptcpSchedKfuncs ++ mptcpSubflowIterKfuncs)).
Proof.
  apply (bool_decide_eq_true_1 (NoDup _)). vm_compute. reflexivity.
Qed.

Lemma CDecl_inj i j kf kf' :
  mptcpSchedKfuncs !! i = Some kf → mptcpSchedKfuncs !! j = Some kf' →
  kf_CDecl kf = kf_CDecl kf' → i = j.
Proof.
  intros Hi Hj E. pose proof CDecls_NoDup as Hnd. apply NoDup_cons in Hnd as [_ Hnd].
  rewrite fmap_app in Hnd. apply NoDup_app in Hnd as (Hnd & _).
  eapply NoDup_lookup; [exact Hnd| |]; rewrite list_lookup_fmap, ?Hi, ?Hj; simpl;
    [reflexivity|by rewrite E].
Qed.

Lemma CDecl_disjoint kf kf' :
  kf ∈ mptcpSchedKfuncs →
  kf_CDecl kf ≠ "/* MPTCP subflow-iterator kfuncs (net/mptcp/bpf.c). */" ∧
  (kf' ∈ mptcpSubflowIterKfuncs →
   kf_CDecl kf ≠ kf_CDecl kf' ∧
   kf_CDecl kf' ≠ "/* MPTCP subflow-iterator kfuncs (net/mptcp/bpf.c). */").
Proof.
  intros Hkf. pose proof CDecls_NoDup as Hnd. apply NoDup_cons in Hnd as [Hc Hnd].
  rewrite fmap_app in Hnd, Hc. apply NoDup_app in Hnd as (_ & Hd & _).
  rewrite not_elem_of_app in Hc. destruct Hc as [Hc1 Hc2].
  split; [intros E; apply Hc1; rewrite <- E; by apply list_elem_of_fmap_2|].
  intros Hkf'. split.
  - intros E. apply (Hd (kf_CDecl kf)); [by apply list_elem_of_fmap_2|].
    rewrite E. by apply list_elem_of_fmap_2.
  - intros E. apply Hc2. rewrite <- E. by apply list_elem_of_fmap_2.
Qed.

Lemma externDecls_elem sop ds d :
  externDecls sop = Some ds →
  d ∈ ds ↔
  (∃ ki kf, ki ∈ usedKfuncSet sop ∧ sop_Kfuncs sop !! ki = Some kf ∧ d = kf_CDecl kf) ∨
  (usesSubflowIter sop = true ∧
   (d = "/* MPTCP subflow-iterator kfuncs (net/mptcp/bpf.c). */" ∨
    d ∈ kf_CDecl <$> sop_IterKfuncs sop)).
Proof.
  destruct (externDecls_some sop) as (ks & Hks & Hf). unfold externDecls. rewrite Hks.
  simpl. intros [= <-]. rewrite elem_of_app.
  assert (Hl : d ∈ ks ↔
    ∃ ki kf, ki ∈ usedKfuncSet sop ∧ sop_Kfuncs sop !! ki = Some kf ∧ d = kf_CDecl kf).
  { split.
    - intros (i & Hi)%list_elem_of_lookup.
      destruct (Forall2_lookup_r _ _ _ _ _ Hf Hi) as (ki & Hki & E).
      apply list_elem_of_lookup_2, usedKfuncIdxs_spec in Hki as [Hu _].
      destruct (sop_Kfuncs sop !! ki) as [kf|] eqn:Ekf; [|done].
      injection E as <-. eauto.
    - intros (ki & kf & Hu & Ekf & ->).
      assert (ki ∈ usedKfuncIdxs sop) as (i & Hi)%list_elem_of_lookup.
      { apply usedKfuncIdxs_spec. split; [done|]. by eapply lookup_lt_Some. }
      destruct (Forall2_lookup_l _ _ _ _ _ Hf Hi) as (d & Hd & E).
      rewrite Ekf in E. injection E as <-. by eapply list_elem_of_lookup_2. }
  rewrite Hl. destruct (usesSubflowIter sop); [rewrite elem_of_cons; tauto|].
  split; intros [?|H]; auto; [by apply not_elem_of_nil in H|by destruct H].
Qed.

Lemma progPost_renders sop : progPost sop → ∃ src, genStructOpsSource sop = Some src ∧ balanced src.
Proof.
  intros Hp.
  pose proof (progPost_clean _ Hp) as Hb. pose proof (schedName_clean _ Hp) as Hn.
  destruct (externDecls_clean _ Hp) as (ds & Hds & Hdc%lines_clean).
  assert (Hkfs : Forall (λ kf, clean (kf_Name kf)) (sop_Kfuncs sop)).
  { destruct Hp as (-> & _). eapply Forall_impl; [apply mptcpSchedKfuncs_clean|].
    by intros kf [? _]. }
  rewrite !Forall_cons in Hb. destruct Hb as (Hb1 & Hb2 & Hb3 & _).
  destruct (renderBody_ok sop Hkfs _ tab Hb1) as (t1 & E1 & B1); [done|].
  destruct (renderBody_ok sop Hkfs _ tab Hb2) as (t2 & E2 & B2); [done|].
  destruct (renderBody_ok sop Hkfs _ tab Hb3) as (t3 & E3 & B3); [done|].
  destruct (renderGetSend_ok _ _ E1 B1 Hn) as (g & Eg & Bg).
  destruct (renderVoidCallback_ok _ "_init" _ _ E2 B2 Hn) as (i & Ei & Bi); [done|].
  destruct (renderVoidCallback_ok _ "_release" _ _ E3 B3 Hn) as (e & Ee & Be); [done|].
  unfold genStructOpsSource. rewrite Hds, Eg, Ei, Ee. simpl mbind.
  eexists. split; [done|]. intros d. balance.
  by apply renderInstance_balanced.
Qed.

(** ** Properties *)

(** C29: every generated scheduler renders (no index expression of the renderer
    is out of range) and the C text it renders to has balanced braces: no brace
    is closed that was not opened, and all are closed at the end. *)
Theorem generated_schedulers_render (r : rng) :
  ∃ sop src, run genStructOpsProg r = Some sop ∧ genStructOpsSource sop = Some src ∧
    balanced src.
Proof.
  destruct (wp_run _ _ r wp_genStructOpsProg) as (sop & Hrun & Hp).
  destruct (progPost_renders _ Hp) as (src & ? & ?). by exists sop, src.
Qed.

(** C30: the extern declarations of a rendered scheduler are exactly those it
    references: a kfunc of the table is declared iff it belongs to the fixed
    prologue or epilogue or some statement of the tree calls it, and the three
    iterator kfuncs are declared iff some statement iterates. *)
Theorem generated_externs (r : rng) :
  ∃ sop ds, run genStructOpsProg r = Some sop ∧ externDecls sop = Some ds ∧
    let all := flatten (sop_GetSendBody sop) ++ flatten (sop_InitBody sop)
               ++ flatten (sop_ReleaseBody sop) in
    (∀ kf, kf ∈ mptcpSchedKfuncs →
       kf_CDecl kf ∈ ds ↔
       isSkeletonKfunc kf = true ∨
       ∃ st, st ∈ all ∧ st_Kind st = StructOpsStmtKfuncCall ∧
             mptcpSchedKfuncs !! st_KfuncIdx st = Some kf) ∧
    (∀ kf, kf ∈ mptcpSubflowIterKfuncs →
       kf_CDecl kf ∈ ds ↔ ∃ st, st ∈ all ∧ st_Kind st = StructOpsStmtSubflowIter).
Proof.
  destruct (wp_run _ _ r wp_genStructOpsProg) as (sop & Hrun & Hp).
  destruct (externDecls_clean _ Hp) as (ds & Hds & _).
  exists sop, ds. split; [done|]. split; [done|].
  destruct Hp as (Hk & Hi & _). split; intros kf Hkf; rewrite (externDecls_elem _ _ _ Hds).
  - assert (Hkf' := Hkf). apply list_elem_of_lookup in Hkf' as (i & Ei). rewrite Hk. split.
    + intros [(ki & kf' & Hu & Ekf & E)|(_ & [E|(kf' & E & Hkf')%list_elem_of_fmap])].
      * assert (i = ki) as -> by (by eapply CDecl_inj). simplify_eq.
        apply usedKfuncSet_spec in Hu as [(kf2 & E2 & ?)|(st & Hst & Hkind & <-)].
        -- left. rewrite Hk in E2. by simplify_eq.
        -- right. eauto.
      * by apply (CDecl_disjoint kf kf) in Hkf as [? _].
      * rewrite Hi in Hkf'. apply (CDecl_disjoint kf kf') in Hkf as [_ Hd].
        by destruct (Hd Hkf').
    + intros [Hs|(st & Hst & Hkind & Ekf)]; left.
      * exists i, kf. split_and!; [|done..]. apply usedKfuncSet_spec. left. rewrite Hk. eauto.
      * exists (st_KfuncIdx st), kf. split_and!; [|done..].
        apply usedKfuncSet_spec. right. eauto.
  - rewrite <- usesSubflowIter_spec, Hi. split; [|intros ->; right; split; [done|right];
      by apply list_elem_of_fmap_2].
    intros [(ki & kf' & _ & Ekf & E)|(? & _)]; [|done]. exfalso. rewrite Hk in Ekf.
    apply list_elem_of_lookup_2, (CDecl_disjoint kf' kf) in Ekf as [_ Hd].
    by destruct (Hd Hkf).
Qed.
