(* ===== verification/BpfTypes.v ===== *)
(** * Types of the BPF program generator

    The enumerations of [prog/brf_types.go], the register types of
    [prog/brf_legacy.go], and the records of helpers, program types, structs and
    context accesses.  A Go enumeration is an inductive type with the source's
    constants as constructors; its index function gives the [iota] value. *)

From stdpp Require Import base numbers strings list.
From S2P Require Import Prelude.

Local Open Scope string_scope.
Local Open Scope list_scope.
Local Open Scope nat_scope.

Inductive BpfProgTypeEnum :=
  | BPF_PROG_TYPE_UNSPEC | BPF_PROG_TYPE_SOCKET_FILTER | BPF_PROG_TYPE_KPROBE
  | BPF_PROG_TYPE_SCHED_CLS | BPF_PROG_TYPE_SCHED_ACT | BPF_PROG_TYPE_TRACEPOINT
  | BPF_PROG_TYPE_XDP | BPF_PROG_TYPE_PERF_EVENT | BPF_PROG_TYPE_CGROUP_SKB
  | BPF_PROG_TYPE_CGROUP_SOCK | BPF_PROG_TYPE_LWT_IN | BPF_PROG_TYPE_LWT_OUT
  | BPF_PROG_TYPE_LWT_XMIT | BPF_PROG_TYPE_SOCK_OPS | BPF_PROG_TYPE_SK_SKB
  | BPF_PROG_TYPE_CGROUP_DEVICE | BPF_PROG_TYPE_SK_MSG | BPF_PROG_TYPE_RAW_TRACEPOINT
  | BPF_PROG_TYPE_CGROUP_SOCK_ADDR | BPF_PROG_TYPE_LWT_SEG6LOCAL | BPF_PROG_TYPE_LIRC_MODE2
  | BPF_PROG_TYPE_SK_REUSEPORT | BPF_PROG_TYPE_FLOW_DISSECTOR | BPF_PROG_TYPE_CGROUP_SYSCTL
  | BPF_PROG_TYPE_RAW_TRACEPOINT_WRITABLE | BPF_PROG_TYPE_CGROUP_SOCKOPT
  | BPF_PROG_TYPE_TRACING | BPF_PROG_TYPE_STRUCT_OPS | BPF_PROG_TYPE_EXT
  | BPF_PROG_TYPE_LSM | BPF_PROG_TYPE_SK_LOOKUP | BPF_PROG_TYPE_SYSCALL
  | BPF_PROG_TYPE_NETFILTER | BPF_PROG_TYPE_MAX.

Inductive BpfHelperEnum :=
  | BPF_FUNC_unspec | BPF_FUNC_map_lookup_elem | BPF_FUNC_map_update_elem
  | BPF_FUNC_map_delete_elem | BPF_FUNC_probe_read | BPF_FUNC_ktime_get_ns
  | BPF_FUNC_trace_printk | BPF_FUNC_get_prandom_u32 | BPF_FUNC_get_smp_processor_id
  | BPF_FUNC_skb_store_bytes | BPF_FUNC_l3_csum_replace | BPF_FUNC_l4_csum_replace
  | BPF_FUNC_tail_call | BPF_FUNC_clone_redirect | BPF_FUNC_get_current_pid_tgid
  | BPF_FUNC_get_current_uid_gid | BPF_FUNC_get_current_comm | BPF_FUNC_get_cgroup_classid
  | BPF_FUNC_skb_vlan_push | BPF_FUNC_skb_vlan_pop | BPF_FUNC_skb_get_tunnel_key
  | BPF_FUNC_skb_set_tunnel_key | BPF_FUNC_perf_event_read | BPF_FUNC_redirect
  | BPF_FUNC_get_route_realm | BPF_FUNC_perf_event_output | BPF_FUNC_skb_load_bytes
  | BPF_FUNC_get_stackid | BPF_FUNC_csum_diff | BPF_FUNC_skb_get_tunnel_opt
  | BPF_FUNC_skb_set_tunnel_opt | BPF_FUNC_skb_change_proto | BPF_FUNC_skb_change_type
  | BPF_FUNC_skb_under_cgroup | BPF_FUNC_get_hash_recalc | BPF_FUNC_get_current_task
  | BPF_FUNC_probe_write_user | BPF_FUNC_current_task_under_cgroup
  | BPF_FUNC_skb_change_tail | BPF_FUNC_skb_pull_data | BPF_FUNC_csum_update
  | BPF_FUNC_set_hash_invalid | BPF_FUNC_get_numa_node_id | BPF_FUNC_skb_change_head
  | BPF_FUNC_xdp_adjust_head | BPF_FUNC_probe_read_str | BPF_FUNC_get_socket_cookie
  | BPF_FUNC_get_socket_uid | BPF_FUNC_set_hash | BPF_FUNC_setsockopt
  | BPF_FUNC_skb_adjust_room | BPF_FUNC_redirect_map | BPF_FUNC_sk_redirect_map
  | BPF_FUNC_sock_map_update | BPF_FUNC_xdp_adjust_meta | BPF_FUNC_perf_event_read_value
  | BPF_FUNC_perf_prog_read_value | BPF_FUNC_getsockopt | BPF_FUNC_override_return
  | BPF_FUNC_sock_ops_cb_flags_set | BPF_FUNC_msg_redirect_map | BPF_FUNC_msg_apply_bytes
  | BPF_FUNC_msg_cork_bytes | BPF_FUNC_msg_pull_data | BPF_FUNC_bind
  | BPF_FUNC_xdp_adjust_tail | BPF_FUNC_skb_get_xfrm_state | BPF_FUNC_get_stack
  | BPF_FUNC_skb_load_bytes_relative | BPF_FUNC_fib_lookup | BPF_FUNC_sock_hash_update
  | BPF_FUNC_msg_redirect_hash | BPF_FUNC_sk_redirect_hash | BPF_FUNC_lwt_push_encap
  | BPF_FUNC_lwt_seg6_store_bytes | BPF_FUNC_lwt_seg6_adjust_srh | BPF_FUNC_lwt_seg6_action
  | BPF_FUNC_rc_repeat | BPF_FUNC_rc_keydown | BPF_FUNC_skb_cgroup_id
  | BPF_FUNC_get_current_cgroup_id | BPF_FUNC_get_local_storage
  | BPF_FUNC_sk_select_reuseport | BPF_FUNC_skb_ancestor_cgroup_id | BPF_FUNC_sk_lookup_tcp
  | BPF_FUNC_sk_lookup_udp | BPF_FUNC_sk_release | BPF_FUNC_map_push_elem
  | BPF_FUNC_map_pop_elem | BPF_FUNC_map_peek_elem | BPF_FUNC_msg_push_data
  | BPF_FUNC_msg_pop_data | BPF_FUNC_rc_pointer_rel | BPF_FUNC_spin_lock
  | BPF_FUNC_spin_unlock | BPF_FUNC_sk_fullsock | BPF_FUNC_tcp_sock
  | BPF_FUNC_skb_ecn_set_ce | BPF_FUNC_get_listener_sock | BPF_FUNC_skc_lookup_tcp
  | BPF_FUNC_tcp_check_syncookie | BPF_FUNC_sysctl_get_name
  | BPF_FUNC_sysctl_get_current_value | BPF_FUNC_sysctl_get_new_value
  | BPF_FUNC_sysctl_set_new_value | BPF_FUNC_strtol | BPF_FUNC_strtoul
  | BPF_FUNC_sk_storage_get | BPF_FUNC_sk_storage_delete | BPF_FUNC_send_signal
  | BPF_FUNC_tcp_gen_syncookie | BPF_FUNC_skb_output | BPF_FUNC_probe_read_user
  | BPF_FUNC_probe_read_kernel | BPF_FUNC_probe_read_user_str
  | BPF_FUNC_probe_read_kernel_str | BPF_FUNC_tcp_send_ack | BPF_FUNC_send_signal_thread
  | BPF_FUNC_jiffies64 | BPF_FUNC_read_branch_records | BPF_FUNC_get_ns_current_pid_tgid
  | BPF_FUNC_xdp_output | BPF_FUNC_get_netns_cookie
  | BPF_FUNC_get_current_ancestor_cgroup_id | BPF_FUNC_sk_assign
  | BPF_FUNC_ktime_get_boot_ns | BPF_FUNC_seq_printf | BPF_FUNC_seq_write
  | BPF_FUNC_sk_cgroup_id | BPF_FUNC_sk_ancestor_cgroup_id | BPF_FUNC_ringbuf_output
  | BPF_FUNC_ringbuf_reserve | BPF_FUNC_ringbuf_submit | BPF_FUNC_ringbuf_discard
  | BPF_FUNC_ringbuf_query | BPF_FUNC_csum_level | BPF_FUNC_skc_to_tcp6_sock
  | BPF_FUNC_skc_to_tcp_sock | BPF_FUNC_skc_to_tcp_timewait_sock
  | BPF_FUNC_skc_to_tcp_request_sock | BPF_FUNC_skc_to_udp6_sock | BPF_FUNC_get_task_stack
  | BPF_FUNC_load_hdr_opt | BPF_FUNC_store_hdr_opt | BPF_FUNC_reserve_hdr_opt
  | BPF_FUNC_inode_storage_get | BPF_FUNC_inode_storage_delete | BPF_FUNC_d_path
  | BPF_FUNC_copy_from_user | BPF_FUNC_snprintf_btf | BPF_FUNC_seq_printf_btf
  | BPF_FUNC_skb_cgroup_classid | BPF_FUNC_redirect_neigh | BPF_FUNC_per_cpu_ptr
  | BPF_FUNC_this_cpu_ptr | BPF_FUNC_redirect_peer | BPF_FUNC_task_storage_get
  | BPF_FUNC_task_storage_delete | BPF_FUNC_get_current_task_btf | BPF_FUNC_bprm_opts_set
  | BPF_FUNC_ktime_get_coarse_ns | BPF_FUNC_ima_inode_hash | BPF_FUNC_sock_from_file
  | BPF_FUNC_check_mtu | BPF_FUNC_for_each_map_elem | BPF_FUNC_snprintf | BPF_FUNC_sys_bpf
  | BPF_FUNC_btf_find_by_name_kind | BPF_FUNC_sys_close | BPF_FUNC_timer_init
  | BPF_FUNC_timer_set_callback | BPF_FUNC_timer_start | BPF_FUNC_timer_cancel
  | BPF_FUNC_get_func_ip | BPF_FUNC_get_attach_cookie | BPF_FUNC_task_pt_regs
  | BPF_FUNC_get_branch_snapshot | BPF_FUNC_trace_vprintk | BPF_FUNC_skc_to_unix_sock
  | BPF_FUNC_kallsyms_lookup_name | BPF_FUNC_find_vma | BPF_FUNC_loop | BPF_FUNC_strncmp
  | BPF_FUNC_get_func_arg | BPF_FUNC_get_func_ret | BPF_FUNC_get_func_arg_cnt
  | BPF_FUNC_get_retval | BPF_FUNC_set_retval | BPF_FUNC_xdp_get_buff_len
  | BPF_FUNC_xdp_load_bytes | BPF_FUNC_xdp_store_bytes | BPF_FUNC_copy_from_user_task
  | BPF_FUNC_skb_set_tstamp | BPF_FUNC_ima_file_hash | BPF_FUNC_kptr_xchg
  | BPF_FUNC_map_lookup_percpu_elem | BPF_FUNC_skc_to_mptcp_sock | BPF_FUNC_dynptr_from_mem
  | BPF_FUNC_ringbuf_reserve_dynptr | BPF_FUNC_ringbuf_submit_dynptr
  | BPF_FUNC_ringbuf_discard_dynptr | BPF_FUNC_dynptr_read | BPF_FUNC_dynptr_write
  | BPF_FUNC_dynptr_data | BPF_FUNC_tcp_raw_gen_syncookie_ipv4
  | BPF_FUNC_tcp_raw_gen_syncookie_ipv6 | BPF_FUNC_tcp_raw_check_syncookie_ipv4
  | BPF_FUNC_tcp_raw_check_syncookie_ipv6 | BPF_FUNC_ktime_get_tai_ns
  | BPF_FUNC_user_ringbuf_drain | BPF_FUNC_cgrp_storage_get | BPF_FUNC_cgrp_storage_delete
  | BPF_FUNC_xdp_fib_lookup_proto | BPF_FUNC_xdp_get_buff_len_proto
  | BPF_FUNC_xdp_load_bytes_proto | BPF_FUNC_xdp_store_bytes_proto
  | BPF_FUNC_sock_hash_update_proto.

Definition progTypeIdx (e : BpfProgTypeEnum) : nat :=
  match e with
  | BPF_PROG_TYPE_UNSPEC => 0 | BPF_PROG_TYPE_SOCKET_FILTER => 1
  | BPF_PROG_TYPE_KPROBE => 2 | BPF_PROG_TYPE_SCHED_CLS => 3 | BPF_PROG_TYPE_SCHED_ACT => 4
  | BPF_PROG_TYPE_TRACEPOINT => 5 | BPF_PROG_TYPE_XDP => 6 | BPF_PROG_TYPE_PERF_EVENT => 7
  | BPF_PROG_TYPE_CGROUP_SKB => 8 | BPF_PROG_TYPE_CGROUP_SOCK => 9
  | BPF_PROG_TYPE_LWT_IN => 10 | BPF_PROG_TYPE_LWT_OUT => 11 | BPF_PROG_TYPE_LWT_XMIT => 12
  | BPF_PROG_TYPE_SOCK_OPS => 13 | BPF_PROG_TYPE_SK_SKB => 14
  | BPF_PROG_TYPE_CGROUP_DEVICE => 15 | BPF_PROG_TYPE_SK_MSG => 16
  | BPF_PROG_TYPE_RAW_TRACEPOINT => 17 | BPF_PROG_TYPE_CGROUP_SOCK_ADDR => 18
  | BPF_PROG_TYPE_LWT_SEG6LOCAL => 19 | BPF_PROG_TYPE_LIRC_MODE2 => 20
  | BPF_PROG_TYPE_SK_REUSEPORT => 21 | BPF_PROG_TYPE_FLOW_DISSECTOR => 22
  | BPF_PROG_TYPE_CGROUP_SYSCTL => 23 | BPF_PROG_TYPE_RAW_TRACEPOINT_WRITABLE => 24
  | BPF_PROG_TYPE_CGROUP_SOCKOPT => 25 | BPF_PROG_TYPE_TRACING => 26
  | BPF_PROG_TYPE_STRUCT_OPS => 27 | BPF_PROG_TYPE_EXT => 28 | BPF_PROG_TYPE_LSM => 29
  | BPF_PROG_TYPE_SK_LOOKUP => 30 | BPF_PROG_TYPE_SYSCALL => 31
  | BPF_PROG_TYPE_NETFILTER => 32 | BPF_PROG_TYPE_MAX => 33
  end.

Definition helperIdx (e : BpfHelperEnum) : nat :=
  match e with
  | BPF_FUNC_unspec => 0 | BPF_FUNC_map_lookup_elem => 1 | BPF_FUNC_map_update_elem => 2
  | BPF_FUNC_map_delete_elem => 3 | BPF_FUNC_probe_read => 4 | BPF_FUNC_ktime_get_ns => 5
  | BPF_FUNC_trace_printk => 6 | BPF_FUNC_get_prandom_u32 => 7
  | BPF_FUNC_get_smp_processor_id => 8 | BPF_FUNC_skb_store_bytes => 9
  | BPF_FUNC_l3_csum_replace => 10 | BPF_FUNC_l4_csum_replace => 11
  | BPF_FUNC_tail_call => 12 | BPF_FUNC_clone_redirect => 13
  | BPF_FUNC_get_current_pid_tgid => 14 | BPF_FUNC_get_current_uid_gid => 15
  | BPF_FUNC_get_current_comm => 16 | BPF_FUNC_get_cgroup_classid => 17
  | BPF_FUNC_skb_vlan_push => 18 | BPF_FUNC_skb_vlan_pop => 19
  | BPF_FUNC_skb_get_tunnel_key => 20 | BPF_FUNC_skb_set_tunnel_key => 21
  | BPF_FUNC_perf_event_read => 22 | BPF_FUNC_redirect => 23
  | BPF_FUNC_get_route_realm => 24 | BPF_FUNC_perf_event_output => 25
  | BPF_FUNC_skb_load_bytes => 26 | BPF_FUNC_get_stackid => 27 | BPF_FUNC_csum_diff => 28
  | BPF_FUNC_skb_get_tunnel_opt => 29 | BPF_FUNC_skb_set_tunnel_opt => 30
  | BPF_FUNC_skb_change_proto => 31 | BPF_FUNC_skb_change_type => 32
  | BPF_FUNC_skb_under_cgroup => 33 | BPF_FUNC_get_hash_recalc => 34
  | BPF_FUNC_get_current_task => 35 | BPF_FUNC_probe_write_user => 36
  | BPF_FUNC_current_task_under_cgroup => 37 | BPF_FUNC_skb_change_tail => 38
  | BPF_FUNC_skb_pull_data => 39 | BPF_FUNC_csum_update => 40
  | BPF_FUNC_set_hash_invalid => 41 | BPF_FUNC_get_numa_node_id => 42
  | BPF_FUNC_skb_change_head => 43 | BPF_FUNC_xdp_adjust_head => 44
  | BPF_FUNC_probe_read_str => 45 | BPF_FUNC_get_socket_cookie => 46
  | BPF_FUNC_get_socket_uid => 47 | BPF_FUNC_set_hash => 48 | BPF_FUNC_setsockopt => 49
  | BPF_FUNC_skb_adjust_room => 50 | BPF_FUNC_redirect_map => 51
  | BPF_FUNC_sk_redirect_map => 52 | BPF_FUNC_sock_map_update => 53
  | BPF_FUNC_xdp_adjust_meta => 54 | BPF_FUNC_perf_event_read_value => 55
  | BPF_FUNC_perf_prog_read_value => 56 | BPF_FUNC_getsockopt => 57
  | BPF_FUNC_override_return => 58 | BPF_FUNC_sock_ops_cb_flags_set => 59
  | BPF_FUNC_msg_redirect_map => 60 | BPF_FUNC_msg_apply_bytes => 61
  | BPF_FUNC_msg_cork_bytes => 62 | BPF_FUNC_msg_pull_data => 63 | BPF_FUNC_bind => 64
  | BPF_FUNC_xdp_adjust_tail => 65 | BPF_FUNC_skb_get_xfrm_state => 66
  | BPF_FUNC_get_stack => 67 | BPF_FUNC_skb_load_bytes_relative => 68
  | BPF_FUNC_fib_lookup => 69 | BPF_FUNC_sock_hash_update => 70
  | BPF_FUNC_msg_redirect_hash => 71 | BPF_FUNC_sk_redirect_hash => 72
  | BPF_FUNC_lwt_push_encap => 73 | BPF_FUNC_lwt_seg6_store_bytes => 74
  | BPF_FUNC_lwt_seg6_adjust_srh => 75 | BPF_FUNC_lwt_seg6_action => 76
  | BPF_FUNC_rc_repeat => 77 | BPF_FUNC_rc_keydown => 78 | BPF_FUNC_skb_cgroup_id => 79
  | BPF_FUNC_get_current_cgroup_id => 80 | BPF_FUNC_get_local_storage => 81
  | BPF_FUNC_sk_select_reuseport => 82 | BPF_FUNC_skb_ancestor_cgroup_id => 83
  | BPF_FUNC_sk_lookup_tcp => 84 | BPF_FUNC_sk_lookup_udp => 85 | BPF_FUNC_sk_release => 86
  | BPF_FUNC_map_push_elem => 87 | BPF_FUNC_map_pop_elem => 88
  | BPF_FUNC_map_peek_elem => 89 | BPF_FUNC_msg_push_data => 90
  | BPF_FUNC_msg_pop_data => 91 | BPF_FUNC_rc_pointer_rel => 92 | BPF_FUNC_spin_lock => 93
  | BPF_FUNC_spin_unlock => 94 | BPF_FUNC_sk_fullsock => 95 | BPF_FUNC_tcp_sock => 96
  | BPF_FUNC_skb_ecn_set_ce => 97 | BPF_FUNC_get_listener_sock => 98
  | BPF_FUNC_skc_lookup_tcp => 99 | BPF_FUNC_tcp_check_syncookie => 100
  | BPF_FUNC_sysctl_get_name => 101 | BPF_FUNC_sysctl_get_current_value => 102
  | BPF_FUNC_sysctl_get_new_value => 103 | BPF_FUNC_sysctl_set_new_value => 104
  | BPF_FUNC_strtol => 105 | BPF_FUNC_strtoul => 106 | BPF_FUNC_sk_storage_get => 107
  | BPF_FUNC_sk_storage_delete => 108 | BPF_FUNC_send_signal => 109
  | BPF_FUNC_tcp_gen_syncookie => 110 | BPF_FUNC_skb_output => 111
  | BPF_FUNC_probe_read_user => 112 | BPF_FUNC_probe_read_kernel => 113
  | BPF_FUNC_probe_read_user_str => 114 | BPF_FUNC_probe_read_kernel_str => 115
  | BPF_FUNC_tcp_send_ack => 116 | BPF_FUNC_send_signal_thread => 117
  | BPF_FUNC_jiffies64 => 118 | BPF_FUNC_read_branch_records => 119
  | BPF_FUNC_get_ns_current_pid_tgid => 120 | BPF_FUNC_xdp_output => 121
  | BPF_FUNC_get_netns_cookie => 122 | BPF_FUNC_get_current_ancestor_cgroup_id => 123
  | BPF_FUNC_sk_assign => 124 | BPF_FUNC_ktime_get_boot_ns => 125
  | BPF_FUNC_seq_printf => 126 | BPF_FUNC_seq_write => 127 | BPF_FUNC_sk_cgroup_id => 128
  | BPF_FUNC_sk_ancestor_cgroup_id => 129 | BPF_FUNC_ringbuf_output => 130
  | BPF_FUNC_ringbuf_reserve => 131 | BPF_FUNC_ringbuf_submit => 132
  | BPF_FUNC_ringbuf_discard => 133 | BPF_FUNC_ringbuf_query => 134
  | BPF_FUNC_csum_level => 135 | BPF_FUNC_skc_to_tcp6_sock => 136
  | BPF_FUNC_skc_to_tcp_sock => 137 | BPF_FUNC_skc_to_tcp_timewait_sock => 138
  | BPF_FUNC_skc_to_tcp_request_sock => 139 | BPF_FUNC_skc_to_udp6_sock => 140
  | BPF_FUNC_get_task_stack => 141 | BPF_FUNC_load_hdr_opt => 142
  | BPF_FUNC_store_hdr_opt => 143 | BPF_FUNC_reserve_hdr_opt => 144
  | BPF_FUNC_inode_storage_get => 145 | BPF_FUNC_inode_storage_delete => 146
  | BPF_FUNC_d_path => 147 | BPF_FUNC_copy_from_user => 148 | BPF_FUNC_snprintf_btf => 149
  | BPF_FUNC_seq_printf_btf => 150 | BPF_FUNC_skb_cgroup_classid => 151
  | BPF_FUNC_redirect_neigh => 152 | BPF_FUNC_per_cpu_ptr => 153
  | BPF_FUNC_this_cpu_ptr => 154 | BPF_FUNC_redirect_peer => 155
  | BPF_FUNC_task_storage_get => 156 | BPF_FUNC_task_storage_delete => 157
  | BPF_FUNC_get_current_task_btf => 158 | BPF_FUNC_bprm_opts_set => 159
  | BPF_FUNC_ktime_get_coarse_ns => 160 | BPF_FUNC_ima_inode_hash => 161
  | BPF_FUNC_sock_from_file => 162 | BPF_FUNC_check_mtu => 163
  | BPF_FUNC_for_each_map_elem => 164 | BPF_FUNC_snprintf => 165 | BPF_FUNC_sys_bpf => 166
  | BPF_FUNC_btf_find_by_name_kind => 167 | BPF_FUNC_sys_close => 168
  | BPF_FUNC_timer_init => 169 | BPF_FUNC_timer_set_callback => 170
  | BPF_FUNC_timer_start => 171 | BPF_FUNC_timer_cancel => 172
  | BPF_FUNC_get_func_ip => 173 | BPF_FUNC_get_attach_cookie => 174
  | BPF_FUNC_task_pt_regs => 175 | BPF_FUNC_get_branch_snapshot => 176
  | BPF_FUNC_trace_vprintk => 177 | BPF_FUNC_skc_to_unix_sock => 178
  | BPF_FUNC_kallsyms_lookup_name => 179 | BPF_FUNC_find_vma => 180 | BPF_FUNC_loop => 181
  | BPF_FUNC_strncmp => 182 | BPF_FUNC_get_func_arg => 183 | BPF_FUNC_get_func_ret => 184
  | BPF_FUNC_get_func_arg_cnt => 185 | BPF_FUNC_get_retval => 186
  | BPF_FUNC_set_retval => 187 | BPF_FUNC_xdp_get_buff_len => 188
  | BPF_FUNC_xdp_load_bytes => 189 | BPF_FUNC_xdp_store_bytes => 190
  | BPF_FUNC_copy_from_user_task => 191 | BPF_FUNC_skb_set_tstamp => 192
  | BPF_FUNC_ima_file_hash => 193 | BPF_FUNC_kptr_xchg => 194
  | BPF_FUNC_map_lookup_percpu_elem => 195 | BPF_FUNC_skc_to_mptcp_sock => 196
  | BPF_FUNC_dynptr_from_mem => 197 | BPF_FUNC_ringbuf_reserve_dynptr => 198
  | BPF_FUNC_ringbuf_submit_dynptr => 199 | BPF_FUNC_ringbuf_discard_dynptr => 200
  | BPF_FUNC_dynptr_read => 201 | BPF_FUNC_dynptr_write => 202
  | BPF_FUNC_dynptr_data => 203 | BPF_FUNC_tcp_raw_gen_syncookie_ipv4 => 204
  | BPF_FUNC_tcp_raw_gen_syncookie_ipv6 => 205
  | BPF_FUNC_tcp_raw_check_syncookie_ipv4 => 206
  | BPF_FUNC_tcp_raw_check_syncookie_ipv6 => 207 | BPF_FUNC_ktime_get_tai_ns => 208
  | BPF_FUNC_user_ringbuf_drain => 209 | BPF_FUNC_cgrp_storage_get => 210
  | BPF_FUNC_cgrp_storage_delete => 211 | BPF_FUNC_xdp_fib_lookup_proto => 212
  | BPF_FUNC_xdp_get_buff_len_proto => 213 | BPF_FUNC_xdp_load_bytes_proto => 214
  | BPF_FUNC_xdp_store_bytes_proto => 215 | BPF_FUNC_sock_hash_update_proto => 216
  end.

(** The constants in the order of their values. *)
Definition progTypeEnums : list BpfProgTypeEnum :=
  [BPF_PROG_TYPE_UNSPEC; BPF_PROG_TYPE_SOCKET_FILTER; BPF_PROG_TYPE_KPROBE;
   BPF_PROG_TYPE_SCHED_CLS; BPF_PROG_TYPE_SCHED_ACT; BPF_PROG_TYPE_TRACEPOINT;
   BPF_PROG_TYPE_XDP; BPF_PROG_TYPE_PERF_EVENT; BPF_PROG_TYPE_CGROUP_SKB;
   BPF_PROG_TYPE_CGROUP_SOCK; BPF_PROG_TYPE_LWT_IN; BPF_PROG_TYPE_LWT_OUT;
   BPF_PROG_TYPE_LWT_XMIT; BPF_PROG_TYPE_SOCK_OPS; BPF_PROG_TYPE_SK_SKB;
   BPF_PROG_TYPE_CGROUP_DEVICE; BPF_PROG_TYPE_SK_MSG; BPF_PROG_TYPE_RAW_TRACEPOINT;
   BPF_PROG_TYPE_CGROUP_SOCK_ADDR; BPF_PROG_TYPE_LWT_SEG6LOCAL; BPF_PROG_TYPE_LIRC_MODE2;
   BPF_PROG_TYPE_SK_REUSEPORT; BPF_PROG_TYPE_FLOW_DISSECTOR; BPF_PROG_TYPE_CGROUP_SYSCTL;
   BPF_PROG_TYPE_RAW_TRACEPOINT_WRITABLE; BPF_PROG_TYPE_CGROUP_SOCKOPT;
   BPF_PROG_TYPE_TRACING; BPF_PROG_TYPE_STRUCT_OPS; BPF_PROG_TYPE_EXT; BPF_PROG_TYPE_LSM;
   BPF_PROG_TYPE_SK_LOOKUP; BPF_PROG_TYPE_SYSCALL; BPF_PROG_TYPE_NETFILTER;
   BPF_PROG_TYPE_MAX].

Definition helperEnums : list BpfHelperEnum :=
  [BPF_FUNC_unspec; BPF_FUNC_map_lookup_elem; BPF_FUNC_map_update_elem;
   BPF_FUNC_map_delete_elem; BPF_FUNC_probe_read; BPF_FUNC_ktime_get_ns;
   BPF_FUNC_trace_printk; BPF_FUNC_get_prandom_u32; BPF_FUNC_get_smp_processor_id;
   BPF_FUNC_skb_store_bytes; BPF_FUNC_l3_csum_replace; BPF_FUNC_l4_csum_replace;
   BPF_FUNC_tail_call; BPF_FUNC_clone_redirect; BPF_FUNC_get_current_pid_tgid;
   BPF_FUNC_get_current_uid_gid; BPF_FUNC_get_current_comm; BPF_FUNC_get_cgroup_classid;
   BPF_FUNC_skb_vlan_push; BPF_FUNC_skb_vlan_pop; BPF_FUNC_skb_get_tunnel_key;
   BPF_FUNC_skb_set_tunnel_key; BPF_FUNC_perf_event_read; BPF_FUNC_redirect;
   BPF_FUNC_get_route_realm; BPF_FUNC_perf_event_output; BPF_FUNC_skb_load_bytes;
   BPF_FUNC_get_stackid; BPF_FUNC_csum_diff; BPF_FUNC_skb_get_tunnel_opt;
   BPF_FUNC_skb_set_tunnel_opt; BPF_FUNC_skb_change_proto; BPF_FUNC_skb_change_type;
   BPF_FUNC_skb_under_cgroup; BPF_FUNC_get_hash_recalc; BPF_FUNC_get_current_task;
   BPF_FUNC_probe_write_user; BPF_FUNC_current_task_under_cgroup; BPF_FUNC_skb_change_tail;
   BPF_FUNC_skb_pull_data; BPF_FUNC_csum_update; BPF_FUNC_set_hash_invalid;
   BPF_FUNC_get_numa_node_id; BPF_FUNC_skb_change_head; BPF_FUNC_xdp_adjust_head;
   BPF_FUNC_probe_read_str; BPF_FUNC_get_socket_cookie; BPF_FUNC_get_socket_uid;
   BPF_FUNC_set_hash; BPF_FUNC_setsockopt; BPF_FUNC_skb_adjust_room; BPF_FUNC_redirect_map;
   BPF_FUNC_sk_redirect_map; BPF_FUNC_sock_map_update; BPF_FUNC_xdp_adjust_meta;
   BPF_FUNC_perf_event_read_value; BPF_FUNC_perf_prog_read_value; BPF_FUNC_getsockopt;
   BPF_FUNC_override_return; BPF_FUNC_sock_ops_cb_flags_set; BPF_FUNC_msg_redirect_map;
   BPF_FUNC_msg_apply_bytes; BPF_FUNC_msg_cork_bytes; BPF_FUNC_msg_pull_data;
   BPF_FUNC_bind; BPF_FUNC_xdp_adjust_tail; BPF_FUNC_skb_get_xfrm_state;
   BPF_FUNC_get_stack; BPF_FUNC_skb_load_bytes_relative; BPF_FUNC_fib_lookup;
   BPF_FUNC_sock_hash_update; BPF_FUNC_msg_redirect_hash; BPF_FUNC_sk_redirect_hash;
   BPF_FUNC_lwt_push_encap; BPF_FUNC_lwt_seg6_store_bytes; BPF_FUNC_lwt_seg6_adjust_srh;
   BPF_FUNC_lwt_seg6_action; BPF_FUNC_rc_repeat; BPF_FUNC_rc_keydown;
   BPF_FUNC_skb_cgroup_id; BPF_FUNC_get_current_cgroup_id; BPF_FUNC_get_local_storage;
   BPF_FUNC_sk_select_reuseport; BPF_FUNC_skb_ancestor_cgroup_id; BPF_FUNC_sk_lookup_tcp;
   BPF_FUNC_sk_lookup_udp; BPF_FUNC_sk_release; BPF_FUNC_map_push_elem;
   BPF_FUNC_map_pop_elem; BPF_FUNC_map_peek_elem; BPF_FUNC_msg_push_data;
   BPF_FUNC_msg_pop_data; BPF_FUNC_rc_pointer_rel; BPF_FUNC_spin_lock;
   BPF_FUNC_spin_unlock; BPF_FUNC_sk_fullsock; BPF_FUNC_tcp_sock; BPF_FUNC_skb_ecn_set_ce;
   BPF_FUNC_get_listener_sock; BPF_FUNC_skc_lookup_tcp; BPF_FUNC_tcp_check_syncookie;
   BPF_FUNC_sysctl_get_name; BPF_FUNC_sysctl_get_current_value;
   BPF_FUNC_sysctl_get_new_value; BPF_FUNC_sysctl_set_new_value; BPF_FUNC_strtol;
   BPF_FUNC_strtoul; BPF_FUNC_sk_storage_get; BPF_FUNC_sk_storage_delete;
   BPF_FUNC_send_signal; BPF_FUNC_tcp_gen_syncookie; BPF_FUNC_skb_output;
   BPF_FUNC_probe_read_user; BPF_FUNC_probe_read_kernel; BPF_FUNC_probe_read_user_str;
   BPF_FUNC_probe_read_kernel_str; BPF_FUNC_tcp_send_ack; BPF_FUNC_send_signal_thread;
   BPF_FUNC_jiffies64; BPF_FUNC_read_branch_records; BPF_FUNC_get_ns_current_pid_tgid;
   BPF_FUNC_xdp_output; BPF_FUNC_get_netns_cookie; BPF_FUNC_get_current_ancestor_cgroup_id;
   BPF_FUNC_sk_assign; BPF_FUNC_ktime_get_boot_ns; BPF_FUNC_seq_printf; BPF_FUNC_seq_write;
   BPF_FUNC_sk_cgroup_id; BPF_FUNC_sk_ancestor_cgroup_id; BPF_FUNC_ringbuf_output;
   BPF_FUNC_ringbuf_reserve; BPF_FUNC_ringbuf_submit; BPF_FUNC_ringbuf_discard;
   BPF_FUNC_ringbuf_query; BPF_FUNC_csum_level; BPF_FUNC_skc_to_tcp6_sock;
   BPF_FUNC_skc_to_tcp_sock; BPF_FUNC_skc_to_tcp_timewait_sock;
   BPF_FUNC_skc_to_tcp_request_sock; BPF_FUNC_skc_to_udp6_sock; BPF_FUNC_get_task_stack;
   BPF_FUNC_load_hdr_opt; BPF_FUNC_store_hdr_opt; BPF_FUNC_reserve_hdr_opt;
   BPF_FUNC_inode_storage_get; BPF_FUNC_inode_storage_delete; BPF_FUNC_d_path;
   BPF_FUNC_copy_from_user; BPF_FUNC_snprintf_btf; BPF_FUNC_seq_printf_btf;
   BPF_FUNC_skb_cgroup_classid; BPF_FUNC_redirect_neigh; BPF_FUNC_per_cpu_ptr;
   BPF_FUNC_this_cpu_ptr; BPF_FUNC_redirect_peer; BPF_FUNC_task_storage_get;
   BPF_FUNC_task_storage_delete; BPF_FUNC_get_current_task_btf; BPF_FUNC_bprm_opts_set;
   BPF_FUNC_ktime_get_coarse_ns; BPF_FUNC_ima_inode_hash; BPF_FUNC_sock_from_file;
   BPF_FUNC_check_mtu; BPF_FUNC_for_each_map_elem; BPF_FUNC_snprintf; BPF_FUNC_sys_bpf;
   BPF_FUNC_btf_find_by_name_kind; BPF_FUNC_sys_close; BPF_FUNC_timer_init;
   BPF_FUNC_timer_set_callback; BPF_FUNC_timer_start; BPF_FUNC_timer_cancel;
   BPF_FUNC_get_func_ip; BPF_FUNC_get_attach_cookie; BPF_FUNC_task_pt_regs;
   BPF_FUNC_get_branch_snapshot; BPF_FUNC_trace_vprintk; BPF_FUNC_skc_to_unix_sock;
   BPF_FUNC_kallsyms_lookup_name; BPF_FUNC_find_vma; BPF_FUNC_loop; BPF_FUNC_strncmp;
   BPF_FUNC_get_func_arg; BPF_FUNC_get_func_ret; BPF_FUNC_get_func_arg_cnt;
   BPF_FUNC_get_retval; BPF_FUNC_set_retval; BPF_FUNC_xdp_get_buff_len;
   BPF_FUNC_xdp_load_bytes; BPF_FUNC_xdp_store_bytes; BPF_FUNC_copy_from_user_task;
   BPF_FUNC_skb_set_tstamp; BPF_FUNC_ima_file_hash; BPF_FUNC_kptr_xchg;
   BPF_FUNC_map_lookup_percpu_elem; BPF_FUNC_skc_to_mptcp_sock; BPF_FUNC_dynptr_from_mem;
   BPF_FUNC_ringbuf_reserve_dynptr; BPF_FUNC_ringbuf_submit_dynptr;
   BPF_FUNC_ringbuf_discard_dynptr; BPF_FUNC_dynptr_read; BPF_FUNC_dynptr_write;
   BPF_FUNC_dynptr_data; BPF_FUNC_tcp_raw_gen_syncookie_ipv4;
   BPF_FUNC_tcp_raw_gen_syncookie_ipv6; BPF_FUNC_tcp_raw_check_syncookie_ipv4;
   BPF_FUNC_tcp_raw_check_syncookie_ipv6; BPF_FUNC_ktime_get_tai_ns;
   BPF_FUNC_user_ringbuf_drain; BPF_FUNC_cgrp_storage_get; BPF_FUNC_cgrp_storage_delete;
   BPF_FUNC_xdp_fib_lookup_proto; BPF_FUNC_xdp_get_buff_len_proto;
   BPF_FUNC_xdp_load_bytes_proto; BPF_FUNC_xdp_store_bytes_proto;
   BPF_FUNC_sock_hash_update_proto].

(** The implementations of the [RegType] interface. *)
Inductive RegType :=
  | ScalarValRegType | PtrToCtxRegType | ConstPtrToMapRegType | PtrToMapValueRegType
  | PtrToStackRegType | PtrToPacketMetaRegType | PtrToPacketRegType | PtrToPacketEndRegType
  | PtrToFlowKeysRegType | PtrToSocketRegType | PtrToSockCommonRegType
  | PtrToTcpSockRegType | PtrToTpBufferRegType | PtrToXdpSockRegType | PtrToBtfIdRegType
  | PtrToMemRegType | PtrToRdOnlyBufRegType | PtrToRdWrBufRegType | PtrToPercpuBtfIdRegType
  | PtrToFuncRegType | PtrToMapKeyRegType.

Definition regTypeString (t : RegType) : string :=
  match t with
  | ScalarValRegType => "SCALAR_VALUE"
  | PtrToCtxRegType => "PTR_TO_CTX"
  | ConstPtrToMapRegType => "CONST_PTR_TO_MAP"
  | PtrToMapValueRegType => "PTR_TO_MAP_VALUE"
  | PtrToStackRegType => "PTR_TO_STACK"
  | PtrToPacketMetaRegType => "PTR_TO_PACKET_META"
  | PtrToPacketRegType => "PTR_TO_PACKET"
  | PtrToPacketEndRegType => "PTR_TO_PACKET_END"
  | PtrToFlowKeysRegType => "PTR_TO_FLOW_KEYS"
  | PtrToSocketRegType => "PTR_TO_SOCKET"
  | PtrToSockCommonRegType => "PTR_TO_SOCK_COMMON"
  | PtrToTcpSockRegType => "PTR_TO_TCP_SOCK"
  | PtrToTpBufferRegType => "PTR_TO_TP_BUFFER"
  | PtrToXdpSockRegType => "PTR_TO_XDP_SOCK"
  | PtrToBtfIdRegType => "PTR_TO_BTF_ID"
  | PtrToMemRegType => "PTR_TO_ALLOC_MEM"
  | PtrToRdOnlyBufRegType => "PTR_TO_RDONLY_BUF"
  | PtrToRdWrBufRegType => "PTR_TO_RDWR_BUF"
  | PtrToPercpuBtfIdRegType => "PTR_TO_PERCPU_BTF_ID"
  | PtrToFuncRegType => "PTR_TO_FUNC"
  | PtrToMapKeyRegType => "PTR_TO_MAP_KEY"
  end.

Definition regTypes_all : list RegType :=
  [ScalarValRegType; PtrToCtxRegType; ConstPtrToMapRegType; PtrToMapValueRegType;
   PtrToStackRegType; PtrToPacketMetaRegType; PtrToPacketRegType; PtrToPacketEndRegType;
   PtrToFlowKeysRegType; PtrToSocketRegType; PtrToSockCommonRegType; PtrToTcpSockRegType;
   PtrToTpBufferRegType; PtrToXdpSockRegType; PtrToBtfIdRegType; PtrToMemRegType;
   PtrToRdOnlyBufRegType; PtrToRdWrBufRegType; PtrToPercpuBtfIdRegType; PtrToFuncRegType;
   PtrToMapKeyRegType].

Record BpfHelper := mkHelper {
  h_Uname : string;
  h_Enum : BpfHelperEnum;
  h_Impl : string;
  h_Proto : string;
  h_Args : list string;
  h_ArgBtfIds : list string;
  h_Ret : string;
  h_RetBtfId : string;
  h_GplOnly : bool;
  h_PktAccess : bool;
}.

(** The functions that complete a section name. *)
Inductive SecDefGenFunc :=
  | GenXdpEntry | GenKprobeEntry | GenTracepointEntry | GenRawTracepointEntry
  | GenBPFTrampoline | GenTracingIter | GenLsmEntry.

Record SecDef := mkSecDef {
  sec_Sec : string;
  sec_Gen : option SecDefGenFunc;
  sec_Sleepable : bool;
}.

(** The hints of a call: [HintGenSpinlock] to [HintGenSockMap]. *)
Inductive ArgHint :=
  | HintGenSpinlock | HintGenTimer | HintGenConstStr | HintGenXdpSockMap | HintGenSockMap.

Record StructDef := mkStruct {
  sd_Name : string;
  sd_FieldNames : list string;
  sd_FieldTypes : list string;
  sd_Size : Z;
  sd_Hints : list ArgHint;
  sd_IsStruct : bool;
}.

Record BpfCtxAccessAttr := mkAttr {
  rangeInCtx : list string;
  canRead : bool;
  canWrite : bool;
  attr_size : Z;
  defaultSize : Z;
  wideAccess : bool;
  narrowAccess : bool;
  attr_regType : option RegType;
  attachTypes : list string;
}.

(** The [others] map of the source is empty in every literal and never used. *)
Record BpfCtxAccess := mkCtxAccess {
  regTypeMap : list (string * list (list string));
  accesses : list BpfCtxAccessAttr;
}.

Record BpfProgType := mkProgType {
  pt_Name : string;
  pt_User : string;
  pt_Kern : string;
  pt_Enum : BpfProgTypeEnum;
  pt_SecDefs : list SecDef;
  pt_FuncProtos : list string;
  pt_Helpers : list BpfHelper;
  pt_ctxAccess : option BpfCtxAccess;
}.

(** A Go map literal is an association list with distinct keys. *)
Fixpoint assoc {K V} `{EqDecision K} (k : K) (l : list (K * V)) : option V :=
  match l with
  | [] => None
  | (k', v) :: l => if bool_decide (k = k') then Some v else assoc k l
  end.

(** ** Decidable equality *)

Lemma progTypeEnums_idx e : progTypeEnums !! progTypeIdx e = Some e.
Proof. by destruct e. Qed.

Lemma helperEnums_idx e : helperEnums !! helperIdx e = Some e.
Proof. by destruct e. Qed.

#[global] Instance progTypeEnum_eq_dec : EqDecision BpfProgTypeEnum.
Proof.
  intros a b. destruct (decide (progTypeIdx a = progTypeIdx b)) as [H|H]; [left|right].
  - pose proof (progTypeEnums_idx a) as Ha. rewrite H, progTypeEnums_idx in Ha. congruence.
  - by intros ->.
Defined.

#[global] Instance helperEnum_eq_dec : EqDecision BpfHelperEnum.
Proof.
  intros a b. destruct (decide (helperIdx a = helperIdx b)) as [H|H]; [left|right].
  - pose proof (helperEnums_idx a) as Ha. rewrite H, helperEnums_idx in Ha. congruence.
  - by intros ->.
Defined.

#[global] Instance regType_eq_dec : EqDecision RegType.
Proof. solve_decision. Defined.
#[global] Instance argHint_eq_dec : EqDecision ArgHint.
Proof. solve_decision. Defined.
#[global] Instance secDefGenFunc_eq_dec : EqDecision SecDefGenFunc.
Proof. solve_decision. Defined.
#[global] Instance secDef_eq_dec : EqDecision SecDef.
Proof. solve_decision. Defined.
#[global] Instance bpfHelper_eq_dec : EqDecision BpfHelper.
Proof. solve_decision. Defined.
#[global] Instance structDef_eq_dec : EqDecision StructDef.
Proof. solve_decision. Defined.

(** ** Lemmas *)

Lemma assoc_elem {K V} `{EqDecision K} (k : K) (l : list (K * V)) v :
  assoc k l = Some v → (k, v) ∈ l.
Proof.
  induction l as [|[k' v'] l IH]; simpl; [done|]. case_bool_decide; subst.
  - intros [= ->]. left.
  - intros Hl. right. by apply IH.
Qed.

Lemma elem_assoc {K V} `{EqDecision K} (k : K) (l : list (K * V)) v :
  (k, v) ∈ l → ∃ v', assoc k l = Some v'.
Proof.
  induction l as [|[k' v'] l IH]; simpl; [by intros ?%not_elem_of_nil|].
  intros [[= <- <-]|H]%elem_of_cons; case_bool_decide; eauto. done.
Qed.

Lemma regTypes_all_elem t : t ∈ regTypes_all.
Proof. apply list_elem_of_In. destruct t; simpl; tauto. Qed.
