(* ===== verification/BpfHelperTable.v ===== *)
(** * Helper table

    [HelperFuncMap] of [prog/brf_types.go]: the prototypes the generator knows,
    by the name of the kernel's prototype structure. *)

From stdpp Require Import base numbers strings list.
From S2P Require Import Prelude BpfTypes.

Local Open Scope string_scope.
Local Open Scope list_scope.

Definition HelperFuncMap1 : list (string * BpfHelper) := [
  ("bpf_map_lookup_elem_proto", mkHelper "bpf_map_lookup_elem"
     BPF_FUNC_map_lookup_elem "bpf_map_lookup_elem"
     "bpf_map_lookup_elem_proto"
     ["ARG_CONST_MAP_PTR"; "ARG_PTR_TO_MAP_KEY"] [] "RET_PTR_TO_MAP_VALUE_OR_NULL" EmptyString false true);
  ("bpf_map_update_elem_proto", mkHelper "bpf_map_update_elem"
     BPF_FUNC_map_update_elem "bpf_map_update_elem"
     "bpf_map_update_elem_proto"
     ["ARG_CONST_MAP_PTR"; "ARG_PTR_TO_MAP_KEY"; "ARG_PTR_TO_MAP_VALUE"; "ARG_ANYTHING"] [] "RET_INTEGER" EmptyString false true);
  ("bpf_map_delete_elem_proto", mkHelper "bpf_map_delete_elem"
     BPF_FUNC_map_delete_elem "bpf_map_delete_elem"
     "bpf_map_delete_elem_proto"
     ["ARG_CONST_MAP_PTR"; "ARG_PTR_TO_MAP_KEY"] [] "RET_INTEGER" EmptyString false true);
  ("bpf_probe_read_compat_proto", mkHelper "bpf_probe_read"
     BPF_FUNC_probe_read "bpf_probe_read_compat"
     "bpf_probe_read_compat_proto"
     ["ARG_PTR_TO_UNINIT_MEM"; "ARG_CONST_SIZE_OR_ZERO"; "ARG_ANYTHING"] [] "RET_INTEGER" EmptyString true false);
  ("bpf_ktime_get_ns_proto", mkHelper "bpf_ktime_get_ns"
     BPF_FUNC_ktime_get_ns "bpf_ktime_get_ns"
     "bpf_ktime_get_ns_proto"
     [] [] "RET_INTEGER" EmptyString false false);
  ("bpf_trace_printk_proto", mkHelper "bpf_trace_printk"
     BPF_FUNC_trace_printk "bpf_trace_printk"
     "bpf_trace_printk_proto"
     ["ARG_PTR_TO_MEM"; "ARG_CONST_SIZE"] [] "RET_INTEGER" EmptyString true false);
  ("bpf_get_prandom_u32_proto", mkHelper "bpf_get_prandom_u32"
     BPF_FUNC_get_prandom_u32 "bpf_get_prandom_u32"
     "bpf_get_prandom_u32_proto"
     [] [] "RET_INTEGER" EmptyString false false);
  ("bpf_get_smp_processor_id_proto", mkHelper "bpf_get_smp_processor_id"
     BPF_FUNC_get_smp_processor_id "bpf_get_smp_processor_id"
     "bpf_get_smp_processor_id_proto"
     [] [] "RET_INTEGER" EmptyString false false);
  ("bpf_get_raw_smp_processor_id_proto", mkHelper "bpf_get_smp_processor_id"
     BPF_FUNC_get_smp_processor_id "bpf_get_raw_cpu_id"
     "bpf_get_raw_smp_processor_id_proto"
     [] [] "RET_INTEGER" EmptyString false false);
  ("bpf_skb_store_bytes_proto", mkHelper "bpf_skb_store_bytes"
     BPF_FUNC_skb_store_bytes "bpf_skb_store_bytes"
     "bpf_skb_store_bytes_proto"
     ["ARG_PTR_TO_CTX"; "ARG_ANYTHING"; "ARG_PTR_TO_MEM"; "ARG_CONST_SIZE"; "ARG_ANYTHING"] [] "RET_INTEGER" EmptyString false false);
  ("bpf_l3_csum_replace_proto", mkHelper "bpf_l3_csum_replace"
     BPF_FUNC_l3_csum_replace "bpf_l3_csum_replace"
     "bpf_l3_csum_replace_proto"
     ["ARG_PTR_TO_CTX"; "ARG_ANYTHING"; "ARG_ANYTHING"; "ARG_ANYTHING"; "ARG_ANYTHING"] [] "RET_INTEGER" EmptyString false false);
  ("bpf_l4_csum_replace_proto", mkHelper "bpf_l4_csum_replace"
     BPF_FUNC_l4_csum_replace "bpf_l4_csum_replace"
     "bpf_l4_csum_replace_proto"
     ["ARG_PTR_TO_CTX"; "ARG_ANYTHING"; "ARG_ANYTHING"; "ARG_ANYTHING"; "ARG_ANYTHING"] [] "RET_INTEGER" EmptyString false false);
  ("bpf_tail_call_proto", mkHelper "bpf_tail_call"
     BPF_FUNC_tail_call "NULL"
     "bpf_tail_call_proto"
     ["ARG_PTR_TO_CTX"; "ARG_CONST_MAP_PTR"; "ARG_ANYTHING"] [] "RET_VOID" EmptyString false false);
  ("bpf_clone_redirect_proto", mkHelper "bpf_clone_redirect"
     BPF_FUNC_clone_redirect "bpf_clone_redirect"
     "bpf_clone_redirect_proto"
     ["ARG_PTR_TO_CTX"; "ARG_ANYTHING"; "ARG_ANYTHING"] [] "RET_INTEGER" EmptyString false false);
  ("bpf_get_current_pid_tgid_proto", mkHelper "bpf_get_current_pid_tgid"
     BPF_FUNC_get_current_pid_tgid "bpf_get_current_pid_tgid"
     "bpf_get_current_pid_tgid_proto"
     [] [] "RET_INTEGER" EmptyString false false);
  ("bpf_get_current_uid_gid_proto", mkHelper "bpf_get_current_uid_gid"
     BPF_FUNC_get_current_uid_gid "bpf_get_current_uid_gid"
     "bpf_get_current_uid_gid_proto"
     [] [] "RET_INTEGER" EmptyString false false);
  ("bpf_get_current_comm_proto", mkHelper "bpf_get_current_comm"
     BPF_FUNC_get_current_comm "bpf_get_current_comm"
     "bpf_get_current_comm_proto"
     ["ARG_PTR_TO_UNINIT_MEM"; "ARG_CONST_SIZE"] [] "RET_INTEGER" EmptyString false false);
  ("bpf_get_cgroup_classid_proto", mkHelper "bpf_get_cgroup_classid"
     BPF_FUNC_get_cgroup_classid "bpf_get_cgroup_classid"
     "bpf_get_cgroup_classid_proto"
     ["ARG_PTR_TO_CTX"] [] "RET_INTEGER" EmptyString false false);
  ("bpf_get_cgroup_classid_curr_proto", mkHelper "bpf_get_cgroup_classid"
     BPF_FUNC_get_cgroup_classid "bpf_get_cgroup_classid_curr"
     "bpf_get_cgroup_classid_curr_proto"
     [] [] "RET_INTEGER" EmptyString false false);
  ("bpf_skb_vlan_push_proto", mkHelper "bpf_skb_vlan_push"
     BPF_FUNC_skb_vlan_push "bpf_skb_vlan_push"
     "bpf_skb_vlan_push_proto"
     ["ARG_PTR_TO_CTX"; "ARG_ANYTHING"; "ARG_ANYTHING"] [] "RET_INTEGER" EmptyString false false);
  ("bpf_skb_vlan_pop_proto", mkHelper "bpf_skb_vlan_pop"
     BPF_FUNC_skb_vlan_pop "bpf_skb_vlan_pop"
     "bpf_skb_vlan_pop_proto"
     ["ARG_PTR_TO_CTX"] [] "RET_INTEGER" EmptyString false false);
  ("bpf_skb_get_tunnel_key_proto", mkHelper "bpf_skb_get_tunnel_key"
     BPF_FUNC_skb_get_tunnel_key "bpf_skb_get_tunnel_key"
     "bpf_skb_get_tunnel_key_proto"
     ["ARG_PTR_TO_CTX"; "ARG_PTR_TO_UNINIT_MEM"; "ARG_CONST_SIZE"; "ARG_ANYTHING"] [] "RET_INTEGER" EmptyString false false);
  ("bpf_skb_set_tunnel_key_proto", mkHelper "bpf_skb_set_tunnel_key"
     BPF_FUNC_skb_set_tunnel_key "bpf_skb_set_tunnel_key"
     "bpf_skb_set_tunnel_key_proto"
     ["ARG_PTR_TO_CTX"; "ARG_PTR_TO_MEM"; "ARG_CONST_SIZE"; "ARG_ANYTHING"] [] "RET_INTEGER" EmptyString false false);
  ("bpf_perf_event_read_proto", mkHelper "bpf_perf_event_read"
     BPF_FUNC_perf_event_read "bpf_perf_event_read"
     "bpf_perf_event_read_proto"
     ["ARG_CONST_MAP_PTR"; "ARG_ANYTHING"] [] "RET_INTEGER" EmptyString true false);
  ("bpf_redirect_proto", mkHelper "bpf_redirect"
     BPF_FUNC_redirect "bpf_redirect"
     "bpf_redirect_proto"
     ["ARG_ANYTHING"; "ARG_ANYTHING"] [] "RET_INTEGER" EmptyString false false);
  ("bpf_xdp_redirect_proto", mkHelper "bpf_redirect"
     BPF_FUNC_redirect "bpf_xdp_redirect"
     "bpf_xdp_redirect_proto"
     ["ARG_ANYTHING"; "ARG_ANYTHING"] [] "RET_INTEGER" EmptyString false false);
  ("bpf_get_route_realm_proto", mkHelper "bpf_get_route_realm"
     BPF_FUNC_get_route_realm "bpf_get_route_realm"
     "bpf_get_route_realm_proto"
     ["ARG_PTR_TO_CTX"] [] "RET_INTEGER" EmptyString false false);
  ("bpf_perf_event_output_proto", mkHelper "bpf_perf_event_output"
     BPF_FUNC_perf_event_output "bpf_perf_event_output"
     "bpf_perf_event_output_proto"
     ["ARG_PTR_TO_CTX"; "ARG_CONST_MAP_PTR"; "ARG_ANYTHING"; "ARG_PTR_TO_MEM";
      "ARG_CONST_SIZE_OR_ZERO"] [] "RET_INTEGER" EmptyString true false);
  ("bpf_event_output_data_proto", mkHelper "bpf_perf_event_output"
     BPF_FUNC_perf_event_output "bpf_event_output_data"
     "bpf_event_output_data_proto"
     ["ARG_PTR_TO_CTX"; "ARG_CONST_MAP_PTR"; "ARG_ANYTHING"; "ARG_PTR_TO_MEM";
      "ARG_CONST_SIZE_OR_ZERO"] [] "RET_INTEGER" EmptyString true false);
  ("bpf_skb_event_output_proto", mkHelper "bpf_perf_event_output"
     BPF_FUNC_perf_event_output "bpf_skb_event_output"
     "bpf_skb_event_output_proto"
     ["ARG_PTR_TO_CTX"; "ARG_CONST_MAP_PTR"; "ARG_ANYTHING"; "ARG_PTR_TO_MEM";
      "ARG_CONST_SIZE_OR_ZERO"] [] "RET_INTEGER" EmptyString true false);
  ("bpf_xdp_event_output_proto", mkHelper "bpf_perf_event_output"
     BPF_FUNC_perf_event_output "bpf_xdp_event_output"
     "bpf_xdp_event_output_proto"
     ["ARG_PTR_TO_CTX"; "ARG_CONST_MAP_PTR"; "ARG_ANYTHING"; "ARG_PTR_TO_MEM";
      "ARG_CONST_SIZE_OR_ZERO"] [] "RET_INTEGER" EmptyString true false);
  ("bpf_perf_event_output_proto_tp", mkHelper "bpf_perf_event_output"
     BPF_FUNC_perf_event_output "bpf_perf_event_output_tp"
     "bpf_perf_event_output_proto_tp"
     ["ARG_PTR_TO_CTX"; "ARG_CONST_MAP_PTR"; "ARG_ANYTHING"; "ARG_PTR_TO_MEM";
      "ARG_CONST_SIZE_OR_ZERO"] [] "RET_INTEGER" EmptyString true false);
  ("bpf_perf_event_output_proto_raw_tp", mkHelper "bpf_perf_event_output"
     BPF_FUNC_perf_event_output "bpf_perf_event_output_raw_tp"
     "bpf_perf_event_output_proto_raw_tp"
     ["ARG_PTR_TO_CTX"; "ARG_CONST_MAP_PTR"; "ARG_ANYTHING"; "ARG_PTR_TO_MEM";
      "ARG_CONST_SIZE_OR_ZERO"] [] "RET_INTEGER" EmptyString true false);
  ("bpf_skb_load_bytes_proto", mkHelper "bpf_skb_load_bytes"
     BPF_FUNC_skb_load_bytes "bpf_skb_load_bytes"
     "bpf_skb_load_bytes_proto"
     ["ARG_PTR_TO_CTX"; "ARG_ANYTHING"; "ARG_PTR_TO_UNINIT_MEM"; "ARG_CONST_SIZE"] [] "RET_INTEGER" EmptyString false false);
  ("bpf_flow_dissector_load_bytes_proto", mkHelper "bpf_skb_load_bytes"
     BPF_FUNC_skb_load_bytes "bpf_flow_dissector_load_bytes"
     "bpf_flow_dissector_load_bytes_proto"
     ["ARG_PTR_TO_CTX"; "ARG_ANYTHING"; "ARG_PTR_TO_UNINIT_MEM"; "ARG_CONST_SIZE"] [] "RET_INTEGER" EmptyString false false);
  ("sk_reuseport_load_bytes_proto", mkHelper "bpf_skb_load_bytes"
     BPF_FUNC_skb_load_bytes "sk_reuseport_load_bytes"
     "sk_reuseport_load_bytes_proto"
     ["ARG_PTR_TO_CTX"; "ARG_ANYTHING"; "ARG_PTR_TO_UNINIT_MEM"; "ARG_CONST_SIZE"] [] "RET_INTEGER" EmptyString false false);
  ("bpf_get_stackid_proto", mkHelper "bpf_get_stackid"
     BPF_FUNC_get_stackid "bpf_get_stackid"
     "bpf_get_stackid_proto"
     ["ARG_PTR_TO_CTX"; "ARG_CONST_MAP_PTR"; "ARG_ANYTHING"] [] "RET_INTEGER" EmptyString true false);
  ("bpf_get_stackid_proto_pe", mkHelper "bpf_get_stackid"
     BPF_FUNC_get_stackid "bpf_get_stackid_pe"
     "bpf_get_stackid_proto_pe"
     ["ARG_PTR_TO_CTX"; "ARG_CONST_MAP_PTR"; "ARG_ANYTHING"] [] "RET_INTEGER" EmptyString false false);
  ("bpf_get_stackid_proto_tp", mkHelper "bpf_get_stackid"
     BPF_FUNC_get_stackid "bpf_get_stackid_tp"
     "bpf_get_stackid_proto_tp"
     ["ARG_PTR_TO_CTX"; "ARG_CONST_MAP_PTR"; "ARG_ANYTHING"] [] "RET_INTEGER" EmptyString true false);
  ("bpf_get_stackid_proto_raw_tp", mkHelper "bpf_get_stackid"
     BPF_FUNC_get_stackid "bpf_get_stackid_raw_tp"
     "bpf_get_stackid_proto_raw_tp"
     ["ARG_PTR_TO_CTX"; "ARG_CONST_MAP_PTR"; "ARG_ANYTHING"] [] "RET_INTEGER" EmptyString true false);
  ("bpf_csum_diff_proto", mkHelper "bpf_csum_diff"
     BPF_FUNC_csum_diff "bpf_csum_diff"
     "bpf_csum_diff_proto"
     ["ARG_PTR_TO_MEM_OR_NULL"; "ARG_CONST_SIZE_OR_ZERO"; "ARG_PTR_TO_MEM_OR_NULL";
      "ARG_CONST_SIZE_OR_ZERO"; "ARG_ANYTHING"] [] "RET_INTEGER" EmptyString false true);
  ("bpf_skb_get_tunnel_opt_proto", mkHelper "bpf_skb_get_tunnel_opt"
     BPF_FUNC_skb_get_tunnel_opt "bpf_skb_get_tunnel_opt"
     "bpf_skb_get_tunnel_opt_proto"
     ["ARG_PTR_TO_CTX"; "ARG_PTR_TO_UNINIT_MEM"; "ARG_CONST_SIZE"] [] "RET_INTEGER" EmptyString false false);
  ("bpf_skb_set_tunnel_opt_proto", mkHelper "bpf_skb_set_tunnel_opt"
     BPF_FUNC_skb_set_tunnel_opt "bpf_skb_set_tunnel_opt"
     "bpf_skb_set_tunnel_opt_proto"
     ["ARG_PTR_TO_CTX"; "ARG_PTR_TO_MEM"; "ARG_CONST_SIZE"] [] "RET_INTEGER" EmptyString false false);
  ("bpf_skb_change_proto_proto", mkHelper "bpf_skb_change_proto"
     BPF_FUNC_skb_change_proto "bpf_skb_change_proto"
     "bpf_skb_change_proto_proto"
     ["ARG_PTR_TO_CTX"; "ARG_ANYTHING"; "ARG_ANYTHING"] [] "RET_INTEGER" EmptyString false false);
  ("bpf_skb_change_type_proto", mkHelper "bpf_skb_change_type"
     BPF_FUNC_skb_change_type "bpf_skb_change_type"
     "bpf_skb_change_type_proto"
     ["ARG_PTR_TO_CTX"; "ARG_ANYTHING"] [] "RET_INTEGER" EmptyString false false);
  ("bpf_skb_under_cgroup_proto", mkHelper "bpf_skb_under_cgroup"
     BPF_FUNC_skb_under_cgroup "bpf_skb_under_cgroup"
     "bpf_skb_under_cgroup_proto"
     ["ARG_PTR_TO_CTX"; "ARG_CONST_MAP_PTR"; "ARG_ANYTHING"] [] "RET_INTEGER" EmptyString false false);
  ("bpf_get_hash_recalc_proto", mkHelper "bpf_get_hash_recalc"
     BPF_FUNC_get_hash_recalc "bpf_get_hash_recalc"
     "bpf_get_hash_recalc_proto"
     ["ARG_PTR_TO_CTX"] [] "RET_INTEGER" EmptyString false false);
  ("bpf_get_current_task_proto", mkHelper "bpf_get_current_task"
     BPF_FUNC_get_current_task "bpf_get_current_task"
     "bpf_get_current_task_proto"
     [] [] "RET_INTEGER" EmptyString true false);
  ("bpf_probe_write_user_proto", mkHelper "bpf_probe_write_user"
     BPF_FUNC_probe_write_user "bpf_probe_write_user"
     "bpf_probe_write_user_proto"
     ["ARG_ANYTHING"; "ARG_PTR_TO_MEM"; "ARG_CONST_SIZE"] [] "RET_INTEGER" EmptyString true false);
  ("bpf_current_task_under_cgroup_proto", mkHelper "bpf_current_task_under_cgroup"
     BPF_FUNC_current_task_under_cgroup "bpf_current_task_under_cgroup"
     "bpf_current_task_under_cgroup_proto"
     ["ARG_CONST_MAP_PTR"; "ARG_ANYTHING"] [] "RET_INTEGER" EmptyString false false);
  ("bpf_skb_change_tail_proto", mkHelper "bpf_skb_change_tail"
     BPF_FUNC_skb_change_tail "bpf_skb_change_tail"
     "bpf_skb_change_tail_proto"
     ["ARG_PTR_TO_CTX"; "ARG_ANYTHING"; "ARG_ANYTHING"] [] "RET_INTEGER" EmptyString false false);
  ("sk_skb_change_tail_proto", mkHelper "bpf_skb_change_tail"
     BPF_FUNC_skb_change_tail "sk_skb_change_tail"
     "sk_skb_change_tail_proto"
     ["ARG_PTR_TO_CTX"; "ARG_ANYTHING"; "ARG_ANYTHING"] [] "RET_INTEGER" EmptyString false false);
  ("bpf_skb_pull_data_proto", mkHelper "bpf_skb_pull_data"
     BPF_FUNC_skb_pull_data "bpf_skb_pull_data"
     "bpf_skb_pull_data_proto"
     ["ARG_PTR_TO_CTX"; "ARG_ANYTHING"] [] "RET_INTEGER" EmptyString false false);
  ("sk_skb_pull_data_proto", mkHelper "bpf_skb_pull_data"
     BPF_FUNC_skb_pull_data "sk_skb_pull_data"
     "sk_skb_pull_data_proto"
     ["ARG_PTR_TO_CTX"; "ARG_ANYTHING"] [] "RET_INTEGER" EmptyString false false);
  ("bpf_csum_update_proto", mkHelper "bpf_csum_update"
     BPF_FUNC_csum_update "bpf_csum_update"
     "bpf_csum_update_proto"
     ["ARG_PTR_TO_CTX"; "ARG_ANYTHING"] [] "RET_INTEGER" EmptyString false false);
  ("bpf_set_hash_invalid_proto", mkHelper "bpf_set_hash_invalid"
     BPF_FUNC_set_hash_invalid "bpf_set_hash_invalid"
     "bpf_set_hash_invalid_proto"
     ["ARG_PTR_TO_CTX"] [] "RET_INTEGER" EmptyString false false);
  ("bpf_get_numa_node_id_proto", mkHelper "bpf_get_numa_node_id"
     BPF_FUNC_get_numa_node_id "bpf_get_numa_node_id"
     "bpf_get_numa_node_id_proto"
     [] [] "RET_INTEGER" EmptyString false false);
  ("bpf_skb_change_head_proto", mkHelper "bpf_skb_change_head"
     BPF_FUNC_skb_change_head "bpf_skb_change_head"
     "bpf_skb_change_head_proto"
     ["ARG_PTR_TO_CTX"; "ARG_ANYTHING"; "ARG_ANYTHING"] [] "RET_INTEGER" EmptyString false false);
  ("sk_skb_change_head_proto", mkHelper "bpf_skb_change_head"
     BPF_FUNC_skb_change_head "sk_skb_change_head"
     "sk_skb_change_head_proto"
     ["ARG_PTR_TO_CTX"; "ARG_ANYTHING"; "ARG_ANYTHING"] [] "RET_INTEGER" EmptyString false false);
  ("bpf_xdp_adjust_head_proto", mkHelper "bpf_xdp_adjust_head"
     BPF_FUNC_xdp_adjust_head "bpf_xdp_adjust_head"
     "bpf_xdp_adjust_head_proto"
     ["ARG_PTR_TO_CTX"; "ARG_ANYTHING"] [] "RET_INTEGER" EmptyString false false);
  ("bpf_probe_read_compat_str_proto", mkHelper "bpf_probe_read_str"
     BPF_FUNC_probe_read_str "bpf_probe_read_compat_str"
     "bpf_probe_read_compat_str_proto"
     ["ARG_PTR_TO_UNINIT_MEM"; "ARG_CONST_SIZE_OR_ZERO"; "ARG_ANYTHING"] [] "RET_INTEGER" EmptyString true false);
  ("bpf_get_socket_cookie_proto", mkHelper "bpf_get_socket_cookie"
     BPF_FUNC_get_socket_cookie "bpf_get_socket_cookie"
     "bpf_get_socket_cookie_proto"
     ["ARG_PTR_TO_CTX"] [] "RET_INTEGER" EmptyString false false);
  ("bpf_get_socket_cookie_sock_addr_proto", mkHelper "bpf_get_socket_cookie"
     BPF_FUNC_get_socket_cookie "bpf_get_socket_cookie_sock_addr"
     "bpf_get_socket_cookie_sock_addr_proto"
     ["ARG_PTR_TO_CTX"] [] "RET_INTEGER" EmptyString false false);
  ("bpf_get_socket_cookie_sock_proto", mkHelper "bpf_get_socket_cookie"
     BPF_FUNC_get_socket_cookie "bpf_get_socket_cookie_sock"
     "bpf_get_socket_cookie_sock_proto"
     ["ARG_PTR_TO_CTX"] [] "RET_INTEGER" EmptyString false false);
  ("bpf_get_socket_cookie_sock_ops_proto", mkHelper "bpf_get_socket_cookie"
     BPF_FUNC_get_socket_cookie "bpf_get_socket_cookie_sock_ops"
     "bpf_get_socket_cookie_sock_ops_proto"
     ["ARG_PTR_TO_CTX"] [] "RET_INTEGER" EmptyString false false);
  ("bpf_get_socket_ptr_cookie_proto", mkHelper "bpf_get_socket_cookie"
     BPF_FUNC_get_socket_cookie "bpf_get_socket_ptr_cookie"
     "bpf_get_socket_ptr_cookie_proto"
     ["ARG_PTR_TO_BTF_ID_SOCK_COMMON"] [] "RET_INTEGER" EmptyString false false);
  ("bpf_get_socket_uid_proto", mkHelper "bpf_get_socket_uid"
     BPF_FUNC_get_socket_uid "bpf_get_socket_uid"
     "bpf_get_socket_uid_proto"
     ["ARG_PTR_TO_CTX"] [] "RET_INTEGER" EmptyString false false);
  ("bpf_set_hash_proto", mkHelper "bpf_set_hash"
     BPF_FUNC_set_hash "bpf_set_hash"
     "bpf_set_hash_proto"
     ["ARG_PTR_TO_CTX"; "ARG_ANYTHING"] [] "RET_INTEGER" EmptyString false false);
  ("bpf_sock_ops_setsockopt_proto", mkHelper "bpf_setsockopt"
     BPF_FUNC_setsockopt "bpf_sock_ops_setsockopt"
     "bpf_sock_ops_setsockopt_proto"
     ["ARG_PTR_TO_CTX"; "ARG_ANYTHING"; "ARG_ANYTHING"; "ARG_PTR_TO_MEM"; "ARG_CONST_SIZE"] [] "RET_INTEGER" EmptyString false false);
  ("bpf_sk_setsockopt_proto", mkHelper "bpf_setsockopt"
     BPF_FUNC_setsockopt "bpf_sk_setsockopt"
     "bpf_sk_setsockopt_proto"
     ["ARG_PTR_TO_BTF_ID_SOCK_COMMON"; "ARG_ANYTHING"; "ARG_ANYTHING"; "ARG_PTR_TO_MEM";
      "ARG_CONST_SIZE"] [] "RET_INTEGER" EmptyString false false);
  ("bpf_sock_addr_setsockopt_proto", mkHelper "bpf_setsockopt"
     BPF_FUNC_setsockopt "bpf_sock_addr_setsockopt"
     "bpf_sock_addr_setsockopt_proto"
     ["ARG_PTR_TO_CTX"; "ARG_ANYTHING"; "ARG_ANYTHING"; "ARG_PTR_TO_MEM"; "ARG_CONST_SIZE"] [] "RET_INTEGER" EmptyString false false);
  ("bpf_skb_adjust_room_proto", mkHelper "bpf_skb_adjust_room"
     BPF_FUNC_skb_adjust_room "bpf_skb_adjust_room"
     "bpf_skb_adjust_room_proto"
     ["ARG_PTR_TO_CTX"; "ARG_ANYTHING"; "ARG_ANYTHING"; "ARG_ANYTHING"] [] "RET_INTEGER" EmptyString false false);
  ("sk_skb_adjust_room_proto", mkHelper "bpf_skb_adjust_room"
     BPF_FUNC_skb_adjust_room "sk_skb_adjust_room"
     "sk_skb_adjust_room_proto"
     ["ARG_PTR_TO_CTX"; "ARG_ANYTHING"; "ARG_ANYTHING"; "ARG_ANYTHING"] [] "RET_INTEGER" EmptyString false false);
  ("bpf_xdp_redirect_map_proto", mkHelper "bpf_redirect_map"
     BPF_FUNC_redirect_map "bpf_redirect_map"
     "bpf_xdp_redirect_map_proto"
     ["ARG_CONST_MAP_PTR"; "ARG_ANYTHING"; "ARG_ANYTHING"] [] "RET_INTEGER" EmptyString false false);
  ("bpf_sk_redirect_map_proto", mkHelper "bpf_sk_redirect_map"
     BPF_FUNC_sk_redirect_map "bpf_sk_redirect_map"
     "bpf_sk_redirect_map_proto"
     ["ARG_PTR_TO_CTX"; "ARG_CONST_MAP_PTR"; "ARG_ANYTHING"; "ARG_ANYTHING"] [] "RET_INTEGER" EmptyString false false);
  ("bpf_sock_map_update_proto", mkHelper "bpf_sock_map_update"
     BPF_FUNC_sock_map_update "bpf_sock_map_update"
     "bpf_sock_map_update_proto"
     ["ARG_PTR_TO_CTX"; "ARG_CONST_MAP_PTR"; "ARG_PTR_TO_MAP_KEY"; "ARG_ANYTHING"] [] "RET_INTEGER" EmptyString false false);
  ("bpf_xdp_adjust_meta_proto", mkHelper "bpf_xdp_adjust_meta"
     BPF_FUNC_xdp_adjust_meta "bpf_xdp_adjust_meta"
     "bpf_xdp_adjust_meta_proto"
     ["ARG_PTR_TO_CTX"; "ARG_ANYTHING"] [] "RET_INTEGER" EmptyString false false);
  ("bpf_perf_event_read_value_proto", mkHelper "bpf_perf_event_read_value"
     BPF_FUNC_perf_event_read_value "bpf_perf_event_read_value"
     "bpf_perf_event_read_value_proto"
     ["ARG_CONST_MAP_PTR"; "ARG_ANYTHING"; "ARG_PTR_TO_UNINIT_MEM"; "ARG_CONST_SIZE"] [] "RET_INTEGER" EmptyString true false);
  ("bpf_perf_prog_read_value_proto", mkHelper "bpf_perf_prog_read_value"
     BPF_FUNC_perf_prog_read_value "bpf_perf_prog_read_value"
     "bpf_perf_prog_read_value_proto"
     ["ARG_PTR_TO_CTX"; "ARG_PTR_TO_UNINIT_MEM"; "ARG_CONST_SIZE"] [] "RET_INTEGER" EmptyString true false);
  ("bpf_sock_ops_getsockopt_proto", mkHelper "bpf_getsockopt"
     BPF_FUNC_getsockopt "bpf_sock_ops_getsockopt"
     "bpf_sock_ops_getsockopt_proto"
     ["ARG_PTR_TO_CTX"; "ARG_ANYTHING"; "ARG_ANYTHING"; "ARG_PTR_TO_UNINIT_MEM";
      "ARG_CONST_SIZE"] [] "RET_INTEGER" EmptyString false false);
  ("bpf_sk_getsockopt_proto", mkHelper "bpf_getsockopt"
     BPF_FUNC_getsockopt "bpf_sk_getsockopt"
     "bpf_sk_getsockopt_proto"
     ["ARG_PTR_TO_BTF_ID_SOCK_COMMON"; "ARG_ANYTHING"; "ARG_ANYTHING";
      "ARG_PTR_TO_UNINIT_MEM"; "ARG_CONST_SIZE"] [] "RET_INTEGER" EmptyString false false);
  ("bpf_sock_addr_getsockopt_proto", mkHelper "bpf_getsockopt"
     BPF_FUNC_getsockopt "bpf_sock_addr_getsockopt"
     "bpf_sock_addr_getsockopt_proto"
     ["ARG_PTR_TO_CTX"; "ARG_ANYTHING"; "ARG_ANYTHING"; "ARG_PTR_TO_UNINIT_MEM";
      "ARG_CONST_SIZE"] [] "RET_INTEGER" EmptyString false false);
  ("bpf_override_return_proto", mkHelper "bpf_override_return"
     BPF_FUNC_override_return "bpf_override_return"
     "bpf_override_return_proto"
     ["ARG_PTR_TO_CTX"; "ARG_ANYTHING"] [] "RET_INTEGER" EmptyString true false);
  ("bpf_sock_ops_cb_flags_set_proto", mkHelper "bpf_sock_ops_cb_flags_set"
     BPF_FUNC_sock_ops_cb_flags_set "bpf_sock_ops_cb_flags_set"
     "bpf_sock_ops_cb_flags_set_proto"
     ["ARG_PTR_TO_CTX"; "ARG_ANYTHING"] [] "RET_INTEGER" EmptyString false false);
  ("bpf_msg_redirect_map_proto", mkHelper "bpf_msg_redirect_map"
     BPF_FUNC_msg_redirect_map "bpf_msg_redirect_map"
     "bpf_msg_redirect_map_proto"
     ["ARG_PTR_TO_CTX"; "ARG_CONST_MAP_PTR"; "ARG_ANYTHING"; "ARG_ANYTHING"] [] "RET_INTEGER" EmptyString false false);
  ("bpf_msg_apply_bytes_proto", mkHelper "bpf_msg_apply_bytes"
     BPF_FUNC_msg_apply_bytes "bpf_msg_apply_bytes"
     "bpf_msg_apply_bytes_proto"
     ["ARG_PTR_TO_CTX"; "ARG_ANYTHING"] [] "RET_INTEGER" EmptyString false false);
  ("bpf_msg_cork_bytes_proto", mkHelper "bpf_msg_cork_bytes"
     BPF_FUNC_msg_cork_bytes "bpf_msg_cork_bytes"
     "bpf_msg_cork_bytes_proto"
     ["ARG_PTR_TO_CTX"; "ARG_ANYTHING"] [] "RET_INTEGER" EmptyString false false);
  ("bpf_msg_pull_data_proto", mkHelper "bpf_msg_pull_data"
     BPF_FUNC_msg_pull_data "bpf_msg_pull_data"
     "bpf_msg_pull_data_proto"
     ["ARG_PTR_TO_CTX"; "ARG_ANYTHING"; "ARG_ANYTHING"; "ARG_ANYTHING"] [] "RET_INTEGER" EmptyString false false);
  ("bpf_bind_proto", mkHelper "bpf_bind"
     BPF_FUNC_bind "bpf_bind"
     "bpf_bind_proto"
     ["ARG_PTR_TO_CTX"; "ARG_PTR_TO_MEM"; "ARG_CONST_SIZE"] [] "RET_INTEGER" EmptyString false false);
  ("bpf_xdp_adjust_tail_proto", mkHelper "bpf_xdp_adjust_tail"
     BPF_FUNC_xdp_adjust_tail "bpf_xdp_adjust_tail"
     "bpf_xdp_adjust_tail_proto"
     ["ARG_PTR_TO_CTX"; "ARG_ANYTHING"] [] "RET_INTEGER" EmptyString false false);
  ("bpf_skb_get_xfrm_state_proto", mkHelper "bpf_skb_get_xfrm_state"
     BPF_FUNC_skb_get_xfrm_state "bpf_skb_get_xfrm_state"
     "bpf_skb_get_xfrm_state_proto"
     ["ARG_PTR_TO_CTX"; "ARG_ANYTHING"; "ARG_PTR_TO_UNINIT_MEM"; "ARG_CONST_SIZE";
      "ARG_ANYTHING"] [] "RET_INTEGER" EmptyString false false);
  ("bpf_get_stack_proto", mkHelper "bpf_get_stack"
     BPF_FUNC_get_stack "bpf_get_stack"
     "bpf_get_stack_proto"
     ["ARG_PTR_TO_CTX"; "ARG_PTR_TO_UNINIT_MEM"; "ARG_CONST_SIZE_OR_ZERO"; "ARG_ANYTHING"] [] "RET_INTEGER" EmptyString true false);
  ("bpf_get_stack_proto_raw_tp", mkHelper "bpf_get_stack"
     BPF_FUNC_get_stack "bpf_get_stack_raw_tp"
     "bpf_get_stack_proto_raw_tp"
     ["ARG_PTR_TO_CTX"; "ARG_PTR_TO_MEM"; "ARG_CONST_SIZE_OR_ZERO"; "ARG_ANYTHING"] [] "RET_INTEGER" EmptyString true false);
  ("bpf_get_stack_proto_tp", mkHelper "bpf_get_stack"
     BPF_FUNC_get_stack "bpf_get_stack_tp"
     "bpf_get_stack_proto_tp"
     ["ARG_PTR_TO_CTX"; "ARG_PTR_TO_UNINIT_MEM"; "ARG_CONST_SIZE_OR_ZERO"; "ARG_ANYTHING"] [] "RET_INTEGER" EmptyString true false);
  ("bpf_get_stack_proto_pe", mkHelper "bpf_get_stack"
     BPF_FUNC_get_stack "bpf_get_stack_pe"
     "bpf_get_stack_proto_pe"
     ["ARG_PTR_TO_CTX"; "ARG_PTR_TO_UNINIT_MEM"; "ARG_CONST_SIZE_OR_ZERO"; "ARG_ANYTHING"] [] "RET_INTEGER" EmptyString true false);
  ("bpf_skb_load_bytes_relative_proto", mkHelper "bpf_skb_load_bytes_relative"
     BPF_FUNC_skb_load_bytes_relative "bpf_skb_load_bytes_relative"
     "bpf_skb_load_bytes_relative_proto"
     ["ARG_PTR_TO_CTX"; "ARG_ANYTHING"; "ARG_PTR_TO_UNINIT_MEM"; "ARG_CONST_SIZE";
      "ARG_ANYTHING"] [] "RET_INTEGER" EmptyString false false);
  ("sk_reuseport_load_bytes_relative_proto", mkHelper "bpf_skb_load_bytes_relative"
     BPF_FUNC_skb_load_bytes_relative "sk_reuseport_load_bytes_relative"
     "sk_reuseport_load_bytes_relative_proto"
     ["ARG_PTR_TO_CTX"; "ARG_ANYTHING"; "ARG_PTR_TO_UNINIT_MEM"; "ARG_CONST_SIZE";
      "ARG_ANYTHING"] [] "RET_INTEGER" EmptyString false false);
  ("bpf_skb_fib_lookup_proto", mkHelper "bpf_fib_lookup"
     BPF_FUNC_fib_lookup "bpf_skb_fib_lookup"
     "bpf_skb_fib_lookup_proto"
     ["ARG_PTR_TO_CTX"; "ARG_PTR_TO_MEM"; "ARG_CONST_SIZE"; "ARG_ANYTHING"] [] "RET_INTEGER" EmptyString true false);
  ("bpf_xdp_fib_lookup_proto", mkHelper "bpf_fib_lookup"
     BPF_FUNC_fib_lookup "bpf_xdp_fib_lookup"
     "bpf_xdp_fib_lookup_proto"
     ["ARG_PTR_TO_CTX"; "ARG_PTR_TO_MEM"; "ARG_CONST_SIZE"; "ARG_ANYTHING"] [] "RET_INTEGER" EmptyString true false);
  ("bpf_xdp_get_buff_len_proto", mkHelper "bpf_xdp_get_buff_len"
     BPF_FUNC_xdp_get_buff_len "bpf_xdp_get_buff_len"
     "bpf_xdp_get_buff_len_proto"
     ["ARG_PTR_TO_CTX"] [] "RET_INTEGER" EmptyString false false);
  ("bpf_xdp_load_bytes_proto", mkHelper "bpf_xdp_load_bytes"
     BPF_FUNC_xdp_load_bytes "bpf_xdp_load_bytes"
     "bpf_xdp_load_bytes_proto"
     ["ARG_PTR_TO_CTX"; "ARG_ANYTHING"; "ARG_PTR_TO_UNINIT_MEM"; "ARG_CONST_SIZE"] [] "RET_INTEGER" EmptyString false false);
  ("bpf_xdp_store_bytes_proto", mkHelper "bpf_xdp_store_bytes"
     BPF_FUNC_xdp_store_bytes "bpf_xdp_store_bytes"
     "bpf_xdp_store_bytes_proto"
     ["ARG_PTR_TO_CTX"; "ARG_ANYTHING"; "ARG_PTR_TO_MEM"; "ARG_CONST_SIZE"] [] "RET_INTEGER" EmptyString false false);
  ("bpf_sock_hash_update_proto", mkHelper "bpf_sock_hash_update"
     BPF_FUNC_sock_hash_update "bpf_sock_hash_update"
     "bpf_sock_hash_update_proto"
     ["ARG_PTR_TO_CTX"; "ARG_CONST_MAP_PTR"; "ARG_PTR_TO_MAP_KEY"; "ARG_ANYTHING"] [] "RET_INTEGER" EmptyString false false);
  ("bpf_msg_redirect_hash_proto", mkHelper "bpf_msg_redirect_hash"
     BPF_FUNC_msg_redirect_hash "bpf_msg_redirect_hash"
     "bpf_msg_redirect_hash_proto"
     ["ARG_PTR_TO_CTX"; "ARG_CONST_MAP_PTR"; "ARG_PTR_TO_MAP_KEY"; "ARG_ANYTHING"] [] "RET_INTEGER" EmptyString false false);
  ("bpf_sk_redirect_hash_proto", mkHelper "bpf_sk_redirect_hash"
     BPF_FUNC_sk_redirect_hash "bpf_sk_redirect_hash"
     "bpf_sk_redirect_hash_proto"
     ["ARG_PTR_TO_CTX"; "ARG_CONST_MAP_PTR"; "ARG_PTR_TO_MAP_KEY"; "ARG_ANYTHING"] [] "RET_INTEGER" EmptyString false false);
  ("bpf_lwt_in_push_encap_proto", mkHelper "bpf_lwt_push_encap"
     BPF_FUNC_lwt_push_encap "bpf_lwt_in_push_encap"
     "bpf_lwt_in_push_encap_proto"
     ["ARG_PTR_TO_CTX"; "ARG_ANYTHING"; "ARG_PTR_TO_MEM"; "ARG_CONST_SIZE"] [] "RET_INTEGER" EmptyString false false);
  ("bpf_lwt_xmit_push_encap_proto", mkHelper "bpf_lwt_push_encap"
     BPF_FUNC_lwt_push_encap "bpf_lwt_xmit_push_encap"
     "bpf_lwt_xmit_push_encap_proto"
     ["ARG_PTR_TO_CTX"; "ARG_ANYTHING"; "ARG_PTR_TO_MEM"; "ARG_CONST_SIZE"] [] "RET_INTEGER" EmptyString false false);
  ("bpf_lwt_seg6_store_bytes_proto", mkHelper "bpf_lwt_seg6_store_bytes"
     BPF_FUNC_lwt_seg6_store_bytes "bpf_lwt_seg6_store_bytes"
     "bpf_lwt_seg6_store_bytes_proto"
     ["ARG_PTR_TO_CTX"; "ARG_ANYTHING"; "ARG_PTR_TO_MEM"] [] "RET_INTEGER" EmptyString false false);
  ("bpf_lwt_seg6_adjust_srh_proto", mkHelper "bpf_lwt_seg6_adjust_srh"
     BPF_FUNC_lwt_seg6_adjust_srh "bpf_lwt_seg6_adjust_srh"
     "bpf_lwt_seg6_adjust_srh_proto"
     ["ARG_PTR_TO_CTX"; "ARG_ANYTHING"; "ARG_ANYTHING"] [] "RET_INTEGER" EmptyString false false);
  ("bpf_lwt_seg6_action_proto", mkHelper "bpf_lwt_seg6_action"
     BPF_FUNC_lwt_seg6_action "bpf_lwt_seg6_action"
     "bpf_lwt_seg6_action_proto"
     ["ARG_PTR_TO_CTX"; "ARG_ANYTHING"; "ARG_PTR_TO_MEM"; "ARG_CONST_SIZE"] [] "RET_INTEGER" EmptyString false false);
  ("rc_repeat_proto", mkHelper "bpf_rc_repeat"
     BPF_FUNC_rc_repeat "bpf_rc_repeat"
     "rc_repeat_proto"
     ["ARG_PTR_TO_CTX"] [] "RET_INTEGER" EmptyString true false);
  ("rc_keydown_proto", mkHelper "bpf_rc_keydown"
     BPF_FUNC_rc_keydown "bpf_rc_keydown"
     "rc_keydown_proto"
     ["ARG_PTR_TO_CTX"; "ARG_ANYTHING"; "ARG_ANYTHING"; "ARG_ANYTHING"] [] "RET_INTEGER" EmptyString true false);
  ("bpf_skb_cgroup_id_proto", mkHelper "bpf_skb_cgroup_id"
     BPF_FUNC_skb_cgroup_id "bpf_skb_cgroup_id"
     "bpf_skb_cgroup_id_proto"
     ["ARG_PTR_TO_CTX"] [] "RET_INTEGER" EmptyString false false);
  ("bpf_get_current_cgroup_id_proto", mkHelper "bpf_get_current_cgroup_id"
     BPF_FUNC_get_current_cgroup_id "bpf_get_current_cgroup_id"
     "bpf_get_current_cgroup_id_proto"
     [] [] "RET_INTEGER" EmptyString false false);
  ("bpf_get_local_storage_proto", mkHelper "bpf_get_local_storage"
     BPF_FUNC_get_local_storage "bpf_get_local_storage"
     "bpf_get_local_storage_proto"
     ["ARG_CONST_MAP_PTR"; "ARG_ANYTHING"] [] "RET_PTR_TO_MAP_VALUE" EmptyString false false);
  ("sk_select_reuseport_proto", mkHelper "bpf_sk_select_reuseport"
     BPF_FUNC_sk_select_reuseport "sk_select_reuseport"
     "sk_select_reuseport_proto"
     ["ARG_PTR_TO_CTX"; "ARG_CONST_MAP_PTR"; "ARG_PTR_TO_MAP_KEY"; "ARG_ANYTHING"] [] "RET_INTEGER" EmptyString false false);
  ("bpf_skb_ancestor_cgroup_id_proto", mkHelper "bpf_skb_ancestor_cgroup_id"
     BPF_FUNC_skb_ancestor_cgroup_id "bpf_skb_ancestor_cgroup_id"
     "bpf_skb_ancestor_cgroup_id_proto"
     ["ARG_PTR_TO_CTX"; "ARG_ANYTHING"] [] "RET_INTEGER" EmptyString false false);
  ("bpf_sk_lookup_tcp_proto", mkHelper "bpf_sk_lookup_tcp"
     BPF_FUNC_sk_lookup_tcp "bpf_sk_lookup_tcp"
     "bpf_sk_lookup_tcp_proto"
     ["ARG_PTR_TO_CTX"; "ARG_PTR_TO_MEM"; "ARG_CONST_SIZE"; "ARG_ANYTHING"; "ARG_ANYTHING"] [] "RET_PTR_TO_SOCKET_OR_NULL" EmptyString false true);
  ("bpf_xdp_sk_lookup_tcp_proto", mkHelper "bpf_sk_lookup_tcp"
     BPF_FUNC_sk_lookup_tcp "bpf_xdp_sk_lookup_tcp"
     "bpf_xdp_sk_lookup_tcp_proto"
     ["ARG_PTR_TO_CTX"; "ARG_PTR_TO_MEM"; "ARG_CONST_SIZE"; "ARG_ANYTHING"; "ARG_ANYTHING"] [] "RET_PTR_TO_SOCKET_OR_NULL" EmptyString false true);
  ("bpf_sock_addr_sk_lookup_tcp_proto", mkHelper "bpf_sk_lookup_tcp"
     BPF_FUNC_sk_lookup_tcp "bpf_sock_addr_sk_lookup_tcp"
     "bpf_sock_addr_sk_lookup_tcp_proto"
     ["ARG_PTR_TO_CTX"; "ARG_PTR_TO_MEM"; "ARG_CONST_SIZE"; "ARG_ANYTHING"; "ARG_ANYTHING"] [] "RET_PTR_TO_SOCKET_OR_NULL" EmptyString false false)
].

Definition HelperFuncMap2 : list (string * BpfHelper) := [
  ("bpf_sk_lookup_udp_proto", mkHelper "bpf_sk_lookup_udp"
     BPF_FUNC_sk_lookup_udp "bpf_sk_lookup_udp"
     "bpf_sk_lookup_udp_proto"
     ["ARG_PTR_TO_CTX"; "ARG_PTR_TO_MEM"; "ARG_CONST_SIZE"; "ARG_ANYTHING"; "ARG_ANYTHING"] [] "RET_PTR_TO_SOCKET_OR_NULL" EmptyString false true);
  ("bpf_xdp_sk_lookup_udp_proto", mkHelper "bpf_sk_lookup_udp"
     BPF_FUNC_sk_lookup_udp "bpf_xdp_sk_lookup_udp"
     "bpf_xdp_sk_lookup_udp_proto"
     ["ARG_PTR_TO_CTX"; "ARG_PTR_TO_MEM"; "ARG_CONST_SIZE"; "ARG_ANYTHING"; "ARG_ANYTHING"] [] "RET_PTR_TO_SOCKET_OR_NULL" EmptyString false true);
  ("bpf_sock_addr_sk_lookup_udp_proto", mkHelper "bpf_sk_lookup_udp"
     BPF_FUNC_sk_lookup_udp "bpf_sock_addr_sk_lookup_udp"
     "bpf_sock_addr_sk_lookup_udp_proto"
     ["ARG_PTR_TO_CTX"; "ARG_PTR_TO_MEM"; "ARG_CONST_SIZE"; "ARG_ANYTHING"; "ARG_ANYTHING"] [] "RET_PTR_TO_SOCKET_OR_NULL" EmptyString false false);
  ("bpf_sk_release_proto", mkHelper "bpf_sk_release"
     BPF_FUNC_sk_release "bpf_sk_release"
     "bpf_sk_release_proto"
     ["ARG_PTR_TO_BTF_ID_SOCK_COMMON"] [] "RET_INTEGER" EmptyString false false);
  ("bpf_map_push_elem_proto", mkHelper "bpf_map_push_elem"
     BPF_FUNC_map_push_elem "bpf_map_push_elem"
     "bpf_map_push_elem_proto"
     ["ARG_CONST_MAP_PTR"; "ARG_PTR_TO_MAP_VALUE"; "ARG_ANYTHING"] [] "RET_INTEGER" EmptyString false true);
  ("bpf_map_pop_elem_proto", mkHelper "bpf_map_pop_elem"
     BPF_FUNC_map_pop_elem "bpf_map_pop_elem"
     "bpf_map_pop_elem_proto"
     ["ARG_CONST_MAP_PTR"; "ARG_PTR_TO_UNINIT_MAP_VALUE"] [] "RET_INTEGER" EmptyString false false);
  ("bpf_map_peek_elem_proto", mkHelper "bpf_map_peek_elem"
     BPF_FUNC_map_peek_elem "bpf_map_peek_elem"
     "bpf_map_peek_elem_proto"
     ["ARG_CONST_MAP_PTR"; "ARG_PTR_TO_UNINIT_MAP_VALUE"] [] "RET_INTEGER" EmptyString false false);
  ("bpf_msg_push_data_proto", mkHelper "bpf_msg_push_data"
     BPF_FUNC_msg_push_data "bpf_msg_push_data"
     "bpf_msg_push_data_proto"
     ["ARG_PTR_TO_CTX"; "ARG_ANYTHING"; "ARG_ANYTHING"; "ARG_ANYTHING"] [] "RET_INTEGER" EmptyString false false);
  ("bpf_msg_pop_data_proto", mkHelper "bpf_msg_pop_data"
     BPF_FUNC_msg_pop_data "bpf_msg_pop_data"
     "bpf_msg_pop_data_proto"
     ["ARG_PTR_TO_CTX"; "ARG_ANYTHING"; "ARG_ANYTHING"; "ARG_ANYTHING"] [] "RET_INTEGER" EmptyString false false);
  ("rc_pointer_rel_proto", mkHelper "bpf_rc_pointer_rel"
     BPF_FUNC_rc_pointer_rel "bpf_rc_pointer_rel"
     "rc_pointer_rel_proto"
     ["ARG_PTR_TO_CTX"; "ARG_ANYTHING"; "ARG_ANYTHING"] [] "RET_INTEGER" EmptyString true false);
  ("bpf_spin_lock_proto", mkHelper "bpf_spin_lock"
     BPF_FUNC_spin_lock "bpf_spin_lock"
     "bpf_spin_lock_proto"
     ["ARG_PTR_TO_SPIN_LOCK"] [] "RET_VOID" EmptyString false false);
  ("bpf_spin_unlock_proto", mkHelper "bpf_spin_unlock"
     BPF_FUNC_spin_unlock "bpf_spin_unlock"
     "bpf_spin_unlock_proto"
     ["ARG_PTR_TO_SPIN_LOCK"] [] "RET_VOID" EmptyString false false);
  ("bpf_sk_fullsock_proto", mkHelper "bpf_sk_fullsock"
     BPF_FUNC_sk_fullsock "bpf_sk_fullsock"
     "bpf_sk_fullsock_proto"
     ["ARG_PTR_TO_SOCK_COMMON"] [] "RET_PTR_TO_SOCKET_OR_NULL" EmptyString false false);
  ("bpf_tcp_sock_proto", mkHelper "bpf_tcp_sock"
     BPF_FUNC_tcp_sock "bpf_tcp_sock"
     "bpf_tcp_sock_proto"
     ["ARG_PTR_TO_SOCK_COMMON"] [] "RET_PTR_TO_TCP_SOCK_OR_NULL" EmptyString false false);
  ("bpf_skb_ecn_set_ce_proto", mkHelper "bpf_skb_ecn_set_ce"
     BPF_FUNC_skb_ecn_set_ce "bpf_skb_ecn_set_ce"
     "bpf_skb_ecn_set_ce_proto"
     ["ARG_PTR_TO_CTX"] [] "RET_INTEGER" EmptyString false false);
  ("bpf_get_listener_sock_proto", mkHelper "bpf_get_listener_sock"
     BPF_FUNC_get_listener_sock "bpf_get_listener_sock"
     "bpf_get_listener_sock_proto"
     ["ARG_PTR_TO_SOCK_COMMON"] [] "RET_PTR_TO_SOCKET_OR_NULL" EmptyString false false);
  ("bpf_skc_lookup_tcp_proto", mkHelper "bpf_skc_lookup_tcp"
     BPF_FUNC_skc_lookup_tcp "bpf_skc_lookup_tcp"
     "bpf_skc_lookup_tcp_proto"
     ["ARG_PTR_TO_CTX"; "ARG_PTR_TO_MEM"; "ARG_CONST_SIZE"; "ARG_ANYTHING"; "ARG_ANYTHING"] [] "RET_PTR_TO_SOCK_COMMON_OR_NULL" EmptyString false true);
  ("bpf_xdp_skc_lookup_tcp_proto", mkHelper "bpf_skc_lookup_tcp"
     BPF_FUNC_skc_lookup_tcp "bpf_xdp_skc_lookup_tcp"
     "bpf_xdp_skc_lookup_tcp_proto"
     ["ARG_PTR_TO_CTX"; "ARG_PTR_TO_MEM"; "ARG_CONST_SIZE"; "ARG_ANYTHING"; "ARG_ANYTHING"] [] "RET_PTR_TO_SOCK_COMMON_OR_NULL" EmptyString false true);
  ("bpf_sock_addr_skc_lookup_tcp_proto", mkHelper "bpf_skc_lookup_tcp"
     BPF_FUNC_skc_lookup_tcp "bpf_sock_addr_skc_lookup_tcp"
     "bpf_sock_addr_skc_lookup_tcp_proto"
     ["ARG_PTR_TO_CTX"; "ARG_PTR_TO_MEM"; "ARG_CONST_SIZE"; "ARG_ANYTHING"; "ARG_ANYTHING"] [] "RET_PTR_TO_SOCK_COMMON_OR_NULL" EmptyString false false);
  ("bpf_tcp_check_syncookie_proto", mkHelper "bpf_tcp_check_syncookie"
     BPF_FUNC_tcp_check_syncookie "bpf_tcp_check_syncookie"
     "bpf_tcp_check_syncookie_proto"
     ["ARG_PTR_TO_BTF_ID_SOCK_COMMON"; "ARG_PTR_TO_MEM"; "ARG_CONST_SIZE"; "ARG_PTR_TO_MEM";
      "ARG_CONST_SIZE"] [] "RET_INTEGER" EmptyString true true);
  ("bpf_sysctl_get_name_proto", mkHelper "bpf_sysctl_get_name"
     BPF_FUNC_sysctl_get_name "bpf_sysctl_get_name"
     "bpf_sysctl_get_name_proto"
     ["ARG_PTR_TO_CTX"; "ARG_PTR_TO_MEM"; "ARG_CONST_SIZE"; "ARG_ANYTHING"] [] "RET_INTEGER" EmptyString false false);
  ("bpf_sysctl_get_current_value_proto", mkHelper "bpf_sysctl_get_current_value"
     BPF_FUNC_sysctl_get_current_value "bpf_sysctl_get_current_value"
     "bpf_sysctl_get_current_value_proto"
     ["ARG_PTR_TO_CTX"; "ARG_PTR_TO_UNINIT_MEM"; "ARG_CONST_SIZE"] [] "RET_INTEGER" EmptyString false false);
  ("bpf_sysctl_get_new_value_proto", mkHelper "bpf_sysctl_get_new_value"
     BPF_FUNC_sysctl_get_new_value "bpf_sysctl_get_new_value"
     "bpf_sysctl_get_new_value_proto"
     ["ARG_PTR_TO_CTX"; "ARG_PTR_TO_UNINIT_MEM"; "ARG_CONST_SIZE"] [] "RET_INTEGER" EmptyString false false);
  ("bpf_sysctl_set_new_value_proto", mkHelper "bpf_sysctl_set_new_value"
     BPF_FUNC_sysctl_set_new_value "bpf_sysctl_set_new_value"
     "bpf_sysctl_set_new_value_proto"
     ["ARG_PTR_TO_CTX"; "ARG_PTR_TO_MEM"; "ARG_CONST_SIZE"] [] "RET_INTEGER" EmptyString false false);
  ("bpf_strtol_proto", mkHelper "bpf_strtol"
     BPF_FUNC_strtol "bpf_strtol"
     "bpf_strtol_proto"
     ["ARG_PTR_TO_MEM"; "ARG_CONST_SIZE"; "ARG_ANYTHING"; "ARG_PTR_TO_LONG"] [] "RET_INTEGER" EmptyString false false);
  ("bpf_strtoul_proto", mkHelper "bpf_strtoul"
     BPF_FUNC_strtoul "bpf_strtoul"
     "bpf_strtoul_proto"
     ["ARG_PTR_TO_MEM"; "ARG_CONST_SIZE"; "ARG_ANYTHING"; "ARG_PTR_TO_LONG"] [] "RET_INTEGER" EmptyString false false);
  ("bpf_sk_storage_get_proto", mkHelper "bpf_sk_storage_get"
     BPF_FUNC_sk_storage_get "bpf_sk_storage_get"
     "bpf_sk_storage_get_proto"
     ["ARG_CONST_MAP_PTR"; "ARG_PTR_TO_BTF_ID_SOCK_COMMON"; "ARG_PTR_TO_MAP_VALUE_OR_NULL";
      "ARG_ANYTHING"] [] "RET_PTR_TO_MAP_VALUE_OR_NULL" EmptyString false false);
  ("bpf_sk_storage_get_cg_sock_proto", mkHelper "bpf_sk_storage_get"
     BPF_FUNC_sk_storage_get "bpf_sk_storage_get"
     "bpf_sk_storage_get_cg_sock_proto"
     ["ARG_CONST_MAP_PTR"; "ARG_PTR_TO_CTX"; "ARG_PTR_TO_MAP_VALUE_OR_NULL"; "ARG_ANYTHING"] [] "RET_PTR_TO_MAP_VALUE_OR_NULL" EmptyString false false);
  ("bpf_sk_storage_get_tracing_proto", mkHelper "bpf_sk_storage_get"
     BPF_FUNC_sk_storage_get "bpf_sk_storage_get_tracing"
     "bpf_sk_storage_get_tracing_proto"
     ["ARG_CONST_MAP_PTR"; "ARG_PTR_TO_BTF_ID"; "ARG_PTR_TO_MAP_VALUE_OR_NULL";
      "ARG_ANYTHING"] ["struct sock_common"] "RET_PTR_TO_MAP_VALUE_OR_NULL" EmptyString false false);
  ("bpf_sk_storage_delete_proto", mkHelper "bpf_sk_storage_delete"
     BPF_FUNC_sk_storage_delete "bpf_sk_storage_delete"
     "bpf_sk_storage_delete_proto"
     ["ARG_CONST_MAP_PTR"; "ARG_PTR_TO_BTF_ID_SOCK_COMMON"] [] "RET_INTEGER" EmptyString false false);
  ("bpf_sk_storage_delete_tracing_proto", mkHelper "bpf_sk_storage_delete"
     BPF_FUNC_sk_storage_delete "bpf_sk_storage_delete_tracing"
     "bpf_sk_storage_delete_tracing_proto"
     ["ARG_CONST_MAP_PTR"; "ARG_PTR_TO_BTF_ID"] ["struct sock_common"] "RET_INTEGER" EmptyString false false);
  ("bpf_send_signal_proto", mkHelper "bpf_send_signal"
     BPF_FUNC_send_signal "bpf_send_signal"
     "bpf_send_signal_proto"
     ["ARG_ANYTHING"] [] "RET_INTEGER" EmptyString false false);
  ("bpf_tcp_gen_syncookie_proto", mkHelper "bpf_tcp_gen_syncookie"
     BPF_FUNC_tcp_gen_syncookie "bpf_tcp_gen_syncookie"
     "bpf_tcp_gen_syncookie_proto"
     ["ARG_PTR_TO_BTF_ID_SOCK_COMMON"; "ARG_PTR_TO_MEM"; "ARG_CONST_SIZE"; "ARG_PTR_TO_MEM";
      "ARG_CONST_SIZE"] [] "RET_INTEGER" EmptyString true true);
  ("bpf_skb_output_proto", mkHelper "bpf_skb_output"
     BPF_FUNC_skb_output "bpf_skb_event_output"
     "bpf_skb_output_proto"
     ["ARG_PTR_TO_BTF_ID"; "ARG_CONST_MAP_PTR"; "ARG_ANYTHING"; "ARG_PTR_TO_MEM";
      "ARG_CONST_SIZE_OR_ZERO"] ["struct sk_buff"] "RET_INTEGER" EmptyString true false);
  ("bpf_probe_read_user_proto", mkHelper "bpf_probe_read_user"
     BPF_FUNC_probe_read_user "bpf_probe_read_user"
     "bpf_probe_read_user_proto"
     ["ARG_PTR_TO_UNINIT_MEM"; "ARG_CONST_SIZE_OR_ZERO"; "ARG_ANYTHING"] [] "RET_INTEGER" EmptyString true false);
  ("bpf_probe_read_kernel_proto", mkHelper "bpf_probe_read_kernel"
     BPF_FUNC_probe_read_kernel "bpf_probe_read_kernel"
     "bpf_probe_read_kernel_proto"
     ["ARG_PTR_TO_UNINIT_MEM"; "ARG_CONST_SIZE_OR_ZERO"; "ARG_ANYTHING"] [] "RET_INTEGER" EmptyString true false);
  ("bpf_probe_read_user_str_proto", mkHelper "bpf_probe_read_user_str"
     BPF_FUNC_probe_read_user_str "bpf_probe_read_user_str"
     "bpf_probe_read_user_str_proto"
     ["ARG_PTR_TO_UNINIT_MEM"; "ARG_CONST_SIZE_OR_ZERO"; "ARG_ANYTHING"] [] "RET_INTEGER" EmptyString true false);
  ("bpf_probe_read_kernel_str_proto", mkHelper "bpf_probe_read_kernel_str"
     BPF_FUNC_probe_read_kernel_str "bpf_probe_read_kernel_str"
     "bpf_probe_read_kernel_str_proto"
     ["ARG_PTR_TO_UNINIT_MEM"; "ARG_CONST_SIZE_OR_ZERO"; "ARG_ANYTHING"] [] "RET_INTEGER" EmptyString true false);
  ("bpf_tcp_send_ack_proto", mkHelper "bpf_tcp_send_ack"
     BPF_FUNC_tcp_send_ack "bpf_tcp_send_ack"
     "bpf_tcp_send_ack_proto"
     ["ARG_PTR_TO_BTF_ID"; "ARG_ANYTHING"] [] "RET_INTEGER" EmptyString false false);
  ("bpf_send_signal_thread_proto", mkHelper "bpf_send_signal_thread"
     BPF_FUNC_send_signal_thread "bpf_send_signal_thread"
     "bpf_send_signal_thread_proto"
     ["ARG_ANYTHING"] [] "RET_INTEGER" EmptyString false false);
  ("bpf_jiffies64_proto", mkHelper "bpf_jiffies64"
     BPF_FUNC_jiffies64 "bpf_jiffies64"
     "bpf_jiffies64_proto"
     [] [] "RET_INTEGER" EmptyString false false);
  ("bpf_read_branch_records_proto", mkHelper "bpf_read_branch_records"
     BPF_FUNC_read_branch_records "bpf_read_branch_records"
     "bpf_read_branch_records_proto"
     ["ARG_PTR_TO_CTX"; "ARG_PTR_TO_MEM_OR_NULL"; "ARG_CONST_SIZE_OR_ZERO"; "ARG_ANYTHING"] [] "RET_INTEGER" EmptyString true false);
  ("bpf_get_ns_current_pid_tgid_proto", mkHelper "bpf_get_ns_current_pid_tgid"
     BPF_FUNC_get_ns_current_pid_tgid "bpf_get_ns_current_pid_tgid"
     "bpf_get_ns_current_pid_tgid_proto"
     ["ARG_ANYTHING"; "ARG_ANYTHING"; "ARG_PTR_TO_UNINIT_MEM"; "ARG_CONST_SIZE"] [] "RET_INTEGER" EmptyString false false);
  ("bpf_xdp_output_proto", mkHelper "bpf_xdp_output"
     BPF_FUNC_xdp_output "bpf_xdp_event_output"
     "bpf_xdp_output_proto"
     ["ARG_PTR_TO_BTF_ID"; "ARG_CONST_MAP_PTR"; "ARG_ANYTHING"; "ARG_PTR_TO_MEM";
      "ARG_CONST_SIZE_OR_ZERO"] ["struct xdp_buff"] "RET_INTEGER" EmptyString true false);
  ("bpf_get_netns_cookie_sock_addr_proto", mkHelper "bpf_get_netns_cookie"
     BPF_FUNC_get_netns_cookie "bpf_get_netns_cookie_sock_addr"
     "bpf_get_netns_cookie_sock_addr_proto"
     ["ARG_PTR_TO_CTX_OR_NULL"] [] "RET_INTEGER" EmptyString false false);
  ("bpf_get_netns_cookie_sock_proto", mkHelper "bpf_get_netns_cookie"
     BPF_FUNC_get_netns_cookie "bpf_get_netns_cookie_sock"
     "bpf_get_netns_cookie_sock_proto"
     ["ARG_PTR_TO_CTX_OR_NULL"] [] "RET_INTEGER" EmptyString false false);
  ("bpf_get_netns_cookie_sock_ops_proto", mkHelper "bpf_get_netns_cookie"
     BPF_FUNC_get_netns_cookie "bpf_get_netns_cookie_sock_ops"
     "bpf_get_netns_cookie_sock_ops_proto"
     ["ARG_PTR_TO_CTX_OR_NULL"] [] "RET_INTEGER" EmptyString false false);
  ("bpf_get_netns_cookie_sk_msg_proto", mkHelper "bpf_get_netns_cookie"
     BPF_FUNC_get_netns_cookie "bpf_get_netns_cookie_sk_msg"
     "bpf_get_netns_cookie_sk_msg_proto"
     ["ARG_PTR_TO_CTX_OR_NULL"] [] "RET_INTEGER" EmptyString false false);
  ("bpf_get_netns_cookie_sockopt_proto", mkHelper "bpf_get_netns_cookie"
     BPF_FUNC_get_netns_cookie "bpf_get_netns_cookie_sockopt"
     "bpf_get_netns_cookie_sockopt_proto"
     ["ARG_PTR_TO_CTX_OR_NULL"] [] "RET_INTEGER" EmptyString false false);
  ("bpf_get_current_ancestor_cgroup_id_proto", mkHelper "bpf_get_current_ancestor_cgroup_id"
     BPF_FUNC_get_current_ancestor_cgroup_id "bpf_get_current_ancestor_cgroup_id"
     "bpf_get_current_ancestor_cgroup_id_proto"
     ["ARG_ANYTHING"] [] "RET_INTEGER" EmptyString false false);
  ("bpf_sk_assign_proto", mkHelper "bpf_sk_assign"
     BPF_FUNC_sk_assign "bpf_sk_assign"
     "bpf_sk_assign_proto"
     ["ARG_PTR_TO_CTX"; "ARG_PTR_TO_BTF_ID_SOCK_COMMON"; "ARG_ANYTHING"] [] "RET_INTEGER" EmptyString false false);
  ("bpf_sk_lookup_assign_proto", mkHelper "bpf_sk_assign"
     BPF_FUNC_sk_assign "bpf_sk_lookup_assign"
     "bpf_sk_lookup_assign_proto"
     ["ARG_PTR_TO_CTX"; "ARG_PTR_TO_SOCKET_OR_NULL"; "ARG_ANYTHING"] [] "RET_INTEGER" EmptyString false false);
  ("bpf_ktime_get_boot_ns_proto", mkHelper "bpf_ktime_get_boot_ns"
     BPF_FUNC_ktime_get_boot_ns "bpf_ktime_get_boot_ns"
     "bpf_ktime_get_boot_ns_proto"
     [] [] "RET_INTEGER" EmptyString false false);
  ("bpf_seq_printf_proto", mkHelper "bpf_seq_printf"
     BPF_FUNC_seq_printf "bpf_seq_printf"
     "bpf_seq_printf_proto"
     ["ARG_PTR_TO_BTF_ID"; "ARG_PTR_TO_MEM"; "ARG_CONST_SIZE"; "ARG_PTR_TO_MEM_OR_NULL";
      "ARG_CONST_SIZE_OR_ZERO"] ["struct seq_file"] "RET_INTEGER" EmptyString true false);
  ("bpf_seq_write_proto", mkHelper "bpf_seq_write"
     BPF_FUNC_seq_write "bpf_seq_write"
     "bpf_seq_write_proto"
     ["ARG_PTR_TO_BTF_ID"; "ARG_PTR_TO_MEM"; "ARG_CONST_SIZE_OR_ZERO"] ["struct seq_file"] "RET_INTEGER" EmptyString true false);
  ("bpf_sk_cgroup_id_proto", mkHelper "bpf_sk_cgroup_id"
     BPF_FUNC_sk_cgroup_id "bpf_sk_cgroup_id"
     "bpf_sk_cgroup_id_proto"
     ["ARG_PTR_TO_BTF_ID_SOCK_COMMON"] [] "RET_INTEGER" EmptyString false false);
  ("bpf_sk_ancestor_cgroup_id_proto", mkHelper "bpf_sk_ancestor_cgroup_id"
     BPF_FUNC_sk_ancestor_cgroup_id "bpf_sk_ancestor_cgroup_id"
     "bpf_sk_ancestor_cgroup_id_proto"
     ["ARG_PTR_TO_BTF_ID_SOCK_COMMON"; "ARG_ANYTHING"] [] "RET_INTEGER" EmptyString false false);
  ("bpf_ringbuf_output_proto", mkHelper "bpf_ringbuf_output"
     BPF_FUNC_ringbuf_output "bpf_ringbuf_output"
     "bpf_ringbuf_output_proto"
     ["ARG_CONST_MAP_PTR"; "ARG_PTR_TO_MEM"; "ARG_CONST_SIZE_OR_ZERO"; "ARG_ANYTHING"] [] "RET_INTEGER" EmptyString false false);
  ("bpf_ringbuf_reserve_proto", mkHelper "bpf_ringbuf_reserve"
     BPF_FUNC_ringbuf_reserve "bpf_ringbuf_reserve"
     "bpf_ringbuf_reserve_proto"
     ["ARG_CONST_MAP_PTR"; "ARG_CONST_ALLOC_SIZE_OR_ZERO"; "ARG_ANYTHING"] [] "RET_PTR_TO_ALLOC_MEM_OR_NULL" EmptyString false false);
  ("bpf_ringbuf_submit_proto", mkHelper "bpf_ringbuf_submit"
     BPF_FUNC_ringbuf_submit "bpf_ringbuf_submit"
     "bpf_ringbuf_submit_proto"
     ["ARG_PTR_TO_ALLOC_MEM"; "ARG_ANYTHING"] [] "RET_VOID" EmptyString false false);
  ("bpf_ringbuf_discard_proto", mkHelper "bpf_ringbuf_discard"
     BPF_FUNC_ringbuf_discard "bpf_ringbuf_discard"
     "bpf_ringbuf_discard_proto"
     ["ARG_PTR_TO_ALLOC_MEM"; "ARG_ANYTHING"] [] "RET_VOID" EmptyString false false);
  ("bpf_ringbuf_query_proto", mkHelper "bpf_ringbuf_query"
     BPF_FUNC_ringbuf_query "bpf_ringbuf_query"
     "bpf_ringbuf_query_proto"
     ["ARG_CONST_MAP_PTR"; "ARG_ANYTHING"] [] "RET_INTEGER" EmptyString false false);
  ("bpf_csum_level_proto", mkHelper "bpf_csum_level"
     BPF_FUNC_csum_level "bpf_csum_level"
     "bpf_csum_level_proto"
     ["ARG_PTR_TO_CTX"; "ARG_ANYTHING"] [] "RET_INTEGER" EmptyString false false);
  ("bpf_skc_to_tcp6_sock_proto", mkHelper "bpf_skc_to_tcp6_sock"
     BPF_FUNC_skc_to_tcp6_sock "bpf_skc_to_tcp6_sock"
     "bpf_skc_to_tcp6_sock_proto"
     ["ARG_PTR_TO_BTF_ID_SOCK_COMMON"] [] "RET_PTR_TO_BTF_ID_OR_NULL" "struct tcp6_sock" false false);
  ("bpf_skc_to_tcp_sock_proto", mkHelper "bpf_skc_to_tcp_sock"
     BPF_FUNC_skc_to_tcp_sock "bpf_skc_to_tcp_sock"
     "bpf_skc_to_tcp_sock_proto"
     ["ARG_PTR_TO_BTF_ID_SOCK_COMMON"] [] "RET_PTR_TO_BTF_ID_OR_NULL" "struct tcp_sock" false false);
  ("bpf_skc_to_tcp_timewait_sock_proto", mkHelper "bpf_skc_to_tcp_timewait_sock"
     BPF_FUNC_skc_to_tcp_timewait_sock "bpf_skc_to_tcp_timewait_sock"
     "bpf_skc_to_tcp_timewait_sock_proto"
     ["ARG_PTR_TO_BTF_ID_SOCK_COMMON"] [] "RET_PTR_TO_BTF_ID_OR_NULL" "struct tcp_timewait_sock" false false);
  ("bpf_skc_to_tcp_request_sock_proto", mkHelper "bpf_skc_to_tcp_request_sock"
     BPF_FUNC_skc_to_tcp_request_sock "bpf_skc_to_tcp_request_sock"
     "bpf_skc_to_tcp_request_sock_proto"
     ["ARG_PTR_TO_BTF_ID_SOCK_COMMON"] [] "RET_PTR_TO_BTF_ID_OR_NULL" "struct tcp_request_sock" false false);
  ("bpf_skc_to_udp6_sock_proto", mkHelper "bpf_skc_to_udp6_sock"
     BPF_FUNC_skc_to_udp6_sock "bpf_skc_to_udp6_sock"
     "bpf_skc_to_udp6_sock_proto"
     ["ARG_PTR_TO_BTF_ID_SOCK_COMMON"] [] "RET_PTR_TO_BTF_ID_OR_NULL" "struct udp6_sock" false false);
  ("bpf_get_task_stack_proto", mkHelper "bpf_get_task_stack"
     BPF_FUNC_get_task_stack "bpf_get_task_stack"
     "bpf_get_task_stack_proto"
     ["ARG_PTR_TO_BTF_ID"; "ARG_PTR_TO_UNINIT_MEM"; "ARG_CONST_SIZE_OR_ZERO"; "ARG_ANYTHING"] ["struct task_struct"] "RET_INTEGER" EmptyString false false);
  ("bpf_sock_ops_load_hdr_opt_proto", mkHelper "bpf_load_hdr_opt"
     BPF_FUNC_load_hdr_opt "bpf_sock_ops_load_hdr_opt"
     "bpf_sock_ops_load_hdr_opt_proto"
     ["ARG_PTR_TO_CTX"; "ARG_PTR_TO_MEM"; "ARG_CONST_SIZE"; "ARG_ANYTHING"] [] "RET_INTEGER" EmptyString false false);
  ("bpf_sock_ops_store_hdr_opt_proto", mkHelper "bpf_store_hdr_opt"
     BPF_FUNC_store_hdr_opt "bpf_sock_ops_store_hdr_opt"
     "bpf_sock_ops_store_hdr_opt_proto"
     ["ARG_PTR_TO_CTX"; "ARG_PTR_TO_MEM"; "ARG_CONST_SIZE"; "ARG_ANYTHING"] [] "RET_INTEGER" EmptyString false false);
  ("bpf_sock_ops_reserve_hdr_opt_proto", mkHelper "bpf_reserve_hdr_opt"
     BPF_FUNC_reserve_hdr_opt "bpf_sock_ops_reserve_hdr_opt"
     "bpf_sock_ops_reserve_hdr_opt_proto"
     ["ARG_PTR_TO_CTX"; "ARG_ANYTHING"; "ARG_ANYTHING"] [] "RET_INTEGER" EmptyString false false);
  ("bpf_inode_storage_get_proto", mkHelper "bpf_inode_storage_get"
     BPF_FUNC_inode_storage_get "bpf_inode_storage_get"
     "bpf_inode_storage_get_proto"
     ["ARG_CONST_MAP_PTR"; "ARG_PTR_TO_BTF_ID"; "ARG_PTR_TO_MAP_VALUE_OR_NULL";
      "ARG_ANYTHING"] ["struct inode"] "RET_PTR_TO_MAP_VALUE_OR_NULL" EmptyString false false);
  ("bpf_inode_storage_delete_proto", mkHelper "bpf_inode_storage_delete"
     BPF_FUNC_inode_storage_delete "bpf_inode_storage_delete"
     "bpf_inode_storage_delete_proto"
     ["ARG_CONST_MAP_PTR"; "ARG_PTR_TO_BTF_ID"] ["struct inode"] "RET_INTEGER" EmptyString false false);
  ("bpf_d_path_proto", mkHelper "bpf_d_path"
     BPF_FUNC_d_path "bpf_d_path"
     "bpf_d_path_proto"
     ["ARG_PTR_TO_BTF_ID"; "ARG_PTR_TO_MEM"; "ARG_CONST_SIZE_OR_ZERO"] ["struct path"] "RET_INTEGER" EmptyString false false);
  ("bpf_copy_from_user_proto", mkHelper "bpf_copy_from_user"
     BPF_FUNC_copy_from_user "bpf_copy_from_user"
     "bpf_copy_from_user_proto"
     ["ARG_PTR_TO_UNINIT_MEM"; "ARG_CONST_SIZE_OR_ZERO"; "ARG_ANYTHING"] [] "RET_INTEGER" EmptyString false false);
  ("bpf_snprintf_btf_proto", mkHelper "bpf_snprintf_btf"
     BPF_FUNC_snprintf_btf "bpf_snprintf_btf"
     "bpf_snprintf_btf_proto"
     ["ARG_PTR_TO_MEM"; "ARG_CONST_SIZE"; "ARG_PTR_TO_MEM"; "ARG_CONST_SIZE"; "ARG_ANYTHING"] [] "RET_INTEGER" EmptyString false false);
  ("bpf_seq_printf_btf_proto", mkHelper "bpf_seq_printf_btf"
     BPF_FUNC_seq_printf_btf "bpf_seq_printf_btf"
     "bpf_seq_printf_btf_proto"
     ["ARG_PTR_TO_BTF_ID"; "ARG_PTR_TO_MEM"; "ARG_CONST_SIZE_OR_ZERO"; "ARG_ANYTHING"] ["struct seq_file"] "RET_INTEGER" EmptyString true false);
  ("bpf_skb_cgroup_classid_proto", mkHelper "bpf_skb_cgroup_classid"
     BPF_FUNC_skb_cgroup_classid "bpf_skb_cgroup_classid"
     "bpf_skb_cgroup_classid_proto"
     ["ARG_PTR_TO_CTX"] [] "RET_INTEGER" EmptyString false false);
  ("bpf_redirect_neigh_proto", mkHelper "bpf_redirect_neigh"
     BPF_FUNC_redirect_neigh "bpf_redirect_neigh"
     "bpf_redirect_neigh_proto"
     ["ARG_ANYTHING"; "ARG_PTR_TO_MEM_OR_NULL"; "ARG_CONST_SIZE_OR_ZERO"; "ARG_ANYTHING"] [] "RET_INTEGER" EmptyString false false);
  ("bpf_per_cpu_ptr_proto", mkHelper "bpf_per_cpu_ptr"
     BPF_FUNC_per_cpu_ptr "bpf_per_cpu_ptr"
     "bpf_per_cpu_ptr_proto"
     ["ARG_PTR_TO_PERCPU_BTF_ID"; "ARG_ANYTHING"] [] "RET_PTR_TO_MEM_OR_BTF_ID_OR_NULL" EmptyString false false);
  ("bpf_this_cpu_ptr_proto", mkHelper "bpf_this_cpu_ptr"
     BPF_FUNC_this_cpu_ptr "bpf_this_cpu_ptr"
     "bpf_this_cpu_ptr_proto"
     ["ARG_PTR_TO_PERCPU_BTF_ID"] [] "RET_PTR_TO_MEM_OR_BTF_ID" EmptyString false false);
  ("bpf_redirect_peer_proto", mkHelper "bpf_redirect_peer"
     BPF_FUNC_redirect_peer "bpf_redirect_peer"
     "bpf_redirect_peer_proto"
     ["ARG_ANYTHING"; "ARG_ANYTHING"] [] "RET_INTEGER" EmptyString false false);
  ("bpf_task_storage_get_proto", mkHelper "bpf_task_storage_get"
     BPF_FUNC_task_storage_get "bpf_task_storage_get"
     "bpf_task_storage_get_proto"
     ["ARG_CONST_MAP_PTR"; "ARG_PTR_TO_BTF_ID"; "ARG_PTR_TO_MAP_VALUE_OR_NULL";
      "ARG_ANYTHING"] ["struct task_struct"] "RET_PTR_TO_MAP_VALUE_OR_NULL" EmptyString false false);
  ("bpf_task_storage_delete_proto", mkHelper "bpf_task_storage_delete"
     BPF_FUNC_task_storage_delete "bpf_task_storage_delete"
     "bpf_task_storage_delete_proto"
     ["ARG_CONST_MAP_PTR"; "ARG_PTR_TO_BTF_ID"] ["struct task_struct"] "RET_INTEGER" EmptyString false false);
  ("bpf_get_current_task_btf_proto", mkHelper "bpf_get_current_task_btf"
     BPF_FUNC_get_current_task_btf "bpf_get_current_task_btf"
     "bpf_get_current_task_btf_proto"
     [] [] "RET_PTR_TO_BTF_ID" "struct task_struct" true false);
  ("bpf_bprm_opts_set_proto", mkHelper "bpf_bprm_opts_set"
     BPF_FUNC_bprm_opts_set "bpf_bprm_opts_set"
     "bpf_bprm_opts_set_proto"
     ["ARG_PTR_TO_BTF_ID"; "ARG_ANYTHING"] [] "RET_INTEGER" EmptyString false false);
  ("bpf_ktime_get_coarse_ns_proto", mkHelper "bpf_ktime_get_coarse_ns"
     BPF_FUNC_ktime_get_coarse_ns "bpf_ktime_get_coarse_ns"
     "bpf_ktime_get_coarse_ns_proto"
     [] [] "RET_INTEGER" EmptyString false false);
  ("bpf_ima_inode_hash_proto", mkHelper "bpf_ima_inode_hash"
     BPF_FUNC_ima_inode_hash "bpf_ima_inode_hash"
     "bpf_ima_inode_hash_proto"
     ["ARG_PTR_TO_BTF_ID"; "ARG_PTR_TO_UNINIT_MEM"; "ARG_CONST_SIZE"] [] "RET_INTEGER" EmptyString false false);
  ("bpf_sock_from_file_proto", mkHelper "bpf_sock_from_file"
     BPF_FUNC_sock_from_file "bpf_sock_from_file"
     "bpf_sock_from_file_proto"
     ["ARG_PTR_TO_BTF_ID"] ["struct file"] "RET_PTR_TO_BTF_ID_OR_NULL" "struct socket" false false);
  ("bpf_skb_check_mtu_proto", mkHelper "bpf_check_mtu"
     BPF_FUNC_check_mtu "bpf_skb_check_mtu"
     "bpf_skb_check_mtu_proto"
     ["ARG_PTR_TO_CTX"; "ARG_ANYTHING"; "ARG_PTR_TO_INT"; "ARG_ANYTHING"; "ARG_ANYTHING"] [] "RET_INTEGER" EmptyString true false);
  ("bpf_xdp_check_mtu_proto", mkHelper "bpf_check_mtu"
     BPF_FUNC_check_mtu "bpf_xdp_check_mtu"
     "bpf_xdp_check_mtu_proto"
     ["ARG_PTR_TO_CTX"; "ARG_ANYTHING"; "ARG_PTR_TO_INT"; "ARG_ANYTHING"; "ARG_ANYTHING"] [] "RET_INTEGER" EmptyString true false);
  ("bpf_for_each_map_elem_proto", mkHelper "bpf_for_each_map_elem"
     BPF_FUNC_for_each_map_elem "bpf_for_each_map_elem"
     "bpf_for_each_map_elem_proto"
     ["ARG_CONST_MAP_PTR"; "ARG_PTR_TO_FUNC"; "ARG_PTR_TO_STACK_OR_NULL"; "ARG_ANYTHING"] [] "RET_INTEGER" EmptyString false false);
  ("bpf_snprintf_proto", mkHelper "bpf_snprintf"
     BPF_FUNC_snprintf "bpf_snprintf"
     "bpf_snprintf_proto"
     ["ARG_PTR_TO_MEM_OR_NULL"; "ARG_CONST_SIZE_OR_ZERO"; "ARG_PTR_TO_CONST_STR";
      "ARG_PTR_TO_MEM_OR_NULL"; "ARG_CONST_SIZE_OR_ZERO"] [] "RET_INTEGER" EmptyString true false);
  ("bpf_sys_bpf_proto", mkHelper "bpf_sys_bpf"
     BPF_FUNC_sys_bpf "bpf_sys_bpf"
     "bpf_sys_bpf_proto"
     ["ARG_ANYTHING"; "ARG_PTR_TO_MEM"; "ARG_CONST_SIZE"] [] "RET_INTEGER" EmptyString false false);
  ("bpf_btf_find_by_name_kind_proto", mkHelper "bpf_btf_find_by_name_kind"
     BPF_FUNC_btf_find_by_name_kind "bpf_btf_find_by_name_kind"
     "bpf_btf_find_by_name_kind_proto"
     ["ARG_PTR_TO_MEM"; "ARG_CONST_SIZE"; "ARG_ANYTHING"; "ARG_ANYTHING"] [] "RET_INTEGER" EmptyString false false);
  ("bpf_sys_close_proto", mkHelper "bpf_sys_close"
     BPF_FUNC_sys_close "bpf_sys_close"
     "bpf_sys_close_proto"
     ["ARG_ANYTHING"] [] "RET_INTEGER" EmptyString false false);
  ("bpf_kallsyms_lookup_name_proto", mkHelper "bpf_kallsyms_lookup_name"
     BPF_FUNC_kallsyms_lookup_name "bpf_kallsyms_lookup_name"
     "bpf_kallsyms_lookup_name_proto"
     ["ARG_PTR_TO_MEM"; "ARG_CONST_SIZE_OR_ZERO"; "ARG_ANYTHING";
      "ARG_PTR_TO_FIXED_SIZE_MEM"] [] "RET_INTEGER" EmptyString false false);
  ("bpf_timer_init_proto", mkHelper "bpf_timer_init"
     BPF_FUNC_timer_init "bpf_timer_init"
     "bpf_timer_init_proto"
     ["ARG_PTR_TO_TIMER"; "ARG_CONST_MAP_PTR"; "ARG_ANYTHING"] [] "RET_INTEGER" EmptyString true false);
  ("bpf_timer_set_callback_proto", mkHelper "bpf_timer_set_callback"
     BPF_FUNC_timer_set_callback "bpf_timer_set_callback"
     "bpf_timer_set_callback_proto"
     ["ARG_PTR_TO_TIMER"; "ARG_PTR_TO_FUNC"] [] "RET_INTEGER" EmptyString true false);
  ("bpf_timer_start_proto", mkHelper "bpf_timer_start"
     BPF_FUNC_timer_start "bpf_timer_start"
     "bpf_timer_start_proto"
     ["ARG_PTR_TO_TIMER"; "ARG_ANYTHING"; "ARG_ANYTHING"] [] "RET_INTEGER" EmptyString true false);
  ("bpf_timer_cancel_proto", mkHelper "bpf_timer_cancel"
     BPF_FUNC_timer_cancel "bpf_timer_cancel"
     "bpf_timer_cancel_proto"
     ["ARG_PTR_TO_TIMER"] [] "RET_INTEGER" EmptyString true false);
  ("bpf_get_func_ip_proto_kprobe", mkHelper "bpf_get_func_ip"
     BPF_FUNC_get_func_ip "bpf_get_func_ip_kprobe"
     "bpf_get_func_ip_proto_kprobe"
     ["ARG_PTR_TO_CTX"] [] "RET_INTEGER" EmptyString true false);
  ("bpf_get_func_ip_proto_tracing", mkHelper "bpf_get_func_ip"
     BPF_FUNC_get_func_ip "bpf_get_func_ip_tracing"
     "bpf_get_func_ip_proto_tracing"
     ["ARG_PTR_TO_CTX"] [] "RET_INTEGER" EmptyString true false);
  ("bpf_get_attach_cookie_proto_trace", mkHelper "bpf_get_attach_cookie"
     BPF_FUNC_get_attach_cookie "bpf_get_attach_cookie_trace"
     "bpf_get_attach_cookie_proto_trace"
     ["ARG_PTR_TO_CTX"] [] "RET_INTEGER" EmptyString false false);
  ("bpf_get_attach_cookie_proto_pe", mkHelper "bpf_get_attach_cookie"
     BPF_FUNC_get_attach_cookie "bpf_get_attach_cookie_pe"
     "bpf_get_attach_cookie_proto_pe"
     ["ARG_PTR_TO_CTX"] [] "RET_INTEGER" EmptyString false false);
  ("bpf_task_pt_regs_proto", mkHelper "bpf_task_pt_regs"
     BPF_FUNC_task_pt_regs "bpf_task_pt_regs"
     "bpf_task_pt_regs_proto"
     ["ARG_PTR_TO_BTF_ID"] ["struct task_struct"] "RET_PTR_TO_BTF_ID" "struct pt_regs" true false);
  ("bpf_cgrp_storage_get_proto", mkHelper "bpf_cgrp_storage_get"
     BPF_FUNC_cgrp_storage_get "bpf_cgrp_storage_get"
     "bpf_cgrp_storage_get_proto"
     ["ARG_CONST_MAP_PTR"; "ARG_PTR_TO_BTF_ID"; "ARG_PTR_TO_MAP_VALUE_OR_NULL";
      "ARG_ANYTHING"] ["struct cgroup"] "RET_PTR_TO_MAP_VALUE_OR_NULL" EmptyString false false);
  ("bpf_cgrp_storage_delete_proto", mkHelper "bpf_cgrp_storage_delete"
     BPF_FUNC_cgrp_storage_delete "bpf_cgrp_storage_delete"
     "bpf_cgrp_storage_delete_proto"
     ["ARG_CONST_MAP_PTR"; "ARG_PTR_TO_BTF_ID"] ["struct cgroup"] "RET_INTEGER" EmptyString false false);
  ("bpf_ima_file_hash_proto", mkHelper "bpf_ima_file_hash"
     BPF_FUNC_ima_file_hash "bpf_ima_file_hash"
     "bpf_ima_file_hash_proto"
     ["ARG_PTR_TO_BTF_ID"; "ARG_PTR_TO_UNINIT_MEM"; "ARG_CONST_SIZE"] ["struct file"] "RET_INTEGER" EmptyString false false);
  ("bpf_get_attach_cookie_proto_lsm", mkHelper "bpf_get_attach_cookie"
     BPF_FUNC_get_attach_cookie "bpf_get_attach_cookie"
     "bpf_get_attach_cookie_proto_lsm"
     ["ARG_PTR_TO_CTX"] [] "RET_INTEGER" EmptyString false false);
  ("bpf_unlocked_sk_setsockopt_proto", mkHelper "bpf_setsockopt"
     BPF_FUNC_setsockopt "bpf_unlocked_sk_setsockopt"
     "bpf_unlocked_sk_setsockopt_proto"
     ["ARG_PTR_TO_BTF_ID_SOCK_COMMON"; "ARG_ANYTHING"; "ARG_ANYTHING"; "ARG_PTR_TO_MEM";
      "ARG_CONST_SIZE"] [] "RET_INTEGER" EmptyString false false);
  ("bpf_unlocked_sk_getsockopt_proto", mkHelper "bpf_getsockopt"
     BPF_FUNC_getsockopt "bpf_unlocked_sk_getsockopt"
     "bpf_unlocked_sk_getsockopt_proto"
     ["ARG_PTR_TO_BTF_ID_SOCK_COMMON"; "ARG_ANYTHING"; "ARG_ANYTHING";
      "ARG_PTR_TO_UNINIT_MEM"; "ARG_CONST_SIZE"] [] "RET_INTEGER" EmptyString false false);
  ("bpf_get_retval_proto", mkHelper "bpf_get_retval"
     BPF_FUNC_get_retval "bpf_get_retval"
     "bpf_get_retval_proto"
     [] [] "RET_INTEGER" EmptyString false false);
  ("bpf_set_retval_proto", mkHelper "bpf_set_retval"
     BPF_FUNC_set_retval "bpf_set_retval"
     "bpf_set_retval_proto"
     ["ARG_ANYTHING"] [] "RET_INTEGER" EmptyString false false);
  ("bpf_kptr_xchg_proto", mkHelper "bpf_kptr_xchg"
     BPF_FUNC_kptr_xchg "bpf_kptr_xchg"
     "bpf_kptr_xchg_proto"
     ["ARG_PTR_TO_MEM"; "ARG_PTR_TO_BTF_ID_OR_NULL"] [] "RET_PTR_TO_BTF_ID_OR_NULL" EmptyString false false);
  ("bpf_loop_proto", mkHelper "bpf_loop"
     BPF_FUNC_loop "bpf_loop"
     "bpf_loop_proto"
     ["ARG_ANYTHING"; "ARG_PTR_TO_FUNC"; "ARG_PTR_TO_STACK_OR_NULL"; "ARG_ANYTHING"] [] "RET_INTEGER" EmptyString false false);
  ("bpf_user_ringbuf_drain_proto", mkHelper "bpf_user_ringbuf_drain"
     BPF_FUNC_user_ringbuf_drain "bpf_user_ringbuf_drain"
     "bpf_user_ringbuf_drain_proto"
     ["ARG_CONST_MAP_PTR"; "ARG_PTR_TO_FUNC"; "ARG_PTR_TO_STACK_OR_NULL"; "ARG_ANYTHING"] [] "RET_INTEGER" EmptyString false false);
  ("bpf_strncmp_proto", mkHelper "bpf_strncmp"
     BPF_FUNC_strncmp "bpf_strncmp"
     "bpf_strncmp_proto"
     ["ARG_PTR_TO_MEM"; "ARG_CONST_SIZE"; "ARG_PTR_TO_CONST_STR"] [] "RET_INTEGER" EmptyString false false);
  ("bpf_ktime_get_tai_ns_proto", mkHelper "bpf_ktime_get_tai_ns"
     BPF_FUNC_ktime_get_tai_ns "bpf_ktime_get_tai_ns"
     "bpf_ktime_get_tai_ns_proto"
     [] [] "RET_INTEGER" EmptyString false false)
].

Definition HelperFuncMap : list (string * BpfHelper) := HelperFuncMap1 ++ HelperFuncMap2.
