(* ===== verification/BpfProgTable.v ===== *)
(** * Program type table

    [ProgTypeMap] of [prog/brf_types.go]: one definition per entry, with the
    sections a program of the type may go to and the prototypes it may call. *)

From stdpp Require Import base numbers strings list.
From S2P Require Import Prelude BpfTypes.

Local Open Scope string_scope.
Local Open Scope list_scope.

Definition pt_SOCK_OPS : BpfProgType := {|
  pt_Name := "sock_ops";
  pt_User := "struct bpf_sock_ops";
  pt_Kern := "struct bpf_sock_ops_kern";
  pt_Enum := BPF_PROG_TYPE_SOCK_OPS;
  pt_SecDefs := [mkSecDef "sockops" None false];
  pt_FuncProtos :=
    ["bpf_sock_ops_setsockopt_proto"; "bpf_sock_ops_getsockopt_proto";
     "bpf_sock_ops_cb_flags_set_proto"; "bpf_sock_map_update_proto";
     "bpf_sock_hash_update_proto"; "bpf_get_socket_cookie_sock_ops_proto";
     "bpf_get_local_storage_proto"; "bpf_event_output_data_proto";
     "bpf_sk_storage_get_proto"; "bpf_sk_storage_delete_proto";
     "bpf_get_netns_cookie_sock_ops_proto"; "bpf_sock_ops_load_hdr_opt_proto";
     "bpf_sock_ops_store_hdr_opt_proto"; "bpf_sock_ops_reserve_hdr_opt_proto";
     "bpf_tcp_sock_proto"; "bpf_skc_to_tcp6_sock_proto"; "bpf_skc_to_tcp_sock_proto";
     "bpf_skc_to_tcp_timewait_sock_proto"; "bpf_skc_to_tcp_request_sock_proto";
     "bpf_skc_to_udp6_sock_proto"; "bpf_ktime_get_coarse_ns_proto";
     "bpf_map_lookup_elem_proto"; "bpf_map_update_elem_proto"; "bpf_map_delete_elem_proto";
     "bpf_map_push_elem_proto"; "bpf_map_pop_elem_proto"; "bpf_map_peek_elem_proto";
     "bpf_get_prandom_u32_proto"; "bpf_get_raw_smp_processor_id_proto";
     "bpf_get_numa_node_id_proto"; "bpf_tail_call_proto"; "bpf_ktime_get_ns_proto";
     "bpf_ktime_get_boot_ns_proto"; "bpf_ringbuf_output_proto"; "bpf_ringbuf_reserve_proto";
     "bpf_ringbuf_submit_proto"; "bpf_ringbuf_discard_proto"; "bpf_ringbuf_query_proto";
     "bpf_for_each_map_elem_proto"; "bpf_spin_lock_proto"; "bpf_spin_unlock_proto";
     "bpf_jiffies64_proto"; "bpf_per_cpu_ptr_proto"; "bpf_this_cpu_ptr_proto";
     "bpf_timer_init_proto"; "bpf_timer_set_callback_proto"; "bpf_timer_start_proto";
     "bpf_timer_cancel_proto"; "bpf_trace_printk_proto"; "bpf_get_current_task_proto";
     "bpf_get_current_task_btf_proto"; "bpf_probe_read_user_proto";
     "bpf_probe_read_kernel_proto"; "bpf_probe_read_user_str_proto";
     "bpf_probe_read_kernel_str_proto"; "bpf_snprintf_btf_proto"; "bpf_snprintf_proto";
     "bpf_task_pt_regs_proto"];
  pt_Helpers := [];
  pt_ctxAccess := None;
|}.

Definition pt_LIRC_MODE2 : BpfProgType := {|
  pt_Name := "lirc_mode2";
  pt_User := "__u32";
  pt_Kern := "u32";
  pt_Enum := BPF_PROG_TYPE_LIRC_MODE2;
  pt_SecDefs := [mkSecDef "lirc_mode2" None false];
  pt_FuncProtos :=
    ["rc_repeat_proto"; "rc_keydown_proto"; "rc_pointer_rel_proto";
     "bpf_map_lookup_elem_proto"; "bpf_map_update_elem_proto"; "bpf_map_delete_elem_proto";
     "bpf_map_push_elem_proto"; "bpf_map_pop_elem_proto"; "bpf_map_peek_elem_proto";
     "bpf_ktime_get_ns_proto"; "bpf_ktime_get_boot_ns_proto"; "bpf_tail_call_proto";
     "bpf_get_prandom_u32_proto"; "bpf_trace_printk_proto"];
  pt_Helpers := [];
  pt_ctxAccess := None;
|}.

Definition pt_SK_REUSEPORT : BpfProgType := {|
  pt_Name := "sk_reuseport";
  pt_User := "struct sk_reuseport_md";
  pt_Kern := "struct sk_reuseport_kern";
  pt_Enum := BPF_PROG_TYPE_SK_REUSEPORT;
  pt_SecDefs := [mkSecDef "sk_reuseport/migrate" None false;
    mkSecDef "sk_reuseport" None false];
  pt_FuncProtos :=
    ["sk_select_reuseport_proto"; "sk_reuseport_load_bytes_proto";
     "sk_reuseport_load_bytes_relative_proto"; "bpf_get_socket_ptr_cookie_proto";
     "bpf_ktime_get_coarse_ns_proto"; "bpf_map_lookup_elem_proto";
     "bpf_map_update_elem_proto"; "bpf_map_delete_elem_proto"; "bpf_map_push_elem_proto";
     "bpf_map_pop_elem_proto"; "bpf_map_peek_elem_proto"; "bpf_get_prandom_u32_proto";
     "bpf_get_raw_smp_processor_id_proto"; "bpf_get_numa_node_id_proto";
     "bpf_tail_call_proto"; "bpf_ktime_get_ns_proto"; "bpf_ktime_get_boot_ns_proto";
     "bpf_ringbuf_output_proto"; "bpf_ringbuf_reserve_proto"; "bpf_ringbuf_submit_proto";
     "bpf_ringbuf_discard_proto"; "bpf_ringbuf_query_proto"; "bpf_for_each_map_elem_proto";
     "bpf_spin_lock_proto"; "bpf_spin_unlock_proto"; "bpf_jiffies64_proto";
     "bpf_per_cpu_ptr_proto"; "bpf_this_cpu_ptr_proto"; "bpf_timer_init_proto";
     "bpf_timer_set_callback_proto"; "bpf_timer_start_proto"; "bpf_timer_cancel_proto";
     "bpf_trace_printk_proto"; "bpf_get_current_task_proto";
     "bpf_get_current_task_btf_proto"; "bpf_probe_read_user_proto";
     "bpf_probe_read_kernel_proto"; "bpf_probe_read_user_str_proto";
     "bpf_probe_read_kernel_str_proto"; "bpf_snprintf_btf_proto"; "bpf_snprintf_proto";
     "bpf_task_pt_regs_proto"];
  pt_Helpers := [];
  pt_ctxAccess := None;
|}.

Definition pt_SK_MSG : BpfProgType := {|
  pt_Name := "sk_msg";
  pt_User := "struct sk_msg_md";
  pt_Kern := "struct sk_msg";
  pt_Enum := BPF_PROG_TYPE_SK_MSG;
  pt_SecDefs := [mkSecDef "sk_msg" None false];
  pt_FuncProtos :=
    ["bpf_msg_redirect_map_proto"; "bpf_msg_redirect_hash_proto";
     "bpf_msg_apply_bytes_proto"; "bpf_msg_cork_bytes_proto"; "bpf_msg_pull_data_proto";
     "bpf_msg_push_data_proto"; "bpf_msg_pop_data_proto"; "bpf_event_output_data_proto";
     "bpf_get_current_uid_gid_proto"; "bpf_get_current_pid_tgid_proto";
     "bpf_sk_storage_get_proto"; "bpf_sk_storage_delete_proto";
     "bpf_get_netns_cookie_sk_msg_proto"; "bpf_get_current_cgroup_id_proto";
     "bpf_get_current_ancestor_cgroup_id_proto"; "bpf_get_cgroup_classid_curr_proto";
     "bpf_skc_to_tcp6_sock_proto"; "bpf_skc_to_tcp_sock_proto";
     "bpf_skc_to_tcp_timewait_sock_proto"; "bpf_skc_to_tcp_request_sock_proto";
     "bpf_skc_to_udp6_sock_proto"; "bpf_ktime_get_coarse_ns_proto";
     "bpf_map_lookup_elem_proto"; "bpf_map_update_elem_proto"; "bpf_map_delete_elem_proto";
     "bpf_map_push_elem_proto"; "bpf_map_pop_elem_proto"; "bpf_map_peek_elem_proto";
     "bpf_get_prandom_u32_proto"; "bpf_get_raw_smp_processor_id_proto";
     "bpf_get_numa_node_id_proto"; "bpf_tail_call_proto"; "bpf_ktime_get_ns_proto";
     "bpf_ktime_get_boot_ns_proto"; "bpf_ringbuf_output_proto"; "bpf_ringbuf_reserve_proto";
     "bpf_ringbuf_submit_proto"; "bpf_ringbuf_discard_proto"; "bpf_ringbuf_query_proto";
     "bpf_for_each_map_elem_proto"; "bpf_spin_lock_proto"; "bpf_spin_unlock_proto";
     "bpf_jiffies64_proto"; "bpf_per_cpu_ptr_proto"; "bpf_this_cpu_ptr_proto";
     "bpf_timer_init_proto"; "bpf_timer_set_callback_proto"; "bpf_timer_start_proto";
     "bpf_timer_cancel_proto"; "bpf_trace_printk_proto"; "bpf_get_current_task_proto";
     "bpf_get_current_task_btf_proto"; "bpf_probe_read_user_proto";
     "bpf_probe_read_kernel_proto"; "bpf_probe_read_user_str_proto";
     "bpf_probe_read_kernel_str_proto"; "bpf_snprintf_btf_proto"; "bpf_snprintf_proto";
     "bpf_task_pt_regs_proto"];
  pt_Helpers := [];
  pt_ctxAccess := None;
|}.

Definition pt_FLOW_DISSECTOR : BpfProgType := {|
  pt_Name := "flow_dissector";
  pt_User := "struct __sk_buff";
  pt_Kern := "struct bpf_flow_dissector";
  pt_Enum := BPF_PROG_TYPE_FLOW_DISSECTOR;
  pt_SecDefs := [mkSecDef "flow_dissector" None false];
  pt_FuncProtos :=
    ["bpf_flow_dissector_load_bytes_proto"; "bpf_skc_to_tcp6_sock_proto";
     "bpf_skc_to_tcp_sock_proto"; "bpf_skc_to_tcp_timewait_sock_proto";
     "bpf_skc_to_tcp_request_sock_proto"; "bpf_skc_to_udp6_sock_proto";
     "bpf_ktime_get_coarse_ns_proto"; "bpf_map_lookup_elem_proto";
     "bpf_map_update_elem_proto"; "bpf_map_delete_elem_proto"; "bpf_map_push_elem_proto";
     "bpf_map_pop_elem_proto"; "bpf_map_peek_elem_proto"; "bpf_get_prandom_u32_proto";
     "bpf_get_raw_smp_processor_id_proto"; "bpf_get_numa_node_id_proto";
     "bpf_tail_call_proto"; "bpf_ktime_get_ns_proto"; "bpf_ktime_get_boot_ns_proto";
     "bpf_ringbuf_output_proto"; "bpf_ringbuf_reserve_proto"; "bpf_ringbuf_submit_proto";
     "bpf_ringbuf_discard_proto"; "bpf_ringbuf_query_proto"; "bpf_for_each_map_elem_proto";
     "bpf_spin_lock_proto"; "bpf_spin_unlock_proto"; "bpf_jiffies64_proto";
     "bpf_per_cpu_ptr_proto"; "bpf_this_cpu_ptr_proto"; "bpf_timer_init_proto";
     "bpf_timer_set_callback_proto"; "bpf_timer_start_proto"; "bpf_timer_cancel_proto";
     "bpf_trace_printk_proto"; "bpf_get_current_task_proto";
     "bpf_get_current_task_btf_proto"; "bpf_probe_read_user_proto";
     "bpf_probe_read_kernel_proto"; "bpf_probe_read_user_str_proto";
     "bpf_probe_read_kernel_str_proto"; "bpf_snprintf_btf_proto"; "bpf_snprintf_proto";
     "bpf_task_pt_regs_proto"];
  pt_Helpers := [];
  pt_ctxAccess := None;
|}.

Definition pt_SOCKET_FILTER : BpfProgType := {|
  pt_Name := "sk_filter";
  pt_User := "struct __sk_buff";
  pt_Kern := "struct sk_buff";
  pt_Enum := BPF_PROG_TYPE_SOCKET_FILTER;
  pt_SecDefs := [mkSecDef "socket" None false];
  pt_FuncProtos :=
    ["bpf_skb_load_bytes_proto"; "bpf_skb_load_bytes_relative_proto";
     "bpf_get_socket_cookie_proto"; "bpf_get_socket_uid_proto"; "bpf_skb_event_output_proto";
     "bpf_skc_to_tcp6_sock_proto"; "bpf_skc_to_tcp_sock_proto";
     "bpf_skc_to_tcp_timewait_sock_proto"; "bpf_skc_to_tcp_request_sock_proto";
     "bpf_skc_to_udp6_sock_proto"; "bpf_ktime_get_coarse_ns_proto";
     "bpf_map_lookup_elem_proto"; "bpf_map_update_elem_proto"; "bpf_map_delete_elem_proto";
     "bpf_map_push_elem_proto"; "bpf_map_pop_elem_proto"; "bpf_map_peek_elem_proto";
     "bpf_get_prandom_u32_proto"; "bpf_get_raw_smp_processor_id_proto";
     "bpf_get_numa_node_id_proto"; "bpf_tail_call_proto"; "bpf_ktime_get_ns_proto";
     "bpf_ktime_get_boot_ns_proto"; "bpf_ringbuf_output_proto"; "bpf_ringbuf_reserve_proto";
     "bpf_ringbuf_submit_proto"; "bpf_ringbuf_discard_proto"; "bpf_ringbuf_query_proto";
     "bpf_for_each_map_elem_proto"; "bpf_spin_lock_proto"; "bpf_spin_unlock_proto";
     "bpf_jiffies64_proto"; "bpf_per_cpu_ptr_proto"; "bpf_this_cpu_ptr_proto";
     "bpf_timer_init_proto"; "bpf_timer_set_callback_proto"; "bpf_timer_start_proto";
     "bpf_timer_cancel_proto"; "bpf_trace_printk_proto"; "bpf_get_current_task_proto";
     "bpf_get_current_task_btf_proto"; "bpf_probe_read_user_proto";
     "bpf_probe_read_kernel_proto"; "bpf_probe_read_user_str_proto";
     "bpf_probe_read_kernel_str_proto"; "bpf_snprintf_btf_proto"; "bpf_snprintf_proto";
     "bpf_task_pt_regs_proto"];
  pt_Helpers := [];
  pt_ctxAccess := None;
|}.

Definition pt_CGROUP_SKB : BpfProgType := {|
  pt_Name := "cg_skb";
  pt_User := "struct __sk_buff";
  pt_Kern := "struct sk_buff";
  pt_Enum := BPF_PROG_TYPE_CGROUP_SKB;
  pt_SecDefs := [mkSecDef "cgroup_skb/ingress" None false;
    mkSecDef "cgroup_skb/egress" None false;
    mkSecDef "cgroup/skb" None false];
  pt_FuncProtos :=
    ["bpf_get_local_storage_proto"; "bpf_sk_fullsock_proto"; "bpf_sk_storage_get_proto";
     "bpf_sk_storage_delete_proto"; "bpf_skb_event_output_proto"; "bpf_skb_cgroup_id_proto";
     "bpf_skb_ancestor_cgroup_id_proto"; "bpf_sk_cgroup_id_proto";
     "bpf_sk_ancestor_cgroup_id_proto"; "bpf_sk_lookup_tcp_proto"; "bpf_sk_lookup_udp_proto";
     "bpf_sk_release_proto"; "bpf_skc_lookup_tcp_proto"; "bpf_tcp_sock_proto";
     "bpf_get_listener_sock_proto"; "bpf_skb_ecn_set_ce_proto"; "bpf_skb_load_bytes_proto";
     "bpf_skb_load_bytes_relative_proto"; "bpf_get_socket_cookie_proto";
     "bpf_get_socket_uid_proto"; "bpf_skb_event_output_proto"; "bpf_skc_to_tcp6_sock_proto";
     "bpf_skc_to_tcp_sock_proto"; "bpf_skc_to_tcp_timewait_sock_proto";
     "bpf_skc_to_tcp_request_sock_proto"; "bpf_skc_to_udp6_sock_proto";
     "bpf_ktime_get_coarse_ns_proto"; "bpf_map_lookup_elem_proto";
     "bpf_map_update_elem_proto"; "bpf_map_delete_elem_proto"; "bpf_map_push_elem_proto";
     "bpf_map_pop_elem_proto"; "bpf_map_peek_elem_proto"; "bpf_get_prandom_u32_proto";
     "bpf_get_raw_smp_processor_id_proto"; "bpf_get_numa_node_id_proto";
     "bpf_tail_call_proto"; "bpf_ktime_get_ns_proto"; "bpf_ktime_get_boot_ns_proto";
     "bpf_ringbuf_output_proto"; "bpf_ringbuf_reserve_proto"; "bpf_ringbuf_submit_proto";
     "bpf_ringbuf_discard_proto"; "bpf_ringbuf_query_proto"; "bpf_for_each_map_elem_proto";
     "bpf_spin_lock_proto"; "bpf_spin_unlock_proto"; "bpf_jiffies64_proto";
     "bpf_per_cpu_ptr_proto"; "bpf_this_cpu_ptr_proto"; "bpf_timer_init_proto";
     "bpf_timer_set_callback_proto"; "bpf_timer_start_proto"; "bpf_timer_cancel_proto";
     "bpf_trace_printk_proto"; "bpf_get_current_task_proto";
     "bpf_get_current_task_btf_proto"; "bpf_probe_read_user_proto";
     "bpf_probe_read_kernel_proto"; "bpf_probe_read_user_str_proto";
     "bpf_probe_read_kernel_str_proto"; "bpf_snprintf_btf_proto"; "bpf_snprintf_proto";
     "bpf_task_pt_regs_proto"];
  pt_Helpers := [];
  pt_ctxAccess := None;
|}.

Definition pt_CGROUP_SOCK : BpfProgType := {|
  pt_Name := "cg_sock";
  pt_User := "struct bpf_sock";
  pt_Kern := "struct sock";
  pt_Enum := BPF_PROG_TYPE_CGROUP_SOCK;
  pt_SecDefs := [mkSecDef "cgroup/sock_create" None false;
    mkSecDef "cgroup/sock_release" None false;
    mkSecDef "cgroup/sock" None false;
    mkSecDef "cgroup/post_bind4" None false;
    mkSecDef "cgroup/post_bind6" None false];
  pt_FuncProtos :=
    ["bpf_get_current_uid_gid_proto"; "bpf_get_local_storage_proto";
     "bpf_get_socket_cookie_sock_proto"; "bpf_get_netns_cookie_sock_proto";
     "bpf_event_output_data_proto"; "bpf_get_current_pid_tgid_proto";
     "bpf_get_current_comm_proto"; "bpf_get_current_cgroup_id_proto";
     "bpf_get_current_ancestor_cgroup_id_proto"; "bpf_get_cgroup_classid_curr_proto";
     "bpf_sk_storage_get_cg_sock_proto"; "bpf_ktime_get_coarse_ns_proto";
     "bpf_map_lookup_elem_proto"; "bpf_map_update_elem_proto"; "bpf_map_delete_elem_proto";
     "bpf_map_push_elem_proto"; "bpf_map_pop_elem_proto"; "bpf_map_peek_elem_proto";
     "bpf_get_prandom_u32_proto"; "bpf_get_raw_smp_processor_id_proto";
     "bpf_get_numa_node_id_proto"; "bpf_tail_call_proto"; "bpf_ktime_get_ns_proto";
     "bpf_ktime_get_boot_ns_proto"; "bpf_ringbuf_output_proto"; "bpf_ringbuf_reserve_proto";
     "bpf_ringbuf_submit_proto"; "bpf_ringbuf_discard_proto"; "bpf_ringbuf_query_proto";
     "bpf_for_each_map_elem_proto"; "bpf_spin_lock_proto"; "bpf_spin_unlock_proto";
     "bpf_jiffies64_proto"; "bpf_per_cpu_ptr_proto"; "bpf_this_cpu_ptr_proto";
     "bpf_timer_init_proto"; "bpf_timer_set_callback_proto"; "bpf_timer_start_proto";
     "bpf_timer_cancel_proto"; "bpf_trace_printk_proto"; "bpf_get_current_task_proto";
     "bpf_get_current_task_btf_proto"; "bpf_probe_read_user_proto";
     "bpf_probe_read_kernel_proto"; "bpf_probe_read_user_str_proto";
     "bpf_probe_read_kernel_str_proto"; "bpf_snprintf_btf_proto"; "bpf_snprintf_proto";
     "bpf_task_pt_regs_proto"];
  pt_Helpers := [];
  pt_ctxAccess := None;
|}.

Definition pt_LWT_IN : BpfProgType := {|
  pt_Name := "lwt_in";
  pt_User := "struct __sk_buff";
  pt_Kern := "struct sk_buff";
  pt_Enum := BPF_PROG_TYPE_LWT_IN;
  pt_SecDefs := [mkSecDef "lwt_in" None false];
  pt_FuncProtos :=
    ["bpf_lwt_in_push_encap_proto"; "bpf_skb_load_bytes_proto"; "bpf_skb_pull_data_proto";
     "bpf_csum_diff_proto"; "bpf_get_cgroup_classid_proto"; "bpf_get_route_realm_proto";
     "bpf_get_hash_recalc_proto"; "bpf_skb_event_output_proto";
     "bpf_get_smp_processor_id_proto"; "bpf_skb_under_cgroup_proto";
     "bpf_skc_to_tcp6_sock_proto"; "bpf_skc_to_tcp_sock_proto";
     "bpf_skc_to_tcp_timewait_sock_proto"; "bpf_skc_to_tcp_request_sock_proto";
     "bpf_skc_to_udp6_sock_proto"; "bpf_ktime_get_coarse_ns_proto";
     "bpf_map_lookup_elem_proto"; "bpf_map_update_elem_proto"; "bpf_map_delete_elem_proto";
     "bpf_map_push_elem_proto"; "bpf_map_pop_elem_proto"; "bpf_map_peek_elem_proto";
     "bpf_get_prandom_u32_proto"; "bpf_get_raw_smp_processor_id_proto";
     "bpf_get_numa_node_id_proto"; "bpf_tail_call_proto"; "bpf_ktime_get_ns_proto";
     "bpf_ktime_get_boot_ns_proto"; "bpf_ringbuf_output_proto"; "bpf_ringbuf_reserve_proto";
     "bpf_ringbuf_submit_proto"; "bpf_ringbuf_discard_proto"; "bpf_ringbuf_query_proto";
     "bpf_for_each_map_elem_proto"; "bpf_spin_lock_proto"; "bpf_spin_unlock_proto";
     "bpf_jiffies64_proto"; "bpf_per_cpu_ptr_proto"; "bpf_this_cpu_ptr_proto";
     "bpf_timer_init_proto"; "bpf_timer_set_callback_proto"; "bpf_timer_start_proto";
     "bpf_timer_cancel_proto"; "bpf_trace_printk_proto"; "bpf_get_current_task_proto";
     "bpf_get_current_task_btf_proto"; "bpf_probe_read_user_proto";
     "bpf_probe_read_kernel_proto"; "bpf_probe_read_user_str_proto";
     "bpf_probe_read_kernel_str_proto"; "bpf_snprintf_btf_proto"; "bpf_snprintf_proto";
     "bpf_task_pt_regs_proto"];
  pt_Helpers := [];
  pt_ctxAccess := None;
|}.

Definition pt_LWT_SEG6LOCAL : BpfProgType := {|
  pt_Name := "lwt_seg6local";
  pt_User := "struct __sk_buff";
  pt_Kern := "struct sk_buff";
  pt_Enum := BPF_PROG_TYPE_LWT_SEG6LOCAL;
  pt_SecDefs := [mkSecDef "lwt_seg6local" None false];
  pt_FuncProtos :=
    ["bpf_lwt_seg6_store_bytes_proto"; "bpf_lwt_seg6_action_proto";
     "bpf_lwt_seg6_adjust_srh_proto"; "bpf_skb_load_bytes_proto"; "bpf_skb_pull_data_proto";
     "bpf_csum_diff_proto"; "bpf_get_cgroup_classid_proto"; "bpf_get_route_realm_proto";
     "bpf_get_hash_recalc_proto"; "bpf_skb_event_output_proto";
     "bpf_get_smp_processor_id_proto"; "bpf_skb_under_cgroup_proto";
     "bpf_skc_to_tcp6_sock_proto"; "bpf_skc_to_tcp_sock_proto";
     "bpf_skc_to_tcp_timewait_sock_proto"; "bpf_skc_to_tcp_request_sock_proto";
     "bpf_skc_to_udp6_sock_proto"; "bpf_ktime_get_coarse_ns_proto";
     "bpf_map_lookup_elem_proto"; "bpf_map_update_elem_proto"; "bpf_map_delete_elem_proto";
     "bpf_map_push_elem_proto"; "bpf_map_pop_elem_proto"; "bpf_map_peek_elem_proto";
     "bpf_get_prandom_u32_proto"; "bpf_get_raw_smp_processor_id_proto";
     "bpf_get_numa_node_id_proto"; "bpf_tail_call_proto"; "bpf_ktime_get_ns_proto";
     "bpf_ktime_get_boot_ns_proto"; "bpf_ringbuf_output_proto"; "bpf_ringbuf_reserve_proto";
     "bpf_ringbuf_submit_proto"; "bpf_ringbuf_discard_proto"; "bpf_ringbuf_query_proto";
     "bpf_for_each_map_elem_proto"; "bpf_spin_lock_proto"; "bpf_spin_unlock_proto";
     "bpf_jiffies64_proto"; "bpf_per_cpu_ptr_proto"; "bpf_this_cpu_ptr_proto";
     "bpf_timer_init_proto"; "bpf_timer_set_callback_proto"; "bpf_timer_start_proto";
     "bpf_timer_cancel_proto"; "bpf_trace_printk_proto"; "bpf_get_current_task_proto";
     "bpf_get_current_task_btf_proto"; "bpf_probe_read_user_proto";
     "bpf_probe_read_kernel_proto"; "bpf_probe_read_user_str_proto";
     "bpf_probe_read_kernel_str_proto"; "bpf_snprintf_btf_proto"; "bpf_snprintf_proto";
     "bpf_task_pt_regs_proto"];
  pt_Helpers := [];
  pt_ctxAccess := None;
|}.

Definition pt_SK_SKB : BpfProgType := {|
  pt_Name := "sk_skb";
  pt_User := "struct __sk_buff";
  pt_Kern := "struct sk_buff";
  pt_Enum := BPF_PROG_TYPE_SK_SKB;
  pt_SecDefs := [mkSecDef "sk_skb/stream_parser" None false;
    mkSecDef "sk_skb/stream_verdict" None false;
    mkSecDef "sk_skb" None false];
  pt_FuncProtos :=
    ["bpf_skb_store_bytes_proto"; "bpf_skb_load_bytes_proto"; "sk_skb_pull_data_proto";
     "sk_skb_change_tail_proto"; "sk_skb_change_head_proto"; "sk_skb_adjust_room_proto";
     "bpf_get_socket_cookie_proto"; "bpf_get_socket_uid_proto"; "bpf_sk_redirect_map_proto";
     "bpf_sk_redirect_hash_proto"; "bpf_skb_event_output_proto"; "bpf_sk_lookup_tcp_proto";
     "bpf_sk_lookup_udp_proto"; "bpf_sk_release_proto"; "bpf_skc_lookup_tcp_proto";
     "bpf_skc_to_tcp6_sock_proto"; "bpf_skc_to_tcp_sock_proto";
     "bpf_skc_to_tcp_timewait_sock_proto"; "bpf_skc_to_tcp_request_sock_proto";
     "bpf_skc_to_udp6_sock_proto"; "bpf_ktime_get_coarse_ns_proto";
     "bpf_map_lookup_elem_proto"; "bpf_map_update_elem_proto"; "bpf_map_delete_elem_proto";
     "bpf_map_push_elem_proto"; "bpf_map_pop_elem_proto"; "bpf_map_peek_elem_proto";
     "bpf_get_prandom_u32_proto"; "bpf_get_raw_smp_processor_id_proto";
     "bpf_get_numa_node_id_proto"; "bpf_tail_call_proto"; "bpf_ktime_get_ns_proto";
     "bpf_ktime_get_boot_ns_proto"; "bpf_ringbuf_output_proto"; "bpf_ringbuf_reserve_proto";
     "bpf_ringbuf_submit_proto"; "bpf_ringbuf_discard_proto"; "bpf_ringbuf_query_proto";
     "bpf_for_each_map_elem_proto"; "bpf_spin_lock_proto"; "bpf_spin_unlock_proto";
     "bpf_jiffies64_proto"; "bpf_per_cpu_ptr_proto"; "bpf_this_cpu_ptr_proto";
     "bpf_timer_init_proto"; "bpf_timer_set_callback_proto"; "bpf_timer_start_proto";
     "bpf_timer_cancel_proto"; "bpf_trace_printk_proto"; "bpf_get_current_task_proto";
     "bpf_get_current_task_btf_proto"; "bpf_probe_read_user_proto";
     "bpf_probe_read_kernel_proto"; "bpf_probe_read_user_str_proto";
     "bpf_probe_read_kernel_str_proto"; "bpf_snprintf_btf_proto"; "bpf_snprintf_proto";
     "bpf_task_pt_regs_proto"];
  pt_Helpers := [];
  pt_ctxAccess := None;
|}.

Definition pt_RAW_TRACEPOINT : BpfProgType := {|
  pt_Name := "raw_tracepoint";
  pt_User := "struct bpf_raw_tracepoint_args";
  pt_Kern := "u64";
  pt_Enum := BPF_PROG_TYPE_RAW_TRACEPOINT;
  pt_SecDefs := [mkSecDef "raw_tracepoint/" (Some GenRawTracepointEntry) false;
    mkSecDef "raw_tp/" (Some GenRawTracepointEntry) false];
  pt_FuncProtos :=
    ["bpf_perf_event_output_proto_raw_tp"; "bpf_get_stackid_proto_raw_tp";
     "bpf_get_stack_proto_raw_tp"; "bpf_map_lookup_elem_proto"; "bpf_map_update_elem_proto";
     "bpf_map_delete_elem_proto"; "bpf_map_push_elem_proto"; "bpf_map_pop_elem_proto";
     "bpf_map_peek_elem_proto"; "bpf_ktime_get_ns_proto"; "bpf_ktime_get_boot_ns_proto";
     "bpf_tail_call_proto"; "bpf_get_current_pid_tgid_proto"; "bpf_get_current_task_proto";
     "bpf_get_current_task_btf_proto"; "bpf_task_pt_regs_proto";
     "bpf_get_current_uid_gid_proto"; "bpf_get_current_comm_proto"; "bpf_trace_printk_proto";
     "bpf_get_smp_processor_id_proto"; "bpf_get_numa_node_id_proto";
     "bpf_perf_event_read_proto"; "bpf_current_task_under_cgroup_proto";
     "bpf_get_prandom_u32_proto"; "bpf_probe_write_user_proto"; "bpf_probe_read_user_proto";
     "bpf_probe_read_kernel_proto"; "bpf_probe_read_user_str_proto";
     "bpf_probe_read_kernel_str_proto"; "bpf_probe_read_compat_proto";
     "bpf_probe_read_compat_str_proto"; "bpf_get_current_cgroup_id_proto";
     "bpf_get_current_ancestor_cgroup_id_proto"; "bpf_send_signal_proto";
     "bpf_send_signal_thread_proto"; "bpf_perf_event_read_value_proto";
     "bpf_get_ns_current_pid_tgid_proto"; "bpf_ringbuf_output_proto";
     "bpf_ringbuf_reserve_proto"; "bpf_ringbuf_submit_proto"; "bpf_ringbuf_discard_proto";
     "bpf_ringbuf_query_proto"; "bpf_jiffies64_proto"; "bpf_get_task_stack_proto";
     "bpf_copy_from_user_proto"; "bpf_snprintf_btf_proto"; "bpf_per_cpu_ptr_proto";
     "bpf_this_cpu_ptr_proto"; "bpf_task_storage_get_proto"; "bpf_task_storage_delete_proto";
     "bpf_for_each_map_elem_proto"; "bpf_snprintf_proto"; "bpf_spin_lock_proto";
     "bpf_spin_unlock_proto"; "bpf_timer_init_proto"; "bpf_timer_set_callback_proto";
     "bpf_timer_start_proto"; "bpf_timer_cancel_proto"];
  pt_Helpers := [];
  pt_ctxAccess := None;
|}.

Definition pt_CGROUP_DEVICE : BpfProgType := {|
  pt_Name := "cg_dev";
  pt_User := "struct bpf_cgroup_dev_ctx";
  pt_Kern := "struct bpf_cgroup_dev_ctx";
  pt_Enum := BPF_PROG_TYPE_CGROUP_DEVICE;
  pt_SecDefs := [mkSecDef "cgroup/dev" None false];
  pt_FuncProtos :=
    ["bpf_get_current_uid_gid_proto"; "bpf_get_local_storage_proto";
     "bpf_get_current_cgroup_id_proto"; "bpf_event_output_data_proto";
     "bpf_map_lookup_elem_proto"; "bpf_map_update_elem_proto"; "bpf_map_delete_elem_proto";
     "bpf_map_push_elem_proto"; "bpf_map_pop_elem_proto"; "bpf_map_peek_elem_proto";
     "bpf_get_prandom_u32_proto"; "bpf_get_raw_smp_processor_id_proto";
     "bpf_get_numa_node_id_proto"; "bpf_tail_call_proto"; "bpf_ktime_get_ns_proto";
     "bpf_ktime_get_boot_ns_proto"; "bpf_ringbuf_output_proto"; "bpf_ringbuf_reserve_proto";
     "bpf_ringbuf_submit_proto"; "bpf_ringbuf_discard_proto"; "bpf_ringbuf_query_proto";
     "bpf_for_each_map_elem_proto"; "bpf_spin_lock_proto"; "bpf_spin_unlock_proto";
     "bpf_jiffies64_proto"; "bpf_per_cpu_ptr_proto"; "bpf_this_cpu_ptr_proto";
     "bpf_timer_init_proto"; "bpf_timer_set_callback_proto"; "bpf_timer_start_proto";
     "bpf_timer_cancel_proto"; "bpf_trace_printk_proto"; "bpf_get_current_task_proto";
     "bpf_get_current_task_btf_proto"; "bpf_probe_read_user_proto";
     "bpf_probe_read_kernel_proto"; "bpf_probe_read_user_str_proto";
     "bpf_probe_read_kernel_str_proto"; "bpf_snprintf_btf_proto"; "bpf_snprintf_proto";
     "bpf_task_pt_regs_proto"];
  pt_Helpers := [];
  pt_ctxAccess := None;
|}.

Definition pt_CGROUP_SOCKOPT : BpfProgType := {|
  pt_Name := "cg_sockopt";
  pt_User := "struct bpf_sockopt";
  pt_Kern := "struct bpf_sockopt_kern";
  pt_Enum := BPF_PROG_TYPE_CGROUP_SOCKOPT;
  pt_SecDefs := [mkSecDef "cgroup/getsockopt" None false;
    mkSecDef "cgroup/setsockopt" None false];
  pt_FuncProtos :=
    ["bpf_get_netns_cookie_sockopt_proto"; "bpf_sk_storage_get_proto";
     "bpf_sk_storage_delete_proto"; "bpf_sk_setsockopt_proto"; "bpf_sk_getsockopt_proto";
     "bpf_tcp_sock_proto"; "bpf_get_current_uid_gid_proto"; "bpf_get_local_storage_proto";
     "bpf_get_current_cgroup_id_proto"; "bpf_event_output_data_proto";
     "bpf_map_lookup_elem_proto"; "bpf_map_update_elem_proto"; "bpf_map_delete_elem_proto";
     "bpf_map_push_elem_proto"; "bpf_map_pop_elem_proto"; "bpf_map_peek_elem_proto";
     "bpf_get_prandom_u32_proto"; "bpf_get_raw_smp_processor_id_proto";
     "bpf_get_numa_node_id_proto"; "bpf_tail_call_proto"; "bpf_ktime_get_ns_proto";
     "bpf_ktime_get_boot_ns_proto"; "bpf_ringbuf_output_proto"; "bpf_ringbuf_reserve_proto";
     "bpf_ringbuf_submit_proto"; "bpf_ringbuf_discard_proto"; "bpf_ringbuf_query_proto";
     "bpf_for_each_map_elem_proto"; "bpf_spin_lock_proto"; "bpf_spin_unlock_proto";
     "bpf_jiffies64_proto"; "bpf_per_cpu_ptr_proto"; "bpf_this_cpu_ptr_proto";
     "bpf_timer_init_proto"; "bpf_timer_set_callback_proto"; "bpf_timer_start_proto";
     "bpf_timer_cancel_proto"; "bpf_trace_printk_proto"; "bpf_get_current_task_proto";
     "bpf_get_current_task_btf_proto"; "bpf_probe_read_user_proto";
     "bpf_probe_read_kernel_proto"; "bpf_probe_read_user_str_proto";
     "bpf_probe_read_kernel_str_proto"; "bpf_snprintf_btf_proto"; "bpf_snprintf_proto";
     "bpf_task_pt_regs_proto"];
  pt_Helpers := [];
  pt_ctxAccess := None;
|}.

Definition pt_SK_LOOKUP : BpfProgType := {|
  pt_Name := "sk_lookup";
  pt_User := "struct bpf_sk_lookup";
  pt_Kern := "struct bpf_sk_lookup_kern";
  pt_Enum := BPF_PROG_TYPE_SK_LOOKUP;
  pt_SecDefs := [mkSecDef "sk_lookup" None false];
  pt_FuncProtos :=
    ["bpf_event_output_data_proto"; "bpf_sk_lookup_assign_proto"; "bpf_sk_release_proto";
     "bpf_skc_to_tcp6_sock_proto"; "bpf_skc_to_tcp_sock_proto";
     "bpf_skc_to_tcp_timewait_sock_proto"; "bpf_skc_to_tcp_request_sock_proto";
     "bpf_skc_to_udp6_sock_proto"; "bpf_ktime_get_coarse_ns_proto";
     "bpf_map_lookup_elem_proto"; "bpf_map_update_elem_proto"; "bpf_map_delete_elem_proto";
     "bpf_map_push_elem_proto"; "bpf_map_pop_elem_proto"; "bpf_map_peek_elem_proto";
     "bpf_get_prandom_u32_proto"; "bpf_get_raw_smp_processor_id_proto";
     "bpf_get_numa_node_id_proto"; "bpf_tail_call_proto"; "bpf_ktime_get_ns_proto";
     "bpf_ktime_get_boot_ns_proto"; "bpf_ringbuf_output_proto"; "bpf_ringbuf_reserve_proto";
     "bpf_ringbuf_submit_proto"; "bpf_ringbuf_discard_proto"; "bpf_ringbuf_query_proto";
     "bpf_for_each_map_elem_proto"; "bpf_spin_lock_proto"; "bpf_spin_unlock_proto";
     "bpf_jiffies64_proto"; "bpf_per_cpu_ptr_proto"; "bpf_this_cpu_ptr_proto";
     "bpf_timer_init_proto"; "bpf_timer_set_callback_proto"; "bpf_timer_start_proto";
     "bpf_timer_cancel_proto"; "bpf_trace_printk_proto"; "bpf_get_current_task_proto";
     "bpf_get_current_task_btf_proto"; "bpf_probe_read_user_proto";
     "bpf_probe_read_kernel_proto"; "bpf_probe_read_user_str_proto";
     "bpf_probe_read_kernel_str_proto"; "bpf_snprintf_btf_proto"; "bpf_snprintf_proto";
     "bpf_task_pt_regs_proto"];
  pt_Helpers := [];
  pt_ctxAccess := None;
|}.

Definition pt_SCHED_CLS : BpfProgType := {|
  pt_Name := "tc_cls";
  pt_User := "struct __sk_buff";
  pt_Kern := "struct sk_buff";
  pt_Enum := BPF_PROG_TYPE_SCHED_CLS;
  pt_SecDefs := [mkSecDef "tc" None false;
    mkSecDef "classifier" None false];
  pt_FuncProtos :=
    ["bpf_skb_store_bytes_proto"; "bpf_skb_load_bytes_proto";
     "bpf_skb_load_bytes_relative_proto"; "bpf_skb_pull_data_proto"; "bpf_csum_diff_proto";
     "bpf_csum_update_proto"; "bpf_csum_level_proto"; "bpf_l3_csum_replace_proto";
     "bpf_l4_csum_replace_proto"; "bpf_clone_redirect_proto"; "bpf_get_cgroup_classid_proto";
     "bpf_skb_vlan_push_proto"; "bpf_skb_vlan_pop_proto"; "bpf_skb_change_proto_proto";
     "bpf_skb_change_type_proto"; "bpf_skb_adjust_room_proto"; "bpf_skb_change_tail_proto";
     "bpf_skb_change_head_proto"; "bpf_skb_get_tunnel_key_proto";
     "bpf_skb_set_tunnel_key_proto"; "bpf_skb_get_tunnel_opt_proto";
     "bpf_skb_set_tunnel_opt_proto"; "bpf_redirect_proto"; "bpf_redirect_neigh_proto";
     "bpf_redirect_peer_proto"; "bpf_get_route_realm_proto"; "bpf_get_hash_recalc_proto";
     "bpf_set_hash_invalid_proto"; "bpf_set_hash_proto"; "bpf_skb_event_output_proto";
     "bpf_get_smp_processor_id_proto"; "bpf_skb_under_cgroup_proto";
     "bpf_get_socket_cookie_proto"; "bpf_get_socket_uid_proto"; "bpf_skb_fib_lookup_proto";
     "bpf_skb_check_mtu_proto"; "bpf_sk_fullsock_proto"; "bpf_sk_storage_get_proto";
     "bpf_sk_storage_delete_proto"; "bpf_skb_get_xfrm_state_proto";
     "bpf_skb_cgroup_classid_proto"; "bpf_skb_cgroup_id_proto";
     "bpf_skb_ancestor_cgroup_id_proto"; "bpf_sk_lookup_tcp_proto";
     "bpf_sk_lookup_udp_proto"; "bpf_sk_release_proto"; "bpf_tcp_sock_proto";
     "bpf_get_listener_sock_proto"; "bpf_skc_lookup_tcp_proto";
     "bpf_tcp_check_syncookie_proto"; "bpf_skb_ecn_set_ce_proto";
     "bpf_tcp_gen_syncookie_proto"; "bpf_sk_assign_proto"; "bpf_skc_to_tcp6_sock_proto";
     "bpf_skc_to_tcp_sock_proto"; "bpf_skc_to_tcp_timewait_sock_proto";
     "bpf_skc_to_tcp_request_sock_proto"; "bpf_skc_to_udp6_sock_proto";
     "bpf_ktime_get_coarse_ns_proto"; "bpf_map_lookup_elem_proto";
     "bpf_map_update_elem_proto"; "bpf_map_delete_elem_proto"; "bpf_map_push_elem_proto";
     "bpf_map_pop_elem_proto"; "bpf_map_peek_elem_proto"; "bpf_get_prandom_u32_proto";
     "bpf_get_raw_smp_processor_id_proto"; "bpf_get_numa_node_id_proto";
     "bpf_tail_call_proto"; "bpf_ktime_get_ns_proto"; "bpf_ktime_get_boot_ns_proto";
     "bpf_ringbuf_output_proto"; "bpf_ringbuf_reserve_proto"; "bpf_ringbuf_submit_proto";
     "bpf_ringbuf_discard_proto"; "bpf_ringbuf_query_proto"; "bpf_for_each_map_elem_proto";
     "bpf_spin_lock_proto"; "bpf_spin_unlock_proto"; "bpf_jiffies64_proto";
     "bpf_per_cpu_ptr_proto"; "bpf_this_cpu_ptr_proto"; "bpf_timer_init_proto";
     "bpf_timer_set_callback_proto"; "bpf_timer_start_proto"; "bpf_timer_cancel_proto";
     "bpf_trace_printk_proto"; "bpf_get_current_task_proto";
     "bpf_get_current_task_btf_proto"; "bpf_probe_read_user_proto";
     "bpf_probe_read_kernel_proto"; "bpf_probe_read_user_str_proto";
     "bpf_probe_read_kernel_str_proto"; "bpf_snprintf_btf_proto"; "bpf_snprintf_proto";
     "bpf_task_pt_regs_proto"];
  pt_Helpers := [];
  pt_ctxAccess := None;
|}.

Definition pt_SCHED_ACT : BpfProgType := {|
  pt_Name := "tc_act";
  pt_User := "struct __sk_buff";
  pt_Kern := "struct sk_buff";
  pt_Enum := BPF_PROG_TYPE_SCHED_ACT;
  pt_SecDefs := [mkSecDef "action" None false];
  pt_FuncProtos :=
    ["bpf_skb_store_bytes_proto"; "bpf_skb_load_bytes_proto";
     "bpf_skb_load_bytes_relative_proto"; "bpf_skb_pull_data_proto"; "bpf_csum_diff_proto";
     "bpf_csum_update_proto"; "bpf_csum_level_proto"; "bpf_l3_csum_replace_proto";
     "bpf_l4_csum_replace_proto"; "bpf_clone_redirect_proto"; "bpf_get_cgroup_classid_proto";
     "bpf_skb_vlan_push_proto"; "bpf_skb_vlan_pop_proto"; "bpf_skb_change_proto_proto";
     "bpf_skb_change_type_proto"; "bpf_skb_adjust_room_proto"; "bpf_skb_change_tail_proto";
     "bpf_skb_change_head_proto"; "bpf_skb_get_tunnel_key_proto";
     "bpf_skb_set_tunnel_key_proto"; "bpf_skb_get_tunnel_opt_proto";
     "bpf_skb_set_tunnel_opt_proto"; "bpf_redirect_proto"; "bpf_redirect_neigh_proto";
     "bpf_redirect_peer_proto"; "bpf_get_route_realm_proto"; "bpf_get_hash_recalc_proto";
     "bpf_set_hash_invalid_proto"; "bpf_set_hash_proto"; "bpf_skb_event_output_proto";
     "bpf_get_smp_processor_id_proto"; "bpf_skb_under_cgroup_proto";
     "bpf_get_socket_cookie_proto"; "bpf_get_socket_uid_proto"; "bpf_skb_fib_lookup_proto";
     "bpf_skb_check_mtu_proto"; "bpf_sk_fullsock_proto"; "bpf_sk_storage_get_proto";
     "bpf_sk_storage_delete_proto"; "bpf_skb_get_xfrm_state_proto";
     "bpf_skb_cgroup_classid_proto"; "bpf_skb_cgroup_id_proto";
     "bpf_skb_ancestor_cgroup_id_proto"; "bpf_sk_lookup_tcp_proto";
     "bpf_sk_lookup_udp_proto"; "bpf_sk_release_proto"; "bpf_tcp_sock_proto";
     "bpf_get_listener_sock_proto"; "bpf_skc_lookup_tcp_proto";
     "bpf_tcp_check_syncookie_proto"; "bpf_skb_ecn_set_ce_proto";
     "bpf_tcp_gen_syncookie_proto"; "bpf_sk_assign_proto"; "bpf_skc_to_tcp6_sock_proto";
     "bpf_skc_to_tcp_sock_proto"; "bpf_skc_to_tcp_timewait_sock_proto";
     "bpf_skc_to_tcp_request_sock_proto"; "bpf_skc_to_udp6_sock_proto";
     "bpf_ktime_get_coarse_ns_proto"; "bpf_map_lookup_elem_proto";
     "bpf_map_update_elem_proto"; "bpf_map_delete_elem_proto"; "bpf_map_push_elem_proto";
     "bpf_map_pop_elem_proto"; "bpf_map_peek_elem_proto"; "bpf_get_prandom_u32_proto";
     "bpf_get_raw_smp_processor_id_proto"; "bpf_get_numa_node_id_proto";
     "bpf_tail_call_proto"; "bpf_ktime_get_ns_proto"; "bpf_ktime_get_boot_ns_proto";
     "bpf_ringbuf_output_proto"; "bpf_ringbuf_reserve_proto"; "bpf_ringbuf_submit_proto";
     "bpf_ringbuf_discard_proto"; "bpf_ringbuf_query_proto"; "bpf_for_each_map_elem_proto";
     "bpf_spin_lock_proto"; "bpf_spin_unlock_proto"; "bpf_jiffies64_proto";
     "bpf_per_cpu_ptr_proto"; "bpf_this_cpu_ptr_proto"; "bpf_timer_init_proto";
     "bpf_timer_set_callback_proto"; "bpf_timer_start_proto"; "bpf_timer_cancel_proto";
     "bpf_trace_printk_proto"; "bpf_get_current_task_proto";
     "bpf_get_current_task_btf_proto"; "bpf_probe_read_user_proto";
     "bpf_probe_read_kernel_proto"; "bpf_probe_read_user_str_proto";
     "bpf_probe_read_kernel_str_proto"; "bpf_snprintf_btf_proto"; "bpf_snprintf_proto";
     "bpf_task_pt_regs_proto"];
  pt_Helpers := [];
  pt_ctxAccess := None;
|}.

Definition pt_CGROUP_SOCK_ADDR : BpfProgType := {|
  pt_Name := "cg_sock_addr";
  pt_User := "struct bpf_sock_addr";
  pt_Kern := "struct bpf_sock_addr_kern";
  pt_Enum := BPF_PROG_TYPE_CGROUP_SOCK_ADDR;
  pt_SecDefs := [mkSecDef "cgroup/bind4" None false;
    mkSecDef "cgroup/bind6" None false;
    mkSecDef "cgroup/connect4" None false;
    mkSecDef "cgroup/connect6" None false;
    mkSecDef "cgroup/sendmsg4" None false;
    mkSecDef "cgroup/sendmsg6" None false;
    mkSecDef "cgroup/recvmsg4" None false;
    mkSecDef "cgroup/recvmsg6" None false;
    mkSecDef "cgroup/getpeername4" None false;
    mkSecDef "cgroup/getpeername6" None false;
    mkSecDef "cgroup/getsockname4" None false;
    mkSecDef "cgroup/getsockname6" None false];
  pt_FuncProtos :=
    ["bpf_get_current_uid_gid_proto"; "bpf_bind_proto";
     "bpf_get_socket_cookie_sock_addr_proto"; "bpf_get_netns_cookie_sock_addr_proto";
     "bpf_get_local_storage_proto"; "bpf_event_output_data_proto";
     "bpf_get_current_pid_tgid_proto"; "bpf_get_current_comm_proto";
     "bpf_get_current_cgroup_id_proto"; "bpf_get_current_ancestor_cgroup_id_proto";
     "bpf_get_cgroup_classid_curr_proto"; "bpf_sock_addr_sk_lookup_tcp_proto";
     "bpf_sock_addr_sk_lookup_udp_proto"; "bpf_sk_release_proto";
     "bpf_sock_addr_skc_lookup_tcp_proto"; "bpf_sk_storage_get_proto";
     "bpf_sk_storage_delete_proto"; "bpf_sock_addr_setsockopt_proto";
     "bpf_sock_addr_getsockopt_proto"; "bpf_skc_to_tcp6_sock_proto";
     "bpf_skc_to_tcp_sock_proto"; "bpf_skc_to_tcp_timewait_sock_proto";
     "bpf_skc_to_tcp_request_sock_proto"; "bpf_skc_to_udp6_sock_proto";
     "bpf_ktime_get_coarse_ns_proto"; "bpf_map_lookup_elem_proto";
     "bpf_map_update_elem_proto"; "bpf_map_delete_elem_proto"; "bpf_map_push_elem_proto";
     "bpf_map_pop_elem_proto"; "bpf_map_peek_elem_proto"; "bpf_get_prandom_u32_proto";
     "bpf_get_raw_smp_processor_id_proto"; "bpf_get_numa_node_id_proto";
     "bpf_tail_call_proto"; "bpf_ktime_get_ns_proto"; "bpf_ktime_get_boot_ns_proto";
     "bpf_ringbuf_output_proto"; "bpf_ringbuf_reserve_proto"; "bpf_ringbuf_submit_proto";
     "bpf_ringbuf_discard_proto"; "bpf_ringbuf_query_proto"; "bpf_for_each_map_elem_proto";
     "bpf_spin_lock_proto"; "bpf_spin_unlock_proto"; "bpf_jiffies64_proto";
     "bpf_per_cpu_ptr_proto"; "bpf_this_cpu_ptr_proto"; "bpf_timer_init_proto";
     "bpf_timer_set_callback_proto"; "bpf_timer_start_proto"; "bpf_timer_cancel_proto";
     "bpf_trace_printk_proto"; "bpf_get_current_task_proto";
     "bpf_get_current_task_btf_proto"; "bpf_probe_read_user_proto";
     "bpf_probe_read_kernel_proto"; "bpf_probe_read_user_str_proto";
     "bpf_probe_read_kernel_str_proto"; "bpf_snprintf_btf_proto"; "bpf_snprintf_proto";
     "bpf_task_pt_regs_proto"];
  pt_Helpers := [];
  pt_ctxAccess := None;
|}.

Definition pt_PERF_EVENT : BpfProgType := {|
  pt_Name := "perf_event";
  pt_User := "struct bpf_perf_event_data";
  pt_Kern := "struct bpf_perf_event_data_kern";
  pt_Enum := BPF_PROG_TYPE_PERF_EVENT;
  pt_SecDefs := [mkSecDef "perf_event" None false];
  pt_FuncProtos :=
    ["bpf_perf_event_output_proto_tp"; "bpf_get_stackid_proto_pe"; "bpf_get_stack_proto_pe";
     "bpf_perf_prog_read_value_proto"; "bpf_read_branch_records_proto";
     "bpf_get_attach_cookie_proto_pe"; "bpf_map_lookup_elem_proto";
     "bpf_map_update_elem_proto"; "bpf_map_delete_elem_proto"; "bpf_map_push_elem_proto";
     "bpf_map_pop_elem_proto"; "bpf_map_peek_elem_proto"; "bpf_ktime_get_ns_proto";
     "bpf_ktime_get_boot_ns_proto"; "bpf_tail_call_proto"; "bpf_get_current_pid_tgid_proto";
     "bpf_get_current_task_proto"; "bpf_get_current_task_btf_proto";
     "bpf_task_pt_regs_proto"; "bpf_get_current_uid_gid_proto"; "bpf_get_current_comm_proto";
     "bpf_trace_printk_proto"; "bpf_get_smp_processor_id_proto";
     "bpf_get_numa_node_id_proto"; "bpf_perf_event_read_proto";
     "bpf_current_task_under_cgroup_proto"; "bpf_get_prandom_u32_proto";
     "bpf_probe_write_user_proto"; "bpf_probe_read_user_proto";
     "bpf_probe_read_kernel_proto"; "bpf_probe_read_user_str_proto";
     "bpf_probe_read_kernel_str_proto"; "bpf_probe_read_compat_proto";
     "bpf_probe_read_compat_str_proto"; "bpf_get_current_cgroup_id_proto";
     "bpf_get_current_ancestor_cgroup_id_proto"; "bpf_send_signal_proto";
     "bpf_send_signal_thread_proto"; "bpf_perf_event_read_value_proto";
     "bpf_get_ns_current_pid_tgid_proto"; "bpf_ringbuf_output_proto";
     "bpf_ringbuf_reserve_proto"; "bpf_ringbuf_submit_proto"; "bpf_ringbuf_discard_proto";
     "bpf_ringbuf_query_proto"; "bpf_jiffies64_proto"; "bpf_get_task_stack_proto";
     "bpf_copy_from_user_proto"; "bpf_snprintf_btf_proto"; "bpf_per_cpu_ptr_proto";
     "bpf_this_cpu_ptr_proto"; "bpf_task_storage_get_proto"; "bpf_task_storage_delete_proto";
     "bpf_for_each_map_elem_proto"; "bpf_snprintf_proto"; "bpf_spin_lock_proto";
     "bpf_spin_unlock_proto"; "bpf_timer_init_proto"; "bpf_timer_set_callback_proto";
     "bpf_timer_start_proto"; "bpf_timer_cancel_proto"];
  pt_Helpers := [];
  pt_ctxAccess := None;
|}.

Definition pt_CGROUP_SYSCTL : BpfProgType := {|
  pt_Name := "cg_sysctl";
  pt_User := "struct bpf_sysctl";
  pt_Kern := "struct bpf_sysctl_kern";
  pt_Enum := BPF_PROG_TYPE_CGROUP_SYSCTL;
  pt_SecDefs := [mkSecDef "cgroup/sysctl" None false];
  pt_FuncProtos :=
    ["bpf_strtol_proto"; "bpf_strtoul_proto"; "bpf_sysctl_get_name_proto";
     "bpf_sysctl_get_current_value_proto"; "bpf_sysctl_get_new_value_proto";
     "bpf_sysctl_set_new_value_proto"; "bpf_ktime_get_coarse_ns_proto";
     "bpf_get_current_uid_gid_proto"; "bpf_get_local_storage_proto";
     "bpf_get_current_cgroup_id_proto"; "bpf_event_output_data_proto";
     "bpf_map_lookup_elem_proto"; "bpf_map_update_elem_proto"; "bpf_map_delete_elem_proto";
     "bpf_map_push_elem_proto"; "bpf_map_pop_elem_proto"; "bpf_map_peek_elem_proto";
     "bpf_get_prandom_u32_proto"; "bpf_get_raw_smp_processor_id_proto";
     "bpf_get_numa_node_id_proto"; "bpf_tail_call_proto"; "bpf_ktime_get_ns_proto";
     "bpf_ktime_get_boot_ns_proto"; "bpf_ringbuf_output_proto"; "bpf_ringbuf_reserve_proto";
     "bpf_ringbuf_submit_proto"; "bpf_ringbuf_discard_proto"; "bpf_ringbuf_query_proto";
     "bpf_for_each_map_elem_proto"; "bpf_spin_lock_proto"; "bpf_spin_unlock_proto";
     "bpf_jiffies64_proto"; "bpf_per_cpu_ptr_proto"; "bpf_this_cpu_ptr_proto";
     "bpf_timer_init_proto"; "bpf_timer_set_callback_proto"; "bpf_timer_start_proto";
     "bpf_timer_cancel_proto"; "bpf_trace_printk_proto"; "bpf_get_current_task_proto";
     "bpf_get_current_task_btf_proto"; "bpf_probe_read_user_proto";
     "bpf_probe_read_kernel_proto"; "bpf_probe_read_user_str_proto";
     "bpf_probe_read_kernel_str_proto"; "bpf_snprintf_btf_proto"; "bpf_snprintf_proto";
     "bpf_task_pt_regs_proto"];
  pt_Helpers := [];
  pt_ctxAccess := None;
|}.

Definition pt_XDP : BpfProgType := {|
  pt_Name := "xdp";
  pt_User := "struct xdp_md";
  pt_Kern := "struct xdp_buff";
  pt_Enum := BPF_PROG_TYPE_XDP;
  pt_SecDefs := [mkSecDef "xdp" None false];
  pt_FuncProtos :=
    ["bpf_xdp_event_output_proto"; "bpf_get_smp_processor_id_proto"; "bpf_csum_diff_proto";
     "bpf_xdp_adjust_head_proto"; "bpf_xdp_adjust_meta_proto"; "bpf_xdp_redirect_proto";
     "bpf_xdp_redirect_map_proto"; "bpf_xdp_adjust_tail_proto"; "bpf_xdp_fib_lookup_proto";
     "bpf_xdp_check_mtu_proto"; "bpf_xdp_sk_lookup_udp_proto"; "bpf_xdp_sk_lookup_tcp_proto";
     "bpf_sk_release_proto"; "bpf_xdp_skc_lookup_tcp_proto"; "bpf_tcp_check_syncookie_proto";
     "bpf_tcp_gen_syncookie_proto"; "bpf_xdp_get_buff_len_proto"; "bpf_xdp_load_bytes_proto";
     "bpf_xdp_store_bytes_proto"; "bpf_skc_to_tcp6_sock_proto"; "bpf_skc_to_tcp_sock_proto";
     "bpf_skc_to_tcp_timewait_sock_proto"; "bpf_skc_to_tcp_request_sock_proto";
     "bpf_skc_to_udp6_sock_proto"; "bpf_ktime_get_coarse_ns_proto";
     "bpf_map_lookup_elem_proto"; "bpf_map_update_elem_proto"; "bpf_map_delete_elem_proto";
     "bpf_map_push_elem_proto"; "bpf_map_pop_elem_proto"; "bpf_map_peek_elem_proto";
     "bpf_get_prandom_u32_proto"; "bpf_get_raw_smp_processor_id_proto";
     "bpf_get_numa_node_id_proto"; "bpf_tail_call_proto"; "bpf_ktime_get_ns_proto";
     "bpf_ktime_get_boot_ns_proto"; "bpf_ringbuf_output_proto"; "bpf_ringbuf_reserve_proto";
     "bpf_ringbuf_submit_proto"; "bpf_ringbuf_discard_proto"; "bpf_ringbuf_query_proto";
     "bpf_for_each_map_elem_proto"; "bpf_spin_lock_proto"; "bpf_spin_unlock_proto";
     "bpf_jiffies64_proto"; "bpf_per_cpu_ptr_proto"; "bpf_this_cpu_ptr_proto";
     "bpf_timer_init_proto"; "bpf_timer_set_callback_proto"; "bpf_timer_start_proto";
     "bpf_timer_cancel_proto"; "bpf_trace_printk_proto"; "bpf_get_current_task_proto";
     "bpf_get_current_task_btf_proto"; "bpf_probe_read_user_proto";
     "bpf_probe_read_kernel_proto"; "bpf_probe_read_user_str_proto";
     "bpf_probe_read_kernel_str_proto"; "bpf_snprintf_btf_proto"; "bpf_snprintf_proto";
     "bpf_task_pt_regs_proto"];
  pt_Helpers := [];
  pt_ctxAccess := None;
|}.

Definition pt_LWT_OUT : BpfProgType := {|
  pt_Name := "lwt_out";
  pt_User := "struct __sk_buff";
  pt_Kern := "struct sk_buff";
  pt_Enum := BPF_PROG_TYPE_LWT_OUT;
  pt_SecDefs := [mkSecDef "lwt_out" None false];
  pt_FuncProtos :=
    ["bpf_skb_load_bytes_proto"; "bpf_skb_pull_data_proto"; "bpf_csum_diff_proto";
     "bpf_get_cgroup_classid_proto"; "bpf_get_route_realm_proto";
     "bpf_get_hash_recalc_proto"; "bpf_skb_event_output_proto";
     "bpf_get_smp_processor_id_proto"; "bpf_skb_under_cgroup_proto";
     "bpf_skc_to_tcp6_sock_proto"; "bpf_skc_to_tcp_sock_proto";
     "bpf_skc_to_tcp_timewait_sock_proto"; "bpf_skc_to_tcp_request_sock_proto";
     "bpf_skc_to_udp6_sock_proto"; "bpf_ktime_get_coarse_ns_proto";
     "bpf_map_lookup_elem_proto"; "bpf_map_update_elem_proto"; "bpf_map_delete_elem_proto";
     "bpf_map_push_elem_proto"; "bpf_map_pop_elem_proto"; "bpf_map_peek_elem_proto";
     "bpf_get_prandom_u32_proto"; "bpf_get_raw_smp_processor_id_proto";
     "bpf_get_numa_node_id_proto"; "bpf_tail_call_proto"; "bpf_ktime_get_ns_proto";
     "bpf_ktime_get_boot_ns_proto"; "bpf_ringbuf_output_proto"; "bpf_ringbuf_reserve_proto";
     "bpf_ringbuf_submit_proto"; "bpf_ringbuf_discard_proto"; "bpf_ringbuf_query_proto";
     "bpf_for_each_map_elem_proto"; "bpf_spin_lock_proto"; "bpf_spin_unlock_proto";
     "bpf_jiffies64_proto"; "bpf_per_cpu_ptr_proto"; "bpf_this_cpu_ptr_proto";
     "bpf_timer_init_proto"; "bpf_timer_set_callback_proto"; "bpf_timer_start_proto";
     "bpf_timer_cancel_proto"; "bpf_trace_printk_proto"; "bpf_get_current_task_proto";
     "bpf_get_current_task_btf_proto"; "bpf_probe_read_user_proto";
     "bpf_probe_read_kernel_proto"; "bpf_probe_read_user_str_proto";
     "bpf_probe_read_kernel_str_proto"; "bpf_snprintf_btf_proto"; "bpf_snprintf_proto";
     "bpf_task_pt_regs_proto"];
  pt_Helpers := [];
  pt_ctxAccess := None;
|}.

Definition pt_LWT_XMIT : BpfProgType := {|
  pt_Name := "lwt_xmit";
  pt_User := "struct __sk_buff";
  pt_Kern := "struct sk_buff";
  pt_Enum := BPF_PROG_TYPE_LWT_XMIT;
  pt_SecDefs := [mkSecDef "lwt_xmit" None false];
  pt_FuncProtos :=
    ["bpf_skb_get_tunnel_key_proto"; "bpf_skb_set_tunnel_key_proto";
     "bpf_skb_get_tunnel_opt_proto"; "bpf_skb_set_tunnel_opt_proto"; "bpf_redirect_proto";
     "bpf_clone_redirect_proto"; "bpf_skb_change_tail_proto"; "bpf_skb_change_head_proto";
     "bpf_skb_store_bytes_proto"; "bpf_csum_update_proto"; "bpf_csum_level_proto";
     "bpf_l3_csum_replace_proto"; "bpf_l4_csum_replace_proto"; "bpf_set_hash_invalid_proto";
     "bpf_lwt_xmit_push_encap_proto"; "bpf_skb_load_bytes_proto"; "bpf_skb_pull_data_proto";
     "bpf_csum_diff_proto"; "bpf_get_cgroup_classid_proto"; "bpf_get_route_realm_proto";
     "bpf_get_hash_recalc_proto"; "bpf_skb_event_output_proto";
     "bpf_get_smp_processor_id_proto"; "bpf_skb_under_cgroup_proto";
     "bpf_skc_to_tcp6_sock_proto"; "bpf_skc_to_tcp_sock_proto";
     "bpf_skc_to_tcp_timewait_sock_proto"; "bpf_skc_to_tcp_request_sock_proto";
     "bpf_skc_to_udp6_sock_proto"; "bpf_ktime_get_coarse_ns_proto";
     "bpf_map_lookup_elem_proto"; "bpf_map_update_elem_proto"; "bpf_map_delete_elem_proto";
     "bpf_map_push_elem_proto"; "bpf_map_pop_elem_proto"; "bpf_map_peek_elem_proto";
     "bpf_get_prandom_u32_proto"; "bpf_get_raw_smp_processor_id_proto";
     "bpf_get_numa_node_id_proto"; "bpf_tail_call_proto"; "bpf_ktime_get_ns_proto";
     "bpf_ktime_get_boot_ns_proto"; "bpf_ringbuf_output_proto"; "bpf_ringbuf_reserve_proto";
     "bpf_ringbuf_submit_proto"; "bpf_ringbuf_discard_proto"; "bpf_ringbuf_query_proto";
     "bpf_for_each_map_elem_proto"; "bpf_spin_lock_proto"; "bpf_spin_unlock_proto";
     "bpf_jiffies64_proto"; "bpf_per_cpu_ptr_proto"; "bpf_this_cpu_ptr_proto";
     "bpf_timer_init_proto"; "bpf_timer_set_callback_proto"; "bpf_timer_start_proto";
     "bpf_timer_cancel_proto"; "bpf_trace_printk_proto"; "bpf_get_current_task_proto";
     "bpf_get_current_task_btf_proto"; "bpf_probe_read_user_proto";
     "bpf_probe_read_kernel_proto"; "bpf_probe_read_user_str_proto";
     "bpf_probe_read_kernel_str_proto"; "bpf_snprintf_btf_proto"; "bpf_snprintf_proto";
     "bpf_task_pt_regs_proto"];
  pt_Helpers := [];
  pt_ctxAccess := None;
|}.

Definition pt_KPROBE : BpfProgType := {|
  pt_Name := "kprobe";
  pt_User := "struct bpf_user_pt_regs_t";
  pt_Kern := "struct pt_regs";
  pt_Enum := BPF_PROG_TYPE_KPROBE;
  pt_SecDefs := [mkSecDef "kprobe/" (Some GenKprobeEntry) false;
    mkSecDef "uprobe/" (Some GenKprobeEntry) false;
    mkSecDef "kretprobe/" (Some GenKprobeEntry) false;
    mkSecDef "uretprobe/" (Some GenKprobeEntry) false];
  pt_FuncProtos :=
    ["bpf_perf_event_output_proto"; "bpf_get_stackid_proto"; "bpf_get_stack_proto";
     "bpf_override_return_proto"; "bpf_get_attach_cookie_proto_trace";
     "bpf_get_func_ip_proto_kprobe"; "bpf_map_lookup_elem_proto";
     "bpf_map_update_elem_proto"; "bpf_map_delete_elem_proto"; "bpf_map_push_elem_proto";
     "bpf_map_pop_elem_proto"; "bpf_map_peek_elem_proto"; "bpf_ktime_get_ns_proto";
     "bpf_ktime_get_boot_ns_proto"; "bpf_tail_call_proto"; "bpf_get_current_pid_tgid_proto";
     "bpf_get_current_task_proto"; "bpf_get_current_task_btf_proto";
     "bpf_task_pt_regs_proto"; "bpf_get_current_uid_gid_proto"; "bpf_get_current_comm_proto";
     "bpf_trace_printk_proto"; "bpf_get_smp_processor_id_proto";
     "bpf_get_numa_node_id_proto"; "bpf_perf_event_read_proto";
     "bpf_current_task_under_cgroup_proto"; "bpf_get_prandom_u32_proto";
     "bpf_probe_write_user_proto"; "bpf_probe_read_user_proto";
     "bpf_probe_read_kernel_proto"; "bpf_probe_read_user_str_proto";
     "bpf_probe_read_kernel_str_proto"; "bpf_probe_read_compat_proto";
     "bpf_probe_read_compat_str_proto"; "bpf_get_current_cgroup_id_proto";
     "bpf_get_current_ancestor_cgroup_id_proto"; "bpf_send_signal_proto";
     "bpf_send_signal_thread_proto"; "bpf_perf_event_read_value_proto";
     "bpf_get_ns_current_pid_tgid_proto"; "bpf_ringbuf_output_proto";
     "bpf_ringbuf_reserve_proto"; "bpf_ringbuf_submit_proto"; "bpf_ringbuf_discard_proto";
     "bpf_ringbuf_query_proto"; "bpf_jiffies64_proto"; "bpf_get_task_stack_proto";
     "bpf_copy_from_user_proto"; "bpf_snprintf_btf_proto"; "bpf_per_cpu_ptr_proto";
     "bpf_this_cpu_ptr_proto"; "bpf_task_storage_get_proto"; "bpf_task_storage_delete_proto";
     "bpf_for_each_map_elem_proto"; "bpf_snprintf_proto"; "bpf_get_func_ip_proto_tracing";
     "bpf_spin_lock_proto"; "bpf_spin_unlock_proto"; "bpf_timer_init_proto";
     "bpf_timer_set_callback_proto"; "bpf_timer_start_proto"; "bpf_timer_cancel_proto"];
  pt_Helpers := [];
  pt_ctxAccess := None;
|}.

Definition pt_TRACEPOINT : BpfProgType := {|
  pt_Name := "tracepoint";
  pt_User := "__u64";
  pt_Kern := "u64";
  pt_Enum := BPF_PROG_TYPE_TRACEPOINT;
  pt_SecDefs := [mkSecDef "tracepoint/" (Some GenTracepointEntry) false;
    mkSecDef "tp/" (Some GenTracepointEntry) false];
  pt_FuncProtos :=
    ["bpf_perf_event_output_proto_tp"; "bpf_get_stackid_proto_tp"; "bpf_get_stack_proto_tp";
     "bpf_get_attach_cookie_proto_trace"; "bpf_map_lookup_elem_proto";
     "bpf_map_update_elem_proto"; "bpf_map_delete_elem_proto"; "bpf_map_push_elem_proto";
     "bpf_map_pop_elem_proto"; "bpf_map_peek_elem_proto"; "bpf_ktime_get_ns_proto";
     "bpf_ktime_get_boot_ns_proto"; "bpf_tail_call_proto"; "bpf_get_current_pid_tgid_proto";
     "bpf_get_current_task_proto"; "bpf_get_current_task_btf_proto";
     "bpf_task_pt_regs_proto"; "bpf_get_current_uid_gid_proto"; "bpf_get_current_comm_proto";
     "bpf_trace_printk_proto"; "bpf_get_smp_processor_id_proto";
     "bpf_get_numa_node_id_proto"; "bpf_perf_event_read_proto";
     "bpf_current_task_under_cgroup_proto"; "bpf_get_prandom_u32_proto";
     "bpf_probe_write_user_proto"; "bpf_probe_read_user_proto";
     "bpf_probe_read_kernel_proto"; "bpf_probe_read_user_str_proto";
     "bpf_probe_read_kernel_str_proto"; "bpf_probe_read_compat_proto";
     "bpf_probe_read_compat_str_proto"; "bpf_get_current_cgroup_id_proto";
     "bpf_get_current_ancestor_cgroup_id_proto"; "bpf_send_signal_proto";
     "bpf_send_signal_thread_proto"; "bpf_perf_event_read_value_proto";
     "bpf_get_ns_current_pid_tgid_proto"; "bpf_ringbuf_output_proto";
     "bpf_ringbuf_reserve_proto"; "bpf_ringbuf_submit_proto"; "bpf_ringbuf_discard_proto";
     "bpf_ringbuf_query_proto"; "bpf_jiffies64_proto"; "bpf_get_task_stack_proto";
     "bpf_copy_from_user_proto"; "bpf_snprintf_btf_proto"; "bpf_per_cpu_ptr_proto";
     "bpf_this_cpu_ptr_proto"; "bpf_task_storage_get_proto"; "bpf_task_storage_delete_proto";
     "bpf_for_each_map_elem_proto"; "bpf_snprintf_proto"; "bpf_spin_lock_proto";
     "bpf_spin_unlock_proto"; "bpf_timer_init_proto"; "bpf_timer_set_callback_proto";
     "bpf_timer_start_proto"; "bpf_timer_cancel_proto"];
  pt_Helpers := [];
  pt_ctxAccess := None;
|}.

Definition pt_RAW_TRACEPOINT_WRITABLE : BpfProgType := {|
  pt_Name := "raw_tracepoint_writable";
  pt_User := "struct bpf_raw_tracepoint_args";
  pt_Kern := "u64";
  pt_Enum := BPF_PROG_TYPE_RAW_TRACEPOINT_WRITABLE;
  pt_SecDefs := [mkSecDef "raw_tracepoint.w/" (Some GenRawTracepointEntry) false;
    mkSecDef "raw_tp.w/" (Some GenRawTracepointEntry) false];
  pt_FuncProtos :=
    ["bpf_perf_event_output_proto_raw_tp"; "bpf_get_stackid_proto_raw_tp";
     "bpf_get_stack_proto"; "bpf_map_lookup_elem_proto"; "bpf_map_update_elem_proto";
     "bpf_map_delete_elem_proto"; "bpf_map_push_elem_proto"; "bpf_map_pop_elem_proto";
     "bpf_map_peek_elem_proto"; "bpf_ktime_get_ns_proto"; "bpf_ktime_get_boot_ns_proto";
     "bpf_tail_call_proto"; "bpf_get_current_pid_tgid_proto"; "bpf_get_current_task_proto";
     "bpf_get_current_task_btf_proto"; "bpf_task_pt_regs_proto";
     "bpf_get_current_uid_gid_proto"; "bpf_get_current_comm_proto"; "bpf_trace_printk_proto";
     "bpf_get_smp_processor_id_proto"; "bpf_get_numa_node_id_proto";
     "bpf_perf_event_read_proto"; "bpf_current_task_under_cgroup_proto";
     "bpf_get_prandom_u32_proto"; "bpf_probe_write_user_proto"; "bpf_probe_read_user_proto";
     "bpf_probe_read_kernel_proto"; "bpf_probe_read_user_str_proto";
     "bpf_probe_read_kernel_str_proto"; "bpf_probe_read_compat_proto";
     "bpf_probe_read_compat_str_proto"; "bpf_get_current_cgroup_id_proto";
     "bpf_get_current_ancestor_cgroup_id_proto"; "bpf_send_signal_proto";
     "bpf_send_signal_thread_proto"; "bpf_perf_event_read_value_proto";
     "bpf_get_ns_current_pid_tgid_proto"; "bpf_ringbuf_output_proto";
     "bpf_ringbuf_reserve_proto"; "bpf_ringbuf_submit_proto"; "bpf_ringbuf_discard_proto";
     "bpf_ringbuf_query_proto"; "bpf_jiffies64_proto"; "bpf_get_task_stack_proto";
     "bpf_copy_from_user_proto"; "bpf_snprintf_btf_proto"; "bpf_per_cpu_ptr_proto";
     "bpf_this_cpu_ptr_proto"; "bpf_task_storage_get_proto"; "bpf_task_storage_delete_proto";
     "bpf_for_each_map_elem_proto"; "bpf_snprintf_proto"; "bpf_spin_lock_proto";
     "bpf_spin_unlock_proto"; "bpf_timer_init_proto"; "bpf_timer_set_callback_proto";
     "bpf_timer_start_proto"; "bpf_timer_cancel_proto"];
  pt_Helpers := [];
  pt_ctxAccess := None;
|}.

Definition pt_TRACING : BpfProgType := {|
  pt_Name := "tracing";
  pt_User := "void *";
  pt_Kern := "void *";
  pt_Enum := BPF_PROG_TYPE_TRACING;
  pt_SecDefs := [mkSecDef "tp_btf/" None false;
    mkSecDef "fentry/" (Some GenBPFTrampoline) false;
    mkSecDef "fmod_ret" (Some GenBPFTrampoline) false;
    mkSecDef "fexit/" (Some GenBPFTrampoline) false;
    mkSecDef "fentry.s/" (Some GenBPFTrampoline) true;
    mkSecDef "fmod_ret.s/" (Some GenBPFTrampoline) true;
    mkSecDef "fexit.s/" (Some GenBPFTrampoline) true;
    mkSecDef "iter/" (Some GenTracingIter) false;
    mkSecDef "iter.s/" (Some GenTracingIter) true];
  pt_FuncProtos :=
    ["bpf_skb_output_proto"; "bpf_xdp_output_proto"; "bpf_skc_to_tcp6_sock_proto";
     "bpf_skc_to_tcp_sock_proto"; "bpf_skc_to_tcp_timewait_sock_proto";
     "bpf_skc_to_tcp_request_sock_proto"; "bpf_skc_to_udp6_sock_proto";
     "bpf_sk_storage_get_tracing_proto"; "bpf_sk_storage_delete_tracing_proto";
     "bpf_sock_from_file_proto"; "bpf_get_socket_ptr_cookie_proto"; "bpf_seq_printf_proto";
     "bpf_seq_write_proto"; "bpf_seq_printf_btf_proto"; "bpf_d_path_proto";
     "bpf_perf_event_output_proto_raw_tp"; "bpf_get_stackid_proto_raw_tp";
     "bpf_get_stack_proto_raw_tp"; "bpf_map_lookup_elem_proto"; "bpf_map_update_elem_proto";
     "bpf_map_delete_elem_proto"; "bpf_map_push_elem_proto"; "bpf_map_pop_elem_proto";
     "bpf_map_peek_elem_proto"; "bpf_ktime_get_ns_proto"; "bpf_ktime_get_boot_ns_proto";
     "bpf_tail_call_proto"; "bpf_get_current_pid_tgid_proto"; "bpf_get_current_task_proto";
     "bpf_get_current_task_btf_proto"; "bpf_task_pt_regs_proto";
     "bpf_get_current_uid_gid_proto"; "bpf_get_current_comm_proto"; "bpf_trace_printk_proto";
     "bpf_get_smp_processor_id_proto"; "bpf_get_numa_node_id_proto";
     "bpf_perf_event_read_proto"; "bpf_current_task_under_cgroup_proto";
     "bpf_get_prandom_u32_proto"; "bpf_probe_write_user_proto"; "bpf_probe_read_user_proto";
     "bpf_probe_read_kernel_proto"; "bpf_probe_read_user_str_proto";
     "bpf_probe_read_kernel_str_proto"; "bpf_probe_read_compat_proto";
     "bpf_probe_read_compat_str_proto"; "bpf_get_current_cgroup_id_proto";
     "bpf_get_current_ancestor_cgroup_id_proto"; "bpf_send_signal_proto";
     "bpf_send_signal_thread_proto"; "bpf_perf_event_read_value_proto";
     "bpf_get_ns_current_pid_tgid_proto"; "bpf_ringbuf_output_proto";
     "bpf_ringbuf_reserve_proto"; "bpf_ringbuf_submit_proto"; "bpf_ringbuf_discard_proto";
     "bpf_ringbuf_query_proto"; "bpf_jiffies64_proto"; "bpf_get_task_stack_proto";
     "bpf_copy_from_user_proto"; "bpf_snprintf_btf_proto"; "bpf_per_cpu_ptr_proto";
     "bpf_this_cpu_ptr_proto"; "bpf_task_storage_get_proto"; "bpf_task_storage_delete_proto";
     "bpf_for_each_map_elem_proto"; "bpf_snprintf_proto"; "bpf_get_func_ip_proto_tracing";
     "bpf_spin_unlock_proto"; "bpf_timer_init_proto"; "bpf_timer_set_callback_proto";
     "bpf_timer_start_proto"; "bpf_timer_cancel_proto"];
  pt_Helpers := [];
  pt_ctxAccess := None;
|}.

Definition pt_STRUCT_OPS : BpfProgType := {|
  pt_Name := "bpf_struct_ops";
  pt_User := "struct mptcp_sock";
  pt_Kern := "struct mptcp_sock";
  pt_Enum := BPF_PROG_TYPE_STRUCT_OPS;
  pt_SecDefs := [mkSecDef "struct_ops" None false];
  pt_FuncProtos :=
    [];
  pt_Helpers := [];
  pt_ctxAccess := None;
|}.

Definition pt_LSM : BpfProgType := {|
  pt_Name := "lsm";
  pt_User := "void *";
  pt_Kern := "void *";
  pt_Enum := BPF_PROG_TYPE_LSM;
  pt_SecDefs := [mkSecDef "lsm/" (Some GenLsmEntry) false;
    mkSecDef "lsm.s/" (Some GenLsmEntry) true];
  pt_FuncProtos :=
    ["bpf_inode_storage_get_proto"; "bpf_inode_storage_delete_proto";
     "bpf_sk_storage_get_proto"; "bpf_sk_storage_delete_proto"; "bpf_spin_lock_proto";
     "bpf_spin_unlock_proto"; "bpf_bprm_opts_set_proto"; "bpf_ima_inode_hash_proto";
     "bpf_ima_file_hash_proto"; "bpf_get_attach_cookie_proto_lsm";
     "bpf_get_local_storage_proto"; "bpf_get_retval_proto"; "bpf_set_retval_proto";
     "bpf_unlocked_sk_setsockopt_proto"; "bpf_unlocked_sk_getsockopt_proto";
     "bpf_sk_setsockopt_proto"; "bpf_sk_getsockopt_proto"; "bpf_kptr_xchg_proto";
     "bpf_loop_proto"; "bpf_user_ringbuf_drain_proto"; "bpf_strncmp_proto";
     "bpf_ktime_get_tai_ns_proto"; "bpf_map_lookup_elem_proto"; "bpf_map_update_elem_proto";
     "bpf_map_delete_elem_proto"; "bpf_map_push_elem_proto"; "bpf_map_pop_elem_proto";
     "bpf_map_peek_elem_proto"; "bpf_ktime_get_ns_proto"; "bpf_ktime_get_boot_ns_proto";
     "bpf_tail_call_proto"; "bpf_get_current_pid_tgid_proto"; "bpf_get_current_task_proto";
     "bpf_get_current_task_btf_proto"; "bpf_task_pt_regs_proto";
     "bpf_get_current_uid_gid_proto"; "bpf_get_current_comm_proto"; "bpf_trace_printk_proto";
     "bpf_get_smp_processor_id_proto"; "bpf_get_numa_node_id_proto";
     "bpf_perf_event_read_proto"; "bpf_current_task_under_cgroup_proto";
     "bpf_get_prandom_u32_proto"; "bpf_probe_write_user_proto"; "bpf_probe_read_user_proto";
     "bpf_probe_read_kernel_proto"; "bpf_probe_read_user_str_proto";
     "bpf_probe_read_kernel_str_proto"; "bpf_probe_read_compat_proto";
     "bpf_probe_read_compat_str_proto"; "bpf_get_current_cgroup_id_proto";
     "bpf_get_current_ancestor_cgroup_id_proto"; "bpf_send_signal_proto";
     "bpf_send_signal_thread_proto"; "bpf_perf_event_read_value_proto";
     "bpf_get_ns_current_pid_tgid_proto"; "bpf_ringbuf_output_proto";
     "bpf_ringbuf_reserve_proto"; "bpf_ringbuf_submit_proto"; "bpf_ringbuf_discard_proto";
     "bpf_ringbuf_query_proto"; "bpf_jiffies64_proto"; "bpf_get_task_stack_proto";
     "bpf_copy_from_user_proto"; "bpf_snprintf_btf_proto"; "bpf_per_cpu_ptr_proto";
     "bpf_this_cpu_ptr_proto"; "bpf_task_storage_get_proto"; "bpf_task_storage_delete_proto";
     "bpf_for_each_map_elem_proto"; "bpf_snprintf_proto"; "bpf_get_func_ip_proto_tracing";
     "bpf_cgrp_storage_get_proto"; "bpf_cgrp_storage_delete_proto"; "bpf_timer_init_proto";
     "bpf_timer_set_callback_proto"; "bpf_timer_start_proto"; "bpf_timer_cancel_proto"];
  pt_Helpers := [];
  pt_ctxAccess := None;
|}.

Definition pt_SYSCALL : BpfProgType := {|
  pt_Name := "bpf_syscall";
  pt_User := "void *";
  pt_Kern := "void *";
  pt_Enum := BPF_PROG_TYPE_SYSCALL;
  pt_SecDefs := [mkSecDef "syscall" None false];
  pt_FuncProtos :=
    ["bpf_sys_bpf_proto"; "bpf_btf_find_by_name_kind_proto"; "bpf_sys_close_proto";
     "bpf_kallsyms_lookup_name_proto"; "bpf_map_lookup_elem_proto";
     "bpf_map_update_elem_proto"; "bpf_map_delete_elem_proto"; "bpf_map_push_elem_proto";
     "bpf_map_pop_elem_proto"; "bpf_map_peek_elem_proto"; "bpf_ktime_get_ns_proto";
     "bpf_ktime_get_boot_ns_proto"; "bpf_tail_call_proto"; "bpf_get_current_pid_tgid_proto";
     "bpf_get_current_task_proto"; "bpf_get_current_task_btf_proto";
     "bpf_task_pt_regs_proto"; "bpf_get_current_uid_gid_proto"; "bpf_get_current_comm_proto";
     "bpf_trace_printk_proto"; "bpf_get_smp_processor_id_proto";
     "bpf_get_numa_node_id_proto"; "bpf_perf_event_read_proto";
     "bpf_current_task_under_cgroup_proto"; "bpf_get_prandom_u32_proto";
     "bpf_probe_write_user_proto"; "bpf_probe_read_user_proto";
     "bpf_probe_read_kernel_proto"; "bpf_probe_read_user_str_proto";
     "bpf_probe_read_kernel_str_proto"; "bpf_probe_read_compat_proto";
     "bpf_probe_read_compat_str_proto"; "bpf_get_current_cgroup_id_proto";
     "bpf_get_current_ancestor_cgroup_id_proto"; "bpf_send_signal_proto";
     "bpf_send_signal_thread_proto"; "bpf_perf_event_read_value_proto";
     "bpf_get_ns_current_pid_tgid_proto"; "bpf_ringbuf_output_proto";
     "bpf_ringbuf_reserve_proto"; "bpf_ringbuf_submit_proto"; "bpf_ringbuf_discard_proto";
     "bpf_ringbuf_query_proto"; "bpf_jiffies64_proto"; "bpf_get_task_stack_proto";
     "bpf_copy_from_user_proto"; "bpf_snprintf_btf_proto"; "bpf_per_cpu_ptr_proto";
     "bpf_this_cpu_ptr_proto"; "bpf_task_storage_get_proto"; "bpf_task_storage_delete_proto";
     "bpf_for_each_map_elem_proto"; "bpf_snprintf_proto"; "bpf_get_func_ip_proto_tracing";
     "bpf_spin_lock_proto"; "bpf_spin_unlock_proto"; "bpf_timer_init_proto";
     "bpf_timer_set_callback_proto"; "bpf_timer_start_proto"; "bpf_timer_cancel_proto"];
  pt_Helpers := [];
  pt_ctxAccess := None;
|}.

Definition pt_NETFILTER : BpfProgType := {|
  pt_Name := "netfilter";
  pt_User := "struct bpf_nf_ctx";
  pt_Kern := "struct bpf_nf_ctx";
  pt_Enum := BPF_PROG_TYPE_NETFILTER;
  pt_SecDefs := [mkSecDef "netfilter" None false];
  pt_FuncProtos :=
    ["bpf_map_lookup_elem_proto"; "bpf_map_update_elem_proto"; "bpf_map_delete_elem_proto";
     "bpf_map_push_elem_proto"; "bpf_map_pop_elem_proto"; "bpf_map_peek_elem_proto";
     "bpf_get_prandom_u32_proto"; "bpf_get_raw_smp_processor_id_proto";
     "bpf_get_numa_node_id_proto"; "bpf_tail_call_proto"; "bpf_ktime_get_ns_proto";
     "bpf_ktime_get_boot_ns_proto"; "bpf_ringbuf_output_proto"; "bpf_ringbuf_reserve_proto";
     "bpf_ringbuf_submit_proto"; "bpf_ringbuf_discard_proto"; "bpf_ringbuf_query_proto";
     "bpf_get_current_pid_tgid_proto"; "bpf_get_current_uid_gid_proto";
     "bpf_spin_lock_proto"; "bpf_spin_unlock_proto"; "bpf_jiffies64_proto";
     "bpf_per_cpu_ptr_proto"; "bpf_this_cpu_ptr_proto"; "bpf_timer_init_proto";
     "bpf_timer_set_callback_proto"; "bpf_timer_start_proto"; "bpf_timer_cancel_proto";
     "bpf_for_each_map_elem_proto"; "bpf_cgrp_storage_get_proto";
     "bpf_cgrp_storage_delete_proto"; "bpf_get_current_cgroup_id_proto";
     "bpf_get_current_ancestor_cgroup_id_proto"; "bpf_current_task_under_cgroup_proto";
     "bpf_trace_printk_proto"; "bpf_get_current_task_proto";
     "bpf_get_current_task_btf_proto"; "bpf_get_current_comm_proto";
     "bpf_probe_read_user_proto"; "bpf_probe_read_kernel_proto";
     "bpf_probe_read_user_str_proto"; "bpf_probe_read_kernel_str_proto";
     "bpf_snprintf_btf_proto"; "bpf_snprintf_proto"; "bpf_task_pt_regs_proto"];
  pt_Helpers := [];
  pt_ctxAccess := None;
|}.

Definition ProgTypeMap : list (BpfProgTypeEnum * BpfProgType) := [
  (BPF_PROG_TYPE_SOCK_OPS, pt_SOCK_OPS);
  (BPF_PROG_TYPE_LIRC_MODE2, pt_LIRC_MODE2);
  (BPF_PROG_TYPE_SK_REUSEPORT, pt_SK_REUSEPORT);
  (BPF_PROG_TYPE_SK_MSG, pt_SK_MSG);
  (BPF_PROG_TYPE_FLOW_DISSECTOR, pt_FLOW_DISSECTOR);
  (BPF_PROG_TYPE_SOCKET_FILTER, pt_SOCKET_FILTER);
  (BPF_PROG_TYPE_CGROUP_SKB, pt_CGROUP_SKB);
  (BPF_PROG_TYPE_CGROUP_SOCK, pt_CGROUP_SOCK);
  (BPF_PROG_TYPE_LWT_IN, pt_LWT_IN);
  (BPF_PROG_TYPE_LWT_SEG6LOCAL, pt_LWT_SEG6LOCAL);
  (BPF_PROG_TYPE_SK_SKB, pt_SK_SKB);
  (BPF_PROG_TYPE_RAW_TRACEPOINT, pt_RAW_TRACEPOINT);
  (BPF_PROG_TYPE_CGROUP_DEVICE, pt_CGROUP_DEVICE);
  (BPF_PROG_TYPE_CGROUP_SOCKOPT, pt_CGROUP_SOCKOPT);
  (BPF_PROG_TYPE_SK_LOOKUP, pt_SK_LOOKUP);
  (BPF_PROG_TYPE_SCHED_CLS, pt_SCHED_CLS);
  (BPF_PROG_TYPE_SCHED_ACT, pt_SCHED_ACT);
  (BPF_PROG_TYPE_CGROUP_SOCK_ADDR, pt_CGROUP_SOCK_ADDR);
  (BPF_PROG_TYPE_PERF_EVENT, pt_PERF_EVENT);
  (BPF_PROG_TYPE_CGROUP_SYSCTL, pt_CGROUP_SYSCTL);
  (BPF_PROG_TYPE_XDP, pt_XDP);
  (BPF_PROG_TYPE_LWT_OUT, pt_LWT_OUT);
  (BPF_PROG_TYPE_LWT_XMIT, pt_LWT_XMIT);
  (BPF_PROG_TYPE_KPROBE, pt_KPROBE);
  (BPF_PROG_TYPE_TRACEPOINT, pt_TRACEPOINT);
  (BPF_PROG_TYPE_RAW_TRACEPOINT_WRITABLE, pt_RAW_TRACEPOINT_WRITABLE);
  (BPF_PROG_TYPE_TRACING, pt_TRACING);
  (BPF_PROG_TYPE_STRUCT_OPS, pt_STRUCT_OPS);
  (BPF_PROG_TYPE_LSM, pt_LSM);
  (BPF_PROG_TYPE_SYSCALL, pt_SYSCALL);
  (BPF_PROG_TYPE_NETFILTER, pt_NETFILTER)
].
