(* ===== verification/BpfCtxTable.v ===== *)
(** * Context tables

    [ctxStructsMap] of [prog/brf_legacy.go], the fields of the context structs,
    and [CtxAccessMap] of [prog/brf_types.go], what a program of each type may
    access of its context. *)

From stdpp Require Import base numbers strings list.
From S2P Require Import Prelude BpfTypes.

Local Open Scope string_scope.
Local Open Scope list_scope.
Local Open Scope Z_scope.

Definition ctxStructsMap : list (string * StructDef) := [
  ("bpf_sock_ops", {|
    sd_Name := "bpf_sock_ops";
    sd_FieldNames :=
      ["op"; "args"; "family"; "remote_ip4"; "local_ip4"; "remote_ip6"; "local_ip6";
       "remote_port"; "local_port"; "is_fullsock"; "snd_cwnd"; "srtt_us";
       "bpf_sock_ops_cb_flags"; "state"; "rtt_min"; "snd_ssthresh"; "rcv_nxt"; "snd_nxt";
       "snd_una"; "mss_cache"; "ecn_flags"; "rate_delivered"; "rate_interval_us";
       "packets_out"; "retrans_out"; "total_retrans"; "segs_in"; "data_segs_in"; "segs_out";
       "data_segs_out"; "lost_out"; "sacked_out"; "sk_txhash"; "bytes_received";
       "bytes_acked"; "sk"; "skb_data"; "skb_data_end"; "skb_len"; "skb_tcp_flags"];
    sd_FieldTypes :=
      ["uint32_t"; "uint32_t [4]"; "uint32_t"; "uint32_t"; "uint32_t"; "uint32_t [4]";
       "uint32_t [4]"; "uint32_t"; "uint32_t"; "uint32_t"; "uint32_t"; "uint32_t";
       "uint32_t"; "uint32_t"; "uint32_t"; "uint32_t"; "uint32_t"; "uint32_t"; "uint32_t";
       "uint32_t"; "uint32_t"; "uint32_t"; "uint32_t"; "uint32_t"; "uint32_t"; "uint32_t";
       "uint32_t"; "uint32_t"; "uint32_t"; "uint32_t"; "uint32_t"; "uint32_t"; "uint32_t";
       "uint64_t"; "uint64_t"; "struct bpf_sock*"; "void*"; "void*"; "uint32_t"; "uint32_t"];
    sd_Size := 216; sd_Hints := []; sd_IsStruct := true |});
  ("sk_reuseport_md", {|
    sd_Name := "sk_reuseport_md";
    sd_FieldNames :=
      ["data"; "data_end"; "len"; "eth_protocol"; "ip_protocol"; "bind_inany"; "hash"; "sk";
       "migrating_sk"];
    sd_FieldTypes :=
      ["void *"; "void *"; "uint32_t"; "uint32_t"; "uint32_t"; "uint32_t"; "uint32_t";
       "struct bpf_sock*"; "struct bpf_sock*"];
    sd_Size := 52; sd_Hints := []; sd_IsStruct := true |});
  ("sk_msg_md", {|
    sd_Name := "sk_msg_md";
    sd_FieldNames :=
      ["data"; "data_end"; "family"; "remote_ip4"; "local_ip4"; "remote_ip6"; "local_ip6";
       "remote_port"; "local_port"; "size"; "sk"];
    sd_FieldTypes :=
      ["void *"; "void *"; "uint32_t"; "uint32_t"; "uint32_t"; "uint32_t [4]";
       "uint32_t [4]"; "uint32_t"; "uint32_t"; "uint32_t"; "struct bpf_sock*"];
    sd_Size := 80; sd_Hints := []; sd_IsStruct := true |});
  ("__sk_buff", {|
    sd_Name := "__sk_buff";
    sd_FieldNames :=
      ["len"; "pkt_type"; "mark"; "queue_mapping"; "protocol"; "vlan_present"; "vlan_tci";
       "vlan_proto"; "priority"; "ingress_ifindex"; "ifindex"; "tc_index"; "cb"; "hash";
       "tc_classid"; "data"; "data_end"; "napi_id"; "family"; "remote_ip4"; "local_ip4";
       "remote_ip6"; "local_ip6"; "remote_port"; "local_port"; "data_meta"; "flow_keys";
       "tstamp"; "wire_len"; "gso_segs"; "sk"; "gso_size"];
    sd_FieldTypes :=
      ["uint32_t"; "uint32_t"; "uint32_t"; "uint32_t"; "uint32_t"; "uint32_t"; "uint32_t";
       "uint32_t"; "uint32_t"; "uint32_t"; "uint32_t"; "uint32_t"; "uint32_t [5]";
       "uint32_t"; "uint32_t"; "uint32_t"; "uint32_t"; "uint32_t"; "uint32_t"; "uint32_t";
       "uint32_t"; "uint32_t [4]"; "uint32_t [4]"; "uint32_t"; "uint32_t"; "uint32_t";
       "struct bpf_flow_keys*"; "uint64_t"; "uint32_t"; "uint32_t"; "struct bpf_sock*";
       "uint32_t"];
    sd_Size := 180; sd_Hints := []; sd_IsStruct := true |});
  ("bpf_sock", {|
    sd_Name := "bpf_sock";
    sd_FieldNames :=
      ["bound_dev_if"; "family"; "type"; "protocol"; "mark"; "priority"; "src_ip4";
       "src_ip6"; "src_port"; "dst_port"; "dst_ip4"; "dst_ip6"; "state"; "rx_queue_mapping"];
    sd_FieldTypes :=
      ["uint32_t"; "uint32_t"; "uint32_t"; "uint32_t"; "uint32_t"; "uint32_t"; "uint32_t";
       "uint32_t [4]"; "uint32_t"; "uint32_t"; "uint32_t"; "uint32_t [4]"; "uint32_t";
       "int32_t"];
    sd_Size := 80; sd_Hints := []; sd_IsStruct := true |});
  ("bpf_raw_tracepoint_args", {|
    sd_Name := "bpf_raw_tracepoint_args";
    sd_FieldNames :=
      ["args"];
    sd_FieldTypes :=
      ["uint64_t [0]"];
    sd_Size := 8; sd_Hints := []; sd_IsStruct := true |});
  ("bpf_sockopt", {|
    sd_Name := "bpf_sockopt";
    sd_FieldNames :=
      ["sk"; "optval"; "optval_end"; "level"; "optname"; "optlen"; "retval"];
    sd_FieldTypes :=
      ["struct bpf_sock*"; "void *"; "void *"; "int32_t"; "int32_t"; "int32_t"; "int32_t"];
    sd_Size := 40; sd_Hints := []; sd_IsStruct := true |});
  ("bpf_sk_lookup", {|
    sd_Name := "bpf_sk_lookup";
    sd_FieldNames :=
      ["sk"; "family"; "protocol"; "remote_ip4"; "remote_ip6"; "remote_port"; "local_ip4";
       "local_ip6"; "local_port"];
    sd_FieldTypes :=
      ["struct bpf_sock*"; "uint32_t"; "uint32_t"; "uint32_t"; "uint32_t [4]"; "uint32_t";
       "uint32_t"; "uint32_t [4]"; "uint32_t"];
    sd_Size := 64; sd_Hints := []; sd_IsStruct := true |});
  ("bpf_sock_addr", {|
    sd_Name := "bpf_sock_addr";
    sd_FieldNames :=
      ["user_family"; "user_ip4"; "user_ip6"; "user_port"; "family"; "type"; "protocol";
       "msg_src_ip4"; "msg_src_ip6"; "sk"];
    sd_FieldTypes :=
      ["uint32_t"; "uint32_t"; "uint32_t [4]"; "uint32_t"; "uint32_t"; "uint32_t";
       "uint32_t"; "uint32_t"; "uint32_t [4]"; "struct bpf_sock*"];
    sd_Size := 68; sd_Hints := []; sd_IsStruct := true |});
  ("bpf_perf_event_data", {|
    sd_Name := "bpf_perf_event_data";
    sd_FieldNames :=
      ["regs"; "sample_period"; "addr"];
    sd_FieldTypes :=
      ["struct bpf_user_pt_regs_t"; "uint64_t"; "uint64_t"];
    sd_Size := 184; sd_Hints := []; sd_IsStruct := true |});
  ("bpf_sysctl", {|
    sd_Name := "bpf_sysctl";
    sd_FieldNames :=
      ["write"; "file_pos"];
    sd_FieldTypes :=
      ["uint32_t"; "uint32_t"];
    sd_Size := 8; sd_Hints := []; sd_IsStruct := true |});
  ("xdp_md", {|
    sd_Name := "xdp_md";
    sd_FieldNames :=
      ["data"; "data_end"; "data_meta"; "ingress_ifindex"; "rx_queue_index";
       "egress_ifindex"];
    sd_FieldTypes :=
      ["uint32_t"; "uint32_t"; "uint32_t"; "uint32_t"; "uint32_t"; "uint32_t"];
    sd_Size := 24; sd_Hints := []; sd_IsStruct := true |});
  ("bpf_user_pt_regs_t", {|
    sd_Name := "bpf_user_pt_regs_t";
    sd_FieldNames :=
      ["r15"; "r14"; "r13"; "r12"; "bp"; "bx"; "r11"; "r10"; "r9"; "r8"; "ax"; "cx"; "dx";
       "si"; "di"; "orig_ax"; "ip"; "cs"; "flags"; "sp"; "ss"];
    sd_FieldTypes :=
      ["uint64_t"; "uint64_t"; "uint64_t"; "uint64_t"; "uint64_t"; "uint64_t"; "uint64_t";
       "uint64_t"; "uint64_t"; "uint64_t"; "uint64_t"; "uint64_t"; "uint64_t"; "uint64_t";
       "uint64_t"; "uint64_t"; "uint64_t"; "uint64_t"; "uint64_t"; "uint64_t"; "uint64_t"];
    sd_Size := 168; sd_Hints := []; sd_IsStruct := true |});
  ("bpf_nf_ctx", {|
    sd_Name := "bpf_nf_ctx";
    sd_FieldNames :=
      ["state"; "skb"];
    sd_FieldTypes :=
      ["void *"; "void *"];
    sd_Size := 16; sd_Hints := []; sd_IsStruct := true |})
].

Definition ca_CGROUP_SOCK_ADDR : BpfCtxAccess := {|
  regTypeMap := [("PTR_TO_SOCKET", [["offsetof"; "struct bpf_sock_addr"; "sk"; EmptyString]])];
  accesses := [
    mkAttr ["user_ip4"; "user_ip4"] true false 0 4 false true None
      ["BPF_CGROUP_INET4_BIND"; "BPF_CGROUP_INET4_CONNECT"; "BPF_CGROUP_INET4_GETPEERNAME";
       "BPF_CGROUP_INET4_GETSOCKNAME"; "BPF_CGROUP_UDP4_SENDMSG"; "BPF_CGROUP_UDP4_RECVMSG"];
    mkAttr ["user_ip6[0]"; "user_ip6[3]"] true false 0 4 true true None
      ["BPF_CGROUP_INET6_BIND"; "BPF_CGROUP_INET6_CONNECT"; "BPF_CGROUP_INET6_GETPEERNAME";
       "BPF_CGROUP_INET6_GETSOCKNAME"; "BPF_CGROUP_UDP6_SENDMSG"; "BPF_CGROUP_UDP6_RECVMSG"];
    mkAttr ["msg_src_ip4"; "msg_src_ip4"] true false 0 4 false true None
      ["BPF_CGROUP_UDP4_SENDMSG"];
    mkAttr ["msg_src_ip6[0]"; "msg_src_ip6[3]"] true false 0 4 true true None
      ["BPF_CGROUP_UDP6_SENDMSG"];
    mkAttr ["user_ip4"; "user_ip4"] false true 4 0 false false None
      ["BPF_CGROUP_INET4_BIND"; "BPF_CGROUP_INET4_CONNECT"; "BPF_CGROUP_INET4_GETPEERNAME";
       "BPF_CGROUP_INET4_GETSOCKNAME"; "BPF_CGROUP_UDP4_SENDMSG"; "BPF_CGROUP_UDP4_RECVMSG"];
    mkAttr ["user_ip6[0]"; "user_ip6[3]"] false true 4 4 true false None
      ["BPF_CGROUP_INET6_BIND"; "BPF_CGROUP_INET6_CONNECT"; "BPF_CGROUP_INET6_GETPEERNAME";
       "BPF_CGROUP_INET6_GETSOCKNAME"; "BPF_CGROUP_UDP6_SENDMSG"; "BPF_CGROUP_UDP6_RECVMSG"];
    mkAttr ["msg_src_ip4"; "msg_src_ip4"] false true 4 0 false false None
      ["BPF_CGROUP_UDP4_SENDMSG"];
    mkAttr ["msg_src_ip6[0]"; "msg_src_ip6[3]"] false true 4 4 true false None
      ["BPF_CGROUP_UDP6_SENDMSG"];
    mkAttr ["sk"] true false 8 0 false false (Some PtrToSocketRegType) [];
    mkAttr ["default"] true false 4 0 false false None []]
|}.

Definition ca_SCHED_CLS : BpfCtxAccess := {|
  regTypeMap := [("PTR_TO_SOCK_COMMON_OR_NULL", [["offsetof"; "struct __sk_buff"; "sk"; EmptyString]]);
    ("PTR_TO_PACKET", [["bpf_ctx_range"; "struct __sk_buff"; "data"; EmptyString]]);
    ("PTR_TO_PACKET_META", [["bpf_ctx_range"; "struct __sk_buff"; "data_meta"; EmptyString]]);
    ("PTR_TO_PACKET_END", [["bpf_ctx_range"; "struct __sk_buff"; "data_end"; EmptyString]])];
  accesses := [
    mkAttr ["family"; "local_port"] false false 0 0 false false None [];
    mkAttr ["mark"; "mark"] false true 4 0 false false None [];
    mkAttr ["mark"; "mark"] true false 0 4 false true None [];
    mkAttr ["tc_index"; "tc_index"] false true 4 0 false false None [];
    mkAttr ["tc_index"; "tc_index"] true false 0 4 false true None [];
    mkAttr ["priority"; "priority"] false true 4 0 false false None [];
    mkAttr ["priority"; "priority"] true false 0 4 false true None [];
    mkAttr ["tc_classid"; "tc_classid"] false true 4 0 false false None [];
    mkAttr ["tc_classid"; "tc_classid"] true false 0 4 false true None [];
    mkAttr ["queue_mapping"; "queue_mapping"] false true 4 0 false false None [];
    mkAttr ["queue_mapping"; "queue_mapping"] true false 0 4 false true None [];
    mkAttr ["cb[0]"; "cb[4]"] true true 0 0 false false None [];
    mkAttr ["remote_ip6[0]"; "remote_ip6[3]"] true true 4 0 false false None [];
    mkAttr ["local_ip6[0]"; "local_ip6[3]"] true true 4 0 false false None [];
    mkAttr ["remote_ip4"; "remote_ip4"] true true 4 0 false false None [];
    mkAttr ["data"; "data"] true true 4 0 false false (Some PtrToPacketRegType) [];
    mkAttr ["data_meta"; "data_meta"] true true 4 0 false false (Some PtrToPacketMetaRegType) [];
    mkAttr ["data_end"; "data_end"] true true 4 0 false false (Some PtrToPacketEndRegType) [];
    mkAttr ["flow_keys"; "flow_keys"] false false 0 0 false false None [];
    mkAttr ["tstamp"; "tstamp"] true true 8 0 false false None [];
    mkAttr ["sk"] true false 8 0 false false (Some PtrToSockCommonRegType) [];
    mkAttr ["default"] false true 4 0 false false None [];
    mkAttr ["default"] true false 0 4 false true None []]
|}.

Definition ca_SCHED_ACT : BpfCtxAccess := {|
  regTypeMap := [("PTR_TO_SOCK_COMMON_OR_NULL", [["offsetof"; "struct __sk_buff"; "sk"; EmptyString]]);
    ("PTR_TO_PACKET", [["bpf_ctx_range"; "struct __sk_buff"; "data"; EmptyString]]);
    ("PTR_TO_PACKET_META", [["bpf_ctx_range"; "struct __sk_buff"; "data_meta"; EmptyString]]);
    ("PTR_TO_PACKET_END", [["bpf_ctx_range"; "struct __sk_buff"; "data_end"; EmptyString]])];
  accesses := [
    mkAttr ["family"; "local_port"] false false 0 0 false false None [];
    mkAttr ["mark"; "mark"] false true 4 0 false false None [];
    mkAttr ["mark"; "mark"] true false 0 4 false true None [];
    mkAttr ["tc_index"; "tc_index"] false true 4 0 false false None [];
    mkAttr ["tc_index"; "tc_index"] true false 0 4 false true None [];
    mkAttr ["priority"; "priority"] false true 4 0 false false None [];
    mkAttr ["priority"; "priority"] true false 0 4 false true None [];
    mkAttr ["tc_classid"; "tc_classid"] false true 4 0 false false None [];
    mkAttr ["tc_classid"; "tc_classid"] true false 0 4 false true None [];
    mkAttr ["queue_mapping"; "queue_mapping"] false true 4 0 false false None [];
    mkAttr ["queue_mapping"; "queue_mapping"] true false 0 4 false true None [];
    mkAttr ["cb[0]"; "cb[4]"] true true 0 0 false false None [];
    mkAttr ["remote_ip6[0]"; "remote_ip6[3]"] true true 4 0 false false None [];
    mkAttr ["local_ip6[0]"; "local_ip6[3]"] true true 4 0 false false None [];
    mkAttr ["remote_ip4"; "remote_ip4"] true true 4 0 false false None [];
    mkAttr ["data"; "data"] true true 4 0 false false (Some PtrToPacketRegType) [];
    mkAttr ["data_meta"; "data_meta"] true true 4 0 false false (Some PtrToPacketMetaRegType) [];
    mkAttr ["data_end"; "data_end"] true true 4 0 false false (Some PtrToPacketEndRegType) [];
    mkAttr ["flow_keys"; "flow_keys"] false false 0 0 false false None [];
    mkAttr ["tstamp"; "tstamp"] true true 8 0 false false None [];
    mkAttr ["sk"] true false 8 0 false false (Some PtrToSockCommonRegType) [];
    mkAttr ["default"] false true 4 0 false false None [];
    mkAttr ["default"] true false 0 4 false true None []]
|}.

Definition ca_LWT_OUT : BpfCtxAccess := {|
  regTypeMap := [("PTR_TO_PACKET", [["bpf_ctx_range"; "struct __sk_buff"; "data"; EmptyString]]);
    ("PTR_TO_PACKET_END", [["bpf_ctx_range"; "struct __sk_buff"; "data_end"; EmptyString]]);
    ("PTR_TO_SOCK_COMMON_OR_NULL", [["offsetof"; "struct __sk_buff"; "sk"; EmptyString]])];
  accesses := [
    mkAttr ["tc_classid"] false false 0 0 false false None [];
    mkAttr ["family"; "local_port"] false false 0 0 false false None [];
    mkAttr ["data_meta"] false false 0 0 false false None [];
    mkAttr ["tstamp"] false false 0 0 false false None [];
    mkAttr ["wire_len"] false false 0 0 false false None [];
    mkAttr ["mark"] true true 0 0 false false None [];
    mkAttr ["priority"] true true 0 0 false false None [];
    mkAttr ["cb[0]"; "cb[4]"] true true 0 0 false false None [];
    mkAttr ["remote_ip6[0]"; "remote_ip6[3]"] true true 4 0 false false None [];
    mkAttr ["local_ip6[0]"; "local_ip6[3]"] true true 4 0 false false None [];
    mkAttr ["remote_ip4"; "remote_ip4"] true true 4 0 false false None [];
    mkAttr ["data"] true true 4 0 false false (Some PtrToPacketRegType) [];
    mkAttr ["data_meta"] true true 4 0 false false None [];
    mkAttr ["data_end"] true true 4 0 false false (Some PtrToPacketEndRegType) [];
    mkAttr ["flow_keys"] false false 0 0 false false None [];
    mkAttr ["tstamp"] true true 8 0 false false None [];
    mkAttr ["sk"] true false 8 0 false false (Some PtrToSockCommonRegType) [];
    mkAttr ["default"] false true 4 0 false false None [];
    mkAttr ["default"] true false 0 4 false true None []]
|}.

Definition ca_LWT_XMIT : BpfCtxAccess := {|
  regTypeMap := [("PTR_TO_PACKET", [["bpf_ctx_range"; "struct __sk_buff"; "data"; EmptyString]]);
    ("PTR_TO_PACKET_END", [["bpf_ctx_range"; "struct __sk_buff"; "data_end"; EmptyString]]);
    ("PTR_TO_SOCK_COMMON_OR_NULL", [["offsetof"; "struct __sk_buff"; "sk"; EmptyString]])];
  accesses := [
    mkAttr ["tc_classid"] false false 0 0 false false None [];
    mkAttr ["family"; "local_port"] false false 0 0 false false None [];
    mkAttr ["data_meta"] false false 0 0 false false None [];
    mkAttr ["tstamp"] false false 0 0 false false None [];
    mkAttr ["wire_len"] false false 0 0 false false None [];
    mkAttr ["mark"] true true 0 0 false false None [];
    mkAttr ["priority"] true true 0 0 false false None [];
    mkAttr ["cb[0]"; "cb[4]"] true true 0 0 false false None [];
    mkAttr ["remote_ip6[0]"; "remote_ip6[3]"] true true 4 0 false false None [];
    mkAttr ["local_ip6[0]"; "local_ip6[3]"] true true 4 0 false false None [];
    mkAttr ["remote_ip4"; "remote_ip4"] true true 4 0 false false None [];
    mkAttr ["data"; "data"] true true 4 0 false false (Some PtrToPacketRegType) [];
    mkAttr ["data_meta"; "data_meta"] true true 4 0 false false None [];
    mkAttr ["data_end"; "data_end"] true true 4 0 false false (Some PtrToPacketEndRegType) [];
    mkAttr ["flow_keys"; "flow_keys"] false false 0 0 false false None [];
    mkAttr ["tstamp"; "tstamp"] true true 8 0 false false None [];
    mkAttr ["sk"] true false 8 0 false false (Some PtrToSockCommonRegType) [];
    mkAttr ["default"] false true 4 0 false false None [];
    mkAttr ["default"] true false 0 4 false true None []]
|}.

Definition ca_PERF_EVENT : BpfCtxAccess := {|
  regTypeMap := [];
  accesses := [
    mkAttr ["sample_period"; "sample_period"] true false 0 8 false true None [];
    mkAttr ["addr"; "addr"] true false 0 8 false true None [];
    mkAttr ["default"] true false 4 0 false false None []]
|}.

Definition ca_KPROBE : BpfCtxAccess := {|
  regTypeMap := [];
  accesses := [
    mkAttr ["default"] true false 0 0 false false None []]
|}.

Definition ca_TRACEPOINT : BpfCtxAccess := {|
  regTypeMap := [];
  accesses := [
    mkAttr ["default"] true false 0 0 false false None []]
|}.

Definition ca_RAW_TRACEPOINT_WRITABLE : BpfCtxAccess := {|
  regTypeMap := [];
  accesses := [
    mkAttr ["default"] true false 0 0 false false None []]
|}.

Definition ca_RAW_TRACEPOINT : BpfCtxAccess := {|
  regTypeMap := [];
  accesses := [
    mkAttr ["default"] true false 0 0 false false None []]
|}.

Definition ca_TRACING : BpfCtxAccess := {|
  regTypeMap := [];
  accesses := [
    mkAttr ["default"] true false 0 0 false false None []]
|}.

Definition ca_CGROUP_SYSCTL : BpfCtxAccess := {|
  regTypeMap := [];
  accesses := [
    mkAttr ["write"] true false 0 4 false true None [];
    mkAttr ["file_pos"] true false 0 4 false true None [];
    mkAttr ["file_pos"] false true 4 0 false false None [];
    mkAttr ["default"] false false 0 0 false false None []]
|}.

Definition ca_XDP : BpfCtxAccess := {|
  regTypeMap := [("PTR_TO_PACKET", [["offsetof"; "struct xdp_md"; "data"; EmptyString]]);
    ("PTR_TO_PACKET_META", [["offsetof"; "struct xdp_md"; "data_meta"; EmptyString]]);
    ("PTR_TO_PACKET_END", [["offsetof"; "struct xdp_md"; "data_end"; EmptyString]])];
  accesses := [
    mkAttr ["data"] true false 4 0 false false (Some PtrToPacketRegType) [];
    mkAttr ["data_meta"] true false 4 0 false false (Some PtrToPacketMetaRegType) [];
    mkAttr ["data_end"] true false 4 0 false false (Some PtrToPacketEndRegType) [];
    mkAttr ["rx_queue_index"] true true 4 0 false false None [];
    mkAttr ["default"] true false 4 0 false false None []]
|}.

Definition ca_LIRC_MODE2 : BpfCtxAccess := {|
  regTypeMap := [];
  accesses := [
    mkAttr ["default"] true false 4 0 false false None []]
|}.

Definition ca_SK_REUSEPORT : BpfCtxAccess := {|
  regTypeMap := [("PTR_TO_PACKET_END", [["offsetof"; "struct sk_reuseport_md"; "data_end"; EmptyString]]);
    ("PTR_TO_SOCKET", [["offsetof"; "struct sk_reuseport_md"; "sk"; EmptyString]]);
    ("PTR_TO_SOCK_COMMON_OR_NULL", [["offsetof"; "struct sk_reuseport_md"; "migrating_sk"; EmptyString]]);
    ("PTR_TO_PACKET", [["offsetof"; "struct sk_reuseport_md"; "data"; EmptyString]])];
  accesses := [
    mkAttr ["data"] true false 8 0 false false (Some PtrToPacketRegType) [];
    mkAttr ["data_end"] true false 8 0 false false (Some PtrToPacketEndRegType) [];
    mkAttr ["hash"] true false 4 0 false false None [];
    mkAttr ["sk"; "sk"] true false 8 0 false false (Some PtrToSocketRegType) [];
    mkAttr ["migrating_sk"; "migrating_sk"] true false 8 0 false false (Some PtrToSockCommonRegType) [];
    mkAttr ["eth_protocol"; "eth_protocol"] true false 0 4 false true None [];
    mkAttr ["ip_protocol"; "ip_protocol"] true false 0 4 false true None [];
    mkAttr ["bind_inany"; "bind_inany"] true false 0 4 false true None [];
    mkAttr ["len"; "len"] true false 0 4 false true None [];
    mkAttr ["default"] false false 0 0 false false None []]
|}.

Definition ca_SOCK_OPS : BpfCtxAccess := {|
  regTypeMap := [("PTR_TO_SOCKET_OR_NULL", [["offsetof"; "struct bpf_sock_ops"; "sk"; EmptyString]]);
    ("PTR_TO_PACKET", [["offsetof"; "struct bpf_sock_ops"; "skb_data"; EmptyString]]);
    ("PTR_TO_PACKET_END", [["offsetof"; "struct bpf_sock_ops"; "skb_data_end"; EmptyString]])];
  accesses := [
    mkAttr ["args[0]"; "args[0]"] false true 4 0 false false None [];
    mkAttr ["sk_txhash"] false true 4 0 false false None [];
    mkAttr ["bytes_received"; "bytes_acked"] true false 8 0 false false None [];
    mkAttr ["sk"] true false 8 0 false false (Some PtrToSocketRegType) [];
    mkAttr ["skb_data"] true false 8 0 false false (Some PtrToPacketRegType) [];
    mkAttr ["skb_data_end"] true false 8 0 false false (Some PtrToPacketEndRegType) [];
    mkAttr ["default"] true false 4 0 false false None []]
|}.

Definition ca_CGROUP_SKB : BpfCtxAccess := {|
  regTypeMap := [("PTR_TO_SOCK_COMMON_OR_NULL", [["offsetof"; "struct __sk_buff"; "sk"; EmptyString]]);
    ("PTR_TO_PACKET", [["bpf_ctx_range"; "struct __sk_buff"; "data"; EmptyString]]);
    ("PTR_TO_PACKET_END", [["bpf_ctx_range"; "struct __sk_buff"; "data_end"; EmptyString]])];
  accesses := [
    mkAttr ["tc_classid"] false false 0 0 false false None [];
    mkAttr ["data_meta"] false false 0 0 false false None [];
    mkAttr ["wire_len"] false false 0 0 false false None [];
    mkAttr ["mark"] true true 0 0 false false None [];
    mkAttr ["priority"] true true 0 0 false false None [];
    mkAttr ["cb[0]"; "cb[4]"] true true 0 0 false false None [];
    mkAttr ["remote_ip6[0]"; "remote_ip6[3]"] true true 4 0 false false None [];
    mkAttr ["local_ip6[0]"; "local_ip6[3]"] true true 4 0 false false None [];
    mkAttr ["remote_ip4"; "remote_ip4"] true true 4 0 false false None [];
    mkAttr ["data"; "data"] true true 4 0 false false (Some PtrToPacketRegType) [];
    mkAttr ["data_meta"; "data_meta"] true true 4 0 false false None [];
    mkAttr ["data_end"; "data_end"] true true 4 0 false false (Some PtrToPacketEndRegType) [];
    mkAttr ["flow_keys"; "flow_keys"] false false 0 0 false false None [];
    mkAttr ["tstamp"; "tstamp"] true true 8 0 false false None [];
    mkAttr ["sk"] true false 8 0 false false (Some PtrToSockCommonRegType) [];
    mkAttr ["default"] false true 4 0 false false None [];
    mkAttr ["default"] true false 0 4 false true None []]
|}.

Definition ca_CGROUP_SOCK : BpfCtxAccess := {|
  regTypeMap := [];
  accesses := [
    mkAttr ["state"] true false 0 4 false true None [];
    mkAttr ["family"] true false 0 4 false true None [];
    mkAttr ["type"] true false 0 4 false true None [];
    mkAttr ["protocol"] true false 0 4 false true None [];
    mkAttr ["dst_port"] true false 0 4 false true None [];
    mkAttr ["src_port"] true false 0 4 false true None [];
    mkAttr ["rx_queue_mapping"] true false 0 4 false true None [];
    mkAttr ["src_ip4"; "src_ip4"] true false 0 4 false true None
      ["BPF_CGROUP_INET4_POST_BIND"];
    mkAttr ["src_ip6[0]"; "src_ip6[3]"] true false 0 4 false true None
      ["BPF_CGROUP_INET6_POST_BIND"];
    mkAttr ["dst_ip4"; "dst_ip4"] false false 0 4 false true None [];
    mkAttr ["dst_ip6[0]"; "dst_ip6[3]"] false false 0 4 false true None [];
    mkAttr ["bound_dev_if"] true true 0 4 false false None
      ["BPF_CGROUP_INET_SOCK_CREATE"; "BPF_CGROUP_INET_SOCK_RELEASE"];
    mkAttr ["mark"] true true 0 4 false false None
      ["BPF_CGROUP_INET_SOCK_CREATE"; "BPF_CGROUP_INET_SOCK_RELEASE"];
    mkAttr ["priority"] true true 0 4 false false None
      ["BPF_CGROUP_INET_SOCK_CREATE"; "BPF_CGROUP_INET_SOCK_RELEASE"];
    mkAttr ["src_port"] true false 0 4 false false None
      ["BPF_CGROUP_INET4_POST_BIND"; "BPF_CGROUP_INET6_POST_BIND"];
    mkAttr ["default"] true false 0 4 false false None []]
|}.

Definition ca_LWT_IN : BpfCtxAccess := {|
  regTypeMap := [("PTR_TO_PACKET", [["bpf_ctx_range"; "struct __sk_buff"; "data"; EmptyString]]);
    ("PTR_TO_PACKET_END", [["bpf_ctx_range"; "struct __sk_buff"; "data_end"; EmptyString]]);
    ("PTR_TO_SOCK_COMMON_OR_NULL", [["offsetof"; "struct __sk_buff"; "sk"; EmptyString]])];
  accesses := [
    mkAttr ["tc_classid"] false false 0 0 false false None [];
    mkAttr ["family"; "local_port"] false false 0 0 false false None [];
    mkAttr ["data_meta"] false false 0 0 false false None [];
    mkAttr ["tstamp"] false false 0 0 false false None [];
    mkAttr ["wire_len"] false false 0 0 false false None [];
    mkAttr ["mark"] true true 0 0 false false None [];
    mkAttr ["priority"] true true 0 0 false false None [];
    mkAttr ["cb[0]"; "cb[4]"] true true 0 0 false false None [];
    mkAttr ["remote_ip6[0]"; "remote_ip6[3]"] true true 4 0 false false None [];
    mkAttr ["local_ip6[0]"; "local_ip6[3]"] true true 4 0 false false None [];
    mkAttr ["remote_ip4"; "remote_ip4"] true true 4 0 false false None [];
    mkAttr ["data"; "data"] true true 4 0 false false (Some PtrToPacketRegType) [];
    mkAttr ["data_meta"; "data_meta"] true true 4 0 false false None [];
    mkAttr ["data_end"; "data_end"] true true 4 0 false false (Some PtrToPacketEndRegType) [];
    mkAttr ["flow_keys"; "flow_keys"] false false 0 0 false false None [];
    mkAttr ["tstamp"; "tstamp"] true true 8 0 false false None [];
    mkAttr ["sk"] true false 8 0 false false (Some PtrToSockCommonRegType) [];
    mkAttr ["default"] false true 4 0 false false None [];
    mkAttr ["default"] true false 0 4 false true None []]
|}.

Definition ca_LWT_SEG6LOCAL : BpfCtxAccess := {|
  regTypeMap := [("PTR_TO_PACKET_END", [["bpf_ctx_range"; "struct __sk_buff"; "data_end"; EmptyString]]);
    ("PTR_TO_PACKET", [["bpf_ctx_range"; "struct __sk_buff"; "data"; EmptyString]]);
    ("PTR_TO_SOCK_COMMON_OR_NULL", [["offsetof"; "struct __sk_buff"; "sk"; EmptyString]])];
  accesses := [
    mkAttr ["tc_classid"] false false 0 0 false false None [];
    mkAttr ["family"; "local_port"] false false 0 0 false false None [];
    mkAttr ["data_meta"] false false 0 0 false false None [];
    mkAttr ["tstamp"] false false 0 0 false false None [];
    mkAttr ["wire_len"] false false 0 0 false false None [];
    mkAttr ["mark"] true true 0 0 false false None [];
    mkAttr ["priority"] true true 0 0 false false None [];
    mkAttr ["cb[0]"; "cb[4]"] true true 0 0 false false None [];
    mkAttr ["remote_ip6[0]"; "remote_ip6[3]"] true true 4 0 false false None [];
    mkAttr ["local_ip6[0]"; "local_ip6[3]"] true true 4 0 false false None [];
    mkAttr ["remote_ip4"; "remote_ip4"] true true 4 0 false false None [];
    mkAttr ["data"; "data"] true true 4 0 false false (Some PtrToPacketRegType) [];
    mkAttr ["data_meta"; "data_meta"] true true 4 0 false false None [];
    mkAttr ["data_end"; "data_end"] true true 4 0 false false (Some PtrToPacketEndRegType) [];
    mkAttr ["flow_keys"; "flow_keys"] false false 0 0 false false None [];
    mkAttr ["tstamp"; "tstamp"] true true 8 0 false false None [];
    mkAttr ["sk"] true false 8 0 false false (Some PtrToSockCommonRegType) [];
    mkAttr ["default"] false true 4 0 false false None [];
    mkAttr ["default"] true false 0 4 false true None []]
|}.

Definition ca_SK_SKB : BpfCtxAccess := {|
  regTypeMap := [("PTR_TO_PACKET", [["bpf_ctx_range"; "struct __sk_buff"; "data"; EmptyString]]);
    ("PTR_TO_PACKET_END", [["bpf_ctx_range"; "struct __sk_buff"; "data_end"; EmptyString]]);
    ("PTR_TO_SOCK_COMMON_OR_NULL", [["offsetof"; "struct __sk_buff"; "sk"; EmptyString]])];
  accesses := [
    mkAttr ["tc_classid"; "tc_classid"] false false 0 0 false false None [];
    mkAttr ["data_meta"; "data_meta"] false false 0 0 false false None [];
    mkAttr ["tstamp"; "tstamp"] false false 0 0 false false None [];
    mkAttr ["wire_len"; "wire_len"] false false 0 0 false false None [];
    mkAttr ["tc_index"; "tc_index"] false true 0 0 false false None [];
    mkAttr ["priority"; "priority"] false true 0 0 false false None [];
    mkAttr ["mark"; "mark"] false false 0 0 false false None [];
    mkAttr ["cb[0]"; "cb[4]"] true false 0 0 false false None [];
    mkAttr ["remote_ip6[0]"; "remote_ip6[3]"] true false 4 0 false false None [];
    mkAttr ["local_ip6[0]"; "local_ip6[3]"] true false 4 0 false false None [];
    mkAttr ["remote_ip4"; "remote_ip4"] true false 4 0 false false None [];
    mkAttr ["data"; "data"] true false 4 0 false false (Some PtrToPacketRegType) [];
    mkAttr ["data_end"; "data_end"] true false 4 0 false false (Some PtrToPacketEndRegType) [];
    mkAttr ["flow_keys"; "flow_keys"] false false 0 0 false false None [];
    mkAttr ["tstamp"; "tstamp"] true false 8 0 false false None [];
    mkAttr ["sk"] true false 8 0 false false (Some PtrToSockCommonRegType) [];
    mkAttr ["default"] false true 4 0 false false None [];
    mkAttr ["default"] true false 0 4 false true None []]
|}.

Definition ca_SK_MSG : BpfCtxAccess := {|
  regTypeMap := [("PTR_TO_PACKET", [["offsetof"; "struct sk_msg_md"; "data"; EmptyString]]);
    ("PTR_TO_PACKET_END", [["offsetof"; "struct sk_msg_md"; "data_end"; EmptyString]]);
    ("PTR_TO_SOCKET", [["offsetof"; "struct sk_msg_md"; "sk"; EmptyString]])];
  accesses := [
    mkAttr ["data"; "data"] true false 8 0 false false (Some PtrToPacketRegType) [];
    mkAttr ["data_end"; "data_end"] true false 8 0 false false (Some PtrToPacketEndRegType) [];
    mkAttr ["sk"] true false 8 0 false false (Some PtrToSocketRegType) [];
    mkAttr ["family"; "family"] true false 4 0 false false None [];
    mkAttr ["remote_ip4"; "remote_ip4"] true false 4 0 false false None [];
    mkAttr ["local_ip4"; "local_ip4"] true false 4 0 false false None [];
    mkAttr ["remote_ip6[0]"; "remote_ip6[3]"] true false 4 0 false false None [];
    mkAttr ["local_ip6[0]"; "local_ip6[3]"] true false 4 0 false false None [];
    mkAttr ["remote_port"; "remote_port"] true false 4 0 false false None [];
    mkAttr ["local_port"; "local_port"] true false 4 0 false false None [];
    mkAttr ["size"; "size"] true false 4 0 false false None [];
    mkAttr ["default"] false false 0 0 false false None []]
|}.

Definition ca_FLOW_DISSECTOR : BpfCtxAccess := {|
  regTypeMap := [("PTR_TO_PACKET", [["bpf_ctx_range"; "struct __sk_buff"; "data"; EmptyString]]);
    ("PTR_TO_PACKET_END", [["bpf_ctx_range"; "struct __sk_buff"; "data_end"; EmptyString]]);
    ("PTR_TO_FLOW_KEYS", [["bpf_ctx_range_ptr"; "struct __sk_buff"; "flow_keys"; EmptyString]])];
  accesses := [
    mkAttr ["data"; "data"] true false 4 0 false false (Some PtrToPacketRegType) [];
    mkAttr ["data_end"; "data_end"] true false 4 0 false false (Some PtrToPacketEndRegType) [];
    mkAttr ["flow_keys"; "flow_keys"] true false 4 0 false false (Some PtrToFlowKeysRegType) [];
    mkAttr ["default"] false false 0 0 false false None []]
|}.

Definition ca_SOCKET_FILTER : BpfCtxAccess := {|
  regTypeMap := [("PTR_TO_SOCK_COMMON_OR_NULL", [["offsetof"; "struct __sk_buff"; "sk"; EmptyString]])];
  accesses := [
    mkAttr ["tc_classid"; "tc_classid"] false false 0 0 false false None [];
    mkAttr ["data"; "data"] false false 0 0 false false None [];
    mkAttr ["data_meta"; "data_meta"] false false 0 0 false false None [];
    mkAttr ["data_end"; "data_end"] false false 0 0 false false None [];
    mkAttr ["family"; "local_port"] false false 0 0 false false None [];
    mkAttr ["tstamp"; "tstamp"] false false 0 0 false false None [];
    mkAttr ["wire_len"; "wire_len"] false false 0 0 false false None [];
    mkAttr ["cb[0]"; "cb[4]"] true true 0 0 false false None [];
    mkAttr ["remote_ip6[0]"; "remote_ip6[3]"] true false 4 0 false false None [];
    mkAttr ["local_ip6[0]"; "local_ip6[3]"] true false 4 0 false false None [];
    mkAttr ["remote_ip4"; "remote_ip4"] true false 4 0 false false None [];
    mkAttr ["flow_keys"; "flow_keys"] false false 0 0 false false None [];
    mkAttr ["sk"] true false 8 0 false false (Some PtrToSockCommonRegType) [];
    mkAttr ["default"] true false 0 4 false true None []]
|}.

Definition ca_CGROUP_DEVICE : BpfCtxAccess := {|
  regTypeMap := [];
  accesses := [
    mkAttr ["access_type"; "access_type"] true false 0 4 false true None [];
    mkAttr ["default"] true false 4 0 false false None []]
|}.

Definition ca_CGROUP_SOCKOPT : BpfCtxAccess := {|
  regTypeMap := [("PTR_TO_SOCKET", [["offsetof"; "struct bpf_sockopt"; "sk"; EmptyString]]);
    ("PTR_TO_PACKET", [["offsetof"; "struct bpf_sockopt"; "optval"; EmptyString]]);
    ("PTR_TO_PACKET_END", [["offsetof"; "struct bpf_sockopt"; "optval_end"; EmptyString]])];
  accesses := [
    mkAttr ["retval"] false true 4 0 false false None
      ["BPF_CGROUP_GETSOCKOPT"];
    mkAttr ["optname"] false true 4 0 false false None
      ["BPF_CGROUP_SETSOCKOPT"];
    mkAttr ["level"] false true 4 0 false false None
      ["BPF_CGROUP_SETSOCKOPT"];
    mkAttr ["optlen"] false true 4 0 false false None [];
    mkAttr ["sk"; "sk"] true false 8 0 false false (Some PtrToSocketRegType) [];
    mkAttr ["optval"; "optval"] true false 8 0 false false (Some PtrToPacketRegType) [];
    mkAttr ["optval_end"; "optval_end"] true false 8 0 false false (Some PtrToPacketEndRegType) [];
    mkAttr ["retval"; "retval"] true false 4 0 false false None
      ["BPF_CGROUP_GETSOCKOPT"];
    mkAttr ["default"] true false 4 0 false false None []]
|}.

Definition ca_SK_LOOKUP : BpfCtxAccess := {|
  regTypeMap := [("PTR_TO_SOCKET_OR_NULL", [["offsetof"; "struct bpf_sk_lookup"; "sk"; EmptyString]])];
  accesses := [
    mkAttr ["family"; "family"] true false 0 4 false true None [];
    mkAttr ["protocol"; "protocol"] true false 0 4 false true None [];
    mkAttr ["remote_ip4"; "remote_ip4"] true false 0 4 false true None [];
    mkAttr ["local_ip4"; "local_ip4"] true false 0 4 false true None [];
    mkAttr ["remote_ip6[0]"; "remote_ip6[3]"] true false 0 4 false true None [];
    mkAttr ["local_ip6[0]"; "local_ip6[3]"] true false 0 4 false true None [];
    mkAttr ["remote_port"; "remote_port"] true false 0 4 false true None [];
    mkAttr ["local_port"; "local_port"] true false 0 4 false true None [];
    mkAttr ["default"] false false 0 0 false false None []]
|}.

Definition ca_NETFILTER : BpfCtxAccess := {|
  regTypeMap := [("PTR_TO_BTF_ID", [["offsetof"; "struct bpf_nf_ctx"; "state"; "struct nf_hook_state"]; ["offsetof"; "struct bpf_nf_ctx"; "skb"; "struct sk_buff"]])];
  accesses := [
    mkAttr ["state"; "state"] true false 8 0 false false (Some PtrToBtfIdRegType) [];
    mkAttr ["skb"; "skb"] true false 8 0 false false (Some PtrToBtfIdRegType) []]
|}.

Definition ca_SYSCALL : BpfCtxAccess := {|
  regTypeMap := [];
  accesses := [
    mkAttr ["default"] true true 0 0 false false None []]
|}.

Definition ca_LSM : BpfCtxAccess := {|
  regTypeMap := [];
  accesses := [
    mkAttr ["default"] true false 0 0 false false None []]
|}.

Definition ca_STRUCT_OPS : BpfCtxAccess := {|
  regTypeMap := [];
  accesses := [
    mkAttr ["default"] true false 0 0 false false None [];
    mkAttr ["snd_burst"; "snd_burst"] false true 4 0 false false None [];
    mkAttr ["avg_pacing_rate"; "avg_pacing_rate"] false true 8 0 false false None []]
|}.

Definition CtxAccessMap : list (BpfProgTypeEnum * BpfCtxAccess) := [
  (BPF_PROG_TYPE_CGROUP_SOCK_ADDR, ca_CGROUP_SOCK_ADDR);
  (BPF_PROG_TYPE_SCHED_CLS, ca_SCHED_CLS);
  (BPF_PROG_TYPE_SCHED_ACT, ca_SCHED_ACT);
  (BPF_PROG_TYPE_LWT_OUT, ca_LWT_OUT);
  (BPF_PROG_TYPE_LWT_XMIT, ca_LWT_XMIT);
  (BPF_PROG_TYPE_PERF_EVENT, ca_PERF_EVENT);
  (BPF_PROG_TYPE_KPROBE, ca_KPROBE);
  (BPF_PROG_TYPE_TRACEPOINT, ca_TRACEPOINT);
  (BPF_PROG_TYPE_RAW_TRACEPOINT_WRITABLE, ca_RAW_TRACEPOINT_WRITABLE);
  (BPF_PROG_TYPE_RAW_TRACEPOINT, ca_RAW_TRACEPOINT);
  (BPF_PROG_TYPE_TRACING, ca_TRACING);
  (BPF_PROG_TYPE_CGROUP_SYSCTL, ca_CGROUP_SYSCTL);
  (BPF_PROG_TYPE_XDP, ca_XDP);
  (BPF_PROG_TYPE_LIRC_MODE2, ca_LIRC_MODE2);
  (BPF_PROG_TYPE_SK_REUSEPORT, ca_SK_REUSEPORT);
  (BPF_PROG_TYPE_SOCK_OPS, ca_SOCK_OPS);
  (BPF_PROG_TYPE_CGROUP_SKB, ca_CGROUP_SKB);
  (BPF_PROG_TYPE_CGROUP_SOCK, ca_CGROUP_SOCK);
  (BPF_PROG_TYPE_LWT_IN, ca_LWT_IN);
  (BPF_PROG_TYPE_LWT_SEG6LOCAL, ca_LWT_SEG6LOCAL);
  (BPF_PROG_TYPE_SK_SKB, ca_SK_SKB);
  (BPF_PROG_TYPE_SK_MSG, ca_SK_MSG);
  (BPF_PROG_TYPE_FLOW_DISSECTOR, ca_FLOW_DISSECTOR);
  (BPF_PROG_TYPE_SOCKET_FILTER, ca_SOCKET_FILTER);
  (BPF_PROG_TYPE_CGROUP_DEVICE, ca_CGROUP_DEVICE);
  (BPF_PROG_TYPE_CGROUP_SOCKOPT, ca_CGROUP_SOCKOPT);
  (BPF_PROG_TYPE_SK_LOOKUP, ca_SK_LOOKUP);
  (BPF_PROG_TYPE_NETFILTER, ca_NETFILTER);
  (BPF_PROG_TYPE_SYSCALL, ca_SYSCALL);
  (BPF_PROG_TYPE_LSM, ca_LSM);
  (BPF_PROG_TYPE_STRUCT_OPS, ca_STRUCT_OPS)
].
