(* ===== verification/BpfInit.v ===== *)
(** * Initialisation of the BPF program generator

    [getHelper], [getHelpers], [fieldIdx], [getCtxAccessAttr] and [InitFromSrc]
    of [prog/brf_legacy.go]: the tables are completed once, before programs are
    generated.  [InitFromSrc] changes every program type and the context access
    it points to, and nothing else, so the order in which the Go map is iterated
    does not matter; a nil dereference or a bad index is [Panic]. *)

From stdpp Require Import base numbers strings list.
From S2P Require Import Prelude BpfTypes BpfHelperTable BpfProgTable BpfCtxTable.

Local Open Scope string_scope.
Local Open Scope list_scope.
Local Open Scope nat_scope.

(** [pt.getHelper(e)]: the first helper with the number [e]. *)
Definition getHelper (pt : BpfProgType) (e : BpfHelperEnum) : option BpfHelper :=
  list_find (λ h, h_Enum h = e) (pt_Helpers pt) ≫= λ ih, Some ih.2.

(** [pt.getHelpers(es)] and [p.getBpfHelpers(es)]: the helpers with a number of
    [es], a helper as often as its number is listed. *)
Definition getHelpers (pt : BpfProgType) (es : list BpfHelperEnum) : list BpfHelper :=
  h ← pt_Helpers pt; omap (λ e, if bool_decide (h_Enum h = e) then Some h else None) es.

(** [sd.fieldIdx(f)]: the index of a field, an array element counting as its
    array; [None] is the nil pointer. *)
Definition fieldName (f : string) : string :=
  if bool_decide (String.substring (String.length f - 1) 1 f = "]")
  then String.substring 0 (String.length f - 3) f else f.

Definition fieldIdx (sd : option StructDef) (f : string) : res Z :=
  if bool_decide (f = EmptyString) then Panic
  else
    match sd with
    | None => Panic
    | Some sd =>
        match list_find (λ n, n = fieldName f) (sd_FieldNames sd) with
        | Some (i, _) => Ret (Z.of_nat i)
        | None => Ret (-1)%Z
        end
    end.

(** The two comparisons of [getCtxAccessAttr] with a field range. *)
Definition inRange (sd : option StructDef) (lo hi : string) (idx : Z) : res bool :=
  match fieldIdx sd lo with
  | Ret l =>
      if bool_decide (l ≤ idx)%Z then
        match fieldIdx sd hi with
        | Ret h => Ret (bool_decide (idx ≤ h)%Z)
        | Panic => Panic
        | NoFuel => NoFuel
        end
      else Ret false
  | Panic => Panic
  | NoFuel => NoFuel
  end.

(** [getCtxAccessAttr]: the first attribute that covers a field, with the code
    the caller distinguishes (1: exactly this field, 2: a range, -1: none). *)
Fixpoint getCtxAccessAttr (sd : option StructDef) (accs : list BpfCtxAccessAttr)
    (idx : Z) (isWrite : bool) : res (option BpfCtxAccessAttr * Z) :=
  match accs with
  | [] => Ret (None, (-1)%Z)
  | fi :: accs =>
      let isDefault (range0 : string) :=
        if bool_decide (range0 = "default") && bool_decide (canWrite fi = isWrite)
        then Ret (Some fi, 2%Z) else getCtxAccessAttr sd accs idx isWrite in
      match rangeInCtx fi with
      | [] => Panic
      | [f] =>
          match fieldIdx sd f with
          | Ret i =>
              if bool_decide (i = idx) && bool_decide (canWrite fi = isWrite)
              then Ret (Some fi, 1%Z) else isDefault f
          | Panic => Panic
          | NoFuel => NoFuel
          end
      | [lo; hi] =>
          match inRange sd lo hi idx with
          | Ret b =>
              if b && bool_decide (canWrite fi = isWrite)
              then Ret (Some fi, if bool_decide (lo = hi) then 1%Z else 2%Z) else isDefault lo
          | Panic => Panic
          | NoFuel => NoFuel
          end
      | f :: _ => isDefault f
      end
  end.

(** The loop of [InitFromSrc] that registers helpers: one per number. *)
Fixpoint registerHelpers (hMap : list (string * BpfHelper)) (protos : list string)
    (registered : list BpfHelperEnum) (helpers : list BpfHelper) : res (list BpfHelper) :=
  match protos with
  | [] => Ret helpers
  | proto :: protos =>
      match assoc proto hMap with
      | None => Panic
      | Some h =>
          if bool_decide (h_Enum h ∈ registered)
          then registerHelpers hMap protos registered helpers
          else registerHelpers hMap protos (h_Enum h :: registered) (helpers ++ [h])
      end
  end.

(** The attribute recorded for a field: the one found, narrowed to the field when
    it was a range, or an empty one. *)
Definition fieldAttr (f : string) (found : option BpfCtxAccessAttr * Z) : BpfCtxAccessAttr :=
  match found with
  | (Some a, code) =>
      if bool_decide (code = 2)%Z then
        mkAttr [f; f] (canRead a) (canWrite a) (attr_size a) (defaultSize a)
          (wideAccess a) (narrowAccess a) (attr_regType a) (attachTypes a)
      else a
  | (None, _) => mkAttr [f; f] false false 0 0 false false None []
  end.

(** The loop over the fields of the context struct. *)
Fixpoint fieldAccesses (sd : option StructDef) (accs : list BpfCtxAccessAttr)
    (i : Z) (fields : list string) : res (list BpfCtxAccessAttr) :=
  match fields with
  | [] => Ret []
  | f :: fields =>
      match getCtxAccessAttr sd accs i false with
      | Ret rd =>
          match getCtxAccessAttr sd accs i true with
          | Ret wr =>
              match fieldAccesses sd accs (i + 1) fields with
              | Ret l => Ret (fieldAttr f rd :: fieldAttr f wr :: l)
              | Panic => Panic
              | NoFuel => NoFuel
              end
          | Panic => Panic
          | NoFuel => NoFuel
          end
      | Panic => Panic
      | NoFuel => NoFuel
      end
  end.

(** [len(pt.User) > 6 && pt.User[0:6] == "struct"]. *)
Definition userIsStruct (user : string) : bool :=
  bool_decide (6 < String.length user) && bool_decide (String.substring 0 6 user = "struct").

(** [pt.User[7:len(pt.User)]]. *)
Definition userStruct (user : string) : string :=
  String.substring 7 (String.length user - 7) user.

(** The body of the loop of [InitFromSrc] for one program type. *)
Definition initProgType (hMap : list (string * BpfHelper))
    (caMap : list (BpfProgTypeEnum * BpfCtxAccess)) (name : BpfProgTypeEnum)
    (pt : BpfProgType) : res BpfProgType :=
  match registerHelpers hMap (pt_FuncProtos pt) [] (pt_Helpers pt) with
  | Ret helpers =>
      let ca := assoc name caMap in
      let isS := userIsStruct (pt_User pt) in
      let sd := if isS then assoc (userStruct (pt_User pt)) ctxStructsMap else None in
      let ctxStructName := if isS then userStruct (pt_User pt) else pt_User pt in
      let upd c := mkProgType (pt_Name pt) (pt_User pt) (pt_Kern pt) (pt_Enum pt)
                     (pt_SecDefs pt) (pt_FuncProtos pt) helpers c in
      match assoc ctxStructName ctxStructsMap with
      | None => Ret (upd ca)
      | Some ctxStruct =>
          match ca with
          | None => Panic
          | Some ca =>
              match fieldAccesses sd (accesses ca) 0 (sd_FieldNames ctxStruct) with
              | Ret accs => Ret (upd (Some (mkCtxAccess (regTypeMap ca) accs)))
              | Panic => Panic
              | NoFuel => NoFuel
              end
          end
      end
  | Panic => Panic
  | NoFuel => NoFuel
  end.

Fixpoint InitFromSrc (hMap : list (string * BpfHelper))
    (ptMap : list (BpfProgTypeEnum * BpfProgType))
    (caMap : list (BpfProgTypeEnum * BpfCtxAccess)) :
    res (list (BpfProgTypeEnum * BpfProgType)) :=
  match ptMap with
  | [] => Ret []
  | (name, pt) :: ptMap =>
      match initProgType hMap caMap name pt, InitFromSrc hMap ptMap caMap with
      | Ret pt, Ret l => Ret ((name, pt) :: l)
      | NoFuel, _ | _, NoFuel => NoFuel
      | _, _ => Panic
      end
  end.

(** [l[i]] with Go's bounds check. *)
Definition indexZ {A} (l : list A) (i : Z) : res A :=
  if bool_decide (i < 0)%Z then Panic
  else match l !! Z.to_nat i with Some x => Ret x | None => Panic end.

(** The head of [genRandBpfCtxAccess]: the context field that can provide a
    register of the type named [rt], [None] when the loop continues. *)
Definition ctxField (pt : BpfProgType) (rt : string) : res (option string) :=
  match pt_ctxAccess pt with
  | None => Panic
  | Some ca =>
      let ranges := match assoc rt (regTypeMap ca) with
                    | Some r => Some r
                    | None => assoc (rt +:+ "_OR_NULL") (regTypeMap ca)
                    end in
      match ranges with
      | None => Ret None
      | Some ((_ :: _ :: field :: _) :: _) =>
          if userIsStruct (pt_User pt) then
            match fieldIdx (assoc (userStruct (pt_User pt)) ctxStructsMap) field with
            | Ret i =>
                match indexZ (accesses ca) (i * 2), indexZ (accesses ca) (i * 2 + 1) with
                | Ret rd, Ret wr =>
                    Ret (if canRead rd || canWrite wr then Some field else None)
                | _, _ => Panic
                end
            | Panic => Panic
            | NoFuel => NoFuel
            end
          else
            let isDefault a := bool_decide (rangeInCtx a !! 0 = Some "default") in
            match last (filter isDefault (accesses ca)) with
            | Some a => Ret (if canRead a || canWrite a then Some field else None)
            | None => Ret None
            end
      | Some _ => Panic
      end
  end.

(** ** Reference definition of the registration *)

(** The first helper of each number. *)
Fixpoint firstPerEnum (hs : list BpfHelper) : list BpfHelper :=
  match hs with
  | [] => []
  | h :: hs => h :: filter (λ h', h_Enum h' ≠ h_Enum h) (firstPerEnum hs)
  end.

Lemma firstPerEnum_elem hs h : h ∈ firstPerEnum hs → h ∈ hs.
Proof.
  induction hs as [|x hs IH]; simpl; [done|].
  intros [->|[_ Hin]%list_elem_of_filter]%elem_of_cons; [left|right; by apply IH].
Qed.

Lemma firstPerEnum_complete hs h : h ∈ hs → ∃ h', h' ∈ firstPerEnum hs ∧ h_Enum h' = h_Enum h.
Proof.
  induction hs as [|x hs IH]; [by intros ?%not_elem_of_nil|]. simpl.
  intros [->|Hin]%elem_of_cons; [exists x; split; [left|done]|].
  destruct (IH Hin) as (h' & Hh' & He).
  destruct (decide (h_Enum h' = h_Enum x)) as [Hx|Hx]; [exists x; split; [left|congruence]|].
  exists h'. split; [right; by apply list_elem_of_filter|done].
Qed.

Lemma NoDup_fmap_filter {A B} (f : A → B) (P : A → Prop) `{∀ x, Decision (P x)} l :
  NoDup (f <$> l) → NoDup (f <$> filter P l).
Proof.
  induction l as [|x l IH]; [done|]. rewrite fmap_cons, NoDup_cons. intros [Hx Hl].
  rewrite filter_cons. case_decide; [|by apply IH].
  rewrite fmap_cons. constructor; [|by apply IH].
  intros (y & Hy & Hin)%list_elem_of_fmap. apply list_elem_of_filter in Hin as [_ Hin].
  apply Hx. rewrite Hy. by apply list_elem_of_fmap_2.
Qed.

Lemma firstPerEnum_NoDup hs : NoDup (h_Enum <$> firstPerEnum hs).
Proof.
  induction hs as [|x hs IH]; simpl; [constructor|]. constructor.
  - intros (y & Hy & [Hne _]%list_elem_of_filter)%list_elem_of_fmap. congruence.
  - by apply NoDup_fmap_filter.
Qed.

Lemma registerHelpers_spec hMap protos hs registered helpers :
  mapM (λ p, assoc p hMap) protos = Some hs →
  registerHelpers hMap protos registered helpers =
  Ret (helpers ++ filter (λ h, h_Enum h ∉ registered) (firstPerEnum hs)).
Proof.
  revert hs registered helpers. induction protos as [|p protos IH]; intros hs registered helpers; simpl.
  { intros [= <-]. simpl. by rewrite app_nil_r. }
  intros (h & Hp & Hm)%bind_Some. apply bind_Some in Hm as (hs' & Hm & [= <-]). rewrite Hp.
  simpl. case_bool_decide as Hin.
  - rewrite (IH hs') by done. rewrite filter_cons_False by (intros Hx; by apply Hx).
    f_equal. f_equal. rewrite list_filter_filter. apply list_filter_iff. intros x.
    split; [|tauto]. intros Hx. split; [done|]. congruence.
  - rewrite (IH hs'), filter_cons_True, <- app_assoc by done. f_equal. f_equal. simpl. f_equal.
    rewrite list_filter_filter. apply list_filter_iff. intros x. rewrite elem_of_cons. tauto.
Qed.

Definition isRet {A} (r : res A) : bool := match r with Ret _ => true | _ => false end.

(** What holds of a program type after initialisation, as a check. *)
Definition ptReady (e : BpfProgTypeEnum * BpfProgType) : bool :=
  let '(name, pt) := e in
  bool_decide (pt_Enum pt = name) &&
  (bool_decide (name = BPF_PROG_TYPE_STRUCT_OPS) || bool_decide (pt_Helpers pt ≠ [])) &&
  forallb (λ rt, isRet (ctxField pt (regTypeString rt))) regTypes_all.

(** The tables of the source pass the check. *)
Lemma tables_ready :
  match InitFromSrc HelperFuncMap ProgTypeMap CtxAccessMap with
  | Ret l => forallb ptReady l && bool_decide (l.*1 = ProgTypeMap.*1)
  | _ => false
  end = true.
Proof. vm_compute. reflexivity. Qed.

Lemma InitFromSrc_elem hMap ptMap caMap l name pt :
  InitFromSrc hMap ptMap caMap = Ret l → (name, pt) ∈ l →
  ∃ pt0, (name, pt0) ∈ ptMap ∧ initProgType hMap caMap name pt0 = Ret pt.
Proof.
  revert l. induction ptMap as [|[n p] ptMap IH]; intros l; simpl.
  { intros [= <-] Hin%not_elem_of_nil. done. }
  destruct (initProgType hMap caMap n p) as [p'| |] eqn:Hp; [|by destruct (InitFromSrc _ _ _)..].
  destruct (InitFromSrc hMap ptMap caMap) as [l'| |] eqn:Hl; [|done..].
  intros [= <-] [[= -> ->]|Hin]%elem_of_cons.
  - exists p. split; [left|done].
  - destruct (IH l' eq_refl Hin) as (pt0 & Hin0 & Hi). exists pt0. split; [by right|done].
Qed.

Lemma initProgType_helpers hMap caMap name pt pt' :
  initProgType hMap caMap name pt = Ret pt' →
  registerHelpers hMap (pt_FuncProtos pt) [] (pt_Helpers pt) = Ret (pt_Helpers pt').
Proof.
  unfold initProgType. destruct (registerHelpers _ _ _ _) as [hs| |]; [|done..]. intros H. f_equal.
  destruct (assoc (if userIsStruct (pt_User pt) then _ else _) ctxStructsMap);
    [|by injection H as <-].
  destruct (assoc name caMap); [|done].
  destruct (fieldAccesses _ _ _ _); [|done..]. by injection H as <-.
Qed.

Lemma registerHelpers_bound hMap protos registered helpers hs :
  registerHelpers hMap protos registered helpers = Ret hs →
  ∃ l, mapM (λ p, assoc p hMap) protos = Some l.
Proof.
  revert registered helpers. induction protos as [|p protos IH]; intros registered helpers; simpl.
  { eauto. }
  destruct (assoc p hMap) as [h|] eqn:Hp; [|done]. intros H. simpl.
  assert (∃ l, mapM (λ p, assoc p hMap) protos = Some l) as [l ->]
    by (case_bool_decide; eauto). simpl. eauto.
Qed.

Lemma ProgTypeMap_fresh : Forall (λ e, pt_Helpers e.2 = []) ProgTypeMap.
Proof. repeat constructor. Qed.

Lemma init_helpers_NoDup pts name pt :
  InitFromSrc HelperFuncMap ProgTypeMap CtxAccessMap = Ret pts → (name, pt) ∈ pts →
  NoDup (h_Enum <$> pt_Helpers pt).
Proof.
  intros Hi Hin. destruct (InitFromSrc_elem _ _ _ _ _ _ Hi Hin) as (pt0 & Hin0 & Hpt).
  pose proof ProgTypeMap_fresh as Hf. rewrite Forall_forall in Hf. specialize (Hf _ Hin0).
  clear Hi Hin Hin0. apply initProgType_helpers in Hpt. cbn [snd] in Hf. rewrite Hf in Hpt.
  destruct (registerHelpers_bound _ _ _ _ _ Hpt) as [l Hl].
  rewrite (registerHelpers_spec _ _ _ _ _ Hl) in Hpt. injection Hpt as <-.
  apply NoDup_fmap_filter, firstPerEnum_NoDup.
Qed.

(** ** Properties *)

(** C25: the start-up of the generator on the tables of the source succeeds: every
    prototype a program type lists is in the helper table, every context struct
    has an access table, and afterwards each program type except the struct_ops
    one has a helper to start a program with; its helpers have distinct numbers,
    and reading a context field for any register type stays within the access
    table. *)
Theorem init_succeeds :
  ∃ pts, InitFromSrc HelperFuncMap ProgTypeMap CtxAccessMap = Ret pts ∧
    pts.*1 = ProgTypeMap.*1 ∧
    ∀ name pt, (name, pt) ∈ pts →
      pt_Enum pt = name ∧
      (name ≠ BPF_PROG_TYPE_STRUCT_OPS → pt_Helpers pt ≠ []) ∧
      NoDup (h_Enum <$> pt_Helpers pt) ∧
      ∀ rt, ∃ f, ctxField pt (regTypeString rt) = Ret f.
Proof.
  pose proof tables_ready as H. destruct (InitFromSrc _ _ _) as [pts| |] eqn:Hi;
    [|discriminate H..].
  assert (Hnd := λ name pt, init_helpers_NoDup pts name pt Hi). clear Hi.
  apply andb_true_iff in H as [H Hk]. exists pts. split; [done|].
  split; [by apply bool_decide_eq_true in Hk|]. intros name pt Hin.
  specialize (Hnd name pt Hin).
  rewrite forallb_forall in H. apply list_elem_of_In, H in Hin.
  apply andb_true_iff in Hin as [[Hn Hh]%andb_true_iff Hr]. split_and!.
  - by apply bool_decide_eq_true in Hn.
  - intros Hne. apply orb_true_iff in Hh as [Hh|Hh]; by apply bool_decide_eq_true in Hh.
  - done.
  - intros rt. rewrite forallb_forall in Hr. specialize (Hr rt).
    specialize (Hr (proj1 (list_elem_of_In _ _) (regTypes_all_elem rt))).
    destruct (ctxField pt (regTypeString rt)); by eauto.
Qed.

(** The registration loop keeps, for every prototype list over any helper
    table, exactly the first prototype of each helper number, in order: numbers
    are unique afterwards, each listed prototype has its number registered, and
    nothing else is registered. *)
Theorem register_first_of_each (hMap : list (string * BpfHelper)) (protos : list string)
    (hs : list BpfHelper) :
  mapM (λ p, assoc p hMap) protos = Some hs →
  registerHelpers hMap protos [] [] = Ret (firstPerEnum hs) ∧
  NoDup (h_Enum <$> firstPerEnum hs) ∧
  (∀ h, h ∈ firstPerEnum hs → h ∈ hs) ∧
  (∀ h, h ∈ hs → ∃ h', h' ∈ firstPerEnum hs ∧ h_Enum h' = h_Enum h).
Proof.
  intros Hm. split_and!.
  - rewrite (registerHelpers_spec hMap protos hs) by done. simpl. f_equal.
    clear Hm. induction (firstPerEnum hs) as [|h l IH]; [done|].
    rewrite filter_cons_True by apply not_elem_of_nil. by rewrite IH.
  - apply firstPerEnum_NoDup.
  - intros h. apply firstPerEnum_elem.
  - intros h. apply firstPerEnum_complete.
Qed.

Lemma register_first_of_each_witness :
  registerHelpers HelperFuncMap
    ["bpf_get_socket_cookie_proto"; "bpf_get_socket_cookie_sock_proto"; "bpf_ktime_get_ns_proto"]
    [] [] =
  Ret (firstPerEnum (omap (λ p, assoc p HelperFuncMap)
    ["bpf_get_socket_cookie_proto"; "bpf_get_socket_cookie_sock_proto"; "bpf_ktime_get_ns_proto"])).
Proof. apply register_first_of_each. vm_compute. reflexivity. Defined.
