(* ===== verification/BpfRegTypes.v ===== *)
(** * Register types of an argument

    [genCompatibleRegTypes] of [prog/brf_legacy.go] picks the register types an
    argument may have.  It removes entries from a slice that it takes from the
    global table [compatibleRegType], so the removal happens in the backing array
    that all argument types with the same list share, and stays there for every
    later call.  The model keeps these arrays in a store; a slice is the array's
    name and a length. *)

From stdpp Require Import base numbers strings list.
From S2P Require Import Prelude BpfTypes BpfHelperTable.

Local Open Scope string_scope.
Local Open Scope list_scope.
Local Open Scope nat_scope.

(** The global arrays. *)
Inductive RegArray :=
  | map_key_value_types | scalar_types | const_map_ptr_types | context_types | sock_types
  | btf_id_sock_common_types | fullsock_types | btf_ptr_types | spin_lock_types | mem_types
  | alloc_mem_types | int_ptr_types | percpu_btf_ptr_types | func_ptr_types
  | stack_ptr_types | const_str_ptr_types | timer_types | all_types.

#[global] Instance regArray_eq_dec : EqDecision RegArray.
Proof. solve_decision. Defined.

Definition initArray (a : RegArray) : list RegType :=
  match a with
  | map_key_value_types | int_ptr_types =>
      [PtrToStackRegType; PtrToPacketRegType; PtrToPacketMetaRegType; PtrToMapKeyRegType;
       PtrToMapValueRegType]
  | scalar_types => [ScalarValRegType]
  | const_map_ptr_types => [ConstPtrToMapRegType]
  | context_types => [PtrToCtxRegType]
  | sock_types =>
      [PtrToSockCommonRegType; PtrToSocketRegType; PtrToTcpSockRegType; PtrToXdpSockRegType]
  | btf_id_sock_common_types =>
      [PtrToSockCommonRegType; PtrToSocketRegType; PtrToTcpSockRegType; PtrToXdpSockRegType;
       PtrToBtfIdRegType]
  | fullsock_types => [PtrToSocketRegType]
  | btf_ptr_types => [PtrToBtfIdRegType]
  | spin_lock_types => [PtrToMapValueRegType]
  | mem_types =>
      [PtrToStackRegType; PtrToPacketRegType; PtrToPacketMetaRegType; PtrToMapKeyRegType;
       PtrToMapValueRegType; PtrToMemRegType; PtrToRdOnlyBufRegType; PtrToRdWrBufRegType]
  | alloc_mem_types => [PtrToMemRegType]
  | percpu_btf_ptr_types => [PtrToPercpuBtfIdRegType]
  | func_ptr_types => [PtrToFuncRegType]
  | stack_ptr_types => [PtrToStackRegType]
  | const_str_ptr_types => [PtrToMapValueRegType]
  | timer_types => [PtrToMapValueRegType]
  | all_types => regTypes_all
  end.

Definition compatibleRegType : list (string * RegArray) := [
  ("ARG_ANYTHING", all_types);
  ("ARG_PTR_TO_MAP_KEY", map_key_value_types);
  ("ARG_PTR_TO_MAP_VALUE", map_key_value_types);
  ("ARG_PTR_TO_UNINIT_MAP_VALUE", map_key_value_types);
  ("ARG_PTR_TO_MAP_VALUE_OR_NULL", map_key_value_types);
  ("ARG_CONST_SIZE", scalar_types);
  ("ARG_CONST_SIZE_OR_ZERO", scalar_types);
  ("ARG_CONST_ALLOC_SIZE_OR_ZERO", scalar_types);
  ("ARG_CONST_MAP_PTR", const_map_ptr_types);
  ("ARG_PTR_TO_CTX", context_types);
  ("ARG_PTR_TO_CTX_OR_NULL", context_types);
  ("ARG_PTR_TO_SOCK_COMMON", sock_types);
  ("ARG_PTR_TO_BTF_ID_SOCK_COMMON", btf_id_sock_common_types);
  ("ARG_PTR_TO_SOCKET", fullsock_types);
  ("ARG_PTR_TO_SOCKET_OR_NULL", fullsock_types);
  ("ARG_PTR_TO_BTF_ID", btf_ptr_types);
  ("ARG_PTR_TO_BTF_ID_OR_NULL", btf_ptr_types);
  ("ARG_PTR_TO_SPIN_LOCK", spin_lock_types);
  ("ARG_PTR_TO_MEM", mem_types);
  ("ARG_PTR_TO_MEM_OR_NULL", mem_types);
  ("ARG_PTR_TO_UNINIT_MEM", mem_types);
  ("ARG_PTR_TO_FIXED_SIZE_MEM", mem_types);
  ("ARG_PTR_TO_ALLOC_MEM", alloc_mem_types);
  ("ARG_PTR_TO_ALLOC_MEM_OR_NULL", alloc_mem_types);
  ("ARG_PTR_TO_INT", int_ptr_types);
  ("ARG_PTR_TO_LONG", int_ptr_types);
  ("ARG_PTR_TO_PERCPU_BTF_ID", percpu_btf_ptr_types);
  ("ARG_PTR_TO_FUNC", func_ptr_types);
  ("ARG_PTR_TO_STACK_OR_NULL", stack_ptr_types);
  ("ARG_PTR_TO_CONST_STR", const_str_ptr_types);
  ("ARG_PTR_TO_TIMER", timer_types)
].

(** ** Packet access *)

Definition PktPtrReadOnly : list BpfProgTypeEnum :=
  [BPF_PROG_TYPE_LWT_IN; BPF_PROG_TYPE_LWT_OUT; BPF_PROG_TYPE_LWT_SEG6LOCAL;
   BPF_PROG_TYPE_SK_REUSEPORT; BPF_PROG_TYPE_FLOW_DISSECTOR; BPF_PROG_TYPE_CGROUP_SKB].

Definition PktPtrReadWrite : list BpfProgTypeEnum :=
  [BPF_PROG_TYPE_SCHED_CLS; BPF_PROG_TYPE_SCHED_ACT; BPF_PROG_TYPE_XDP;
   BPF_PROG_TYPE_LWT_XMIT; BPF_PROG_TYPE_SK_SKB; BPF_PROG_TYPE_SK_MSG].

Definition PktPtrReadWriteNoCheck : list BpfProgTypeEnum := [BPF_PROG_TYPE_CGROUP_SOCKOPT].

Definition checkPktAccess (e : BpfProgTypeEnum) (h : BpfHelper) (isWrite : bool) : bool :=
  let check (canWrite : bool) := if negb canWrite && isWrite then false else h_PktAccess h in
  if bool_decide (e ∈ PktPtrReadOnly) then check false
  else if bool_decide (e ∈ PktPtrReadWrite) then check true
  else bool_decide (e ∈ PktPtrReadWriteNoCheck).

(** The [CheckAccess] methods. *)
Definition CheckAccess (t : RegType) (e : BpfProgTypeEnum) (h : BpfHelper) (isWrite : bool) : bool :=
  match t with
  | PtrToPacketRegType | PtrToPacketMetaRegType => checkPktAccess e h isWrite
  | PtrToPacketEndRegType | PtrToPercpuBtfIdRegType | PtrToFuncRegType => false
  | PtrToSocketRegType | PtrToSockCommonRegType | PtrToTcpSockRegType | PtrToXdpSockRegType
  | PtrToRdOnlyBufRegType | PtrToMapKeyRegType => negb isWrite
  | ScalarValRegType | PtrToCtxRegType | ConstPtrToMapRegType | PtrToMapValueRegType
  | PtrToStackRegType | PtrToFlowKeysRegType | PtrToTpBufferRegType | PtrToBtfIdRegType
  | PtrToMemRegType | PtrToRdWrBufRegType => true
  end.

(** ** The store of arrays *)

Definition Store := RegArray → list RegType.

Definition setArray (st : Store) (a : RegArray) (l : list RegType) : Store :=
  λ a', if bool_decide (a' = a) then l else st a'.

(** A slice that starts at the beginning of its array; [None] is nil. *)
Record Slice := mkSlice { sl_array : option RegArray; sl_len : nat }.

Definition sliceElems (st : Store) (s : Slice) : list RegType :=
  match sl_array s with
  | Some a => take (sl_len s) (st a)
  | None => []
  end.

(** [append(s[0:i], s[i+1:]...)] on a slice of length [len] over [arr]: the tail
    moves down one place in the array, the slot at the end keeps its value. *)
Definition removeAt (arr : list RegType) (len i : nat) : list RegType :=
  take i arr ++ drop (S i) (take len arr) ++ drop (len - 1) arr.

(** [for i, t := range s { if bad(t) { s = append(s[0:i], s[i+1:]...) } }]: the
    range goes over the places of the original slice and reads the array as it is
    then; [len] is the length of the shrinking slice. *)
Fixpoint rangeRemove (bad : RegType → bool) (todo i : nat) (arr : list RegType) (len : nat) :
    res (list RegType * nat) :=
  match todo with
  | O => Ret (arr, len)
  | S todo =>
      match arr !! i with
      | None => Panic
      | Some t =>
          if bad t then
            if bool_decide (S i ≤ len)
            then rangeRemove bad todo (S i) (removeAt arr len i) (len - 1)
            else Panic
          else rangeRemove bad todo (S i) arr len
      end
  end.

Definition isUninit (argType : string) : bool :=
  bool_decide (argType = "ARG_PTR_TO_UNINIT_MAP_VALUE") ||
  bool_decide (argType = "ARG_PTR_TO_UNINIT_MEM").

Definition isPacketReg (t : RegType) : bool :=
  bool_decide (regTypeString t = "PTR_TO_PACKET") ||
  bool_decide (regTypeString t = "PTR_TO_PACKET_META").

(** The BTF type an argument must have, empty when there is none. *)
Definition argBtfId (h : BpfHelper) (argType : string) : string :=
  if bool_decide (argType = "ARG_PTR_TO_BTF_ID") || bool_decide (argType = "ARG_PTR_TO_BTF_ID_OR_NULL")
  then match h_ArgBtfIds h with b :: _ => b | [] => EmptyString end
  else if bool_decide (argType = "ARG_PTR_TO_BTF_ID_SOCK_COMMON") then "struct sock_common"
  else EmptyString.

(** [genCompatibleRegTypes] for a program of type [e], a call of [h] and its
    argument [arg]. *)
Definition genCompatibleRegTypes (st : Store) (e : BpfProgTypeEnum) (h : BpfHelper) (arg : nat) :
    res (Store * Slice * string) :=
  match h_Args h !! arg with
  | None => Panic
  | Some argType =>
      match assoc argType compatibleRegType with
      | None => Ret (st, mkSlice None 0, argBtfId h argType)
      | Some a =>
          let arr := st a in
          let n := length (initArray a) in
          let loop1 :=
            if isUninit argType
            then rangeRemove (λ t, negb (CheckAccess t e h true)) n 0 arr n
            else Ret (arr, n) in
          match loop1 with
          | Ret (arr, n) =>
              let loop2 :=
                if checkPktAccess e h false then Ret (arr, n)
                else rangeRemove isPacketReg n 0 arr n in
              match loop2 with
              | Ret (arr, n) => Ret (setArray st a arr, mkSlice (Some a) n, argBtfId h argType)
              | Panic => Panic
              | NoFuel => NoFuel
              end
          | Panic => Panic
          | NoFuel => NoFuel
          end
      end
  end.

(** The stores that calls of [genCompatibleRegTypes] can lead to. *)
Inductive storeReachable : Store → Prop :=
  | store_init : storeReachable initArray
  | store_step st e h arg st' s b :
      storeReachable st → genCompatibleRegTypes st e h arg = Ret (st', s, b) → storeReachable st'.

(** What the two loops are written to compute. *)
Definition intendedRegTypes (e : BpfProgTypeEnum) (h : BpfHelper) (argType : string) : list RegType :=
  match assoc argType compatibleRegType with
  | None => []
  | Some a =>
      filter (λ t, (isUninit argType = true → CheckAccess t e h true = true) ∧
                   (checkPktAccess e h false = false → isPacketReg t = false)) (initArray a)
  end.

(** ** Lemmas *)

(** From its last element on, the array holds copies of one element that no loop
    removes. *)
Definition tailIs (z : RegType) (arr : list RegType) (len : nat) : Prop :=
  1 ≤ len ≤ length arr ∧ ∀ j, len - 1 ≤ j < length arr → arr !! j = Some z.

Lemma removeAt_length arr len i :
  i < len ≤ length arr → length (removeAt arr len i) = length arr.
Proof.
  intros H. unfold removeAt. rewrite !length_app, length_drop, !length_take, length_drop. lia.
Qed.

Lemma removeAt_tail z arr len i :
  tailIs z arr len → S i < len → tailIs z (removeAt arr len i) (len - 1).
Proof.
  intros [Hl Ht] Hi. split; [rewrite removeAt_length by lia; lia|].
  rewrite removeAt_length by lia. intros j Hj. unfold removeAt.
  rewrite lookup_app_r by (rewrite length_take; lia).
  rewrite length_take, Nat.min_l by lia.
  destruct (decide (j < len - 1)).
  - rewrite lookup_app_l by (rewrite length_drop, length_take; lia).
    rewrite lookup_drop, lookup_take_lt by lia. apply Ht. lia.
  - rewrite lookup_app_r by (rewrite length_drop, length_take; lia).
    rewrite length_drop, length_take, lookup_drop. apply Ht. lia.
Qed.

Lemma removeAt_incl arr len i t : t ∈ removeAt arr len i → t ∈ arr.
Proof.
  unfold removeAt. rewrite !elem_of_app.
  intros [H|[H%subseteq_drop|H]];
    [by apply subseteq_take in H|by apply subseteq_take in H|by apply subseteq_drop in H].
Qed.

(** The loop neither panics nor empties the slice when the last element stays. *)
Lemma rangeRemove_spec bad z todo i arr len :
  tailIs z arr len → bad z = false → i + todo ≤ length arr →
  ∃ arr' len', rangeRemove bad todo i arr len = Ret (arr', len') ∧
    tailIs z arr' len' ∧ length arr' = length arr ∧ len' ≤ len ∧ (∀ t, t ∈ arr' → t ∈ arr).
Proof.
  revert i arr len. induction todo as [|todo IH]; intros i arr len Ht Hz Hi; simpl.
  { exists arr, len. by split_and!. }
  destruct (lookup_lt_is_Some_2 arr i) as [t Hti]; [lia|]. rewrite Hti.
  destruct (bad t) eqn:Hb.
  - assert (Hlt : S i < len).
    { destruct (decide (S i < len)) as [|Hn]; [done|]. pose proof Ht as [Hlen Hall].
      rewrite Hall in Hti by lia. congruence. }
    rewrite bool_decide_true by lia. pose proof Ht as [Hlen _].
    destruct (IH (S i) (removeAt arr len i) (len - 1)) as (arr' & len' & -> & H1 & H2 & H3 & H4);
      [by apply removeAt_tail|done|rewrite removeAt_length; lia|].
    rewrite removeAt_length in H2 by lia.
    exists arr', len'. split_and!; [done|done|done|lia|]. intros x Hx. eapply removeAt_incl; eauto.
  - apply IH; [done|done|lia].
Qed.

(** The last entry of each array is one that no loop removes from it. *)
Definition lastReg (a : RegArray) : RegType :=
  default ScalarValRegType (last (initArray a)).

Lemma initArray_last a : tailIs (lastReg a) (initArray a) (length (initArray a)).
Proof.
  destruct a; (split; [simpl; lia|]); intros j Hj; simpl in Hj |- *;
    match type of Hj with _ ≤ j < ?n =>
      replace j with (n - 1) by lia; reflexivity end.
Qed.

Lemma lastReg_kept a : isPacketReg (lastReg a) = false.
Proof. by destruct a. Qed.

Lemma lastReg_writable argType a e h :
  assoc argType compatibleRegType = Some a → isUninit argType = true →
  CheckAccess (lastReg a) e h true = true.
Proof.
  unfold isUninit. intros Ha [H|H]%orb_true_iff; apply bool_decide_eq_true in H; subst;
    by injection Ha as <-.
Qed.

(** Invariant of the store: the arrays keep their length and their last entry,
    and get no new register types. *)
Definition storeOK (st : Store) : Prop :=
  ∀ a, length (st a) = length (initArray a) ∧
    tailIs (lastReg a) (st a) (length (initArray a)) ∧ (∀ t, t ∈ st a → t ∈ initArray a).

Lemma initArray_OK : storeOK initArray.
Proof. intros a. split_and!; [done|apply initArray_last|done]. Qed.

Lemma setArray_OK st a l :
  storeOK st → length l = length (initArray a) →
  tailIs (lastReg a) l (length (initArray a)) → (∀ t, t ∈ l → t ∈ initArray a) →
  storeOK (setArray st a l).
Proof. intros HO ? ? ? a'. unfold setArray. case_bool_decide; subst; [done|apply HO]. Qed.

Lemma tailIs_weaken z arr len n :
  tailIs z arr len → len ≤ n ≤ length arr → tailIs z arr n.
Proof. intros [H Ht] Hn. split; [lia|]. intros j Hj. apply Ht. lia. Qed.

Lemma genCompatibleRegTypes_spec st e h arg argType a :
  storeOK st → h_Args h !! arg = Some argType → assoc argType compatibleRegType = Some a →
  ∃ st' s, genCompatibleRegTypes st e h arg = Ret (st', s, argBtfId h argType) ∧
    storeOK st' ∧ sliceElems st' s ≠ [] ∧ (∀ t, t ∈ sliceElems st' s → t ∈ initArray a).
Proof.
  intros HO Harg Ha. unfold genCompatibleRegTypes. rewrite Harg, Ha. simpl.
  destruct (HO a) as (Hlen & Htail & Hincl). set (n := length (initArray a)) in *.
  assert (H1 : ∃ arr1 n1, (if isUninit argType
      then rangeRemove (λ t, negb (CheckAccess t e h true)) n 0 (st a) n
      else Ret (st a, n)) = Ret (arr1, n1) ∧ tailIs (lastReg a) arr1 n1 ∧
      length arr1 = n ∧ n1 ≤ n ∧ (∀ t, t ∈ arr1 → t ∈ initArray a)).
  { destruct (isUninit argType) eqn:Hu; [|by exists (st a), n; split_and!].
    destruct (rangeRemove_spec (λ t, negb (CheckAccess t e h true)) (lastReg a) n 0 (st a) n)
      as (arr1 & n1 & ? & ? & ? & ? & Hi); [done|by rewrite (lastReg_writable argType)|lia|].
    exists arr1, n1. split_and!; try done; [lia|]. eauto. }
  destruct H1 as (arr1 & n1 & -> & Ht1 & Hl1 & Hn1 & Hi1).
  assert (H2 : ∃ arr2 n2, (if checkPktAccess e h false then Ret (arr1, n1)
      else rangeRemove isPacketReg n1 0 arr1 n1) = Ret (arr2, n2) ∧ tailIs (lastReg a) arr2 n2 ∧
      length arr2 = n ∧ n2 ≤ n ∧ (∀ t, t ∈ arr2 → t ∈ initArray a)).
  { destruct (checkPktAccess e h false); [by exists arr1, n1; split_and!|].
    destruct (rangeRemove_spec isPacketReg (lastReg a) n1 0 arr1 n1)
      as (arr2 & n2 & ? & ? & ? & ? & Hi); [done|by rewrite lastReg_kept|lia|].
    exists arr2, n2. split_and!; try done; [lia|lia|]. eauto. }
  destruct H2 as (arr2 & n2 & -> & Ht2 & Hl2 & Hn2 & Hi2).
  exists (setArray st a arr2), (mkSlice (Some a) n2). split; [done|].
  unfold sliceElems. cbn [sl_array sl_len].
  assert (Hset : setArray st a arr2 a = arr2) by (unfold setArray; by rewrite bool_decide_true).
  rewrite Hset. split_and!.
  - apply setArray_OK; try done. eapply tailIs_weaken; [done|]. fold n. lia.
  - destruct Ht2 as [Hr _]. intros H0%(f_equal length). rewrite length_take in H0. simpl in H0. lia.
  - intros t Ht%subseteq_take. by apply Hi2.
Qed.

Lemma genCompatibleRegTypes_OK st e h arg st' s b :
  storeOK st → genCompatibleRegTypes st e h arg = Ret (st', s, b) → storeOK st'.
Proof.
  intros HO H. destruct (h_Args h !! arg) as [argType|] eqn:Harg.
  2:{ unfold genCompatibleRegTypes in H. by rewrite Harg in H. }
  destruct (assoc argType compatibleRegType) as [a|] eqn:Ha.
  - destruct (genCompatibleRegTypes_spec st e h arg argType a) as (st1 & s1 & H1 & HO1 & _); try done.
    rewrite H in H1. by injection H1 as -> _ _.
  - unfold genCompatibleRegTypes in H. rewrite Harg, Ha in H. by injection H as <- _ _.
Qed.

Lemma storeReachable_OK st : storeReachable st → storeOK st.
Proof.
  induction 1 as [|st e h arg st' s b _ IH Hs]; [apply initArray_OK|].
  by eapply genCompatibleRegTypes_OK.
Qed.

Lemma helper_args_known :
  forallb (λ ph, forallb (λ a, bool_decide (is_Some (assoc a compatibleRegType))) (h_Args ph.2))
    HelperFuncMap = true.
Proof. vm_compute. reflexivity. Qed.

Lemma helper_arg_known proto h arg argType :
  (proto, h) ∈ HelperFuncMap → h_Args h !! arg = Some argType →
  ∃ a, assoc argType compatibleRegType = Some a.
Proof.
  intros Hh Harg. pose proof helper_args_known as H. rewrite forallb_forall in H.
  apply list_elem_of_In, H in Hh. rewrite forallb_forall in Hh.
  apply list_elem_of_lookup_2, list_elem_of_In, Hh in Harg. by apply bool_decide_eq_true in Harg.
Qed.

(** A helper of the table, by the name of its prototype. *)
Definition tableHelper (proto : string) : BpfHelper :=
  default (mkHelper EmptyString BPF_FUNC_unspec EmptyString EmptyString [] [] EmptyString
             EmptyString false false) (assoc proto HelperFuncMap).

(** ** Properties *)

(** C26: although the candidate lists are edited in place, in arrays that all
    programs share, the edits never break the generator: whatever calls came
    before, for every argument of every helper in every kind of program the
    function does not index out of range and returns at least one register type,
    so that the random choice among them is well defined, and only types the
    table lists for the argument. *)
Theorem compat_types_safe (st : Store) (e : BpfProgTypeEnum) (proto : string) (h : BpfHelper)
    (arg : nat) (argType : string) :
  storeReachable st → (proto, h) ∈ HelperFuncMap → h_Args h !! arg = Some argType →
  ∃ st' s b a, genCompatibleRegTypes st e h arg = Ret (st', s, b) ∧
    assoc argType compatibleRegType = Some a ∧
    sliceElems st' s ≠ [] ∧ (∀ t, t ∈ sliceElems st' s → t ∈ initArray a).
Proof.
  intros Hst Hh Harg. apply storeReachable_OK in Hst.
  destruct (helper_arg_known _ _ _ _ Hh Harg) as [a Ha].
  destruct (genCompatibleRegTypes_spec st e h arg argType a) as (st' & s & ? & _ & ? & ?); try done.
  by exists st', s, (argBtfId h argType), a.
Qed.

Lemma compat_types_safe_witness :
  ∃ st' s b a,
    genCompatibleRegTypes initArray BPF_PROG_TYPE_LSM (tableHelper "bpf_trace_printk_proto") 0
      = Ret (st', s, b) ∧
    assoc "ARG_PTR_TO_MEM" compatibleRegType = Some a ∧
    sliceElems st' s ≠ [] ∧ (∀ t, t ∈ sliceElems st' s → t ∈ initArray a).
Proof.
  apply (compat_types_safe initArray BPF_PROG_TYPE_LSM "bpf_trace_printk_proto").
  - constructor.
  - apply assoc_elem. vm_compute. reflexivity.
  - vm_compute. reflexivity.
Defined.

(** The loop that drops packet pointers for programs without packet access
    skips the element after each one it drops.  For a memory argument of
    bpf_trace_printk in an LSM program, on the fresh table, the pointer to packet
    metadata stays among the candidates although the loop is to remove it. *)
Theorem packet_filter_skips :
  let h := tableHelper "bpf_trace_printk_proto" in
  checkPktAccess BPF_PROG_TYPE_LSM h false = false ∧
  PtrToPacketMetaRegType ∉ intendedRegTypes BPF_PROG_TYPE_LSM h "ARG_PTR_TO_MEM" ∧
  ∃ st s b, genCompatibleRegTypes initArray BPF_PROG_TYPE_LSM h 0 = Ret (st, s, b) ∧
    PtrToPacketMetaRegType ∈ sliceElems st s.
Proof.
  split; [vm_compute; reflexivity|]. split.
  - apply (bool_decide_unpack _). vm_compute. exact I.
  - do 3 eexists. split; [vm_compute; reflexivity|].
    apply (bool_decide_unpack _). vm_compute. exact I.
Qed.

(** The removal outlives the call.  Generating the key argument of a map
    lookup for one LSM program takes the packet pointer out of the shared table:
    for an XDP program, which may use packet memory as a key and was offered it
    before, it is no candidate any more. *)
Theorem compat_table_corrupted :
  let h := tableHelper "bpf_map_lookup_elem_proto" in
  PtrToPacketRegType ∈ intendedRegTypes BPF_PROG_TYPE_XDP h "ARG_PTR_TO_MAP_KEY" ∧
  (∃ st s b, genCompatibleRegTypes initArray BPF_PROG_TYPE_XDP h 1 = Ret (st, s, b) ∧
     PtrToPacketRegType ∈ sliceElems st s) ∧
  (∃ st s b st' s' b', genCompatibleRegTypes initArray BPF_PROG_TYPE_LSM h 1 = Ret (st, s, b) ∧
     genCompatibleRegTypes st BPF_PROG_TYPE_XDP h 1 = Ret (st', s', b') ∧
     PtrToPacketRegType ∉ sliceElems st' s').
Proof.
  split; [apply (bool_decide_unpack _); vm_compute; exact I|]. split.
  - do 3 eexists. split; [vm_compute; reflexivity|].
    apply (bool_decide_unpack _). vm_compute. exact I.
  - do 6 eexists. split; [vm_compute; reflexivity|]. split; [vm_compute; reflexivity|].
    apply (bool_decide_unpack _). vm_compute. exact I.
Qed.
