(* ===== verification/BpfMaps.v ===== *)
(** * Maps of generated BPF programs

    The map types, flags, key and value structs of [prog/brf_legacy.go]:
    [generateStruct], the compatibility of helpers with maps, and [NewMap].  The
    part of a program these functions change is its list of structs and its list
    of maps; a pointer to a map is its index.  The hints of a call are a set that
    [generateStruct] takes elements from. *)

From stdpp Require Import base numbers strings pretty list.
From S2P Require Import Prelude BpfTypes.

Local Open Scope string_scope.
Local Open Scope list_scope.
Local Open Scope Z_scope.

Record BpfMapType := mkMapType {
  mt_Name : string;
  mt_ManFlags : list (list string);
  mt_OptFlags : list (list string);
  mt_KeySize : list Z;
  mt_ValSize : list Z;
  mt_MaxEntries : Z;
}.

Record BpfMap := mkMap {
  m_Name : string;
  m_Type : string;
  m_Flags : list string;
  m_Key : option StructDef;
  m_Val : option StructDef;
  m_MaxEntries : Z;
  m_InnerMap : option nat;
}.

Record BpfCallGenHint := mkHint {
  ArgHints : list ArgHint;
  RetAccessSize : Z;
  IsRetAccessRaw : bool;
  PreferredMap : option nat;
}.

(** The part of [BpfProg] that maps live in. *)
Record MapProg := mkMapProg {
  p_Enum : BpfProgTypeEnum;
  p_Sleepable : bool;
  p_Structs : list StructDef;
  p_Maps : list BpfMap;
}.

(** ** Tables *)

Definition bpfMapTypes : list BpfMapType := [
  mkMapType "BPF_MAP_TYPE_HASH"
     []
     [["BPF_F_NO_PREALLOC"];
      ["BPF_F_NUMA_NODE"];
      ["BPF_F_WRONLY"; "BPF_F_RDONLY"];
      ["BPF_F_WRONLY_PROG"; "BPF_F_RDONLY_PROG"];
      ["BPF_F_ZERO_SEED"]]
     [1; 4096] [1; 4096] (-1);
  mkMapType "BPF_MAP_TYPE_ARRAY"
     []
     [["BPF_F_NUMA_NODE"];
      ["BPF_F_MMAPABLE"];
      ["BPF_F_WRONLY"; "BPF_F_RDONLY"];
      ["BPF_F_WRONLY_PROG"; "BPF_F_RDONLY_PROG"];
      ["BPF_F_INNER_MAP"]]
     [4; 4] [1; 4096] (-1);
  mkMapType "BPF_MAP_TYPE_PROG_ARRAY"
     []
     [["BPF_F_NUMA_NODE"];
      ["BPF_F_WRONLY"; "BPF_F_RDONLY"]]
     [4; 4] [4; 4] (-1);
  mkMapType "BPF_MAP_TYPE_PERF_EVENT_ARRAY"
     []
     [["BPF_F_NUMA_NODE"];
      ["BPF_F_WRONLY"; "BPF_F_RDONLY"];
      ["BPF_F_PRESERVE_ELEMS"]]
     [4; 4] [4; 4] (-1);
  mkMapType "BPF_MAP_TYPE_PERCPU_HASH"
     []
     [["BPF_F_NO_PREALLOC"];
      ["BPF_F_WRONLY"; "BPF_F_RDONLY"];
      ["BPF_F_WRONLY_PROG"; "BPF_F_RDONLY_PROG"];
      ["BPF_F_ZERO_SEED"];
      ["BPF_F_NUMA_NODE"]]
     [1; 4096] [1; 4096] (-1);
  mkMapType "BPF_MAP_TYPE_PERCPU_ARRAY"
     []
     [["BPF_F_WRONLY"; "BPF_F_RDONLY"];
      ["BPF_F_WRONLY_PROG"; "BPF_F_RDONLY_PROG"]]
     [4; 4] [1; 4096] (-1);
  mkMapType "BPF_MAP_TYPE_STACK_TRACE"
     []
     [["BPF_F_NUMA_NODE"];
      ["BPF_F_RDONLY"; "BPF_F_WRONLY"];
      ["BPF_F_STACK_BUILD_ID"]]
     [4; 4] [8; 4096; 8] (-1);
  mkMapType "BPF_MAP_TYPE_CGROUP_ARRAY"
     []
     [["BPF_F_NUMA_NODE"];
      ["BPF_F_WRONLY"; "BPF_F_RDONLY"]]
     [4; 4] [4; 4] (-1);
  mkMapType "BPF_MAP_TYPE_LRU_HASH"
     []
     [["BPF_F_NO_COMMON_LRU"; "BPF_F_NUMA_NODE"];
      ["BPF_F_WRONLY"; "BPF_F_RDONLY"];
      ["BPF_F_WRONLY_PROG"; "BPF_F_RDONLY_PROG"];
      ["BPF_F_ZERO_SEED"]]
     [1; 4096] [1; 4096] (-1);
  mkMapType "BPF_MAP_TYPE_LRU_PERCPU_HASH"
     []
     [["BPF_F_NO_COMMON_LRU"];
      ["BPF_F_WRONLY"; "BPF_F_RDONLY"];
      ["BPF_F_WRONLY_PROG"; "BPF_F_RDONLY_PROG"];
      ["BPF_F_ZERO_SEED"]]
     [1; 4096] [1; 4096] (-1);
  mkMapType "BPF_MAP_TYPE_LPM_TRIE"
     [["BPF_F_NO_PREALLOC"]]
     [["BPF_F_NUMA_NODE"];
      ["BPF_F_WRONLY"];
      ["BPF_F_WRONLY_PROG"; "BPF_F_RDONLY_PROG"]]
     [9; 264] [1; 4096] (-1);
  mkMapType "BPF_MAP_TYPE_ARRAY_OF_MAPS"
     []
     [["BPF_F_NUMA_NODE"];
      ["BPF_F_WRONLY"; "BPF_F_RDONLY"]]
     [4; 4] [4; 4] (-1);
  mkMapType "BPF_MAP_TYPE_HASH_OF_MAPS"
     []
     [["BPF_F_NO_PREALLOC"];
      ["BPF_F_NUMA_NODE"];
      ["BPF_F_WRONLY"];
      ["BPF_F_WRONLY_PROG"; "BPF_F_RDONLY_PROG"];
      ["BPF_F_ZERO_SEED"]]
     [1; 4096] [4; 4] (-1);
  mkMapType "BPF_MAP_TYPE_DEVMAP"
     []
     [["BPF_F_NUMA_NODE"];
      ["BPF_F_WRONLY"; "BPF_F_RDONLY"]]
     [4; 4] [4; 8; 4] (-1);
  mkMapType "BPF_MAP_TYPE_SOCKMAP"
     []
     [["BPF_F_NUMA_NODE"];
      ["BPF_F_WRONLY"; "BPF_F_RDONLY"]]
     [4; 4] [4; 8; 4] (-1);
  mkMapType "BPF_MAP_TYPE_CPUMAP"
     []
     [["BPF_F_NUMA_NODE"]]
     [4; 4] [4; 8; 4] (-1);
  mkMapType "BPF_MAP_TYPE_XSKMAP"
     []
     [["BPF_F_NUMA_NODE"];
      ["BPF_F_WRONLY"; "BPF_F_RDONLY"]]
     [4; 4] [4; 4] (-1);
  mkMapType "BPF_MAP_TYPE_SOCKHASH"
     []
     [["BPF_F_NUMA_NODE"];
      ["BPF_F_WRONLY"; "BPF_F_RDONLY"]]
     [1; 512] [4; 8; 4] (-1);
  mkMapType "BPF_MAP_TYPE_CGROUP_STORAGE"
     []
     [["BPF_F_NUMA_NODE"];
      ["BPF_F_RDONLY_PROG"; "BPF_F_WRONLY_PROG"]]
     [8; 12; 4] [8; 65536] (0);
  mkMapType "BPF_MAP_TYPE_REUSEPORT_SOCKARRAY"
     []
     [["BPF_F_NUMA_NODE"];
      ["BPF_F_WRONLY"; "BPF_F_RDONLY"];
      ["BPF_F_WRONLY_PROG"; "BPF_F_RDONLY_PROG"]]
     [1; 65536] [4; 8; 4] (-1);
  mkMapType "BPF_MAP_TYPE_PERCPU_CGROUP_STORAGE"
     []
     [["BPF_F_NUMA_NODE"];
      ["BPF_F_RDONLY_PROG"; "BPF_F_WRONLY_PROG"]]
     [8; 12; 4] [8; 65536] (0);
  mkMapType "BPF_MAP_TYPE_QUEUE"
     []
     [["BPF_F_NUMA_NODE"];
      ["BPF_F_WRONLY"; "BPF_F_RDONLY"];
      ["BPF_F_RDONLY_PROG"];
      ["BPF_F_WRONLY_PROG"]]
     [0; 0] [1; 4096] (-1);
  mkMapType "BPF_MAP_TYPE_STACK"
     []
     [["BPF_F_NUMA_NODE"];
      ["BPF_F_WRONLY"; "BPF_F_RDONLY"];
      ["BPF_F_RDONLY_PROG"];
      ["BPF_F_WRONLY_PROG"]]
     [0; 0] [1; 4096] (-1);
  mkMapType "BPF_MAP_TYPE_SK_STORAGE"
     [["BPF_F_NO_PREALLOC"]]
     [["BPF_F_CLONE"]]
     [4; 4] [1; 65536] (0);
  mkMapType "BPF_MAP_TYPE_DEVMAP_HASH"
     []
     [["BPF_F_NUMA_NODE"];
      ["BPF_F_WRONLY"; "BPF_F_RDONLY"]]
     [4; 4] [4; 8; 4] (-1);
  mkMapType "BPF_MAP_TYPE_STRUCT_OPS"
     []
     []
     [4; 4] [0; 4096] (1);
  mkMapType "BPF_MAP_TYPE_RINGBUF"
     []
     [["BPF_F_NUMA_NODE"]]
     [0; 0] [0; 0] (24);
  mkMapType "BPF_MAP_TYPE_INODE_STORAGE"
     [["BPF_F_NO_PREALLOC"]]
     [["BPF_F_CLONE"]]
     [4; 4] [1; 65536] (0);
  mkMapType "BPF_MAP_TYPE_TASK_STORAGE"
     [["BPF_F_NO_PREALLOC"]]
     [["BPF_F_CLONE"]]
     [4; 4] [1; 65536] (0);
  mkMapType "BPF_MAP_TYPE_CGRP_STORAGE"
     [["BPF_F_NO_PREALLOC"]]
     [["BPF_F_CLONE"]]
     [4; 4] [1; 65536] (0);
  mkMapType "BPF_MAP_TYPE_BLOOM_FILTER"
     []
     [["BPF_F_NUMA_NODE"];
      ["BPF_F_ZERO_SEED"];
      ["BPF_F_WRONLY"; "BPF_F_RDONLY"];
      ["BPF_F_WRONLY_PROG"; "BPF_F_RDONLY_PROG"]]
     [0; 0] [1; 4096] (-1);
  mkMapType "BPF_MAP_TYPE_USER_RINGBUF"
     []
     [["BPF_F_NUMA_NODE"]]
     [0; 0] [0; 0] (24);
  mkMapType "BPF_MAP_TYPE_ARENA"
     [["BPF_F_MMAPABLE"]]
     [["BPF_F_SEGV_ON_FAULT"];
      ["BPF_F_NO_USER_CONV"]]
     [0; 0] [0; 0] (-1)
].

Definition funcCompMaps : list (BpfHelperEnum * list string) := [
  (BPF_FUNC_tail_call, ["BPF_MAP_TYPE_PROG_ARRAY"]);
  (BPF_FUNC_perf_event_read, ["BPF_MAP_TYPE_PERF_EVENT_ARRAY"]);
  (BPF_FUNC_perf_event_output, ["BPF_MAP_TYPE_PERF_EVENT_ARRAY"]);
  (BPF_FUNC_perf_event_read_value, ["BPF_MAP_TYPE_PERF_EVENT_ARRAY"]);
  (BPF_FUNC_skb_output, ["BPF_MAP_TYPE_PERF_EVENT_ARRAY"]);
  (BPF_FUNC_xdp_output, ["BPF_MAP_TYPE_PERF_EVENT_ARRAY"]);
  (BPF_FUNC_ringbuf_output, ["BPF_MAP_TYPE_RINGBUF"]);
  (BPF_FUNC_ringbuf_reserve, ["BPF_MAP_TYPE_RINGBUF"]);
  (BPF_FUNC_ringbuf_query, ["BPF_MAP_TYPE_RINGBUF"]);
  (BPF_FUNC_get_stackid, ["BPF_MAP_TYPE_STACK_TRACE"]);
  (BPF_FUNC_current_task_under_cgroup, ["BPF_MAP_TYPE_CGROUP_ARRAY"]);
  (BPF_FUNC_skb_under_cgroup, ["BPF_MAP_TYPE_CGROUP_ARRAY"]);
  (BPF_FUNC_redirect_map, ["BPF_MAP_TYPE_DEVMAP"; "BPF_MAP_TYPE_DEVMAP_HASH"; "BPF_MAP_TYPE_CPUMAP"; "BPF_MAP_TYPE_XSKMAP"]);
  (BPF_FUNC_sk_redirect_map, ["BPF_MAP_TYPE_SOCKMAP"]);
  (BPF_FUNC_msg_redirect_map, ["BPF_MAP_TYPE_SOCKMAP"]);
  (BPF_FUNC_sock_map_update, ["BPF_MAP_TYPE_SOCKMAP"]);
  (BPF_FUNC_sk_redirect_hash, ["BPF_MAP_TYPE_SOCKHASH"]);
  (BPF_FUNC_msg_redirect_hash, ["BPF_MAP_TYPE_SOCKHASH"]);
  (BPF_FUNC_sock_hash_update, ["BPF_MAP_TYPE_SOCKHASH"]);
  (BPF_FUNC_get_local_storage, ["BPF_MAP_TYPE_CGROUP_STORAGE"; "BPF_MAP_TYPE_PERCPU_CGROUP_STORAGE"]);
  (BPF_FUNC_sk_select_reuseport, ["BPF_MAP_TYPE_REUSEPORT_SOCKARRAY"; "BPF_MAP_TYPE_SOCKMAP"; "BPF_MAP_TYPE_SOCKHASH"]);
  (BPF_FUNC_map_peek_elem, ["BPF_MAP_TYPE_QUEUE"; "BPF_MAP_TYPE_STACK"]);
  (BPF_FUNC_map_pop_elem, ["BPF_MAP_TYPE_QUEUE"; "BPF_MAP_TYPE_STACK"]);
  (BPF_FUNC_map_push_elem, ["BPF_MAP_TYPE_QUEUE"; "BPF_MAP_TYPE_STACK"]);
  (BPF_FUNC_sk_storage_get, ["BPF_MAP_TYPE_SK_STORAGE"]);
  (BPF_FUNC_sk_storage_delete, ["BPF_MAP_TYPE_SK_STORAGE"]);
  (BPF_FUNC_inode_storage_get, ["BPF_MAP_TYPE_INODE_STORAGE"]);
  (BPF_FUNC_inode_storage_delete, ["BPF_MAP_TYPE_INODE_STORAGE"]);
  (BPF_FUNC_task_storage_get, ["BPF_MAP_TYPE_TASK_STORAGE"]);
  (BPF_FUNC_task_storage_delete, ["BPF_MAP_TYPE_TASK_STORAGE"]);
  (BPF_FUNC_cgrp_storage_get, ["BPF_MAP_TYPE_CGRP_STORAGE"]);
  (BPF_FUNC_cgrp_storage_delete, ["BPF_MAP_TYPE_CGRP_STORAGE"])
].

Definition mapCompFuncs : list (string * list BpfHelperEnum) := [
  ("BPF_MAP_TYPE_PROG_ARRAY",
    [BPF_FUNC_tail_call]);
  ("BPF_MAP_TYPE_PERF_EVENT_ARRAY",
    [BPF_FUNC_perf_event_read; BPF_FUNC_perf_event_output; BPF_FUNC_skb_output;
     BPF_FUNC_perf_event_read_value; BPF_FUNC_xdp_output]);
  ("BPF_MAP_TYPE_RINGBUF",
    [BPF_FUNC_ringbuf_output; BPF_FUNC_ringbuf_reserve; BPF_FUNC_ringbuf_query]);
  ("BPF_MAP_TYPE_STACK_TRACE",
    [BPF_FUNC_get_stackid]);
  ("BPF_MAP_TYPE_CGROUP_ARRAY",
    [BPF_FUNC_skb_under_cgroup; BPF_FUNC_current_task_under_cgroup]);
  ("BPF_MAP_TYPE_CGROUP_STORAGE",
    [BPF_FUNC_get_local_storage]);
  ("BPF_MAP_TYPE_PERCPU_CGROUP_STORAGE",
    [BPF_FUNC_get_local_storage]);
  ("BPF_MAP_TYPE_DEVMAP",
    [BPF_FUNC_redirect_map; BPF_FUNC_map_lookup_elem]);
  ("BPF_MAP_TYPE_DEVMAP_HASH",
    [BPF_FUNC_redirect_map; BPF_FUNC_map_lookup_elem]);
  ("BPF_MAP_TYPE_CPUMAP",
    [BPF_FUNC_redirect_map]);
  ("BPF_MAP_TYPE_XSKMAP",
    [BPF_FUNC_redirect_map; BPF_FUNC_map_lookup_elem]);
  ("BPF_MAP_TYPE_ARRAY_OF_MAPS",
    [BPF_FUNC_map_lookup_elem]);
  ("BPF_MAP_TYPE_HASH_OF_MAPS",
    [BPF_FUNC_map_lookup_elem]);
  ("BPF_MAP_TYPE_SOCKMAP",
    [BPF_FUNC_sk_redirect_map; BPF_FUNC_sock_map_update; BPF_FUNC_map_delete_elem;
     BPF_FUNC_msg_redirect_map; BPF_FUNC_sk_select_reuseport; BPF_FUNC_map_lookup_elem]);
  ("BPF_MAP_TYPE_SOCKHASH",
    [BPF_FUNC_sk_redirect_hash; BPF_FUNC_sock_hash_update; BPF_FUNC_map_delete_elem;
     BPF_FUNC_msg_redirect_hash; BPF_FUNC_sk_select_reuseport; BPF_FUNC_map_lookup_elem]);
  ("BPF_MAP_TYPE_REUSEPORT_SOCKARRAY",
    [BPF_FUNC_sk_select_reuseport]);
  ("BPF_MAP_TYPE_QUEUE",
    [BPF_FUNC_map_peek_elem; BPF_FUNC_map_pop_elem; BPF_FUNC_map_push_elem]);
  ("BPF_MAP_TYPE_STACK",
    [BPF_FUNC_map_peek_elem; BPF_FUNC_map_pop_elem; BPF_FUNC_map_push_elem]);
  ("BPF_MAP_TYPE_SK_STORAGE",
    [BPF_FUNC_sk_storage_get; BPF_FUNC_sk_storage_delete]);
  ("BPF_MAP_TYPE_INODE_STORAGE",
    [BPF_FUNC_inode_storage_get; BPF_FUNC_inode_storage_delete]);
  ("BPF_MAP_TYPE_TASK_STORAGE",
    [BPF_FUNC_task_storage_get; BPF_FUNC_task_storage_delete]);
  ("BPF_MAP_TYPE_CGRP_STORAGE",
    [BPF_FUNC_cgrp_storage_get; BPF_FUNC_cgrp_storage_delete])
].

Definition mayUpdateSockmapProgs : list BpfProgTypeEnum :=
  [BPF_PROG_TYPE_TRACING; BPF_PROG_TYPE_SOCKET_FILTER; BPF_PROG_TYPE_SCHED_CLS;
   BPF_PROG_TYPE_SCHED_ACT; BPF_PROG_TYPE_XDP; BPF_PROG_TYPE_SK_REUSEPORT;
   BPF_PROG_TYPE_FLOW_DISSECTOR; BPF_PROG_TYPE_SK_LOOKUP].

(** ** Flags *)

(** [m.getFlag(f)], [None] for -1. *)
Definition getFlag (m : BpfMap) (f : string) : option nat :=
  fst <$> list_find (λ g, g = f) (m_Flags m).

Definition setFlags (m : BpfMap) (flags : list string) : BpfMap :=
  mkMap (m_Name m) (m_Type m) flags (m_Key m) (m_Val m) (m_MaxEntries m) (m_InnerMap m).

Definition addFlag (m : BpfMap) (flag : string) : BpfMap :=
  match getFlag m flag with
  | None => setFlags m (m_Flags m ++ [flag])
  | Some _ => m
  end.

Definition removeFlag (m : BpfMap) (flag : string) : BpfMap :=
  match getFlag m flag with
  | Some f => setFlags m (take f (m_Flags m) ++ drop (S f) (m_Flags m))
  | None => m
  end.

Definition hasFlag (m : BpfMap) (f : string) : bool := bool_decide (is_Some (getFlag m f)).

(** ** Structs *)

(** The size of a member, as [offsetOfMember] counts it. *)
Definition memberSize (t : string) : Z :=
  if bool_decide (t = "struct bpf_spin_lock") then 4
  else if bool_decide (t = "struct bpf_timer") then 16
  else if bool_decide (t = "char [8]") then 8
  else if bool_decide (t = "uint64_t") then 8
  else if bool_decide (t = "uint32_t") then 4
  else if bool_decide (t = "uint16_t") then 2
  else if bool_decide (t = "uint8_t") then 1
  else 0.

Definition sumSizes (l : list string) : Z := foldr (λ t n, memberSize t + n) 0 l.

Definition offsetOfMember (sd : StructDef) (mi : nat) : Z := sumSizes (take mi (sd_FieldTypes sd)).

(** [sd.findMember(m)], [None] for -1. *)
Definition findMember (sd : StructDef) (m : string) : option nat :=
  fst <$> list_find (λ t, t = m) (sd_FieldTypes sd).

Definition hasMember (sd : StructDef) (m : string) : bool := bool_decide (is_Some (findMember sd m)).

Definition hinted (hints : list ArgHint) (h : ArgHint) : bool := bool_decide (h ∈ hints).

Definition occupiedSize (hints : list ArgHint) : Z :=
  (if hinted hints HintGenSpinlock then 4 else 0) +
  (if hinted hints HintGenTimer then 16 else 0) +
  (if hinted hints HintGenConstStr then 8 else 0).

(** [delete(hints, h)]. *)
Definition dropHint (h : ArgHint) (hints : list ArgHint) : list ArgHint :=
  filter (λ h', h' ≠ h) hints.

(** The next member of the struct: the hint it serves, and its type. *)
Definition nextMember (useHint : bool) (hints : list ArgHint) (toEnd : Z) :
    option ArgHint * string :=
  if useHint && hinted hints HintGenSpinlock then (Some HintGenSpinlock, "struct bpf_spin_lock")
  else if useHint && hinted hints HintGenTimer then (Some HintGenTimer, "struct bpf_timer")
  else if useHint && hinted hints HintGenConstStr then (Some HintGenConstStr, "char [8]")
  else if bool_decide (8 ≤ toEnd) then (None, "uint64_t")
  else if bool_decide (4 ≤ toEnd) then (None, "uint32_t")
  else if bool_decide (2 ≤ toEnd) then (None, "uint16_t")
  else (None, "uint8_t").

(** The member loop of [generateStruct]: the offset grows with every member, so
    [size] rounds are enough. *)
Fixpoint memberLoop (fuel : nat) (useHint : bool) (size offset : Z) (hints : list ArgHint)
    (types : list string) (served : list ArgHint) :
    res (list string * list ArgHint * list ArgHint) :=
  if bool_decide (size ≤ offset) then Ret (types, served, hints)
  else
    match fuel with
    | O => NoFuel
    | S fuel =>
        let '(h, t) := nextMember useHint hints (size - offset) in
        let hints := match h with Some h => dropHint h hints | None => hints end in
        let served := match h with Some h => served ++ [h] | None => served end in
        memberLoop fuel useHint size (offset + memberSize t) hints (types ++ [t]) served
    end.

(** The minimum that hints and access size raise, [None] for the error paths. *)
Definition raisedMin (min max : Z) (hints : list ArgHint) (useHint : bool) (minSizeHint : Z) :
    option Z :=
  if useHint then
    let occupied := occupiedSize hints in
    if bool_decide (max < occupied) then None
    else
      let min := Z.max min occupied in
      if bool_decide (max < minSizeHint) then None
      else if bool_decide (min ≠ max) && bool_decide (min < minSizeHint) then Some minSizeHint
      else Some min
  else Some min.

(** The size drawn between the limits, [None] for the error path. *)
Definition drawSize (min max align : Z) : Gen (option Z) :=
  if bool_decide (min = max) then mret (Some min)
  else if bool_decide (min < max) then
    let max := if bool_decide (128 < max) then 128 else max in
    if bool_decide (max < min) then mret (Some min)
    else
      n ← Intn (max - min + 1);
      let size := n + min in
      mret (Some (if bool_decide (align ≠ 1) then size - Z.rem size align else size))
  else mret None.

(** [generateStruct] returns the struct (nil for size 0) and the flag of the
    source, with the program's structs and the hints as they are afterwards. *)
Definition generateStruct (structs : list StructDef) (sizeConstraints : list Z)
    (hints : list ArgHint) (useHint : bool) (minSizeHint : Z) :
    Gen (option StructDef * bool * list StructDef * list ArgHint) :=
  min ← index sizeConstraints 0;
  max ← index sizeConstraints 1;
  align ← (if bool_decide (length sizeConstraints = 3%nat) then index sizeConstraints 2 else mret 1);
  match raisedMin min max hints useHint minSizeHint with
  | None => mret (None, false, structs, hints)
  | Some min =>
      osize ← drawSize min max align;
      match osize with
      | None => mret (None, false, structs, hints)
      | Some size =>
          if bool_decide (size = 0) then mret (None, true, structs, hints)
          else
            match memberLoop (Z.to_nat size) useHint size 0 hints [] [] with
            | Panic => gen_panic
            | NoFuel => gen_nofuel
            | Ret (types, served, hints) =>
                let isStruct := negb (bool_decide (length types = 1%nat)) in
                let name := if isStruct then "struct_" +:+ pretty (length structs)
                            else default EmptyString (types !! 0%nat) in
                let sd := mkStruct name [] types size served isStruct in
                mret (Some sd, true, structs ++ [sd], hints)
            end
      end
  end.

(** ** Compatibility of helpers and maps *)

Definition isMapFuncCompatible (m : string) (f : BpfHelperEnum) : bool :=
  match assoc f funcCompMaps with
  | Some maps => bool_decide (m ∈ maps)
  | None => true
  end &&
  match assoc m mapCompFuncs with
  | Some funcs => bool_decide (f ∈ funcs)
  | None => true
  end.

Definition isTracingProgType (e : BpfProgTypeEnum) : bool :=
  bool_decide (e ∈ [BPF_PROG_TYPE_KPROBE; BPF_PROG_TYPE_TRACEPOINT; BPF_PROG_TYPE_PERF_EVENT;
                    BPF_PROG_TYPE_RAW_TRACEPOINT]).

(** Helpers that write to the map (6084). *)
Definition writesMap (f : BpfHelperEnum) : bool :=
  bool_decide (f ∈ [BPF_FUNC_map_delete_elem; BPF_FUNC_map_update_elem; BPF_FUNC_map_push_elem;
                    BPF_FUNC_map_pop_elem]).

(** Map types for sleepable programs (11526). *)
Definition sleepableMapTypes : list string :=
  ["BPF_MAP_TYPE_HASH"; "BPF_MAP_TYPE_LRU_HASH"; "BPF_MAP_TYPE_ARRAY"; "BPF_MAP_TYPE_PERCPU_HASH";
   "BPF_MAP_TYPE_PERCPU_ARRAY"; "BPF_MAP_TYPE_LRU_PERCPU_HASH"; "BPF_MAP_TYPE_ARRAY_OF_MAPS";
   "BPF_MAP_TYPE_HASH_OF_MAPS"; "BPF_MAP_TYPE_RINGBUF"].

(** The check of 11704: the type is a cgroup storage the program already has. *)
Definition storageTaken (p : MapProg) (typ : string) : bool :=
  (bool_decide (typ = "BPF_MAP_TYPE_CGROUP_STORAGE") ||
   bool_decide (typ = "BPF_MAP_TYPE_PERCPU_CGROUP_STORAGE")) &&
  existsb (λ pm, bool_decide (m_Type pm = typ)) (p_Maps p).

(** The checks on XDP socket and socket maps behind a lookup. *)
Definition sockMapMismatch (h : BpfHelper) (hint : BpfCallGenHint) (typ : string) : bool :=
  bool_decide (h_Ret h = "RET_PTR_TO_MAP_VALUE_OR_NULL") &&
  (negb (eqb (hinted (ArgHints hint) HintGenXdpSockMap) (bool_decide (typ = "BPF_MAP_TYPE_XSKMAP"))) ||
   negb (eqb (hinted (ArgHints hint) HintGenSockMap)
     (bool_decide (typ = "BPF_MAP_TYPE_SOCKMAP") || bool_decide (typ = "BPF_MAP_TYPE_SOCKHASH")))).

Definition isDevMap (typ : string) : bool :=
  bool_decide (typ = "BPF_MAP_TYPE_DEVMAP") || bool_decide (typ = "BPF_MAP_TYPE_DEVMAP_HASH").

Definition valHas (m : BpfMap) (t : string) : bool :=
  match m_Val m with Some sd => hasMember sd t | None => false end.

(** The helper returns a pointer to a map value. *)
Definition retsMapValue (h : BpfHelper) : bool :=
  bool_decide (h_Ret h = "RET_PTR_TO_MAP_VALUE") ||
  bool_decide (h_Ret h = "RET_PTR_TO_MAP_VALUE_OR_NULL").

(** The conditions under which [getHelperCompatMaps] skips a map. *)
Definition mapRejected (p : MapProg) (h : BpfHelper) (hint : BpfCallGenHint) (m : BpfMap) : bool :=
  let hints := ArgHints hint in
  let rdOnly := hasFlag m "BPF_F_RDONLY_PROG" in
  let wrOnly := hasFlag m "BPF_F_WRONLY_PROG" in
  negb (isMapFuncCompatible (m_Type m) (h_Enum h)) ||
  (writesMap (h_Enum h) && rdOnly) ||
  ((hinted hints HintGenSpinlock && (negb (valHas m "struct bpf_spin_lock") || rdOnly)) ||
   (hinted hints HintGenTimer && (negb (valHas m "struct bpf_timer") || rdOnly)) ||
   (hinted hints HintGenConstStr && negb (valHas m "char [8]"))) ||
  (valHas m "struct bpf_spin_lock" &&
   (bool_decide (p_Enum p = BPF_PROG_TYPE_SOCKET_FILTER) || isTracingProgType (p_Enum p) ||
    p_Sleepable p)) ||
  bool_decide (m_Type m = "BPF_MAP_TYPE_STRUCT_OPS") ||
  (p_Sleepable p && negb (bool_decide (m_Type m ∈ sleepableMapTypes))) ||
  storageTaken p (m_Type m) ||
  sockMapMismatch h hint (m_Type m) ||
  (retsMapValue h && negb (bool_decide (RetAccessSize hint = 0)) &&
   (match m_Val m with Some sd => bool_decide (sd_Size sd < RetAccessSize hint) | None => true end ||
    (rdOnly && IsRetAccessRaw hint) || (wrOnly && negb (IsRetAccessRaw hint)) ||
    (IsRetAccessRaw hint && isDevMap (m_Type m)))).

(** [getHelperCompatMaps] returns the indices of the maps it keeps. *)
Definition getHelperCompatMaps (p : MapProg) (h : BpfHelper) (hint : BpfCallGenHint) : list nat :=
  fst <$> filter (λ im, mapRejected p h hint im.2 = false) (imap pair (p_Maps p)).

(** The conditions under which [getHelperCompatMapTypes] skips a map type. *)
Definition mapTypeRejected (p : MapProg) (h : BpfHelper) (hint : BpfCallGenHint) (mt : BpfMapType) : bool :=
  let hints := ArgHints hint in
  let name := mt_Name mt in
  negb (isMapFuncCompatible name (h_Enum h)) ||
  bool_decide (default 0 (mt_ValSize mt !! 1%nat) < occupiedSize hints) ||
  (hinted hints HintGenSpinlock &&
   (negb (bool_decide (name ∈ ["BPF_MAP_TYPE_HASH"; "BPF_MAP_TYPE_ARRAY";
       "BPF_MAP_TYPE_CGROUP_STORAGE"; "BPF_MAP_TYPE_SK_STORAGE"; "BPF_MAP_TYPE_INODE_STORAGE";
       "BPF_MAP_TYPE_TASK_STORAGE"])) ||
    (bool_decide (p_Enum p = BPF_PROG_TYPE_SOCKET_FILTER) || isTracingProgType (p_Enum p) ||
     p_Sleepable p))) ||
  (hinted hints HintGenTimer &&
   (negb (bool_decide (name ∈ ["BPF_MAP_TYPE_HASH"; "BPF_MAP_TYPE_LRU_HASH"; "BPF_MAP_TYPE_ARRAY"])) ||
    isTracingProgType (p_Enum p))) ||
  bool_decide (name = "BPF_MAP_TYPE_STRUCT_OPS") ||
  (p_Sleepable p && negb (bool_decide (name ∈ sleepableMapTypes))) ||
  storageTaken p name ||
  sockMapMismatch h hint name ||
  (IsRetAccessRaw hint && isDevMap name) ||
  (bool_decide (h_Enum h = BPF_FUNC_map_update_elem) &&
   (bool_decide (name = "BPF_MAP_TYPE_SOCKMAP") || bool_decide (name = "BPF_MAP_TYPE_SOCKHASH")) &&
   negb (bool_decide (p_Enum p ∈ mayUpdateSockmapProgs))).

Definition getHelperCompatMapTypes (p : MapProg) (h : BpfHelper) (hint : BpfCallGenHint) : list BpfMapType :=
  filter (λ mt, mapTypeRejected p h hint mt = false) bpfMapTypes.

(** A limit of a map type; every entry of the table has the first two. *)
Definition lim (sc : list Z) (i : nat) : Z := default 0 (sc !! i).

Definition getCompatKeyStructDefs (structs : list StructDef) (mt : BpfMapType) : list StructDef :=
  filter (λ sd, lim (mt_KeySize mt) 0 ≤ sd_Size sd ≤ lim (mt_KeySize mt) 1) structs.

Definition valStructRejected (hints : list ArgHint) (minValSize : Z) (mt : BpfMapType) (sd : StructDef) : bool :=
  (bool_decide (minValSize ≠ -1) && bool_decide (sd_Size sd < minValSize)) ||
  (hinted hints HintGenSpinlock && negb (hasMember sd "struct bpf_spin_lock")) ||
  (hinted hints HintGenTimer && negb (hasMember sd "struct bpf_timer")) ||
  (hinted hints HintGenConstStr && negb (hasMember sd "char [8]")) ||
  hinted hints HintGenSockMap ||
  hinted hints HintGenXdpSockMap ||
  (bool_decide (sd_Size sd < lim (mt_ValSize mt) 0) || bool_decide (lim (mt_ValSize mt) 1 < sd_Size sd)) ||
  (bool_decide (length (mt_KeySize mt) = 3%nat) &&
   bool_decide (Z.rem (sd_Size sd) (lim (mt_KeySize mt) 2) ≠ 0)).

Definition getCompatValStructDefs (structs : list StructDef) (hints : list ArgHint) (minValSize : Z)
    (mt : BpfMapType) : list StructDef :=
  filter (λ sd, valStructRejected hints minValSize mt sd = false) structs.

(** ** NewMap *)

Definition chooseFlag (fs : list string) : Gen string :=
  if bool_decide (length fs = 1%nat) then index fs 0 else pick fs.

Fixpoint manFlagsLoop (groups : list (list string)) (flags : list string) : Gen (list string) :=
  match groups with
  | [] => mret flags
  | fs :: groups => f ← chooseFlag fs; manFlagsLoop groups (flags ++ [f])
  end.

(** A value that holds a constant string makes the map read-only for user space. *)
Definition forcedFlag (val : option StructDef) (fs : list string) : option string :=
  match val, fs with
  | Some sd, [f0; f1] =>
      if hinted (sd_Hints sd) HintGenConstStr && bool_decide (f0 = "BPF_F_WRONLY") then Some f1
      else None
  | _, _ => None
  end.

Fixpoint optFlagsLoop (val : option StructDef) (groups : list (list string)) (flags : list string) :
    Gen (list string) :=
  match groups with
  | [] => mret flags
  | fs :: groups =>
      match forcedFlag val fs with
      | Some f => optFlagsLoop val groups (flags ++ [f])
      | None =>
          skip ← Intn 2;
          if bool_decide (skip = 1) then optFlagsLoop val groups flags
          else f ← chooseFlag fs; optFlagsLoop val groups (flags ++ [f])
      end
  end.

Definition drawMaxEntries (mt : BpfMapType) (hints : list ArgHint) : Gen Z :=
  n ← (if bool_decide (mt_MaxEntries mt = -1) then Intn 1024
       else if bool_decide (mt_MaxEntries mt = 0) then mret 0
       else if bool_decide (mt_Name mt = "BPF_MAP_TYPE_RINGBUF") then
         e ← Intn (mt_MaxEntries mt); mret (Z.shiftl 1 e * 4096)
       else Intn (mt_MaxEntries mt));
  mret (if hinted hints HintGenConstStr then 1 else n).

(** Reuse one of the compatible structs or generate a new one. *)
Definition reuseOrGenerate (compat structs : list StructDef)
    (generate : Gen (option StructDef * bool * list StructDef * list ArgHint)) (hints : list ArgHint) :
    Gen (option StructDef * bool * list StructDef * list ArgHint) :=
  b ← Intn 2;
  if bool_decide (b = 1) && bool_decide (compat ≠ []) then
    sd ← pick compat; mret (Some sd, true, structs, hints)
  else generate.

Definition isMapOfMaps (typ : string) : bool :=
  bool_decide (typ = "BPF_MAP_TYPE_ARRAY_OF_MAPS") || bool_decide (typ = "BPF_MAP_TYPE_HASH_OF_MAPS").

(** The body of [NewMap]: the index of the new map, [None] for nil, with the
    program and the hints as they are afterwards.  A map of maps makes its inner
    map first, of a random type, by the call [newMap]. *)
Definition newMapWith (newMap : MapProg → BpfMapType → list ArgHint → Z → Gen (option nat * MapProg * list ArgHint))
    (p : MapProg) (mt : BpfMapType) (hints : list ArgHint) (minValSize : Z) : Gen (option nat * MapProg * list ArgHint) :=
  maxEntries ← drawMaxEntries mt hints;
  '(key, kok, structs, hints) ←
    reuseOrGenerate (getCompatKeyStructDefs (p_Structs p) mt) (p_Structs p)
      (generateStruct (p_Structs p) (mt_KeySize mt) hints false 0) hints;
  let p := mkMapProg (p_Enum p) (p_Sleepable p) structs (p_Maps p) in
  if negb kok then mret (None, p, hints) else
  '(val, vok, structs, hints) ←
    reuseOrGenerate (getCompatValStructDefs (p_Structs p) hints minValSize mt) (p_Structs p)
      (generateStruct (p_Structs p) (mt_ValSize mt) hints true minValSize) hints;
  let p := mkMapProg (p_Enum p) (p_Sleepable p) structs (p_Maps p) in
  if negb vok then mret (None, p, hints) else
  '(inner, p) ←
    (if isMapOfMaps (mt_Name mt) then
       imt ← pick bpfMapTypes;
       '(inner, p, _) ← newMap p imt [] 0;
       mret (inner, p)
     else mret (None, p));
  flags ← manFlagsLoop (mt_ManFlags mt) [];
  flags ← optFlagsLoop val (mt_OptFlags mt) flags;
  let m := mkMap ("map_" +:+ pretty (length (p_Maps p))) (mt_Name mt) flags key val
             maxEntries inner in
  mret (Some (length (p_Maps p)),
        mkMapProg (p_Enum p) (p_Sleepable p) (p_Structs p) (p_Maps p ++ [m]), hints).

(** [fuel] bounds the nesting of maps of maps. *)
Fixpoint NewMap (fuel : nat) (p : MapProg) (mt : BpfMapType) (hints : list ArgHint)
    (minValSize : Z) : Gen (option nat * MapProg * list ArgHint) :=
  match fuel with
  | O => gen_nofuel
  | S fuel => newMapWith (NewMap fuel) p mt hints minValSize
  end.

(** ** Lemmas on structs *)

(** The member a hint asks for. *)
Definition hintMember (h : ArgHint) : option string :=
  match h with
  | HintGenSpinlock => Some "struct bpf_spin_lock"
  | HintGenTimer => Some "struct bpf_timer"
  | HintGenConstStr => Some "char [8]"
  | _ => None
  end.

Definition occ (useHint : bool) (hints : list ArgHint) : Z :=
  if useHint then occupiedSize hints else 0.

Lemma hinted_drop hints h k : hinted (dropHint h hints) k = hinted hints k && negb (bool_decide (k = h)).
Proof.
  unfold hinted, dropHint. rewrite <- bool_decide_not, <- bool_decide_and.
  apply bool_decide_ext. rewrite list_elem_of_filter. tauto.
Qed.

Lemma hinted_drop_same hints h : hinted (dropHint h hints) h = false.
Proof. rewrite hinted_drop, bool_decide_true by done. by rewrite andb_false_r. Qed.

Lemma hinted_drop_ne hints h k : k ≠ h → hinted (dropHint h hints) k = hinted hints k.
Proof. intros. rewrite hinted_drop, bool_decide_false by done. by rewrite andb_true_r. Qed.

Lemma sumSizes_app l1 l2 : sumSizes (l1 ++ l2) = sumSizes l1 + sumSizes l2.
Proof. induction l1 as [|t l1 IH]; simpl; lia. Qed.

Lemma occ_nonneg useHint hints : 0 ≤ occ useHint hints.
Proof.
  unfold occ, occupiedSize. destruct useHint; [|lia].
  destruct (hinted hints HintGenSpinlock), (hinted hints HintGenTimer), (hinted hints HintGenConstStr); lia.
Qed.

Lemma memberSizes :
  memberSize "struct bpf_spin_lock" = 4 ∧ memberSize "struct bpf_timer" = 16 ∧
  memberSize "char [8]" = 8 ∧ memberSize "uint64_t" = 8 ∧ memberSize "uint32_t" = 4 ∧
  memberSize "uint16_t" = 2 ∧ memberSize "uint8_t" = 1.
Proof. by vm_compute. Qed.

(** One member fits and leaves room for the hints that remain. *)
Lemma nextMember_fits useHint hints toEnd :
  0 < toEnd → occ useHint hints ≤ toEnd →
  let '(h, t) := nextMember useHint hints toEnd in
  let hints' := match h with Some h => dropHint h hints | None => hints end in
  1 ≤ memberSize t ≤ toEnd ∧ occ useHint hints' ≤ toEnd - memberSize t ∧
  match h with
  | Some k => useHint = true ∧ hinted hints k = true ∧ hintMember k = Some t
  | None => occ useHint hints = 0
  end.
Proof.
  intros Ht Ho. destruct memberSizes as (M1 & M2 & M3 & M4 & M5 & M6 & M7).
  unfold nextMember. unfold occ, occupiedSize in *. destruct useHint; cbn [andb] in *.
  - destruct (hinted hints HintGenSpinlock) eqn:E1, (hinted hints HintGenTimer) eqn:E2,
      (hinted hints HintGenConstStr) eqn:E3; repeat case_bool_decide;
      cbn [andb] in *; rewrite ?hinted_drop_same, ?hinted_drop_ne, ?E1, ?E2, ?E3 by done;
      rewrite ?M1, ?M2, ?M3, ?M4, ?M5, ?M6, ?M7; cbn; (split; [lia|]); (split; [lia|]); done || lia.
  - repeat case_bool_decide; rewrite ?M4, ?M5, ?M6, ?M7; repeat split; lia.
Qed.

Lemma occ_zero hints k t : occ true hints = 0 → hintMember k = Some t → hinted hints k = false.
Proof.
  unfold occ, occupiedSize. intros H0 Hk. apply not_true_iff_false. intros Hh.
  destruct k; try done; rewrite Hh in H0;
    destruct (hinted hints HintGenSpinlock), (hinted hints HintGenTimer),
      (hinted hints HintGenConstStr); lia.
Qed.

(** Enough rounds fill the struct exactly and serve every hint. *)
Lemma memberLoop_fills fuel useHint size offset hints types served :
  0 ≤ offset ≤ size → occ useHint hints ≤ size - offset → (Z.to_nat (size - offset) ≤ fuel)%nat →
  ∃ ts ss hints', memberLoop fuel useHint size offset hints types served =
      Ret (types ++ ts, served ++ ss, hints') ∧
    sumSizes ts = size - offset ∧ (useHint = false → hints' = hints) ∧
    (∀ k t, useHint = true → hintMember k = Some t → hinted hints k = true → k ∈ ss ∧ t ∈ ts).
Proof.
  revert offset hints types served.
  induction fuel as [|fuel IH]; intros offset hints types served Hoff Hocc Hfuel; cbn [memberLoop];
    (destruct (decide (size ≤ offset)) as [Hle|Hgt];
     [rewrite bool_decide_true by lia; exists [], [], hints; rewrite !app_nil_r;
      assert (H0 : occ useHint hints = 0) by (pose proof (occ_nonneg useHint hints); lia);
      split_and!; [done|simpl; lia|done|]; intros k t -> Hk Hh;
      rewrite (occ_zero _ _ _ H0 Hk) in Hh; done|]); [lia|].
  rewrite bool_decide_false by lia.
  pose proof (nextMember_fits useHint hints (size - offset) ltac:(lia) Hocc) as Hn.
  destruct (nextMember useHint hints (size - offset)) as [h t]. destruct Hn as (Hs & Ho & Hh).
  destruct (IH (offset + memberSize t) _ (types ++ [t]) (match h with Some h => served ++ [h] | None => served end)
    ltac:(lia) ltac:(rewrite Z.sub_add_distr; exact Ho) ltac:(lia)) as (ts & ss & hints' & -> & Hsum & Hkeep & Hserve).
  exists (t :: ts), (match h with Some h => h :: ss | None => ss end), hints'. split_and!.
  - rewrite <- app_assoc. destruct h; [by rewrite <- app_assoc|done].
  - simpl. lia.
  - intros Hu. rewrite (Hkeep Hu). destruct h; [|done]. by destruct Hh as [-> _].
  - intros k t' -> Hk Hkh. destruct h as [k0|]; [|by rewrite (occ_zero _ _ _ Hh Hk) in Hkh].
    destruct Hh as (_ & _ & Hk0). destruct (decide (k = k0)) as [->|Hne].
    + rewrite Hk0 in Hk. injection Hk as ->. split; left.
    + destruct (Hserve k t' eq_refl Hk) as [? ?]; [by rewrite hinted_drop_ne|]. split; by right.
Qed.

(** The limits a size constraint states: minimum, maximum, alignment. *)
Definition limits (sc : list Z) : option (Z * Z * Z) :=
  match sc with
  | [min; max] => Some (min, max, 1)
  | [min; max; align] => Some (min, max, align)
  | _ => None
  end.

Definition limitsOK (min max align : Z) : Prop := 0 ≤ min ≤ max ∧ 0 < align ∧ (align | min).

Lemma raisedMin_spec min max align hints useHint msh :
  limitsOK min max align →
  (useHint = true → (occupiedSize hints ≤ min ∨ (align | occupiedSize hints)) ∧
                    (msh ≤ min ∨ (align | msh))) →
  match raisedMin min max hints useHint msh with
  | None => useHint = true ∧ (max < occupiedSize hints ∨ max < msh)
  | Some m => min ≤ m ≤ max ∧ (align | m) ∧ occ useHint hints ≤ m ∧
      (useHint = true → msh ≤ m ∧ ¬ (max < occupiedSize hints ∨ max < msh))
  end.
Proof.
  intros (Hmm & Ha & Hd) Hal. unfold raisedMin, occ. destruct useHint.
  2:{ split_and!; [lia|lia|done|lia|done]. }
  destruct (Hal eq_refl) as [Ho Hm]. clear Hal.
  case_bool_decide; [by auto|]. case_bool_decide; [by auto|].
  assert (Hdm : (align | Z.max min (occupiedSize hints))).
  { destruct (Z.max_spec min (occupiedSize hints)) as [[? ->]|[? ->]]; [|done].
    destruct Ho; [lia|done]. }
  destruct (bool_decide _ && bool_decide _) eqn:B.
  - apply andb_true_iff in B as [B1 B2]. apply bool_decide_eq_true in B1, B2.
    split_and!; try lia. destruct Hm; [lia|done].
  - apply andb_false_iff in B as [B|B]; apply bool_decide_eq_false in B; split_and!; try lia; done.
Qed.

Lemma drawSize_spec min max align :
  limitsOK min max align →
  wp (drawSize min max align) (λ o, ∃ size, o = Some size ∧ min ≤ size ≤ max ∧ (align | size)).
Proof.
  intros (Hmm & Ha & Hd). unfold drawSize.
  case_bool_decide; [wret; exists min; split_and!; lia || done|].
  rewrite bool_decide_true by lia.
  set (cap := if bool_decide (128 < max) then 128 else max).
  assert (Hcap : cap ≤ max) by (unfold cap; case_bool_decide; lia).
  case_bool_decide; [wret; exists min; split_and!; lia || done|].
  eapply wp_bind; [apply (wp_Intn _ (λ n, 0 ≤ n < cap - min + 1)); [lia|done]|].
  intros n Hn. cbn beta in Hn. wret. eexists. split; [done|]. case_bool_decide.
  - rewrite Z.rem_mod_nonneg by lia. pose proof (Z.mod_pos_bound (n + min) align Ha).
    destruct Hd as [q Hq]. pose proof (Z.div_mod (n + min) align ltac:(lia)) as Hdm.
    assert (q ≤ (n + min) `div` align) by (apply Z.div_le_lower_bound; lia).
    split; [nia|]. exists ((n + min) `div` align). lia.
  - split; [lia|]. assert (align = 1) as -> by lia. apply Z.divide_1_l.
Qed.

(** What [generateStruct] promises about its result. *)
Definition structFits (min max align : Z) (hints : list ArgHint) (useHint : bool) (msh : Z)
    (sd : StructDef) : Prop :=
  min ≤ sd_Size sd ≤ max ∧ 0 < sd_Size sd ∧ (align | sd_Size sd) ∧
  sumSizes (sd_FieldTypes sd) = sd_Size sd ∧
  (useHint = true → msh ≤ sd_Size sd ∧
     ∀ k t, hintMember k = Some t → hinted hints k = true →
       k ∈ sd_Hints sd ∧ hasMember sd t = true).

Lemma hasMember_elem sd t : t ∈ sd_FieldTypes sd → hasMember sd t = true.
Proof.
  intros Ht. unfold hasMember, findMember. apply bool_decide_eq_true, fmap_is_Some.
  by apply (list_find_elem_of (λ t', t' = t) _ t).
Qed.

Lemma wp_index_lookup {A} (l : list A) (i : nat) x (Q : A → Prop) :
  l !! i = Some x → Q x → wp (index l (Z.of_nat i)) Q.
Proof.
  intros Hi HQ. unfold index. rewrite bool_decide_false by lia. rewrite Nat2Z.id, Hi. by wret.
Qed.

Lemma generateStruct_spec structs sc min max align hints useHint msh :
  limits sc = Some (min, max, align) → limitsOK min max align →
  (useHint = true → (occupiedSize hints ≤ min ∨ (align | occupiedSize hints)) ∧
                    (msh ≤ min ∨ (align | msh))) →
  wp (generateStruct structs sc hints useHint msh) (λ '(o, ok, structs', hints'),
    (useHint = false → hints' = hints) ∧
    (ok = false ↔ useHint = true ∧ (max < occupiedSize hints ∨ max < msh)) ∧
    match o with
    | Some sd => ok = true ∧ structs' = structs ++ [sd] ∧ structFits min max align hints useHint msh sd
    | None => structs' = structs ∧ (ok = true → min = 0 ∧ occ useHint hints = 0)
    end).
Proof.
  intros Hsc Hlim Hal. pose proof (raisedMin_spec min max align hints useHint msh Hlim Hal) as Hrm.
  unfold generateStruct.
  eapply (wp_bind _ _ (λ x, x = min)).
  { destruct sc as [|a [|b [|c [|d l]]]]; try done; simplify_eq/=; by eapply (wp_index_lookup _ 0). }
  intros ? ->. eapply (wp_bind _ _ (λ x, x = max)).
  { destruct sc as [|a [|b [|c [|d l]]]]; try done; simplify_eq/=; by eapply (wp_index_lookup _ 1). }
  intros ? ->. eapply (wp_bind _ _ (λ x, x = align)).
  { destruct sc as [|a [|b [|c [|d l]]]]; try done; simplify_eq/=;
      [by wret|by eapply (wp_index_lookup _ 2)]. }
  intros ? ->. destruct Hlim as (Hmm & Ha & Hd).
  destruct (raisedMin min max hints useHint msh) as [m|]; [|by wret].
  destruct Hrm as (Hm & Hdm & Hocc & Hmsh).
  assert (Hnot : ¬ (useHint = true ∧ (max < occupiedSize hints ∨ max < msh))) by naive_solver.
  eapply wp_bind; [by apply (drawSize_spec m max align); split; [lia|]|].
  intros ? (size & -> & Hs & Hds). case_bool_decide as H0.
  { wret. split; [done|]. split; [naive_solver|]. split; [done|]. intros _. pose proof (occ_nonneg useHint hints). lia. }
  destruct (memberLoop_fills (Z.to_nat size) useHint size 0 hints [] []) as
    (ts & ss & hints' & -> & Hsum & Hkeep & Hserve); [lia|lia|lia|].
  wret. split; [done|]. split; [naive_solver|]. split; [done|]. split; [done|].
  split_and!; simpl; [lia|lia|lia|done|lia|]. intros Hu. split; [apply Hmsh in Hu; lia|].
  intros k t Hk Hh. destruct (Hserve k t Hu Hk Hh). split; [done|]. by apply hasMember_elem.
Qed.

(** The limits in the table of map types. *)
Definition sizesOK (sc : list Z) : bool :=
  match limits sc with
  | Some (min, max, align) =>
      bool_decide (0 ≤ min ≤ max) && bool_decide (0 < align) && bool_decide (min `mod` align = 0) &&
      bool_decide (align = 1 ∨ align = 4 ∨ align = 8 ∧ 4 ≤ min)
  | None => false
  end.

Lemma bpfMapTypes_sizes :
  forallb (λ mt, sizesOK (mt_KeySize mt) && sizesOK (mt_ValSize mt)) bpfMapTypes = true.
Proof. vm_compute. reflexivity. Qed.

Lemma sizesOK_limits sc :
  sizesOK sc = true →
  ∃ min max align, limits sc = Some (min, max, align) ∧ limitsOK min max align ∧
    (align = 1 ∨ align = 4 ∨ align = 8 ∧ 4 ≤ min).
Proof.
  unfold sizesOK. destruct (limits sc) as [[[min max] align]|]; [|done].
  rewrite !andb_true_iff, !bool_decide_eq_true. intros [[[? ?] Hm] ?].
  exists min, max, align. split; [done|]. split; [|done]. split; [done|]. split; [done|].
  apply Z.mod_divide; [lia|done].
Qed.

Lemma mapType_limits mt :
  mt ∈ bpfMapTypes → sizesOK (mt_KeySize mt) = true ∧ sizesOK (mt_ValSize mt) = true.
Proof.
  intros Hin. pose proof bpfMapTypes_sizes as H. rewrite forallb_forall in H.
  apply list_elem_of_In, H in Hin. by apply andb_true_iff in Hin.
Qed.

(** At most one member is asked for, as [genHint] does. *)
Definition singleHint (hints : list ArgHint) : Prop :=
  occupiedSize hints = 0 ∨ occupiedSize hints = 4 ∨ occupiedSize hints = 8 ∨ occupiedSize hints = 16.

Lemma single_aligned hints min align msh :
  0 ≤ min → singleHint hints → (align = 1 ∨ align = 4 ∨ align = 8 ∧ 4 ≤ min) →
  (msh ≤ 0 ∨ (8 | msh)) →
  (occupiedSize hints ≤ min ∨ (align | occupiedSize hints)) ∧ (msh ≤ min ∨ (align | msh)).
Proof.
  intros Hmin Hh Ha Hm. split.
  - destruct Ha as [->|[->|[-> ?]]]; [right; apply Z.divide_1_l|..];
      destruct Hh as [->|[->|[->| ->]]]; try (left; lia); right;
      (exists 0; reflexivity) || (exists 1; reflexivity) || (exists 2; reflexivity) || (exists 4; reflexivity).
  - destruct Hm as [|[q ->]]; [left; lia|right].
    destruct Ha as [->|[->|[-> ?]]]; [apply Z.divide_1_l|exists (2 * q); lia|exists q; lia].
Qed.

(** ** Lemmas on flags *)

(** [chosen] has at most one flag of each group, in order. *)
Inductive picks : list string → list (list string) → Prop :=
  | picks_nil : picks [] []
  | picks_skip chosen fs groups : picks chosen groups → picks chosen (fs :: groups)
  | picks_take f chosen fs groups : f ∈ fs → picks chosen groups → picks (f :: chosen) (fs :: groups).

Lemma picks_sublist chosen groups : picks chosen groups → chosen `sublist_of` concat groups.
Proof.
  induction 1 as [|chosen fs groups _ IH|f chosen fs groups Hf _ IH]; simpl; [done|..].
  - by apply sublist_inserts_l.
  - change (f :: chosen) with ([f] ++ chosen). apply sublist_app; [|done].
    by apply singleton_sublist_l.
Qed.

Lemma picks_app c1 g1 c2 g2 : picks c1 g1 → picks c2 g2 → picks (c1 ++ c2) (g1 ++ g2).
Proof. induction 1; simpl; intros; [done|apply picks_skip; auto|apply picks_take; auto]. Qed.

Lemma chooseFlag_spec fs : fs ≠ [] → wp (chooseFlag fs) (λ f, f ∈ fs).
Proof.
  intros Hne. unfold chooseFlag. case_bool_decide.
  - apply wp_index; [lia|]. intros x Hx. by eapply list_elem_of_lookup_2.
  - by apply wp_pick.
Qed.

Lemma manFlagsLoop_spec groups flags :
  Forall (λ fs, fs ≠ []) groups →
  wp (manFlagsLoop groups flags) (λ flags', ∃ chosen, flags' = flags ++ chosen ∧ picks chosen groups).
Proof.
  intros Hne. revert flags. induction Hne as [|fs groups Hfs _ IH]; intros flags; simpl.
  { wret. exists []. rewrite app_nil_r. split; [done|constructor]. }
  eapply wp_bind; [by apply chooseFlag_spec|]. intros f Hf.
  eapply wp_mono; [apply IH|]. intros flags' (chosen & -> & Hp).
  exists (f :: chosen). rewrite <- app_assoc. split; [done|by apply picks_take].
Qed.

Lemma optFlagsLoop_spec val groups flags :
  Forall (λ fs, fs ≠ []) groups →
  wp (optFlagsLoop val groups flags)
    (λ flags', ∃ chosen, flags' = flags ++ chosen ∧ picks chosen groups).
Proof.
  intros Hne. revert flags. induction Hne as [|fs groups Hfs _ IH]; intros flags; simpl.
  { wret. exists []. rewrite app_nil_r. split; [done|constructor]. }
  assert (Htake : ∀ f, f ∈ fs → wp (optFlagsLoop val groups (flags ++ [f]))
    (λ flags', ∃ chosen, flags' = flags ++ chosen ∧ picks chosen (fs :: groups))).
  { intros f Hf. eapply wp_mono; [apply IH|]. intros flags' (chosen & -> & Hp).
    exists (f :: chosen). rewrite <- app_assoc. split; [done|by apply picks_take]. }
  destruct (forcedFlag val fs) as [f|] eqn:Hforced.
  { apply Htake. unfold forcedFlag in Hforced. destruct val, fs as [|f0 [|f1 [|]]]; try done.
    destruct (_ && _); [|done]. injection Hforced as ->. right. left. }
  eapply wp_bind; [by apply (wp_Intn _ (λ _, True))|]. intros b _. case_bool_decide.
  - eapply wp_mono; [apply IH|]. intros flags' (chosen & -> & Hp).
    exists chosen. split; [done|by apply picks_skip].
  - eapply wp_bind; [by apply chooseFlag_spec|]. exact Htake.
Qed.

Definition flagsOK (mt : BpfMapType) : bool :=
  bool_decide (NoDup (concat (mt_ManFlags mt ++ mt_OptFlags mt))) &&
  bool_decide (Forall (λ fs, fs ≠ []) (mt_ManFlags mt ++ mt_OptFlags mt)) &&
  bool_decide (-1 ≤ mt_MaxEntries mt).

Lemma bpfMapTypes_flags : forallb flagsOK bpfMapTypes = true.
Proof. vm_compute. reflexivity. Qed.

Lemma mapType_flags mt :
  mt ∈ bpfMapTypes →
  NoDup (concat (mt_ManFlags mt ++ mt_OptFlags mt)) ∧
  Forall (λ fs, fs ≠ []) (mt_ManFlags mt ++ mt_OptFlags mt) ∧ -1 ≤ mt_MaxEntries mt.
Proof.
  intros Hin. pose proof bpfMapTypes_flags as H. rewrite forallb_forall in H.
  apply list_elem_of_In, H in Hin. unfold flagsOK in Hin.
  rewrite !andb_true_iff, !bool_decide_eq_true in Hin. tauto.
Qed.

Lemma getFlag_elem m f : is_Some (getFlag m f) ↔ f ∈ m_Flags m.
Proof.
  unfold getFlag. rewrite fmap_is_Some. split.
  - intros [[i x] (Hi & -> & _)%list_find_Some]. by eapply list_elem_of_lookup_2.
  - intros Hf. by apply (list_find_elem_of (λ g, g = f) _ f).
Qed.

Lemma removeFlag_elem m f g :
  NoDup (m_Flags m) → g ∈ m_Flags (removeFlag m f) ↔ g ∈ m_Flags m ∧ g ≠ f.
Proof.
  intros Hnd. unfold removeFlag. destruct (getFlag m f) as [i|] eqn:Hi.
  - unfold getFlag in Hi. apply fmap_Some in Hi as ([j x] & (Hj & -> & _)%list_find_Some & ->). simpl.
    rewrite <- (take_drop_middle _ _ _ Hj) in Hnd. rewrite <- (take_drop_middle _ _ _ Hj) at 3.
    apply NoDup_app in Hnd as (_ & Hni & [Hnd _]%NoDup_cons).
    rewrite !elem_of_app, elem_of_cons.
    assert (f ∉ take j (m_Flags m)) by (intros Hx; apply (Hni f Hx); left). naive_solver.
  - assert (f ∉ m_Flags m) as Hf by (rewrite <- getFlag_elem, Hi; by intros [? ?]).
    split; [|tauto]. intros Hg. split; [done|]. by intros ->.
Qed.
