(* ===== verification/BpfNewMap.v ===== *)
(** * Correctness of map generation

    The maps that [NewMap] of [prog/brf_legacy.go] adds to a program, the structs
    it reuses, and the maps a helper may be given. *)

From stdpp Require Import base numbers strings pretty list.
From S2P Require Import Prelude BpfTypes BpfMaps.

Local Open Scope string_scope.
Local Open Scope list_scope.
Local Open Scope Z_scope.

(** ** Correctness of a generator

    [ensures tot m Q]: from every random stream [m] does not panic, its result
    satisfies [Q], and if [tot] is set it has one. *)
Definition ensures (tot : bool) {A} (m : Gen A) (Q : A → Prop) : Prop :=
  ∀ r, match m r with
       | Ret (a, _) => Q a
       | Panic => False
       | NoFuel => tot = false
       end.

(** The size limits of a map type, for a key or value that may be absent. *)
Definition sizeWithin (sc : list Z) (o : option StructDef) : Prop :=
  match o with
  | Some sd => lim sc 0 ≤ sd_Size sd ≤ lim sc 1
  | None => lim sc 0 = 0
  end.

(** A map of a program: its type is in the table, key and value have a size the
    type allows, and its flags are ones the type allows, each once. *)
Definition mapOK (m : BpfMap) : Prop :=
  ∃ mt, mt ∈ bpfMapTypes ∧ m_Type m = mt_Name mt ∧
    sizeWithin (mt_KeySize mt) (m_Key m) ∧ sizeWithin (mt_ValSize mt) (m_Val m) ∧
    NoDup (m_Flags m) ∧ (∀ f, f ∈ m_Flags m → f ∈ concat (mt_ManFlags mt ++ mt_OptFlags mt)).

(** The structs of a program add up to their size, and its maps are in order and
    named after their place; the first map is the scratch map, and the inner map
    of a map of maps comes before it. *)
Record progOK (p : MapProg) : Prop := {
  ok_structs : Forall (λ sd, 0 < sd_Size sd ∧ sumSizes (sd_FieldTypes sd) = sd_Size sd) (p_Structs p);
  ok_maps : Forall mapOK (p_Maps p);
  ok_names : ∀ i m, p_Maps p !! i = Some m → (1 ≤ i)%nat → m_Name m = "map_" +:+ pretty i;
  ok_inner : ∀ i m j, p_Maps p !! i = Some m → m_InnerMap m = Some j → (j < i)%nat;
}.

(** What [NewMap] does to a program. *)
Definition newMapPost (p : MapProg) (mt : BpfMapType) (hints : list ArgHint) (msh : Z)
    (res : option nat * MapProg * list ArgHint) : Prop :=
  let '(o, p', _) := res in
  progOK p' ∧ p_Maps p `prefix_of` p_Maps p' ∧ p_Structs p `prefix_of` p_Structs p' ∧
  match o with
  | Some i => ∃ m, p_Maps p' !! i = Some m ∧ length (p_Maps p') = S i ∧ m_Type m = mt_Name mt ∧
      (∀ sd, m_Val m = Some sd → msh ≤ sd_Size sd) ∧
      (∀ k t, hintMember k = Some t → hinted hints k = true → valHas m t = true)
  | None => lim (mt_ValSize mt) 1 < occupiedSize hints ∨ lim (mt_ValSize mt) 1 < msh
  end.

(** ** Lemmas *)

Lemma ensures_ret tot {A} (a : A) (Q : A → Prop) : Q a → ensures tot (mret a) Q.
Proof. by intros ? r. Qed.

Lemma ensures_mono tot {A} (m : Gen A) (P Q : A → Prop) : ensures tot m P → (∀ a, P a → Q a) → ensures tot m Q.
Proof. intros Hm H r. specialize (Hm r). destruct (m r) as [[a ?]| |]; [|done..]. by apply H. Qed.

Lemma ensures_bind tot {A B} (m : Gen A) (k : A → Gen B) (P : A → Prop) (Q : B → Prop) :
  ensures tot m P → (∀ a, P a → ensures tot (k a) Q) → ensures tot (m ≫= k) Q.
Proof.
  intros Hm Hk r. unfold mbind, Gen_bind. specialize (Hm r).
  destruct (m r) as [[a r']| |]; [|done..]. by apply Hk.
Qed.

Lemma ensures_bind2 tot {A B C} (m : Gen A) (k : A → Gen B) (f : B → Gen C)
    (P : B → Prop) (Q : C → Prop) :
  wp (m ≫= k) P → (∀ b, P b → ensures tot (f b) Q) → ensures tot (m ≫= λ x, k x ≫= f) Q.
Proof.
  intros Hm Hf r. specialize (Hm r). unfold mbind, Gen_bind in *.
  destruct (m r) as [[a r']| |]; [|done..].
  destruct (k a r') as [[b r'']| |]; [|done..]. by apply Hf.
Qed.

Lemma ensures_wp tot {A} (m : Gen A) (Q : A → Prop) : wp m Q → ensures tot m Q.
Proof. intros H r. specialize (H r). by destruct (m r) as [[a r']| |]. Qed.

Lemma wp_ensures {A} (m : Gen A) (Q : A → Prop) : ensures true m Q → wp m Q.
Proof. intros H r. specialize (H r). by destruct (m r) as [[a r']| |]. Qed.

Lemma drawMaxEntries_wp mt hints :
  -1 ≤ mt_MaxEntries mt → wp (drawMaxEntries mt hints) (λ _, True).
Proof.
  intros Hme. unfold drawMaxEntries. eapply (wp_bind _ _ (λ _, True)); [|intros; by wret].
  repeat case_bool_decide; try (by wret); try (apply wp_Intn; [lia|done]).
  eapply wp_bind; [apply (wp_Intn _ (λ _, True)); [lia|done]|]. intros; by wret.
Qed.

Lemma lim_limits sc min max align :
  limits sc = Some (min, max, align) → lim sc 0 = min ∧ lim sc 1 = max.
Proof. destruct sc as [|a [|b [|c [|d l]]]]; intros H; simplify_eq/=; done. Qed.

(** The struct part of [NewMap], for a key or a value. *)
Definition structPost (structs : list StructDef) (sc : list Z) (hints : list ArgHint)
    (useHint : bool) (msh : Z) (r : option StructDef * bool * list StructDef * list ArgHint) : Prop :=
  let '(o, ok, structs', hints') := r in
  structs `prefix_of` structs' ∧
  Forall (λ sd, 0 < sd_Size sd ∧ sumSizes (sd_FieldTypes sd) = sd_Size sd) structs' ∧
  (useHint = false → ok = true ∧ hints' = hints) ∧
  (ok = false → lim sc 1 < occupiedSize hints ∨ lim sc 1 < msh) ∧
  (ok = true → sizeWithin sc o ∧ (useHint = true →
     (∀ sd, o = Some sd → msh ≤ sd_Size sd) ∧
     ∀ k t, hintMember k = Some t → hinted hints k = true →
       ∃ sd, o = Some sd ∧ hasMember sd t = true)).

Lemma generate_post structs sc hints useHint msh :
  Forall (λ sd, 0 < sd_Size sd ∧ sumSizes (sd_FieldTypes sd) = sd_Size sd) structs →
  sizesOK sc = true → singleHint hints → (msh ≤ 0 ∨ (8 | msh)) →
  wp (generateStruct structs sc hints useHint msh) (structPost structs sc hints useHint msh).
Proof.
  intros Hst Hsc Hh Hm. destruct (sizesOK_limits sc Hsc) as (min & max & align & Hl & Hlim & Ha).
  destruct (lim_limits _ _ _ _ Hl) as [Hl0 Hl1].
  eapply wp_mono; [apply (generateStruct_spec structs sc min max align hints useHint msh Hl Hlim)|].
  { intros _. apply single_aligned; try done. apply Hlim. }
  intros [[[o ok] structs'] hints'] (Hkeep & Hok & Ho). unfold structPost, sizeWithin. rewrite Hl0, Hl1.
  assert (Hokf : useHint = false → ok = true).
  { intros ->. destruct ok; [done|]. by destruct (proj1 Hok eq_refl). }
  destruct o as [sd|].
  - destruct Ho as (-> & -> & Hmm & Hpos & _ & Hsum & Hserve). split_and!; try done.
    + by apply prefix_app_r.
    + apply Forall_app_2; [done|]. by repeat constructor.
    + by intros Hu; split; [|apply Hkeep].
    + intros _. split; [done|]. intros Hu.
      destruct (Hserve Hu) as [Hms Hmem]. split; [by intros ? [= <-]|].
      intros k t Hk Hhk. exists sd. split; [done|]. by apply (Hmem k t).
  - destruct Ho as [-> Hz]. split_and!; try done.
    + intros Hu. split; [by apply Hokf|by apply Hkeep].
    + intros Hf. apply Hok in Hf. tauto.
    + intros Ht. destruct (Hz Ht) as [-> Hocc]. split; [done|].
      intros ->. split; [done|]. intros k t Hk Hhk.
      by rewrite (occ_zero _ _ _ Hocc Hk) in Hhk.
Qed.

Lemma reuse_post compat structs sc hints useHint msh :
  Forall (λ sd, 0 < sd_Size sd ∧ sumSizes (sd_FieldTypes sd) = sd_Size sd) structs →
  sizesOK sc = true → singleHint hints → (msh ≤ 0 ∨ (8 | msh)) →
  (∀ sd, sd ∈ compat → sizeWithin sc (Some sd) ∧ (useHint = true → msh ≤ sd_Size sd ∧
     ∀ k t, hintMember k = Some t → hinted hints k = true → hasMember sd t = true)) →
  wp (reuseOrGenerate compat structs (generateStruct structs sc hints useHint msh) hints)
    (structPost structs sc hints useHint msh).
Proof.
  intros Hst Hsc Hh Hm Hc. unfold reuseOrGenerate.
  eapply wp_bind; [by apply (wp_Intn _ (λ _, True))|]. intros b _.
  destruct (bool_decide _ && bool_decide _) eqn:Hb; [|by apply generate_post].
  apply andb_true_iff in Hb as [_ Hne%bool_decide_eq_true].
  eapply wp_bind; [apply (wp_pick _ (λ sd, sd ∈ compat)); done|]. intros sd Hsd. wret.
  destruct (Hc sd Hsd) as [Hw Hu]. unfold structPost. split_and!; try done.
  intros _. split; [done|]. intros Hut. destruct (Hu Hut) as [? Hmem].
  split; [by intros ? [= <-]|]. intros k t Hk Hhk. exists sd. eauto.
Qed.

Lemma compatKey_within structs mt sd :
  sd ∈ getCompatKeyStructDefs structs mt → sizeWithin (mt_KeySize mt) (Some sd).
Proof. intros [? _]%list_elem_of_filter. done. Qed.

Lemma compatVal_within structs hints msh mt sd :
  sd ∈ getCompatValStructDefs structs hints msh mt →
  sizeWithin (mt_ValSize mt) (Some sd) ∧ (msh ≠ -1 → msh ≤ sd_Size sd) ∧
  ∀ k t, hintMember k = Some t → hinted hints k = true → hasMember sd t = true.
Proof.
  intros [Hr _]%list_elem_of_filter. unfold valStructRejected in Hr.
  repeat match type of Hr with (_ || _) = false => apply orb_false_iff in Hr as [Hr ?] end.
  apply andb_false_iff in Hr.
  repeat match goal with H : (_ && negb _) = false |- _ => apply andb_false_iff in H end.
  match goal with H : (bool_decide _ || bool_decide _) = false |- _ =>
    apply orb_false_iff in H as [Hlo Hhi] end.
  apply bool_decide_eq_false in Hlo, Hhi. split; [unfold sizeWithin; lia|]. split.
  - intros Hne. rewrite !bool_decide_eq_false in Hr. destruct Hr; [done|lia].
  - intros k t Hk Hhk. destruct k; simplify_eq/=;
      repeat match goal with H : hinted _ _ = false ∨ negb _ = false |- _ =>
        destruct H as [H|H]; [|apply negb_false_iff in H] end; congruence.
Qed.

(** The inner map of a map of maps. *)
Definition innerPost (p : MapProg) (r : option nat * MapProg) : Prop :=
  progOK r.2 ∧ p_Maps p `prefix_of` p_Maps r.2 ∧ p_Structs p `prefix_of` p_Structs r.2 ∧
  (∀ i, r.1 = Some i → (i < length (p_Maps r.2))%nat).

(** Appending the finished map. *)
Lemma progOK_snoc p m :
  progOK p → mapOK m → m_Name m = "map_" +:+ pretty (length (p_Maps p)) →
  (∀ j, m_InnerMap m = Some j → (j < length (p_Maps p))%nat) →
  progOK (mkMapProg (p_Enum p) (p_Sleepable p) (p_Structs p) (p_Maps p ++ [m])).
Proof.
  intros [Hs Hm Hn Hinn] HmOK Hname Hin. split; simpl; [done| | |].
  - apply Forall_app_2; [done|by constructor].
  - intros i m' [Hi|[Hi Hm']]%lookup_app_Some Hge; [by apply Hn|].
    apply list_lookup_singleton_Some in Hm' as [Hz <-]. rewrite Hname. f_equal. f_equal. lia.
  - intros i m' j [Hlt|[Hge Hm']]%lookup_app_Some Hj; [by eapply Hinn|].
    apply list_lookup_singleton_Some in Hm' as [Hz <-]. apply Hin in Hj. lia.
Qed.

Lemma progOK_structs p structs :
  progOK p → Forall (λ sd, 0 < sd_Size sd ∧ sumSizes (sd_FieldTypes sd) = sd_Size sd) structs →
  progOK (mkMapProg (p_Enum p) (p_Sleepable p) structs (p_Maps p)).
Proof. intros [_ Hm Hn Hi] Hs. by split. Qed.

(** The flags of a new map. *)
Lemma newFlags_spec mt val :
  mt ∈ bpfMapTypes →
  wp (flags ← manFlagsLoop (mt_ManFlags mt) []; optFlagsLoop val (mt_OptFlags mt) flags)
    (λ flags, NoDup flags ∧ ∀ f, f ∈ flags → f ∈ concat (mt_ManFlags mt ++ mt_OptFlags mt)).
Proof.
  intros Hmt. destruct (mapType_flags mt Hmt) as (Hnd & [Hm Ho]%Forall_app & _).
  eapply wp_bind; [by apply manFlagsLoop_spec|]. intros fl (c1 & -> & H1).
  eapply wp_mono; [by apply optFlagsLoop_spec|]. intros fl (c2 & -> & H2). simpl.
  pose proof (picks_sublist _ _ (picks_app _ _ _ _ H1 H2)) as Hsub. split.
  - by eapply sublist_NoDup.
  - intros f Hf. by eapply elem_of_sublist.
Qed.

Lemma valPost_hints val (hints : list ArgHint) m :
  m_Val m = val →
  (∀ k t, hintMember k = Some t → hinted hints k = true → ∃ sd, val = Some sd ∧ hasMember sd t = true) →
  ∀ k t, hintMember k = Some t → hinted hints k = true → valHas m t = true.
Proof. intros Hv H k t Hk Hh. destruct (H k t Hk Hh) as (sd & -> & Hm). unfold valHas. by rewrite Hv. Qed.

(** The body, for any way to make the inner maps. *)
Lemma newMapWith_ensures tot newMap p mt hints msh :
  mt ∈ bpfMapTypes → progOK p → singleHint hints → (msh ≤ 0 ∨ (8 | msh)) →
  (isMapOfMaps (mt_Name mt) = true → ∀ p imt, imt ∈ bpfMapTypes → progOK p →
     ensures tot (newMap p imt [] 0) (λ r, innerPost p r.1)) →
  ensures tot (newMapWith newMap p mt hints msh) (newMapPost p mt hints msh).
Proof.
  intros Hmt Hp Hh Hmsh Hinner. destruct (mapType_limits mt Hmt) as [Hks Hvs].
  destruct (mapType_flags mt Hmt) as (_ & _ & Hme).
  destruct (sizesOK_limits _ Hvs) as (vmin & vmax & va & Hvl & ([Hv0 _] & _) & _).
  destruct (lim_limits _ _ _ _ Hvl) as [Hl0 _]. unfold newMapWith.
  eapply ensures_bind; [apply ensures_wp; by apply drawMaxEntries_wp|]. intros me _.
  eapply ensures_bind.
  { apply ensures_wp. apply (reuse_post _ (p_Structs p) (mt_KeySize mt) hints false 0);
      [apply Hp|done|done|by left|].
    intros sd Hsd. split; [by eapply compatKey_within|done]. }
  intros [[[key kok] structs1] hints1] (Hpre1 & Hst1 & Hk1 & _ & Hkw).
  destruct (Hk1 eq_refl) as [-> ->]. destruct (Hkw eq_refl) as [Hkey _]. clear Hk1 Hkw.
  cbn [negb p_Structs p_Maps p_Enum p_Sleepable].
  eapply ensures_bind.
  { apply ensures_wp. apply (reuse_post _ structs1 (mt_ValSize mt) hints true msh); try done.
    intros sd Hsd. destruct (compatVal_within _ _ _ _ _ Hsd) as (Hw & Hs & Hmem).
    split; [done|]. intros _. split; [|done]. destruct (decide (msh = -1)) as [->|]; [|by apply Hs].
    unfold sizeWithin in Hw. lia. }
  intros [[[val vok] structs2] hints2] (Hpre2 & Hst2 & _ & Hvf & Hvw).
  set (p2 := mkMapProg (p_Enum p) (p_Sleepable p) structs2 (p_Maps p)).
  assert (Hp2 : progOK p2) by (by apply progOK_structs).
  assert (Hpre : p_Structs p `prefix_of` p_Structs p2) by (by trans structs1).
  destruct vok; cbn [negb].
  2:{ apply ensures_ret. split_and!; try done. by apply Hvf. }
  destruct (Hvw eq_refl) as [Hval Hvh]. destruct (Hvh eq_refl) as [Hvsz Hvmem]. clear Hvf Hvw Hvh.
  eapply (ensures_bind _ _ _ (innerPost p2)).
  { destruct (isMapOfMaps (mt_Name mt)); [|by apply ensures_ret].
    eapply ensures_bind; [apply ensures_wp; by apply (wp_pick _ (λ imt, imt ∈ bpfMapTypes))|].
    intros imt Himt. eapply ensures_bind; [by apply Hinner|].
    intros [[inner p3] h3] Hin. by apply ensures_ret. }
  intros [inner p3] (Hp3 & Hm3 & Hs3 & Hi3). cbn [fst snd] in *.
  eapply ensures_bind2; [by apply (newFlags_spec mt val)|]. intros flags [Hnd Hin].
  apply ensures_ret. split; [|split; [|split]]; simpl.
  - apply (progOK_snoc p3); [done| |done|done]. exists mt. by split_and!.
  - trans (p_Maps p3); [done|]. by apply prefix_app_r.
  - by trans (p_Structs p2).
  - eexists. split; [by apply list_lookup_middle|]. split; [rewrite length_app; simpl; lia|].
    split; [done|]. split; [done|]. by eapply valPost_hints.
Qed.

Lemma NewMap_ensures tot fuel p mt hints msh :
  mt ∈ bpfMapTypes → progOK p → singleHint hints → (msh ≤ 0 ∨ (8 | msh)) →
  (tot = true → fuel ≠ 0%nat ∧ isMapOfMaps (mt_Name mt) = false) →
  ensures tot (NewMap fuel p mt hints msh) (newMapPost p mt hints msh).
Proof.
  revert tot p mt hints msh.
  induction fuel as [|fuel IH]; intros tot p mt hints msh Hmt Hp Hh Hmsh Htot.
  { intros r. simpl. destruct tot; [|done]. by destruct (Htot eq_refl). }
  apply (newMapWith_ensures tot (NewMap fuel)); try done. intros Hi p2 imt Himt Hp2.
  destruct tot; [by destruct (Htot eq_refl) as [_ ?]; congruence|]. intros r.
  assert (H : ensures false (NewMap fuel p2 imt [] 0) (newMapPost p2 imt [] 0)) by (apply IH; try done; by left).
  specialize (H r).
  destruct (NewMap fuel p2 imt [] 0 r) as [[[[o p'] ?] ?]| |]; [|done..].
  destruct H as (? & ? & ? & Ho). split_and!; try done. simpl. intros i ->. destruct Ho as (m & Hm & _). by eapply lookup_lt_Some.
Qed.

Lemma compat_tables_check :
  forallb (λ e, forallb (λ m, isMapFuncCompatible m e.1) e.2) funcCompMaps &&
  forallb (λ e, forallb (λ f, isMapFuncCompatible e.1 f) e.2) mapCompFuncs = true.
Proof. vm_compute. reflexivity. Qed.

(** A list that keeps what is not rejected is empty when all is rejected. *)
Lemma storageTaken_elem p m i typ :
  p_Maps p !! i = Some m → m_Type m = typ →
  typ = "BPF_MAP_TYPE_CGROUP_STORAGE" ∨ typ = "BPF_MAP_TYPE_PERCPU_CGROUP_STORAGE" →
  storageTaken p typ = true.
Proof.
  intros Hi Ht Hor. unfold storageTaken. apply andb_true_iff. split.
  - apply orb_true_iff. destruct Hor; [left|right]; by apply bool_decide_eq_true.
  - apply existsb_exists. exists m. split; [by eapply list_elem_of_In, list_elem_of_lookup_2|].
    by apply bool_decide_eq_true.
Qed.

Lemma getHelperCompatMaps_elem p h hint i :
  i ∈ getHelperCompatMaps p h hint → ∃ m, p_Maps p !! i = Some m ∧ mapRejected p h hint m = false.
Proof.
  unfold getHelperCompatMaps. intros ([j m] & -> & [Hr Hin]%list_elem_of_filter)%list_elem_of_fmap.
  apply list_elem_of_lookup in Hin as [k Hk]. rewrite list_lookup_imap in Hk.
  apply fmap_Some in Hk as (m' & Hm' & [= -> ->]). eauto.
Qed.

Lemma mapRejected_storage p h hint m :
  mapRejected p h hint m = false →
  isMapFuncCompatible (m_Type m) (h_Enum h) = true ∧ storageTaken p (m_Type m) = false.
Proof.
  unfold mapRejected. cbv zeta. rewrite !orb_false_iff, negb_false_iff. tauto.
Qed.

Lemma mapTypeRejected_storage p h hint mt :
  mapTypeRejected p h hint mt = false →
  isMapFuncCompatible (mt_Name mt) (h_Enum h) = true ∧ storageTaken p (mt_Name mt) = false.
Proof.
  unfold mapTypeRejected. cbv zeta. rewrite !orb_false_iff, negb_false_iff. tauto.
Qed.

(** The program of a new [BpfProg]: only the scratch map. *)
Definition scratchProg (e : BpfProgTypeEnum) : MapProg :=
  mkMapProg e false []
    [mkMap "scratch_map" "BPF_MAP_TYPE_PERCPU_ARRAY" []
       (Some (mkStruct "uint32_t" [] ["uint32_t"] 4 [] false))
       (Some (mkStruct "char [256]" [] ["char [256]"] 256 [] false)) 10 None].

Lemma scratchProg_OK e : progOK (scratchProg e).
Proof.
  split; simpl; [constructor| |by intros [|[|i]] m Hm Hi; [lia|..]|by intros [|i] m j Hm Hj; simplify_eq/=].
  constructor; [|constructor].
  exists (mkMapType "BPF_MAP_TYPE_PERCPU_ARRAY" []
    [["BPF_F_WRONLY"; "BPF_F_RDONLY"]; ["BPF_F_WRONLY_PROG"; "BPF_F_RDONLY_PROG"]] [4; 4] [1; 4096] (-1)).
  split; [do 5 right; left|]. split_and!; simpl; try done; [constructor|].
  by intros f ?%not_elem_of_nil.
Qed.

(** ** Properties *)



(** Removing a flag from a map of a well-formed program removes it for good,
    keeps every other flag, and keeps the map well-formed: no map has a flag
    twice, so taking out the first occurrence is enough. *)
Theorem removeFlag_complete (p : MapProg) (i : nat) (m : BpfMap) (f : string) :
  progOK p → p_Maps p !! i = Some m →
  mapOK (removeFlag m f) ∧ getFlag (removeFlag m f) f = None ∧
  (∀ g, g ≠ f → (is_Some (getFlag (removeFlag m f) g) ↔ is_Some (getFlag m g))).
Proof.
  intros Hp Hi. pose proof (Forall_lookup_1 _ _ _ _ (ok_maps p Hp) Hi) as Hm.
  pose proof Hm as (mt & Hmt & Ht & Hk & Hv & Hnd & Hfl).
  pose proof (λ g, removeFlag_elem m f g Hnd) as Hel. split_and!.
  - assert (Hrest : m_Type (removeFlag m f) = m_Type m ∧ m_Key (removeFlag m f) = m_Key m ∧
      m_Val (removeFlag m f) = m_Val m ∧ NoDup (m_Flags (removeFlag m f))).
    { unfold removeFlag. destruct (getFlag m f) as [j|]; [|done]. split_and!; try done. simpl.
      rewrite <- delete_take_drop. by apply (sublist_NoDup _ (m_Flags m)), sublist_delete. }
    destruct Hrest as (E1 & E2 & E3 & E4). exists mt. rewrite E1, E2, E3. split_and!; try done.
    intros g [Hg _]%Hel. by apply Hfl.
  - apply eq_None_not_Some. rewrite getFlag_elem, Hel. tauto.
  - intros g Hne. rewrite !getFlag_elem, Hel. tauto.
Qed.

Lemma removeFlag_complete_witness :
  getFlag (removeFlag (mkMap "scratch_map" "BPF_MAP_TYPE_PERCPU_ARRAY" []
       (Some (mkStruct "uint32_t" [] ["uint32_t"] 4 [] false))
       (Some (mkStruct "char [256]" [] ["char [256]"] 256 [] false)) 10 None)
     "BPF_F_RDONLY_PROG") "BPF_F_RDONLY_PROG" = None.
Proof.
  refine (proj1 (proj2 (removeFlag_complete (scratchProg BPF_PROG_TYPE_XDP) 0 _ _
    (scratchProg_OK _) _))).
  reflexivity.
Defined.

(** A struct that is reused as a value has a size within the limits of the
    map type, is large enough for the intended access, and has every member the
    call's hints ask for. *)
Theorem reused_value_fits (structs : list StructDef) (hints : list ArgHint) (msh : Z)
    (mt : BpfMapType) (sd : StructDef) :
  sd ∈ getCompatValStructDefs structs hints msh mt →
  sd ∈ structs ∧ lim (mt_ValSize mt) 0 ≤ sd_Size sd ≤ lim (mt_ValSize mt) 1 ∧
  (msh ≠ -1 → msh ≤ sd_Size sd) ∧
  ∀ k t, hintMember k = Some t → hinted hints k = true → hasMember sd t = true.
Proof.
  intros Hsd. split; [by apply list_elem_of_filter in Hsd as [_ ?]|].
  exact (compatVal_within _ _ _ _ _ Hsd).
Qed.

Lemma reused_value_fits_witness :
  lim [8; 4096; 8] 0 ≤ sd_Size (mkStruct "struct_0" [] ["uint64_t"; "uint32_t"] 12 [] true)
    ≤ lim [8; 4096; 8] 1.
Proof.
  refine (proj1 (proj2 (reused_value_fits
    [mkStruct "struct_0" [] ["uint64_t"; "uint32_t"] 12 [] true] [] 0
    (mkMapType "BPF_MAP_TYPE_STACK_TRACE" [] [] [4; 4] [8; 4096; 8] (-1))
    (mkStruct "struct_0" [] ["uint64_t"; "uint32_t"] 12 [] true) _))).
  apply (bool_decide_unpack _). vm_compute. exact I.
Defined.

(** The alignment of the value is not checked on reuse, because the check
    reads the third entry of the key limits: a struct of 12 bytes is offered as
    the value of a stack trace map, whose values must be multiples of 8, while
    [generateStruct] never makes such a value for it. *)
Theorem reuse_ignores_alignment :
  let mt := mkMapType "BPF_MAP_TYPE_STACK_TRACE" []
    [["BPF_F_NUMA_NODE"]; ["BPF_F_RDONLY"; "BPF_F_WRONLY"]; ["BPF_F_STACK_BUILD_ID"]]
    [4; 4] [8; 4096; 8] (-1) in
  let sd := mkStruct "struct_0" [] ["uint64_t"; "uint32_t"] 12 [] true in
  mt ∈ bpfMapTypes ∧ sd ∈ getCompatValStructDefs [sd] [] 0 mt ∧ ¬ (8 | sd_Size sd) ∧
  wp (generateStruct [] (mt_ValSize mt) [] true 0)
    (λ '(o, _, _, _), ∀ sd', o = Some sd' → (8 | sd_Size sd')).
Proof.
  intros mt sd. split; [do 6 right; left|]. split; [|split].
  - apply (bool_decide_unpack _). vm_compute. exact I.
  - intros [q Hq]. simpl in Hq. lia.
  - eapply wp_mono; [apply (generateStruct_spec [] [8; 4096; 8] 8 4096 8)|].
    + done.
    + split; [lia|]. split; [lia|by exists 1].
    + intros _. split; left; vm_compute; congruence.
    + intros [[[o ok] st] h] (_ & _ & Ho) sd' ->. by destruct Ho as (_ & _ & _ & _ & Hd & _).
Qed.

(** A program never reuses its cgroup storage map, since the check for
    another storage map of the type also finds the candidate itself.  Once a
    program has both kinds, a further call of bpf_get_local_storage gets neither
    an existing map nor a new one. *)
Theorem cgroup_storage_never_reused (p : MapProg) (h : BpfHelper) (hint : BpfCallGenHint) :
  (∀ i m, i ∈ getHelperCompatMaps p h hint → p_Maps p !! i = Some m →
     m_Type m ≠ "BPF_MAP_TYPE_CGROUP_STORAGE" ∧ m_Type m ≠ "BPF_MAP_TYPE_PERCPU_CGROUP_STORAGE") ∧
  (∀ i1 i2 m1 m2, h_Enum h = BPF_FUNC_get_local_storage →
     p_Maps p !! i1 = Some m1 → m_Type m1 = "BPF_MAP_TYPE_CGROUP_STORAGE" →
     p_Maps p !! i2 = Some m2 → m_Type m2 = "BPF_MAP_TYPE_PERCPU_CGROUP_STORAGE" →
     getHelperCompatMaps p h hint = [] ∧ getHelperCompatMapTypes p h hint = []).
Proof.
  assert (Hno : ∀ i m, i ∈ getHelperCompatMaps p h hint → p_Maps p !! i = Some m →
     m_Type m ≠ "BPF_MAP_TYPE_CGROUP_STORAGE" ∧ m_Type m ≠ "BPF_MAP_TYPE_PERCPU_CGROUP_STORAGE").
  { intros i m (m' & Hm' & Hr)%getHelperCompatMaps_elem Hm. rewrite Hm in Hm'. injection Hm' as <-.
    destruct (mapRejected_storage _ _ _ _ Hr) as [_ Hst].
    split; intros Ht; rewrite (storageTaken_elem p m i _ Hm eq_refl) in Hst; by auto. }
  split; [done|]. intros i1 i2 m1 m2 Hf H1 T1 H2 T2.
  assert (Hcompat : ∀ t, isMapFuncCompatible t (h_Enum h) = true →
    t = "BPF_MAP_TYPE_CGROUP_STORAGE" ∨ t = "BPF_MAP_TYPE_PERCPU_CGROUP_STORAGE").
  { intros t. rewrite Hf. unfold isMapFuncCompatible. intros [Hc _]%andb_true_iff.
    change (bool_decide (t ∈ ["BPF_MAP_TYPE_CGROUP_STORAGE"; "BPF_MAP_TYPE_PERCPU_CGROUP_STORAGE"])
            = true) in Hc.
    apply bool_decide_eq_true in Hc. by rewrite !elem_of_cons, elem_of_nil in Hc; naive_solver. }
  assert (Htaken : ∀ t, isMapFuncCompatible t (h_Enum h) = true → storageTaken p t = true).
  { intros t Ht. destruct (Hcompat t Ht) as [-> | ->].
    - by eapply storageTaken_elem; [exact H1|done|left].
    - by eapply storageTaken_elem; [exact H2|done|right]. }
  split; apply elem_of_nil_inv.
  - intros i (m & Hm & [Hc Hs]%mapRejected_storage)%getHelperCompatMaps_elem.
    by rewrite Htaken in Hs.
  - intros mt [[Hc Hs]%mapTypeRejected_storage _]%list_elem_of_filter. by rewrite Htaken in Hs.
Qed.

(** The two compatibility tables agree: no entry of one is ruled out by the
    other. *)
Theorem compat_tables_agree (m : string) (f : BpfHelperEnum) :
  (∀ maps, (f, maps) ∈ funcCompMaps → m ∈ maps → isMapFuncCompatible m f = true) ∧
  (∀ funcs, (m, funcs) ∈ mapCompFuncs → f ∈ funcs → isMapFuncCompatible m f = true).
Proof.
  pose proof compat_tables_check as [H1 H2]%andb_true_iff. rewrite !forallb_forall in H1, H2. split.
  - intros maps Hf%list_elem_of_In Hm%list_elem_of_In. apply H1 in Hf. rewrite forallb_forall in Hf.
    by apply Hf.
  - intros funcs Hm%list_elem_of_In Hf%list_elem_of_In. apply H2 in Hm. rewrite forallb_forall in Hm.
    by apply Hm.
Qed.
