(* ===== verification/WorkDir.v ===== *)
(** * Keeping the work directory bounded

    [pruneWorkDir] of [prog/brf.go]: when the generated artifacts in the work
    directory exceed the cap, the oldest are deleted until they fit.  The order
    of artifacts of the same age is up to [sort.Slice], which is not stable, and
    a deletion may fail; both are arguments.  A path is named by its entry in the
    work directory; sizes are summed in 64 bits. *)

From stdpp Require Import base numbers strings list sorting.
From S2P Require Import Prelude.

Local Open Scope string_scope.
Local Open Scope list_scope.
Local Open Scope Z_scope.

(** What [os.ReadDir] returns: [e_info] is the size and the modification time,
    [None] when [Info] fails. *)
Record DirEntry := mkEntry {
  e_isDir : bool;
  e_name : string;
  e_info : option (Z * Z);
}.

Record artifact := mkArtifact {
  a_path : string;
  a_size : Z;
  a_mtime : Z;
}.

#[global] Instance artifact_eq_dec : EqDecision artifact.
Proof. solve_decision. Defined.

(** The value of an [int64] expression. *)
Definition int64 (z : Z) : Z := (z + 2 ^ 63) `mod` 2 ^ 64 - 2 ^ 63.

(** [int64(4) << 30]. *)
Definition brfWorkDirCapBytes : Z := int64 (Z.shiftl 4 30).

(** [strings.HasSuffix]. *)
Definition hasSuffix (s p : string) : bool :=
  bool_decide (String.length p ≤ String.length s)%nat &&
  bool_decide (String.substring (String.length s - String.length p) (String.length p) s = p).

(** The names the sweep may touch. *)
Definition isArtifact (name : string) : bool :=
  (hasPrefix name "prog_" || hasPrefix name "test_prog.") &&
  (hasSuffix name ".c" || hasSuffix name ".o" || hasSuffix name ".gob").

(** The loop over the entries: the artifacts in order and their total size. *)
Fixpoint collect (entries : list DirEntry) (arts : list artifact) (total : Z) : list artifact * Z :=
  match entries with
  | [] => (arts, total)
  | e :: entries =>
      if e_isDir e then collect entries arts total
      else if negb (isArtifact (e_name e)) then collect entries arts total
      else
        match e_info e with
        | None => collect entries arts total
        | Some (size, mtime) =>
            collect entries (arts ++ [mkArtifact (e_name e) size mtime]) (int64 (total + size))
        end
  end.

(** The deletion loop: the artifacts deleted, and whether it stopped on an error. *)
Fixpoint sweep (remove : string → bool) (arts : list artifact) (total : Z) : list artifact * bool :=
  match arts with
  | [] => ([], false)
  | a :: arts =>
      if bool_decide (total ≤ brfWorkDirCapBytes) then ([], false)
      else if negb (remove (a_path a)) then ([], true)
      else
        let '(gone, err) := sweep remove arts (int64 (total - a_size a)) in
        (a :: gone, err)
  end.

(** [arts[i].mtime.Before(arts[j].mtime)] does not hold for [j] before [i]. *)
Definition notAfter (a b : artifact) : Prop := a_mtime a ≤ a_mtime b.

#[global] Instance notAfter_dec a b : Decision (notAfter a b).
Proof. unfold notAfter. apply _. Defined.

#[global] Instance notAfter_trans : Transitive notAfter.
Proof. intros a b c. unfold notAfter. lia. Qed.

#[global] Instance notAfter_total : Total notAfter.
Proof. intros a b. unfold notAfter. lia. Qed.

(** What [sort.Slice] promises. *)
Class SortSlice (sort : list artifact → list artifact) : Prop := {
  sort_perm l : sort l ≡ₚ l;
  sort_sorted l : StronglySorted notAfter (sort l);
}.

Section prune.
Variable sort : list artifact → list artifact.
Variable remove : string → bool.

(** [pruneWorkDir], by what [os.ReadDir] returns ([None] is an error): the
    artifacts deleted, in order, and whether a deletion failed. *)
Definition pruneWorkDir (readDir : option (list DirEntry)) : list artifact * bool :=
  match readDir with
  | None => ([], false)
  | Some entries =>
      let '(arts, total) := collect entries [] 0 in
      if bool_decide (total ≤ brfWorkDirCapBytes) then ([], false)
      else sweep remove (sort arts) total
  end.
End prune.

(** The artifacts of a directory, and their size. *)
Definition entryArtifact (e : DirEntry) : option artifact :=
  if e_isDir e || negb (isArtifact (e_name e)) then None
  else (λ '(size, mtime), mkArtifact (e_name e) size mtime) <$> e_info e.

Definition artifacts (entries : list DirEntry) : list artifact := omap entryArtifact entries.

Fixpoint sizeOf (l : list artifact) : Z :=
  match l with
  | [] => 0
  | a :: l => a_size a + sizeOf l
  end.

(** ** Lemmas *)

Lemma int64_id z : - 2 ^ 63 ≤ z < 2 ^ 63 → int64 z = z.
Proof. intros Hz. unfold int64. rewrite Z.mod_small; lia. Qed.

Lemma sizeOf_app l1 l2 : sizeOf (l1 ++ l2) = sizeOf l1 + sizeOf l2.
Proof. induction l1 as [|a l1 IH]; simpl; [done|]. rewrite IH. lia. Qed.

Lemma sizeOf_perm l1 l2 : l1 ≡ₚ l2 → sizeOf l1 = sizeOf l2.
Proof. induction 1; simpl; lia. Qed.

Lemma sizeOf_nonneg l : Forall (λ a, 0 ≤ a_size a) l → 0 ≤ sizeOf l.
Proof. induction 1; simpl; lia. Qed.

Lemma artifacts_cons e entries :
  artifacts (e :: entries) =
  match entryArtifact e with Some a => a :: artifacts entries | None => artifacts entries end.
Proof. done. Qed.

Lemma collect_cons e entries arts total :
  collect (e :: entries) arts total =
  match entryArtifact e with
  | Some a => collect entries (arts ++ [a]) (int64 (total + a_size a))
  | None => collect entries arts total
  end.
Proof.
  unfold entryArtifact. simpl. destruct (e_isDir e), (isArtifact (e_name e)); try done.
  by destruct (e_info e) as [[size mtime]|].
Qed.

Lemma collect_spec entries arts total :
  Forall (λ a, 0 ≤ a_size a) (artifacts entries) → 0 ≤ total →
  total + sizeOf (artifacts entries) < 2 ^ 63 →
  collect entries arts total = (arts ++ artifacts entries, total + sizeOf (artifacts entries)).
Proof.
  revert arts total. induction entries as [|e entries IH]; intros arts total Hnn H0 Hlt.
  - simpl. by rewrite app_nil_r, Z.add_0_r.
  - rewrite collect_cons. rewrite artifacts_cons in *. destruct (entryArtifact e) as [a|]; [|by apply IH].
    apply Forall_cons in Hnn as [Hs Hnn]. cbn [sizeOf] in *. pose proof (sizeOf_nonneg _ Hnn) as Hr.
    rewrite int64_id by lia. rewrite IH by (done || lia). rewrite <- app_assoc. f_equal. lia.
Qed.

(** The loop deletes the shortest prefix that brings the rest under the cap, or
    stops before that at a deletion that fails. *)
Lemma sweep_spec remove arts :
  Forall (λ a, 0 ≤ a_size a) arts → sizeOf arts < 2 ^ 63 →
  ∃ kept, arts = (sweep remove arts (sizeOf arts)).1 ++ kept ∧
    Forall (λ a, remove (a_path a) = true) (sweep remove arts (sizeOf arts)).1 ∧
    (∀ pre a, (sweep remove arts (sizeOf arts)).1 = pre ++ [a] →
       brfWorkDirCapBytes < sizeOf (a :: kept)) ∧
    if (sweep remove arts (sizeOf arts)).2
    then ∃ a kept', kept = a :: kept' ∧ remove (a_path a) = false ∧ brfWorkDirCapBytes < sizeOf kept
    else sizeOf kept ≤ brfWorkDirCapBytes.
Proof.
  induction arts as [|a arts IH]; intros Hnn Hlt.
  - exists []. split; [done|]. split; [constructor|]. split; [by intros [|]|]. by vm_compute.
  - apply Forall_cons in Hnn as [Ha Hnn]. cbn [sweep sizeOf] in *.
    pose proof (sizeOf_nonneg _ Hnn) as Hr.
    case_bool_decide as Hcap.
    { exists (a :: arts). split; [done|]. split; [constructor|]. by split; [intros [|]|]. }
    destruct (remove (a_path a)) eqn:Erm; cbn [negb].
    2: { exists (a :: arts). split; [done|]. split; [constructor|]. split; [by intros [|]|].
         exists a, arts. split; [done|]. split; [done|]. cbn [sizeOf]. lia. }
    rewrite int64_id by lia. replace (a_size a + sizeOf arts - a_size a) with (sizeOf arts) by lia.
    destruct (IH Hnn ltac:(lia)) as (kept & Hk & Hrm & Hmin & Hend).
    destruct (sweep remove arts (sizeOf arts)) as [gone err]. simpl in *. exists kept.
    split; [by rewrite Hk|]. split; [by constructor|]. split; [|done].
    intros [|x pre] b [= -> Hg]; [|by eapply Hmin]. subst gone. simpl in Hk. subst arts. lia.
Qed.

Lemma collect_fst entries arts total : (collect entries arts total).1 = arts ++ artifacts entries.
Proof.
  revert arts total. induction entries as [|e entries IH]; intros arts total; [by rewrite app_nil_r|].
  rewrite collect_cons, artifacts_cons. destruct (entryArtifact e); rewrite IH; [|done].
  by rewrite <- app_assoc.
Qed.

Lemma sweep_elem remove arts total a : a ∈ (sweep remove arts total).1 → a ∈ arts.
Proof.
  revert total. induction arts as [|b arts IH]; intros total; simpl; [done|].
  case_bool_decide; [by intros ?%not_elem_of_nil|]. destruct (negb _); [by intros ?%not_elem_of_nil|].
  specialize (IH (int64 (total - a_size b))).
  destruct (sweep remove arts _) as [gone err]. simpl in *. rewrite !elem_of_cons. naive_solver.
Qed.

Lemma artifacts_elem entries a :
  a ∈ artifacts entries →
  ∃ e, e ∈ entries ∧ e_isDir e = false ∧ e_name e = a_path a ∧ isArtifact (a_path a) = true.
Proof.
  intros (e & He & Ha)%list_elem_of_omap. exists e. split; [done|]. unfold entryArtifact in Ha.
  destruct (e_isDir e); [done|]. destruct (isArtifact (e_name e)) eqn:En; [|done].
  destruct (e_info e) as [[size mtime]|]; [|done]. simpl in Ha. by injection Ha as <-.
Qed.

#[global] Instance merge_sort_slice : SortSlice (merge_sort notAfter).
Proof. split; [apply merge_sort_Permutation|apply (StronglySorted_merge_sort notAfter)]. Qed.

(** ** Properties *)



(** Only generated artifacts are ever deleted: regular entries of the
    directory with one of the generator's names.  In particular [vmlinux.h] is
    never deleted, and nothing is when the directory cannot be read. *)
Theorem prune_only_artifacts (sort : list artifact → list artifact) (remove : string → bool)
    (readDir : option (list DirEntry)) (a : artifact) :
  SortSlice sort → a ∈ (pruneWorkDir sort remove readDir).1 →
  a_path a ≠ "vmlinux.h" ∧
  ∃ entries e, readDir = Some entries ∧ e ∈ entries ∧ e_isDir e = false ∧
    e_name e = a_path a ∧ isArtifact (a_path a) = true.
Proof.
  intros Hsort Ha. destruct readDir as [entries|]; [|by apply not_elem_of_nil in Ha].
  unfold pruneWorkDir in Ha. pose proof (collect_fst entries [] 0) as Hc.
  destruct (collect entries [] 0) as [arts total]. simpl in Hc. subst arts.
  destruct (bool_decide _); [by apply not_elem_of_nil in Ha|].
  apply sweep_elem in Ha. rewrite sort_perm in Ha.
  apply artifacts_elem in Ha as (e & He & Hd & Hn & Hart).
  split; [by intros Hv; rewrite Hv in Hart|]. by exists entries, e.
Qed.

Lemma prune_only_artifacts_witness :
  a_path (mkArtifact "prog_1.c" (2 ^ 33) 7) ≠ "vmlinux.h" ∧
  ∃ entries e, Some [mkEntry false "prog_1.c" (Some (2 ^ 33, 7))] = Some entries ∧ e ∈ entries ∧
    e_isDir e = false ∧ e_name e = "prog_1.c" ∧ isArtifact "prog_1.c" = true.
Proof.
  apply (prune_only_artifacts (merge_sort notAfter) (λ _, true)
    (Some [mkEntry false "prog_1.c" (Some (2 ^ 33, 7))]) (mkArtifact "prog_1.c" (2 ^ 33) 7)).
  - apply _.
  - apply (bool_decide_unpack _). vm_compute. exact I.
Defined.
