(* ===== verification/Signal.v ===== *)
(** * Feedback signal

    [pkg/signal/signal.go]: a signal maps coverage elements to priorities.  A
    Go map value is [None] when nil (reads see an empty map, a write panics).
    Go leaves the iteration order of a map unspecified, so every loop over a map
    takes the order as an argument [it]; [rangeOf it m] says that it enumerates
    [m], and the theorems hold for every such order. *)

From stdpp Require Import base numbers gmap list fin_maps.
From S2P Require Import Prelude.

Local Open Scope Z_scope.

Abbreviation SigMap := (gmap Z Z).
Abbreviation Signal := (option (gmap Z Z)).

Definition rangeOf (it : list (Z * Z)) (m : SigMap) : Prop := it ≡ₚ map_to_list m.

(** Reading a possibly nil map. *)
Definition sigMap (s : Signal) : SigMap := default ∅ s.

(** The conversion [prioType(prio)] from [uint8] to [int8]. *)
Definition prioOfU8 (prio : Z) : Z :=
  if bool_decide (prio `mod` 256 < 128) then prio `mod` 256 else prio `mod` 256 - 256.

Record Serial := mkSerial { Elems : list Z; Prios : list Z }.

Definition Len (s : Signal) : nat := size (sigMap s).

Definition Empty (s : Signal) : bool := bool_decide (Len s = 0%nat).

Definition Copy (s : Signal) (it : list (Z * Z)) : Signal :=
  Some (foldl (λ c ep, <[ep.1 := ep.2]> c) ∅ it).

(** The loop of [Split]: move elements until [n] of them were moved. *)
Fixpoint splitLoop (it : list (Z * Z)) (s c : SigMap) (n : Z) : SigMap * SigMap :=
  match it with
  | [] => (s, c)
  | (e, p) :: it =>
      let s := delete e s in
      let c := <[e := p]> c in
      let n := n - 1 in
      if bool_decide (n = 0) then (s, c) else splitLoop it s c n
  end.

(** [Split] returns the new receiver and the part split off. *)
Definition Split (s : Signal) (n : Z) (it : list (Z * Z)) : Signal * Signal :=
  if Empty s then (s, None)
  else
    let '(m, c) := splitLoop it (sigMap s) ∅ n in
    (if bool_decide (size m = 0%nat) then None else Some m, Some c).

Definition FromRaw (raw : list Z) (prio : Z) : Signal :=
  match raw with
  | [] => None
  | _ => Some (foldl (λ s e, <[e := prioOfU8 prio]> s) ∅ raw)
  end.

Definition Serialize (s : Signal) (it : list (Z * Z)) : Serial :=
  if Empty s then mkSerial [] [] else mkSerial it.*1 it.*2.

Definition AddElem (ser : Serial) (elem prio : Z) : Serial :=
  mkSerial (Elems ser ++ [elem]) (Prios ser ++ [prio]).

Definition Deserialize (ser : Serial) : res Signal :=
  if bool_decide (length (Elems ser) = length (Prios ser)) then
    if bool_decide (length (Elems ser) = 0%nat) then Ret None
    else Ret (Some (foldl (λ s ep, <[ep.1 := ep.2]> s) ∅ (zip (Elems ser) (Prios ser))))
  else Panic.

(** The element is already known with at least this priority. *)
Definition known (s : Signal) (e p1 : Z) : bool :=
  match sigMap s !! e with
  | Some p => bool_decide (p1 ≤ p)
  | None => false
  end.

(** [if res == nil { res = make(Signal) }; res[e] = p]. *)
Definition putAlloc (res : Signal) (e p : Z) : Signal :=
  Some (<[e := p]> (sigMap res)).

Definition Diff (s s1 : Signal) (it : list (Z * Z)) : Signal :=
  if Empty s1 then None
  else foldl (λ res ep, if known s ep.1 ep.2 then res else putAlloc res ep.1 ep.2) None it.

Definition DiffRaw (s : Signal) (raw : list Z) (prio : Z) : Signal :=
  foldl (λ res e, if known s e (prioOfU8 prio) then res else putAlloc res e (prioOfU8 prio))
    None raw.

Definition Intersection (s s1 : Signal) (it : list (Z * Z)) : Signal :=
  if Empty s1 then None
  else Some (foldl (λ res ep, if known s1 ep.1 ep.2 then <[ep.1 := ep.2]> res else res) ∅ it).

Definition Merge (s s1 : Signal) (it : list (Z * Z)) : Signal :=
  if Empty s1 then s
  else Some (foldl (λ s0 ep,
         match s0 !! ep.1 with
         | Some p => if bool_decide (p < ep.2) then <[ep.1 := ep.2]> s0 else s0
         | None => <[ep.1 := ep.2]> s0
         end) (sigMap s) it).

(** ** Corpus minimization

    [Context] pairs an input's signal with the input; [corpus] is the list of
    inputs with the iteration order of each one's signal. *)
Record Context (C : Type) := mkContext { ctx_Signal : Signal; ctx_Context : C }.
Arguments mkContext {C}.
Arguments ctx_Signal {C}.
Arguments ctx_Context {C}.

Record ContextPrio := mkCP { cp_prio : Z; cp_idx : nat }.

(** One input of the corpus updates the best known cover of its elements. *)
Definition coverInput (covered : gmap Z ContextPrio) (i : nat) (it : list (Z * Z)) :
    gmap Z ContextPrio :=
  foldl (λ covered ep,
    match covered !! ep.1 with
    | Some prev => if bool_decide (cp_prio prev < ep.2)
                   then <[ep.1 := mkCP ep.2 i]> covered else covered
    | None => <[ep.1 := mkCP ep.2 i]> covered
    end) covered it.

Fixpoint coverCorpus (i : nat) (its : list (list (Z * Z))) (covered : gmap Z ContextPrio) :
    gmap Z ContextPrio :=
  match its with
  | [] => covered
  | it :: its => coverCorpus (S i) its (coverInput covered i it)
  end.

(** The indices [Minimize] keeps, as a set. *)
Definition minIndices (its : list (list (Z * Z))) : gset nat :=
  list_to_set ((λ kv, cp_idx kv.2) <$> map_to_list (coverCorpus 0 its ∅)).

(** [Minimize]; [its] are the iteration orders of the inputs' signals and
    [order] the one of the index set. *)
Definition Minimize {C} (corpus : list (Context C)) (its : list (list (Z * Z)))
    (order : gset nat → list nat) : res (list C) :=
  match mapM (λ i, corpus !! i) (order (minIndices its)) with
  | Some cs => Ret (ctx_Context <$> cs)
  | None => Panic
  end.

(** ** The order on signals *)

(** [a] is below [b] when [b] knows every element of [a] with at least its
    priority. *)
Definition sigLe (a b : SigMap) : Prop :=
  ∀ e p, a !! e = Some p → ∃ p', b !! e = Some p' ∧ p ≤ p'.

(** The priority of an element in the join of two signals. *)
Definition maxPrio (a b : option Z) : option Z :=
  match a, b with
  | Some p, Some q => Some (Z.max p q)
  | Some p, None => Some p
  | None, o => o
  end.

#[global] Instance sigLe_preorder : PreOrder sigLe.
Proof.
  split.
  - intros a e p H. exists p. by split.
  - intros a b c Hab Hbc e p (p' & Hb & ?)%Hab. destruct (Hbc _ _ Hb) as (p'' & ? & ?).
    exists p''. split; [done|lia].
Qed.

(** ** Lemmas *)

Lemma Empty_spec s : Empty s = true ↔ sigMap s = ∅.
Proof. unfold Empty, Len. rewrite bool_decide_eq_true. apply map_size_empty_iff. Qed.

Lemma rangeOf_NoDup it m : rangeOf it m → NoDup it.*1.
Proof. intros H. unfold rangeOf in H. rewrite H. apply NoDup_fst_map_to_list. Qed.

Lemma rangeOf_elem it m e p : rangeOf it m → (e, p) ∈ it ↔ m !! e = Some p.
Proof. intros H. unfold rangeOf in H. rewrite H. apply elem_of_map_to_list. Qed.

Lemma rangeOf_map it m : rangeOf it m → list_to_map it = m.
Proof.
  intros H. rewrite <- (list_to_map_to_list m). apply list_to_map_proper; [|done].
  by eapply rangeOf_NoDup.
Qed.

(** A loop over a map that updates one accumulator entry per element does, at
    each element, what its own update does. *)
Lemma foldl_pointwise {V} (f : Z → option V → Z → option V) (upd : gmap Z V → Z * Z → gmap Z V)
    it (m : SigMap) (acc : gmap Z V) :
  (∀ a ep e, upd a ep !! e = if decide (ep.1 = e) then f e (a !! e) ep.2 else a !! e) →
  rangeOf it m →
  ∀ e, foldl upd acc it !! e =
       match m !! e with Some p => f e (acc !! e) p | None => acc !! e end.
Proof.
  intros Hupd Hr e. rewrite <- (rangeOf_map it m Hr). apply rangeOf_NoDup in Hr.
  revert acc Hr. induction it as [|[e0 p0] it IH]; intros acc Hnd; simpl; [done|].
  simpl in Hnd. apply NoDup_cons in Hnd as [Hni Hnd]. rewrite (IH _ Hnd), Hupd. simpl.
  destruct (decide (e0 = e)) as [->|Hne].
  - rewrite (not_elem_of_list_to_map_1 (M := gmap Z) it e) by done.
    by rewrite lookup_insert_eq.
  - by rewrite lookup_insert_ne by done.
Qed.

Lemma known_spec s e p :
  known s e p = true ↔ ∃ p', sigMap s !! e = Some p' ∧ p ≤ p'.
Proof.
  unfold known. destruct (sigMap s !! e) as [q|] eqn:E.
  - rewrite bool_decide_eq_true. split; [by exists q|]. intros (p' & [= <-] & ?). done.
  - split; [done|]. by intros (p' & ? & ?).
Qed.

Lemma sigMap_Some m : sigMap (Some m) = m.
Proof. done. Qed.

Lemma Merge_lookup s s1 it e :
  rangeOf it (sigMap s1) →
  sigMap (Merge s s1 it) !! e = maxPrio (sigMap s !! e) (sigMap s1 !! e).
Proof.
  intros Hr. unfold Merge. destruct (Empty s1) eqn:HE.
  { apply Empty_spec in HE. rewrite HE, lookup_empty. by destruct (sigMap s !! e). }
  rewrite sigMap_Some.
  rewrite (foldl_pointwise (λ _ o p, maxPrio o (Some p)) _ it (sigMap s1)); [|clear|done].
  - by destruct (sigMap s1 !! e), (sigMap s !! e).
  - intros a [e0 p0] e; simpl. destruct (decide (e0 = e)) as [->|Hne].
    + destruct (a !! e) as [p|] eqn:Ha; simpl; [|by rewrite lookup_insert_eq].
      case_bool_decide; [rewrite lookup_insert_eq|rewrite Ha]; f_equal; lia.
    + destruct (a !! e0); [case_bool_decide|]; by rewrite ?lookup_insert_ne by done.
Qed.

(** A loop that skips some elements and stores the others. *)
Lemma foldl_store_lookup (skip : Z → Z → bool) it (m acc : SigMap) e :
  rangeOf it m →
  foldl (λ r ep, if skip ep.1 ep.2 then r else <[ep.1 := ep.2]> r) acc it !! e =
  match m !! e with
  | Some p => if skip e p then acc !! e else Some p
  | None => acc !! e
  end.
Proof.
  intros Hr.
  rewrite (foldl_pointwise (λ e o p, if skip e p then o else Some p) _ it m); [done| |done].
  intros a [e0 p0] e'; simpl. destruct (decide (e0 = e')) as [->|Hne].
  - destruct (skip e' p0); [done|by rewrite lookup_insert_eq].
  - destruct (skip e0 p0); [done|by rewrite lookup_insert_ne].
Qed.

Lemma foldl_putAlloc {A} (skip : A → bool) (key prio : A → Z) l (acc : Signal) :
  sigMap (foldl (λ r x, if skip x then r else putAlloc r (key x) (prio x)) acc l) =
  foldl (λ r x, if skip x then r else <[key x := prio x]> r) (sigMap acc) l.
Proof.
  revert acc. induction l as [|x l IH]; intros acc; simpl; [done|].
  rewrite IH. by destruct (skip x).
Qed.

Lemma Diff_lookup s s1 it e :
  rangeOf it (sigMap s1) →
  sigMap (Diff s s1 it) !! e =
  match sigMap s1 !! e with
  | Some p => if known s e p then None else Some p
  | None => None
  end.
Proof.
  intros Hr. unfold Diff. destruct (Empty s1) eqn:HE.
  { apply Empty_spec in HE. by rewrite HE, !lookup_empty. }
  rewrite (foldl_putAlloc (λ ep, known s ep.1 ep.2) fst snd).
  rewrite (foldl_store_lookup (known s) it (sigMap s1)) by done.
  change (sigMap None) with (∅ : SigMap). by rewrite !lookup_empty.
Qed.

(** A result that is allocated on its first store is nil exactly when empty. *)
Lemma foldl_alloc_nil {A} (skip : A → bool) (key prio : A → Z) l :
  let r := foldl (λ r x, if skip x then r else putAlloc r (key x) (prio x)) None l in
  r = None ↔ sigMap r = ∅.
Proof.
  simpl. split; [by intros ->|].
  assert (H : ∀ acc : Signal, (acc = None ∨ sigMap acc ≠ ∅) →
    let r := foldl (λ r x, if skip x then r else putAlloc r (key x) (prio x)) acc l in
    r = None ∨ sigMap r ≠ ∅); [|intros He; destruct (H None); by auto].
  induction l as [|x l IH]; intros acc Hacc; simpl; [done|].
  apply IH. destruct (skip x); [done|right]. apply insert_non_empty.
Qed.

Lemma Diff_nil s s1 it : Diff s s1 it = None ↔ sigMap (Diff s s1 it) = ∅.
Proof.
  unfold Diff. destruct (Empty s1); [done|].
  apply (foldl_alloc_nil (λ ep, known s ep.1 ep.2) fst snd).
Qed.

Lemma FromRaw_lookup raw prio e :
  sigMap (FromRaw raw prio) !! e = if decide (e ∈ raw) then Some (prioOfU8 prio) else None.
Proof.
  assert (H : ∀ (acc : SigMap),
    foldl (λ s e, <[e := prioOfU8 prio]> s) acc raw !! e =
    if decide (e ∈ raw) then Some (prioOfU8 prio) else acc !! e).
  { induction raw as [|x raw IH]; intros acc; simpl; [done|].
    rewrite IH. destruct (decide (e ∈ raw)), (decide (e ∈ x :: raw)); try set_solver.
    - rewrite elem_of_cons in *. destruct (decide (x = e)) as [->|]; [by rewrite lookup_insert_eq|naive_solver].
    - rewrite lookup_insert_ne; set_solver. }
  destruct raw as [|x raw]; [done|]. unfold FromRaw. by rewrite sigMap_Some, H.
Qed.

Lemma DiffRaw_lookup s raw prio e :
  sigMap (DiffRaw s raw prio) !! e =
  if decide (e ∈ raw) then if known s e (prioOfU8 prio) then None else Some (prioOfU8 prio)
  else None.
Proof.
  unfold DiffRaw.
  rewrite (foldl_putAlloc (λ e, known s e (prioOfU8 prio)) id (λ _, prioOfU8 prio)).
  set (q := prioOfU8 prio).
  assert (H : ∀ (acc : SigMap),
    foldl (λ r x, if known s x q then r else <[id x := q]> r) acc raw !! e =
    if decide (e ∈ raw) then if known s e q then acc !! e else Some q else acc !! e).
  { induction raw as [|x raw IH]; intros acc; simpl; [done|]. rewrite IH. clear IH.
    destruct (decide (x = e)) as [->|Hne].
    - rewrite (decide_True (P := e ∈ e :: raw)) by set_solver.
      destruct (known s e q), (decide (e ∈ raw)); try done. apply lookup_insert_eq.
    - assert (Hx : (if known s x q then acc else <[x:=q]> acc) !! e = acc !! e)
        by (destruct (known s x q); [done|by apply lookup_insert_ne]).
      rewrite !Hx.
      destruct (decide (e ∈ raw)), (decide (e ∈ x :: raw)); set_solver. }
  rewrite H. change (sigMap None) with (∅ : SigMap). by rewrite !lookup_empty.
Qed.

Lemma Intersection_lookup s s1 it e :
  rangeOf it (sigMap s) →
  sigMap (Intersection s s1 it) !! e =
  match sigMap s !! e with
  | Some p => if known s1 e p then Some p else None
  | None => None
  end.
Proof.
  intros Hr. unfold Intersection. destruct (Empty s1) eqn:HE.
  { apply Empty_spec in HE. unfold known. rewrite HE, !lookup_empty.
    change (sigMap None) with (∅ : SigMap). rewrite lookup_empty.
    by destruct (sigMap s !! e). }
  rewrite sigMap_Some.
  rewrite (foldl_pointwise (λ e o p, if known s1 e p then Some p else o) _ it (sigMap s));
    [by rewrite lookup_empty| |done].
  intros a [e0 p0] e'; simpl. destruct (decide (e0 = e')) as [->|Hne].
  - destruct (known s1 e' p0); [by rewrite lookup_insert_eq|done].
  - destruct (known s1 e0 p0); [by rewrite lookup_insert_ne|done].
Qed.

(** ** Split *)

(** Number of elements the loop of [Split] moves out of [k]. *)
Definition splitCount (n : Z) (k : nat) : nat :=
  if bool_decide (0 < n) then Nat.min (Z.to_nat n) k else k.

Lemma splitCount_step n k :
  splitCount n (S k) = if bool_decide (n - 1 = 0) then 1%nat else S (splitCount (n - 1) k).
Proof. unfold splitCount. repeat case_bool_decide; lia. Qed.

Lemma splitLoop_spec it (c : SigMap) n :
  NoDup it.*1 →
  let k := splitCount n (length it) in
  splitLoop it (list_to_map it) c n =
  (list_to_map (drop k it), foldl (λ c ep, <[ep.1 := ep.2]> c) c (take k it)).
Proof.
  revert c n. induction it as [|[e p] it IH]; intros c n Hnd.
  { cbv zeta. by rewrite drop_nil, take_nil. }
  apply NoDup_cons in Hnd as [Hni Hnd].
  cbn [length splitLoop]. cbv zeta. rewrite splitCount_step.
  assert (Hdel : delete e (list_to_map ((e, p) :: it) : SigMap) = list_to_map it).
  { simpl. apply delete_insert_id. by apply not_elem_of_list_to_map_1. }
  rewrite Hdel. case_bool_decide; [done|]. apply IH, Hnd.
Qed.

(** Storing distinct elements one by one builds the map of the list. *)
Lemma foldl_insert_map (l : list (Z * Z)) (c : SigMap) :
  NoDup l.*1 →
  foldl (λ c ep, <[ep.1 := ep.2]> c) c l = list_to_map l ∪ c.
Proof.
  revert c. induction l as [|[e p] l IH]; intros c Hnd; simpl.
  { by rewrite (left_id_L ∅ (∪)). }
  apply NoDup_cons in Hnd as [Hni Hnd]. rewrite IH by done.
  rewrite <- insert_union_l, <- insert_union_r; [done|].
  by apply not_elem_of_list_to_map_1.
Qed.

Lemma foldl_insert_range it m :
  rangeOf it m → foldl (λ c ep, <[ep.1 := ep.2]> c) (∅ : SigMap) it = m.
Proof.
  intros Hr. rewrite foldl_insert_map by (by eapply rangeOf_NoDup).
  rewrite (right_id_L ∅ (∪)). by apply rangeOf_map.
Qed.

Lemma rangeOf_length it m : rangeOf it m → length it = size m.
Proof. intros H. unfold rangeOf in H. rewrite H. apply length_map_to_list. Qed.

Lemma list_to_map_size (l : list (Z * Z)) :
  NoDup l.*1 → size (list_to_map l : SigMap) = length l.
Proof.
  intros Hnd. rewrite <- length_map_to_list. apply Permutation_length.
  by apply map_to_list_to_map.
Qed.

Lemma NoDup_take_drop_fst (it : list (Z * Z)) k :
  NoDup it.*1 →
  NoDup (take k it).*1 ∧ NoDup (drop k it).*1 ∧
  (list_to_map (take k it) : SigMap) ##ₘ list_to_map (drop k it).
Proof.
  intros Hnd. rewrite <- (take_drop k it), fmap_app in Hnd.
  apply NoDup_app in Hnd as (H1 & H2 & H3). split; [done|]. split; [done|].
  apply map_disjoint_spec. intros e p q He Hq.
  apply elem_of_list_to_map_2, (list_elem_of_fmap_2 fst) in He.
  apply elem_of_list_to_map_2, (list_elem_of_fmap_2 fst) in Hq. by apply (H2 e).
Qed.

(** ** Minimize *)

(** [cp] is the first input of [sigs] that has [e] with the highest priority. *)
Definition bestOf (sigs : list SigMap) (e : Z) (cp : ContextPrio) : Prop :=
  (∃ m, sigs !! cp_idx cp = Some m ∧ m !! e = Some (cp_prio cp)) ∧
  ∀ j m q, sigs !! j = Some m → m !! e = Some q →
    q ≤ cp_prio cp ∧ ((j < cp_idx cp)%nat → q < cp_prio cp).

Definition coversSigs (sigs : list SigMap) (covered : gmap Z ContextPrio) : Prop :=
  ∀ e, match covered !! e with
       | Some cp => bestOf sigs e cp
       | None => ∀ j m, sigs !! j = Some m → m !! e = None
       end.

Lemma coverInput_lookup covered i it m e :
  rangeOf it m →
  coverInput covered i it !! e =
  match m !! e with
  | Some p =>
      match covered !! e with
      | Some prev => if bool_decide (cp_prio prev < p) then Some (mkCP p i) else Some prev
      | None => Some (mkCP p i)
      end
  | None => covered !! e
  end.
Proof.
  intros Hr. unfold coverInput.
  rewrite (foldl_pointwise (λ _ o p, match o with
      | Some prev => if bool_decide (cp_prio prev < p) then Some (mkCP p i) else Some prev
      | None => Some (mkCP p i) end) _ it m); [done| |done].
  intros a [e0 p0] e'; simpl. destruct (decide (e0 = e')) as [->|Hne].
  - destruct (a !! e') eqn:Ha; [|by rewrite lookup_insert_eq].
    case_bool_decide; [by rewrite lookup_insert_eq|done].
  - destruct (a !! e0); [case_bool_decide|]; by rewrite ?lookup_insert_ne by done.
Qed.

Lemma lookup_snoc_inv {A} (l : list A) x j y :
  (l ++ [x]) !! j = Some y → l !! j = Some y ∧ (j < length l)%nat ∨ j = length l ∧ y = x.
Proof.
  intros [H|[? H]]%lookup_app_Some.
  - left. split; [done|]. by eapply lookup_lt_Some.
  - apply list_lookup_singleton_Some in H as [? ->]. right. split; [lia|done].
Qed.

Lemma bestOf_new sigs m e p :
  m !! e = Some p →
  (∀ j m' q, sigs !! j = Some m' → m' !! e = Some q → q < p) →
  bestOf (sigs ++ [m]) e (mkCP p (length sigs)).
Proof.
  intros Hm Hlt. split.
  - exists m. split; [|done]. by rewrite lookup_app_r, Nat.sub_diag.
  - intros j m' q [[Hj _]|[-> ->]]%lookup_snoc_inv Hq; simpl.
    + pose proof (Hlt _ _ _ Hj Hq). lia.
    + rewrite Hm in Hq. injection Hq as ->. lia.
Qed.

Lemma bestOf_keep sigs m e cp :
  bestOf sigs e cp → (∀ q, m !! e = Some q → q ≤ cp_prio cp) →
  bestOf (sigs ++ [m]) e cp.
Proof.
  intros [(m0 & Hm0 & He) Hall] Hle. pose proof (lookup_lt_Some _ _ _ Hm0). split.
  - exists m0. by rewrite lookup_app_l.
  - intros j m' q [[Hj _]|[-> ->]]%lookup_snoc_inv Hq; [by eapply Hall|].
    split; [by apply Hle|lia].
Qed.

Lemma coverInput_covers sigs covered it m :
  coversSigs sigs covered → rangeOf it m →
  coversSigs (sigs ++ [m]) (coverInput covered (length sigs) it).
Proof.
  intros Hc Hr e. specialize (Hc e). rewrite (coverInput_lookup _ _ _ m) by done.
  destruct (m !! e) as [p|] eqn:Hm; destruct (covered !! e) as [prev|] eqn:Hp.
  - case_bool_decide.
    + apply bestOf_new; [done|]. intros j m' q Hj Hq.
      destruct (proj2 Hc j m' q Hj Hq). lia.
    + apply bestOf_keep; [done|]. rewrite Hm. intros q [= <-]. lia.
  - apply bestOf_new; [done|]. intros j m' q Hj Hq. by rewrite (Hc _ _ Hj) in Hq.
  - apply bestOf_keep; [done|]. by rewrite Hm.
  - by intros j m' [[Hj _]|[-> ->]]%lookup_snoc_inv; [eapply Hc|].
Qed.

Lemma coverCorpus_covers sigs its sigs' covered :
  coversSigs sigs covered → Forall2 rangeOf its sigs' →
  coversSigs (sigs ++ sigs') (coverCorpus (length sigs) its covered).
Proof.
  revert sigs covered sigs'. induction its as [|it its IH]; intros sigs covered sigs' Hc Hall;
    inversion_clear Hall; simpl.
  { by rewrite app_nil_r. }
  rewrite cons_middle, app_assoc. replace (S (length sigs)) with (length (sigs ++ [y])).
  - apply IH; [|done]. by apply coverInput_covers.
  - rewrite length_app. simpl. lia.
Qed.

Lemma minIndices_spec its sigs i :
  Forall2 rangeOf its sigs →
  i ∈ minIndices its ↔ ∃ e cp, bestOf sigs e cp ∧ cp_idx cp = i.
Proof.
  intros Hall.
  assert (Hc : coversSigs sigs (coverCorpus 0 its ∅)).
  { apply (coverCorpus_covers [] its sigs ∅); [|done]. intros e. by rewrite lookup_empty. }
  unfold minIndices. rewrite elem_of_list_to_set, list_elem_of_fmap. split.
  - intros ([e cp] & -> & Hin%elem_of_map_to_list). exists e, cp. split; [|done].
    specialize (Hc e). by rewrite Hin in Hc.
  - intros (e & cp & [(m & Hm & He) Hall'] & <-). specialize (Hc e).
    destruct (coverCorpus 0 its ∅ !! e) as [cp'|] eqn:Hl.
    2:{ by rewrite (Hc _ _ Hm) in He. }
    exists (e, cp'). split; [|by apply elem_of_map_to_list]. simpl.
    destruct Hc as [(m' & Hm' & He') Hc].
    destruct (Hc _ _ _ Hm He), (Hall' _ _ _ Hm' He'). lia.
Qed.

Lemma best_exists sigs its j m e q :
  Forall2 rangeOf its sigs → sigs !! j = Some m → m !! e = Some q →
  ∃ cp, bestOf sigs e cp.
Proof.
  intros Hall Hj Hq.
  assert (Hc : coversSigs sigs (coverCorpus 0 its ∅)).
  { apply (coverCorpus_covers [] its sigs ∅); [|done]. intros e'. by rewrite lookup_empty. }
  specialize (Hc e). destruct (coverCorpus 0 its ∅ !! e) as [cp|]; [by exists cp|].
  by rewrite (Hc _ _ Hj) in Hq.
Qed.

Lemma mapM_lookup_total {A} (l : list A) idxs :
  (∀ i, i ∈ idxs → (i < length l)%nat) →
  ∃ cs, mapM (λ i, l !! i) idxs = Some cs.
Proof.
  induction idxs as [|i idxs IH]; intros Hlt; [by exists []|].
  destruct (lookup_lt_is_Some_2 l i) as [c Hc]; [apply Hlt; left|].
  destruct IH as [cs Hcs]; [intros; apply Hlt; by right|].
  exists (c :: cs). simpl. by rewrite Hc, Hcs.
Qed.

(** A concrete iteration order enumerates a concrete map. *)
Ltac range_order :=
  unfold rangeOf; vm_compute;
  repeat first [ apply perm_nil | apply perm_skip | apply perm_swap ].

(** ** Properties *)

(** [Merge] computes the join of two signals, whatever the order in which
    the map is iterated: each element gets the larger of its two priorities, so
    both signals are below the result and every upper bound of both is above
    it. *)
Theorem merge_is_join (s s1 : Signal) (it : list (Z * Z)) :
  rangeOf it (sigMap s1) →
  let r := sigMap (Merge s s1 it) in
  (∀ e, r !! e = maxPrio (sigMap s !! e) (sigMap s1 !! e)) ∧
  sigLe (sigMap s) r ∧ sigLe (sigMap s1) r ∧
  (∀ u, sigLe (sigMap s) u → sigLe (sigMap s1) u → sigLe r u).
Proof.
  intros Hr r. assert (Hl := λ e, Merge_lookup s s1 it e Hr). fold r in Hl.
  split; [done|]. split; [|split].
  - intros e p Hp. rewrite Hl, Hp. destruct (sigMap s1 !! e) as [q|]; simpl;
      eexists; (split; [done|lia]).
  - intros e p Hp. rewrite Hl, Hp. destruct (sigMap s !! e) as [q|]; simpl;
      eexists; (split; [done|lia]).
  - intros u Hu Hu1 e p Hp. rewrite Hl in Hp.
    destruct (sigMap s !! e) as [a|] eqn:Ha, (sigMap s1 !! e) as [b|] eqn:Hb;
      simpl in Hp; simplify_eq; eauto.
    destruct (Hu _ _ Ha) as (p1 & E1 & ?), (Hu1 _ _ Hb) as (p2 & E2 & ?).
    simplify_eq. eexists. split; [done|lia].
Qed.

Lemma merge_is_join_witness :
  sigMap (Merge (Some {[7 := 1]}) (Some {[7 := 2; 5 := 0]}) [(7, 2); (5, 0)]) !! 7 = Some 2.
Proof.
  refine (proj1 (merge_is_join (Some {[7 := 1]}) (Some {[7 := 2; 5 := 0]}) [(7, 2); (5, 0)] _) 7).
  by range_order.
Defined.

(** [Diff] returns exactly the news: it is nil iff the receiver already
    knows every element with at least its priority, merging the diff into the
    receiver gives the same signal as merging the whole argument, and after
    merging the argument nothing of it is new any more. *)
Theorem diff_is_news (s s1 : Signal) (it : list (Z * Z)) :
  rangeOf it (sigMap s1) →
  (Diff s s1 it = None ↔ sigLe (sigMap s1) (sigMap s)) ∧
  (∀ it', rangeOf it' (sigMap (Diff s s1 it)) →
     sigMap (Merge s (Diff s s1 it) it') = sigMap (Merge s s1 it)) ∧
  Diff (Merge s s1 it) s1 it = None.
Proof.
  intros Hr.
  assert (Hnil : ∀ t, Diff t s1 it = None ↔ sigLe (sigMap s1) (sigMap t)).
  { intros t. rewrite Diff_nil, map_empty. setoid_rewrite (λ e, Diff_lookup t s1 it e Hr).
    split.
    - intros H e p Hp. specialize (H e). rewrite Hp in H.
      destruct (known t e p) eqn:Hk; [|done]. by apply known_spec.
    - intros Hle e. destruct (sigMap s1 !! e) as [p|] eqn:Hp; [|done].
      by rewrite (proj2 (known_spec t e p) (Hle e p Hp)). }
  split; [apply Hnil|]. split.
  - intros it' Hr'. apply map_eq. intros e.
    rewrite !Merge_lookup by done. rewrite Diff_lookup by done.
    destruct (sigMap s1 !! e) as [p|] eqn:Hp; [|by destruct (sigMap s !! e)].
    destruct (known s e p) eqn:Hk; [|done].
    apply known_spec in Hk as (p' & -> & ?). simpl. f_equal. lia.
  - apply Hnil. intros e p Hp. rewrite Merge_lookup, Hp by done.
    destruct (sigMap s !! e); simpl; eexists; (split; [done|lia]).
Qed.

Lemma diff_is_news_witness :
  Diff (Merge (Some {[7 := 1]}) (Some {[7 := 2]}) [(7, 2)]) (Some {[7 := 2]}) [(7, 2)] = None.
Proof.
  apply (diff_is_news (Some {[7 := 1]}) (Some {[7 := 2]}) [(7, 2)]).
  by range_order.
Defined.

(** [DiffRaw], which works on the executor's raw array, agrees with
    converting the array to a signal first and taking [Diff]. *)
Theorem diffRaw_agrees (s : Signal) (raw : list Z) (prio : Z) (it : list (Z * Z)) :
  rangeOf it (sigMap (FromRaw raw prio)) →
  DiffRaw s raw prio = Diff s (FromRaw raw prio) it.
Proof.
  intros Hr.
  assert (Hm : sigMap (DiffRaw s raw prio) = sigMap (Diff s (FromRaw raw prio) it)).
  { apply map_eq. intros e. rewrite DiffRaw_lookup, Diff_lookup by done.
    rewrite FromRaw_lookup. by destruct (decide (e ∈ raw)). }
  assert (Hn : DiffRaw s raw prio = None ↔ Diff s (FromRaw raw prio) it = None).
  { rewrite Diff_nil, <- Hm.
    apply (foldl_alloc_nil (λ e, known s e (prioOfU8 prio)) id (λ _, prioOfU8 prio)). }
  destruct (DiffRaw s raw prio), (Diff s (FromRaw raw prio) it); naive_solver.
Qed.

Lemma diffRaw_agrees_witness :
  DiffRaw (Some {[3 := 1]}) [3; 4; 3] 1 = Diff (Some {[3 := 1]}) (FromRaw [3; 4; 3] 1) [(4, 1); (3, 1)].
Proof. apply diffRaw_agrees. by range_order. Defined.

(** [Intersection] keeps the elements of the receiver that the argument has
    with at least the receiver's priority, at the receiver's priority.  So it is
    below both, it is the greatest such signal among the parts of the receiver,
    and an element on which the argument has a lower priority is dropped. *)
Theorem intersection_is_part (s s1 : Signal) (it : list (Z * Z)) :
  rangeOf it (sigMap s) →
  let r := sigMap (Intersection s s1 it) in
  r ⊆ sigMap s ∧ sigLe r (sigMap s1) ∧
  (∀ u, u ⊆ sigMap s → sigLe u (sigMap s1) → u ⊆ r).
Proof.
  intros Hr r. assert (Hl := λ e, Intersection_lookup s s1 it e Hr). fold r in Hl.
  assert (Hiff : ∀ e p, r !! e = Some p ↔ sigMap s !! e = Some p ∧ known s1 e p = true).
  { intros e p. rewrite Hl. destruct (sigMap s !! e) as [q|];
      [|by split; [|intros [? _]]].
    destruct (known s1 e q) eqn:Hk; split; try done.
    - by intros [= <-].
    - by intros [[= <-] _].
    - intros [[= <-] ?]. congruence. }
  split; [|split].
  - apply map_subseteq_spec. intros e p [? _]%Hiff. done.
  - intros e p [_ Hk]%Hiff. by apply known_spec.
  - intros u Hu Hle. rewrite map_subseteq_spec in Hu |- *. intros e p Hp.
    apply Hiff. split; [by apply Hu|]. apply known_spec, Hle, Hp.
Qed.

Lemma intersection_is_part_witness :
  sigMap (Intersection (Some {[7 := 2; 5 := 0]}) (Some {[7 := 1; 5 := 3]}) [(7, 2); (5, 0)])
  ⊆ {[7 := 2; 5 := 0]}.
Proof.
  refine (proj1 (intersection_is_part (Some {[7 := 2; 5 := 0]}) (Some {[7 := 1; 5 := 3]})
    [(7, 2); (5, 0)] _)).
  by range_order.
Defined.

(** [Split] partitions the receiver: the two parts are disjoint and together
    are the old receiver; for positive [n] the part returned has [n] elements
    (or all, when there are fewer) and for any other [n] it has all; the
    receiver becomes nil when nothing is left. *)
Theorem split_partitions (s : Signal) (n : Z) (it : list (Z * Z)) :
  rangeOf it (sigMap s) →
  let '(s', c) := Split s n it in
  sigMap c ∪ sigMap s' = sigMap s ∧ sigMap c ##ₘ sigMap s' ∧
  Len c = splitCount n (Len s) ∧ Len s' = (Len s - splitCount n (Len s))%nat ∧
  (sigMap s' = ∅ → sigMap s ≠ ∅ → s' = None).
Proof.
  intros Hr. unfold Split. destruct (Empty s) eqn:HE.
  { apply Empty_spec in HE. unfold Len. rewrite HE. change (sigMap None) with (∅ : SigMap).
    rewrite map_size_empty. unfold splitCount.
    split; [done|]. split; [apply map_disjoint_empty_l|].
    case_bool_decide; repeat split; lia || done. }
  clear HE. pose proof (rangeOf_NoDup _ _ Hr) as Hnd. pose proof (rangeOf_length _ _ Hr) as Hlen.
  pose proof (splitLoop_spec it ∅ n Hnd) as Hsp. cbv zeta in Hsp.
  rewrite (rangeOf_map _ _ Hr), Hlen in Hsp. rewrite Hsp. clear Hsp.
  fold (Len s). set (k := splitCount n (Len s)).
  destruct (NoDup_take_drop_fst it k Hnd) as (Ht & Hd & Hdisj).
  assert (Hk : (k ≤ Len s)%nat) by (unfold k, splitCount; case_bool_decide; lia).
  rewrite foldl_insert_map, (right_id_L ∅ (∪)) by done.
  set (d := list_to_map (drop k it) : SigMap) in *.
  assert (Hs' : sigMap (if bool_decide (size d = 0%nat) then None else Some d) = d).
  { case_bool_decide as H0; [|done]. by apply map_size_empty_iff in H0 as ->. }
  rewrite !sigMap_Some, Hs'. split_and!.
  - unfold d. rewrite <- list_to_map_app, take_drop. by apply rangeOf_map.
  - done.
  - unfold Len at 1. rewrite sigMap_Some, list_to_map_size, length_take, Hlen by done.
    fold (Len s). lia.
  - unfold Len at 1. rewrite Hs'. unfold d. by rewrite list_to_map_size, length_drop, Hlen.
  - intros H0 _. by rewrite H0, bool_decide_true by apply map_size_empty.
Qed.

Lemma split_partitions_witness :
  sigMap (Split (Some {[1 := 0; 2 := 1]}) 1 [(2, 1); (1, 0)]).2 ##ₘ
  sigMap (Split (Some {[1 := 0; 2 := 1]}) 1 [(2, 1); (1, 0)]).1.
Proof.
  refine (proj1 (proj2 (split_partitions (Some {[1 := 0; 2 := 1]}) 1 [(2, 1); (1, 0)] _))).
  by range_order.
Defined.

(** [Deserialize] inverts [Serialize] for every iteration order (an empty map
    comes back as nil), it panics exactly on arrays of different lengths, and
    [Copy] holds the same elements. *)
Theorem serialize_roundtrip (s : Signal) (it : list (Z * Z)) :
  rangeOf it (sigMap s) →
  Deserialize (Serialize s it) = Ret (if Empty s then None else s) ∧
  (∀ ser, Deserialize ser = Panic ↔ length (Elems ser) ≠ length (Prios ser)) ∧
  Copy s it = Some (sigMap s).
Proof.
  intros Hr. split_and!.
  - unfold Serialize. destruct (Empty s) eqn:HE; [done|]. unfold Deserialize. simpl.
    rewrite !length_fmap, bool_decide_true by done.
    rewrite zip_fst_snd, (foldl_insert_range it (sigMap s)) by done.
    rewrite bool_decide_false.
    + destruct s; [done|]. by apply not_true_iff_false in HE.
    + rewrite (rangeOf_length it (sigMap s)) by done.
      unfold Empty in HE. by apply bool_decide_eq_false in HE.
  - intros ser. unfold Deserialize. repeat case_bool_decide; done.
  - unfold Copy. by rewrite (foldl_insert_range it (sigMap s)).
Qed.

Lemma serialize_roundtrip_witness :
  Deserialize (Serialize (Some {[1 := 0; 2 := 1]}) [(2, 1); (1, 0)]) =
  Ret (Some {[1 := 0; 2 := 1]}).
Proof.
  refine (proj1 (serialize_roundtrip (Some {[1 := 0; 2 := 1]}) [(2, 1); (1, 0)] _)).
  by range_order.
Defined.

(** C10: [Minimize] never indexes out of range and preserves the corpus signal:
    every element of every input's signal is covered, at the same or a higher
    priority, by an input that is kept.  It keeps no input twice and none
    without a reason: each kept input is the first of the corpus to reach the
    highest priority of some element. *)
Theorem minimize_preserves_signal {C} (corpus : list (Context C))
    (its : list (list (Z * Z))) (order : gset nat → list nat) :
  Forall2 rangeOf its ((sigMap ∘ ctx_Signal) <$> corpus) →
  (∀ X, order X ≡ₚ elements X) →
  ∃ idxs kept,
    Minimize corpus its order = Ret (ctx_Context <$> kept) ∧
    NoDup idxs ∧ Forall2 (λ i c, corpus !! i = Some c) idxs kept ∧
    (∀ c, c ∈ corpus → ∀ e p, sigMap (ctx_Signal c) !! e = Some p →
       ∃ c' p', c' ∈ kept ∧ sigMap (ctx_Signal c') !! e = Some p' ∧ p ≤ p') ∧
    (∀ i, i ∈ idxs → ∃ e cp,
       bestOf ((sigMap ∘ ctx_Signal) <$> corpus) e cp ∧ cp_idx cp = i).
Proof.
  intros Hall Hord. set (sigs := (sigMap ∘ ctx_Signal) <$> corpus) in *.
  set (idxs := order (minIndices its)).
  assert (Hin : ∀ i, i ∈ idxs ↔ ∃ e cp, bestOf sigs e cp ∧ cp_idx cp = i).
  { intros i. unfold idxs. rewrite (Hord _), elem_of_elements. by apply minIndices_spec. }
  destruct (mapM_lookup_total corpus idxs) as [kept Hk].
  { intros i (e & cp & [(m & Hm & _) _] & <-)%Hin.
    apply lookup_lt_Some in Hm. unfold sigs in Hm. by rewrite length_fmap in Hm. }
  exists idxs, kept. assert (HF := proj1 (mapM_Some _ _ _) Hk). split_and!.
  - unfold Minimize. fold idxs. by rewrite Hk.
  - unfold idxs. rewrite (Hord _). apply NoDup_elements.
  - done.
  - intros c [j Hj]%list_elem_of_lookup e p Hp.
    assert (Hjs : sigs !! j = Some (sigMap (ctx_Signal c)))
      by (unfold sigs; by rewrite list_lookup_fmap, Hj).
    destruct (best_exists _ _ _ _ _ _ Hall Hjs Hp) as [cp Hb].
    pose proof Hb as [(m & Hm & He) Hmax].
    assert (Hci : cp_idx cp ∈ idxs) by (apply Hin; eauto).
    apply list_elem_of_lookup in Hci as [k Hki].
    destruct (Forall2_lookup_l _ _ _ _ _ HF Hki) as (c' & Hc' & Hcorp).
    unfold sigs in Hm. rewrite list_lookup_fmap, Hcorp in Hm. injection Hm as <-.
    exists c', (cp_prio cp). split; [by eapply list_elem_of_lookup_2|]. split; [done|].
    by destruct (Hmax _ _ _ Hjs Hp).
  - intros i. apply Hin.
Qed.

Lemma minimize_preserves_signal_witness :
  ∃ idxs kept, Minimize [mkContext (Some {[1 := 0]}) true; mkContext (Some {[1 := 1]}) false]
    [[(1, 0)]; [(1, 1)]] elements = Ret (ctx_Context <$> kept) ∧ NoDup (idxs : list nat).
Proof.
  destruct (minimize_preserves_signal
    [mkContext (Some {[1 := 0]}) true; mkContext (Some {[1 := 1]}) false]
    [[(1, 0)]; [(1, 1)]] elements) as (idxs & kept & H1 & H2 & _).
  - repeat constructor; by range_order.
  - done.
  - by exists idxs, kept.
Defined.
