(* ===== verification/Cover.v ===== *)
(** * Coverage sets

    [pkg/cover/cover.go]: a set of covered PCs ([None] is the nil map).
    [MergeDiff] compacts the slice it is given in place while ranging over it,
    so the model keeps the array and the two indices of the loop. *)

From stdpp Require Import base numbers gmap list.
From S2P Require Import Prelude.

Abbreviation Cover := (option (gset Z)).

Definition coverSet (cov : Cover) : gset Z := default ∅ cov.

Definition Merge (cov : Cover) (raw : list Z) : Cover :=
  Some (foldl (λ c pc, {[pc]} ∪ c) (coverSet cov) raw).

(** The loop of [MergeDiff]: [todo] iterations are left, the next one reads
    [raw[i]], and [n] PCs were kept so far. *)
Fixpoint mergeDiffLoop (todo i n : nat) (c : gset Z) (raw : list Z) :
    res (gset Z * nat * list Z) :=
  match todo with
  | O => Ret (c, n, raw)
  | S todo =>
      match raw !! i with
      | None => Panic
      | Some pc =>
          if bool_decide (pc ∈ c) then mergeDiffLoop todo (S i) n c raw
          else if bool_decide (n < length raw) then
            mergeDiffLoop todo (S i) (S n) ({[pc]} ∪ c) (<[n := pc]> raw)
          else Panic
      end
  end.

(** [MergeDiff] returns the new cover, the slice [raw[:n]] and the caller's
    array as it was left. *)
Definition MergeDiff (cov : Cover) (raw : list Z) : res (Cover * list Z * list Z) :=
  match mergeDiffLoop (length raw) 0 0 (coverSet cov) raw with
  | Ret (c, n, raw) => Ret (Some c, take n raw, raw)
  | Panic => Panic
  | NoFuel => NoFuel
  end.

(** [it] is the iteration order of the map. *)
Definition Serialize (cov : Cover) (it : list Z) : list Z :=
  foldl (λ res pc, res ++ [pc]) [] it.

(** ** Reference definition *)

(** The PCs of [raw] that are not in [c], each at its first occurrence. *)
Fixpoint newPCs (c : gset Z) (raw : list Z) : list Z :=
  match raw with
  | [] => []
  | pc :: raw => if bool_decide (pc ∈ c) then newPCs c raw else pc :: newPCs ({[pc]} ∪ c) raw
  end.

Lemma newPCs_length c raw : length (newPCs c raw) ≤ length raw.
Proof.
  revert c. induction raw as [|pc raw IH]; intros c; simpl; [done|].
  case_bool_decide; simpl; [specialize (IH c)|specialize (IH ({[pc]} ∪ c))]; lia.
Qed.

Lemma newPCs_elem c raw pc : pc ∈ newPCs c raw ↔ pc ∈ raw ∧ pc ∉ c.
Proof.
  revert c. induction raw as [|x raw IH]; intros c; simpl; [set_solver|].
  case_bool_decide; rewrite ?elem_of_cons, IH; destruct (decide (pc = x)); set_solver.
Qed.

Lemma newPCs_NoDup c raw : NoDup (newPCs c raw).
Proof.
  revert c. induction raw as [|x raw IH]; intros c; simpl; [constructor|].
  case_bool_decide; [done|]. constructor; [rewrite newPCs_elem; set_solver|done].
Qed.

(** Storing a PC at the end of the kept prefix consumes one slot after it. *)
Lemma store_kept (out junk rest : list Z) pc :
  ∃ junk', length junk' = length junk ∧
    <[length out := pc]> (out ++ junk ++ pc :: rest) = (out ++ [pc]) ++ junk' ++ rest ∧
    ∀ k, drop (S k) (junk ++ pc :: rest) = drop k (junk' ++ rest).
Proof.
  exists (drop 1 (junk ++ [pc])). split_and!.
  - rewrite length_drop, length_app. simpl. lia.
  - rewrite insert_app_r_alt, Nat.sub_diag, <- app_assoc by lia.
    destruct junk; simplify_list_eq; rewrite ?drop_0; by simplify_list_eq.
  - intros k. destruct junk; simplify_list_eq; rewrite ?drop_0; by simplify_list_eq.
Qed.

(** The in-place loop: the kept prefix [out] never overtakes the read index;
    [junk] are the slots between the two. *)
Lemma mergeDiffLoop_spec out junk rest c :
  mergeDiffLoop (length rest) (length out + length junk) (length out) c (out ++ junk ++ rest) =
  Ret (list_to_set rest ∪ c, length out + length (newPCs c rest),
       out ++ newPCs c rest ++ drop (length (newPCs c rest)) (junk ++ rest)).
Proof.
  revert out junk c. induction rest as [|pc rest IH]; intros out junk c.
  { simpl. by rewrite Nat.add_0_r, (left_id_L ∅ (∪)). }
  cbn [length mergeDiffLoop newPCs].
  rewrite lookup_app_r, lookup_app_r by lia.
  replace (length out + length junk - length out - length junk) with 0 by lia.
  change ((pc :: rest) !! 0) with (Some pc). cbv iota beta.
  destruct (bool_decide (pc ∈ c)) eqn:Hin.
  - apply bool_decide_eq_true in Hin.
    assert (list_to_set (pc :: rest) ∪ c = list_to_set rest ∪ c) as -> by set_solver.
    specialize (IH out (junk ++ [pc]) c). rewrite length_app, <- app_assoc in IH. simpl in IH.
    rewrite <- IH. f_equal. lia.
  - rewrite bool_decide_true by (rewrite !length_app; simpl; lia).
    destruct (store_kept out junk rest pc) as (junk' & Hl & -> & Hd).
    specialize (IH (out ++ [pc]) junk' ({[pc]} ∪ c)).
    rewrite length_app, Hl in IH. simpl in IH. cbn [length]. rewrite Hd.
    assert (list_to_set (pc :: rest) ∪ c = list_to_set rest ∪ ({[pc]} ∪ c)) as -> by set_solver.
    replace (S (length out + length junk)) with (length out + 1 + length junk) by lia.
    replace (S (length out)) with (length out + 1) by lia.
    rewrite IH, <- app_assoc. simpl. do 2 f_equal. f_equal. lia.
Qed.

Lemma foldl_insert_set (raw : list Z) (c : gset Z) :
  foldl (λ c pc, {[pc]} ∪ c) c raw = list_to_set raw ∪ c.
Proof.
  revert c. induction raw as [|pc raw IH]; intros c; simpl; [set_solver|].
  rewrite IH. set_solver.
Qed.

(** C31: [MergeDiff], which compacts its argument in place while it reads it,
    computes what the reference definition does: it never indexes out of range,
    the cover becomes what [Merge] makes of it, the returned slice has exactly
    the PCs that were not covered, in order and each once, and the slots of the
    caller's array behind the returned prefix keep their values. *)
Theorem mergeDiff_correct (cov : Cover) (raw : list Z) :
  ∃ out, MergeDiff cov raw = Ret (Merge cov raw, out, out ++ drop (length out) raw) ∧
    out = newPCs (coverSet cov) raw ∧ NoDup out ∧
    (∀ pc, pc ∈ out ↔ pc ∈ raw ∧ pc ∉ coverSet cov) ∧
    (∀ pc, pc ∈ coverSet (Merge cov raw) ↔ pc ∈ raw ∨ pc ∈ coverSet cov).
Proof.
  exists (newPCs (coverSet cov) raw). split_and!.
  - unfold MergeDiff, Merge.
    pose proof (mergeDiffLoop_spec [] [] raw (coverSet cov)) as Hl. simpl in Hl.
    rewrite Hl, foldl_insert_set. do 2 f_equal. f_equal. by rewrite take_app_length.
  - done.
  - apply newPCs_NoDup.
  - apply newPCs_elem.
  - intros pc. unfold Merge. simpl. rewrite foldl_insert_set. set_solver.
Qed.

Lemma foldl_snoc (l acc : list Z) : foldl (λ res pc, res ++ [pc]) acc l = acc ++ l.
Proof.
  revert acc. induction l as [|x l IH]; intros acc; simpl; [by rewrite app_nil_r|].
  by rewrite IH, <- app_assoc.
Qed.

(** Serializing a cover and merging the result into an empty one gives the
    cover back, for every iteration order. *)
Theorem cover_serialize_roundtrip (cov : Cover) (it : list Z) :
  it ≡ₚ elements (coverSet cov) →
  coverSet (Merge None (Serialize cov it)) = coverSet cov.
Proof.
  intros Hit. unfold Merge, Serialize. simpl. rewrite foldl_snoc, foldl_insert_set, Hit. set_solver.
Qed.

Lemma cover_serialize_roundtrip_witness :
  coverSet (Merge None (Serialize (Some {[1%Z; 2%Z]}) [2%Z; 1%Z])) =
  coverSet (Some {[1%Z; 2%Z]}).
Proof.
  apply (cover_serialize_roundtrip (Some {[1%Z; 2%Z]}) [2%Z; 1%Z]).
  vm_compute. apply perm_swap || done.
Defined.
