(* ===== verification/Gate.v ===== *)
(** * The concurrency gate

    [pkg/ipc/gate.go]: a gate bounds how many activities run at once and how far
    the newest may be ahead of the oldest.  The code between taking the mutex
    (or returning from [cv.Wait]) and releasing it (or calling [cv.Wait]) is one
    atomic step; a thread that called [cv.Wait] sleeps until a [Broadcast].
    A schedule is a sequence of thread numbers. *)

From stdpp Require Import base numbers list.
From S2P Require Import Prelude.

Record Gate := mkGate {
  busy : list bool;
  pos : nat;
  running : Z;
  stop : bool;
}.

(** [f != nil] is the second argument of [NewGate] as far as the gate itself is
    concerned. *)
Definition NewGate (c : nat) : Gate := mkGate (replicate c false) 0 0 false.

(** One pass through [Enter] from a point where the lock was just acquired:
    [Ret None] when the thread has to wait. *)
Definition Enter (g : Gate) : res (option (Gate * nat)) :=
  match busy g !! pos g with
  | None => Panic
  | Some b =>
      if b || stop g then Ret None
      else
        let idx := pos g in
        let pos' := S (pos g) in
        let pos' := if bool_decide (length (busy g) ≤ pos') then 0 else pos' in
        let busy' := <[idx := true]> (busy g) in
        let running' := (running g + 1)%Z in
        if bool_decide (Z.of_nat (length busy') < running')%Z then Panic
        else Ret (Some (mkGate busy' pos' running' (stop g), idx))
  end.

(** What a step of [Leave] ends with: [cv.Wait], or [Unlock] after possibly a
    [Broadcast] and a call of [f]. *)
Inductive LeaveRes :=
  | LWait (g : Gate)
  | LDone (g : Gate) (broadcast calledF : bool).

(** The code of [Leave] behind the [if idx == 0 && g.f != nil] block. *)
Definition leaveTail (g : Gate) (idx : nat) (broadcast calledF : bool) : LeaveRes :=
  LDone g (broadcast || (bool_decide (idx = pos g) && negb (stop g))
           || (bool_decide (running g = 0%Z) && stop g)) calledF.

(** The loop [for g.running != 0 { g.cv.Wait() }] and what follows it. *)
Definition leaveDrain (g : Gate) (idx : nat) : LeaveRes :=
  if bool_decide (running g ≠ 0%Z) then LWait g
  else
    let g := mkGate (busy g) (pos g) (running g) false in
    leaveTail g idx true true.

Definition Leave (hasF : bool) (g : Gate) (idx : nat) : res LeaveRes :=
  match busy g !! idx with
  | None | Some false => Panic
  | Some true =>
      let g := mkGate (<[idx := false]> (busy g)) (pos g) (running g - 1) (stop g) in
      if bool_decide (running g < 0)%Z then Panic
      else if bool_decide (idx = 0) && hasF then
        if stop g then Panic
        else Ret (leaveDrain (mkGate (busy g) (pos g) (running g) true) idx)
      else Ret (leaveTail g idx false false)
  end.

(** ** Threads *)

(** A thread is outside the gate, waiting in [Enter], inside an activity, or
    waiting in [Leave].  [ticket] is the number of activities started before
    this one. *)
Inductive TState :=
  | TOut
  | TEnter (asleep : bool)
  | TIn (idx ticket : nat)
  | TDrain (idx : nat) (asleep : bool).

Record Sys := mkSys { gate : Gate; threads : list TState; started : nat }.

Definition wake (t : TState) : TState :=
  match t with
  | TEnter _ => TEnter false
  | TDrain idx _ => TDrain idx false
  | t => t
  end.

Definition finishLeave (s : Sys) (i idx : nat) (r : LeaveRes) : Sys * bool :=
  match r with
  | LWait g => (mkSys g (<[i := TDrain idx true]> (threads s)) (started s), false)
  | LDone g bc calledF =>
      let ts := <[i := TOut]> (threads s) in
      (mkSys g (if bc then wake <$> ts else ts) (started s), calledF)
  end.

(** The next atomic step of thread [i]: [None] when it cannot run; the flag
    tells whether the step called [f]. *)
Definition stepThread (hasF : bool) (s : Sys) (i : nat) : option (res (Sys * bool)) :=
  match threads s !! i with
  | None | Some (TEnter true) | Some (TDrain _ true) => None
  | Some TOut | Some (TEnter false) =>
      Some match Enter (gate s) with
      | Ret (Some (g, idx)) =>
          Ret (mkSys g (<[i := TIn idx (started s)]> (threads s)) (S (started s)), false)
      | Ret None => Ret (mkSys (gate s) (<[i := TEnter true]> (threads s)) (started s), false)
      | Panic => Panic
      | NoFuel => NoFuel
      end
  | Some (TIn idx _) =>
      Some match Leave hasF (gate s) idx with
      | Ret r => Ret (finishLeave s i idx r)
      | Panic => Panic
      | NoFuel => NoFuel
      end
  | Some (TDrain idx false) => Some (Ret (finishLeave s i idx (leaveDrain (gate s) idx)))
  end.

Definition initSys (c n : nat) : Sys := mkSys (NewGate c) (replicate n TOut) 0.

(** The states a gate for [c] activities, used by [n] threads, can reach. *)
Inductive reachable (hasF : bool) (c n : nat) : Sys → Prop :=
  | reach_init : reachable hasF c n (initSys c n)
  | reach_step s i s' b :
      reachable hasF c n s → stepThread hasF s i = Some (Ret (s', b)) → reachable hasF c n s'.

(** Runs a schedule; a thread that cannot run is skipped. *)
Fixpoint runSchedule (hasF : bool) (s : Sys) (sched : list nat) : res Sys :=
  match sched with
  | [] => Ret s
  | i :: sched =>
      match stepThread hasF s i with
      | None => runSchedule hasF s sched
      | Some (Ret (s, _)) => runSchedule hasF s sched
      | Some Panic => Panic
      | Some NoFuel => NoFuel
      end
  end.

(** ** Invariant *)

Definition inN (t : TState) : nat := match t with TIn _ _ => 1 | _ => 0 end.
Definition b2n (b : bool) : nat := if b then 1 else 0.

(** The counters, slots and tickets agree with the threads. *)
Record Core (c : nat) (s : Sys) : Prop := {
  inv_len : length (busy (gate s)) = c;
  inv_pos : c ≠ 0 ∧ pos (gate s) = started s mod c;
  inv_running : running (gate s) = Z.of_nat (sum_list_with inN (threads s));
  inv_busy : sum_list_with inN (threads s) = sum_list_with b2n (busy (gate s));
  inv_in : ∀ i idx t, threads s !! i = Some (TIn idx t) →
    busy (gate s) !! idx = Some true ∧ idx = t mod c ∧ t < started s ≤ t + c;
  inv_inj : ∀ i j idx t t', threads s !! i = Some (TIn idx t) →
    threads s !! j = Some (TIn idx t') → i = j;
  inv_drain : ∀ i idx a, threads s !! i = Some (TDrain idx a) →
    stop (gate s) = true ∧ idx = 0;
  inv_drain_inj : ∀ i j idx idx' a a', threads s !! i = Some (TDrain idx a) →
    threads s !! j = Some (TDrain idx' a') → i = j;
  inv_stop : stop (gate s) = true →
    busy (gate s) !! 0 = Some false ∧ ∃ i idx a, threads s !! i = Some (TDrain idx a);
}.

(** Every sleeping thread still has to wait. *)
Definition sleepOK (s : Sys) : Prop :=
  (∀ i, threads s !! i = Some (TEnter true) →
     busy (gate s) !! pos (gate s) = Some true ∨ stop (gate s) = true) ∧
  (∀ i idx, threads s !! i = Some (TDrain idx true) → running (gate s) ≠ 0%Z).

(** ** Lemmas *)

Lemma sum_insert {A} (f : A → nat) (l : list A) i x y :
  l !! i = Some x → sum_list_with f (<[i := y]> l) + f x = sum_list_with f l + f y.
Proof.
  revert i. induction l as [|z l IH]; intros [|i] Hi; simplify_eq/=; [lia|].
  specialize (IH i Hi). lia.
Qed.

Lemma sum_lookup {A} (f : A → nat) (l : list A) i x :
  l !! i = Some x → f x ≤ sum_list_with f l.
Proof.
  revert i. induction l as [|z l IH]; intros [|i] Hi; simplify_eq/=; [lia|].
  specialize (IH i Hi). lia.
Qed.

Lemma sum_replicate0 {A} (f : A → nat) n x : f x = 0 → sum_list_with f (replicate n x) = 0.
Proof. intros Hx. induction n as [|n IH]; simpl; [done|]. rewrite Hx. done. Qed.

Lemma sum_b2n_length l : sum_list_with b2n l ≤ length l.
Proof. induction l as [|[] l IH]; simpl; lia. Qed.

Lemma inN_wake (ts : list TState) : sum_list_with inN (wake <$> ts) = sum_list_with inN ts.
Proof. induction ts as [|[| | |] ts IH]; csimpl; lia. Qed.

Lemma wake_TIn (ts : list TState) i idx t :
  (wake <$> ts) !! i = Some (TIn idx t) ↔ ts !! i = Some (TIn idx t).
Proof.
  rewrite list_lookup_fmap. destruct (ts !! i) as [[| | |]|]; simpl; naive_solver.
Qed.

Lemma wake_TDrain (ts : list TState) i idx a :
  (wake <$> ts) !! i = Some (TDrain idx a) → ∃ a', ts !! i = Some (TDrain idx a').
Proof.
  rewrite list_lookup_fmap. destruct (ts !! i) as [[| | |]|]; simpl; naive_solver.
Qed.

Lemma Core_wake c g (ts : list TState) n : Core c (mkSys g ts n) → Core c (mkSys g (wake <$> ts) n).
Proof.
  intros [H1 H2 H3 H4 H5 H6 H7 H8 H9]; split; simpl in *; try done; try by rewrite inN_wake.
  - intros i idx t. rewrite wake_TIn. apply H5.
  - intros i j idx t t'. rewrite !wake_TIn. apply H6.
  - intros i idx a (a' & H)%wake_TDrain. eauto.
  - intros i j idx idx' a a' (? & ?)%wake_TDrain (? & ?)%wake_TDrain. eauto.
  - intros Hs. destruct (H9 Hs) as (? & i & idx & a & Hi). split; [done|].
    exists i, idx, false. by rewrite list_lookup_fmap, Hi.
Qed.

Lemma sleepOK_wake g (ts : list TState) n : sleepOK (mkSys g (wake <$> ts) n).
Proof.
  split; simpl.
  - intros i. rewrite list_lookup_fmap. by destruct (ts !! i) as [[| | |]|].
  - intros i idx. rewrite list_lookup_fmap. by destruct (ts !! i) as [[| | |]|].
Qed.

Lemma Core_init c n : c ≠ 0 → Core c (initSys c n) ∧ sleepOK (initSys c n).
Proof.
  intros Hc. split; [split|split]; simpl.
  all: try (by intros; simplify_eq; repeat match goal with
    H : replicate _ _ !! _ = Some _ |- _ => apply lookup_replicate in H as [? _] end).
  - apply length_replicate.
  - split; [done|]. by rewrite Nat.Div0.mod_0_l.
  - by rewrite sum_replicate0.
  - by rewrite !sum_replicate0.
Qed.

Lemma lookup_insert_inv {A} (l : list A) i x j y :
  <[i := x]> l !! j = Some y → (i = j ∧ y = x) ∨ (i ≠ j ∧ l !! j = Some y).
Proof. intros H%list_lookup_insert_Some. naive_solver. Qed.

Lemma sum_b2n_lt l i : l !! i = Some false → sum_list_with b2n l < length l.
Proof.
  revert i. induction l as [|b l IH]; intros [|i] Hi; simplify_eq/=.
  - pose proof (sum_b2n_length l). lia.
  - specialize (IH i Hi). destruct b; simpl; lia.
Qed.

Lemma sum_b2n_0 l i b : sum_list_with b2n l = 0 → l !! i = Some b → b = false.
Proof. intros H0 Hi. pose proof (sum_lookup b2n l i b Hi). destruct b; simpl in *; [lia|done]. Qed.

Lemma succ_mod n c :
  c ≠ 0 → S n mod c = if bool_decide (c ≤ S (n mod c)) then 0 else S (n mod c).
Proof.
  intros Hc. pose proof (Nat.mod_upper_bound n c Hc). pose proof (Nat.div_mod n c Hc).
  case_bool_decide.
  - symmetry. apply (Nat.mod_unique _ _ (S (n / c))); lia.
  - symmetry. apply (Nat.mod_unique _ _ (n / c)); lia.
Qed.

(** Two tickets at most [c] apart that share a slot are [c] apart or equal. *)
Lemma mod_window n t c : c ≠ 0 → t < n ≤ t + c → n mod c = t mod c → n = t + c.
Proof.
  intros Hc Hw Hm. pose proof (Nat.div_mod n c Hc). pose proof (Nat.div_mod t c Hc).
  assert (n / c = S (t / c)) by nia. nia.
Qed.

Lemma Enter_cases c s :
  Core c s →
  (Enter (gate s) = Ret None ∧
     (busy (gate s) !! pos (gate s) = Some true ∨ stop (gate s) = true)) ∨
  (busy (gate s) !! pos (gate s) = Some false ∧ stop (gate s) = false ∧
   Enter (gate s) = Ret (Some (mkGate (<[pos (gate s) := true]> (busy (gate s)))
     (S (started s) mod c) (running (gate s) + 1) false, pos (gate s)))).
Proof.
  intros HC. destruct (inv_pos _ _ HC) as [Hc Hp]. unfold Enter.
  destruct (lookup_lt_is_Some_2 (busy (gate s)) (pos (gate s))) as [b Hb].
  { rewrite Hp, (inv_len _ _ HC). by apply Nat.mod_upper_bound. }
  rewrite Hb. destruct b; [left; by auto|]. destruct (stop (gate s)); [left; by auto|].
  right. split; [done|]. split; [done|]. simpl.
  rewrite length_insert, bool_decide_false.
  - rewrite succ_mod, <- Hp, <- (inv_len _ _ HC) by done. done.
  - rewrite (inv_running _ _ HC), (inv_busy _ _ HC).
    pose proof (sum_b2n_lt _ _ Hb). lia.
Qed.

(** A thread that is neither inside nor draining. *)
Definition waiting (t : TState) : Prop := match t with TOut | TEnter _ => True | _ => False end.

Ltac thread_cases :=
  repeat match goal with
  | H : <[_ := _]> _ !! _ = Some _ |- _ =>
      apply lookup_insert_inv in H as [[? ?]|[? ?]]; simplify_eq
  end.

Lemma Core_enter c s i t0 :
  Core c s → threads s !! i = Some t0 → waiting t0 →
  busy (gate s) !! pos (gate s) = Some false → stop (gate s) = false →
  Core c (mkSys (mkGate (<[pos (gate s) := true]> (busy (gate s)))
            (S (started s) mod c) (running (gate s) + 1) false)
          (<[i := TIn (pos (gate s)) (started s)]> (threads s)) (S (started s))).
Proof.
  intros HC Hi Hw Hb Hst. destruct (inv_pos _ _ HC) as [Hc Hp].
  assert (Hfresh : ∀ j t, threads s !! j ≠ Some (TIn (pos (gate s)) t)).
  { intros j t Hj. destruct (inv_in _ _ HC _ _ _ Hj). congruence. }
  pose proof (sum_insert inN _ _ _ (TIn (pos (gate s)) (started s)) Hi) as Hsum.
  pose proof (sum_insert b2n _ _ _ true Hb) as Hsb.
  assert (inN t0 = 0) as Hz by (by destruct t0).
  rewrite Hz in Hsum. simpl in Hsum, Hsb.
  pose proof (inv_running _ _ HC). pose proof (inv_busy _ _ HC).
  split; simpl.
  - rewrite length_insert. apply HC.
  - done.
  - lia.
  - lia.
  - intros j idx t Hj. thread_cases.
    + rewrite list_lookup_insert_eq by (by eapply lookup_lt_Some). split_and!; lia || done.
    + destruct (inv_in _ _ HC _ _ _ H2) as (Hbj & Hidx & Hwin).
      rewrite list_lookup_insert_ne by congruence. split_and!; try lia; [done|].
      destruct (decide (started s = t + c)) as [He|]; [|lia].
      exfalso. rewrite Hidx in Hbj. rewrite He in Hp.
      replace (t + c) with (t + 1 * c) in Hp by lia. rewrite Nat.Div0.mod_add in Hp. congruence.
  - intros j k idx t t' Hj Hk. thread_cases; try done.
    + by destruct (Hfresh _ _ H2).
    + by destruct (Hfresh _ _ H2).
    + by eapply (inv_inj _ _ HC).
  - intros j idx a Hj. thread_cases. destruct (inv_drain _ _ HC _ _ _ H2). congruence.
  - intros j k idx idx' a a' Hj Hk. thread_cases. by eapply (inv_drain_inj _ _ HC).
  - done.
Qed.

Lemma Core_wait c s i t0 t1 :
  Core c s → threads s !! i = Some t0 → waiting t0 → waiting t1 →
  Core c (mkSys (gate s) (<[i := t1]> (threads s)) (started s)).
Proof.
  intros HC Hi Hw0 Hw1. pose proof (sum_insert inN _ _ _ t1 Hi) as Hsum.
  assert (inN t0 = 0 ∧ inN t1 = 0) as [Hz0 Hz1] by (by destruct t0, t1).
  rewrite Hz0, Hz1 in Hsum. pose proof (inv_running _ _ HC). pose proof (inv_busy _ _ HC).
  split; simpl; try apply HC.
  - lia.
  - lia.
  - intros j idx t Hj. thread_cases; try done; by eapply (inv_in _ _ HC).
  - intros j k idx t t' Hj Hk. thread_cases; try done; by eapply (inv_inj _ _ HC).
  - intros j idx a Hj. thread_cases; try done; by eapply (inv_drain _ _ HC).
  - intros j k idx idx' a a' Hj Hk. thread_cases; try done; by eapply (inv_drain_inj _ _ HC).
  - intros Hs. destruct (inv_stop _ _ HC Hs) as (Hb & j & idx & a & Hj). split; [done|].
    exists j, idx, a. rewrite list_lookup_insert_ne; [done|]. intros ->. by simplify_eq.
Qed.

(** A thread leaves slot [idx]: it goes outside, or starts draining. *)
Definition leaveTo (s : Sys) (idx : nat) (t1 : TState) (st1 : bool) : Prop :=
  (t1 = TOut ∧ st1 = stop (gate s)) ∨
  (idx = 0 ∧ t1 = TDrain 0 true ∧ st1 = true ∧ stop (gate s) = false).

Lemma Core_leave c s i idx t t1 st1 :
  Core c s → threads s !! i = Some (TIn idx t) → leaveTo s idx t1 st1 →
  Core c (mkSys (mkGate (<[idx := false]> (busy (gate s))) (pos (gate s))
                   (running (gate s) - 1) st1)
          (<[i := t1]> (threads s)) (started s)).
Proof.
  intros HC Hi Hto. destruct (inv_in _ _ HC _ _ _ Hi) as (Hb & _).
  pose proof (sum_insert inN _ _ _ t1 Hi) as Hsum.
  pose proof (sum_insert b2n _ _ _ false Hb) as Hsb.
  assert (inN t1 = 0) as Hz by (by destruct Hto as [[-> _]|(_ & -> & _)]).
  rewrite Hz in Hsum. simpl in Hsum, Hsb.
  pose proof (inv_running _ _ HC). pose proof (inv_busy _ _ HC).
  assert (Hno : stop (gate s) = false → ∀ j a b, threads s !! j ≠ Some (TDrain a b)).
  { intros Hf j a b Hj. destruct (inv_drain _ _ HC _ _ _ Hj). congruence. }
  split; simpl; try (rewrite length_insert; apply HC); try lia; [apply HC|..].
  - intros j idx' t' Hj. thread_cases.
    rewrite list_lookup_insert_ne; [by eapply (inv_in _ _ HC)|].
    intros ->. by destruct (inv_inj _ _ HC i j idx' t t').
  - intros j k idx' t' t'' Hj Hk. thread_cases. by eapply (inv_inj _ _ HC).
  - intros j idx' a Hj. destruct Hto as [[-> ->]|(-> & -> & -> & Hf)]; thread_cases; try done.
    + by eapply (inv_drain _ _ HC).
    + by destruct (Hno Hf j idx' a).
  - intros j k a b x y Hj Hk. destruct Hto as [[-> ->]|(-> & -> & -> & Hf)]; thread_cases; try done.
    + by eapply (inv_drain_inj _ _ HC).
    + by destruct (Hno Hf k b y).
    + by destruct (Hno Hf j a x).
    + by destruct (Hno Hf j a x).
  - intros Hs. destruct Hto as [[-> ->]|(-> & -> & -> & Hf)].
    + destruct (inv_stop _ _ HC Hs) as (Hb0 & j & a & b & Hj). split.
      * rewrite list_lookup_insert_ne; [done|]. intros ->. congruence.
      * exists j, a, b. rewrite list_lookup_insert_ne; [done|]. intros ->. by simplify_eq.
    + split; [apply list_lookup_insert_eq; by eapply lookup_lt_Some|].
      exists i, 0, true. apply list_lookup_insert_eq. by eapply lookup_lt_Some.
Qed.

(** The draining thread is done: new activities may start again. *)
Lemma Core_drained c s i idx a :
  Core c s → threads s !! i = Some (TDrain idx a) →
  Core c (mkSys (mkGate (busy (gate s)) (pos (gate s)) (running (gate s)) false)
          (<[i := TOut]> (threads s)) (started s)).
Proof.
  intros HC Hi. pose proof (sum_insert inN _ _ _ TOut Hi) as Hsum. simpl in Hsum.
  pose proof (inv_running _ _ HC). pose proof (inv_busy _ _ HC).
  split; simpl; try apply HC; try lia; try done.
  - intros j idx' t Hj. thread_cases. by eapply (inv_in _ _ HC).
  - intros j k idx' t t' Hj Hk. thread_cases. by eapply (inv_inj _ _ HC).
  - intros j idx' b Hj. thread_cases; try done. exfalso. eauto using inv_drain_inj.
  - intros j k x y b b' Hj Hk. thread_cases. by eapply (inv_drain_inj _ _ HC).
Qed.

(** The result of a leaving step is in the invariant again. *)
Lemma leave_inv hasF c s i idx t :
  Core c s → sleepOK s → threads s !! i = Some (TIn idx t) →
  ∃ r, Leave hasF (gate s) idx = Ret r ∧
    Core c (finishLeave s i idx r).1 ∧ sleepOK (finishLeave s i idx r).1 ∧
    ((finishLeave s i idx r).2 = true → running (gate (finishLeave s i idx r).1) = 0%Z).
Proof.
  intros HC HS Hi. destruct (inv_in _ _ HC _ _ _ Hi) as (Hb & _).
  pose proof (sum_lookup inN _ _ _ Hi) as Hpos. simpl in Hpos.
  pose proof (inv_running _ _ HC) as Hrun.
  unfold Leave. rewrite Hb. simpl. rewrite bool_decide_false by lia.
  destruct (bool_decide (idx = 0) && hasF) eqn:Hz.
  - apply andb_true_iff in Hz as [->%bool_decide_eq_true _].
    destruct (stop (gate s)) eqn:Hst.
    { destruct (inv_stop _ _ HC Hst). congruence. }
    eexists. split; [done|]. unfold leaveDrain. simpl. case_bool_decide as Hr; simpl.
    + split; [eapply Core_leave; eauto; right; auto|]. split; [|done]. split; simpl; [by auto|].
      intros j idx' _. done.
    + split; [|split; [apply sleepOK_wake|intros _; lia]].
      apply Core_wake. eapply Core_leave; eauto. left. auto.
  - eexists. split; [done|]. unfold leaveTail. simpl.
    pose proof (Core_leave c s i idx t TOut (stop (gate s)) HC Hi (or_introl (conj eq_refl eq_refl))) as HC'.
    destruct (bool_decide (idx = pos (gate s)) && negb (stop (gate s))) eqn:B1;
      [simpl; split; [by apply Core_wake|split; [apply sleepOK_wake|done]]|].
    destruct (bool_decide ((running (gate s) - 1)%Z = 0%Z) && stop (gate s)) eqn:B2;
      [simpl; split; [by apply Core_wake|split; [apply sleepOK_wake|done]]|].
    simpl. split; [done|]. split; [|done]. split; simpl.
    + intros j Hj. thread_cases. destruct (proj1 HS j) as [Hp|]; [done| |by right].
      destruct (stop (gate s)) eqn:Hst; [by right|left].
      rewrite andb_true_r in B1. apply bool_decide_eq_false in B1.
      by rewrite list_lookup_insert_ne.
    + intros j idx' Hj. thread_cases.
      destruct (inv_drain _ _ HC j idx' true) as [Hst _]; [done|].
      rewrite Hst, andb_true_r in B2. by apply bool_decide_eq_false in B2.
Qed.

Lemma Core_redrain c s i idx a :
  Core c s → threads s !! i = Some (TDrain idx a) →
  Core c (mkSys (gate s) (<[i := TDrain idx true]> (threads s)) (started s)).
Proof.
  intros HC Hi. pose proof (sum_insert inN _ _ _ (TDrain idx true) Hi) as Hsum. simpl in Hsum.
  pose proof (inv_running _ _ HC). pose proof (inv_busy _ _ HC).
  assert (Hold : ∀ j x b, <[i := TDrain idx true]> (threads s) !! j = Some (TDrain x b) →
    ∃ b', threads s !! j = Some (TDrain x b')).
  { intros j x b Hj. thread_cases; eauto. }
  split; simpl; try apply HC; try lia.
  - intros j idx' t Hj. thread_cases. by eapply (inv_in _ _ HC).
  - intros j k idx' t t' Hj Hk. thread_cases. by eapply (inv_inj _ _ HC).
  - intros j idx' b (b' & Hj)%Hold. by eapply (inv_drain _ _ HC).
  - intros j k x y b b' (? & Hj)%Hold (? & Hk)%Hold. by eapply (inv_drain_inj _ _ HC).
  - intros Hs. split; [by apply (inv_stop _ _ HC)|]. exists i, idx, true.
    apply list_lookup_insert_eq. by eapply lookup_lt_Some.
Qed.

Lemma drain_inv c s i idx :
  Core c s → threads s !! i = Some (TDrain idx false) →
  sleepOK s →
  let r := finishLeave s i idx (leaveDrain (gate s) idx) in
  Core c r.1 ∧ sleepOK r.1 ∧ (r.2 = true → running (gate r.1) = 0%Z).
Proof.
  intros HC Hi HS. unfold leaveDrain. case_bool_decide as Hr; simpl.
  - split; [by eapply Core_redrain|]. split; [|done]. split; simpl; [|done].
    intros j Hj. right. by eapply (inv_drain _ _ HC).
  - split; [apply Core_wake; by eapply Core_drained|].
    split; [apply sleepOK_wake|]. intros _. lia.
Qed.

(** Every step of every thread succeeds and keeps the invariant; when it calls
    [f] no activity is running. *)
Lemma step_inv hasF c s i r :
  Core c s → sleepOK s → stepThread hasF s i = Some r →
  ∃ s' b, r = Ret (s', b) ∧ Core c s' ∧ sleepOK s' ∧
    (b = true → running (gate s') = 0%Z).
Proof.
  intros HC HS. unfold stepThread.
  destruct (threads s !! i) as [t0|] eqn:Hi; [|done].
  assert (Hent : waiting t0 → ∀ r', Some match Enter (gate s) with
      | Ret (Some (g, idx)) =>
          Ret (mkSys g (<[i := TIn idx (started s)]> (threads s)) (S (started s)), false)
      | Ret None => Ret (mkSys (gate s) (<[i := TEnter true]> (threads s)) (started s), false)
      | Panic => Panic
      | NoFuel => NoFuel
      end = Some r' → ∃ s' b, r' = Ret (s', b) ∧ Core c s' ∧ sleepOK s' ∧
        (b = true → running (gate s') = 0%Z)).
  { intros Hw r' [= <-].
    destruct (Enter_cases c s HC) as [[-> Hwait]|(Hb & Hst & ->)]; do 2 eexists;
      (split; [done|]).
    - split; [by eapply Core_wait|]. split; [|done]. split; simpl; [done|].
      intros j idx Hj. thread_cases. by eapply (proj2 HS).
    - split; [by eapply Core_enter|]. split; [|done]. split; simpl.
      + intros j Hj. thread_cases. destruct (proj1 HS j); [done|congruence|congruence].
      + intros j idx Hj. thread_cases. destruct (inv_drain _ _ HC j idx true); [done|congruence]. }
  destruct t0 as [|[]|idx t|idx []]; try done.
  - by apply Hent.
  - by apply Hent.
  - intros [= <-]. destruct (leave_inv hasF c s i idx t HC HS Hi) as (r' & -> & H1 & H2 & H3).
    destruct (finishLeave s i idx r') as [s' b]. eauto 10.
  - intros [= <-]. destruct (drain_inv c s i idx HC Hi HS) as (H1 & H2 & H3).
    destruct (finishLeave s i idx (leaveDrain (gate s) idx)) as [s' b]. eauto 10.
Qed.

Lemma reachable_inv hasF c n s : c ≠ 0 → reachable hasF c n s → Core c s ∧ sleepOK s.
Proof.
  intros Hc. induction 1 as [|s i s' b _ [HC HS] Hstep]; [by apply Core_init|].
  destruct (step_inv _ _ _ _ _ HC HS Hstep) as (? & ? & [= <- <-] & ? & ? & _). done.
Qed.

Lemma runSchedule_reachable hasF c n s s' sched :
  reachable hasF c n s → runSchedule hasF s sched = Ret s' → reachable hasF c n s'.
Proof.
  revert s. induction sched as [|i sched IH]; simpl; intros s Hr; [by intros [= <-]|].
  destruct (stepThread hasF s i) as [[[s1 b]| |]|] eqn:Hs; try done; [|by apply IH].
  apply IH. by eapply reach_step.
Qed.

Lemma sum_inN_lookup ts i idx t : sum_list_with inN ts = 0 → ts !! i ≠ Some (TIn idx t).
Proof. intros H0 Hi. pose proof (sum_lookup inN _ _ _ Hi) as H. simpl in H. lia. Qed.

Lemma sum_inN_exists ts : sum_list_with inN ts ≠ 0 → ∃ i idx t, ts !! i = Some (TIn idx t).
Proof.
  induction ts as [|t ts IH]; simpl; [done|]. intros H.
  destruct t as [| |idx t|]; [| |by exists 0, idx, t|]; simpl in H;
    destruct (IH H) as (i & idx' & t' & Hi); by exists (S i), idx', t'.
Qed.

(** A thread that is not outside gets ahead with its next step: it leaves its
    activity, starts one, or finishes leaving. *)
Definition advances (hasF : bool) (s : Sys) (j : nat) : Prop :=
  ∃ t s' b, threads s !! j = Some t ∧ t ≠ TOut ∧ stepThread hasF s j = Some (Ret (s', b)) ∧
    (inN t = 1 ∨ threads s' !! j = Some TOut ∨ ∃ idx t', threads s' !! j = Some (TIn idx t')).

(** When nothing runs and the gate is stopped, the draining thread gets ahead. *)
Lemma drain_advances hasF c s :
  Core c s → sleepOK s → running (gate s) = 0%Z → stop (gate s) = true →
  ∃ j, advances hasF s j.
Proof.
  intros HC HS H0 Hst. destruct (inv_stop _ _ HC Hst) as (_ & j & idx & a & Hj).
  destruct a; [by destruct (proj2 HS j idx)|].
  exists j, (TDrain idx false). unfold stepThread. rewrite Hj.
  unfold leaveDrain. rewrite bool_decide_false by (by intros ?). simpl.
  do 2 eexists. split_and!; [done..|]. right. left. simpl.
  rewrite list_lookup_fmap, list_lookup_insert_eq; [done|]. by eapply lookup_lt_Some.
Qed.

(** When nothing runs and the gate is open, an awake thread in [Enter] starts. *)
Lemma enter_advances hasF c s i :
  Core c s → running (gate s) = 0%Z → stop (gate s) = false →
  threads s !! i = Some (TEnter false) → advances hasF s i.
Proof.
  intros HC H0 Hst Hi. exists (TEnter false). unfold stepThread. rewrite Hi.
  destruct (Enter_cases c s HC) as [[_ [Hb|?]]|(_ & _ & ->)]; [|congruence|].
  - rewrite (inv_running _ _ HC), (inv_busy _ _ HC) in H0.
    by apply (sum_b2n_0 _ _ true) in Hb; [|lia].
  - do 2 eexists. split_and!; [done..|]. right. right. simpl. do 2 eexists.
    apply list_lookup_insert_eq. by eapply lookup_lt_Some.
Qed.

(** ** Properties *)

(** C18: with the gate used as intended (a thread leaves with the index it
    entered with), no "broken gate" panic and no out-of-range access can occur
    in any interleaving; the activities inside occupy distinct slots and at most
    [c] of them run. *)
Theorem gate_never_broken (hasF : bool) (c n : nat) (s : Sys) :
  c ≠ 0 → reachable hasF c n s →
  (∀ i r, stepThread hasF s i = Some r → ∃ s' b, r = Ret (s', b)) ∧
  running (gate s) = Z.of_nat (sum_list_with inN (threads s)) ∧
  sum_list_with inN (threads s) ≤ c ∧
  (∀ i j idx t t', threads s !! i = Some (TIn idx t) →
     threads s !! j = Some (TIn idx t') → i = j).
Proof.
  intros Hc Hr. destruct (reachable_inv _ _ _ _ Hc Hr) as [HC HS]. split_and!.
  - intros i r Hs. destruct (step_inv _ _ _ _ _ HC HS Hs) as (s' & b & ? & _). eauto.
  - apply HC.
  - rewrite (inv_busy _ _ HC), <- (inv_len _ _ HC). apply sum_b2n_length.
  - apply HC.
Qed.

(** The concurrency window.  Number the activities in the order in which
    they start: an activity that is still running is among the last [c] started,
    and it holds the slot of its number modulo [c]; so a very old activity keeps
    new ones from starting even when few are running. *)
Theorem gate_window (hasF : bool) (c n : nat) (s : Sys) (i idx t : nat) :
  c ≠ 0 → reachable hasF c n s → threads s !! i = Some (TIn idx t) →
  t < started s ≤ t + c ∧ idx = t mod c.
Proof.
  intros Hc Hr Hi. destruct (reachable_inv _ _ _ _ Hc Hr) as [HC _].
  destruct (inv_in _ _ HC _ _ _ Hi) as (_ & ? & ?). done.
Qed.

(** [f] is only called while no activity runs: after a step that calls it
    no thread is inside, and new activities may start. *)
Theorem gate_f_quiescent (hasF : bool) (c n : nat) (s s' : Sys) (i : nat) :
  c ≠ 0 → reachable hasF c n s → stepThread hasF s i = Some (Ret (s', true)) →
  running (gate s') = 0%Z ∧ ∀ j idx t, threads s' !! j ≠ Some (TIn idx t).
Proof.
  intros Hc Hr Hs. destruct (reachable_inv _ _ _ _ Hc Hr) as [HC HS].
  destruct (step_inv _ _ _ _ _ HC HS Hs) as (? & ? & [= <- <-] & HC' & _ & H0).
  specialize (H0 eq_refl). split; [done|]. intros j idx t. apply sum_inN_lookup.
  rewrite (inv_running _ _ HC') in H0. lia.
Qed.

(** C5: no wakeup is lost and the gate does not deadlock: a thread sleeping in
    [Enter] still finds its slot busy or the gate stopped, one sleeping in
    [Leave] still has activities to wait for, and whenever some thread is inside
    or waiting, some such thread gets ahead with its next step. *)
Theorem gate_no_deadlock (hasF : bool) (c n : nat) (s : Sys) :
  c ≠ 0 → reachable hasF c n s →
  sleepOK s ∧
  (∀ i t, threads s !! i = Some t → t ≠ TOut → ∃ j, advances hasF s j).
Proof.
  intros Hc Hr. destruct (reachable_inv _ _ _ _ Hc Hr) as [HC HS]. split; [done|].
  intros i t Hi Ht. pose proof (inv_running _ _ HC) as Hrun.
  destruct (decide (sum_list_with inN (threads s) = 0)) as [H0|Hne].
  - assert (Hz : running (gate s) = 0%Z) by lia.
    destruct (stop (gate s)) eqn:Hst; [by eapply drain_advances|].
    destruct t as [|[]|idx t|idx a]; [done| | | |].
    + destruct (proj1 HS i Hi) as [Hb|]; [|congruence].
      rewrite (inv_busy _ _ HC) in H0. by apply (sum_b2n_0 _ _ true) in Hb.
    + exists i. by eapply enter_advances.
    + by apply (sum_inN_lookup _ _ idx t) in Hi.
    + destruct (inv_drain _ _ HC _ _ _ Hi). congruence.
  - apply sum_inN_exists in Hne as (j & idx & t' & Hj). exists j, (TIn idx t').
    destruct (leave_inv hasF c s j idx t' HC HS Hj) as (r & Hl & _).
    destruct (finishLeave s j idx r) as [s' b] eqn:Hf. exists s', b.
    unfold stepThread. rewrite Hj, Hl, Hf. split_and!; by auto.
Qed.

(** ** Witnesses *)

(** Three threads on a gate of two slots with a callback: threads 0 and 1 run,
    thread 2 sleeps. *)
Definition busySys : Sys :=
  mkSys (mkGate [true; true] 0 2 false) [TIn 0 0; TIn 1 1; TEnter true] 2.

Lemma busySys_reachable : reachable true 2 3 busySys.
Proof. apply (runSchedule_reachable true 2 3 (initSys 2 3) _ [0; 1; 2]); by constructor. Qed.

Lemma gate_never_broken_witness :
  sum_list_with inN (threads busySys) ≤ 2.
Proof. apply (gate_never_broken true 2 3 busySys); [done|apply busySys_reachable]. Defined.

Lemma gate_window_witness : 1 < started busySys ≤ 1 + 2 ∧ 1 = 1 mod 2.
Proof.
  by apply (gate_window true 2 3 busySys 1 1 1); [done|apply busySys_reachable|].
Defined.

Lemma gate_f_quiescent_witness :
  running (gate (mkSys (mkGate [false; false] 1 0 false) [TOut] 1)) = 0%Z ∧
  ∀ j idx t, [TOut] !! j ≠ Some (TIn idx t).
Proof.
  apply (gate_f_quiescent true 2 1 (mkSys (mkGate [true; false] 1 1 false) [TIn 0 0] 1)
    (mkSys (mkGate [false; false] 1 0 false) [TOut] 1) 0).
  - done.
  - apply (runSchedule_reachable true 2 1 (initSys 2 1) _ [0]); by constructor.
  - vm_compute. reflexivity.
Defined.

Lemma gate_no_deadlock_witness : ∃ j, advances true busySys j.
Proof.
  by apply (gate_no_deadlock true 2 3 busySys) with (i := 2) (t := TEnter true);
    [done|apply busySys_reachable|..].
Defined.
