(* ===== verification/WorkQueue.v ===== *)
(** * The fuzzer's work queue

    [syz-fuzzer/workqueue.go]: four stacks of work items and the priorities
    among them.  Programs and call results are not inspected by the queue, so
    their types are parameters.  The needCandidates channel is the number of its
    pending elements and its capacity.  The specification is one list of items
    in the order in which they were enqueued. *)

From stdpp Require Import base numbers list.
From S2P Require Import Prelude.

Section workqueue.
Context {Prog CallInfo : Type}.

Definition ProgCandidate : Z := 1.
Definition ProgMinimized : Z := 2.
Definition ProgSmashed : Z := 4.
Definition ProgNormal : Z := 0.

Record WorkTriage := mkTriage { wt_p : Prog; wt_call : Z; wt_info : CallInfo; wt_flags : Z }.
Record WorkCandidate := mkCandidate { wc_p : Prog; wc_flags : Z }.
Record WorkSmash := mkSmash { ws_p : Prog; ws_call : Z }.

(** The dynamic type of an item; [WOther] is any other Go type. *)
Inductive Work :=
  | WTriage (w : WorkTriage)
  | WCandidate (w : WorkCandidate)
  | WSmash (w : WorkSmash)
  | WOther.

Record Chan := mkChan { ch_len : nat; ch_cap : nat }.

Record WorkQueue := mkWQ {
  triageCandidate : list WorkTriage;
  candidate : list WorkCandidate;
  triage : list WorkTriage;
  smash : list WorkSmash;
  procs : Z;
  needCandidates : Chan;
}.

Definition newWorkQueue (procs : Z) (ch : Chan) : WorkQueue := mkWQ [] [] [] [] procs ch.

Definition isCandidateTriage (w : WorkTriage) : bool :=
  bool_decide (Z.land (wt_flags w) ProgCandidate ≠ 0%Z).

Definition enqueue (wq : WorkQueue) (item : Work) : res WorkQueue :=
  let 'mkWQ tc c t s n ch := wq in
  match item with
  | WTriage w =>
      if isCandidateTriage w then Ret (mkWQ (tc ++ [w]) c t s n ch)
      else Ret (mkWQ tc c (t ++ [w]) s n ch)
  | WCandidate w => Ret (mkWQ tc (c ++ [w]) t s n ch)
  | WSmash w => Ret (mkWQ tc c t (s ++ [w]) n ch)
  | WOther => Panic
  end.

(** The non-blocking send. *)
Definition trySend (ch : Chan) : Chan :=
  if bool_decide (ch_len ch < ch_cap ch) then mkChan (S (ch_len ch)) (ch_cap ch) else ch.

(** [last := len(l) - 1; item = l[last]; l = l[:last]] on a non-empty slice. *)
Definition pop {A} (l : list A) : option (A * list A) :=
  match l !! (length l - 1) with
  | Some x => Some (x, take (length l - 1) l)
  | None => None
  end.

Definition emptyQueue (wq : WorkQueue) : bool :=
  bool_decide (length (triageCandidate wq) + length (candidate wq) +
               length (triage wq) + length (smash wq) = 0).

(** The part of [dequeue] under the write lock and the notification behind it. *)
Definition dequeueLocked (wq : WorkQueue) : option Work * WorkQueue :=
  let 'mkWQ tc c t s n ch := wq in
  match pop tc with
  | Some (w, tc) => (Some (WTriage w), mkWQ tc c t s n ch)
  | None =>
      match pop c with
      | Some (w, c) =>
          let wantCandidates := bool_decide (Z.of_nat (length c) < n)%Z in
          (Some (WCandidate w), mkWQ tc c t s n (if wantCandidates then trySend ch else ch))
      | None =>
          match pop t with
          | Some (w, t) => (Some (WTriage w), mkWQ tc c t s n ch)
          | None =>
              match pop s with
              | Some (w, s) => (Some (WSmash w), mkWQ tc c t s n ch)
              | None => (None, wq)
              end
          end
      end
  end.

Definition dequeue (wq : WorkQueue) : option Work * WorkQueue :=
  if emptyQueue wq then (None, wq) else dequeueLocked wq.

Definition wantCandidates (wq : WorkQueue) : bool :=
  bool_decide (Z.of_nat (length (candidate wq)) < procs wq)%Z.

(** A history of the queue: the calls of all procs in the order in which they
    take the lock.  [OpDequeueLocked] is a [dequeue] whose emptiness check ran
    before other calls changed the queue. *)
Inductive Op :=
  | OpEnqueue (w : Work)
  | OpDequeue
  | OpDequeueLocked.

(** Runs a history; the outputs are the results of the dequeues. *)
Fixpoint runOps (wq : WorkQueue) (ops : list Op) : res (list (option Work) * WorkQueue) :=
  match ops with
  | [] => Ret ([], wq)
  | OpEnqueue w :: ops =>
      match enqueue wq w with
      | Ret wq => runOps wq ops
      | Panic => Panic
      | NoFuel => NoFuel
      end
  | op :: ops =>
      let '(o, wq) := match op with OpDequeue => dequeue wq | _ => dequeueLocked wq end in
      match runOps wq ops with
      | Ret (os, wq) => Ret (o :: os, wq)
      | Panic => Panic
      | NoFuel => NoFuel
      end
  end.

(** ** Specification *)

(** The priority class of an item, the most urgent first. *)
Definition rank (w : Work) : nat :=
  match w with
  | WTriage t => if isCandidateTriage t then 0 else 2
  | WCandidate _ => 1
  | WSmash _ => 3
  | WOther => 4
  end.

Definition asTriageCandidate (w : Work) : option WorkTriage :=
  match w with WTriage t => if isCandidateTriage t then Some t else None | _ => None end.
Definition asCandidate (w : Work) : option WorkCandidate :=
  match w with WCandidate c => Some c | _ => None end.
Definition asTriage (w : Work) : option WorkTriage :=
  match w with WTriage t => if isCandidateTriage t then None else Some t | _ => None end.
Definition asSmash (w : Work) : option WorkSmash :=
  match w with WSmash s => Some s | _ => None end.

(** The four stacks hold the items of [l], each stack in the order of [l]. *)
Record holds (wq : WorkQueue) (l : list Work) : Prop := {
  holds_tc : triageCandidate wq = omap asTriageCandidate l;
  holds_c : candidate wq = omap asCandidate l;
  holds_t : triage wq = omap asTriage l;
  holds_s : smash wq = omap asSmash l;
  holds_known : Forall (λ w, rank w < 4) l;
}.

(** ** Lemmas *)

Lemma pop_snoc {A} (l : list A) x : pop (l ++ [x]) = Some (x, l).
Proof.
  unfold pop. rewrite length_app, Nat.add_sub. simpl.
  by rewrite lookup_app_r, Nat.sub_diag, take_app_length.
Qed.

Lemma pop_nil {A} : pop (@nil A) = None.
Proof. done. Qed.

Lemma omap_split_last {B} (f : Work → option B) l :
  omap f l = [] ∨
  ∃ l1 y z l2, l = l1 ++ y :: l2 ∧ f y = Some z ∧ omap f l2 = [] ∧ omap f l = omap f l1 ++ [z].
Proof.
  induction l as [|x l IH] using rev_ind; [by left|].
  rewrite omap_app. simpl. destruct (f x) as [z|] eqn:Hx.
  - right. exists l, x, z, []. by split_and!.
  - rewrite app_nil_r. destruct IH as [->|(l1 & y & z & l2 & -> & Hy & H2 & ->)]; [by left|].
    right. exists l1, y, z, (l2 ++ [x]). rewrite <- app_assoc. split_and!; try done.
    rewrite omap_app, H2. simpl. by rewrite Hx.
Qed.

Lemma omap_drop_other {B} (g : Work → option B) l1 y l2 :
  g y = None → omap g (l1 ++ y :: l2) = omap g (l1 ++ l2).
Proof. intros Hg. rewrite !omap_app. simpl. by rewrite Hg. Qed.

Lemma omap_nil_elem {B} (f : Work → option B) l x : omap f l = [] → x ∈ l → f x = None.
Proof.
  intros Hn Hx. destruct (f x) as [z|] eqn:Hf; [|done].
  assert (z ∈ omap f l) as Hz by (apply list_elem_of_omap; eauto). rewrite Hn in Hz. by inversion Hz.
Qed.

Lemma rank_cases w :
  rank w < 4 →
  match rank w with
  | 0 => is_Some (asTriageCandidate w) | 1 => is_Some (asCandidate w)
  | 2 => is_Some (asTriage w) | _ => is_Some (asSmash w)
  end.
Proof.
  destruct w as [t| | |]; simpl; try eauto; [|lia]. by destruct (isCandidateTriage t); eauto.
Qed.

(** Removing the item from its place keeps the correspondence. *)
Lemma holds_remove wq l1 y l2 wq' :
  holds wq (l1 ++ y :: l2) →
  triageCandidate wq' = omap asTriageCandidate (l1 ++ l2) →
  candidate wq' = omap asCandidate (l1 ++ l2) →
  triage wq' = omap asTriage (l1 ++ l2) →
  smash wq' = omap asSmash (l1 ++ l2) →
  holds wq' (l1 ++ l2).
Proof.
  intros [_ _ _ _ Hk] ? ? ? ?. split; try done.
  rewrite Forall_app, Forall_cons in Hk. rewrite Forall_app. tauto.
Qed.

(** What [dequeue] does to the list of items: it takes the most recent one of
    the most urgent class. *)
Definition takesBest (l : list Work) (y : Work) (l1 l2 : list Work) : Prop :=
  l = l1 ++ y :: l2 ∧ (∀ x, x ∈ l → rank y ≤ rank x) ∧ (∀ x, x ∈ l2 → rank x ≠ rank y).

Lemma takesBest_intro {B} (f : Work → option B) k l1 y z l2 :
  (∀ x, is_Some (f x) ↔ rank x = k) → f y = Some z → omap f l2 = [] →
  (∀ x, x ∈ l1 ++ y :: l2 → k ≤ rank x) →
  takesBest (l1 ++ y :: l2) y l1 l2.
Proof.
  intros Hf Hy H2 Hmin. assert (rank y = k) as Hk by (apply Hf; eauto).
  split; [done|]. split; [by rewrite Hk|].
  intros x Hx Hr. rewrite Hk in Hr. apply Hf in Hr as [? Hr].
  by rewrite (omap_nil_elem f l2 x H2 Hx) in Hr.
Qed.

Lemma as_rank0 x : is_Some (asTriageCandidate x) ↔ rank x = 0.
Proof. destruct x as [t| | |]; simpl; try (split; [intros [? [=]]|done]).
  destruct (isCandidateTriage t); split; eauto; [intros [? [=]]|done]. Qed.
Lemma as_rank1 x : is_Some (asCandidate x) ↔ rank x = 1.
Proof. destruct x as [t| | |]; simpl; split; eauto; try (intros [? [=]]); try done.
  by destruct (isCandidateTriage t). Qed.
Lemma as_rank2 x : is_Some (asTriage x) ↔ rank x = 2.
Proof. destruct x as [t| | |]; simpl; try (split; [intros [? [=]]|done]).
  destruct (isCandidateTriage t); split; eauto; [intros [? [=]]|done]. Qed.
Lemma as_rank3 x : is_Some (asSmash x) ↔ rank x = 3.
Proof. destruct x as [t| | |]; simpl; split; eauto; try (intros [? [=]]); try done.
  by destruct (isCandidateTriage t). Qed.

(** An item of another class is not in the stack. *)
Lemma as_other {B} (f : Work → option B) k x :
  (∀ x, is_Some (f x) ↔ rank x = k) → rank x ≠ k → f x = None.
Proof. intros Hf Hne. destruct (f x) eqn:E; [|done]. destruct Hne. apply Hf. eauto. Qed.

(** No item of a class is queued: all ranks differ from it. *)
Lemma omap_nil_rank {B} (f : Work → option B) k l :
  (∀ x, is_Some (f x) ↔ rank x = k) → omap f l = [] → ∀ x, x ∈ l → rank x ≠ k.
Proof.
  intros Hf Hn x Hx Hr. apply Hf in Hr as [? Hr]. by rewrite (omap_nil_elem f l x Hn Hx) in Hr.
Qed.

(** The result of one dequeue, as the specification sees it. *)
Definition dequeued (wq : WorkQueue) (l : list Work) (r : option Work * WorkQueue) : Prop :=
  ∃ y l1 l2, takesBest l y l1 l2 ∧ r.1 = Some y ∧ holds r.2 (l1 ++ l2) ∧
    procs r.2 = procs wq ∧
    needCandidates r.2 =
      (if bool_decide (rank y = 1) && wantCandidates r.2 then trySend (needCandidates wq)
       else needCandidates wq).

(** One branch of [dequeueLocked]: the stack of class [k] is [omap f l]. *)
Lemma dequeue_branch {B} (f : Work → option B) k wq l :
  (∀ x, is_Some (f x) ↔ rank x = k) → holds wq l →
  (∀ x, x ∈ l → k ≤ rank x) → omap f l ≠ [] →
  ∃ l1 y z l2, takesBest l y l1 l2 ∧ f y = Some z ∧ rank y = k ∧
    pop (omap f l) = Some (z, omap f (l1 ++ l2)) ∧
    ∀ B' (g : Work → option B') k', (∀ x, is_Some (g x) ↔ rank x = k') → k' ≠ k →
      omap g l = omap g (l1 ++ l2).
Proof.
  intros Hf Hh Hmin Hne.
  destruct (omap_split_last f l) as [?|(l1 & y & z & l2 & -> & Hy & H2 & Ho)]; [done|].
  assert (Hk : rank y = k) by (apply Hf; eauto).
  exists l1, y, z, l2. split_and!; try done.
  - by eapply takesBest_intro.
  - by rewrite Ho, pop_snoc, omap_app, H2, app_nil_r.
  - intros B' g k' Hg Hne'. apply omap_drop_other. eapply as_other; [done|]. lia.
Qed.

Ltac stack_other Ho :=
  first [ exact (Ho _ _ 0 as_rank0 ltac:(lia)) | exact (Ho _ _ 1 as_rank1 ltac:(lia))
        | exact (Ho _ _ 2 as_rank2 ltac:(lia)) | exact (Ho _ _ 3 as_rank3 ltac:(lia)) ].

(** The branch of [dequeueLocked] for class [k], the more urgent ones being
    empty. *)
Ltac take_class k Has Hh :=
  right;
  let l1 := fresh "l1" in let y := fresh "y" in let l2 := fresh "l2" in
  let Hb := fresh "Hb" in let Ho := fresh "Ho" in let Hy := fresh "Hy" in
  let z := fresh "z" in let w := fresh "w" in let Hx := fresh "Hx" in
  destruct (dequeue_branch _ k _ _ Has Hh) as (l1 & y & z & l2 & Hb & Hy & ? & -> & Ho);
  [ intros ? Hx; repeat match goal with
      N : ∀ x, x ∈ _ → rank x ≠ _ |- _ => specialize (N _ Hx) end; lia
  | done
  | exists y, l1, l2; destruct y as [w|w|w|]; simpl in Hy; try done;
    try (destruct (isCandidateTriage w) eqn:?); simplify_eq;
    (split_and!; [done|done| |done|try done; by rewrite bool_decide_false by lia]);
    pose proof Hb as [-> _]; eapply holds_remove; simpl; [exact Hh|..]; try done;
    try stack_other Ho;
    match goal with E : omap _ _ = [] |- [] = _ => rewrite <- E; stack_other Ho end ].

Lemma dequeueLocked_spec wq l :
  holds wq l → (l = [] ∧ dequeueLocked wq = (None, wq)) ∨ dequeued wq l (dequeueLocked wq).
Proof.
  intros Hh. pose proof Hh as [H0 H1 H2 H3 Hk]. destruct wq as [tc c t s n ch]. simpl in *. subst.
  destruct (decide (omap asTriageCandidate l = [])) as [E0|E0]; [|take_class 0 as_rank0 Hh].
  rewrite E0, pop_nil. pose proof (omap_nil_rank _ _ _ as_rank0 E0) as N0.
  destruct (decide (omap asCandidate l = [])) as [E1|E1]; [|take_class 1 as_rank1 Hh].
  rewrite E1, pop_nil. pose proof (omap_nil_rank _ _ _ as_rank1 E1) as N1.
  destruct (decide (omap asTriage l = [])) as [E2|E2]; [|take_class 2 as_rank2 Hh].
  rewrite E2, pop_nil. pose proof (omap_nil_rank _ _ _ as_rank2 E2) as N2.
  destruct (decide (omap asSmash l = [])) as [E3|E3]; [|take_class 3 as_rank3 Hh].
  left. pose proof (omap_nil_rank _ _ _ as_rank3 E3) as N3. rewrite E3, pop_nil. split; [|done].
  destruct l as [|x l]; [done|]. rewrite Forall_cons in Hk.
  specialize (N0 x ltac:(left)). specialize (N1 x ltac:(left)).
  specialize (N2 x ltac:(left)). specialize (N3 x ltac:(left)). lia.
Qed.

Lemma dequeue_locked wq l : holds wq l → dequeue wq = dequeueLocked wq.
Proof.
  intros Hh. unfold dequeue, emptyQueue. case_bool_decide as H0; [|done].
  destruct wq as [tc c t s n ch]. simpl in *.
  destruct tc, c, t, s; simpl in H0; try lia. done.
Qed.

Lemma enqueue_holds wq l w :
  holds wq l → rank w < 4 → ∃ wq', enqueue wq w = Ret wq' ∧ holds wq' (l ++ [w]).
Proof.
  intros [H0 H1 H2 H3 Hk] Hw. destruct wq as [tc c t s n ch]. simpl in *. subst.
  destruct w as [w|w|w|]; simpl in *; [destruct (isCandidateTriage w) eqn:Hc| | |lia];
    eexists; (split; [done|]); split; simpl;
    rewrite ?omap_app; simpl; rewrite ?Hc, ?app_nil_r; try done;
    apply Forall_app_2; try done; constructor; simpl; rewrite ?Hc; try lia; constructor.
Qed.

(** The specification of a history, from the list of items [l]: an enqueue adds
    at the end, a dequeue takes the most recent item of the most urgent class
    and reports none only on an empty queue. *)
Inductive specOps : list Work → list Op → list (option Work) → list Work → Prop :=
  | spec_nil l : specOps l [] [] l
  | spec_enqueue l w ops os l' :
      specOps (l ++ [w]) ops os l' → specOps l (OpEnqueue w :: ops) os l'
  | spec_empty op ops os l' :
      (∀ w, op ≠ OpEnqueue w) → specOps [] ops os l' → specOps [] (op :: ops) (None :: os) l'
  | spec_take op l y l1 l2 ops os l' :
      (∀ w, op ≠ OpEnqueue w) → takesBest l y l1 l2 →
      specOps (l1 ++ l2) ops os l' → specOps l (op :: ops) (Some y :: os) l'.

Definition enqueued (ops : list Op) : list Work :=
  omap (λ op, match op with OpEnqueue w => Some w | _ => None end) ops.

Lemma dequeue_step wq l op :
  (∀ w, op ≠ OpEnqueue w) → holds wq l →
  let '(o, wq') := match op with OpDequeue => dequeue wq | _ => dequeueLocked wq end in
  (l = [] ∧ o = None ∧ holds wq' []) ∨
  ∃ y l1 l2, takesBest l y l1 l2 ∧ o = Some y ∧ holds wq' (l1 ++ l2).
Proof.
  intros Hop Hh.
  replace (match op with OpDequeue => dequeue wq | _ => dequeueLocked wq end)
    with (dequeueLocked wq) by (destruct op; by rewrite ?(dequeue_locked wq l)).
  pose proof (dequeueLocked_spec wq l Hh) as Hd.
  destruct (dequeueLocked wq) as [o wq']. destruct Hd as [[-> [= -> ->]]|(y & l1 & l2 & ? & ? & ? & _)].
  - by left.
  - right. simpl in *. eauto 10.
Qed.

Lemma runOps_refines ops wq l :
  holds wq l → Forall (λ w, rank w < 4) (enqueued ops) →
  ∃ os wq' l', runOps wq ops = Ret (os, wq') ∧ holds wq' l' ∧ specOps l ops os l'.
Proof.
  revert wq l. induction ops as [|op ops IH]; intros wq l Hh Hall.
  { exists [], wq, l. split_and!; [done|done|constructor]. }
  assert (Hdeq : (∀ w, op ≠ OpEnqueue w) →
    ∃ os wq' l', runOps wq (op :: ops) = Ret (os, wq') ∧ holds wq' l' ∧
      specOps l (op :: ops) os l').
  { intros Hop. assert (Hall' : Forall (λ w, rank w < 4) (enqueued ops))
      by (destruct op; [by destruct (Hop w)|done..]).
    pose proof (dequeue_step wq l op Hop Hh) as Hs.
    destruct op as [w| |]; [by destruct (Hop w)|..]; simpl;
      destruct (_ wq) as [o wq1]; destruct Hs as [(-> & -> & Hh1)|(y & l1 & l2 & Hb & -> & Hh1)];
      destruct (IH _ _ Hh1 Hall') as (os & wq' & l' & -> & ? & ?); do 3 eexists;
      (split; [done|]); (split; [done|]); [by apply spec_empty|by eapply spec_take|..];
      [by apply spec_empty|by eapply spec_take]. }
  destruct op as [w| |]; [|by apply Hdeq..].
  clear Hdeq. simpl in Hall. apply Forall_cons in Hall as [Hw Hall].
  destruct (enqueue_holds wq l w Hh Hw) as (wq1 & Hq & Hh1). simpl. rewrite Hq.
  destruct (IH _ _ Hh1 Hall) as (os & wq' & l' & -> & ? & ?). do 3 eexists.
  split; [done|]. split; [done|]. by apply spec_enqueue.
Qed.

(** Every item is reported once or still queued. *)
Lemma specOps_perm l ops os l' :
  specOps l ops os l' → l ++ enqueued ops ≡ₚ omap id os ++ l'.
Proof.
  assert (Hdeq : ∀ op ops, (∀ w, op ≠ OpEnqueue w) → enqueued (op :: ops) = enqueued ops).
  { intros [w| |] ops' Hop; [by destruct (Hop w)|done..]. }
  induction 1 as [|l w ops os l' _ IH|op ops os l' Hop _ IH|op l y l1 l2 ops os l' Hop [-> _] _ IH].
  - by rewrite app_nil_r.
  - rewrite <- IH. by rewrite <- app_assoc.
  - by rewrite Hdeq.
  - rewrite Hdeq by done. change (omap id (Some y :: os)) with (y :: omap id os).
    rewrite <- app_comm_cons, <- IH, <- !app_assoc. simpl. symmetry. apply Permutation_middle.
Qed.

(** ** Properties *)

(** C19: the queue implements its specification for every history of calls by
    all procs, including dequeues whose emptiness check became stale: no call
    panics, each dequeue returns the most recently added item of the most
    urgent class that is queued (triage of candidates, candidates, triage,
    smash) and returns none only when the queue is empty. *)
Theorem workqueue_refines (n : Z) (ch : Chan) (ops : list Op) :
  Forall (λ w, rank w < 4) (enqueued ops) →
  ∃ os wq l, runOps (newWorkQueue n ch) ops = Ret (os, wq) ∧ holds wq l ∧
    specOps [] ops os l.
Proof. intros Hall. apply runOps_refines; [|done]. by split. Qed.

(** No item is lost or duplicated: what was enqueued is, as a bag, what was
    dequeued plus what is still queued. *)
Theorem workqueue_conserves (n : Z) (ch : Chan) (ops : list Op) :
  Forall (λ w, rank w < 4) (enqueued ops) →
  ∃ os wq l, runOps (newWorkQueue n ch) ops = Ret (os, wq) ∧ holds wq l ∧
    enqueued ops ≡ₚ omap id os ++ l.
Proof.
  intros Hall. destruct (runOps_refines ops (newWorkQueue n ch) []) as (os & wq & l & ? & ? & Hs);
    [by split|done|].
  exists os, wq, l. split_and!; [done|done|]. by apply specOps_perm in Hs.
Qed.

(** The manager is asked for candidates exactly when a dequeue hands out a
    candidate and fewer candidates than procs are left; the request never blocks
    and is dropped when one is already pending. *)
Theorem dequeue_requests_candidates (wq : WorkQueue) (l : list Work) :
  holds wq l →
  needCandidates (dequeue wq).2 =
  match (dequeue wq).1 with
  | Some (WCandidate _) =>
      if wantCandidates (dequeue wq).2 then trySend (needCandidates wq) else needCandidates wq
  | _ => needCandidates wq
  end.
Proof.
  intros Hh. rewrite (dequeue_locked wq l Hh).
  destruct (dequeueLocked_spec wq l Hh) as [[_ ->]|(y & l1 & l2 & _ & -> & _ & _ & ->)]; [done|].
  destruct y as [t| | |]; simpl; try done. by destruct (isCandidateTriage t).
Qed.
End workqueue.

(** ** Witnesses *)

Definition demoOps : list (@Op nat unit) :=
  [OpEnqueue (WSmash (mkSmash 1 0)); OpEnqueue (WCandidate (mkCandidate 2 0)); OpDequeue;
   OpDequeueLocked; OpDequeueLocked].

Lemma workqueue_refines_witness :
  ∃ os wq l, runOps (newWorkQueue 1 (mkChan 0 1)) demoOps = Ret (os, wq) ∧ holds wq l ∧
    specOps [] demoOps os l.
Proof. apply workqueue_refines. repeat constructor. Defined.

Lemma workqueue_conserves_witness :
  ∃ os wq l, runOps (newWorkQueue 1 (mkChan 0 1)) demoOps = Ret (os, wq) ∧ holds wq l ∧
    enqueued demoOps ≡ₚ omap id os ++ l.
Proof. apply workqueue_conserves. repeat constructor. Defined.

Lemma dequeue_requests_candidates_witness :
  needCandidates (dequeue (CallInfo := unit)
    (mkWQ [] [mkCandidate 2 0] [] [] 1 (mkChan 0 1))).2 = mkChan 1 1.
Proof.
  rewrite (dequeue_requests_candidates _ [WCandidate (mkCandidate 2 0)]); [done|].
  by repeat constructor.
Defined.
