(* ===== verification/Word.v ===== *)
(** * Machine words and bytes

    Go's fixed-width unsigned integers are integers below a power of two with
    the wrap-around written out; a byte is such an integer below 256.  The
    little-endian encodings of [encoding/binary], the byte swaps of
    [prog/mutation.go], and the lemmas on them that the components share. *)

From stdpp Require Import base numbers list.
From S2P Require Import Prelude.

Local Open Scope Z_scope.

(** The value of a [uint64], [uint32], [uint16] or [uint8] expression. *)
Definition u64 (z : Z) : Z := z `mod` 2 ^ 64.

Definition u32 (z : Z) : Z := z `mod` 2 ^ 32.

Definition u16 (z : Z) : Z := z `mod` 2 ^ 16.

Definition u8 (z : Z) : Z := z `mod` 2 ^ 8.

(** The value of an [int32] expression. *)
Definition i32 (z : Z) : Z := (z + 2 ^ 31) `mod` 2 ^ 32 - 2 ^ 31.

Definition isU64 (z : Z) : Prop := 0 ≤ z < 2 ^ 64.

Definition isByte (z : Z) : Prop := 0 ≤ z < 2 ^ 8.

(** ** Little-endian integers *)

(** [PutUint16], [PutUint32] and [PutUint64]: the [n] low bytes of [z]. *)
Fixpoint leBytes (n : nat) (z : Z) : list Z :=
  match n with
  | O => []
  | S n => z `mod` 256 :: leBytes n (z `div` 256)
  end.

(** [Uint16], [Uint32] and [Uint64] of as many bytes. *)
Fixpoint leVal (l : list Z) : Z :=
  match l with
  | [] => 0
  | b :: l => b + 256 * leVal l
  end.

(** ** Byte swaps *)

Definition byteAt (v i : Z) : Z := u8 (Z.shiftr v i).

Definition swap16 (v : Z) : Z :=
  Z.lor (byteAt v 8) (Z.shiftl (byteAt v 0) 8).

Definition swap32 (v : Z) : Z :=
  let v0 := byteAt v 0 in
  let v1 := byteAt v 8 in
  let v2 := byteAt v 16 in
  let v3 := byteAt v 24 in
  Z.lor (Z.lor (Z.lor v3 (Z.shiftl v2 8)) (Z.shiftl v1 16)) (Z.shiftl v0 24).

Definition swap64 (v : Z) : Z :=
  let v0 := byteAt v 0 in
  let v1 := byteAt v 8 in
  let v2 := byteAt v 16 in
  let v3 := byteAt v 24 in
  let v4 := byteAt v 32 in
  let v5 := byteAt v 40 in
  let v6 := byteAt v 48 in
  let v7 := byteAt v 56 in
  Z.lor (Z.lor (Z.lor (Z.lor (Z.lor (Z.lor (Z.lor v7 (Z.shiftl v6 8)) (Z.shiftl v5 16))
    (Z.shiftl v4 24)) (Z.shiftl v3 32)) (Z.shiftl v2 40)) (Z.shiftl v1 48)) (Z.shiftl v0 56).

Definition swapInt (v : Z) (size : Z) : res Z :=
  if bool_decide (size = 1) then Ret v
  else if bool_decide (size = 2) then Ret (swap16 (u16 v))
  else if bool_decide (size = 4) then Ret (swap32 (u32 v))
  else if bool_decide (size = 8) then Ret (swap64 v)
  else Panic.

(** ** Lemmas on wrap-around *)

Lemma u64_range z : isU64 (u64 z).
Proof. apply Z.mod_pos_bound. lia. Qed.

Lemma u64_id z : isU64 z → u64 z = z.
Proof. apply Z.mod_small. Qed.

Lemma u64_idemp z : u64 (u64 z) = u64 z.
Proof. apply u64_id, u64_range. Qed.

Lemma i32_id z : - 2 ^ 31 ≤ z < 2 ^ 31 → i32 z = z.
Proof. intros Hz. unfold i32. rewrite Z.mod_small; lia. Qed.

(** ** Lemmas on bits *)

Lemma testbit_high z n i : 0 ≤ z < 2 ^ n → 0 ≤ n ≤ i → Z.testbit z i = false.
Proof.
  intros Hz Hi. rewrite Z.testbit_eqb by lia. rewrite Z.div_small; [done|].
  split; [lia|]. apply Z.lt_le_trans with (2 ^ n); [lia|]. apply Z.pow_le_mono_r; lia.
Qed.

Lemma lt_pow2_testbit z n :
  0 ≤ n → 0 ≤ z → (∀ i, n ≤ i → Z.testbit z i = false) → z < 2 ^ n.
Proof.
  intros Hn Hz Hb. destruct (decide (z < 2 ^ n)) as [|Hge]; [done|]. exfalso.
  assert (Hpos : 0 < z) by (pose proof (Z.pow_pos_nonneg 2 n); lia).
  pose proof (Z.log2_nonneg z). assert (Hl : n ≤ Z.log2 z).
  { apply Z.log2_le_pow2; lia. }
  specialize (Hb (Z.log2 z) Hl). by rewrite Z.bit_log2 in Hb.
Qed.

(** The low bits of a word. *)
Lemma land_ones_mod z n : 0 ≤ n → Z.land z (2 ^ n - 1) = z `mod` 2 ^ n.
Proof. intros Hn. rewrite <- Z.land_ones by done. f_equal. rewrite Z.ones_equiv. lia. Qed.

(** Fields that do not overlap add up. *)
Lemma lor_shiftl_add a b n : 0 ≤ n → 0 ≤ a < 2 ^ n → Z.lor a (Z.shiftl b n) = a + b * 2 ^ n.
Proof.
  intros Hn Ha. rewrite <- Z.shiftl_mul_pow2 by done.
  assert (Hd : Z.land a (Z.shiftl b n) = 0).
  { apply Z.bits_inj'. intros i Hi. rewrite Z.land_spec, Z.bits_0.
    destruct (decide (i < n)) as [Hlt|Hge].
    - rewrite Z.shiftl_spec_low by done. apply andb_false_r.
    - rewrite (testbit_high a n) by lia. done. }
  by rewrite Z.add_nocarry_lxor, Z.lxor_lor.
Qed.

(** Reading a field out of a packed word. *)
Lemma field_low a b n : 0 ≤ n → 0 ≤ a < 2 ^ n → (a + b * 2 ^ n) `mod` 2 ^ n = a.
Proof. intros Hn Ha. rewrite Z.mod_add by lia. by apply Z.mod_small. Qed.

Lemma field_high a b n : 0 ≤ n → 0 ≤ a < 2 ^ n → Z.shiftr (a + b * 2 ^ n) n = b.
Proof.
  intros Hn Ha. rewrite Z.shiftr_div_pow2 by done. rewrite Z.div_add by lia.
  rewrite Z.div_small; lia.
Qed.

(** ** Lemmas on little-endian integers *)

Lemma leBytes_length n z : length (leBytes n z) = n.
Proof. revert z. induction n as [|n IH]; intros z; simpl; [done|]. by rewrite IH. Qed.

Lemma leBytes_bytes n z : Forall isByte (leBytes n z).
Proof.
  revert z. induction n as [|n IH]; intros z; simpl; constructor; [|done].
  apply Z.mod_pos_bound. lia.
Qed.

Lemma leVal_leBytes n z : leVal (leBytes n z) = z `mod` 256 ^ Z.of_nat n.
Proof.
  revert z. induction n as [|n IH]; intros z; simpl leVal; [by rewrite Z.mod_1_r|].
  simpl. rewrite IH. replace (Z.of_nat (S n)) with (1 + Z.of_nat n) by lia.
  rewrite Z.pow_add_r, Z.pow_1_r by lia. rewrite Z.rem_mul_r by lia. lia.
Qed.

Lemma leVal_leBytes_small n z : 0 ≤ z < 256 ^ Z.of_nat n → leVal (leBytes n z) = z.
Proof. intros Hz. by rewrite leVal_leBytes, Z.mod_small. Qed.

Lemma leVal_range l : Forall isByte l → 0 ≤ leVal l < 256 ^ Z.of_nat (length l).
Proof.
  induction 1 as [|b l [Hb1 Hb2] _ IH]; simpl leVal; [done|].
  replace (Z.of_nat (length (b :: l))) with (1 + Z.of_nat (length l)) by (simpl; lia).
  rewrite Z.pow_add_r, Z.pow_1_r by lia. lia.
Qed.

Lemma leBytes_leVal l : Forall isByte l → leBytes (length l) (leVal l) = l.
Proof.
  induction 1 as [|b l [Hb1 Hb2] _ IH]; simpl; [done|]. f_equal.
  - rewrite (Z.mul_comm 256), Z.mod_add by lia. by apply Z.mod_small.
  - rewrite (Z.mul_comm 256), Z.div_add, (Z.div_small b) by lia. by rewrite Z.add_0_l.
Qed.

(** ** Lemmas on byte swaps *)

Lemma byteAt_range v i : 0 ≤ byteAt v i < 256.
Proof. apply Z.mod_pos_bound. lia. Qed.

(** A swap reverses the bytes. *)
Definition revBytes (n : nat) (v : Z) : Z := leVal (reverse (leBytes n v)).

Lemma byteAt_leBytes n i v : (i < n)%nat → leBytes n v !! i = Some (byteAt v (8 * Z.of_nat i)).
Proof.
  revert i v. induction n as [|n IH]; intros i v Hi; [lia|]. destruct i as [|i]; simpl leBytes; [done|].
  rewrite lookup_cons. rewrite IH by lia. f_equal. unfold byteAt.
  replace (8 * Z.of_nat (S i)) with (8 + 8 * Z.of_nat i) by lia.
  rewrite <- Z.shiftr_shiftr by lia. f_equal. f_equal. by rewrite Z.shiftr_div_pow2.
Qed.

Ltac pack_bytes v :=
  pose proof (byteAt_range v 0); pose proof (byteAt_range v 8); pose proof (byteAt_range v 16);
  pose proof (byteAt_range v 24); pose proof (byteAt_range v 32); pose proof (byteAt_range v 40);
  pose proof (byteAt_range v 48); pose proof (byteAt_range v 56).

Ltac eval_offsets :=
  cbn -[byteAt Z.lor Z.shiftl leVal]; cbn [leVal];
  repeat match goal with
  | |- context [8 * Z.of_nat ?k] =>
      let x := eval vm_compute in (8 * Z.of_nat k) in change (8 * Z.of_nat k) with x
  end.

Lemma leBytes_byteAt n v : leBytes n v = (λ i, byteAt v (8 * Z.of_nat i)) <$> seq 0 n.
Proof.
  apply list_eq. intros i. rewrite list_lookup_fmap. destruct (decide (i < n)%nat) as [Hi|Hi].
  - by rewrite byteAt_leBytes, lookup_seq_lt.
  - rewrite !lookup_ge_None_2 by (rewrite ?length_seq, ?leBytes_length; lia). done.
Qed.

Lemma swap16_rev v : swap16 v = revBytes 2 v.
Proof.
  unfold swap16, revBytes. rewrite leBytes_byteAt. pack_bytes v.
  eval_offsets.
  rewrite lor_shiftl_add by lia. lia.
Qed.

Lemma swap32_rev v : swap32 v = revBytes 4 v.
Proof.
  unfold swap32, revBytes. rewrite leBytes_byteAt. pack_bytes v.
  eval_offsets.
  rewrite (lor_shiftl_add _ _ 8), (lor_shiftl_add _ _ 16), (lor_shiftl_add _ _ 24) by lia. lia.
Qed.

Lemma swap64_rev v : swap64 v = revBytes 8 v.
Proof.
  unfold swap64, revBytes. rewrite leBytes_byteAt. pack_bytes v.
  eval_offsets.
  rewrite (lor_shiftl_add _ _ 8), (lor_shiftl_add _ _ 16), (lor_shiftl_add _ _ 24),
    (lor_shiftl_add _ _ 32), (lor_shiftl_add _ _ 40), (lor_shiftl_add _ _ 48),
    (lor_shiftl_add _ _ 56) by lia. lia.
Qed.

Lemma revBytes_range n v : 0 ≤ revBytes n v < 256 ^ Z.of_nat n.
Proof.
  unfold revBytes. rewrite <- (leBytes_length n v) at 3. rewrite <- length_reverse.
  apply leVal_range, Forall_reverse, leBytes_bytes.
Qed.

Lemma revBytes_involutive n v : 0 ≤ v < 256 ^ Z.of_nat n → revBytes n (revBytes n v) = v.
Proof.
  intros Hv. unfold revBytes at 1. unfold revBytes.
  rewrite <- (leBytes_length n v) at 1. rewrite <- length_reverse, leBytes_leVal.
  - rewrite reverse_involutive. by apply leVal_leBytes_small.
  - apply Forall_reverse, leBytes_bytes.
Qed.

(** [swapInt] as a reversal of [size] bytes. *)
Lemma swapInt_rev v size :
  size ∈ [1; 2; 4; 8] → 0 ≤ v < 256 ^ size → swapInt v size = Ret (revBytes (Z.to_nat size) v).
Proof.
  intros Hs Hv. rewrite !elem_of_cons, elem_of_nil in Hs.
  destruct Hs as [-> | [-> | [-> | [-> | []]]]].
  - change (swapInt v 1) with (Ret v). unfold revBytes. simpl. f_equal. rewrite Z.mod_small; lia.
  - change (swapInt v 2) with (Ret (swap16 (u16 v))). unfold u16.
    by rewrite (Z.mod_small v), swap16_rev.
  - change (swapInt v 4) with (Ret (swap32 (u32 v))). unfold u32.
    by rewrite (Z.mod_small v), swap32_rev.
  - change (swapInt v 8) with (Ret (swap64 v)). by rewrite swap64_rev.
Qed.
