(* ===== verification/Db.v ===== *)
(** * The corpus database

    [pkg/db/db.go]: a map from keys to records that is kept in memory and mirrored
    in a file.  Changes are appended to the file as records; from time to time the
    file is rewritten.  A file that ends in the middle of a record, because the
    process died while it was appending, is read up to that record. *)

From stdpp Require Import base numbers strings gmap list.
From S2P Require Import Prelude Word.

Local Open Scope Z_scope.

Abbreviation bytes := (list Z).

Record DbRecord := mkRecord { Val : bytes; Seq : Z }.

#[global] Instance DbRecord_eq_dec : EqDecision DbRecord.
Proof. solve_decision. Defined.

Record DB := mkDB {
  Version : Z;
  Records : gmap bytes DbRecord;
  uncompacted : Z;
  pending : option bytes;
}.

Definition dbMagic : Z := 0xbaddb.
Definition recMagic : Z := 0xfee1bad.
Definition curVersion : Z := 2.
Definition seqDeleted : Z := 2 ^ 64 - 1.

(** ** Readers

    [io.EOF] is the error of a read that finds no byte at all; a read that finds
    some but not enough has another one. *)

Inductive readErr := EOF | BadInput.

Definition Rd (A : Type) : Type := bytes → readErr + A * bytes.

#[global] Instance Rd_ret : MRet Rd := λ A a r, inr (a, r).

#[global] Instance Rd_bind : MBind Rd := λ A B k m r,
  match m r with
  | inl e => inl e
  | inr (a, r) => k a r
  end.

Definition readFail {A} (e : readErr) : Rd A := λ _, inl e.

(** [io.ReadFull]. *)
Definition readFull (n : nat) : Rd bytes := λ r,
  if bool_decide (n = 0%nat) then inr ([], r)
  else if bool_decide (r = []) then inl EOF
  else if bool_decide (length r < n)%nat then inl BadInput
  else inr (take n r, drop n r).

(** [binary.Read] of an unsigned integer of [n] bytes. *)
Definition readInt (n : nat) : Rd Z := b ← readFull n; mret (leVal b).

(** [compress/flate]: what is written for a value, and what is read from the start
    of the input, with the number of bytes that were taken; [None] is an error. *)
Class Flate := {
  deflate : bytes → bytes;
  inflate : bytes → option (bytes * nat);
}.

(** A compressed value is not empty, is read back, and is not complete before its
    last byte. *)
Class FlateLaws `(Flate) : Prop := {
  flate_nonempty v : deflate v ≠ [];
  flate_inverse v : inflate (deflate v) = Some (v, length (deflate v));
  flate_torn v n : (n < length (deflate v))%nat → inflate (take n (deflate v)) = None;
}.

Section Db.

Context `{!Flate}.

(** ** Format *)

Definition serializeHeader (version : Z) : bytes :=
  leBytes 4 dbMagic ++ leBytes 4 curVersion ++ leBytes 8 version.

(** The length of the compressed value is written before it. *)
Definition serializeRecord (key val : bytes) (seq : Z) : res bytes :=
  let head := leBytes 4 recMagic ++ leBytes 4 (u32 (Z.of_nat (length key))) ++ key ++ leBytes 8 seq in
  if bool_decide (seq = seqDeleted) then
    if bool_decide (val ≠ []) then Panic else Ret head
  else if bool_decide (val = []) then Ret (head ++ leBytes 4 0)
  else
    let data := deflate val in
    Ret (head ++ leBytes 4 (u32 (Z.of_nat (length data))) ++ data).

(** [io.ReadAll] of the value in the next [n] bytes. *)
Definition readFlate (n : nat) : Rd bytes := λ r,
  match inflate (take n r) with
  | Some (v, used) => inr (v, drop used r)
  | None => inl BadInput
  end.

Definition deserializeRecord : Rd (bytes * bytes * Z) :=
  magic ← readInt 4;
  if bool_decide (magic ≠ recMagic) then readFail BadInput
  else
    keyLen ← readInt 4;
    key ← readFull (Z.to_nat keyLen);
    seq ← readInt 8;
    if bool_decide (seq = seqDeleted) then mret (key, [], seq)
    else
      valLen ← readInt 4;
      if bool_decide (valLen ≠ 0) then val ← readFlate (Z.to_nat valLen); mret (key, val, seq)
      else mret (key, [], seq).

(** An empty file is a new database. *)
Definition deserializeHeader : Rd Z := λ r,
  match readInt 4 r with
  | inl EOF => inr (0, r)
  | inl e => inl e
  | inr (magic, r) =>
      if bool_decide (magic ≠ dbMagic) then inl BadInput
      else
        (ver ← readInt 4;
         if bool_decide (ver = 0 ∨ curVersion < ver) then readFail BadInput
         else if bool_decide (2 ≤ ver) then readInt 8 else mret 0) r
  end.

(** What a record does to the map; a deletion has a sequence number of its own. *)
Definition putRecord (records : gmap bytes DbRecord) (rec : bytes * bytes * Z) : gmap bytes DbRecord :=
  let '(key, val, seq) := rec in
  if bool_decide (seq = seqDeleted) then delete key records else <[key := mkRecord val seq]> records.

(** The loop of [deserializeDB]: the records, their number in the file, and
    whether it ended with an error.  A record has at least one byte, so that the
    length of the input is enough fuel. *)
Fixpoint readRecords (fuel : nat) (r : bytes) (records : gmap bytes DbRecord) (n : Z) :
    res (gmap bytes DbRecord * Z * bool) :=
  match fuel with
  | O => NoFuel
  | S fuel =>
      match deserializeRecord r with
      | inl EOF => Ret (records, n, false)
      | inl BadInput => Ret (records, n, true)
      | inr (rec, r) => readRecords fuel r (putRecord records rec) (n + 1)
      end
  end.

Definition deserializeDB (file : bytes) : res (Z * gmap bytes DbRecord * Z * bool) :=
  match deserializeHeader file with
  | inl _ => Ret (0, ∅, 0, true)
  | inr (version, r) =>
      '(records, n, err) ← readRecords (S (length r)) r ∅ 0;
      Ret (version, records, n, err)
  end.

(** ** Operations

    The file is the second component of the state.  An operation returns whether
    it failed. *)

Definition DbState : Type := DB * bytes.

(** The order in which [range] visits the records. *)
Context (range : gmap bytes DbRecord → list (bytes * DbRecord)).

Definition concatRes (l : list (res bytes)) : res bytes :=
  foldr (λ m acc, b ← m; rest ← acc; Ret (b ++ rest)) (Ret []) l.

(** [compact] writes a new file and renames it; [ok] tells that this works. *)
Definition compact (ok : bool) (s : DbState) : res (bool * DbState) :=
  let '(db, file) := s in
  buf ← concatRes ((λ kr, serializeRecord kr.1 (Val kr.2) (Seq kr.2)) <$> range (Records db));
  if negb ok then Ret (true, s)
  else Ret (false, (mkDB (Version db) (Records db) (Z.of_nat (size (Records db))) None,
                    serializeHeader (Version db) ++ buf)).

(** [Open] of a file that can be opened; [None] is a nil database. *)
Definition Open (repair ok : bool) (file : bytes) : res (bool * option DB * bytes) :=
  '(version, records, n, err) ← deserializeDB file;
  if (err : bool) && negb repair then Ret (true, None, file)
  else
    '(failed, (db, file)) ← compact ok (mkDB version records n None, file);
    if (failed : bool) then Ret (true, None, file) else Ret (err, Some db, file).

Definition serialize (key val : bytes) (seq : Z) (db : DB) : res DB :=
  b ← serializeRecord key val seq;
  Ret (mkDB (Version db) (Records db) (uncompacted db) (Some (default [] (pending db) ++ b))).

Definition countRecord (db : DB) : DB := mkDB (Version db) (Records db) (uncompacted db + 1) (pending db).

Definition withRecords (records : gmap bytes DbRecord) (db : DB) : DB :=
  mkDB (Version db) records (uncompacted db) (pending db).

Definition Save (key val : bytes) (seq : Z) (db : DB) : res DB :=
  if bool_decide (seq = seqDeleted) then Panic
  else
    if bool_decide (Records db !! key = Some (mkRecord val seq)) then Ret db
    else
      db ← serialize key val seq (withRecords (<[key := mkRecord val seq]> (Records db)) db);
      Ret (countRecord db).

Definition Delete (key : bytes) (db : DB) : res DB :=
  match Records db !! key with
  | None => Ret db
  | Some _ =>
      db ← serialize key [] seqDeleted (withRecords (delete key (Records db)) db);
      Ret (countRecord db)
  end.

(** [Flush]: [ok] tells that compaction works and the file can be opened, and
    [written] how many bytes a write that fails has written. *)
Definition Flush (ok : bool) (written : option nat) (s : DbState) : res (bool * DbState) :=
  let '(db, file) := s in
  if bool_decide (Z.of_nat (size (Records db)) < Z.quot (uncompacted db) 10 * 9) then compact ok s
  else
    match pending db with
    | None => Ret (false, s)
    | Some b =>
        if negb ok then Ret (true, s)
        else
          match written with
          | Some k => Ret (true, (db, file ++ take k b))
          | None => Ret (false, (mkDB (Version db) (Records db) (uncompacted db) None, file ++ b))
          end
    end.

Definition BumpVersion (version : Z) (ok : bool) (written : option nat) (s : DbState) : res (bool * DbState) :=
  let '(db, file) := s in
  if bool_decide (Version db = version) then Flush ok written s
  else compact ok (mkDB version (Records db) (uncompacted db) (pending db), file).

(** [Create], where all accesses of the file work; the key of a record is the hash
    of its value. *)
Definition Create (hash : bytes → bytes) (version : Z) (records : list DbRecord) : res DbState :=
  '(_, db, file) ← Open true true [];
  match db with
  | None => Panic
  | Some db =>
      r ← BumpVersion version true None (db, file);
      s ← foldl (λ s rec, s ← s; db ← Save (hash (Val rec)) (Val rec) (Seq rec) s.1; Ret (db, s.2)) (Ret r.2) records;
      r ← Flush true None s;
      Ret r.2
  end.

(** ** What the database promises *)

(** The calls of a user; the flag of a flush tells whether it works. *)
Inductive dbOp :=
  | OSave (key val : bytes) (seq : Z)
  | ODelete (key : bytes)
  | OFlush (ok : bool)
  | OBump (version : Z).

Definition runOp (o : dbOp) (s : DbState) : res DbState :=
  match o with
  | OSave key val seq => db ← Save key val seq s.1; Ret (db, s.2)
  | ODelete key => db ← Delete key s.1; Ret (db, s.2)
  | OFlush ok => r ← Flush ok None s; Ret r.2
  | OBump version => r ← BumpVersion version true None s; Ret r.2
  end.

(** A versioned map. *)
Definition specOp (m : Z * gmap bytes DbRecord) (o : dbOp) : Z * gmap bytes DbRecord :=
  match o with
  | OSave key val seq => (m.1, <[key := mkRecord val seq]> m.2)
  | ODelete key => (m.1, delete key m.2)
  | OFlush _ => m
  | OBump version => (version, m.2)
  end.

Definition specOps (ops : list dbOp) (m : Z * gmap bytes DbRecord) : Z * gmap bytes DbRecord := foldl specOp m ops.

(** Calls that make the changes before them durable. *)
Definition syncs (o : dbOp) : bool := match o with OFlush ok => ok | OBump _ => true | _ => false end.

(** The calls up to the last one of these. *)
Fixpoint durable (ops : list dbOp) : list dbOp :=
  match ops with
  | [] => []
  | o :: ops => match durable ops with [] => if syncs o then [o] else [] | d => o :: d end
  end.

(** A process that calls these, or dies while it writes: it has written [n] bytes
    of what is pending, and another process opens the file. *)
Inductive dbEvent := ECall (o : dbOp) | ECrash (n : nat).

Definition runEvent (s : DbState) (e : dbEvent) : res DbState :=
  match e with
  | ECall o => runOp o s
  | ECrash n =>
      '(_, db, file) ← Open true true (s.2 ++ take n (default [] (pending s.1)));
      match db with Some db => Ret (db, file) | None => Panic end
  end.

Definition runEvents (es : list dbEvent) (s : res DbState) : res DbState := foldl (λ s e, s ← s; runEvent s e) s es.

(** The calls whose effects there are after some events: a crash may lose the last
    ones, but none that was made durable. *)
Inductive survives : list dbEvent → list dbOp → Prop :=
  | survives_nil : survives [] []
  | survives_call es h o : survives es h → survives (es ++ [ECall o]) (h ++ [o])
  | survives_crash es h h' n : survives es h → durable h `prefix_of` h' → h' `prefix_of` h → survives (es ++ [ECrash n]) h'.

(** Lengths fit into 32 bits and numbers into 64; one sequence number is reserved. *)
Definition recordFits (key val : bytes) (seq : Z) : Prop :=
  Z.of_nat (length key) < 2 ^ 32 ∧ Z.of_nat (length (deflate val)) < 2 ^ 32 ∧ 0 ≤ seq < seqDeleted.

Definition opFits (o : dbOp) : Prop :=
  match o with
  | OSave key val seq => recordFits key val seq
  | ODelete _ | OFlush _ => True
  | OBump version => isU64 version
  end.

Definition eventFits (e : dbEvent) : Prop := match e with ECall o => opFits o | ECrash _ => True end.

End Db.

(** [range] visits every record once. *)
Class RecordRange (range : gmap bytes DbRecord → list (bytes * DbRecord)) : Prop :=
  record_range m : range m ≡ₚ map_to_list m.

(** ** Exact readers

    A reader is exact on [b] when it reads [a] from it whatever comes after, and
    fails on a part of it. *)

Definition exact {A} (m : Rd A) (b : bytes) (a : A) : Prop :=
  (∀ r, m (b ++ r) = inr (a, r)) ∧ ∀ n, (n < length b)%nat → ∃ e, m (take n b) = inl e.

Lemma exact_ret {A} (a : A) : exact (mret a) [] a.
Proof. split; [done|]. simpl. lia. Qed.

Lemma exact_bind {A B} (m : Rd A) (k : A → Rd B) b1 b2 a c : exact m b1 a → exact (k a) b2 c → exact (m ≫= k) (b1 ++ b2) c.
Proof.
  intros [Hm Hm'] [Hk Hk']. split.
  - intros r. rewrite <- app_assoc. unfold mbind, Rd_bind. rewrite Hm. apply Hk.
  - intros n Hn. rewrite length_app in Hn. unfold mbind, Rd_bind. destruct (decide (n < length b1)%nat).
    + rewrite take_app_le by lia. destruct (Hm' n) as [e ->]; [done|]. by eexists.
    + rewrite take_app_ge by lia. rewrite Hm. apply Hk'. lia.
Qed.

Lemma exact_map {A B} (m : Rd A) (f : A → B) b a : exact m b a → exact (a ← m; mret (f a)) b (f a).
Proof. intros Hm. rewrite <- (app_nil_r b). by eapply exact_bind; [|apply exact_ret]. Qed.

Lemma exact_readFull b : exact (readFull (length b)) b b.
Proof.
  unfold readFull. split.
  - intros r. case_bool_decide as Hl; [by destruct b|]. rewrite bool_decide_false by (by destruct b).
    rewrite bool_decide_false by (rewrite length_app; lia). by rewrite take_app_length, drop_app_length.
  - intros n Hn. rewrite bool_decide_false by lia. case_bool_decide; [by eexists|].
    rewrite bool_decide_true by (rewrite length_take; lia). by eexists.
Qed.

Lemma exact_readInt n z : 0 ≤ z < 256 ^ Z.of_nat n → exact (readInt n) (leBytes n z) z.
Proof.
  intros Hz. unfold readInt. rewrite <- (leVal_leBytes_small n z Hz) at 2. apply exact_map.
  pose proof (exact_readFull (leBytes n z)) as He. by rewrite leBytes_length in He.
Qed.

Section Correct.

Context `{!Flate} `{!FlateLaws _}.

Lemma exact_readFlate v : exact (readFlate (length (deflate v))) (deflate v) v.
Proof using Type*.
  unfold readFlate. split.
  - intros r. rewrite take_app_length, flate_inverse. by rewrite drop_app_length.
  - intros n Hn. rewrite take_ge by (rewrite length_take; lia). rewrite flate_torn by done. by eexists.
Qed.

Lemma ret_eq {A} (a b : A) : Ret a = Ret b → a = b.
Proof. congruence. Qed.

(** What a record looks like in the file. *)
Definition recFits (rec : bytes * bytes * Z) : Prop :=
  let '(key, val, seq) := rec in
  Z.of_nat (length key) < 2 ^ 32 ∧ (seq = seqDeleted ∧ val = [] ∨ recordFits key val seq).

Lemma u32_len (l : bytes) : Z.of_nat (length l) < 2 ^ 32 → u32 (Z.of_nat (length l)) = Z.of_nat (length l).
Proof. intros Hl. unfold u32. apply Z.mod_small. lia. Qed.

Lemma exact_record key val seq b : recFits (key, val, seq) → serializeRecord key val seq = Ret b →
  exact deserializeRecord b (key, val, seq).
Proof using Type*.
  intros [Hk Hrec] Hb. assert (Hs : 0 ≤ seq < 2 ^ 64) by (destruct Hrec as [[-> _]|(_ & _ & Hs)]; unfold seqDeleted in *; lia).
  unfold serializeRecord in Hb. rewrite (u32_len key) in Hb by done. unfold deserializeRecord.
  assert (Hhead : ∀ rest, exact (if bool_decide (seq = seqDeleted) then mret (key, [], seq)
      else valLen ← readInt 4; if bool_decide (valLen ≠ 0) then val ← readFlate (Z.to_nat valLen); mret (key, val, seq) else mret (key, [], seq))
      rest (key, val, seq) → exact deserializeRecord
      ((leBytes 4 recMagic ++ leBytes 4 (Z.of_nat (length key)) ++ key ++ leBytes 8 seq) ++ rest) (key, val, seq)).
  { intros rest Hrest. rewrite <- !app_assoc. eapply exact_bind; [by apply exact_readInt|]. rewrite bool_decide_false by (intros Hf; by apply Hf).
    eapply exact_bind; [apply exact_readInt; lia|]. rewrite Nat2Z.id. eapply exact_bind; [apply exact_readFull|].
    eapply exact_bind; [by apply exact_readInt|]. exact Hrest. }
  case_bool_decide as Hd.
  - destruct Hrec as [[_ ->]|(_ & _ & Hlt)]; [|lia]. rewrite bool_decide_false in Hb by (intros Hf; by apply Hf). apply ret_eq in Hb as <-.
    match goal with |- exact _ ?b _ => rewrite <- (app_nil_r b) end. apply Hhead, exact_ret.
  - destruct Hrec as [[? _]|(_ & Hv & _)]; [done|]. case_bool_decide as He; apply ret_eq in Hb as <-; apply Hhead.
    + subst val. rewrite <- (app_nil_r (leBytes 4 0)). eapply exact_bind; [by apply exact_readInt|]. apply exact_ret.
    + rewrite (u32_len (deflate val)) by done. eapply exact_bind; [apply exact_readInt; lia|].
      rewrite bool_decide_true by (pose proof (flate_nonempty val); destruct (deflate val); simpl; [done|lia]).
      rewrite Nat2Z.id. apply (exact_map _ (λ val, (key, val, seq))), exact_readFlate.
Qed.

(** Records one after the other. *)
Definition serialized (recs : list (bytes * bytes * Z)) : res bytes :=
  concatRes ((λ rec, serializeRecord rec.1.1 rec.1.2 rec.2) <$> recs).

Lemma serializeRecord_ret key val seq : recFits (key, val, seq) → ∃ b, serializeRecord key val seq = Ret b ∧ b ≠ [].
Proof using Type.
  intros [_ Hrec]. unfold serializeRecord. case_bool_decide as Hd.
  - destruct Hrec as [[_ ->]|(_ & _ & Hlt)]; [|lia]. rewrite bool_decide_false by (intros Hf; by apply Hf). by eexists.
  - case_bool_decide; by eexists.
Qed.

Lemma serialized_cons rec recs b : serialized (rec :: recs) = Ret b ↔
  ∃ b1 b2, serializeRecord rec.1.1 rec.1.2 rec.2 = Ret b1 ∧ serialized recs = Ret b2 ∧ b = b1 ++ b2.
Proof using Type.
  change (serialized (rec :: recs)) with (b ← serializeRecord rec.1.1 rec.1.2 rec.2; rest ← serialized recs; Ret (b ++ rest)).
  destruct (serializeRecord _ _ _) as [b1| |], (serialized recs) as [b2| |]; cbn [mbind res_bind]; split; naive_solver.
Qed.

Lemma serialized_app recs1 recs2 b1 b2 : serialized recs1 = Ret b1 → serialized recs2 = Ret b2 → serialized (recs1 ++ recs2) = Ret (b1 ++ b2).
Proof using Type.
  intros H1 H2. revert b1 H1. induction recs1 as [|rec recs1 IH]; intros b1; [by intros [= <-]|].
  intros (b & b' & Hb & Hb' & ->)%serialized_cons. apply serialized_cons. exists b, (b' ++ b2). split; [done|].
  split; [by apply IH|by rewrite app_assoc].
Qed.

Lemma serialized_ret recs : Forall recFits recs → ∃ b, serialized recs = Ret b.
Proof using Type.
  induction 1 as [|[[key val] seq] recs Hr _ [b Hb]]; [by eexists|]. destruct (serializeRecord_ret _ _ _ Hr) as (b' & Hb' & _).
  exists (b' ++ b). apply serialized_cons. eauto.
Qed.

(** The beginning of a file: some of the records, as they were written. *)
Lemma readRecords_prefix recs : Forall recFits recs → ∀ b n fuel records k, serialized recs = Ret b →
  (length (take n b) < fuel)%nat →
  ∃ i err, readRecords fuel (take n b) records k = Ret (foldl putRecord records (take i recs), k + Z.of_nat (length (take i recs)), err) ∧
    ((length b ≤ n)%nat → err = false ∧ i = length recs) ∧
    ∀ recs1 recs2 b1, recs = recs1 ++ recs2 → serialized recs1 = Ret b1 → (length b1 ≤ n)%nat → (length recs1 ≤ i)%nat.
Proof using Type*.
  induction 1 as [|[[key val] seq] recs Hr _ IH]; intros b n fuel records k Hb Hf.
  { injection Hb as <-. destruct fuel as [|fuel]; [lia|]. rewrite take_nil. exists 0%nat, false. split; [cbn; do 3 f_equal; lia|].
    split; [done|]. intros recs1 recs2 b1 Heq _ _. symmetry in Heq. apply app_nil in Heq as [-> _]. done. }
  apply serialized_cons in Hb as (b1 & b2 & Hb1 & E2 & ->). cbn [fst snd] in Hb1.
  assert (b1 ≠ []) as Hne by (destruct (serializeRecord_ret _ _ _ Hr) as (b1' & Hb1' & Hne); congruence). destruct fuel as [|fuel]; [lia|].
  destruct (exact_record _ _ _ _ Hr Hb1) as [He Ht]. cbn [readRecords]. destruct (decide (n < length b1)%nat) as [Hn|Hn].
  - rewrite take_app_le by lia. destruct (Ht n Hn) as [e ->]. exists 0%nat. cbn. rewrite Z.add_0_r.
    assert (Hno : ∀ recs1 recs2 b', (key, val, seq) :: recs = recs1 ++ recs2 → serialized recs1 = Ret b' → (length b' ≤ n)%nat → (length recs1 ≤ 0)%nat).
    { intros [|rec recs1] recs2 b' Heq Hb' Hle; [done|]. injection Heq as <- _. apply serialized_cons in Hb' as (x & y & Hx & _ & ->).
      cbn [fst snd] in Hx. rewrite Hb1 in Hx. injection Hx as <-. rewrite length_app in Hle. lia. }
    destruct e; eexists; (split; [done|]); (split; [rewrite length_app; lia|done]).
  - rewrite take_app_ge in * by lia. rewrite He. rewrite length_app in Hf. assert (0 < length b1)%nat by (destruct b1; simpl; [done|lia]).
    destruct (IH b2 (n - length b1)%nat fuel (putRecord records (key, val, seq)) (k + 1) E2) as (i & err & -> & Hall & Hpre); [lia|].
    exists (S i), err. split; [cbn [take length foldl]; do 3 f_equal; lia|]. rewrite length_app. split.
    + intros Hl. destruct Hall as [-> ->]; [lia|]. done.
    + intros [|rec recs1] recs2 b' Heq Hb' Hle; [cbn; lia|]. injection Heq as <- Heq. apply serialized_cons in Hb' as (x & y & Hx & Hy & ->).
      cbn [fst snd] in Hx. rewrite Hb1 in Hx. injection Hx as <-. rewrite length_app in Hle. cbn.
      pose proof (Hpre recs1 recs2 y Heq Hy ltac:(lia)). lia.
Qed.

(** A file that ends within its last records. *)
Lemma deserializeDB_prefix version recs1 recs2 b1 b2 n : isU64 version → Forall recFits (recs1 ++ recs2) →
  serialized recs1 = Ret b1 → serialized recs2 = Ret b2 →
  ∃ i err, deserializeDB (serializeHeader version ++ b1 ++ take n b2) =
      Ret (version, foldl putRecord ∅ (recs1 ++ take i recs2), Z.of_nat (length recs1 + length (take i recs2)), err) ∧
    ((length b2 ≤ n)%nat → err = false ∧ i = length recs2).
Proof using Type*.
  intros Hv Hf Hb1 Hb2. set (r := b1 ++ take n b2). assert (Hr' : take (length b1 + n) (b1 ++ b2) = r) by (by rewrite take_app_add).
  destruct (readRecords_prefix _ Hf _ (length b1 + n) (S (length r)) ∅ 0 (serialized_app _ _ _ _ Hb1 Hb2)) as (i & err & Hr & Hall & Hpre); [rewrite Hr'; lia|].
  pose proof (Hpre recs1 recs2 b1 eq_refl Hb1 ltac:(lia)) as Hi. rewrite Hr', take_app_ge, length_app in Hr by done. rewrite !length_app in Hall.
  exists (i - length recs1)%nat, err. split; [|intros Hl; destruct Hall as [-> Hi']; [lia|]; split; [done|lia]]. unfold deserializeDB.
  assert (deserializeHeader (serializeHeader version ++ r) = inr (version, r)) as ->.
  { unfold deserializeHeader, serializeHeader. rewrite <- !app_assoc.
    rewrite (proj1 (exact_readInt 4 dbMagic ltac:(done))). rewrite bool_decide_false by (intros Hx; by apply Hx).
    unfold mbind, Rd_bind. rewrite (proj1 (exact_readInt 4 curVersion ltac:(done))). cbn [bool_decide].
    rewrite bool_decide_false by (intros [?|?]; done). rewrite bool_decide_true by done.
    apply (proj1 (exact_readInt 8 version Hv)). }
  rewrite Hr. done.
Qed.

(** ** The invariant *)

Context (range : gmap bytes DbRecord → list (bytes * DbRecord)) `{!RecordRange range}.

Definition recordsFit (m : gmap bytes DbRecord) : Prop := map_Forall (λ key rec, recordFits key (Val rec) (Seq rec)) m.

(** The records of a map, as [compact] writes them. *)
Definition listed (m : gmap bytes DbRecord) : list (bytes * bytes * Z) := (λ kr, (kr.1, Val kr.2, Seq kr.2)) <$> range m.

Lemma put_listed (l : list (bytes * DbRecord)) m : NoDup l.*1 → Forall (λ kr, Seq kr.2 ≠ seqDeleted) l →
  foldl putRecord m ((λ kr, (kr.1, Val kr.2, Seq kr.2)) <$> l) = list_to_map l ∪ m.
Proof using Type.
  revert m. induction l as [|[key [val seq]] l IH]; intros m Hnd Hs; cbn; [by rewrite map_empty_union|].
  apply NoDup_cons in Hnd as [Hni Hnd]. apply Forall_cons in Hs as [Hne Hs]. cbn in Hne. rewrite bool_decide_false by done.
  rewrite IH by done. rewrite <- insert_union_r by by apply not_elem_of_list_to_map_1. by rewrite insert_union_l.
Qed.

Lemma listed_records m : recordsFit m → foldl putRecord ∅ (listed m) = m ∧ Forall recFits (listed m) ∧ length (listed m) = size m.
Proof using Type*.
  intros Hm. unfold listed. pose proof (record_range m) as Hp. assert (Hall : ∀ kr, kr ∈ range m → recordFits kr.1 (Val kr.2) (Seq kr.2)).
  { intros [key rec] Hin. rewrite Hp in Hin. by apply (Hm key), elem_of_map_to_list. }
  split; [|split].
  - rewrite put_listed; [| |apply Forall_forall; intros kr Hin; apply Hall in Hin as (_ & _ & Hs); lia].
    + rewrite map_union_empty, (list_to_map_proper _ (map_to_list m)); [apply list_to_map_to_list| |done].
      rewrite Hp. apply NoDup_fst_map_to_list.
    + rewrite Hp. apply NoDup_fst_map_to_list.
  - apply Forall_fmap, Forall_forall. intros kr Hin. pose proof (Hall kr Hin) as Hr. split; [by destruct Hr|by right].
  - rewrite length_fmap, Hp. by rewrite length_map_to_list.
Qed.

(** The file has the records [base], and [pend] is pending. *)
Record mirrors (s : DbState) (base pend : list (bytes * bytes * Z)) : Prop := {
  mi_version : isU64 (Version s.1);
  mi_file : ∃ b, serialized base = Ret b ∧ s.2 = serializeHeader (Version s.1) ++ b;
  mi_pending : serialized pend = Ret (default [] (pending s.1));
  mi_fits : Forall recFits (base ++ pend);
  mi_records : foldl putRecord ∅ (base ++ pend) = Records s.1;
  mi_recordsFit : recordsFit (Records s.1);
}.

Lemma compact_mirrors ok db file : isU64 (Version db) → recordsFit (Records db) →
  ∃ file', compact range ok (db, file) =
    Ret (if ok then (false, (mkDB (Version db) (Records db) (Z.of_nat (size (Records db))) None, file')) else (true, (db, file))) ∧
    mirrors (mkDB (Version db) (Records db) (Z.of_nat (size (Records db))) None, file') (listed (Records db)) [].
Proof using Type*.
  intros Hv Hm. destruct (listed_records _ Hm) as (Hput & Hf & _). destruct (serialized_ret _ Hf) as [b Hb].
  exists (serializeHeader (Version db) ++ b). split.
  - unfold compact. unfold serialized, listed in Hb. rewrite <- list_fmap_compose in Hb. unfold compose in Hb. cbn [fst snd] in Hb.
    rewrite Hb. by destruct ok.
  - split; cbn; [done|by exists b|done|by rewrite app_nil_r|by rewrite app_nil_r|done].
Qed.

Lemma put_fits m rec : recFits rec → recordsFit m → recordsFit (putRecord m rec).
Proof using Type.
  destruct rec as [[key val] seq]. intros [_ Hr] Hm. cbn [putRecord]. case_bool_decide; [by apply map_Forall_delete|].
  apply map_Forall_insert_2; [|done]. by destruct Hr as [[? _]|?].
Qed.

Lemma puts_fit recs m : Forall recFits recs → recordsFit m → recordsFit (foldl putRecord m recs).
Proof using Type.
  intros Hf. revert m. induction Hf as [|rec recs Hr _ IH]; intros m Hm; [done|]. apply IH. by apply put_fits.
Qed.

(** A change that is appended. *)
Lemma serialize_mirrors key val seq db file base pend records : mirrors (db, file) base pend → recFits (key, val, seq) →
  records = putRecord (Records db) (key, val, seq) →
  ∃ db', serialize key val seq (withRecords records db) = Ret db' ∧
    mirrors (countRecord db', file) base (pend ++ [(key, val, seq)]) ∧ Version db' = Version db ∧ Records db' = records.
Proof using Type*.
  intros [Hv Hfile Hp Hf Hr Hm] Hrec ->. cbn [fst snd] in *. destruct (serializeRecord_ret _ _ _ Hrec) as (b & Hb & _). unfold serialize. rewrite Hb.
  cbn [mbind res_bind]. eexists. split; [done|]. split; [|done]. split; cbn; [done|done| | | |].
  - eapply serialized_app; [done|]. apply serialized_cons. exists b, []. by rewrite app_nil_r.
  - rewrite app_assoc. apply Forall_app. split; [done|by apply Forall_singleton].
  - rewrite app_assoc, foldl_app, Hr. done.
  - by apply (put_fits (Records db) (key, val, seq)).
Qed.

(** The state after the calls [h]: whatever part of what is pending gets into the
    file, it has the effects of a part of the calls. *)
Definition reflects (s : DbState) (h : list dbOp) : Prop :=
  ∃ base pend, mirrors s base pend ∧ specOps h (0, ∅) = (Version s.1, Records s.1) ∧
    ∀ i, (i < length pend)%nat → ∃ h', durable h `prefix_of` h' ∧ h' `prefix_of` h ∧
      specOps h' (0, ∅) = (Version s.1, foldl putRecord ∅ (base ++ take i pend)).

Lemma durable_snoc h o : durable (h ++ [o]) = if syncs o then h ++ [o] else durable h.
Proof using Type.
  induction h as [|o' h IH]; cbn; [done|]. rewrite IH. destruct (syncs o); [|done]. by destruct h.
Qed.

Lemma durable_prefix h : durable h `prefix_of` h.
Proof using Type.
  induction h as [|o h IH] using rev_ind; [done|]. rewrite durable_snoc. destruct (syncs o); [done|]. by apply prefix_app_r.
Qed.

Lemma specOps_snoc h o m : specOps (h ++ [o]) m = specOp (specOps h m) o.
Proof using Type. unfold specOps. by rewrite foldl_app. Qed.

(** A call that leaves the file and what is pending. *)
Lemma reflects_same s h o : reflects s h → syncs o = false → specOp (Version s.1, Records s.1) o = (Version s.1, Records s.1) →
  reflects s (h ++ [o]).
Proof using Type.
  intros (base & pend & Hm & Hs & Hi) Ho Hsame. exists base, pend. split; [done|]. split; [by rewrite specOps_snoc, Hs|].
  intros i Hl. destruct (Hi i Hl) as (h' & Hd & Hp & Hsp). exists h'. rewrite durable_snoc, Ho. split; [done|].
  split; [by apply prefix_app_r|done].
Qed.

(** A call after which nothing is pending. *)
Lemma reflects_synced s h o base : mirrors s base [] → specOps (h ++ [o]) (0, ∅) = (Version s.1, Records s.1) → reflects s (h ++ [o]).
Proof using Type. intros Hm Hs. exists base, []. split; [done|]. split; [done|]. cbn. lia. Qed.

Lemma reflects_append s db' h o key val seq : reflects s h → syncs o = false → recFits (key, val, seq) →
  specOp (Version s.1, Records s.1) o = (Version s.1, putRecord (Records s.1) (key, val, seq)) →
  (db ← serialize key val seq (withRecords (putRecord (Records s.1) (key, val, seq)) s.1); Ret (countRecord db)) = Ret db' →
  reflects (db', s.2) (h ++ [o]).
Proof using Type*.
  destruct s as [db file]. cbn [fst snd]. intros (base & pend & Hm & Hs & Hi) Ho Hrec Hop.
  destruct (serialize_mirrors key val seq db file base pend _ Hm Hrec eq_refl) as (db1 & -> & Hm1 & Hv1 & Hr1). intros [= <-].
  cbn [fst snd] in *. exists base, (pend ++ [(key, val, seq)]). split; [done|]. split; [rewrite specOps_snoc, Hs, Hop; cbn; by rewrite Hv1, Hr1|].
  cbn. rewrite Hv1. intros i Hl. rewrite length_app in Hl. cbn in Hl. rewrite durable_snoc, Ho.
  destruct (decide (i < length pend)%nat) as [Hlt|Hge].
  - destruct (Hi i Hlt) as (h' & Hd & Hp & Hsp). exists h'. rewrite take_app_le by lia. split; [done|]. split; [by apply prefix_app_r|done].
  - exists h. split; [apply durable_prefix|]. split; [by apply prefix_app_r|]. replace i with (length pend) by lia.
    rewrite take_app_length, Hs. by rewrite (mi_records _ _ _ Hm).
Qed.

Lemma Save_reflects s h key val seq : reflects s h → recordFits key val seq →
  ∃ db', Save key val seq s.1 = Ret db' ∧ reflects (db', s.2) (h ++ [OSave key val seq]).
Proof using Type*.
  intros Hr Hf. pose proof Hf as (Hk & _ & Hs). unfold Save. rewrite bool_decide_false by lia.
  assert (Hput : <[key:=mkRecord val seq]> (Records s.1) = putRecord (Records s.1) (key, val, seq)).
  { cbn. by rewrite bool_decide_false by lia. }
  case_bool_decide as Hsame.
  - exists s.1. split; [done|]. rewrite <- surjective_pairing. apply reflects_same; [done|done|]. cbn. by rewrite insert_id.
  - rewrite Hput. assert (Hrec : recFits (key, val, seq)) by (split; [done|by right]).
    pose proof Hr as (base & pend & Hm & _). destruct s as [db file].
    destruct (serialize_mirrors key val seq db file base pend _ Hm Hrec eq_refl) as (db1 & Hser & _). cbn [fst snd] in *.
    eexists. split; [by rewrite Hser|]. eapply (reflects_append (db, file) _ _ _ key val seq); [done|done|done|cbn [specOp fst snd]; by rewrite Hput|].
    cbn [fst snd]. by rewrite Hser.
Qed.

Lemma Delete_reflects s h key : reflects s h → ∃ db', Delete key s.1 = Ret db' ∧ reflects (db', s.2) (h ++ [ODelete key]).
Proof using Type*.
  intros Hr. pose proof Hr as (base & pend & Hm & _). unfold Delete. destruct (Records s.1 !! key) as [rec|] eqn:Hl.
  - assert (Hrec : recFits (key, [], seqDeleted)).
    { split; [|by left]. by destruct (mi_recordsFit _ _ _ Hm key rec Hl) as (? & _). }
    destruct s as [db file]. destruct (serialize_mirrors key [] seqDeleted db file base pend _ Hm Hrec eq_refl) as (db1 & Hser & _).
    cbn [fst snd] in *. change (delete key (Records db)) with (putRecord (Records db) (key, [], seqDeleted)).
    eexists. split; [by rewrite Hser|]. eapply (reflects_append (db, file) _ _ _ key [] seqDeleted); [done..|]. cbn [fst snd]. by rewrite Hser.
  - exists s.1. split; [done|]. rewrite <- surjective_pairing. apply reflects_same; [done|done|]. cbn. by rewrite delete_id.
Qed.

(** A flush whose write is not torn. *)
Lemma Flush_reflects s h o ok : reflects s h → syncs o = ok → specOp (Version s.1, Records s.1) o = (Version s.1, Records s.1) →
  ∃ r, Flush range ok None s = Ret r ∧ reflects r.2 (h ++ [o]).
Proof using Type*.
  intros Hr Ho Hsame. pose proof Hr as (base & pend & Hm & Hs & _). pose proof Hm as [Hv (b & Hb & Hfile) Hp Hf Hrec Hmf].
  destruct s as [db file]. cbn [fst snd] in *. assert (Hspec : specOps (h ++ [o]) (0, ∅) = (Version db, Records db)) by by rewrite specOps_snoc, Hs.
  unfold Flush. case_bool_decide.
  - destruct (compact_mirrors ok db file Hv Hmf) as (file' & -> & Hm'). destruct ok; (eexists; split; [done|]); cbn [snd].
    + by eapply reflects_synced.
    + by apply reflects_same.
  - destruct (pending db) as [pb|] eqn:Epb.
    + destruct ok; (eexists; split; [done|]); cbn [snd]; [|by apply reflects_same]. apply (reflects_synced _ _ _ (base ++ pend)); [|done].
      split; cbn; [done| |done|by rewrite app_nil_r|by rewrite app_nil_r|done]. exists (b ++ pb). split; [by apply serialized_app|].
      by rewrite Hfile, <- app_assoc.
    + eexists. split; [done|]. cbn [snd]. destruct ok; [|by apply reflects_same].
      assert (pend = []) as ->; [|by eapply reflects_synced]. destruct pend as [|rec pend]; [done|]. exfalso.
      apply serialized_cons in Hp as (b1 & b2 & Hb1 & _ & Hnil). apply Forall_app in Hf as [_ [Hrf _]%Forall_cons]. destruct rec as [[key val] seq].
      destruct (serializeRecord_ret _ _ _ Hrf) as (b1' & Hb1' & Hne). cbn in Hb1, Hnil. rewrite Hb1' in Hb1. injection Hb1 as ->. by destruct b1.
Qed.

Lemma runOp_reflects s h o : reflects s h → opFits o → ∃ s', runOp range o s = Ret s' ∧ reflects s' (h ++ [o]).
Proof using Type*.
  intros Hr Hf. destruct o as [key val seq|key|ok|version]; cbn [runOp].
  - destruct (Save_reflects s h key val seq Hr Hf) as (db' & -> & Hr'). by eexists.
  - destruct (Delete_reflects s h key Hr) as (db' & -> & Hr'). by eexists.
  - destruct (Flush_reflects s h (OFlush ok) ok Hr) as (r & -> & Hr'); [done..|]. by eexists.
  - destruct s as [db file]. unfold BumpVersion. case_bool_decide as Hv.
    + destruct (Flush_reflects (db, file) h (OBump version) true Hr) as (r & -> & Hr'); [done|cbn; by rewrite Hv|]. by eexists.
    + destruct Hr as (base & pend & Hm & Hs & _). pose proof (mi_recordsFit _ _ _ Hm) as Hmf. cbn [fst] in Hmf, Hs.
      destruct (compact_mirrors true (mkDB version (Records db) (uncompacted db) (pending db)) file Hf Hmf) as (file' & -> & Hm').
      eexists. split; [done|]. eapply reflects_synced; [exact Hm'|]. rewrite specOps_snoc, Hs. done.
Qed.

(** The file as a crash leaves it is opened. *)
Lemma crash_reflects s h n : reflects s h →
  ∃ s' h', runEvent range s (ECrash n) = Ret s' ∧ reflects s' h' ∧ durable h `prefix_of` h' ∧ h' `prefix_of` h.
Proof using Type*.
  intros (base & pend & Hm & Hs & Hi). pose proof Hm as [Hv (b & Hb & Hfile) Hp Hf Hrec Hmf]. destruct s as [db file]. cbn [fst snd] in *. subst file.
  destruct (deserializeDB_prefix (Version db) base pend b _ n Hv Hf Hb Hp) as (i & err & Hd & _). set (m := foldl putRecord ∅ (base ++ take i pend)) in Hd.
  assert (Hh : ∃ h', durable h `prefix_of` h' ∧ h' `prefix_of` h ∧ specOps h' (0, ∅) = (Version db, m)).
  { destruct (decide (i < length pend)%nat) as [Hlt|Hge]; [by apply Hi|]. exists h. split; [apply durable_prefix|]. split; [done|].
    subst m. rewrite take_ge by lia. by rewrite Hs, Hrec. }
  destruct Hh as (h' & Hd' & Hp' & Hs'). assert (Hmf' : recordsFit m).
  { apply puts_fit; [|apply map_Forall_empty]. apply Forall_app in Hf as [Hf1 Hf2]. apply Forall_app. split; [done|by apply Forall_take]. }
  destruct (compact_mirrors true (mkDB (Version db) m (Z.of_nat (length base + length (take i pend))) None)
    ((serializeHeader (Version db) ++ b) ++ take n (default [] (pending db))) Hv Hmf') as (file' & Hc & Hm').
  exists (mkDB (Version db) m (Z.of_nat (size m)) None, file'), h'. split.
  - cbn [runEvent fst snd]. unfold Open. rewrite <- app_assoc in Hc |- *. rewrite Hd. cbn [mbind res_bind]. rewrite andb_false_r, Hc. done.
  - split; [|done]. eexists _, []. split; [exact Hm'|]. split; [done|]. cbn. lia.
Qed.

(** A new file. *)
Lemma Open_empty : ∃ s, runEvent range (mkDB 0 ∅ 0 None, []) (ECrash 0) = Ret s ∧ reflects s [].
Proof using Type*.
  destruct (compact_mirrors true (mkDB 0 ∅ 0 None) []) as (file & Hc & Hm); [done|apply map_Forall_empty|].
  exists (mkDB 0 ∅ 0 None, file). split.
  - cbn [runEvent fst snd pending default app]. rewrite take_nil. unfold Open. change (deserializeDB []) with (Ret (0, ∅ : gmap bytes DbRecord, 0, false)).
    cbn [mbind res_bind andb]. by rewrite Hc.
  - eexists _, []. split; [exact Hm|]. split; [done|]. cbn. lia.
Qed.

(** What [Create] writes is found by the next [Open]. *)
Lemma Create_stores hash version records : isU64 version →
  Forall (λ rec, recordFits (hash (Val rec)) (Val rec) (Seq rec)) records →
  ∃ s s', Create range hash version records = Ret s ∧ runEvent range s (ECrash 0) = Ret s' ∧
    Version s'.1 = version ∧ Records s'.1 = foldl (λ m rec, <[hash (Val rec) := rec]> m) ∅ records.
Proof using Type*.
  intros Hv Hf. destruct Open_empty as (s0 & Ho & Hr0). unfold Create. cbn [runEvent fst snd pending default app] in Ho. rewrite take_nil in Ho.
  destruct (Open range true true []) as [[[err db] file]| |]; try done. cbn [mbind res_bind] in *. destruct db as [db|]; [|done]. injection Ho as <-.
  destruct (runOp_reflects _ _ (OBump version) Hr0 Hv) as (s1 & Hb & Hr1). cbn [runOp] in Hb.
  destruct (BumpVersion range version true None (db, file)) as [r| |]; try done. cbn [mbind res_bind] in *. 
  destruct r as [e r]. cbn [snd] in *. injection Hb as ->.
  unfold DbState in *. set (saves := (λ rec, OSave (hash (Val rec)) (Val rec) (Seq rec)) <$> records).
  match goal with |- context [foldl ?f (Ret s1) records] =>
    assert (Hs : ∃ s, foldl f (Ret s1) records = Ret s ∧ reflects s ([OBump version] ++ saves)) end.
  { subst saves. clear -Hf Hr1 FlateLaws0 RecordRange0. induction records as [|rec records IH] using rev_ind; [by exists s1|].
    apply Forall_app in Hf as [Hf [Hrec _]%Forall_cons]. destruct (IH Hf) as (s & Hs & Hr).
    destruct (Save_reflects s _ _ _ _ Hr Hrec) as (db' & Hdb & Hr'). exists (db', s.2). rewrite foldl_app, Hs. cbn. rewrite Hdb.
    split; [done|]. rewrite fmap_app. exact Hr'. }
  destruct Hs as (s & -> & Hr). cbn [mbind res_bind].
  destruct (Flush_reflects s _ (OFlush true) true Hr) as (r' & -> & Hr'); [done..|].
  destruct (crash_reflects r'.2 _ 0 Hr') as (s' & h' & Hc & Hrs & Hd & Hp). exists r'.2, s'. split; [done|]. split; [done|].
  rewrite durable_snoc in Hd. cbn [syncs] in Hd. assert (h' = ([OBump version] ++ saves) ++ [OFlush true]) as -> by (by apply (anti_symm prefix)).
  destruct Hrs as (base & pend & _ & Hspec & _). rewrite specOps_snoc in Hspec. unfold specOps in Hspec. cbn [specOp] in Hspec. rewrite foldl_app in Hspec.
  cbn [foldl specOp] in Hspec. assert (Hfold : ∀ m, foldl specOp (version, m) saves = (version, foldl (λ m rec, <[hash (Val rec):=rec]> m) m records)).
  { subst saves. clear. induction records as [|[v q] records IH]; intros m; [done|]. cbn. apply IH. }
  cbn in Hspec. rewrite Hfold in Hspec. by injection Hspec as <- <-.
Qed.

End Correct.

(** ** Properties *)


(** A code in which every byte is marked, and the end too. *)
Fixpoint marked (v : bytes) : bytes := match v with [] => [0] | b :: v => 1 :: b :: marked v end.

Fixpoint unmark (r : bytes) : option (bytes * nat) :=
  match r with
  | 0 :: _ => Some ([], 1%nat)
  | 1 :: b :: r => vn ← unmark r; Some (b :: vn.1, S (S vn.2))
  | _ => None
  end.

#[local] Instance markedFlate : Flate := {| deflate := marked; inflate := unmark |}.

#[local] Instance markedFlate_laws : FlateLaws markedFlate.
Proof.
  split; cbn.
  - by intros [].
  - induction v as [|b v IH]; [done|]. cbn. by rewrite IH.
  - induction v as [|b v IH]; intros n Hn; [by destruct n; [|simpl in Hn; lia]|]. destruct n as [|[|n]]; [done|done|]. cbn in *.
    rewrite IH by lia. done.
Qed.

#[local] Instance map_to_list_range : RecordRange map_to_list.
Proof. by intros m. Qed.

Definition exampleEvents : list dbEvent :=
  [ECall (OSave [97] [1; 2; 3] 5); ECall (OFlush true); ECall (OSave [98] [] 6); ECall (ODelete [97]); ECrash 30].


(** After a write that failed in the middle of a record, [Flush] appends the same
    bytes again behind the torn record; it reports success, but the file can only
    be read up to there, and the record that is in memory is not found. *)
Theorem db_torn_write_hides `{!Flate} (range : gmap bytes DbRecord → list (bytes * DbRecord)) :
  ∃ db s1 s2, Save [97] [] 5 (mkDB 0 ∅ 0 None) = Ret db ∧
    Flush range true (Some 3%nat) (db, serializeHeader 0) = Ret (true, s1) ∧
    Flush range true None s1 = Ret (false, s2) ∧
    Records s2.1 = {[ [97] := mkRecord [] 5 ]} ∧ pending s2.1 = None ∧
    deserializeDB s2.2 = Ret (0, ∅, 0, true).
Proof. do 3 eexists. repeat (split; [vm_compute; reflexivity|]). vm_compute. reflexivity. Qed.

(** [BumpVersion] sets the version before it compacts: when that fails, the next
    call with the same version finds it set, flushes nothing and reports success,
    and the file keeps the old version. *)
Theorem db_failed_bump_forgotten `{!Flate} (file : bytes) :
  let db := mkDB 0 ∅ 0 None in
  ∃ s, BumpVersion map_to_list 7 false None (db, file) = Ret (true, s) ∧
    BumpVersion map_to_list 7 true None s = Ret (false, (mkDB 7 ∅ 0 None, file)).
Proof. eexists. split; reflexivity. Qed.
