(* ===== verification/GoSort.v ===== *)
(** * Binary search of Go's sort package

    [sort.Search(n, f)] as the library implements it: it keeps a window of
    indices and halves it in every round.  For a predicate that stays true once
    it is true, the result is the first index at which it holds. *)

From stdpp Require Import base numbers list.
From S2P Require Import Prelude.

Local Open Scope Z_scope.

(** The loop on the window from [i] to [j].  It halves in every round, so the
    length of the window is enough fuel. *)
Fixpoint searchLoop (fuel : nat) (f : Z → bool) (i j : Z) : Z :=
  match fuel with
  | O => i
  | S fuel =>
      if bool_decide (i < j) then
        let h := (i + j) `div` 2 in
        if f h then searchLoop fuel f i h else searchLoop fuel f (h + 1) j
      else i
  end.

Definition sortSearch (n : Z) (f : Z → bool) : Z := searchLoop (Z.to_nat n) f 0 n.

(** ** Lemmas *)

Lemma searchLoop_spec fuel f lo i j n :
  0 ≤ lo ≤ i → i ≤ j ≤ n → j - i ≤ Z.of_nat fuel →
  (∀ a b, lo ≤ a → a ≤ b → b < n → f a = true → f b = true) →
  (∀ k, lo ≤ k < i → f k = false) → (∀ k, j ≤ k < n → f k = true) →
  let r := searchLoop fuel f i j in
  i ≤ r ≤ j ∧ (∀ k, lo ≤ k < r → f k = false) ∧ (∀ k, r ≤ k < n → f k = true).
Proof.
  intros Hlo. revert i j Hlo.
  induction fuel as [|fuel IH]; intros i j Hlo Hij Hf Hmono Hbelow Habove; simpl.
  - assert (i = j) as -> by lia. split; [lia|]. by split.
  - case_bool_decide as Hlt; [|assert (i = j) as -> by lia; split; [lia|by split]].
    assert (Hh : i ≤ (i + j) `div` 2 < j).
    { split; [apply Z.div_le_lower_bound; lia|apply Z.div_lt_upper_bound; lia]. }
    set (h := (i + j) `div` 2) in *. destruct (f h) eqn:Efh.
    + destruct (IH i h) as (Hr & H1 & H2); [lia|lia|lia|done|done| |].
      * intros k Hk. apply (Hmono h); [lia..|done].
      * split; [lia|]. by split.
    + destruct (IH (h + 1) j) as (Hr & H1 & H2); [lia|lia|lia|done| |done|].
      * intros k Hk. destruct (f k) eqn:Efk; [|done].
        rewrite <- Efh. symmetry. apply (Hmono k); [lia..|done].
      * split; [lia|]. by split.
Qed.

Lemma sortSearch_spec n f :
  0 ≤ n → (∀ a b, 0 ≤ a → a ≤ b → b < n → f a = true → f b = true) →
  let r := sortSearch n f in
  0 ≤ r ≤ n ∧ (∀ k, 0 ≤ k < r → f k = false) ∧ (∀ k, r ≤ k < n → f k = true).
Proof.
  intros Hn Hmono. apply (searchLoop_spec (Z.to_nat n) f 0 0 n n); try done; try lia.
Qed.
