(* ===== verification/Rand.v ===== *)
(** * Random integers

    The integer generators of [prog/rand.go] on top of [math/rand].  They run
    against an arbitrary stream of draws; a [uint64] is an integer below
    [2 ^ 64].  Probabilities are not modelled: a theorem about every stream
    covers the rare branches as well. *)

From stdpp Require Import base numbers list.
From S2P Require Import Prelude Word GoSort.

Local Open Scope Z_scope.

(** [Int63] and [Uint64] of [math/rand]. *)
Definition draw (n : Z) : Gen Z := λ r,
  Ret (draws r (cursor r) `mod` n, mkRng (draws r) (S (cursor r))).

Definition Int63 : Gen Z := draw (2 ^ 63).

Definition Uint64 : Gen Z := draw (2 ^ 64).

Definition rand (n : Z) : Gen Z := Intn n.

Definition bin : Gen bool := n ← Intn 2; mret (bool_decide (n = 0)).

Definition oneOf (n : Z) : Gen bool := v ← Intn n; mret (bool_decide (v = 0)).

Definition nOutOf (n outOf : Z) : Gen bool :=
  if bool_decide (n ≤ 0) || bool_decide (outOf ≤ n) then gen_panic
  else v ← Intn outOf; mret (bool_decide (v < n)).

Definition rand64 : Gen Z :=
  v ← Int63;
  b ← bin;
  mret (if (b : bool) then Z.lor v (2 ^ 63) else v).

Definition specialInts : list Z :=
  [0; 1; 31; 32; 63; 64; 127; 128; 129; 255; 256; 257; 511; 512; 1023; 1024; 1025; 2047; 2048;
   4095; 4096; 2 ^ 15 - 1; 2 ^ 15; 2 ^ 15 + 1; 2 ^ 16 - 1; 2 ^ 16; 2 ^ 16 + 1; 2 ^ 31 - 1; 2 ^ 31;
   2 ^ 31 + 1; 2 ^ 32 - 1; 2 ^ 32; 2 ^ 32 + 1; 2 ^ 63 - 1; 2 ^ 63; 2 ^ 63 + 1; 2 ^ 64 - 1].

(** The entry [i] of [specialIntIndex], as [init] computes it; the list is
    sorted as it is written. *)
Definition specialIntIndex (i : Z) : Z :=
  sortSearch (Z.of_nat (length specialInts))
    (λ j, bool_decide (Z.shiftr (nth (Z.to_nat j) specialInts 0) (8 * i) ≠ 0)).

Definition truncateToBitSize (v bitSize : Z) : res Z :=
  if bool_decide (bitSize = 0) || bool_decide (64 < bitSize) then Panic
  else Ret (Z.land v (u64 (u64 (Z.shiftl 1 bitSize) - 1))).

(** The value [randInt] starts from. *)
Definition randBase (bits v : Z) : Gen Z :=
  a ← nOutOf 100 182;
  if (a : bool) then mret (v `mod` 10) else
  b ← (if bool_decide (8 ≤ bits) then nOutOf 50 82 else mret false);
  if (b : bool) then i ← Intn (specialIntIndex (bits `div` 8)); index specialInts i else
  c ← nOutOf 10 32;
  if (c : bool) then mret (v `mod` 256) else
  d ← nOutOf 10 22;
  if (d : bool) then mret (v `mod` Z.shiftl 4 10) else
  e ← nOutOf 10 12;
  if (e : bool) then mret (v `mod` Z.shiftl 64 10) else
  mret (v `mod` Z.shiftl 1 31).

Definition randInt (bits : Z) : Gen Z :=
  v ← rand64;
  v ← randBase bits v;
  a ← nOutOf 100 107;
  v ← (if (a : bool) then mret v else
       b ← nOutOf 5 7;
       if (b : bool) then mret (u64 (- v)) else
       s ← Intn bits;
       mret (u64 (Z.shiftl v s)));
  liftRes (truncateToBitSize v bits).

(** [randRangeInt] without and with an alignment; [%] of zero panics. *)
Definition randRangeInt0 (begin end_ bitSize : Z) : Gen Z :=
  a ← oneOf 100;
  if (a : bool) then randInt bitSize
  else
    x ← Uint64;
    let n := u64 (end_ - begin + 1) in
    if bool_decide (n = 0) then gen_panic else mret (u64 (begin + x `mod` n)).

Definition randRangeInt (begin end_ bitSize align : Z) : Gen Z :=
  if bool_decide (align = 0) then randRangeInt0 begin end_ bitSize
  else
    a ← oneOf 100;
    if (a : bool) then randInt bitSize
    else
      let end_ := if bool_decide (begin = 0) && bool_decide (end_ = 2 ^ 64 - 1)
                  then u64 (u64 (Z.shiftl 1 bitSize) - 1) else end_ in
      let endAlign := u64 (end_ - begin) `div` align in
      x ← randRangeInt0 0 endAlign bitSize;
      mret (u64 (begin + u64 (x * align))).

Definition randBufLen : Gen Z :=
  a ← nOutOf 50 56;
  if (a : bool) then rand 256 else
  b ← nOutOf 5 6;
  mret (if (b : bool) then Z.shiftl 4 10 else 0).

Definition randPageCount (numPages : Z) : Gen Z :=
  a ← nOutOf 100 106;
  if (a : bool) then n ← rand 4; mret (u64 (n + 1)) else
  b ← nOutOf 5 6;
  if (b : bool) then n ← rand 20; mret (u64 (n + 1)) else
  n ← rand 3;
  mret (u64 (u64 (n + 1) * numPages) `div` 4).

(** ** Lemmas *)

Lemma wp_draw n (Q : Z → Prop) : 0 < n → (∀ v, 0 ≤ v < n → Q v) → wp (draw n) Q.
Proof. intros Hn HQ r. apply HQ. by apply Z.mod_pos_bound. Qed.

Lemma wp_bin (Q : bool → Prop) : Q true → Q false → wp bin Q.
Proof.
  intros H1 H2. eapply wp_bind; [by apply (wp_Intn 2 (λ _, True))|].
  intros a _. apply wp_ret. by case_bool_decide.
Qed.

Lemma wp_oneOf n (Q : bool → Prop) : 0 < n → Q true → Q false → wp (oneOf n) Q.
Proof.
  intros Hn H1 H2. eapply wp_bind; [by apply (wp_Intn n (λ _, True))|].
  intros a _. apply wp_ret. by case_bool_decide.
Qed.

Lemma wp_nOutOf n outOf (Q : bool → Prop) : 0 < n < outOf → Q true → Q false → wp (nOutOf n outOf) Q.
Proof.
  intros Hn H1 H2. unfold nOutOf. rewrite !bool_decide_false by lia. simpl.
  eapply wp_bind; [apply (wp_Intn outOf (λ _, True)); [lia|done]|].
  intros a _. apply wp_ret. by case_bool_decide.
Qed.

Lemma mask_ones bitSize : 1 ≤ bitSize ≤ 64 → u64 (u64 (Z.shiftl 1 bitSize) - 1) = 2 ^ bitSize - 1.
Proof.
  intros Hb. rewrite Z.shiftl_mul_pow2, Z.mul_1_l by lia.
  pose proof (Z.pow_pos_nonneg 2 bitSize). destruct (decide (bitSize = 64)) as [->|Hne]; [done|].
  assert (2 ^ bitSize < 2 ^ 64) by (apply Z.pow_lt_mono_r; lia).
  rewrite (u64_id (2 ^ bitSize)) by (unfold isU64; lia). apply u64_id. unfold isU64. lia.
Qed.

Lemma truncateToBitSize_mod v bitSize :
  1 ≤ bitSize ≤ 64 → truncateToBitSize v bitSize = Ret (v `mod` 2 ^ bitSize).
Proof.
  intros Hb. unfold truncateToBitSize. rewrite !bool_decide_false by lia. simpl.
  by rewrite mask_ones, land_ones_mod by lia.
Qed.

Lemma specialIntIndex_pos i : 1 ≤ i ≤ 8 → 0 < specialIntIndex i ≤ Z.of_nat (length specialInts).
Proof.
  intros Hi. assert (i = 1 ∨ i = 2 ∨ i = 3 ∨ i = 4 ∨ i = 5 ∨ i = 6 ∨ i = 7 ∨ i = 8) as H by lia.
  repeat destruct H as [->|H]; [..|subst i]; by vm_compute.
Qed.

Lemma randBase_spec bits v : bits ≤ 64 → wp (randBase bits v) (λ _, True).
Proof.
  intros Hb. unfold randBase.
  apply wp_branch; [by apply wp_nOutOf|by apply wp_ret|].
  eapply wp_bind with (P := λ b : bool, b = true → 8 ≤ bits).
  { case_bool_decide; [|by apply wp_ret]. eapply wp_mono; [by apply (wp_nOutOf _ _ (λ _, True))|]. done. }
  intros [] Hbits.
  - specialize (Hbits eq_refl).
    destruct (specialIntIndex_pos (bits `div` 8)) as [Hp Hl].
    { split; [apply Z.div_le_lower_bound; lia|]. apply Z.lt_succ_r, Z.div_lt_upper_bound; lia. }
    eapply wp_bind; [by apply (wp_Intn _ (λ i, 0 ≤ i < specialIntIndex (bits `div` 8)))|].
    intros i Hi. cbn beta in Hi. by apply wp_index; [lia|].
  - repeat (apply wp_branch; [by apply wp_nOutOf|by apply wp_ret|]). by apply wp_ret.
Qed.

Lemma rand64_spec : wp rand64 isU64.
Proof.
  eapply wp_bind; [by apply (wp_draw _ (λ v, 0 ≤ v < 2 ^ 63))|]. intros v Hv. cbn beta in Hv.
  eapply wp_bind; [by apply (wp_bin (λ _, True))|]. intros b _. apply wp_ret. unfold isU64.
  destruct b; [|lia]. split; [by apply Z.lor_nonneg; lia|].
  apply lt_pow2_testbit; [lia|by apply Z.lor_nonneg; lia|]. intros i Hi.
  rewrite Z.lor_spec, (testbit_high v 63), (testbit_high (2 ^ 63) 64) by lia. done.
Qed.

(** [randInt] never panics, whatever the size, and its value fits. *)
Lemma randInt_spec bits : 1 ≤ bits ≤ 64 → wp (randInt bits) (λ v, 0 ≤ v < 2 ^ bits).
Proof.
  intros Hb. eapply wp_bind; [apply rand64_spec|]. intros v0 _.
  eapply wp_bind; [apply randBase_spec; lia|]. intros v _.
  eapply wp_bind; [by apply (wp_nOutOf _ _ (λ _, True))|]. intros a _.
  eapply wp_bind with (P := λ _, True).
  { destruct a; [by apply wp_ret|]. apply wp_branch; [by apply wp_nOutOf|by apply wp_ret|].
    eapply wp_bind; [by apply (wp_Intn bits (λ _, True)); [lia|]|]. intros s _. by apply wp_ret. }
  intros w _. eapply wp_liftRes; [by apply truncateToBitSize_mod|].
  apply Z.mod_pos_bound. apply Z.pow_pos_nonneg; lia.
Qed.

(** ** Ranges the description compiler accepts *)

(** The checks of [typeInt] and [typeArgIntAlign] in [pkg/compiler/types.go] on a
    range [begin:end] of an integer of [size] bits, with the alignment if there is
    one; [true] when no error is reported. *)
Definition intRangeAccepted (size begin end_ : Z) (align : option Z) : bool :=
  let maxUInt := u64 (u64 (Z.shiftl 1 size) - 1) in
  let maxSInt := u64 (u64 (Z.shiftl 1 (size - 1)) - 1) in
  let special := bool_decide (is_Some align) && bool_decide (begin = 0) &&
                 bool_decide (end_ = 2 ^ 64 - 1) in
  let end1 := if special then maxUInt else end_ in
  (special || negb (bool_decide (2 ^ 64 - 2 ^ 32 < u64 (end_ - begin)))) &&
  (negb (bool_decide (size < 64)) ||
   (bool_decide (begin ≤ maxUInt) && bool_decide (end1 ≤ maxUInt)) ||
   (bool_decide (u64 (begin + maxSInt) ≤ maxUInt) && bool_decide (u64 (end1 + maxSInt) ≤ maxUInt))) &&
  match align with
  | None => true
  | Some a => negb (bool_decide (a ≤ 1)) && negb (bool_decide (u64 (end1 - begin) `div` a = 0))
  end.

(** A range without an alignment panics only when it has all [2 ^ 64] values. *)
Lemma randRangeInt0_spec begin end_ bitSize :
  1 ≤ bitSize ≤ 64 → u64 (end_ - begin) ≠ 2 ^ 64 - 1 →
  wp (randRangeInt0 begin end_ bitSize) (λ v, 0 ≤ v < 2 ^ bitSize ∨
    (isU64 v ∧ u64 (v - begin) ≤ u64 (end_ - begin))).
Proof.
  intros Hb Hr. apply wp_branch; [by apply wp_oneOf| |].
  { eapply wp_mono; [by apply randInt_spec|]. by left. }
  eapply wp_bind; [by apply (wp_draw _ (λ v, 0 ≤ v < 2 ^ 64))|]. intros x Hx. cbn beta zeta.
  pose proof (u64_range (end_ - begin)) as Hn. unfold isU64 in Hn.
  assert (Hs : u64 (end_ - begin + 1) = u64 (end_ - begin) + 1).
  { unfold u64 in *. rewrite <- Zplus_mod_idemp_l, Z.mod_small; [done|]. lia. }
  rewrite Hs, bool_decide_false by lia. apply wp_ret. right. split; [apply u64_range|].
  pose proof (Z.mod_pos_bound x (u64 (end_ - begin) + 1)) as Hm.
  assert (Hv : u64 (u64 (begin + x `mod` (u64 (end_ - begin) + 1)) - begin) =
               x `mod` (u64 (end_ - begin) + 1)).
  { unfold u64 at 1 2. rewrite Zminus_mod_idemp_l.
    replace (begin + x `mod` (u64 (end_ - begin) + 1) - begin) with (x `mod` (u64 (end_ - begin) + 1)) by lia.
    apply Z.mod_small. lia. }
  rewrite Hv. lia.
Qed.

(** ** Properties *)


