(* ===== verification/MemAlloc.v ===== *)
(** * Memory allocation in programs

    [prog/alloc.go]: where a program puts its objects.  [memAlloc] is a two-level
    bitmap with a bit for every 64 bytes; [vmaAlloc] remembers the pages in use
    and picks new ones at random.  Addresses and sizes are 64-bit words with
    wrap-around; an index outside an array is a panic. *)

From stdpp Require Import base numbers list gmap.
From S2P Require Import Prelude Word Rand.

Local Open Scope Z_scope.

(** ** The bitmap *)

Definition memAllocGranule : Z := 64.

Definition memAllocMaxMem : Z := Z.shiftl 16 20.

Definition memAllocL0Size : Z := 64.

Definition bitsPerUint64 : Z := 8 * 8.

Definition memAllocL0Mem : Z := memAllocL0Size * memAllocGranule * bitsPerUint64.

Definition memAllocL1Size : Z := memAllocMaxMem `div` memAllocL0Mem.

(** The array [mem] of pointers to words, [None] for nil; [buf] is reached through
    [mem[0]] only. *)
Record memAlloc := mkMA {
  ma_size : Z;
  ma_mem : list (option (list Z));
}.

Definition zeroWords : list Z := replicate (Z.to_nat memAllocL0Size) 0.

Definition newMemAlloc (totalMemSize : Z) : res memAlloc :=
  if bool_decide (memAllocMaxMem < totalMemSize) then Panic
  else if negb (bool_decide (totalMemSize `mod` memAllocL0Mem = 0)) then Panic
  else Ret (mkMA (totalMemSize `div` memAllocGranule)
              (Some zeroWords :: replicate (Z.to_nat memAllocL1Size - 1) None)).

Definition pos (idx : Z) : Z * Z * Z :=
  let i1 := idx `div` (memAllocL0Size * bitsPerUint64) in
  let r1 := idx `mod` (memAllocL0Size * bitsPerUint64) in
  let i0 := r1 `div` bitsPerUint64 in
  (i1, i0, Z.shiftl 1 (r1 `mod` bitsPerUint64)).

Definition set (ma : memAlloc) (idx : Z) : res memAlloc :=
  let '(i1, i0, bit) := pos idx in
  p ← of_option (ma_mem ma !! Z.to_nat i1);
  let words := default zeroWords p in
  w ← of_option (words !! Z.to_nat i0);
  Ret (mkMA (ma_size ma)
         (<[Z.to_nat i1 := Some (<[Z.to_nat i0 := Z.lor w bit]> words)]> (ma_mem ma))).

Definition get (ma : memAlloc) (idx : Z) : res bool :=
  let '(i1, i0, bit) := pos idx in
  p ← of_option (ma_mem ma !! Z.to_nat i1);
  match p with
  | None => Ret false
  | Some words =>
      w ← of_option (words !! Z.to_nat i0);
      Ret (negb (bool_decide (Z.land w bit = 0)))
  end.

(** The loop of [noteAlloc], from granule [idx] on. *)
Fixpoint setRange (n : nat) (ma : memAlloc) (idx : Z) : res memAlloc :=
  match n with
  | O => Ret ma
  | S n => ma ← set ma idx; setRange n ma (u64 (idx + 1))
  end.

Definition noteAlloc (ma : memAlloc) (addr0 size0 : Z) : res memAlloc :=
  let addr := addr0 `div` memAllocGranule in
  let size := u64 (u64 (addr0 + size0 + memAllocGranule - 1) `div` memAllocGranule - addr) in
  setRange (Z.to_nat size) ma addr.

(** The inner loop of [alloc]: whether [n] granules are free. *)
Fixpoint freeRange (n : nat) (ma : memAlloc) (idx : Z) : res bool :=
  match n with
  | O => Ret true
  | S n => b ← get ma idx; if (b : bool) then Ret false else freeRange n ma (u64 (idx + 1))
  end.

(** The outer loop of [alloc]: the first free place, [None] when there is none. *)
Fixpoint findFree (fuel : nat) (ma : memAlloc) (size alignment end_ start : Z) : res (option Z) :=
  match fuel with
  | O => NoFuel
  | S fuel =>
      if bool_decide (start ≤ end_) then
        empty ← freeRange (Z.to_nat size) ma start;
        if (empty : bool) then Ret (Some start)
        else findFree fuel ma size alignment end_ (u64 (start + alignment))
      else Ret None
  end.

Definition bankruptcy (ma : memAlloc) : memAlloc :=
  let n := ma_size ma `div` (memAllocL0Size * bitsPerUint64) in
  let clear (i1 : nat) (p : option (list Z)) : option (list Z) :=
    match p with
    | Some words => if bool_decide (Z.of_nat i1 < n) then Some (replicate (length words) 0) else p
    | None => None
    end in
  mkMA (ma_size ma) (imap clear (ma_mem ma)).

(** [alloc] retries after a bankruptcy, [fuel] times at most; a search looks at
    every aligned place once. *)
Fixpoint alloc (fuel : nat) (ma : memAlloc) (size0 alignment0 : Z) : res (Z * memAlloc) :=
  match fuel with
  | O => NoFuel
  | S fuel =>
      let size0 := if bool_decide (size0 = 0) then 1 else size0 in
      let alignment0 := if bool_decide (alignment0 = 0) then 1 else alignment0 in
      let size := u64 (size0 + memAllocGranule - 1) `div` memAllocGranule in
      let alignment := u64 (alignment0 + memAllocGranule - 1) `div` memAllocGranule in
      let end_ := u64 (ma_size ma - size) in
      place ← findFree (S (S (Z.to_nat (end_ `div` alignment)))) ma size alignment end_ 0;
      match place with
      | Some start =>
          let start0 := u64 (start * memAllocGranule) in
          ma ← noteAlloc ma start0 size0;
          Ret (start0, ma)
      | None => alloc fuel (bankruptcy ma) size0 alignment0
      end
  end.

(** ** Pages *)

Record vmaAlloc := mkVA {
  numPages : Z;
  used : list Z;
  va_m : gset Z;
}.

Definition newVmaAlloc (totalPages : Z) : vmaAlloc := mkVA totalPages [] ∅.

(** The loop over the pages [i] to [last], exclusively. *)
Fixpoint notePages (n : nat) (va : vmaAlloc) (i last : Z) : vmaAlloc :=
  match n with
  | O => va
  | S n =>
      if bool_decide (i < last) then
        let va := if bool_decide (i ∈ va_m va) then va
                  else mkVA (numPages va) (used va ++ [i]) ({[i]} ∪ va_m va) in
        notePages n va (u64 (i + 1)) last
      else va
  end.

Definition noteVma (va : vmaAlloc) (page size : Z) : vmaAlloc :=
  notePages (Z.to_nat size) va page (u64 (page + size)).

(** The page [vmaAlloc.alloc] picks. *)
Definition pickPage (va : vmaAlloc) (size : Z) : Gen Z :=
  fresh ← (if bool_decide (used va = []) then mret true else oneOf 5);
  if (fresh : bool) then
    page ← rand 4;
    low ← oneOf 100;
    mret (if (low : bool) then page else u64 (numPages va - page - size))
  else
    i ← rand (Z.of_nat (length (used va)));
    page ← index (used va) i;
    back ← (if bool_decide (1 < size) then bin else mret false);
    page ← (if (back : bool) then
              off ← rand size;
              mret (u64 (page - (if bool_decide (page < off) then page else off)))
            else mret page);
    mret (if bool_decide (numPages va < u64 (page + size)) then u64 (numPages va - size) else page).

Definition allocVma (va : vmaAlloc) (size : Z) : Gen (Z * vmaAlloc) :=
  if bool_decide (numPages va < size) then gen_panic
  else
    page ← pickPage va size;
    if bool_decide (numPages va ≤ page) || bool_decide (numPages va < size) ||
       bool_decide (numPages va < u64 (page + size))
    then gen_panic
    else mret (page, noteVma va page size).

(** [VmaType.generate] with [randGen.allocVMA]: the address and the size of the
    region; [MakeVmaPointerArg] panics on an unaligned address. *)
Definition generateVma (pageSize rangeBegin rangeEnd : Z) (va : vmaAlloc) : Gen (Z * Z * vmaAlloc) :=
  npages ← randPageCount (numPages va);
  npages ← (if negb (bool_decide (rangeBegin = 0)) || negb (bool_decide (rangeEnd = 0))
            then n ← Intn (rangeEnd - rangeBegin + 1); mret (u64 (rangeBegin + n))
            else mret npages);
  '(page, va) ← allocVma va npages;
  let addr := u64 (page * pageSize) in
  if negb (bool_decide (addr `mod` 1024 = 0)) then gen_panic
  else mret (addr, u64 (npages * pageSize), va).

(** ** What the bitmap says *)

(** The granules in use. *)
Definition inUse (ma : memAlloc) (idx : Z) : bool :=
  match ma_mem ma !! Z.to_nat (idx `div` 4096) with
  | Some (Some words) =>
      Z.testbit (default 0 (words !! Z.to_nat (idx `mod` 4096 `div` 64))) (idx `mod` 64)
  | _ => false
  end.

Record maOK (ma : memAlloc) : Prop := {
  ok_size : 0 ≤ ma_size ma ≤ 64 * 4096;
  ok_blocks : (4096 | ma_size ma);
  ok_length : length (ma_mem ma) = 64%nat;
  ok_words : ∀ i words, ma_mem ma !! i = Some (Some words) → length words = 64%nat;
}.

(** A granule of the array. *)
Definition granule (idx : Z) : Prop := 0 ≤ idx < 64 * 4096.

(** ** Lemmas on the bitmap *)

Lemma bit_index idx : idx `mod` 4096 `mod` 64 = idx `mod` 64.
Proof.
  symmetry. apply Znumtheory.Zmod_div_mod; [lia|lia|]. by exists 64.
Qed.

Lemma land_bit w k : 0 ≤ k → bool_decide (Z.land w (Z.shiftl 1 k) = 0) = negb (Z.testbit w k).
Proof.
  intros Hk. rewrite Z.shiftl_mul_pow2, Z.mul_1_l by done. destruct (Z.testbit w k) eqn:E; simpl.
  - apply bool_decide_eq_false. intros H. apply (f_equal (λ z, Z.testbit z k)) in H.
    by rewrite Z.land_spec, Z.pow2_bits_true, E, Z.bits_0 in H.
  - apply bool_decide_eq_true. apply Z.bits_inj'. intros i Hi.
    rewrite Z.land_spec, Z.bits_0, Z.pow2_bits_eqb by done.
    destruct (Z.eqb_spec k i) as [->|]; [by rewrite E|apply andb_false_r].
Qed.

Lemma granule_index idx : granule idx →
  (Z.to_nat (idx `div` 4096) < 64)%nat ∧ (Z.to_nat (idx `mod` 4096 `div` 64) < 64)%nat.
Proof.
  intros [H0 H1].
  assert (0 ≤ idx `div` 4096 < 64) by (split; [apply Z.div_pos; lia|apply Z.div_lt_upper_bound; lia]).
  pose proof (Z.mod_pos_bound idx 4096).
  assert (0 ≤ idx `mod` 4096 `div` 64 < 64)
    by (split; [apply Z.div_pos; lia|apply Z.div_lt_upper_bound; lia]).
  lia.
Qed.

Lemma get_spec ma idx : maOK ma → granule idx → get ma idx = Ret (inUse ma idx).
Proof.
  intros Hok Hg. destruct (granule_index idx Hg) as [H1 H0]. unfold get, pos, inUse.
  change (memAllocL0Size * bitsPerUint64) with 4096. change bitsPerUint64 with 64.
  destruct (lookup_lt_is_Some_2 (ma_mem ma) (Z.to_nat (idx `div` 4096))) as [p Hp];
    [by rewrite (ok_length _ Hok)|].
  rewrite Hp. simpl. destruct p as [words|]; [|done].
  destruct (lookup_lt_is_Some_2 words (Z.to_nat (idx `mod` 4096 `div` 64))) as [w Hw];
    [by rewrite (ok_words _ Hok _ _ Hp)|].
  rewrite Hw. simpl. pose proof (Z.mod_pos_bound (idx `mod` 4096) 64).
  rewrite land_bit, negb_involutive, bit_index by lia. done.
Qed.

(** Two granules with the same word and bit are the same. *)
Lemma granule_eq i j : 0 ≤ i → 0 ≤ j →
  Z.to_nat (i `div` 4096) = Z.to_nat (j `div` 4096) →
  Z.to_nat (i `mod` 4096 `div` 64) = Z.to_nat (j `mod` 4096 `div` 64) →
  i `mod` 64 = j `mod` 64 → i = j.
Proof.
  intros Hi Hj H1 H0 Hb. rewrite <- (bit_index i), <- (bit_index j) in Hb.
  assert (E1 : i `div` 4096 = j `div` 4096) by (pose proof (Z.div_pos i 4096); pose proof (Z.div_pos j 4096); lia).
  pose proof (Z.mod_pos_bound i 4096). pose proof (Z.mod_pos_bound j 4096).
  assert (E0 : i `mod` 4096 `div` 64 = j `mod` 4096 `div` 64)
    by (pose proof (Z.div_pos (i `mod` 4096) 64); pose proof (Z.div_pos (j `mod` 4096) 64); lia).
  pose proof (Z.div_mod i 4096). pose proof (Z.div_mod j 4096).
  pose proof (Z.div_mod (i `mod` 4096) 64). pose proof (Z.div_mod (j `mod` 4096) 64). lia.
Qed.

Lemma ma_lookup ma idx : maOK ma → granule idx →
  ∃ p, ma_mem ma !! Z.to_nat (idx `div` 4096) = Some p ∧
    length (default zeroWords p) = 64%nat ∧
    ∃ w, default zeroWords p !! Z.to_nat (idx `mod` 4096 `div` 64) = Some w.
Proof.
  intros Hok Hg. destruct (granule_index idx Hg) as [H1 H0].
  destruct (lookup_lt_is_Some_2 (ma_mem ma) (Z.to_nat (idx `div` 4096))) as [p Hp];
    [by rewrite (ok_length _ Hok)|]. exists p. split; [done|].
  assert (Hl : length (default zeroWords p) = 64%nat).
  { destruct p as [words|]; [by apply (ok_words _ Hok _ _ Hp)|done]. }
  split; [done|]. apply lookup_lt_is_Some_2. by rewrite Hl.
Qed.

Lemma zeroWords_bit i b : Z.testbit (default 0 (zeroWords !! i)) b = false.
Proof.
  unfold zeroWords. destruct (replicate _ _ !! i) as [w|] eqn:E; simpl; [|apply Z.bits_0].
  apply lookup_replicate in E as [-> _]. apply Z.bits_0.
Qed.

(** The bits of a block, whether it is allocated or not. *)
Lemma inUse_words ma p j : ma_mem ma !! Z.to_nat (j `div` 4096) = Some p →
  inUse ma j = Z.testbit (default 0 (default zeroWords p !! Z.to_nat (j `mod` 4096 `div` 64))) (j `mod` 64).
Proof. intros Hp. unfold inUse. rewrite Hp. destruct p; [done|]. by rewrite zeroWords_bit. Qed.

Lemma set_spec ma idx : maOK ma → granule idx →
  ∃ ma', set ma idx = Ret ma' ∧ maOK ma' ∧ ma_size ma' = ma_size ma ∧
    ∀ j, 0 ≤ j → inUse ma' j = bool_decide (j = idx) || inUse ma j.
Proof.
  intros Hok Hg. destruct (ma_lookup ma idx Hok Hg) as (p & Hp & Hl & w & Hw).
  unfold set, pos. change (memAllocL0Size * bitsPerUint64) with 4096. change bitsPerUint64 with 64.
  rewrite Hp. cbn [mbind res_bind of_option]. rewrite Hw. cbn [mbind res_bind of_option].
  set (i1 := Z.to_nat (idx `div` 4096)) in *. set (i0 := Z.to_nat (idx `mod` 4096 `div` 64)) in *.
  set (w' := Z.lor w _). eexists. split; [done|].
  assert (Hlt : (i1 < length (ma_mem ma))%nat) by (by eapply lookup_lt_Some).
  assert (Hlt0 : (i0 < length (default zeroWords p))%nat) by (by eapply lookup_lt_Some).
  split; [|split; [done|]].
  - destruct Hok as [? ? ? Hws]. split; simpl; [done|done|by rewrite length_insert|].
    intros i words [(-> & [= <-] & _)|[Hne Hi]]%list_lookup_insert_Some; [by rewrite length_insert|].
    by eapply Hws.
  - intros j Hj. destruct (decide (Z.to_nat (j `div` 4096) = i1)) as [E1|E1].
    + erewrite inUse_words by (simpl; rewrite E1; by apply list_lookup_insert_eq).
      rewrite (inUse_words ma p j) by (by rewrite E1). cbn [from_option id].
      destruct (decide (Z.to_nat (j `mod` 4096 `div` 64) = i0)) as [E0|E0].
      * rewrite E0, list_lookup_insert_eq, Hw by done. cbn [from_option id]. unfold w'.
        rewrite Z.lor_spec, bit_index, orb_comm. f_equal.
        pose proof (Z.mod_pos_bound idx 64). pose proof (Z.mod_pos_bound j 64).
        rewrite Z.shiftl_mul_pow2, Z.mul_1_l, Z.pow2_bits_eqb by lia.
        destruct (Z.eqb_spec (idx `mod` 64) (j `mod` 64)) as [Eb|Eb].
        -- symmetry. apply bool_decide_eq_true. destruct Hg. by apply granule_eq.
        -- symmetry. apply bool_decide_eq_false. congruence.
      * rewrite list_lookup_insert_ne by done. rewrite bool_decide_false by (by intros ->). done.
    + unfold inUse at 1. simpl. rewrite list_lookup_insert_ne by done.
      rewrite bool_decide_false by (by intros ->). done.
Qed.

Lemma setRange_spec n ma idx : maOK ma → 0 ≤ idx → idx + Z.of_nat n ≤ 64 * 4096 →
  ∃ ma', setRange n ma idx = Ret ma' ∧ maOK ma' ∧ ma_size ma' = ma_size ma ∧
    ∀ j, 0 ≤ j → inUse ma' j = bool_decide (idx ≤ j < idx + Z.of_nat n) || inUse ma j.
Proof.
  revert ma idx. induction n as [|n IH]; intros ma idx Hok H0 Hn.
  - exists ma. split_and!; [done..|]. intros j Hj. by rewrite bool_decide_false by lia.
  - destruct (set_spec ma idx Hok) as (ma1 & Hs & Hok1 & Hz1 & Hu1); [unfold granule; lia|].
    destruct (IH ma1 (idx + 1) Hok1) as (ma2 & Hr & Hok2 & Hz2 & Hu2); [lia..|].
    exists ma2. simpl. rewrite Hs. cbn [mbind res_bind]. rewrite u64_id by (unfold isU64; lia).
    split; [done|]. split; [done|]. split; [congruence|]. intros j Hj. rewrite Hu2, Hu1 by done.
    rewrite orb_assoc. f_equal. rewrite <- bool_decide_or. apply bool_decide_ext. lia.
Qed.

(** [size] granules from [s] on are free. *)
Definition rangeFree (ma : memAlloc) (s size : Z) : Prop :=
  ∀ j, s ≤ j < s + size → inUse ma j = false.

Lemma freeRange_spec n ma idx : maOK ma → 0 ≤ idx → idx + Z.of_nat n ≤ 64 * 4096 →
  ∃ b, freeRange n ma idx = Ret b ∧ (b = true ↔ rangeFree ma idx (Z.of_nat n)).
Proof.
  intros Hok. revert idx. induction n as [|n IH]; intros idx H0 Hn.
  - exists true. split; [done|]. split; [|done]. intros _ j Hj. lia.
  - simpl freeRange. rewrite get_spec by (done || (unfold granule; lia)). cbn [mbind res_bind].
    destruct (inUse ma idx) eqn:Eu.
    + exists false. split; [done|]. split; [done|]. intros Hf. rewrite (Hf idx) in Eu; [done|lia].
    + rewrite u64_id by (unfold isU64; lia). destruct (IH (idx + 1)) as (b & Hb & Hiff); [lia..|].
      exists b. split; [done|]. rewrite Hiff. split; intros Hf j Hj; [|apply Hf; lia].
      destruct (decide (j = idx)) as [->|]; [done|]. apply Hf. lia.
Qed.

Lemma findFree_spec fuel ma size alignment start :
  maOK ma → 0 ≤ size ≤ ma_size ma → 1 ≤ alignment < 2 ^ 62 → 0 ≤ start < 2 ^ 63 →
  (0 < fuel)%nat → ma_size ma - size < start + (Z.of_nat fuel - 1) * alignment →
  ∃ o, findFree fuel ma size alignment (ma_size ma - size) start = Ret o ∧
    let candidate s := (alignment | s - start) ∧ start ≤ s ≤ ma_size ma - size in
    match o with
    | Some s => candidate s ∧ rangeFree ma s size ∧ (∀ s', candidate s' → s' < s → ¬ rangeFree ma s' size)
    | None => ∀ s', candidate s' → ¬ rangeFree ma s' size
    end.
Proof.
  intros Hok Hsize Hal. pose proof (ok_size _ Hok) as Hmax. cbv zeta. revert start.
  induction fuel as [|fuel IH]; intros start Hst Hpos Hfuel; [lia|]. simpl findFree.
  case_bool_decide as Hle.
  2: { exists None. split; [done|]. intros s' [_ ?]. lia. }
  destruct (freeRange_spec (Z.to_nat size) ma start Hok) as (b & Hb & Hiff); [lia..|].
  rewrite Hb. cbn [mbind res_bind]. rewrite Z2Nat.id in Hiff by lia. destruct b.
  { exists (Some start). split; [done|]. split; [split; [rewrite Z.sub_diag; apply Z.divide_0_r|lia]|].
    split; [by apply Hiff|]. intros s' [_ ?] ?. lia. }
  rewrite u64_id by (unfold isU64; lia).
  assert (Hpos' : (0 < fuel)%nat) by (destruct fuel; [exfalso; lia|lia]).
  destruct (IH (start + alignment)) as (o & Ho & Hspec); [lia|done|lia|]. exists o. split; [done|].
  assert (Hnext : ∀ s', (alignment | s' - start) ∧ start ≤ s' ≤ ma_size ma - size → s' ≠ start →
    (alignment | s' - (start + alignment)) ∧ start + alignment ≤ s' ≤ ma_size ma - size).
  { intros s' [[q Hq] ?] Hne. split; [exists (q - 1); lia|].
    assert (0 < q) by (apply (Z.mul_pos_cancel_r q alignment); lia). nia. }
  assert (Hnow : ¬ rangeFree ma start size) by (rewrite <- Hiff; done).
  destruct o as [s|].
  - destruct Hspec as ([[q Hq] Hs] & Hfree & Hfirst). split; [split; [exists (q + 1); lia|lia]|].
    split; [done|]. intros s' Hs' Hlt. destruct (decide (s' = start)) as [->|Hne]; [done|].
    apply Hfirst; [by apply Hnext|done].
  - intros s' Hs'. destruct (decide (s' = start)) as [->|Hne]; [done|]. by apply Hspec, Hnext.
Qed.

Lemma bankruptcy_spec ma : maOK ma →
  maOK (bankruptcy ma) ∧ ma_size (bankruptcy ma) = ma_size ma ∧
  ∀ j, 0 ≤ j → inUse (bankruptcy ma) j = negb (bool_decide (j < ma_size ma)) && inUse ma j.
Proof.
  intros [Hsize [k Hk] Hlen Hws]. split; [|split; [done|]].
  - split; simpl; [done|by exists k|by rewrite length_imap|].
    intros i words Hi. rewrite list_lookup_imap in Hi. apply fmap_Some in Hi as (p & Hp & Heq).
    destruct p as [ws|]; [|done]. destruct (bool_decide _); injection Heq as ->; [|by eapply Hws].
    rewrite length_replicate. by eapply Hws.
  - intros j Hj. unfold inUse, bankruptcy. simpl. rewrite list_lookup_imap.
    change (memAllocL0Size * bitsPerUint64) with 4096. rewrite Hk, Z.div_mul by lia.
    destruct (ma_mem ma !! Z.to_nat (j `div` 4096)) as [[ws|]|]; simpl; [|by rewrite andb_false_r..].
    rewrite Z2Nat.id by (apply Z.div_pos; lia).
    assert (Hiff : j `div` 4096 < k ↔ j < k * 4096).
    { split; intros H; [|apply Z.div_lt_upper_bound; lia].
      pose proof (Z.div_mod j 4096). pose proof (Z.mod_pos_bound j 4096). lia. }
    rewrite (bool_decide_ext _ _ Hiff). case_bool_decide; simpl; [|done].
    destruct (replicate (length ws) 0 !! _) as [w|] eqn:E; simpl; [|apply Z.bits_0].
    apply lookup_replicate in E as [-> _]. apply Z.bits_0.
Qed.

(** The granules an object of [size0] bytes at [addr0] touches. *)
Lemma noteAlloc_spec ma addr0 size0 : maOK ma → 0 ≤ addr0 → 0 ≤ size0 → addr0 + size0 ≤ 2 ^ 24 →
  ∃ ma', noteAlloc ma addr0 size0 = Ret ma' ∧ maOK ma' ∧ ma_size ma' = ma_size ma ∧
    ∀ j, 0 ≤ j → inUse ma' j =
      bool_decide (addr0 `div` 64 ≤ j < (addr0 + size0 + 63) `div` 64) || inUse ma j.
Proof.
  intros Hok Ha Hs Hmax. unfold noteAlloc. change memAllocGranule with 64.
  assert (Hd : addr0 `div` 64 ≤ (addr0 + size0 + 63) `div` 64) by (apply Z.div_le_mono; lia).
  assert (Hu : (addr0 + size0 + 63) `div` 64 ≤ 64 * 4096) by (apply Z.lt_succ_r, Z.div_lt_upper_bound; lia).
  assert (H0 : 0 ≤ addr0 `div` 64) by (apply Z.div_pos; lia).
  replace (addr0 + size0 + 64 - 1) with (addr0 + size0 + 63) by lia.
  rewrite (u64_id (addr0 + size0 + 63)) by (unfold isU64; lia). rewrite u64_id by (unfold isU64; lia).
  destruct (setRange_spec (Z.to_nat ((addr0 + size0 + 63) `div` 64 - addr0 `div` 64)) ma (addr0 `div` 64))
    as (ma' & Hr & Hok' & Hz & Hin); [done|done|lia|].
  exists ma'. split_and!; [done..|]. intros j Hj. rewrite Hin by done. f_equal.
  apply bool_decide_ext. lia.
Qed.

(** The granules an object needs, and the alignment in granules. *)
Definition granules (n0 : Z) : Z := (Z.max 1 n0 + 63) `div` 64.

Lemma granules_pos n0 : 0 ≤ n0 → 1 ≤ granules n0.
Proof. intros Hn. apply Z.div_le_lower_bound; lia. Qed.

Lemma granules_u64 n0 : 0 ≤ n0 < 2 ^ 63 →
  u64 ((if bool_decide (n0 = 0) then 1 else n0) + memAllocGranule - 1) `div` memAllocGranule = granules n0.
Proof.
  intros Hn. unfold granules. change memAllocGranule with 64.
  replace (if bool_decide (n0 = 0) then 1 else n0) with (Z.max 1 n0) by (case_bool_decide; lia).
  rewrite u64_id by (unfold isU64; lia). f_equal. lia.
Qed.

(** The answer of [alloc]: an aligned place inside the memory that was free and is
    the first such, or after a bankruptcy the start of the memory. *)
Definition allocPost (ma : memAlloc) (size0 alignment0 start : Z) (ma' : memAlloc) : Prop :=
  let size := granules size0 in
  let aligned s := (granules alignment0 | s) ∧ 0 ≤ s ∧ s + size ≤ ma_size ma in
  maOK ma' ∧ ma_size ma' = ma_size ma ∧ aligned start ∧
  ((rangeFree ma start size ∧ (∀ s, aligned s → s < start → ¬ rangeFree ma s size) ∧
    ∀ j, 0 ≤ j → inUse ma' j = bool_decide (start ≤ j < start + size) || inUse ma j) ∨
   (start = 0 ∧ (∀ s, aligned s → ¬ rangeFree ma s size) ∧
    ∀ j, 0 ≤ j < ma_size ma → inUse ma' j = bool_decide (j < size))).

(** One search of [alloc]. *)
Lemma alloc_search ma size0 alignment0 :
  maOK ma → 0 ≤ size0 → granules size0 ≤ ma_size ma → 0 ≤ alignment0 < 2 ^ 61 →
  ∃ o, findFree (S (S (Z.to_nat ((ma_size ma - granules size0) `div` granules alignment0)))) ma
         (granules size0) (granules alignment0) (ma_size ma - granules size0) 0 = Ret o ∧
    let aligned s := (granules alignment0 | s) ∧ 0 ≤ s ∧ s + granules size0 ≤ ma_size ma in
    match o with
    | Some s => aligned s ∧ rangeFree ma s (granules size0) ∧
                (∀ s', aligned s' → s' < s → ¬ rangeFree ma s' (granules size0))
    | None => ∀ s', aligned s' → ¬ rangeFree ma s' (granules size0)
    end.
Proof.
  intros Hok Hs Hfit Ha. pose proof (granules_pos size0 Hs). pose proof (granules_pos alignment0).
  assert (Hg : granules alignment0 < 2 ^ 62) by (apply Z.div_lt_upper_bound; lia).
  set (e := ma_size ma - granules size0) in *.
  pose proof (Z.div_mod e (granules alignment0)) as Hdm.
  pose proof (Z.mod_pos_bound e (granules alignment0)) as Hmb.
  assert (0 ≤ e `div` granules alignment0) by (apply Z.div_pos; lia).
  destruct (findFree_spec (S (S (Z.to_nat (e `div` granules alignment0)))) ma (granules size0)
    (granules alignment0) 0) as (o & Ho & Hspec); [done|lia|lia|lia|lia|nia|].
  exists o. split; [done|]. cbv zeta in *.
  assert (Hc : ∀ s, (granules alignment0 | s) ∧ 0 ≤ s ∧ s + granules size0 ≤ ma_size ma ↔
    (granules alignment0 | s - 0) ∧ 0 ≤ s ≤ e) 
    by (intros s; rewrite Z.sub_0_r; unfold e; split; intros [? ?]; (split; [done|lia])).
  destruct o as [s|]; setoid_rewrite Hc; done.
Qed.

Lemma granules_max n0 : granules (Z.max 1 n0) = granules n0.
Proof. unfold granules. f_equal. lia. Qed.

Lemma note_region ma start size0 :
  maOK ma → 0 ≤ start → 0 ≤ size0 → start + granules size0 ≤ ma_size ma →
  ∃ ma', noteAlloc ma (64 * start) (Z.max 1 size0) = Ret ma' ∧ maOK ma' ∧ ma_size ma' = ma_size ma ∧
    ∀ j, 0 ≤ j → inUse ma' j = bool_decide (start ≤ j < start + granules size0) || inUse ma j.
Proof.
  intros Hok H0 Hs Hfit. pose proof (ok_size _ Hok).
  assert (Hb : Z.max 1 size0 ≤ 64 * granules size0).
  { unfold granules. pose proof (Z.div_mod (Z.max 1 size0 + 63) 64).
    pose proof (Z.mod_pos_bound (Z.max 1 size0 + 63) 64). lia. }
  destruct (noteAlloc_spec ma (64 * start) (Z.max 1 size0)) as (ma' & Hn & Hok' & Hz & Hin); [done|lia..|].
  exists ma'. split_and!; [done..|]. intros j Hj. rewrite Hin by done. f_equal. apply bool_decide_ext.
  rewrite (Z.mul_comm 64), Z.div_mul by lia. unfold granules.
  replace (start * 64 + Z.max 1 size0 + 63) with (Z.max 1 size0 + 63 + start * 64) by lia.
  rewrite Z.div_add by lia. lia.
Qed.

(** One round of [alloc]. *)
Lemma alloc_round fuel ma size0 alignment0 :
  maOK ma → 0 ≤ size0 → granules size0 ≤ ma_size ma → 0 ≤ alignment0 < 2 ^ 61 →
  (∃ start ma', alloc (S fuel) ma size0 alignment0 = Ret (64 * start, ma') ∧
     maOK ma' ∧ ma_size ma' = ma_size ma ∧
     ((granules alignment0 | start) ∧ 0 ≤ start ∧ start + granules size0 ≤ ma_size ma) ∧
     rangeFree ma start (granules size0) ∧
     (∀ s, (granules alignment0 | s) ∧ 0 ≤ s ∧ s + granules size0 ≤ ma_size ma → s < start →
        ¬ rangeFree ma s (granules size0)) ∧
     ∀ j, 0 ≤ j → inUse ma' j = bool_decide (start ≤ j < start + granules size0) || inUse ma j) ∨
  ((∀ s, (granules alignment0 | s) ∧ 0 ≤ s ∧ s + granules size0 ≤ ma_size ma →
      ¬ rangeFree ma s (granules size0)) ∧
   alloc (S fuel) ma size0 alignment0 = alloc fuel (bankruptcy ma) (Z.max 1 size0) (Z.max 1 alignment0)).
Proof.
  intros Hok Hs Hfit Ha. pose proof (ok_size _ Hok) as Hsz.
  assert (Hs63 : size0 < 2 ^ 63).
  { unfold granules in Hfit. pose proof (Z.div_mod (Z.max 1 size0 + 63) 64).
    pose proof (Z.mod_pos_bound (Z.max 1 size0 + 63) 64). lia. }
  pose proof (granules_pos size0 Hs) as Hgs. cbn [alloc].
  rewrite (granules_u64 size0), (granules_u64 alignment0) by lia.
  rewrite (u64_id (ma_size ma - granules size0)) by (unfold isU64; lia).
  replace (if bool_decide (size0 = 0) then 1 else size0) with (Z.max 1 size0) by (case_bool_decide; lia).
  replace (if bool_decide (alignment0 = 0) then 1 else alignment0) with (Z.max 1 alignment0)
    by (case_bool_decide; lia).
  destruct (alloc_search ma size0 alignment0) as (o & Ho & Hspec); [done..|].
  rewrite Ho. cbn [mbind res_bind]. cbv zeta in Hspec. destruct o as [start|]; [left|right; by split].
  destruct Hspec as ((Hal & H0 & Hend) & Hfree & Hfirst).
  change memAllocGranule with 64. rewrite (Z.mul_comm start), u64_id by (unfold isU64; lia).
  destruct (note_region ma start size0) as (ma' & Hn & Hok' & Hz & Hin); [done..|].
  exists start, ma'. rewrite Hn. cbn [mbind res_bind]. by split_and!.
Qed.

(** A power of two divides every granule or is a number of granules. *)
Lemma aligned_bytes k s : 0 ≤ k → (granules (2 ^ k) | s) → (2 ^ k | 64 * s).
Proof.
  intros Hk Hs. pose proof (Z.pow_pos_nonneg 2 k). unfold granules in Hs.
  rewrite Z.max_r in Hs by lia. destruct (decide (k ≤ 6)) as [H6|H6].
  - apply Z.divide_mul_l. exists (2 ^ (6 - k)). change 64 with (2 ^ 6). rewrite <- Z.pow_add_r by lia.
    f_equal. lia.
  - assert (E : 2 ^ k = 2 ^ (k - 6) * 64) by (change 64 with (2 ^ 6); rewrite <- Z.pow_add_r by lia; f_equal; lia).
    rewrite E in *. replace ((2 ^ (k - 6) * 64 + 63) `div` 64) with (2 ^ (k - 6)) in Hs.
    + rewrite (Z.mul_comm (2 ^ (k - 6))). by apply Z.mul_divide_mono_l.
    + rewrite Z.add_comm, Z.div_add, Z.div_small by lia. lia.
Qed.

(** ** Lemmas on pages *)

Record vaOK (va : vmaAlloc) : Prop := {
  va_pages : 0 ≤ numPages va < 2 ^ 62;
  va_used : Forall (λ p, 0 ≤ p < 2 ^ 62) (used va);
  va_nodup : NoDup (used va);
  va_set : ∀ p, p ∈ va_m va ↔ p ∈ used va;
}.

Lemma notePages_spec n va i :
  vaOK va → 0 ≤ i → i + Z.of_nat n < 2 ^ 62 →
  let va' := notePages n va i (i + Z.of_nat n) in
  vaOK va' ∧ numPages va' = numPages va ∧
  ∀ p, p ∈ used va' ↔ p ∈ used va ∨ i ≤ p < i + Z.of_nat n.
Proof.
  cbv zeta. revert va i. induction n as [|n IH]; intros va i Hok Hi Hn; cbn [notePages].
  { split; [done|]. split; [done|]. intros p. split; [by left|]. intros [|]; [done|lia]. }
  rewrite bool_decide_true by lia. rewrite u64_id by (unfold isU64; lia).
  set (va1 := if bool_decide (i ∈ va_m va) then va else _).
  assert (H1 : vaOK va1 ∧ numPages va1 = numPages va ∧ ∀ p, p ∈ used va1 ↔ p ∈ used va ∨ p = i).
  { unfold va1. destruct Hok as [H1 H2 H3 H4]. case_bool_decide as Hm.
    - split; [by split|]. split; [done|]. intros p. split; [by left|]. intros [Hu| ->]; [done|]. by apply H4.
    - split; [|split; [done|]].
      + split; simpl; [done| | |].
        * apply Forall_app. split; [done|]. repeat constructor; lia.
        * apply NoDup_app. split; [done|]. split; [|apply NoDup_singleton].
          intros x Hx Hx1. apply list_elem_of_singleton in Hx1 as ->. by apply Hm, H4.
        * intros p. rewrite elem_of_union, elem_of_singleton, elem_of_app, list_elem_of_singleton, H4. tauto.
      + intros p. simpl. by rewrite elem_of_app, list_elem_of_singleton. }
  destruct H1 as (Hok1 & Hn1 & Hu1).
  replace (i + Z.of_nat (S n)) with (i + 1 + Z.of_nat n) by lia.
  destruct (IH va1 (i + 1)) as (Hok2 & Hn2 & Hu2); [done|lia|lia|].
  split; [done|]. split; [congruence|]. intros p. rewrite Hu2, Hu1. split.
  - intros [[Hu| ->]|]; [by left|right; lia|right; lia].
  - intros [|]; [by left; left|]. destruct (decide (p = i)) as [->|]; [by left; right|right; lia].
Qed.

Lemma noteVma_spec va page size :
  vaOK va → 0 ≤ page → 0 ≤ size → page + size < 2 ^ 62 →
  vaOK (noteVma va page size) ∧ numPages (noteVma va page size) = numPages va ∧
  ∀ p, p ∈ used (noteVma va page size) ↔ p ∈ used va ∨ page ≤ p < page + size.
Proof.
  intros Hok Hp Hs Hlt. unfold noteVma. rewrite u64_id by (unfold isU64; lia).
  pose proof (notePages_spec (Z.to_nat size) va page Hok Hp) as Hspec.
  rewrite Z2Nat.id in Hspec by done. by apply Hspec.
Qed.

Lemma pickPage_spec va size :
  vaOK va → 1 ≤ size → size + 3 ≤ numPages va →
  wp (pickPage va size) (λ page, 0 ≤ page ∧ page + size ≤ numPages va).
Proof.
  intros [Hn Hu _ _] H1 Hs. unfold pickPage.
  eapply wp_bind with (P := λ b : bool, b = false → used va ≠ []).
  { case_bool_decide; [by apply wp_ret|]. by apply wp_oneOf. }
  intros [] Hfresh.
  - eapply wp_bind; [by apply (wp_Intn 4 (λ p, 0 ≤ p < 4))|]. intros p Hp. cbn beta in Hp.
    eapply wp_bind; [by apply (wp_oneOf 100 (λ _, True))|]. intros low _. apply wp_ret.
    destruct low; [lia|]. rewrite u64_id by (unfold isU64; lia). lia.
  - specialize (Hfresh eq_refl). eapply wp_bind.
    { apply (wp_Intn _ (λ i, 0 ≤ i < Z.of_nat (length (used va)))); [|done].
      destruct (used va); [done|simpl; lia]. }
    intros i Hi. cbn beta in Hi. eapply wp_bind with (P := λ page, 0 ≤ page < 2 ^ 62).
    { apply wp_index; [lia|]. intros x Hx. exact (Forall_lookup_1 _ _ _ _ Hu Hx). }
    intros page Hpage. cbn beta in Hpage. eapply wp_bind with (P := λ _, True).
    { case_bool_decide; [by apply wp_bin|by apply wp_ret]. }
    intros back _. eapply wp_bind with (P := λ page', 0 ≤ page' < 2 ^ 62).
    { destruct back; [|by apply wp_ret].
      eapply wp_bind; [by apply (wp_Intn size (λ o, 0 ≤ o < size)); [lia|]|]. intros off Hoff.
      cbn beta in Hoff. apply wp_ret. case_bool_decide; rewrite u64_id by (unfold isU64; lia); lia. }
    intros page' Hp'. cbn beta in Hp'. apply wp_ret.
    rewrite (u64_id (page' + size)), u64_id by (unfold isU64; lia). case_bool_decide; lia.
Qed.

Lemma allocVma_spec va size :
  vaOK va → 1 ≤ size → size + 3 ≤ numPages va →
  wp (allocVma va size) (λ '(page, va'),
    0 ≤ page ∧ page + size ≤ numPages va ∧ vaOK va' ∧ numPages va' = numPages va ∧
    ∀ p, p ∈ used va' ↔ p ∈ used va ∨ page ≤ p < page + size).
Proof.
  intros Hok H1 Hs. pose proof (va_pages _ Hok). unfold allocVma. rewrite bool_decide_false by lia.
  eapply wp_bind; [by apply pickPage_spec|]. intros page [H0 Hend].
  rewrite u64_id by (unfold isU64; lia). rewrite !bool_decide_false by lia. simpl. apply wp_ret.
  split; [done|]. split; [done|]. apply noteVma_spec; [done|lia..].
Qed.

Lemma randPageCount_spec n : 23 ≤ n < 2 ^ 61 → wp (randPageCount n) (λ v, 1 ≤ v ∧ v + 3 ≤ n).
Proof.
  intros Hn. unfold randPageCount. apply wp_branch; [by apply wp_nOutOf| |apply wp_branch; [by apply wp_nOutOf| |]].
  - eapply wp_bind; [by apply (wp_Intn 4 (λ p, 0 ≤ p < 4))|]. intros p Hp. cbn beta in Hp. apply wp_ret.
    rewrite u64_id by (unfold isU64; lia). lia.
  - eapply wp_bind; [by apply (wp_Intn 20 (λ p, 0 ≤ p < 20))|]. intros p Hp. cbn beta in Hp. apply wp_ret.
    rewrite u64_id by (unfold isU64; lia). lia.
  - eapply wp_bind; [by apply (wp_Intn 3 (λ p, 0 ≤ p < 3))|]. intros p Hp. cbn beta in Hp. apply wp_ret.
    rewrite (u64_id (p + 1)), u64_id by (unfold isU64; nia).
    split; [apply Z.div_le_lower_bound; nia|].
    assert (((p + 1) * n) `div` 4 < n - 2); [|lia]. apply Z.div_lt_upper_bound; nia.
Qed.

(** ** Properties *)

(** C22: [alloc] terminates, after at most one bankruptcy, whenever the object fits
    into the memory.  It returns an aligned place inside the memory: the first
    one whose granules are all free, which it marks as used and nothing else; or,
    when there is no such place, the start of the memory after clearing it.  An
    alignment that is a power of two is respected in bytes. *)
Theorem memAlloc_alloc (fuel : nat) (ma : memAlloc) (size0 alignment0 : Z) :
  maOK ma → 0 ≤ size0 → granules size0 ≤ ma_size ma → 0 ≤ alignment0 < 2 ^ 61 →
  ∃ start ma', alloc (S (S fuel)) ma size0 alignment0 = Ret (64 * start, ma') ∧
    allocPost ma size0 alignment0 start ma' ∧
    (∀ k, 0 ≤ k → alignment0 = 2 ^ k → (alignment0 | 64 * start)).
Proof.
  intros Hok Hs Hfit Ha.
  destruct (alloc_round (S fuel) ma size0 alignment0 Hok Hs Hfit Ha)
    as [(start & ma' & Hr & Hok' & Hz & Hal & Hfree & Hfirst & Hin)|[Hnone Hr]].
  { exists start, ma'. split; [done|]. split; [|intros k Hk ->; apply aligned_bytes; [done|apply Hal]].
    unfold allocPost. cbv zeta. split; [done|]. split; [done|]. split; [done|]. by left. }
  destruct (bankruptcy_spec ma Hok) as (Hokb & Hzb & Hinb).
  destruct (alloc_round fuel (bankruptcy ma) (Z.max 1 size0) (Z.max 1 alignment0))
    as [(start & ma' & Hr' & Hok' & Hz & Hal & Hfree & Hfirst & Hin)|[Hnone' _]];
    [done|lia|by rewrite granules_max, Hzb|lia|..]; rewrite ?granules_max, ?Hzb in *.
  - assert (Hclear : ∀ j, 0 ≤ j < ma_size ma → inUse (bankruptcy ma) j = false).
    { intros j Hj. by rewrite Hinb, bool_decide_true by lia. }
    assert (start = 0) as ->.
    { destruct (decide (start = 0)) as [|Hne]; [done|]. exfalso.
      apply (Hfirst 0); [split; [apply Z.divide_0_r|lia]|lia|]. intros j Hj. apply Hclear. lia. }
    exists 0, ma'. rewrite Hr. split; [done|]. split; [|intros k Hk ->; apply aligned_bytes; [done|apply Hal]].
    unfold allocPost. cbv zeta. split; [done|]. split; [done|]. split; [done|]. right. split; [done|]. split; [done|]. intros j Hj.
    rewrite Hin, Hclear, orb_false_r by lia. apply bool_decide_ext. lia.
  - exfalso. apply (Hnone' 0); [split; [apply Z.divide_0_r|lia]|]. intros j Hj.
    rewrite Hinb, bool_decide_true by lia. done.
Qed.

Lemma memAlloc_alloc_witness :
  ∃ start ma', alloc 2 (mkMA 4096 (Some zeroWords :: replicate 63 None)) 100 8 = Ret (64 * start, ma') ∧
    allocPost (mkMA 4096 (Some zeroWords :: replicate 63 None)) 100 8 start ma' ∧
    (∀ k, 0 ≤ k → 8 = 2 ^ k → (8 | 64 * start)).
Proof.
  apply (memAlloc_alloc 0).
  - split; simpl; [lia|by exists 1|done|]. intros [|i] words Hi; [by injection Hi as <-|].
    simpl in Hi. apply (lookup_replicate_1 63) in Hi as [Hi _]. done.
  - lia.
  - vm_compute. discriminate.
  - lia.
Defined.

(** A generated [vma] argument without a range in its type never panics when
    the target has at least 23 pages of a size that is a multiple of 1024: the
    page counts [randPageCount] draws leave the room [vmaAlloc] needs.  The
    region lies inside the memory. *)
Theorem generateVma_safe (pageSize : Z) (va : vmaAlloc) :
  vaOK va → 23 ≤ numPages va < 2 ^ 32 → 0 < pageSize < 2 ^ 30 → (1024 | pageSize) →
  wp (generateVma pageSize 0 0 va) (λ '(addr, size, va'),
    0 ≤ addr ∧ 0 < size ∧ addr + size ≤ numPages va * pageSize ∧ vaOK va').
Proof.
  intros Hok Hn Hp [q Hq]. unfold generateVma. rewrite bool_decide_true by done. simpl.
  eapply wp_bind; [apply randPageCount_spec; lia|]. intros npages [H1 H2].
  eapply wp_bind with (P := λ n, n = npages); [by apply wp_ret|]. intros n ->.
  eapply wp_bind; [by apply allocVma_spec|]. intros [page va'] (Hp0 & Hend & Hok' & _ & _).
  rewrite (u64_id (page * pageSize)), (u64_id (npages * pageSize)) by (unfold isU64; nia).
  rewrite bool_decide_true by (rewrite Hq, Z.mul_assoc; apply Z.mod_mul; lia). simpl. apply wp_ret.
  split_and!; [nia|nia|nia|done].
Qed.

Lemma generateVma_safe_witness :
  wp (generateVma 4096 0 0 (newVmaAlloc 4096)) (λ '(addr, size, va'),
    0 ≤ addr ∧ 0 < size ∧ addr + size ≤ 4096 * 4096 ∧ vaOK va').
Proof.
  apply (generateVma_safe 4096 (newVmaAlloc 4096)).
  - split; simpl; [lia|constructor|constructor|]. intros p. split; [by intros ?%not_elem_of_empty|].
    by intros ?%not_elem_of_nil.
  - simpl. lia.
  - lia.
  - by exists 4.
Defined.

(** C38: a request for all pages passes the check at the start of
    [vmaAlloc.alloc], but there are draws on which it panics: a random page is
    subtracted from the last possible one and wraps around. *)
Theorem allocVma_all_pages_panics (n : Z) :
  4 ≤ n < 2 ^ 62 → ∃ r, allocVma (newVmaAlloc n) n r = Panic.
Proof.
  intros Hn. exists (mkRng (λ _, 1) 0). unfold allocVma.
  change (numPages (newVmaAlloc n)) with n.
  rewrite bool_decide_false by lia.
  assert (Hp : pickPage (newVmaAlloc n) n (mkRng (λ _, 1) 0) = Ret (u64 (n - 1 - n), mkRng (λ _, 1) 2))
    by reflexivity.
  replace (n - 1 - n) with (-1) in Hp by lia. change (u64 (-1)) with (2 ^ 64 - 1) in Hp.
  unfold mbind, Gen_bind. rewrite Hp. rewrite bool_decide_true by lia. done.
Qed.

Lemma allocVma_all_pages_panics_witness : ∃ r, allocVma (newVmaAlloc 4096) 4096 r = Panic.
Proof. apply (allocVma_all_pages_panics 4096). lia. Defined.
