(* ===== verification/Heatmap.v ===== *)
(** * Heatmaps

    [prog/heatmap.go]: where to mutate a large image.  The data is cut into chunks
    of [granularity] bytes; chunks of a single repeated byte are boring, the
    others form segments, and an index into the concatenated segments is
    translated back to an index into the data. *)

From stdpp Require Import base numbers list.
From S2P Require Import Prelude.

Local Open Scope Z_scope.

Record segment := mkSeg {
  offset : Z;
  seg_length : Z;
}.

Record GenericHeatmap := mkHeatmap {
  segments : list segment;
  hm_length : Z;
}.

Definition granularity : nat := 64.

(** Whether a chunk is a single repeated byte; an empty chunk panics on [chunk[0]]. *)
Definition isConstant (chunk : list Z) : res bool :=
  match chunk with
  | [] => Panic
  | byt0 :: _ => Ret (forallb (λ byt, bool_decide (byt = byt0)) chunk)
  end.

(** The variables of [calculateLengthAndSegments]. *)
Record segState := mkSegState {
  st_offset : Z;
  st_current : Z;
  st_total : Z;
  st_segments : list segment;
}.

Definition saveSegment (st : segState) : segState :=
  if bool_decide (st_current st ≠ 0) then
    mkSegState (st_offset st + st_current st) 0 (st_total st + st_current st)
      (st_segments st ++ [mkSeg (st_offset st) (st_current st)])
  else st.

(** The loop over the chunks; every round takes at least a byte of the data, so
    its length is enough fuel. *)
Fixpoint segLoop (fuel : nat) (g : nat) (data : list Z) (st : segState) : res segState :=
  match data with
  | [] => Ret st
  | _ =>
      match fuel with
      | O => NoFuel
      | S fuel =>
          let chunk := if bool_decide (length data < g)%nat then data else take g data in
          let rest := if bool_decide (length data < g)%nat then [] else drop g data in
          const ← isConstant chunk;
          let st :=
            if (const : bool) then
              let st := saveSegment st in
              mkSegState (st_offset st + Z.of_nat (length chunk)) (st_current st) (st_total st)
                (st_segments st)
            else
              mkSegState (st_offset st) (st_current st + Z.of_nat (length chunk)) (st_total st)
                (st_segments st) in
          segLoop fuel g rest st
      end
  end.

Definition calculateLengthAndSegments (data : list Z) (g : nat) : res (Z * list segment) :=
  st ← segLoop (length data) g data (mkSegState 0 0 0 []);
  let st := saveSegment st in
  match st_segments st with
  | [] => Ret (Z.of_nat (length data), [mkSeg 0 (Z.of_nat (length data))])
  | segs => Ret (st_total st, segs)
  end.

Definition MakeGenericHeatmap (data : list Z) : res GenericHeatmap :=
  match data with
  | [] => Panic
  | _ =>
      '(len, segs) ← calculateLengthAndSegments data granularity;
      Ret (mkHeatmap segs len)
  end.

Fixpoint translateLoop (idx : Z) (segs : list segment) : res Z :=
  match segs with
  | [] => Panic
  | seg :: segs =>
      if bool_decide (idx < seg_length seg) then Ret (offset seg + idx)
      else translateLoop (idx - seg_length seg) segs
  end.

Definition translateIdx (idx : Z) (segs : list segment) : res Z :=
  if bool_decide (idx < 0) then Panic else translateLoop idx segs.

Definition NumMutations (hm : GenericHeatmap) : Gen Z :=
  a ← Intn (hm_length hm `div` Z.shiftl 4 10 + 1);
  b ← Intn 5;
  let n := 1 + a + b in
  mret (if bool_decide (10 < n) then 10 else n).

Definition ChooseLocation (hm : GenericHeatmap) : Gen Z :=
  heatmapIdx ← Intn (hm_length hm);
  liftRes (translateIdx heatmapIdx (segments hm)).

(** ** Reference *)

(** The chunk an index belongs to. *)
Definition chunkOf (data : list Z) (g i : nat) : list Z := take g (drop (g * (i / g)) data).

(** A chunk with two different bytes. *)
Definition isHot (chunk : list Z) : bool :=
  existsb (λ byt, negb (bool_decide (Some byt = head chunk))) chunk.

(** The indices in chunks that are not a single repeated byte, or all indices when
    there are none. *)
Definition interesting (data : list Z) (g : nat) : list nat :=
  filter (λ i, isHot (chunkOf data g i) = true) (seq 0 (length data)).

Definition hotIndices (data : list Z) (g : nat) : list nat :=
  match interesting data g with
  | [] => seq 0 (length data)
  | l => l
  end.

(** The indices a list of segments covers, in order. *)
Definition expand (segs : list segment) : list Z :=
  concat ((λ s, seqZ (offset s) (seg_length s)) <$> segs).

(** ** Lemmas *)

Lemma expand_app l1 l2 : expand (l1 ++ l2) = expand l1 ++ expand l2.
Proof. unfold expand. by rewrite fmap_app, concat_app. Qed.

Lemma expand_single o n : expand [mkSeg o n] = seqZ o n.
Proof. unfold expand. simpl. by rewrite app_nil_r. Qed.

Lemma translateLoop_spec segs idx :
  Forall (λ s, 0 ≤ seg_length s) segs → 0 ≤ idx →
  translateLoop idx segs = of_option (expand segs !! Z.to_nat idx).
Proof.
  intros Hs. revert idx. induction Hs as [|s segs Hs0 Hs IH]; intros idx Hi; [done|]. simpl.
  change (expand (s :: segs)) with (seqZ (offset s) (seg_length s) ++ expand segs).
  case_bool_decide as Hlt.
  - rewrite lookup_app_l by (rewrite length_seqZ; lia).
    rewrite (lookup_seqZ_lt (offset s) (seg_length s)) by lia. simpl. f_equal. lia.
  - rewrite lookup_app_r by (rewrite length_seqZ; lia). rewrite IH by lia. f_equal. f_equal.
    rewrite length_seqZ. lia.
Qed.

Lemma isConstant_hot chunk : chunk ≠ [] → isConstant chunk = Ret (negb (isHot chunk)).
Proof.
  destruct chunk as [|b l]; [done|]. intros _. unfold isConstant, isHot. f_equal. cbn [head].
  generalize (b :: l) as l'. intros l'. induction l' as [|x l' IH]; [done|].
  cbn [forallb existsb]. rewrite negb_orb, negb_involutive, <- IH. f_equal.
  apply bool_decide_ext. naive_solver.
Qed.

(** The indices of one chunk in front of more data. *)
Lemma interesting_app chunk rest g : length chunk = g → g ≠ 0%nat →
  interesting (chunk ++ rest) g =
  (if isHot chunk then seq 0 g else []) ++ (Nat.add g <$> interesting rest g).
Proof.
  intros Hg H0. unfold interesting. rewrite length_app, Hg, seq_app, filter_app. f_equal.
  - apply filter_uniform. intros i Hi%elem_of_seq. unfold chunkOf. rewrite Nat.div_small by lia.
    rewrite Nat.mul_0_r, drop_0, <- Hg, take_app_length. done.
  - replace (seq (0 + g) (length rest)) with (Nat.add g <$> seq 0 (length rest))
      by (rewrite fmap_add_seq; f_equal; lia). apply filter_fmap.
    intros i _. unfold chunkOf. replace (g + i)%nat with (i + 1 * g)%nat by lia.
    rewrite Nat.div_add by done. replace (g * (i / g + 1))%nat with (length chunk + g * (i / g))%nat by lia.
    by rewrite drop_app_add'.
Qed.

(** The last, short chunk. *)
Lemma interesting_short data g : (length data < g)%nat →
  interesting data g = if isHot data then seq 0 (length data) else [].
Proof.
  intros Hl. apply filter_uniform. intros i Hi%elem_of_seq. unfold chunkOf.
  rewrite Nat.div_small, Nat.mul_0_r, drop_0, take_ge by lia. done.
Qed.

(** What the loop has found when the data from [o] on is left. *)
Record segOK (o : Z) (done : list Z) (st : segState) : Prop := {
  seg_found : done = expand (st_segments st) ++ seqZ (st_offset st) (st_current st);
  seg_place : st_offset st + st_current st = o;
  seg_total : st_total st = Z.of_nat (length (expand (st_segments st)));
  seg_current : 0 ≤ st_current st;
  seg_pos : Forall (λ s, 0 < seg_length s) (st_segments st);
}.

Lemma saveSegment_OK o found st : segOK o found st →
  segOK o found (saveSegment st) ∧ st_current (saveSegment st) = 0 ∧ st_offset (saveSegment st) = o.
Proof.
  intros [H1 H2 H3 H4 H5]. unfold saveSegment. case_bool_decide as Hc.
  - split; [|simpl; lia]. split; simpl.
    + rewrite expand_app, expand_single, H1. by rewrite app_nil_r.
    + lia.
    + rewrite expand_app, expand_single, length_app, length_seqZ. lia.
    + done.
    + apply Forall_app. split; [done|]. repeat constructor. simpl. lia.
  - split; [by split|]. lia.
Qed.

(** One chunk of the loop. *)
Lemma segLoop_chunk o found st chunk : segOK o found st → chunk ≠ [] →
  ∃ st', segOK (o + Z.of_nat (length chunk))
           (found ++ if isHot chunk then seqZ o (Z.of_nat (length chunk)) else []) st' ∧
    st' = (if negb (isHot chunk) then
             let st := saveSegment st in
             mkSegState (st_offset st + Z.of_nat (length chunk)) (st_current st) (st_total st) (st_segments st)
           else mkSegState (st_offset st) (st_current st + Z.of_nat (length chunk)) (st_total st)
                  (st_segments st)).
Proof.
  intros Hst Hne. eexists. split; [|done]. destruct (isHot chunk); simpl.
  - destruct Hst as [H1 H2 H3 H4 H5]. split; simpl; [|lia|done|lia|done].
    rewrite H1, <- app_assoc, (seqZ_app _ (st_current st)) by lia. by rewrite H2.
  - destruct (saveSegment_OK _ _ _ Hst) as ([H1 H2 H3 H4 H5] & Hc & Ho).
    split; simpl; [|lia|done|lia|done]. rewrite app_nil_r, H1, Hc. done.
Qed.

Lemma seqZ_fmap_seq o n : seqZ o (Z.of_nat n) = (λ i, o + Z.of_nat i) <$> seq 0 n.
Proof. unfold seqZ. rewrite Nat2Z.id. apply list_fmap_ext. intros. lia. Qed.

Lemma segLoop_spec fuel g data o found st :
  g ≠ 0%nat → (length data ≤ fuel)%nat → segOK o found st →
  ∃ st', segLoop fuel g data st = Ret st' ∧
    segOK (o + Z.of_nat (length data)) (found ++ ((λ i, o + Z.of_nat i) <$> interesting data g)) st'.
Proof.
  intros Hg. revert data o found st. induction fuel as [|fuel IH]; intros data o found st Hl Hst.
  { destruct data; [|simpl in Hl; lia]. exists st. by rewrite app_nil_r, Z.add_0_r. }
  destruct (decide (data = [])) as [->|Hne].
  { exists st. by rewrite app_nil_r, Z.add_0_r. }
  destruct (decide (length data < g)%nat) as [Hshort|Hlong].
  - destruct (segLoop_chunk o found st data Hst Hne) as (st' & Hst' & Heq). exists st'.
    split; [|rewrite interesting_short by done; revert Hst'; destruct (isHot data);
      by rewrite ?seqZ_fmap_seq].
    destruct data as [|b data]; [done|]. cbn [segLoop]. rewrite bool_decide_true by done.
    rewrite isConstant_hot by done. subst st'. by destruct fuel.
  - assert (Hc : length (take g data) = g) by (rewrite length_take; lia).
    assert (Hcn : take g data ≠ []) by (intros E; rewrite E in Hc; simpl in Hc; lia).
    destruct (segLoop_chunk o found st (take g data) Hst Hcn) as (st1 & Hst1 & Heq). rewrite Hc in *.
    edestruct (IH (drop g data)) as (st2 & Hrun & Hst2); [rewrite length_drop; lia|exact Hst1|].
    exists st2. split.
    + destruct data as [|b data]; [done|]. cbn [segLoop]. rewrite bool_decide_false by done.
      rewrite isConstant_hot by done. cbn [mbind res_bind]. rewrite Hc. subst st1. exact Hrun.
    + replace (o + Z.of_nat (length data)) with (o + Z.of_nat g + Z.of_nat (length (drop g data)))
        by (rewrite length_drop; lia).
      rewrite <- (take_drop g data) at 2. rewrite interesting_app by done.
      rewrite fmap_app, app_assoc, <- list_fmap_compose.
      replace ((λ i, o + Z.of_nat i) ∘ Nat.add g <$> interesting (drop g data) g)
        with ((λ i, o + Z.of_nat g + Z.of_nat i) <$> interesting (drop g data) g)
        by (apply list_fmap_ext; intros; simpl; lia).
      revert Hst2. destruct (isHot (take g data)); by rewrite ?seqZ_fmap_seq.
Qed.

(** The segments cover exactly the hot indices, in order. *)
Lemma calculate_spec data g : data ≠ [] → g ≠ 0%nat →
  ∃ segs, calculateLengthAndSegments data g = Ret (Z.of_nat (length (hotIndices data g)), segs) ∧
    Forall (λ s, 0 ≤ seg_length s) segs ∧ expand segs = Z.of_nat <$> hotIndices data g.
Proof.
  intros Hne Hg. unfold calculateLengthAndSegments.
  destruct (segLoop_spec (length data) g data 0 [] (mkSegState 0 0 0 [])) as (st & -> & Hst);
    [done|done|by split|]. cbn [mbind res_bind].
  destruct (saveSegment_OK _ _ _ Hst) as ([H1 _ H3 _ H5] & Hc & _). rewrite Hc, app_nil_r in H1.
  simpl in H1. change (λ i : nat, Z.of_nat i) with Z.of_nat in H1. cbv zeta.
  destruct (st_segments (saveSegment st)) as [|s segs] eqn:Es.
  - apply fmap_nil_inv in H1. unfold hotIndices. rewrite H1, length_seq. eexists. split; [done|].
    split; [repeat constructor; simpl; lia|]. rewrite expand_single, seqZ_fmap_seq. done.
  - exists (s :: segs). rewrite <- Es in *.
    assert (Hhot : hotIndices data g = interesting data g).
    { unfold hotIndices. destruct (interesting data g) eqn:Ei; [|done]. exfalso.
      rewrite Es in H1, H5. apply Forall_cons in H5 as [Hs _].
      apply (f_equal length) in H1. unfold expand in H1. simpl in H1.
      rewrite length_app, length_seqZ in H1. lia. }
    rewrite Hhot, H3, <- H1, length_fmap. split; [by rewrite Es|]. split; [|done].
    eapply Forall_impl; [exact H5|]. simpl. lia.
Qed.

Lemma hotIndices_elem data g i : i ∈ hotIndices data g → (i < length data)%nat.
Proof.
  unfold hotIndices. destruct (interesting data g) as [|x l] eqn:E; [by intros ?%elem_of_seq; lia|].
  rewrite <- E. intros [_ Hi%elem_of_seq]%list_elem_of_filter. lia.
Qed.

Lemma hotIndices_nonempty data g : data ≠ [] → hotIndices data g ≠ [].
Proof. intros Hne. unfold hotIndices. destruct (interesting data g); [|done]. by destruct data. Qed.

(** ** Properties *)

(** C28: a heatmap of non-empty data is made without a panic.  Its indices are in
    one-to-one correspondence, in order, with the indices of the data that lie in
    a chunk of more than one byte value, or with all of them when no chunk has
    more; so a uniform draw is uniform over those, and [ChooseLocation] never
    panics and stays inside the data.  The number of mutations is between one and
    ten. *)
Theorem heatmap_uniform (data : list Z) :
  data ≠ [] →
  ∃ hm, MakeGenericHeatmap data = Ret hm ∧
    hm_length hm = Z.of_nat (length (hotIndices data granularity)) ∧
    (∀ idx, 0 ≤ idx < hm_length hm →
       ∃ i, hotIndices data granularity !! Z.to_nat idx = Some i ∧
         translateIdx idx (segments hm) = Ret (Z.of_nat i)) ∧
    wp (ChooseLocation hm) (λ i, 0 ≤ i < Z.of_nat (length data)) ∧
    wp (NumMutations hm) (λ n, 1 ≤ n ≤ 10).
Proof.
  intros Hne. destruct (calculate_spec data granularity Hne) as (segs & Hcalc & Hpos & Hexp); [done|].
  exists (mkHeatmap segs (Z.of_nat (length (hotIndices data granularity)))).
  assert (Htr : ∀ idx, 0 ≤ idx < Z.of_nat (length (hotIndices data granularity)) →
    ∃ i, hotIndices data granularity !! Z.to_nat idx = Some i ∧ translateIdx idx segs = Ret (Z.of_nat i)).
  { intros idx Hi. destruct (lookup_lt_is_Some_2 (hotIndices data granularity) (Z.to_nat idx)) as [i Hl];
      [lia|]. exists i. split; [done|]. unfold translateIdx. rewrite bool_decide_false by lia.
    rewrite translateLoop_spec, Hexp, list_lookup_fmap, Hl by (done || lia). done. }
  split; [|split; [done|split; [done|split]]].
  - unfold MakeGenericHeatmap. destruct data; [done|]. by rewrite Hcalc.
  - eapply wp_bind; [apply (wp_Intn _ (λ i, 0 ≤ i < Z.of_nat (length (hotIndices data granularity))))|];
      [|done|].
    + simpl. pose proof (hotIndices_nonempty data granularity Hne).
      destruct (hotIndices data granularity); [done|simpl; lia].
    + intros idx Hi. destruct (Htr idx Hi) as (i & Hl & Ht). eapply wp_liftRes; [exact Ht|].
      apply list_elem_of_lookup_2, hotIndices_elem in Hl. lia.
  - eapply wp_bind; [apply (wp_Intn _ (λ a, 0 ≤ a)); [|lia]|].
    + cbn [hm_length]. set (n := Z.of_nat _). assert (0 ≤ n `div` Z.shiftl 4 10) by (apply Z.div_pos; [lia|done]).
      lia.
    + intros a Ha. eapply wp_bind; [apply (wp_Intn _ (λ b, 0 ≤ b)); lia|]. intros b Hb. apply wp_ret.
      cbn beta in *. case_bool_decide; lia.
Qed.

Lemma heatmap_uniform_witness :
  ∃ hm, MakeGenericHeatmap (replicate 64 0 ++ [1; 2]) = Ret hm ∧ hm_length hm = 2.
Proof.
  destruct (heatmap_uniform (replicate 64 0 ++ [1; 2])) as (hm & H1 & H2 & _); [discriminate|].
  exists hm. split; [exact H1|]. rewrite H2. vm_compute. reflexivity.
Defined.
