(* ===== verification/Prio.v ===== *)
(** * Call priorities and the choice table

    [prog/prio.go]: how likely a call is added next to another one.  Priorities
    are [int32] with wrap-around and division that truncates.  A system call is
    its index in [target.Syscalls]; a corpus program is the list of its calls.
    The resource usage that the static priorities start from comes from the
    descriptions, as the weights of the calls under each usage string. *)

From stdpp Require Import base numbers strings gmap list.
From S2P Require Import Prelude Word GoSort.

Local Open Scope Z_scope.

Definition prioLow : Z := 10.

Definition prioHigh : Z := 1000.

(** ** Matrices *)

(** [prios[i][j] = f(prios[i][j])]; an index out of range panics. *)
Definition updateAt (prios : list (list Z)) (i j : nat) (f : Z → Z) : res (list (list Z)) :=
  row ← of_option (prios !! i);
  p ← of_option (row !! j);
  Ret (<[i := <[j := f p]> row]> prios).

Definition zeroPrios (n : nat) : list (list Z) := replicate n (replicate n 0).

(** A loop whose body updates the matrix. *)
Fixpoint forEach {A} (l : list A) (body : A → list (list Z) → res (list (list Z)))
    (prios : list (list Z)) : res (list (list Z)) :=
  match l with
  | [] => Ret prios
  | x :: l => prios ← body x prios; forEach l body prios
  end.

(** The largest priority of a row, at least one. *)
Definition maxPrio (prio : list Z) : Z :=
  foldl (λ max p, if bool_decide (max < p) then p else max) 1 prio.

Definition normalizeRow (prio : list Z) : list Z :=
  let max := maxPrio prio in
  (λ p, i32 (prioLow + Z.quot (i32 (p * (prioHigh - prioLow))) max)) <$> prio.

Definition normalizePrio (prios : list (list Z)) : list (list Z) := normalizeRow <$> prios.

(** ** Static and dynamic priorities *)

Record weights := mkWeights {
  w_call : nat;
  w_in : Z;
  w_inout : Z;
}.

(** The weights of the calls under each usage string. *)
Definition usage : Type := gmap string (gmap nat weights).

(** [noteUsage]; [out] is whether the direction is [DirOut]. *)
Definition noteUsage (uses : usage) (c : nat) (weight : Z) (out : bool) (id : string) : usage :=
  let m := default ∅ (uses !! id) in
  let old := default (mkWeights 0 0 0) (m !! c) in
  let in' := if negb out && bool_decide (w_in old < weight) then weight else w_in old in
  let inout' := if bool_decide (w_inout old < weight) then weight else w_inout old in
  <[id := <[c := mkWeights c in' inout']> m]> uses.

Definition staticPair (w0 w1 : weights) (prios : list (list Z)) : res (list (list Z)) :=
  if bool_decide (w_call w0 = w_call w1) then Ret prios
  else updateAt prios (w_call w0) (w_call w1) (λ p,
    i32 (p + i32 (Z.quot (i32 (i32 (w_inout w0 * w_in w1) * 3)) 2 + i32 (w_inout w0 * w_inout w1)))).

Definition calcStaticPriorities (n : nat) (uses : list (list weights)) : res (list (list Z)) :=
  prios ← forEach uses (λ ws, forEach ws (λ w0, forEach ws (λ w1, staticPair w0 w1))) (zeroPrios n);
  Ret (imap (λ c0 pp, <[c0 := Z.quot (prioHigh * 9) 10]> pp) (normalizePrio prios)).

Fixpoint dynamicCalls (calls : list nat) (prios : list (list Z)) : res (list (list Z)) :=
  match calls with
  | [] => Ret prios
  | c0 :: calls =>
      prios ← forEach calls (λ c1 prios, updateAt prios c0 c1 (λ p, i32 (p + 1))) prios;
      dynamicCalls calls prios
  end.

Definition calcDynamicPrio (n : nat) (corpus : list (list nat)) : res (list (list Z)) :=
  prios ← forEach corpus dynamicCalls (zeroPrios n);
  Ret (normalizePrio prios).

Definition CalculatePriorities (n : nat) (uses : list (list weights)) (corpus : list (list nat)) :
    res (list (list Z)) :=
  static ← calcStaticPriorities n uses;
  match corpus with
  | [] => Ret static
  | _ =>
      dynamic ← calcDynamicPrio n corpus;
      Ret (zip_with (zip_with (λ dst p, Z.quot (i32 (dst * p)) prioHigh)) static dynamic)
  end.

(** ** The choice table *)

Record SyscallAttrs := mkAttrs {
  Disabled : bool;
  NoGenerate : bool;
}.

Record ChoiceTable := mkCT {
  ct_runs : list (option (list Z));
  ct_calls : list nat;
  ct_noGenerate : list nat;
}.

(** The cumulated sums of a row over the enabled calls. *)
Fixpoint runLoop (enabled : nat → bool) (j : nat) (sum : Z) (prios : list Z) : list Z :=
  match prios with
  | [] => []
  | p :: prios =>
      let sum := if enabled j then i32 (sum + p) else sum in
      sum :: runLoop enabled (S j) sum prios
  end.

(** The calls of the [enabled] argument, all of them for a nil map, which is
    [None]. *)
Definition isGiven (enabled : option (gset nat)) (c : nat) : bool :=
  match enabled with Some s => bool_decide (c ∈ s) | None => true end.

Definition attrOf (f : SyscallAttrs → bool) (syscalls : list SyscallAttrs) (c : nat) : bool :=
  match syscalls !! c with Some a => f a | None => false end.

(** The calls that are left in the map after the loop that deletes from it. *)
Definition isEnabled (syscalls : list SyscallAttrs) (enabled : option (gset nat)) (c : nat) : bool :=
  isGiven enabled c && negb (attrOf Disabled syscalls c) && negb (attrOf NoGenerate syscalls c).

Definition noGenerateCalls (syscalls : list SyscallAttrs) (enabled : option (gset nat)) : list nat :=
  filter (λ c, isGiven enabled c && negb (attrOf Disabled syscalls c) && attrOf NoGenerate syscalls c = true)
    (seq 0 (length syscalls)).

(** [BuildChoiceTable] returns the table; it also deletes from the map of the
    caller, which is the second result. *)
Definition BuildChoiceTable (syscalls : list SyscallAttrs) (uses : list (list weights))
    (corpus : list (list nat)) (enabled : option (gset nat)) :
    res (ChoiceTable * option (gset nat)) :=
  let n := length syscalls in
  let enabledAfter := filter (λ c, isEnabled syscalls enabled c = true) <$> enabled in
  let noGenerate := noGenerateCalls syscalls enabled in
  let generatable := filter (λ c, isEnabled syscalls enabled c = true) (seq 0 n) in
  if bool_decide (generatable = []) then Panic
  else if existsb (existsb (λ c, negb (isEnabled syscalls enabled c) && negb (bool_decide (c ∈ noGenerate))))
            corpus then Panic
  else
    prios ← CalculatePriorities n uses corpus;
    Ret (mkCT (imap (λ i row,
                 if isEnabled syscalls enabled i then Some (runLoop (isEnabled syscalls enabled) 0 0 row)
                 else None) prios)
           generatable noGenerate, enabledAfter).

Definition Generatable (ct : ChoiceTable) (call : nat) : res bool :=
  run ← of_option (ct_runs ct !! call);
  Ret (bool_decide (is_Some run)).

Definition Enabled (ct : ChoiceTable) (call : nat) : res bool :=
  b ← Generatable ct call;
  Ret ((b : bool) || bool_decide (call ∈ ct_noGenerate ct)).

(** [choose] from a bias, [None] for a negative one. *)
Definition choose (ct : ChoiceTable) (bias : option nat) : Gen nat :=
  bias ← match bias with Some b => mret b | None => pick (ct_calls ct) end;
  ok ← liftRes (Generatable ct bias);
  if negb (ok : bool) then gen_panic
  else
    match ct_runs ct !! bias with
    | Some (Some run) =>
        total ← liftRes (of_option (last run));
        x ← Intn total;
        let x := i32 (x + 1) in
        let res := Z.to_nat (sortSearch (Z.of_nat (length run))
                     (λ i, bool_decide (x ≤ nth (Z.to_nat i) run 0))) in
        ok ← liftRes (Generatable ct res);
        if negb (ok : bool) then gen_panic else mret res
    | _ => gen_panic
    end.

(** ** Lemmas on matrices *)

Definition square (n : nat) (prios : list (list Z)) : Prop :=
  length prios = n ∧ ∀ i row, prios !! i = Some row → length row = n.

(** The entry of a square matrix. *)
Definition entry (prios : list (list Z)) (i j : nat) : Z :=
  default 0 (prios !! i ≫= λ row, row !! j).

(** The loops that fill a matrix are sequences of additions. *)
Local Notation update := (nat * nat * Z)%type.

Fixpoint applyUpdates (us : list update) (prios : list (list Z)) : res (list (list Z)) :=
  match us with
  | [] => Ret prios
  | (i, j, d) :: us => prios ← updateAt prios i j (λ p, i32 (p + d)); applyUpdates us prios
  end.

(** What they add to an entry. *)
Fixpoint sumAt (us : list update) (i j : nat) : Z :=
  match us with
  | [] => 0
  | (i', j', d) :: us => (if bool_decide (i' = i ∧ j' = j) then d else 0) + sumAt us i j
  end.

Lemma applyUpdates_app us1 us2 prios :
  applyUpdates (us1 ++ us2) prios = (p ← applyUpdates us1 prios; applyUpdates us2 p).
Proof.
  revert prios. induction us1 as [|[[i j] d] us1 IH]; intros prios; [done|]. simpl.
  destruct (updateAt prios i j _) as [p| |]; [|done..]. apply IH.
Qed.

Lemma sumAt_app us1 us2 i j : sumAt (us1 ++ us2) i j = sumAt us1 i j + sumAt us2 i j.
Proof. induction us1 as [|[[i' j'] d] us1 IH]; simpl; [done|]. rewrite IH. lia. Qed.

Lemma forEach_updates {A} (l : list A) body (us : A → list update) prios :
  (∀ x p, x ∈ l → body x p = applyUpdates (us x) p) →
  forEach l body prios = applyUpdates (concat (us <$> l)) prios.
Proof.
  revert prios. induction l as [|x l IH]; intros prios Hb; [done|]. rewrite fmap_cons. simpl.
  rewrite applyUpdates_app, Hb by left. destruct (applyUpdates (us x) prios) as [p| |]; [|done..].
  apply IH. intros y p' Hy. apply Hb. by right.
Qed.

Lemma entry_lookup n prios i j : square n prios → (i < n)%nat → (j < n)%nat →
  ∃ row, prios !! i = Some row ∧ length row = n ∧ row !! j = Some (entry prios i j).
Proof.
  intros [Hl Hr] Hi Hj. destruct (lookup_lt_is_Some_2 prios i) as [row Hrow]; [lia|].
  exists row. pose proof (Hr _ _ Hrow) as Hrl. split; [done|]. split; [done|]. unfold entry. rewrite Hrow.
  simpl. destruct (lookup_lt_is_Some_2 row j) as [p Hp]; [lia|]. by rewrite Hp.
Qed.

Lemma i32_add_l a b : i32 (i32 a + b) = i32 (a + b).
Proof.
  unfold i32. f_equal.
  replace ((a + 2 ^ 31) `mod` 2 ^ 32 - 2 ^ 31 + b + 2 ^ 31) with ((a + 2 ^ 31) `mod` 2 ^ 32 + b) by lia.
  rewrite Zplus_mod_idemp_l. f_equal. lia.
Qed.

Lemma i32_idemp a : i32 (i32 a) = i32 a.
Proof. rewrite <- (Z.add_0_r a) at 2. rewrite <- i32_add_l. by rewrite Z.add_0_r. Qed.

Lemma updateAt_spec n prios i j f : square n prios → (i < n)%nat → (j < n)%nat →
  ∃ prios', updateAt prios i j f = Ret prios' ∧ square n prios' ∧
    ∀ i' j', entry prios' i' j' =
      if bool_decide (i = i' ∧ j = j') then f (entry prios i' j') else entry prios i' j'.
Proof.
  intros Hsq Hi Hj. destruct (entry_lookup n prios i j Hsq Hi Hj) as (row & Hrow & Hrl & Hp).
  unfold updateAt. rewrite Hrow. cbn [mbind res_bind of_option]. rewrite Hp. cbn [mbind res_bind of_option].
  eexists. split; [done|]. destruct Hsq as [Hl Hr]. split.
  - split; [by rewrite length_insert|].
    intros k row' [(-> & <- & _)|[_ Hk]]%list_lookup_insert_Some; [by rewrite length_insert|by eapply Hr].
  - intros i' j'. unfold entry at 1. destruct (decide (i = i')) as [<-|Hne].
    + rewrite list_lookup_insert_eq by lia. simpl. destruct (decide (j = j')) as [<-|Hnj].
      * rewrite list_lookup_insert_eq by lia. by rewrite bool_decide_true.
      * rewrite list_lookup_insert_ne by done. rewrite bool_decide_false by (by intros [_ ?]).
        unfold entry. by rewrite Hrow.
    + rewrite list_lookup_insert_ne by done. by rewrite bool_decide_false by (by intros [? _]).
Qed.

Lemma applyUpdates_spec n us prios : square n prios →
  Forall (λ u, u.1.1 < n ∧ u.1.2 < n)%nat us → (∀ i j, i32 (entry prios i j) = entry prios i j) →
  ∃ prios', applyUpdates us prios = Ret prios' ∧ square n prios' ∧
    ∀ i j, entry prios' i j = i32 (entry prios i j + sumAt us i j).
Proof.
  intros Hsq Hus. revert prios Hsq. induction Hus as [|[[i j] d] us [Hi Hj] _ IH]; intros prios Hsq Hw.
  - exists prios. split; [done|]. split; [done|]. intros i j. by rewrite Z.add_0_r, Hw.
  - destruct (updateAt_spec n prios i j (λ p, i32 (p + d)) Hsq Hi Hj) as (p1 & Hu & Hsq1 & He1).
    destruct (IH p1 Hsq1) as (p2 & Ha & Hsq2 & He2).
    { intros i' j'. rewrite He1. case_bool_decide; [|apply Hw].
      apply i32_idemp. }
    exists p2. simpl. rewrite Hu. split; [done|]. split; [done|]. intros i' j'. rewrite He2, He1.
    case_bool_decide; simpl; [rewrite i32_add_l|]; f_equal; lia.
Qed.

Lemma zeroPrios_square n : square n (zeroPrios n).
Proof.
  split; [apply length_replicate|]. intros i row [-> _]%lookup_replicate. apply length_replicate.
Qed.

Lemma zeroPrios_entry n i j : entry (zeroPrios n) i j = 0.
Proof.
  unfold entry, zeroPrios. destruct (replicate n (replicate n 0) !! i) as [row|] eqn:E; [|done].
  apply lookup_replicate in E as [-> _]. simpl.
  destruct (replicate n 0 !! j) as [p|] eqn:E; [|done]. by apply lookup_replicate in E as [-> _].
Qed.

(** ** The sums behind the priorities *)

Definition staticUpdate (w0 w1 : weights) : list update :=
  if bool_decide (w_call w0 = w_call w1) then []
  else [(w_call w0, w_call w1,
         i32 (Z.quot (i32 (i32 (w_inout w0 * w_in w1) * 3)) 2 + i32 (w_inout w0 * w_inout w1)))].

Definition staticUpdates (ws : list weights) : list update :=
  concat ((λ w0, concat (staticUpdate w0 <$> ws)) <$> ws).

Fixpoint dynamicUpdates (calls : list nat) : list update :=
  match calls with
  | [] => []
  | c0 :: calls => concat ((λ c1, [(c0, c1, 1)]) <$> calls) ++ dynamicUpdates calls
  end.

(** The pairs of calls of a program, the earlier one first. *)
Fixpoint callPairs (calls : list nat) : list (nat * nat) :=
  match calls with
  | [] => []
  | c0 :: calls => ((λ c1, (c0, c1)) <$> calls) ++ callPairs calls
  end.

Definition pairCount (corpus : list (list nat)) (i j : nat) : Z :=
  Z.of_nat (length (filter (λ p, p = (i, j)) (concat (callPairs <$> corpus)))).

Lemma applyUpdates_one i j d prios :
  applyUpdates [(i, j, d)] prios = updateAt prios i j (λ p, i32 (p + d)).
Proof. simpl. by destruct (updateAt prios i j _). Qed.

Lemma staticPair_updates w0 w1 prios : staticPair w0 w1 prios = applyUpdates (staticUpdate w0 w1) prios.
Proof. unfold staticPair, staticUpdate. case_bool_decide; [done|]. by rewrite applyUpdates_one. Qed.

Lemma static_updates uses prios :
  forEach uses (λ ws, forEach ws (λ w0, forEach ws (λ w1, staticPair w0 w1))) prios =
  applyUpdates (concat (staticUpdates <$> uses)) prios.
Proof.
  apply forEach_updates. intros ws p _. apply forEach_updates. intros w0 p' _.
  apply forEach_updates. intros w1 p'' _. apply staticPair_updates.
Qed.

Lemma dynamic_updates corpus prios :
  forEach corpus dynamicCalls prios = applyUpdates (concat (dynamicUpdates <$> corpus)) prios.
Proof.
  apply forEach_updates. intros calls p _. revert p. induction calls as [|c0 calls IH]; intros p; [done|].
  cbn [dynamicCalls dynamicUpdates]. rewrite applyUpdates_app.
  rewrite (forEach_updates calls _ (λ c1, [(c0, c1, 1)])) by (intros; by rewrite applyUpdates_one).
  destruct (applyUpdates _ p) as [p'| |]; [|done..]. apply IH.
Qed.

Lemma sumAt_bound {A} (l : list A) (us : A → list update) i j B :
  (∀ x, x ∈ l → 0 ≤ sumAt (us x) i j ≤ B) →
  0 ≤ sumAt (concat (us <$> l)) i j ≤ B * Z.of_nat (length l).
Proof.
  induction l as [|x l IH]; intros Hb; [simpl; lia|]. rewrite fmap_cons. cbn [concat length]. rewrite sumAt_app.
  assert (0 ≤ sumAt (us x) i j ≤ B) by (apply Hb; left).
  assert (0 ≤ sumAt (concat (us <$> l)) i j ≤ B * Z.of_nat (length l)) by (apply IH; intros; apply Hb; by right).
  lia.
Qed.

(** Of the elements of a loop, only the one with key [k] adds to the entry. *)
Lemma sumAt_unique {A} (l : list A) (us : A → list update) (key : A → nat) k i j B :
  0 ≤ B → NoDup (key <$> l) → (∀ x, x ∈ l → key x ≠ k → sumAt (us x) i j = 0) →
  (∀ x, x ∈ l → 0 ≤ sumAt (us x) i j ≤ B) → 0 ≤ sumAt (concat (us <$> l)) i j ≤ B.
Proof.
  intros HB. induction l as [|x l IH]; intros Hnd Hk Hb; [simpl; lia|]. rewrite fmap_cons in *. cbn [concat]. rewrite sumAt_app.
  apply NoDup_cons in Hnd as [Hx Hnd].
  assert (0 ≤ sumAt (us x) i j ≤ B) by (apply Hb; left). destruct (decide (key x = k)) as [Hkx|Hkx].
  - enough (sumAt (concat (us <$> l)) i j = 0) by lia.
    assert (∀ y, y ∈ l → 0 ≤ sumAt (us y) i j ≤ 0) as Hz.
    { intros y Hy. rewrite (Hk y); [lia|by right|]. intros He. apply Hx. rewrite Hkx, <- He.
      by apply list_elem_of_fmap_2. }
    pose proof (sumAt_bound l us i j 0 Hz). lia.
  - rewrite (Hk x) by (by left || done).
    assert (0 ≤ sumAt (concat (us <$> l)) i j ≤ B) by (apply IH; [done|intros; apply Hk; [by right|done]|intros; apply Hb; by right]).
    lia.
Qed.

(** What [calcResourceUsage] gives under a usage string: one entry per call,
    with weights from 0 to 10. *)
Definition weightOK (n : nat) (w : weights) : Prop :=
  (w_call w < n)%nat ∧ 0 ≤ w_in w ≤ 10 ∧ 0 ≤ w_inout w ≤ 10.

Definition weightsOK (n : nat) (ws : list weights) : Prop :=
  NoDup (w_call <$> ws) ∧ Forall (weightOK n) ws.

Lemma staticUpdate_bound n w0 w1 i j : weightOK n w0 → weightOK n w1 →
  0 ≤ sumAt (staticUpdate w0 w1) i j ≤ 250.
Proof.
  intros (_ & Hi0 & Ho0) (_ & Hi1 & Ho1). unfold staticUpdate. case_bool_decide; [simpl; lia|]. cbn [sumAt].
  assert (0 ≤ w_inout w0 * w_in w1 ≤ 100) by nia. assert (0 ≤ w_inout w0 * w_inout w1 ≤ 100) by nia.
  assert (0 ≤ Z.quot (w_inout w0 * w_in w1 * 3) 2 ≤ 150).
  { rewrite Z.quot_div_nonneg by lia. split; [apply Z.div_pos; lia|apply Z.div_le_upper_bound; lia]. }
  rewrite (i32_id (w_inout w0 * w_in w1)) by lia. rewrite (i32_id (_ * 3)) by lia.
  rewrite (i32_id (w_inout w0 * w_inout w1)) by lia. rewrite i32_id by lia. case_bool_decide; lia.
Qed.

Lemma staticUpdate_other w0 w1 i j : w_call w0 ≠ i ∨ w_call w1 ≠ j → sumAt (staticUpdate w0 w1) i j = 0.
Proof.
  intros Hne. unfold staticUpdate. case_bool_decide; [done|]. cbn [sumAt].
  rewrite bool_decide_false; [done|]. intros [? ?]. destruct Hne; done.
Qed.

Lemma staticUpdates_bound n ws i j : weightsOK n ws → 0 ≤ sumAt (staticUpdates ws) i j ≤ 250.
Proof.
  intros [Hnd Hok]. rewrite Forall_forall in Hok.
  assert (Hin : ∀ w0, w0 ∈ ws → 0 ≤ sumAt (concat (staticUpdate w0 <$> ws)) i j ≤ 250).
  { intros w0 H0. apply (sumAt_unique _ _ w_call j); [lia|done| |].
    - intros w1 _ Hne. apply staticUpdate_other. by right.
    - intros w1 H1. apply (staticUpdate_bound n); by apply Hok. }
  apply (sumAt_unique _ _ w_call i); [lia|done| |done].
  intros w0 H0 Hne.
  assert (∀ w1, w1 ∈ ws → 0 ≤ sumAt (staticUpdate w0 w1) i j ≤ 0) as Hz.
  { intros w1 _. rewrite staticUpdate_other by (by left). lia. }
  pose proof (sumAt_bound ws (staticUpdate w0) i j 0 Hz). lia.
Qed.

Lemma sumAt_pairs (ps : list (nat * nat)) i j :
  sumAt ((λ p : nat * nat, (p.1, p.2, 1)) <$> ps) i j = Z.of_nat (length (filter (λ p, p = (i, j)) ps)).
Proof.
  induction ps as [|[a b] ps IH]; [done|]. rewrite fmap_cons. cbn [sumAt fst snd]. rewrite IH, filter_cons.
  destruct (decide ((a, b) = (i, j))) as [He|He].
  - injection He as -> ->. rewrite bool_decide_true by done. simpl. lia.
  - rewrite bool_decide_false; [lia|]. intros [-> ->]. done.
Qed.

Lemma dynamicUpdates_pairs calls :
  dynamicUpdates calls = (λ p : nat * nat, (p.1, p.2, 1)) <$> callPairs calls.
Proof.
  induction calls as [|c0 calls IH]; [done|]. cbn [dynamicUpdates callPairs].
  rewrite fmap_app, IH. f_equal. clear IH. induction calls as [|c1 calls IH]; [done|].
  rewrite !fmap_cons. simpl. by rewrite IH.
Qed.

Lemma dynamic_sum corpus i j : sumAt (concat (dynamicUpdates <$> corpus)) i j = pairCount corpus i j.
Proof.
  unfold pairCount. rewrite <- sumAt_pairs. f_equal. induction corpus as [|calls corpus IH]; [done|].
  rewrite !fmap_cons. cbn [concat]. by rewrite fmap_app, IH, dynamicUpdates_pairs.
Qed.

Definition inRange (n : nat) (u : update) : Prop := (u.1.1 < n ∧ u.1.2 < n)%nat.

Lemma callPairs_elem calls p : p ∈ callPairs calls → p.1 ∈ calls ∧ p.2 ∈ calls.
Proof.
  induction calls as [|c0 calls IH]; simpl; [by intros ?%not_elem_of_nil|].
  intros [(c1 & -> & Hc1)%list_elem_of_fmap|[H1 H2]%IH]%elem_of_app; simpl; split; by (left || right).
Qed.

Lemma concat_fmap_forall {A B} (P : B → Prop) (f : A → list B) l :
  (∀ x, x ∈ l → Forall P (f x)) → Forall P (concat (f <$> l)).
Proof.
  induction l as [|x l IH]; intros Hf; [constructor|]. rewrite fmap_cons. cbn [concat]. apply Forall_app.
  split; [apply Hf; left|apply IH; intros; apply Hf; by right].
Qed.

Lemma static_inRange n uses : Forall (weightsOK n) uses → Forall (inRange n) (concat (staticUpdates <$> uses)).
Proof.
  rewrite Forall_forall. intros Hu. apply concat_fmap_forall. intros ws Hws. destruct (Hu _ Hws) as [_ Hok].
  rewrite Forall_forall in Hok. apply concat_fmap_forall. intros w0 H0. apply concat_fmap_forall. intros w1 H1.
  unfold staticUpdate. case_bool_decide; [constructor|]. apply Forall_singleton. split; simpl; by apply Hok.
Qed.

Lemma dynamic_inRange n corpus : Forall (Forall (λ c, c < n)%nat) corpus →
  Forall (inRange n) (concat (dynamicUpdates <$> corpus)).
Proof.
  rewrite Forall_forall. intros Hc. apply concat_fmap_forall. intros calls Hcalls. rewrite dynamicUpdates_pairs.
  apply Forall_forall. intros u (p & -> & [H1 H2]%callPairs_elem)%list_elem_of_fmap. split; simpl.
  - pose proof (Hc _ Hcalls) as Hall. rewrite Forall_forall in Hall. by apply Hall.
  - pose proof (Hc _ Hcalls) as Hall. rewrite Forall_forall in Hall. by apply Hall.
Qed.

(** ** Normalised priorities *)

Lemma maxPrio_from l m : m ≤ foldl (λ max p, if bool_decide (max < p) then p else max) m l ∧
  ∀ p, p ∈ l → p ≤ foldl (λ max p, if bool_decide (max < p) then p else max) m l.
Proof.
  revert m. induction l as [|q l IH]; intros m; cbn [foldl]; [split; [done|by intros p ?%not_elem_of_nil]|].
  destruct (IH (if bool_decide (m < q) then q else m)) as [H1 H2]. case_bool_decide.
  - split; [lia|]. intros p [->|Hp]%elem_of_cons; [lia|by apply H2].
  - split; [lia|]. intros p [->|Hp]%elem_of_cons; [lia|by apply H2].
Qed.

(** The largest sum that normalisation multiplies without overflow. *)
Definition maxSum : Z := 2169175.

Lemma normalized_range p max : 0 ≤ p ≤ maxSum → p ≤ max → 1 ≤ max →
  prioLow ≤ i32 (prioLow + Z.quot (i32 (p * (prioHigh - prioLow))) max) ≤ prioHigh.
Proof.
  unfold maxSum, prioLow, prioHigh. intros Hp Hpm Hm. rewrite (i32_id (p * _)) by lia.
  rewrite Z.quot_div_nonneg by lia.
  assert (0 ≤ (p * (1000 - 10)) `div` max ≤ 990).
  { split; [apply Z.div_pos; lia|apply Z.div_le_upper_bound; nia]. }
  rewrite i32_id by lia. lia.
Qed.

Lemma normalizePrio_spec n prios : square n prios →
  (∀ i j, (i < n)%nat → (j < n)%nat → 0 ≤ entry prios i j ≤ maxSum) →
  square n (normalizePrio prios) ∧
  ∀ i j, (i < n)%nat → (j < n)%nat → prioLow ≤ entry (normalizePrio prios) i j ≤ prioHigh.
Proof.
  intros Hsq Hb. assert (Hsq' : square n (normalizePrio prios)).
  { destruct Hsq as [Hl Hr]. split; [unfold normalizePrio; by rewrite length_fmap|]. intros i row.
    unfold normalizePrio. rewrite list_lookup_fmap_Some. intros (row0 & -> & Hrow). unfold normalizeRow.
    rewrite length_fmap. by eapply Hr. }
  split; [done|]. intros i j Hi Hj. destruct (entry_lookup n prios i j Hsq Hi Hj) as (row & Hrow & Hrl & Hp).
  assert (entry (normalizePrio prios) i j =
    i32 (prioLow + Z.quot (i32 (entry prios i j * (prioHigh - prioLow))) (maxPrio row))) as ->.
  { unfold entry at 1, normalizePrio. rewrite list_lookup_fmap, Hrow. simpl. unfold normalizeRow.
    by rewrite list_lookup_fmap, Hp. }
  destruct (maxPrio_from row 1) as [H1 H2]. apply normalized_range; [by apply Hb| |done].
  apply H2. by eapply list_elem_of_lookup_2.
Qed.

Definition prioOK (n : nat) (prios : list (list Z)) : Prop :=
  square n prios ∧ (∀ i j, (i < n)%nat → (j < n)%nat → 0 ≤ entry prios i j ≤ prioHigh) ∧
  ∀ i, (i < n)%nat → 9 ≤ entry prios i i.

(** The largest number of usage strings for which the static sums fit. *)
Definition maxUses : Z := 8676.

Lemma calcStaticPriorities_spec n uses : Forall (weightsOK n) uses → Z.of_nat (length uses) ≤ maxUses →
  ∃ prios, calcStaticPriorities n uses = Ret prios ∧ square n prios ∧
    (∀ i j, (i < n)%nat → (j < n)%nat → prioLow ≤ entry prios i j ≤ prioHigh) ∧
    ∀ i, (i < n)%nat → entry prios i i = 900.
Proof.
  intros Hok Hlen. unfold calcStaticPriorities. rewrite static_updates.
  destruct (applyUpdates_spec n (concat (staticUpdates <$> uses)) (zeroPrios n)) as (p1 & Hp1 & Hsq1 & He1);
    [apply zeroPrios_square|by apply static_inRange|intros; by rewrite zeroPrios_entry|].
  assert (Hb1 : ∀ i j, (i < n)%nat → (j < n)%nat → 0 ≤ entry p1 i j ≤ maxSum).
  { intros i j _ _. rewrite He1, zeroPrios_entry. rewrite Forall_forall in Hok.
    pose proof (sumAt_bound uses staticUpdates i j 250 (λ ws Hws, staticUpdates_bound n ws i j (Hok _ Hws))).
    unfold maxUses, maxSum in *. rewrite i32_id; lia. }
  destruct (normalizePrio_spec n p1 Hsq1 Hb1) as [Hsq2 Hb2]. rewrite Hp1. simpl. eexists. split; [done|].
  assert (He : ∀ i j, (i < n)%nat → (j < n)%nat →
    entry (imap (λ c0 pp, <[c0 := Z.quot (prioHigh * 9) 10]> pp) (normalizePrio p1)) i j =
    if bool_decide (i = j) then 900 else entry (normalizePrio p1) i j).
  { intros i j Hi Hj. destruct (entry_lookup n _ i j Hsq2 Hi Hj) as (row & Hrow & Hrl & Hp).
    unfold entry at 1. rewrite list_lookup_imap, Hrow. simpl. case_bool_decide as Hij.
    - subst. by rewrite list_lookup_insert_eq by lia.
    - by rewrite list_lookup_insert_ne, Hp by done. }
  split; [|split].
  - destruct Hsq2 as [Hl Hr]. split; [by rewrite length_imap|]. intros i row.
    rewrite list_lookup_imap_Some. intros (row0 & Hrow & ->). rewrite length_insert. by eapply Hr.
  - intros i j Hi Hj. rewrite He by done. case_bool_decide; [unfold prioLow, prioHigh; lia|by apply Hb2].
  - intros i Hi. rewrite He by done. by rewrite bool_decide_true.
Qed.

Lemma calcDynamicPrio_spec n corpus : Forall (Forall (λ c, c < n)%nat) corpus →
  (∀ i j, pairCount corpus i j ≤ maxSum) →
  ∃ prios, calcDynamicPrio n corpus = Ret prios ∧ square n prios ∧
    ∀ i j, (i < n)%nat → (j < n)%nat → prioLow ≤ entry prios i j ≤ prioHigh.
Proof.
  intros Hc Hcount. unfold calcDynamicPrio. rewrite dynamic_updates.
  destruct (applyUpdates_spec n (concat (dynamicUpdates <$> corpus)) (zeroPrios n)) as (p1 & Hp1 & Hsq1 & He1);
    [apply zeroPrios_square|by apply dynamic_inRange|intros; by rewrite zeroPrios_entry|].
  rewrite Hp1. simpl. eexists. split; [done|]. apply normalizePrio_spec; [done|]. intros i j _ _.
  rewrite He1, zeroPrios_entry, dynamic_sum. specialize (Hcount i j). unfold maxSum, pairCount in *.
  rewrite i32_id; lia.
Qed.

Lemma zip_entry n a b i j : square n a → square n b → (i < n)%nat → (j < n)%nat →
  entry (zip_with (zip_with (λ dst p, Z.quot (i32 (dst * p)) prioHigh)) a b) i j =
  Z.quot (i32 (entry a i j * entry b i j)) prioHigh.
Proof.
  intros Ha Hb Hi Hj. destruct (entry_lookup n a i j Ha Hi Hj) as (ra & Hra & _ & Hpa).
  destruct (entry_lookup n b i j Hb Hi Hj) as (rb & Hrb & _ & Hpb). unfold entry at 1.
  rewrite lookup_zip_with, Hra, Hrb. simpl. rewrite lookup_zip_with, Hpa, Hpb. done.
Qed.

Lemma zip_square {f : Z → Z → Z} n a b : square n a → square n b → square n (zip_with (zip_with f) a b).
Proof.
  intros [Ha Hra] [Hb Hrb]. split; [rewrite length_zip_with; lia|]. intros i row.
  rewrite lookup_zip_with_Some. intros (ra & rb & -> & H1 & H2). rewrite length_zip_with.
  rewrite (Hra _ _ H1), (Hrb _ _ H2). lia.
Qed.

Lemma CalculatePriorities_spec n uses corpus : Forall (weightsOK n) uses → Z.of_nat (length uses) ≤ maxUses →
  Forall (Forall (λ c, c < n)%nat) corpus → (∀ i j, pairCount corpus i j ≤ maxSum) →
  ∃ prios, CalculatePriorities n uses corpus = Ret prios ∧ prioOK n prios.
Proof.
  intros Hok Hlen Hc Hcount.
  destruct (calcStaticPriorities_spec n uses Hok Hlen) as (ps & Hs & Hsqs & Hbs & Hds).
  unfold CalculatePriorities. rewrite Hs. cbn [mbind res_bind]. destruct corpus as [|c corpus].
  { eexists. split; [done|]. split; [done|]. split.
    - intros i j Hi Hj. specialize (Hbs i j Hi Hj). unfold prioLow in Hbs. lia.
    - intros i Hi. rewrite Hds by done. lia. }
  destruct (calcDynamicPrio_spec n (c :: corpus) Hc Hcount) as (pd & Hd & Hsqd & Hbd). rewrite Hd.
  cbn [mbind res_bind]. eexists. split; [done|]. split; [by apply zip_square|].
  unfold prioLow, prioHigh in *. split.
  - intros i j Hi Hj. rewrite (zip_entry n) by done. specialize (Hbs i j Hi Hj). specialize (Hbd i j Hi Hj).
    rewrite i32_id by nia. unfold prioHigh. rewrite Z.quot_div_nonneg by nia.
    split; [apply Z.div_pos; nia|apply Z.div_le_upper_bound; nia].
  - intros i Hi. rewrite (zip_entry n) by done. rewrite Hds by done. specialize (Hbd i i Hi Hi).
    rewrite i32_id by nia. unfold prioHigh. rewrite Z.quot_div_nonneg by nia.
    apply Z.div_le_lower_bound; nia.
Qed.

(** ** The weighted choice *)

Fixpoint prefixSum (w : nat → Z) (k : nat) : Z :=
  match k with
  | O => 0
  | S k => prefixSum w k + w k
  end.

(** The weight of call [j] next to call [i]. *)
Definition weightOf (syscalls : list SyscallAttrs) (enabled : option (gset nat)) (prios : list (list Z))
    (i j : nat) : Z :=
  if isEnabled syscalls enabled j then entry prios i j else 0.

Lemma prefixSum_mono w n a b : (∀ k, (k < n)%nat → 0 ≤ w k) → (a ≤ b ≤ n)%nat → prefixSum w a ≤ prefixSum w b.
Proof.
  intros Hw [Hab Hbn]. induction Hab as [|b Hab IH]; [done|]. simpl. specialize (Hw b ltac:(lia)).
  assert (prefixSum w a ≤ prefixSum w b) by (apply IH; lia). lia.
Qed.

Lemma prefixSum_le w n k : (∀ k, (k < n)%nat → w k ≤ 1000) → (k ≤ n)%nat → prefixSum w k ≤ 1000 * Z.of_nat k.
Proof.
  intros Hw. induction k as [|k IH]; intros Hk; cbn [prefixSum]; [lia|]. specialize (Hw k ltac:(lia)).
  specialize (IH ltac:(lia)). lia.
Qed.

Lemma runLoop_spec (enabled : nat → bool) (w : nat → Z) n j (row : list Z) :
  (j + length row = n)%nat → Z.of_nat n * 1000 < 2 ^ 31 → (∀ k, (k < n)%nat → 0 ≤ w k ≤ 1000) →
  (∀ k p, row !! k = Some p → w (j + k)%nat = if enabled (j + k)%nat then p else 0) →
  length (runLoop enabled j (prefixSum w j) row) = length row ∧
  ∀ k, (j ≤ k < n)%nat → runLoop enabled j (prefixSum w j) row !! (k - j)%nat = Some (prefixSum w (S k)).
Proof.
  intros Hn Hmax Hw.
  assert (Hwl : ∀ k, (k < n)%nat → 0 ≤ w k) by (intros; by apply Hw).
  assert (Hwu : ∀ k, (k < n)%nat → w k ≤ 1000) by (intros; by apply Hw).
  revert j Hn. induction row as [|p row IH]; intros j Hn Hp.
  { cbn [length] in Hn. split; [done|]. intros k Hk. lia. }
  cbn [length runLoop] in *. cbv zeta.
  assert ((if enabled j then i32 (prefixSum w j + p) else prefixSum w j) = prefixSum w (S j)) as ->.
  { specialize (Hp 0%nat p eq_refl). rewrite Nat.add_0_r in Hp. cbn [prefixSum]. rewrite Hp.
    destruct (enabled j) eqn:Ej; [|lia]. pose proof (Hw j ltac:(lia)) as Hj. rewrite Hp in Hj.
    pose proof (prefixSum_le w n j Hwu ltac:(lia)).
    pose proof (prefixSum_mono w n 0 j Hwl ltac:(lia)). cbn [prefixSum] in *.
    apply i32_id. lia. }
  destruct (IH (S j)) as [Hl Hk]; [lia| |].
  { intros k q Hq. replace (S j + k)%nat with (j + S k)%nat by lia. by apply Hp. }
  split; [by rewrite Hl|]. intros k Hjk. destruct (decide (k = j)) as [->|Hne].
  - by rewrite Nat.sub_diag.
  - replace (k - j)%nat with (S (k - S j)) by lia. apply Hk. lia.
Qed.

(** The first index whose cumulated weight exceeds the draw. *)
Definition firstAbove (n : nat) (w : nat → Z) (x : Z) : nat :=
  Z.to_nat (sortSearch (Z.of_nat n) (λ i, bool_decide (x + 1 ≤ prefixSum w (S (Z.to_nat i))))).

Lemma firstAbove_spec n w x : (∀ k, (k < n)%nat → 0 ≤ w k) → 0 ≤ x < prefixSum w n →
  let k := firstAbove n w x in (k < n)%nat ∧ prefixSum w k ≤ x < prefixSum w (S k).
Proof.
  intros Hw Hx. cbv zeta. unfold firstAbove.
  set (f := λ i, bool_decide (x + 1 ≤ prefixSum w (S (Z.to_nat i)))).
  destruct (sortSearch_spec (Z.of_nat n) f) as (Hr & Hbelow & Habove); [lia| |].
  { intros a b Ha Hab Hb. unfold f. rewrite !bool_decide_eq_true. intros Hfa.
    pose proof (prefixSum_mono w n (S (Z.to_nat a)) (S (Z.to_nat b)) Hw ltac:(lia)). lia. }
  set (r := sortSearch (Z.of_nat n) f) in *.
  assert (Hpos : (0 < n)%nat) by (destruct n; [simpl in Hx|]; lia).
  assert (Hrn : r < Z.of_nat n).
  { destruct (decide (r = Z.of_nat n)) as [He|]; [|lia]. specialize (Hbelow (Z.of_nat (n - 1)) ltac:(lia)).
    unfold f in Hbelow. rewrite Nat2Z.id in Hbelow. apply bool_decide_eq_false in Hbelow.
    replace (S (n - 1)) with n in Hbelow by lia. lia. }
  split; [lia|]. split.
  - destruct (decide (r = 0)) as [->|]; [simpl; lia|]. specialize (Hbelow (r - 1) ltac:(lia)).
    unfold f in Hbelow. apply bool_decide_eq_false in Hbelow.
    replace (S (Z.to_nat (r - 1))) with (Z.to_nat r) in Hbelow by lia. lia.
  - specialize (Habove r ltac:(lia)). unfold f in Habove. apply bool_decide_eq_true in Habove. lia.
Qed.

Lemma sortSearch_ext n f g : (∀ i, 0 ≤ i < n → f i = g i) → sortSearch n f = sortSearch n g.
Proof.
  intros Hfg. unfold sortSearch.
  enough (∀ fuel i j, 0 ≤ i → j ≤ n → searchLoop fuel f i j = searchLoop fuel g i j) as He by (apply He; lia).
  intros fuel. induction fuel as [|fuel IH]; intros i j Hi Hj; [done|]. simpl. case_bool_decide; [|done].
  assert (i ≤ (i + j) `div` 2 < j).
  { split; [apply Z.div_le_lower_bound; lia|apply Z.div_lt_upper_bound; lia]. }
  rewrite Hfg by lia. destruct (g _); apply IH; lia.
Qed.

(** What a table of cumulated weights is. *)
Definition tableOK (n : nat) (enabled : nat → bool) (w : nat → nat → Z) (ct : ChoiceTable) : Prop :=
  ∀ i, (i < n)%nat →
    if enabled i then
      ∃ run, ct_runs ct !! i = Some (Some run) ∧ length run = n ∧
        ∀ k, (k < n)%nat → run !! k = Some (prefixSum (w i) (S k))
    else ct_runs ct !! i = Some None.

Lemma Generatable_ok n enabled w ct i : tableOK n enabled w ct → (i < n)%nat → Generatable ct i = Ret (enabled i).
Proof.
  intros Hok Hi. specialize (Hok i Hi). unfold Generatable. destruct (enabled i).
  - destruct Hok as (run & -> & _). done.
  - by rewrite Hok.
Qed.

Lemma choose_from n enabled w ct i r : tableOK n enabled w ct → (i < n)%nat → enabled i = true →
  Z.of_nat n * 1000 < 2 ^ 31 → (∀ k, (k < n)%nat → 0 ≤ w i k ≤ 1000) →
  (∀ k, (k < n)%nat → enabled k = false → w i k = 0) → 0 < prefixSum (w i) n →
  choose ct (Some i) r = (x ← Intn (prefixSum (w i) n); mret (firstAbove n (w i) x)) r.
Proof.
  intros Hok Hi Hen Hmax Hw Hdis Htotal. pose proof (Hok i Hi) as Hrow. rewrite Hen in Hrow.
  destruct Hrow as (run & Hrun & Hl & Hk).
  assert (Hwl : ∀ k, (k < n)%nat → 0 ≤ w i k) by (intros; by apply Hw).
  assert (Hwu : ∀ k, (k < n)%nat → w i k ≤ 1000) by (intros; by apply Hw).
  assert (Hlast : last run = Some (prefixSum (w i) n)).
  { rewrite last_lookup, Hl, Hk by lia. do 2 f_equal. lia. }
  unfold choose, liftRes, mbind, Gen_bind, mret, Gen_ret. simpl.
  rewrite (Generatable_ok n enabled w ct i Hok Hi), Hen. simpl. rewrite Hrun, Hlast. simpl.
  unfold Intn. rewrite bool_decide_false by lia.
  set (x := draws r (cursor r) `mod` _). assert (0 ≤ x < prefixSum (w i) n) by (by apply Z.mod_pos_bound).
  pose proof (prefixSum_le (w i) n n Hwu ltac:(lia)).
  rewrite (i32_id (x + 1)) by lia. rewrite Hl.
  rewrite (sortSearch_ext _ _ (λ k, bool_decide (x + 1 ≤ prefixSum (w i) (S (Z.to_nat k))))).
  2:{ intros k Hkn. rewrite (nth_lookup_Some _ _ _ _ (Hk (Z.to_nat k) ltac:(lia))). done. }
  fold (firstAbove n (w i) x). destruct (firstAbove_spec n (w i) x Hwl) as [Hlt Hb]; [lia|].
  rewrite (Generatable_ok n enabled w ct _ Hok Hlt).
  destruct (enabled (firstAbove n (w i) x)) eqn:Ef; [done|]. exfalso.
  specialize (Hdis _ Hlt Ef). cbn [prefixSum] in Hb. lia.
Qed.

(** ** Resource usage *)

Definition usageOK (n : nat) (uses : usage) : Prop :=
  map_Forall (λ _ m, map_Forall (λ c w, w_call w = c ∧ weightOK n w) m) uses.

(** The weights as the loops over the maps visit them, in one of the orders. *)
Definition usesOf (uses : usage) : list (list weights) :=
  (λ m : gmap nat weights, (map_to_list m).*2) <$> (map_to_list uses).*2.

Lemma noteUsage_ok n uses c weight out id :
  (c < n)%nat → 0 ≤ weight ≤ 10 → usageOK n uses → usageOK n (noteUsage uses c weight out id).
Proof.
  intros Hc Hw Hok. unfold noteUsage.
  assert (Hm : map_Forall (λ c w, w_call w = c ∧ weightOK n w) (default ∅ (uses !! id))).
  { destruct (uses !! id) eqn:E; [by eapply Hok|apply map_Forall_empty]. }
  assert (Hold : 0 ≤ w_in (default (mkWeights 0 0 0) (default ∅ (uses !! id) !! c)) ≤ 10 ∧
                 0 ≤ w_inout (default (mkWeights 0 0 0) (default ∅ (uses !! id) !! c)) ≤ 10).
  { destruct (default ∅ (uses !! id) !! c) eqn:E; [by apply (Hm _ _ E)|simpl; lia]. }
  apply map_Forall_insert_2; [|done]. apply map_Forall_insert_2; [|done]. split; [done|].
  split; [done|]. cbn [w_in w_inout].
  destruct (negb out && bool_decide _); case_bool_decide; lia.
Qed.

Lemma usesOf_ok n uses : usageOK n uses → Forall (weightsOK n) (usesOf uses).
Proof.
  intros Hok. apply Forall_fmap, Forall_forall. intros m ([id m'] & -> & Hin)%list_elem_of_fmap.
  apply elem_of_map_to_list in Hin. specialize (Hok _ _ Hin). simpl in *. split.
  - rewrite <- list_fmap_compose.
    rewrite (list_fmap_ext _ fst); [apply NoDup_fst_map_to_list|].
    intros k [c w] Hcw%list_elem_of_lookup_2%elem_of_map_to_list. by apply (Hok _ _ Hcw).
  - apply Forall_forall. intros w ([c w'] & -> & Hcw%elem_of_map_to_list)%list_elem_of_fmap.
    by apply (Hok _ _ Hcw).
Qed.

(** ** The table and its choices *)

(** Inputs on which no priority overflows: the calls exist, the weights are
    those of [noteUsage], and the sums stay below the bounds above. *)
Record priosFit (n : nat) (uses : list (list weights)) (corpus : list (list nat)) : Prop := {
  fit_calls : Z.of_nat n * 1000 < 2 ^ 31;
  fit_weights : Forall (weightsOK n) uses;
  fit_uses : Z.of_nat (length uses) ≤ maxUses;
  fit_corpus : Forall (Forall (λ c, c < n)%nat) corpus;
  fit_pairs : ∀ i j, pairCount corpus i j ≤ maxSum;
}.

(** Every call of the corpus is enabled or enabled but not generated. *)
Definition corpusEnabled (syscalls : list SyscallAttrs) (enabled : option (gset nat))
    (corpus : list (list nat)) : Prop :=
  Forall (Forall (λ c, isEnabled syscalls enabled c = true ∨ c ∈ noGenerateCalls syscalls enabled)) corpus.

Lemma weightOf_range n syscalls enabled prios i k : prioOK n prios → (i < n)%nat → (k < n)%nat →
  0 ≤ weightOf syscalls enabled prios i k ≤ 1000.
Proof.
  intros (_ & Hb & _) Hi Hk. specialize (Hb i k Hi Hk). unfold weightOf, prioHigh in *.
  destruct (isEnabled _ _ k); lia.
Qed.

Lemma weightOf_total n syscalls enabled prios i : prioOK n prios → (i < n)%nat →
  isEnabled syscalls enabled i = true → 0 < prefixSum (weightOf syscalls enabled prios i) n.
Proof.
  intros Hok Hi Hen. pose proof Hok as (_ & _ & Hd). specialize (Hd i Hi).
  assert (Hwl : ∀ k, (k < n)%nat → 0 ≤ weightOf syscalls enabled prios i k)
    by (intros; by apply (weightOf_range n)).
  pose proof (prefixSum_mono _ n (S i) n Hwl ltac:(lia)) as H1.
  pose proof (prefixSum_mono _ n 0 i Hwl ltac:(lia)) as H2. cbn [prefixSum] in *.
  unfold weightOf in H1 at 2. rewrite Hen in H1. lia.
Qed.

Lemma build_table syscalls uses corpus enabled :
  let n := length syscalls in
  priosFit n uses corpus → corpusEnabled syscalls enabled corpus →
  (∃ c, (c < n)%nat ∧ isEnabled syscalls enabled c = true) →
  ∃ prios ct enabled', CalculatePriorities n uses corpus = Ret prios ∧ prioOK n prios ∧
    BuildChoiceTable syscalls uses corpus enabled = Ret (ct, enabled') ∧
    ct_calls ct = filter (λ c, isEnabled syscalls enabled c = true) (seq 0 n) ∧
    tableOK n (isEnabled syscalls enabled) (weightOf syscalls enabled prios) ct.
Proof.
  intros n [Hn Hws Huses Hcorpus Hpairs] Hce (c & Hc & Hen).
  destruct (CalculatePriorities_spec n uses corpus Hws Huses Hcorpus Hpairs) as (prios & Hp & Hok).
  unfold BuildChoiceTable. fold n. rewrite bool_decide_false.
  2:{ intros He. assert (c ∈ filter (λ c, isEnabled syscalls enabled c = true) (seq 0 n)) as Hin.
      { apply list_elem_of_filter. split; [done|]. apply elem_of_seq. lia. }
      rewrite He in Hin. by apply not_elem_of_nil in Hin. }
  destruct (existsb _ corpus) eqn:Ex.
  { apply existsb_exists in Ex as (p & Hin%list_elem_of_In & (d & Hd%list_elem_of_In & Hb)%existsb_exists).
    unfold corpusEnabled in Hce. rewrite Forall_forall in Hce. specialize (Hce p Hin).
    rewrite Forall_forall in Hce. apply andb_true_iff in Hb as [H1%negb_true_iff H2%negb_true_iff].
    apply bool_decide_eq_false in H2. destruct (Hce d Hd); congruence. }
  exists prios. rewrite Hp. cbn [mbind res_bind]. do 2 eexists. split; [done|]. split; [done|]. split; [done|].
  split; [done|]. intros i Hi. destruct Hok as (Hsq & Hb & Hdiag).
  destruct (lookup_lt_is_Some_2 prios i) as [row Hrow]; [destruct Hsq; lia|].
  cbn [ct_runs]. rewrite list_lookup_imap, Hrow. simpl. pose proof (proj2 Hsq _ _ Hrow) as Hrl.
  destruct (isEnabled syscalls enabled i) eqn:Ei; [|done]. eexists. split; [done|].
  destruct (runLoop_spec (isEnabled syscalls enabled) (weightOf syscalls enabled prios i) n 0 row) as [Hl Hk];
    [done|done| | |].
  - intros k Hk. by apply (weightOf_range n).
  - intros k p Hpk. unfold weightOf, entry. by rewrite Hrow; simpl; rewrite Hpk.
  - cbn [prefixSum] in Hl, Hk. split; [lia|]. intros k Hkn. specialize (Hk k ltac:(lia)).
    by rewrite Nat.sub_0_r in Hk.
Qed.

Lemma firstAbove_weight n syscalls enabled prios i x : prioOK n prios → (i < n)%nat →
  0 ≤ x < prefixSum (weightOf syscalls enabled prios i) n →
  let k := firstAbove n (weightOf syscalls enabled prios i) x in
  (k < n)%nat ∧ isEnabled syscalls enabled k = true ∧
  prefixSum (weightOf syscalls enabled prios i) k ≤ x < prefixSum (weightOf syscalls enabled prios i) (S k).
Proof.
  intros Hok Hi Hx. cbv zeta.
  destruct (firstAbove_spec n (weightOf syscalls enabled prios i) x) as [Hk Hb]; [|done|].
  { intros k Hk. by apply (weightOf_range n). }
  split; [done|]. split; [|done]. set (k := firstAbove n _ x) in *. cbn [prefixSum] in Hb.
  unfold weightOf in Hb at 3. destruct (isEnabled syscalls enabled k); [done|lia].
Qed.

Lemma choose_none ct : choose ct None = (b ← pick (ct_calls ct); choose ct (Some b)).
Proof. reflexivity. Qed.



(** Normalisation multiplies before it divides, in 32 bits: one more than
    the bound of the priorities that fit gives a result below the range that
    the comment of [normalizePrio] promises. *)
Theorem normalizePrio_overflow :
  normalizePrio [[maxSum; 0]] = [[prioHigh; prioLow]] ∧
  normalizePrio [[maxSum + 1; 0]] = [[-979; prioLow]].
Proof. vm_compute. done. Qed.
