(* ===== verification/ProgTypes.v ===== *)
(** * Types of system call arguments

    [prog/types.go]: the types that the descriptions compile to.  Types refer to
    each other by their index in the table [typeRefs], as the arguments of a
    program do; index 0 is no type.  A method on a type that panics in the code
    gives [Panic]. *)

From Stdlib Require Import Ascii.
From stdpp Require Import base numbers strings list.
From S2P Require Import Prelude Word.

Local Open Scope Z_scope.

Inductive Dir := DirIn | DirOut | DirInOut.

#[global] Instance Dir_eq_dec : EqDecision Dir.
Proof. solve_decision. Defined.

Inductive BinaryFormat := FormatNative | FormatBigEndian | FormatStrDec | FormatStrHex | FormatStrOct.

#[global] Instance BinaryFormat_eq_dec : EqDecision BinaryFormat.
Proof. solve_decision. Defined.

Definition formatVal (f : BinaryFormat) : Z :=
  match f with
  | FormatNative => 0
  | FormatBigEndian => 1
  | FormatStrDec => 2
  | FormatStrHex => 3
  | FormatStrOct => 4
  end.

(** A type is named by its index in the table of types. *)
Notation Ref := nat (only parsing).

Record Field := mkField {
  f_Name : string;
  f_Type : Ref;
  HasDirection : bool;
  Direction : Dir;
}.

Definition fieldDir (f : Field) (def : Dir) : Dir := if HasDirection f then Direction f else def.

Record TypeCommon := mkTC {
  TypeName : string;
  TypeSize : Z;
  TypeAlign : Z;
  IsOptional : bool;
  IsVarlen : bool;
}.

Record IntTypeCommon := mkITC {
  itc_common : TypeCommon;
  ArgFormat : BinaryFormat;
  BitfieldOff : Z;
  BitfieldLen : Z;
  BitfieldUnit : Z;
  BitfieldUnitOff : Z;
}.

Record ResourceDesc := mkResourceDesc {
  rd_Name : string;
  rd_Kind : list string;
  rd_Values : list Z;
}.

Inductive IntKind := IntPlain | IntRange.

Inductive CsumKind := CsumInet | CsumPseudo.

Inductive BufferKind :=
  | BufferBlobRand | BufferBlobRange | BufferString | BufferFilename | BufferText | BufferGlob
  | BufferCompressed.

Inductive TextKind :=
  | TextTarget | TextX86Real | TextX86bit16 | TextX86bit32 | TextX86bit64 | TextArm64 | TextPpc64.

Inductive ArrayKind := ArrayRandLen | ArrayRangeLen.

#[global] Instance IntKind_eq_dec : EqDecision IntKind.
Proof. solve_decision. Defined.

#[global] Instance CsumKind_eq_dec : EqDecision CsumKind.
Proof. solve_decision. Defined.

#[global] Instance BufferKind_eq_dec : EqDecision BufferKind.
Proof. solve_decision. Defined.

#[global] Instance TextKind_eq_dec : EqDecision TextKind.
Proof. solve_decision. Defined.

#[global] Instance ArrayKind_eq_dec : EqDecision ArrayKind.
Proof. solve_decision. Defined.

Inductive Typ :=
  | ResourceType (c : TypeCommon) (fmt : BinaryFormat) (Desc : ResourceDesc)
  | ConstType (c : IntTypeCommon) (Val : Z) (isPad : bool)
  | IntType (c : IntTypeCommon) (Kind : IntKind) (RangeBegin RangeEnd Align : Z)
  | FlagsType (c : IntTypeCommon) (Vals : list Z) (BitMask : bool)
  | LenType (c : IntTypeCommon) (BitSize : Z) (Offset : bool) (Path : list string)
  | ProcType (c : IntTypeCommon) (ValuesStart ValuesPerProc : Z)
  | CsumType (c : IntTypeCommon) (Kind : CsumKind) (Buf : string) (Protocol : Z)
  | VmaType (c : TypeCommon) (RangeBegin RangeEnd : Z)
  | BufferType (c : TypeCommon) (Kind : BufferKind) (RangeBegin RangeEnd : Z) (Text : TextKind)
      (SubKind : string) (Values : list (list Z)) (NoZ : bool)
  | ArrayType (c : TypeCommon) (Elem : Ref) (Kind : ArrayKind) (RangeBegin RangeEnd : Z)
  | PtrType (c : TypeCommon) (Elem : Ref) (ElemDir : Dir)
  | StructType (c : TypeCommon) (Fields : list Field) (AlignAttr : Z) (OverlayField : nat)
  | UnionType (c : TypeCommon) (Fields : list Field).

Definition procDefaultValue : Z := 0xffffffffffffffff.

(** ** Methods of [TypeCommon] and [IntTypeCommon] *)

(** The integer types embed [IntTypeCommon]. *)
Definition intCommon (t : Typ) : option IntTypeCommon :=
  match t with
  | ConstType c _ _ | IntType c _ _ _ _ | FlagsType c _ _ | LenType c _ _ _ | ProcType c _ _
  | CsumType c _ _ _ => Some c
  | _ => None
  end.

Definition typeCommon (t : Typ) : TypeCommon :=
  match t with
  | ConstType c _ _ | IntType c _ _ _ _ | FlagsType c _ _ | LenType c _ _ _ | ProcType c _ _
  | CsumType c _ _ _ => itc_common c
  | ResourceType c _ _ | VmaType c _ _ | BufferType c _ _ _ _ _ _ _ | ArrayType c _ _ _ _
  | PtrType c _ _ | StructType c _ _ _ | UnionType c _ => c
  end.

Definition Name (t : Typ) : string := TypeName (typeCommon t).

(** The part of a string before the first opening bracket. *)
Fixpoint beforeBracket (s : string) : string :=
  match s with
  | EmptyString => EmptyString
  | String c s => if bool_decide (c = "["%char) then EmptyString else String c (beforeBracket s)
  end.

Definition TemplateName (t : Typ) : string := beforeBracket (Name t).

Definition Optional (t : Typ) : bool := IsOptional (typeCommon t).

Definition Varlen (t : Typ) : bool := IsVarlen (typeCommon t).

Definition typSize (t : Typ) : res Z :=
  if IsVarlen (typeCommon t) then Panic else Ret (TypeSize (typeCommon t)).

Definition Format (t : Typ) : BinaryFormat :=
  match t, intCommon t with
  | ResourceType _ fmt _, _ => fmt
  | _, Some c => ArgFormat c
  | _, None => FormatNative
  end.

Definition TypeBitSize (t : Typ) : res Z :=
  match intCommon t with
  | None => Panic
  | Some c =>
      match ArgFormat c with
      | FormatNative | FormatBigEndian =>
          Ret (if bool_decide (BitfieldLen c ≠ 0) then BitfieldLen c
               else u64 (TypeSize (itc_common c) * 8))
      | _ => Ret 64
      end
  end.

Definition BitfieldOffset (t : Typ) : Z :=
  match intCommon t with Some c => BitfieldOff c | None => 0 end.

Definition BitfieldLength (t : Typ) : Z :=
  match intCommon t with Some c => BitfieldLen c | None => 0 end.

Definition UnitSize (t : Typ) : res Z :=
  match intCommon t with
  | Some c => if bool_decide (BitfieldLen c ≠ 0) then Ret (BitfieldUnit c) else typSize t
  | None => typSize t
  end.

Definition UnitOffset (t : Typ) : Z :=
  match intCommon t with Some c => BitfieldUnitOff c | None => 0 end.

Definition IsBitfield (t : Typ) : bool :=
  match intCommon t with Some c => bool_decide (BitfieldLen c ≠ 0) | None => false end.

Definition IsPad (t : Typ) : bool :=
  match t with ConstType _ _ p => p | _ => false end.

Definition isReadableDataType (k : BufferKind) : bool :=
  match k with BufferString | BufferFilename | BufferGlob => true | _ => false end.

(** [Default] of a resource type, the first of its special values. *)
Definition resourceDefault (d : ResourceDesc) : res Z := of_option (head (rd_Values d)).

(** [typeRefs.Load().([]Type)[ref]]. *)
Definition typeOf (typeRefs : list Typ) (ref : Ref) : res Typ :=
  if bool_decide (ref = 0%nat) then Panic else of_option (typeRefs !! ref).
