(* ===== verification/ProgArgs.v ===== *)
(** * Programs and their arguments

    [prog/prog.go] and the default arguments of [prog/types.go].  The arguments
    of a call form a tree in which every node has its own address, [id].  Result
    arguments are different: other arguments point to them and change them, so
    they are objects of a heap, and a leaf of the tree is the address of one.
    A function that makes arguments or changes result arguments takes the heap
    and returns it. *)

From stdpp Require Import base numbers strings gmap list.
From S2P Require Import Prelude Word ProgTypes.

Local Open Scope Z_scope.

Notation id := nat (only parsing).

Record ArgCommon := mkAC {
  a_id : id;
  a_ref : Ref;
  a_dir : Dir;
}.

Inductive Arg :=
  | ConstArg (a : ArgCommon) (Val : Z)
  | PointerArg (a : ArgCommon) (Address VmaSize : Z) (Res : option Arg)
  | DataArg (a : ArgCommon) (data : list Z) (size : Z)
  | GroupArg (a : ArgCommon) (Inner : list Arg)
  | UnionArg (a : ArgCommon) (Option : Arg) (Index : Z)
  | ResultArg (p : id).

(** Induction over trees of arguments. *)
Section ArgInd.

Context (P : Arg → Prop)
  (Hconst : ∀ a v, P (ConstArg a v))
  (Hnil : ∀ a address vmaSize, P (PointerArg a address vmaSize None))
  (Hptr : ∀ a address vmaSize arg, P arg → P (PointerArg a address vmaSize (Some arg)))
  (Hdata : ∀ a data size, P (DataArg a data size))
  (Hgroup : ∀ a inner, Forall P inner → P (GroupArg a inner))
  (Hunion : ∀ a opt index, P opt → P (UnionArg a opt index))
  (Hresult : ∀ p, P (ResultArg p)).

Fixpoint Arg_tree_ind (arg : Arg) : P arg :=
  match arg with
  | ConstArg a v => Hconst a v
  | PointerArg a address vmaSize None => Hnil a address vmaSize
  | PointerArg a address vmaSize (Some arg) => Hptr a address vmaSize arg (Arg_tree_ind arg)
  | DataArg a data size => Hdata a data size
  | GroupArg a inner =>
      Hgroup a inner
        ((fix go (l : list Arg) : Forall P l :=
            match l with
            | [] => Forall_nil_2 P
            | x :: l => Forall_cons_2 P x l (Arg_tree_ind x) (go l)
            end) inner)
  | UnionArg a opt index => Hunion a opt index (Arg_tree_ind opt)
  | ResultArg p => Hresult p
  end.

End ArgInd.

(** The object behind a [*ResultArg]. *)
Record ResultObj := mkResult {
  r_ref : Ref;
  r_dir : Dir;
  r_Res : option id;
  r_OpDiv : Z;
  r_OpAdd : Z;
  r_Val : Z;
  r_uses : gset id;
}.

(** The result objects, and the next address. *)
Record Heap := mkHeap {
  h_next : id;
  h_results : gmap id ResultObj;
}.

Record CallProps := mkProps {
  FailNth : Z;
  Async : bool;
  Rerun : Z;
}.

#[global] Instance CallProps_eq_dec : EqDecision CallProps.
Proof. solve_decision. Defined.

Record Syscall := mkSyscall {
  sc_ID : nat;
  sc_Name : string;
  sc_Args : list Field;
  sc_Ret : option Ref;
  sc_Disabled : bool;
}.

Record Call := mkCall {
  c_Meta : Syscall;
  c_Args : list Arg;
  c_Ret : option id;
  c_Props : CallProps;
}.

Definition maxSpecialPointers : Z := 16.

Record Target := mkTarget {
  typeRefs : list Typ;
  PageSize : Z;
  NumPages : Z;
  DataOffset : Z;
  SpecialPointers : list Z;
  Syscalls : list Syscall;
  anyArray : Ref;
}.

(** ** Heap *)

Definition H (A : Type) : Type := Heap → res (A * Heap).

#[global] Instance H_ret : MRet H := λ A a h, Ret (a, h).

#[global] Instance H_bind : MBind H := λ A B k m h,
  match m h with
  | Ret (a, h') => k a h'
  | Panic => Panic
  | NoFuel => NoFuel
  end.

Definition h_panic {A} : H A := λ _, Panic.

Definition h_lift {A} (m : res A) : H A := λ h, a ← m; Ret (a, h).

(** A new object. *)
Definition h_fresh : H id := λ h, Ret (h_next h, mkHeap (S (h_next h)) (h_results h)).

(** Reading and writing a result object; a nil or dangling pointer panics. *)
Definition h_get (p : id) : H ResultObj := λ h, r ← of_option (h_results h !! p); Ret (r, h).

Definition h_set (p : id) (r : ResultObj) : H unit := λ h,
  Ret (tt, mkHeap (h_next h) (<[p := r]> (h_results h))).

Definition withUses (f : gset id → gset id) (r : ResultObj) : ResultObj :=
  mkResult (r_ref r) (r_dir r) (r_Res r) (r_OpDiv r) (r_OpAdd r) (r_Val r) (f (r_uses r)).

(** ** Constructors *)

(** [t.ref()] of a type that is in the table. *)
Definition MakeConstArg (t : Ref) (dir : Dir) (v : Z) : H Arg :=
  i ← h_fresh; mret (ConstArg (mkAC i t dir) v).

Definition MakePointerArg (t : Ref) (addr : Z) (data : Arg) : H Arg :=
  i ← h_fresh; mret (PointerArg (mkAC i t DirIn) addr 0 (Some data)).

Definition MakeVmaPointerArg (t : Ref) (dir : Dir) (addr size : Z) : H Arg :=
  if bool_decide (addr `mod` 1024 ≠ 0) then h_panic
  else i ← h_fresh; mret (PointerArg (mkAC i t dir) addr size None).

Definition MakeSpecialPointerArg (tbl : list Typ) (t : Ref) (dir : Dir) (index : Z) : H Arg :=
  if bool_decide (maxSpecialPointers ≤ index) then h_panic
  else
    typ ← h_lift (typeOf tbl t);
    let dir := match typ with PtrType _ _ _ => DirIn | _ => dir end in
    i ← h_fresh; mret (PointerArg (mkAC i t dir) (u64 (- index)) 0 None).

Definition MakeDataArg (t : Ref) (dir : Dir) (data : list Z) : H Arg :=
  if bool_decide (dir = DirOut) then h_panic
  else i ← h_fresh; mret (DataArg (mkAC i t dir) data 0).

Definition MakeOutDataArg (t : Ref) (dir : Dir) (size : Z) : H Arg :=
  if bool_decide (dir ≠ DirOut) then h_panic
  else i ← h_fresh; mret (DataArg (mkAC i t dir) [] size).

Definition MakeGroupArg (t : Ref) (dir : Dir) (inner : list Arg) : H Arg :=
  i ← h_fresh; mret (GroupArg (mkAC i t dir) inner).

Definition MakeUnionArg (t : Ref) (dir : Dir) (opt : Arg) (index : Z) : H Arg :=
  i ← h_fresh; mret (UnionArg (mkAC i t dir) opt index).

Definition MakeResultArg (t : Ref) (dir : Dir) (r : option id) (v : Z) : H id :=
  i ← h_fresh;
  _ ← h_set i (mkResult t dir r 0 0 v ∅);
  match r with
  | None => mret i
  | Some p =>
      obj ← h_get p;
      _ ← h_set p (withUses (λ uses, {[ i ]} ∪ uses) obj);
      mret i
  end.

Definition MakeReturnArg (t : option Ref) : H (option id) :=
  match t with
  | None => mret None
  | Some t =>
      i ← h_fresh;
      _ ← h_set i (mkResult t DirOut None 0 0 0 ∅);
      mret (Some i)
  end.

Definition MakeCall (meta : Syscall) (args : list Arg) : H Call :=
  ret ← MakeReturnArg (sc_Ret meta);
  mret (mkCall meta args ret (mkProps 0 false 0)).

(** ** Methods of arguments *)

Definition argRef (h : Heap) (arg : Arg) : res Ref :=
  match arg with
  | ConstArg a _ | PointerArg a _ _ _ | DataArg a _ _ | GroupArg a _ | UnionArg a _ _ => Ret (a_ref a)
  | ResultArg p => r ← of_option (h_results h !! p); Ret (r_ref r)
  end.

Definition argDir (h : Heap) (arg : Arg) : res Dir :=
  match arg with
  | ConstArg a _ | PointerArg a _ _ _ | DataArg a _ _ | GroupArg a _ | UnionArg a _ _ => Ret (a_dir a)
  | ResultArg p => r ← of_option (h_results h !! p); Ret (r_dir r)
  end.

(** The address of an argument, the key of the maps from arguments. *)
Definition argId (arg : Arg) : id :=
  match arg with
  | ConstArg a _ | PointerArg a _ _ _ | DataArg a _ _ | GroupArg a _ | UnionArg a _ _ => a_id a
  | ResultArg p => p
  end.

Definition argType (tbl : list Typ) (h : Heap) (arg : Arg) : res Typ :=
  ref ← argRef h arg; typeOf tbl ref.

(** [Value] of a constant: the value and the stride of processes. *)
Definition constValue (typ : Typ) (val : Z) : res (Z * Z) :=
  match typ with
  | IntType _ _ _ _ _ | ConstType _ _ _ | FlagsType _ _ _ | LenType _ _ _ _ | ResourceType _ _ _ =>
      Ret (val, 0)
  | CsumType _ _ _ _ => Ret (0, 0)
  | ProcType _ start perProc =>
      Ret (if bool_decide (val = procDefaultValue) then (0, 0) else (u64 (start + val), perProc))
  | _ => Panic
  end.

Definition IsSpecial (address vmaSize : Z) (pointee : option Arg) : bool :=
  bool_decide (vmaSize = 0) && match pointee with None => true | Some _ => false end &&
  bool_decide (u64 (- address) < maxSpecialPointers).

Definition PhysicalAddr (target : Target) (address vmaSize : Z) (pointee : option Arg) : res Z :=
  if IsSpecial address vmaSize pointee then of_option (SpecialPointers target !! Z.to_nat (u64 (- address)))
  else Ret (u64 (DataOffset target + address)).

(** The loop of [GroupArg.Size] over the fields of a struct with a dynamic size. *)
Fixpoint structSize (alignAttr : Z) (overlay n i : nat) (size offset : Z) (sizes : list Z) : Z :=
  match sizes with
  | [] => size
  | fld :: sizes =>
      let offset := if bool_decide (i = overlay) then 0 else offset in
      let offset := u64 (offset + fld) in
      let offset :=
        if bool_decide (S i = n ∨ S i = overlay) && bool_decide (alignAttr ≠ 0 ∧ offset `mod` alignAttr ≠ 0)
        then u64 (offset + (alignAttr - offset `mod` alignAttr)) else offset in
      structSize alignAttr overlay n (S i) (if bool_decide (size < offset) then offset else size) offset sizes
  end.

Fixpoint argSize (tbl : list Typ) (h : Heap) (arg : Arg) : res Z :=
  match arg with
  | ConstArg a _ | PointerArg a _ _ _ => t ← typeOf tbl (a_ref a); typSize t
  | DataArg _ data size => Ret (if bool_decide (data ≠ []) then Z.of_nat (length data) else size)
  | GroupArg a inner =>
      t ← typeOf tbl (a_ref a);
      if negb (Varlen t) then typSize t
      else
        match t with
        | StructType _ _ alignAttr overlay =>
            sizes ← mapM (argSize tbl h) inner;
            Ret (structSize alignAttr overlay (length inner) 0 0 0 sizes)
        | ArrayType _ _ _ _ _ =>
            sizes ← mapM (argSize tbl h) inner;
            Ret (foldl (λ size s, u64 (size + s)) 0 sizes)
        | _ => Panic
        end
  | UnionArg a opt _ =>
      t ← typeOf tbl (a_ref a);
      if negb (Varlen t) then typSize t else argSize tbl h opt
  | ResultArg p => r ← of_option (h_results h !! p); t ← typeOf tbl (r_ref r); typSize t
  end.

Definition fixedInnerSize (t : Typ) : res bool :=
  match t with
  | StructType _ _ _ _ => Ret true
  | ArrayType _ _ kind b e => Ret (bool_decide (kind = ArrayRangeLen) && bool_decide (b = e))
  | _ => Panic
  end.

(** [Data] of a data argument; the data of an output argument is not there. *)
Definition dataOf (dir : Dir) (data : list Z) : res (list Z) :=
  if bool_decide (dir = DirOut) then Panic else Ret data.

(** The argument behind pointers, [None] for a nil one. *)
Fixpoint InnerArg (tbl : list Typ) (h : Heap) (arg : Arg) : res (option Arg) :=
  t ← argType tbl h arg;
  match t, arg with
  | PtrType _ _ _, PointerArg _ _ _ (Some arg') => InnerArg tbl h arg'
  | PtrType _ _ _, PointerArg _ _ _ None => Ret None
  | PtrType _ _ _, _ => Panic
  | _, _ => Ret (Some arg)
  end.

(** A loop that returns false at the first element that is not [f]. *)
Definition allM {A} (f : A → res bool) : list A → res bool :=
  fix go l :=
    match l with
    | [] => Ret true
    | x :: l => b ← f x; if b : bool then go l else Ret false
    end.

(** ** Default arguments *)

Definition isDefaultResult (d : ResourceDesc) (r : ResultObj) : res bool :=
  if bool_decide (r_Res r = None ∧ r_OpDiv r = 0 ∧ r_OpAdd r = 0 ∧ r_uses r = ∅)
  then v ← resourceDefault d; Ret (bool_decide (r_Val r = v))
  else Ret false.

Definition isDefaultData (t : Typ) (values : list (list Z)) (dir : Dir) (data : list Z) (size : Z) : res bool :=
  sz ← (if Varlen t then Ret 0 else typSize t);
  if bool_decide ((if bool_decide (data ≠ []) then Z.of_nat (length data) else size) ≠ sz) then Ret false
  else if bool_decide (dir = DirOut) then Ret true
  else
    data ← dataOf dir data;
    match values with
    | [v] => Ret (bool_decide (data = v))
    | _ => Ret (forallb (λ b, bool_decide (b = 0)) data)
    end.

(** [isDefault]: the type of the argument decides; an argument of another kind
    fails the type assertion. *)
Fixpoint isDefault (tbl : list Typ) (h : Heap) (arg : Arg) : res bool :=
  t ← argType tbl h arg;
  match t, arg with
  | ResourceType _ _ d, ResultArg p => r ← of_option (h_results h !! p); isDefaultResult d r
  | ConstType _ v _, ConstArg _ val => Ret (bool_decide (val = v))
  | (IntType _ _ _ _ _ | FlagsType _ _ _ | LenType _ _ _ _ | CsumType _ _ _ _), ConstArg _ val =>
      Ret (bool_decide (val = 0))
  | ProcType _ _ _, ConstArg _ val => Ret (bool_decide (val = procDefaultValue))
  | VmaType _ _ _, PointerArg _ address vmaSize pointee =>
      Ret (IsSpecial address vmaSize pointee && bool_decide (address = 0))
  | BufferType _ _ _ _ _ _ values _, DataArg a data size => isDefaultData t values (a_dir a) data size
  | ArrayType _ _ _ _ _, GroupArg _ inner =>
      fixed ← fixedInnerSize t;
      if negb fixed && bool_decide (inner ≠ []) then Ret false else allM (isDefault tbl h) inner
  | PtrType c _ _, PointerArg _ address vmaSize pointee =>
      if IsOptional c then Ret (IsSpecial address vmaSize pointee && bool_decide (address = 0))
      else if bool_decide (address = 0) then
        match pointee with None => Ret false | Some arg' => isDefault tbl h arg' end
      else Ret false
  | StructType _ _ _ _, GroupArg _ inner => allM (isDefault tbl h) inner
  | UnionType _ _, UnionArg _ opt index =>
      if bool_decide (index = 0) then isDefault tbl h opt else Ret false
  | _, _ => Panic
  end.

(** A loop that makes one argument per element. *)
Definition mapH {A B} (f : A → H B) : list A → H (list B) :=
  fix go l :=
    match l with
    | [] => mret []
    | x :: l => y ← f x; ys ← go l; mret (y :: ys)
    end.

(** [DefaultArg] follows the types, which may refer to each other; the fuel bounds
    the depth. *)
Fixpoint DefaultArg (fuel : nat) (tbl : list Typ) (t : Ref) (dir : Dir) : H Arg :=
  match fuel with
  | O => λ _, NoFuel
  | S fuel =>
      typ ← h_lift (typeOf tbl t);
      match typ with
      | ResourceType _ _ d =>
          v ← h_lift (resourceDefault d);
          p ← MakeResultArg t dir None v;
          mret (ResultArg p)
      | ConstType _ v _ => MakeConstArg t dir v
      | IntType _ _ _ _ _ | FlagsType _ _ _ | LenType _ _ _ _ | CsumType _ _ _ _ => MakeConstArg t dir 0
      | ProcType _ _ _ => MakeConstArg t dir procDefaultValue
      | VmaType _ _ _ => MakeSpecialPointerArg tbl t dir 0
      | BufferType _ _ _ _ _ _ values _ =>
          if bool_decide (dir = DirOut) then
            sz ← h_lift (if Varlen typ then Ret 0 else typSize typ);
            MakeOutDataArg t dir sz
          else
            data ← match values with
                   | [v] => mret v
                   | _ => if Varlen typ then mret []
                          else sz ← h_lift (typSize typ); mret (replicate (Z.to_nat sz) 0)
                   end;
            MakeDataArg t dir data
      | ArrayType _ elem kind b e =>
          elems ← (if bool_decide (kind = ArrayRangeLen ∧ b = e)
                   then mapH (λ _, DefaultArg fuel tbl elem dir) (seq 0 (Z.to_nat b)) else mret []);
          MakeGroupArg t dir elems
      | PtrType c elem elemDir =>
          if IsOptional c then MakeSpecialPointerArg tbl t dir 0
          else arg ← DefaultArg fuel tbl elem elemDir; MakePointerArg t 0 arg
      | StructType _ fields _ _ =>
          inner ← mapH (λ f, DefaultArg fuel tbl (f_Type f) (fieldDir f dir)) fields;
          MakeGroupArg t dir inner
      | UnionType _ fields =>
          f ← h_lift (of_option (head fields));
          arg ← DefaultArg fuel tbl (f_Type f) (fieldDir f dir);
          MakeUnionArg t dir arg 0
      end
  end.
