(* ===== verification/ProgTree.v ===== *)
(** * Walking, linking, cloning and removing arguments

    [ForeachArg] of [prog/analysis.go] as the list of visits it makes, with the
    base pointer and the offset it computes, the updates of the links between
    result arguments and [RemoveCall] of [prog/prog.go], and [Clone] of
    [prog/clone.go]. *)

From stdpp Require Import base numbers strings gmap list.
From S2P Require Import Prelude Word ProgTypes ProgArgs.

Local Open Scope Z_scope.

(** ** Visits *)

Record visit := mkVisit {
  v_arg : Arg;
  v_base : option Arg;
  v_offset : Z;
}.

Fixpoint foreachArgImpl (tbl : list Typ) (h : Heap) (base : option Arg) (offset : Z) (arg : Arg) :
    res (list visit) :=
  let v := mkVisit arg base offset in
  match arg with
  | GroupArg a inner =>
      t ← typeOf tbl (a_ref a);
      let overlay := match t with StructType _ _ _ overlay => overlay | _ => 0%nat end in
      vs ← (fix go (i : nat) (off : Z) (l : list Arg) : res (list visit) :=
              match l with
              | [] => Ret []
              | arg1 :: l =>
                  let off := if bool_decide (i = overlay) then offset else off in
                  vs ← foreachArgImpl tbl h base off arg1;
                  size ← argSize tbl h arg1;
                  vs' ← go (S i) (u64 (off + size)) l;
                  Ret (vs ++ vs')
              end) 0%nat offset inner;
      Ret (v :: vs)
  | PointerArg _ _ _ (Some arg1) => vs ← foreachArgImpl tbl h (Some arg) 0 arg1; Ret (v :: vs)
  | UnionArg _ opt _ => vs ← foreachArgImpl tbl h base offset opt; Ret (v :: vs)
  | _ => Ret [v]
  end.

Definition ForeachSubArg (tbl : list Typ) (h : Heap) (arg : Arg) : res (list visit) :=
  foreachArgImpl tbl h None 0 arg.

Definition ForeachArg (tbl : list Typ) (h : Heap) (c : Call) : res (list visit) :=
  ret ← match c_Ret c with Some p => foreachArgImpl tbl h None 0 (ResultArg p) | None => Ret [] end;
  args ← mapM (foreachArgImpl tbl h None 0) (c_Args c);
  Ret (ret ++ concat args).

(** ** Links between result arguments *)

Definition deleteUse (q p : id) : H unit :=
  obj ← h_get q; h_set q (withUses (λ uses, uses ∖ {[ p ]}) obj).

Definition replaceResultArg (p p1 : id) : H unit :=
  arg ← h_get p;
  _ ← match r_Res arg with Some q => deleteUse q p | None => mret tt end;
  arg ← h_get p;
  arg1 ← h_get p1;
  _ ← h_set p (withUses (λ _, r_uses arg) arg1);
  match r_Res arg1 with
  | Some q => obj ← h_get q; h_set q (withUses (λ uses, {[ p ]} ∪ (uses ∖ {[ p1 ]})) obj)
  | None => mret tt
  end.

(** A loop without a result. *)
Definition forH {A} (f : A → H unit) : list A → H unit :=
  fix go l :=
    match l with
    | [] => mret tt
    | x :: l => _ ← f x; go l
    end.

(** The default of the type of a result argument, made with [DefaultArg]; the
    order of the loop over the uses shows only in the addresses of the defaults,
    which are dropped. *)
Definition dropUse (tbl : list Typ) (p1 : id) : H unit :=
  arg1 ← h_get p1;
  arg2 ← DefaultArg 1 tbl (r_ref arg1) (r_dir arg1);
  match arg2 with ResultArg p2 => replaceResultArg p1 p2 | _ => h_panic end.

Definition removeVisit (tbl : list Typ) (v : visit) : H unit :=
  match v_arg v with
  | ResultArg p =>
      a ← h_get p;
      _ ← match r_Res a with
          | Some q =>
              obj ← h_get q;
              if bool_decide (p ∈ r_uses obj) then deleteUse q p else h_panic
          | None => mret tt
          end;
      a ← h_get p;
      forH (dropUse tbl) (elements (r_uses a))
  | _ => mret tt
  end.

Definition removeArg (tbl : list Typ) (arg : Arg) : H unit := λ h,
  (vs ← h_lift (ForeachSubArg tbl h arg); forH (removeVisit tbl) vs) h.

Definition RemoveCall (tbl : list Typ) (calls : list Call) (idx : nat) : H (list Call) :=
  c ← h_lift (of_option (calls !! idx));
  _ ← forH (removeArg tbl) (c_Args c);
  _ ← match c_Ret c with Some p => removeArg tbl (ResultArg p) | None => mret tt end;
  mret (take idx calls ++ drop (S idx) calls).

(** ** Cloning *)

(** The map from result arguments to their clones is a second state; [None] is a
    nil map, with which references keep their target. *)
Definition newMap : Type := option (gmap id id).

Definition C (A : Type) : Type := newMap → H (A * newMap).

#[global] Instance C_ret : MRet C := λ A a m, mret (a, m).

#[global] Instance C_bind : MBind C := λ A B k x m, am ← x m; k am.1 am.2.

Definition c_lift {A} (m : H A) : C A := λ nm, a ← m; mret (a, nm).

Definition mapC {A B} (f : A → C B) : list A → C (list B) :=
  fix go l :=
    match l with
    | [] => mret []
    | x :: l => y ← f x; ys ← go l; mret (y :: ys)
    end.

Definition cloneCommon (a : ArgCommon) : C ArgCommon :=
  i ← c_lift h_fresh; mret (mkAC i (a_ref a) (a_dir a)).

Definition cloneResult (p : id) : C id := λ nm,
  a ← h_get p;
  i ← h_fresh;
  r ← h_lift (match r_Res a, nm with
              | Some q, Some m => r ← of_option (m !! q); Ret (Some r)
              | Some q, None => Ret (Some q)
              | None, _ => Ret None
              end);
  _ ← h_set i (mkResult (r_ref a) (r_dir a) r (r_OpDiv a) (r_OpAdd a) (r_Val a) ∅);
  _ ← match r with
      | Some r => obj ← h_get r; h_set r (withUses (λ uses, {[ i ]} ∪ uses) obj)
      | None => mret tt
      end;
  mret (i, (λ m : gmap id id, <[p := i]> m) <$> nm).

Fixpoint clone (arg : Arg) : C Arg :=
  match arg with
  | ConstArg a val => a ← cloneCommon a; mret (ConstArg a val)
  | PointerArg a address vmaSize None => a ← cloneCommon a; mret (PointerArg a address vmaSize None)
  | PointerArg a address vmaSize (Some arg1) =>
      a ← cloneCommon a; arg1 ← clone arg1; mret (PointerArg a address vmaSize (Some arg1))
  | DataArg a data size => a ← cloneCommon a; mret (DataArg a data size)
  | GroupArg a inner => a ← cloneCommon a; inner ← mapC clone inner; mret (GroupArg a inner)
  | UnionArg a opt index => a ← cloneCommon a; opt ← clone opt; mret (UnionArg a opt index)
  | ResultArg p => p ← cloneResult p; mret (ResultArg p)
  end.

Definition cloneCall (c : Call) : C Call :=
  ret ← match c_Ret c with Some p => p ← cloneResult p; mret (Some p) | None => mret None end;
  args ← mapC clone (c_Args c);
  mret (mkCall (c_Meta c) args ret (c_Props c)).

Definition cloneCalls (calls : list Call) : C (list Call) := mapC cloneCall calls.

(** [Clone] of a program. *)
Definition Clone (calls : list Call) : H (list Call) :=
  r ← cloneCalls calls (Some ∅); mret r.1.
