(* ===== verification/ProgValidate.v ===== *)
(** * Validation of programs

    [prog/validation.go]: what a program has to satisfy.  Validation returns the
    first error it finds, or nothing; its context collects the arguments it has
    seen and, for each argument that uses a result, the used one. *)

From stdpp Require Import base numbers strings gmap list.
From S2P Require Import Prelude Word ProgTypes ProgArgs ProgTree.

Local Open Scope Z_scope.

(** ** File names *)

Definition slash : Z := 47.

Definition dot : Z := 46.

(** The components of a path. *)
Fixpoint splitSlash (s : list Z) : list (list Z) :=
  match s with
  | [] => [[]]
  | c :: s =>
      if bool_decide (c = slash) then [] :: splitSlash s
      else match splitSlash s with
           | [] => [[c]]
           | w :: ws => (c :: w) :: ws
           end
  end.

(** [filepath.Clean] on the components; [out] holds the result in reverse. *)
Fixpoint cleanLoop (rooted : bool) (out ws : list (list Z)) : list (list Z) :=
  match ws with
  | [] => reverse out
  | w :: ws =>
      if bool_decide (w = [] ∨ w = [dot]) then cleanLoop rooted out ws
      else if bool_decide (w = [dot; dot]) then
        match out with
        | last :: rest =>
            if bool_decide (last = [dot; dot]) then cleanLoop rooted (w :: out) ws
            else cleanLoop rooted rest ws
        | [] => cleanLoop rooted (if rooted then [] else [w]) ws
        end
      else cleanLoop rooted (w :: out) ws
  end.

Fixpoint joinSlash (ws : list (list Z)) : list Z :=
  match ws with
  | [] => []
  | [w] => w
  | w :: ws => w ++ slash :: joinSlash ws
  end.

(** [filepath.Clean]. *)
Definition Clean (path : list Z) : list Z :=
  let rooted := bool_decide (head path = Some slash) in
  let ws := cleanLoop rooted [] (splitSlash path) in
  if rooted then slash :: joinSlash ws
  else match ws with [] => [dot] | _ => joinSlash ws end.

Definition escapingFilename (file : list Z) : bool :=
  match Clean file with
  | c :: rest =>
      bool_decide (c = slash) || bool_decide (c = dot) && bool_decide (head rest = Some dot)
  | [] => false
  end.

(** ** Errors and context *)

Inductive verror :=
  | EDisabled | ERerunFailNth | EArgCount | ERetWithoutType | ERetAbsent | ERetNotEmpty
  | ETwice | EDir | EType | EOutInt | EProc | ECsum | EConstType | EOutDefault
  | EResultType | EBrokenUses | EOutResource | EOutOfTree | EBrokenLink | EUsedIn | EUsedSize
  | EDataType | EOutData | EDataSize | EStringSize | EEscaping
  | EFields | EElements | EGroupType | EUnionType | EUnionIndex
  | EVmaData | EPtrSize | EPtrDir | EPtrType | ESpecial | EAddress | EUseOutOfTree.

Record validCtx := mkCtx {
  vc_args : gset id;
  vc_uses : gmap id id;
}.

(** A step of validation: an error, or the context after it. *)
Definition V : Type := validCtx → res (verror + validCtx).

Definition v_ok : V := λ ctx, Ret (inr ctx).

Definition v_err (e : verror) : V := λ _, Ret (inl e).

Definition v_seq (m k : V) : V := λ ctx,
  r ← m ctx; match r with inl e => Ret (inl e) | inr ctx => k ctx end.

(** [if b { return err }]. *)
Definition v_check (b : bool) (e : verror) : V := if b then v_err e else v_ok.

Definition v_all {A} (f : A → V) : list A → V :=
  fix go l :=
    match l with
    | [] => v_ok
    | x :: l => v_seq (f x) (go l)
    end.

(** ** Arguments *)

Definition validateConst (tbl : list Typ) (h : Heap) (t : Typ) (arg : Arg) (dir : Dir) (val : Z) : V :=
  v_seq
    (match t with
     | IntType _ _ _ _ _ => λ ctx,
         if bool_decide (dir = DirOut) then
           d ← isDefault tbl h arg; v_check (negb d) EOutInt ctx
         else v_ok ctx
     | ProcType _ _ perProc => λ ctx,
         if bool_decide (perProc ≤ val) then
           d ← isDefault tbl h arg; v_check (negb d) EProc ctx
         else v_ok ctx
     | CsumType _ _ _ _ => v_check (bool_decide (val ≠ 0)) ECsum
     | ConstType _ _ _ | FlagsType _ _ _ | LenType _ _ _ _ => v_ok
     | _ => v_err EConstType
     end)
    (if bool_decide (dir = DirOut) then
       match t with
       | LenType _ _ _ _ => v_ok
       | _ => λ ctx, d ← isDefault tbl h arg; v_check (negb d) EOutDefault ctx
       end
     else v_ok).

Definition validateUse (h : Heap) (p u : id) : V := λ ctx,
  obj ← of_option (h_results h !! u);
  if bool_decide (r_Res obj ≠ Some p) then Ret (inl EBrokenUses)
  else Ret (inr (mkCtx (vc_args ctx) (<[u := p]> (vc_uses ctx)))).

Definition validateResult (tbl : list Typ) (h : Heap) (t : Typ) (p : id) (r : ResultObj) : V :=
  match t with
  | ResourceType _ _ d =>
      v_seq (v_all (validateUse h p) (elements (r_uses r)))
      (v_seq
        (if bool_decide (r_dir r = DirOut ∧ r_Val r ≠ 0) then λ ctx,
           def ← resourceDefault d; v_check (bool_decide (r_Val r ≠ def)) EOutResource ctx
         else v_ok)
      (v_seq
        (match r_Res r with
         | Some q => λ ctx,
             if bool_decide (q ∉ vc_args ctx) then Ret (inl EOutOfTree)
             else
               obj ← of_option (h_results h !! q);
               v_check (bool_decide (p ∉ r_uses obj)) EBrokenLink ctx
         | None => v_ok
         end)
      (v_seq
        (v_check (bool_decide (r_dir r = DirIn ∧ r_uses r ≠ ∅)) EUsedIn)
        (if bool_decide (r_uses r ≠ ∅) then λ ctx,
           size ← typSize t; v_check (bool_decide (8 < size)) EUsedSize ctx
         else v_ok))))
  | _ => v_err EResultType
  end.

Definition validateData (t : Typ) (dir : Dir) (data : list Z) (size : Z) : V :=
  let sz := if bool_decide (data ≠ []) then Z.of_nat (length data) else size in
  match t with
  | BufferType c kind _ _ _ _ _ _ =>
      v_seq (v_check (bool_decide (dir = DirOut ∧ data ≠ [])) EOutData)
      (v_seq
        (if Varlen t then v_ok else λ ctx, tsz ← typSize t; v_check (bool_decide (tsz ≠ sz)) EDataSize ctx)
        (match kind with
         | BufferString => v_check (bool_decide (TypeSize c ≠ 0 ∧ sz ≠ TypeSize c)) EStringSize
         | BufferFilename => v_check (escapingFilename data) EEscaping
         | _ => v_ok
         end))
  | _ => v_err EDataType
  end.

Definition isAnyPtr (target : Target) (t : Typ) : bool :=
  match t with PtrType _ elem _ => bool_decide (elem = anyArray target) | _ => false end.

(** The checks of [validateArg] before it calls the method of the argument. *)
Definition validateCommon (target : Target) (h : Heap) (arg : Arg) (typ : Ref) (dir : Dir) : V := λ ctx,
  if bool_decide (argId arg ∈ vc_args ctx) then Ret (inl ETwice)
  else
    t ← argType (typeRefs target) h arg;
    ref ← argRef h arg;
    d ← argDir h arg;
    if bool_decide (d ≠ dir ∧ dir ≠ DirInOut) then Ret (inl EDir)
    else if negb (isAnyPtr target t) && bool_decide (ref ≠ typ) then Ret (inl EType)
    else Ret (inr (mkCtx ({[ argId arg ]} ∪ vc_args ctx) (vc_uses ctx))).

(** Pointers are always in. *)
Definition ptrDir (target : Target) (typ : Ref) (dir : Dir) : res Dir :=
  t ← typeOf (typeRefs target) typ;
  Ret (match t with PtrType _ _ _ => DirIn | _ => dir end).

Definition validateAddress (target : Target) (h : Heap) (address vmaSize : Z) (pointee : option Arg) : V := λ ctx,
  if IsSpecial address vmaSize pointee then
    v_check (bool_decide (Z.of_nat (length (SpecialPointers target)) ≤ u64 (- address))) ESpecial ctx
  else
    let maxMem := u64 (NumPages target * PageSize target) in
    size ← match pointee with
           | Some arg => if bool_decide (vmaSize = 0) then argSize (typeRefs target) h arg else Ret vmaSize
           | None => Ret vmaSize
           end;
    v_check (bool_decide (maxMem ≤ address ∨ maxMem < u64 (address + size))) EAddress ctx.

Fixpoint validateArg (target : Target) (h : Heap) (arg : Arg) (typ : Ref) (dir : Dir) : V := λ ctx,
  dir ← ptrDir target typ dir;
  let tbl := typeRefs target in
  v_seq (validateCommon target h arg typ dir) (λ ctx,
    t ← argType tbl h arg;
    match arg with
    | ConstArg a val => validateConst tbl h t arg (a_dir a) val ctx
    | ResultArg p => r ← of_option (h_results h !! p); validateResult tbl h t p r ctx
    | DataArg a data size => validateData t (a_dir a) data size ctx
    | GroupArg _ inner =>
        match t with
        | StructType _ fields _ _ =>
            if bool_decide (length inner ≠ length fields) then Ret (inl EFields)
            else
              (fix go (l : list Arg) (fs : list Field) : V :=
                 match l, fs with
                 | arg1 :: l, f :: fs =>
                     v_seq (validateArg target h arg1 (f_Type f) (fieldDir f dir)) (go l fs)
                 | _, _ => v_ok
                 end) inner fields ctx
        | ArrayType _ elem kind b e =>
            if bool_decide (kind = ArrayRangeLen ∧ b = e ∧ Z.of_nat (length inner) ≠ b) then Ret (inl EElements)
            else v_all (λ arg1, validateArg target h arg1 elem dir) inner ctx
        | _ => Ret (inl EGroupType)
        end
    | UnionArg _ opt index =>
        match t with
        | UnionType _ fields =>
            if bool_decide (index < 0) then Ret (inl EUnionIndex)
            else match fields !! Z.to_nat index with
                 | Some f => validateArg target h opt (f_Type f) (fieldDir f dir) ctx
                 | None => Ret (inl EUnionIndex)
                 end
        | _ => Ret (inl EUnionType)
        end
    | PointerArg a address vmaSize pointee =>
        v_seq
          (match t with
           | VmaType _ _ _ => v_check (match pointee with Some _ => true | None => false end) EVmaData
           | PtrType _ elem elemDir =>
               v_seq (match pointee with
                      | Some arg1 => validateArg target h arg1 elem elemDir
                      | None => v_ok
                      end)
               (v_seq (v_check (bool_decide (vmaSize ≠ 0)) EPtrSize)
                  (v_check (bool_decide (a_dir a = DirOut)) EPtrDir))
           | _ => v_err EPtrType
           end)
          (validateAddress target h address vmaSize pointee) ctx
    end) ctx.

(** ** Calls and programs *)

Definition validateRet (target : Target) (h : Heap) (c : Call) : V :=
  match sc_Ret (c_Meta c), c_Ret c with
  | None, None => v_ok
  | None, Some _ => v_err ERetWithoutType
  | Some _, None => v_err ERetAbsent
  | Some t, Some p => λ ctx,
      r ← of_option (h_results h !! p);
      v_seq (v_check (bool_decide (r_Res r ≠ None ∨ r_Val r ≠ 0 ∨ r_OpDiv r ≠ 0 ∨ r_OpAdd r ≠ 0)) ERetNotEmpty)
        (validateArg target h (ResultArg p) t DirOut) ctx
  end.

Fixpoint validateArgs (target : Target) (h : Heap) (args : list Arg) (fields : list Field) : V :=
  match args, fields with
  | arg :: args, f :: fields =>
      v_seq (validateArg target h arg (f_Type f) DirIn) (validateArgs target h args fields)
  | _, _ => v_ok
  end.

Definition validateCall (target : Target) (h : Heap) (c : Call) : V :=
  v_seq (v_check (sc_Disabled (c_Meta c)) EDisabled)
  (v_seq (v_check (bool_decide (0 < Rerun (c_Props c) ∧ 0 < FailNth (c_Props c))) ERerunFailNth)
  (v_seq (v_check (bool_decide (length (c_Args c) ≠ length (sc_Args (c_Meta c)))) EArgCount)
  (v_seq (validateArgs target h (c_Args c) (sc_Args (c_Meta c)))
    (validateRet target h c)))).

(** [None] when the program is valid. *)
Definition validate (target : Target) (h : Heap) (calls : list Call) : res (option verror) :=
  r ← v_all (validateCall target h) calls (mkCtx ∅ ∅);
  match r with
  | inl e => Ret (Some e)
  | inr ctx =>
      if forallb (λ u, bool_decide (u ∈ vc_args ctx)) (map_to_list (vc_uses ctx)).*1 then Ret None
      else Ret (Some EUseOutOfTree)
  end.
