(* ===== verification/ProgDefault.v ===== *)
(** * Default arguments are well-typed

    For a table of types that has no cycle through required parts, [DefaultArg]
    terminates, and the argument it makes passes validation against its type and
    is recognised as a default. *)

From stdpp Require Import base numbers strings gmap list.
From S2P Require Import Prelude Word ProgTypes ProgArgs ProgTree ProgValidate.

Local Open Scope Z_scope.

(** ** Tables of types *)

Definition maxMem (target : Target) : Z := u64 (NumPages target * PageSize target).

Definition validRef (target : Target) (ref : Ref) : Prop := ref ≠ 0%nat ∧ is_Some (typeRefs target !! ref).

Definition sumSizes (sz : Ref → Z) (fields : list Field) : Z := foldr (λ f s, sz (f_Type f) + s) 0 fields.

(** What the description compiler gives: [rank] decreases along the parts that a
    default has, and [sz] bounds the size of a default. *)
Definition typeOK (target : Target) (rank : Ref → nat) (sz : Ref → Z) (ref : Ref) (t : Typ) : Prop :=
  0 ≤ sz ref ≤ maxMem target ∧ (Varlen t = false → 0 ≤ TypeSize (typeCommon t) ≤ sz ref) ∧
  match t with
  | ResourceType c _ d => rd_Values d ≠ [] ∧ IsVarlen c = false
  | ConstType _ _ _ | IntType _ _ _ _ _ | FlagsType _ _ _ | LenType _ _ _ _ | ProcType _ _ _
  | CsumType _ _ _ _ | VmaType _ _ _ => Varlen t = false
  | BufferType c kind _ _ _ _ values _ =>
      (IsVarlen c = true → TypeSize c = 0) ∧
      (∀ v, values = [v] → IsVarlen c = false ∧ Z.of_nat (length v) = TypeSize c) ∧
      (kind = BufferFilename → values = [])
  | ArrayType c elem kind b e =>
      kind = ArrayRangeLen → b = e →
      validRef target elem ∧ (rank elem < rank ref)%nat ∧ 0 ≤ b ∧ (IsVarlen c = true → b * sz elem ≤ sz ref)
  | PtrType c elem _ =>
      IsVarlen c = false ∧ (IsOptional c = false → validRef target elem ∧ (rank elem < rank ref)%nat)
  | StructType c fields align _ =>
      0 ≤ align ∧ (∀ f, f ∈ fields → validRef target (f_Type f) ∧ (rank (f_Type f) < rank ref)%nat) ∧
      (IsVarlen c = true → sumSizes sz fields + 2 * align ≤ sz ref)
  | UnionType c fields =>
      ∃ f fs, fields = f :: fs ∧ validRef target (f_Type f) ∧ (rank (f_Type f) < rank ref)%nat ∧
        (IsVarlen c = true → sz (f_Type f) ≤ sz ref)
  end.

Record tableOK (target : Target) (rank : Ref → nat) (sz : Ref → Z) : Prop := {
  tok_types : ∀ ref t, ref ≠ 0%nat → typeRefs target !! ref = Some t → typeOK target rank sz ref t;
  tok_special : SpecialPointers target ≠ [];
  tok_mem : 0 < maxMem target;
}.

(** ** What is shown of a default *)

(** The arguments of a tree have addresses from [lo] up to [hi]. *)
Definition defaultOK (target : Target) (sz : Ref → Z) (h : Heap) (lo hi : id) (arg : Arg) (t : Ref) (dir : Dir) :
    Prop :=
  ∀ h2, h_results h ⊆ h_results h2 →
    (∀ ctx, (∀ i, (lo ≤ i < hi)%nat → i ∉ vc_args ctx) →
       ∃ ctx', validateArg target h2 arg t dir ctx = Ret (inr ctx') ∧ vc_uses ctx' = vc_uses ctx ∧
         ∀ i, i ∈ vc_args ctx' → i ∈ vc_args ctx ∨ (lo ≤ i < hi)%nat) ∧
    isDefault (typeRefs target) h2 arg = Ret true ∧
    ∃ s, argSize (typeRefs target) h2 arg = Ret s ∧ 0 ≤ s ≤ sz t.

(** Addresses of objects are below the next one. *)
Definition heapOK (h : Heap) : Prop := ∀ p, is_Some (h_results h !! p) → (p < h_next h)%nat.

Record extends (h h' : Heap) : Prop := {
  ext_next : (h_next h ≤ h_next h')%nat;
  ext_results : h_results h ⊆ h_results h';
  ext_ok : heapOK h';
}.

Lemma extends_refl h : heapOK h → extends h h.
Proof. by split. Qed.

Lemma extends_trans h1 h2 h3 : extends h1 h2 → extends h2 h3 → extends h1 h3.
Proof. intros [? ? _] [? ? ?]. split; [lia|by etrans|done]. Qed.

Lemma extends_fresh h : heapOK h → extends h (mkHeap (S (h_next h)) (h_results h)).
Proof. intros Hok. split; simpl; [lia|done|]. intros p Hp. specialize (Hok p Hp). simpl. lia. Qed.

Lemma extends_alloc h obj : heapOK h →
  extends h (mkHeap (S (h_next h)) (<[h_next h := obj]> (h_results h))).
Proof.
  intros Hok. split; simpl; [lia| |].
  - apply insert_subseteq. apply eq_None_not_Some. intros Hs. specialize (Hok _ Hs). lia.
  - intros p. simpl. rewrite lookup_insert_is_Some. intros [<-|[_ Hp]]; [lia|]. specialize (Hok _ Hp). lia.
Qed.

Lemma defaultOK_later target sz h h' lo hi arg t dir :
  h_results h ⊆ h_results h' → defaultOK target sz h lo hi arg t dir → defaultOK target sz h' lo hi arg t dir.
Proof. intros Hsub Hd h2 Hh2. apply Hd. by etrans. Qed.

Lemma typeOf_ok tbl ref t : ref ≠ 0%nat → tbl !! ref = Some t → typeOf tbl ref = Ret t.
Proof. intros H0 Ht. unfold typeOf. rewrite bool_decide_false by done. by rewrite Ht. Qed.

Lemma v_seq_ok m k ctx ctx' : m ctx = Ret (inr ctx') → v_seq m k ctx = k ctx'.
Proof. intros Hm. unfold v_seq. by rewrite Hm. Qed.

(** The checks every argument goes through. *)
Lemma validateCommon_ok target h arg ref t dir ctx :
  argId arg ∉ vc_args ctx → argType (typeRefs target) h arg = Ret t → argRef h arg = Ret ref →
  argDir h arg = Ret dir →
  validateCommon target h arg ref dir ctx = Ret (inr (mkCtx ({[ argId arg ]} ∪ vc_args ctx) (vc_uses ctx))).
Proof.
  intros Hid Ht Href Hdir. unfold validateCommon. rewrite bool_decide_false by done.
  rewrite Ht, Href, Hdir. cbn [mbind res_bind]. rewrite bool_decide_false by naive_solver.
  rewrite (bool_decide_false (ref ≠ ref)) by naive_solver. by rewrite andb_false_r.
Qed.

(** ** Leaves *)

Section Leaves.

Context (target : Target) (rank : Ref → nat) (sz : Ref → Z) (Htable : tableOK target rank sz).

Local Notation tbl := (typeRefs target).

Definition isPtrType (t : Typ) : bool := match t with PtrType _ _ _ => true | _ => false end.

Lemma ptrDir_ok ref t dir : ref ≠ 0%nat → tbl !! ref = Some t →
  ptrDir target ref dir = Ret (if isPtrType t then DirIn else dir).
Proof. intros H0 Ht. unfold ptrDir. rewrite (typeOf_ok _ _ _ H0 Ht). by destruct t. Qed.

(** Validation of an argument of the right type and direction comes down to the
    method of the argument, with its address noted. *)
Lemma validateArg_method h arg ref t dir ctx :
  ref ≠ 0%nat → tbl !! ref = Some t → argRef h arg = Ret ref →
  argDir h arg = Ret (if isPtrType t then DirIn else dir) → argId arg ∉ vc_args ctx →
  validateArg target h arg ref dir ctx =
  (let dir := if isPtrType t then DirIn else dir in
   let ctx := mkCtx ({[ argId arg ]} ∪ vc_args ctx) (vc_uses ctx) in
   match arg with
   | ConstArg a val => validateConst tbl h t arg (a_dir a) val ctx
   | ResultArg p => r ← of_option (h_results h !! p); validateResult tbl h t p r ctx
   | DataArg a data size => validateData t (a_dir a) data size ctx
   | GroupArg _ inner =>
       match t with
       | StructType _ fields _ _ =>
           if bool_decide (length inner ≠ length fields) then Ret (inl EFields)
           else
             (fix go (l : list Arg) (fs : list Field) : V :=
                match l, fs with
                | arg1 :: l, f :: fs =>
                    v_seq (validateArg target h arg1 (f_Type f) (fieldDir f dir)) (go l fs)
                | _, _ => v_ok
                end) inner fields ctx
       | ArrayType _ elem kind b e =>
           if bool_decide (kind = ArrayRangeLen ∧ b = e ∧ Z.of_nat (length inner) ≠ b) then Ret (inl EElements)
           else v_all (λ arg1, validateArg target h arg1 elem dir) inner ctx
       | _ => Ret (inl EGroupType)
       end
   | UnionArg _ opt index =>
       match t with
       | UnionType _ fields =>
           if bool_decide (index < 0) then Ret (inl EUnionIndex)
           else match fields !! Z.to_nat index with
                | Some f => validateArg target h opt (f_Type f) (fieldDir f dir) ctx
                | None => Ret (inl EUnionIndex)
                end
       | _ => Ret (inl EUnionType)
       end
   | PointerArg a address vmaSize pointee =>
       v_seq
         (match t with
          | VmaType _ _ _ => v_check (match pointee with Some _ => true | None => false end) EVmaData
          | PtrType _ elem elemDir =>
              v_seq (match pointee with
                     | Some arg1 => validateArg target h arg1 elem elemDir
                     | None => v_ok
                     end)
              (v_seq (v_check (bool_decide (vmaSize ≠ 0)) EPtrSize)
                 (v_check (bool_decide (a_dir a = DirOut)) EPtrDir))
          | _ => v_err EPtrType
          end)
         (validateAddress target h address vmaSize pointee) ctx
   end).
Proof.
  intros H0 Ht Href Hdir Hid.
  assert (Hty : argType tbl h arg = Ret t) by (unfold argType; rewrite Href; by apply typeOf_ok).
  assert (Hc := validateCommon_ok target h arg ref t _ ctx Hid Hty Href Hdir).
  destruct arg; cbn [validateArg]; rewrite (ptrDir_ok _ _ _ H0 Ht); cbn [mbind res_bind];
    rewrite (v_seq_ok _ _ _ _ Hc), Hty; reflexivity.
Qed.

Definition isDefaultVal (t : Typ) (v : Z) : Prop :=
  match t with
  | ConstType _ v' _ => v = v'
  | IntType _ _ _ _ _ | FlagsType _ _ _ | LenType _ _ _ _ | CsumType _ _ _ _ => v = 0
  | ProcType _ _ _ => v = procDefaultValue
  | _ => False
  end.

Lemma default_const h i ref t dir v : ref ≠ 0%nat → tbl !! ref = Some t → isDefaultVal t v →
  defaultOK target sz h i (S i) (ConstArg (mkAC i ref dir) v) ref dir.
Proof using Htable.
  intros H0 Ht Hv h2 Hsub. pose proof (tok_types _ _ _ Htable ref t H0 Ht) as (Hsz & Hstatic & Hvar).
  assert (Hdef : isDefault tbl h2 (ConstArg (mkAC i ref dir) v) = Ret true).
  { cbn [isDefault]. unfold argType, argRef. cbn [mbind res_bind a_ref]. rewrite (typeOf_ok _ _ _ H0 Ht).
    cbn [mbind res_bind]. destruct t; try done; simpl in Hv; subst; by rewrite bool_decide_true. }
  assert (Hptr : isPtrType t = false) by (by destruct t).
  split; [|split; [done|]].
  - intros ctx Hctx. assert (i ∉ vc_args ctx) by (apply Hctx; lia).
    rewrite (validateArg_method h2 _ ref t dir ctx) by (rewrite ?Hptr; done). cbv zeta. cbn [a_dir].
    eexists. split; [|split; [|]].
    + unfold validateConst. destruct t; try done; simpl in Hv; subst;
        unfold v_seq, v_check; repeat case_bool_decide; try done; rewrite ?Hdef; cbn [mbind res_bind negb]; try done.
    + done.
    + simpl. intros j [->%elem_of_singleton|?]%elem_of_union; [right; lia|by left].
  - cbn [argSize a_ref]. rewrite (typeOf_ok _ _ _ H0 Ht). cbn [mbind res_bind]. unfold typSize.
    assert (Hnv : Varlen t = false) by (by destruct t). unfold Varlen in Hnv. rewrite Hnv. eauto.
Qed.

Lemma default_result h i ref c fmt d v dir : ref ≠ 0%nat → tbl !! ref = Some (ResourceType c fmt d) →
  resourceDefault d = Ret v → h_results h !! i = Some (mkResult ref dir None 0 0 v ∅) →
  defaultOK target sz h i (S i) (ResultArg i) ref dir.
Proof using Htable.
  intros H0 Ht Hv Hi h2 Hsub.
  pose proof (tok_types _ _ _ Htable ref _ H0 Ht) as (Hsz & Hstatic & Hvals & Hvar).
  assert (Hi2 : h_results h2 !! i = Some (mkResult ref dir None 0 0 v ∅)) by (by eapply lookup_weaken).
  split; [|split].
  - intros ctx Hctx. assert (i ∉ vc_args ctx) by (apply Hctx; lia).
    rewrite (validateArg_method h2 _ ref _ dir ctx H0 Ht);
      [|cbn [argRef]; by rewrite Hi2|cbn [argDir]; by rewrite Hi2|done].
    cbv zeta. rewrite Hi2. cbn [mbind res_bind of_option validateResult]. eexists. split; [|split].
    + cbn [r_uses r_dir r_Val r_Res]. rewrite elements_empty. cbn [v_all]. unfold v_seq, v_check, v_ok.
      rewrite (bool_decide_false (_ = DirIn ∧ _)) by naive_solver.
      rewrite (bool_decide_false (∅ ≠ ∅)) by naive_solver. rewrite Hv. cbn [mbind res_bind].
      rewrite (bool_decide_false (v ≠ v)) by naive_solver. by destruct (bool_decide _).
    + done.
    + simpl. intros j [->%elem_of_singleton|?]%elem_of_union; [right; lia|by left].
  - cbn [isDefault]. unfold argType, argRef. rewrite Hi2. cbn [mbind res_bind of_option r_ref].
    rewrite (typeOf_ok _ _ _ H0 Ht). cbn [mbind res_bind of_option]. unfold isDefaultResult. cbn [r_Res r_OpDiv r_OpAdd r_uses r_Val].
    rewrite bool_decide_true by done. rewrite Hv. cbn [mbind res_bind]. by rewrite bool_decide_true.
  - cbn [argSize]. rewrite Hi2. cbn [mbind res_bind of_option r_ref]. rewrite (typeOf_ok _ _ _ H0 Ht).
    cbn [mbind res_bind]. unfold typSize. cbn [typeCommon]. rewrite Hvar. eauto.
Qed.

Lemma default_special h i ref t dir : ref ≠ 0%nat → tbl !! ref = Some t →
  match t with VmaType _ _ _ => True | PtrType c _ _ => IsOptional c = true | _ => False end →
  defaultOK target sz h i (S i) (PointerArg (mkAC i ref (if isPtrType t then DirIn else dir)) 0 0 None) ref dir.
Proof using Htable.
  intros H0 Ht Hopt h2 Hsub. pose proof (tok_types _ _ _ Htable ref t H0 Ht) as (Hsz & Hstatic & Hvar).
  pose proof (tok_special _ _ _ Htable) as Hspecial. split; [|split].
  - intros ctx Hctx. assert (i ∉ vc_args ctx) by (apply Hctx; lia).
    rewrite (validateArg_method h2 _ ref t dir ctx) by done. cbv zeta.
    assert (Haddr : ∀ ctx, validateAddress target h2 0 0 None ctx = Ret (inr ctx)).
    { intros ctx'. unfold validateAddress. change (IsSpecial 0 0 None) with true. cbv iota.
      unfold v_check. rewrite bool_decide_false; [done|]. change (u64 (- 0)) with 0.
      destruct (SpecialPointers target); simpl; [done|lia]. }
    eexists. split; [|split].
    + destruct t; try done; simpl in *; unfold v_seq, v_check, v_ok; simpl; by rewrite Haddr.
    + done.
    + simpl. intros j [->%elem_of_singleton|?]%elem_of_union; [right; lia|by left].
  - cbn [isDefault]. unfold argType, argRef. cbn [mbind res_bind a_ref]. rewrite (typeOf_ok _ _ _ H0 Ht).
    destruct t; try done; simpl in *; by rewrite ?Hopt.
  - cbn [argSize a_ref]. rewrite (typeOf_ok _ _ _ H0 Ht). cbn [mbind res_bind]. unfold typSize.
    assert (Hnv : Varlen t = false) by (destruct t; try done; apply Hvar). unfold Varlen in Hnv.
    rewrite Hnv. eauto.
Qed.

Lemma zeros_not_escaping n : escapingFilename (replicate n 0) = false.
Proof.
  assert (Hs : splitSlash (replicate n 0) = [replicate n 0]).
  { induction n as [|n IH]; [done|]. simpl. by rewrite IH. }
  unfold escapingFilename, Clean. rewrite Hs. destruct n as [|[|[|n]]]; [done..|].
  cbn [replicate cleanLoop head]. rewrite (bool_decide_false (Some 0 = Some slash)) by done.
  rewrite bool_decide_false by (intros [?|?]; done). rewrite bool_decide_false by done. done.
Qed.

(** The size of a data argument. *)
Definition dataSize (data : list Z) (size : Z) : Z :=
  if bool_decide (data ≠ []) then Z.of_nat (length data) else size.

Lemma dataSize_in data : dataSize data 0 = Z.of_nat (length data).
Proof. unfold dataSize. by destruct data. Qed.

Lemma default_data h i ref c kind b e text sub values noz dir data size :
  let t := BufferType c kind b e text sub values noz in
  ref ≠ 0%nat → tbl !! ref = Some t →
  dataSize data size = (if IsVarlen c then 0 else TypeSize c) →
  (dir = DirOut → data = []) →
  (dir ≠ DirOut → match values with [v] => data = v | _ => data = replicate (length data) 0 end) →
  defaultOK target sz h i (S i) (DataArg (mkAC i ref dir) data size) ref dir.
Proof using Htable.
  cbv zeta. intros H0 Ht Hsize Hout Hin h2 Hsub.
  pose proof (tok_types _ _ _ Htable ref _ H0 Ht) as (Hsz & Hstatic & Hvar & Hval & Hfile). split; [|split].
  - intros ctx Hctx. assert (i ∉ vc_args ctx) by (apply Hctx; lia).
    rewrite (validateArg_method h2 _ ref _ dir ctx H0 Ht) by done. cbv zeta.
    unfold validateData. cbn [a_dir]. fold (dataSize data size). rewrite Hsize.
    unfold Varlen, typSize. cbn [typeCommon]. eexists. split; [|split].
    + unfold v_seq, v_check, v_ok. rewrite (bool_decide_false (dir = DirOut ∧ data ≠ [])) by naive_solver.
      cbn [mbind res_bind]. assert (Hesc : kind = BufferFilename → escapingFilename data = false).
      { intros Hk. destruct (decide (dir = DirOut)) as [Hd|Hd]; [rewrite Hout by done; done|].
        specialize (Hin Hd). rewrite (Hfile Hk) in Hin. rewrite Hin. apply zeros_not_escaping. }
      destruct (IsVarlen c); cbn [mbind res_bind].
      * destruct kind; rewrite ?Hesc by done; try done. by rewrite bool_decide_false by naive_solver.
      * rewrite (bool_decide_false (TypeSize c ≠ TypeSize c)) by naive_solver.
        destruct kind; rewrite ?Hesc by done; try done. by rewrite bool_decide_false by naive_solver.
    + done.
    + simpl. intros j [->%elem_of_singleton|?]%elem_of_union; [right; lia|by left].
  - cbn [isDefault]. unfold argType, argRef. cbn [mbind res_bind a_ref]. rewrite (typeOf_ok _ _ _ H0 Ht).
    cbn [mbind res_bind a_dir]. unfold isDefaultData. fold (dataSize data size). rewrite Hsize.
    unfold Varlen, typSize. cbn [typeCommon].
    assert ((if IsVarlen c then Ret 0 else if IsVarlen c then Panic else Ret (TypeSize c)) =
            Ret (if IsVarlen c then 0 else TypeSize c)) as -> by (by destruct (IsVarlen c)).
    cbn [mbind res_bind]. rewrite bool_decide_false by naive_solver.
    case_bool_decide as Hd; [done|]. unfold dataOf. rewrite bool_decide_false by done. cbn [mbind res_bind].
    specialize (Hin Hd).
    assert (Hz : data = replicate (length data) 0 → forallb (λ b, bool_decide (b = 0)) data = true).
    { intros ->. clear. generalize (length data). intros n. induction n as [|n IH]; [done|apply IH]. }
    destruct values as [|v [|]]; [by rewrite Hz|by rewrite bool_decide_true|by rewrite Hz].
  - cbn [argSize]. fold (dataSize data size). rewrite Hsize. eexists. split; [done|]. unfold Varlen in Hstatic.
    cbn [typeCommon] in Hstatic. destruct (IsVarlen c); [lia|by apply Hstatic].
Qed.

(** ** Lists of defaults *)

(** Defaults made one after the other, with addresses in sequence. *)
Inductive chain (h : Heap) : id → id → list Arg → list (Ref * Dir) → Prop :=
  | chain_nil lo : chain h lo lo [] []
  | chain_cons lo mid hi arg args td tds :
      (lo ≤ mid)%nat → (mid ≤ hi)%nat → defaultOK target sz h lo mid arg td.1 td.2 →
      chain h mid hi args tds → chain h lo hi (arg :: args) (td :: tds).

Fixpoint validateList (h : Heap) (args : list Arg) (tds : list (Ref * Dir)) : V :=
  match args, tds with
  | arg :: args, td :: tds => v_seq (validateArg target h arg td.1 td.2) (validateList h args tds)
  | _, _ => v_ok
  end.

Lemma chain_later h h' lo hi args tds :
  h_results h ⊆ h_results h' → chain h lo hi args tds → chain h' lo hi args tds.
Proof. intros Hsub. induction 1; econstructor; eauto using defaultOK_later. Qed.

Lemma chain_length h lo hi args tds : chain h lo hi args tds → length args = length tds.
Proof. induction 1; simpl; lia. Qed.

Lemma chain_validate h h2 lo hi args tds : chain h lo hi args tds → h_results h ⊆ h_results h2 →
  ∀ ctx, (∀ i, (lo ≤ i < hi)%nat → i ∉ vc_args ctx) →
  ∃ ctx', validateList h2 args tds ctx = Ret (inr ctx') ∧ vc_uses ctx' = vc_uses ctx ∧
    ∀ i, i ∈ vc_args ctx' → i ∈ vc_args ctx ∨ (lo ≤ i < hi)%nat.
Proof.
  intros Hc Hsub. induction Hc as [lo|lo mid hi arg args td tds Hlo Hhi Hd _ IH]; intros ctx Hctx.
  { exists ctx. split; [done|]. split; [done|]. by left. }
  destruct (Hd h2 Hsub) as [Hv _]. destruct (Hv ctx) as (c1 & H1 & Hu1 & Ha1).
  { intros i Hi. apply Hctx. lia. }
  destruct (IH c1) as (c2 & H2 & Hu2 & Ha2).
  { intros i Hi [Hin|Hin]%Ha1; [|lia]. revert Hin. apply Hctx. lia. }
  exists c2. cbn [validateList]. rewrite (v_seq_ok _ _ _ _ H1). split; [done|]. split; [congruence|].
  intros i [Hin|Hin]%Ha2; [|right; lia]. destruct (Ha1 i Hin); [by left|right; lia].
Qed.

Lemma chain_default h h2 lo hi args tds : chain h lo hi args tds → h_results h ⊆ h_results h2 →
  allM (isDefault tbl h2) args = Ret true.
Proof.
  intros Hc Hsub. induction Hc as [|lo mid hi arg args td tds _ _ Hd _ IH]; [done|]. simpl.
  destruct (Hd h2 Hsub) as (_ & -> & _). done.
Qed.

Lemma chain_sizes h h2 lo hi args tds : chain h lo hi args tds → h_results h ⊆ h_results h2 →
  ∃ sizes, mapM (argSize tbl h2) args = Ret sizes ∧ Forall2 (λ s td, 0 ≤ s ≤ sz td.1) sizes tds.
Proof.
  intros Hc Hsub. induction Hc as [|lo mid hi arg args td tds _ _ Hd _ (sizes & Hm & Hf)].
  { exists []. split; [done|constructor]. }
  destruct (Hd h2 Hsub) as (_ & _ & s & Hs & Hb). exists (s :: sizes). cbn [mapM].
  rewrite Hs. cbn [mbind res_bind]. rewrite Hm. split; [done|]. by constructor.
Qed.

Lemma mapH_chain {A} (f : A → H Arg) (td : A → Ref * Dir) xs :
  (∀ x h, x ∈ xs → heapOK h → ∃ arg h', f x h = Ret (arg, h') ∧ extends h h' ∧
     defaultOK target sz h' (h_next h) (h_next h') arg (td x).1 (td x).2) →
  ∀ h, heapOK h → ∃ args h', mapH f xs h = Ret (args, h') ∧ extends h h' ∧
    chain h' (h_next h) (h_next h') args (td <$> xs).
Proof.
  induction xs as [|x xs IH]; intros Hf h Hok.
  { exists [], h. split; [done|]. split; [by apply extends_refl|constructor]. }
  destruct (Hf x h) as (arg & h1 & H1 & He1 & Hd1); [by left|done|].
  destruct (IH) with (h := h1) as (args & h2 & H2 & He2 & Hc2); [intros; apply Hf; [by right|done]|apply He1|].
  exists (arg :: args), h2. cbn [mapH]. unfold mbind, H_bind. rewrite H1. fold (mapH f xs). rewrite H2.
  split; [done|]. split; [by eapply extends_trans|]. rewrite fmap_cons.
  apply (chain_cons _ _ (h_next h1)); [apply He1|apply He2| |done].
  eapply defaultOK_later; [|done]. apply He2.
Qed.

End Leaves.

(** ** Sizes *)

(** The alignments that are still to come at field [i] of a struct. *)
Definition alignsLeft (overlay n i : nat) : Z :=
  (if bool_decide (i < n)%nat then 1 else 0) + (if bool_decide (i < overlay)%nat then 1 else 0).

Definition sumZ (l : list Z) : Z := foldr Z.add 0 l.

Lemma structSize_bound align overlay n i size offset sizes :
  0 ≤ align → 0 ≤ size → 0 ≤ offset → Forall (λ s, 0 ≤ s) sizes → (i + length sizes = n)%nat →
  offset + sumZ sizes + alignsLeft overlay n i * align < 2 ^ 64 →
  0 ≤ structSize align overlay n i size offset sizes ≤
    Z.max size (offset + sumZ sizes + alignsLeft overlay n i * align).
Proof.
  intros Ha. revert i size offset. induction sizes as [|s sizes IH]; intros i size offset Hs Ho Hf Hn Hlt.
  { simpl. lia. }
  apply Forall_cons in Hf as [Hs0 Hf]. cbn [structSize sumZ foldr length] in *. fold (sumZ sizes) in *. cbv zeta.
  set (off0 := if bool_decide (i = overlay) then 0 else offset).
  assert (Hoff0 : 0 ≤ off0 ≤ offset) by (unfold off0; case_bool_decide; lia).
  assert (Hsum : 0 ≤ sumZ sizes). { clear -Hf. induction Hf; simpl; [lia|]. unfold sumZ in *. lia. }
  assert (Hleft : 0 ≤ alignsLeft overlay n (S i) ∧
    alignsLeft overlay n (S i) + (if bool_decide (S i = n ∨ S i = overlay) then 1 else 0) ≤ alignsLeft overlay n i).
  { unfold alignsLeft. repeat case_bool_decide; lia. }
  set (ev := bool_decide (S i = n ∨ S i = overlay)) in *.
  assert (Hext : alignsLeft overlay n (S i) * align + (if ev then align else 0) ≤ alignsLeft overlay n i * align).
  { destruct ev; nia. }
  assert (0 ≤ alignsLeft overlay n (S i) * align) by nia.
  assert (Hu : u64 (off0 + s) = off0 + s) by (apply u64_id; unfold isU64; destruct ev; lia). rewrite Hu.
  assert (Hstep : ∃ off1, (if ev && bool_decide (align ≠ 0 ∧ (off0 + s) `mod` align ≠ 0)
      then u64 (off0 + s + (align - (off0 + s) `mod` align)) else off0 + s) = off1 ∧
      off0 + s ≤ off1 ≤ off0 + s + (if ev then align else 0)).
  { destruct ev; cbn [andb]; [|exists (off0 + s); lia]. case_bool_decide as Hal; [|exists (off0 + s); lia].
    pose proof (Z.mod_pos_bound (off0 + s) align ltac:(lia)).
    eexists. split; [done|]. rewrite u64_id; [lia|]. unfold isU64. cbv iota in Hext. lia. }
  destruct Hstep as (off1 & -> & Hoff1).
  destruct (IH (S i) (if bool_decide (size < off1) then off1 else size) off1) as [H1 H2];
    [case_bool_decide; lia|lia|done|lia|destruct ev; lia|].
  split; [done|]. destruct ev; case_bool_decide; lia.
Qed.

Lemma arraySize_bound sizes acc : 0 ≤ acc → Forall (λ s, 0 ≤ s) sizes → acc + sumZ sizes < 2 ^ 64 →
  foldl (λ size s, u64 (size + s)) acc sizes = acc + sumZ sizes.
Proof.
  intros Ha Hf. revert acc Ha. induction Hf as [|s sizes Hs Hf IH]; intros acc Ha Hlt; simpl in *; [lia|].
  assert (Hsum : 0 ≤ sumZ sizes). { clear -Hf. induction Hf; simpl; [lia|]. unfold sumZ in *. lia. }
  unfold sumZ in *. rewrite u64_id by (unfold isU64; lia). rewrite IH by lia. lia.
Qed.

(** ** Composite defaults *)

Section Composites.

Context (target : Target) (rank : Ref → nat) (sz : Ref → Z) (Htable : tableOK target rank sz).

Local Notation tbl := (typeRefs target).

Definition fieldTds (dir : Dir) (fields : list Field) : list (Ref * Dir) :=
  (λ f, (f_Type f, fieldDir f dir)) <$> fields.

Lemma validate_fields h dir l fields ctx :
  (fix go (l : list Arg) (fs : list Field) : V :=
     match l, fs with
     | arg1 :: l, f :: fs => v_seq (validateArg target h arg1 (f_Type f) (fieldDir f dir)) (go l fs)
     | _, _ => v_ok
     end) l fields ctx = validateList target h l (fieldTds dir fields) ctx.
Proof.
  revert fields ctx. induction l as [|arg l IH]; intros [|f fields] ctx; try done.
  unfold fieldTds. rewrite fmap_cons. cbn [validateList fst snd]. unfold v_seq.
  destruct (validateArg target h arg (f_Type f) (fieldDir f dir) ctx) as [[e|c]| |]; try done.
  cbn [mbind res_bind]. apply IH.
Qed.

Lemma validate_elems h elem dir l ctx :
  v_all (λ arg1, validateArg target h arg1 elem dir) l ctx =
  validateList target h l (replicate (length l) (elem, dir)) ctx.
Proof.
  revert ctx. induction l as [|arg l IH]; intros ctx; [done|]. cbn [v_all length replicate validateList fst snd].
  unfold v_seq. destruct (validateArg target h arg elem dir ctx) as [[e|c]| |]; try done.
  cbn [mbind res_bind]. apply IH.
Qed.

(** The list of the parts of a group. *)
Definition groupTds (t : Typ) (dir : Dir) : list (Ref * Dir) :=
  match t with
  | StructType _ fields _ _ => fieldTds dir fields
  | ArrayType _ elem kind b e =>
      if bool_decide (kind = ArrayRangeLen ∧ b = e) then replicate (Z.to_nat b) (elem, dir) else []
  | _ => []
  end.

Definition isGroup (t : Typ) : bool :=
  match t with StructType _ _ _ _ | ArrayType _ _ _ _ _ => true | _ => false end.

Lemma sumZ_fields dir fields sizes :
  Forall2 (λ (s : Z) (td : Ref * Dir), 0 ≤ s ≤ sz td.1) sizes (fieldTds dir fields) →
  0 ≤ sumZ sizes ≤ sumSizes sz fields.
Proof.
  unfold fieldTds. revert sizes. induction fields as [|f fields IH]; intros sizes Hf.
  { apply Forall2_nil_inv_r in Hf as ->. simpl. lia. }
  rewrite fmap_cons in Hf. apply Forall2_cons_inv_r in Hf as (s & sizes' & Hs & Hf & ->).
  specialize (IH _ Hf). unfold sumZ, sumSizes in *. simpl in *. lia.
Qed.

Lemma sumZ_elems elem (dir : Dir) k sizes :
  Forall2 (λ (s : Z) (td : Ref * Dir), 0 ≤ s ≤ sz td.1) sizes (replicate k (elem, dir)) →
  0 ≤ sumZ sizes ≤ Z.of_nat k * sz elem.
Proof.
  revert sizes. induction k as [|k IH]; intros sizes Hf.
  { apply Forall2_nil_inv_r in Hf as ->. simpl. lia. }
  apply Forall2_cons_inv_r in Hf as (s & sizes' & Hs & Hf & ->).
  specialize (IH _ Hf). unfold sumZ in *. simpl in *. lia.
Qed.

Lemma sizes_nonneg sizes (tds : list (Ref * Dir)) :
  Forall2 (λ s td, 0 ≤ s ≤ sz td.1) sizes tds → Forall (λ s, 0 ≤ s) sizes.
Proof. induction 1; constructor; [lia|done]. Qed.

Lemma group_size h h2 lo i ref t dir args : ref ≠ 0%nat → tbl !! ref = Some t → isGroup t = true →
  chain target sz h lo i args (groupTds t dir) → h_results h ⊆ h_results h2 →
  ∃ s, argSize tbl h2 (GroupArg (mkAC i ref dir) args) = Ret s ∧ 0 ≤ s ≤ sz ref.
Proof using Htable.
  intros H0 Ht Hg Hc Hsub. pose proof (tok_types _ _ _ Htable ref t H0 Ht) as (Hsz & Hstatic & Hparts).
  assert (Hmem : maxMem target < 2 ^ 64) by (apply u64_range).
  destruct (chain_sizes _ _ _ _ _ _ _ _ Hc Hsub) as (sizes & Hm & Hf).
  pose proof (sizes_nonneg _ _ Hf) as Hnn.
  pose proof (Forall2_length _ _ _ Hf) as Hl1. pose proof (chain_length _ _ _ _ _ _ _ Hc) as Hl2.
  cbn [argSize a_ref]. rewrite (typeOf_ok _ _ _ H0 Ht). cbn [mbind res_bind].
  destruct (Varlen t) eqn:Ev; cbn [negb].
  2:{ specialize (Hstatic eq_refl). unfold typSize. unfold Varlen in Ev. rewrite Ev. eauto. }
  destruct t; try done; rewrite Hm; cbn [mbind res_bind]; (eexists; split; [done|]); unfold Varlen in Ev;
    cbn [typeCommon groupTds] in *.
  - case_bool_decide as Hk.
    + destruct Hk as [-> ->]. destruct (Hparts eq_refl eq_refl) as (_ & _ & Hb & Hbound).
      apply sumZ_elems in Hf. specialize (Hbound Ev). rewrite Z2Nat.id in Hf by lia.
      rewrite arraySize_bound by (done || lia). lia.
    + apply Forall2_nil_inv_r in Hf as ->. simpl. lia.
  - destruct Hparts as (Ha & _ & Hbound). apply sumZ_fields in Hf. specialize (Hbound Ev).
    assert (alignsLeft OverlayField (length args) 0 ≤ 2) by (unfold alignsLeft; repeat case_bool_decide; lia).
    assert (0 ≤ alignsLeft OverlayField (length args) 0) by (unfold alignsLeft; repeat case_bool_decide; lia).
    pose proof (structSize_bound AlignAttr OverlayField (length args) 0 0 0 sizes Ha) as Hs.
    destruct Hs as [Hs1 Hs2]; [lia|lia|done|lia|nia|]. nia.
Qed.

Lemma default_group h lo i ref t dir args : ref ≠ 0%nat → tbl !! ref = Some t → isGroup t = true → (lo ≤ i)%nat →
  chain target sz h lo i args (groupTds t dir) →
  defaultOK target sz h lo (S i) (GroupArg (mkAC i ref dir) args) ref dir.
Proof using Htable.
  intros H0 Ht Hg Hlo Hc h2 Hsub. pose proof (tok_types _ _ _ Htable ref t H0 Ht) as (Hsz & Hstatic & Hparts).
  pose proof (chain_length _ _ _ _ _ _ _ Hc) as Hlen. split; [|split; [|by eapply group_size]].
  - intros ctx Hctx. assert (i ∉ vc_args ctx) by (apply Hctx; lia).
    assert (Hptr : isPtrType t = false) by (by destruct t).
    rewrite (validateArg_method target h2 _ ref t dir ctx) by (rewrite ?Hptr; done). rewrite Hptr. cbv zeta iota.
    destruct (chain_validate _ _ _ h2 _ _ _ _ Hc Hsub (mkCtx ({[ i ]} ∪ vc_args ctx) (vc_uses ctx)))
      as (c1 & H1 & Hu1 & Ha1).
    { intros j Hj [->%elem_of_singleton|Hin]%elem_of_union; [lia|]. revert Hin. apply Hctx. lia. }
    exists c1. split; [|split; [done|]].
    + destruct t; try done; cbn [groupTds] in *.
      * rewrite bool_decide_false.
        2:{ intros (-> & -> & Hne). rewrite bool_decide_true in Hlen by done.
            rewrite length_replicate in Hlen. destruct (Hparts eq_refl eq_refl) as (_ & _ & Hb & _). lia. }
        rewrite validate_elems. rewrite <- H1. f_equal. clear -Hlen.
        case_bool_decide; [rewrite length_replicate in Hlen; by rewrite Hlen|]. by rewrite Hlen.
      * rewrite bool_decide_false by (unfold fieldTds in Hlen; rewrite length_fmap in Hlen; lia).
        rewrite validate_fields. exact H1.
    + intros j [Hj|Hj]%Ha1; [|right; lia]. simpl in Hj.
      apply elem_of_union in Hj as [->%elem_of_singleton|Hj]; [right; lia|by left].
  - cbn [isDefault]. unfold argType, argRef. cbn [mbind res_bind a_ref]. rewrite (typeOf_ok _ _ _ H0 Ht).
    cbn [mbind res_bind]. pose proof (chain_default _ _ _ h2 _ _ _ _ Hc Hsub) as Hall.
    destruct t; try done. cbn [fixedInnerSize mbind res_bind groupTds] in *.
    destruct (bool_decide (Kind = ArrayRangeLen) && bool_decide (RangeBegin = RangeEnd)) eqn:Ef; [done|].
    rewrite bool_decide_false in Hlen.
    2:{ intros [? ?]. rewrite !bool_decide_true in Ef by done. done. }
    by destruct args.
Qed.

Lemma default_union h lo i ref c f fs arg dir : ref ≠ 0%nat → tbl !! ref = Some (UnionType c (f :: fs)) →
  (lo ≤ i)%nat → defaultOK target sz h lo i arg (f_Type f) (fieldDir f dir) →
  defaultOK target sz h lo (S i) (UnionArg (mkAC i ref dir) arg 0) ref dir.
Proof using Htable.
  intros H0 Ht Hlo Hd h2 Hsub.
  pose proof (tok_types _ _ _ Htable ref _ H0 Ht) as (Hsz & Hstatic & f' & fs' & [= <- <-] & _ & _ & Hbound).
  destruct (Hd h2 Hsub) as (Hv & Hdef & s & Hs & Hsb). split; [|split].
  - intros ctx Hctx. assert (i ∉ vc_args ctx) by (apply Hctx; lia).
    rewrite (validateArg_method target h2 _ ref _ dir ctx H0 Ht) by done. cbv zeta iota.
    destruct (Hv (mkCtx ({[ i ]} ∪ vc_args ctx) (vc_uses ctx))) as (c1 & H1 & Hu1 & Ha1).
    { intros j Hj [->%elem_of_singleton|Hin]%elem_of_union; [lia|]. revert Hin. apply Hctx. lia. }
    exists c1. split; [exact H1|]. split; [done|]. intros j [Hj|Hj]%Ha1; [|right; lia]. simpl in Hj.
    apply elem_of_union in Hj as [->%elem_of_singleton|Hj]; [right; lia|by left].
  - cbn [isDefault]. unfold argType, argRef. cbn [mbind res_bind a_ref]. rewrite (typeOf_ok _ _ _ H0 Ht).
    cbn [mbind res_bind]. by rewrite bool_decide_true.
  - cbn [argSize a_ref]. rewrite (typeOf_ok _ _ _ H0 Ht). cbn [mbind res_bind]. unfold Varlen in *.
    cbn [typeCommon] in *. destruct (IsVarlen c) eqn:Ev; cbn [negb].
    + exists s. specialize (Hbound eq_refl). split; [done|lia].
    + unfold typSize. cbn [typeCommon]. rewrite Ev. specialize (Hstatic eq_refl). eauto.
Qed.

Lemma default_pointer h lo i ref c elem elemDir arg dir : ref ≠ 0%nat → tbl !! ref = Some (PtrType c elem elemDir) →
  IsOptional c = false → (lo ≤ i)%nat → validRef target elem → defaultOK target sz h lo i arg elem elemDir →
  defaultOK target sz h lo (S i) (PointerArg (mkAC i ref DirIn) 0 0 (Some arg)) ref dir.
Proof using Htable.
  intros H0 Ht Hopt Hlo [He0 [te Hte]] Hd h2 Hsub.
  pose proof (tok_types _ _ _ Htable ref _ H0 Ht) as (Hsz & Hstatic & Hnv & _).
  pose proof (tok_types _ _ _ Htable elem _ He0 Hte) as (Hesz & _). pose proof (tok_mem _ _ _ Htable) as Hmem.
  assert (Hmax : maxMem target < 2 ^ 64) by (apply u64_range).
  destruct (Hd h2 Hsub) as (Hv & Hdef & s & Hs & Hsb). split; [|split].
  - intros ctx Hctx. assert (i ∉ vc_args ctx) by (apply Hctx; lia).
    rewrite (validateArg_method target h2 _ ref _ dir ctx H0 Ht) by done. cbv zeta iota.
    destruct (Hv (mkCtx ({[ i ]} ∪ vc_args ctx) (vc_uses ctx))) as (c1 & H1 & Hu1 & Ha1).
    { intros j Hj [->%elem_of_singleton|Hin]%elem_of_union; [lia|]. revert Hin. apply Hctx. lia. }
    exists c1. split; [|split; [done|]].
    + change (argId (PointerArg (mkAC i ref DirIn) 0 0 (Some arg))) with i.
      unfold v_seq at 1. rewrite (v_seq_ok _ _ _ _ H1).
      unfold v_seq, v_check, v_ok. cbn [a_dir mbind res_bind].
      change (bool_decide (0 ≠ 0)) with false. change (bool_decide (DirIn = DirOut)) with false. cbv iota.
      cbn [mbind res_bind]. unfold validateAddress. change (IsSpecial 0 0 (Some arg)) with false. cbv iota zeta.
      change (bool_decide (0 = 0)) with true. cbv iota. rewrite Hs. cbn [mbind res_bind]. fold (maxMem target).
      unfold v_check. rewrite Z.add_0_l, u64_id by (unfold isU64; lia). by rewrite bool_decide_false by lia.
    + intros j [Hj|Hj]%Ha1; [|right; lia]. simpl in Hj.
      apply elem_of_union in Hj as [->%elem_of_singleton|Hj]; [right; lia|by left].
  - cbn [isDefault]. unfold argType, argRef. cbn [mbind res_bind a_ref]. rewrite (typeOf_ok _ _ _ H0 Ht).
    cbn [mbind res_bind]. rewrite Hopt. by rewrite bool_decide_true.
  - cbn [argSize a_ref]. rewrite (typeOf_ok _ _ _ H0 Ht). cbn [mbind res_bind]. unfold typSize.
    unfold Varlen in Hstatic. cbn [typeCommon] in *. rewrite Hnv. eauto.
Qed.

End Composites.

(** ** The theorem *)

Lemma H_bind_ret {A B} (m : H A) (k : A → H B) h a h' : m h = Ret (a, h') → (m ≫= k) h = k a h'.
Proof. intros Hm. unfold mbind, H_bind. by rewrite Hm. Qed.

Lemma h_lift_ret {A} (a : A) h : h_lift (Ret a) h = Ret (a, h).
Proof. done. Qed.

Section Default.

Context (target : Target) (rank : Ref → nat) (sz : Ref → Z) (Htable : tableOK target rank sz).

Local Notation tbl := (typeRefs target).

Definition makesDefault (m : H Arg) (t : Ref) (dir : Dir) : Prop :=
  ∀ h, heapOK h → ∃ arg h', m h = Ret (arg, h') ∧ extends h h' ∧
    defaultOK target sz h' (h_next h) (h_next h') arg t dir.

Lemma makes_leaf (f : id → Arg) t dir :
  (∀ h i, defaultOK target sz h i (S i) (f i) t dir) →
  makesDefault (i ← h_fresh; mret (f i)) t dir.
Proof. intros Hf h Hok. exists (f (h_next h)), (mkHeap (S (h_next h)) (h_results h)). split; [done|]. split; [by apply extends_fresh|apply Hf]. Qed.

Lemma makes_result t c fmt d dir v : t ≠ 0%nat → tbl !! t = Some (ResourceType c fmt d) → resourceDefault d = Ret v →
  makesDefault (p ← MakeResultArg t dir None v; mret (ResultArg p)) t dir.
Proof using Htable.
  intros H0 Ht Hv h Hok.
  exists (ResultArg (h_next h)),
    (mkHeap (S (h_next h)) (<[h_next h := mkResult t dir None 0 0 v ∅]> (h_results h))).
  split; [done|]. split; [by apply extends_alloc|].
  eapply (default_result target rank sz Htable); [done|done|done|]. simpl. apply lookup_insert_eq.
Qed.

Lemma makes_special t typ dir : t ≠ 0%nat → tbl !! t = Some typ →
  match typ with VmaType _ _ _ => True | PtrType c _ _ => IsOptional c = true | _ => False end →
  makesDefault (MakeSpecialPointerArg tbl t dir 0) t dir.
Proof using Htable.
  intros H0 Ht Hopt h Hok. unfold MakeSpecialPointerArg.
  change (bool_decide (maxSpecialPointers ≤ 0)) with false. cbv iota. rewrite (typeOf_ok _ _ _ H0 Ht).
  rewrite (H_bind_ret _ _ h _ _ (h_lift_ret typ h)). do 2 eexists. split; [done|]. split; [by apply extends_fresh|].
  pose proof (default_special target rank sz Htable (mkHeap (S (h_next h)) (h_results h)) (h_next h) t typ dir H0 Ht Hopt) as Hd.
  simpl. by destruct typ.
Qed.

Lemma makes_group t typ dir (m : H (list Arg)) : t ≠ 0%nat → tbl !! t = Some typ → isGroup typ = true →
  (∀ h, heapOK h → ∃ args h', m h = Ret (args, h') ∧ extends h h' ∧
     chain target sz h' (h_next h) (h_next h') args (groupTds typ dir)) →
  makesDefault (inner ← m; MakeGroupArg t dir inner) t dir.
Proof using Htable.
  intros H0 Ht Hg Hm h Hok. destruct (Hm h Hok) as (args & h' & Hh' & He & Hc).
  rewrite (H_bind_ret _ _ _ _ _ Hh'). do 2 eexists. split; [done|].
  split; [eapply extends_trans; [done|apply extends_fresh, He]|].
  apply (default_group target rank sz Htable _ _ _ _ typ); [done|done|done|apply He|].
  by eapply chain_later; [|done].
Qed.

(** The default of a buffer. *)
Lemma makes_data t typ c kind b e text sub values noz dir :
  typ = BufferType c kind b e text sub values noz → t ≠ 0%nat → tbl !! t = Some typ →
  makesDefault
    (if bool_decide (dir = DirOut) then
       sz ← h_lift (if Varlen typ then Ret 0 else typSize typ); MakeOutDataArg t dir sz
     else
       data ← match values with
              | [v] => mret v
              | _ => if Varlen typ then mret []
                     else sz ← h_lift (typSize typ); mret (replicate (Z.to_nat sz) 0)
              end;
       MakeDataArg t dir data) t dir.
Proof using Htable.
  intros -> H0 Ht h Hok. pose proof (tok_types _ _ _ Htable t _ H0 Ht) as (Hsz & Hstatic & Hvar & Hval & Hfile).
  unfold Varlen, typSize in *. cbn [typeCommon] in *. case_bool_decide as Hd.
  - subst dir. rewrite (H_bind_ret _ _ h (if IsVarlen c then 0 else TypeSize c) h) by (by destruct (IsVarlen c)).
    do 2 eexists. split; [done|]. split; [by apply extends_fresh|].
    eapply (default_data target rank sz Htable); [done|done|done|done|done].
  - assert (Hm : ∃ data, (match values with
       | [v] => mret v
       | _ => if IsVarlen c then mret []
              else sz ← h_lift (if IsVarlen c then Panic else Ret (TypeSize c)); mret (replicate (Z.to_nat sz) 0)
       end : H (list Z)) h = Ret (data, h) ∧ Z.of_nat (length data) = (if IsVarlen c then 0 else TypeSize c) ∧
       match values with [v] => data = v | _ => data = replicate (length data) 0 end).
    { destruct values as [|v [|v2 vs]].
      - destruct (IsVarlen c) eqn:Ev; [by exists []|]. specialize (Hstatic eq_refl). eexists. split; [done|].
        rewrite length_replicate. split; [lia|done].
      - exists v. destruct (Hval v eq_refl) as [-> Hl]. done.
      - destruct (IsVarlen c) eqn:Ev; [by exists []|]. specialize (Hstatic eq_refl). eexists. split; [done|].
        rewrite length_replicate. split; [lia|done]. }
    destruct Hm as (data & Hm & Hl & Hdata). rewrite (H_bind_ret _ _ _ _ _ Hm). unfold MakeDataArg.
    rewrite bool_decide_false by done. do 2 eexists. split; [done|]. split; [by apply extends_fresh|].
    eapply (default_data target rank sz Htable); [done|done| |done|done]. by rewrite dataSize_in.
Qed.

Lemma DefaultArg_makes fuel t dir : validRef target t → (rank t < fuel)%nat →
  makesDefault (DefaultArg fuel tbl t dir) t dir.
Proof using Htable.
  revert t dir. induction fuel as [|fuel IH]; intros t dir [H0 [typ Ht]] Hrank; [lia|]. intros h Hok.
  cbn [DefaultArg]. rewrite (typeOf_ok _ _ _ H0 Ht). rewrite (H_bind_ret _ _ h _ _ (h_lift_ret typ h)).
  pose proof (tok_types _ _ _ Htable t _ H0 Ht) as (Hsz & Hstatic & Hparts).
  destruct typ.
  - destruct Hparts as [Hvals _]. destruct (rd_Values Desc) as [|v vs] eqn:Ev; [done|].
    unfold resourceDefault. rewrite Ev. rewrite (H_bind_ret _ _ h _ _ (h_lift_ret v h)).
    eapply makes_result; [done|done|unfold resourceDefault; by rewrite Ev|done].
  - apply makes_leaf; [|done]. intros. by eapply (default_const target rank sz Htable).
  - apply makes_leaf; [|done]. intros. by eapply (default_const target rank sz Htable).
  - apply makes_leaf; [|done]. intros. by eapply (default_const target rank sz Htable).
  - apply makes_leaf; [|done]. intros. by eapply (default_const target rank sz Htable).
  - apply makes_leaf; [|done]. intros. by eapply (default_const target rank sz Htable).
  - apply makes_leaf; [|done]. intros. by eapply (default_const target rank sz Htable).
  - by eapply makes_special.
  - by eapply makes_data.
  - eapply makes_group; [done|done|done| |done]. intros h1 Hok1. cbn [groupTds]. case_bool_decide as Hk.
    2:{ exists [], h1. split; [done|]. split; [by apply extends_refl|constructor]. }
    destruct Hk as [Hk Hbe]. destruct (Hparts Hk Hbe) as (Hve & Hre & Hb & _).
    destruct (mapH_chain target sz (λ _ : nat, DefaultArg fuel tbl Elem dir) (λ _, (Elem, dir))
      (seq 0 (Z.to_nat RangeBegin))) with (h := h1) as (args & h2 & Hm & He & Hc).
    + intros x h2 _ Hok2. apply (IH Elem dir Hve); [lia|done].
    + done.
    + exists args, h2. split; [done|]. split; [done|].
      replace (replicate (Z.to_nat RangeBegin) (Elem, dir))
        with ((λ _ : nat, (Elem, dir)) <$> seq 0 (Z.to_nat RangeBegin)); [done|].
      rewrite <- (length_seq (Z.to_nat RangeBegin) 0) at 2. apply const_fmap. done.
  - destruct Hparts as [Hnv Hreq]. destruct (IsOptional c) eqn:Eo; [by eapply makes_special|].
    destruct (Hreq eq_refl) as [Hve Hre]. destruct (IH Elem ElemDir Hve ltac:(lia) h Hok) as (arg & h' & Hm & He & Hd).
    rewrite (H_bind_ret _ _ _ _ _ Hm). do 2 eexists. split; [done|].
    split; [eapply extends_trans; [done|apply extends_fresh, He]|].
    eapply (default_pointer target rank sz Htable); [done|done|done|apply He|done|].
    by eapply defaultOK_later; [|done].
  - destruct Hparts as (Ha & Hfields & _). eapply makes_group; [done|done|done| |done]. intros h1 Hok1.
    destruct (mapH_chain target sz (λ f, DefaultArg fuel tbl (f_Type f) (fieldDir f dir))
      (λ f, (f_Type f, fieldDir f dir)) Fields) with (h := h1) as (args & h2 & Hm & He & Hc); [|done|by eauto].
    intros f h2 Hf Hok2. destruct (Hfields f Hf) as [Hvf Hrf]. apply (IH _ _ Hvf); [lia|done].
  - destruct Hparts as (f & fs & -> & Hvf & Hrf & _). cbn [head].
    rewrite (H_bind_ret _ _ h f h) by done.
    destruct (IH (f_Type f) (fieldDir f dir) Hvf ltac:(lia) h Hok) as (arg & h' & Hm & He & Hd).
    rewrite (H_bind_ret _ _ _ _ _ Hm). do 2 eexists. split; [done|].
    split; [eapply extends_trans; [done|apply extends_fresh, He]|].
    eapply (default_union target rank sz Htable); [done|done|apply He|].
    by eapply defaultOK_later; [|done].
Qed.

End Default.


(** A table with a resource, an integer, an array of two of them, a required
    pointer to it, a string with one value, and a struct of these that also
    points to itself by an optional pointer. *)
Definition sampleTypes : list Typ :=
  let c size := mkTC "t" size 1 false false in
  let ic size := mkITC (c size) FormatNative 0 0 0 0 in
  [ ConstType (ic 0) 0 false;
    ResourceType (c 4) FormatNative (mkResourceDesc "fd" ["fd"] [0xffffffffffffffff]);
    IntType (ic 4) IntPlain 0 0 0;
    ArrayType (c 8) 2 ArrayRangeLen 2 2;
    PtrType (c 8) 3 DirOut;
    BufferType (c 3) BufferString 0 0 TextTarget EmptyString [[97; 98; 0]] false;
    PtrType (mkTC "opt" 8 8 true false) 7 DirIn;
    StructType (mkTC "node" 0 1 false true)
      [mkField "fd" 1 false DirIn; mkField "p" 4 false DirIn; mkField "s" 5 false DirIn;
       mkField "next" 6 false DirIn] 8 0 ].

Definition sampleTarget : Target := mkTarget sampleTypes 4096 16 0x20000000 [0; 0xffffffffffffffff] [] 0.

Definition sampleRank (ref : Ref) : nat := match ref with 7%nat => 3 | 4%nat => 2 | 3%nat => 1 | _ => 0 end.

Definition sampleSize (ref : Ref) : Z := match ref with 7%nat => 48 | _ => 8 end.

Lemma sample_tableOK : tableOK sampleTarget sampleRank sampleSize.
Proof.
  assert (Hmem : maxMem sampleTarget = 65536) by reflexivity.
  split; [|done|rewrite Hmem; lia]. intros ref t H0 Ht. unfold typeOK. rewrite Hmem.
  assert (Hv : ∀ r, (1 ≤ r ≤ 7)%nat → validRef sampleTarget r).
  { intros r Hr. split; [lia|]. apply lookup_lt_is_Some. simpl. lia. }
  destruct ref as [|[|[|[|[|[|[|[|ref]]]]]]]]; [done|..|done];
    injection Ht as <-; cbn [sampleSize typeCommon itc_common TypeSize]; (split; [lia|]); (split; [intros; simpl in *; lia|]).
  - done.
  - done.
  - intros _ _. split; [apply Hv; lia|]. split; [cbn; lia|]. split; [lia|]. done.
  - split; [done|]. intros _. split; [apply Hv; lia|cbn; lia].
  - split; [done|]. split; [|done]. intros v [= <-]. done.
  - done.
  - split; [lia|]. split; [|cbn; lia]. intros f Hf.
    repeat (apply elem_of_cons in Hf as [->|Hf]; [split; [apply Hv; cbn; lia|cbn; lia]|]). by apply not_elem_of_nil in Hf.
Qed.


(** A glob has no static size, so a default is recognised only when it is
    empty; but when exactly one file matches the glob, [DefaultArg] makes the
    name of that file.  The default of the type is then not a default. *)
Theorem glob_default_not_default (name : list Z) dir :
  name ≠ [] → dir ≠ DirOut →
  let tbl := [ConstType (mkITC (mkTC "t" 0 0 false false) FormatNative 0 0 0 0) 0 false;
              BufferType (mkTC "glob" 0 1 false true) BufferGlob 0 0 TextTarget "/sys/**" [name] false] in
  ∃ arg h', DefaultArg 1 tbl 1 dir (mkHeap 1 ∅) = Ret (arg, h') ∧ isDefault tbl h' arg = Ret false.
Proof.
  intros Hname Hdir tbl. exists (DataArg (mkAC 1 1 dir) name 0), (mkHeap 2 ∅). split.
  - simpl. destruct dir; [reflexivity|done|reflexivity].
  - unfold isDefault, argType, argRef. cbn. unfold isDefaultData. simpl.
    rewrite (bool_decide_true (name ≠ [])) by done. rewrite bool_decide_true; [done|].
    destruct name; simpl; [done|lia].
Qed.

Lemma glob_default_not_default_witness :
  ∃ arg h', DefaultArg 1
    [ConstType (mkITC (mkTC "t" 0 0 false false) FormatNative 0 0 0 0) 0 false;
     BufferType (mkTC "glob" 0 1 false true) BufferGlob 0 0 TextTarget "/sys/**" [[97; 0]] false] 1 DirIn
    (mkHeap 1 ∅) = Ret (arg, h').
Proof.
  destruct (glob_default_not_default [97; 0] DirIn) as (arg & h' & Hm & _); [discriminate|discriminate|].
  exists arg, h'. exact Hm.
Defined.
