(* ===== verification/ExecEncode.v ===== *)
(** * Serialization of programs for the executor

    [prog/checksum.go] and [prog/encodingexec.go]: which checksums the executor
    has to compute, and the format of 64-bit words that a program is sent in.
    Maps from arguments are maps from their addresses.  The byte order of the
    host is the argument [big]. *)

From stdpp Require Import base numbers strings gmap list sorting.
From S2P Require Import Prelude Word ProgTypes ProgArgs ProgTree.

Local Open Scope Z_scope.

(** ** Checksums *)

Inductive CsumChunk :=
  | CsumChunkArg (arg : Arg)
  | CsumChunkConst (value size : Z).

(** The checksum arguments with their chunks; all of kind [CsumInet]. *)
Definition csumMapT : Type := list (Arg * list CsumChunk).

Definition csumAdd (m : csumMapT) (arg : Arg) (chunks : list CsumChunk) : csumMapT :=
  filter (λ e, argId e.1 ≠ argId arg) m ++ [(arg, chunks)].

(** The checksum arguments of a kind among the visited ones. *)
Fixpoint csumFields (tbl : list Typ) (h : Heap) (kind : CsumKind) (vs : list visit) : res (list Arg) :=
  match vs with
  | [] => Ret []
  | v :: vs =>
      t ← argType tbl h (v_arg v);
      args ← csumFields tbl h kind vs;
      Ret (match t with
           | CsumType _ k _ _ => if bool_decide (k = kind) then v_arg v :: args else args
           | _ => args
           end)
  end.

Fixpoint addParents (tbl : list Typ) (h : Heap) (parent : Arg) (fields : list Arg) (m : gmap id Arg) :
    res (gmap id Arg) :=
  match fields with
  | [] => Ret m
  | field :: fields =>
      inner ← InnerArg tbl h field;
      addParents tbl h parent fields
        (match inner with Some arg => <[argId arg := parent]> m | None => m end)
  end.

(** The parent struct of each field. *)
Fixpoint parentsMap (tbl : list Typ) (h : Heap) (vs : list visit) (m : gmap id Arg) : res (gmap id Arg) :=
  match vs with
  | [] => Ret m
  | v :: vs =>
      t ← argType tbl h (v_arg v);
      m ← match t, v_arg v with
          | StructType _ _ _ _, GroupArg _ inner => addParents tbl h (v_arg v) inner m
          | StructType _ _ _ _, _ => Panic
          | _, _ => Ret m
          end;
      parentsMap tbl h vs m
  end.

(** The chain of parents is followed until a struct with the name; its length is
    at most the size of the map. *)
Fixpoint findParent (fuel : nat) (tbl : list Typ) (h : Heap) (parents : gmap id Arg) (name : string)
    (parent : option Arg) : res Arg :=
  match fuel, parent with
  | _, None => Panic
  | O, _ => NoFuel
  | S fuel, Some arg =>
      t ← argType tbl h arg;
      if bool_decide (name = Name t) then Ret arg
      else findParent fuel tbl h parents name (parents !! argId arg)
  end.

Definition ParentRef : string := "parent".

Definition findCsummedArg (tbl : list Typ) (h : Heap) (parents : gmap id Arg) (arg : Arg) (buf : string) : res Arg :=
  if bool_decide (buf = ParentRef) then of_option (parents !! argId arg)
  else findParent (S (size parents)) tbl h parents buf (parents !! argId arg).

Definition composePseudoCsumIPv4 (tbl : list Typ) (h : Heap) (tcpPacket srcAddr dstAddr : Arg) (protocol : Z) :
    res (list CsumChunk) :=
  size ← argSize tbl h tcpPacket;
  Ret [CsumChunkArg srcAddr; CsumChunkArg dstAddr; CsumChunkConst (swap16 (u16 protocol)) 2;
       CsumChunkConst (swap16 (u16 size)) 2; CsumChunkArg tcpPacket].

Definition composePseudoCsumIPv6 (tbl : list Typ) (h : Heap) (tcpPacket srcAddr dstAddr : Arg) (protocol : Z) :
    res (list CsumChunk) :=
  size ← argSize tbl h tcpPacket;
  Ret [CsumChunkArg srcAddr; CsumChunkArg dstAddr; CsumChunkConst (swap32 (u32 size)) 4;
       CsumChunkConst (swap32 (u32 protocol)) 4; CsumChunkArg tcpPacket].

(** The field of a struct argument with a name; fewer field types than arguments
    is an index out of range. *)
Fixpoint fieldByName (name : string) (inner : list Arg) (fields : list Field) : res Arg :=
  match inner, fields with
  | arg :: inner, f :: fields =>
      if bool_decide (f_Name f = name) then Ret arg else fieldByName name inner fields
  | _, _ => Panic
  end.

Definition getFieldByName (t : Typ) (inner : list Arg) (name : string) : res Arg :=
  match t with StructType _ fields _ _ => fieldByName name inner fields | _ => Panic end.

Definition extractHeaderParams (tbl : list Typ) (h : Heap) (t : Typ) (inner : list Arg) (size : Z) : res (Arg * Arg) :=
  src ← getFieldByName t inner "src_ip";
  dst ← getFieldByName t inner "dst_ip";
  s1 ← argSize tbl h src;
  s2 ← argSize tbl h dst;
  if bool_decide (s1 ≠ size ∨ s2 ≠ size) then Panic else Ret (src, dst).

(** The addresses of the last header that is visited. *)
Fixpoint headerParams (tbl : list Typ) (h : Heap) (vs : list visit) (found : option (Arg * Arg)) :
    res (option (Arg * Arg)) :=
  match vs with
  | [] => Ret found
  | v :: vs =>
      found ← match v_arg v with
              | GroupArg a inner =>
                  t ← typeOf tbl (a_ref a);
                  let name := TemplateName t in
                  if bool_decide (name = "ipv4_header" ∨ name = "syz_csum_ipv4_header")
                  then p ← extractHeaderParams tbl h t inner 4; Ret (Some p)
                  else if bool_decide (name = "ipv6_packet_t" ∨ name = "syz_csum_ipv6_header")
                  then p ← extractHeaderParams tbl h t inner 16; Ret (Some p)
                  else Ret found
              | _ => Ret found
              end;
      headerParams tbl h vs found
  end.

Definition csumBuf (tbl : list Typ) (h : Heap) (arg : Arg) : res (string * Z) :=
  t ← argType tbl h arg;
  match t with CsumType _ _ buf protocol => Ret (buf, protocol) | _ => Panic end.

Fixpoint inetCsums (tbl : list Typ) (h : Heap) (parents : gmap id Arg) (args : list Arg) (m : csumMapT)
    (uses : gset id) : res (csumMapT * gset id) :=
  match args with
  | [] => Ret (m, uses)
  | arg :: args =>
      bp ← csumBuf tbl h arg;
      csummed ← findCsummedArg tbl h parents arg bp.1;
      inetCsums tbl h parents args (csumAdd m arg [CsumChunkArg csummed]) ({[ argId csummed ]} ∪ uses)
  end.

Fixpoint pseudoCsums (tbl : list Typ) (h : Heap) (parents : gmap id Arg) (src dst : Arg) (args : list Arg)
    (m : csumMapT) (uses : gset id) : res (csumMapT * gset id) :=
  match args with
  | [] => Ret (m, uses)
  | arg :: args =>
      bp ← csumBuf tbl h arg;
      csummed ← findCsummedArg tbl h parents arg bp.1;
      size ← argSize tbl h src;
      info ← (if bool_decide (size = 4) then composePseudoCsumIPv4 tbl h csummed src dst (u8 bp.2)
              else composePseudoCsumIPv6 tbl h csummed src dst (u8 bp.2));
      pseudoCsums tbl h parents src dst args (csumAdd m arg info)
        ({[ argId csummed; argId src; argId dst ]} ∪ uses)
  end.

Definition calcChecksumsCall (tbl : list Typ) (h : Heap) (c : Call) : res (csumMapT * gset id) :=
  vs ← ForeachArg tbl h c;
  inet ← csumFields tbl h CsumInet vs;
  pseudo ← csumFields tbl h CsumPseudo vs;
  if bool_decide (inet = [] ∧ pseudo = []) then Ret ([], ∅)
  else
    parents ← parentsMap tbl h vs ∅;
    mu ← inetCsums tbl h parents inet [] ∅;
    if bool_decide (pseudo = []) then Ret mu
    else
      addrs ← headerParams tbl h vs None;
      sd ← of_option addrs;
      pseudoCsums tbl h parents sd.1 sd.2 pseudo mu.1 mu.2.

(** ** Constants of the format *)

Definition execInstrEOF : Z := 0xffffffffffffffff.
Definition execInstrCopyin : Z := 0xfffffffffffffffe.
Definition execInstrCopyout : Z := 0xfffffffffffffffd.
Definition execInstrSetProps : Z := 0xfffffffffffffffc.

Definition execArgConst : Z := 0.
Definition execArgResult : Z := 1.
Definition execArgData : Z := 2.
Definition execArgCsum : Z := 3.
Definition execArgDataReadable : Z := 2 ^ 63.

Definition ExecArgCsumInet : Z := 0.
Definition ExecArgCsumChunkData : Z := 0.
Definition ExecArgCsumChunkConst : Z := 1.

Definition ExecNoCopyout : Z := 0xffffffffffffffff.
Definition execMaxCommands : Z := 1000.

(** ** The writer *)

Record argInfo := mkInfo {
  ai_Addr : Z;
  ai_Idx : Z;
  ai_Ret : bool;
}.

(** [w_out] are the bytes in front of [w.buf], [w_free] is its length. *)
Record execContext := mkExec {
  w_out : list Z;
  w_free : Z;
  w_eof : bool;
  w_args : gmap id argInfo;
  w_copyoutSeq : Z;
}.

(** [HostEndian.PutUint64] and [HostEndian.Uint64]. *)
Definition putUint64 (big : bool) (v : Z) : list Z :=
  if big then reverse (leBytes 8 v) else leBytes 8 v.

Definition getUint64 (big : bool) (l : list Z) : Z :=
  if big then leVal (reverse l) else leVal l.

Definition emitBytes (bs : list Z) (w : execContext) : execContext :=
  mkExec (w_out w ++ bs) (w_free w - Z.of_nat (length bs)) (w_eof w) (w_args w) (w_copyoutSeq w).

Definition setEof (w : execContext) : execContext :=
  mkExec (w_out w) (w_free w) true (w_args w) (w_copyoutSeq w).

Definition setArg (p : id) (info : argInfo) (w : execContext) : execContext :=
  mkExec (w_out w) (w_free w) (w_eof w) (<[p := info]> (w_args w)) (w_copyoutSeq w).

Definition incSeq (w : execContext) : execContext :=
  mkExec (w_out w) (w_free w) (w_eof w) (w_args w) (u64 (w_copyoutSeq w + 1)).

Definition write (big : bool) (v : Z) (w : execContext) : execContext :=
  if bool_decide (w_free w < 8) then setEof w else emitBytes (putUint64 big v) w.

(** The data padded to words. *)
Definition writeBlob (data : list Z) (w : execContext) : execContext :=
  let n := Z.of_nat (length data) in
  let pad := 8 - n `mod` 8 in
  let padded := if bool_decide (pad ≠ 8) then n + pad else n in
  if bool_decide (w_free w < padded) then setEof w
  else emitBytes (data ++ replicate (Z.to_nat (padded - n)) 0) w.

Definition writeConstArg (big : bool) (size val bfOffset bfLength pidStride : Z) (bf : BinaryFormat)
    (w : execContext) : execContext :=
  let w := write big execArgConst w in
  let meta := Z.lor (Z.lor (Z.lor (Z.lor size (u64 (Z.shiftl (formatVal bf) 8))) (u64 (Z.shiftl bfOffset 16)))
                (u64 (Z.shiftl bfLength 24))) (u64 (Z.shiftl pidStride 32)) in
  write big val (write big meta w).

Definition boolVal (b : bool) : Z := if b then 1 else 0.

Definition writeCallProps (big : bool) (props : CallProps) (w : execContext) : execContext :=
  let w := write big execInstrSetProps w in
  let w := write big (u64 (FailNth props)) w in
  let w := write big (boolVal (Async props)) w in
  write big (u64 (Rerun props)) w.

Section Encode.

Context (big : bool) (target : Target) (h : Heap).

Local Notation tbl := (typeRefs target).

Definition physicalAddr (arg : Arg) : res Z :=
  match arg with
  | PointerArg _ address vmaSize pointee => PhysicalAddr target address vmaSize pointee
  | _ => Panic
  end.

Definition writeResultRef (q : id) (r : ResultObj) (w : execContext) : res execContext :=
  info ← of_option (w_args w !! q);
  t ← typeOf tbl (r_ref r);
  size ← typSize t;
  def ← match t with ResourceType _ _ d => resourceDefault d | _ => Panic end;
  let w := write big execArgResult w in
  let w := write big (Z.lor size (u64 (Z.shiftl (formatVal (Format t)) 8))) w in
  let w := write big (ai_Idx info) w in
  let w := write big (r_OpDiv r) w in
  let w := write big (r_OpAdd r) w in
  Ret (write big def w).

Fixpoint writeArg (arg : Arg) (w : execContext) : res execContext :=
  match arg with
  | ConstArg a val =>
      t ← typeOf tbl (a_ref a);
      vp ← constValue t val;
      usize ← UnitSize t;
      Ret (writeConstArg big usize vp.1 (BitfieldOffset t) (BitfieldLength t) vp.2 (Format t) w)
  | ResultArg p =>
      r ← of_option (h_results h !! p);
      match r_Res r with
      | None =>
          t ← typeOf tbl (r_ref r);
          size ← typSize t;
          Ret (writeConstArg big size (r_Val r) 0 0 0 (Format t) w)
      | Some q => writeResultRef q r w
      end
  | PointerArg a address vmaSize pointee =>
      t ← typeOf tbl (a_ref a);
      size ← typSize t;
      addr ← PhysicalAddr target address vmaSize pointee;
      Ret (writeConstArg big size addr 0 0 0 FormatNative w)
  | DataArg a data _ =>
      data ← dataOf (a_dir a) data;
      if bool_decide (data = []) then Ret w
      else
        t ← typeOf tbl (a_ref a);
        readable ← match t with
                   | BufferType _ kind _ _ _ _ _ _ => Ret (isReadableDataType kind)
                   | _ => Panic
                   end;
        let n := Z.of_nat (length data) in
        let flags := if readable : bool then Z.lor n execArgDataReadable else n in
        Ret (writeBlob data (write big flags (write big execArgData w)))
  | UnionArg _ opt _ => writeArg opt w
  | GroupArg _ _ => Panic
  end.

Definition resultUsed (arg : Arg) : res bool :=
  match arg with
  | ResultArg p => r ← of_option (h_results h !! p); Ret (bool_decide (r_uses r ≠ ∅))
  | _ => Ret false
  end.

Definition willBeUsed (csums : csumMapT * gset id) (arg : Arg) : res bool :=
  used ← resultUsed arg;
  Ret ((used : bool) || existsb (λ e, bool_decide (argId e.1 = argId arg)) csums.1 ||
       bool_decide (argId arg ∈ csums.2)).

(** The callback of [writeCopyin]. *)
Definition copyinVisit (csums : csumMapT * gset id) (v : visit) (w : execContext) : res execContext :=
  match v_base v with
  | None => Ret w
  | Some base =>
      let arg := v_arg v in
      addr ← physicalAddr base;
      t ← argType tbl h arg;
      let addr := u64 (u64 (addr + v_offset v) - UnitOffset t) in
      used ← willBeUsed csums arg;
      let w := if used : bool then setArg (argId arg) (mkInfo addr 0 false) w else w in
      match arg with
      | GroupArg _ _ | UnionArg _ _ _ => Ret w
      | _ =>
          dir ← argDir h arg;
          if bool_decide (dir = DirOut) || IsPad t then Ret w
          else
            size ← argSize tbl h arg;
            if bool_decide (size = 0) && negb (IsBitfield t) then Ret w
            else writeArg arg (write big addr (write big execInstrCopyin w))
      end
  end.

(** A loop over visits that updates the writer. *)
Definition forW {A} (f : A → execContext → res execContext) : list A → execContext → res execContext :=
  fix go l w :=
    match l with
    | [] => Ret w
    | x :: l => w ← f x w; go l w
    end.

Definition writeCopyin (csums : csumMapT * gset id) (c : Call) (w : execContext) : res execContext :=
  vs ← ForeachArg tbl h c; forW (copyinVisit csums) vs w.

Definition addrOf (w : execContext) (arg : Arg) : Z :=
  match w_args w !! argId arg with Some info => ai_Addr info | None => 0 end.

Definition writeChunk (chunk : CsumChunk) (w : execContext) : res execContext :=
  match chunk with
  | CsumChunkArg arg =>
      size ← argSize tbl h arg;
      Ret (write big size (write big (addrOf w arg) (write big ExecArgCsumChunkData w)))
  | CsumChunkConst value size =>
      Ret (write big size (write big value (write big ExecArgCsumChunkConst w)))
  end.

Definition writeCsum (e : Arg * list CsumChunk) (w : execContext) : res execContext :=
  t ← argType tbl h e.1;
  match t with
  | CsumType _ _ _ _ =>
      size ← argSize tbl h e.1;
      let w := write big execInstrCopyin w in
      let w := write big (addrOf w e.1) w in
      let w := write big execArgCsum w in
      let w := write big size w in
      let w := write big ExecArgCsumInet w in
      let w := write big (Z.of_nat (length e.2)) w in
      forW writeChunk e.2 w
  | _ => Panic
  end.

Definition csumLe (w : execContext) (e1 e2 : Arg * list CsumChunk) : Prop := addrOf w e1.1 ≤ addrOf w e2.1.

#[local] Instance csumLe_dec w e1 e2 : Decision (csumLe w e1 e2).
Proof. unfold csumLe. apply _. Defined.

(** The checksums in decreasing order of their addresses. *)
Definition csumOrder (w : execContext) (m : csumMapT) : csumMapT :=
  reverse (merge_sort (csumLe w) m).

Definition writeChecksums (csums : csumMapT * gset id) (w : execContext) : res execContext :=
  forW writeCsum (csumOrder w csums.1) w.

Definition copyoutVisit (v : visit) (w : execContext) : res execContext :=
  used ← resultUsed (v_arg v);
  if used : bool then
    let p := argId (v_arg v) in
    let info := default (mkInfo 0 0 false) (w_args w !! p) in
    if ai_Ret info then Ret w
    else
      size ← argSize tbl h (v_arg v);
      let idx := w_copyoutSeq w in
      let w := setArg p (mkInfo (ai_Addr info) idx false) (incSeq w) in
      let w := write big execInstrCopyout w in
      let w := write big idx w in
      let w := write big (ai_Addr info) w in
      Ret (write big size w)
  else Ret w.

Definition writeCopyout (c : Call) (w : execContext) : res execContext :=
  vs ← ForeachArg tbl h c; forW copyoutVisit vs w.

(** The index under which the result of the call is kept. *)
Definition writeRet (c : Call) (w : execContext) : res execContext :=
  match c_Ret c with
  | None => Ret (write big ExecNoCopyout w)
  | Some p =>
      r ← of_option (h_results h !! p);
      if bool_decide (r_uses r = ∅) then Ret (write big ExecNoCopyout w)
      else match w_args w !! p with
           | Some _ => Panic
           | None =>
               let idx := w_copyoutSeq w in
               Ret (incSeq (write big idx (setArg p (mkInfo 0 idx true) w)))
           end
  end.

Definition serializeCall (csums : csumMapT * gset id) (c : Call) (w : execContext) : res execContext :=
  w ← writeCopyin csums c w;
  w ← writeChecksums csums w;
  let w := if bool_decide (c_Props c = mkProps 0 false 0) then w else writeCallProps big (c_Props c) w in
  let w := write big (Z.of_nat (sc_ID (c_Meta c))) w in
  w ← writeRet c w;
  let w := write big (Z.of_nat (length (c_Args c))) w in
  w ← forW writeArg (c_Args c) w;
  writeCopyout c w.

Definition serializeStep (c : Call) (w : execContext) : res execContext :=
  csums ← calcChecksumsCall tbl h c; serializeCall csums c w.

(** [SerializeForExec] into a buffer of [len] bytes: the bytes written, or [None]
    for [ErrExecBufferTooSmall]. *)
Definition SerializeForExec (calls : list Call) (len : Z) : res (option (list Z)) :=
  w ← forW serializeStep calls (mkExec [] len false ∅ 0);
  let w := write big execInstrEOF w in
  if w_eof w || bool_decide (execMaxCommands < w_copyoutSeq w) then Ret None else Ret (Some (w_out w)).

End Encode.
