(* ===== verification/ExecDecode.v ===== *)
(** * Reading the serialized format back

    [prog/decodeexec.go]: the decoder that C reproducers and tests use.  Its error
    is sticky: after it every read returns zero. *)

From stdpp Require Import base numbers strings gmap list.
From S2P Require Import Prelude Word ProgTypes ProgArgs ExecEncode.

Local Open Scope Z_scope.

Record ExecCsumChunk := mkChunk {
  ec_Kind : Z;
  ec_Value : Z;
  ec_Size : Z;
}.

Inductive ExecArg :=
  | ExecArgConst (Size Format Value BitfieldOffset BitfieldLength PidStride : Z)
  | ExecArgResult (Size Format Index DivOp AddOp Default : Z)
  | ExecArgData (Data : list Z) (Readable : bool)
  | ExecArgCsum (Size Kind : Z) (Chunks : list ExecCsumChunk).

Record ExecCopyin := mkCopyin {
  ci_Addr : Z;
  ci_Arg : option ExecArg;
}.

Record ExecCopyout := mkCopyout {
  co_Index : Z;
  co_Addr : Z;
  co_Size : Z;
}.

Record ExecCall := mkExecCall {
  e_Meta : option Syscall;
  e_Props : CallProps;
  e_Index : Z;
  e_Args : list ExecArg;
  e_Copyin : list ExecCopyin;
  e_Copyout : list ExecCopyout;
}.

Definition emptyCall : ExecCall := mkExecCall None (mkProps 0 false 0) 0 [] [] [].

Inductive decError :=
  | DecOverflow | DecBadSyscall | DecBadCallArg | DecCsumKind | DecBadArg | DecVars.

Record execDecoder := mkDec {
  d_data : list Z;
  d_err : option decError;
  d_numVars : Z;
  d_vars : list Z;
  d_call : ExecCall;
  d_calls : list ExecCall;
}.

Definition setErr (e : decError) (d : execDecoder) : execDecoder :=
  match d_err d with
  | None => mkDec (d_data d) (Some e) (d_numVars d) (d_vars d) (d_call d) (d_calls d)
  | Some _ => d
  end.

Definition setData (data : list Z) (d : execDecoder) : execDecoder :=
  mkDec data (d_err d) (d_numVars d) (d_vars d) (d_call d) (d_calls d).

Definition setVars (vars : list Z) (d : execDecoder) : execDecoder :=
  mkDec (d_data d) (d_err d) (d_numVars d) vars (d_call d) (d_calls d).

Definition setCall (c : ExecCall) (d : execDecoder) : execDecoder :=
  mkDec (d_data d) (d_err d) (d_numVars d) (d_vars d) c (d_calls d).

Section Decode.

Context (big : bool).

Definition read (d : execDecoder) : Z * execDecoder :=
  let d := if bool_decide (length (d_data d) < 8)%nat then setErr DecOverflow d else d in
  match d_err d with
  | Some _ => (0, d)
  | None => (getUint64 big (take 8 (d_data d)), setData (drop 8 (d_data d)) d)
  end.

Definition readBlob (size : Z) (d : execDecoder) : list Z * execDecoder :=
  let padded := u64 (u64 (size + 7) `div` 8 * 8) in
  let d := if bool_decide (Z.of_nat (length (d_data d)) < padded) then setErr DecOverflow d else d in
  match d_err d with
  | Some _ => ([], d)
  | None => (take (Z.to_nat size) (d_data d), setData (drop (Z.to_nat padded) (d_data d)) d)
  end.

Fixpoint readChunks (n : nat) (d : execDecoder) : list ExecCsumChunk * execDecoder :=
  match n with
  | O => ([], d)
  | S n =>
      let '(kind, d) := read d in
      let '(value, d) := read d in
      let '(size, d) := read d in
      let '(chunks, d) := readChunks n d in
      (mkChunk kind value size :: chunks, d)
  end.

(** [make] panics above the size of the address space; a chunk has 24 bytes. *)
Definition makePanics (n : Z) : bool := bool_decide (2 ^ 48 < n * 24).

(** [vars[index] = def], after the slice has grown to the index. *)
Definition setVar (index def : Z) (vars : list Z) : list Z :=
  let i := Z.to_nat index in
  <[i := def]> (vars ++ replicate (S i - length vars) 0).

(** [readArg]; [None] is a nil argument. *)
Definition readArg (d : execDecoder) : res (option ExecArg * execDecoder) :=
  let '(typ, d) := read d in
  if bool_decide (typ = execArgConst) then
    let '(meta, d) := read d in
    let '(value, d) := read d in
    Ret (Some (ExecArgConst (Z.land meta 0xff) (Z.land (Z.shiftr meta 8) 0xff) value
                 (Z.land (Z.shiftr meta 16) 0xff) (Z.land (Z.shiftr meta 24) 0xff) (Z.shiftr meta 32)), d)
  else if bool_decide (typ = execArgResult) then
    let '(meta, d) := read d in
    let '(index, d) := read d in
    let '(div, d) := read d in
    let '(add, d) := read d in
    let '(def, d) := read d in
    Ret (Some (ExecArgResult (Z.land meta 0xff) (Z.land (Z.shiftr meta 8) 0xff) index div add def),
         setVars (setVar index def (d_vars d)) d)
  else if bool_decide (typ = execArgData) then
    let '(flags, d) := read d in
    let size := Z.land flags (Z.lxor execArgDataReadable (2 ^ 64 - 1)) in
    let readable := bool_decide (Z.land flags execArgDataReadable ≠ 0) in
    let '(data, d) := readBlob size d in
    Ret (Some (ExecArgData data readable), d)
  else if bool_decide (typ = execArgCsum) then
    let '(size, d) := read d in
    let '(kind, d) := read d in
    if bool_decide (kind = ExecArgCsumInet) then
      let '(n, d) := read d in
      if makePanics n then Panic
      else
        let '(chunks, d) := readChunks (Z.to_nat n) d in
        Ret (Some (ExecArgCsum size kind chunks), d)
    else Ret (None, setErr DecCsumKind d)
  else Ret (None, setErr DecBadArg d).

Definition intVal (z : Z) : Z := if bool_decide (2 ^ 63 ≤ z) then z - 2 ^ 64 else z.

Definition readCallProps (d : execDecoder) : execDecoder :=
  let props := e_Props (d_call d) in
  let '(failNth, d) := read d in
  let '(async, d) := read d in
  let '(rerun, d) := read d in
  let c := d_call d in
  let props := mkProps (intVal failNth) (if bool_decide (async = 1) then true else Async props) (intVal rerun) in
  setCall (mkExecCall (e_Meta c) props (e_Index c) (e_Args c) (e_Copyin c) (e_Copyout c)) d.

Definition commitCall (d : execDecoder) : execDecoder :=
  let c := d_call d in
  match e_Meta c with
  | None => d
  | Some _ =>
      let n := d_numVars d in
      let n := if bool_decide (e_Index c ≠ ExecNoCopyout ∧ n < u64 (e_Index c + 1))
               then u64 (e_Index c + 1) else n in
      let n := foldl (λ n co, if bool_decide (n < u64 (co_Index co + 1)) then u64 (co_Index co + 1) else n)
                 n (e_Copyout c) in
      mkDec (d_data d) (d_err d) n (d_vars d) emptyCall (d_calls d ++ [c])
  end.

Definition addArg (a : ExecArg) (d : execDecoder) : execDecoder :=
  let c := d_call d in
  setCall (mkExecCall (e_Meta c) (e_Props c) (e_Index c) (e_Args c ++ [a]) (e_Copyin c) (e_Copyout c)) d.

(** The loop over the arguments of a call; the result tells whether [parse]
    returns. *)
Fixpoint parseArgs (n : nat) (d : execDecoder) : res (bool * execDecoder) :=
  match n with
  | O => Ret (false, d)
  | S n =>
      ad ← readArg d;
      match ad.1 with
      | Some (ExecArgConst _ _ _ _ _ _ as a) | Some (ExecArgResult _ _ _ _ _ _ as a) =>
          parseArgs n (addArg a ad.2)
      | _ => Ret (true, setErr DecBadCallArg ad.2)
      end
  end.

Context (syscalls : list Syscall).

(** One round of [parse]; the result tells whether it returns. *)
Definition parseStep (d : execDecoder) : res (bool * execDecoder) :=
  let '(instr, d) := read d in
  if bool_decide (instr = execInstrCopyin) then
    let d := commitCall d in
    let '(addr, d) := read d in
    ad ← readArg d;
    let d := ad.2 in
    let c := d_call d in
    Ret (false, setCall (mkExecCall (e_Meta c) (e_Props c) (e_Index c) (e_Args c)
                           (e_Copyin c ++ [mkCopyin addr ad.1]) (e_Copyout c)) d)
  else if bool_decide (instr = execInstrCopyout) then
    let '(index, d) := read d in
    let '(addr, d) := read d in
    let '(size, d) := read d in
    let c := d_call d in
    Ret (false, setCall (mkExecCall (e_Meta c) (e_Props c) (e_Index c) (e_Args c) (e_Copyin c)
                           (e_Copyout c ++ [mkCopyout index addr size])) d)
  else if bool_decide (instr = execInstrEOF) then Ret (true, commitCall d)
  else if bool_decide (instr = execInstrSetProps) then Ret (false, readCallProps (commitCall d))
  else
    let d := commitCall d in
    match syscalls !! Z.to_nat instr with
    | None => Ret (true, setErr DecBadSyscall d)
    | Some meta =>
        let '(index, d) := read d in
        let '(n, d) := read d in
        let c := d_call d in
        parseArgs (Z.to_nat n)
          (setCall (mkExecCall (Some meta) (e_Props c) index (e_Args c) (e_Copyin c) (e_Copyout c)) d)
    end.

(** A round that does not end the loop takes at least a word or sets the error,
    so the length of the data is enough fuel. *)
Fixpoint parse (fuel : nat) (d : execDecoder) : res execDecoder :=
  match d_err d with
  | Some _ => Ret d
  | None =>
      match fuel with
      | O => NoFuel
      | S fuel =>
          sd ← parseStep d;
          if sd.1 : bool then Ret sd.2 else parse fuel sd.2
      end
  end.

(** [DeserializeExec]: the error, or the calls and the variables. *)
Definition DeserializeExec (exec : list Z) : res (decError + list ExecCall * list Z) :=
  d ← parse (S (length exec)) (mkDec exec None 0 [] emptyCall []);
  match d_err d with
  | Some e => Ret (inl e)
  | None =>
      if bool_decide (Z.of_nat (length (d_vars d)) ≠ d_numVars d) then Ret (inl DecVars)
      else Ret (inr (d_calls d, d_vars d))
  end.

End Decode.
