(* ===== verification/ExecSpec.v ===== *)
(** * What the executor is asked to do

    The meaning of a program for the executor, without the format: for every call
    the values copied in, the arguments, and the results copied out.  The
    serializer is shown to write exactly the encoding of this, and to report a
    too small buffer exactly when the encoding does not fit. *)

From stdpp Require Import base numbers strings gmap list sorting.
From S2P Require Import Prelude Word ProgTypes ProgArgs ProgTree ExecEncode ExecDecode.

Local Open Scope Z_scope.

(** ** Meaning *)

(** A call as the executor sees it; an argument without data writes nothing. *)
Record SpecCall := mkSpecCall {
  s_Meta : Syscall;
  s_Props : CallProps;
  s_Index : Z;
  s_Args : list (option ExecArg);
  s_Copyin : list ExecCopyin;
  s_Copyout : list ExecCopyout;
}.

(** The places of the arguments that are referred to, and the next index. *)
Definition places : Type := gmap id argInfo * Z.

Section Spec.

Context (target : Target) (h : Heap).

Local Notation tbl := (typeRefs target).

Definition specConst (size val bfOffset bfLength pidStride : Z) (bf : BinaryFormat) : ExecArg :=
  ExecArgConst size (formatVal bf) val bfOffset bfLength pidStride.

Fixpoint specArg (args : gmap id argInfo) (arg : Arg) : res (option ExecArg) :=
  match arg with
  | ConstArg a val =>
      t ← typeOf tbl (a_ref a);
      vp ← constValue t val;
      usize ← UnitSize t;
      Ret (Some (specConst usize vp.1 (BitfieldOffset t) (BitfieldLength t) vp.2 (Format t)))
  | ResultArg p =>
      r ← of_option (h_results h !! p);
      match r_Res r with
      | None =>
          t ← typeOf tbl (r_ref r);
          size ← typSize t;
          Ret (Some (specConst size (r_Val r) 0 0 0 (Format t)))
      | Some q =>
          info ← of_option (args !! q);
          t ← typeOf tbl (r_ref r);
          size ← typSize t;
          def ← match t with ResourceType _ _ d => resourceDefault d | _ => Panic end;
          Ret (Some (ExecArgResult size (formatVal (Format t)) (ai_Idx info) (r_OpDiv r) (r_OpAdd r) def))
      end
  | PointerArg a address vmaSize pointee =>
      t ← typeOf tbl (a_ref a);
      size ← typSize t;
      addr ← PhysicalAddr target address vmaSize pointee;
      Ret (Some (specConst size addr 0 0 0 FormatNative))
  | DataArg a data _ =>
      data ← dataOf (a_dir a) data;
      if bool_decide (data = []) then Ret None
      else
        t ← typeOf tbl (a_ref a);
        readable ← match t with
                   | BufferType _ kind _ _ _ _ _ _ => Ret (isReadableDataType kind)
                   | _ => Panic
                   end;
        Ret (Some (ExecArgData data readable))
  | UnionArg _ opt _ => specArg args opt
  | GroupArg _ _ => Panic
  end.

(** The value a visited argument puts into memory. *)
Definition specCopyinVisit (csums : csumMapT * gset id) (v : visit) (args : gmap id argInfo) :
    res (gmap id argInfo * list ExecCopyin) :=
  match v_base v with
  | None => Ret (args, [])
  | Some base =>
      let arg := v_arg v in
      addr ← physicalAddr target base;
      t ← argType tbl h arg;
      let addr := u64 (u64 (addr + v_offset v) - UnitOffset t) in
      used ← willBeUsed h csums arg;
      let args := if used : bool then <[argId arg := mkInfo addr 0 false]> args else args in
      match arg with
      | GroupArg _ _ | UnionArg _ _ _ => Ret (args, [])
      | _ =>
          dir ← argDir h arg;
          if bool_decide (dir = DirOut) || IsPad t then Ret (args, [])
          else
            size ← argSize tbl h arg;
            if bool_decide (size = 0) && negb (IsBitfield t) then Ret (args, [])
            else a ← specArg args arg; Ret (args, [mkCopyin addr a])
      end
  end.

(** A loop that collects what each element gives. *)
Definition collect {A B S} (f : A → S → res (S * list B)) : list A → S → res (S * list B) :=
  fix go l s :=
    match l with
    | [] => Ret (s, [])
    | x :: l => r ← f x s; r' ← go l r.1; Ret (r'.1, r.2 ++ r'.2)
    end.

Definition specAddr (args : gmap id argInfo) (arg : Arg) : Z :=
  match args !! argId arg with Some info => ai_Addr info | None => 0 end.

Definition specChunk (args : gmap id argInfo) (chunk : CsumChunk) : res ExecCsumChunk :=
  match chunk with
  | CsumChunkArg arg =>
      size ← argSize tbl h arg; Ret (mkChunk ExecArgCsumChunkData (specAddr args arg) size)
  | CsumChunkConst value size => Ret (mkChunk ExecArgCsumChunkConst value size)
  end.

Definition specCsum (args : gmap id argInfo) (e : Arg * list CsumChunk) : res ExecCopyin :=
  t ← argType tbl h e.1;
  match t with
  | CsumType _ _ _ _ =>
      size ← argSize tbl h e.1;
      chunks ← mapM (specChunk args) e.2;
      Ret (mkCopyin (specAddr args e.1) (Some (ExecArgCsum size ExecArgCsumInet chunks)))
  | _ => Panic
  end.

Definition specCopyoutVisit (v : visit) (s : places) : res (places * list ExecCopyout) :=
  used ← resultUsed h (v_arg v);
  if used : bool then
    let p := argId (v_arg v) in
    let info := default (mkInfo 0 0 false) (s.1 !! p) in
    if ai_Ret info then Ret (s, [])
    else
      size ← argSize tbl h (v_arg v);
      Ret ((<[p := mkInfo (ai_Addr info) s.2 false]> s.1, u64 (s.2 + 1)), [mkCopyout s.2 (ai_Addr info) size])
  else Ret (s, []).

Definition specRet (c : Call) (s : places) : res (places * Z) :=
  match c_Ret c with
  | None => Ret (s, ExecNoCopyout)
  | Some p =>
      r ← of_option (h_results h !! p);
      if bool_decide (r_uses r = ∅) then Ret (s, ExecNoCopyout)
      else match s.1 !! p with
           | Some _ => Panic
           | None => Ret ((<[p := mkInfo 0 s.2 true]> s.1, u64 (s.2 + 1)), s.2)
           end
  end.

(** Checksums are computed after the other values, from the highest address down. *)
Definition specOrder (args : gmap id argInfo) (m : csumMapT) : csumMapT :=
  csumOrder (mkExec [] 0 false args 0) m.

Definition specCall (c : Call) (s : places) : res (places * SpecCall) :=
  csums ← calcChecksumsCall tbl h c;
  vs ← ForeachArg tbl h c;
  r ← collect (specCopyinVisit csums) vs s.1;
  sums ← mapM (specCsum r.1) (specOrder r.1 csums.1);
  ret ← specRet c (r.1, s.2);
  args ← mapM (specArg ret.1.1) (c_Args c);
  out ← collect specCopyoutVisit vs ret.1;
  Ret (out.1, mkSpecCall (c_Meta c) (c_Props c) ret.2 args (r.2 ++ sums) out.2).

Definition specProg (calls : list Call) : res (places * list SpecCall) :=
  collect (λ c s, r ← specCall c s; Ret (r.1, [r.2])) calls (∅, 0).

End Spec.

(** ** Encoding *)

(** The format: words and padded blobs. *)
Inductive token := TWord (v : Z) | TBlob (data : list Z).

Definition padding (data : list Z) : nat := Z.to_nat ((- Z.of_nat (length data)) `mod` 8).

Definition tokenBytes (big : bool) (t : token) : list Z :=
  match t with
  | TWord v => putUint64 big v
  | TBlob data => data ++ replicate (padding data) 0
  end.

Definition tokensBytes (big : bool) (ts : list token) : list Z := concat (tokenBytes big <$> ts).

(** The word with the size, format and bitfield of a constant. *)
Definition constMeta (size fmt bfOffset bfLength pidStride : Z) : Z :=
  Z.lor (Z.lor (Z.lor (Z.lor size (u64 (Z.shiftl fmt 8))) (u64 (Z.shiftl bfOffset 16)))
    (u64 (Z.shiftl bfLength 24))) (u64 (Z.shiftl pidStride 32)).

Definition resultMeta (size fmt : Z) : Z := Z.lor size (u64 (Z.shiftl fmt 8)).

Definition encArg (a : option ExecArg) : list token :=
  match a with
  | None => []
  | Some (ExecArgConst size fmt val off len stride) =>
      [TWord execArgConst; TWord (constMeta size fmt off len stride); TWord val]
  | Some (ExecArgResult size fmt index div add def) =>
      [TWord execArgResult; TWord (resultMeta size fmt); TWord index; TWord div; TWord add; TWord def]
  | Some (ExecArgData data readable) =>
      [TWord execArgData;
       TWord (if readable then Z.lor (Z.of_nat (length data)) execArgDataReadable else Z.of_nat (length data));
       TBlob data]
  | Some (ExecArgCsum size kind chunks) =>
      [TWord execArgCsum; TWord size; TWord kind; TWord (Z.of_nat (length chunks))] ++
      concat ((λ c, [TWord (ec_Kind c); TWord (ec_Value c); TWord (ec_Size c)]) <$> chunks)
  end.

Definition encCopyin (c : ExecCopyin) : list token :=
  [TWord execInstrCopyin; TWord (ci_Addr c)] ++ encArg (ci_Arg c).

Definition encCopyout (c : ExecCopyout) : list token :=
  [TWord execInstrCopyout; TWord (co_Index c); TWord (co_Addr c); TWord (co_Size c)].

Definition encProps (p : CallProps) : list token :=
  if bool_decide (p = mkProps 0 false 0) then []
  else [TWord execInstrSetProps; TWord (u64 (FailNth p)); TWord (boolVal (Async p)); TWord (u64 (Rerun p))].

Definition encCall (c : SpecCall) : list token :=
  concat (encCopyin <$> s_Copyin c) ++ encProps (s_Props c) ++
  [TWord (Z.of_nat (sc_ID (s_Meta c))); TWord (s_Index c); TWord (Z.of_nat (length (s_Args c)))] ++
  concat (encArg <$> s_Args c) ++ concat (encCopyout <$> s_Copyout c).

Definition encProg (calls : list SpecCall) : list token :=
  concat (encCall <$> calls) ++ [TWord execInstrEOF].

(** ** The serializer writes the encoding *)

Definition emitTok (big : bool) (w : execContext) (t : token) : execContext :=
  match t with
  | TWord v => write big v w
  | TBlob data => writeBlob data w
  end.

Definition emit (big : bool) (ts : list token) (w : execContext) : execContext := foldl (emitTok big) w ts.

Definition setPlaces (s : places) (w : execContext) : execContext :=
  mkExec (w_out w) (w_free w) (w_eof w) s.1 s.2.

Definition getPlaces (w : execContext) : places := (w_args w, w_copyoutSeq w).

Lemma emit_app big ts1 ts2 w : emit big (ts1 ++ ts2) w = emit big ts2 (emit big ts1 w).
Proof. apply foldl_app. Qed.

Lemma emit_cons big t ts w : emit big (t :: ts) w = emit big ts (emitTok big w t).
Proof. done. Qed.

Lemma emitTok_places big t w s : emitTok big (setPlaces s w) t = setPlaces s (emitTok big w t).
Proof.
  destruct t as [v|data]; unfold emitTok, write, writeBlob; cbv zeta; cbn [w_free setPlaces]; by case_bool_decide.
Qed.

Lemma emit_places big ts w s : emit big ts (setPlaces s w) = setPlaces s (emit big ts w).
Proof. revert w. induction ts as [|t ts IH]; intros w; [done|]. rewrite !emit_cons, emitTok_places. apply IH. Qed.

Lemma emitTok_get big t w : getPlaces (emitTok big w t) = getPlaces w.
Proof. destruct t as [v|data]; unfold emitTok, write, writeBlob; cbv zeta; by case_bool_decide. Qed.

Lemma emit_get big ts w : getPlaces (emit big ts w) = getPlaces w.
Proof. revert w. induction ts as [|t ts IH]; intros w; [done|]. rewrite emit_cons, IH. apply emitTok_get. Qed.

Lemma emit_args big ts w : w_args (emit big ts w) = w_args w.
Proof. pose proof (emit_get big ts w) as Hg. by injection Hg. Qed.

Lemma emit_seq big ts w : w_copyoutSeq (emit big ts w) = w_copyoutSeq w.
Proof. pose proof (emit_get big ts w) as Hg. by injection Hg. Qed.

(** Case analysis on the results of the calls that both sides make. *)
Ltac same_calls :=
  repeat match goal with
  | |- context [ mbind _ ?m ] =>
      lazymatch m with
      | Ret _ => fail
      | _ => destruct m; cbn [mbind res_bind]; [|reflexivity|reflexivity]
      end
  end.

Lemma writeArg_spec big target h arg w :
  writeArg big target h arg w =
  (a ← specArg target h (w_args w) arg; Ret (emit big (encArg a) w)).
Proof.
  revert w. induction arg as [a val|a ad vs pt|a d s|a inner|a opt IH i|p]; intros w; cbn [writeArg specArg].
  - by same_calls.
  - by same_calls.
  - destruct (dataOf _ _) as [l| |]; cbn [mbind res_bind]; [|done..]. case_bool_decide; [done|]. by same_calls.
  - done.
  - apply IH.
  - destruct (of_option (h_results h !! p)) as [r| |]; cbn [mbind res_bind]; [|done..]. destruct (r_Res r); unfold writeResultRef; by same_calls.
Qed.

(** A loop of the serializer and a loop that collects, when their bodies agree. *)
Lemma forW_collect {A B} big (f : A → execContext → res execContext) (g : A → places → res (places * list B))
    (enc : B → list token) l w :
  (∀ x w, f x w = (r ← g x (getPlaces w); Ret (emit big (concat (enc <$> r.2)) (setPlaces r.1 w)))) →
  forW f l w = (r ← collect g l (getPlaces w); Ret (emit big (concat (enc <$> r.2)) (setPlaces r.1 w))).
Proof.
  intros Hf. revert w. induction l as [|x l IH]; intros w; [by destruct w|]. cbn [forW collect]. rewrite Hf.
  destruct (g x (getPlaces w)) as [[s bs]| |]; cbn [mbind res_bind]; [|done..].
  fold (forW f l). rewrite IH, emit_get. unfold getPlaces at 1. cbn [setPlaces w_args w_copyoutSeq fst snd].
  destruct s as [sa sq]. cbn [fst snd].
  fold (collect g l). destruct (collect g l (sa, sq)) as [[s' bs']| |]; cbn [mbind res_bind]; [|done..]. f_equal. cbn [fst snd].
  rewrite fmap_app, concat_app, emit_app. f_equal. rewrite <- emit_places. f_equal.
Qed.

(** The same for a loop that only writes. *)
Lemma forW_mapM {A B} big (f : A → execContext → res execContext) (g : gmap id argInfo → A → res B)
    (enc : B → list token) l w :
  (∀ x w, f x w = (b ← g (w_args w) x; Ret (emit big (enc b) w))) →
  forW f l w = (bs ← mapM (g (w_args w)) l; Ret (emit big (concat (enc <$> bs)) w)).
Proof.
  intros Hf. revert w. induction l as [|x l IH]; intros w; [done|]. cbn [forW mapM]. rewrite Hf.
  destruct (g (w_args w) x) as [b| |]; cbn [mbind res_bind]; [|done..]. fold (forW f l).
  rewrite IH, emit_args. destruct (mapM (g (w_args w)) l) as [bs| |]; cbn [mbind res_bind]; [|done..].
  cbn [mret res_ret mbind res_bind]. by rewrite fmap_cons, <- emit_app.
Qed.

Lemma mapM_ret_length {A B} (f : A → res B) l bs : mapM f l = Ret bs → length bs = length l.
Proof.
  revert bs. induction l as [|x l IH]; intros bs; cbn [mapM]; [by intros [= <-]|].
  destruct (f x) as [b| |]; cbn [mbind res_bind]; [|done..].
  destruct (mapM f l) as [bs'| |]; cbn [mbind res_bind]; [|done..]. intros [= <-]. simpl. by rewrite (IH bs').
Qed.

(** A collecting loop that keeps the second component of the places. *)
Lemma places_collected {A B} (g : A → gmap id argInfo → res (gmap id argInfo * list B)) l a (q : Z) :
  collect (λ x (s : places), r ← g x s.1; Ret ((r.1, s.2), r.2)) l (a, q) =
  (r ← collect g l a; Ret ((r.1, q), r.2)).
Proof.
  revert a. induction l as [|x l IH]; intros a; [done|]. cbn [collect fst snd].
  destruct (g x a) as [[a' bs]| |]; cbn [mbind res_bind fst snd]; [|done..].
  fold (collect (λ x (s : places), r ← g x s.1; Ret ((r.1, s.2), r.2)) l). fold (collect g l). rewrite IH.
  by destruct (collect g l a').
Qed.

Lemma csumOrder_args w m : csumOrder w m = specOrder (w_args w) m.
Proof. reflexivity. Qed.

Section Refine.

Context (big : bool) (target : Target) (h : Heap).

Local Notation tbl := (typeRefs target).

Lemma copyinVisit_spec csums v w :
  copyinVisit big target h csums v w =
  (r ← specCopyinVisit target h csums v (w_args w);
   Ret (emit big (concat (encCopyin <$> r.2)) (setPlaces (r.1, w_copyoutSeq w) w))).
Proof.
  unfold copyinVisit, specCopyinVisit. destruct (v_base v) as [base|]; [|by destruct w].
  same_calls. cbv zeta. set (addr := u64 (_ - _)).
  set (w1 := if _ : bool then setArg _ _ w else w).
  set (args1 := if _ : bool then <[_ := _]> (w_args w) else w_args w).
  assert (Hw1 : w1 = setPlaces (args1, w_copyoutSeq w) w) by (unfold w1, args1; destruct a1; by destruct w).
  destruct (v_arg v) eqn:Ev; try (cbn [mbind res_bind]; by rewrite Hw1).
  all: same_calls; (destruct (_ || _); [cbn [mbind res_bind]; by rewrite Hw1|]); same_calls;
    (destruct (_ && _); [cbn [mbind res_bind]; by rewrite Hw1|]); rewrite writeArg_spec;
    change (write big addr (write big execInstrCopyin w1)) with (emit big [TWord execInstrCopyin; TWord addr] w1);
    rewrite emit_args, Hw1; cbn [setPlaces w_args fst];
    (match goal with |- context [ specArg ?t ?hh ?aa ?x ] => destruct (specArg t hh aa x) end);
    cbn [mbind res_bind]; [|done..]; f_equal; cbn [fst snd]; rewrite fmap_cons; cbn [fmap list_fmap concat];
    rewrite app_nil_r; unfold encCopyin; cbn [ci_Addr ci_Arg]; by rewrite emit_app.
Qed.

Lemma writeChunk_spec chunk w :
  writeChunk big target h chunk w =
  (c ← specChunk target h (w_args w) chunk;
   Ret (emit big [TWord (ec_Kind c); TWord (ec_Value c); TWord (ec_Size c)] w)).
Proof.
  destruct chunk as [arg|value size]; [|done]. cbn [writeChunk specChunk]. by same_calls.
Qed.

Lemma writeCsum_spec e w :
  writeCsum big target h e w =
  (c ← specCsum target h (w_args w) e; Ret (emit big (encCopyin c) w)).
Proof.
  unfold writeCsum, specCsum. destruct (argType tbl h e.1) as [t| |]; cbn [mbind res_bind]; [|done..].
  destruct t; try done. same_calls. cbv zeta.
  change (write big execInstrCopyin w) with (emit big [TWord execInstrCopyin] w).
  unfold addrOf. rewrite emit_args. fold (specAddr (w_args w) e.1).
  change (write big (Z.of_nat (length e.2)) _) with
    (emit big [TWord execInstrCopyin; TWord (specAddr (w_args w) e.1); TWord execArgCsum; TWord a;
               TWord ExecArgCsumInet; TWord (Z.of_nat (length e.2))] w).
  rewrite (forW_mapM big _ (specChunk target h) (λ c, [TWord (ec_Kind c); TWord (ec_Value c); TWord (ec_Size c)]))
    by (intros; apply writeChunk_spec).
  rewrite emit_args. destruct (mapM _ e.2) as [chunks| |] eqn:Em; cbn [mbind res_bind]; [|done..].
  apply mapM_ret_length in Em. rewrite <- emit_app. f_equal. unfold encCopyin. cbn [ci_Addr ci_Arg encArg].
  by rewrite Em.
Qed.

Lemma writeCopyin_spec csums c w :
  writeCopyin big target h csums c w =
  (vs ← ForeachArg tbl h c;
   r ← collect (specCopyinVisit target h csums) vs (w_args w);
   Ret (emit big (concat (encCopyin <$> r.2)) (setPlaces (r.1, w_copyoutSeq w) w))).
Proof.
  unfold writeCopyin. destruct (ForeachArg tbl h c) as [vs| |]; cbn [mbind res_bind]; [|done..].
  rewrite (forW_collect big _
    (λ v s, r ← specCopyinVisit target h csums v s.1; Ret ((r.1, s.2), r.2)) encCopyin).
  2:{ intros v w'. rewrite copyinVisit_spec. cbn [getPlaces fst snd].
      by destruct (specCopyinVisit target h csums v (w_args w')). }
  unfold getPlaces. rewrite places_collected. by destruct (collect _ vs (w_args w)).
Qed.

Lemma copyoutVisit_spec v w :
  copyoutVisit big target h v w =
  (r ← specCopyoutVisit target h v (getPlaces w);
   Ret (emit big (concat (encCopyout <$> r.2)) (setPlaces r.1 w))).
Proof.
  unfold copyoutVisit, specCopyoutVisit. destruct (resultUsed h (v_arg v)) as [[]| |];
    cbn [mbind res_bind]; [|by destruct w|done..]. cbn [getPlaces fst snd].
  destruct (ai_Ret _); [by destruct w|]. same_calls. done.
Qed.

Lemma writeRet_spec c w :
  writeRet big h c w =
  (r ← specRet h c (getPlaces w); Ret (emit big [TWord r.2] (setPlaces r.1 w))).
Proof.
  unfold writeRet, specRet. destruct (c_Ret c) as [p|]; [|by destruct w]. same_calls.
  case_bool_decide; [by destruct w|]. cbn [getPlaces fst snd]. destruct (w_args w !! p); [done|].
  cbn [mbind res_bind fst snd]. f_equal. cbn [emit foldl emitTok]. unfold incSeq, write, setArg, setPlaces. simpl.
  case_bool_decide; done.
Qed.

Lemma serializeStep_spec c w :
  serializeStep big target h c w =
  (r ← specCall target h c (getPlaces w); Ret (emit big (encCall r.2) (setPlaces r.1 w))).
Proof.
  unfold serializeStep, specCall, serializeCall.
  destruct (calcChecksumsCall tbl h c) as [csums| |]; cbn [mbind res_bind]; [|done..].
  rewrite writeCopyin_spec. unfold writeCopyout.
  destruct (ForeachArg tbl h c) as [vs| |]; cbn [mbind res_bind]; [|done..]. cbn [getPlaces fst snd].
  destruct (collect _ vs (w_args w)) as [[args1 ins]| |]; cbn [mbind res_bind fst snd]; [|done..].
  unfold writeChecksums. rewrite csumOrder_args, emit_args.
  rewrite (forW_mapM big _ (specCsum target h) encCopyin) by (intros; apply writeCsum_spec).
  rewrite emit_args. cbn [setPlaces w_args fst].
  destruct (mapM (specCsum target h args1) _) as [sums| |]; cbn [mbind res_bind]; [|done..].
  set (w1 := emit big _ (emit big _ _)).
  assert (Hw2 : (if bool_decide (c_Props c = mkProps 0 false 0) then w1 else writeCallProps big (c_Props c) w1) =
                emit big (encProps (c_Props c)) w1).
  { unfold encProps. by case_bool_decide. }
  rewrite Hw2.
  change (write big (Z.of_nat (sc_ID (c_Meta c))) (emit big (encProps (c_Props c)) w1)) with
    (emit big [TWord (Z.of_nat (sc_ID (c_Meta c)))] (emit big (encProps (c_Props c)) w1)).
  assert (Hg1 : getPlaces w1 = (args1, w_copyoutSeq w)) by (unfold w1; by rewrite !emit_get).
  rewrite writeRet_spec, !emit_get, Hg1.
  destruct (specRet h c (args1, w_copyoutSeq w)) as [[s2 idx]| |]; cbn [mbind res_bind fst snd]; [|done..].
  set (w3 := write big _ _).
  assert (Hw3 : getPlaces w3 = s2).
  { unfold w3. change (write big ?v ?x) with (emit big [TWord v] x). rewrite !emit_get. by destruct s2. }
  rewrite (forW_mapM big _ (specArg target h) encArg) by (intros; apply writeArg_spec).
  assert (Ha3 : w_args w3 = s2.1) by (by rewrite <- Hw3). rewrite Ha3.
  destruct (mapM (specArg target h s2.1) (c_Args c)) as [args| |] eqn:Em; cbn [mbind res_bind]; [|done..].
  rewrite (forW_collect big _ (specCopyoutVisit target h) encCopyout) by (intros; apply copyoutVisit_spec).
  rewrite emit_get, Hw3.
  destruct (collect _ vs s2) as [[s4 outs]| |]; cbn [mbind res_bind fst snd]; [|done..]. f_equal.
  apply mapM_ret_length in Em. unfold encCall. cbn [s_Copyin s_Props s_Meta s_Index s_Args s_Copyout].
  rewrite Em. unfold w3, w1. clear.
  change (write big ?v ?x) with (emit big [TWord v] x).
  rewrite <- !emit_places, !emit_app, fmap_app, concat_app, emit_app. cbn [app]. rewrite !emit_cons. done.
Qed.

End Refine.

(** ** What fits into the buffer *)

Definition tokensLen (ts : list token) : Z := Z.of_nat (length (tokensBytes false ts)).

Lemma putUint64_length big v : length (putUint64 big v) = 8%nat.
Proof. unfold putUint64. destruct big; rewrite ?length_reverse; apply leBytes_length. Qed.

Lemma tokenBytes_length big t : length (tokenBytes big t) = length (tokenBytes false t).
Proof. destruct t; simpl; [by rewrite !putUint64_length|done]. Qed.

Lemma tokensBytes_length big ts : Z.of_nat (length (tokensBytes big ts)) = tokensLen ts.
Proof.
  unfold tokensLen, tokensBytes. induction ts as [|t ts IH]; [done|]. rewrite !fmap_cons. cbn [concat].
  rewrite !length_app, (tokenBytes_length big). lia.
Qed.

Lemma padding_pad data :
  let n := Z.of_nat (length data) in
  let pad := 8 - n `mod` 8 in
  (if bool_decide (pad ≠ 8) then n + pad else n) = n + Z.of_nat (padding data).
Proof.
  cbv zeta. unfold padding. set (n := Z.of_nat (length data)).
  pose proof (Z.mod_pos_bound n 8 ltac:(lia)). pose proof (Z.mod_pos_bound (- n) 8 ltac:(lia)).
  rewrite Z2Nat.id by lia. case_bool_decide.
  - rewrite Z.mod_opp_l_nz by lia. lia.
  - rewrite Z.mod_opp_l_z by lia. lia.
Qed.

(** A token is written when there is room for it. *)
Lemma emitTok_spec big w t :
  let n := Z.of_nat (length (tokenBytes big t)) in
  emitTok big w t = if bool_decide (w_free w < n) then setEof w else emitBytes (tokenBytes big t) w.
Proof.
  destruct t as [v|data]; cbn [emitTok tokenBytes]; cbv zeta.
  - unfold write. by rewrite putUint64_length.
  - unfold writeBlob. cbv zeta. rewrite padding_pad. rewrite length_app, length_replicate.
    replace (Z.to_nat (Z.of_nat (length data) + Z.of_nat (padding data) - Z.of_nat (length data)))
      with (padding data) by lia.
    replace (Z.of_nat (length data + padding data)) with (Z.of_nat (length data) + Z.of_nat (padding data)) by lia.
    done.
Qed.

Lemma tokensLen_cons big t ts : tokensLen (t :: ts) = Z.of_nat (length (tokenBytes big t)) + tokensLen ts.
Proof.
  unfold tokensLen, tokensBytes. rewrite fmap_cons. cbn [concat]. rewrite length_app, (tokenBytes_length big). lia.
Qed.

Lemma emit_fits big ts w : tokensLen ts ≤ w_free w →
  emit big ts w = mkExec (w_out w ++ tokensBytes big ts) (w_free w - tokensLen ts) (w_eof w) (w_args w) (w_copyoutSeq w).
Proof.
  revert w. induction ts as [|t ts IH]; intros w Hfit.
  { unfold tokensBytes, tokensLen. simpl. rewrite app_nil_r, Z.sub_0_r. by destruct w. }
  rewrite (tokensLen_cons big) in *. assert (0 ≤ tokensLen ts) by (unfold tokensLen; lia).
  rewrite emit_cons, emitTok_spec. cbv zeta. rewrite bool_decide_false by lia.
  rewrite IH by (cbn [emitBytes w_free]; lia). cbn [emitBytes w_out w_free w_eof w_args w_copyoutSeq].
  f_equal; [|lia]. unfold tokensBytes. rewrite fmap_cons. cbn [concat]. by rewrite app_assoc.
Qed.

Lemma emit_eof big ts w : w_eof w = true → w_eof (emit big ts w) = true.
Proof.
  revert w. induction ts as [|t ts IH]; intros w He; [done|]. rewrite emit_cons. apply IH.
  rewrite emitTok_spec. cbv zeta. by case_bool_decide.
Qed.

Lemma emit_short big ts w : w_free w < tokensLen ts → 0 ≤ w_free w → w_eof (emit big ts w) = true.
Proof.
  revert w. induction ts as [|t ts IH]; intros w Hs Hf; [unfold tokensLen in Hs; simpl in Hs; lia|].
  rewrite (tokensLen_cons big) in Hs. rewrite emit_cons, emitTok_spec. cbv zeta. case_bool_decide.
  - by apply emit_eof.
  - apply IH; cbn [emitBytes w_free]; lia.
Qed.

Lemma serialize_spec big target h calls len : 0 ≤ len →
  SerializeForExec big target h calls len =
  (r ← specProg target h calls;
   Ret (if bool_decide (tokensLen (encProg r.2) ≤ len ∧ r.1.2 ≤ execMaxCommands)
        then Some (tokensBytes big (encProg r.2)) else None)).
Proof.
  intros Hlen. unfold SerializeForExec, specProg.
  rewrite (forW_collect big _ (λ c s, r ← specCall target h c s; Ret (r.1, [r.2])) encCall).
  2:{ intros c w. rewrite serializeStep_spec. destruct (specCall target h c (getPlaces w)) as [[s sc]| |];
        cbn [mbind res_bind fst snd fmap list_fmap concat]; [|done..]. by rewrite app_nil_r. }
  change (getPlaces (mkExec [] len false ∅ 0)) with ((∅, 0) : places).
  destruct (collect _ calls _) as [[s scs]| |]; cbn [mbind res_bind fst snd]; [|done..]. cbv zeta.
  set (w0 := setPlaces s (mkExec [] len false ∅ 0)).
  change (write big execInstrEOF (emit big (concat (encCall <$> scs)) w0)) with
    (emit big [TWord execInstrEOF] (emit big (concat (encCall <$> scs)) w0)).
  rewrite <- emit_app. fold (encProg scs). rewrite emit_seq. cbn [w0 setPlaces w_copyoutSeq].
  destruct (decide (tokensLen (encProg scs) ≤ len)) as [Hfit|Hfit].
  - rewrite emit_fits by (cbn [w0 setPlaces w_free]; lia). cbn [w_eof w_out w0 setPlaces orb app].
    destruct (decide (s.2 ≤ execMaxCommands)).
    + rewrite (bool_decide_false (execMaxCommands < s.2)) by lia. by rewrite bool_decide_true by done.
    + rewrite (bool_decide_true (execMaxCommands < s.2)) by lia. by rewrite bool_decide_false by naive_solver.
  - rewrite emit_short by (cbn [w0 setPlaces w_free]; lia). cbn [orb].
    by rewrite bool_decide_false by naive_solver.
Qed.

(** C17: serialization refines the meaning of the program: it panics only where
    the meaning does, it writes exactly the encoding of the meaning, and it
    reports a too small buffer exactly when the encoding does not fit or more
    than [execMaxCommands] results are kept. *)
Theorem SerializeForExec_refines big target h calls len : 0 ≤ len →
  SerializeForExec big target h calls len =
  (r ← specProg target h calls;
   Ret (if bool_decide (tokensLen (encProg r.2) ≤ len ∧ r.1.2 ≤ execMaxCommands)
        then Some (tokensBytes big (encProg r.2)) else None)).
Proof. apply serialize_spec. Qed.

(** A program of one call with one integer argument. *)
Definition intTarget : Target :=
  let c := mkITC (mkTC "int32" 4 4 false false) FormatNative 0 0 0 0 in
  mkTarget [ConstType c 0 false; IntType c IntPlain 0 0 0] 4096 16 0x20000000 [0]
    [mkSyscall 0 "f" [mkField "x" 1 false DirIn] None false] 0.

Definition intCalls : list Call :=
  [mkCall (mkSyscall 0 "f" [mkField "x" 1 false DirIn] None false) [ConstArg (mkAC 1 1 DirIn) 7] None (mkProps 0 false 0)].

Lemma SerializeForExec_refines_witness :
  ∃ out, SerializeForExec false intTarget (mkHeap 2 ∅) intCalls 4096 = Ret (Some out) ∧ length out = 56%nat.
Proof.
  rewrite (SerializeForExec_refines false intTarget (mkHeap 2 ∅) intCalls 4096) by lia.
  eexists. split; [vm_compute; reflexivity|]. reflexivity.
Defined.
