(* ===== verification/ExecRoundtrip.v ===== *)
(** * Round trip of the executor format

    Decoding what the serializer writes gives back the meaning of the program:
    the calls with their properties, arguments, the values copied in and the
    results copied out. *)

From stdpp Require Import base numbers strings gmap list.
From S2P Require Import Prelude Word ProgTypes ProgArgs ProgTree ExecEncode ExecDecode ExecSpec.

Local Open Scope Z_scope.

(** ** Values that fit into the format *)

Definition isU8 (z : Z) : Prop := 0 ≤ z < 2 ^ 8.

Definition chunkFits (c : ExecCsumChunk) : Prop := isU64 (ec_Kind c) ∧ isU64 (ec_Value c) ∧ isU64 (ec_Size c).

Definition argFits (a : ExecArg) : Prop :=
  match a with
  | ExecArgConst size fmt val off len stride =>
      isU8 size ∧ isU8 fmt ∧ isU64 val ∧ isU8 off ∧ isU8 len ∧ 0 ≤ stride < 2 ^ 32
  | ExecArgResult size fmt index div add def =>
      isU8 size ∧ isU8 fmt ∧ isU64 index ∧ isU64 div ∧ isU64 add ∧ isU64 def
  | ExecArgData data _ => Z.of_nat (length data) < 2 ^ 63
  | ExecArgCsum size kind chunks =>
      isU64 size ∧ kind = ExecArgCsumInet ∧ makePanics (Z.of_nat (length chunks)) = false ∧ Forall chunkFits chunks
  end.

(** An argument of the call itself is a constant or a result. *)
Definition isCallArg (a : ExecArg) : Prop :=
  match a with ExecArgConst _ _ _ _ _ _ | ExecArgResult _ _ _ _ _ _ => True | _ => False end.

Record callFits (syscalls : list Syscall) (c : SpecCall) : Prop := {
  cf_meta : syscalls !! sc_ID (s_Meta c) = Some (s_Meta c);
  cf_id : Z.of_nat (sc_ID (s_Meta c)) < 2 ^ 63;
  cf_fail : - 2 ^ 63 ≤ FailNth (s_Props c) < 2 ^ 63;
  cf_rerun : - 2 ^ 63 ≤ Rerun (s_Props c) < 2 ^ 63;
  cf_index : isU64 (s_Index c);
  cf_count : isU64 (Z.of_nat (length (s_Args c)));
  cf_args : Forall (λ a, ∃ ea, a = Some ea ∧ argFits ea ∧ isCallArg ea) (s_Args c);
  cf_copyin : Forall (λ ci, isU64 (ci_Addr ci) ∧ ∃ ea, ci_Arg ci = Some ea ∧ argFits ea) (s_Copyin c);
  cf_copyout : Forall (λ co, isU64 (co_Index co) ∧ isU64 (co_Addr co) ∧ isU64 (co_Size co)) (s_Copyout c);
}.

(** ** Reading tokens *)

Section Read.

Context (big : bool).

Local Notation bytes := (tokensBytes big).

Lemma bytes_cons t ts : bytes (t :: ts) = tokenBytes big t ++ bytes ts.
Proof. done. Qed.

Lemma getUint64_put v : isU64 v → getUint64 big (putUint64 big v) = v.
Proof.
  intros Hv. unfold getUint64, putUint64. destruct big; rewrite ?reverse_involutive; by apply leVal_leBytes_small.
Qed.

Lemma read_word v ts n vars c cs : isU64 v →
  read big (mkDec (bytes (TWord v :: ts)) None n vars c cs) = (v, mkDec (bytes ts) None n vars c cs).
Proof.
  intros Hv. unfold read. cbn [d_data]. rewrite bytes_cons. cbn [tokenBytes].
  rewrite bool_decide_false by (rewrite length_app, putUint64_length; lia). cbn [d_err d_data setData d_numVars d_vars d_call d_calls].
  rewrite take_app_length', drop_app_length' by (by rewrite putUint64_length). by rewrite getUint64_put.
Qed.

Lemma padded_size data : Z.of_nat (length data) < 2 ^ 63 →
  u64 (u64 (Z.of_nat (length data) + 7) `div` 8 * 8) = Z.of_nat (length data + padding data).
Proof.
  intros Hlt. unfold padding. set (n := Z.of_nat (length data)) in *. assert (0 ≤ n) by lia.
  pose proof (Z.mod_pos_bound (- n) 8 ltac:(lia)). rewrite (u64_id (n + 7)) by (unfold isU64; lia).
  assert (Hd : (n + 7) `div` 8 * 8 = n + (- n) `mod` 8).
  { pose proof (Z.div_mod (- n) 8 ltac:(lia)) as Hm. set (q := (- n) `div` 8) in *. set (r := (- n) `mod` 8) in *.
    assert ((n + 7) `div` 8 = - q) as ->; [|lia]. symmetry. apply (Z.div_unique _ _ _ (7 - r)); lia. }
  rewrite Hd, u64_id by (unfold isU64; lia). lia.
Qed.

Lemma read_blob data ts n vars c cs : Z.of_nat (length data) < 2 ^ 63 →
  readBlob (Z.of_nat (length data)) (mkDec (bytes (TBlob data :: ts)) None n vars c cs) =
  (data, mkDec (bytes ts) None n vars c cs).
Proof.
  intros Hlt. unfold readBlob. cbn [d_data]. rewrite (padded_size data Hlt), bytes_cons. cbn [tokenBytes].
  rewrite bool_decide_false by (rewrite !length_app, length_replicate; lia).
  cbn [d_err d_data setData d_numVars d_vars d_call d_calls]. rewrite !Nat2Z.id, <- app_assoc.
  rewrite take_app_length. f_equal. rewrite app_assoc.
  rewrite drop_app_length'; [done|]. by rewrite length_app, length_replicate.
Qed.

Lemma read_chunks chunks ts n vars c cs : Forall chunkFits chunks →
  readChunks big (length chunks)
    (mkDec (bytes (concat ((λ c, [TWord (ec_Kind c); TWord (ec_Value c); TWord (ec_Size c)]) <$> chunks) ++ ts))
       None n vars c cs) = (chunks, mkDec (bytes ts) None n vars c cs).
Proof.
  induction chunks as [|ch chunks IH]; intros Hf; [done|]. apply Forall_cons in Hf as [(Hk & Hv & Hs) Hf].
  rewrite fmap_cons. cbn [length readChunks concat app]. rewrite !read_word by done. rewrite IH by done.
  by destruct ch.
Qed.

(** ** The packed word of a constant *)

Lemma shiftl_u64 z n : 0 ≤ n → 0 ≤ z → z * 2 ^ n < 2 ^ 64 → u64 (Z.shiftl z n) = Z.shiftl z n.
Proof. intros Hn Hz Hlt. rewrite Z.shiftl_mul_pow2 by lia. apply u64_id. unfold isU64. split; [|done]. nia. Qed.

Lemma resultMeta_val size fmt : isU8 size → isU8 fmt → resultMeta size fmt = size + fmt * 2 ^ 8.
Proof.
  unfold isU8. intros Hs Hf. unfold resultMeta. rewrite shiftl_u64 by lia. by rewrite lor_shiftl_add by lia.
Qed.

Lemma constMeta_val size fmt off len stride : isU8 size → isU8 fmt → isU8 off → isU8 len → 0 ≤ stride < 2 ^ 32 →
  constMeta size fmt off len stride = size + (fmt + (off + (len + stride * 2 ^ 8) * 2 ^ 8) * 2 ^ 8) * 2 ^ 8.
Proof.
  unfold isU8. intros Hs Hf Ho Hl Hst. unfold constMeta. rewrite !shiftl_u64 by lia.
  rewrite (lor_shiftl_add size) by lia. rewrite (lor_shiftl_add _ off) by lia.
  rewrite (lor_shiftl_add _ len) by lia. rewrite (lor_shiftl_add _ stride) by lia. lia.
Qed.

Lemma land_ff z : Z.land z 0xff = z `mod` 2 ^ 8.
Proof. apply (land_ones_mod z 8). lia. Qed.

Lemma shiftr_shiftr8 z n : 0 ≤ n → Z.shiftr z (n + 8) = Z.shiftr (Z.shiftr z 8) n.
Proof. intros Hn. rewrite Z.shiftr_shiftr by lia. f_equal. lia. Qed.

Lemma constMeta_fields size fmt off len stride :
  isU8 size → isU8 fmt → isU8 off → isU8 len → 0 ≤ stride < 2 ^ 32 →
  let meta := constMeta size fmt off len stride in
  isU64 meta ∧ Z.land meta 0xff = size ∧ Z.land (Z.shiftr meta 8) 0xff = fmt ∧
  Z.land (Z.shiftr meta 16) 0xff = off ∧ Z.land (Z.shiftr meta 24) 0xff = len ∧ Z.shiftr meta 32 = stride.
Proof.
  intros Hs Hf Ho Hl Hst. cbv zeta. rewrite constMeta_val by done. unfold isU8, isU64 in *. rewrite !land_ff.
  split; [lia|].
  rewrite (shiftr_shiftr8 _ 8), (shiftr_shiftr8 _ 16), (shiftr_shiftr8 _ 24) by lia.
  rewrite (field_high size) by lia. rewrite (shiftr_shiftr8 _ 8), (shiftr_shiftr8 _ 16) by lia.
  rewrite (field_high fmt) by lia. rewrite (shiftr_shiftr8 _ 8) by lia. rewrite (field_high off) by lia.
  rewrite (field_high len) by lia. rewrite !field_low by lia. done.
Qed.

Lemma resultMeta_fields size fmt : isU8 size → isU8 fmt →
  let meta := resultMeta size fmt in
  isU64 meta ∧ Z.land meta 0xff = size ∧ Z.land (Z.shiftr meta 8) 0xff = fmt.
Proof.
  intros Hs Hf. cbv zeta. rewrite resultMeta_val by done. unfold isU8, isU64 in *. rewrite !land_ff.
  split; [lia|]. rewrite field_low, field_high by lia. split; [done|]. by apply Z.mod_small.
Qed.

(** The flag of readable data is the top bit of its size. *)
Lemma data_flags len (readable : bool) : 0 ≤ len < 2 ^ 63 →
  let flags := if readable then Z.lor len execArgDataReadable else len in
  isU64 flags ∧ Z.land flags (Z.lxor execArgDataReadable (2 ^ 64 - 1)) = len ∧
  bool_decide (Z.land flags execArgDataReadable ≠ 0) = readable.
Proof.
  intros Hlen. cbv zeta.
  assert (Hmask : Z.lxor execArgDataReadable (2 ^ 64 - 1) = 2 ^ 63 - 1) by reflexivity.
  assert (Hlow : Z.land len (2 ^ 63 - 1) = len) by (rewrite land_ones_mod by lia; by apply Z.mod_small).
  assert (Hhigh : Z.land len (2 ^ 63) = 0).
  { apply Z.bits_inj'. intros i Hi. rewrite Z.land_spec, Z.bits_0, Z.pow2_bits_eqb by lia.
    destruct (Z.eqb_spec 63 i) as [<-|]; [|by rewrite andb_false_r]. by rewrite (testbit_high len 63) by lia. }
  unfold execArgDataReadable in *. rewrite Hmask. destruct readable.
  - rewrite !Z.land_lor_distr_l, Hlow, Hhigh.
    change (Z.land (2 ^ 63) (2 ^ 63 - 1)) with 0. change (Z.land (2 ^ 63) (2 ^ 63)) with (2 ^ 63).
    rewrite Z.lor_0_r. split; [|done].
    replace (2 ^ 63) with (Z.shiftl 1 63) at 1 by reflexivity. rewrite lor_shiftl_add by lia.
    unfold isU64. lia.
  - rewrite Hlow, Hhigh. split; [unfold isU64; lia|]. done.
Qed.

End Read.

(** ** Decoding calls *)

(** The variables after an argument has been read. *)
Definition noteVar (vars : list Z) (a : ExecArg) : list Z :=
  match a with ExecArgResult _ _ index _ _ def => setVar index def vars | _ => vars end.

(** The arguments a call reads, in their order. *)
Definition argsOf (c : ExecCall) : list ExecArg := omap ci_Arg (e_Copyin c) ++ e_Args c.

Definition noteCall (vars : list Z) (c : ExecCall) : list Z := foldl noteVar vars (argsOf c).

(** The number of variables after a call has been committed. *)
Definition noteCount (n : Z) (c : ExecCall) : Z :=
  foldl (λ n co, if bool_decide (n < u64 (co_Index co + 1)) then u64 (co_Index co + 1) else n)
    (if bool_decide (e_Index c ≠ ExecNoCopyout ∧ n < u64 (e_Index c + 1)) then u64 (e_Index c + 1) else n)
    (e_Copyout c).

Definition execCallOf (c : SpecCall) : ExecCall :=
  mkExecCall (Some (s_Meta c)) (s_Props c) (s_Index c) (omap Datatypes.id (s_Args c)) (s_Copyin c) (s_Copyout c).

Section Parse.

Context (big : bool) (syscalls : list Syscall).

Local Notation bytes := (tokensBytes big).

Lemma readArg_enc a ts n vars c cs : argFits a →
  readArg big (mkDec (bytes (encArg (Some a) ++ ts)) None n vars c cs) =
  Ret (Some a, mkDec (bytes ts) None n (noteVar vars a) c cs).
Proof.
  intros Hf. destruct a as [size fmt val off len stride|size fmt index div add def|data readable|size kind chunks];
    cbn [encArg app]; unfold readArg; rewrite read_word by done.
  - destruct Hf as (Hs & Hfm & Hv & Ho & Hl & Hst).
    destruct (constMeta_fields size fmt off len stride Hs Hfm Ho Hl Hst) as (Hm & H1 & H2 & H3 & H4 & H5).
    rewrite bool_decide_true by done. rewrite !read_word by done. by rewrite H1, H2, H3, H4, H5.
  - destruct Hf as (Hs & Hfm & Hi & Hd & Ha & Hdef).
    destruct (resultMeta_fields size fmt Hs Hfm) as (Hm & H1 & H2).
    rewrite bool_decide_false, bool_decide_true by done. rewrite !read_word by done. by rewrite H1, H2.
  - cbn [argFits] in Hf. destruct (data_flags (Z.of_nat (length data)) readable) as (Hm & H1 & H2); [lia|].
    do 2 rewrite bool_decide_false by done. rewrite bool_decide_true by done.
    rewrite read_word by done. rewrite H1, H2. by rewrite read_blob.
  - destruct Hf as (Hs & -> & Hmk & Hch). do 3 rewrite bool_decide_false by done. rewrite bool_decide_true by done.
    rewrite !read_word by done. rewrite bool_decide_true by done.
    assert (Hn : isU64 (Z.of_nat (length chunks))).
    { unfold makePanics in Hmk. apply bool_decide_eq_false in Hmk. unfold isU64. lia. }
    rewrite read_word by done. rewrite Hmk, Nat2Z.id. by rewrite read_chunks.
Qed.

Lemma parseArgs_enc args ts n vars c cs :
  Forall (λ a, ∃ ea, a = Some ea ∧ argFits ea ∧ isCallArg ea) args →
  parseArgs big (length args) (mkDec (bytes (concat (encArg <$> args) ++ ts)) None n vars c cs) =
  Ret (false, mkDec (bytes ts) None n (foldl noteVar vars (omap Datatypes.id args))
    (mkExecCall (e_Meta c) (e_Props c) (e_Index c) (e_Args c ++ omap Datatypes.id args) (e_Copyin c) (e_Copyout c)) cs).
Proof.
  revert vars c. induction args as [|a args IH]; intros vars c Hf.
  { simpl. rewrite app_nil_r. by destruct c. }
  apply Forall_cons in Hf as [(ea & -> & Hfit & Hcall) Hf]. rewrite fmap_cons. cbn [concat length parseArgs].
  rewrite <- app_assoc, readArg_enc by done. cbn [mbind res_bind fst snd].
  change (omap Datatypes.id (Some ea :: args)) with (ea :: omap Datatypes.id args). cbn [foldl].
  destruct ea; try done; unfold addArg, setCall; cbn [d_call d_data d_err d_numVars d_vars d_calls noteVar];
    rewrite IH by done; cbn [e_Meta e_Props e_Index e_Args e_Copyin e_Copyout]; by rewrite <- app_assoc.
Qed.

(** Decoders whose call has been committed. *)
Definition fresh (d : execDecoder) : Prop := e_Meta (d_call d) = None ∧ d_err d = None.

Lemma commit_fresh d : fresh d → commitCall d = d.
Proof. intros [Hm _]. unfold commitCall. by rewrite Hm. Qed.

Lemma commit_data d data : commitCall (setData data d) = setData data (commitCall d).
Proof. unfold commitCall. cbn [setData d_call]. by destruct (e_Meta (d_call d)). Qed.

Lemma commit_is_fresh d : d_err d = None → fresh (commitCall d).
Proof. intros He. unfold fresh, commitCall. by destruct (e_Meta (d_call d)) eqn:Em. Qed.

(** A decoder with a value copied in. *)
Definition withCopyin (d : execDecoder) (ci : ExecCopyin) : execDecoder :=
  let c := d_call d in
  mkDec (d_data d) (d_err d) (d_numVars d)
    (match ci_Arg ci with Some a => noteVar (d_vars d) a | None => d_vars d end)
    (mkExecCall (e_Meta c) (e_Props c) (e_Index c) (e_Args c) (e_Copyin c ++ [ci]) (e_Copyout c)) (d_calls d).

Lemma parseStep_copyin ci ts d : d_err d = None → isU64 (ci_Addr ci) → (∃ ea, ci_Arg ci = Some ea ∧ argFits ea) →
  parseStep big syscalls (setData (bytes (encCopyin ci ++ ts)) d) =
  Ret (false, setData (bytes ts) (withCopyin (commitCall d) ci)).
Proof.
  intros He Ha (ea & Hea & Hfit). unfold encCopyin. rewrite Hea. cbn [app].
  destruct d as [data err n vars c cs]. cbn [d_err] in He. subst err. unfold setData at 1.
  cbn [d_err d_numVars d_vars d_call d_calls]. unfold parseStep. rewrite read_word by done.
  rewrite bool_decide_true by done.
  pose proof (commit_data (mkDec data None n vars c cs)) as Hcd. unfold setData in Hcd at 1.
  cbn [d_err d_numVars d_vars d_call d_calls] in Hcd. rewrite Hcd.
  destruct (commitCall (mkDec data None n vars c cs)) as [data' err' n' vars' c' cs'] eqn:Ec.
  pose proof (commit_is_fresh (mkDec data None n vars c cs) eq_refl) as [_ Hf]. rewrite Ec in Hf.
  cbn [d_err] in Hf. subst err'. unfold setData at 1. cbn [d_err d_numVars d_vars d_call d_calls].
  rewrite read_word by done. rewrite readArg_enc by done. cbn [mbind res_bind fst snd]. unfold withCopyin.
  cbn [d_data d_err d_numVars d_vars d_call d_calls]. rewrite Hea. unfold setCall, setData. by destruct ci; simpl in *; subst.
Qed.

Lemma fresh_withCopyin d ci : fresh d → fresh (withCopyin d ci).
Proof. intros [Hm He]. by split. Qed.

Lemma parse_step fuel d d' : d_err d = None → parseStep big syscalls d = Ret (false, d') →
  parse big syscalls (S fuel) d = parse big syscalls fuel d'.
Proof. intros He Hs. cbn [parse]. rewrite He, Hs. done. Qed.

Lemma setData_err data d : d_err (setData data d) = d_err d.
Proof. done. Qed.

(** The decoder after a list of values copied in, committed. *)
Lemma parse_copyins cis ts d fuel : d_err d = None →
  Forall (λ ci, isU64 (ci_Addr ci) ∧ ∃ ea, ci_Arg ci = Some ea ∧ argFits ea) cis →
  ∃ d', parse big syscalls (length cis + fuel) (setData (bytes (concat (encCopyin <$> cis) ++ ts)) d) =
        parse big syscalls fuel (setData (bytes ts) d') ∧ d_err d' = None ∧
        commitCall d' = foldl withCopyin (commitCall d) cis.
Proof.
  revert d. induction cis as [|ci cis IH]; intros d He Hf; [by exists d|].
  apply Forall_cons in Hf as [[Ha Hex] Hf]. rewrite fmap_cons. cbn [concat length Nat.add].
  rewrite <- app_assoc. rewrite (parse_step _ _ (setData (bytes (concat (encCopyin <$> cis) ++ ts))
    (withCopyin (commitCall d) ci))) by (done || by apply parseStep_copyin).
  pose proof (fresh_withCopyin _ ci (commit_is_fresh d He)) as Hfr.
  destruct (IH (withCopyin (commitCall d) ci)) as (d' & Hp & He' & Hc); [apply Hfr|done|].
  exists d'. split; [done|]. split; [done|]. rewrite Hc. by rewrite commit_fresh.
Qed.

(** The decoder with the properties of the next call. *)
Definition withProps (p : CallProps) (d : execDecoder) : execDecoder :=
  let c := d_call d in
  setCall (mkExecCall (e_Meta c) p (e_Index c) (e_Args c) (e_Copyin c) (e_Copyout c)) d.

Lemma intVal_u64 z : - 2 ^ 63 ≤ z < 2 ^ 63 → intVal (u64 z) = z.
Proof.
  intros Hz. unfold intVal, u64. destruct (decide (z < 0)).
  - rewrite <- (Z.mod_add z 1) by lia. rewrite Z.mod_small by lia. rewrite bool_decide_true by lia. lia.
  - rewrite Z.mod_small by lia. by rewrite bool_decide_false by lia.
Qed.

Lemma parseStep_props p ts d : d_err d = None → Async (e_Props (d_call (commitCall d))) = false →
  - 2 ^ 63 ≤ FailNth p < 2 ^ 63 → - 2 ^ 63 ≤ Rerun p < 2 ^ 63 → p ≠ mkProps 0 false 0 →
  parseStep big syscalls (setData (bytes (encProps p ++ ts)) d) =
  Ret (false, setData (bytes ts) (withProps p (commitCall d))).
Proof.
  intros He Hasync Hfail Hrerun Hp. unfold encProps. rewrite bool_decide_false by done. cbn [app].
  assert (Hb : isU64 (boolVal (Async p))) by (unfold isU64; destruct (Async p); simpl; lia).
  destruct d as [data err n vars c cs]. cbn [d_err] in He. subst err. unfold setData at 1.
  cbn [d_err d_numVars d_vars d_call d_calls]. unfold parseStep. rewrite read_word by done.
  do 3 rewrite bool_decide_false by done. rewrite bool_decide_true by done.
  pose proof (commit_data (mkDec data None n vars c cs)) as Hcd. unfold setData in Hcd at 1.
  cbn [d_err d_numVars d_vars d_call d_calls] in Hcd. rewrite Hcd.
  destruct (commitCall (mkDec data None n vars c cs)) as [data' err' n' vars' c' cs'] eqn:Ec.
  pose proof (commit_is_fresh (mkDec data None n vars c cs) eq_refl) as [_ Hf]. rewrite Ec in Hf.
  cbn [d_err] in Hf. subst err'. unfold setData at 1. cbn [d_err d_numVars d_vars d_call d_calls] in *.
  unfold readCallProps. rewrite !read_word by (done || apply u64_range). cbn [d_call]. rewrite Hasync.
  rewrite !intVal_u64 by done. unfold withProps, setCall, setData.
  cbn [d_data d_err d_numVars d_vars d_call d_calls]. do 4 f_equal. destruct p as [f a r]. by destruct a.
Qed.

Lemma parseStep_call sc ts d : d_err d = None → callFits syscalls sc →
  let d0 := commitCall d in
  let c := d_call d0 in
  parseStep big syscalls (setData (bytes
    ([TWord (Z.of_nat (sc_ID (s_Meta sc))); TWord (s_Index sc); TWord (Z.of_nat (length (s_Args sc)))] ++
     concat (encArg <$> s_Args sc) ++ ts)) d) =
  Ret (false, mkDec (bytes ts) None (d_numVars d0) (foldl noteVar (d_vars d0) (omap Datatypes.id (s_Args sc)))
    (mkExecCall (Some (s_Meta sc)) (e_Props c) (s_Index sc) (e_Args c ++ omap Datatypes.id (s_Args sc))
       (e_Copyin c) (e_Copyout c)) (d_calls d0)).
Proof.
  intros He Hfit. cbv zeta. destruct Hfit as [Hmeta Hid _ _ Hidx Hcnt Hargs _ _]. cbn [app].
  assert (Hidu : isU64 (Z.of_nat (sc_ID (s_Meta sc)))) by (unfold isU64; lia).
  destruct d as [data err n vars c cs]. cbn [d_err] in He. subst err. unfold setData at 1.
  cbn [d_err d_numVars d_vars d_call d_calls]. unfold parseStep. rewrite read_word by done.
  unfold execInstrCopyin, execInstrCopyout, execInstrEOF, execInstrSetProps.
  do 4 rewrite bool_decide_false by lia.
  pose proof (commit_data (mkDec data None n vars c cs)) as Hcd. unfold setData in Hcd at 1.
  cbn [d_err d_numVars d_vars d_call d_calls] in Hcd. rewrite Hcd.
  destruct (commitCall (mkDec data None n vars c cs)) as [data' err' n' vars' c' cs'] eqn:Ec.
  pose proof (commit_is_fresh (mkDec data None n vars c cs) eq_refl) as [_ Hf]. rewrite Ec in Hf.
  cbn [d_err] in Hf. subst err'. rewrite Nat2Z.id, Hmeta. unfold setData at 1.
  cbn [d_err d_numVars d_vars d_call d_calls]. rewrite !read_word by done. rewrite Nat2Z.id.
  unfold setCall. cbn [d_data d_err d_numVars d_vars d_call d_calls]. by rewrite parseArgs_enc.
Qed.

Lemma parse_copyouts cos ts n vars c cs fuel :
  Forall (λ co, isU64 (co_Index co) ∧ isU64 (co_Addr co) ∧ isU64 (co_Size co)) cos →
  parse big syscalls (length cos + fuel) (mkDec (bytes (concat (encCopyout <$> cos) ++ ts)) None n vars c cs) =
  parse big syscalls fuel (mkDec (bytes ts) None n vars
    (mkExecCall (e_Meta c) (e_Props c) (e_Index c) (e_Args c) (e_Copyin c) (e_Copyout c ++ cos)) cs).
Proof.
  revert c. induction cos as [|co cos IH]; intros c Hf.
  { simpl. rewrite app_nil_r. by destruct c. }
  apply Forall_cons in Hf as [(Hi & Ha & Hs) Hf]. rewrite fmap_cons. cbn [concat length Nat.add].
  erewrite parse_step; [| done|].
  2:{ unfold encCopyout. cbn [app]. unfold parseStep. rewrite read_word by done.
      rewrite bool_decide_false, bool_decide_true by done. rewrite !read_word by done. reflexivity. }
  unfold setCall. cbn [d_data d_err d_numVars d_vars d_call d_calls]. rewrite IH by done.
  cbn [e_Meta e_Props e_Index e_Args e_Copyin e_Copyout]. rewrite <- app_assoc. by destruct co.
Qed.

(** The instructions of a call. *)
Definition instrCount (sc : SpecCall) : nat :=
  (length (s_Copyin sc) + ((if bool_decide (s_Props sc = mkProps 0 false 0) then 0 else 1) +
   (1 + length (s_Copyout sc))))%nat.

Lemma foldl_withCopyin d cis : Forall (λ ci, is_Some (ci_Arg ci)) cis →
  foldl withCopyin d cis =
  mkDec (d_data d) (d_err d) (d_numVars d) (foldl noteVar (d_vars d) (omap ci_Arg cis))
    (mkExecCall (e_Meta (d_call d)) (e_Props (d_call d)) (e_Index (d_call d)) (e_Args (d_call d))
       (e_Copyin (d_call d) ++ cis) (e_Copyout (d_call d))) (d_calls d).
Proof.
  revert d. induction cis as [|ci cis IH]; intros d Hf.
  { simpl. rewrite app_nil_r. by destruct d as [? ? ? ? [] ?]. }
  apply Forall_cons in Hf as [[ea Hea] Hf]. cbn [foldl]. rewrite IH by done. unfold withCopyin.
  cbn [d_data d_err d_numVars d_vars d_call d_calls e_Meta e_Props e_Index e_Args e_Copyin e_Copyout].
  rewrite Hea. change (omap ci_Arg (ci :: cis)) with (match ci_Arg ci with Some y => y :: omap ci_Arg cis | None => omap ci_Arg cis end).
  rewrite Hea. cbn [foldl]. by rewrite <- app_assoc.
Qed.

(** The decoder after a call that is not committed yet. *)
Definition afterCall (d : execDecoder) (sc : SpecCall) : execDecoder :=
  let d0 := commitCall d in
  mkDec (d_data d0) None (d_numVars d0) (noteCall (d_vars d0) (execCallOf sc)) (execCallOf sc) (d_calls d0).

Lemma parse_call sc ts d fuel : d_err d = None → d_call (commitCall d) = emptyCall → callFits syscalls sc →
  parse big syscalls (instrCount sc + fuel) (setData (bytes (encCall sc ++ ts)) d) =
  parse big syscalls fuel (setData (bytes ts) (afterCall d sc)).
Proof.
  intros He Hempty Hfit. pose proof Hfit as [_ _ Hfail Hrerun _ _ _ Hci Hco].
  unfold encCall, instrCount. rewrite <- !app_assoc, <- !Nat.add_assoc.
  destruct (parse_copyins (s_Copyin sc) (encProps (s_Props sc) ++
    [TWord (Z.of_nat (sc_ID (s_Meta sc))); TWord (s_Index sc); TWord (Z.of_nat (length (s_Args sc)))] ++
    concat (encArg <$> s_Args sc) ++ concat (encCopyout <$> s_Copyout sc) ++ ts) d
    ((if bool_decide (s_Props sc = mkProps 0 false 0) then 0 else 1) + (1 + (length (s_Copyout sc) + fuel))) He Hci)
    as (d1 & Hp1 & He1 & Hc1).
  rewrite Hp1. rewrite foldl_withCopyin in Hc1 by (eapply Forall_impl; [done|]; intros ? (_ & ea & Hea & _); by eexists).
  rewrite Hempty in Hc1. cbn [emptyCall e_Meta e_Props e_Index e_Args e_Copyin e_Copyout app] in Hc1.
  assert (Hprops : ∃ d2, parse big syscalls ((if bool_decide (s_Props sc = mkProps 0 false 0) then 0 else 1) +
      (1 + (length (s_Copyout sc) + fuel)))
      (setData (bytes (encProps (s_Props sc) ++
        [TWord (Z.of_nat (sc_ID (s_Meta sc))); TWord (s_Index sc); TWord (Z.of_nat (length (s_Args sc)))] ++
        concat (encArg <$> s_Args sc) ++ concat (encCopyout <$> s_Copyout sc) ++ ts)) d1) =
      parse big syscalls (1 + (length (s_Copyout sc) + fuel)) (setData (bytes
        ([TWord (Z.of_nat (sc_ID (s_Meta sc))); TWord (s_Index sc); TWord (Z.of_nat (length (s_Args sc)))] ++
        concat (encArg <$> s_Args sc) ++ concat (encCopyout <$> s_Copyout sc) ++ ts)) d2) ∧
      d_err d2 = None ∧ commitCall d2 = withProps (s_Props sc) (commitCall d1)).
  { case_bool_decide as Hp.
    - exists d1. unfold encProps. rewrite bool_decide_true by done. split; [done|]. split; [done|].
      rewrite Hc1, Hp. done.
    - eexists. rewrite Nat.add_1_l. split; [apply parse_step; [done|apply parseStep_props; try done; by rewrite Hc1]|].
      split; [apply (commit_is_fresh d1 He1)|]. apply commit_fresh. rewrite Hc1.
      split; [done|]. apply (commit_is_fresh d He). }
  destruct Hprops as (d2 & Hp2 & He2 & Hc2). rewrite Hp2. rewrite Hc1 in Hc2.
  rewrite Nat.add_1_l. erewrite parse_step; [|done|by apply parseStep_call].
  rewrite parse_copyouts by done. rewrite Hc2. unfold afterCall, noteCall, argsOf, withProps, setCall, setData.
  cbn [d_data d_err d_numVars d_vars d_call d_calls e_Meta e_Props e_Index e_Args e_Copyin e_Copyout execCallOf app].
  by rewrite foldl_app.
Qed.

End Parse.

Section Programs.

Context (big : bool) (syscalls : list Syscall).

Local Notation bytes := (tokensBytes big).

Lemma afterCall_empty d sc : d_call (commitCall (afterCall d sc)) = emptyCall.
Proof. done. Qed.

Lemma parse_calls scs ts d fuel : d_err d = None → d_call (commitCall d) = emptyCall →
  Forall (callFits syscalls) scs →
  parse big syscalls (sum_list (instrCount <$> scs) + fuel) (setData (bytes (concat (encCall <$> scs) ++ ts)) d) =
  parse big syscalls fuel (setData (bytes ts) (foldl afterCall d scs)) ∧ d_err (foldl afterCall d scs) = None.
Proof.
  revert d. induction scs as [|sc scs IH]; intros d He Hempty Hf; [done|].
  apply Forall_cons in Hf as [Hsc Hf]. rewrite !fmap_cons. cbn [concat foldl].
  change (sum_list (instrCount sc :: (instrCount <$> scs))) with (instrCount sc + sum_list (instrCount <$> scs))%nat.
  rewrite <- app_assoc, <- Nat.add_assoc. rewrite parse_call by done. by apply IH.
Qed.

Lemma commit_after d scs : d_call (commitCall d) = emptyCall →
  let d' := commitCall (foldl afterCall d scs) in
  let d0 := commitCall d in
  d_calls d' = d_calls d0 ++ (execCallOf <$> scs) ∧
  d_numVars d' = foldl noteCount (d_numVars d0) (execCallOf <$> scs) ∧
  d_vars d' = foldl noteCall (d_vars d0) (execCallOf <$> scs).
Proof.
  revert d. induction scs as [|sc scs IH]; intros d Hempty; cbv zeta; cbn [foldl].
  { by rewrite app_nil_r. }
  destruct (IH (afterCall d sc) ltac:(done)) as (H1 & H2 & H3). rewrite !fmap_cons. cbn [foldl].
  rewrite H1, H2, H3. split; [|split; done]. unfold afterCall. simpl. by rewrite <- app_assoc.
Qed.

Lemma bytes_app ts1 ts2 : bytes (ts1 ++ ts2) = bytes ts1 ++ bytes ts2.
Proof. unfold tokensBytes. by rewrite fmap_app, concat_app. Qed.

Lemma bytes_word v ts : length (bytes (TWord v :: ts)) = (8 + length (bytes ts))%nat.
Proof. rewrite bytes_cons, length_app. cbn [tokenBytes]. by rewrite putUint64_length. Qed.

(** Each instruction takes at least a word, so the bytes are enough fuel. *)
Lemma instrCount_bytes sc : (instrCount sc ≤ length (bytes (encCall sc)))%nat.
Proof.
  unfold instrCount, encCall. rewrite !bytes_app, !length_app.
  assert (Hci : (length (s_Copyin sc) ≤ length (bytes (concat (encCopyin <$> s_Copyin sc))))%nat).
  { induction (s_Copyin sc) as [|ci l IH]; [done|]. rewrite fmap_cons. cbn [concat length].
    rewrite bytes_app, length_app. unfold encCopyin at 1. cbn [app]. rewrite !bytes_word. lia. }
  assert (Hco : (length (s_Copyout sc) ≤ length (bytes (concat (encCopyout <$> s_Copyout sc))))%nat).
  { induction (s_Copyout sc) as [|co l IH]; [done|]. rewrite fmap_cons. cbn [concat length].
    rewrite bytes_app, length_app. unfold encCopyout at 1. rewrite !bytes_word. lia. }
  rewrite bytes_word. unfold encProps. case_bool_decide; rewrite ?bytes_word; lia.
Qed.

Lemma instrCounts_bytes scs : (sum_list (instrCount <$> scs) ≤ length (bytes (concat (encCall <$> scs))))%nat.
Proof.
  induction scs as [|sc scs IH]; [done|]. rewrite !fmap_cons. cbn [concat].
  change (sum_list (instrCount sc :: (instrCount <$> scs))) with (instrCount sc + sum_list (instrCount <$> scs))%nat.
  rewrite bytes_app, length_app. pose proof (instrCount_bytes sc). lia.
Qed.

(** The decoder on an encoded program. *)
Lemma DeserializeExec_enc scs : Forall (callFits syscalls) scs →
  let calls := execCallOf <$> scs in
  DeserializeExec big syscalls (bytes (encProg scs)) =
  Ret (if bool_decide (Z.of_nat (length (foldl noteCall [] calls)) = foldl noteCount 0 calls)
       then inr (calls, foldl noteCall [] calls) else inl DecVars).
Proof.
  intros Hf. cbv zeta. unfold DeserializeExec, encProg.
  set (d0 := mkDec [] None 0 [] emptyCall []).
  change (mkDec (bytes (concat (encCall <$> scs) ++ [TWord execInstrEOF])) None 0 [] emptyCall [])
    with (setData (bytes (concat (encCall <$> scs) ++ [TWord execInstrEOF])) d0).
  pose proof (instrCounts_bytes scs) as Hfuel.
  assert (Hlen : (length (bytes (concat (encCall <$> scs) ++ [TWord execInstrEOF])) =
    length (bytes (concat (encCall <$> scs))) + 8)%nat) by (rewrite bytes_app, length_app, bytes_word; done).
  replace (S (length (bytes (concat (encCall <$> scs) ++ [TWord execInstrEOF]))))
    with (sum_list (instrCount <$> scs) +
          S (length (bytes (concat (encCall <$> scs) ++ [TWord execInstrEOF])) - sum_list (instrCount <$> scs)))%nat by lia.
  destruct (parse_calls scs [TWord execInstrEOF] d0
    (S (length (bytes (concat (encCall <$> scs) ++ [TWord execInstrEOF])) - sum_list (instrCount <$> scs)))
    eq_refl eq_refl Hf) as [-> Herr].
  destruct (commit_after d0 scs eq_refl) as (H1 & H2 & H3).
  destruct (foldl afterCall d0 scs) as [data err n vars c cs] eqn:Ed. cbn [d_err] in Herr. subst err.
  cbn [parse setData d_err]. unfold parseStep. unfold setData at 1. cbn [d_err d_numVars d_vars d_call d_calls].
  rewrite read_word by done. do 2 rewrite bool_decide_false by done. rewrite bool_decide_true by done.
  cbn [mbind res_bind fst snd].
  pose proof (commit_data (mkDec data None n vars c cs) (bytes [])) as Hcd. unfold setData in Hcd at 1.
  cbn [d_err d_numVars d_vars d_call d_calls] in Hcd. rewrite Hcd. rewrite setData_err.
  pose proof (commit_is_fresh (mkDec data None n vars c cs) eq_refl) as [_ Hfe]. rewrite Hfe.
  cbn [setData d_vars d_numVars d_calls]. rewrite H1, H2, H3. cbn [d0 commitCall d_call emptyCall e_Meta d_calls d_numVars d_vars app].
  case_bool_decide as Hne; case_bool_decide as Heq; done.
Qed.

End Programs.

(** Decoding what [SerializeForExec] wrote. *)
Lemma decode_serialized big target h calls len out s scs :
  0 ≤ len → SerializeForExec big target h calls len = Ret (Some out) →
  specProg target h calls = Ret (s, scs) → Forall (callFits (Syscalls target)) scs →
  let execCalls := execCallOf <$> scs in
  DeserializeExec big (Syscalls target) out =
  Ret (if bool_decide (Z.of_nat (length (foldl noteCall [] execCalls)) = foldl noteCount 0 execCalls)
       then inr (execCalls, foldl noteCall [] execCalls) else inl DecVars).
Proof.
  intros Hlen Hser Hspec Hfit. cbv zeta. rewrite serialize_spec in Hser by done. rewrite Hspec in Hser.
  cbn [mbind res_bind fst snd] in Hser. case_bool_decide; [|done]. injection Hser as <-.
  by apply DeserializeExec_enc.
Qed.

(** ** Corrupted input *)

(** The argument that is read after an error. *)
Definition zeroArg : ExecArg := ExecArgConst 0 0 0 0 0 0.

Lemma read_err big d e : d_err d = Some e → read big d = (0, d).
Proof.
  intros He. unfold read, setErr. rewrite He. destruct (bool_decide _); by rewrite He.
Qed.

Lemma readArg_err big d e : d_err d = Some e → readArg big d = Ret (Some zeroArg, d).
Proof. intros He. unfold readArg. rewrite !(read_err big d e He). done. Qed.

Lemma parseArgs_err big n d e : d_err d = Some e →
  ∃ d', parseArgs big n d = Ret (false, d') ∧ d_err d' = Some e ∧
    e_Args (d_call d') = e_Args (d_call d) ++ replicate n zeroArg.
Proof.
  revert d. induction n as [|n IH]; intros d He.
  { exists d. split; [done|]. split; [done|]. by rewrite app_nil_r. }
  cbn [parseArgs]. rewrite (readArg_err big d e He). cbn [mbind res_bind fst snd].
  change (match zeroArg with
          | ExecArgConst _ _ _ _ _ _ as a | ExecArgResult _ _ _ _ _ _ as a => parseArgs big n (addArg a d)
          | _ => Ret (true, setErr DecBadCallArg d)
          end) with (parseArgs big n (addArg zeroArg d)).
  destruct (IH (addArg zeroArg d)) as (d' & Hd' & He' & Ha'); [done|].
  exists d'. split; [exact Hd'|]. split; [done|]. rewrite Ha'. unfold addArg, setCall. cbn [d_call e_Args].
  by rewrite <- app_assoc.
Qed.

(** C35: the loop over the arguments of a call does not look at the error: of an
    input that ends after the number of arguments, the decoder makes that many
    arguments, whatever the number, before it reports the overflow. *)
Theorem parseArgs_after_end big syscalls meta index n :
  syscalls !! 0%nat = Some meta → isU64 index → isU64 n → 0 < n →
  ∃ d, parseStep big syscalls
         (mkDec (tokensBytes big [TWord 0; TWord index; TWord n]) None 0 [] emptyCall []) = Ret (false, d) ∧
    d_err d = Some DecOverflow ∧ e_Args (d_call d) = replicate (Z.to_nat n) zeroArg.
Proof.
  intros Hm Hi Hn Hpos. unfold parseStep. rewrite read_word by done. do 4 rewrite bool_decide_false by done.
  cbn [commitCall d_call emptyCall e_Meta]. change (Z.to_nat 0) with 0%nat. rewrite Hm.
  rewrite !read_word by done. cbn [d_call emptyCall e_Props e_Args e_Copyin e_Copyout].
  destruct (Z.to_nat n) as [|k] eqn:Ek; [lia|]. unfold setCall. cbn [d_data d_err d_numVars d_vars d_call d_calls].
  set (c0 := mkExecCall (Some meta) _ _ _ _ _). set (d1 := mkDec (tokensBytes big []) None 0 [] c0 []).
  assert (Hr : readArg big d1 = Ret (Some zeroArg, setErr DecOverflow d1)).
  { unfold readArg. assert (read big d1 = (0, setErr DecOverflow d1)) as -> by done.
    rewrite bool_decide_true by done. by rewrite !(read_err big (setErr DecOverflow d1) DecOverflow). }
  cbn [parseArgs]. rewrite Hr. cbn [mbind res_bind fst snd].
  destruct (parseArgs_err big k (addArg zeroArg (setErr DecOverflow d1)) DecOverflow) as (d' & Hd' & He' & Ha'); [done|].
  exists d'. split; [exact Hd'|]. split; [done|]. rewrite Ha'. done.
Qed.

Lemma parseArgs_after_end_witness :
  ∃ d, parseStep false [mkSyscall 0 "a" [] None false]
         (mkDec (tokensBytes false [TWord 0; TWord 0; TWord (2 ^ 63)]) None 0 [] emptyCall []) = Ret (false, d) ∧
    e_Args (d_call d) = replicate (Z.to_nat (2 ^ 63)) zeroArg.
Proof.
  destruct (parseArgs_after_end false [mkSyscall 0 "a" [] None false] (mkSyscall 0 "a" [] None false) 0 (2 ^ 63))
    as (d & Hd & _ & Ha); [reflexivity|split; lia|split; lia|lia|].
  exists d. split; [exact Hd|exact Ha].
Defined.
