(* ===== verification/ExecSafe.v ===== *)
(** * Valid programs are serialized

    Validation and serialization together: a program that passes validation is
    walked, given a meaning and serialized without a panic, and all of it fits
    into the fields of the format, so that it is decoded to the same meaning. *)

From stdpp Require Import base numbers strings gmap list sorting.
From S2P Require Import Prelude Word ProgTypes ProgArgs ProgTree ProgValidate ProgDefault ExecEncode ExecDecode ExecSpec ExecRoundtrip.

Local Open Scope Z_scope.

(** ** What the description compiler and the Go types give *)

(** Sizes and bitfields of the types of single values fit into a byte. *)
Definition typeFits (t : Typ) : Prop :=
  match t with
  | BufferType _ _ _ _ _ _ _ _ | ArrayType _ _ _ _ _ | StructType _ _ _ _ | UnionType _ _ =>
      isU64 (TypeSize (typeCommon t))
  | _ =>
      Varlen t = false ∧ isU8 (TypeSize (typeCommon t)) ∧
      (∀ c, intCommon t = Some c → isU8 (BitfieldOff c) ∧ isU8 (BitfieldLen c) ∧ isU8 (BitfieldUnit c)) ∧
      match t with
      | ProcType _ _ perProc => 0 ≤ perProc < 2 ^ 32
      | ResourceType _ _ d => rd_Values d ≠ [] ∧ Forall isU64 (rd_Values d)
      | _ => True
      end
  end.

Record tableFits (target : Target) : Prop := {
  tf_types : ∀ ref t, typeRefs target !! ref = Some t → typeFits t;
  tf_special : Forall isU64 (SpecialPointers target);
}.

(** The fields of an argument are in the range of their Go types, its address is
    not one of a result argument, and only an output buffer has a size without
    data. *)
Fixpoint wfArg (h : Heap) (arg : Arg) : Prop :=
  match arg with
  | ConstArg a val => h_results h !! a_id a = None ∧ isU64 val
  | PointerArg a _ _ pointee =>
      h_results h !! a_id a = None ∧ match pointee with Some arg => wfArg h arg | None => True end
  | DataArg a data size =>
      h_results h !! a_id a = None ∧ Z.of_nat (length data) < 2 ^ 63 ∧ isU64 size ∧
      (data = [] → a_dir a ≠ DirOut → size = 0)
  | GroupArg a inner =>
      h_results h !! a_id a = None ∧
      (fix go (l : list Arg) : Prop := match l with [] => True | x :: l => wfArg h x ∧ go l end) inner
  | UnionArg a opt _ => h_results h !! a_id a = None ∧ wfArg h opt
  | ResultArg _ => True
  end.

Definition wfHeap (h : Heap) : Prop :=
  ∀ p r, h_results h !! p = Some r → isU64 (r_Val r) ∧ isU64 (r_OpDiv r) ∧ isU64 (r_OpAdd r).

(** The type of an argument of a call is a single value or a pointer. *)
Definition topType (t : Typ) : Prop :=
  match t with
  | BufferType _ _ _ _ _ _ _ _ | ArrayType _ _ _ _ _ | StructType _ _ _ _ | UnionType _ _ => False
  | _ => True
  end.

Definition MaxArgs : nat := 9.

Record wfCall (target : Target) (h : Heap) (c : Call) : Prop := {
  wc_args : Forall (wfArg h) (c_Args c);
  wc_meta : Syscalls target !! sc_ID (c_Meta c) = Some (c_Meta c);
  wc_id : Z.of_nat (sc_ID (c_Meta c)) < 2 ^ 63;
  wc_count : (length (sc_Args (c_Meta c)) ≤ MaxArgs)%nat;
  wc_types : ∀ f t, f ∈ sc_Args (c_Meta c) → typeOf (typeRefs target) (f_Type f) = Ret t → topType t;
  wc_fail : - 2 ^ 63 ≤ FailNth (c_Props c) < 2 ^ 63;
  wc_rerun : - 2 ^ 63 ≤ Rerun (c_Props c) < 2 ^ 63;
}.

(** ** Inversion of validation *)

Lemma v_seq_inv m k ctx ctx' : v_seq m k ctx = Ret (inr ctx') →
  ∃ ctx1, m ctx = Ret (inr ctx1) ∧ k ctx1 = Ret (inr ctx').
Proof. unfold v_seq. destruct (m ctx) as [[e|c]| |]; cbn [mbind res_bind]; try done. eauto. Qed.

Lemma v_check_inv b e ctx ctx' : v_check b e ctx = Ret (inr ctx') → b = false ∧ ctx' = ctx.
Proof. unfold v_check, v_err, v_ok. destruct b; [done|]. by intros [= ->]. Qed.

Lemma v_ok_inv ctx ctx' : v_ok ctx = Ret (inr ctx') → ctx' = ctx.
Proof. by intros [= ->]. Qed.

Lemma bind_ret_inv {A B} (m : res A) (k : A → res B) b : (m ≫= k) = Ret b → ∃ a, m = Ret a ∧ k a = Ret b.
Proof. destruct m; cbn [mbind res_bind]; try done. eauto. Qed.

(** A check that passed has not changed the context. *)
Ltac v_unchanged Hx :=
  try (match type of Hx with
       | (if ?b then _ else _) _ = _ => destruct b
       | (if ?b then _ else _) = _ => destruct b
       end);
  first [ by apply v_ok_inv in Hx as ->
        | by apply v_check_inv in Hx as [_ ->]
        | apply bind_ret_inv in Hx as (? & _ & Hx); by apply v_check_inv in Hx as [_ ->] ].

Section Safe.

Context (target : Target) (h : Heap) (Htable : tableFits target) (Hheap : wfHeap h).

Local Notation tbl := (typeRefs target).

(** The part of [validateArg] that depends on the kind of the argument. *)
Definition validateMethod (arg : Arg) (t : Typ) (dir : Dir) (ctx : validCtx) : res (verror + validCtx) :=
  match arg with
  | ConstArg a val => validateConst tbl h t arg (a_dir a) val ctx
  | ResultArg p => r ← of_option (h_results h !! p); validateResult tbl h t p r ctx
  | DataArg a data size => validateData t (a_dir a) data size ctx
  | GroupArg _ inner =>
      match t with
      | StructType _ fields _ _ =>
          if bool_decide (length inner ≠ length fields) then Ret (inl EFields)
          else
            (fix go (l : list Arg) (fs : list Field) : V :=
               match l, fs with
               | arg1 :: l, f :: fs =>
                   v_seq (validateArg target h arg1 (f_Type f) (fieldDir f dir)) (go l fs)
               | _, _ => v_ok
               end) inner fields ctx
      | ArrayType _ elem kind b e =>
          if bool_decide (kind = ArrayRangeLen ∧ b = e ∧ Z.of_nat (length inner) ≠ b) then Ret (inl EElements)
          else v_all (λ arg1, validateArg target h arg1 elem dir) inner ctx
      | _ => Ret (inl EGroupType)
      end
  | UnionArg _ opt index =>
      match t with
      | UnionType _ fields =>
          if bool_decide (index < 0) then Ret (inl EUnionIndex)
          else match fields !! Z.to_nat index with
               | Some f => validateArg target h opt (f_Type f) (fieldDir f dir) ctx
               | None => Ret (inl EUnionIndex)
               end
      | _ => Ret (inl EUnionType)
      end
  | PointerArg a address vmaSize pointee =>
      v_seq
        (match t with
         | VmaType _ _ _ => v_check (match pointee with Some _ => true | None => false end) EVmaData
         | PtrType _ elem elemDir =>
             v_seq (match pointee with
                    | Some arg1 => validateArg target h arg1 elem elemDir
                    | None => v_ok
                    end)
             (v_seq (v_check (bool_decide (vmaSize ≠ 0)) EPtrSize)
                (v_check (bool_decide (a_dir a = DirOut)) EPtrDir))
         | _ => v_err EPtrType
         end)
        (validateAddress target h address vmaSize pointee) ctx
  end.

Lemma validateArg_inv arg typ dir ctx ctx' : validateArg target h arg typ dir ctx = Ret (inr ctx') →
  ∃ dir' t d, ptrDir target typ dir = Ret dir' ∧ argType tbl h arg = Ret t ∧ argId arg ∉ vc_args ctx ∧
    argDir h arg = Ret d ∧ (d = dir' ∨ dir' = DirInOut) ∧
    (isAnyPtr target t = true ∨ argRef h arg = Ret typ) ∧
    validateMethod arg t dir' (mkCtx ({[ argId arg ]} ∪ vc_args ctx) (vc_uses ctx)) = Ret (inr ctx').
Proof.
  intros Hv.
  assert (Hv' : (dir' ← ptrDir target typ dir;
    v_seq (validateCommon target h arg typ dir') (λ ctx, t ← argType tbl h arg; validateMethod arg t dir' ctx) ctx)
    = Ret (inr ctx')) by (by destruct arg).
  clear Hv. apply bind_ret_inv in Hv' as (dir' & Hd & Hv).
  apply v_seq_inv in Hv as (c1 & Hc & Hm). apply bind_ret_inv in Hm as (t & Ht & Hm).
  unfold validateCommon in Hc. case_bool_decide as Hid; [done|].
  rewrite Ht in Hc. cbn [mbind res_bind] in Hc. apply bind_ret_inv in Hc as (ref & Href & Hc).
  apply bind_ret_inv in Hc as (d & Hdir & Hc). case_bool_decide as Hdd; [done|].
  destruct (negb (isAnyPtr target t) && bool_decide (ref ≠ typ)) eqn:Eany; [done|]. injection Hc as <-.
  exists dir', t, d. repeat split; try done.
  - destruct (decide (d = dir')); [by left|]. destruct (decide (dir' = DirInOut)); [by right|]. naive_solver.
  - destruct (isAnyPtr target t); [by left|]. cbn [negb andb] in Eany. apply bool_decide_eq_false in Eany.
    right. destruct (decide (ref = typ)) as [->|]; [done|]. naive_solver.
Qed.

(** ** Single values *)

Lemma argType_fits arg t : argType tbl h arg = Ret t → typeFits t.
Proof using Htable Hheap.
  unfold argType. intros (ref & _ & Ht)%bind_ret_inv. unfold typeOf in Ht. case_bool_decide; [done|].
  destruct (tbl !! ref) as [t'|] eqn:E; [|done]. injection Ht as <-. by eapply tf_types.
Qed.

Definition isIntType (t : Typ) : Prop :=
  match t with
  | IntType _ _ _ _ _ | ProcType _ _ _ | CsumType _ _ _ _ | ConstType _ _ _ | FlagsType _ _ _ | LenType _ _ _ _ => True
  | _ => False
  end.

Lemma validateConst_inv t arg dir val ctx ctx' : validateConst tbl h t arg dir val ctx = Ret (inr ctx') →
  isIntType t ∧ ctx' = ctx.
Proof.
  intros (c1 & H1 & H2)%v_seq_inv. assert (isIntType t ∧ c1 = ctx) as [Hi ->].
  { destruct t; try done; (split; [done|v_unchanged H1]). }
  split; [done|]. destruct t; try done; v_unchanged H2.
Qed.

Lemma validateUses_args p us ctx ctx' : v_all (validateUse h p) us ctx = Ret (inr ctx') → vc_args ctx' = vc_args ctx.
Proof.
  revert ctx. induction us as [|u us IH]; intros ctx; [by intros ->%v_ok_inv|].
  intros (c1 & H1 & H2)%v_seq_inv. rewrite (IH _ H2). unfold validateUse in H1.
  apply bind_ret_inv in H1 as (obj & _ & H1). case_bool_decide; [done|]. by injection H1 as <-.
Qed.

Lemma validateResult_inv t p r ctx ctx' : validateResult tbl h t p r ctx = Ret (inr ctx') →
  (∃ c f d, t = ResourceType c f d) ∧ vc_args ctx' = vc_args ctx ∧
  (∀ q, r_Res r = Some q → q ∈ vc_args ctx ∧ ∃ obj, h_results h !! q = Some obj ∧ p ∈ r_uses obj) ∧
  (r_dir r = DirIn → r_uses r = ∅).
Proof.
  destruct t; try done. cbn [validateResult]. intros (c1 & H1%validateUses_args & H2)%v_seq_inv.
  apply v_seq_inv in H2 as (c2 & H2 & H3). apply v_seq_inv in H3 as (c3 & H3 & H4).
  apply v_seq_inv in H4 as (c4 & H4 & H5).
  assert (c2 = c1) as ->.
  { v_unchanged H2. }
  apply v_check_inv in H4 as [Hin ->]. apply bool_decide_eq_false in Hin.
  assert (ctx' = c3) as ->.
  { v_unchanged H5. }
  clear H2 H5.
  assert (Hq : c3 = c1 ∧ ∀ q, r_Res r = Some q → q ∈ vc_args ctx ∧ ∃ obj, h_results h !! q = Some obj ∧ p ∈ r_uses obj).
  { destruct (r_Res r) as [q|]; [|apply v_ok_inv in H3 as ->; done]. case_bool_decide as Hc; [done|].
    apply bind_ret_inv in H3 as (obj & Ho & H3). apply v_check_inv in H3 as [Hp ->]. split; [done|].
    intros q' [= <-]. rewrite <- H1. split; [done|].
    exists obj. split; [by destruct (h_results h !! q); [injection Ho as ->|]|].
    apply bool_decide_eq_false in Hp. by apply dec_stable in Hp. }
  destruct Hq as [-> Hq]. split; [eauto|]. split; [done|]. split; [done|].
  intros Hd. destruct (decide (r_uses r = ∅)); [done|]. naive_solver.
Qed.

Lemma validateData_inv t dir data size ctx ctx' : validateData t dir data size ctx = Ret (inr ctx') →
  (∃ c k b e x s v z, t = BufferType c k b e x s v z) ∧ ctx' = ctx.
Proof.
  destruct t; try done. cbn [validateData]. intros (c1 & [_ ->]%v_check_inv & H2)%v_seq_inv.
  apply v_seq_inv in H2 as (c2 & H2 & H3). split; [by repeat eexists|].
  assert (c2 = ctx) as ->.
  { destruct (Varlen _); v_unchanged H2. }
  destruct Kind; v_unchanged H3.
Qed.

Lemma validateAddress_inv address vmaSize pointee ctx ctx' :
  validateAddress target h address vmaSize pointee ctx = Ret (inr ctx') →
  ctx' = ctx ∧ ∃ addr, PhysicalAddr target address vmaSize pointee = Ret addr ∧ isU64 addr.
Proof using Htable Hheap.
  unfold validateAddress, PhysicalAddr. destruct (IsSpecial address vmaSize pointee) eqn:Es.
  - intros [Hb ->]%v_check_inv. split; [done|]. apply bool_decide_eq_false in Hb.
    destruct (lookup_lt_is_Some_2 (SpecialPointers target) (Z.to_nat (u64 (- address)))) as [a Ha].
    { pose proof (u64_range (- address)) as Hr. unfold isU64 in Hr. lia. }
    exists a. rewrite Ha. split; [done|]. pose proof (tf_special _ Htable) as Hf. rewrite Forall_lookup in Hf.
    by eapply Hf.
  - intros (size & _ & [_ ->]%v_check_inv)%bind_ret_inv. split; [done|]. eexists. split; [done|]. apply u64_range.
Qed.

Lemma isU8_U64 z : isU8 z → isU64 z.
Proof. unfold isU8, isU64. lia. Qed.

Lemma formatVal_u8 f : isU8 (formatVal f).
Proof. unfold isU8. destruct f; simpl; lia. Qed.

Lemma isU8_0 : isU8 0.
Proof. unfold isU8. lia. Qed.

(** The places that a program refers to are known. *)
Definition covers (S : gset id) (args : gmap id argInfo) : Prop :=
  ∀ q obj, q ∈ S → h_results h !! q = Some obj → r_uses obj ≠ ∅ → is_Some (args !! q).

Definition infosFit (args : gmap id argInfo) : Prop :=
  map_Forall (λ _ info, isU64 (ai_Addr info) ∧ isU64 (ai_Idx info)) args.

(** An argument that is written has a value, which fits. *)
Definition writable (S : gset id) (arg : Arg) (top : bool) : Prop :=
  ∀ args, covers S args → infosFit args →
  ∃ ea, specArg target h args arg = Ret (Some ea) ∧ argFits ea ∧ (top = true → isCallArg ea).

Lemma typSize_fits t : typeFits t → topType t → ∃ s, typSize t = Ret s ∧ isU8 s.
Proof.
  intros Hf Ht. unfold typSize. destruct t; try done; destruct Hf as (Hv & Hs & _); unfold Varlen in Hv; rewrite Hv; eauto.
Qed.

Lemma UnitSize_fits t : typeFits t → isIntType t → ∃ s, UnitSize t = Ret s ∧ isU8 s.
Proof.
  intros Hf Ht. destruct (typSize_fits t) as (s & Hs & Hu); [done|by destruct t|]. unfold UnitSize.
  destruct (intCommon t) as [c|] eqn:Ec; [|eauto]. case_bool_decide; [|eauto]. eexists. split; [done|].
  destruct t; try done; destruct Hf as (_ & _ & Hc & _); by destruct (Hc c Ec) as (_ & _ & ?).
Qed.

Lemma bitfield_fits t : typeFits t → isIntType t → isU8 (BitfieldOffset t) ∧ isU8 (BitfieldLength t).
Proof.
  intros Hf Ht. unfold BitfieldOffset, BitfieldLength.
  destruct (intCommon t) as [c|] eqn:Ec; [|by destruct t].
  destruct t; try done; destruct Hf as (_ & _ & Hc & _); by destruct (Hc c Ec) as (? & ? & _).
Qed.

Lemma constValue_fits t val : typeFits t → isIntType t → isU64 val →
  ∃ v s, constValue t val = Ret (v, s) ∧ isU64 v ∧ 0 ≤ s < 2 ^ 32.
Proof.
  intros Hf Ht Hv. destruct t; try done; cbn [constValue]; try (do 2 eexists; split; [done|]; split; [done|lia]).
  case_bool_decide; (do 2 eexists; split; [done|]).
  - split; [unfold isU64; lia|lia].
  - split; [apply u64_range|]. by destruct Hf as (_ & _ & _ & ?).
Qed.

Lemma writable_const S a val t top : argType tbl h (ConstArg a val) = Ret t → isIntType t → isU64 val →
  writable S (ConstArg a val) top.
Proof using Htable Hheap.
  intros Ht Hi Hv args _ _. pose proof (argType_fits _ _ Ht) as Hf. unfold argType in Ht. cbn [argRef mbind res_bind] in Ht.
  cbn [specArg]. rewrite Ht. cbn [mbind res_bind].
  destruct (constValue_fits t val Hf Hi Hv) as (v & s & -> & Hv' & Hs).
  destruct (UnitSize_fits t Hf Hi) as (u & -> & Hu). destruct (bitfield_fits t Hf Hi) as [Ho Hl].
  cbn [mbind res_bind fst snd]. eexists. split; [done|]. split; [|done]. unfold specConst.
  cbn [argFits]. split_and?; first [done|apply formatVal_u8|lia].
Qed.

Lemma writable_pointer S a address vmaSize pointee t addr top :
  argType tbl h (PointerArg a address vmaSize pointee) = Ret t → topType t →
  PhysicalAddr target address vmaSize pointee = Ret addr → isU64 addr →
  writable S (PointerArg a address vmaSize pointee) top.
Proof using Htable Hheap.
  intros Ht Htop Ha Hu args _ _. pose proof (argType_fits _ _ Ht) as Hf. unfold argType in Ht.
  cbn [argRef mbind res_bind] in Ht. cbn [specArg]. rewrite Ht. cbn [mbind res_bind].
  destruct (typSize_fits t Hf Htop) as (s & -> & Hs). cbn [mbind res_bind]. rewrite Ha. cbn [mbind res_bind].
  eexists. split; [done|]. split; [|done]. unfold specConst. cbn [argFits].
  split_and?; first [done|apply isU8_0|lia].
Qed.

Lemma writable_result S p r c f d top : h_results h !! p = Some r →
  argType tbl h (ResultArg p) = Ret (ResourceType c f d) →
  (∀ q, r_Res r = Some q → q ∈ S ∧ ∃ obj, h_results h !! q = Some obj ∧ p ∈ r_uses obj) →
  writable S (ResultArg p) top.
Proof using Htable Hheap.
  intros Hp Ht Hq args Hcov Hinfo. pose proof (argType_fits _ _ Ht) as Hf.
  destruct (typSize_fits _ Hf I) as (s & Hs & Hu). destruct Hf as (_ & _ & _ & Hne & Hvals).
  destruct (Hheap p r Hp) as (Hv & Hd & Ha). unfold argType in Ht. cbn [argRef] in Ht. rewrite Hp in Ht.
  cbn [of_option mbind res_bind] in Ht. cbn [specArg]. rewrite Hp. cbn [of_option mbind res_bind].
  destruct (r_Res r) as [q|].
  - destruct (Hq q eq_refl) as (Hin & obj & Hobj & Huse).
    destruct (Hcov q obj Hin Hobj) as [info Hi]; [set_solver|]. rewrite Hi. cbn [of_option mbind res_bind].
    rewrite Ht. cbn [mbind res_bind]. rewrite Hs. cbn [mbind res_bind]. unfold resourceDefault.
    destruct (rd_Values d) as [|v vs]; [done|]. cbn [head of_option mbind res_bind].
    apply Forall_cons in Hvals as [Hv0 _]. destruct (Hinfo q info Hi) as [_ Hidx].
    eexists. split; [done|]. split; [|done]. cbn [argFits]. split_and?; first [done|apply formatVal_u8].
  - rewrite Ht. cbn [mbind res_bind]. rewrite Hs. cbn [mbind res_bind]. eexists. split; [done|]. split; [|done].
    unfold specConst. cbn [argFits]. split_and?; first [done|apply formatVal_u8|apply isU8_0|lia].
Qed.

Lemma writable_data S a data size t : data ≠ [] → a_dir a ≠ DirOut → Z.of_nat (length data) < 2 ^ 63 →
  argType tbl h (DataArg a data size) = Ret t → (∃ c k b e x s v z, t = BufferType c k b e x s v z) →
  writable S (DataArg a data size) false.
Proof.
  intros Hne Hd Hl Ht (c & k & b & e & x & s & v & z & ->) args _ _. unfold argType in Ht.
  cbn [argRef mbind res_bind] in Ht. cbn [specArg]. unfold dataOf. rewrite bool_decide_false by done.
  cbn [mbind res_bind]. rewrite bool_decide_false by done. rewrite Ht. cbn [mbind res_bind].
  eexists. split; [done|]. by split.
Qed.

(** ** Walking a valid tree *)

Definition isSimple (arg : Arg) : Prop :=
  match arg with GroupArg _ _ | UnionArg _ _ _ => False | _ => True end.

Record visitOK (S : gset id) (v : visit) : Prop := {
  vo_type : ∃ t, argType tbl h (v_arg v) = Ret t;
  vo_size : ∃ s, argSize tbl h (v_arg v) = Ret s ∧ isU64 s;
  vo_dir : ∃ d, argDir h (v_arg v) = Ret d;
  vo_used : ∃ b, resultUsed h (v_arg v) = Ret b;
  vo_base : ∀ b, v_base v = Some b → ∃ addr, physicalAddr target b = Ret addr;
  vo_write : isSimple (v_arg v) → ∀ t d s, argType tbl h (v_arg v) = Ret t → argDir h (v_arg v) = Ret d →
    argSize tbl h (v_arg v) = Ret s → d ≠ DirOut → s ≠ 0 ∨ IsBitfield t = true →
    writable ({[ argId (v_arg v) ]} ∪ S) (v_arg v) false;
  vo_top : v_base v = None → resultUsed h (v_arg v) = Ret false;
  vo_id : ∀ obj, h_results h !! argId (v_arg v) = Some obj →
    resultUsed h (v_arg v) = Ret (bool_decide (r_uses obj ≠ ∅));
}.

(** The address of another argument is not that of a result. *)
Lemma not_result arg : h_results h !! argId arg = None →
  ∀ obj, h_results h !! argId arg = Some obj → resultUsed h arg = Ret (bool_decide (r_uses obj ≠ ∅)).
Proof. congruence. Qed.

Inductive visitsOK : gset id → list visit → Prop :=
  | visitsOK_nil S : visitsOK S []
  | visitsOK_cons S v vs : visitOK S v → visitsOK ({[ argId (v_arg v) ]} ∪ S) vs → visitsOK S (v :: vs).

Definition vids (vs : list visit) : gset id := list_to_set ((λ v, argId (v_arg v)) <$> vs).

Lemma vids_cons v vs : vids (v :: vs) = {[ argId (v_arg v) ]} ∪ vids vs.
Proof. done. Qed.

Lemma vids_app vs1 vs2 : vids (vs1 ++ vs2) = vids vs1 ∪ vids vs2.
Proof. unfold vids. by rewrite fmap_app, list_to_set_app_L. Qed.

Lemma visitsOK_app S vs1 vs2 : visitsOK S vs1 → visitsOK (vids vs1 ∪ S) vs2 → visitsOK S (vs1 ++ vs2).
Proof.
  induction 1 as [S|S v vs Hv Hvs IH]; intros H2.
  - simpl. by replace (vids [] ∪ S) with S in H2 by set_solver.
  - simpl. constructor; [done|]. apply IH. rewrite vids_cons in H2.
    by replace (vids vs ∪ ({[ argId (v_arg v) ]} ∪ S)) with ({[ argId (v_arg v) ]} ∪ vids vs ∪ S) by set_solver.
Qed.

Lemma structSize_u64 align overlay n i size offset sizes : isU64 size →
  isU64 (structSize align overlay n i size offset sizes).
Proof.
  revert i size offset. induction sizes as [|s sizes IH]; intros i size offset Hs; [done|].
  cbn [structSize]. apply IH. case_bool_decide; [|done]. destruct (_ && _); apply u64_range.
Qed.

Lemma arraySize_u64 sizes acc : isU64 acc → isU64 (foldl (λ size s, u64 (size + s)) acc sizes).
Proof. revert acc. induction sizes as [|s sizes IH]; intros acc Ha; [done|]. cbn [foldl]. apply IH, u64_range. Qed.

Lemma group_argSize a inner t : typeOf tbl (a_ref a) = Ret t → typeFits t →
  match t with StructType _ _ _ _ | ArrayType _ _ _ _ _ => True | _ => False end →
  (∃ sizes, mapM (argSize tbl h) inner = Ret sizes) →
  ∃ s, argSize tbl h (GroupArg a inner) = Ret s ∧ isU64 s.
Proof.
  intros Ht Hf Hg [sizes Hm]. cbn [argSize]. rewrite Ht. cbn [mbind res_bind].
  destruct (Varlen t) eqn:Ev; cbn [negb].
  - destruct t; try done; rewrite Hm; cbn [mbind res_bind]; (eexists; split; [done|]).
    + apply arraySize_u64. unfold isU64. lia.
    + apply structSize_u64. unfold isU64. lia.
  - unfold typSize. unfold Varlen in Ev. rewrite Ev. eexists. split; [done|]. by destruct t.
Qed.

(** What walking a validated tree gives. *)
Definition walks (arg : Arg) : Prop :=
  ∀ typ dir ctx ctx' base off,
  wfArg h arg → validateArg target h arg typ dir ctx = Ret (inr ctx') →
  (∀ b, base = Some b → ∃ addr, physicalAddr target b = Ret addr) →
  (base = None → isSimple arg ∧ resultUsed h arg = Ret false) →
  (∃ s, argSize tbl h arg = Ret s ∧ isU64 s) ∧
  ∃ vs, foreachArgImpl tbl h base off arg = Ret vs ∧ vc_args ctx' = vids vs ∪ vc_args ctx ∧
    visitsOK (vc_args ctx) vs.

(** The loop of [foreachArgImpl] over the parts of a group. *)
Definition foreachInner (overlay : nat) (base : option Arg) (offset : Z) : nat → Z → list Arg → res (list visit) :=
  fix go (i : nat) (off : Z) (l : list Arg) : res (list visit) :=
    match l with
    | [] => Ret []
    | arg1 :: l =>
        let off := if bool_decide (i = overlay) then offset else off in
        vs ← foreachArgImpl tbl h base off arg1;
        size ← argSize tbl h arg1;
        vs' ← go (S i) (u64 (off + size)) l;
        Ret (vs ++ vs')
    end.

Lemma foreach_group base offset a inner :
  foreachArgImpl tbl h base offset (GroupArg a inner) =
  (t ← typeOf tbl (a_ref a);
   let overlay := match t with StructType _ _ _ overlay => overlay | _ => 0%nat end in
   vs ← foreachInner overlay base offset 0 offset inner;
   Ret (mkVisit (GroupArg a inner) base offset :: vs)).
Proof. reflexivity. Qed.

Lemma walks_list inner : Forall walks inner → ∀ tds ctx ctx' overlay base offset i off,
  Forall (wfArg h) inner → length inner = length tds →
  validateList target h inner tds ctx = Ret (inr ctx') →
  (∀ b, base = Some b → ∃ addr, physicalAddr target b = Ret addr) → base ≠ None →
  (∃ sizes, mapM (argSize tbl h) inner = Ret sizes) ∧
  ∃ vs, foreachInner overlay base offset i off inner = Ret vs ∧ vc_args ctx' = vids vs ∪ vc_args ctx ∧
    visitsOK (vc_args ctx) vs.
Proof.
  induction 1 as [|arg inner Harg Hinner IH]; intros tds ctx ctx' overlay base offset i off Hwf Hlen Hv Hbase Hne.
  { destruct tds; [|done]. apply v_ok_inv in Hv as ->. split; [by exists []|]. exists []. split; [done|].
    split; [set_solver|constructor]. }
  destruct tds as [|td tds]; [done|]. apply Forall_cons in Hwf as [Hw Hwf]. cbn [validateList] in Hv.
  apply v_seq_inv in Hv as (c1 & H1 & H2).
  destruct (Harg _ _ _ _ base (if bool_decide (i = overlay) then offset else off) Hw H1 Hbase ltac:(done))
    as ((s & Hs & _) & vs & Hvs & Hargs & Hok).
  destruct (IH tds c1 ctx' overlay base offset (S i)
    (u64 ((if bool_decide (i = overlay) then offset else off) + s)) Hwf ltac:(simpl in Hlen; lia) H2 Hbase Hne)
    as ((sizes & Hm) & vs' & Hvs' & Hargs' & Hok').
  split.
  - exists (s :: sizes). cbn [mapM]. rewrite Hs. cbn [mbind res_bind]. rewrite Hm. done.
  - exists (vs ++ vs'). cbn [foreachInner]. rewrite Hvs. cbn [mbind res_bind]. rewrite Hs. cbn [mbind res_bind].
    fold (foreachInner overlay base offset). rewrite Hvs'. split; [done|]. split.
    + rewrite Hargs', Hargs, vids_app. set_solver.
    + apply visitsOK_app; [done|]. by rewrite <- Hargs.
Qed.

Lemma wfArg_group a inner : wfArg h (GroupArg a inner) → Forall (wfArg h) inner.
Proof. intros [_ Hg]. induction inner as [|x l IH]; [constructor|]. destruct Hg as [Hx Hg]. constructor; [done|by apply IH]. Qed.

(** A tree of one visit. *)
Lemma walk_leaf arg base off ctx : visitOK (vc_args ctx) (mkVisit arg base off) →
  vids [mkVisit arg base off] ∪ vc_args ctx = {[ argId arg ]} ∪ vc_args ctx ∧
  visitsOK (vc_args ctx) [mkVisit arg base off].
Proof.
  intros Hv. split; [|constructor; [done|constructor]]. rewrite vids_cons. cbn [v_arg].
  change (vids []) with (∅ : gset nat). set_solver.
Qed.

Lemma argType_typeOf a t : typeOf tbl (a_ref a) = Ret t → ∀ v, argType tbl h (ConstArg a v) = Ret t.
Proof. done. Qed.

Lemma walks_const a val : walks (ConstArg a val).
Proof using Htable Hheap.
  intros typ dir ctx ctx' base off [Hid Hu] Hv Hbase Htop.
  apply validateArg_inv in Hv as (dir' & t & d & _ & Ht & Hnin & Hd & _ & _ & Hm).
  apply validateConst_inv in Hm as [Hi ->]. pose proof (argType_fits _ _ Ht) as Hf.
  destruct (typSize_fits t Hf) as (s & Hs & Hu8); [by destruct t|].
  assert (Hsize : argSize tbl h (ConstArg a val) = Ret s).
  { cbn [argSize]. unfold argType in Ht. cbn [argRef mbind res_bind] in Ht. rewrite Ht. done. }
  split; [exists s; split; [done|by apply isU8_U64]|]. eexists. split; [done|].
  assert (Hok : visitOK (vc_args ctx) (mkVisit (ConstArg a val) base off)).
  { split; cbn [v_arg v_base]; eauto using isU8_U64; try done.
    - intros _ t' d' s' _ _ _ _ _. by eapply writable_const.
    - by apply not_result. }
  destruct (walk_leaf _ _ _ _ Hok) as [Hids Hvs]. by rewrite Hids.
Qed.

Lemma walks_data a data size : walks (DataArg a data size).
Proof using Htable Hheap.
  intros typ dir ctx ctx' base off (Hid & Hl & Hsz & Hempty) Hv Hbase Htop.
  apply validateArg_inv in Hv as (dir' & t & d & _ & Ht & Hnin & Hd & _ & _ & Hm).
  apply validateData_inv in Hm as [Hb ->].
  assert (Hu : isU64 (if bool_decide (data ≠ []) then Z.of_nat (length data) else size)).
  { case_bool_decide; [unfold isU64; lia|done]. }
  split; [by eexists|]. eexists. split; [done|].
  assert (Hok : visitOK (vc_args ctx) (mkVisit (DataArg a data size) base off)).
  { split; cbn [v_arg v_base]; eauto; try done; [|by apply not_result].
    intros _ t' d' s' Ht' Hd' Hs' Hout Hnz. injection Hs' as <-. injection Hd' as <-.
    rewrite Ht in Ht'. injection Ht' as <-. eapply writable_data; try done. intros ->.
    destruct Hnz as [Hnz|Hnz]; [by rewrite Hempty in Hnz|].
    destruct Hb as (? & ? & ? & ? & ? & ? & ? & ? & ->). done. }
  destruct (walk_leaf _ _ _ _ Hok) as [Hids Hvs]. by rewrite Hids.
Qed.

Lemma walks_result p : walks (ResultArg p).
Proof using Htable Hheap.
  intros typ dir ctx ctx' base off _ Hv Hbase Htop.
  apply validateArg_inv in Hv as (dir' & t & d & _ & Ht & Hnin & Hd & _ & _ & Hm). cbn [validateMethod] in Hm.
  apply bind_ret_inv in Hm as (r & Hr & Hm). destruct (h_results h !! p) as [r'|] eqn:Er; [|done]. injection Hr as ->.
  apply validateResult_inv in Hm as ((c & f & de & ->) & Hargs & Hq & Hin). cbn [vc_args argId] in Hargs, Hq.
  pose proof (argType_fits _ _ Ht) as Hf. destruct (typSize_fits _ Hf I) as (s & Hs & Hu8).
  assert (Hsize : argSize tbl h (ResultArg p) = Ret s).
  { cbn [argSize]. unfold argType in Ht. cbn [argRef] in Ht. rewrite Er in *. cbn [of_option mbind res_bind] in *.
    rewrite Ht. done. }
  split; [exists s; split; [done|by apply isU8_U64]|]. eexists. split; [done|].
  assert (Hok : visitOK (vc_args ctx) (mkVisit (ResultArg p) base off)).
  { split; cbn [v_arg v_base]; eauto using isU8_U64; try done.
    - cbn [resultUsed]. rewrite Er. by eexists.
    - intros _ t' d' s' _ _ _ _ _. by eapply writable_result.
    - intros Hb. by apply Htop.
    - cbn [argId resultUsed]. intros obj. rewrite Er. by intros [= ->]. }
  destruct (walk_leaf _ _ _ _ Hok) as [Hids Hvs]. rewrite Hids. by rewrite Hargs.
Qed.

(** The visit of a pointer itself. *)
Lemma pointer_visit a address vmaSize pointee t addr base off S :
  argType tbl h (PointerArg a address vmaSize pointee) = Ret t → topType t →
  PhysicalAddr target address vmaSize pointee = Ret addr → isU64 addr →
  (∀ b, base = Some b → ∃ addr, physicalAddr target b = Ret addr) → h_results h !! a_id a = None →
  (∃ s, argSize tbl h (PointerArg a address vmaSize pointee) = Ret s ∧ isU64 s) ∧
  visitOK S (mkVisit (PointerArg a address vmaSize pointee) base off).
Proof using Htable Hheap.
  intros Ht Htop Ha Hu Hbase Hid. pose proof (argType_fits _ _ Ht) as Hf.
  destruct (typSize_fits t Hf Htop) as (s & Hs & Hu8).
  assert (Hsize : argSize tbl h (PointerArg a address vmaSize pointee) = Ret s).
  { cbn [argSize]. unfold argType in Ht. cbn [argRef mbind res_bind] in Ht. rewrite Ht. done. }
  split; [exists s; split; [done|by apply isU8_U64]|]. split; cbn [v_arg v_base]; eauto using isU8_U64; try done; [|by apply not_result].
  intros _ t' d' s' _ _ _ _ _. by eapply writable_pointer.
Qed.

Lemma walks_pointer a address vmaSize arg : walks arg → walks (PointerArg a address vmaSize (Some arg)).
Proof using Htable Hheap.
  intros IH typ dir ctx ctx' base off [Hid Hw] Hv Hbase Htop.
  apply validateArg_inv in Hv as (dir' & t & d & _ & Ht & Hnin & Hd & _ & _ & Hm).
  apply v_seq_inv in Hm as (c1 & H1 & H2). apply validateAddress_inv in H2 as (-> & addr & Haddr & Hu).
  destruct t; try done.
  apply v_seq_inv in H1 as (c2 & H1 & H2). apply v_seq_inv in H2 as (c3 & [_ ->]%v_check_inv & [_ ->]%v_check_inv).
  destruct (pointer_visit a address vmaSize (Some arg) _ addr base off (vc_args ctx) Ht I Haddr Hu Hbase Hid) as [Hsize Hok].
  split; [done|].
  destruct (IH _ _ _ _ (Some (PointerArg a address vmaSize (Some arg))) 0 Hw H1) as (_ & vs & Hvs & Hargs & Hoks).
  { intros b [= <-]. by exists addr. }
  { done. }
  exists (mkVisit (PointerArg a address vmaSize (Some arg)) base off :: vs). cbn [foreachArgImpl]. rewrite Hvs.
  split; [done|]. split; [rewrite Hargs, vids_cons; cbn [vc_args v_arg argId]; set_solver|]. by constructor.
Qed.

Lemma walks_nil a address vmaSize : walks (PointerArg a address vmaSize None).
Proof using Htable Hheap.
  intros typ dir ctx ctx' base off [Hid Hw] Hv Hbase Htop.
  apply validateArg_inv in Hv as (dir' & t & d & _ & Ht & Hnin & Hd & _ & _ & Hm).
  apply v_seq_inv in Hm as (c1 & H1 & H2). apply validateAddress_inv in H2 as (-> & addr & Haddr & Hu).
  assert (Hc : topType t ∧ c1 = mkCtx ({[ argId (PointerArg a address vmaSize None) ]} ∪ vc_args ctx) (vc_uses ctx)).
  { destruct t; try done; (split; [done|]); [by apply v_check_inv in H1 as [_ ->]|].
    apply v_seq_inv in H1 as (c2 & ->%v_ok_inv & H2).
    by apply v_seq_inv in H2 as (c3 & [_ ->]%v_check_inv & [_ ->]%v_check_inv). }
  destruct Hc as [Htt ->].
  destruct (pointer_visit a address vmaSize None _ addr base off (vc_args ctx) Ht Htt Haddr Hu Hbase Hid) as [Hsize Hok].
  split; [done|]. eexists. split; [done|]. destruct (walk_leaf _ _ _ _ Hok) as [Hids Hvs]. by rewrite Hids.
Qed.

Lemma walks_union a opt index : walks opt → walks (UnionArg a opt index).
Proof using Htable Hheap.
  intros IH typ dir ctx ctx' base off [Hid Hw] Hv Hbase Htop.
  apply validateArg_inv in Hv as (dir' & t & d & _ & Ht & Hnin & Hd & _ & _ & Hm). cbn [validateMethod] in Hm.
  destruct t; try done. case_bool_decide; [done|]. destruct (Fields !! Z.to_nat index) as [f|]; [|done].
  assert (Hne : base ≠ None) by (intros ->; by destruct Htop).
  destruct (IH _ _ _ _ base off Hw Hm Hbase ltac:(done)) as ((s & Hs & Hsu) & vs & Hvs & Hargs & Hoks).
  pose proof (argType_fits _ _ Ht) as Hf.
  assert (Hsize : ∃ s, argSize tbl h (UnionArg a opt index) = Ret s ∧ isU64 s).
  { cbn [argSize]. unfold argType in Ht. cbn [argRef mbind res_bind] in Ht. rewrite Ht. cbn [mbind res_bind].
    destruct (Varlen _) eqn:Ev; cbn [negb]; [by eexists|]. unfold typSize. unfold Varlen in Ev. rewrite Ev.
    by eexists. }
  split; [done|]. exists (mkVisit (UnionArg a opt index) base off :: vs). cbn [foreachArgImpl]. rewrite Hvs.
  split; [done|]. split; [rewrite Hargs, vids_cons; cbn [vc_args v_arg argId]; set_solver|]. constructor; [|done].
  split; cbn [v_arg v_base isSimple]; eauto; try done. by apply not_result.
Qed.

Lemma walks_group a inner : Forall walks inner → walks (GroupArg a inner).
Proof using Htable Hheap.
  intros IH typ dir ctx ctx' base off Hwf Hv Hbase Htop. pose proof (proj1 Hwf) as Hid. apply wfArg_group in Hwf.
  apply validateArg_inv in Hv as (dir' & t & d & _ & Ht & Hnin & Hd & _ & _ & Hm). cbn [validateMethod] in Hm.
  assert (Hne : base ≠ None) by (intros ->; by destruct Htop).
  pose proof (argType_fits _ _ Ht) as Hf. unfold argType in Ht. cbn [argRef mbind res_bind] in Ht.
  assert (Hl : ∃ tds, length inner = length tds ∧
    match t with StructType _ _ _ _ | ArrayType _ _ _ _ _ => True | _ => False end ∧
    validateList target h inner tds
      (mkCtx ({[ argId (GroupArg a inner) ]} ∪ vc_args ctx) (vc_uses ctx)) = Ret (inr ctx')).
  { destruct t; try done.
    - case_bool_decide; [done|]. rewrite validate_elems in Hm. eexists. split; [|split; [done|exact Hm]].
      by rewrite length_replicate.
    - case_bool_decide as Hlen; [done|]. rewrite validate_fields in Hm. eexists. split; [|split; [done|exact Hm]].
      unfold fieldTds. rewrite length_fmap. done. }
  destruct Hl as (tds & Hlen & Hg & Hvl).
  destruct (walks_list inner IH tds _ _ (match t with StructType _ _ _ overlay => overlay | _ => 0%nat end)
    base off 0 off Hwf Hlen Hvl Hbase Hne) as (Hsizes & vs & Hvs & Hargs & Hoks).
  destruct (group_argSize a inner t Ht Hf Hg Hsizes) as (s & Hs & Hsu). split; [by eexists|].
  exists (mkVisit (GroupArg a inner) base off :: vs). rewrite foreach_group, Ht. cbn [mbind res_bind]. cbv zeta.
  rewrite Hvs. split; [done|]. split; [rewrite Hargs, vids_cons; cbn [vc_args v_arg argId]; set_solver|].
  constructor; [|done]. split; cbn [v_arg v_base isSimple]; eauto; try done. by apply not_result.
Qed.

Lemma all_walk arg : walks arg.
Proof using Htable Hheap.
  induction arg using Arg_tree_ind; eauto using walks_const, walks_nil, walks_pointer, walks_data, walks_group, walks_union, walks_result.
Qed.

(** ** Values copied in and results copied out *)

Definition keysIn (args : gmap id argInfo) (S : gset id) : Prop := ∀ q, is_Some (args !! q) → q ∈ S.

Definition ciFits (ci : ExecCopyin) : Prop := isU64 (ci_Addr ci) ∧ ∃ ea, ci_Arg ci = Some ea ∧ argFits ea.

Definition coFits (co : ExecCopyout) : Prop := isU64 (co_Index co) ∧ isU64 (co_Addr co) ∧ isU64 (co_Size co).

(** The places after the arguments [S] have been seen. *)
Record placesOK (S : gset id) (args : gmap id argInfo) : Prop := {
  po_covers : covers S args;
  po_infos : infosFit args;
  po_keys : keysIn args S;
}.

Lemma covers_mono S S' args : S ⊆ S' → covers S' args → covers S args.
Proof. intros Hs Hc q obj Hq. apply Hc. set_solver. Qed.

Lemma writable_mono S S' arg top : S ⊆ S' → writable S arg top → writable S' arg top.
Proof. intros Hs Hw args Hc. apply Hw. by eapply covers_mono. Qed.

(** Noting the place of a visited argument. *)
Lemma placesOK_note S args v (used : bool) info : placesOK S args → visitOK S v →
  (resultUsed h (v_arg v) = Ret true → used = true) → isU64 (ai_Addr info) → isU64 (ai_Idx info) →
  placesOK ({[ argId (v_arg v) ]} ∪ S) (if used then <[argId (v_arg v) := info]> args else args).
Proof.
  intros [Hc Hi Hk] Hv Hused Ha Hx. split.
  - intros q obj Hq Hobj Huses. destruct (decide (q = argId (v_arg v))) as [->|Hne].
    + rewrite Hused; [by rewrite lookup_insert_eq|]. rewrite (vo_id _ _ Hv obj Hobj). by rewrite bool_decide_true.
    + assert (Hs : is_Some (args !! q)) by (apply (Hc q obj); [set_solver|done..]).
      destruct used; [by rewrite lookup_insert_ne|done].
  - destruct used; [|done]. by apply map_Forall_insert_2.
  - intros q Hq. destruct used; [|specialize (Hk q Hq); set_solver].
    destruct (decide (q = argId (v_arg v))) as [->|Hne]; [set_solver|].
    rewrite lookup_insert_ne in Hq by done. specialize (Hk q Hq). set_solver.
Qed.

Lemma willBeUsed_ret csums arg b : resultUsed h arg = Ret b →
  ∃ used, willBeUsed h csums arg = Ret used ∧ (b = true → used = true).
Proof. intros Hb. unfold willBeUsed. rewrite Hb. cbn [mbind res_bind]. eexists. split; [done|]. by intros ->. Qed.

Lemma copyinVisit_ok csums v S args : visitOK S v → placesOK S args →
  ∃ args' cis, specCopyinVisit target h csums v args = Ret (args', cis) ∧
    placesOK ({[ argId (v_arg v) ]} ∪ S) args' ∧ Forall ciFits cis.
Proof.
  intros Hv Hp. unfold specCopyinVisit. destruct (v_base v) as [base|] eqn:Eb.
  2:{ exists args, []. split; [done|]. split; [|done].
      apply (placesOK_note S args v false (mkInfo 0 0 false)); [done|done| | |]; [|unfold isU64; simpl; lia..].
      rewrite (vo_top _ _ Hv Eb). done. }
  destruct (vo_base _ _ Hv base Eb) as [addr ->]. destruct (vo_type _ _ Hv) as [t Ht]. rewrite Ht.
  cbn [mbind res_bind]. cbv zeta. set (a := u64 (_ - _)). assert (Ha : isU64 a) by apply u64_range.
  destruct (vo_used _ _ Hv) as [b Hb]. destruct (willBeUsed_ret csums _ b Hb) as (used & -> & Hbu).
  cbn [mbind res_bind].
  assert (Hp' : placesOK ({[ argId (v_arg v) ]} ∪ S)
    (if used then <[argId (v_arg v) := mkInfo a 0 false]> args else args)).
  { apply placesOK_note; [done|done| |done|unfold isU64; simpl; lia]. intros Hr. apply Hbu. congruence. }
  set (args1 := if used then _ else _) in *.
  assert (Hsimple : isSimple (v_arg v) → ∃ args' cis,
    (dir ← argDir h (v_arg v);
     if bool_decide (dir = DirOut) || IsPad t then Ret (args1, [])
     else size ← argSize tbl h (v_arg v);
          if bool_decide (size = 0) && negb (IsBitfield t) then Ret (args1, [])
          else x ← specArg target h args1 (v_arg v); Ret (args1, [mkCopyin a x])) = Ret (args', cis) ∧
    placesOK ({[ argId (v_arg v) ]} ∪ S) args' ∧ Forall ciFits cis).
  { intros Hs. destruct (vo_dir _ _ Hv) as [d Hd]. rewrite Hd. cbn [mbind res_bind].
    destruct (bool_decide (d = DirOut) || IsPad t) eqn:Eo; [by exists args1, []|].
    destruct (vo_size _ _ Hv) as (s & Hsz & Hsu). rewrite Hsz. cbn [mbind res_bind].
    destruct (bool_decide (s = 0) && negb (IsBitfield t)) eqn:Ez; [by exists args1, []|].
    apply orb_false_iff in Eo as [Eo _]. apply bool_decide_eq_false in Eo.
    assert (Hnz : s ≠ 0 ∨ IsBitfield t = true).
    { destruct (IsBitfield t); [by right|left]. intros ->. done. }
    destruct (vo_write _ _ Hv Hs t d s Ht Hd Hsz Eo Hnz args1) as (ea & Hspec & Hfit & _);
      [apply Hp'|apply Hp'|].
    rewrite Hspec. cbn [mbind res_bind]. do 2 eexists. split; [done|]. split; [done|].
    apply Forall_singleton. split; [done|]. by exists ea. }
  destruct (v_arg v); try (apply Hsimple; done); by exists args1, [].
Qed.

Lemma copyins_ok csums S vs args : visitsOK S vs → placesOK S args →
  ∃ args' cis, collect (specCopyinVisit target h csums) vs args = Ret (args', cis) ∧
    placesOK (vids vs ∪ S) args' ∧ Forall ciFits cis.
Proof.
  intros Hvs. revert args. induction Hvs as [S|S v vs Hv Hvs IH]; intros args Hp.
  { exists args, []. split; [done|]. split; [|done]. change (vids []) with (∅ : gset nat).
    by replace (∅ ∪ S) with S by set_solver. }
  destruct (copyinVisit_ok csums v S args Hv Hp) as (args1 & cis1 & H1 & Hp1 & Hf1).
  destruct (IH args1 Hp1) as (args2 & cis2 & H2 & Hp2 & Hf2).
  exists args2, (cis1 ++ cis2). cbn [collect]. rewrite H1. cbn [mbind res_bind fst snd].
  fold (collect (specCopyinVisit target h csums)). rewrite H2. split; [done|]. split; [|by apply Forall_app].
  rewrite vids_cons. by replace ({[ argId (v_arg v) ]} ∪ vids vs ∪ S) with (vids vs ∪ ({[ argId (v_arg v) ]} ∪ S)) by set_solver.
Qed.

Lemma copyouts_ok S vs s : placesOK S s.1 → isU64 s.2 →
  Forall (λ v, argId (v_arg v) ∈ S ∧ (∃ b, resultUsed h (v_arg v) = Ret b) ∧
    ∃ z, argSize tbl h (v_arg v) = Ret z ∧ isU64 z) vs →
  ∃ s' cos, collect (specCopyoutVisit target h) vs s = Ret (s', cos) ∧ placesOK S s'.1 ∧ isU64 s'.2 ∧
    Forall coFits cos.
Proof.
  revert s. induction vs as [|v vs IH]; intros s Hp Hs Hf; [by exists s, []|].
  apply Forall_cons in Hf as [(Hin & [b Hb] & z & Hz & Hzu) Hf].
  assert (H1 : ∃ s1 cos1, specCopyoutVisit target h v s = Ret (s1, cos1) ∧ placesOK S s1.1 ∧ isU64 s1.2 ∧ Forall coFits cos1).
  { unfold specCopyoutVisit. rewrite Hb. cbn [mbind res_bind]. destruct b; [|by exists s, []].
    set (info := default (mkInfo 0 0 false) (s.1 !! argId (v_arg v))).
    assert (Hinfo : isU64 (ai_Addr info)).
    { unfold info. destruct (s.1 !! argId (v_arg v)) eqn:El; [|unfold isU64; simpl; lia]. by apply (po_infos _ _ Hp _ _ El). }
    destruct (ai_Ret info); [by exists s, []|]. rewrite Hz. cbn [mbind res_bind]. do 2 eexists. split; [done|].
    cbn [fst snd]. split; [|split; [apply u64_range|by apply Forall_singleton]]. destruct Hp as [Hc Hi Hk]. split.
    - intros q obj Hq Hobj Hu. apply lookup_insert_is_Some'. right. by eapply Hc.
    - by apply map_Forall_insert_2.
    - intros q [<-|Hq]%lookup_insert_is_Some'; [done|by apply Hk]. }
  destruct H1 as (s1 & cos1 & H1 & Hp1 & Hs1 & Hf1). destruct (IH s1 Hp1 Hs1 Hf) as (s2 & cos2 & H2 & Hp2 & Hs2 & Hf2).
  exists s2, (cos1 ++ cos2). cbn [collect]. rewrite H1. cbn [mbind res_bind fst snd].
  fold (collect (specCopyoutVisit target h)). rewrite H2. split; [done|]. split; [done|]. split; [done|].
  by apply Forall_app.
Qed.

(** ** Checksums *)

Definition sized (arg : Arg) : Prop := ∃ s, argSize tbl h arg = Ret s ∧ isU64 s.

Definition chunkOK (c : CsumChunk) : Prop :=
  match c with
  | CsumChunkArg arg => sized arg
  | CsumChunkConst value size => isU64 value ∧ isU64 size
  end.

Definition isCsum (arg : Arg) : Prop := ∃ c k b p, argType tbl h arg = Ret (CsumType c k b p).

Definition csumOK (e : Arg * list CsumChunk) : Prop :=
  isCsum e.1 ∧ sized e.1 ∧ Forall chunkOK e.2 ∧ (length e.2 ≤ 5)%nat.

Definition visited (vs : list visit) : Prop := Forall (λ v, sized (v_arg v)) vs.

Lemma csumFields_ok kind vs args : visited vs → csumFields tbl h kind vs = Ret args →
  Forall (λ a, isCsum a ∧ sized a) args.
Proof.
  intros Hv. revert args. induction Hv as [|v vs Hs Hv IH]; intros args; cbn [csumFields]; [by intros [= <-]|].
  intros (t & Ht & (args' & Ha & Hr)%bind_ret_inv)%bind_ret_inv. injection Hr as <-. specialize (IH _ Ha).
  destruct t; try done. case_bool_decide; [|done]. constructor; [|done]. split; [|done]. by repeat eexists.
Qed.

Lemma addParents_ok parent fields m m' : sized parent → map_Forall (λ _ a, sized a) m →
  addParents tbl h parent fields m = Ret m' → map_Forall (λ _ a, sized a) m'.
Proof.
  intros Hp. revert m. induction fields as [|f fields IH]; intros m Hm; cbn [addParents]; [by intros [= <-]|].
  intros (inner & _ & Hr)%bind_ret_inv. revert Hr. apply IH. destruct inner; [|done]. by apply map_Forall_insert_2.
Qed.

Lemma parentsMap_ok vs m m' : visited vs → map_Forall (λ _ a, sized a) m →
  parentsMap tbl h vs m = Ret m' → map_Forall (λ _ a, sized a) m'.
Proof.
  intros Hv. revert m. induction Hv as [|v vs Hs Hv IH]; intros m Hm; cbn [parentsMap]; [by intros [= <-]|].
  intros (t & _ & (m1 & H1 & Hr)%bind_ret_inv)%bind_ret_inv. revert Hr. apply IH.
  assert (m1 = m ∨ ∃ a inner, v_arg v = GroupArg a inner ∧ addParents tbl h (v_arg v) inner m = Ret m1)
    as [->|(a & inner & _ & Ha)].
  { destruct t; try (left; by injection H1 as ->). destruct (v_arg v); try done. right. by repeat eexists. }
  - done.
  - by eapply addParents_ok.
Qed.

Lemma findParent_ok fuel parents name parent a : map_Forall (λ _ a, sized a) parents →
  (∀ p, parent = Some p → sized p) → findParent fuel tbl h parents name parent = Ret a → sized a.
Proof.
  intros Hm. revert parent. induction fuel as [|fuel IH]; intros [p|] Hp; cbn [findParent]; try done.
  intros (t & _ & Hr)%bind_ret_inv. case_bool_decide; [injection Hr as <-; by apply Hp|].
  eapply IH; [|exact Hr]. intros p' Hp'. by apply (Hm _ _ Hp').
Qed.

Lemma findCsummedArg_ok parents arg buf a : map_Forall (λ _ a, sized a) parents →
  findCsummedArg tbl h parents arg buf = Ret a → sized a.
Proof.
  intros Hm. unfold findCsummedArg. case_bool_decide.
  - destruct (parents !! argId arg) as [p|] eqn:Ep; [|done]. intros [= <-]. by apply (Hm _ _ Ep).
  - apply findParent_ok; [done|]. intros p Hp. by apply (Hm _ _ Hp).
Qed.

Lemma csumAdd_ok m arg chunks : Forall csumOK m → csumOK (arg, chunks) → Forall csumOK (csumAdd m arg chunks).
Proof.
  intros Hm He. unfold csumAdd. apply Forall_app. split; [|by apply Forall_singleton].
  rewrite Forall_forall in *. intros e [_ Hin]%list_elem_of_filter. by apply Hm.
Qed.

Lemma inetCsums_ok parents args m uses r : map_Forall (λ _ a, sized a) parents →
  Forall (λ a, isCsum a ∧ sized a) args → Forall csumOK m →
  inetCsums tbl h parents args m uses = Ret r → Forall csumOK r.1.
Proof.
  intros Hp Ha. revert m uses. induction Ha as [|arg args [Hc Hs] Ha IH]; intros m uses Hm; cbn [inetCsums];
    [by intros [= <-]|].
  intros (bp & _ & (cs & Hf & Hr)%bind_ret_inv)%bind_ret_inv. revert Hr. apply IH. apply csumAdd_ok; [done|].
  split; [done|]. split; [done|]. split; [|simpl; lia]. apply Forall_singleton. by eapply findCsummedArg_ok.
Qed.

Lemma swap16_u64 v : isU64 (swap16 v).
Proof. rewrite swap16_rev. pose proof (revBytes_range 2 v). unfold isU64. simpl in *. lia. Qed.

Lemma swap32_u64 v : isU64 (swap32 v).
Proof. rewrite swap32_rev. pose proof (revBytes_range 4 v). unfold isU64. simpl in *. lia. Qed.

Lemma pseudoCsums_ok parents src dst args m uses r : map_Forall (λ _ a, sized a) parents → sized src → sized dst →
  Forall (λ a, isCsum a ∧ sized a) args → Forall csumOK m →
  pseudoCsums tbl h parents src dst args m uses = Ret r → Forall csumOK r.1.
Proof.
  intros Hp Hsrc Hdst Ha. revert m uses. induction Ha as [|arg args [Hc Hs] Ha IH]; intros m uses Hm;
    cbn [pseudoCsums]; [by intros [= <-]|].
  intros (bp & _ & (cs & Hf & (size & _ & (info & Hi & Hr)%bind_ret_inv)%bind_ret_inv)%bind_ret_inv)%bind_ret_inv.
  apply findCsummedArg_ok in Hf; [|done]. revert Hr. apply IH. apply csumAdd_ok; [done|].
  split; [done|]. split; [done|].
  case_bool_decide; apply bind_ret_inv in Hi as (z & _ & Hi); injection Hi as <-; (split; [|simpl; lia]);
    repeat constructor; try done; try apply swap16_u64; try apply swap32_u64; unfold isU64; lia.
Qed.

Lemma extractHeaderParams_ok t inner size r : isU64 size → extractHeaderParams tbl h t inner size = Ret r →
  sized r.1 ∧ sized r.2.
Proof.
  intros Hu (src & _ & (dst & _ & (s1 & H1 & (s2 & H2 & Hr)%bind_ret_inv)%bind_ret_inv)%bind_ret_inv)%bind_ret_inv.
  case_bool_decide as Hs; [done|]. injection Hr as <-. unfold sized. simpl.
  assert (s1 = size ∧ s2 = size) as [-> ->] by lia. split; by eexists.
Qed.

Lemma headerParams_ok vs found r : (∀ sd, found = Some sd → sized sd.1 ∧ sized sd.2) →
  headerParams tbl h vs found = Ret r → ∀ sd, r = Some sd → sized sd.1 ∧ sized sd.2.
Proof.
  revert found. induction vs as [|v vs IH]; intros found Hf; cbn [headerParams]; [by intros [= <-]|].
  intros (f1 & H1 & Hr)%bind_ret_inv. apply (IH f1); [|done]. clear Hr.
  destruct (v_arg v); try (injection H1 as <-; done). apply bind_ret_inv in H1 as (t & _ & H1). cbv zeta in H1.
  case_bool_decide; [|case_bool_decide; [|by injection H1 as <-]];
    apply bind_ret_inv in H1 as (p & Hp & H1); injection H1 as <-; intros sd [= <-];
    (eapply extractHeaderParams_ok; [|exact Hp]); unfold isU64; lia.
Qed.

Lemma checksums_ok c vs csums : ForeachArg tbl h c = Ret vs → visited vs → calcChecksumsCall tbl h c = Ret csums →
  Forall csumOK csums.1.
Proof.
  intros Hvs Hv. unfold calcChecksumsCall. rewrite Hvs. cbn [mbind res_bind].
  intros (inet & Hi & (pseudo & Hps & Hr)%bind_ret_inv)%bind_ret_inv.
  apply csumFields_ok in Hi; [|done]. apply csumFields_ok in Hps; [|done].
  case_bool_decide; [injection Hr as <-; constructor|].
  apply bind_ret_inv in Hr as (parents & Hp & (mu & Hmu & Hr)%bind_ret_inv).
  apply parentsMap_ok in Hp; [|done|apply map_Forall_empty].
  apply inetCsums_ok in Hmu; [|done|done|constructor].
  case_bool_decide; [by injection Hr as <-|].
  apply bind_ret_inv in Hr as (addrs & Haddrs & (sd & Hsd & Hr)%bind_ret_inv).
  destruct addrs as [sd'|]; [|done]. injection Hsd as ->.
  destruct (headerParams_ok vs None (Some sd) ltac:(done) Haddrs sd eq_refl) as [H1 H2].
  by eapply pseudoCsums_ok in Hr.
Qed.

Lemma specAddr_u64 args arg : infosFit args → isU64 (specAddr args arg).
Proof.
  intros Hi. unfold specAddr. destruct (args !! argId arg) eqn:E; [by apply (Hi _ _ E)|]. unfold isU64. lia.
Qed.

Lemma specChunks_ok args chunks : infosFit args → Forall chunkOK chunks →
  ∃ cs, mapM (specChunk target h args) chunks = Ret cs ∧ Forall chunkFits cs ∧ length cs = length chunks.
Proof.
  intros Hi. induction 1 as [|ch chunks Hc _ (cs & Hm & Hf & Hl)]; [by exists []|]. cbn [mapM].
  assert (H1 : ∃ c, specChunk target h args ch = Ret c ∧ chunkFits c).
  { destruct ch as [arg|value size]; cbn [specChunk].
    - destruct Hc as (s & -> & Hs). cbn [mbind res_bind]. eexists. split; [done|].
      split; [by vm_compute|]. split; [by apply specAddr_u64|done].
    - eexists. split; [done|]. split; [by vm_compute|]. done. }
  destruct H1 as (c & -> & Hcf). cbn [mbind res_bind]. rewrite Hm. cbn [mbind res_bind]. eexists.
  split; [done|]. split; [by constructor|]. simpl. by rewrite Hl.
Qed.

Lemma specCsums_ok args es : infosFit args → Forall csumOK es →
  ∃ cis, mapM (specCsum target h args) es = Ret cis ∧ Forall ciFits cis.
Proof.
  intros Hi. induction 1 as [|e es He _ (cis & Hm & Hf)]; [by exists []|].
  destruct He as ((c & k & b & p & Ht) & (s & Hs & Hsu) & Hch & Hlen).
  assert (H1 : ∃ ci, specCsum target h args e = Ret ci ∧ ciFits ci).
  { unfold specCsum. rewrite Ht. cbn [mbind res_bind]. rewrite Hs. cbn [mbind res_bind].
    destruct (specChunks_ok args e.2 Hi Hch) as (cs & -> & Hcs & Hl). cbn [mbind res_bind]. eexists.
    split; [done|]. split; [by apply specAddr_u64|]. eexists. split; [done|]. split; [done|]. split; [done|].
    split; [|done]. unfold makePanics. apply bool_decide_eq_false. lia. }
  destruct H1 as (ci & H1 & Hci). cbn [mapM]. rewrite H1. cbn [mbind res_bind]. rewrite Hm.
  cbn [mbind res_bind]. eexists. split; [done|]. by constructor.
Qed.

(** ** Calls *)

Lemma top_arg arg typ ctx ctx' : wfArg h arg → validateArg target h arg typ DirIn ctx = Ret (inr ctx') →
  (∀ t, typeOf tbl typ = Ret t → topType t) →
  isSimple arg ∧ resultUsed h arg = Ret false ∧ writable ({[ argId arg ]} ∪ vc_args ctx) arg true.
Proof using Htable Hheap.
  intros Hw Hv Htop.
  apply validateArg_inv in Hv as (dir' & t & d & Hpd & Ht & Hnin & Hd & Hdd & Href & Hm).
  assert (Htt : topType t).
  { destruct Href as [Hany|Href]; [by destruct t|]. apply Htop. unfold argType in Ht. rewrite Href in Ht. done. }
  assert (dir' = DirIn) as ->.
  { unfold ptrDir in Hpd. apply bind_ret_inv in Hpd as (t0 & _ & Hpd). injection Hpd as <-. by destruct t0. }
  destruct arg as [a val|a address vmaSize pointee|a data size|a inner|a opt index|p]; cbn [validateMethod] in Hm.
  - apply validateConst_inv in Hm as [Hi _]. destruct Hw as [_ Hu]. split; [done|]. split; [done|].
    by eapply writable_const.
  - apply v_seq_inv in Hm as (c1 & _ & H2). apply validateAddress_inv in H2 as (_ & addr & Ha & Hu).
    split; [done|]. split; [done|]. by eapply writable_pointer.
  - apply validateData_inv in Hm as [(? & ? & ? & ? & ? & ? & ? & ? & ->) _]. done.
  - by destruct t.
  - by destruct t.
  - apply bind_ret_inv in Hm as (r & Hr & Hm). destruct (h_results h !! p) as [r'|] eqn:Er; [|done]. injection Hr as ->.
    apply validateResult_inv in Hm as ((c & f & de & ->) & _ & Hq & Hin). cbn [argDir] in Hd. rewrite Er in Hd.
    injection Hd as Hd. split; [done|]. split.
    + cbn [resultUsed]. rewrite Er. cbn [of_option mbind res_bind]. rewrite bool_decide_false; [done|].
      rewrite Hin; [by intros ?|]. destruct Hdd; [congruence|done].
    + by eapply writable_result.
Qed.

Lemma args_walk args fields ctx ctx' : Forall (wfArg h) args → length args = length fields →
  (∀ f t, f ∈ fields → typeOf tbl (f_Type f) = Ret t → topType t) →
  validateArgs target h args fields ctx = Ret (inr ctx') →
  ∃ vss, mapM (foreachArgImpl tbl h None 0) args = Ret vss ∧ vc_args ctx' = vids (concat vss) ∪ vc_args ctx ∧
    visitsOK (vc_args ctx) (concat vss) ∧ Forall (λ arg, writable (vc_args ctx') arg true) args.
Proof using Htable Hheap.
  revert fields ctx. induction args as [|arg args IH]; intros [|f fields] ctx Hw Hl Htop Hv; try done.
  { apply v_ok_inv in Hv as ->. exists []. split; [done|]. split; [|split; constructor].
    change (vids (concat [])) with (∅ : gset nat). set_solver. }
  apply Forall_cons in Hw as [Hwa Hw]. cbn [validateArgs] in Hv. apply v_seq_inv in Hv as (c1 & H1 & H2).
  destruct (top_arg _ _ _ _ Hwa H1) as (Hsimple & Hunused & Hwr).
  { intros t Ht. eapply Htop; [by left|done]. }
  destruct (all_walk arg _ _ _ _ None 0 Hwa H1) as (_ & vs & Hvs & Hargs & Hok); [done|done|].
  destruct (IH fields c1 Hw ltac:(simpl in Hl; lia)) as (vss & Hvss & Hargs' & Hok' & Hwrs);
    [intros f' t Hf'; apply Htop; by right|done|].
  exists (vs :: vss). cbn [mapM]. rewrite Hvs. cbn [mbind res_bind]. rewrite Hvss. split; [done|].
  cbn [concat]. split; [rewrite Hargs', Hargs, vids_app; set_solver|]. split.
  - apply visitsOK_app; [done|]. by rewrite <- Hargs.
  - constructor; [|done]. eapply writable_mono; [|exact Hwr]. rewrite Hargs', Hargs.
    assert (argId arg ∈ vids vs); [|set_solver].
    assert (∃ rest, vs = mkVisit arg None 0 :: rest) as [rest ->].
    { destruct arg as [| ? ? ? [?|] | | | |]; try done; cbn [foreachArgImpl] in Hvs;
        try (injection Hvs as <-; by eexists). apply bind_ret_inv in Hvs as (? & _ & Hvs). injection Hvs as <-. by eexists. }
    rewrite vids_cons. set_solver.
Qed.

Lemma visitsOK_facts S vs : visitsOK S vs →
  visited vs ∧ Forall (λ v, argId (v_arg v) ∈ vids vs ∧ (∃ b, resultUsed h (v_arg v) = Ret b) ∧
    ∃ z, argSize tbl h (v_arg v) = Ret z ∧ isU64 z) vs.
Proof.
  induction 1 as [S|S v vs Hv _ [IH1 IH2]]; [split; constructor|]. split.
  - constructor; [apply Hv|done].
  - constructor.
    + split; [rewrite vids_cons; set_solver|]. split; apply Hv.
    + eapply Forall_impl; [exact IH2|]. intros v' (Hin & Hrest). split; [rewrite vids_cons; set_solver|done].
Qed.

(** The return value: its visit, and its place. *)
Record retOK (c : Call) (S S' : gset id) (vret : list visit) : Prop := {
  ro_visit : match c_Ret c with Some p => foreachArgImpl tbl h None 0 (ResultArg p) | None => Ret [] end = Ret vret;
  ro_skip : ∀ csums args, collect (specCopyinVisit target h csums) vret args = Ret (args, []);
  ro_facts : Forall (λ v, argId (v_arg v) ∈ S' ∧ (∃ b, resultUsed h (v_arg v) = Ret b) ∧ sized (v_arg v)) vret;
  ro_place : ∀ s, placesOK S s.1 → isU64 s.2 → ∃ s' idx, specRet h c s = Ret (s', idx) ∧
    placesOK S' s'.1 ∧ isU64 s'.2 ∧ isU64 idx;
  ro_sub : S ⊆ S';
}.

Lemma validateRet_ok c ctx ctx' : validateRet target h c ctx = Ret (inr ctx') →
  ∃ vret, retOK c (vc_args ctx) (vc_args ctx') vret.
Proof using Htable Hheap.
  unfold validateRet. intros Hv. destruct (sc_Ret (c_Meta c)) as [t|], (c_Ret c) as [p|] eqn:Ec; try done.
  2:{ apply v_ok_inv in Hv as ->. exists []. split; rewrite ?Ec; try done. intros s Hp Hs. unfold specRet. rewrite Ec.
      do 2 eexists. split; [done|]. split; [done|]. split; [done|]. by vm_compute. }
  apply bind_ret_inv in Hv as (r & Hr & Hv). destruct (h_results h !! p) as [r'|] eqn:Er; [|done]. injection Hr as ->.
  apply v_seq_inv in Hv as (c1 & [_ ->]%v_check_inv & Hv).
  apply validateArg_inv in Hv as (dir' & t' & d & _ & Ht & Hnin & _ & _ & _ & Hm). cbn [validateMethod argId] in *.
  rewrite Er in Hm. cbn [of_option mbind res_bind] in Hm.
  apply validateResult_inv in Hm as ((cc & f & de & ->) & Hargs & _ & _). cbn [vc_args] in Hargs.
  pose proof (argType_fits _ _ Ht) as Hf. destruct (typSize_fits _ Hf I) as (s & Hs & Hu8).
  assert (Hsized : sized (ResultArg p)).
  { exists s. split; [|by apply isU8_U64]. cbn [argSize]. unfold argType in Ht. cbn [argRef] in Ht. rewrite Er in *.
    cbn [of_option mbind res_bind] in *. rewrite Ht. done. }
  exists [mkVisit (ResultArg p) None 0]. split; rewrite ?Ec; try done.
  - apply Forall_singleton. cbn [v_arg argId]. split; [rewrite Hargs; set_solver|]. split; [|done].
    cbn [resultUsed]. rewrite Er. by eexists.
  - intros pl [Hc Hi Hk] Hq. unfold specRet. rewrite Ec, Er. cbn [of_option mbind res_bind]. rewrite Hargs.
    case_bool_decide as Hu.
    + do 2 eexists. split; [done|]. split; [|split; [done|by vm_compute]]. split; [|done|].
      * intros q obj Hq1 Hobj Huses. apply (Hc q obj); [|done..]. destruct (decide (q = p)) as [->|]; [congruence|set_solver].
      * intros q Hq1. specialize (Hk q Hq1). set_solver.
    + assert (pl.1 !! p = None) as ->.
      { apply eq_None_not_Some. intros Hsome. apply Hnin. by apply Hk. }
      do 2 eexists. split; [done|]. cbn [fst snd]. split; [|split; [apply u64_range|done]]. split.
      * intros q obj Hq1 Hobj Huses. apply lookup_insert_is_Some'. destruct (decide (q = p)) as [->|]; [by left|right].
        apply (Hc q obj); [set_solver|done..].
      * apply map_Forall_insert_2; [|done]. split; [unfold isU64; simpl; lia|done].
      * intros q [<-|Hq1]%lookup_insert_is_Some'; [set_solver|]. specialize (Hk q Hq1). set_solver.
  - rewrite Hargs. set_solver.
Qed.

Lemma collect_app {A B S} (f : A → S → res (S * list B)) l1 l2 s s1 bs1 :
  collect f l1 s = Ret (s1, bs1) →
  collect f (l1 ++ l2) s = (r ← collect f l2 s1; Ret (r.1, bs1 ++ r.2)).
Proof.
  revert s s1 bs1. induction l1 as [|x l1 IH]; intros s s1 bs1; cbn [collect app].
  { intros [= <- <-]. by destruct (collect f l2 s) as [[? ?]| |]. }
  intros (r & Hr & (r' & Hr' & He)%bind_ret_inv)%bind_ret_inv. injection He as <- <-. rewrite Hr. cbn [mbind res_bind].
  fold (collect f). rewrite (IH r.1 r'.1 r'.2) by (fold (collect f) in Hr'; rewrite Hr'; by destruct r').
  destruct (collect f l2 r'.1) as [[s2 bs2]| |]; cbn [mbind res_bind fst snd]; [|done..]. by rewrite app_assoc.
Qed.

Lemma specArgs_ok S args l : Forall (λ arg, writable S arg true) l → covers S args → infosFit args →
  ∃ eas, mapM (specArg target h args) l = Ret eas ∧ length eas = length l ∧
    Forall (λ a, ∃ ea, a = Some ea ∧ argFits ea ∧ isCallArg ea) eas.
Proof.
  intros Hf Hc Hi. induction Hf as [|arg l Hw _ (eas & Hm & Hl & Hfs)]; [by exists []|]. cbn [mapM].
  destruct (Hw args Hc Hi) as (ea & Hea & Hfit & Hcall). rewrite Hea. cbn [mbind res_bind]. rewrite Hm.
  eexists. split; [done|]. split; [simpl; by rewrite Hl|]. constructor; [|done]. exists ea. split; [done|].
  split; [done|by apply Hcall].
Qed.

Lemma validateCall_inv c ctx ctx' : validateCall target h c ctx = Ret (inr ctx') →
  length (c_Args c) = length (sc_Args (c_Meta c)) ∧
  ∃ ctx1, validateArgs target h (c_Args c) (sc_Args (c_Meta c)) ctx = Ret (inr ctx1) ∧
    validateRet target h c ctx1 = Ret (inr ctx').
Proof.
  unfold validateCall. intros (c1 & [_ ->]%v_check_inv & H1)%v_seq_inv.
  apply v_seq_inv in H1 as (c2 & [_ ->]%v_check_inv & H1). apply v_seq_inv in H1 as (c3 & [Hl ->]%v_check_inv & H1).
  apply v_seq_inv in H1 as (c4 & H1 & H2). apply bool_decide_eq_false in Hl.
  split; [by apply dec_stable in Hl|]. by exists c4.
Qed.

Lemma specCall_ok c ctx ctx' csums s : wfCall target h c → validateCall target h c ctx = Ret (inr ctx') →
  calcChecksumsCall tbl h c = Ret csums → placesOK (vc_args ctx) s.1 → isU64 s.2 →
  ∃ s' sc, specCall target h c s = Ret (s', sc) ∧ placesOK (vc_args ctx') s'.1 ∧ isU64 s'.2 ∧
    callFits (Syscalls target) sc.
Proof using Htable Hheap.
  intros [Hw Hmeta Hid Hcnt Htypes Hfail Hrerun] Hv Hcs Hp Hs.
  apply validateCall_inv in Hv as (Hlen & ctx1 & Hva & Hvr).
  destruct (args_walk _ _ _ _ Hw Hlen Htypes Hva) as (vss & Hvss & Hargs & Hok & Hwr).
  destruct (validateRet_ok c ctx1 ctx' Hvr) as (vret & [Hrv Hskip Hfacts Hplace Hsub]).
  assert (Hvs : ForeachArg tbl h c = Ret (vret ++ concat vss)).
  { unfold ForeachArg. rewrite Hrv. cbn [mbind res_bind]. rewrite Hvss. done. }
  destruct (visitsOK_facts _ _ Hok) as [Hvis Hall].
  assert (Hvisited : visited (vret ++ concat vss)).
  { apply Forall_app. split; [|done]. eapply Forall_impl; [exact Hfacts|]. by intros v (_ & _ & ?). }
  pose proof (checksums_ok c _ csums Hvs Hvisited Hcs) as Hcsok.
  destruct (copyins_ok csums _ _ s.1 Hok Hp) as (args1 & cis & Hci & Hp1 & Hfci). rewrite <- Hargs in Hp1.
  assert (Hcol : collect (specCopyinVisit target h csums) (vret ++ concat vss) s.1 = Ret (args1, cis)).
  { rewrite (collect_app _ _ _ _ _ _ (Hskip csums s.1)). rewrite Hci. done. }
  destruct (specCsums_ok args1 (specOrder args1 csums.1)) as (sums & Hsums & Hfsums); [apply Hp1| |].
  { rewrite Forall_forall in Hcsok |- *. intros e He. apply Hcsok. unfold specOrder, csumOrder in He.
    by rewrite elem_of_reverse, merge_sort_Permutation in He. }
  destruct (Hplace (args1, s.2) Hp1 Hs) as (s2 & idx & Hret & Hp2 & Hs2 & Hidx).
  destruct (specArgs_ok (vc_args ctx1) s2.1 (c_Args c) Hwr) as (eas & Heas & Hleas & Hfeas).
  { eapply covers_mono; [exact Hsub|apply Hp2]. }
  { apply Hp2. }
  destruct (copyouts_ok (vc_args ctx') (vret ++ concat vss) s2 Hp2 Hs2) as (s3 & cos & Hco & Hp3 & Hs3 & Hfco).
  { apply Forall_app. split; [done|]. eapply Forall_impl; [exact Hall|]. intros v (Hin & Hrest).
    split; [|done]. apply Hsub. rewrite Hargs. set_solver. }
  unfold specCall. rewrite Hcs. cbn [mbind res_bind]. rewrite Hvs. cbn [mbind res_bind]. rewrite Hcol.
  cbn [mbind res_bind fst snd]. rewrite Hsums. cbn [mbind res_bind]. rewrite Hret. cbn [mbind res_bind fst snd].
  rewrite Heas. cbn [mbind res_bind]. rewrite Hco. cbn [mbind res_bind fst snd]. do 2 eexists. split; [done|].
  split; [done|]. split; [done|].
  split; cbn [s_Meta s_Props s_Index s_Args s_Copyin s_Copyout]; try done.
  - rewrite Hleas, Hlen. unfold isU64, MaxArgs in *. lia.
  - by apply Forall_app.
Qed.

(** ** Programs *)

Lemma specCalls_ok calls ctx ctx' s :
  Forall (wfCall target h) calls → Forall (λ c, ∃ csums, calcChecksumsCall tbl h c = Ret csums) calls →
  v_all (validateCall target h) calls ctx = Ret (inr ctx') → placesOK (vc_args ctx) s.1 → isU64 s.2 →
  ∃ s' scs, collect (λ c s, r ← specCall target h c s; Ret (r.1, [r.2])) calls s = Ret (s', scs) ∧
    Forall (callFits (Syscalls target)) scs.
Proof using Htable Hheap.
  intros Hw. revert ctx s. induction Hw as [|c calls Hc Hw IH]; intros ctx s Hcs Hv Hp Hs; [by exists s, []|].
  apply Forall_cons in Hcs as [[csums Hcsum] Hcs]. cbn [v_all] in Hv. apply v_seq_inv in Hv as (c1 & H1 & H2).
  destruct (specCall_ok c ctx c1 csums s Hc H1 Hcsum Hp Hs) as (s1 & sc & Hsc & Hp1 & Hs1 & Hfit).
  destruct (IH c1 s1 Hcs H2 Hp1 Hs1) as (s2 & scs & Hrest & Hfits).
  exists s2, (sc :: scs). cbn [collect]. rewrite Hsc. cbn [mbind res_bind fst snd].
  fold (collect (λ c s, r ← specCall target h c s; Ret (r.1, [r.2]))). rewrite Hrest. split; [done|]. by constructor.
Qed.

End Safe.

Lemma validate_inv target h calls : validate target h calls = Ret None →
  ∃ ctx', v_all (validateCall target h) calls (mkCtx ∅ ∅) = Ret (inr ctx').
Proof.
  unfold validate. intros (r & Hr & Hv)%bind_ret_inv. destruct r as [e|ctx]; [done|]. by exists ctx.
Qed.


(** ** Examples *)

(** A target with a call that makes a resource and one that uses it and a
    pointer to a struct of an integer and a buffer. *)
Definition exampleTypes : list Typ :=
  let c size := mkTC "t" size 1 false false in
  let ic size := mkITC (c size) FormatNative 0 0 0 0 in
  [ ConstType (ic 0) 0 false;
    ResourceType (c 4) FormatNative (mkResourceDesc "fd" ["fd"] [0xffffffffffffffff]);
    IntType (ic 4) IntPlain 0 0 0;
    BufferType (mkTC "buf" 0 1 false true) BufferBlobRand 0 0 TextTarget EmptyString [] false;
    StructType (mkTC "st" 0 1 false true) [mkField "n" 2 false DirIn; mkField "data" 3 false DirIn] 0 0;
    PtrType (c 8) 4 DirIn;
    StructType (mkTC "pair" 8 1 false false) [mkField "out" 1 true DirOut; mkField "in" 1 true DirIn] 0 0;
    PtrType (c 8) 6 DirInOut ].

Definition exampleOpen : Syscall := mkSyscall 0 "open" [] (Some 1%nat) false.

Definition exampleUse : Syscall :=
  mkSyscall 1 "use" [mkField "fd" 1 false DirIn; mkField "p" 5 false DirIn] None false.

Definition examplePair : Syscall := mkSyscall 2 "pair" [mkField "p" 7 false DirIn] None false.

Definition exampleTarget : Target :=
  mkTarget exampleTypes 4096 16 0x20000000 [0; 0xffffffffffffffff] [exampleOpen; exampleUse; examplePair] 0.

Definition exampleHeap : Heap :=
  mkHeap 10 (<[1%nat := mkResult 1 DirOut None 0 0 0 {[ 2%nat ]}]>
            (<[2%nat := mkResult 1 DirIn (Some 1%nat) 0 0 0 ∅]> ∅)).

Definition exampleCalls : list Call :=
  [ mkCall exampleOpen [] (Some 1%nat) (mkProps 0 true 0);
    mkCall exampleUse
      [ ResultArg 2;
        PointerArg (mkAC 3 5 DirIn) 64 0 (Some (GroupArg (mkAC 4 4 DirIn)
          [ConstArg (mkAC 5 2 DirIn) 7; DataArg (mkAC 6 3 DirIn) [1; 2; 3] 0])) ]
      None (mkProps 0 false 0) ].

Lemma example_fits : tableFits exampleTarget.
Proof.
  split; [|repeat constructor; by vm_compute]. intros ref t Ht.
  do 8 (destruct ref as [|ref]; [injection Ht as <-; cbn; unfold isU8, isU64, Varlen; cbn;
    split_and?; try done; try lia; try (intros c [= <-]; cbn; unfold isU8; lia); try (repeat constructor; by vm_compute)|]).
  done.
Qed.

Lemma example_heap : wfHeap exampleHeap.
Proof.
  intros p r. unfold exampleHeap. cbn [h_results]. rewrite !lookup_insert_Some.
  intros [[_ <-]|[_ [[_ <-]|[_ Hp]]]]; [..|by rewrite lookup_empty in Hp]; by vm_compute.
Qed.

Lemma example_calls : Forall (wfCall exampleTarget exampleHeap) exampleCalls.
Proof.
  repeat constructor; cbn; try lia; try (by vm_compute); try done.
  - by intros f t Hf%not_elem_of_nil.
  - intros f t Hf Ht. repeat (apply elem_of_cons in Hf as [->|Hf]; [vm_compute in Ht; injection Ht as <-; exact I|]).
    by apply not_elem_of_nil in Hf.
Qed.


(** A call with an output resource and, in the same struct, an input that refers
    to it, after another call whose result is also used. *)
Definition pairHeap : Heap :=
  mkHeap 20 (<[1%nat := mkResult 1 DirOut None 0 0 0 {[ 2%nat ]}]>
            (<[2%nat := mkResult 1 DirIn (Some 1%nat) 0 0 0 ∅]>
            (<[11%nat := mkResult 1 DirOut None 0 0 0 {[ 12%nat ]}]>
            (<[12%nat := mkResult 1 DirIn (Some 11%nat) 0 0 0 ∅]> ∅)))).

Definition pairCalls : list Call :=
  exampleCalls ++
  [ mkCall examplePair
      [PointerArg (mkAC 13 7 DirIn) 128 0 (Some (GroupArg (mkAC 14 6 DirInOut) [ResultArg 11; ResultArg 12]))]
      None (mkProps 0 false 0) ].

