(* ===== verification/ProgClone.v ===== *)
(** * Clones share nothing

    [Clone] of [prog/clone.go] makes a copy of a program whose results are new
    objects, linked to each other the way the originals are, and leaves the
    original as it was. *)

From stdpp Require Import base numbers strings gmap list.
From S2P Require Import Prelude Word ProgTypes ProgArgs ProgTree ProgDefault ProgLinks.

Local Open Scope Z_scope.

(** ** Copies *)

(** The results of a call in the order [cloneCall] meets them. *)
Definition cloneOrder (c : Call) : list id :=
  match c_Ret c with Some p => [p] | None => [] end ++ concat (resultsOf <$> c_Args c).

(** A result refers only to what has been cloned before. *)
Fixpoint backwards (h : Heap) (D : gset id) (ps : list id) : Prop :=
  match ps with
  | [] => True
  | p :: ps =>
      p ∉ D ∧ (∃ r, h_results h !! p = Some r ∧ ∀ q, r_Res r = Some q → q ∈ D) ∧ backwards h ({[ p ]} ∪ D) ps
  end.

(** The copy of a result, where [m] maps results to their copies. *)
Definition copyOf (m : gmap id id) (r : ResultObj) : ResultObj :=
  mkResult (r_ref r) (r_dir r) (r_Res r ≫= λ q, m !! q) (r_OpDiv r) (r_OpAdd r) (r_Val r)
    (set_omap (λ u, m !! u) (r_uses r)).

Definition copyCommon (a b : ArgCommon) : Prop := a_ref b = a_ref a ∧ a_dir b = a_dir a.

Definition sameValue (arg arg1 : Arg) : Prop :=
  match arg, arg1 with
  | ConstArg _ val, ConstArg _ val1 => val1 = val
  | DataArg _ data size, DataArg _ data1 size1 => data1 = data ∧ size1 = size
  | _, _ => False
  end.

(** [arg1] is [arg] in other nodes, with [leaf] between the values. *)
Fixpoint copyTree (leaf : Arg → Arg → Prop) (m : gmap id id) (arg arg1 : Arg) {struct arg} : Prop :=
  match arg, arg1 with
  | ConstArg a _, ConstArg b _ | DataArg a _ _, DataArg b _ _ => copyCommon a b ∧ leaf arg arg1
  | PointerArg a address vmaSize None, PointerArg b address1 vmaSize1 None =>
      copyCommon a b ∧ address1 = address ∧ vmaSize1 = vmaSize
  | PointerArg a address vmaSize (Some x), PointerArg b address1 vmaSize1 (Some y) =>
      copyCommon a b ∧ address1 = address ∧ vmaSize1 = vmaSize ∧ copyTree leaf m x y
  | GroupArg a inner, GroupArg b inner1 =>
      copyCommon a b ∧
      (fix go (l l1 : list Arg) : Prop :=
         match l, l1 with
         | [], [] => True
         | x :: l, y :: l1 => copyTree leaf m x y ∧ go l l1
         | _, _ => False
         end) inner inner1
  | UnionArg a opt index, UnionArg b opt1 index1 => copyCommon a b ∧ copyTree leaf m opt opt1 ∧ index1 = index
  | ResultArg p, ResultArg p1 => m !! p = Some p1
  | _, _ => False
  end.

Notation copyArg := (copyTree sameValue).

Definition copyCallBy (leaf : Arg → Arg → Prop) (m : gmap id id) (c c1 : Call) : Prop :=
  c_Meta c1 = c_Meta c ∧ c_Props c1 = c_Props c ∧ Forall2 (copyTree leaf m) (c_Args c) (c_Args c1) ∧
  match c_Ret c, c_Ret c1 with
  | Some p, Some p1 => m !! p = Some p1
  | None, None => True
  | _, _ => False
  end.

Notation copyCall := (copyCallBy sameValue).

(** The addresses of the nodes of a tree. *)
Fixpoint nodesOf (arg : Arg) : list id :=
  argId arg ::
  match arg with
  | PointerArg _ _ _ (Some arg) => nodesOf arg
  | GroupArg _ inner => concat (nodesOf <$> inner)
  | UnionArg _ opt _ => nodesOf opt
  | _ => []
  end.

Definition callNodes (c : Call) : list id :=
  match c_Ret c with Some p => [p] | None => [] end ++ concat (nodesOf <$> c_Args c).

(** The state of a clone of results of [L], of the heap [h0]. *)
Record copying (h0 : Heap) (L : gset id) (m : gmap id id) (h : Heap) : Prop := {
  cp_heap : heapOK h;
  cp_next : (h_next h0 ≤ h_next h)%nat;
  cp_old p : (p < h_next h0)%nat → h_results h !! p = h_results h0 !! p;
  cp_inj p1 p2 p' : m !! p1 = Some p' → m !! p2 = Some p' → p1 = p2;
  cp_dom x : is_Some (h_results h !! x) → (x < h_next h0)%nat ∨ ∃ p, m !! p = Some x;
  cp_new p p' : m !! p = Some p' → p ∈ L ∧ (h_next h0 ≤ p' < h_next h)%nat ∧
    ∃ r, h_results h0 !! p = Some r ∧ h_results h !! p' = Some (copyOf m r) ∧
      ∀ q, r_Res r = Some q → is_Some (m !! q);
}.

Lemma copyArg_group leaf m a b inner inner1 :
  copyTree leaf m (GroupArg a inner) (GroupArg b inner1) ↔ copyCommon a b ∧ Forall2 (copyTree leaf m) inner inner1.
Proof.
  cbn [copyTree]. apply and_iff_compat_l. revert inner1. induction inner as [|x l IH]; intros [|y l1].
  - split; [constructor|done].
  - split; [done|]. intros H; inversion H.
  - split; [done|]. intros H; inversion H.
  - rewrite IH. split; [intros []; by constructor|]. intros H; by inversion H.
Qed.

Lemma copyArg_mono leaf m m' arg arg1 : m ⊆ m' → copyTree leaf m arg arg1 → copyTree leaf m' arg arg1.
Proof.
  intros Hm. revert arg1.
  induction arg as [| |a address vmaSize arg IH| |a inner IH|a opt index IH|p] using Arg_tree_ind;
    intros [b val1|b ad vm [y|]|b d1 s1|b inner1|b o1 i1|p1]; try done; try (cbn [copyTree]; naive_solver).
  - rewrite !copyArg_group. intros [Hc Hf]. split; [done|]. revert inner1 Hf.
    induction IH as [|x l Hx _ IHl]; intros inner1 Hf; inversion Hf; subst; constructor; auto.
  - cbn [copyTree]. intros H. by eapply lookup_weaken.
Qed.

Lemma C_bind_ret {A B} (x : C A) (k : A → C B) m h a m' h' : x m h = Ret ((a, m'), h') → (x ≫= k) m h = k a m' h'.
Proof. intros Hx. unfold mbind at 1, C_bind. by rewrite (H_bind_ret _ _ _ _ _ Hx). Qed.

Lemma copyOf_insert m p i r : m !! p = None → r_Res r ≠ Some p →
  copyOf (<[p := i]> m) r = withUses (λ uses, if bool_decide (p ∈ r_uses r) then {[ i ]} ∪ uses else uses) (copyOf m r).
Proof.
  intros Hp Hr. unfold copyOf, withUses. cbn [r_ref r_dir r_Res r_OpDiv r_OpAdd r_Val r_uses]. f_equal.
  - destruct (r_Res r) as [q|]; [|done]. cbn [mbind option_bind]. apply lookup_insert_ne. congruence.
  - apply set_eq. intros x. case_bool_decide as Hu; rewrite ?elem_of_union, ?elem_of_singleton, !elem_of_set_omap.
    + split.
      * intros (u & Hin & Hx). destruct (decide (u = p)) as [->|Hne].
        -- rewrite lookup_insert_eq in Hx. left. congruence.
        -- rewrite lookup_insert_ne in Hx by done. right. eauto.
      * intros [->|(u & Hin & Hx)]; [exists p; by rewrite lookup_insert_eq|]. exists u. split; [done|].
        rewrite lookup_insert_ne; [done|]. congruence.
    + split; intros (u & Hin & Hx); exists u; (split; [done|]).
      * rewrite lookup_insert_ne in Hx; [done|]. by intros ->.
      * rewrite lookup_insert_ne; [done|]. by intros ->.
Qed.

(** Nothing that has been cloned uses [p] before [p] is cloned. *)
Lemma copyOf_fresh h0 L m h p i r : linked h0 L → copying h0 L m h → p ∈ L → m !! p = None → h_results h0 !! p = Some r →
  (∀ q, r_Res r = Some q → is_Some (m !! q)) →
  copyOf (<[p := i]> m) r =
  mkResult (r_ref r) (r_dir r) (r_Res r ≫= λ q, m !! q) (r_OpDiv r) (r_OpAdd r) (r_Val r) ∅.
Proof.
  intros Hl Hc Hp Hm Hr Hq. assert (Hself : r_Res r ≠ Some p).
  { intros Hs. specialize (Hq p Hs) as [? ?]. congruence. }
  destruct (Hl p Hp) as (r' & Hr' & Hu & _). rewrite Hr in Hr'. injection Hr' as <-.
  rewrite copyOf_insert by done. unfold withUses, copyOf. cbn [r_ref r_dir r_Res r_OpDiv r_OpAdd r_Val r_uses]. f_equal.
  rewrite bool_decide_false.
  2:{ intros (_ & ru & Hru & Hres)%Hu. congruence. }
  apply set_eq. intros x. rewrite elem_of_set_omap. split; [|by intros ?%not_elem_of_empty].
  intros (u & (_ & ru & Hru & Hres)%Hu & Hx). destruct (cp_new _ _ _ _ Hc u x Hx) as (_ & _ & ru' & Hru' & _ & Hq').
  rewrite Hru in Hru'. injection Hru' as <-. destruct (Hq' p Hres) as [? ?]. congruence.
Qed.

(** The run of [cloneResult]: a new object, and one more use of the referent. *)
Lemma cloneResult_run m h p r (i := h_next h) (ref := r_Res r ≫= λ q, m !! q) : heapOK h → h_results h !! p = Some r →
  (∀ q, r_Res r = Some q → ∃ q', m !! q = Some q' ∧ (q' < i)%nat ∧ is_Some (h_results h !! q')) →
  ∃ h', cloneResult p (Some m) h = Ret ((i, Some (<[p := i]> m)), h') ∧ h_next h' = S i ∧
    h_results h' !! i = Some (mkResult (r_ref r) (r_dir r) ref (r_OpDiv r) (r_OpAdd r) (r_Val r) ∅) ∧
    ∀ x, x ≠ i → h_results h' !! x =
      (λ rx, if bool_decide (ref = Some x) then withUses (λ uses, {[ i ]} ∪ uses) rx else rx) <$> h_results h !! x.
Proof.
  intros Hok Hp Hq. subst ref. unfold cloneResult. rewrite (H_bind_ret _ _ _ _ _ (h_get_ret _ _ _ Hp)).
  unfold h_fresh at 1, mbind at 1, H_bind at 1. cbn [mbind res_bind fst snd]. fold i.
  destruct (r_Res r) as [q|].
  - destruct (Hq q eq_refl) as (q' & Hq' & Hlt & [rq Hrq]). 
    change (Some q ≫= λ q, m !! q) with (m !! q). rewrite Hq'.
    eexists. split.
    { unfold mbind at 1, H_bind at 1, h_lift, of_option. cbn [mbind res_bind fst snd].
      unfold mbind at 1, H_bind at 1, h_set at 1. cbn [mbind res_bind fst snd h_next h_results].
      unfold mbind at 1, H_bind at 1, mbind at 1, H_bind at 1, h_get. cbn [h_results].
      rewrite lookup_insert_ne by lia. rewrite Hrq. reflexivity. }
    cbn [h_next h_results]. split; [done|]. split.
    + rewrite lookup_insert_ne by lia. by rewrite lookup_insert_eq.
    + intros x Hx. destruct (decide (x = q')) as [->|Hne].
      * rewrite lookup_insert_eq, Hrq. cbn [fmap option_fmap option_map]. by rewrite bool_decide_true.
      * rewrite !lookup_insert_ne by done. destruct (h_results h !! x); [|done]. cbn [fmap option_fmap option_map].
        by rewrite bool_decide_false by congruence.
  - cbn [mbind option_bind]. eexists. split; [reflexivity|]. cbn [h_next h_results]. split; [done|].
    split; [by rewrite lookup_insert_eq|]. intros x Hx. rewrite lookup_insert_ne by done. by destruct (h_results h !! x).
Qed.

Lemma cloneResult_step h0 L m h p r : linked h0 L → heapOK h0 → copying h0 L m h → p ∈ L → m !! p = None →
  h_results h0 !! p = Some r → (∀ q, r_Res r = Some q → is_Some (m !! q)) →
  ∃ h', cloneResult p (Some m) h = Ret ((h_next h, Some (<[p := h_next h]> m)), h') ∧
    h_next h' = S (h_next h) ∧ copying h0 L (<[p := h_next h]> m) h'.
Proof.
  intros Hl Hok0 Hc Hp Hm Hr Hq. pose proof Hc as [Hok Hn Hold Hinj Hdom Hnew].
  assert (Hhp : h_results h !! p = Some r) by (rewrite Hold; [done|apply Hok0; by eexists]).
  pose proof (copyOf_fresh h0 L m h p (h_next h) r Hl Hc Hp Hm Hr Hq) as Hcp.
  destruct (cloneResult_run m h p r Hok Hhp) as (h' & Hrun & Hn' & Hi & Hx).
  { intros q Hres. destruct (Hq q Hres) as [q' Hq']. exists q'. destruct (Hnew q q' Hq') as (_ & Hlt & rq & _ & Hrq & _).
    split; [done|]. split; [lia|by eexists]. }
  rewrite <- Hcp in Hi. exists h'. split; [exact Hrun|]. split; [done|]. split; [|lia| | | |].
  - intros x Hsome. destruct (decide (x = h_next h)) as [->|Hne]; [lia|]. rewrite Hx, fmap_is_Some in Hsome by done.
    apply Hok in Hsome. lia.
  - intros x Hlt. rewrite Hx by lia. rewrite Hold by done. destruct (h_results h0 !! x) as [rx|]; [|done].
    cbn [fmap option_fmap option_map]. rewrite bool_decide_false; [done|].
    intros (q & _ & Hx')%bind_Some. apply Hnew in Hx' as (_ & ? & _). lia.
  - intros p1 p2 p' [[<- <-]|[Hne1 H1]]%lookup_insert_Some [[<- Hi2]|[Hne2 H2]]%lookup_insert_Some; [done| | |by eapply Hinj].
    + apply Hnew in H2 as (_ & ? & _). lia.
    + apply Hnew in H1 as (_ & ? & _). lia.
  - intros x Hsome. destruct (decide (x = h_next h)) as [->|Hne]; [right; exists p; by rewrite lookup_insert_eq|].
    rewrite Hx, fmap_is_Some in Hsome by done. destruct (Hdom x Hsome) as [Hlt|[q Hq']]; [by left|]. right. exists q.
    rewrite lookup_insert_ne; [done|]. intros ->. congruence.
  - intros x x' [[<- <-]|[Hne Hxx]]%lookup_insert_Some.
    { split; [done|]. split; [lia|]. exists r. split; [done|]. split; [done|]. intros q Hres.
      apply lookup_insert_is_Some'. right. by apply Hq. }
    destruct (Hnew x x' Hxx) as (HxL & Hlt & rx & Hrx & Hcx & Hqx). split; [done|]. split; [lia|]. exists rx. split; [done|].
    split; [|intros q Hres; apply lookup_insert_is_Some'; right; by apply Hqx].
    rewrite Hx, Hcx by lia. cbn [fmap option_fmap option_map]. f_equal. rewrite copyOf_insert; [|done|].
    2:{ intros Hres. destruct (Hqx p Hres) as [? ?]. congruence. }
    destruct (Hl x HxL) as (rx' & Hrx' & Hux & _). rewrite Hrx in Hrx'. injection Hrx' as <-.
    case_bool_decide as Hb.
    + apply bind_Some in Hb as (q & Hres & Hqx'). assert (q = x) as -> by (by eapply Hinj).
      rewrite bool_decide_true; [done|]. apply Hux. split; [done|]. by exists r.
    + rewrite bool_decide_false; [by destruct (copyOf m rx)|]. intros (_ & r1 & Hr1 & Hres)%Hux. apply Hb.
      apply bind_Some. exists x. split; [congruence|done].
Qed.

(** ** Clones of trees and programs *)

(** Nodes made between two heaps. *)
Definition newNodes (h h' : Heap) (ns : list id) : Prop :=
  (h_next h ≤ h_next h')%nat ∧ Forall (λ i, h_next h ≤ i < h_next h')%nat ns ∧ NoDup ns.

Lemma newNodes_app h h1 h2 ns1 ns2 : newNodes h h1 ns1 → newNodes h1 h2 ns2 → newNodes h h2 (ns1 ++ ns2).
Proof.
  intros (H1 & Hf1 & Hn1) (H2 & Hf2 & Hn2). split; [lia|]. split.
  - apply Forall_app. split; eapply Forall_impl; [exact Hf1| |exact Hf2|]; simpl; lia.
  - apply NoDup_app. split; [done|]. split; [|done]. rewrite Forall_forall in Hf1, Hf2.
    intros x Hx1%Hf1 Hx2%Hf2. lia.
Qed.

Lemma backwards_app h D ps1 ps2 :
  backwards h D (ps1 ++ ps2) ↔ backwards h D ps1 ∧ backwards h (list_to_set ps1 ∪ D) ps2.
Proof.
  revert D. induction ps1 as [|p ps1 IH]; intros D; cbn [backwards app list_to_set].
  - replace (∅ ∪ D) with D by set_solver. tauto.
  - rewrite IH. replace (list_to_set ps1 ∪ ({[ p ]} ∪ D)) with ({[ p ]} ∪ list_to_set ps1 ∪ D) by set_solver. tauto.
Qed.

Section Clone.

Context (h0 : Heap) (L : gset id) (Hl : linked h0 L) (Hok0 : heapOK h0).

(** A computation that clones the results [ps], makes the nodes [ns] and returns
    a value with [P]. *)
Definition clones {A} (ps : list id) (x : C A) (P : gmap id id → A → list id → Prop) : Prop :=
  ∀ m h, copying h0 L m h → backwards h0 (dom m) ps → list_to_set ps ⊆ L →
  ∃ a m' h' ns, x (Some m) h = Ret ((a, Some m'), h') ∧ copying h0 L m' h' ∧ dom m' = list_to_set ps ∪ dom m ∧
    m ⊆ m' ∧ newNodes h h' ns ∧ P m' a ns.

Lemma clones_ret {A} (a : A) (P : gmap id id → A → list id → Prop) : (∀ m, P m a []) → clones [] (mret a) P.
Proof.
  intros HP m h Hc _ _. exists a, m, h, []. split; [done|]. split; [done|]. split; [cbn; set_solver|]. split; [done|].
  split; [|apply HP]. split; [lia|]. split; constructor.
Qed.

Lemma clones_bind {A B} ps1 ps2 (x : C A) (k : A → C B) P (Q : gmap id id → B → list id → Prop) :
  clones ps1 x P → (∀ m m' a ns, m ⊆ m' → P m a ns → P m' a ns) →
  (∀ a ns, clones ps2 (k a) (λ m b ns', P m a ns → Q m b (ns ++ ns'))) → clones (ps1 ++ ps2) (x ≫= k) Q.
Proof.
  intros Hx Hmono Hk m h Hc [Hb1 Hb2]%backwards_app Hin. rewrite list_to_set_app_L in Hin.
  destruct (Hx m h Hc Hb1) as (a & m1 & h1 & ns1 & H1 & Hc1 & Hd1 & Hm1 & Hn1 & HP); [set_solver|].
  rewrite <- Hd1 in Hb2. destruct (Hk a ns1 m1 h1 Hc1 Hb2) as (b & m2 & h2 & ns2 & H2 & Hc2 & Hd2 & Hm2 & Hn2 & HQ); [set_solver|].
  exists b, m2, h2, (ns1 ++ ns2). split; [by rewrite (C_bind_ret _ _ _ _ _ _ _ H1)|]. split; [done|].
  split; [rewrite Hd2, Hd1, list_to_set_app_L; set_solver|]. split; [by etrans|]. split; [by eapply newNodes_app|].
  apply HQ. by eapply Hmono.
Qed.

Lemma clones_impl {A} ps (x : C A) (P Q : gmap id id → A → list id → Prop) :
  clones ps x P → (∀ m a ns, P m a ns → Q m a ns) → clones ps x Q.
Proof.
  intros Hx HPQ m h Hc Hb Hin. destruct (Hx m h Hc Hb Hin) as (a & m1 & h1 & ns1 & H1 & Hc1 & Hd1 & Hm1 & Hn1 & HP).
  exists a, m1, h1, ns1. split_and?; try done. by apply HPQ.
Qed.

Lemma clones_common a : clones [] (cloneCommon a) (λ _ b ns, copyCommon a b ∧ ns = [a_id b]).
Proof.
  intros m h Hc _ _. exists (mkAC (h_next h) (a_ref a) (a_dir a)), m, (mkHeap (S (h_next h)) (h_results h)), [h_next h].
  split; [done|]. destruct Hc as [Hok Hn Hold Hinj Hdom Hnew]. split; [|split; [cbn; set_solver|split; [done|split]]].
  - split; cbn [h_next h_results]; [|lia|done|done|done|].
    + intros p Hp%Hok. cbn. lia.
    + intros p p' Hp. destruct (Hnew p p' Hp) as (? & ? & ?). split; [done|]. split; [lia|done].
  - split; [cbn; lia|]. split; [apply Forall_singleton; cbn; lia|apply NoDup_singleton].
  - done.
Qed.

Lemma clones_result p : clones [p] (cloneResult p) (λ m p1 ns, m !! p = Some p1 ∧ ns = [p1]).
Proof using Hl Hok0.
  intros m h Hc (Hp & (r & Hr & Hq) & _) Hin. destruct (cloneResult_step h0 L m h p r) as (h' & H1 & Hn & Hc'); try done.
  - set_solver.
  - by apply not_elem_of_dom.
  - intros q Hres. by apply elem_of_dom, Hq.
  - eexists _, _, h', [h_next h]. split; [exact H1|]. split; [done|]. split; [rewrite dom_insert_L; cbn; set_solver|].
    split; [apply insert_subseteq; by apply not_elem_of_dom|]. split; [|by rewrite lookup_insert_eq].
    split; [lia|]. split; [apply Forall_singleton; lia|apply NoDup_singleton].
Qed.

Definition argCopied (arg : Arg) (m : gmap id id) (arg1 : Arg) (ns : list id) : Prop :=
  copyArg m arg arg1 ∧ ns = nodesOf arg1.

Lemma argCopied_mono arg m m' arg1 ns : m ⊆ m' → argCopied arg m arg1 ns → argCopied arg m' arg1 ns.
Proof. intros Hm [Hc Hn]. split; [by eapply copyArg_mono|done]. Qed.

Lemma clones_list {A B} (f : A → C B) order (P : A → gmap id id → B → list id → Prop) l :
  Forall (λ x, clones (order x) (f x) (P x)) l →
  (∀ x m m' a ns, m ⊆ m' → P x m a ns → P x m' a ns) →
  clones (concat (order <$> l)) (mapC f l) (λ m ys ns, ∃ nss, Forall3 (λ x y ns, P x m y ns) l ys nss ∧ ns = concat nss).
Proof using Hl Hok0.
  intros Hf Hmono. induction Hf as [|x l Hx _ IH].
  { apply clones_ret. intros m. exists []. split; [constructor|done]. }
  cbn [mapC fmap list_fmap concat]. fold (mapC f). eapply clones_bind; [exact Hx|apply Hmono|]. intros y ns1.
  rewrite <- (app_nil_r (concat (order <$> l))).
  eapply clones_bind; [exact IH| |].
  - intros m m' ys ns Hm (nss & Hall & ->). exists nss. split; [|done]. eapply Forall3_impl; [exact Hall|].
    intros ???. by apply Hmono.
  - intros ys ns2. apply clones_ret. intros m (nss & Hall & ->) Hy. exists (ns1 :: nss). split; [by constructor|].
    cbn [concat]. by rewrite app_nil_r.
Qed.

Lemma clones_arg arg : clones (resultsOf arg) (clone arg) (argCopied arg).
Proof using Hl Hok0.
  induction arg as [a v|a ad vm|a ad vm arg IH|a d s|a inner IH|a opt index IH|p] using Arg_tree_ind;
    cbn [resultsOf clone].
  - eapply (clones_bind [] []); [apply clones_common|done|]. intros b ns. apply clones_ret. by intros m [Hc ->].
  - eapply (clones_bind [] []); [apply clones_common|done|]. intros b ns. apply clones_ret. by intros m [Hc ->].
  - rewrite <- (app_nil_l (resultsOf arg)), <- (app_nil_r (resultsOf arg)).
    eapply clones_bind; [apply clones_common|done|]. intros b ns. eapply clones_bind; [exact IH|apply argCopied_mono|].
    intros arg1 ns1. apply clones_ret. intros m [Hc1 ->] [Hc ->]. split; [done|]. by rewrite app_nil_r.
  - eapply (clones_bind [] []); [apply clones_common|done|]. intros b ns. apply clones_ret. by intros m [Hc ->].
  - rewrite <- (app_nil_l (concat _)), <- (app_nil_r (concat _)).
    eapply clones_bind; [apply clones_common|done|]. intros b ns.
    eapply clones_bind; [apply clones_list; [exact IH|apply argCopied_mono]| |].
    + intros m m' ys ns1 Hm (nss & Hall & ->). exists nss. split; [|done]. eapply Forall3_impl; [exact Hall|].
      intros ???. by apply argCopied_mono.
    + intros inner1 ns1. apply clones_ret. intros m (nss & Hall & ->) [Hc ->]. split.
      * apply copyArg_group. split; [done|]. clear -Hall. induction Hall as [|x y z xs ys zs [Hxy _] _ IHa]; by constructor.
      * rewrite app_nil_r. cbn [nodesOf argId app]. f_equal. f_equal. clear -Hall.
        induction Hall as [|x y z xs ys zs [_ ->] _ IHa]; [done|]. cbn [fmap list_fmap]. by rewrite <- IHa.
  - rewrite <- (app_nil_l (resultsOf opt)), <- (app_nil_r (resultsOf opt)).
    eapply clones_bind; [apply clones_common|done|]. intros b ns. eapply clones_bind; [exact IH|apply argCopied_mono|].
    intros arg1 ns1. apply clones_ret. intros m [Hc1 ->] [Hc ->]. split; [done|]. by rewrite app_nil_r.
  - rewrite <- (app_nil_r [p]). eapply clones_bind; [apply clones_result| |].
    + intros m m' p1 ns Hm [Hp ->]. split; [by eapply lookup_weaken|done].
    + intros p1 ns. apply clones_ret. by intros m [Hp ->].
Qed.

Definition callCopied (c : Call) (m : gmap id id) (c1 : Call) (ns : list id) : Prop :=
  copyCall m c c1 ∧ ns = callNodes c1.

Lemma copied_list l m l1 nss : Forall3 (λ x y ns, argCopied x m y ns) l l1 nss →
  Forall2 (copyArg m) l l1 ∧ concat nss = concat (nodesOf <$> l1).
Proof using Type.
  induction 1 as [|x y z xs ys zs [Hxy ->] _ [IH1 IH2]]; [by split; constructor|]. split; [by constructor|].
  cbn [fmap list_fmap concat]. by rewrite IH2.
Qed.

Lemma callCopied_mono c m m' c1 ns : m ⊆ m' → callCopied c m c1 ns → callCopied c m' c1 ns.
Proof using Type.
  intros Hm [(Hmeta & Hprops & Hargs & Hret) ->]. split; [|done]. split; [done|]. split; [done|]. split.
  - eapply Forall2_impl; [exact Hargs|]. intros x y. by apply copyArg_mono.
  - destruct (c_Ret c), (c_Ret c1); try done. by eapply lookup_weaken.
Qed.

Lemma clones_call c : clones (cloneOrder c) (cloneCall c) (callCopied c).
Proof using Hl Hok0.
  unfold cloneOrder, cloneCall.
  eapply (clones_bind _ _ _ _ (λ m ret ns, match c_Ret c, ret with
    | Some p, Some p1 => m !! p = Some p1 ∧ ns = [p1] | None, None => ns = [] | _, _ => False end)).
  - destruct (c_Ret c) as [p|]; [|by apply clones_ret]. rewrite <- (app_nil_r [p]).
    eapply clones_bind; [apply clones_result| |].
    + intros m m' p1 ns Hm [Hp ->]. split; [by eapply lookup_weaken|done].
    + intros p1 ns. apply clones_ret. by intros m [Hp ->].
  - intros m m' [p1|] ns Hm; destruct (c_Ret c); try done. intros [Hp ->]. split; [by eapply lookup_weaken|done].
  - intros ret ns. rewrite <- (app_nil_r (concat _)).
    eapply clones_bind; [apply clones_list; [apply Forall_true, clones_arg|apply argCopied_mono]| |].
    + intros m m' ys ns1 Hm (nss & Hall & ->). exists nss. split; [|done]. eapply Forall3_impl; [exact Hall|].
      intros ???. by apply argCopied_mono.
    + intros args ns1. apply clones_ret. intros m (nss & Hall & ->) Hret. destruct (copied_list _ _ _ _ Hall) as [Hargs Hns].
      rewrite app_nil_r, Hns. unfold callCopied, copyCallBy, callNodes. cbn [c_Meta c_Args c_Ret c_Props].
      destruct (c_Ret c), ret; try done; [destruct Hret as [Hp ->]|subst ns]; by split_and!.
Qed.

End Clone.

Lemma copying_start h L : heapOK h → copying h L ∅ h.
Proof. intros Hok. split; [done|done|done|by intros ???|intros x Hx; left; by apply Hok|by intros ??]. Qed.

(** The links of a complete clone. *)
Lemma linked_copy h L m h' : linked h L → copying h L m h' → dom m = L → linked h' (map_img m).
Proof.
  intros Hl [_ _ _ Hinj _ Hnew] Hd p' (p & Hp)%elem_of_map_img.
  destruct (Hnew p p' Hp) as (HpL & _ & r & Hr & Hr' & Hq). destruct (Hl p HpL) as (r0 & Hr0 & Hu & _).
  rewrite Hr in Hr0. injection Hr0 as <-. exists (copyOf m r). split; [done|]. split.
  - intros u'. cbn [copyOf r_uses]. rewrite elem_of_set_omap. split.
    + intros (u & (HuL & ru & Hru & Hres)%Hu & Huu). split; [by apply elem_of_map_img; exists u|].
      destruct (Hnew u u' Huu) as (_ & _ & ru' & Hru' & Hcu & _). rewrite Hru in Hru'. injection Hru' as <-.
      exists (copyOf m ru). split; [done|]. cbn [copyOf r_Res]. rewrite Hres. exact Hp.
    + intros ((u & Huu)%elem_of_map_img & ru' & Hru' & Hres). exists u. split; [|done]. apply Hu.
      destruct (Hnew u u' Huu) as (HuL & _ & ru & Hru & Hcu & _). split; [done|]. exists ru. split; [done|].
      rewrite Hcu in Hru'. injection Hru' as <-. cbn [copyOf r_Res] in Hres. apply bind_Some in Hres as (q & Hres & Hqp).
      assert (q = p) as -> by (by eapply Hinj). done.
  - intros q' (q & _ & Hq')%bind_Some. apply elem_of_map_img. by exists q.
Qed.

(** A clone of a program with consistent links that go backwards. *)
Lemma Clone_copies h calls (L := list_to_set (concat (cloneOrder <$> calls)) : gset id) :
  heapOK h → linked h L → backwards h ∅ (concat (cloneOrder <$> calls)) →
  ∃ m h' calls1, Clone calls h = Ret (calls1, h') ∧ copying h L m h' ∧ dom m = L ∧ linked h' (map_img m) ∧
    Forall2 (copyCall m) calls calls1 ∧ newNodes h h' (concat (callNodes <$> calls1)).
Proof.
  intros Hok Hl Hb.
  destruct (clones_list h L Hl Hok cloneCall cloneOrder callCopied calls (Forall_true _ _ (clones_call h L Hl Hok)) callCopied_mono
    ∅ h (copying_start h L Hok)) as (calls1 & m & h' & ns & Hrun & Hc & Hd & _ & Hns & nss & Hall & ->); [done|done|].
  rewrite dom_empty_L, union_empty_r_L in Hd. exists m, h', calls1. split.
  { unfold Clone, cloneCalls. by rewrite (H_bind_ret _ _ _ _ _ Hrun). }
  split; [done|]. split; [done|]. split; [by eapply linked_copy|].
  assert (Forall2 (copyCall m) calls calls1 ∧ nss = callNodes <$> calls1) as [? ->]; [|done].
  clear -Hall. induction Hall as [|x y z xs ys zs [Hxy ->] _ [IH1 ->]]; [by split; constructor|]. split; [by constructor|done].
Qed.
