(* ===== verification/ProgTrace.v ===== *)
(** * What validation establishes of the links

    A program that passes validation visits every node once, and its results are
    linked consistently: each is in the uses of what it refers to and of nothing
    else, and refers to a result that was validated before it. *)

From stdpp Require Import base numbers strings gmap list.
From S2P Require Import Prelude Word ProgTypes ProgArgs ProgTree ProgValidate ProgDefault ExecSafe ProgLinks ProgClone.

Local Open Scope Z_scope.

Lemma of_option_inv {A} (o : option A) a : of_option o = Ret a → o = Some a.
Proof. by destruct o; [intros [= ->]|]. Qed.

(** ** Nodes *)

Definition childrenOf (arg : Arg) : list Arg :=
  match arg with
  | PointerArg _ _ _ (Some arg) => [arg]
  | GroupArg _ inner => inner
  | UnionArg _ opt _ => [opt]
  | _ => []
  end.

Definition notResult (arg : Arg) : Prop := match arg with ResultArg _ => False | _ => True end.

Lemma nodesOf_children arg : nodesOf arg = argId arg :: concat (nodesOf <$> childrenOf arg).
Proof. destruct arg as [| ? ? ? [?|] | | | |]; try done; cbn; by rewrite app_nil_r. Qed.

Lemma resultsOf_children arg : notResult arg → resultsOf arg = concat (resultsOf <$> childrenOf arg).
Proof. destruct arg as [| ? ? ? [?|] | | | |]; try done; intros _; cbn; by rewrite app_nil_r. Qed.

(** Induction over trees, by children. *)
Lemma tree_ind (P : Arg → Prop) :
  (∀ p, P (ResultArg p)) → (∀ arg, notResult arg → Forall P (childrenOf arg) → P arg) → ∀ arg, P arg.
Proof.
  intros Hr Hc. induction arg using Arg_tree_ind; try done; (apply Hc; [done|]); cbn [childrenOf];
    first [done | by constructor | by apply Forall_singleton].
Qed.

Lemma wfArg_children h arg : notResult arg → wfArg h arg → h_results h !! argId arg = None ∧ Forall (wfArg h) (childrenOf arg).
Proof.
  destruct arg as [| ? ? ? [?|] | |a inner| |]; try done; intros _ Hw; try (by destruct Hw); try (destruct Hw; by split; [|apply Forall_singleton]).
  split; [by destruct Hw|by eapply wfArg_group].
Qed.

(** The nodes that are result objects are the results. *)
Lemma nodes_results h arg q : wfArg h arg → q ∈ nodesOf arg → is_Some (h_results h !! q) → q ∈ resultsOf arg.
Proof.
  induction arg as [p|arg Hn IH] using tree_ind; [done|]. intros [Hid Hw]%wfArg_children Hq Hs; [|done].
  rewrite nodesOf_children in Hq. apply elem_of_cons in Hq as [->|Hq]; [rewrite Hid in Hs; by destruct Hs|].
  rewrite resultsOf_children by done. induction IH as [|x l Hx _ IHl]; [done|]. apply Forall_cons in Hw as [Hwx Hw].
  cbn [fmap list_fmap concat] in *. apply elem_of_app in Hq as [Hq|Hq]; apply elem_of_app; [left; by apply Hx|right; by apply IHl].
Qed.

Lemma resultsOf_sublist arg : resultsOf arg `sublist_of` nodesOf arg.
Proof.
  induction arg as [p|arg Hn IH] using tree_ind; [done|]. rewrite nodesOf_children, resultsOf_children by done.
  apply sublist_cons. induction IH as [|x l Hx _ IHl]; [done|]. cbn [fmap list_fmap concat]. by apply sublist_app.
Qed.

(** ** Links in the order of validation *)

Section Trace.

Context (target : Target) (h : Heap).

Local Notation tbl := (typeRefs target).

(** What is known of the result [p] when the nodes of [T] have been met. *)
Definition resultOK (T : gset id) (p : id) : Prop :=
  ∃ r c f d, h_results h !! p = Some r ∧ typeOf tbl (r_ref r) = Ret (ResourceType c f d) ∧
    (∀ q, r_Res r = Some q → q ∈ T ∧ ∃ obj, h_results h !! q = Some obj ∧ p ∈ r_uses obj) ∧
    (∀ u, u ∈ r_uses r → ∃ ru, h_results h !! u = Some ru ∧ r_Res ru = Some p).

Fixpoint linksOK (T : gset id) (ps : list id) : Prop :=
  match ps with
  | [] => True
  | p :: ps => resultOK ({[ p ]} ∪ T) p ∧ linksOK ({[ p ]} ∪ T) ps
  end.

Lemma resultOK_mono T T' p : (∀ q, is_Some (h_results h !! q) → q ∈ T → q ∈ T') → resultOK T p → resultOK T' p.
Proof.
  intros HT (r & c & f & d & Hr & Ht & Hq & Hu). exists r, c, f, d. split; [done|]. split; [done|]. split; [|done].
  intros q Hres. destruct (Hq q Hres) as (HqT & obj & Hobj & Hp). split; [|by exists obj]. apply HT; [by eexists|done].
Qed.

Lemma linksOK_mono T T' ps : (∀ q, is_Some (h_results h !! q) → q ∈ T → q ∈ T') → linksOK T ps → linksOK T' ps.
Proof.
  revert T T'. induction ps as [|p ps IH]; intros T T' HT; [done|]. intros [Hp Hps]. split.
  - eapply resultOK_mono; [|exact Hp]. set_solver.
  - eapply IH; [|exact Hps]. set_solver.
Qed.

Lemma linksOK_app T ps1 ps2 : linksOK T (ps1 ++ ps2) ↔ linksOK T ps1 ∧ linksOK (list_to_set ps1 ∪ T) ps2.
Proof.
  revert T. induction ps1 as [|p ps1 IH]; intros T; cbn [linksOK app list_to_set].
  - replace (∅ ∪ T) with T by set_solver. tauto.
  - rewrite IH. replace (list_to_set ps1 ∪ ({[ p ]} ∪ T)) with ({[ p ]} ∪ list_to_set ps1 ∪ T) by set_solver. tauto.
Qed.

(** What validation that leads from [ctx] to [ctx'] has met. *)
Record trace (nodes results : list id) (ctx ctx' : validCtx) : Prop := {
  tr_nodup : NoDup nodes;
  tr_fresh n : n ∈ nodes → n ∉ vc_args ctx;
  tr_args : vc_args ctx' = list_to_set nodes ∪ vc_args ctx;
  tr_links : linksOK (vc_args ctx) results;
  tr_uses : dom (vc_uses ctx) ⊆ dom (vc_uses ctx');
  tr_used p r : p ∈ results → h_results h !! p = Some r → r_uses r ⊆ dom (vc_uses ctx');
  tr_results q : q ∈ nodes → is_Some (h_results h !! q) → q ∈ results;
}.

Lemma trace_nil ctx : trace [] [] ctx ctx.
Proof. split; try done; [constructor|by intros ? ?%elem_of_nil|cbn; set_solver|by intros ?? ?%elem_of_nil]. Qed.

Lemma trace_app ns1 ns2 rs1 rs2 c c1 c2 : trace ns1 rs1 c c1 → trace ns2 rs2 c1 c2 → trace (ns1 ++ ns2) (rs1 ++ rs2) c c2.
Proof.
  intros [Hn1 Hf1 Ha1 Hl1 Hu1 Hd1 Hr1] [Hn2 Hf2 Ha2 Hl2 Hu2 Hd2 Hr2]. rewrite Ha1 in Hf2, Hl2. split.
  - apply NoDup_app. split; [done|]. split; [|done]. intros n H1 H2%Hf2. set_solver.
  - intros n [H1|H2]%elem_of_app; [by apply Hf1|]. apply Hf2 in H2. set_solver.
  - rewrite Ha2, Ha1, list_to_set_app_L. set_solver.
  - apply linksOK_app. split; [done|]. eapply linksOK_mono; [|exact Hl2]. intros q Hq. rewrite !elem_of_union, !elem_of_list_to_set.
    intros [Hin|Hin]; [left; by apply Hr1|by right].
  - set_solver.
  - intros p r [Hp|Hp]%elem_of_app Hr; [|by apply (Hd2 p)]. etrans; [by apply (Hd1 p)|done].
  - intros q [Hq|Hq]%elem_of_app Hs; apply elem_of_app; [left; by apply Hr1|right; by apply Hr2].
Qed.

(** A node that is not a result. *)
Lemma trace_node n c : n ∉ vc_args c → h_results h !! n = None →
  trace [n] [] c (mkCtx ({[ n ]} ∪ vc_args c) (vc_uses c)).
Proof.
  intros Hn Hh. split; cbn [vc_args vc_uses list_to_set]; try done; [apply NoDup_singleton|set_solver|set_solver|set_solver|].
  intros q ->%list_elem_of_singleton [? ?]. congruence.
Qed.

Lemma validateUses_inv p us ctx ctx' : v_all (validateUse h p) us ctx = Ret (inr ctx') →
  vc_args ctx' = vc_args ctx ∧ dom (vc_uses ctx') = list_to_set us ∪ dom (vc_uses ctx) ∧
  ∀ u, u ∈ us → ∃ ru, h_results h !! u = Some ru ∧ r_Res ru = Some p.
Proof.
  revert ctx. induction us as [|u us IH]; intros ctx.
  { intros ->%v_ok_inv. split; [done|]. split; [cbn; set_solver|by intros ? ?%elem_of_nil]. }
  intros (c1 & H1 & H2)%v_seq_inv. destruct (IH _ H2) as (Ha & Hd & Hu). unfold validateUse in H1.
  apply bind_ret_inv in H1 as (obj & Hobj & H1). case_bool_decide as Hres; [done|]. injection H1 as <-.
  cbn [vc_args vc_uses] in Ha, Hd. split; [done|]. split; [rewrite Hd, dom_insert_L; cbn; set_solver|].
  intros u' [->|Hu']%elem_of_cons; [|by apply Hu]. exists obj. apply of_option_inv in Hobj. done.
Qed.

(** The uses that the validation of a result records. *)
Lemma validateResult_uses t p r ctx ctx' : validateResult tbl h t p r ctx = Ret (inr ctx') →
  dom (vc_uses ctx') = r_uses r ∪ dom (vc_uses ctx) ∧
  ∀ u, u ∈ r_uses r → ∃ ru, h_results h !! u = Some ru ∧ r_Res ru = Some p.
Proof.
  destruct t; try done. cbn [validateResult]. intros (c1 & (_ & Hd & Hu)%validateUses_inv & H2)%v_seq_inv.
  apply v_seq_inv in H2 as (c2 & H2 & H3). apply v_seq_inv in H3 as (c3 & H3 & H4).
  apply v_seq_inv in H4 as (c4 & [_ ->]%v_check_inv & H5).
  assert (c2 = c1) as -> by (v_unchanged H2). assert (ctx' = c3) as -> by (v_unchanged H5).
  assert (c3 = c1) as ->.
  { clear H2 H5. destruct (r_Res r) as [q|]; [|by apply v_ok_inv in H3]. case_bool_decide as Hc; [done|].
    apply bind_ret_inv in H3 as (obj & Ho & H3). by apply v_check_inv in H3 as [_ ->]. }
  rewrite list_to_set_elements_L in Hd. split; [done|]. intros u Hin. apply Hu. by apply elem_of_elements.
Qed.

Lemma trace_result p ctx ctx' t r : h_results h !! p = Some r → argType tbl h (ResultArg p) = Ret t → p ∉ vc_args ctx →
  validateResult tbl h t p r (mkCtx ({[ p ]} ∪ vc_args ctx) (vc_uses ctx)) = Ret (inr ctx') →
  trace [p] [p] ctx ctx'.
Proof.
  intros Hr Ht Hn Hv. destruct (validateResult_uses _ _ _ _ _ Hv) as [Hd Hu].
  apply (validateResult_inv target h) in Hv as ((c & f & d & ->) & Ha & Hq & _). cbn [vc_args vc_uses] in *.
  unfold argType in Ht. cbn [argRef] in Ht. rewrite Hr in Ht. cbn [of_option mbind res_bind] in Ht. split; cbn [list_to_set linksOK].
  - apply NoDup_singleton.
  - set_solver.
  - rewrite Ha. set_solver.
  - split; [|done]. by exists r, c, f, d.
  - rewrite Hd. set_solver.
  - intros p' r' ->%list_elem_of_singleton Hr'. assert (r' = r) as -> by congruence. rewrite Hd. set_solver.
  - done.
Qed.

Context (Htable : tableFits target) (Hheap : wfHeap h).

(** The validation of a node is that of its children. *)
Lemma validateMethod_children arg t dir ctx ctx' : notResult arg → validateMethod target h arg t dir ctx = Ret (inr ctx') →
  ∃ tds, length (childrenOf arg) = length tds ∧ validateList target h (childrenOf arg) tds ctx = Ret (inr ctx').
Proof using Htable Hheap.
  destruct arg as [a v|a ad vm x|a d s|a inner|a o i|]; try done; intros _ Hm; cbn [validateMethod] in Hm.
  - apply (validateConst_inv target h) in Hm as [_ ->]. by exists [].
  - apply v_seq_inv in Hm as (c1 & H1 & H2). apply (validateAddress_inv target h Htable Hheap) in H2 as (-> & _).
    destruct t; try done.
    + destruct x; [done|]. apply v_check_inv in H1 as [_ ->]. by exists [].
    + apply v_seq_inv in H1 as (c2 & H1 & H2). apply v_seq_inv in H2 as (c3 & [_ ->]%v_check_inv & [_ ->]%v_check_inv).
      destruct x; [|apply v_ok_inv in H1 as ->; by exists []]. exists [(Elem, ElemDir)]. split; [done|].
      cbn [childrenOf validateList fst snd]. unfold v_seq. rewrite H1. done.
  - apply (validateData_inv) in Hm as [_ ->]. by exists [].
  - destruct t; try done; case_bool_decide as Hb; try done.
    + rewrite validate_elems in Hm. eexists. split; [|exact Hm]. by rewrite length_replicate.
    + rewrite validate_fields in Hm. eexists. split; [|exact Hm]. unfold fieldTds. rewrite length_fmap. cbn [childrenOf].
      lia.
  - destruct t; try done. case_bool_decide; [done|]. destruct (_ !! _) as [f|]; [|done]. exists [(f_Type f, fieldDir f dir)].
    split; [done|]. cbn [childrenOf validateList fst snd]. unfold v_seq. rewrite Hm. done.
Qed.

Definition traced (arg : Arg) : Prop := ∀ typ dir ctx ctx', wfArg h arg → validateArg target h arg typ dir ctx = Ret (inr ctx') →
  trace (nodesOf arg) (resultsOf arg) ctx ctx'.

Lemma traced_list l : Forall traced l → Forall (wfArg h) l → ∀ tds ctx ctx', length l = length tds →
  validateList target h l tds ctx = Ret (inr ctx') →
  trace (concat (nodesOf <$> l)) (concat (resultsOf <$> l)) ctx ctx'.
Proof using Type.
  induction 1 as [|x l Hx _ IH]; intros Hw [|td tds] ctx ctx' Hlen Hv; try done.
  { apply v_ok_inv in Hv as ->. apply trace_nil. }
  apply Forall_cons in Hw as [Hwx Hw]. apply v_seq_inv in Hv as (c1 & H1 & H2). cbn [fmap list_fmap concat].
  eapply trace_app; [by eapply Hx|]. eapply IH; [done| |done]. cbn in Hlen. lia.
Qed.

Lemma all_traced arg : traced arg.
Proof using Htable Hheap.
  induction arg as [p|arg Hn IH] using tree_ind; intros typ dir ctx ctx' Hw Hv;
    apply validateArg_inv in Hv as (dir' & t & d & _ & Ht & Hnin & _ & _ & _ & Hm).
  - cbn [validateMethod argId] in *. apply bind_ret_inv in Hm as (r & Hr & Hm).
    apply of_option_inv in Hr. by eapply trace_result.
  - apply wfArg_children in Hw as [Hid Hw]; [|done]. apply validateMethod_children in Hm as (tds & Hlen & Hl); [|done].
    rewrite nodesOf_children, resultsOf_children by done.
    change (argId arg :: concat (nodesOf <$> childrenOf arg)) with ([argId arg] ++ concat (nodesOf <$> childrenOf arg)).
    rewrite <- (app_nil_l (concat (resultsOf <$> childrenOf arg))).
    eapply trace_app; [by apply trace_node|]. by eapply traced_list.
Qed.

(** ** Calls and programs *)

Definition retList (c : Call) : list id := match c_Ret c with Some p => [p] | None => [] end.

Definition validNodes (c : Call) : list id := concat (nodesOf <$> c_Args c) ++ retList c.

Lemma traced_args args fields ctx ctx' : Forall (wfArg h) args → validateArgs target h args fields ctx = Ret (inr ctx') →
  length args = length fields → trace (concat (nodesOf <$> args)) (concat (resultsOf <$> args)) ctx ctx'.
Proof using Htable Hheap.
  intros Hw. revert fields ctx. induction Hw as [|arg args Hwa _ IH]; intros [|f fields] ctx Hv Hlen; try done.
  { apply v_ok_inv in Hv as ->. apply trace_nil. }
  apply v_seq_inv in Hv as (c1 & H1 & H2). cbn [fmap list_fmap concat]. eapply trace_app; [by eapply all_traced|].
  eapply IH; [done|]. cbn in Hlen. lia.
Qed.

Lemma traced_ret c ctx ctx' : validateRet target h c ctx = Ret (inr ctx') →
  trace (retList c) (retList c) ctx ctx' ∧ ∀ p r, c_Ret c = Some p → h_results h !! p = Some r → r_Res r = None.
Proof using Htable Hheap.
  unfold validateRet, retList. intros Hv. destruct (sc_Ret (c_Meta c)) as [t|], (c_Ret c) as [p|]; try done.
  2:{ apply v_ok_inv in Hv as ->. split; [apply trace_nil|done]. }
  apply bind_ret_inv in Hv as (r & Hr & Hv). apply v_seq_inv in Hv as (c1 & [Hb ->]%v_check_inv & Hv). split.
  - by apply (all_traced (ResultArg p)) in Hv.
  - intros p' r' [= <-] Hr'. rewrite Hr' in Hr. injection Hr as <-. apply bool_decide_eq_false in Hb.
    destruct (r_Res r'); [|done]. exfalso. apply Hb. by left.
Qed.

Lemma traced_call c ctx ctx' : wfCall target h c → validateCall target h c ctx = Ret (inr ctx') →
  trace (validNodes c) (callResults c) ctx ctx' ∧ ∀ p r, c_Ret c = Some p → h_results h !! p = Some r → r_Res r = None.
Proof using Htable Hheap.
  intros Hw (Hlen & c1 & H1 & H2)%validateCall_inv. destruct (traced_ret _ _ _ H2) as [Ht Hret]. split; [|done].
  eapply trace_app; [|exact Ht]. eapply traced_args; [by destruct Hw|done|done].
Qed.

Lemma traced_calls calls ctx ctx' : Forall (wfCall target h) calls → v_all (validateCall target h) calls ctx = Ret (inr ctx') →
  trace (concat (validNodes <$> calls)) (progResults calls) ctx ctx'.
Proof using Htable Hheap.
  intros Hw. revert ctx. induction Hw as [|c calls Hc _ IH]; intros ctx.
  { intros ->%v_ok_inv. apply trace_nil. }
  intros (c1 & H1 & H2)%v_seq_inv. unfold progResults. cbn [fmap list_fmap concat].
  eapply trace_app; [by eapply traced_call|by apply IH].
Qed.

End Trace.
