(* ===== verification/ProgLife.v ===== *)
(** * Valid programs stay valid

    Validation, removal and cloning together: a program that passes validation
    can have any call removed and can be cloned, without a panic, and what comes
    out passes validation again. *)

From stdpp Require Import base numbers strings gmap list.
From S2P Require Import Prelude Word ProgTypes ProgArgs ProgTree ProgValidate ProgDefault ExecSafe ProgLinks ProgClone ProgTrace.

Local Open Scope Z_scope.

(** ** The links of a valid program *)

Lemma linksOK_elem target h T ps p : linksOK target h T ps → p ∈ ps → resultOK target h (list_to_set ps ∪ T) p.
Proof.
  revert T. induction ps as [|p0 ps IH]; intros T; [by intros _ ?%elem_of_nil|]. intros [H0 Hps] [->|Hp]%elem_of_cons.
  - eapply resultOK_mono; [|exact H0]. cbn. set_solver.
  - eapply resultOK_mono; [|by apply IH]. cbn. set_solver.
Qed.

Lemma callResults_sublist c : callResults c `sublist_of` validNodes c.
Proof.
  unfold callResults, validNodes. apply sublist_app; [|done]. induction (c_Args c) as [|x l IH]; [done|].
  cbn [fmap list_fmap concat]. apply sublist_app; [apply resultsOf_sublist|done].
Qed.

Lemma progResults_sublist calls : progResults calls `sublist_of` concat (validNodes <$> calls).
Proof.
  unfold progResults. induction calls as [|c calls IH]; [done|]. cbn [fmap list_fmap concat].
  apply sublist_app; [apply callResults_sublist|done].
Qed.

Section Valid.

Context (target : Target) (h : Heap) (Htable : tableFits target) (Hheap : wfHeap h).

Local Notation tbl := (typeRefs target).

Lemma valid_trace calls : Forall (wfCall target h) calls → validate target h calls = Ret None →
  ∃ ctx, v_all (validateCall target h) calls (mkCtx ∅ ∅) = Ret (inr ctx) ∧
    trace target h (concat (validNodes <$> calls)) (progResults calls) (mkCtx ∅ ∅) ctx ∧
    dom (vc_uses ctx) ⊆ vc_args ctx.
Proof using Htable Hheap.
  intros Hw. unfold validate. intros (r & Hr & Hv)%bind_ret_inv. destruct r as [e|ctx]; [done|].
  exists ctx. split; [done|]. split; [by apply traced_calls|]. destruct (forallb _ _) eqn:Hf; [|done].
  intros u (p & Hu)%elem_of_dom. rewrite forallb_forall in Hf. specialize (Hf u). apply bool_decide_eq_true in Hf; [done|].
  apply list_elem_of_In, list_elem_of_fmap. exists (u, p). split; [done|]. by apply elem_of_map_to_list.
Qed.

Lemma typeOf_lookup ref t : typeOf tbl ref = Ret t → tbl !! ref = Some t.
Proof. unfold typeOf. case_bool_decide; [done|]. apply of_option_inv. Qed.

Lemma resourceDefault_fits ref c f d : typeOf tbl ref = Ret (ResourceType c f d) → ∃ v, resourceDefault d = Ret v.
Proof using Htable Hheap.
  unfold typeOf. case_bool_decide; [done|]. intros Ht%of_option_inv. apply (tf_types _ Htable) in Ht as (_ & _ & _ & Hne & _).
  unfold resourceDefault. destruct (rd_Values d); [done|]. by eexists.
Qed.

Lemma valid_links calls (L := list_to_set (progResults calls) : gset id) :
  Forall (wfCall target h) calls → validate target h calls = Ret None →
  linked h L ∧ typedResults tbl h L ∧ NoDup (progResults calls).
Proof using Htable Hheap.
  intros Hw Hv. destruct (valid_trace calls Hw Hv) as (ctx & _ & [Hnd _ Ha Hlinks _ Hused Hres] & Huses).
  cbn [vc_args vc_uses] in *. rewrite union_empty_r_L in Ha.
  assert (Hok : ∀ p, p ∈ L → resultOK target h L p).
  { intros p Hp%elem_of_list_to_set. eapply resultOK_mono; [|by eapply linksOK_elem]. set_solver. }
  split; [|split].
  - intros p Hp. destruct (Hok p Hp) as (r & c & f & d & Hr & _ & Hq & Hu). exists r. split; [done|]. split.
    + intros u. split.
      * intros Hin. destruct (Hu u Hin) as (ru & Hru & Hrr). split; [|by exists ru]. apply elem_of_list_to_set, Hres; [|by eexists].
        apply (elem_of_list_to_set (C := gset id)). rewrite <- Ha. apply Huses. apply elem_of_list_to_set in Hp. by eapply Hused.
      * intros (HuL & ru & Hru & Hrr). destruct (Hok u HuL) as (ru' & _ & _ & _ & Hru' & _ & Hq' & _).
        rewrite Hru in Hru'. injection Hru' as <-. destruct (Hq' p Hrr) as (_ & obj & Hobj & Hin). congruence.
    + intros q Hrq. by apply Hq.
  - intros p r Hp Hr. destruct (Hok p Hp) as (r' & c & f & d & Hr' & Ht & _). rewrite Hr in Hr'. injection Hr' as <-.
    destruct (resourceDefault_fits _ _ _ _ Ht) as [v Hd]. by exists c, f, d, v.
  - eapply sublist_NoDup; [exact Hnd|apply progResults_sublist].
Qed.

Lemma valid_walk c ctx ctx' : wfCall target h c → validateCall target h c ctx = Ret (inr ctx') →
  ∃ vs, ForeachArg tbl h c = Ret vs.
Proof using Htable Hheap.
  intros [Hw _ _ _ Htypes _ _] (Hlen & ctx1 & Hva & Hvr)%validateCall_inv.
  destruct (args_walk target h Htable Hheap _ _ _ _ Hw Hlen Htypes Hva) as (vss & Hvss & _).
  destruct (validateRet_ok target h Htable Hheap c ctx1 ctx' Hvr) as (vret & [Hrv _ _ _ _]).
  exists (vret ++ concat vss). unfold ForeachArg. rewrite Hrv. cbn [mbind res_bind]. rewrite Hvss. done.
Qed.

End Valid.

(** ** Checks that do not depend on what has been met *)

Definition uniform (v : V) : Prop := ∀ c c', v c = Ret (inr c') → c' = c ∧ ∀ c1, v c1 = Ret (inr c1).

Lemma uniform_ok : uniform v_ok.
Proof. by intros c c' ->%v_ok_inv. Qed.

Lemma uniform_err e : uniform (v_err e).
Proof. done. Qed.

Lemma uniform_check b e : uniform (v_check b e).
Proof. destruct b; [apply uniform_err|apply uniform_ok]. Qed.

Lemma uniform_seq v k : uniform v → uniform k → uniform (v_seq v k).
Proof.
  intros Hv Hk c c' (c1 & H1 & H2)%v_seq_inv. apply Hv in H1 as [-> H1]. apply Hk in H2 as [-> H2]. split; [done|].
  intros c2. rewrite (v_seq_ok _ _ _ _ (H1 c2)). apply H2.
Qed.

Lemma uniform_bind {A} (m : res A) (k : A → V) : (∀ a, uniform (k a)) → uniform (λ c, a ← m; k a c).
Proof. intros Hk c c' (a & Ha & Hc)%bind_ret_inv. apply Hk in Hc as [-> Hc]. split; [done|]. intros c1. rewrite Ha. apply Hc. Qed.

Create HintDb uniform.
#[export] Hint Resolve uniform_ok uniform_err uniform_check uniform_seq uniform_bind : uniform.

Lemma uniform_const tbl h t arg dir val : uniform (validateConst tbl h t arg dir val).
Proof.
  apply uniform_seq.
  - destruct t; auto with uniform; case_bool_decide; auto with uniform; apply (uniform_bind (isDefault tbl h arg)); auto with uniform.
  - case_bool_decide; [|auto with uniform].
    destruct t; auto with uniform; apply (uniform_bind (isDefault tbl h arg)); auto with uniform.
Qed.

Lemma uniform_data t dir data size : uniform (validateData t dir data size).
Proof.
  destruct t; try apply uniform_err. apply uniform_seq; [auto with uniform|]. apply uniform_seq.
  - destruct (Varlen _); [auto with uniform|]. apply (uniform_bind (typSize _)). auto with uniform.
  - destruct Kind; auto with uniform.
Qed.

Lemma uniform_address target h address vmaSize pointee : uniform (validateAddress target h address vmaSize pointee).
Proof.
  unfold validateAddress. destruct (IsSpecial _ _ _); [auto with uniform|]. apply (uniform_bind (match pointee with _ => _ end)).
  auto with uniform.
Qed.

(** The checks of an argument, from the outside in. *)
Lemma validateArg_intro target h arg typ dir dir' t d ctx : ptrDir target typ dir = Ret dir' →
  argType (typeRefs target) h arg = Ret t → argId arg ∉ vc_args ctx → argDir h arg = Ret d → (d = dir' ∨ dir' = DirInOut) →
  (isAnyPtr target t = true ∨ argRef h arg = Ret typ) →
  validateArg target h arg typ dir ctx =
  validateMethod target h arg t dir' (mkCtx ({[ argId arg ]} ∪ vc_args ctx) (vc_uses ctx)).
Proof.
  intros Hp Ht Hn Hd Hdd Hr. trans (dir' ← ptrDir target typ dir;
    v_seq (validateCommon target h arg typ dir') (λ ctx, t ← argType (typeRefs target) h arg; validateMethod target h arg t dir' ctx) ctx);
    [by destruct arg|]. rewrite Hp. cbn [mbind res_bind].
  assert (Hc : validateCommon target h arg typ dir' ctx = Ret (inr (mkCtx ({[ argId arg ]} ∪ vc_args ctx) (vc_uses ctx)))).
  { unfold validateCommon. rewrite bool_decide_false by done. pose proof Ht as Ht'. unfold argType in Ht'.
    apply bind_ret_inv in Ht' as (ref & Href & _). rewrite Ht, Href, Hd. cbn [mbind res_bind].
    rewrite bool_decide_false by naive_solver. destruct Hr as [->|Hr]; [done|].
    rewrite (bool_decide_false (ref ≠ typ)) by congruence. by rewrite andb_false_r. }
  rewrite (v_seq_ok _ _ _ _ Hc), Ht. done.
Qed.

Lemma validateUses_intro h p us ctx : (∀ u, u ∈ us → ∃ ru, h_results h !! u = Some ru ∧ r_Res ru = Some p) →
  ∃ ctx', v_all (validateUse h p) us ctx = Ret (inr ctx') ∧ vc_args ctx' = vc_args ctx ∧
    dom (vc_uses ctx') = list_to_set us ∪ dom (vc_uses ctx).
Proof.
  revert ctx. induction us as [|u us IH]; intros ctx Hu.
  { exists ctx. split; [done|]. split; [done|]. cbn. set_solver. }
  destruct (Hu u) as (ru & Hru & Hres); [by left|].
  destruct (IH (mkCtx (vc_args ctx) (<[u := p]> (vc_uses ctx)))) as (ctx' & Hv & Ha & Hd); [intros; apply Hu; by right|].
  exists ctx'. split.
  - cbn [v_all]. rewrite <- Hv. apply v_seq_ok. unfold validateUse. rewrite Hru. cbn [of_option mbind res_bind].
    rewrite bool_decide_false by (intros Hne; by apply Hne). done.
  - split; [done|]. rewrite Hd. cbn [vc_uses]. rewrite dom_insert_L. cbn. set_solver.
Qed.

(** ** Validations side by side *)

Section SimV.

(** The map of the results of one program to those of the other. *)
Context (m : gmap id id).

Record simCtx (c c1 : validCtx) : Prop := {
  sc_args p p1 : m !! p = Some p1 → p ∈ vc_args c → p1 ∈ vc_args c1;
  sc_uses u1 : u1 ∈ dom (vc_uses c1) → ∃ u, m !! u = Some u1 ∧ u ∈ dom (vc_uses c);
}.

(** The runs of two validations side by side; the second meets the nodes [ns]. *)
Definition simV (v v1 : V) (ns : list id) : Prop := ∀ c c' c1,
  v c = Ret (inr c') → simCtx c c1 → NoDup ns → (∀ n, n ∈ ns → n ∉ vc_args c1) →
  ∃ c1', v1 c1 = Ret (inr c1') ∧ simCtx c' c1' ∧ vc_args c1' = list_to_set ns ∪ vc_args c1.

Lemma simV_uniform v v1 : uniform v → (∀ c, v1 c = v c) → simV v v1 [].
Proof.
  intros Hu Heq c c' c1 Hv Hc _ _. apply Hu in Hv as [-> Hv]. exists c1. rewrite Heq. split; [done|]. split; [done|].
  cbn. set_solver.
Qed.

Lemma simV_seq v v1 k k1 ns1 ns2 : simV v v1 ns1 → simV k k1 ns2 → simV (v_seq v k) (v_seq v1 k1) (ns1 ++ ns2).
Proof.
  intros Hv Hk c c' c1 (c2 & H1 & H2)%v_seq_inv Hc (Hn1 & Hdis & Hn2)%NoDup_app Hf.
  destruct (Hv c c2 c1) as (d1 & Hd1 & Hs1 & Ha1); [done|done|done|intros; apply Hf, elem_of_app; by left|].
  destruct (Hk c2 c' d1) as (d2 & Hd2 & Hs2 & Ha2); [done|done|done| |].
  { intros n Hn. rewrite Ha1. apply not_elem_of_union. split; [|apply Hf, elem_of_app; by right].
    intros Hn'%elem_of_list_to_set. by eapply Hdis. }
  exists d2. rewrite (v_seq_ok _ _ _ _ Hd1). split; [done|]. split; [done|]. rewrite Ha2, Ha1, list_to_set_app_L. set_solver.
Qed.

Lemma simV_ext v v' v1 v1' ns : (∀ c, v' c = v c) → (∀ c, v1' c = v1 c) → simV v v1 ns → simV v' v1' ns.
Proof. intros Hv Hv1 Hs c c' c1. rewrite Hv, Hv1. apply Hs. Qed.

Lemma simV_err e v1 ns : simV (v_err e) v1 ns.
Proof. by intros c c' c1. Qed.

Lemma simCtx_start : simCtx (mkCtx ∅ ∅) (mkCtx ∅ ∅).
Proof. split; cbn; set_solver. Qed.

End SimV.

(** ** Validation of an edited program *)

Section Sim.

Context (target : Target) (h h1 : Heap) (m : gmap id id) (Htable : tableFits target).

Local Notation tbl := (typeRefs target).

(** What an edit may do to a result: references and uses follow [m], and a result
    that has lost its referent may have the default value. *)
Record simObj (r r1 : ResultObj) : Prop := {
  so_ref : r_ref r1 = r_ref r;
  so_dir : r_dir r1 = r_dir r;
  so_Res : r_Res r1 = r_Res r ≫= λ q, m !! q;
  so_uses : r_uses r1 = set_omap (λ u, m !! u) (r_uses r);
  so_val : r_Val r1 = r_Val r ∨ r_Val r1 = defaultVal tbl (r_ref r);
  so_same : r_Res r = None → r_Val r1 = r_Val r ∧ r_OpDiv r1 = r_OpDiv r ∧ r_OpAdd r1 = r_OpAdd r;
}.

Context (Hsim : ∀ p p1, m !! p = Some p1 →
  ∃ r r1, h_results h !! p = Some r ∧ h_results h1 !! p1 = Some r1 ∧ simObj r r1).

(** A call that the edited program does not have. *)
Lemma sim_skip c c' c1 nodes rs : simCtx m c c1 → trace target h nodes rs c c' → (∀ p, p ∈ rs → m !! p = None) → simCtx m c' c1.
Proof using Hsim Htable.
  intros [Hargs Hus] [_ _ Ha _ Hu _ Hres] Hno. split.
  - intros p p1 Hp. rewrite Ha. intros [Hin|Hin]%elem_of_union; [|by eapply Hargs].
    apply elem_of_list_to_set, Hres, Hno in Hin; [congruence|]. destruct (Hsim p p1 Hp) as (r & _ & Hr & _). by eexists.
  - intros u1 Hu1. destruct (Hus u1 Hu1) as (u & Hm & Hin). exists u. split; [done|]. set_solver.
Qed.

Lemma sim_valid calls1 ctx ctx1 : v_all (validateCall target h1) calls1 (mkCtx ∅ ∅) = Ret (inr ctx1) →
  simCtx m ctx ctx1 → dom (vc_uses ctx) ⊆ vc_args ctx → validate target h1 calls1 = Ret None.
Proof using Hsim Htable.
  intros Hv [Hargs Hus] Hin. unfold validate. rewrite Hv. cbn [mbind res_bind].
  assert (Hall : forallb (λ u, bool_decide (u ∈ vc_args ctx1)) (map_to_list (vc_uses ctx1)).*1 = true); [|by rewrite Hall].
  apply forallb_forall. intros u1 Hu1. apply bool_decide_eq_true. apply list_elem_of_In, list_elem_of_fmap in Hu1 as ([u' p'] & -> & Hu1).
  apply elem_of_map_to_list in Hu1. destruct (Hus u') as (u & Hm & Hu); [by apply elem_of_dom; eexists|].
  eapply Hargs; [exact Hm|]. by apply Hin.
Qed.

(** What relates the values of the two programs. *)
Context (leaf : Arg → Arg → Prop).

Definition isValue (arg : Arg) : Prop := match arg with ConstArg _ _ | DataArg _ _ _ => True | _ => False end.

Context (Hsize : ∀ x y, isValue x → copyTree leaf m x y → argSize tbl h1 y = argSize tbl h x).

Lemma copy_ref arg arg1 : copyTree leaf m arg arg1 → argRef h1 arg1 = argRef h arg.
Proof using Hsim Htable Hsize.
  destruct arg as [| ? ? ? [?|] | | | |p], arg1 as [| ? ? ? [?|] | | | |p1]; try done; cbn [copyTree argRef];
    try (intros [[Hr _] _]; by rewrite Hr).
  intros (r & r1 & -> & -> & [Hr _ _ _ _ _])%Hsim. cbn [of_option mbind res_bind]. by rewrite Hr.
Qed.

Lemma copy_type arg arg1 : copyTree leaf m arg arg1 → argType tbl h1 arg1 = argType tbl h arg.
Proof using Hsim Htable Hsize. intros Hc. unfold argType. by rewrite (copy_ref _ _ Hc). Qed.

Lemma copy_dir arg arg1 : copyTree leaf m arg arg1 → argDir h1 arg1 = argDir h arg.
Proof using Hsim Htable Hsize.
  destruct arg as [| ? ? ? [?|] | | | |p], arg1 as [| ? ? ? [?|] | | | |p1]; try done; cbn [copyTree argDir];
    try (intros [[_ Hd] _]; by rewrite Hd).
  intros (r & r1 & -> & -> & [_ Hd _ _ _ _])%Hsim. cbn [of_option mbind res_bind]. by rewrite Hd.
Qed.

Lemma copy_size arg arg1 : copyTree leaf m arg arg1 → argSize tbl h1 arg1 = argSize tbl h arg.
Proof using Hsim Htable Hsize.
  revert arg1. induction arg as [a v|a ad vm|a ad vm x IH|a d s|a inner IH|a opt index IH|p] using Arg_tree_ind;
    intros [b val1|b ad1 vm1 [y|]|b d1 s1|b inner1|b o1 i1|p1]; try done.
  - intros [[Hr _] _]. cbn [argSize]. by rewrite Hr.
  - intros [[Hr _] _]. cbn [argSize]. by rewrite Hr.
  - intros [[Hr _] _]. cbn [argSize]. by rewrite Hr.
  - intros Hc. by apply Hsize.
  - intros [[Hr _] Hf]%copyArg_group. assert (Hm : mapM (argSize tbl h1) inner1 = mapM (argSize tbl h) inner).
    { clear -IH Hf. revert inner1 Hf. induction IH as [|x l Hx _ IHl]; intros inner1 Hf; inversion Hf; subst; [done|].
      cbn [mapM]. rewrite (Hx y), (IHl l') by done. done. }
    cbn [argSize]. rewrite Hr, Hm. by rewrite (Forall2_length _ _ _ Hf).
  - intros ([Hr _] & Ho & _). cbn [argSize]. by rewrite Hr, (IH o1 Ho).
  - cbn [copyTree argSize]. intros (r & r1 & -> & -> & [Hr _ _ _ _ _])%Hsim. cbn [of_option mbind res_bind]. by rewrite Hr.
Qed.

(** The checks of a result: its value if it is an output, and its reference. *)
Lemma sim_value r r1 c f d ctx ctx' c1 : simObj r r1 → typeOf tbl (r_ref r) = Ret (ResourceType c f d) →
  (if bool_decide (r_dir r = DirOut ∧ r_Val r ≠ 0)
   then λ ctx, def ← resourceDefault d; v_check (bool_decide (r_Val r ≠ def)) EOutResource ctx else v_ok) ctx = Ret (inr ctx') →
  (if bool_decide (r_dir r1 = DirOut ∧ r_Val r1 ≠ 0)
   then λ ctx, def ← resourceDefault d; v_check (bool_decide (r_Val r1 ≠ def)) EOutResource ctx else v_ok) c1 = Ret (inr c1).
Proof using Hsim Htable Hsize.
  intros [_ Hdir _ _ Hval _] Ht Hv. destruct (bool_decide (r_dir r1 = DirOut ∧ r_Val r1 ≠ 0)) eqn:Hb; [|done].
  apply bool_decide_eq_true in Hb.
  destruct (tf_types _ Htable (r_ref r) _ (typeOf_lookup _ _ _ Ht)) as (_ & _ & _ & Hne & _).
  assert (∃ def, resourceDefault d = Ret def) as [def Ed].
  { unfold resourceDefault. destruct (rd_Values d); [done|]. by eexists. }
  rewrite Ed in *. cbn [mbind res_bind] in *. rewrite bool_decide_false; [done|]. intros Hbad. destruct Hval as [Hval|Hval].
  - rewrite Hval, Hdir in *. rewrite bool_decide_true in Hv by done.
    apply v_check_inv in Hv as [Hf _]. by apply bool_decide_eq_false in Hf.
  - apply Hbad. rewrite Hval. unfold defaultVal. by rewrite Ht, Ed.
Qed.

Lemma sim_reference p p1 r r1 c c1 : m !! p = Some p1 → simObj r r1 → simCtx m c c1 →
  (∀ q, r_Res r = Some q → q ∈ vc_args c ∧ ∃ obj, h_results h !! q = Some obj ∧ p ∈ r_uses obj) →
  (match r_Res r1 with
   | Some q => λ ctx, if bool_decide (q ∉ vc_args ctx) then Ret (inl EOutOfTree)
               else obj ← of_option (h_results h1 !! q); v_check (bool_decide (p1 ∉ r_uses obj)) EBrokenLink ctx
   | None => v_ok
   end) c1 = Ret (inr c1).
Proof using Hsim Htable Hsize.
  intros Hp [_ _ Hres _ _ _] [Hargs _] Hq. rewrite Hres.
  destruct (r_Res r ≫= λ q, m !! q) as [q1|] eqn:Eq; [|done]. apply bind_Some in Eq as (q & Hrq & Hqm).
  destruct (Hq q Hrq) as (HqT & obj & Hobj & Hpin). destruct (Hsim q q1 Hqm) as (obj' & obj1 & Hobj' & Hobj1 & [_ _ _ Hou _ _]).
  rewrite Hobj in Hobj'. injection Hobj' as <-. rewrite bool_decide_false.
  2:{ intros Hn. apply Hn. by eapply Hargs. }
  rewrite Hobj1. cbn [of_option mbind res_bind]. rewrite bool_decide_false; [done|]. intros Hn. apply Hn.
  rewrite Hou. apply elem_of_set_omap. by exists p.
Qed.

Lemma sim_uses p p1 r r1 c1 : m !! p = Some p1 → simObj r r1 →
  (∀ u, u ∈ r_uses r → ∃ ru, h_results h !! u = Some ru ∧ r_Res ru = Some p) →
  ∃ c1', v_all (validateUse h1 p1) (elements (r_uses r1)) c1 = Ret (inr c1') ∧ vc_args c1' = vc_args c1 ∧
    dom (vc_uses c1') = r_uses r1 ∪ dom (vc_uses c1).
Proof using Hsim Htable Hsize.
  intros Hp [_ _ _ Huses _ _] Hu. destruct (validateUses_intro h1 p1 (elements (r_uses r1)) c1) as (c1' & Hl & Ha1 & Hd1).
  { intros u1 Hu1%elem_of_elements. rewrite Huses in Hu1. apply elem_of_set_omap in Hu1 as (u & Huu & Hm).
    destruct (Hu u Huu) as (ru & Hru & Hrr). destruct (Hsim u u1 Hm) as (ru' & ru1 & Hru' & Hru1 & [_ _ HR _ _ _]).
    rewrite Hru in Hru'. injection Hru' as <-. exists ru1. split; [done|]. rewrite HR, Hrr. exact Hp. }
  rewrite list_to_set_elements_L in Hd1. by exists c1'.
Qed.

Lemma sim_result t p p1 r r1 c c' c1 : m !! p = Some p1 → simObj r r1 → typeOf tbl (r_ref r) = Ret t →
  validateResult tbl h t p r c = Ret (inr c') → simCtx m c c1 →
  ∃ c1', validateResult tbl h1 t p1 r1 c1 = Ret (inr c1') ∧ simCtx m c' c1' ∧ vc_args c1' = vc_args c1.
Proof using Hsim Htable Hsize.
  intros Hp Hobj Ht Hv [Hargs Hus]. destruct (validateResult_uses _ _ _ _ _ _ _ Hv) as [Hd Hu].
  pose proof (validateResult_inv _ _ _ _ _ _ _ Hv) as ((cc & f & d & ->) & Ha & Hq & Hin).
  destruct (sim_uses p p1 r r1 c1 Hp Hobj Hu) as (c1' & Hl & Ha1 & Hd1). pose proof Hobj as [_ Hdir _ Huses _ _].
  assert (Hnone : r_uses r = ∅ → r_uses r1 = ∅).
  { intros He. rewrite Huses, He. apply set_eq. intros x. rewrite elem_of_set_omap. set_solver. }
  assert (Hctx : simCtx m c' c1').
  { split.
    - intros q q1 Hqm Hq'. rewrite Ha1. rewrite Ha in Hq'. by eapply Hargs.
    - intros u1. rewrite Hd1, Huses, elem_of_union, elem_of_set_omap. intros [(u & Hu' & Hm)|Hu'].
      + exists u. split; [done|]. rewrite Hd. set_solver.
      + destruct (Hus u1 Hu') as (u & Hm & Hin'). exists u. split; [done|]. rewrite Hd. set_solver. }
  exists c1'. split; [|done]. cbn [validateResult] in Hv |- *. rewrite (v_seq_ok _ _ _ _ Hl).
  apply v_seq_inv in Hv as (c2 & _ & Hv). apply v_seq_inv in Hv as (c3 & Hv1 & Hv).
  apply v_seq_inv in Hv as (c4 & _ & Hv). apply v_seq_inv in Hv as (c5 & _ & Hv2).
  rewrite (v_seq_ok _ _ _ _ (sim_value r r1 _ _ _ _ _ c1' Hobj Ht Hv1)).
  rewrite (v_seq_ok _ _ _ _ (sim_reference p p1 r r1 c' c1' Hp Hobj Hctx ltac:(by rewrite Ha))).
  rewrite (v_seq_ok _ _ c1' c1').
  2:{ unfold v_check. rewrite bool_decide_false; [done|]. intros [Hdi Hne]. apply Hne, Hnone, Hin. congruence. }
  destruct (bool_decide (r_uses r1 ≠ ∅)) eqn:Hne1; [|done]. apply bool_decide_eq_true in Hne1.
  rewrite bool_decide_true in Hv2 by (intros He; by apply Hne1, Hnone).
  apply bind_ret_inv in Hv2 as (size & -> & [Hs _]%v_check_inv). cbn [mbind res_bind]. by rewrite Hs.
Qed.

Context (Hmethod : ∀ x y t dir, isValue x → copyTree leaf m x y → argType tbl h x = Ret t →
  simV m (validateMethod target h x t dir) (validateMethod target h1 y t dir) []).

Definition simulates (arg : Arg) : Prop := ∀ arg1 typ dir, copyTree leaf m arg arg1 → wfArg h arg →
  simV m (validateArg target h arg typ dir) (validateArg target h1 arg1 typ dir) (nodesOf arg1).

Lemma sim_list l : Forall simulates l → Forall (wfArg h) l → ∀ l1 tds, Forall2 (copyTree leaf m) l l1 → length l = length tds →
  simV m (validateList target h l tds) (validateList target h1 l1 tds) (concat (nodesOf <$> l1)).
Proof using Hsim Htable Hsize Hmethod.
  induction 1 as [|x l Hx _ IH]; intros Hw l1 [|td tds] Hf Hlen; try done; inversion Hf; subst.
  { by apply simV_uniform; [apply uniform_ok|]. }
  apply Forall_cons in Hw as [Hwx Hw]. cbn [fmap list_fmap concat validateList]. apply simV_seq.
  - by apply Hx.
  - apply IH; [done|done|]. cbn in Hlen. lia.
Qed.

Lemma copy_children arg arg1 : copyTree leaf m arg arg1 → Forall2 (copyTree leaf m) (childrenOf arg) (childrenOf arg1).
Proof using Hsim Htable Hsize Hmethod.
  destruct arg as [| ? ? ? [?|] | |a inner| |p], arg1 as [| ? ? ? [?|] | |b inner1| |p1]; try done.
  - intros (_ & _ & _ & Hx). by constructor.
  - by intros [_ Hf]%copyArg_group.
  - intros (_ & Hx & _). by constructor.
Qed.

(** A node that is not a result, given the part that depends on its kind. *)
Lemma sim_node arg arg1 typ dir : notResult arg → copyTree leaf m arg arg1 → wfArg h arg →
  (∀ t dir', argType tbl h arg = Ret t → simV m (validateMethod target h arg t dir') (validateMethod target h1 arg1 t dir')
     (concat (nodesOf <$> childrenOf arg1))) →
  simV m (validateArg target h arg typ dir) (validateArg target h1 arg1 typ dir) (nodesOf arg1).
Proof using Hsim Htable Hsize Hmethod.
  intros Hn Hc [Hid _]%wfArg_children Hm c c' c1 Hv [Hargs Hus] Hnd Hf; [|done].
  apply validateArg_inv in Hv as (dir' & t & d & Hp & Ht & Hnin & Hd & Hdd & Hr & Hv).
  rewrite nodesOf_children in Hnd, Hf |- *. apply NoDup_cons in Hnd as [Hni Hnd].
  rewrite (validateArg_intro target h1 arg1 typ dir dir' t d c1); [| done | by rewrite (copy_type _ _ Hc) |
    apply Hf; by left | by rewrite (copy_dir _ _ Hc) | done | by rewrite (copy_ref _ _ Hc)].
  destruct (Hm t dir' Ht _ c' (mkCtx ({[ argId arg1 ]} ∪ vc_args c1) (vc_uses c1)) Hv) as (c1' & H1 & Hs & Ha); [|done| |].
  - split; [|done]. cbn [vc_args]. intros p p1 Hp1. rewrite !elem_of_union, elem_of_singleton. intros [->|Hin].
    + destruct (Hsim _ _ Hp1) as (r & _ & Hr' & _). congruence.
    + right. by eapply Hargs.
  - intros n Hn'. cbn [vc_args]. apply not_elem_of_union. split; [|apply Hf; by right].
    intros ->%elem_of_singleton. done.
  - exists c1'. split; [done|]. split; [done|]. rewrite Ha. cbn [vc_args list_to_set]. set_solver.
Qed.

(** The kinds of nodes. *)
Lemma sim_method arg arg1 t dir : notResult arg → copyTree leaf m arg arg1 → wfArg h arg → Forall simulates (childrenOf arg) →
  argType tbl h arg = Ret t →
  simV m (validateMethod target h arg t dir) (validateMethod target h1 arg1 t dir) (concat (nodesOf <$> childrenOf arg1)).
Proof using Hsim Htable Hsize Hmethod.
  intros Hn Hc Hw IH Ht. pose proof (copy_children _ _ Hc) as Hch. apply wfArg_children in Hw as [_ Hw]; [|done].
  destruct arg as [a val|a ad vm x|a data size|a inner|a opt index|p], arg1 as [b val1|b ad1 vm1 y|b d1 s1|b inner1|b o1 i1|p1];
    try done; try (by destruct x); unfold validateMethod; cbv beta iota.
  - exact (Hmethod (ConstArg a val) (ConstArg b val1) t dir I Hc Ht).
  - rewrite <- (app_nil_r (concat _)). assert (ad1 = ad ∧ vm1 = vm ∧ a_dir b = a_dir a ∧ match x, y with
      | Some x, Some y => copyTree leaf m x y | None, None => True | _, _ => False end) as (-> & -> & -> & Hxy).
    { destruct x, y; try done; [destruct Hc as ([_ ->] & -> & -> & Hxy)|destruct Hc as ([_ ->] & -> & ->)]; done. }
    apply simV_seq.
    + destruct t; try apply simV_err.
      * destruct x, y; try done. by apply simV_uniform; [apply uniform_check|].
      * rewrite <- (app_nil_r (concat _)). apply simV_seq.
        -- destruct x as [x|], y as [y|]; try done; [|by apply simV_uniform; [apply uniform_ok|]].
           cbn [childrenOf] in IH, Hw. rewrite Forall_singleton in IH, Hw. cbn [childrenOf fmap list_fmap concat]. rewrite app_nil_r. by apply IH.
        -- apply simV_uniform; [|done]. auto with uniform.
    + apply simV_uniform; [apply uniform_address|]. intros c. unfold validateAddress, IsSpecial.
      destruct x as [x|], y as [y|]; try done. by rewrite (copy_size _ _ Hxy).
  - exact (Hmethod (DataArg a data size) (DataArg b d1 s1) t dir I Hc Ht).
  - pose proof (Forall2_length _ _ _ Hch) as Hlen. cbn [childrenOf] in *. destruct t; try (intros ??? Hbad; discriminate Hbad).
    + rewrite <- Hlen. case_bool_decide; [intros ??? Hbad; discriminate Hbad|].
      eapply simV_ext; [intros; apply validate_elems|intros; apply validate_elems|]. rewrite <- Hlen.
      apply sim_list; [done|done|done|by rewrite length_replicate].
    + rewrite <- Hlen. case_bool_decide as Hl; [intros ??? Hbad; discriminate Hbad|].
      eapply simV_ext; [intros; apply validate_fields|intros; apply validate_fields|].
      apply sim_list; [done|done|done|]. unfold fieldTds. by rewrite length_fmap.
  - destruct Hc as (_ & Ho & ->). destruct t; try (intros ??? Hbad; discriminate Hbad). case_bool_decide; [intros ??? Hbad; discriminate Hbad|].
    destruct (_ !! _) as [f|]; [|intros ??? Hbad; discriminate Hbad]. cbn [childrenOf] in IH, Hw. rewrite Forall_singleton in IH, Hw.
    cbn [childrenOf fmap list_fmap concat]. rewrite app_nil_r. by apply IH.
Qed.

Lemma sim_arg arg : simulates arg.
Proof using Hsim Htable Hsize Hmethod.
  induction arg as [p|arg Hn IH] using tree_ind; intros arg1 typ dir Hc Hw.
  2:{ apply sim_node; [done|done|done|]. intros t dir' Ht. by apply sim_method. }
  destruct arg1 as [| ? ? ? [?|] | | | |p1]; try done. intros c c' c1 Hv Hctx _ Hf. pose proof Hctx as [Hargs Hus].
  apply validateArg_inv in Hv as (dir' & t & d & Hp & Ht & Hnin & Hd & Hdd & Hr & Hv). cbn [validateMethod argId] in *.
  rewrite (validateArg_intro target h1 (ResultArg p1) typ dir dir' t d c1); [| done | by rewrite (copy_type _ _ Hc) |
    apply Hf; by left | by rewrite (copy_dir _ _ Hc) | done | by rewrite (copy_ref _ _ Hc)].
  destruct (Hsim p p1 Hc) as (r & r1 & Hrp & Hrp1 & Hobj). cbn [validateMethod argId]. rewrite Hrp in Hv. rewrite Hrp1.
  cbn [of_option mbind res_bind] in Hv |- *.
  destruct (sim_result t p p1 r r1 (mkCtx ({[ p ]} ∪ vc_args c) (vc_uses c)) c' (mkCtx ({[ p1 ]} ∪ vc_args c1) (vc_uses c1)) Hc Hobj) as (c1' & H1 & Hs & Ha);
    [|exact Hv| |].
  - unfold argType in Ht. cbn [argRef] in Ht. by rewrite Hrp in Ht.
  - split; [|done]. cbn [vc_args]. intros q q1 Hq1. rewrite !elem_of_union, !elem_of_singleton. intros [->|Hin].
    + left. cbn [copyTree] in Hc. congruence.
    + right. by eapply Hargs.
  - exists c1'. split; [done|]. split; [done|]. rewrite Ha. cbn. set_solver.
Qed.

Lemma sim_args l l1 fields : Forall2 (copyTree leaf m) l l1 → Forall (wfArg h) l → length l = length fields →
  simV m (validateArgs target h l fields) (validateArgs target h1 l1 fields) (concat (nodesOf <$> l1)).
Proof using Hsim Htable Hsize Hmethod.
  intros Hf. revert fields. induction Hf as [|x y l l1 Hx _ IH]; intros [|f fields] Hw Hlen; try done.
  { by apply simV_uniform; [apply uniform_ok|]. }
  apply Forall_cons in Hw as [Hwx Hw]. cbn [validateArgs fmap list_fmap concat]. apply simV_seq; [by apply sim_arg|].
  apply IH; [done|]. cbn in Hlen. lia.
Qed.

Lemma sim_ret c c1 : copyCallBy leaf m c c1 → simV m (validateRet target h c) (validateRet target h1 c1) (retList c1).
Proof using Hsim Htable Hsize Hmethod.
  intros (Hmeta & _ & _ & Hret). unfold validateRet, retList. rewrite Hmeta.
  destruct (sc_Ret (c_Meta c)) as [t|], (c_Ret c) as [p|], (c_Ret c1) as [p1|]; try done;
    try (intros ??? Hbad; discriminate Hbad); [|by apply simV_uniform; [apply uniform_ok|]].
  destruct (Hsim p p1 Hret) as (r & r1 & -> & -> & [_ _ Hres _ _ Hsame]). cbn [of_option mbind res_bind].
  intros d d' d1 (d2 & [Hb ->]%v_check_inv & Hv)%v_seq_inv Hctx Hnd Hf. rewrite (v_seq_ok _ _ d1 d1).
  - by apply (sim_arg (ResultArg p) (ResultArg p1) t DirOut Hret I d d' d1 Hv Hctx Hnd).
  - unfold v_check. rewrite bool_decide_false; [done|]. apply bool_decide_eq_false in Hb.
    destruct (r_Res r) eqn:Er; [exfalso; apply Hb; by left|]. destruct (Hsame eq_refl) as (-> & -> & ->).
    rewrite Hres. exact Hb.
Qed.

Lemma sim_call c c1 : copyCallBy leaf m c c1 → wfCall target h c →
  simV m (validateCall target h c) (validateCall target h1 c1) (validNodes c1).
Proof using Hsim Htable Hsize Hmethod.
  intros Hc Hw d d' d1 Hv Hctx Hnd Hf. pose proof (validateCall_inv _ _ _ _ _ Hv) as (Hlen & _).
  pose proof Hc as (Hmeta & Hprops & Hargs & _). revert d d' d1 Hv Hctx Hnd Hf. unfold validateCall.
  rewrite Hmeta, Hprops, <- (Forall2_length _ _ _ Hargs).
  apply (simV_seq m _ _ _ _ []); [by apply simV_uniform; [apply uniform_check|]|].
  apply (simV_seq m _ _ _ _ []); [by apply simV_uniform; [apply uniform_check|]|].
  apply (simV_seq m _ _ _ _ []); [by apply simV_uniform; [apply uniform_check|]|].
  apply simV_seq; [|by apply sim_ret]. apply sim_args; [done|by destruct Hw|done].
Qed.

Lemma sim_calls calls calls1 : Forall2 (copyCallBy leaf m) calls calls1 → Forall (wfCall target h) calls →
  simV m (v_all (validateCall target h) calls) (v_all (validateCall target h1) calls1) (concat (validNodes <$> calls1)).
Proof using Hsim Htable Hsize Hmethod.
  induction 1 as [|c c1 calls calls1 Hc _ IH]; intros Hw; [by apply simV_uniform; [apply uniform_ok|]|].
  apply Forall_cons in Hw as [Hwc Hw]. cbn [v_all fmap list_fmap concat]. apply simV_seq; [by apply sim_call|by apply IH].
Qed.

End Sim.

(** Copies of values. *)
Lemma same_size target h h1 m x y : isValue x → copyArg m x y → argSize (typeRefs target) h1 y = argSize (typeRefs target) h x.
Proof.
  destruct x as [a val| |a data size| | |], y as [b val1|? ? ? []|b data1 size1| | |]; try done; intros _.
  - intros [[Hr _] _]. cbn [argSize]. by rewrite Hr.
  - intros (_ & -> & ->). done.
Qed.

Lemma same_method target h h1 m x y t dir : isValue x → copyArg m x y → argType (typeRefs target) h x = Ret t →
  simV m (validateMethod target h x t dir) (validateMethod target h1 y t dir) [].
Proof.
  destruct x as [a val| |a data size| | |], y as [b val1|? ? ? []|b data1 size1| | |]; try done; intros _; unfold validateMethod; cbv beta iota.
  - intros [[Hr Hd] Hval] _. cbn [sameValue] in Hval. subst val1. rewrite Hd. apply simV_uniform; [apply uniform_const|]. intros c.
    assert (Hdef : isDefault (typeRefs target) h1 (ConstArg b val) = isDefault (typeRefs target) h (ConstArg a val)).
    { cbn [isDefault]. unfold argType. cbn [argRef]. by rewrite Hr. }
    unfold validateConst. by rewrite Hdef.
  - intros ([_ ->] & -> & ->) _. by apply simV_uniform; [apply uniform_data|].
Qed.

Lemma v_all_app {A} (f : A → V) l1 l2 ctx ctx' : v_all f (l1 ++ l2) ctx = Ret (inr ctx') ↔
  ∃ c1, v_all f l1 ctx = Ret (inr c1) ∧ v_all f l2 c1 = Ret (inr ctx').
Proof.
  revert ctx. induction l1 as [|x l1 IH]; intros ctx; cbn [app v_all].
  - split; [intros Hv; by exists ctx|]. by intros (c1 & ->%v_ok_inv & Hv).
  - split.
    + intros (c1 & H1 & (c2 & H2 & H3)%IH)%v_seq_inv. exists c2. split; [|done]. by rewrite (v_seq_ok _ _ _ _ H1).
    + intros (c2 & (c1 & H1 & H2)%v_seq_inv & H3). rewrite (v_seq_ok _ _ _ _ H1). apply IH. by exists c2.
Qed.

(** ** Removal *)

(** The results that are left stay where they are. *)
Definition idMap (X : gset id) : gmap id id := set_to_map (λ p, (p, p)) X.

Lemma idMap_lookup X p p1 : idMap X !! p = Some p1 ↔ p ∈ X ∧ p1 = p.
Proof. unfold idMap. rewrite lookup_set_to_map by done. naive_solver. Qed.

Lemma copyArg_refl X arg : (∀ p, p ∈ resultsOf arg → p ∈ X) → copyArg (idMap X) arg arg.
Proof.
  induction arg as [a v|a ad vm|a ad vm x IH|a d s|a inner IH|a opt index IH|p] using Arg_tree_ind; intros Hin; try done.
  - split; [done|]. split; [done|]. split; [done|]. by apply IH.
  - apply copyArg_group. split; [done|]. cbn [resultsOf] in Hin. induction IH as [|x l Hx _ IHl]; constructor.
    + apply Hx. intros p Hp. apply Hin. cbn. apply elem_of_app. by left.
    + apply IHl. intros p Hp. apply Hin. cbn. apply elem_of_app. by right.
  - split; [done|]. split; [by apply IH|done].
  - cbn [copyTree]. apply idMap_lookup. split; [apply Hin; cbn; set_solver|done].
Qed.

Lemma copyCall_refl X c : (∀ p, p ∈ callResults c → p ∈ X) → copyCall (idMap X) c c.
Proof.
  intros Hin. unfold callResults in Hin. split; [done|]. split; [done|]. split.
  - apply Forall_Forall2_diag, Forall_forall. intros arg Harg. apply copyArg_refl. intros p Hp. apply Hin, elem_of_app. left.
    apply (elem_concat _ (resultsOf arg)); [done|]. by apply list_elem_of_fmap_2.
  - destruct (c_Ret c); [|done]. apply idMap_lookup. split; [|done]. apply Hin, elem_of_app. right. set_solver.
Qed.

Lemma detach_sim target h L D r p : linked h L → p ∈ L → h_results h !! p = Some r →
  simObj target (idMap (L ∖ D)) r (detach (typeRefs target) D r).
Proof.
  intros Hl Hp Hr. destruct (Hl p Hp) as (r' & Hr' & Hu & Hq). rewrite Hr in Hr'. injection Hr' as <-.
  assert (Hom : r_uses r ∖ D = set_omap (λ u, idMap (L ∖ D) !! u) (r_uses r)).
  { apply set_eq. intros u. rewrite elem_of_difference, elem_of_set_omap. split.
    - intros [Hin Hnot]. exists u. split; [done|]. apply idMap_lookup. apply Hu in Hin as [? _]. set_solver.
    - intros (u' & Hin & [Hx ->]%idMap_lookup). set_solver. }
  assert (Hres : r_Res (detach (typeRefs target) D r) = r_Res r ≫= λ q, idMap (L ∖ D) !! q).
  { apply option_eq. intros q. rewrite detach_res, bind_Some. split.
    - intros [Hrq Hnot]. exists q. split; [done|]. apply idMap_lookup. specialize (Hq q Hrq). set_solver.
    - intros (q' & Hrq & [Hx ->]%idMap_lookup). set_solver. }
  split; [apply detach_ref| |done|by rewrite detach_uses| |]; unfold detach; destruct (r_Res r) as [q|]; try done;
    try (by left); case_bool_decide; try done; first [by left | by right].
Qed.

Lemma disjoint_results calls1 c calls2 p : NoDup (progResults (calls1 ++ c :: calls2)) →
  p ∈ progResults calls1 ∨ p ∈ progResults calls2 → p ∉ callResults c.
Proof.
  unfold progResults. rewrite fmap_app, concat_app. cbn [fmap list_fmap concat]. rewrite !NoDup_app.
  intros (_ & Hd1 & _ & Hd2 & _) [Hp|Hp] Hc.
  - apply (Hd1 p Hp). apply elem_of_app. by left.
  - by apply (Hd2 p Hc).
Qed.

Lemma remaining_copies calls1 c calls2 (L := list_to_set (progResults (calls1 ++ c :: calls2)) : gset id)
    (m := idMap (L ∖ list_to_set (callResults c))) : NoDup (progResults (calls1 ++ c :: calls2)) →
  Forall2 (copyCall m) calls1 calls1 ∧ Forall2 (copyCall m) calls2 calls2.
Proof.
  intros Hnd. assert (Hin : ∀ l x p, l ∈ [calls1; calls2] → x ∈ l → p ∈ callResults x →
    p ∈ L ∖ list_to_set (callResults c)).
  { intros l x p Hl Hx Hp. assert (Hp' : p ∈ progResults l) by (apply (elem_concat _ (callResults x)); [done|by apply list_elem_of_fmap_2]).
    apply elem_of_difference. subst L. rewrite !elem_of_list_to_set. split.
    - unfold progResults in *. rewrite fmap_app, concat_app. cbn [fmap list_fmap concat]. rewrite !elem_of_app.
      apply elem_of_cons in Hl as [->|Hl]; [by left|]. apply list_elem_of_singleton in Hl as ->. right. by right.
    - eapply disjoint_results; [exact Hnd|]. apply elem_of_cons in Hl as [->|Hl]; [by left|]. apply list_elem_of_singleton in Hl as ->. by right. }
  split; apply Forall_Forall2_diag, Forall_forall; intros x Hx; apply copyCall_refl; intros p Hp; (eapply Hin; [|done|done]); set_solver.
Qed.

(** After a removal the program passes validation. *)
Lemma RemoveCall_revalidates (target : Target) (h : Heap) (calls : list Call) (idx : nat) (c : Call) :
  tableFits target → wfHeap h → heapOK h → Forall (wfCall target h) calls → validate target h calls = Ret None →
  calls !! idx = Some c →
  ∃ h', RemoveCall (typeRefs target) calls idx h = Ret (take idx calls ++ drop (S idx) calls, h') ∧
    validate target h' (take idx calls ++ drop (S idx) calls) = Ret None ∧
    removed (typeRefs target) (list_to_set (progResults calls)) (list_to_set (callResults c)) h h'.
Proof.
  intros Ht Hh Hok Hw Hv Hc. destruct (valid_links target h Ht Hh calls Hw Hv) as (Hl & Hty & Hnd).
  destruct (valid_trace target h Ht Hh calls Hw Hv) as (ctx & Hall & Htr & Huses).
  pose proof (take_drop_middle calls idx c Hc) as Hsplit.
  set (pre := take idx calls) in *. set (post := drop (S idx) calls) in *. set (D := list_to_set (callResults c) : gset id).
  rewrite <- Hsplit in Hall, Hw. apply v_all_app in Hall as (c1 & Hpre & (c2 & Hcv & Hpost)%v_seq_inv).
  apply Forall_app in Hw as [Hwpre [Hwc Hwpost]%Forall_cons].
  destruct (RemoveCall_detaches (typeRefs target) h calls idx c (list_to_set (progResults calls))) as (h' & Hrun & Hrem);
    [done..|by eapply valid_walk|].
  exists h'. split; [exact Hrun|]. split; [|exact Hrem]. destruct Hrem as [_ _ _ _ Hrest].
  set (m := idMap (list_to_set (progResults calls) ∖ D)).
  assert (Hsim : ∀ p p1, m !! p = Some p1 → ∃ r r1, h_results h !! p = Some r ∧ h_results h' !! p1 = Some r1 ∧ simObj target m r r1).
  { intros p p1 [Hp ->]%idMap_lookup. apply elem_of_difference in Hp as [Hp Hn]. destruct (Hl p Hp) as (r & Hr & _).
    exists r, (detach (typeRefs target) D r). split; [done|]. split; [|by eapply detach_sim].
    by apply Hrest. }
  assert (Hcopy : Forall2 (copyCall m) pre pre ∧ Forall2 (copyCall m) post post) by (subst m D; rewrite <- Hsplit in Hnd |- *; by apply remaining_copies).
  destruct Hcopy as [Hcpre Hcpost]. pose proof (tr_nodup _ _ _ _ _ _ Htr) as Hnodes. rewrite <- Hsplit in Hnodes.
  rewrite fmap_app, concat_app in Hnodes. apply NoDup_app in Hnodes as (Hn1 & Hdis & Hnodes).
  cbn [fmap list_fmap concat] in Hnodes, Hdis. apply NoDup_app in Hnodes as (_ & _ & Hn2).
  destruct (sim_calls target h h' m Ht Hsim sameValue (same_size target h h' m) (same_method target h h' m) pre pre Hcpre Hwpre _ _ _ Hpre (simCtx_start m) Hn1) as (d1 & Hd1 & Hs1 & Ha1);
    [set_solver|].
  apply (sim_skip target h h' m Ht Hsim _ c2 _ (validNodes c) (callResults c)) in Hs1; [|by apply (traced_call target h Ht Hh c)|].
  2:{ intros p Hp. apply eq_None_not_Some. intros [p1 [Hin _]%idMap_lookup]. subst D. set_solver. }
  destruct (sim_calls target h h' m Ht Hsim sameValue (same_size target h h' m) (same_method target h h' m) post post Hcpost Hwpost _ _ _ Hpost Hs1 Hn2) as (d2 & Hd2 & Hs2 & _).
  { intros n Hn. rewrite Ha1. intros [Hin|Hin]%elem_of_union; [|by apply not_elem_of_empty in Hin].
    apply elem_of_list_to_set in Hin. apply (Hdis n Hin). apply elem_of_app. by right. }
  eapply (sim_valid target h h' m Ht Hsim); [|exact Hs2|done]. apply v_all_app. by exists d1.
Qed.

(** ** Cloning *)

Lemma cloneOrder_perm c : cloneOrder c ≡ₚ callResults c.
Proof. unfold cloneOrder, callResults. by rewrite Permutation_app_comm. Qed.

Lemma progOrder_perm calls : concat (cloneOrder <$> calls) ≡ₚ progResults calls.
Proof.
  unfold progResults. induction calls as [|c calls IH]; [done|]. cbn [fmap list_fmap concat]. by rewrite IH, cloneOrder_perm.
Qed.

Lemma callNodes_perm c : callNodes c ≡ₚ validNodes c.
Proof. unfold callNodes, validNodes, retList. by rewrite Permutation_app_comm. Qed.

Lemma progNodes_perm calls : concat (callNodes <$> calls) ≡ₚ concat (validNodes <$> calls).
Proof. induction calls as [|c calls IH]; [done|]. cbn [fmap list_fmap concat]. by rewrite IH, callNodes_perm. Qed.

(** No result refers to itself. *)
Definition noSelf (h : Heap) (ps : list id) : Prop := ∀ p r, p ∈ ps → h_results h !! p = Some r → r_Res r ≠ Some p.

Lemma links_backwards target h T D ps : linksOK target h T ps → NoDup ps →
  (∀ q, is_Some (h_results h !! q) → q ∈ T → q ∈ D) → (∀ p, p ∈ ps → p ∉ D) → noSelf h ps → backwards h D ps.
Proof.
  revert T D. induction ps as [|p ps IH]; intros T D Hl Hnd HT HD Hself; [done|].
  destruct Hl as [(r & c & f & d & Hr & _ & Hq & _) Hl]. apply NoDup_cons in Hnd as [Hp Hnd]. split; [apply HD; by left|]. split.
  - exists r. split; [done|]. intros q Hres. destruct (Hq q Hres) as (HqT & obj & Hobj & _). apply HT; [by eexists|].
    assert (q ≠ p); [|set_solver]. intros ->. apply (Hself p r); [by left|done|done].
  - apply (IH ({[ p ]} ∪ T)); [done|done|set_solver| |].
    + intros q Hq'. assert (q ≠ p) by (by intros ->). assert (q ∉ D) by (apply HD; by right). set_solver.
    + intros q rq Hq'. apply Hself. by right.
Qed.

Section CloneOrder.

Context (target : Target) (h : Heap) (Htable : tableFits target) (Hheap : wfHeap h).

Lemma call_backwards c ctx ctx' D : wfCall target h c → validateCall target h c ctx = Ret (inr ctx') →
  noSelf h (callResults c) → (∀ q, is_Some (h_results h !! q) → q ∈ vc_args ctx → q ∈ D) → D ⊆ vc_args ctx →
  backwards h D (cloneOrder c).
Proof using Htable Hheap.
  intros Hw Hv Hself HT HD. destruct (traced_call target h Htable Hheap c ctx ctx' Hw Hv) as [[Hnd Hf _ Hl _ _ _] Hret].
  assert (Hfresh : ∀ p, p ∈ callResults c → p ∉ D).
  { intros p Hp Hin. apply (Hf p); [|by apply HD]. eapply elem_of_submseteq; [exact Hp|apply sublist_submseteq, callResults_sublist]. }
  assert (Hndr : NoDup (callResults c)) by (eapply sublist_NoDup; [exact Hnd|apply callResults_sublist]).
  unfold callResults in *. apply NoDup_app in Hndr as (Hnd1 & Hdis & _). apply linksOK_app in Hl as [Hl Hlr].
  assert (Hargs : ∀ E, (∀ p, p ∈ concat (resultsOf <$> c_Args c) → p ∉ E) → D ⊆ E →
    backwards h E (concat (resultsOf <$> c_Args c))).
  { intros E HE HDE. eapply links_backwards; [exact Hl|done| |done|].
    - intros q Hq Hin. by apply HDE, HT.
    - intros p r Hp. apply Hself. apply elem_of_app. by left. }
  unfold cloneOrder. destruct (c_Ret c) as [p|] eqn:Ec.
  - cbn [app backwards]. split; [apply Hfresh, elem_of_app; right; set_solver|].
    destruct Hlr as [(r & _ & _ & _ & Hr & _) _]. split.
    + exists r. split; [done|]. intros q. by rewrite (Hret p r eq_refl Hr).
    + apply Hargs; [|set_solver]. intros q Hq. apply not_elem_of_union. split.
      * intros ->%elem_of_singleton. apply (Hdis p Hq). set_solver.
      * apply Hfresh, elem_of_app. by left.
  - cbn [app]. apply Hargs; [|done]. intros q Hq. apply Hfresh, elem_of_app. by left.
Qed.

Lemma calls_backwards calls ctx ctx' D : Forall (wfCall target h) calls →
  v_all (validateCall target h) calls ctx = Ret (inr ctx') → noSelf h (progResults calls) →
  (∀ q, is_Some (h_results h !! q) → q ∈ vc_args ctx → q ∈ D) → D ⊆ vc_args ctx →
  backwards h D (concat (cloneOrder <$> calls)).
Proof using Htable Hheap.
  intros Hw. revert ctx D. induction Hw as [|c calls Hc _ IH]; intros ctx D Hv Hself HT HD; [done|].
  apply v_seq_inv in Hv as (c1 & H1 & H2). unfold progResults in Hself. cbn [fmap list_fmap concat] in Hself |- *.
  destruct (traced_call target h Htable Hheap c ctx c1 Hc H1) as [[_ _ Ha _ _ _ Hres] _].
  assert (Hset : list_to_set (cloneOrder c) = (list_to_set (callResults c) : gset id)) by (by rewrite cloneOrder_perm).
  apply backwards_app. split.
  - eapply call_backwards; [done|done| |done|done]. intros p r Hp. apply Hself, elem_of_app. by left.
  - rewrite Hset. eapply IH; [exact H2| | |].
    + intros p r Hp. apply Hself, elem_of_app. by right.
    + intros q Hq. rewrite Ha, !elem_of_union, !elem_of_list_to_set. intros [Hin|Hin]; [left; by apply Hres|right; by apply HT].
    + rewrite Ha. intros q. rewrite !elem_of_union, !elem_of_list_to_set. intros [Hq|Hq]; [left|right; by apply HD].
      eapply elem_of_submseteq; [exact Hq|apply sublist_submseteq, callResults_sublist].
Qed.

End CloneOrder.

(** The copies of results are what validation accepts. *)
Lemma copy_sim target h L m h' : copying h L m h' → ∀ p p1, m !! p = Some p1 →
  ∃ r r1, h_results h !! p = Some r ∧ h_results h' !! p1 = Some r1 ∧ simObj target m r r1.
Proof.
  intros Hc p p1 Hp. destruct (cp_new _ _ _ _ Hc p p1 Hp) as (_ & _ & r & Hr & Hr1 & _).
  exists r, (copyOf m r). split; [done|]. split; [done|]. split; try done. by left.
Qed.

(** A clone passes validation. *)
Lemma Clone_revalidates (target : Target) (h : Heap) (calls : list Call) :
  tableFits target → wfHeap h → heapOK h → Forall (wfCall target h) calls → validate target h calls = Ret None →
  noSelf h (progResults calls) →
  ∃ m h' calls1, Clone calls h = Ret (calls1, h') ∧ validate target h' calls1 = Ret None ∧
    copying h (list_to_set (progResults calls)) m h' ∧ dom m = list_to_set (progResults calls) ∧
    Forall2 (copyCall m) calls calls1 ∧ newNodes h h' (concat (callNodes <$> calls1)).
Proof.
  intros Ht Hh Hok Hw Hv Hself. destruct (valid_links target h Ht Hh calls Hw Hv) as (Hl & _ & _).
  destruct (valid_trace target h Ht Hh calls Hw Hv) as (ctx & Hall & _ & Huses).
  assert (HL : list_to_set (concat (cloneOrder <$> calls)) = (list_to_set (progResults calls) : gset id)).
  { by rewrite progOrder_perm. }
  destruct (Clone_copies h calls) as (m & h' & calls1 & Hrun & Hc & Hd & _ & Hcopies & Hnew); [done|by rewrite HL| |].
  { by eapply (calls_backwards target h Ht Hh); [| | |intros ? _ ?|]. }
  rewrite HL in Hc, Hd. pose proof (copy_sim target h _ m h' Hc) as Hsim.
  destruct (sim_calls target h h' m Ht Hsim sameValue (same_size target h h' m) (same_method target h h' m) calls calls1 Hcopies Hw _ _ _ Hall (simCtx_start m)) as (d & Hd1 & Hs & _).
  { rewrite <- progNodes_perm. by destruct Hnew as (_ & _ & ?). }
  { set_solver. }
  exists m, h', calls1. split; [done|]. split; [by eapply (sim_valid target h h' m Ht Hsim)|].
  done.
Qed.

