(* ===== verification/ProgInv.v ===== *)
(** * The invariant of programs

    What a program of the fuzzer satisfies between operations: it passes
    validation, its values fit their types, its nodes are allocated and no result
    refers to itself.  [RemoveCall] and [Clone] keep it, so they can be applied in
    any order, and with [ExecSafe] every program they lead to can be executed. *)

From stdpp Require Import base numbers strings gmap list.
From S2P Require Import Prelude Word ProgTypes ProgArgs ProgTree ProgValidate ProgDefault ExecSafe ProgLinks ProgClone ProgTrace ProgLife.

Local Open Scope Z_scope.

Record progOK (target : Target) (h : Heap) (calls : list Call) : Prop := {
  po_table : tableFits target;
  po_heap : wfHeap h;
  po_alloc : heapOK h;
  po_calls : Forall (wfCall target h) calls;
  po_nodes : ∀ n, n ∈ concat (validNodes <$> calls) → (n < h_next h)%nat;
  po_valid : validate target h calls = Ret None;
  po_self : noSelf h (progResults calls);
}.

(** ** Values of results stay in range *)

Definition objFits (r : ResultObj) : Prop := isU64 (r_Val r) ∧ isU64 (r_OpDiv r) ∧ isU64 (r_OpAdd r).

(** A computation that keeps the values of results in range. *)
Definition fits {A} (m : H A) (Q : A → Prop) : Prop :=
  ∀ h a h', wfHeap h → m h = Ret (a, h') → wfHeap h' ∧ Q a.

Lemma fits_ret {A} (a : A) (Q : A → Prop) : Q a → fits (mret a) Q.
Proof. intros HQ h b h' Hh [= <- <-]. done. Qed.

Lemma fits_bind {A B} (m : H A) (k : A → H B) P Q : fits m P → (∀ a, P a → fits (k a) Q) → fits (m ≫= k) Q.
Proof.
  intros Hm Hk h b h' Hh Hr. unfold mbind, H_bind in Hr. destruct (m h) as [[a h1]| |] eqn:E; try done.
  destruct (Hm h a h1 Hh E) as [Hh1 HP]. by apply (Hk a HP h1).
Qed.

Lemma fits_panic {A} (Q : A → Prop) : fits h_panic Q.
Proof. by intros h a h' _ Hr. Qed.

Lemma fits_lift {A} (m : res A) (Q : A → Prop) : (∀ a, m = Ret a → Q a) → fits (h_lift m) Q.
Proof. intros HQ h a h' Hh Hr. unfold h_lift in Hr. destruct m; try done. injection Hr as <- <-. split; [done|by apply HQ]. Qed.

Lemma fits_fresh : fits h_fresh (λ _, True).
Proof. intros h a h' Hh [= <- <-]. done. Qed.

Lemma fits_get p : fits (h_get p) objFits.
Proof.
  intros h r h' Hh Hr. unfold h_get in Hr. destruct (h_results h !! p) as [r'|] eqn:E; try done. injection Hr as <- <-.
  split; [done|]. by apply (Hh p).
Qed.

Lemma fits_set p r : objFits r → fits (h_set p r) (λ _, True).
Proof.
  intros Hf h u h' Hh [= <- <-]. split; [|done]. intros q r'. cbn [h_results].
  intros [[_ <-]|[_ Hq]]%lookup_insert_Some; [done|by apply (Hh q)].
Qed.

Lemma fits_weaken {A} (m : H A) (P Q : A → Prop) : fits m P → (∀ a, P a → Q a) → fits m Q.
Proof. intros Hm HPQ h a h' Hh Hr. destruct (Hm h a h' Hh Hr). split; [done|by apply HPQ]. Qed.

Lemma fits_forH {A} (f : A → H unit) l : (∀ x, fits (f x) (λ _, True)) → fits (forH f l) (λ _, True).
Proof.
  intros Hf. induction l as [|x l IH]; [by apply fits_ret|]. cbn [forH]. eapply fits_bind; [apply Hf|done].
Qed.

Lemma fits_mapH {A B} (f : A → H B) l : (∀ x, fits (f x) (λ _, True)) → fits (mapH f l) (λ _, True).
Proof.
  intros Hf. induction l as [|x l IH]; [by apply fits_ret|]. cbn [mapH]. eapply fits_bind; [apply Hf|]. intros y _.
  eapply fits_bind; [exact IH|]. intros ys _. by apply fits_ret.
Qed.

Lemma fits_node {B} (k : id → B) : fits (i ← h_fresh; mret (k i)) (λ _, True).
Proof. eapply fits_bind; [apply fits_fresh|]. intros i _. by apply fits_ret. Qed.

Lemma isU64_0 : isU64 0.
Proof. unfold isU64. lia. Qed.

Create HintDb fits.
#[export] Hint Resolve fits_node fits_panic fits_fresh : fits.
#[export] Hint Extern 1 (fits (mret _) _) => by apply fits_ret : fits.

Section Fits.

Context (target : Target) (Htable : tableFits target).

Local Notation tbl := (typeRefs target).

Lemma fits_special t dir index : fits (MakeSpecialPointerArg tbl t dir index) (λ _, True).
Proof.
  unfold MakeSpecialPointerArg. case_bool_decide; [auto with fits|].
  eapply (fits_bind _ _ (λ _, True)); [by apply fits_lift|]. intros typ _. apply fits_node.
Qed.

Lemma fits_resource ref c f d dir : typeOf tbl ref = Ret (ResourceType c f d) →
  fits (v ← h_lift (resourceDefault d); p ← MakeResultArg ref dir None v; mret (ResultArg p)) (λ _, True).
Proof using Htable.
  intros Ht. eapply (fits_bind _ _ isU64).
  { apply fits_lift. intros v Hv. unfold typeOf in Ht. case_bool_decide; [done|]. apply of_option_inv in Ht.
    apply (tf_types _ Htable) in Ht as (_ & _ & _ & _ & Hvals). unfold resourceDefault in Hv.
    destruct (rd_Values d); [done|]. injection Hv as ->. by apply Forall_cons in Hvals as [? _]. }
  intros v Hv. eapply (fits_bind _ _ (λ _, True)); [|auto with fits]. unfold MakeResultArg. eapply fits_bind; [apply fits_fresh|].
  intros i _. eapply fits_bind; [apply fits_set|auto with fits]. split; [done|]. split; apply isU64_0.
Qed.

Lemma fits_default fuel ref dir : fits (DefaultArg fuel tbl ref dir) (λ _, True).
Proof using Htable.
  revert ref dir. induction fuel as [|fuel IH]; intros ref dir; [done|]. cbn [DefaultArg].
  eapply (fits_bind _ _ (λ t, typeOf tbl ref = Ret t)); [by apply fits_lift|]. intros t Ht.
  destruct t; try apply fits_node; try apply fits_special.
  - by eapply fits_resource.
  - case_bool_decide.
    + eapply (fits_bind _ _ (λ _, True)); [by apply fits_lift|]. intros sz _. unfold MakeOutDataArg. case_bool_decide; auto with fits.
    + eapply (fits_bind _ _ (λ _, True)).
      * assert (Hz : fits (if Varlen (BufferType c Kind RangeBegin RangeEnd Text SubKind Values NoZ) then mret []
          else sz ← h_lift (typSize (BufferType c Kind RangeBegin RangeEnd Text SubKind Values NoZ)); mret (replicate (Z.to_nat sz) 0)) (λ _, True)).
        { destruct (Varlen _); [auto with fits|]. eapply (fits_bind _ _ (λ _, True)); [by apply fits_lift|auto with fits]. }
        destruct Values as [|v [|]]; auto with fits.
      * intros data _. unfold MakeDataArg. case_bool_decide; auto with fits.
  - eapply (fits_bind _ _ (λ _, True)); [|intros; apply fits_node].
    case_bool_decide; [by apply fits_mapH|auto with fits].
  - destruct (IsOptional c); [apply fits_special|]. eapply fits_bind; [apply IH|intros; apply fits_node].
  - eapply fits_bind; [by apply fits_mapH|intros; apply fits_node].
  - eapply (fits_bind _ _ (λ _, True)); [by apply fits_lift|]. intros f _. eapply fits_bind; [apply IH|intros; apply fits_node].
Qed.

Lemma fits_uses p f r : objFits r → fits (h_set p (withUses f r)) (λ _, True).
Proof. intros Hf. by apply fits_set. Qed.

Lemma fits_deleteUse q p : fits (deleteUse q p) (λ _, True).
Proof. unfold deleteUse. eapply fits_bind; [apply fits_get|]. intros r Hr. by apply fits_uses. Qed.

Lemma fits_replace p p1 : fits (replaceResultArg p p1) (λ _, True).
Proof.
  unfold replaceResultArg. eapply fits_bind; [apply fits_get|]. intros arg Ha.
  eapply (fits_bind _ _ (λ _, True)); [destruct (r_Res arg); [apply fits_deleteUse|auto with fits]|]. intros _ _.
  eapply fits_bind; [apply fits_get|]. intros arg' Ha'. eapply fits_bind; [apply fits_get|]. intros arg1 Ha1.
  eapply fits_bind; [by apply fits_uses|]. intros _ _. destruct (r_Res arg1); [|auto with fits].
  eapply fits_bind; [apply fits_get|]. intros obj Ho. by apply fits_uses.
Qed.

Lemma fits_removeVisit v : fits (removeVisit tbl v) (λ _, True).
Proof using Htable.
  unfold removeVisit. destruct (v_arg v); auto with fits. eapply fits_bind; [apply fits_get|]. intros a Ha.
  eapply (fits_bind _ _ (λ _, True)).
  { destruct (r_Res a); [|auto with fits]. eapply fits_bind; [apply fits_get|]. intros obj _.
    case_bool_decide; [apply fits_deleteUse|auto with fits]. }
  intros _ _. eapply fits_bind; [apply fits_get|]. intros a' _. apply fits_forH. intros u. unfold dropUse.
  eapply fits_bind; [apply fits_get|]. intros arg1 _. eapply fits_bind; [apply fits_default|]. intros arg2 _.
  destruct arg2; auto with fits. apply fits_replace.
Qed.

Lemma fits_removeArg arg : fits (removeArg tbl arg) (λ _, True).
Proof using Htable.
  intros h a h' Hh. unfold removeArg. revert Hh. generalize h at 1 3 as h1. intros h1 Hh.
  refine (fits_bind _ _ (λ _, True) _ _ _ h1 a h' Hh); [by apply fits_lift|].
  intros vs _. apply fits_forH, fits_removeVisit.
Qed.

Lemma fits_RemoveCall calls idx : fits (RemoveCall tbl calls idx) (λ _, True).
Proof using Htable.
  unfold RemoveCall. eapply (fits_bind _ _ (λ _, True)); [by apply fits_lift|]. intros c _.
  eapply fits_bind; [apply fits_forH, fits_removeArg|]. intros _ _.
  eapply (fits_bind _ _ (λ _, True)); [destruct (c_Ret c); [apply fits_removeArg|auto with fits]|]. auto with fits.
Qed.

End Fits.

Lemma fits_cloneResult p nm : fits (cloneResult p nm) (λ _, True).
Proof.
  unfold cloneResult. eapply fits_bind; [apply fits_get|]. intros a Ha. eapply fits_bind; [apply fits_fresh|]. intros i _.
  eapply (fits_bind _ _ (λ _, True)); [by apply fits_lift|]. intros r _. eapply fits_bind; [by apply fits_set|]. intros _ _.
  eapply (fits_bind _ _ (λ _, True)); [|auto with fits]. destruct r; [|auto with fits].
  eapply fits_bind; [apply fits_get|]. intros obj Ho. by apply fits_uses.
Qed.

(** The same of computations that also carry the map of clones. *)
Definition fitsC {A} (x : C A) : Prop := ∀ nm, fits (x nm) (λ _, True).

Lemma fitsC_ret {A} (a : A) : fitsC (mret a).
Proof. intros nm. by apply fits_ret. Qed.

Lemma fitsC_bind {A B} (x : C A) (k : A → C B) : fitsC x → (∀ a, fitsC (k a)) → fitsC (x ≫= k).
Proof. intros Hx Hk nm. eapply fits_bind; [apply Hx|]. intros [a nm'] _. apply Hk. Qed.

Lemma fitsC_common a : fitsC (cloneCommon a).
Proof.
  apply fitsC_bind; [|intros; apply fitsC_ret]. intros nm. unfold c_lift. eapply fits_bind; [apply fits_fresh|]. auto with fits.
Qed.

Lemma fitsC_mapC {A B} (f : A → C B) l : Forall (λ x, fitsC (f x)) l → fitsC (mapC f l).
Proof.
  induction 1 as [|x l Hx _ IH]; [apply fitsC_ret|]. cbn [mapC]. apply fitsC_bind; [done|]. intros y.
  apply fitsC_bind; [exact IH|]. intros ys. apply fitsC_ret.
Qed.

Lemma fitsC_clone arg : fitsC (clone arg).
Proof.
  induction arg using Arg_tree_ind; cbn [clone];
    try (apply fitsC_bind; [apply fitsC_common|intros; apply fitsC_ret]).
  - apply fitsC_bind; [apply fitsC_common|]. intros b. apply fitsC_bind; [done|]. intros. apply fitsC_ret.
  - apply fitsC_bind; [apply fitsC_common|]. intros b. apply fitsC_bind; [by apply fitsC_mapC|]. intros. apply fitsC_ret.
  - apply fitsC_bind; [apply fitsC_common|]. intros b. apply fitsC_bind; [done|]. intros. apply fitsC_ret.
  - apply fitsC_bind; [intros nm; apply fits_cloneResult|]. intros. apply fitsC_ret.
Qed.

Lemma fits_Clone calls : fits (Clone calls) (λ _, True).
Proof.
  unfold Clone. eapply fits_bind; [|auto with fits]. apply fitsC_mapC, Forall_true. intros c. unfold cloneCall.
  apply fitsC_bind.
  - destruct (c_Ret c); [|apply fitsC_ret]. apply fitsC_bind; [intros nm; apply fits_cloneResult|intros; apply fitsC_ret].
  - intros ret. apply fitsC_bind; [apply fitsC_mapC, Forall_true, fitsC_clone|]. intros. apply fitsC_ret.
Qed.

(** ** Well-formed arguments *)

(** The nodes that are not results. *)
Fixpoint othersOf (arg : Arg) : list id :=
  match arg with
  | ResultArg _ => []
  | ConstArg a _ | DataArg a _ _ | PointerArg a _ _ None => [a_id a]
  | PointerArg a _ _ (Some x) => a_id a :: othersOf x
  | GroupArg a inner => a_id a :: concat (othersOf <$> inner)
  | UnionArg a opt _ => a_id a :: othersOf opt
  end.

(** The part of [wfArg] that is not about the heap. *)
Definition valFits (arg : Arg) : Prop :=
  match arg with
  | ConstArg _ val => isU64 val
  | DataArg a data size => Z.of_nat (length data) < 2 ^ 63 ∧ isU64 size ∧ (data = [] → a_dir a ≠ DirOut → size = 0)
  | _ => True
  end.

Lemma othersOf_children arg : notResult arg → othersOf arg = argId arg :: concat (othersOf <$> childrenOf arg).
Proof. destruct arg as [| ? ? ? [?|] | | | |]; try done; intros _; cbn; by rewrite app_nil_r. Qed.

Lemma nodes_perm arg : nodesOf arg ≡ₚ othersOf arg ++ resultsOf arg.
Proof.
  induction arg as [p|arg Hn IH] using tree_ind; [done|].
  rewrite nodesOf_children, othersOf_children, resultsOf_children by done. cbn [app]. f_equiv.
  induction IH as [|x l Hx _ IHl]; [done|]. cbn [fmap list_fmap concat]. rewrite Hx, IHl. solve_Permutation.
Qed.

(** [wfArg] node by node. *)
Lemma wfArg_node h arg : notResult arg →
  wfArg h arg ↔ h_results h !! argId arg = None ∧ valFits arg ∧ Forall (wfArg h) (childrenOf arg).
Proof.
  intros Hn. destruct arg as [| ? ? ? [?|] | |a inner| |]; try done; cbn [wfArg argId valFits childrenOf];
    rewrite ?Forall_singleton, ?Forall_nil; try tauto.
  split.
  - intros [Hid Hg]. split; [done|]. split; [done|]. by apply (wfArg_group h a inner).
  - intros (Hid & _ & Hf). split; [done|]. clear Hn. induction Hf; by split.
Qed.

Lemma wfArg_others h arg n : wfArg h arg → n ∈ othersOf arg → h_results h !! n = None.
Proof.
  induction arg as [p|arg Hn IH] using tree_ind; [by intros _ ?%elem_of_nil|]. rewrite wfArg_node, othersOf_children by done.
  intros (Hid & _ & Hw) [->|Hin]%elem_of_cons; [done|]. induction IH as [|x l Hx _ IHl]; [by apply elem_of_nil in Hin|].
  apply Forall_cons in Hw as [Hwx Hw]. cbn [fmap list_fmap concat] in Hin. apply elem_of_app in Hin as [Hin|Hin]; [by apply Hx|by apply IHl].
Qed.

(** An argument stays well-formed when its nodes do not become results. *)
Lemma wfArg_stable h h' arg : wfArg h arg → (∀ n, n ∈ othersOf arg → h_results h' !! n = None) → wfArg h' arg.
Proof.
  induction arg as [p|arg Hn IH] using tree_ind; [done|]. rewrite !wfArg_node, othersOf_children by done.
  intros (_ & Hv & Hw) Hn'. split; [apply Hn'; by left|]. split; [done|].
  assert (Hc : ∀ n, n ∈ concat (othersOf <$> childrenOf arg) → h_results h' !! n = None) by (intros n Hin; apply Hn'; by right).
  clear Hn' Hv. induction IH as [|x l Hx _ IHl]; constructor; apply Forall_cons in Hw as [Hwx Hw]; cbn [fmap list_fmap concat] in Hc.
  - apply Hx; [done|]. intros n Hin. apply Hc, elem_of_app. by left.
  - apply IHl; [done|]. intros n Hin. apply Hc, elem_of_app. by right.
Qed.

(** A copy has the same values. *)
Lemma wfArg_copy m h h' arg arg1 : copyArg m arg arg1 → wfArg h arg → (∀ n, n ∈ othersOf arg1 → h_results h' !! n = None) →
  wfArg h' arg1.
Proof.
  revert arg1. induction arg as [a v|a ad vm|a ad vm x IH|a d s|a inner IH|a opt index IH|p] using Arg_tree_ind;
    intros [b val1|b ad1 vm1 [y|]|b d1 s1|b inner1|b o1 i1|p1]; try done.
  - intros [_ Hv] [_ Hu] Hn. cbn [sameValue] in Hv. subst val1. split; [apply Hn; by left|done].
  - intros _ _ Hn. split; [apply Hn; by left|done].
  - intros (_ & _ & _ & Hc) [_ Hw] Hn. split; [apply Hn; by left|]. apply IH; [done|done|]. intros n Hin. apply Hn. by right.
  - intros ([_ Hd] & -> & ->) (_ & Hl & Hs & He) Hn. split; [apply Hn; by left|]. split; [done|]. split; [done|]. by rewrite Hd.
  - intros [_ Hf]%copyArg_group Hw%wfArg_group Hn. apply wfArg_node; [done|]. split; [apply Hn; by left|]. split; [done|].
    cbn [childrenOf]. assert (Hc : ∀ n, n ∈ concat (othersOf <$> inner1) → h_results h' !! n = None) by (intros n Hin; apply Hn; by right).
    clear Hn. revert inner1 Hf Hc. induction IH as [|x l Hx _ IHl]; intros inner1 Hf Hc; inversion Hf; subst; constructor;
      apply Forall_cons in Hw as [Hwx Hw]; cbn [fmap list_fmap concat] in Hc.
    + apply Hx; [done|done|]. intros n Hin. apply Hc, elem_of_app. by left.
    + apply IHl; [done|done|]. intros n Hin. apply Hc, elem_of_app. by right.
  - intros (_ & Hc & _) [_ Hw] Hn. split; [apply Hn; by left|]. apply IH; [done|done|]. intros n Hin. apply Hn. by right.
Qed.

Definition callOthers (c : Call) : list id := concat (othersOf <$> c_Args c).

Lemma elem_concat_fmap {A B} (f : A → list B) l x : x ∈ concat (f <$> l) ↔ ∃ y, y ∈ l ∧ x ∈ f y.
Proof.
  rewrite list_elem_of_In, in_concat. setoid_rewrite <- list_elem_of_In. split.
  - intros (ys & (y & -> & Hy)%list_elem_of_fmap & Hx). eauto.
  - intros (y & Hy & Hx). exists (f y). split; [by apply list_elem_of_fmap_2|done].
Qed.

(** The nodes of a program are its results and the other nodes. *)
Lemma concat_split {A B} (f g k : A → list B) l : Forall (λ x, f x ≡ₚ g x ++ k x) l →
  concat (f <$> l) ≡ₚ concat (g <$> l) ++ concat (k <$> l).
Proof. induction 1 as [|x l Hx _ IH]; [done|]. cbn [fmap list_fmap concat]. rewrite Hx, IH. solve_Permutation. Qed.

Lemma validNodes_split c : validNodes c ≡ₚ callOthers c ++ callResults c.
Proof.
  unfold validNodes, callOthers, callResults, retList. rewrite (concat_split nodesOf othersOf resultsOf) by apply Forall_true, nodes_perm.
  by rewrite app_assoc.
Qed.

Lemma progNodes_split calls : concat (validNodes <$> calls) ≡ₚ concat (callOthers <$> calls) ++ progResults calls.
Proof. apply concat_split, Forall_true, validNodes_split. Qed.

Lemma wfCall_stable target h h' c : wfCall target h c → (∀ n, n ∈ callOthers c → h_results h !! n = None → h_results h' !! n = None) →
  wfCall target h' c.
Proof.
  intros [Ha Hm Hi Hc Ht Hf Hr] Hn. constructor; try done. rewrite Forall_forall in Ha |- *. intros arg Hin. specialize (Ha arg Hin).
  eapply wfArg_stable; [done|]. intros n Hno. apply Hn; [|by eapply wfArg_others]. apply elem_concat_fmap. eauto.
Qed.

Lemma wfCall_copy target m h h' c c1 : copyCall m c c1 → wfCall target h c → (∀ n, n ∈ callOthers c1 → h_results h' !! n = None) →
  wfCall target h' c1.
Proof.
  intros (Hmeta & Hprops & Hargs & _) [Ha Hm Hi Hc Ht Hf Hr] Hn. constructor; rewrite ?Hmeta, ?Hprops; try done.
  unfold callOthers in Hn. clear -Ha Hargs Hn. induction Hargs as [|arg arg1 l l1 Hc _ IH]; constructor; apply Forall_cons in Ha as [Ha Hl];
    cbn [fmap list_fmap concat] in Hn.
  - eapply wfArg_copy; [done..|]. intros n Hin. apply Hn, elem_of_app. by left.
  - apply IH; [done|]. intros n Hin. apply Hn, elem_of_app. by right.
Qed.

(** A copy has the copies of the results. *)
Lemma copyArg_results m arg arg1 : copyArg m arg arg1 → Forall2 (λ p p1, m !! p = Some p1) (resultsOf arg) (resultsOf arg1).
Proof.
  revert arg1. induction arg as [a v|a ad vm|a ad vm x IH|a d s|a inner IH|a opt index IH|p] using Arg_tree_ind;
    intros [b val1|b ad1 vm1 [y|]|b d1 s1|b inner1|b o1 i1|p1]; try done; cbn [resultsOf].
  - intros (_ & _ & _ & Hc). by apply IH.
  - intros [_ Hf]%copyArg_group. revert inner1 Hf. induction IH as [|x l Hx _ IHl]; intros inner1 Hf; inversion Hf; subst; [constructor|].
    cbn [fmap list_fmap concat]. apply Forall2_app; [by apply Hx|by apply IHl].
  - intros (_ & Hc & _). by apply IH.
  - intros Hm. by constructor.
Qed.

Lemma Forall2_concat_fmap {A B} (R : A → A → Prop) (P : B → B → Prop) (f : A → list B) l l1 :
  (∀ x y, R x y → Forall2 P (f x) (f y)) → Forall2 R l l1 → Forall2 P (concat (f <$> l)) (concat (f <$> l1)).
Proof. intros Hf. induction 1; [constructor|]. cbn [fmap list_fmap concat]. apply Forall2_app; [by apply Hf|done]. Qed.

Lemma copyCall_results m c c1 : copyCall m c c1 → Forall2 (λ p p1, m !! p = Some p1) (callResults c) (callResults c1).
Proof.
  intros (_ & _ & Hargs & Hret). apply Forall2_app.
  - eapply Forall2_concat_fmap; [|exact Hargs]. apply copyArg_results.
  - destruct (c_Ret c), (c_Ret c1); try done; by repeat constructor.
Qed.

Lemma copies_results m calls calls1 : Forall2 (copyCall m) calls calls1 →
  Forall2 (λ p p1, m !! p = Some p1) (progResults calls) (progResults calls1).
Proof. apply Forall2_concat_fmap, copyCall_results. Qed.

(** ** The operations keep the invariant *)

Lemma remaining_calls (calls : list Call) idx c : calls !! idx = Some c →
  ∀ c', c' ∈ take idx calls ++ drop (S idx) calls → c' ∈ calls.
Proof.
  intros Hc c' Hin. rewrite <- (take_drop_middle calls idx c Hc). rewrite elem_of_app, elem_of_cons.
  apply elem_of_app in Hin as [?|?]; [by left|right; by right].
Qed.

Lemma remaining_results (calls : list Call) idx c p : NoDup (progResults calls) → calls !! idx = Some c →
  p ∈ progResults (take idx calls ++ drop (S idx) calls) → p ∈ progResults calls ∧ p ∉ callResults c.
Proof.
  intros Hnd Hc Hp. split.
  - apply elem_concat_fmap in Hp as (c' & Hc' & Hp). apply elem_concat_fmap. exists c'. split; [by eapply remaining_calls|done].
  - rewrite <- (take_drop_middle calls idx c Hc) in Hnd. eapply disjoint_results; [exact Hnd|].
    unfold progResults in *. rewrite fmap_app, concat_app in Hp. by apply elem_of_app in Hp.
Qed.

Lemma RemoveCall_keeps target h calls idx c : progOK target h calls → calls !! idx = Some c →
  ∃ h', RemoveCall (typeRefs target) calls idx h = Ret (take idx calls ++ drop (S idx) calls, h') ∧
    progOK target h' (take idx calls ++ drop (S idx) calls) ∧
    removed (typeRefs target) (list_to_set (progResults calls)) (list_to_set (callResults c)) h h'.
Proof.
  intros [Ht Hh Hok Hw Hn Hv Hs] Hc. destruct (RemoveCall_revalidates target h calls idx c) as (h' & Hrun & Hv' & Hrem); [done..|].
  exists h'. split; [done|]. split; [|done]. destruct (valid_links target h Ht Hh calls Hw Hv) as (Hl & _ & Hnd).
  pose proof (remaining_calls calls idx c Hc) as Hin. destruct Hrem as [Hok' Hnext Hrefs _ Hrest]. rewrite Forall_forall in Hw.
  assert (Hnodes : ∀ c' n, c' ∈ take idx calls ++ drop (S idx) calls → n ∈ validNodes c' → (n < h_next h)%nat).
  { intros c' n Hc' Hn'. apply Hn, elem_concat_fmap. exists c'. split; [by apply Hin|done]. }
  split; [done|by eapply (fits_RemoveCall target Ht)|done| | |done|].
  - apply Forall_forall. intros c' Hc'. eapply wfCall_stable; [by apply Hw, Hin|]. intros n Hno Hnone.
    assert (Hlt : (n < h_next h)%nat) by (apply (Hnodes c' n Hc'); rewrite validNodes_split; apply elem_of_app; by left).
    specialize (Hrefs n Hlt). rewrite Hnone in Hrefs. by destruct (h_results h' !! n).
  - intros n (c' & Hc' & Hn')%elem_concat_fmap. specialize (Hnodes c' n Hc' Hn'). lia.
  - intros p r' [HpL Hpc]%(remaining_results calls idx c p Hnd Hc) Hr'.
    destruct (Hl p ltac:(by apply elem_of_list_to_set)) as (r & Hr & _).
    rewrite (Hrest p r) in Hr'; [|by apply elem_of_list_to_set|by rewrite elem_of_list_to_set|done].
    injection Hr' as <-. intros [Hself _]%detach_res. by apply (Hs p r).
Qed.

(** The other nodes of a copy are not results. *)
Lemma copies_others h h' m calls calls1 n : copying h (list_to_set (progResults calls)) m h' →
  Forall2 (copyCall m) calls calls1 → newNodes h h' (concat (callNodes <$> calls1)) →
  n ∈ concat (callOthers <$> calls1) → h_results h' !! n = None.
Proof.
  intros Hc Hcopies (_ & Hnew & Hnd) Hn. rewrite progNodes_perm, progNodes_split in Hnew, Hnd.
  apply NoDup_app in Hnd as (_ & Hdisj & _). apply eq_None_not_Some. intros Hs. destruct (cp_dom _ _ _ _ Hc n Hs) as [Hlt|[p Hp]].
  - apply Forall_app in Hnew as [Hnew _]. rewrite Forall_forall in Hnew. specialize (Hnew n Hn). simpl in Hnew. lia.
  - apply (Hdisj n Hn). destruct (cp_new _ _ _ _ Hc p n Hp) as (HpL & _). apply elem_of_list_to_set, list_elem_of_lookup in HpL as [i Hi].
    destruct (Forall2_lookup_l _ _ _ i p (copies_results m calls calls1 Hcopies) Hi) as (p1 & Hi1 & Hp1).
    apply list_elem_of_lookup. exists i. congruence.
Qed.

Lemma Clone_keeps target h calls : progOK target h calls →
  ∃ m h' calls1, Clone calls h = Ret (calls1, h') ∧ progOK target h' calls1 ∧
    copying h (list_to_set (progResults calls)) m h' ∧ dom m = list_to_set (progResults calls) ∧
    Forall2 (copyCall m) calls calls1 ∧ newNodes h h' (concat (callNodes <$> calls1)).
Proof.
  intros [Ht Hh Hok Hw Hn Hv Hs]. destruct (Clone_revalidates target h calls) as (m & h' & calls1 & Hrun & Hv' & Hc & Hdom & Hcopies & Hnew); [done..|].
  exists m, h', calls1. split; [done|]. split; [|done].
  split; [done|by eapply (fits_Clone calls)|apply (cp_heap _ _ _ _ Hc)| | |done|].
  - assert (Ho : ∀ n, n ∈ concat (callOthers <$> calls1) → h_results h' !! n = None) by (intros n; by eapply copies_others).
    clear -Hw Hcopies Ho. induction Hcopies as [|c c1 l l1 Hc _ IH]; constructor; apply Forall_cons in Hw as [Hwc Hw];
      cbn [fmap list_fmap concat] in Ho.
    + eapply wfCall_copy; [done..|]. intros n Hin. apply Ho, elem_of_app. by left.
    + apply IH; [done|]. intros n Hin. apply Ho, elem_of_app. by right.
  - intros n. destruct Hnew as (_ & Hf & _). rewrite progNodes_perm, Forall_forall in Hf. intros Hin. specialize (Hf n Hin). simpl in Hf. lia.
  - intros p1 r1 [i Hi]%list_elem_of_lookup Hr1.
    destruct (Forall2_lookup_r _ _ _ i p1 (copies_results m calls calls1 Hcopies) Hi) as (p & Hp & Hm).
    destruct (cp_new _ _ _ _ Hc p p1 Hm) as (HpL & _ & r & Hr & Hr1' & _). rewrite Hr1' in Hr1. injection Hr1 as <-.
    cbn [copyOf r_Res]. intros (q & Hq & Hmq)%bind_Some. assert (q = p) as -> by by eapply (cp_inj _ _ _ _ Hc).
    apply elem_of_list_to_set in HpL. by apply (Hs p r).
Qed.

(** A program is as it was when its part of the heap is. *)
Lemma unchanged_keeps target h h' calls : progOK target h calls → wfHeap h' → heapOK h' → (h_next h ≤ h_next h')%nat →
  (∀ p, (p < h_next h)%nat → h_results h' !! p = h_results h !! p) → progOK target h' calls.
Proof.
  intros [Ht Hh Hok Hw Hn Hv Hs] Hh' Hok' Hnext Hsame. destruct (valid_links target h Ht Hh calls Hw Hv) as (Hl & _ & _).
  destruct (valid_trace target h Ht Hh calls Hw Hv) as (ctx & Hall & Htr & Huses).
  assert (Hlt : ∀ p, p ∈ progResults calls → (p < h_next h)%nat).
  { intros p Hp. apply Hn. rewrite progNodes_split. apply elem_of_app. by right. }
  set (L := list_to_set (progResults calls) : gset id).
  assert (Hsim : ∀ p p1, idMap (L ∖ ∅) !! p = Some p1 → ∃ r r1, h_results h !! p = Some r ∧ h_results h' !! p1 = Some r1 ∧
    simObj target (idMap (L ∖ ∅)) r r1).
  { intros p p1 [[Hp _]%elem_of_difference ->]%idMap_lookup. destruct (Hl p Hp) as (r & Hr & _). exists r, r. split; [done|].
    split; [rewrite Hsame; [done|apply Hlt; by apply elem_of_list_to_set in Hp]|]. rewrite <- (detach_empty (typeRefs target) r) at 2.
    by eapply detach_sim. }
  assert (Hcopy : Forall2 (copyCall (idMap (L ∖ ∅))) calls calls).
  { apply Forall_Forall2_diag, Forall_forall. intros c Hc. apply copyCall_refl. intros p Hp. apply elem_of_difference. split; [|set_solver].
    apply elem_of_list_to_set, elem_concat_fmap. eauto. }
  destruct (sim_calls target h h' _ Ht Hsim sameValue (same_size target h h' _) (same_method target h h' _) calls calls Hcopy Hw
    _ _ _ Hall (simCtx_start _) (tr_nodup _ _ _ _ _ _ Htr)) as (d & Hd & Hsd & _); [set_solver|].
  split; [done|done|done| | |by eapply (sim_valid target h h' _ Ht Hsim)|].
  - rewrite Forall_forall in Hw |- *. intros c Hc. eapply wfCall_stable; [by apply Hw|]. intros n Ho Hnone. rewrite Hsame; [done|].
    apply Hn, elem_concat_fmap. exists c. split; [done|]. rewrite validNodes_split. apply elem_of_app. by left.
  - intros n Hin. specialize (Hn n Hin). lia.
  - intros p r Hp Hr. rewrite Hsame in Hr by by apply Hlt. by apply (Hs p).
Qed.

(** ** Programs made from programs *)

(** A step of the code that edits a program: it goes on with a clone, or removes a call. *)
Inductive edit (target : Target) : list Call * Heap → list Call * Heap → Prop :=
  | edit_clone calls h calls' h' : Clone calls h = Ret (calls', h') → edit target (calls, h) (calls', h')
  | edit_remove calls h idx calls' h' : RemoveCall (typeRefs target) calls idx h = Ret (calls', h') →
      edit target (calls, h) (calls', h').

(** What a sequence of steps leaves alone: the results that are not of the program. *)
Record apart (s s' : list Call * Heap) : Prop := {
  ap_next : (h_next s.2 ≤ h_next s'.2)%nat;
  ap_same p : (p < h_next s.2)%nat → p ∉ progResults s.1 → h_results s'.2 !! p = h_results s.2 !! p;
  ap_new p : (p < h_next s.2)%nat → p ∉ progResults s.1 → p ∉ progResults s'.1;
}.

#[local] Instance apart_preorder : PreOrder apart.
Proof.
  split.
  - intros s. by split.
  - intros s s1 s2 [Hn1 Hs1 Hw1] [Hn2 Hs2 Hw2]. split; [lia| |].
    + intros p Hp Hnot. rewrite Hs2; [by apply Hs1|lia|by apply Hw1].
    + intros p Hp Hnot. apply Hw2; [lia|by apply Hw1].
Qed.

Lemma RemoveCall_index tbl calls idx h r : RemoveCall tbl calls idx h = Ret r → ∃ c, calls !! idx = Some c.
Proof. unfold RemoveCall. destruct (calls !! idx) as [c|]; [by eexists|done]. Qed.

Lemma copies_new h h' m calls calls1 p : copying h (list_to_set (progResults calls)) m h' → Forall2 (copyCall m) calls calls1 →
  p ∈ progResults calls1 → (h_next h ≤ p)%nat.
Proof.
  intros Hc Hcopies [i Hi]%list_elem_of_lookup. destruct (Forall2_lookup_r _ _ _ i p (copies_results m calls calls1 Hcopies) Hi) as (q & _ & Hm).
  destruct (cp_new _ _ _ _ Hc q p Hm) as (_ & Hp & _). lia.
Qed.

Lemma edit_keeps target s s' : edit target s s' → progOK target s.2 s.1 → progOK target s'.2 s'.1 ∧ apart s s'.
Proof.
  intros [calls h calls' h' Hrun|calls h idx calls' h' Hrun] Hok; cbn [fst snd] in *.
  - destruct (Clone_keeps target h calls Hok) as (m & h1 & calls1 & Hrun1 & Hok1 & Hc & _ & Hcopies & _).
    rewrite Hrun in Hrun1. injection Hrun1 as <- <-. split; [done|]. split; cbn [fst snd].
    + apply (cp_next _ _ _ _ Hc).
    + intros p Hp _. by apply (cp_old _ _ _ _ Hc).
    + intros p Hp _ Hin. pose proof (copies_new _ _ _ _ _ p Hc Hcopies Hin). lia.
  - destruct (RemoveCall_index _ _ _ _ _ Hrun) as [c Hc]. destruct (RemoveCall_keeps target h calls idx c Hok Hc) as (h1 & Hrun1 & Hok1 & Hrem).
    rewrite Hrun in Hrun1. injection Hrun1 as -> <-. split; [done|]. split; cbn [fst snd].
    + apply (removed_next _ _ _ _ _ Hrem).
    + intros p Hp Hnot. apply (removed_out _ _ _ _ _ Hrem); [done|by rewrite elem_of_list_to_set].
    + intros p Hp Hnot (c' & Hc' & Hin)%elem_concat_fmap. apply Hnot, elem_concat_fmap. exists c'. split; [by eapply remaining_calls|done].
Qed.

Lemma edits_keep target s s' : rtc (edit target) s s' → progOK target s.2 s.1 → progOK target s'.2 s'.1 ∧ apart s s'.
Proof.
  induction 1 as [s|s s1 s2 He _ IH]; intros Hok; [by split|]. destruct (edit_keeps target s s1 He Hok) as [Hok1 Hap].
  destruct (IH Hok1) as [Hok2 Hap2]. split; [done|by etrans].
Qed.

(** ** Examples *)

Lemma example_progOK : progOK exampleTarget exampleHeap exampleCalls.
Proof.
  split; [exact example_fits|exact example_heap| |exact example_calls| | |].
  - intros p [r Hr]. unfold exampleHeap in *. cbn [h_results h_next] in *. rewrite !lookup_insert_Some in Hr.
    destruct Hr as [[<- _]|[_ [[<- _]|[_ Hp]]]]; [lia|lia|by rewrite lookup_empty in Hp].
  - intros n Hn. cut (forallb (λ n, bool_decide (n < h_next exampleHeap)%nat) (concat (validNodes <$> exampleCalls)) = true).
    { rewrite forallb_forall. intros Hall. apply list_elem_of_In in Hn. specialize (Hall n Hn). by apply bool_decide_eq_true in Hall. }
    vm_compute. reflexivity.
  - vm_compute. reflexivity.
  - intros p r Hp Hr. unfold exampleHeap in Hr. cbn [h_results] in Hr. rewrite !lookup_insert_Some in Hr.
    destruct Hr as [[<- <-]|[_ [[<- <-]|[_ Hr]]]]; [done|done|by rewrite lookup_empty in Hr].
Qed.

(** A program in which a result refers to itself. *)
Definition selfHeap : Heap :=
  mkHeap 20 (<[11%nat := mkResult 1 DirOut (Some 11%nat) 0 0 0 {[ 11%nat ]}]>
            (<[12%nat := mkResult 1 DirIn None 0 0 0 ∅]> ∅)).

Definition selfCalls : list Call :=
  [ mkCall examplePair
      [PointerArg (mkAC 13 7 DirIn) 128 0 (Some (GroupArg (mkAC 14 6 DirInOut) [ResultArg 11; ResultArg 12]))]
      None (mkProps 0 false 0) ].

(** ** Properties *)

(** C8: removal of a call of a program that satisfies the invariant never panics,
    takes out that call and no other, and gives a program that satisfies the
    invariant, so passes validation: each result that referred to one of the
    removed call is now the default value of its resource, and the uses of every
    other result lose exactly those of the removed call. *)
Theorem RemoveCall_valid (target : Target) (h : Heap) (calls : list Call) (idx : nat) :
  progOK target h calls → (idx < length calls)%nat →
  ∃ c h', calls !! idx = Some c ∧
    RemoveCall (typeRefs target) calls idx h = Ret (take idx calls ++ drop (S idx) calls, h') ∧
    progOK target h' (take idx calls ++ drop (S idx) calls) ∧
    ∀ p r, p ∈ progResults calls → p ∉ callResults c → h_results h !! p = Some r →
      h_results h' !! p = Some (detach (typeRefs target) (list_to_set (callResults c)) r).
Proof.
  intros Hok [c Hc]%lookup_lt_is_Some. destruct (RemoveCall_keeps target h calls idx c Hok Hc) as (h' & Hrun & Hok' & Hrem).
  exists c, h'. split; [done|]. split; [done|]. split; [done|]. intros p r Hp Hn Hr.
  apply (removed_rest _ _ _ _ _ Hrem); [by apply elem_of_list_to_set|by rewrite elem_of_list_to_set|done].
Qed.

Lemma RemoveCall_valid_witness :
  ∃ h' : Heap, RemoveCall (typeRefs exampleTarget) exampleCalls 0 exampleHeap = Ret (drop 1 exampleCalls, h') ∧
    progOK exampleTarget h' (drop 1 exampleCalls) ∧
    h_results h' !! 2%nat = Some (mkResult 1 DirIn None 0 0 0xffffffffffffffff ∅).
Proof.
  destruct (RemoveCall_valid exampleTarget exampleHeap exampleCalls 0 example_progOK) as (c & h' & Hc & Hrun & Hok & Hrest).
  - simpl. lia.
  - exists h'. split; [exact Hrun|]. split; [exact Hok|]. injection Hc as <-.
    rewrite (Hrest 2%nat (mkResult 1 DirIn (Some 1%nat) 0 0 0 ∅)); [vm_compute; reflexivity| | |reflexivity].
    + cbn. set_solver.
    + cbn. set_solver.
Defined.

(** C4: [Clone] of a program that satisfies the invariant never panics and gives a
    program that satisfies it too: every call is copied with its properties, its
    arguments and their values, every node of the copy is new and occurs once,
    each result is copied to one of its own whose reference and uses are the
    copies of the original's, and every result of the original is as it was. *)
Theorem Clone_valid (target : Target) (h : Heap) (calls : list Call) :
  progOK target h calls →
  ∃ m h' calls1, Clone calls h = Ret (calls1, h') ∧ progOK target h' calls1 ∧
    Forall2 (copyCall m) calls calls1 ∧ newNodes h h' (concat (callNodes <$> calls1)) ∧
    (∀ p, (p < h_next h)%nat → h_results h' !! p = h_results h !! p) ∧
    (∀ p r, p ∈ progResults calls → h_results h !! p = Some r →
       ∃ p1, m !! p = Some p1 ∧ h_results h' !! p1 = Some (copyOf m r)).
Proof.
  intros Hok. destruct (Clone_keeps target h calls Hok) as (m & h' & calls1 & Hrun & Hok1 & Hc & Hdom & Hcopies & Hnew).
  exists m, h', calls1. split; [done|]. split; [done|]. split; [done|]. split; [done|].
  split; [intros p Hp; by apply (cp_old _ _ _ _ Hc)|]. intros p r Hp Hr.
  assert (Hd : p ∈ dom m) by (rewrite Hdom; by apply elem_of_list_to_set). apply elem_of_dom in Hd as [p1 Hp1].
  exists p1. split; [done|]. destruct (cp_new _ _ _ _ Hc p p1 Hp1) as (_ & _ & r' & Hr' & Hr1 & _). congruence.
Qed.

Lemma Clone_valid_witness :
  ∃ (h' : Heap) (calls1 : list Call), Clone exampleCalls exampleHeap = Ret (calls1, h') ∧ progOK exampleTarget h' calls1.
Proof.
  destruct (Clone_valid exampleTarget exampleHeap exampleCalls example_progOK) as (m & h' & calls1 & Hrun & Hok & _).
  exists h', calls1. split; [exact Hrun|exact Hok].
Defined.

(** C14: what is done with a clone never reaches the original: after any sequence
    of removals and further clones the program at hand satisfies the invariant,
    every result of the original has the value, reference and uses it had, and the
    original still satisfies the invariant. *)
Theorem edits_leave_original (target : Target) (h h1 h2 : Heap) (calls calls1 calls2 : list Call) :
  progOK target h calls → Clone calls h = Ret (calls1, h1) → rtc (edit target) (calls1, h1) (calls2, h2) →
  progOK target h2 calls2 ∧ progOK target h2 calls ∧
  ∀ p, (p < h_next h)%nat → h_results h2 !! p = h_results h !! p.
Proof.
  intros Hok Hrun Hsteps. destruct (Clone_keeps target h calls Hok) as (m & h' & calls' & Hrun1 & Hok1 & Hc & _ & Hcopies & _).
  rewrite Hrun in Hrun1. injection Hrun1 as <- <-. destruct (edits_keep target _ _ Hsteps Hok1) as [Hok2 [Hnext Hsame _]].
  cbn [fst snd] in *. split; [done|]. pose proof (cp_next _ _ _ _ Hc) as Hn.
  assert (Hall : ∀ p, (p < h_next h)%nat → h_results h2 !! p = h_results h !! p).
  { intros p Hp. rewrite Hsame; [by apply (cp_old _ _ _ _ Hc)|lia|]. intros Hin. pose proof (copies_new _ _ _ _ _ p Hc Hcopies Hin). lia. }
  split; [|done]. destruct Hok2. eapply unchanged_keeps; [done..|lia|done].
Qed.

Lemma edits_leave_original_witness :
  ∃ h1 calls1 h2 calls2, Clone exampleCalls exampleHeap = Ret (calls1, h1) ∧
    RemoveCall (typeRefs exampleTarget) calls1 0 h1 = Ret (calls2, h2) ∧
    progOK exampleTarget h2 calls2 ∧ progOK exampleTarget h2 exampleCalls.
Proof.
  destruct (Clone_keeps exampleTarget exampleHeap exampleCalls example_progOK) as (m & h1 & calls1 & Hrun & Hok & _ & _ & Hcopies & _).
  destruct (RemoveCall (typeRefs exampleTarget) calls1 0 h1) as [[calls2 h2]| |] eqn:Hrem.
  - exists h1, calls1, h2, calls2. split; [exact Hrun|]. split; [exact Hrem|].
    destruct (edits_leave_original exampleTarget exampleHeap h1 h2 exampleCalls calls1 calls2 example_progOK Hrun) as (Hok2 & Hok0 & _).
    + eapply rtc_once, edit_remove. exact Hrem.
    + split; [exact Hok2|exact Hok0].
  - inversion Hcopies; subst. destruct (RemoveCall_keeps exampleTarget h1 _ 0 _ Hok eq_refl) as (h' & Hr & _). congruence.
  - inversion Hcopies; subst. destruct (RemoveCall_keeps exampleTarget h1 _ 0 _ Hok eq_refl) as (h' & Hr & _). congruence.
Defined.

