(* ===== verification/BpfCallGen.v ===== *)
(** * Generation of helper calls

    The recursive generator of [prog/brf_legacy.go]: a call of a helper gets its
    arguments one by one, from the return value of another call, from the context
    or directly, and what it needs (maps, structs, variables) is added to the
    program.  A computation threads the global state of the package, which is the
    table of register types ([BpfRegTypes]) and the recursion depth [rd], and the
    program under construction.  Pointers to maps and calls are indices. *)

From stdpp Require Import base numbers strings pretty gmap list.
From S2P Require Import Prelude BpfTypes BpfHelperTable BpfProgTable BpfCtxTable BpfInit BpfRegTypes BpfMaps BpfNewMap.
From S2P Require Import StructOpsModel StructOpsGen Rand.

Local Open Scope string_scope.
Local Open Scope list_scope.
Local Open Scope Z_scope.

(** ** Data *)

Record BpfArg := mkArg {
  a_Name : string;
  a_ArgType : string;
  a_Prepare : string;
  a_CanBeNull : bool;
  a_IsNotNull : bool;
  a_Umin : Z;
  a_Umax : Z;
  a_IsPktAccess : bool;
  a_IsPktMetaAccess : bool;
  a_AccessSize : Z;
}.

(** An argument that has not been generated is nil. *)
Inductive BpfCall := mkBpfCall {
  c_Helper : BpfHelper;
  c_Args : list (option BpfArg);
  c_ArgMap : option nat;
  c_Ret : string;
  c_RetType : string;
  c_StackVarSize : Z;
  c_Hint : BpfCallGenHint;
  c_PostCalls : list BpfCall;
}.

(** [p_calls] are the call objects, [p_Calls] the slice of pointers to them. *)
Record BpfProg := mkBpfProg {
  p_VarId : nat;
  p_maps : MapProg;
  p_calls : list BpfCall;
  p_Calls : list nat;
  p_Externs : gmap string string;
  p_CtxVars : gmap string string;
  p_CtxTypes : gmap string string;
  p_RetVal : Z;
  p_SecStr : string;
  p_TotalStackUsage : Z;
  p_ScratchMapVars : list string;
  p_ScratchMapIndex : Z;
  p_StructOps : option StructOpsProg;
}.

Record GState := mkGS { g_store : Store; g_rd : Z; g_prog : BpfProg }.

(** ** Computations *)

Definition G (A : Type) : Type := GState → Gen (A * GState).

#[global] Instance G_ret : MRet G := λ A a s, mret (a, s).

#[global] Instance G_bind : MBind G := λ A B k m s, r ← m s; k r.1 r.2.

Definition draw {A} (m : Gen A) : G A := λ s, a ← m; mret (a, s).

Definition need {A} (m : res A) : G A := draw (liftRes m).

Definition getProg : G BpfProg := λ s, mret (g_prog s, s).

Definition setProg (p : BpfProg) : G unit := λ s, mret (tt, mkGS (g_store s) (g_rd s) p).

Definition getRd : G Z := λ s, mret (g_rd s, s).

Definition setRd (rd : Z) : G unit := λ s, mret (tt, mkGS (g_store s) rd (g_prog s)).

(** Changes of single fields of the program. *)
Definition withMaps (m : MapProg) (p : BpfProg) : BpfProg :=
  mkBpfProg (p_VarId p) m (p_calls p) (p_Calls p) (p_Externs p) (p_CtxVars p) (p_CtxTypes p) (p_RetVal p) (p_SecStr p)
    (p_TotalStackUsage p) (p_ScratchMapVars p) (p_ScratchMapIndex p) (p_StructOps p).

Definition withCalls (heap : list BpfCall) (calls : list nat) (p : BpfProg) : BpfProg :=
  mkBpfProg (p_VarId p) (p_maps p) heap calls (p_Externs p) (p_CtxVars p) (p_CtxTypes p) (p_RetVal p) (p_SecStr p)
    (p_TotalStackUsage p) (p_ScratchMapVars p) (p_ScratchMapIndex p) (p_StructOps p).

Definition withExtern (k v : string) (p : BpfProg) : BpfProg :=
  mkBpfProg (p_VarId p) (p_maps p) (p_calls p) (p_Calls p) (<[k := v]> (p_Externs p)) (p_CtxVars p) (p_CtxTypes p) (p_RetVal p)
    (p_SecStr p) (p_TotalStackUsage p) (p_ScratchMapVars p) (p_ScratchMapIndex p) (p_StructOps p).

Definition withCtxVar (field v typ : string) (p : BpfProg) : BpfProg :=
  mkBpfProg (p_VarId p) (p_maps p) (p_calls p) (p_Calls p) (p_Externs p) (<[field := v]> (p_CtxVars p)) (<[field := typ]> (p_CtxTypes p))
    (p_RetVal p) (p_SecStr p) (p_TotalStackUsage p) (p_ScratchMapVars p) (p_ScratchMapIndex p) (p_StructOps p).

Definition withStack (usage : Z) (p : BpfProg) : BpfProg :=
  mkBpfProg (p_VarId p) (p_maps p) (p_calls p) (p_Calls p) (p_Externs p) (p_CtxVars p) (p_CtxTypes p) (p_RetVal p) (p_SecStr p)
    usage (p_ScratchMapVars p) (p_ScratchMapIndex p) (p_StructOps p).

Definition withScratch (i : Z) (p : BpfProg) : BpfProg :=
  mkBpfProg (p_VarId p) (p_maps p) (p_calls p) (p_Calls p) (p_Externs p) (p_CtxVars p) (p_CtxTypes p) (p_RetVal p) (p_SecStr p)
    (p_TotalStackUsage p) (p_ScratchMapVars p) i (p_StructOps p).

Definition withVarId (n : nat) (p : BpfProg) : BpfProg :=
  mkBpfProg n (p_maps p) (p_calls p) (p_Calls p) (p_Externs p) (p_CtxVars p) (p_CtxTypes p) (p_RetVal p) (p_SecStr p)
    (p_TotalStackUsage p) (p_ScratchMapVars p) (p_ScratchMapIndex p) (p_StructOps p).

Definition withStructOps (so : StructOpsProg) (p : BpfProg) : BpfProg :=
  mkBpfProg (p_VarId p) (p_maps p) (p_calls p) (p_Calls p) (p_Externs p) (p_CtxVars p) (p_CtxTypes p) (p_RetVal p) (p_SecStr p)
    (p_TotalStackUsage p) (p_ScratchMapVars p) (p_ScratchMapIndex p) (Some so).

Definition modProg (f : BpfProg → BpfProg) : G unit := p ← getProg; setProg (f p).

(** [fmt.Sprintf("v%d", n)]. *)
Definition varName (n : nat) : string := "v" +:+ pretty n.

(** The next variable name; [p.VarId += 1]. *)
Definition newVar : G string :=
  p ← getProg; _ ← setProg (withVarId (S (p_VarId p)) p); mret (varName (p_VarId p)).

(** Changes of an argument and of a call. *)
Definition named (name : string) (notNull : bool) (a : BpfArg) : BpfArg :=
  mkArg name (a_ArgType a) (a_Prepare a) (a_CanBeNull a) notNull (a_Umin a) (a_Umax a) (a_IsPktAccess a) (a_IsPktMetaAccess a)
    (a_AccessSize a).

Definition prepared (text : string) (a : BpfArg) : BpfArg :=
  mkArg (a_Name a) (a_ArgType a) text (a_CanBeNull a) (a_IsNotNull a) (a_Umin a) (a_Umax a) (a_IsPktAccess a) (a_IsPktMetaAccess a)
    (a_AccessSize a).

Definition notNullable (a : BpfArg) : BpfArg :=
  mkArg (a_Name a) (a_ArgType a) (a_Prepare a) false (a_IsNotNull a) (a_Umin a) (a_Umax a) (a_IsPktAccess a) (a_IsPktMetaAccess a)
    (a_AccessSize a).

Definition withUmax (z : Z) (a : BpfArg) : BpfArg :=
  mkArg (a_Name a) (a_ArgType a) (a_Prepare a) (a_CanBeNull a) (a_IsNotNull a) (a_Umin a) z (a_IsPktAccess a) (a_IsPktMetaAccess a)
    (a_AccessSize a).

Definition pktAccess (meta : bool) (size : Z) (a : BpfArg) : BpfArg :=
  mkArg (a_Name a) (a_ArgType a) (a_Prepare a) (a_CanBeNull a) (a_IsNotNull a) (a_Umin a) (a_Umax a)
    (a_IsPktAccess a || negb meta) (a_IsPktMetaAccess a || meta) size.

Definition withArgMap (m : option nat) (c : BpfCall) : BpfCall :=
  mkBpfCall (c_Helper c) (c_Args c) m (c_Ret c) (c_RetType c) (c_StackVarSize c) (c_Hint c) (c_PostCalls c).

Definition withStackVar (n : Z) (c : BpfCall) : BpfCall :=
  mkBpfCall (c_Helper c) (c_Args c) (c_ArgMap c) (c_Ret c) (c_RetType c) n (c_Hint c) (c_PostCalls c).

Definition withArgHints (hints : list ArgHint) (c : BpfCall) : BpfCall :=
  mkBpfCall (c_Helper c) (c_Args c) (c_ArgMap c) (c_Ret c) (c_RetType c) (c_StackVarSize c)
    (mkHint hints (RetAccessSize (c_Hint c)) (IsRetAccessRaw (c_Hint c)) (PreferredMap (c_Hint c))) (c_PostCalls c).

Definition withArg (i : nat) (a : BpfArg) (c : BpfCall) : BpfCall :=
  mkBpfCall (c_Helper c) (<[i := Some a]> (c_Args c)) (c_ArgMap c) (c_Ret c) (c_RetType c) (c_StackVarSize c) (c_Hint c) (c_PostCalls c).

Definition withRet (ret typ : string) (c : BpfCall) : BpfCall :=
  mkBpfCall (c_Helper c) (c_Args c) (c_ArgMap c) ret typ (c_StackVarSize c) (c_Hint c) (c_PostCalls c).

(** ** Arguments and calls *)

Definition lastChars (n : nat) (s : string) : string := String.substring (String.length s - n) n s.

(** The slice [argType[0:9]] panics for a shorter string. *)
Definition NewBpfArg (helper : BpfHelper) (arg : nat) : res BpfArg :=
  argType ← of_option (h_Args helper !! arg);
  if bool_decide (String.length argType < 9)%nat then Panic
  else
    let mk canBeNull umin umax := mkArg EmptyString argType EmptyString canBeNull false umin umax false false 0 in
    Ret (if bool_decide (String.substring 0 9 argType = "ARG_CONST") then
           if bool_decide (argType = "ARG_CONST_SIZE") then mk true 0 (2 ^ 29)
           else if bool_decide (argType = "ARG_CONST_SIZE_OR_ZERO") then mk true (-1) (2 ^ 29)
           else mk true (-1) (-1)
         else if bool_decide (lastChars 7 argType ≠ "OR_NULL") || bool_decide (argType = "ARG_PTR_TO_MAP_VALUE_OR_NULL")
         then mk false (-1) (-1) else mk true (-1) (-1)).

Definition newBpfCallGenHint (m : option nat) : BpfCallGenHint := mkHint [] 0 false m.

Definition NewBpfCall (helper : BpfHelper) (hint : BpfCallGenHint) : BpfCall :=
  mkBpfCall helper (replicate (length (h_Args helper)) None) None EmptyString EmptyString 0 hint [].

(** Go's division truncates. *)
Definition roundUp (val align : Z) : Z :=
  let ret := Z.quot val align in
  let ret := if bool_decide (Z.rem val align ≠ 0) then ret + 1 else ret in
  ret * align.

(** The map behind an index. *)
Definition mapAt (p : BpfProg) (i : nat) : res BpfMap := of_option (BpfMaps.p_Maps (p_maps p) !! i).

Definition updMap (i : nat) (f : BpfMap → BpfMap) (p : BpfProg) : BpfProg :=
  let m := p_maps p in
  withMaps (mkMapProg (p_Enum m) (p_Sleepable m) (p_Structs m) (alter f i (p_Maps m))) p.

Definition isRefAcquireCall (p : BpfProg) (call : BpfCall) : res Z :=
  let e := h_Enum (c_Helper call) in
  lookup ← (if bool_decide (e = BPF_FUNC_sk_lookup_tcp) || bool_decide (e = BPF_FUNC_sk_lookup_udp) ||
               bool_decide (e = BPF_FUNC_skc_lookup_tcp) then Ret true
            else if bool_decide (e = BPF_FUNC_map_lookup_elem) then
              i ← of_option (c_ArgMap call); m ← mapAt p i;
              Ret (bool_decide (m_Type m = "BPF_MAP_TYPE_SOCKMAP") || bool_decide (m_Type m = "BPF_MAP_TYPE_SOCKHASH"))
            else Ret false);
  Ret (if bool_decide (e = BPF_FUNC_ringbuf_reserve) then 2 else if (lookup : bool) then 1 else -1).

Definition isRefReleaseCall (call : BpfCall) : Z :=
  let e := h_Enum (c_Helper call) in
  if bool_decide (e = BPF_FUNC_ringbuf_submit) || bool_decide (e = BPF_FUNC_ringbuf_discard) then 2
  else if bool_decide (e = BPF_FUNC_sk_release) then 1 else -1.

Definition isRefPropagateCall (call : BpfCall) : Z :=
  if bool_decide (h_Enum (c_Helper call) ∈
       [BPF_FUNC_tcp_sock; BPF_FUNC_sk_fullsock; BPF_FUNC_skc_to_tcp_sock; BPF_FUNC_skc_to_tcp6_sock; BPF_FUNC_skc_to_udp6_sock;
        BPF_FUNC_skc_to_tcp_timewait_sock; BPF_FUNC_skc_to_tcp_request_sock]) then 1 else -1.

(** The C type of the result, empty when there is none. *)
Definition bpfRetType (p : BpfProg) (call : BpfCall) : res string :=
  let ret := h_Ret (c_Helper call) in
  if bool_decide (ret = "RET_INTEGER") then Ret "uint64_t"
  else if retsMapValue (c_Helper call) then
    i ← of_option (c_ArgMap call); m ← mapAt p i;
    Ret (match m_Val m with
         | None => "void *"
         | Some sd => match String.index 0 "[" (sd_Name sd) with Some _ => "char *" | None => sd_Name sd +:+ "*" end
         end)
  else if bool_decide (ret = "RET_PTR_TO_BTF_ID_OR_NULL") || bool_decide (ret = "RET_PTR_TO_BTF_ID")
  then Ret (h_RetBtfId (c_Helper call) +:+ "*")
  else if bool_decide (ret = "RET_PTR_TO_ALLOC_MEM_OR_NULL") || bool_decide (ret = "RET_PTR_TO_MEM_OR_BTF_ID_OR_NULL") ||
          bool_decide (ret = "RET_PTR_TO_MEM_OR_BTF_ID") then Ret "void *"
  else if bool_decide (ret = "RET_PTR_TO_TCP_SOCK_OR_NULL") || bool_decide (ret = "RET_PTR_TO_SOCKET_OR_NULL") ||
          bool_decide (ret = "RET_PTR_TO_SOCK_COMMON_OR_NULL") then Ret "struct bpf_sock*"
  else Ret EmptyString.

(** ** Section names *)

Definition tracingIterCtxs : list string :=
  ["bpf_map"; "bpf_map_elem"; "bpf_prog"; "task"; "task_file"; "task_vma"; "unix"; "udp"; "tcp"; "bpf_sk_storage_map"; "sockmap";
   "netlink"; "ipv6_route"].

Definition lsmHooks : list string :=
  ["file_open"; "file_permission"; "inode_permission"; "task_alloc"; "socket_create"; "socket_connect"; "bprm_check_security"].

Definition genSecName (f : SecDefGenFunc) : Gen string :=
  match f with
  | GenXdpEntry => mret EmptyString
  | GenKprobeEntry => mret "__x64_sys_nanosleep"
  | GenTracepointEntry => mret "sched/sched_switch"
  | GenRawTracepointEntry => mret "sys_enter"
  | GenBPFTrampoline => mret "__x64_sys_getpgid"
  | GenTracingIter => pick tracingIterCtxs
  | GenLsmEntry => pick lsmHooks
  end.

Definition genRandReturnVal (e : BpfProgTypeEnum) : Gen Z :=
  match e with
  | BPF_PROG_TYPE_CGROUP_SOCK_ADDR => mret 1
  | BPF_PROG_TYPE_CGROUP_SKB | BPF_PROG_TYPE_CGROUP_SOCK | BPF_PROG_TYPE_SOCK_OPS | BPF_PROG_TYPE_CGROUP_DEVICE
  | BPF_PROG_TYPE_CGROUP_SYSCTL | BPF_PROG_TYPE_CGROUP_SOCKOPT => Intn 2
  | BPF_PROG_TYPE_RAW_TRACEPOINT | BPF_PROG_TYPE_TRACING => mret 0
  | BPF_PROG_TYPE_SK_LOOKUP | BPF_PROG_TYPE_NETFILTER => Intn 2
  | _ => Intn (2 ^ 32)
  end.

(** [NewBpfProg] with a random generator; the path of the files is left out. *)
Definition NewBpfProg (pt : BpfProgType) : Gen BpfProg :=
  retVal ← genRandReturnVal (pt_Enum pt);
  sec ← pick (pt_SecDefs pt);
  name ← match sec_Gen sec with Some f => genSecName f | None => mret EmptyString end;
  let mp := scratchProg (pt_Enum pt) in
  mret (mkBpfProg 10 (mkMapProg (p_Enum mp) (sec_Sleepable sec) (p_Structs mp) (p_Maps mp)) [] [] ∅ ∅ ∅ retVal
          ("SEC(" +:+ dq +:+ sec_Sec sec +:+ name +:+ dq +:+ ")" +:+ nl) 0 (varName <$> seq 0 10) 0 None).

(** ** Register types of an argument *)

(** The table lookup and filtering, with the shared arrays updated. *)
Definition compatRegTypes (pt : BpfProgType) (helper : BpfHelper) (arg : nat) : G (list RegType * string) := λ s,
  '(st, sl, btfId) ← liftRes (genCompatibleRegTypes (g_store s) (pt_Enum pt) helper arg);
  mret ((sliceElems st sl, btfId), mkGS st (g_rd s) (g_prog s)).

(** ** Direct access: the [Generate] methods *)

Section Generator.

Context (pt : BpfProgType).

(** [p.NewMap], which may call itself for a map of maps. *)
Context (newMap : MapProg → BpfMapType → list ArgHint → Z → Gen (option nat * MapProg * list ArgHint)).

(** What a method returns, nil or an argument, and the call as it is then. *)
Local Notation generated := (option BpfArg * BpfCall)%type.

Definition usesMapKey (argType : string) : bool := bool_decide (argType = "ARG_PTR_TO_MAP_KEY").

Definition usesMapValue (argType : string) : bool :=
  bool_decide (argType = "ARG_PTR_TO_MAP_VALUE") || bool_decide (argType = "ARG_PTR_TO_MAP_VALUE_OR_NULL") ||
  bool_decide (argType = "ARG_PTR_TO_UNINIT_MAP_VALUE").

(** The size of the key or value of the map of a call, rounded up. *)
Definition mapAccessSize (p : BpfProg) (call : BpfCall) (argType : string) : res (option Z) :=
  match c_ArgMap call with
  | None => Ret None
  | Some i =>
      m ← mapAt p i;
      Ret (if usesMapKey argType then (λ sd, roundUp (sd_Size sd) 8) <$> m_Key m
           else if usesMapValue argType then (λ sd, roundUp (sd_Size sd) 8) <$> m_Val m
           else None)
  end.

Definition stackLimit : Z := 400.

Definition genScalar (call : BpfCall) (arg : nat) : G generated :=
  a ← need (NewBpfArg (c_Helper call) arg);
  size ← draw (Intn 64);
  let size := if bool_decide (c_StackVarSize call ≠ 0) then c_StackVarSize call else size in
  p ← getProg;
  if bool_decide (p_TotalStackUsage p + 8 ≤ stackLimit) then
    v ← newVar;
    _ ← modProg (λ p, withStack (p_TotalStackUsage p + 8) p);
    mret (Some (prepared (tab +:+ "int64_t " +:+ v +:+ " = " +:+ pretty size +:+ ";" +:+ nl) (named v true a)), call)
  else
    bufferVar ← draw (index (p_ScratchMapVars p) (p_ScratchMapIndex p));
    v ← newVar;
    _ ← modProg (withScratch ((p_ScratchMapIndex p + 1) `mod` 10));
    mret (Some (prepared (tab +:+ "int64_t *" +:+ v +:+ "_ptr = (int64_t*)" +:+ bufferVar +:+ ";" +:+ nl +:+
                          tab +:+ "int64_t " +:+ v +:+ " = " +:+ pretty size +:+ ";" +:+ nl +:+
                          tab +:+ "if (" +:+ v +:+ "_ptr) *" +:+ v +:+ "_ptr = " +:+ v +:+ ";" +:+ nl) (named v true a)), call).

Definition genStackPtr (call : BpfCall) (arg : nat) : G generated :=
  a ← need (NewBpfArg (c_Helper call) arg);
  varSize ← draw (Intn 64);
  p ← getProg;
  access ← need (mapAccessSize p call (a_ArgType a));
  let varSize := default varSize access in
  if bool_decide (p_TotalStackUsage p + varSize ≤ stackLimit) then
    v ← newVar;
    _ ← modProg (λ p, withStack (p_TotalStackUsage p + varSize) p);
    mret (Some (prepared (tab +:+ "char " +:+ v +:+ "[" +:+ pretty varSize +:+ "] = {};" +:+ nl) (named v true a)),
          withStackVar varSize call)
  else
    v ← draw (index (p_ScratchMapVars p) (p_ScratchMapIndex p));
    _ ← modProg (withScratch ((p_ScratchMapIndex p + 1) `mod` 10));
    mret (Some (named v true a), call).

(** The flags that a map must not have, given the helper and the program. *)
Definition fixMapFlags (mp : MapProg) (helper : BpfHelper) (typ : string) (m : BpfMap) : BpfMap :=
  let m := if writesMap (h_Enum helper) then removeFlag m "BPF_F_RDONLY_PROG" else m in
  let m := if valHas m "struct bpf_spin_lock" || valHas m "struct bpf_timer" then removeFlag m "BPF_F_RDONLY_PROG" else m in
  let m := if bool_decide (p_Enum mp = BPF_PROG_TYPE_PERF_EVENT) &&
              bool_decide (typ ∈ ["BPF_MAP_TYPE_HASH"; "BPF_MAP_TYPE_PERCPU_HASH"; "BPF_MAP_TYPE_HASH_OF_MAPS"])
           then removeFlag m "BPF_F_NO_PREALLOC" else m in
  if p_Sleepable mp &&
     bool_decide (typ ∈ ["BPF_MAP_TYPE_HASH"; "BPF_MAP_TYPE_LRU_HASH"; "BPF_MAP_TYPE_ARRAY"; "BPF_MAP_TYPE_PERCPU_HASH";
       "BPF_MAP_TYPE_PERCPU_ARRAY"; "BPF_MAP_TYPE_LRU_PERCPU_HASH"; "BPF_MAP_TYPE_ARRAY_OF_MAPS"; "BPF_MAP_TYPE_HASH_OF_MAPS"])
  then removeFlag m "BPF_F_NO_PREALLOC" else m.

(** A call takes the map at [i]. *)
Definition useMap (a : BpfArg) (call : BpfCall) (i : nat) : G generated :=
  p ← getProg;
  m ← need (mapAt p i);
  mret (Some (named ("&" +:+ m_Name m) true a), withArgMap (Some i) call).

(** A new map, of a type that fits the helper and the hints. *)
Definition genNewMap (a : BpfArg) (call : BpfCall) : G generated :=
  p ← getProg;
  let hint := c_Hint call in
  let types := getHelperCompatMapTypes (p_maps p) (c_Helper call) hint in
  if bool_decide (types = []) then mret (None, call)
  else
    choice ← (if hinted (ArgHints hint) HintGenConstStr
              then mret (snd <$> list_find (λ mt, mt_Name mt = "BPF_MAP_TYPE_ARRAY") types)
              else mt ← draw (pick types); mret (Some mt));
    match choice with
    | None => mret (None, call)
    | Some mt =>
        let minValSize := if retsMapValue (c_Helper call) then RetAccessSize hint else -1 in
        '(o, mp, hints) ← draw (newMap (p_maps p) mt (ArgHints hint) minValSize);
        _ ← modProg (withMaps mp);
        let call := withArgHints hints call in
        match o with
        | None => mret (None, call)
        | Some i => _ ← modProg (updMap i (fixMapFlags mp (c_Helper call) (mt_Name mt))); useMap a call i
        end
    end.

Definition genMapPtr (call : BpfCall) (arg : nat) : G generated :=
  a ← need (NewBpfArg (c_Helper call) arg);
  match PreferredMap (c_Hint call), c_ArgMap call with
  | Some i, _ => useMap a call i
  | None, Some i => useMap a call i
  | None, None =>
      p ← getProg;
      let compatMaps := getHelperCompatMaps (p_maps p) (c_Helper call) (c_Hint call) in
      reuse ← (if bool_decide (compatMaps ≠ []) then draw (nOutOf 2 3) else mret false);
      if (reuse : bool) then i ← draw (pick compatMaps); useMap a call i
      else genNewMap a call
  end.

Definition Generate (t : RegType) (call : BpfCall) (arg : nat) : G generated :=
  match t with
  | ScalarValRegType => genScalar call arg
  | PtrToCtxRegType => a ← need (NewBpfArg (c_Helper call) arg); mret (Some (named "ctx" true a), call)
  | ConstPtrToMapRegType => genMapPtr call arg
  | PtrToStackRegType => genStackPtr call arg
  | PtrToPercpuBtfIdRegType =>
      a ← need (NewBpfArg (c_Helper call) arg);
      _ ← modProg (withExtern "bpf_prog_active" "int");
      mret (Some (named "&bpf_prog_active" true a), call)
  | _ => mret (None, call)
  end.

(** The loop of [genRandDirectAccess]. *)
Fixpoint directLoop (n : nat) (types : list RegType) (call : BpfCall) (arg : nat) : G generated :=
  match n with
  | O => mret (None, call)
  | S n =>
      rt ← draw (pick types);
      r ← Generate rt call arg;
      match r with
      | (Some a, call) => mret (Some a, call)
      | (None, call) => directLoop n types call arg
      end
  end.

Definition genRandDirectAccess (call : BpfCall) (arg : nat) : G generated :=
  r ← compatRegTypes pt (c_Helper call) arg;
  directLoop 5 r.1 call arg.

(** ** Context access *)

(** A context field is read into a variable once. *)
Definition ctxVar (field typ : string) : G string :=
  p ← getProg;
  match p_CtxVars p !! field with
  | Some v => mret v
  | None => v ← newVar; _ ← modProg (withCtxVar field v typ); mret v
  end.

(** The size of an access to packet data, as the argument type needs it. *)
Definition packetAccess (call : BpfCall) (argType : string) : G (Z * BpfCall) :=
  p ← getProg;
  access ← need (mapAccessSize p call argType);
  if usesMapKey argType || usesMapValue argType then mret (default 0 access, call)
  else if bool_decide (argType ∈ ["ARG_PTR_TO_MEM"; "ARG_PTR_TO_MEM_OR_NULL"; "ARG_PTR_TO_UNINIT_MEM"])
  then size ← draw (Intn 128); mret (size, withStackVar size call)
  else if bool_decide (argType = "ARG_PTR_TO_INT") then mret (4, call)
  else if bool_decide (argType = "ARG_PTR_TO_LONG") then mret (8, call)
  else mret (0, call).

(** The argument that reads [field], for a register type named [rt]. *)
Definition ctxArg (a : BpfArg) (call : BpfCall) (rt field : string) : G generated :=
  let typ := if bool_decide (rt = "PTR_TO_SOCK_COMMON") then "struct sock_common*" else "void *" in
  v ← ctxVar field typ;
  let a := named v (a_IsNotNull a) a in
  if bool_decide (rt = "PTR_TO_PACKET_META") then
    _ ← ctxVar "data" typ;
    r ← packetAccess call (a_ArgType a);
    mret (Some (pktAccess true r.1 a), r.2)
  else if bool_decide (rt = "PTR_TO_PACKET") then
    _ ← ctxVar "data_end" typ;
    r ← packetAccess call (a_ArgType a);
    mret (Some (pktAccess false r.1 a), r.2)
  else mret (Some a, call).

Fixpoint ctxLoop (n : nat) (types : list RegType) (call : BpfCall) (arg : nat) : G generated :=
  match n with
  | O => mret (None, call)
  | S n =>
      a ← need (NewBpfArg (c_Helper call) arg);
      rt ← draw (pick types);
      field ← need (ctxField pt (regTypeString rt));
      match field with
      | Some field => ctxArg a call (regTypeString rt) field
      | None => ctxLoop n types call arg
      end
  end.

Definition genRandBpfCtxAccess (call : BpfCall) (arg : nat) : G generated :=
  r ← compatRegTypes pt (c_Helper call) arg;
  ctxLoop 5 r.1 call arg.

(** ** Return values of helpers *)

Definition retToRegTypeMap : list (string * list string) := [
  ("RET_INTEGER", ["SCALAR_VALUE"]);
  ("RET_VOID", ["NOT_INIT"]);
  ("RET_PTR_TO_MAP_VALUE", ["PTR_TO_MAP_VALUE"]);
  ("RET_PTR_TO_MAP_VALUE_OR_NULL", ["PTR_TO_MAP_VALUE"; "PTR_TO_XDP_SOCK"; "PTR_TO_SOCKET"]);
  ("RET_PTR_TO_SOCKET_OR_NULL", ["PTR_TO_SOCKET"]);
  ("RET_PTR_TO_TCP_SOCK_OR_NULL", ["PTR_TO_TCP_SOCK"]);
  ("RET_PTR_TO_SOCK_COMMON_OR_NULL", ["PTR_TO_SOCK_COMMON"]);
  ("RET_PTR_TO_ALLOC_MEM_OR_NULL", ["PTR_TO_ALLOC_MEM"]);
  ("RET_PTR_TO_BTF_ID_OR_NULL", ["PTR_TO_BTF_ID"]);
  ("RET_PTR_TO_MEM_OR_BTF_ID_OR_NULL", ["PTR_TO_MEM"; "PTR_TO_BTF_ID"]);
  ("RET_PTR_TO_MEM_OR_BTF_ID", ["PTR_TO_MEM"; "PTR_TO_BTF_ID"]);
  ("RET_PTR_TO_BTF_ID", ["PTR_TO_BTF_ID"])
].

Definition helperCanReturn (helper : BpfHelper) (reg : RegType) (btfId : string) : bool :=
  if bool_decide (regTypeString reg ∈ default [] (assoc (h_Ret helper) retToRegTypeMap)) then
    if bool_decide (btfId ≠ EmptyString) then
      if bool_decide (h_Ret helper = "RET_PTR_TO_BTF_ID_OR_NULL") || bool_decide (h_Ret helper = "RET_PTR_TO_BTF_ID")
      then bool_decide (btfId = h_RetBtfId helper)
      else negb (bool_decide (h_Ret helper = "RET_PTR_TO_MEM_OR_BTF_ID_OR_NULL") || bool_decide (h_Ret helper = "RET_PTR_TO_MEM_OR_BTF_ID"))
    else true
  else false.

(** The hints for a call of [producer] whose result becomes the argument. *)
Definition genHint (producer : BpfHelper) (consumer : BpfCall) (arg : nat) : G BpfCallGenHint :=
  consumerArg ← need (of_option (h_Args (c_Helper consumer) !! arg));
  let fromMap := bool_decide (h_Ret producer = "RET_PTR_TO_MAP_VALUE_OR_NULL") in
  hints ←
    (if (bool_decide (consumerArg = "ARG_PTR_TO_SOCK_COMMON") || bool_decide (consumerArg = "ARG_PTR_TO_BTF_ID_SOCK_COMMON")) && fromMap
     then b ← draw (nOutOf 1 2); mret (if (b : bool) then [HintGenXdpSockMap] else [HintGenSockMap])
     else if (bool_decide (consumerArg = "ARG_PTR_TO_SOCKET") || bool_decide (consumerArg = "ARG_PTR_TO_SOCKET_OR_NULL")) && fromMap
     then mret [HintGenSockMap]
     else if bool_decide (consumerArg = "ARG_PTR_TO_SPIN_LOCK") then mret [HintGenSpinlock]
     else if bool_decide (consumerArg = "ARG_PTR_TO_TIMER") then mret [HintGenTimer]
     else if bool_decide (consumerArg = "ARG_PTR_TO_CONST_STR") then mret [HintGenConstStr]
     else mret []);
  p ← getProg;
  access ← need (mapAccessSize p consumer consumerArg);
  mret (mkHint hints (default 0 access)
          (bool_decide (consumerArg = "ARG_PTR_TO_UNINIT_MAP_VALUE") || bool_decide (consumerArg = "ARG_PTR_TO_UNINIT_MEM")) None).

(** The helpers of the program type that can return a register of these types;
    a helper is listed once for each of them. *)
Definition compatHelpers (argType : string) (types : list RegType) (btfId : string) : list BpfHelper :=
  helper ← pt_Helpers pt;
  reg ← types;
  if helperCanReturn helper reg btfId &&
     negb (bool_decide (argType = "ARG_CONST_ALLOC_SIZE_OR_ZERO") && bool_decide (regTypeString reg = "SCALAR_VALUE"))
  then [helper] else [].

(** The index of a member of the struct named [structType], -1 if there is none. *)
Definition findStructMember (p : BpfProg) (structType memberType : string) : Z :=
  match list_find (λ sd, sd_Name sd = structType) (p_Structs (p_maps p)) with
  | Some (_, sd) => match findMember sd memberType with Some i => Z.of_nat i | None => -1 end
  | None => -1
  end.

(** [retType[start:end]] from the first [struct_] to the first star. *)
Definition retStruct (retType : string) : res string :=
  match String.index 0 "struct_" retType, String.index 0 "*" retType with
  | Some start, Some end_ =>
      if bool_decide (start ≤ end_)%nat then Ret (String.substring start (end_ - start) retType) else Panic
  | _, _ => Ret EmptyString
  end.

(** The members of a map value that an access of the hinted size can start at. *)
Definition accessMembers (sd : StructDef) (accessSize : Z) : list nat :=
  fst <$> filter (λ im, im.2 ≠ "struct bpf_spin_lock" ∧ im.2 ≠ "struct bpf_timer" ∧
                        accessSize ≤ sd_Size sd - offsetOfMember sd im.1) (imap pair (sd_FieldTypes sd)).

(** The name of the argument, whether a member was found for it, and the call. *)
Definition nameResult (a : BpfArg) (call prod : BpfCall) (argType : string) : G (option BpfArg * BpfCall) :=
  p ← getProg;
  rs ← need (retStruct (c_RetType prod));
  let member m := "&" +:+ c_Ret prod +:+ "->e" +:+ pretty (m : Z) in
  if bool_decide (argType = "ARG_PTR_TO_SPIN_LOCK")
  then mret (Some (named (member (findStructMember p rs "struct bpf_spin_lock")) (a_IsNotNull a) a), call)
  else if bool_decide (argType = "ARG_PTR_TO_TIMER")
  then mret (Some (named (member (findStructMember p rs "struct bpf_timer")) (a_IsNotNull a) a), withArgMap (c_ArgMap prod) call)
  else if bool_decide (argType = "ARG_PTR_TO_CONST_STR")
  then mret (Some (named (c_Ret prod +:+ "->e" +:+ pretty (findStructMember p rs "char [8]")) (a_IsNotNull a) a), call)
  else
    val ← (if retsMapValue (c_Helper prod) then i ← need (of_option (c_ArgMap prod)); m ← need (mapAt p i); mret (m_Val m)
           else mret None);
    match val with
    | Some sd =>
        if bool_decide (2 ≤ length (sd_FieldTypes sd))%nat then
          let members := accessMembers sd (RetAccessSize (c_Hint prod)) in
          if bool_decide (members = []) then mret (None, call)
          else mi ← draw (pick members); mret (Some (notNullable (named (member (Z.of_nat mi)) (a_IsNotNull a) a)), call)
        else mret (Some (named (c_Ret prod) (a_IsNotNull a) a), call)
    | None => mret (Some (named (c_Ret prod) (a_IsNotNull a) a), call)
    end.

(** Results that are never null. *)
Definition neverNull (ret : string) : bool :=
  bool_decide (ret ∈ ["RET_INTEGER"; "RET_VOID"; "RET_PTR_TO_MAP_VALUE"; "RET_PTR_TO_MEM_OR_BTF_ID"; "RET_PTR_TO_BTF_ID"]).

(** ** The recursion *)

Section Recursion.

(** [p.genBpfHelperCall]. *)
Context (genCall : BpfHelper → BpfCallGenHint → bool → G (option BpfCall)).

Definition genRandBpfHelperCall (call : BpfCall) (arg : nat) : G generated :=
  a ← need (NewBpfArg (c_Helper call) arg);
  r ← compatRegTypes pt (c_Helper call) arg;
  let helpers := compatHelpers (a_ArgType a) r.1 r.2 in
  if bool_decide (helpers = []) then mret (None, call)
  else
    helper ← draw (pick helpers);
    hint ← genHint helper call arg;
    prod ← genCall helper hint false;
    match prod with
    | None => mret (None, call)
    | Some prod =>
        r ← nameResult a call prod (a_ArgType a);
        match r with
        | (None, call) => mret (None, call)
        | (Some a, call) =>
            let a := if neverNull (h_Ret (c_Helper prod)) && negb (a_CanBeNull a) then named (a_Name a) true a else a in
            _ ← (if retsMapValue (c_Helper prod) then
                   i ← need (of_option (c_ArgMap prod));
                   modProg (updMap i (λ m, removeFlag m (if isUninit (a_ArgType a) then "BPF_F_RDONLY_PROG" else "BPF_F_WRONLY_PROG")))
                 else mret tt);
            mret (Some a, call)
        end
    end.

(** [genBpfHelperCallArg]: whether the argument was generated, and the call. *)
Definition genBpfHelperCallArg (call : BpfCall) (arg : nat) : G (bool * BpfCall) :=
  argType ← need (of_option (h_Args (c_Helper call) !! arg));
  r ← (if bool_decide (h_Enum (c_Helper call) = BPF_FUNC_get_local_storage) && bool_decide (arg = 1%nat)
       then a ← need (NewBpfArg (c_Helper call) arg); mret (Some (named "0" true a), call)
       else
         b ← draw (nOutOf 1 3);
         r ← (if (b : bool) then genRandBpfHelperCall call arg else mret (None, call));
         match r with
         | (Some a, call) => mret (Some a, call)
         | (None, call) =>
             b ← draw (nOutOf 1 2);
             r ← (if (b : bool) then genRandBpfCtxAccess call arg else mret (None, call));
             match r with
             | (Some a, call) => mret (Some a, call)
             | (None, call) => genRandDirectAccess call arg
             end
         end);
  match r with
  | (None, call) => mret (false, call)
  | (Some a, call) =>
      let a := if bool_decide (argType = "ARG_CONST_SIZE") || bool_decide (argType = "ARG_CONST_SIZE_OR_ZERO")
               then withUmax (c_StackVarSize call) a else a in
      if bool_decide (isRefReleaseCall call ≠ -1) && bool_decide (arg ≠ 0%nat) && negb (a_IsNotNull a) && negb (a_CanBeNull a)
      then mret (false, call)
      else mret (true, withArg arg a call)
  end.

(** Up to [n] attempts at one argument. *)
Fixpoint tryArg (n : nat) (call : BpfCall) (arg : nat) : G (bool * BpfCall) :=
  match n with
  | O => mret (false, call)
  | S n =>
      r ← genBpfHelperCallArg call arg;
      if r.1 : bool then mret r else tryArg n r.2 arg
  end.

(** The loop over the arguments from [i] on; an argument that fails more than 50
    times in a row ends it. *)
Fixpoint argsLoop (todo i : nat) (call : BpfCall) : G (bool * BpfCall) :=
  match todo with
  | O => mret (true, call)
  | S todo =>
      r ← tryArg 51 call i;
      if r.1 : bool then argsLoop todo (S i) r.2 else mret r
  end.

End Recursion.

(** The depth [rd] is only decreased when a call succeeds. *)
Fixpoint genBpfHelperCall (fuel : nat) (helper : BpfHelper) (hint : BpfCallGenHint) (prepend : bool) : G (option BpfCall) :=
  match fuel with
  | O => draw gen_nofuel
  | S fuel =>
      rd ← getRd;
      _ ← setRd (rd + 1);
      if bool_decide (100 < rd + 1) then mret None
      else
        r ← argsLoop (genBpfHelperCall fuel) (length (h_Args helper)) 0 (NewBpfCall helper hint);
        if negb r.1 then mret None
        else
          let call := r.2 in
          p ← getProg;
          refType ← need (isRefAcquireCall p call);
          if bool_decide (refType = 1) && bool_decide (getHelpers pt [BPF_FUNC_sk_release] = []) then mret None
          else
            typ ← need (bpfRetType p call);
            v ← newVar;
            let call := withRet v typ call in
            _ ← modProg (λ p, withCalls (p_calls p ++ [call])
                   (if prepend then length (p_calls p) :: p_Calls p else p_Calls p ++ [length (p_calls p)]) p);
            rd ← getRd;
            _ ← setRd (rd - 1);
            mret (Some call)
  end.

End Generator.

(** ** Programs *)

(** [brf.progTypeMap[e]]; nil when the map has no such key. *)
Definition progTypeOf (ptMap : list (BpfProgTypeEnum * BpfProgType)) (e : BpfProgTypeEnum) : option BpfProgType :=
  snd <$> (snd <$> list_find (λ x, x.1 = e) ptMap).

Definition progChoices : list BpfProgTypeEnum :=
  [BPF_PROG_TYPE_LSM; BPF_PROG_TYPE_SYSCALL; BPF_PROG_TYPE_NETFILTER; BPF_PROG_TYPE_STRUCT_OPS].

(** Every nested call raises [rd], and a call at a depth over 100 fails. *)
Definition callFuel : nat := 101.

Definition genStructOpsBpfProg (pt : BpfProgType) (st : Store) (rd : Z) : Gen (GState * bool) :=
  p ← NewBpfProg pt;
  so ← genStructOpsProg;
  mret (mkGS st rd (withStructOps so p), true).

Section Programs.

Context (newMap : MapProg → BpfMapType → list ArgHint → Z → Gen (option nat * MapProg * list ArgHint)).

(** [GenBpfProg], with the type of the program and the state of the package. *)
Definition GenBpfProg (ptMap : list (BpfProgTypeEnum * BpfProgType)) (st : Store) (rd : Z) :
    Gen (BpfProgType * GState * bool) :=
  e ← pick progChoices;
  pt ← liftRes (of_option (progTypeOf ptMap e));
  if bool_decide (pt_Enum pt = BPF_PROG_TYPE_STRUCT_OPS) then
    r ← genStructOpsBpfProg pt st rd; mret (pt, r.1, r.2)
  else
    helper ← pick (pt_Helpers pt);
    p ← NewBpfProg pt;
    r ← genBpfHelperCall pt newMap callFuel helper (newBpfCallGenHint None) false (mkGS st 0 p);
    mret (pt, r.2, bool_decide (is_Some r.1)).

(** [MutBpfProg] gives one argument of one call a new value. *)
Definition MutBpfProg (pt : BpfProgType) : G bool :=
  p ← getProg;
  match p_StructOps p with
  | Some _ => so ← draw genStructOpsProg; _ ← modProg (withStructOps so); mret true
  | None =>
      let hasArgs c := match p_calls p !! c with Some call => bool_decide (c_Args call ≠ []) | None => false end in
      let calls := filter hasArgs (p_Calls p) in
      if bool_decide (calls = []) then mret false
      else
        c ← draw (pick calls);
        call ← need (of_option (p_calls p !! c));
        arg ← draw (Intn (Z.of_nat (length (c_Args call))));
        r ← genBpfHelperCallArg pt newMap (genBpfHelperCall pt newMap callFuel) call (Z.to_nat arg);
        _ ← modProg (λ p, withCalls (<[c := r.2]> (p_calls p)) (p_Calls p) p);
        mret r.1
  end.

End Programs.
