(* ===== verification/BpfCallSpec.v ===== *)
(** * What a generated program must satisfy

    The names of a generated C function: which variables a program declares, what
    a name of an argument refers to, and the order of declarations and uses in the
    text of [genCSource].  The invariant of the generator, the relation between
    the states before and after a computation, and the program logic the proofs
    about [BpfCallGen] use. *)

From stdpp Require Import base numbers strings pretty gmap list.
From S2P Require Import Prelude BpfTypes BpfHelperTable BpfProgTable BpfCtxTable BpfInit BpfRegTypes BpfMaps BpfNewMap.
From S2P Require Import BpfCallGen.

Local Open Scope string_scope.
Local Open Scope list_scope.
Local Open Scope nat_scope.

(** ** Names *)

(** The text an argument is prepared with declares the argument's variable. *)
Definition argDecl (o : option BpfArg) : list string :=
  match o with
  | Some a => if bool_decide (a_Prepare a = EmptyString) then [] else [a_Name a]
  | None => []
  end.

Definition argDecls (c : BpfCall) : list string := concat (argDecl <$> c_Args c).

(** The result of a call is declared when it has a type. *)
Definition retDecl (c : BpfCall) : list string :=
  if bool_decide (c_RetType c = EmptyString) then [] else [c_Ret c].

Definition callDecl (c : BpfCall) : list string := argDecls c ++ retDecl c.

(** The scratch buffers and the context fields, declared before the calls. *)
Definition baseDecl (p : BpfProg) : list string := p_ScratchMapVars p ++ (map_to_list (p_CtxVars p)).*2.

Definition declared (p : BpfProg) : list string := baseDecl p ++ concat (callDecl <$> p_calls p).

(** The variables that any call may use: not those of other arguments. *)
Definition usable (p : BpfProg) : list string := baseDecl p ++ concat (retDecl <$> p_calls p).

(** What a name stands for, where the variables [D] are declared. *)
Inductive resolves (p : BpfProg) (D : list string) : string → Prop :=
  | res_zero : resolves p D "0"
  | res_ctx : resolves p D "ctx"
  | res_map i m : BpfMaps.p_Maps (p_maps p) !! i = Some m → resolves p D ("&" +:+ m_Name m)
  | res_extern v t : p_Externs p !! v = Some t → resolves p D ("&" +:+ v)
  | res_var v : v ∈ D → resolves p D v
  | res_member v (k : Z) : v ∈ D → resolves p D ("&" +:+ v +:+ "->e" +:+ pretty k)
  | res_string v (k : Z) : v ∈ D → resolves p D (v +:+ "->e" +:+ pretty k).

(** The three texts that prepare an argument: they declare its variable, and the
    last one stores to a scratch buffer. *)
Inductive prepares (p : BpfProg) (name : string) : string → Prop :=
  | prep_none : prepares p name EmptyString
  | prep_int (z : Z) : prepares p name (tab +:+ "int64_t " +:+ name +:+ " = " +:+ pretty z +:+ ";" +:+ nl)
  | prep_buf (z : Z) : prepares p name (tab +:+ "char " +:+ name +:+ "[" +:+ pretty z +:+ "] = {};" +:+ nl)
  | prep_scratch b (z : Z) :
      b ∈ p_ScratchMapVars p →
      prepares p name
        (tab +:+ "int64_t *" +:+ name +:+ "_ptr = (int64_t*)" +:+ b +:+ ";" +:+ nl +:+
         tab +:+ "int64_t " +:+ name +:+ " = " +:+ pretty z +:+ ";" +:+ nl +:+
         tab +:+ "if (" +:+ name +:+ "_ptr) *" +:+ name +:+ "_ptr = " +:+ name +:+ ";" +:+ nl).

(** Only integers and pointers to the stack need preparation. *)
Definition mayPrepare (argType : string) : bool :=
  match assoc argType compatibleRegType with
  | Some arr => bool_decide (ScalarValRegType ∈ initArray arr) || bool_decide (PtrToStackRegType ∈ initArray arr)
  | None => false
  end.

Definition argOK (p : BpfProg) (D : list string) (argType : string) (a : BpfArg) : Prop :=
  a_ArgType a = argType ∧ (prepares p (a_Name a) (a_Prepare a) ∧ (a_Prepare a ≠ EmptyString → mayPrepare argType = true)) ∧
  resolves p D (a_Name a).

(** A call as the text shows it where the variables [D] may be used: every
    argument is there, of the type the helper has for it, and uses one of them or
    the variable it declares itself. *)
Definition scopedCall (p : BpfProg) (D : list string) (c : BpfCall) : Prop :=
  Forall2 (λ argType o, ∃ a, o = Some a ∧ argOK p (D ++ argDecl o) argType a) (h_Args (c_Helper c)) (c_Args c).

(** A call attached to another one is shown without preparation. *)
Definition postCall (p : BpfProg) (D : list string) (c : BpfCall) : Prop := scopedCall p D c ∧ argDecls c = [].

Fixpoint scopedCalls (p : BpfProg) (D : list string) (cs : list BpfCall) : Prop :=
  match cs with
  | [] => True
  | c :: cs => scopedCall p D c ∧ Forall (postCall p (D ++ argDecls c ++ retDecl c)) (c_PostCalls c) ∧ scopedCalls p (D ++ retDecl c) cs
  end.

(** The calls are in the order of their generation, and every use of a result
    comes after the call; the calls attached to a call directly follow it. *)
Definition scoped (p : BpfProg) : Prop :=
  p_Calls p = seq 0 (length (p_calls p)) ∧ scopedCalls p (baseDecl p) (p_calls p).

(** ** The tables *)

Definition starFree (s : string) : bool := all_chars (λ c, negb (Ascii.eqb c (Ascii.ascii_of_nat 42))) s.

(** The helper needs a map before its result is used. *)
Definition needsMap (h : BpfHelper) : bool := retsMapValue h || bool_decide (h_Enum h = BPF_FUNC_map_lookup_elem).

(** What the generator needs of the tables, as a check. *)
Definition helperReady (h : BpfHelper) : bool :=
  forallb (λ a, bool_decide (is_Some (assoc a compatibleRegType)) && bool_decide (9 ≤ String.length a)) (h_Args h) &&
  (negb (needsMap h) || bool_decide ("ARG_CONST_MAP_PTR" ∈ h_Args h)) &&
  negb (bool_decide (h_Enum h = BPF_FUNC_get_local_storage) && bool_decide (h_Args h !! 1 = Some "ARG_CONST_MAP_PTR")) &&
  starFree (h_RetBtfId h).

Definition genReady (pt : BpfProgType) : bool :=
  forallb helperReady (pt_Helpers pt) && bool_decide (pt_SecDefs pt ≠ []) &&
  forallb (λ rt, isRet (ctxField pt (regTypeString rt))) regTypes_all &&
  match ctxField pt "CONST_PTR_TO_MAP" with Ret None => true | _ => false end.

(** ** The invariant *)

(** Variables older or newer than a number. *)
Definition older (n : nat) (v : string) : Prop := ∃ k, k < n ∧ v = varName k.

Definition newer (n : nat) (v : string) : Prop := ∃ k, n ≤ k ∧ v = varName k.

(** Names of value types have no star, so that the star of a result type ends it. *)
Definition namesOK (p : MapProg) : Prop :=
  Forall (λ sd, starFree (sd_Name sd) = true) (p_Structs p) ∧
  Forall (λ m, ∀ sd, m_Val m = Some sd → starFree (sd_Name sd) = true) (p_Maps p).

Definition mapIndex (p : BpfProg) (o : option nat) : Prop := ∀ i, o = Some i → i < length (BpfMaps.p_Maps (p_maps p)).

Definition hintOK (p : BpfProg) (hint : BpfCallGenHint) : Prop :=
  singleHint (ArgHints hint) ∧ (8 | RetAccessSize hint)%Z ∧ mapIndex p (PreferredMap hint).

(** The map argument of a call is its [ArgMap]. *)
Definition mapKnown (c : BpfCall) : Prop :=
  ∀ i a, c_Args c !! i = Some (Some a) → a_ArgType a = "ARG_CONST_MAP_PTR" → is_Some (c_ArgMap c).

(** A call under construction. *)
Record callShape (pt : BpfProgType) (p : BpfProg) (c : BpfCall) : Prop := {
  cs_helper : c_Helper c ∈ pt_Helpers pt;
  cs_len : length (c_Args c) = length (h_Args (c_Helper c));
  cs_hint : hintOK p (c_Hint c);
  cs_map : mapIndex p (c_ArgMap c);
  cs_known : mapKnown c;
}.

(** Helpers whose result is a value. *)
Definition hasResult (h : BpfHelper) : bool :=
  bool_decide (h_Ret h ∈ retToRegTypeMap.*1) && negb (bool_decide (h_Ret h = "RET_VOID")).

(** A finished call. *)
Record callOK (pt : BpfProgType) (p : BpfProg) (c : BpfCall) : Prop := {
  co_shape : callShape pt p c;
  co_scope : scopedCall p (usable p) c;
  co_post : Forall (postCall p (usable p)) (c_PostCalls c);
  co_ret : hasResult (c_Helper c) = true → c_RetType c ≠ EmptyString;
  co_struct : isRet (retStruct (c_RetType c)) = true;
}.

Record inv (pt : BpfProgType) (s : GState) : Prop := {
  i_store : storeOK (g_store s);
  i_maps : progOK (p_maps (g_prog s));
  i_names : namesOK (p_maps (g_prog s));
  i_stack : (0 ≤ p_TotalStackUsage (g_prog s) ≤ stackLimit)%Z;
  i_scratch : p_ScratchMapVars (g_prog s) = varName <$> seq 0 10;
  i_index : (0 ≤ p_ScratchMapIndex (g_prog s) < 10)%Z;
  i_nodup : NoDup (declared (g_prog s));
  i_older : Forall (older (p_VarId (g_prog s))) (declared (g_prog s));
  i_ctx : dom (p_CtxTypes (g_prog s)) = dom (p_CtxVars (g_prog s));
  i_extern : ∀ v t, p_Externs (g_prog s) !! v = Some t → v = "bpf_prog_active" ∧ t = "int";
  i_calls : Forall (callOK pt (g_prog s)) (p_calls (g_prog s));
  i_order : Forall (λ i, i < length (p_calls (g_prog s))) (p_Calls (g_prog s));
}.

(** What a computation keeps: maps stay but for their flags, variables stay
    declared, new variables have new names, calls are only added, and the depth
    does not fall. *)
Definition sameMap (m m' : BpfMap) : Prop :=
  m_Name m' = m_Name m ∧ m_Type m' = m_Type m ∧ m_Key m' = m_Key m ∧ m_Val m' = m_Val m ∧ m_InnerMap m' = m_InnerMap m.

Record ext (s s' : GState) : Prop := {
  e_var : p_VarId (g_prog s) ≤ p_VarId (g_prog s');
  e_old : ∀ v, v ∈ declared (g_prog s) → v ∈ declared (g_prog s');
  e_new : ∀ v, v ∈ declared (g_prog s') → v ∈ declared (g_prog s) ∨ newer (p_VarId (g_prog s)) v;
  e_base : ∀ v, v ∈ baseDecl (g_prog s) → v ∈ baseDecl (g_prog s');
  e_use : ∀ v, v ∈ usable (g_prog s) → v ∈ usable (g_prog s');
  e_scratch : p_ScratchMapVars (g_prog s') = p_ScratchMapVars (g_prog s);
  e_maps : ∀ i m, BpfMaps.p_Maps (p_maps (g_prog s)) !! i = Some m →
    ∃ m', BpfMaps.p_Maps (p_maps (g_prog s')) !! i = Some m' ∧ sameMap m m';
  e_externs : p_Externs (g_prog s) ⊆ p_Externs (g_prog s');
  e_rd : (g_rd s ≤ g_rd s')%Z;
  e_calls : p_calls (g_prog s) `prefix_of` p_calls (g_prog s');
  e_ops : p_StructOps (g_prog s') = p_StructOps (g_prog s);
  e_listed : p_Calls (g_prog s) ⊆ p_Calls (g_prog s');
}.

(** ** Logic *)

(** [gens tot m s Q]: from [s], whatever the random stream, [m] does not panic,
    its result and state satisfy [Q], and if [tot] is set it has a result. *)
Definition gens (tot : bool) {A} (m : G A) (s : GState) (Q : A → GState → Prop) : Prop :=
  ensures tot (m s) (λ r, Q r.1 r.2).

(** [p.NewMap] as the generator sees it. *)
Class MapMaker (tot : bool) (newMap : MapProg → BpfMapType → list ArgHint → Z → Gen (option nat * MapProg * list ArgHint)) : Prop :=
  newMap_makes : ∀ p mt hints msh,
    mt ∈ bpfMapTypes → progOK p → namesOK p → singleHint hints → (msh ≤ 0 ∨ (8 | msh))%Z →
    ensures tot (newMap p mt hints msh)
      (λ r, newMapPost p mt hints msh r ∧ namesOK r.1.2 ∧ r.2 ⊆ hints).

(** ** Rules of the logic *)

Lemma gens_ret tot {A} (a : A) s (Q : A → GState → Prop) : Q a s → gens tot (mret a) s Q.
Proof. intros H. by apply ensures_ret. Qed.

Lemma gens_bind tot {A B} (m : G A) (k : A → G B) s (P : A → GState → Prop) (Q : B → GState → Prop) :
  gens tot m s P → (∀ a s', P a s' → gens tot (k a) s' Q) → gens tot (m ≫= k) s Q.
Proof. intros Hm Hk. eapply ensures_bind; [exact Hm|]. intros [a s'] H. by apply Hk. Qed.

Lemma gens_mono tot {A} (m : G A) s (P Q : A → GState → Prop) :
  gens tot m s P → (∀ a s', P a s' → Q a s') → gens tot m s Q.
Proof.
  intros Hm H r. specialize (Hm r). destruct (m s r) as [[[a s'] r']| |]; [|done..]. by apply H.
Qed.

Lemma gens_draw tot {A} (m : Gen A) s (Q : A → GState → Prop) :
  ensures tot m (λ a, Q a s) → gens tot (draw m) s Q.
Proof. intros Hm. eapply ensures_bind; [exact Hm|]. intros a Ha. by apply ensures_ret. Qed.

(** The first step of a computation. *)
Section steps.
Context (tot : bool) {B : Type} (s : GState) (Q : B → GState → Prop).

Lemma gens_get (k : BpfProg → G B) : gens tot (k (g_prog s)) s Q → gens tot (getProg ≫= k) s Q.
Proof. exact id. Qed.

Lemma gens_mod f (k : unit → G B) :
  gens tot (k tt) (mkGS (g_store s) (g_rd s) (f (g_prog s))) Q → gens tot (modProg f ≫= k) s Q.
Proof. exact id. Qed.

Lemma gens_getRd (k : Z → G B) : gens tot (k (g_rd s)) s Q → gens tot (getRd ≫= k) s Q.
Proof. exact id. Qed.

Lemma gens_setRd rd (k : unit → G B) :
  gens tot (k tt) (mkGS (g_store s) rd (g_prog s)) Q → gens tot (setRd rd ≫= k) s Q.
Proof. exact id. Qed.

Lemma gens_newVar (k : string → G B) :
  gens tot (k (varName (p_VarId (g_prog s))))
    (mkGS (g_store s) (g_rd s) (withVarId (S (p_VarId (g_prog s))) (g_prog s))) Q →
  gens tot (newVar ≫= k) s Q.
Proof. exact id. Qed.

Lemma gens_need {A} (m : res A) a (k : A → G B) : m = Ret a → gens tot (k a) s Q → gens tot (need m ≫= k) s Q.
Proof. by intros ->. Qed.

Lemma gens_pure {A} (a : A) (k : A → G B) : gens tot (k a) s Q → gens tot (mret a ≫= k) s Q.
Proof. exact id. Qed.

Lemma gens_wp {A} (m : Gen A) (P : A → Prop) (k : A → G B) :
  wp m P → (∀ a, P a → gens tot (k a) s Q) → gens tot (draw m ≫= k) s Q.
Proof.
  intros Hm Hk. apply (gens_bind _ _ _ _ (λ a s', P a ∧ s' = s)); [|intros a s' [H ->]; by apply Hk].
  eapply gens_draw, ensures_wp, wp_mono; [exact Hm|]. by intros a Ha.
Qed.
End steps.

Lemma gens_if tot {A} (b : bool) (m1 m2 : G A) s (Q : A → GState → Prop) :
  (b = true → gens tot m1 s Q) → (b = false → gens tot m2 s Q) → gens tot (if b then m1 else m2) s Q.
Proof. destruct b; auto. Qed.

(** Runs the steps that do not branch. *)
Ltac gstep :=
  lazymatch goal with
  | |- gens _ (mbind _ newVar) _ _ => apply gens_newVar
  | |- gens _ (mbind _ (modProg _)) _ _ => apply gens_mod
  | |- gens _ (mbind _ getProg) _ _ => apply gens_get
  | |- gens _ (mbind _ getRd) _ _ => apply gens_getRd
  | |- gens _ (mbind _ (setRd _)) _ _ => apply gens_setRd
  | |- gens _ (mbind _ (mret _)) _ _ => apply gens_pure
  end.

Ltac gsteps := repeat (gstep; cbv beta zeta); cbn beta.

(** ** Lemmas on names *)

#[global] Instance varName_inj : Inj (=) (=) varName.
Proof. intros n m H. unfold varName in H. by apply (inj (String.app "v")), (inj pretty) in H. Qed.

Lemma older_newer n v : older n v → newer n v → False.
Proof. intros (k & Hk & ->) (k' & Hk' & ->%varName_inj). lia. Qed.

Lemma older_mono n n' v : n ≤ n' → older n v → older n' v.
Proof. intros ? (k & ? & ->). exists k. split; [lia|done]. Qed.

Lemma newer_mono n n' v : n ≤ n' → newer n' v → newer n v.
Proof. intros ? (k & ? & ->). exists k. split; [lia|done]. Qed.

#[global] Instance sameMap_preorder : PreOrder sameMap.
Proof.
  split; [by intros m|]. intros m1 m2 m3 (? & ? & ? & ? & ?) (? & ? & ? & ? & ?). unfold sameMap. intuition congruence.
Qed.

#[global] Instance ext_preorder : PreOrder ext.
Proof.
  split.
  - intros s. split; try done; [by left|]. intros i m ?. by exists m.
  - intros s1 s2 s3 [H1 H2 H3 H4 Hu H5 H6 H7 H8 H9 H10 H11] [K1 K2 K3 K4 Ku K5 K6 K7 K8 K9 K10 K11]. split; eauto with lia.
    + intros v [?|?]%K3; [by apply H3|]. right. by eapply newer_mono.
    + congruence.
    + intros i m (m2 & (m3 & ? & ?)%K6 & ?)%H6. exists m3. split; [done|]. by trans m2.
    + by trans (p_Externs (g_prog s2)).
    + by trans (p_calls (g_prog s2)).
    + congruence.
    + by trans (p_Calls (g_prog s2)).
Qed.

(** What names refer to is still there in [p']. *)
Record grown (p p' : BpfProg) : Prop := {
  gr_maps : ∀ i m, BpfMaps.p_Maps (p_maps p) !! i = Some m →
    ∃ m', BpfMaps.p_Maps (p_maps p') !! i = Some m' ∧ sameMap m m';
  gr_externs : p_Externs p ⊆ p_Externs p';
  gr_scratch : p_ScratchMapVars p' = p_ScratchMapVars p;
}.

Lemma ext_grown s s' : ext s s' → grown (g_prog s) (g_prog s').
Proof. intros []. by split. Qed.

Lemma withCalls_grown p heap calls : grown p (withCalls heap calls p).
Proof. split; [|done..]. intros i m ?. by exists m. Qed.

Lemma grown_refl p : grown p p.
Proof. split; [|done..]. intros i m ?. by exists m. Qed.

Lemma resolves_mono p p' D D' v : grown p p' → D ⊆ D' → resolves p D v → resolves p' D' v.
Proof.
  intros [Hm He _] HD [| |i m Hi|x t' Hv|x|x|x]; try (by constructor; auto).
  - destruct (Hm _ _ Hi) as (m' & Hi' & <- & _). by eapply res_map.
  - eapply res_extern. by eapply lookup_weaken.
Qed.

Lemma argOK_mono p p' D D' t a :
  grown p p' → (∀ x, x ∈ D → x ∈ D') → argOK p D t a → argOK p' D' t a.
Proof.
  intros Hg HD (? & [Hp ?] & Hr). split_and!; [done|destruct Hp; constructor; by rewrite (gr_scratch _ _ Hg)|done|].
  by eapply resolves_mono.
Qed.

Lemma scopedCall_mono p p' D D' c :
  grown p p' → (∀ x, x ∈ D → x ∈ D') → scopedCall p D c → scopedCall p' D' c.
Proof.
  intros He HD Hc. eapply Forall2_impl; [exact Hc|]. intros t o (a & -> & Ha). exists a. split; [done|].
  eapply argOK_mono; [done| |done]. set_solver.
Qed.

Lemma postCalls_mono p p' D D' l :
  grown p p' → (∀ x, x ∈ D → x ∈ D') → Forall (postCall p D) l → Forall (postCall p' D') l.
Proof. intros Hg HD Hl. eapply Forall_impl; [exact Hl|]. intros c [? ?]. split; [by eapply scopedCall_mono|done]. Qed.

Lemma scopedCalls_mono p p' D D' cs :
  grown p p' → (∀ x, x ∈ D → x ∈ D') → scopedCalls p D cs → scopedCalls p' D' cs.
Proof.
  intros He. revert D D'. induction cs as [|c cs IH]; intros D D' HD; [done|]. intros (Hc & Hp & Hcs). split; [|split].
  - by eapply scopedCall_mono.
  - eapply postCalls_mono; [done| |done]. set_solver.
  - eapply IH; [|done]. set_solver.
Qed.

Lemma scopedCalls_app p D cs1 cs2 :
  scopedCalls p D (cs1 ++ cs2) ↔ scopedCalls p D cs1 ∧ scopedCalls p (D ++ concat (retDecl <$> cs1)) cs2.
Proof.
  revert D. induction cs1 as [|c cs1 IH]; intros D; simpl; [rewrite app_nil_r; tauto|].
  rewrite IH, <- app_assoc. tauto.
Qed.

Lemma mapIndex_ext s s' o : ext s s' → mapIndex (g_prog s) o → mapIndex (g_prog s') o.
Proof.
  intros He H i Hi. apply H, lookup_lt_is_Some in Hi as [m Hm].
  destruct (e_maps _ _ He _ _ Hm) as (m' & ? & _). by eapply lookup_lt_Some.
Qed.

Lemma callShape_ext pt s s' c : ext s s' → callShape pt (g_prog s) c → callShape pt (g_prog s') c.
Proof.
  intros He [? ? (? & ? & ?) ? ?]. split; try done; [split_and!; try done|]; by eapply mapIndex_ext.
Qed.

Lemma callOK_ext pt s s' c : ext s s' → callOK pt (g_prog s) c → callOK pt (g_prog s') c.
Proof.
  intros He [Hs Hd Hp Hr Ht].
  assert (Hm : ∀ x, scopedCall (g_prog s) (usable (g_prog s)) x → scopedCall (g_prog s') (usable (g_prog s')) x).
  { intros x. eapply scopedCall_mono; [by apply ext_grown|apply He]. }
  split; try done; [by eapply callShape_ext|by apply Hm|]. eapply postCalls_mono; [by apply ext_grown|apply He|done].
Qed.

(** ** Steps of the state

    [good sc s]: the invariant holds, and the program is in scope if [sc] is set
    (a program with prepended calls may not be). *)
Definition good (pt : BpfProgType) (sc : bool) (s : GState) : Prop :=
  inv pt s ∧ (sc = true → scoped (g_prog s)).

Definition keeps (pt : BpfProgType) (sc : bool) (s s' : GState) : Prop := ext s s' ∧ good pt sc s'.

Lemma keeps_refl pt sc s : good pt sc s → keeps pt sc s s.
Proof. by intros. Qed.

Lemma keeps_trans pt sc s1 s2 s3 : keeps pt sc s1 s2 → keeps pt sc s2 s3 → keeps pt sc s1 s3.
Proof. intros [? _] [? ?]. split; [by trans s2|done]. Qed.

(** A step that changes no call. *)
Lemma keeps_step pt sc s s' :
  good pt sc s → ext s s' →
  p_calls (g_prog s') = p_calls (g_prog s) → p_Calls (g_prog s') = p_Calls (g_prog s) →
  storeOK (g_store s') → progOK (p_maps (g_prog s')) → namesOK (p_maps (g_prog s')) →
  (0 ≤ p_TotalStackUsage (g_prog s') ≤ stackLimit)%Z → (0 ≤ p_ScratchMapIndex (g_prog s') < 10)%Z →
  NoDup (declared (g_prog s')) → Forall (older (p_VarId (g_prog s'))) (declared (g_prog s')) →
  dom (p_CtxTypes (g_prog s')) = dom (p_CtxVars (g_prog s')) →
  (∀ v t, p_Externs (g_prog s') !! v = Some t → v = "bpf_prog_active" ∧ t = "int") →
  keeps pt sc s s'.
Proof.
  intros [Hi Hs] He Ec EC. intros. split; [done|]. split.
  - split; try done.
    + rewrite (e_scratch _ _ He). apply Hi.
    + rewrite Ec. eapply Forall_impl; [apply Hi|]. intros c. by apply callOK_ext.
    + rewrite Ec, EC. apply Hi.
  - intros Hsc. destruct (Hs Hsc) as [Hs1 Hs2]. split; rewrite Ec; [by rewrite EC|].
    eapply scopedCalls_mono; [by apply ext_grown|apply He|done].
Qed.

Ltac inv_split H := destruct H as [[Hst Hmp Hnm Hstk Hscr Hidx Hnd Hold Hctx Hxt Hcs Hord] Hscp].

Lemma keeps_quiet pt sc s s' :
  good pt sc s → p_calls (g_prog s') = p_calls (g_prog s) → p_Calls (g_prog s') = p_Calls (g_prog s) →
  p_CtxVars (g_prog s') = p_CtxVars (g_prog s) → p_CtxTypes (g_prog s') = p_CtxTypes (g_prog s) →
  p_ScratchMapVars (g_prog s') = p_ScratchMapVars (g_prog s) → p_StructOps (g_prog s') = p_StructOps (g_prog s) →
  p_VarId (g_prog s) ≤ p_VarId (g_prog s') → p_Externs (g_prog s) ⊆ p_Externs (g_prog s') →
  (∀ v t, p_Externs (g_prog s') !! v = Some t → v = "bpf_prog_active" ∧ t = "int") →
  (g_rd s ≤ g_rd s')%Z → storeOK (g_store s') →
  progOK (p_maps (g_prog s')) → namesOK (p_maps (g_prog s')) →
  (∀ i m, BpfMaps.p_Maps (p_maps (g_prog s)) !! i = Some m →
     ∃ m', BpfMaps.p_Maps (p_maps (g_prog s')) !! i = Some m' ∧ sameMap m m') →
  (0 ≤ p_TotalStackUsage (g_prog s') ≤ stackLimit)%Z → (0 ≤ p_ScratchMapIndex (g_prog s') < 10)%Z →
  keeps pt sc s s'.
Proof.
  intros Hg Ec EC Ev Et Es Eo. intros.
  assert (Eb : baseDecl (g_prog s') = baseDecl (g_prog s)) by (unfold baseDecl; by rewrite Es, Ev).
  assert (Ed : declared (g_prog s') = declared (g_prog s)) by (unfold declared; by rewrite Eb, Ec).
  assert (Eu : usable (g_prog s') = usable (g_prog s)) by (unfold usable; by rewrite Eb, Ec).
  pose proof Hg as Hg'. inv_split Hg'. apply keeps_step; try done; try (by rewrite Ed).
  - split; try done; [by rewrite Ed|rewrite Ed; by left|by rewrite Eb|by rewrite Eu|by rewrite Ec|by rewrite EC].
  - rewrite Ed. eapply Forall_impl; [exact Hold|]. intros v. by apply older_mono.
  - by rewrite Et, Ev.
Qed.

Section moves.
Context (pt : BpfProgType) (sc : bool) (s : GState) (Hg : good pt sc s).

Lemma sameMaps_refl : ∀ i m, BpfMaps.p_Maps (p_maps (g_prog s)) !! i = Some m →
  ∃ m', BpfMaps.p_Maps (p_maps (g_prog s)) !! i = Some m' ∧ sameMap m m'.
Proof. intros i m Hm. by exists m. Qed.

Lemma keeps_var : keeps pt sc s (mkGS (g_store s) (g_rd s) (withVarId (S (p_VarId (g_prog s))) (g_prog s))).
Proof using Hg. pose proof Hg as H. inv_split H. apply keeps_quiet; simpl; try done; try lia. apply sameMaps_refl. Qed.

Lemma keeps_stack u :
  (0 ≤ u ≤ stackLimit)%Z → keeps pt sc s (mkGS (g_store s) (g_rd s) (withStack u (g_prog s))).
Proof using Hg. intros. pose proof Hg as H'. inv_split H'. apply keeps_quiet; simpl; try done; try lia. apply sameMaps_refl. Qed.

Lemma keeps_scratch i :
  (0 ≤ i < 10)%Z → keeps pt sc s (mkGS (g_store s) (g_rd s) (withScratch i (g_prog s))).
Proof using Hg. intros. pose proof Hg as H'. inv_split H'. apply keeps_quiet; simpl; try done; try lia. apply sameMaps_refl. Qed.

Lemma keeps_rd rd : (g_rd s ≤ rd)%Z → keeps pt sc s (mkGS (g_store s) rd (g_prog s)).
Proof using Hg. intros. pose proof Hg as H'. inv_split H'. apply keeps_quiet; simpl; try done. apply sameMaps_refl. Qed.

Lemma keeps_store st : storeOK st → keeps pt sc s (mkGS st (g_rd s) (g_prog s)).
Proof using Hg. intros. pose proof Hg as H'. inv_split H'. apply keeps_quiet; simpl; try done; try lia. apply sameMaps_refl. Qed.

Lemma keeps_extern :
  keeps pt sc s (mkGS (g_store s) (g_rd s) (withExtern "bpf_prog_active" "int" (g_prog s))).
Proof using Hg.
  pose proof Hg as H'. inv_split H'. apply keeps_quiet; simpl; try done; try lia; [| |apply sameMaps_refl].
  - destruct (p_Externs (g_prog s) !! "bpf_prog_active") as [t|] eqn:E; [|by apply insert_subseteq].
    destruct (Hxt _ _ E) as [_ ->]. by rewrite insert_id.
  - intros v t [[<- <-]|[_ ?]]%lookup_insert_Some; [done|by apply Hxt].
Qed.

Lemma keeps_maps mp :
  progOK mp → namesOK mp →
  (∀ i m, BpfMaps.p_Maps (p_maps (g_prog s)) !! i = Some m →
     ∃ m', BpfMaps.p_Maps mp !! i = Some m' ∧ sameMap m m') →
  keeps pt sc s (mkGS (g_store s) (g_rd s) (withMaps mp (g_prog s))).
Proof using Hg. intros. pose proof Hg as H'. inv_split H'. apply keeps_quiet; simpl; try done; lia. Qed.

End moves.

(** A variable for a context field. *)
Lemma declared_ctx p field v typ :
  p_CtxVars p !! field = None → declared (withCtxVar field v typ p) ≡ₚ v :: declared p.
Proof.
  intros H. unfold declared, baseDecl. simpl. rewrite map_to_list_insert by done. simpl. solve_Permutation.
Qed.

Lemma fresh_var pt s : inv pt s → varName (p_VarId (g_prog s)) ∉ declared (g_prog s).
Proof.
  intros Hi Hv. eapply Forall_forall in Hv; [|apply Hi]. eapply older_newer; [exact Hv|]. by eexists.
Qed.

Lemma keeps_ctx pt sc s field typ :
  good pt sc s → p_CtxVars (g_prog s) !! field = None →
  keeps pt sc s (mkGS (g_store s) (g_rd s)
    (withCtxVar field (varName (p_VarId (g_prog s))) typ (withVarId (S (p_VarId (g_prog s))) (g_prog s)))).
Proof.
  intros Hg Hf. pose proof Hg as H'. inv_split H'.
  set (p := withVarId (S (p_VarId (g_prog s))) (g_prog s)). set (v := varName (p_VarId (g_prog s))).
  assert (Ed : declared (withCtxVar field v typ p) ≡ₚ v :: declared (g_prog s)) by (by apply (declared_ctx p)).
  apply keeps_step; simpl; try done.
  - split; simpl; try done; try lia.
    + intros x Hx. rewrite Ed. by right.
    + intros x. rewrite Ed, elem_of_cons. intros [->|?]; [right|by left]. by eexists.
    + intros x. unfold baseDecl. simpl. rewrite map_to_list_insert by done. set_solver.
    + intros x. unfold usable, baseDecl. simpl. rewrite map_to_list_insert by done. set_solver.
    + apply sameMaps_refl.
  - rewrite Ed. constructor; [|done]. by eapply fresh_var, Hg.
  - rewrite Ed. constructor; [eexists; split; [|done]; simpl; lia|].
    eapply Forall_impl; [exact Hold|]. intros x. apply older_mono. simpl. lia.
  - by rewrite !dom_insert_L, Hctx.
Qed.

(** A finished call is added. *)
Lemma declared_push p c order :
  declared (withCalls (p_calls p ++ [c]) order p) = declared p ++ callDecl c.
Proof. unfold declared, baseDecl. simpl. rewrite fmap_app, concat_app. simpl. by rewrite app_nil_r, app_assoc. Qed.

Lemma usable_push p c order : usable (withCalls (p_calls p ++ [c]) order p) = usable p ++ retDecl c.
Proof. unfold usable, baseDecl. simpl. rewrite fmap_app, concat_app. simpl. by rewrite app_nil_r, app_assoc. Qed.

Lemma elem_of_concat_fmap {A B} (f : A → list B) (l : list A) v : v ∈ concat (f <$> l) ↔ ∃ x, x ∈ l ∧ v ∈ f x.
Proof.
  rewrite list_elem_of_In, in_concat. split.
  - intros (y & (x & -> & Hx)%list_elem_of_In%list_elem_of_fmap & Hv%list_elem_of_In). eauto.
  - intros (x & Hx & Hv). exists (f x). split; apply list_elem_of_In; [by apply list_elem_of_fmap_2|done].
Qed.

Lemma usable_declared p : usable p ⊆ declared p.
Proof.
  intros v. unfold usable, declared. rewrite !elem_of_app, !elem_of_concat_fmap. intros [?|(c & ? & ?)]; [by left|right].
  exists c. split; [done|]. unfold callDecl. set_solver.
Qed.

Record fresh (s0 s : GState) (l : list string) : Prop := {
  fr_nodup : NoDup (declared (g_prog s) ++ l);
  fr_range : Forall (λ v, newer (p_VarId (g_prog s0)) v ∧ older (p_VarId (g_prog s)) v) l;
}.

Lemma fresh_nil pt s0 s : inv pt s → fresh s0 s [].
Proof. intros Hi. split; [rewrite app_nil_r; apply Hi|constructor]. Qed.

Lemma fresh_ext pt s0 s s' l : inv pt s' → ext s s' → fresh s0 s l → fresh s0 s' l.
Proof.
  intros Hi He [Hn Hr]. apply NoDup_app in Hn as (_ & Hd & Hl). split.
  - apply NoDup_app. split_and!; [apply Hi| |done]. intros v Hv Hvl. apply (Hd v); [|done].
    rewrite Forall_forall in Hr. destruct (Hr v Hvl) as [_ Ho].
    destruct (e_new _ _ He _ Hv) as [?|Hnew]; [done|]. by destruct (older_newer _ _ Ho Hnew).
  - eapply Forall_impl; [exact Hr|]. intros v [? ?]. split; [done|]. eapply older_mono; [apply He|done].
Qed.

Lemma fresh_app s0 s s' l a :
  ext s0 s → fresh s0 s' l → fresh s s' a → l ## a → fresh s0 s' (l ++ a).
Proof.
  intros He [Hn Hr] [Hn' Hr'] Hd. apply NoDup_app in Hn as (Hn0 & Hl & Hnl), Hn' as (_ & Ha & Hna). split.
  - apply NoDup_app. split_and!; [done|set_solver|]. apply NoDup_app. split_and!; [done|set_solver|done].
  - apply Forall_app_2; [done|]. eapply Forall_impl; [exact Hr'|]. intros v [? ?]. split; [|done].
    eapply newer_mono; [apply He|done].
Qed.

Lemma good_push pt sc s c (prepend : bool) :
  good pt sc s → callShape pt (g_prog s) c → scopedCall (g_prog s) (usable (g_prog s)) c →
  c_PostCalls c = [] → (hasResult (c_Helper c) = true → c_RetType c ≠ EmptyString) → isRet (retStruct (c_RetType c)) = true →
  NoDup (declared (g_prog s) ++ callDecl c) → Forall (older (p_VarId (g_prog s))) (callDecl c) →
  good pt (sc && negb prepend) (mkGS (g_store s) (g_rd s)
    (withCalls (p_calls (g_prog s) ++ [c])
       (if prepend then length (p_calls (g_prog s)) :: p_Calls (g_prog s)
        else p_Calls (g_prog s) ++ [length (p_calls (g_prog s))]) (g_prog s))).
Proof.
  intros Hg Hsh Hsco Hpost Hret Hstr Hnd' Hold'. inv_split Hg.
  set (p' := withCalls _ _ (g_prog s)). pose proof (declared_push (g_prog s) c
    (if prepend then length (p_calls (g_prog s)) :: p_Calls (g_prog s)
     else p_Calls (g_prog s) ++ [length (p_calls (g_prog s))])) as Ed. fold p' in Ed.
  assert (Eu : usable p' = usable (g_prog s) ++ retDecl c) by apply usable_push.
  assert (Hmono : ∀ c', scopedCall (g_prog s) (usable (g_prog s)) c' → scopedCall p' (usable p') c').
  { intros c'. apply scopedCall_mono; [apply withCalls_grown|]. rewrite Eu. set_solver. }
  split.
  - split; simpl; try done.
    + by rewrite Ed.
    + rewrite Ed. by apply Forall_app_2.
    + apply Forall_app_2.
      * eapply Forall_impl; [exact Hcs|]. intros c' [Hsh' ? ? ? ?]. split; try done; [by destruct Hsh'|by apply Hmono|].
        eapply postCalls_mono; [apply withCalls_grown| |done]. rewrite Eu. set_solver.
      * constructor; [|done]. split; try done; [by destruct Hsh|by apply Hmono|by rewrite Hpost].
    + rewrite length_app. simpl. destruct prepend.
      * constructor; [lia|]. eapply Forall_impl; [exact Hord|]. simpl. lia.
      * apply Forall_app_2; [|constructor; [lia|done]]. eapply Forall_impl; [exact Hord|]. simpl. lia.
  - intros [-> ->%negb_true_iff]%andb_true_iff. destruct (Hscp eq_refl) as [E1 E2]. split; simpl.
    + rewrite E1, length_app. simpl. by rewrite seq_app.
    + eapply scopedCalls_mono; [apply withCalls_grown|intros x Hx; exact Hx|].
      apply scopedCalls_app. split; [exact E2|]. split; [exact Hsco|]. by rewrite Hpost.
Qed.
