(* ===== verification/BpfCallSafe.v ===== *)
(** * The helper-call generator is safe

    The specification of every generator of [BpfCallGen], against the interface
    [MapMaker] of [NewMap] and for every program type whose tables pass the check
    [genReady]: it does not panic, keeps the invariant of the program, and gives
    arguments that use declared variables.  The recursion is bounded by the depth
    counter [rd]. *)

From stdpp Require Import base numbers strings pretty gmap list.
From S2P Require Import Prelude BpfTypes BpfHelperTable BpfProgTable BpfCtxTable BpfInit BpfRegTypes BpfMaps BpfNewMap Rand.
From S2P Require Import StructOpsModel StructOpsGen StructOpsTyping BpfCallGen BpfCallSpec.

Local Open Scope string_scope.
Local Open Scope list_scope.
Local Open Scope nat_scope.

(** ** Specifications *)

(** What a generator may change of the call it works on. *)
Record edited (c c' : BpfCall) : Prop := {
  ed_helper : c_Helper c' = c_Helper c;
  ed_args : c_Args c' = c_Args c;
  ed_ret : c_Ret c' = c_Ret c;
  ed_type : c_RetType c' = c_RetType c;
  ed_post : c_PostCalls c' = c_PostCalls c;
}.

(** A new argument: what it declares is new, and its name refers to something. *)
Record newArg (s s' : GState) (t : string) (a : BpfArg) : Prop := {
  na_ok : argOK (g_prog s') (usable (g_prog s') ++ argDecl (Some a)) t a;
  na_fresh : fresh s s' (argDecl (Some a));
}.

Record genPost (pt : BpfProgType) (sc : bool) (s : GState) (c : BpfCall) (t : string)
    (r : option BpfArg * BpfCall) (s' : GState) : Prop := {
  gp_keeps : keeps pt sc s s';
  gp_edited : edited c r.2;
  gp_shape : callShape pt (g_prog s') r.2;
  gp_arg : ∀ a, r.1 = Some a → newArg s s' t a;
  gp_map : ∀ a, r.1 = Some a → t = "ARG_CONST_MAP_PTR" → is_Some (c_ArgMap r.2);
}.

#[global] Instance edited_preorder : PreOrder edited.
Proof. split; [by intros c|]. intros c1 c2 c3 [] []. split; congruence. Qed.

Lemma fresh_weaken s0 s s' l : ext s0 s → fresh s s' l → fresh s0 s' l.
Proof.
  intros He [? Hr]. split; [done|]. eapply Forall_impl; [exact Hr|]. intros v [? ?]. split; [|done].
  eapply newer_mono; [apply He|done].
Qed.

Lemma genPost_trans pt sc s0 s c0 c t r s' :
  keeps pt sc s0 s → edited c0 c → genPost pt sc s c t r s' → genPost pt sc s0 c0 t r s'.
Proof.
  intros Hk Hc [Hk' Hc' ? Ha ?]. split; try done.
  - by eapply keeps_trans.
  - by trans c.
  - intros a H. destruct (Ha a H). split; [done|]. eapply fresh_weaken; [apply Hk|done].
Qed.

Lemma genPost_none pt sc s c t c' s' :
  keeps pt sc s s' → edited c c' → callShape pt (g_prog s') c' → genPost pt sc s c t (None, c') s'.
Proof. by split. Qed.

(** Ways to name an argument that declares nothing. *)
Lemma newArg_plain pt s0 s t a :
  inv pt s → a_ArgType a = t → a_Prepare a = EmptyString → resolves (g_prog s) (usable (g_prog s)) (a_Name a) →
  newArg s0 s t a.
Proof.
  intros Hi Ht Hp Hr.
  assert (E : argDecl (Some a) = []) by (simpl; by rewrite bool_decide_true).
  split; rewrite E; [|by eapply fresh_nil]. split_and!; [done|rewrite Hp; constructor|done|by rewrite app_nil_r].
Qed.

(** An argument that declares the variable with the next name. *)
Lemma newArg_var pt s0 s s' t a :
  inv pt s → ext s s' → a_ArgType a = t → a_Name a = varName (p_VarId (g_prog s)) →
  a_Prepare a ≠ EmptyString → prepares (g_prog s') (a_Name a) (a_Prepare a) → mayPrepare t = true →
  declared (g_prog s') = declared (g_prog s) → p_VarId (g_prog s') = S (p_VarId (g_prog s)) →
  ext s0 s → newArg s0 s' t a.
Proof.
  intros Hi He Ht Hn Hp Hpp Hmay Hd Hv He0.
  assert (E : argDecl (Some a) = [a_Name a]) by (simpl; by rewrite bool_decide_false).
  split; rewrite E.
  - split_and!; [done..|]. constructor. set_solver.
  - split; [rewrite Hd|].
    + apply NoDup_app. split_and!; [apply Hi| |by apply NoDup_singleton].
      intros v Hv' ->%list_elem_of_singleton. rewrite Hn in Hv'. by eapply fresh_var.
    + constructor; [|done]. rewrite Hn. split; eexists; (split; [|done]); [apply He0|lia].
Qed.

(** ** The generators *)

Section generators.
Context (pt : BpfProgType) (Hready : genReady pt = true).
Context (tot : bool) (newMap : MapProg → BpfMapType → list ArgHint → Z → Gen (option nat * MapProg * list ArgHint)).
Context `{!MapMaker tot newMap} (sc : bool).

Lemma ready_helper h : h ∈ pt_Helpers pt → helperReady h = true.
Proof using Hready.
  intros Hh. unfold genReady in Hready. rewrite !andb_true_iff, forallb_forall in Hready.
  destruct Hready as [[[H _] _] _]. by apply H, list_elem_of_In.
Qed.

Lemma helper_argType h i t :
  h ∈ pt_Helpers pt → h_Args h !! i = Some t → is_Some (assoc t compatibleRegType) ∧ 9 ≤ String.length t.
Proof using Hready.
  intros Hh Ht. apply ready_helper in Hh. unfold helperReady in Hh.
  rewrite !andb_true_iff, forallb_forall in Hh. destruct Hh as [[[Hh _] _] _].
  apply list_elem_of_lookup_2, list_elem_of_In, Hh in Ht. by rewrite andb_true_iff, !bool_decide_eq_true in Ht.
Qed.

Lemma ready_map h : h ∈ pt_Helpers pt → needsMap h = true → "ARG_CONST_MAP_PTR" ∈ h_Args h.
Proof using Hready.
  intros Hh%ready_helper Hn. unfold helperReady in Hh. rewrite !andb_true_iff in Hh.
  destruct Hh as [[[_ Hh] _] _]. rewrite Hn in Hh. by apply bool_decide_eq_true in Hh.
Qed.

Lemma ready_storage h :
  h ∈ pt_Helpers pt → h_Enum h = BPF_FUNC_get_local_storage → h_Args h !! 1 ≠ Some "ARG_CONST_MAP_PTR".
Proof using Hready.
  intros Hh%ready_helper He Hl. unfold helperReady in Hh. rewrite !andb_true_iff in Hh.
  destruct Hh as [[_ Hh] _]. by rewrite !bool_decide_true in Hh.
Qed.

Lemma ready_ctx rt : ∃ o, ctxField pt (regTypeString rt) = Ret o ∧ (rt = ConstPtrToMapRegType → o = None).
Proof using Hready.
  unfold genReady in Hready. rewrite !andb_true_iff in Hready.
  destruct Hready as [[_ H] Hm]. rewrite forallb_forall in H. specialize (H rt (proj1 (list_elem_of_In _ _) (regTypes_all_elem rt))).
  destruct (ctxField pt (regTypeString rt)) as [o| |] eqn:E; [|done..]. exists o. split; [done|].
  intros ->. simpl in E. rewrite E in Hm. by destruct o.
Qed.

(** A new argument has no name yet, and declares nothing. *)
Lemma NewBpfArg_ret h i t :
  h ∈ pt_Helpers pt → h_Args h !! i = Some t →
  ∃ a, NewBpfArg h i = Ret a ∧ a_ArgType a = t ∧ a_Prepare a = EmptyString.
Proof using Hready.
  intros Hh Ht. destruct (helper_argType _ _ _ Hh Ht) as [_ Hl]. unfold NewBpfArg. rewrite Ht. simpl.
  rewrite bool_decide_false by lia. eexists. split; [done|]. by repeat case_match.
Qed.

Lemma gens_NewBpfArg {B} h i t (k : BpfArg → G B) s Q :
  h ∈ pt_Helpers pt → h_Args h !! i = Some t →
  (∀ a, a_ArgType a = t → a_Prepare a = EmptyString → gens tot (k a) s Q) →
  gens tot (need (NewBpfArg h i) ≫= k) s Q.
Proof using Hready.
  intros Hh Ht Hk. destruct (NewBpfArg_ret _ _ _ Hh Ht) as (a & E & ? & ?).
  eapply gens_need; [exact E|]. by apply Hk.
Qed.

(** The register types of an argument: at least one, and only those of the table. *)
Lemma gens_compat {B} h i t (k : list RegType * string → G B) s Q :
  good pt sc s → h ∈ pt_Helpers pt → h_Args h !! i = Some t →
  (∀ types s', keeps pt sc s s' → g_prog s' = g_prog s → types ≠ [] →
     (∀ rt, rt ∈ types → ∃ a, assoc t compatibleRegType = Some a ∧ rt ∈ initArray a) →
     gens tot (k (types, argBtfId h t)) s' Q) →
  gens tot (compatRegTypes pt h i ≫= k) s Q.
Proof using Hready.
  intros Hg Hh Ht Hk. destruct (helper_argType _ _ _ Hh Ht) as [[arr Harr] _].
  destruct (genCompatibleRegTypes_spec (g_store s) (pt_Enum pt) h i t arr) as (st' & sl & E & HO & Hne & Hin);
    [apply Hg|done|done|].
  specialize (Hk (sliceElems st' sl) (mkGS st' (g_rd s) (g_prog s))).
  intros r. unfold mbind at 1, G_bind, compatRegTypes. rewrite E.
  apply Hk; [by apply keeps_store|done|done|]. intros rt Hrt. exists arr. eauto.
Qed.

Lemma mapAt_ret p o i : mapIndex p o → o = Some i → ∃ m, mapAt p i = Ret m ∧ BpfMaps.p_Maps (p_maps p) !! i = Some m.
Proof.
  intros H Hi. apply H, lookup_lt_is_Some in Hi as [m Hm]. exists m. split; [|done]. unfold mapAt. by rewrite Hm.
Qed.

Lemma roundUp_spec z : (0 ≤ z)%Z → (z ≤ roundUp z 8 < z + 8)%Z ∧ (8 | roundUp z 8)%Z.
Proof.
  intros Hz. unfold roundUp. rewrite Z.quot_div_nonneg, Z.rem_mod_nonneg by lia.
  split; [|case_bool_decide; by apply Z.divide_factor_r].
  pose proof (Z.div_mod z 8). pose proof (Z.mod_pos_bound z 8). case_bool_decide; lia.
Qed.

Lemma mapOK_sizes m : mapOK m →
  (∀ sd, m_Key m = Some sd → 0 ≤ sd_Size sd)%Z ∧ (∀ sd, m_Val m = Some sd → 0 ≤ sd_Size sd)%Z.
Proof.
  intros (mt & Hmt & _ & Hk & Hv & _). destruct (mapType_limits mt Hmt) as [Hks Hvs].
  assert (Hpos : ∀ sz o, sizesOK sz = true → sizeWithin sz o → ∀ sd, o = Some sd → (0 ≤ sd_Size sd)%Z).
  { intros sz o Hs Hw sd ->. destruct (sizesOK_limits _ Hs) as (lo & hi & al & Hl & ([? _] & _) & _).
    destruct (lim_limits _ _ _ _ Hl) as [E _]. unfold sizeWithin in Hw. lia. }
  split; [exact (Hpos _ _ Hks Hk)|exact (Hpos _ _ Hvs Hv)].
Qed.

Lemma mapAccessSize_ret p c t :
  progOK (p_maps p) → mapIndex p (c_ArgMap c) →
  ∃ o, mapAccessSize p c t = Ret o ∧ ∀ z, o = Some z → (0 ≤ z)%Z ∧ (8 | z)%Z.
Proof.
  intros Hp H. unfold mapAccessSize. destruct (c_ArgMap c) as [i|] eqn:E; [|by eexists].
  destruct (mapAt_ret _ _ _ H eq_refl) as (m & -> & Hm). eexists. split; [done|].
  pose proof (Forall_lookup_1 _ _ _ _ (ok_maps _ Hp) Hm) as [Hk Hv]%mapOK_sizes. cbn.
  intros z Hz. assert (∃ sd, (0 ≤ sd_Size sd)%Z ∧ z = roundUp (sd_Size sd) 8) as (sd & Hsd & ->).
  { repeat case_match; [..|done]; apply fmap_Some in Hz as (sd & Hsd & ->); eauto. }
  destruct (roundUp_spec _ Hsd) as [? ?]. split; [lia|done].
Qed.

(** The specification of a generator, for a call and an argument of type [t]. *)
Local Notation spec s call arg t m :=
  (good pt sc s → callShape pt (g_prog s) call → h_Args (c_Helper call) !! arg = Some t →
   gens tot m s (genPost pt sc s call t)).

Lemma scratch_var s : good pt sc s →
  ∃ v, v ∈ p_ScratchMapVars (g_prog s) ∧ v ∈ usable (g_prog s) ∧
  ∀ Q : string → Prop, Q v → wp (index (p_ScratchMapVars (g_prog s)) (p_ScratchMapIndex (g_prog s))) Q.
Proof.
  intros H. inv_split H.
  assert (Hlt : Z.to_nat (p_ScratchMapIndex (g_prog s)) < length (p_ScratchMapVars (g_prog s))).
  { rewrite Hscr, length_fmap, length_seq. lia. }
  apply lookup_lt_is_Some in Hlt as [v Hv]. exists v.
  assert (v ∈ p_ScratchMapVars (g_prog s)) by by eapply list_elem_of_lookup_2.
  split_and!; [done|unfold usable, baseDecl; set_solver|]. intros Q HQ r. unfold index.
  rewrite bool_decide_false by lia. by rewrite Hv.
Qed.

Lemma callShape_keep s s' call c :
  callShape pt (g_prog s) call → ext s s' → edited call c → c_ArgMap c = c_ArgMap call → c_Hint c = c_Hint call →
  callShape pt (g_prog s') c.
Proof.
  intros Hsh He [Eh Ea _ _ _] Em Ehi. destruct (callShape_ext _ _ _ _ He Hsh) as [? ? ? ? Hkn].
  split; rewrite ?Eh, ?Ea, ?Em, ?Ehi; try done. intros i a. rewrite Ea, Em. apply Hkn.
Qed.

(** An argument that declares a variable, after a step [s1] that leaves the rest
    of the program alone. *)
Lemma genPost_var s call t s1 a c :
  good pt sc s → callShape pt (g_prog s) call → t ≠ "ARG_CONST_MAP_PTR" → keeps pt sc s s1 →
  edited call c → c_ArgMap c = c_ArgMap call → c_Hint c = c_Hint call →
  a_ArgType a = t → a_Name a = varName (p_VarId (g_prog s)) →
  a_Prepare a ≠ EmptyString → prepares (g_prog s1) (a_Name a) (a_Prepare a) → mayPrepare t = true →
  declared (g_prog s1) = declared (g_prog s) → p_VarId (g_prog s1) = S (p_VarId (g_prog s)) →
  genPost pt sc s call t (Some a, c) s1.
Proof.
  intros Hg Hsh Hne Hk Hc Em Eh. intros. split; [done|done|eapply callShape_keep; [done|apply Hk|done..]| |done].
  intros ? [= <-]. eapply (newArg_var pt s s); [apply Hg|apply Hk|done..].
Qed.

Lemma genScalar_spec s call arg t : mayPrepare t = true → t ≠ "ARG_CONST_MAP_PTR" → spec s call arg t (genScalar call arg).
Proof using Hready MapMaker0.
  intros Hmay Hne Hg Hsh Ht. unfold genScalar. eapply gens_NewBpfArg; [apply Hsh|done|]. intros a Hat Hap.
  eapply gens_wp; [by apply (wp_Intn _ (λ _, True))|]. intros size _. gsteps.
  pose proof (keeps_var _ _ _ Hg) as Hk. pose proof Hg as H. inv_split H.
  set (s1 := mkGS _ _ (withVarId _ _)) in Hk.
  apply gens_if; intros Hb; [apply bool_decide_eq_true in Hb; gsteps|].
  - apply gens_ret. apply genPost_var; try done; [|by constructor].
    eapply keeps_trans; [exact Hk|]. apply (keeps_stack _ _ s1); [apply Hk|]. simpl. unfold stackLimit in *. lia.
  - destruct (scratch_var _ Hg) as (b & Hb1 & Hb2 & Hw). eapply gens_wp; [by apply (Hw (λ v, v = b))|]. intros ? ->.
    gsteps. apply gens_ret. apply genPost_var; try done; [|by constructor].
    eapply keeps_trans; [exact Hk|]. apply (keeps_scratch _ _ s1); [apply Hk|]. apply Z.mod_pos_bound. lia.
Qed.

Lemma genStackPtr_spec s call arg t : mayPrepare t = true → t ≠ "ARG_CONST_MAP_PTR" → spec s call arg t (genStackPtr call arg).
Proof using Hready MapMaker0.
  intros Hmay Hne Hg Hsh Ht. unfold genStackPtr. eapply gens_NewBpfArg; [apply Hsh|done|]. intros a Hat Hap.
  eapply gens_wp; [by apply (wp_Intn _ (λ z, 0 ≤ z)%Z); [|lia]|]. intros size Hsz. gsteps.
  pose proof Hg as H. inv_split H.
  destruct (mapAccessSize_ret (g_prog s) call (a_ArgType a)) as (o & E & Ho); [done|apply Hsh|].
  eapply gens_need; [exact E|]. assert (Hz : (0 ≤ default size o)%Z) by (destruct o; [by apply Ho|done]).
  pose proof (keeps_var _ _ _ Hg) as Hk. set (s1 := mkGS _ _ (withVarId _ _)) in Hk.
  apply gens_if; intros Hb; [apply bool_decide_eq_true in Hb; gsteps|].
  - apply gens_ret. apply genPost_var; try done; [|by constructor].
    eapply keeps_trans; [exact Hk|]. apply (keeps_stack _ _ s1); [apply Hk|]. simpl. lia.
  - destruct (scratch_var _ Hg) as (b & Hb1 & Hb2 & Hw). eapply gens_wp; [by apply (Hw (λ v, v = b))|]. intros ? ->.
    gsteps. apply gens_ret.
    assert (Hk2 : keeps pt sc s (mkGS (g_store s) (g_rd s) (withScratch ((p_ScratchMapIndex (g_prog s) + 1) `mod` 10) (g_prog s)))).
    { apply keeps_scratch; [done|]. apply Z.mod_pos_bound. lia. }
    split; [done|done|by eapply callShape_keep; [|apply Hk2|..]| |done].
    intros ? [= <-]. eapply newArg_plain; [apply Hk2|done..|]. by constructor.
Qed.

(** *** Maps *)

Lemma keeps_updMap s i f :
  good pt sc s → (∀ m, mapOK m → mapOK (f m) ∧ sameMap m (f m)) →
  keeps pt sc s (mkGS (g_store s) (g_rd s) (updMap i f (g_prog s))).
Proof.
  intros Hg Hf. pose proof Hg as H. inv_split H. pose proof (ok_maps _ Hmp) as Hall. rewrite Forall_forall in Hall.
  assert (Hsame : ∀ j m, BpfMaps.p_Maps (p_maps (g_prog s)) !! j = Some m →
    ∃ m', alter f i (BpfMaps.p_Maps (p_maps (g_prog s))) !! j = Some m' ∧ mapOK m' ∧ sameMap m m').
  { intros j m Hm. pose proof (Hall _ (list_elem_of_lookup_2 _ _ _ Hm)) as Hok.
    destruct (decide (j = i)) as [->|Hne].
    - exists (f m). rewrite list_lookup_alter_eq, Hm. split; [done|by apply Hf].
    - exists m. rewrite list_lookup_alter_ne by congruence. done. }
  assert (Hback : ∀ j m', alter f i (BpfMaps.p_Maps (p_maps (g_prog s))) !! j = Some m' →
    ∃ m, BpfMaps.p_Maps (p_maps (g_prog s)) !! j = Some m ∧ mapOK m' ∧ sameMap m m').
  { intros j m' Hj. assert (is_Some (BpfMaps.p_Maps (p_maps (g_prog s)) !! j)) as [m Hm].
    { apply lookup_lt_is_Some. apply lookup_lt_Some in Hj. by rewrite length_alter in Hj. }
    destruct (Hsame _ _ Hm) as (m2 & E & ?). rewrite E in Hj. injection Hj as ->. by exists m. }
  apply keeps_maps; [done| | |].
  - destruct Hmp as [Hs _ Hn Hin]. split; simpl; [done| | |].
    + apply Forall_lookup_2. intros j m' (m & _ & ? & _)%Hback. done.
    + intros j m' (m & Hm & _ & -> & _)%Hback ?. by apply Hn.
    + intros j m' k (m & Hm & _ & _ & _ & _ & _ & ->)%Hback ?. by eapply Hin.
  - destruct Hnm as [Hs Hm]. split; simpl; [done|]. apply Forall_lookup_2. intros j m' (m & Hj & _ & _ & _ & _ & -> & _)%Hback.
    by eapply Forall_lookup_1 in Hj; [|exact Hm].
  - intros j m (m' & ? & _ & ?)%Hsame. by exists m'.
Qed.

Lemma mapOK_removeFlag m f : mapOK m → mapOK (removeFlag m f) ∧ sameMap m (removeFlag m f).
Proof.
  intros (mt & Hmt & Ht & Hk & Hv & Hnd & Hfl). unfold removeFlag.
  destruct (getFlag m f) as [j|]; [|by split; [exists mt|]]. split; [|done].
  exists mt. split_and!; try done; simpl; rewrite <- delete_take_drop.
  - by apply (sublist_NoDup _ (m_Flags m)), sublist_delete.
  - intros g Hg. apply Hfl. eapply elem_of_sublist; [exact Hg|]. apply sublist_delete.
Qed.

Lemma mapOK_fixMapFlags mp h typ m :
  mapOK m → mapOK (fixMapFlags mp h typ m) ∧ sameMap m (fixMapFlags mp h typ m).
Proof.
  intros Hm. unfold fixMapFlags.
  assert (Hstep : ∀ (b : bool) m' f, mapOK m' ∧ sameMap m m' →
    mapOK (if b then removeFlag m' f else m') ∧ sameMap m (if b then removeFlag m' f else m')).
  { intros [] m' f [Ho Hs]; [|done]. destruct (mapOK_removeFlag m' f Ho). split; [done|by trans m']. }
  cbv zeta. do 4 apply Hstep. done.
Qed.

Lemma useMap_spec s call arg t a i :
  a_ArgType a = t → a_Prepare a = EmptyString → mapIndex (g_prog s) (Some i) →
  spec s call arg t (useMap a call i).
Proof.
  intros Hat Hap Hi Hg Hsh Ht. unfold useMap. gsteps.
  destruct (mapAt_ret _ _ _ Hi eq_refl) as (m & E & Hm). eapply gens_need; [exact E|]. apply gens_ret.
  split; [by apply keeps_refl|done| | |done].
  - destruct Hsh. split; try done. intros ? ? ? ?. by eexists.
  - intros ? [= <-]. eapply newArg_plain; [apply Hg|done..|]. simpl. by eapply res_map.
Qed.

Lemma singleHint_subset hints hints' : hints' ⊆ hints → singleHint hints → singleHint hints'.
Proof.
  intros Hs. assert (Hh : ∀ k, hinted hints' k = true → hinted hints k = true).
  { intros k. unfold hinted. rewrite !bool_decide_eq_true. apply Hs. }
  unfold singleHint, occupiedSize.
  pose proof (Hh HintGenSpinlock). pose proof (Hh HintGenTimer). pose proof (Hh HintGenConstStr).
  destruct (hinted hints HintGenSpinlock), (hinted hints HintGenTimer), (hinted hints HintGenConstStr),
    (hinted hints' HintGenSpinlock), (hinted hints' HintGenTimer), (hinted hints' HintGenConstStr); intuition congruence || lia.
Qed.

Lemma prefix_sameMaps (l l' : list BpfMap) :
  l `prefix_of` l' → ∀ i m, l !! i = Some m → ∃ m', l' !! i = Some m' ∧ sameMap m m'.
Proof. intros Hp i m Hm. exists m. split; [by eapply prefix_lookup_Some|done]. Qed.

(** The call and its hints after a map was made or not. *)
Lemma callShape_hints s s' call hints :
  ext s s' → callShape pt (g_prog s) call → hints ⊆ ArgHints (c_Hint call) →
  callShape pt (g_prog s') (withArgHints hints call).
Proof.
  intros He Hsh Hh. destruct (callShape_ext _ _ _ _ He Hsh) as [? ? (Hs & ? & ?) ? ?].
  split; try done. split_and!; try done. by eapply singleHint_subset.
Qed.

Lemma genNewMap_spec s call arg t a :
  a_ArgType a = t → a_Prepare a = EmptyString → spec s call arg t (genNewMap newMap a call).
Proof using Hready MapMaker0.
  intros Hat Hap Hg Hsh Ht. unfold genNewMap. gsteps. set (types := getHelperCompatMapTypes _ _ _).
  destruct (cs_hint _ _ _ Hsh) as (Hs1 & H8 & _). pose proof Hg as H. inv_split H.
  assert (Hnone : genPost pt sc s call t (None, call) s) by (apply genPost_none; [by apply keeps_refl|done..]).
  apply gens_if; [intros _; by apply gens_ret|]. intros Hne%bool_decide_eq_false.
  apply (gens_bind _ _ _ _ (λ o s', s' = s ∧ ∀ mt, o = Some mt → mt ∈ bpfMapTypes)).
  { apply gens_if; intros _.
    - apply gens_ret. split; [done|]. intros mt. unfold fmap at 1, option_fmap, option_map.
      destruct (list_find _ types) as [[j mt']|] eqn:E; [|done]. intros [= <-]. apply list_find_Some in E as [Hj _].
      by apply list_elem_of_lookup_2, list_elem_of_filter in Hj as [_ ?].
    - eapply gens_wp; [by apply (wp_pick _ (λ mt, mt ∈ types))|]. intros mt Hin. apply gens_ret. split; [done|].
      intros ? [= <-]. by apply list_elem_of_filter in Hin as [_ ?]. }
  intros o s' [-> Hmt]. destruct o as [mt|]; [|by apply gens_ret].
  eapply (gens_bind _ _ _ _ (λ r s', s' = s ∧ newMapPost _ mt _ _ r ∧ namesOK r.1.2 ∧ r.2 ⊆ ArgHints (c_Hint call))).
  { apply gens_draw. intros r. specialize (newMap_makes (p_maps (g_prog s)) mt (ArgHints (c_Hint call))
      (if retsMapValue (c_Helper call) then RetAccessSize (c_Hint call) else -1)) as Hw.
    specialize (Hw (Hmt _ eq_refl) Hmp Hnm Hs1). assert (Hz : ((if retsMapValue (c_Helper call) then RetAccessSize (c_Hint call) else -1) ≤ 0 ∨
      (8 | if retsMapValue (c_Helper call) then RetAccessSize (c_Hint call) else -1))%Z) by (case_match; [by right|left; lia]).
    specialize (Hw Hz r). destruct (newMap _ _ _ _ r) as [[? ?]| |]; [|done..]. by split. }
  intros [[o mp] hints] s' (-> & (Hmp' & Hpre & _ & Ho) & Hnm' & Hhs). gsteps.
  pose proof (keeps_maps _ _ _ Hg mp Hmp' Hnm' (prefix_sameMaps _ _ Hpre)) as Hk.
  set (s1 := mkGS _ _ (withMaps mp _)) in *.
  assert (Hsh1 : callShape pt (g_prog s1) (withArgHints hints call)) by (eapply callShape_hints; [apply Hk|done..]).
  destruct o as [i|]; [|apply gens_ret; by apply genPost_none]. gsteps.
  pose proof (keeps_updMap s1 i (fixMapFlags mp (c_Helper (withArgHints hints call)) (mt_Name mt)) (proj2 Hk)
    (mapOK_fixMapFlags _ _ _)) as Hk2.
  destruct Ho as (m & Hm & Hlen & _).
  eapply gens_mono; [eapply useMap_spec; [done|done| |apply Hk2|eapply callShape_ext; [apply Hk2|done]|done]|].
  - intros ? [= <-]. simpl. rewrite length_alter, Hlen. lia.
  - intros r s' Hr. eapply genPost_trans; [by eapply keeps_trans| |exact Hr]. done.
Qed.

Lemma genMapPtr_spec s call arg t : spec s call arg t (genMapPtr newMap call arg).
Proof using Hready MapMaker0.
  intros Hg Hsh Ht. unfold genMapPtr. eapply gens_NewBpfArg; [apply Hsh|done|]. intros a Hat Hap.
  destruct (cs_hint _ _ _ Hsh) as (_ & _ & Hpm).
  destruct (PreferredMap (c_Hint call)) as [i|]; [by eapply useMap_spec|].
  destruct (c_ArgMap call) as [i|] eqn:E; [eapply useMap_spec; try done; rewrite <- E; apply Hsh|]. gsteps.
  apply (gens_bind _ _ _ _ (λ b s', s' = s ∧ (b = true → getHelperCompatMaps (p_maps (g_prog s)) (c_Helper call) (c_Hint call) ≠ []))).
  { apply gens_if; intros Hb; [|by apply gens_ret]. apply bool_decide_eq_true in Hb.
    apply gens_draw, ensures_wp. by apply wp_nOutOf. }
  intros b s' [-> Hb]. apply gens_if; intros Hbt; [|by eapply genNewMap_spec].
  eapply gens_wp; [apply (wp_pick _ (λ i, i ∈ getHelperCompatMaps (p_maps (g_prog s)) (c_Helper call) (c_Hint call))); [by apply Hb|done]|].
  intros i (m & Hi & _)%getHelperCompatMaps_elem. eapply useMap_spec; try done.
  intros ? [= <-]. by eapply lookup_lt_Some.
Qed.

(** Only the register type of maps fits an argument that is a map. *)
Lemma mapPtr_only t rt :
  (∃ a, assoc t compatibleRegType = Some a ∧ rt ∈ initArray a) → t = "ARG_CONST_MAP_PTR" → rt = ConstPtrToMapRegType.
Proof. intros (a & Ha & Hin) ->. injection Ha as <-. by apply list_elem_of_singleton in Hin. Qed.

Lemma mayPrepare_reg t rt :
  (∃ a, assoc t compatibleRegType = Some a ∧ rt ∈ initArray a) →
  rt = ScalarValRegType ∨ rt = PtrToStackRegType → mayPrepare t = true.
Proof.
  intros (a & Ha & Hin) Hrt. unfold mayPrepare. rewrite Ha. apply orb_true_iff. rewrite !bool_decide_eq_true.
  destruct Hrt; subst; auto.
Qed.

Lemma Generate_spec s call arg t rt :
  (∃ a, assoc t compatibleRegType = Some a ∧ rt ∈ initArray a) → spec s call arg t (Generate newMap rt call arg).
Proof using Hready MapMaker0.
  intros Hin Hg Hsh Ht. pose proof (mapPtr_only _ _ Hin) as Hrt. pose proof (mayPrepare_reg _ _ Hin) as Hmay.
  assert (Hnone : gens tot (mret (None, call)) s (genPost pt sc s call t)).
  { apply gens_ret, genPost_none; [by apply keeps_refl|done..]. }
  destruct rt; try exact Hnone; simpl.
  - apply genScalar_spec; try done; [by apply Hmay; left|]. by intros ?%Hrt.
  - eapply gens_NewBpfArg; [apply Hsh|done|]. intros a Hat Hap. apply gens_ret.
    split; [by apply keeps_refl|done|done| |by intros ? _ ?%Hrt]. intros ? [= <-].
    eapply newArg_plain; [apply Hg|done..|constructor].
  - by apply genMapPtr_spec.
  - apply genStackPtr_spec; try done; [by apply Hmay; right|]. by intros ?%Hrt.
  - eapply gens_NewBpfArg; [apply Hsh|done|]. intros a Hat Hap. gsteps. apply gens_ret.
    pose proof (keeps_extern _ _ _ Hg) as Hk.
    split; [done|done|by eapply callShape_keep; [|apply Hk|..]| |by intros ? _ ?%Hrt]. intros ? [= <-].
    eapply newArg_plain; [apply Hk|done..|]. simpl. apply (res_extern _ _ "bpf_prog_active" "int"). simpl.
    by rewrite lookup_insert_eq.
Qed.

Lemma directLoop_spec n types s call arg t :
  types ≠ [] → (∀ rt, rt ∈ types → ∃ a, assoc t compatibleRegType = Some a ∧ rt ∈ initArray a) →
  spec s call arg t (directLoop newMap n types call arg).
Proof using Hready MapMaker0.
  intros Hne Hmap. revert s call. induction n as [|n IH]; intros s call Hg Hsh Ht; simpl.
  { apply gens_ret, genPost_none; [by apply keeps_refl|done..]. }
  eapply gens_wp; [by apply (wp_pick _ (λ rt, rt ∈ types))|]. intros rt Hrt.
  eapply gens_bind; [apply (Generate_spec s call arg t rt); auto|].
  intros [[a|] c] s' Hp; [by apply gens_ret|].
  eapply gens_mono; [apply IH|intros r s2 Hr; eapply genPost_trans; [apply Hp|apply Hp|exact Hr]].
  - apply Hp.
  - apply Hp.
  - pose proof (ed_helper _ _ (gp_edited _ _ _ _ _ _ _ Hp)) as E. simpl in E. by rewrite E.
Qed.

Lemma genRandDirectAccess_spec s call arg t : spec s call arg t (genRandDirectAccess pt newMap call arg).
Proof using Hready MapMaker0.
  intros Hg Hsh Ht. unfold genRandDirectAccess. eapply gens_compat; [done|apply Hsh|done|].
  intros types s' Hk Hp Hne Hty. eapply gens_mono; [apply (directLoop_spec 5 types)|].
  - done.
  - done.
  - apply Hk.
  - by rewrite Hp.
  - done.
  - intros r s2. by apply genPost_trans.
Qed.

(** *** The context *)

Lemma ctxVar_spec s field typ :
  good pt sc s → gens tot (ctxVar field typ) s (λ v s', keeps pt sc s s' ∧ v ∈ usable (g_prog s')).
Proof.
  intros Hg. unfold ctxVar. gsteps. destruct (p_CtxVars (g_prog s) !! field) as [v|] eqn:E.
  - apply gens_ret. split; [by apply keeps_refl|]. unfold usable, baseDecl.
    assert (v ∈ (map_to_list (p_CtxVars (g_prog s))).*2); [|set_solver].
    apply list_elem_of_fmap. exists (field, v). split; [done|]. by apply elem_of_map_to_list.
  - gsteps. apply gens_ret. split; [exact (keeps_ctx pt sc s field typ Hg E)|].
    unfold usable, baseDecl. simpl. rewrite map_to_list_insert by done. set_solver.
Qed.

Lemma packetAccess_spec s call t :
  good pt sc s → callShape pt (g_prog s) call →
  gens tot (packetAccess call t) s
    (λ r s', s' = s ∧ edited call r.2 ∧ c_ArgMap r.2 = c_ArgMap call ∧ c_Hint r.2 = c_Hint call).
Proof.
  intros Hg Hsh. unfold packetAccess. gsteps.
  destruct (mapAccessSize_ret (g_prog s) call t) as (o & E & _); [apply Hg|apply Hsh|].
  eapply gens_need; [exact E|]. repeat (apply gens_if; intros _); try by apply gens_ret.
  eapply gens_wp; [by apply (wp_Intn _ (λ _, True))|]. intros size _. by apply gens_ret.
Qed.

Lemma ctxArg_spec s call arg t a rt field :
  t ≠ "ARG_CONST_MAP_PTR" → a_ArgType a = t → a_Prepare a = EmptyString →
  spec s call arg t (ctxArg a call rt field).
Proof using Hready MapMaker0.
  intros Hne Hat Hap Hg Hsh Ht. unfold ctxArg. set (typ := if bool_decide _ then _ else _).
  eapply gens_bind; [by apply ctxVar_spec|]. intros v s1 [Hk Hv].
  assert (Hpkt : ∀ (meta : bool) f2, gens tot
    (_ ← ctxVar f2 typ; r ← packetAccess call (a_ArgType (named v (a_IsNotNull a) a));
     mret (Some (pktAccess meta r.1 (named v (a_IsNotNull a) a)), r.2)) s1 (genPost pt sc s call t)).
  { intros meta f2. eapply gens_bind; [by apply ctxVar_spec, Hk|]. intros w s2 [Hk2 _].
    pose proof (keeps_trans _ _ _ _ _ Hk Hk2) as Hk3.
    eapply gens_bind; [apply packetAccess_spec; [apply Hk2|by eapply callShape_ext; [apply Hk3|]]|].
    intros r s3 (-> & Hed & Em & Eh). apply gens_ret.
    split; [done|done|by eapply callShape_keep; [|apply Hk3|..]| |done]. intros ? [= <-].
    eapply newArg_plain; [apply Hk3|done..|]. constructor. by apply (e_use _ _ (proj1 Hk2)). }
  repeat (apply gens_if; intros _); [apply Hpkt..|]. apply gens_ret.
  split; [done|done|by eapply callShape_keep; [|apply Hk|..]| |done]. intros ? [= <-].
  eapply newArg_plain; [apply Hk|done..|]. by constructor.
Qed.

Lemma ctxLoop_spec n types s call arg t :
  types ≠ [] → (∀ rt, rt ∈ types → t = "ARG_CONST_MAP_PTR" → rt = ConstPtrToMapRegType) →
  spec s call arg t (ctxLoop pt n types call arg).
Proof using Hready MapMaker0.
  intros Hne Hmap Hg Hsh Ht. induction n as [|n IH]; simpl.
  { apply gens_ret, genPost_none; [by apply keeps_refl|done..]. }
  eapply gens_NewBpfArg; [apply Hsh|done|]. intros a Hat Hap.
  eapply gens_wp; [by apply (wp_pick _ (λ rt, rt ∈ types))|]. intros rt Hrt.
  destruct (ready_ctx rt) as (o & E & Ho). eapply gens_need; [exact E|].
  destruct o as [field|]; [|exact IH]. eapply ctxArg_spec; try done.
  intros Ht'. by discriminate (Ho (Hmap _ Hrt Ht')).
Qed.

Lemma genRandBpfCtxAccess_spec s call arg t : spec s call arg t (genRandBpfCtxAccess pt call arg).
Proof using Hready MapMaker0.
  intros Hg Hsh Ht. unfold genRandBpfCtxAccess. eapply gens_compat; [done|apply Hsh|done|].
  intros types s' Hk Hp Hne Hty. eapply gens_mono; [apply (ctxLoop_spec 5 types)|].
  - done.
  - intros rt Hrt. by apply mapPtr_only, Hty.
  - apply Hk.
  - by rewrite Hp.
  - done.
  - intros r s2. by apply genPost_trans.
Qed.

End generators.
