(* ===== verification/BpfCallRec.v ===== *)
(** * The recursion of the helper-call generator

    Arguments from the results of other calls, the loop over the arguments of a
    call, and the whole recursion; then [GenBpfProg] and [MutBpfProg].  The depth
    counter never falls below its value at the start of a call, so a fuel of 101
    is enough from depth 0 on. *)

From stdpp Require Import base numbers strings pretty gmap list.
From S2P Require Import Prelude BpfTypes BpfHelperTable BpfProgTable BpfCtxTable BpfInit BpfRegTypes BpfMaps BpfNewMap Rand.
From S2P Require Import StructOpsModel StructOpsGen StructOpsTyping BpfCallGen BpfCallSpec BpfCallSafe.

Local Open Scope string_scope.
Local Open Scope list_scope.
Local Open Scope nat_scope.

(** ** Result types *)

(** No helper returns a map. *)
Lemma no_map_result :
  forallb (λ e, negb (bool_decide ("CONST_PTR_TO_MAP" ∈ e.2))) retToRegTypeMap = true.
Proof. vm_compute. reflexivity. Qed.

Lemma helperCanReturn_spec h rt b :
  helperCanReturn h rt b = true → hasResult h = true ∧ rt ≠ ConstPtrToMapRegType.
Proof.
  unfold helperCanReturn. intros Hc. destruct (bool_decide _) eqn:Hb in Hc; [|done].
  apply bool_decide_eq_true in Hb. destruct (assoc (h_Ret h) retToRegTypeMap) as [l|] eqn:E; [|by apply not_elem_of_nil in Hb].
  simpl in Hb. pose proof (assoc_elem _ _ _ E) as Hin. split.
  - unfold hasResult. apply andb_true_iff. split.
    + apply bool_decide_eq_true, list_elem_of_fmap. by exists (h_Ret h, l).
    + apply negb_true_iff, bool_decide_eq_false. intros Hv. rewrite Hv in E. injection E as <-.
      apply list_elem_of_singleton in Hb. by destruct rt.
  - intros ->. pose proof no_map_result as H. rewrite forallb_forall in H.
    apply list_elem_of_In, H in Hin. by apply negb_true_iff, bool_decide_eq_false in Hin.
Qed.

Lemma index_star s : starFree s = true → String.index 0 "*" (s +:+ "*") = Some (String.length s).
Proof.
  induction s as [|c s IH]; [done|]. intros [Hc Hs]%andb_true_iff. specialize (IH Hs).
  apply negb_true_iff in Hc.
  assert (Hp : String.prefix "*" (String c (s +:+ "*")) = false).
  { cbn. case_match; [|done]. subst c. done. }
  change (String c s +:+ "*") with (String c (s +:+ "*")). cbn [String.index]. by rewrite Hp, IH.
Qed.

Lemma index_bound pat s n : String.index 0 pat s = Some n → n + String.length pat ≤ String.length s ∨ pat = EmptyString.
Proof.
  intros H%String.index_correct1.
  assert (Hlen : ∀ m k s', String.length (String.substring m k s') ≤ String.length s' - m).
  { intros m k s'. revert m k. induction s' as [|c s' IH]; intros [|m] [|k]; simpl; try lia.
    - specialize (IH 0 k). lia.
    - specialize (IH m 0). lia.
    - specialize (IH m (S k)). lia. }
  pose proof (Hlen n (String.length pat) s) as Hl. rewrite H in Hl.
  destruct pat; [by right|]. left. simpl in *. lia.
Qed.

Lemma retStruct_star s : starFree s = true → isRet (retStruct (s +:+ "*")) = true.
Proof.
  intros Hs. unfold retStruct. rewrite (index_star s Hs).
  destruct (String.index 0 "struct_" (s +:+ "*")) as [n|] eqn:E; [|done].
  apply index_bound in E as [E|]; [|done]. rewrite string_length_app in E. simpl in E.
  rewrite bool_decide_true by lia. done.
Qed.

(** The result type of a finished call. *)
Lemma bpfRetType_spec p c :
  helperReady (c_Helper c) = true → namesOK (p_maps p) →
  (retsMapValue (c_Helper c) = true → ∃ i m, c_ArgMap c = Some i ∧ BpfMaps.p_Maps (p_maps p) !! i = Some m) →
  ∃ typ, bpfRetType p c = Ret typ ∧ (hasResult (c_Helper c) = true → typ ≠ EmptyString) ∧ isRet (retStruct typ) = true.
Proof.
  intros Hr [_ Hn] Hm. unfold bpfRetType.
  destruct (bool_decide (h_Ret (c_Helper c) = "RET_INTEGER")) eqn:E1; [by eexists|].
  destruct (retsMapValue (c_Helper c)) eqn:E2.
  { destruct (Hm eq_refl) as (i & m & -> & Hi). simpl. unfold mapAt. rewrite Hi. simpl. eexists. split; [done|].
    destruct (m_Val m) as [sd|] eqn:Ev; [|done]. case_match; [done|]. split; [by destruct (sd_Name sd)|].
    apply retStruct_star. eapply Forall_lookup_1 in Hi; [|exact Hn]. by apply Hi. }
  match goal with |- context [if ?b then Ret (_ +:+ _) else _] => destruct b eqn:E3 end.
  { eexists. split; [done|]. split; [by destruct (h_RetBtfId (c_Helper c))|]. apply retStruct_star.
    unfold helperReady in Hr. by apply andb_true_iff in Hr as [_ Hr]. }
  match goal with |- context [if ?b then Ret "void *" else _] => destruct b eqn:E4 end; [by eexists|].
  match goal with |- context [if ?b then _ else Ret EmptyString] => destruct b eqn:E5 end; [by eexists|].
  eexists. split; [done|]. split; [|done]. intros [Hin Hv]%andb_true_iff. exfalso. revert Hin.
  apply negb_true_iff, bool_decide_eq_false in Hv. unfold retsMapValue in E2.
  repeat match goal with H : (_ || _) = false |- _ => apply orb_false_iff in H as [? ?] end.
  repeat match goal with H : bool_decide _ = false |- _ => apply bool_decide_eq_false in H end.
  rewrite bool_decide_eq_true. simpl. set_solver.
Qed.

(** ** Arguments from other calls *)

Section recursion.
Context (pt : BpfProgType) (Hready : genReady pt = true).
Context (tot : bool) (newMap : MapProg → BpfMapType → list ArgHint → Z → Gen (option nat * MapProg * list ArgHint)).
Context `{!MapMaker tot newMap} (sc : bool).

(** A call with all its arguments knows its map. *)
Lemma finished_map p D c :
  callShape pt p c → scopedCall p D c → needsMap (c_Helper c) = true →
  ∃ i m, c_ArgMap c = Some i ∧ BpfMaps.p_Maps (p_maps p) !! i = Some m.
Proof using Hready.
  intros [Hh _ _ Hi Hk] Hs Hn. pose proof (ready_map _ Hready _ Hh Hn) as Hin.
  apply list_elem_of_lookup in Hin as [j Hj].
  destruct (Forall2_lookup_l _ _ _ _ _ Hs Hj) as (o & Ho & a & -> & Ht & _).
  destruct (Hk _ _ Ho Ht) as [i E]. destruct (mapAt_ret _ _ _ Hi E) as (m & _ & Hm). eauto.
Qed.

Lemma retsMapValue_needsMap h : retsMapValue h = true → needsMap h = true.
Proof. unfold needsMap. by intros ->. Qed.

Lemma genHint_spec s producer call arg t :
  good pt sc s → callShape pt (g_prog s) call → h_Args (c_Helper call) !! arg = Some t →
  gens tot (genHint producer call arg) s (λ hint s', s' = s ∧ hintOK (g_prog s) hint).
Proof.
  intros Hg Hsh Ht. unfold genHint. rewrite Ht. eapply gens_need; [done|].
  apply (gens_bind _ _ _ _ (λ hints s', s' = s ∧ singleHint hints)).
  - repeat (apply gens_if; intros _); try (apply gens_ret; split; [done|by vm_compute; tauto]).
    eapply gens_wp; [by apply (wp_nOutOf _ _ (λ _, True))|]. intros [] _; apply gens_ret; (split; [done|by vm_compute; tauto]).
  - intros hints s' [-> Hs]. gsteps.
    destruct (mapAccessSize_ret (g_prog s) call t) as (o & E & Ho); [apply Hg|apply Hsh|].
    eapply gens_need; [exact E|]. apply gens_ret. split; [done|]. split_and!; [done| |done]. simpl.
    destruct o as [z|]; [by apply Ho|]. apply Z.divide_0_r.
Qed.

Lemma compatHelpers_elem h t types b :
  h ∈ compatHelpers pt t types b → h ∈ pt_Helpers pt ∧ ∃ rt, rt ∈ types ∧ helperCanReturn h rt b = true.
Proof.
  unfold compatHelpers. intros (h' & Hin & Hh')%list_elem_of_bind.
  apply list_elem_of_bind in Hin as (rt & Hin & Hrt). case_match eqn:E; [|by apply not_elem_of_nil in Hin].
  apply list_elem_of_singleton in Hin as ->. apply andb_true_iff in E as [E _]. eauto.
Qed.

Lemma usable_ret p c : c ∈ p_calls p → c_RetType c ≠ EmptyString → c_Ret c ∈ usable p.
Proof using Type.
  intros Hin Hr. unfold usable. apply elem_of_app. right. apply list_elem_of_In, in_concat. exists (retDecl c).
  split; [by apply list_elem_of_In, list_elem_of_fmap_2|]. apply list_elem_of_In.
  unfold retDecl. rewrite bool_decide_false by done. by apply list_elem_of_singleton.
Qed.

Lemma nameResult_spec s a call prod t :
  good pt sc s → callShape pt (g_prog s) call → prod ∈ p_calls (g_prog s) → hasResult (c_Helper prod) = true →
  (t = "ARG_PTR_TO_TIMER" → retsMapValue (c_Helper prod) = true) →
  a_ArgType a = t → a_Prepare a = EmptyString → t ≠ "ARG_CONST_MAP_PTR" →
  gens tot (nameResult a call prod t) s (genPost pt sc s call t).
Proof using Hready MapMaker0.
  intros Hg Hsh Hin Hres Htm Hat Hap Hne. pose proof Hg as H. inv_split H.
  pose proof Hcs as Hall. rewrite Forall_forall in Hall. destruct (Hall _ Hin) as [Hsh' Hsc' _ Hr Hstr].
  pose proof (usable_ret _ _ Hin (Hr Hres)) as Hv.
  assert (Hdone : ∀ a' c', a_ArgType a' = t → a_Prepare a' = EmptyString → edited call c' →
    callShape pt (g_prog s) c' → resolves (g_prog s) (usable (g_prog s)) (a_Name a') →
    genPost pt sc s call t (Some a', c') s).
  { intros a' c' ? ? ? ? ?. split; [by apply keeps_refl|done|done| |done]. intros ? [= <-]. by eapply newArg_plain; [apply Hg|..]. }
  assert (Hplain : genPost pt sc s call t (Some (named (c_Ret prod) (a_IsNotNull a) a), call) s)
    by (apply Hdone; try done; by constructor).
  unfold nameResult. gsteps. destruct (retStruct (c_RetType prod)) as [rs| |] eqn:E; [|done..].
  eapply gens_need; [done|]. apply gens_if; intros _; [apply gens_ret, Hdone; try done; by constructor|].
  apply gens_if; intros Htt.
  { apply bool_decide_eq_true, Htm, retsMapValue_needsMap in Htt.
    destruct (finished_map _ _ _ Hsh' Hsc' Htt) as (i & m & Ei & _).
    apply gens_ret, Hdone; try done; [|by constructor]. destruct Hsh, Hsh'. split; try done. simpl.
    intros ? ? ? ?. simpl. rewrite Ei. by eexists. }
  apply gens_if; intros _; [apply gens_ret, Hdone; try done; by constructor|].
  apply (gens_bind _ _ _ _ (λ _ s', s' = s)).
  { apply gens_if; intros Hm; [|by apply gens_ret].
    destruct (finished_map _ _ _ Hsh' Hsc' (retsMapValue_needsMap _ Hm)) as (i & m & -> & Hi).
    eapply gens_need; [done|]. eapply gens_need; [unfold mapAt; by rewrite Hi|]. by apply gens_ret. }
  intros [sd|] s' ->; [|by apply gens_ret]. apply gens_if; intros _; [|by apply gens_ret].
  apply gens_if; intros Hm.
  - apply gens_ret, genPost_none; [by apply keeps_refl|done..].
  - apply bool_decide_eq_false in Hm. eapply gens_wp; [by apply (wp_pick _ (λ _, True))|]. intros mi _.
    apply gens_ret, Hdone; try done. by constructor.
Qed.

(** ** The arguments of a call *)

(** What a nested call needs and gives, from depth [n] on. *)
Definition recSpec (genCall : BpfHelper → BpfCallGenHint → bool → G (option BpfCall)) (n : Z) : Prop :=
  ∀ s helper hint, good pt sc s → (n ≤ g_rd s)%Z → helper ∈ pt_Helpers pt → hintOK (g_prog s) hint →
    gens tot (genCall helper hint false) s
      (λ o s', keeps pt sc s s' ∧ ∀ c, o = Some c → c ∈ p_calls (g_prog s') ∧ c_Helper c = helper).

Lemma timer_results :
  forallb (λ e, negb (bool_decide ("PTR_TO_MAP_VALUE" ∈ e.2)) || bool_decide (e.1 = "RET_PTR_TO_MAP_VALUE") ||
    bool_decide (e.1 = "RET_PTR_TO_MAP_VALUE_OR_NULL")) retToRegTypeMap = true.
Proof. vm_compute. reflexivity. Qed.

Lemma mapValue_producer h b : helperCanReturn h PtrToMapValueRegType b = true → retsMapValue h = true.
Proof.
  unfold helperCanReturn. intros Hc. destruct (bool_decide _) eqn:Hb in Hc; [|done].
  apply bool_decide_eq_true in Hb. destruct (assoc (h_Ret h) retToRegTypeMap) as [l|] eqn:E; [|by apply not_elem_of_nil in Hb].
  pose proof timer_results as H. rewrite forallb_forall in H.
  pose proof (H _ (proj1 (list_elem_of_In _ _) (assoc_elem _ _ _ E))) as Hl. simpl in Hl, Hb.
  rewrite bool_decide_true in Hl by done. exact Hl.
Qed.

Section arguments.
Context (genCall : BpfHelper → BpfCallGenHint → bool → G (option BpfCall)) (n : Z) (Hrec : recSpec genCall n).

Local Notation spec s call arg t m :=
  (good pt sc s → callShape pt (g_prog s) call → h_Args (c_Helper call) !! arg = Some t → (n ≤ g_rd s)%Z →
   gens tot m s (genPost pt sc s call t)).

Lemma keeps_removeFlag s i f :
  good pt sc s → keeps pt sc s (mkGS (g_store s) (g_rd s) (updMap i (λ m, removeFlag m f) (g_prog s))).
Proof. intros Hg. apply keeps_updMap; [done|]. intros m. apply mapOK_removeFlag. Qed.

(** The flag that the use of the result rules out is removed. *)
Lemma removeFlag_step s0 s c t a c0 c' f :
  good pt sc s → c ∈ p_calls (g_prog s) → genPost pt sc s0 c0 t (Some a, c') s →
  gens tot (_ ← (if retsMapValue (c_Helper c) then i ← need (of_option (c_ArgMap c)); modProg (updMap i (λ m, removeFlag m f))
                 else mret tt); mret (Some a, c')) s (genPost pt sc s0 c0 t).
Proof using Hready MapMaker0.
  intros Hg Hin Hp. pose proof Hg as H. inv_split H. pose proof Hcs as Hall. rewrite Forall_forall in Hall.
  destruct (Hall _ Hin) as [Hsh' Hsc' _ _ _].
  apply (gens_bind _ _ _ _ (λ _ s', keeps pt sc s s' ∧ declared (g_prog s') = declared (g_prog s) ∧ usable (g_prog s') = usable (g_prog s) ∧
    p_VarId (g_prog s') = p_VarId (g_prog s))).
  - apply gens_if; intros Hm; [|apply gens_ret; split; [by apply keeps_refl|done]].
    destruct (finished_map _ _ _ Hsh' Hsc' (retsMapValue_needsMap _ Hm)) as (i & m & -> & _).
    eapply gens_need; [done|]. apply gens_ret. split; [by apply keeps_removeFlag|done].
  - intros [] s' (Hk & Ed & Eu & Ev). apply gens_ret. destruct Hp as [Hk0 ? Hshp Ha Hmp'].
    split; [by eapply keeps_trans|done|by eapply callShape_ext; [apply Hk|]| |done].
    intros ? [= <-]. destruct (Ha _ eq_refl) as [Hok [Hf1 Hf2]]. split.
    + rewrite Eu. eapply argOK_mono; [by apply ext_grown, Hk|done|exact Hok].
    + split; [by rewrite Ed|by rewrite Ev].
Qed.

(** Knowing that an argument is not null changes nothing else. *)
Lemma genPost_notNull s c t a c' s' (b : bool) :
  genPost pt sc s c t (Some a, c') s' →
  genPost pt sc s c t (Some (if b then named (a_Name a) true a else a), c') s'.
Proof.
  destruct b; [|done]. intros [? ? ? Ha Hm]. split; try done; [|intros ? _; by apply (Hm a)].
  intros ? [= <-]. destruct (Ha _ eq_refl) as [Hok Hf]. by split.
Qed.

Lemma genRandBpfHelperCall_spec s call arg t : spec s call arg t (genRandBpfHelperCall pt genCall call arg).
Proof using Hready MapMaker0 Hrec.
  intros Hg Hsh Ht Hrd. unfold genRandBpfHelperCall. eapply gens_NewBpfArg; [done|apply Hsh|done|]. intros a Hat Hap.
  eapply gens_compat; [done..|apply Hsh|done|]. intros types s1 Hk1 Hp1 _ Hty. rewrite Hat.
  assert (Hsh1 : callShape pt (g_prog s1) call) by (by rewrite Hp1). cbn [fst snd].
  apply gens_if; intros Hne; [apply gens_ret, genPost_none; done|]. apply bool_decide_eq_false in Hne.
  eapply gens_wp; [by apply (wp_pick _ (λ h, h ∈ compatHelpers pt t types (argBtfId (c_Helper call) t)))|].
  intros helper (Hh & rt & Hrt & Hcan)%compatHelpers_elem.
  destruct (helperCanReturn_spec _ _ _ Hcan) as [Hres Hnm].
  assert (Hnmap : t ≠ "ARG_CONST_MAP_PTR") by (intros E; by apply Hnm, (mapPtr_only t rt (Hty _ Hrt))).
  eapply gens_bind; [eapply genHint_spec; [apply Hk1|done|done]|]. intros hint s' [-> Hhint].
  eapply gens_bind; [apply Hrec; [apply Hk1|etrans; [exact Hrd|apply Hk1]|done|done]|].
  intros [prod|] s2 [Hk2 Hc]; [|apply gens_ret, genPost_none; [by eapply keeps_trans|done|by eapply callShape_ext; [apply Hk2|]]].
  destruct (Hc _ eq_refl) as [Hin <-]. pose proof (keeps_trans _ _ _ _ _ Hk1 Hk2) as Hk3.
  assert (Hsh2 : callShape pt (g_prog s2) call) by (by eapply callShape_ext; [apply Hk2|]).
  eapply gens_bind; [apply (nameResult_spec s2 a call prod t); try done; [apply Hk2|]|].
  { intros ->. destruct (Hty _ Hrt) as (arr & [= <-] & ->%list_elem_of_singleton). by eapply mapValue_producer. }
  intros [[a'|] c'] s3 Hp; [|apply gens_ret; by eapply genPost_trans].
  assert (Hin3 : prod ∈ p_calls (g_prog s3)) by (eapply elem_of_prefix; [exact Hin|apply Hp]).
  eapply genPost_trans in Hp; [|exact Hk3|reflexivity].
  eapply removeFlag_step; [apply Hp|exact Hin3|by apply genPost_notNull].
Qed.

(** The result for one argument: the call, with the argument if it was made. *)
Definition argPost (s : GState) (c : BpfCall) (arg : nat) (t : string) (r : bool * BpfCall) (s' : GState) : Prop :=
  keeps pt sc s s' ∧ ∃ c0, edited c c0 ∧ callShape pt (g_prog s') c0 ∧
    if r.1 then ∃ a, r.2 = withArg arg a c0 ∧ newArg s s' t a ∧ (t = "ARG_CONST_MAP_PTR" → is_Some (c_ArgMap c0))
    else r.2 = c0.

(** The three sources of an argument, one after the other. *)
Lemma orElse_spec s call t (o : option BpfArg) c0 s0 (m : G (option BpfArg * BpfCall)) :
  genPost pt sc s call t (o, c0) s0 →
  (keeps pt sc s s0 → edited call c0 → callShape pt (g_prog s0) c0 → gens tot m s0 (genPost pt sc s0 c0 t)) →
  gens tot (match o with Some a => mret (Some a, c0) | None => m end) s0 (genPost pt sc s call t).
Proof.
  intros Hp Hm. destruct o as [a|]; [by apply gens_ret|]. destruct Hp as [Hk He Hs _ _].
  eapply gens_mono; [by apply Hm|]. intros r s'. by apply genPost_trans.
Qed.

Lemma newArg_umax s s' t a z : newArg s s' t a → newArg s s' t (withUmax z a).
Proof. intros [Hok Hf]. by split. Qed.

Lemma genBpfHelperCallArg_spec s call arg t :
  good pt sc s → callShape pt (g_prog s) call → h_Args (c_Helper call) !! arg = Some t → (n ≤ g_rd s)%Z →
  gens tot (genBpfHelperCallArg pt newMap genCall call arg) s (argPost s call arg t).
Proof using Hready MapMaker0 Hrec.
  intros Hg Hsh Ht Hrd. unfold genBpfHelperCallArg. rewrite Ht. eapply gens_need; [done|].
  assert (Hself : genPost pt sc s call t (None, call) s) by (apply genPost_none; [by apply keeps_refl|done..]).
  eapply (gens_bind _ _ _ _ (genPost pt sc s call t)).
  { apply gens_if; intros Hb.
    - eapply gens_NewBpfArg; [done|apply Hsh|done|]. intros a Hat Hap. apply gens_ret.
      split; [by apply keeps_refl|done|done| |].
      + intros ? [= <-]. eapply newArg_plain; [apply Hg|done..|constructor].
      + intros ? _ ->. exfalso. rewrite andb_true_iff, !bool_decide_eq_true in Hb. destruct Hb as [He ->].
        by eapply ready_storage; [|apply Hsh|..].
    - eapply gens_wp; [by apply (wp_nOutOf _ _ (λ _, True))|]. intros b _.
      eapply gens_bind; [apply (gens_if _ _ _ _ _ (genPost pt sc s call t)); intros _;
        [by apply genRandBpfHelperCall_spec|by apply gens_ret]|].
      intros [o1 c1] s1 Hp1. eapply (orElse_spec _ _ t o1 c1 s1); [exact Hp1|]. intros Hk He Hs.
      assert (Ht' : h_Args (c_Helper c1) !! arg = Some t) by (by rewrite (ed_helper _ _ He)).
      eapply gens_wp; [by apply (wp_nOutOf _ _ (λ _, True))|]. intros b' _.
      eapply gens_bind; [apply (gens_if _ _ _ _ _ (genPost pt sc s1 c1 t)); intros _|].
      + apply (genRandBpfCtxAccess_spec pt Hready tot newMap sc); try done. apply Hk.
      + apply gens_ret, genPost_none; [apply keeps_refl, Hk|done..].
      + intros [o2 c2] s2 Hp2. eapply (orElse_spec _ _ t o2 c2 s2); [exact Hp2|]. intros Hk' He' Hs'.
        apply genRandDirectAccess_spec; try done; [apply Hk'|]. by rewrite (ed_helper _ _ He'). }
  intros [[a|] c] s' [Hk He Hs Ha Hm].
  - assert (Hna : newArg s s' t (if bool_decide (t = "ARG_CONST_SIZE") || bool_decide (t = "ARG_CONST_SIZE_OR_ZERO")
        then withUmax (c_StackVarSize c) a else a)) by (destruct (_ || _); [apply newArg_umax|]; by apply Ha).
    apply gens_if; intros _; apply gens_ret; (split; [done|]); exists c; split_and!; try done.
    eexists. split; [done|]. split; [done|]. by apply (Hm a).
  - apply gens_ret. split; [done|]. by exists c.
Qed.

(** A call under construction that was begun in [s0] and has its first [i]
    arguments. *)
Record pending (s0 s : GState) (i : nat) (c : BpfCall) : Prop := {
  pn_shape : callShape pt (g_prog s) c;
  pn_args : ∀ j, j < i → ∃ t a, h_Args (c_Helper c) !! j = Some t ∧ c_Args c !! j = Some (Some a) ∧
    argOK (g_prog s) (usable (g_prog s) ++ argDecl (Some a)) t a;
  pn_rest : drop i (c_Args c) = replicate (length (c_Args c) - i) None;
  pn_fresh : fresh s0 s (argDecls c);
  pn_ret : c_RetType c = EmptyString;
  pn_post : c_PostCalls c = [];
}.

Lemma argDecls_none k : concat (argDecl <$> replicate k None) = [].
Proof. induction k; [done|]. exact IHk. Qed.

Lemma argDecls_withArg c i a :
  i < length (c_Args c) → drop i (c_Args c) = replicate (length (c_Args c) - i) None →
  argDecls (withArg i a c) = argDecls c ++ argDecl (Some a) ∧
  drop (S i) (c_Args (withArg i a c)) = replicate (length (c_Args c) - S i) None.
Proof.
  intros Hi Hd. assert (Hd2 : drop (S i) (c_Args c) = replicate (length (c_Args c) - S i) None).
  { replace (S i) with (i + 1) at 1 by lia. rewrite <- drop_drop, Hd, drop_replicate. f_equal. lia. }
  split.
  - unfold argDecls. cbn [withArg c_Args]. rewrite insert_take_drop by done.
    rewrite <- (take_drop i (c_Args c)) at 3. rewrite Hd, Hd2, !fmap_app, !concat_app, argDecls_none, app_nil_r.
    cbn [fmap list_fmap concat]. rewrite argDecls_none. by rewrite app_nil_r.
  - cbn [withArg c_Args]. by rewrite drop_insert_lt by lia.
Qed.

Lemma pending_step s0 s s' i c c0 :
  pending s0 s i c → keeps pt sc s s' → edited c c0 → callShape pt (g_prog s') c0 → pending s0 s' i c0.
Proof.
  intros [_ Ha Hr Hf Ht Hpo] Hk [Eh Ea _ Et Epo] Hs. assert (Ed : argDecls c0 = argDecls c) by (unfold argDecls; by rewrite Ea).
  split; [done| |by rewrite Ea|rewrite Ed; eapply fresh_ext; [apply Hk..|done]|congruence|congruence].
  intros j (t & a & ? & ? & ?)%Ha. exists t, a. rewrite Eh, Ea. split_and!; [done..|].
  eapply argOK_mono; [by apply ext_grown, Hk| |done]. intros x. rewrite !elem_of_app. intros [?|?]; [left|by right].
  by apply (e_use _ _ (proj1 Hk)).
Qed.

Lemma pending_arg s0 s s' i c t a :
  pending s0 s' i c → Forall (older (p_VarId (g_prog s))) (argDecls c) → ext s0 s →
  h_Args (c_Helper c) !! i = Some t → newArg s s' t a → (t = "ARG_CONST_MAP_PTR" → is_Some (c_ArgMap c)) →
  pending s0 s' (S i) (withArg i a c).
Proof.
  intros [Hs Ha Hr Hf Ht Hpo] Hold He Hti [Hok Hfa] Hm. pose proof (cs_len _ _ _ Hs) as Hlen.
  assert (Hi : i < length (c_Args c)) by (rewrite Hlen; by eapply lookup_lt_Some).
  destruct (argDecls_withArg c i a Hi Hr) as [Ed Ed2]. split.
  - destruct Hs as [? ? ? ? Hk]. split; try done; [cbn [withArg c_Args c_Helper]; by rewrite length_insert|].
    intros j b. cbn [withArg c_Args c_ArgMap]. destruct (decide (j = i)) as [->|Hne].
    + rewrite list_lookup_insert_eq by done. intros [= <-]. by rewrite (proj1 Hok).
    + rewrite list_lookup_insert_ne by done. apply Hk.
  - intros j Hj. cbn [withArg c_Args c_Helper]. destruct (decide (j = i)) as [->|Hne].
    + exists t, a. by rewrite list_lookup_insert_eq by done.
    + destruct (Ha j) as (t' & b & ? & ? & Hb); [lia|]. exists t', b. by rewrite list_lookup_insert_ne by done.
  - rewrite Ed2. cbn [withArg c_Args]. by rewrite length_insert.
  - rewrite Ed. apply (fresh_app s0 s); try done. intros x Hx Hx'. rewrite Forall_forall in Hold.
    destruct Hfa as [_ Hfr]. rewrite Forall_forall in Hfr. eapply older_newer; [by apply Hold|by apply Hfr].
  - done.
  - done.
Qed.

Lemma fresh_older s0 s l : fresh s0 s l → Forall (older (p_VarId (g_prog s))) l.
Proof. intros [_ H]. eapply Forall_impl; [exact H|]. by intros v [_ ?]. Qed.

Lemma tryArg_spec k s0 s c i :
  ext s0 s → good pt sc s → (n ≤ g_rd s)%Z → pending s0 s i c → i < length (h_Args (c_Helper c)) →
  gens tot (tryArg pt newMap genCall k c i) s
    (λ r s', keeps pt sc s s' ∧ c_Helper r.2 = c_Helper c ∧ (r.1 = true → pending s0 s' (S i) r.2)).
Proof using Hready MapMaker0 Hrec.
  revert s c. induction k as [|k IH]; intros s c He Hg Hrd Hp Hi; simpl.
  { apply gens_ret. split_and!; [by apply keeps_refl|done..]. }
  apply lookup_lt_is_Some in Hi as [t Ht].
  eapply gens_bind; [apply genBpfHelperCallArg_spec; [done|apply Hp|exact Ht|done]|].
  intros [[] c'] s' (Hk & c0 & He0 & Hs0 & Hr); cbn [fst snd] in *.
  - destruct Hr as (a & -> & Ha & Hm). apply gens_ret. split_and!; [done|by rewrite <- (ed_helper _ _ He0)|].
    intros _. cbn [snd]. pose proof (pending_step _ _ _ _ _ _ Hp Hk He0 Hs0) as Hp'.
    assert (Ed : argDecls c0 = argDecls c) by (unfold argDecls; by rewrite (ed_args _ _ He0)).
    eapply (pending_arg s0 s); [done| |done|by rewrite (ed_helper _ _ He0)|done|done].
    rewrite Ed. by apply (fresh_older s0), Hp.
  - subst c'. eapply gens_mono; [apply (IH s' c0)|].
    + trans s; [done|apply Hk].
    + apply Hk.
    + etrans; [exact Hrd|apply Hk].
    + by eapply pending_step.
    + rewrite (ed_helper _ _ He0). by eapply lookup_lt_Some.
    + intros r s2 (Hk2 & Eh & Hr). split_and!; [by eapply keeps_trans| |done]. by rewrite Eh, (ed_helper _ _ He0).
Qed.

Lemma argsLoop_spec todo s0 s c i :
  ext s0 s → good pt sc s → (n ≤ g_rd s)%Z → pending s0 s i c → todo + i = length (h_Args (c_Helper c)) →
  gens tot (argsLoop pt newMap genCall todo i c) s
    (λ r s', keeps pt sc s s' ∧ c_Helper r.2 = c_Helper c ∧
       (r.1 = true → pending s0 s' (length (h_Args (c_Helper c))) r.2)).
Proof using Hready MapMaker0 Hrec.
  revert s c i. induction todo as [|todo IH]; intros s c i He Hg Hrd Hp Hi.
  { apply gens_ret. split_and!; [by apply keeps_refl|done|]. intros _. simpl in Hi. by rewrite <- Hi. }
  cbn [argsLoop]. eapply gens_bind; [apply (tryArg_spec 51 s0); try done; lia|].
  intros [[] c'] s' (Hk & Eh & Hr); cbn [fst snd] in *; [|by apply gens_ret].
  eapply gens_mono; [apply (IH s' c' (S i))|].
  - trans s; [done|apply Hk].
  - apply Hk.
  - etrans; [exact Hrd|apply Hk].
  - by apply Hr.
  - rewrite Eh. lia.
  - intros r s2 (Hk2 & Eh2 & Hr2). split_and!; [by eapply keeps_trans|congruence|]. by rewrite Eh in Hr2.
Qed.

End arguments.

(** ** Finishing a call *)

Lemma pending_scoped s0 s c :
  pending s0 s (length (h_Args (c_Helper c))) c → scopedCall (g_prog s) (usable (g_prog s)) c.
Proof.
  intros Hp. apply Forall2_same_length_lookup_2; [symmetry; apply (pn_shape _ _ _ _ Hp)|].
  intros j t o Ht Ho. destruct (pn_args _ _ _ _ Hp j) as (t' & a & Ht' & Ha & Hok); [by eapply lookup_lt_Some|].
  rewrite Ht in Ht'. rewrite Ho in Ha. simplify_eq. eauto.
Qed.

(** The variable of the result is declared after those of the arguments. *)
Lemma callDecl_withRet c v typ : callDecl (withRet v typ c) = argDecls c ++ (if bool_decide (typ = EmptyString) then [] else [v]).
Proof. done. Qed.

Lemma fresh_ret s0 s c v typ :
  inv pt s → ext s0 s → fresh s0 s (argDecls c) → v = varName (p_VarId (g_prog s)) →
  fresh s0 (mkGS (g_store s) (g_rd s) (withVarId (S (p_VarId (g_prog s))) (g_prog s))) (callDecl (withRet v typ c)).
Proof.
  intros Hi He Hf ->. rewrite callDecl_withRet. set (s1 := mkGS _ _ _).
  assert (Hf1 : fresh s0 s1 (argDecls c)).
  { destruct Hf as [Hn Hr]. split; [done|]. eapply Forall_impl; [exact Hr|]. intros v [? ?]. split; [done|].
    eapply older_mono; [|done]. simpl. lia. }
  case_bool_decide; [by rewrite app_nil_r|]. apply (fresh_app s0 s); try done.
  - split.
    + apply NoDup_app. split_and!; [apply Hi| |apply NoDup_singleton].
      intros x Hx ->%list_elem_of_singleton. by eapply fresh_var.
    + constructor; [|done]. split; eexists; (split; [|done]); simpl; lia.
  - intros x Hx ->%list_elem_of_singleton. pose proof (fresh_older _ _ _ Hf) as Ho. rewrite Forall_forall in Ho.
    eapply older_newer; [by apply Ho|]. eexists. split; [|done]. done.
Qed.

Lemma ext_push s0 s c calls rd :
  ext s0 s → fresh s0 s (callDecl c) → (g_rd s0 ≤ rd)%Z → p_Calls (g_prog s) ⊆ calls →
  ext s0 (mkGS (g_store s) rd (withCalls (p_calls (g_prog s) ++ [c]) calls (g_prog s))).
Proof.
  intros [H1 H2 H3 H4 Hu H5 H6 H7 H8 H9 H10 H11] [_ Hr] Hrd Hl. split; try done.
  - intros v Hv. cbn [g_prog]. rewrite declared_push. apply elem_of_app. left. by apply H2.
  - intros v. cbn [g_prog]. rewrite declared_push. intros [?|Hv]%elem_of_app; [by apply H3|right].
    rewrite Forall_forall in Hr. by apply Hr.
  - intros v Hv. cbn [g_prog]. rewrite usable_push. apply elem_of_app. left. by apply Hu.
  - simpl. by apply prefix_app_r.
  - by trans (p_Calls (g_prog s)).
Qed.

Lemma good_weaken (b : bool) s : good pt sc s → good pt (sc && b) s.
Proof. intros [? H]. split; [done|]. intros [? _]%andb_true_iff. by apply H. Qed.

(** What [genBpfHelperCall] gives: the finished call is in the program. *)
Definition callPost (prepend : bool) (s : GState) (helper : BpfHelper) (o : option BpfCall) (s' : GState) : Prop :=
  ext s s' ∧ good pt (sc && negb prepend) s' ∧ ∀ c, o = Some c → c ∈ p_calls (g_prog s') ∧ c_Helper c = helper.

Lemma callPost_none prepend s helper s' : keeps pt sc s s' → callPost prepend s helper None s'.
Proof. intros [? ?]. split_and!; [done|by apply good_weaken|done]. Qed.

Lemma isRefAcquireCall_ret p D c :
  callShape pt p c → scopedCall p D c → ∃ z, isRefAcquireCall p c = Ret z.
Proof using Hready.
  intros Hs Hd. unfold isRefAcquireCall. cbv zeta.
  match goal with |- context [if ?b then Ret true else _] => destruct b end; [by eexists|].
  destruct (bool_decide (h_Enum (c_Helper c) = BPF_FUNC_map_lookup_elem)) eqn:He; [|by eexists].
  destruct (finished_map _ _ _ Hs Hd) as (i & m & -> & Hi).
  { unfold needsMap. by rewrite He, orb_true_r. }
  simpl. unfold mapAt. rewrite Hi. by eexists.
Qed.

(** The part after the arguments. *)
Lemma finish_spec s0 s helper c (prepend : bool) :
  ext s0 s → good pt sc s → pending s0 s (length (h_Args (c_Helper c))) c → c_Helper c = helper →
  (g_rd s0 < g_rd s)%Z →
  gens tot
    (p ← getProg;
     refType ← need (isRefAcquireCall p c);
     if bool_decide (refType = 1%Z) && bool_decide (getHelpers pt [BPF_FUNC_sk_release] = []) then mret None
     else
       typ ← need (bpfRetType p c);
       v ← newVar;
       let c := withRet v typ c in
       _ ← modProg (λ p, withCalls (p_calls p ++ [c])
              (if prepend then length (p_calls p) :: p_Calls p else p_Calls p ++ [length (p_calls p)]) p);
       rd ← getRd;
       _ ← setRd (rd - 1)%Z;
       mret (Some c)) s (callPost prepend s0 helper).
Proof using Hready MapMaker0.
  intros He Hg Hp <- Hrd. pose proof (pending_scoped _ _ _ Hp) as Hs. pose proof (pn_shape _ _ _ _ Hp) as Hsh. gsteps.
  destruct (isRefAcquireCall_ret _ _ _ Hsh Hs) as [z Ez]. eapply gens_need; [exact Ez|].
  apply gens_if; intros _; [by apply gens_ret, callPost_none|].
  destruct (bpfRetType_spec (g_prog s) c) as (typ & Et & Hres & Hstr).
  { apply (ready_helper _ Hready), Hsh. }
  { apply Hg. }
  { intros Hm. by eapply finished_map; [..|apply retsMapValue_needsMap]. }
  eapply gens_need; [exact Et|]. gsteps. apply gens_ret. pose proof (keeps_var _ _ _ Hg) as Hk.
  set (s1 := mkGS _ _ (withVarId _ _)) in Hk |- *. set (c1 := withRet _ _ c).
  assert (Hf : fresh s0 s1 (callDecl c1)) by (apply fresh_ret; [apply Hg|done|apply Hp|done]).
  assert (He1 : ext s0 s1) by (trans s; [done|apply Hk]).
  split_and!.
  - apply (ext_push s0 s1); [done|done| |]; simpl; [lia|]. destruct prepend; set_solver.
  - assert (Hgp : good pt (sc && negb prepend) (mkGS (g_store s1) (g_rd s1) (withCalls (p_calls (g_prog s1) ++ [c1])
       (if prepend then length (p_calls (g_prog s1)) :: p_Calls (g_prog s1)
        else p_Calls (g_prog s1) ++ [length (p_calls (g_prog s1))]) (g_prog s1)))).
    { apply good_push; [apply Hk| | |apply Hp|done|done|apply Hf|by eapply fresh_older].
      - destruct (callShape_ext _ _ _ _ (proj1 Hk) Hsh). by split.
      - eapply (scopedCall_mono (g_prog s)); [apply ext_grown, Hk| |exact Hs]. apply Hk. }
    destruct Hgp as [[] ?]. split; [by split|done].
  - intros ? [= <-]. split; [|done]. simpl. set_solver.
Qed.

Lemma pending_new s0 s helper hint :
  inv pt s → helper ∈ pt_Helpers pt → hintOK (g_prog s) hint → pending s0 s 0 (NewBpfCall helper hint).
Proof.
  intros Hi Hh Hhint. assert (Ed : argDecls (NewBpfCall helper hint) = []) by apply argDecls_none. split; try done.
  - split; try done; [apply length_replicate|]. intros i a H%lookup_replicate_1. by destruct H.
  - intros j Hj. lia.
  - simpl. by rewrite length_replicate, Nat.sub_0_r.
  - rewrite Ed. by eapply fresh_nil.
Qed.

Lemma genBpfHelperCall_spec fuel prepend s helper hint :
  good pt sc s → (100 - Z.of_nat fuel ≤ g_rd s)%Z → helper ∈ pt_Helpers pt → hintOK (g_prog s) hint →
  gens tot (genBpfHelperCall pt newMap (S fuel) helper hint prepend) s (callPost prepend s helper).
Proof using Hready MapMaker0.
  revert prepend s helper hint. induction fuel as [|fuel IH]; intros prepend s helper hint Hg Hrd Hh Hhint;
    cbn [genBpfHelperCall]; gsteps.
  all: pose proof (keeps_rd _ _ _ Hg (g_rd s + 1) ltac:(lia)) as Hk; apply gens_if; intros Hd;
    [by apply gens_ret, callPost_none|].
  { apply bool_decide_eq_false in Hd. simpl in Hrd. lia. }
  set (s1 := mkGS (g_store s) (g_rd s + 1) (g_prog s)) in *.
  assert (Hrec : recSpec (genBpfHelperCall pt newMap (S fuel)) (100 - Z.of_nat fuel)).
  { intros s2 helper2 hint2 Hg2 Hrd2 Hh2 Hhint2. eapply gens_mono; [by apply IH|].
    intros o s' (? & Hg' & ?). rewrite andb_true_r in Hg'. by split. }
  eapply gens_bind; [apply (argsLoop_spec _ _ Hrec _ s s1)|].
  - apply Hk.
  - apply Hk.
  - simpl. lia.
  - apply pending_new; [apply Hk|done..].
  - simpl. lia.
  - intros [[] c] s2 (Hk2 & Eh & Hp); cbn [fst snd negb] in *; [|by apply gens_ret, callPost_none; eapply keeps_trans].
    apply finish_spec; [|apply Hk2|by rewrite Eh; apply Hp|done|].
    + trans s1; [apply Hk|apply Hk2].
    + pose proof (e_rd _ _ (proj1 Hk2)) as H. simpl in H. lia.
Qed.

End recursion.
