(* ===== verification/BpfCallProg.v ===== *)
(** * Generated helper-call programs

    [NewMap] discharges the interface of the generator, [NewBpfProg] sets up its
    invariant, and the tables of the source pass its check; so [GenBpfProg] never
    panics and its programs are in scope, and [MutBpfProg] keeps them well
    formed. *)

From stdpp Require Import base numbers strings pretty gmap list.
From S2P Require Import Prelude BpfTypes BpfHelperTable BpfProgTable BpfCtxTable BpfInit BpfRegTypes BpfMaps BpfNewMap Rand.
From S2P Require Import StructOpsModel StructOpsGen StructOpsTyping BpfCallGen BpfCallSpec BpfCallSafe BpfCallRec.

Local Open Scope string_scope.
Local Open Scope list_scope.
Local Open Scope nat_scope.

(** ** [NewMap] *)

(** What holds of the result, if there is one. *)
Definition partial {A} (m : Gen A) (Q : A → Prop) : Prop :=
  ∀ r, match m r with Ret (a, _) => Q a | _ => True end.

Lemma partial_ret {A} (a : A) (Q : A → Prop) : Q a → partial (mret a) Q.
Proof. by intros H r. Qed.

Lemma partial_bind {A B} (m : Gen A) (k : A → Gen B) (P : A → Prop) (Q : B → Prop) :
  partial m P → (∀ a, P a → partial (k a) Q) → partial (m ≫= k) Q.
Proof.
  intros Hm Hk r. unfold mbind, Gen_bind. specialize (Hm r). destruct (m r) as [[a r']| |]; [|done..]. by apply Hk.
Qed.

Lemma partial_any {A} (m : Gen A) : partial m (λ _, True).
Proof. intros r. by destruct (m r) as [[]| |]. Qed.

Lemma ensures_partial tot {A} (m : Gen A) (P Q : A → Prop) :
  ensures tot m P → partial m Q → ensures tot m (λ a, P a ∧ Q a).
Proof. intros Hm Hp r. specialize (Hm r). specialize (Hp r). by destruct (m r) as [[]| |]. Qed.

Lemma partial_pick {A} (l : list A) : partial (pick l) (λ x, x ∈ l).
Proof.
  eapply partial_bind; [apply partial_any|]. intros i _ r. unfold index. case_bool_decide; [done|].
  destruct (l !! Z.to_nat i) eqn:E; [|done]. by eapply list_elem_of_lookup_2.
Qed.

Lemma starFree_app s1 s2 : starFree (s1 +:+ s2) = starFree s1 && starFree s2.
Proof. apply all_chars_app. Qed.

Lemma starFree_nat (n : nat) : starFree (pretty n) = true.
Proof. apply all_chars_pretty_N. intros k. unfold pretty_N_char. by repeat case_match. Qed.

Lemma nextMember_star useHint hints z : starFree (nextMember useHint hints z).2 = true.
Proof. unfold nextMember. by repeat case_match. Qed.

Lemma memberLoop_names fuel useHint size off hints types served :
  Forall (λ t, starFree t = true) types →
  match memberLoop fuel useHint size off hints types served with
  | Ret (types', _, hints') => Forall (λ t, starFree t = true) types' ∧ hints' ⊆ hints
  | _ => True
  end.
Proof.
  revert off hints types served. induction fuel as [|fuel IH]; intros off hints types served Ht; simpl; [by case_bool_decide|].
  case_bool_decide; [done|]. pose proof (nextMember_star useHint hints (size - off)) as Hs.
  destruct (nextMember useHint hints (size - off)) as [h t]. simpl in Hs.
  specialize (IH (off + memberSize t)%Z (match h with Some h => dropHint h hints | None => hints end) (types ++ [t])
    (match h with Some h => served ++ [h] | None => served end) (Forall_app_2 _ _ _ Ht (proj2 (Forall_singleton _ _) Hs))).
  destruct (memberLoop _ _ _ _ _ _ _) as [[[? ?] ?]| |]; [|done..]. destruct IH as [? Hin]. split; [done|].
  destruct h; [|done]. intros x Hx%Hin. by apply list_elem_of_filter in Hx as [_ ?].
Qed.

(** The structs and hints after a struct was made or reused. *)
Definition structNames (structs : list StructDef) (hints : list ArgHint)
    (r : option StructDef * bool * list StructDef * list ArgHint) : Prop :=
  let '(o, _, structs', hints') := r in
  Forall (λ sd, starFree (sd_Name sd) = true) structs' ∧ (∀ sd, o = Some sd → starFree (sd_Name sd) = true) ∧ hints' ⊆ hints.

Lemma generateStruct_names structs sizes hints useHint msh :
  Forall (λ sd, starFree (sd_Name sd) = true) structs →
  partial (generateStruct structs sizes hints useHint msh) (structNames structs hints).
Proof.
  intros Hst. unfold generateStruct. do 3 (eapply partial_bind; [apply partial_any|intros ? _]).
  destruct (raisedMin _ _ _ _ _); [|by apply partial_ret].
  eapply partial_bind; [apply partial_any|]. intros [size|] _; [|by apply partial_ret].
  case_bool_decide; [by apply partial_ret|].
  pose proof (memberLoop_names (Z.to_nat size) useHint size 0 hints [] [] (List.Forall_nil _)) as Hl.
  destruct (memberLoop _ _ _ _ _ _ _) as [[[types served] hints']| |]; [|done..]. destruct Hl as [Hty Hh].
  set (name := if negb _ then _ else _). assert (Hn : starFree name = true).
  { unfold name. destruct (negb _).
    - rewrite starFree_app, starFree_nat. done.
    - destruct types; [done|]. by inversion Hty. }
  apply partial_ret. split_and!; [|by intros ? [= <-]|done].
  apply Forall_app_2; [done|]. by constructor.
Qed.

Lemma reuse_names compat structs hints hints' gen :
  (∀ sd, sd ∈ compat → starFree (sd_Name sd) = true) → Forall (λ sd, starFree (sd_Name sd) = true) structs →
  hints' ⊆ hints → partial gen (structNames structs hints') →
  partial (reuseOrGenerate compat structs gen hints') (structNames structs hints).
Proof.
  intros Hc Hst Hh Hgen. unfold reuseOrGenerate. eapply partial_bind; [apply partial_any|]. intros b _.
  destruct (_ && _).
  - eapply partial_bind; [apply partial_pick|]. intros sd Hsd. apply partial_ret. split_and!; [done| |done].
    intros ? [= <-]. by apply Hc.
  - intros r. specialize (Hgen r). destruct (gen r) as [[[[[o ok] st] hs] ?]| |]; [|done..].
    destruct Hgen as (? & ? & ?). split_and!; [done..|]. set_solver.
Qed.

(** The body of [NewMap] keeps the names, if the inner maps do. *)
Lemma newMapWith_names newMap p mt hints msh :
  namesOK p → (∀ p imt, namesOK p → partial (newMap p imt [] 0%Z) (λ r, namesOK r.1.2)) →
  partial (newMapWith newMap p mt hints msh) (λ r, namesOK r.1.2 ∧ r.2 ⊆ hints).
Proof.
  intros [Hst Hmp] Hinner. unfold newMapWith. eapply partial_bind; [apply partial_any|]. intros me _.
  assert (Hc : ∀ P `{!∀ x, Decision (P x)} st sd, Forall (λ sd, starFree (sd_Name sd) = true) st →
    sd ∈ filter P st → starFree (sd_Name sd) = true).
  { intros P ? st sd Hf [_ Hin]%list_elem_of_filter. rewrite Forall_forall in Hf. by apply Hf. }
  eapply partial_bind.
  { apply (reuse_names _ _ hints); [intros sd; by apply Hc|done|done|by apply generateStruct_names]. }
  intros [[[key kok] st1] hints1] (Hst1 & _ & Hh1). destruct (negb kok); [by apply partial_ret|].
  eapply partial_bind.
  { apply (reuse_names _ _ hints); [intros sd; by apply Hc|done|done|by apply generateStruct_names]. }
  intros [[[val vok] st2] hints2] (Hst2 & Hval & Hh2). destruct (negb vok); [by apply partial_ret|].
  eapply (partial_bind _ _ (λ r, namesOK r.2)).
  { destruct (isMapOfMaps _); [|by apply partial_ret]. eapply partial_bind; [apply partial_any|]. intros imt _.
    eapply partial_bind; [by apply Hinner|]. intros [[inner p'] ?] ?. by apply partial_ret. }
  intros [inner p'] [Hst' Hmp']. do 2 (eapply partial_bind; [apply partial_any|intros ? _]).
  apply partial_ret. split; [|done]. split; [done|]. apply Forall_app_2; [done|]. by constructor.
Qed.

Lemma NewMap_names fuel p mt hints msh :
  namesOK p → partial (NewMap fuel p mt hints msh) (λ r, namesOK r.1.2 ∧ r.2 ⊆ hints).
Proof.
  revert p mt hints msh. induction fuel as [|fuel IH]; intros p mt hints msh Hn; [done|].
  apply (newMapWith_names (NewMap fuel)); [done|]. intros p' imt Hn' r. specialize (IH p' imt [] 0%Z Hn' r).
  destruct (NewMap fuel p' imt [] 0 r) as [[? ?]| |]; [|done..]. apply IH.
Qed.

#[global] Instance NewMap_maker fuel : MapMaker false (NewMap fuel).
Proof.
  intros p mt hints msh Hmt Hp Hn Hs Hm. apply ensures_partial; [by apply NewMap_ensures|by apply NewMap_names].
Qed.

(** With inner maps left out, [NewMap] terminates on every random stream. *)
Definition flatMap : MapProg → BpfMapType → list ArgHint → Z → Gen (option nat * MapProg * list ArgHint) :=
  newMapWith (λ p _ hints _, mret (None, p, hints)).

#[global] Instance flatMap_maker : MapMaker true flatMap.
Proof.
  intros p mt hints msh Hmt Hp Hn Hs Hm. apply ensures_partial.
  - by apply newMapWith_ensures.
  - apply newMapWith_names; [done|]. intros p' imt Hn'. by apply partial_ret.
Qed.

(** ** New programs *)

Lemma wp_genRandReturnVal e : wp (genRandReturnVal e) (λ _, True).
Proof. destruct e; simpl; first [by apply wp_ret | by apply wp_Intn]. Qed.

Lemma wp_genSecName f : wp (genSecName f) (λ _, True).
Proof. destruct f; simpl; first [by apply wp_ret | by apply wp_pick]. Qed.

Lemma NewBpfProg_spec pt st rd :
  genReady pt = true → storeOK st →
  wp (NewBpfProg pt) (λ p, good pt true (mkGS st rd p) ∧ p_StructOps p = None ∧ p_calls p = [] ∧ p_Calls p = []).
Proof.
  intros Hr Hst. unfold NewBpfProg. eapply wp_bind; [apply wp_genRandReturnVal|]. intros rv _.
  eapply wp_bind.
  { apply (wp_pick _ (λ _, True)); [|done]. unfold genReady in Hr. rewrite !andb_true_iff in Hr.
    destruct Hr as [[[_ Hs] _] _]. by apply bool_decide_eq_true in Hs. }
  intros sec _. eapply (wp_bind _ _ (λ _, True)); [destruct (sec_Gen sec); [apply wp_genSecName|by apply wp_ret]|].
  intros name _. apply wp_ret. split; [|done]. split; [|by intros _; split].
  destruct (scratchProg_OK (pt_Enum pt)) as [H1 H2 H3].
  assert (Hd : ∀ p, p_CtxVars p = ∅ → p_calls p = [] → declared p = p_ScratchMapVars p).
  { intros p E1 E2. unfold declared, baseDecl. rewrite E1, E2, map_to_list_empty. simpl. by rewrite !app_nil_r. }
  split; cbn [g_store g_prog]; try done.
  - split; [constructor|]. repeat constructor. by intros ? [= <-].
  - rewrite Hd by done. apply (NoDup_fmap_2 varName), NoDup_seq.
  - rewrite Hd by done. apply Forall_fmap, Forall_seq. intros j Hj. exists j. simpl in *. split; [lia|done].
Qed.

(** ** [GenBpfProg] *)

(** The program types after the start of the fuzzer. *)
Inductive initialised : list (BpfProgTypeEnum * BpfProgType) → Prop :=
  | init_done pts : InitFromSrc HelperFuncMap ProgTypeMap CtxAccessMap = Ret pts → initialised pts.

(** A check of the program types. *)
Definition initCheck (m : res (list (BpfProgTypeEnum * BpfProgType))) (f : list (BpfProgTypeEnum * BpfProgType) → bool) : bool :=
  match m with Ret l => f l | _ => false end.

Definition initOr (m : res (list (BpfProgTypeEnum * BpfProgType))) : list (BpfProgTypeEnum * BpfProgType) :=
  match m with Ret l => l | _ => [] end.

Lemma initCheck_ret m f : initCheck m f = true → m = Ret (initOr m) ∧ f (initOr m) = true.
Proof. by destruct m. Qed.

(** The tables of the source pass the check of the generator. *)
Lemma tables_gen_ready :
  initCheck (InitFromSrc HelperFuncMap ProgTypeMap CtxAccessMap) (λ l,
    forallb (λ e, genReady e.2) l && forallb ptReady l && forallb (λ e, bool_decide (is_Some (progTypeOf l e))) progChoices) = true.
Proof. vm_compute. reflexivity. Qed.

(** The program types themselves. *)
Definition progTypes : list (BpfProgTypeEnum * BpfProgType) := initOr (InitFromSrc HelperFuncMap ProgTypeMap CtxAccessMap).

Lemma progTypes_init : initialised progTypes.
Proof. apply init_done. exact (proj1 (initCheck_ret _ _ tables_gen_ready)). Qed.

Lemma progTypeOf_elem pts e pt : progTypeOf pts e = Some pt → (e, pt) ∈ pts.
Proof.
  unfold progTypeOf. intros ([e' pt'] & ([i [e1 pt1]] & Hf & [= <- <-])%fmap_Some & ->)%fmap_Some.
  apply list_find_Some in Hf as (Hi & Hx & _). simpl in Hx. subst. by eapply list_elem_of_lookup_2.
Qed.

(** The program types that can be drawn are ready. *)
Lemma choice_ready pts e :
  initialised pts → e ∈ progChoices →
  ∃ pt, progTypeOf pts e = Some pt ∧ pt_Enum pt = e ∧ genReady pt = true ∧
    (e ≠ BPF_PROG_TYPE_STRUCT_OPS → pt_Helpers pt ≠ []).
Proof.
  intros [pts' Hi] He. pose proof tables_gen_ready as H. rewrite Hi in H. clear Hi. cbn [initCheck] in H. rewrite !andb_true_iff, !forallb_forall in H.
  destruct H as [[Hg Hr] Hc]. apply list_elem_of_In, Hc, bool_decide_eq_true in He as [pt Hpt].
  exists pt. split; [done|]. apply progTypeOf_elem, list_elem_of_In in Hpt.
  pose proof (Hr _ Hpt) as Hp. unfold ptReady in Hp. rewrite !andb_true_iff, orb_true_iff, !bool_decide_eq_true in Hp.
  destruct Hp as [[? Hh] _]. split_and!; [done|by apply (Hg _ Hpt)|]. intros Hne. by destruct Hh.
Qed.

(** A program that [GenBpfProg] returns: the calls are in scope, no name is
    declared twice, every context variable has a type, the stack is within its
    limit, and the maps are well formed. *)
Record programOK (p : BpfProg) : Prop := {
  po_scoped : scoped p;
  po_nodup : NoDup (declared p);
  po_types : dom (p_CtxTypes p) = dom (p_CtxVars p);
  po_stack : (0 ≤ p_TotalStackUsage p ≤ stackLimit)%Z;
  po_maps : progOK (p_maps p);
}.

Lemma good_programOK pt s : good pt true s → programOK (g_prog s).
Proof. intros [[] Hs]. split; try done. by apply Hs. Qed.

(** The type can be drawn; a scheduler is what its generator gives; a helper-call program that was generated has a
    call of the helper that was drawn. *)
Definition genResult (pts : list (BpfProgTypeEnum * BpfProgType)) (pt : BpfProgType) (s : GState) (ok : bool) : Prop :=
  (∃ e, e ∈ progChoices ∧ progTypeOf pts e = Some pt) ∧ good pt true s ∧ (0 ≤ g_rd s)%Z ∧
  match p_StructOps (g_prog s) with
  | Some so => ok = true ∧ progPost so
  | None => ok = true → p_Calls (g_prog s) ≠ []
  end.

Lemma GenBpfProg_spec tot newMap `{!MapMaker tot newMap} pts st rd :
  initialised pts → storeOK st → (0 ≤ rd)%Z →
  ensures tot (GenBpfProg newMap pts st rd) (λ r, genResult pts r.1.1 r.1.2 r.2).
Proof.
  intros Hi Hst Hrd. unfold GenBpfProg.
  eapply ensures_bind; [apply ensures_wp, (wp_pick _ (λ e, e ∈ progChoices)); done|]. intros e He.
  destruct (choice_ready _ _ Hi He) as (pt & Hpt & Hen & Hr & Hh).
  eapply ensures_bind; [apply ensures_wp; eapply wp_liftRes; [by rewrite Hpt|exact (eq_refl pt)]|]. intros ? <-.
  case_bool_decide as Hso.
  - eapply ensures_bind; [|intros r H; apply ensures_ret; exact H].
    unfold genStructOpsBpfProg. apply ensures_wp. eapply wp_bind; [by apply (NewBpfProg_spec pt st rd)|]. intros p (Hg & _ & Ec & EC).
    eapply wp_bind; [apply wp_genStructOpsProg|]. intros so Hp. apply wp_ret. simpl.
    split; [by exists e|]. split; [|by split]. clear Hst. inv_split Hg. split.
    + split; try done; simpl. by rewrite Ec.
    + intros _. split; simpl; [by rewrite EC, Ec|by rewrite Ec].
  - eapply ensures_bind; [apply ensures_wp, (wp_pick _ (λ h, h ∈ pt_Helpers pt)); [by rewrite Hen in Hso; apply Hh|done]|].
    intros helper Hin. eapply ensures_bind; [apply ensures_wp; by apply (NewBpfProg_spec pt st 0)|]. intros p (Hg & Hops & _).
    eapply ensures_bind.
    { apply (genBpfHelperCall_spec pt Hr tot newMap true 100 false _ helper); [done|done|done|].
      split_and!; [by left|apply Z.divide_0_r|done]. }
    intros [o s'] (He' & Hg' & Hc). apply ensures_ret. simpl in *. split; [by exists e|]. split_and!; [done|apply He'|].
    rewrite (e_ops _ _ He'). simpl. rewrite Hops. intros [c Hs]%bool_decide_eq_true Hnil.
    destruct (Hc _ Hs) as [Hin' _]. destruct (proj2 Hg' eq_refl) as [E _]. rewrite Hnil in E.
    by destruct (p_calls (g_prog s')); [apply not_elem_of_nil in Hin'|].
Qed.

(** ** [MutBpfProg] *)

(** The declarations after a call was changed in place. *)
Lemma declared_replace p c call call' :
  p_calls p !! c = Some call →
  ∃ R, declared p ≡ₚ callDecl call ++ R ∧
    declared (withCalls (<[c := call']> (p_calls p)) (p_Calls p) p) ≡ₚ callDecl call' ++ R.
Proof.
  intros Hc. exists (baseDecl p ++ concat (callDecl <$> (take c (p_calls p) ++ drop (S c) (p_calls p)))).
  unfold declared. simpl. change (baseDecl (withCalls _ _ p)) with (baseDecl p).
  rewrite insert_take_drop by (by eapply lookup_lt_Some).
  rewrite <- (take_drop_middle _ _ _ Hc) at 1. rewrite !fmap_app, !fmap_cons, !concat_app. simpl. split; solve_Permutation.
Qed.

Lemma usable_replace p c call call' :
  p_calls p !! c = Some call → retDecl call' = retDecl call →
  usable (withCalls (<[c := call']> (p_calls p)) (p_Calls p) p) = usable p.
Proof.
  intros Hc E. unfold usable. simpl. f_equal. f_equal. rewrite list_fmap_insert, E. apply list_insert_id.
  by rewrite list_lookup_fmap, Hc.
Qed.

Lemma argDecls_replace call i a old :
  c_Args call !! i = Some old →
  ∃ R, argDecls call ≡ₚ argDecl old ++ R ∧ argDecls (withArg i a call) ≡ₚ argDecl (Some a) ++ R.
Proof.
  intros Hi. exists (concat (argDecl <$> (take i (c_Args call) ++ drop (S i) (c_Args call)))).
  unfold argDecls. cbn [withArg c_Args]. rewrite insert_take_drop by (by eapply lookup_lt_Some).
  rewrite <- (take_drop_middle _ _ _ Hi) at 1. rewrite !fmap_app, !fmap_cons, !concat_app. simpl. split; solve_Permutation.
Qed.

Lemma inv_replace pt s c call call' new old :
  inv pt s → p_calls (g_prog s) !! c = Some call →
  retDecl call' = retDecl call → c_RetType call' = c_RetType call → c_Helper call' = c_Helper call →
  Forall (postCall (g_prog s) (usable (g_prog s))) (c_PostCalls call') →
  callShape pt (g_prog s) call' → scopedCall (g_prog s) (usable (g_prog s)) call' →
  (∃ R, argDecls call ≡ₚ old ++ R ∧ argDecls call' ≡ₚ new ++ R) →
  NoDup (declared (g_prog s) ++ new) → Forall (older (p_VarId (g_prog s))) new →
  inv pt (mkGS (g_store s) (g_rd s) (withCalls (<[c := call']> (p_calls (g_prog s))) (p_Calls (g_prog s)) (g_prog s))).
Proof.
  intros Hi Hc Er Et Eh Ep Hsh Hsc (R & E1 & E2) Hn Ho.
  destruct (declared_replace _ _ _ call' Hc) as (R' & D1 & D2). pose proof (usable_replace _ _ _ _ Hc Er) as Eu.
  set (p' := withCalls _ _ _) in *.
  assert (Ed : declared p' ≡ₚ new ++ R ++ retDecl call ++ R').
  { rewrite D2. unfold callDecl. rewrite E2, Er. solve_Permutation. }
  assert (Es : declared (g_prog s) ≡ₚ old ++ R ++ retDecl call ++ R').
  { rewrite D1. unfold callDecl. rewrite E1. solve_Permutation. }
  rewrite Es in Hn. destruct Hi as [Hst Hmp Hnm Hstk Hscr Hidx _ Hold Hctx Hxt Hcs Hord].
  rewrite Es in Hold. apply Forall_app in Hold as [_ Hold].
  assert (Hmono : ∀ x, scopedCall (g_prog s) (usable (g_prog s)) x → scopedCall p' (usable p') x).
  { intros x. apply scopedCall_mono; [apply withCalls_grown|]. by rewrite Eu. }
  assert (Hposts : ∀ l, Forall (postCall (g_prog s) (usable (g_prog s))) l → Forall (postCall p' (usable p')) l).
  { intros l. apply postCalls_mono; [apply withCalls_grown|]. by rewrite Eu. }
  split; simpl; try done.
  - rewrite Ed. rewrite (Permutation_app_comm new). apply NoDup_app in Hn as (Hn1 & Hn2 & Hn3).
    apply NoDup_app in Hn1 as (_ & _ & Hn1). apply NoDup_app. split_and!; [done| |done].
    intros x Hx. apply Hn2. set_solver.
  - rewrite Ed. by apply Forall_app_2.
  - apply Forall_insert.
    + eapply Forall_impl; [exact Hcs|]. intros x [Hsh' ? ? ? ?]. split; try done; [by destruct Hsh'|by apply Hmono|by apply Hposts].
    + pose proof (Forall_lookup_1 _ _ _ _ Hcs Hc) as [_ _ _ Hr Hstr]. rewrite <- Et, <- Eh in Hr. rewrite <- Et in Hstr.
      split; try done; [by destruct Hsh|by apply Hmono|by apply Hposts].
  - by rewrite length_insert.
Qed.

Lemma scopedCall_withArg p D c arg t a :
  scopedCall p D c → h_Args (c_Helper c) !! arg = Some t → argOK p (D ++ argDecl (Some a)) t a →
  scopedCall p D (withArg arg a c).
Proof.
  intros Hs Ht Ha. pose proof (Forall2_length _ _ _ Hs) as Hlen. unfold scopedCall. cbn [withArg c_Args c_Helper].
  apply Forall2_same_length_lookup_2; [by rewrite length_insert|]. intros i t' o Hi Ho.
  destruct (decide (i = arg)) as [->|Hne].
  - rewrite list_lookup_insert_eq in Ho by (rewrite <- Hlen; by eapply lookup_lt_Some). simplify_eq. eauto.
  - rewrite list_lookup_insert_ne in Ho by done. by eapply Forall2_lookup_lr in Hs.
Qed.

(** A new value for an argument of a call of the program. *)
Lemma inv_argPost pt sc s s' c call arg t r :
  p_calls (g_prog s) !! c = Some call → h_Args (c_Helper call) !! arg = Some t →
  argPost pt sc s call arg t r s' →
  inv pt (mkGS (g_store s') (g_rd s') (withCalls (<[c := r.2]> (p_calls (g_prog s'))) (p_Calls (g_prog s')) (g_prog s'))).
Proof.
  intros Hc Ht ([He [Hi _]] & c0 & [Eh Ea Er Et Ep] & Hsh & Hr).
  assert (Hc' : p_calls (g_prog s') !! c = Some call) by (eapply prefix_lookup_Some; [exact Hc|apply He]).
  pose proof (Forall_lookup_1 _ _ _ _ (i_calls _ _ Hi) Hc') as [_ Hsc Hpo _ _]. rewrite <- Ep in Hpo.
  assert (Hsc0 : scopedCall (g_prog s') (usable (g_prog s')) c0) by (unfold scopedCall; by rewrite Eh, Ea).
  assert (Hret : retDecl c0 = retDecl call) by (unfold retDecl; by rewrite Er, Et).
  assert (Had : argDecls c0 = argDecls call) by (unfold argDecls; by rewrite Ea).
  destruct r as [[] c']; simpl in Hr |- *.
  - destruct Hr as (a & -> & [Hok [Hn Ho]] & Hm).
    assert (Hlt : arg < length (c_Args c0)).
    { rewrite (cs_len _ _ _ Hsh), Eh. by eapply lookup_lt_Some. }
    apply lookup_lt_is_Some in Hlt as [old Hold]. destruct (argDecls_replace c0 arg a old Hold) as (R & E1 & E2).
    apply (inv_replace pt s' c call _ (argDecl (Some a)) (argDecl old)); try done.
    + destruct Hsh as [? ? ? ? Hk]. split; try done; [cbn [withArg c_Args c_Helper]; by rewrite length_insert|].
      intros i b. cbn [withArg c_Args c_ArgMap]. destruct (decide (i = arg)) as [->|Hne].
      * rewrite list_lookup_insert_eq by (by eapply lookup_lt_Some). intros [= <-]. by rewrite (proj1 Hok).
      * rewrite list_lookup_insert_ne by done. apply Hk.
    + apply (scopedCall_withArg _ _ _ _ t); [done|by rewrite Eh|done].
    + exists R. by rewrite <- Had.
    + eapply Forall_impl; [exact Ho|]. by intros v [_ ?].
  - subst c'. apply (inv_replace pt s' c call _ [] []); try done.
    + exists (argDecls call). by rewrite Had.
    + rewrite app_nil_r. apply Hi.
Qed.

Lemma inv_structOps pt s so :
  inv pt s → inv pt (mkGS (g_store s) (g_rd s) (withStructOps so (g_prog s))).
Proof.
  intros []. split; try done. simpl. eapply Forall_impl; [exact i_calls|]. intros c [Hsh Hsc Hpo ? ?].
  assert (Hm : ∀ x, scopedCall (g_prog s) (usable (g_prog s)) x →
    scopedCall (withStructOps so (g_prog s)) (usable (g_prog s)) x).
  { intros x. apply scopedCall_mono; [|done]. split; [|done..]. intros i m ?. by exists m. }
  split; try done; [by destruct Hsh|by apply Hm|]. eapply Forall_impl; [exact Hpo|]. intros x [? ?]. split; [by apply Hm|done].
Qed.

Lemma MutBpfProg_spec tot newMap `{!MapMaker tot newMap} pt sc s :
  genReady pt = true → good pt sc s → (0 ≤ g_rd s)%Z →
  gens tot (MutBpfProg newMap pt) s (λ _ s', inv pt s' ∧ (0 ≤ g_rd s')%Z ∧
    match p_StructOps (g_prog s') with Some so => progPost so | None => p_StructOps (g_prog s) = None end).
Proof.
  intros Hr Hg Hrd. unfold MutBpfProg. gsteps. destruct (p_StructOps (g_prog s)) as [so|] eqn:Eso.
  - eapply gens_wp; [apply wp_genStructOpsProg|]. intros so' Hso. gsteps. apply gens_ret. split; [|done].
    by apply inv_structOps, Hg.
  - set (calls := filter _ _). apply gens_if; intros Hb; [apply gens_ret; rewrite Eso; split; [apply Hg|done]|].
    apply bool_decide_eq_false in Hb.
    eapply gens_wp; [by apply (wp_pick _ (λ c, c ∈ calls))|]. intros c [Hc Hin]%list_elem_of_filter.
    destruct (p_calls (g_prog s) !! c) as [call|] eqn:Ec; [|done]. apply Is_true_true, bool_decide_eq_true in Hc.
    eapply gens_need; [done|].
    eapply gens_wp; [apply (wp_Intn _ (λ z, 0 ≤ z < Z.of_nat (length (c_Args call)))%Z); [|done]|].
    { destruct (c_Args call); [done|simpl; lia]. }
    intros z [Hz1 Hz2]. pose proof (Forall_lookup_1 _ _ _ _ (i_calls _ _ (proj1 Hg)) Ec) as [Hsh _ _ _ _].
    assert (is_Some (h_Args (c_Helper call) !! Z.to_nat z)) as [t Ht].
    { apply lookup_lt_is_Some. rewrite <- (cs_len _ _ _ Hsh). lia. }
    assert (Hrec : recSpec pt tot sc (genBpfHelperCall pt newMap callFuel) 0).
    { intros s2 helper hint Hg2 Hrd2 Hh Hhint. eapply gens_mono; [by apply (genBpfHelperCall_spec pt Hr tot newMap sc 100)|].
      intros o s' (? & Hg' & ?). rewrite andb_true_r in Hg'. by split. }
    eapply gens_bind; [by apply (genBpfHelperCallArg_spec pt Hr tot newMap sc _ 0 Hrec)|].
    intros r s' Hp. gsteps. apply gens_ret. split; [by eapply inv_argPost|].
    destruct Hp as [[He _] _]. simpl. rewrite (e_ops _ _ He), Eso. pose proof (e_rd _ _ He). split; [lia|done].
Qed.
