(* ===== verification/BpfFixRef.v ===== *)
(** * References of generated programs

    [FixRef] of [prog/brf_legacy.go]: helpers that return a referenced object
    (sockets, ring buffer records) must be paired with a helper that releases it.
    The first loop counts the references of each variable, the second adds the
    missing calls.  [objRefMap] maps variables to shared [ObjRef] objects, so the
    model has a heap of them; the second loop visits the map in any order. *)

From stdpp Require Import base numbers strings pretty gmap list.
From S2P Require Import Prelude BpfTypes BpfHelperTable BpfProgTable BpfCtxTable BpfInit BpfRegTypes BpfMaps BpfNewMap Rand.
From S2P Require Import StructOpsModel BpfCallGen BpfCallSpec BpfCallSafe BpfCallRec BpfCallProg.

Local Open Scope string_scope.
Local Open Scope list_scope.
Local Open Scope Z_scope.

Record ObjRef := mkRef {
  r_vars : list string;
  r_objMap : option nat;
  r_typ : Z;
  r_count : Z;
  r_calls : list nat;
}.

(** [objRefMap]: the objects, and the object of each variable. *)
Record RefState := mkRefs { rs_refs : list ObjRef; rs_names : gmap string nat }.

Definition withCount (n : Z) (r : ObjRef) : ObjRef := mkRef (r_vars r) (r_objMap r) (r_typ r) n (r_calls r).

(** [call.Args[0]]; nil and an empty list panic. *)
Definition arg0 (call : BpfCall) : res BpfArg :=
  match c_Args call with
  | Some a :: _ => Ret a
  | _ => Panic
  end.

(** One more or less reference to the object of [v], which the call [ci] makes
    known if there is none. *)
Definition countRef (v : string) (typ d : Z) (ci : nat) (objMap : option nat) (st : RefState) : RefState :=
  match rs_names st !! v with
  | Some r => mkRefs (alter (λ ref, withCount (r_count ref + d) ref) r (rs_refs st)) (rs_names st)
  | None => mkRefs (rs_refs st ++ [mkRef [v] objMap typ d [ci]]) (<[v := length (rs_refs st)]> (rs_names st))
  end.

(** The result of a propagating call is another name of the object. *)
Definition propagateRef (v vp : string) (ci : nat) (st : RefState) : RefState :=
  match rs_names st !! v with
  | Some r => mkRefs (alter (λ ref, mkRef (r_vars ref ++ [vp]) (r_objMap ref) (r_typ ref) (r_count ref) (r_calls ref ++ [ci])) r (rs_refs st))
                (<[vp := r]> (rs_names st))
  | None => st
  end.

Definition scanCall (p : BpfProg) (ci : nat) (st : RefState) : res RefState :=
  call ← of_option (p_calls p !! ci);
  acq ← isRefAcquireCall p call;
  let st := if bool_decide (acq ≠ -1) then countRef (c_Ret call) acq 1 ci (c_ArgMap call) st else st in
  let rel := isRefReleaseCall call in
  st ← (if bool_decide (rel ≠ -1) then a ← arg0 call; Ret (countRef (a_Name a) rel (-1) ci (c_ArgMap call) st) else Ret st);
  if bool_decide (isRefPropagateCall call ≠ -1) then a ← arg0 call; Ret (propagateRef (a_Name a) (c_Ret call) ci st) else Ret st.

(** The first loop. *)
Fixpoint scanCalls (p : BpfProg) (cs : list nat) (st : RefState) : res RefState :=
  match cs with
  | [] => Ret st
  | ci :: cs => st ← scanCall p ci st; scanCalls p cs st
  end.

Definition acquireHelpers (typ : Z) : list BpfHelperEnum :=
  if bool_decide (typ = 1)
  then [BPF_FUNC_sk_lookup_tcp; BPF_FUNC_sk_lookup_udp; BPF_FUNC_skc_lookup_tcp; BPF_FUNC_map_lookup_elem]
  else if bool_decide (typ = 2) then [BPF_FUNC_ringbuf_reserve] else [].

Definition setCall (c : nat) (f : BpfCall → res BpfCall) : G unit :=
  p ← getProg;
  call ← need (of_option (p_calls p !! c));
  call ← need (f call);
  modProg (λ p, withCalls (<[c := call]> (p_calls p)) (p_Calls p) p).

(** [call.Args[0].Name = name]. *)
Definition renameArg0 (name : string) (call : BpfCall) : res BpfCall :=
  a ← arg0 call; Ret (withArg 0 (named name (a_IsNotNull a) a) call).

Definition withPost (post : BpfCall) (call : BpfCall) : BpfCall :=
  mkBpfCall (c_Helper call) (c_Args call) (c_ArgMap call) (c_Ret call) (c_RetType call) (c_StackVarSize call) (c_Hint call)
    (c_PostCalls call ++ [post]).

(** [call.Args[i] = a]. *)
Definition setArg (i : nat) (a : BpfArg) (call : BpfCall) : res BpfCall :=
  if bool_decide (i < length (c_Args call))%nat then Ret (withArg i a call) else Panic.

Section FixRef.

Context (pt : BpfProgType).
Context (newMap : MapProg → BpfMapType → list ArgHint → Z → Gen (option nat * MapProg * list ArgHint)).

(** The objects in the order in which the range over the map visits them. *)
Context (rangeRefs : gmap string nat → list nat).

(** A reference that is released more often than acquired. *)
Definition addAcquire (ref : ObjRef) : G unit :=
  let helpers := getHelpers pt (acquireHelpers (r_typ ref)) in
  if bool_decide (helpers = []) then mret tt
  else
    helper ← draw (pick helpers);
    o ← genBpfHelperCall pt newMap callFuel helper (newBpfCallGenHint (r_objMap ref)) true;
    match o with
    | Some prod => c ← need (of_option (r_calls ref !! 0%nat)); setCall c (renameArg0 (c_Ret prod))
    | None => mret tt
    end.

(** The call that releases a socket, after the call that acquired it. *)
Definition addRelease (ref : ObjRef) : G bool :=
  let helpers := getHelpers pt [BPF_FUNC_sk_release] in
  if bool_decide (helpers = []) then mret false
  else
    helper ← draw (pick helpers);
    a0 ← need (NewBpfArg helper 0);
    v ← draw (pick (r_vars ref));
    call ← need (setArg 0 (named v (a_IsNotNull a0) a0) (NewBpfCall helper (newBpfCallGenHint (r_objMap ref))));
    c ← need (of_option (r_calls ref !! 0%nat));
    _ ← setCall c (λ c, Ret (withPost call c));
    mret true.

(** The call that submits or discards a record, at the end. *)
Definition addSubmit (ref : ObjRef) : G bool :=
  let helpers := getHelpers pt [BPF_FUNC_ringbuf_submit; BPF_FUNC_ringbuf_discard] in
  if bool_decide (helpers = []) then mret false
  else
    helper ← draw (pick helpers);
    a0 ← need (NewBpfArg helper 0);
    v ← draw (pick (r_vars ref));
    call ← need (setArg 0 (named v (a_IsNotNull a0) a0) (NewBpfCall helper (newBpfCallGenHint (r_objMap ref))));
    a1 ← need (NewBpfArg helper 1);
    call ← need (setArg 1 (named "0" true a1) call);
    _ ← modProg (λ p, withCalls (p_calls p ++ [call]) (p_Calls p ++ [length (p_calls p)]) p);
    mret true.

(** One round of the second loop. *)
Definition fixOne (refs : list ObjRef) (r : nat) : G (list ObjRef) :=
  ref ← need (of_option (refs !! r));
  if bool_decide (r_count ref < 0) then _ ← addAcquire ref; mret refs
  else if bool_decide (0 < r_count ref) then
    fixed ← (if bool_decide (r_typ ref = 1) then addRelease ref
             else if bool_decide (r_typ ref = 2) then addSubmit ref else mret false);
    mret (if (fixed : bool) then <[r := withCount 0 ref]> refs else refs)
  else mret refs.

Fixpoint fixRefs (refs : list ObjRef) (rs : list nat) : G unit :=
  match rs with
  | [] => mret tt
  | r :: rs => refs ← fixOne refs r; fixRefs refs rs
  end.

Definition FixRef : G unit :=
  p ← getProg;
  st ← need (scanCalls p (p_Calls p) (mkRefs [] ∅));
  fixRefs (rs_refs st) (rangeRefs (rs_names st)).

End FixRef.
