(* ===== verification/BpfRefSafe.v ===== *)
(** * References are balanced safely

    [FixRef] on a program of the generator: it never panics, keeps the invariant
    of the generator, and gives every object that is acquired more often than
    released a call that releases it, in whichever order Go's range visits the
    objects. *)

From stdpp Require Import base numbers strings pretty gmap list.
From S2P Require Import Prelude BpfTypes BpfHelperTable BpfProgTable BpfCtxTable BpfInit BpfRegTypes BpfMaps BpfNewMap Rand.
From S2P Require Import StructOpsModel BpfCallGen BpfCallSpec BpfCallSafe BpfCallRec BpfCallProg BpfFixRef.

Local Open Scope string_scope.
Local Open Scope list_scope.
Local Open Scope nat_scope.

(** ** The tables *)

Definition releaseHelpers (typ : Z) : list BpfHelperEnum :=
  if bool_decide (typ = 1%Z) then [BPF_FUNC_sk_release]
  else if bool_decide (typ = 2%Z) then [BPF_FUNC_ringbuf_submit; BPF_FUNC_ringbuf_discard] else [].

Definition propagateHelpers : list BpfHelperEnum :=
  [BPF_FUNC_tcp_sock; BPF_FUNC_sk_fullsock; BPF_FUNC_skc_to_tcp_sock; BPF_FUNC_skc_to_tcp6_sock; BPF_FUNC_skc_to_udp6_sock;
   BPF_FUNC_skc_to_tcp_timewait_sock; BPF_FUNC_skc_to_tcp_request_sock].

(** Helpers with a result that is a reference. *)
Definition refSources : list BpfHelperEnum := acquireHelpers 1 ++ acquireHelpers 2 ++ propagateHelpers.

Definition refHelpers : list BpfHelperEnum := refSources ++ releaseHelpers 1 ++ releaseHelpers 2.

(** What [FixRef] needs of a helper, as a check: the first argument of these
    helpers needs no preparation, sources have a result, a socket is released with
    one argument and a record with two. *)
Definition refReadyHelper (h : BpfHelper) : bool :=
  (negb (bool_decide (h_Enum h ∈ refHelpers)) || match h_Args h with t :: _ => negb (mayPrepare t) | [] => false end) &&
  (negb (bool_decide (h_Enum h ∈ refSources)) || hasResult h) &&
  (negb (bool_decide (h_Enum h ∈ releaseHelpers 1)) || bool_decide (length (h_Args h) = 1)) &&
  (negb (bool_decide (h_Enum h ∈ releaseHelpers 2)) ||
     bool_decide (length (h_Args h) = 2) && negb (hasResult h) && bool_decide ("ARG_CONST_MAP_PTR" ∉ h_Args h)).

Definition refReady (pt : BpfProgType) : bool := forallb refReadyHelper (pt_Helpers pt).

(** ** The objects *)

(** An object of the first loop, where [n] calls were there: its names are
    usable, and the first call that concerns it is one of these calls. *)
Record refOK (n : nat) (p : BpfProg) (ref : ObjRef) : Prop := {
  ro_some : r_vars ref ≠ [];
  ro_vars : Forall (resolves p (usable p)) (r_vars ref);
  ro_map : mapIndex p (r_objMap ref);
  ro_call : ∃ c call, r_calls ref !! 0 = Some c ∧ c < n ∧ p_calls p !! c = Some call ∧ h_Enum (c_Helper call) ∈ refHelpers;
}.

(** The call releases an object with such a name. *)
Definition releases (typ : Z) (named : string → Prop) (c : BpfCall) : Prop :=
  h_Enum (c_Helper c) ∈ releaseHelpers typ ∧ ∃ a args, c_Args c = Some a :: args ∧ named (a_Name a).

(** A socket is released after the call that acquired it, a record by a call that
    was added to the program. *)
Definition released (n : nat) (p : BpfProg) (ref : ObjRef) : Prop :=
  if bool_decide (r_typ ref = 1%Z)
  then ∃ c call post, r_calls ref !! 0 = Some c ∧ p_calls p !! c = Some call ∧ post ∈ c_PostCalls call ∧
         releases 1 (.∈ r_vars ref) post
  else ∃ c call, n ≤ c ∧ c ∈ p_Calls p ∧ p_calls p !! c = Some call ∧ releases 2 (.∈ r_vars ref) call.

(** What a step of the second loop keeps. *)
Record after (n : nat) (p p' : BpfProg) : Prop := {
  af_grown : grown p p';
  af_use : usable p ⊆ usable p';
  af_calls : ∀ c call, p_calls p !! c = Some call → ∃ call', p_calls p' !! c = Some call' ∧
    c_Helper call' = c_Helper call ∧ c_PostCalls call ⊆ c_PostCalls call' ∧ (n ≤ c → call' = call);
  af_listed : p_Calls p ⊆ p_Calls p';
  af_ops : p_StructOps p' = p_StructOps p;
}.

#[global] Instance after_preorder n : PreOrder (after n).
Proof.
  split.
  - intros p. split; [|done|eauto 10|done|done]. split; [|done..]. intros i m ?. by exists m.
  - intros p1 p2 p3 [[G1 G2 G3] U1 C1 L1 O1] [[H1 H2 H3] U2 C2 L2 O2]. split; [split| | | |].
    + intros i m (m2 & (m3 & ? & ?)%H1 & ?)%G1. exists m3. split; [done|]. by trans m2.
    + by trans (p_Externs p2).
    + congruence.
    + by trans (usable p2).
    + intros c call (c2 & (c3 & ? & ? & ? & E3)%C2 & ? & ? & E2)%C1. exists c3. split_and!; [done|congruence| |].
      * by trans (c_PostCalls c2).
      * intros Hc. by rewrite E3, E2.
    + by trans (p_Calls p2).
    + congruence.
Qed.

Lemma ext_after n s s' : ext s s' → after n (g_prog s) (g_prog s').
Proof.
  intros He. split; [by apply ext_grown|intros v; apply He| |apply He|apply He]. intros c call Hc. exists call.
  split_and!; [by eapply prefix_lookup_Some, He|done..].
Qed.

Lemma refOK_after n p p' ref : after n p p' → refOK n p ref → refOK n p' ref.
Proof.
  intros [Hg Hu Hc _ _] [Hs Hv Hm (c & call & ? & ? & (call' & ? & ? & _)%Hc & ?)]. split; try done.
  - eapply Forall_impl; [exact Hv|]. intros v. by apply resolves_mono.
  - intros i Hi%Hm%lookup_lt_is_Some. destruct Hi as [m Hi]. destruct (gr_maps _ _ Hg _ _ Hi) as (m' & ? & _).
    by eapply lookup_lt_Some.
  - exists c, call'. split_and!; [done..|congruence].
Qed.

Lemma released_after n p p' ref : after n p p' → released n p ref → released n p' ref.
Proof.
  intros [_ _ Hc Hl _]. unfold released. case_bool_decide.
  - intros (c & call & post & ? & (call' & ? & _ & Hp & _)%Hc & ? & ?). exists c, call', post. split_and!; try done. by apply Hp.
  - intros (c & call & ? & ? & (call' & ? & _ & _ & He)%Hc & ?). rewrite He in * by done. exists c, call. split_and!; try done. by apply Hl.
Qed.

Lemma withCount_OK n p z ref : refOK n p ref → refOK n p (withCount z ref).
Proof. by intros []. Qed.

(** The first argument of a call, when its type needs no preparation. *)
Lemma plain_arg0 pt s c call t ts :
  inv pt s → p_calls (g_prog s) !! c = Some call → h_Args (c_Helper call) = t :: ts → mayPrepare t = false →
  ∃ a args, c_Args call = Some a :: args ∧ a_ArgType a = t ∧ a_Prepare a = EmptyString ∧
    resolves (g_prog s) (usable (g_prog s)) (a_Name a).
Proof.
  intros Hi Hc Et Hp. pose proof (Forall_lookup_1 _ _ _ _ (i_calls _ _ Hi) Hc) as [_ Hsc _ _ _].
  unfold scopedCall in Hsc. rewrite Et in Hsc.
  apply Forall2_cons_inv_l in Hsc as (o & args & (a & -> & (? & [_ Hpr] & Hr)) & _ & Ea).
  assert (Ep : a_Prepare a = EmptyString).
  { destruct (decide (a_Prepare a = EmptyString)) as [|Hne]; [done|]. apply Hpr in Hne. congruence. }
  exists a, args. split_and!; try done. simpl in Hr. rewrite bool_decide_eq_true_2 in Hr by done.
  by rewrite app_nil_r in Hr.
Qed.

(** An argument without preparation, named after something usable. *)
Lemma argOK_named p t v b a :
  resolves p (usable p) v → a_ArgType a = t → a_Prepare a = EmptyString →
  argOK p (usable p ++ argDecl (Some (named v b a))) t (named v b a).
Proof.
  intros Hv Et Ep. split; [exact Et|]. cbn [argDecl named a_Prepare]. rewrite Ep. split; [split; [constructor|done]|].
  eapply resolves_mono; [apply grown_refl|apply list_subseteq_app_l; reflexivity|exact Hv].
Qed.

(** ** One object *)

Section balance.
Context (pt : BpfProgType) (Href : refReady pt = true) (tot : bool).

Lemma ref_helper h : h ∈ pt_Helpers pt → refReadyHelper h = true.
Proof using Href. intros Hh%list_elem_of_In. unfold refReady in Href. rewrite forallb_forall in Href. by apply Href. Qed.

Lemma ref_arg0 h : h ∈ pt_Helpers pt → h_Enum h ∈ refHelpers → ∃ t ts, h_Args h = t :: ts ∧ mayPrepare t = false.
Proof using Href.
  intros Hh%ref_helper He. unfold refReadyHelper in Hh. rewrite !andb_true_iff in Hh. destruct Hh as [[[H _] _] _].
  rewrite bool_decide_eq_true_2 in H by done. simpl in H. destruct (h_Args h) as [|t ts]; [done|].
  exists t, ts. by rewrite negb_true_iff in H.
Qed.

Lemma ref_result h : h ∈ pt_Helpers pt → h_Enum h ∈ refSources → hasResult h = true.
Proof using Href.
  intros Hh%ref_helper He. unfold refReadyHelper in Hh. rewrite !andb_true_iff in Hh. destruct Hh as [[[_ H] _] _].
  by rewrite bool_decide_eq_true_2 in H by done.
Qed.

Lemma ref_release1 h : h ∈ pt_Helpers pt → h_Enum h ∈ releaseHelpers 1 → length (h_Args h) = 1.
Proof using Href.
  intros Hh%ref_helper He. unfold refReadyHelper in Hh. rewrite !andb_true_iff in Hh. destruct Hh as [[_ H] _].
  rewrite (bool_decide_eq_true_2 (h_Enum h ∈ releaseHelpers 1)) in H by done. simpl in H. by apply bool_decide_eq_true in H.
Qed.

Lemma ref_release2 h :
  h ∈ pt_Helpers pt → h_Enum h ∈ releaseHelpers 2 →
  length (h_Args h) = 2 ∧ hasResult h = false ∧ "ARG_CONST_MAP_PTR" ∉ h_Args h.
Proof using Href.
  intros Hh%ref_helper He. unfold refReadyHelper in Hh. rewrite !andb_true_iff in Hh. destruct Hh as [_ H].
  rewrite (bool_decide_eq_true_2 (h_Enum h ∈ releaseHelpers 2)) in H by done. simpl in H.
  by rewrite !andb_true_iff, !bool_decide_eq_true, negb_true_iff in H; destruct H as [[? ?] ?].
Qed.

(** The first argument of a call that concerns an object. *)
Lemma call_arg0 s c call :
  inv pt s → p_calls (g_prog s) !! c = Some call → h_Enum (c_Helper call) ∈ refHelpers →
  ∃ t ts a args, h_Args (c_Helper call) = t :: ts ∧ mayPrepare t = false ∧ c_Args call = Some a :: args ∧
    a_ArgType a = t ∧ a_Prepare a = EmptyString ∧ resolves (g_prog s) (usable (g_prog s)) (a_Name a).
Proof using Href.
  intros Hi Hc He. pose proof (Forall_lookup_1 _ _ _ _ (i_calls _ _ Hi) Hc) as [Hsh _ _ _ _].
  destruct (ref_arg0 (c_Helper call)) as (t & ts & Et & Hp); [apply Hsh|done|].
  destruct (plain_arg0 pt s c call t ts Hi Hc Et Hp) as (a & args & ? & ? & ? & ?). by exists t, ts, a, args.
Qed.

(** [getBpfHelpers] gives helpers of the program type. *)
Lemma getHelpers_elem es h : h ∈ getHelpers pt es → h ∈ pt_Helpers pt ∧ h_Enum h ∈ es.
Proof.
  unfold getHelpers. intros (h' & (e & He & Hin)%list_elem_of_omap & Hh)%list_elem_of_bind. case_bool_decide; [|done].
  by simplify_eq.
Qed.

(** A call of the program changes in place: its result and helper stay. *)
Lemma after_replace n p c call call' :
  p_calls p !! c = Some call → c < n → retDecl call' = retDecl call → c_Helper call' = c_Helper call →
  c_PostCalls call ⊆ c_PostCalls call' →
  after n p (withCalls (<[c := call']> (p_calls p)) (p_Calls p) p).
Proof.
  intros Hc Hn Er Eh Hp. split; [apply withCalls_grown|by rewrite (usable_replace _ _ _ _ Hc Er)| |done|done].
  intros i x Hi. simpl. destruct (decide (i = c)) as [->|Hne].
  - rewrite list_lookup_insert_eq by (by eapply lookup_lt_Some). simplify_eq. exists call'. split_and!; [done..|lia].
  - rewrite list_lookup_insert_ne by done. eauto 10.
Qed.

(** A step of the second loop. *)
Definition stepTo (n : nat) (s s' : GState) : Prop := inv pt s' ∧ (0 ≤ g_rd s')%Z ∧ after n (g_prog s) (g_prog s').

Lemma stepTo_refl n s : inv pt s → (0 ≤ g_rd s)%Z → stepTo n s s.
Proof. by intros. Qed.

Lemma setCall_spec n s c call f call' :
  p_calls (g_prog s) !! c = Some call → f call = Ret call' → c < n → (0 ≤ g_rd s)%Z →
  retDecl call' = retDecl call → c_Helper call' = c_Helper call → c_PostCalls call ⊆ c_PostCalls call' →
  inv pt (mkGS (g_store s) (g_rd s) (withCalls (<[c := call']> (p_calls (g_prog s))) (p_Calls (g_prog s)) (g_prog s))) →
  gens tot (setCall c f) s (λ _ s', stepTo n s s' ∧ p_calls (g_prog s') !! c = Some call').
Proof.
  intros Hc Hf Hn Hrd Er Eh Hp Hi. unfold setCall. gsteps. eapply gens_need; [by rewrite Hc|]. eapply gens_need; [done|].
  apply (gens_ret tot tt). split; [split_and!; [done|done|by eapply after_replace]|].
  simpl. rewrite list_lookup_insert_eq; [done|by eapply lookup_lt_Some].
Qed.

Lemma retDecl_eq c c' : c_Ret c' = c_Ret c → c_RetType c' = c_RetType c → retDecl c' = retDecl c.
Proof. intros E1 E2. unfold retDecl. by rewrite E1, E2. Qed.

(** The first argument is renamed to a usable variable. *)
Lemma rename_spec n s c call v :
  inv pt s → (0 ≤ g_rd s)%Z → p_calls (g_prog s) !! c = Some call → c < n → h_Enum (c_Helper call) ∈ refHelpers →
  v ∈ usable (g_prog s) → gens tot (setCall c (renameArg0 v)) s (λ _ s', stepTo n s s').
Proof using Href.
  intros Hi Hrd Hc Hn He Hv. destruct (call_arg0 _ _ _ Hi Hc He) as (t & ts & a & args & Et & _ & Ea & Ety & Ep & _).
  pose proof (Forall_lookup_1 _ _ _ _ (i_calls _ _ Hi) Hc) as [Hsh Hsc Hpo _ _].
  set (a' := named v (a_IsNotNull a) a). assert (Ed : argDecl (Some a') = []) by (simpl; by rewrite Ep).
  eapply gens_mono; [eapply (setCall_spec n s c call _ (withArg 0 a' call)); try done|by intros _ s' []].
  - unfold renameArg0, arg0. by rewrite Ea.
  - destruct (argDecls_replace call 0 a' (Some a)) as (R & E1 & E2); [by rewrite Ea|].
    apply (inv_replace pt s c call _ [] []); try done.
    + destruct Hsh as [? ? ? ? Hk]. split; try done; [cbn [withArg c_Args c_Helper]; by rewrite length_insert|].
      intros [|i] b; cbn [withArg c_Args c_ArgMap]; rewrite Ea; simpl.
      * intros [= <-]. simpl. intros Hb. apply (Hk 0 a); [by rewrite Ea|done].
      * intros Hb. apply (Hk (S i)). by rewrite Ea.
    + apply (scopedCall_withArg _ _ _ _ t); [done|by rewrite Et|]. split; [done|]. split; [simpl; rewrite Ep; split; [constructor|done]|].
      constructor. set_solver.
    + exists R. rewrite Ed in E2. simpl in E1. by rewrite Ep in E1.
    + rewrite app_nil_r. apply Hi.
Qed.

Lemma hintOK_new p m : mapIndex p m → hintOK p (newBpfCallGenHint m).
Proof. intros Hm. split_and!; [by left|apply Z.divide_0_r|done]. Qed.

Lemma acquire_sources typ e : e ∈ acquireHelpers typ → e ∈ refSources.
Proof.
  unfold acquireHelpers. repeat case_bool_decide; intros He; [| |by apply not_elem_of_nil in He];
    apply elem_of_app; [by left|right]; apply elem_of_app; by left.
Qed.

Context (Hready : genReady pt = true).
Context (newMap : MapProg → BpfMapType → list ArgHint → Z → Gen (option nat * MapProg * list ArgHint)).
Context `{!MapMaker tot newMap}.

Lemma addAcquire_spec n s ref :
  inv pt s → (0 ≤ g_rd s)%Z → refOK n (g_prog s) ref → gens tot (addAcquire pt newMap ref) s (λ _ s', stepTo n s s').
Proof using Hready Href MapMaker0.
  intros Hi Hrd Hr. unfold addAcquire. cbv zeta. apply gens_if; intros Hb; [by apply gens_ret|].
  apply bool_decide_eq_false in Hb. eapply gens_wp; [by apply (wp_pick _ (λ h, h ∈ getHelpers pt (acquireHelpers (r_typ ref))))|].
  intros helper [Hin He]%getHelpers_elem.
  eapply gens_bind.
  { apply (genBpfHelperCall_spec pt Hready tot newMap false 100 true s helper); [by split|done|done|]. apply hintOK_new, Hr. }
  intros o s' (Hx & [Hi' _] & Ho). pose proof (ext_after n _ _ Hx) as Ha.
  assert (Hrd' : (0 ≤ g_rd s')%Z) by (pose proof (e_rd _ _ Hx); lia).
  destruct o as [prod|]; [|by apply gens_ret].
  destruct (Ho _ eq_refl) as [Hp Eh]. destruct (ro_call _ _ _ (refOK_after _ _ _ _ Ha Hr)) as (c & call & E0 & Hn & Hc & Hrh).
  eapply gens_need; [by rewrite E0|]. eapply gens_mono; [eapply (rename_spec n s' c call); try done|].
  - apply usable_ret; [done|]. pose proof Hp as Hp'. eapply Forall_forall in Hp'; [|apply (i_calls _ _ Hi')].
    apply (co_ret _ _ _ Hp'). rewrite Eh. apply ref_result; [done|]. by eapply acquire_sources.
  - intros _ s2 (? & ? & ?). split_and!; [done..|]. by trans (g_prog s').
Qed.

Definition fixPost (n : nat) (typ : Z) (s : GState) (ref : ObjRef) (ok : bool) (s' : GState) : Prop :=
  stepTo n s s' ∧ (ok = true → released n (g_prog s') ref) ∧ (getHelpers pt (releaseHelpers typ) ≠ [] → ok = true).

Lemma addRelease_spec n s ref :
  inv pt s → (0 ≤ g_rd s)%Z → refOK n (g_prog s) ref → r_typ ref = 1%Z →
  gens tot (addRelease pt ref) s (fixPost n 1 s ref).
Proof using Hready Href MapMaker0.
  intros Hi Hrd Hr Etyp. unfold addRelease. cbv zeta. apply gens_if; intros Hb.
  { apply gens_ret. apply bool_decide_eq_true in Hb. split; [by apply stepTo_refl|]. split; [done|by intros []]. }
  apply bool_decide_eq_false in Hb. eapply gens_wp; [by apply (wp_pick _ (λ h, h ∈ getHelpers pt (releaseHelpers 1)))|].
  intros helper [Hin He]%getHelpers_elem. pose proof (ref_release1 _ Hin He) as Hl.
  destruct (h_Args helper) as [|t [|]] eqn:Ea; [done| |done].
  eapply (gens_NewBpfArg pt Hready tot); [done|by rewrite Ea|]. intros a0 Et Ep.
  eapply gens_wp; [apply (wp_pick _ (λ v, v ∈ r_vars ref)); [apply Hr|done]|]. intros v Hv.
  set (a := named v _ a0). set (post := withArg 0 a (NewBpfCall helper (newBpfCallGenHint (r_objMap ref)))).
  eapply (gens_need _ _ _ _ post); [unfold setArg; cbn [NewBpfCall c_Args]; by rewrite Ea|].
  destruct (ro_call _ _ _ Hr) as (c & call & E0 & Hn & Hc & _). eapply gens_need; [by rewrite E0|].
  pose proof (Forall_lookup_1 _ _ _ _ (i_calls _ _ Hi) Hc) as [Hsh Hsc Hpo _ _].
  eapply gens_bind; [eapply (setCall_spec n s c call _ (withPost post call)); try done|].
  - simpl. set_solver.
  - apply (inv_replace pt s c call _ [] []); try done.
    + simpl. apply Forall_app_2; [done|]. constructor; [|done]. split; [|unfold argDecls; simpl; rewrite Ea; simpl; by rewrite Ep].
      unfold scopedCall. simpl. rewrite Ea. constructor; [|constructor].
      exists a. split; [done|]. apply argOK_named; [|done..]. eapply Forall_forall in Hv; [|apply Hr]. done.
    + by destruct Hsh.
    + by exists (argDecls call).
    + rewrite app_nil_r. apply Hi.
  - intros _ s' [Hs Hc']. apply gens_ret. split; [done|]. split; [|done]. intros _. unfold released.
    rewrite bool_decide_true by done. exists c, (withPost post call), post. split_and!; [done..|simpl; set_solver|].
    split; [done|]. exists a, []. simpl. by rewrite Ea.
Qed.

Lemma addSubmit_spec n s ref :
  inv pt s → (0 ≤ g_rd s)%Z → refOK n (g_prog s) ref → r_typ ref = 2%Z → n ≤ length (p_calls (g_prog s)) →
  gens tot (addSubmit pt ref) s (fixPost n 2 s ref).
Proof using Hready Href MapMaker0.
  intros Hi Hrd Hr Etyp Hlen. unfold addSubmit. cbv zeta. apply gens_if; intros Hb.
  { apply gens_ret. apply bool_decide_eq_true in Hb. split; [by apply stepTo_refl|]. split; [done|by intros []]. }
  apply bool_decide_eq_false in Hb. eapply gens_wp; [by apply (wp_pick _ (λ h, h ∈ getHelpers pt (releaseHelpers 2)))|].
  intros helper [Hin He]%getHelpers_elem. destruct (ref_release2 _ Hin He) as (Hl & Hres & Hnm).
  destruct (h_Args helper) as [|t [|t1 [|]]] eqn:Ea; [done|done| |done].
  eapply (gens_NewBpfArg pt Hready tot); [done|by rewrite Ea|]. intros a0 Et Ep.
  eapply gens_wp; [apply (wp_pick _ (λ v, v ∈ r_vars ref)); [apply Hr|done]|]. intros v Hv.
  eapply gens_need; [unfold setArg; cbn [NewBpfCall c_Args]; by rewrite Ea|].
  eapply (gens_NewBpfArg pt Hready tot); [done|by rewrite Ea|]. intros a1 Et1 Ep1.
  eapply gens_need; [unfold setArg; cbn [NewBpfCall withArg c_Args]; by rewrite Ea|].
  set (call := withArg 1 _ _). gsteps. apply gens_ret.
  assert (Eargs : c_Args call = [Some (named v (a_IsNotNull a0) a0); Some (named "0" true a1)]) by (simpl; by rewrite Ea).
  assert (Edecl : callDecl call = []).
  { unfold callDecl, argDecls. rewrite Eargs. simpl. by rewrite Ep, Ep1. }
  assert (Hgood : good pt (false && negb false) (mkGS (g_store s) (g_rd s) (withCalls (p_calls (g_prog s) ++ [call])
      (p_Calls (g_prog s) ++ [length (p_calls (g_prog s))]) (g_prog s)))).
  { apply (good_push pt false s call false); try done.
    - split; simpl; try done; [by rewrite Ea|apply hintOK_new, Hr|]. intros i b Hib Hm. change (c_Args call !! i = Some (Some b)) in Hib.
      rewrite Eargs in Hib. exfalso. apply Hnm. rewrite <- Hm. destruct i as [|[|]]; simplify_eq/=; set_solver.
    - unfold scopedCall. rewrite Eargs. cbn [call withArg NewBpfCall c_Helper]. rewrite Ea.
      assert (Hrv : resolves (g_prog s) (usable (g_prog s)) v) by (eapply Forall_forall in Hv; [|apply Hr]; done).
      repeat constructor; (eexists; split; [done|]; apply argOK_named; [|done..]); [done|constructor].
    - simpl. congruence.
    - rewrite Edecl, app_nil_r. apply Hi.
    - by rewrite Edecl. }
  split; [split_and!; [apply Hgood|done|]|split; [|done]].
  - apply ext_after. apply ext_push; [done| |simpl; lia|set_solver]. rewrite Edecl. by eapply fresh_nil.
  - intros _. unfold released. rewrite bool_decide_false by congruence. exists (length (p_calls (g_prog s))), call. simpl.
    split_and!; [done|set_solver|by rewrite lookup_app_r, Nat.sub_diag|]. split; [done|]. rewrite Eargs. by eexists _, _.
Qed.

(** The program type has a helper that releases the object. *)
Definition releasable (ref : ObjRef) : Prop := getHelpers pt (releaseHelpers (r_typ ref)) ≠ [].

Lemma after_length n p p' : after n p p' → n ≤ length (p_calls p) → n ≤ length (p_calls p').
Proof using Type.
  intros [_ _ Hc _ _] Hn. destruct n as [|n]; [lia|]. apply lookup_lt_is_Some in Hn as [call Hl].
  destruct (Hc _ _ Hl) as (call' & H%lookup_lt_Some & _). lia.
Qed.

(** The objects after one round: one that must be released is, or waits. *)
Definition roundPost (n : nat) (s : GState) (refs : list ObjRef) (r : nat) (refs' : list ObjRef) (s' : GState) : Prop :=
  stepTo n s s' ∧ Forall (refOK n (g_prog s')) refs' ∧ length refs' = length refs ∧
  ∀ i ref, refs !! i = Some ref → (0 < r_count ref)%Z → releasable ref →
    released n (g_prog s') ref ∨ i ≠ r ∧ refs' !! i = Some ref.

Lemma round_same n s s' refs r :
  stepTo n s s' → Forall (refOK n (g_prog s)) refs →
  (∀ ref, refs !! r = Some ref → (0 < r_count ref)%Z → releasable ref → released n (g_prog s') ref) →
  roundPost n s refs r refs s'.
Proof using Type.
  intros Hs Hf Hr. split; [done|]. split; [|split; [done|]].
  - eapply Forall_impl; [exact Hf|]. intros ref. apply refOK_after, Hs.
  - intros i ref Hi Hc Hl. destruct (decide (i = r)) as [->|]; [left; by apply Hr|by right].
Qed.

Lemma fixed_spec n s ref :
  inv pt s → (0 ≤ g_rd s)%Z → n ≤ length (p_calls (g_prog s)) → refOK n (g_prog s) ref →
  gens tot (if bool_decide (r_typ ref = 1%Z) then addRelease pt ref
            else if bool_decide (r_typ ref = 2%Z) then addSubmit pt ref else mret false) s (fixPost n (r_typ ref) s ref).
Proof using Hready Href MapMaker0.
  intros. case_bool_decide as E1; [rewrite E1; by apply addRelease_spec|].
  case_bool_decide as E2; [rewrite E2; by apply addSubmit_spec|]. apply gens_ret. split; [by apply stepTo_refl|].
  split; [done|]. unfold releaseHelpers. rewrite !bool_decide_false by done. intros []. unfold getHelpers.
  by induction (pt_Helpers pt).
Qed.

Lemma fixOne_spec n s refs r :
  inv pt s → (0 ≤ g_rd s)%Z → n ≤ length (p_calls (g_prog s)) → Forall (refOK n (g_prog s)) refs → r < length refs →
  gens tot (fixOne pt newMap refs r) s (roundPost n s refs r).
Proof using Hready Href MapMaker0.
  intros Hi Hrd Hn Hf [ref Hr]%lookup_lt_is_Some. unfold fixOne. eapply gens_need; [by rewrite Hr|].
  pose proof (Forall_lookup_1 _ _ _ _ Hf Hr) as Hok. apply gens_if; intros Hc; [apply bool_decide_eq_true in Hc|].
  - eapply gens_bind; [by apply (addAcquire_spec n)|]. intros u s' Hs. apply gens_ret, round_same; [done..|].
    intros ref' ? ?. simplify_eq. lia.
  - apply gens_if; intros Hc'; [apply bool_decide_eq_true in Hc'|apply bool_decide_eq_false in Hc'].
    + eapply gens_bind; [by apply (fixed_spec n)|]. intros ok s' (Hs & Hrel & Hcan). apply gens_ret. destruct ok.
      * split; [done|]. split; [|split; [apply length_insert|]].
        { apply Forall_insert; [|by eapply withCount_OK, refOK_after, Hok; apply Hs].
          eapply Forall_impl; [exact Hf|]. intros ref'. apply refOK_after, Hs. }
        intros i ref' Hi' _ _. destruct (decide (i = r)) as [->|]; [left; simplify_eq; by apply Hrel|right].
        by rewrite list_lookup_insert_ne.
      * apply round_same; [done..|]. intros ref' ? _ Hl. simplify_eq. apply Hrel. by rewrite <- Hcan.
    + apply gens_ret, round_same; [by apply stepTo_refl|done|]. intros ref' ? ?. simplify_eq. done.
Qed.

Lemma fixRefs_spec n rs s refs :
  inv pt s → (0 ≤ g_rd s)%Z → n ≤ length (p_calls (g_prog s)) → Forall (refOK n (g_prog s)) refs →
  Forall (λ r, r < length refs) rs →
  gens tot (fixRefs pt newMap refs rs) s (λ _ s', stepTo n s s' ∧
    ∀ r ref, r ∈ rs → refs !! r = Some ref → (0 < r_count ref)%Z → releasable ref → released n (g_prog s') ref).
Proof using Hready Href MapMaker0.
  revert s refs. induction rs as [|r rs IH]; intros s refs Hi Hrd Hn Hf Hlt; simpl.
  { apply gens_ret. split; [by apply stepTo_refl|]. by intros r ref ?%not_elem_of_nil. }
  apply Forall_cons in Hlt as [Hr Hlt]. eapply gens_bind; [by apply (fixOne_spec n)|].
  intros refs' s1 ((Hi1 & Hrd1 & Ha1) & Hf1 & Hl1 & Hp). eapply gens_mono.
  { apply (IH s1 refs'); [done|done|by eapply after_length|done|]. by rewrite Hl1. }
  intros _ s2 ((Hi2 & Hrd2 & Ha2) & Hq). split.
  { split; [done|]. split; [done|]. by trans (g_prog s1). }
  intros i ref Hin Hir Hc Hl. destruct (Hp _ _ Hir Hc Hl) as [?|[Hne Hir']]; [by eapply released_after|].
  apply elem_of_cons in Hin as [->|Hin]; [done|]. by eapply Hq.
Qed.

End balance.

(** ** The first loop *)

(** The names of the object that is acquired as [v]. *)
Inductive alias (p : BpfProg) (v : string) : string → Prop :=
  | alias_self : alias p v v
  | alias_propagated c call a :
      c ∈ p_Calls p → p_calls p !! c = Some call → isRefPropagateCall call ≠ (-1)%Z → arg0 call = Ret a →
      alias p v (a_Name a) → alias p v (c_Ret call).

(** No call of the program releases it. *)
Definition leaks (p : BpfProg) (v : string) : Prop :=
  ∀ c call a, c ∈ p_Calls p → p_calls p !! c = Some call → isRefReleaseCall call ≠ (-1)%Z → arg0 call = Ret a →
    ¬ alias p v (a_Name a).

(** A call that makes the name known. *)
Definition introduces (p : BpfProg) (x : string) (c : nat) : Prop :=
  ∃ call, p_calls p !! c = Some call ∧
    ((h_Enum (c_Helper call) ∈ refSources ∧ c_Ret call = x) ∨
     (isRefReleaseCall call ≠ (-1)%Z ∧ ∃ a, arg0 call = Ret a ∧ a_Name a = x)).

(** The objects after the calls [seen]. *)
Record scanOK (n : nat) (p : BpfProg) (seen : list nat) (st : RefState) : Prop := {
  so_refs : Forall (refOK n p) (rs_refs st);
  so_names : ∀ x r, rs_names st !! x = Some r → ∃ ref, rs_refs st !! r = Some ref ∧ x ∈ r_vars ref;
  so_seen : ∀ x, is_Some (rs_names st !! x) → ∃ c, c ∈ seen ∧ introduces p x c;
}.

(** The object that the call [ci] acquired as [v] waits for its release. *)
Definition tracked (p : BpfProg) (v : string) (typ : Z) (ci : nat) (st : RefState) : Prop :=
  ∃ r ref, rs_names st !! v = Some r ∧ rs_refs st !! r = Some ref ∧ r_typ ref = typ ∧ r_calls ref !! 0 = Some ci ∧
    (0 < r_count ref)%Z ∧ Forall (alias p v) (r_vars ref).

Lemma countRef_OK n p seen st x typ d ci call :
  scanOK n p seen st → ci < n → p_calls p !! ci = Some call → h_Enum (c_Helper call) ∈ refHelpers → mapIndex p (c_ArgMap call) →
  resolves p (usable p) x → introduces p x ci →
  scanOK n p (seen ++ [ci]) (countRef x typ d ci (c_ArgMap call) st).
Proof.
  intros [H1 H2 H3] Hn Hc He Hm Hx Hi. unfold countRef. destruct (rs_names st !! x) as [r|] eqn:Er; split; simpl.
  - apply Forall_alter; [done|]. intros ref _. apply withCount_OK.
  - intros y r' (ref & Hr & Hy)%H2. destruct (decide (r' = r)) as [->|].
    + rewrite list_lookup_alter_eq, Hr. by eexists.
    + rewrite list_lookup_alter_ne by done. by eexists.
  - intros y (c & ? & ?)%H3. exists c. set_solver.
  - apply Forall_app_2; [done|]. constructor; [|done]. split; simpl; [done|by constructor|done|by exists ci, call].
  - intros y r'. rewrite lookup_insert_Some. intros [[<- <-]|[_ (ref & Hr & Hy)%H2]].
    + rewrite lookup_app_r, Nat.sub_diag by done. eexists. split; [done|]. set_solver.
    + exists ref. split; [by apply lookup_app_l_Some|done].
  - intros y. rewrite lookup_insert_is_Some. intros [<-|[_ (c & ? & ?)%H3]]; [exists ci|exists c]; set_solver.
Qed.

Lemma countRef_tracked p v typ ci st x typ' d cj m n seen :
  scanOK n p seen st → tracked p v typ ci st → (0 < d ∨ ¬ alias p v x)%Z → tracked p v typ ci (countRef x typ' d cj m st).
Proof.
  intros [_ H2 _] (r & ref & Hv & Hr & Et & Ec & Hc & Ha) Hd. unfold countRef.
  destruct (rs_names st !! x) as [r'|] eqn:Er; [destruct (decide (r' = r)) as [->|Hne]|].
  - exists r, (withCount (r_count ref + d) ref). simpl. rewrite list_lookup_alter_eq, Hr. split_and!; try done.
    destruct Hd as [|Hx]; [lia|]. destruct (H2 _ _ Er) as (? & ? & Hin). simplify_eq. eapply Forall_forall in Hin; done.
  - exists r, ref. simpl. by rewrite list_lookup_alter_ne.
  - exists r, ref. simpl. rewrite lookup_insert_ne by congruence. split_and!; try done. by apply lookup_app_l_Some.
Qed.

Lemma propagateRef_OK n p seen st x vp ci call :
  scanOK n p seen st → p_calls p !! ci = Some call → resolves p (usable p) vp → introduces p vp ci →
  scanOK n p (seen ++ [ci]) (propagateRef x vp ci st).
Proof.
  intros [H1 H2 H3] Hc Hv Hi. unfold propagateRef. destruct (rs_names st !! x) as [r|] eqn:Er; split; simpl; try done.
  - apply Forall_alter; [done|]. intros ref _ [? ? ? (c & cl & ? & ?)]. split; simpl; try done.
    + by destruct (r_vars ref).
    + apply Forall_app_2; [done|by constructor].
    + exists c, cl. split; [by apply lookup_app_l_Some|done].
  - intros y r'. rewrite lookup_insert_Some. intros [[<- <-]|[_ (ref & Hr & Hy)%H2]].
    + destruct (H2 _ _ Er) as (ref & Hr & _). rewrite list_lookup_alter_eq, Hr. eexists. split; [done|]. simpl. set_solver.
    + destruct (decide (r' = r)) as [->|].
      * rewrite list_lookup_alter_eq, Hr. eexists. split; [done|]. simpl. set_solver.
      * rewrite list_lookup_alter_ne by done. by eexists.
  - intros y. rewrite lookup_insert_is_Some. intros [<-|[_ (c & ? & ?)%H3]]; [exists ci|exists c]; set_solver.
  - intros y (c & ? & ?)%H3. exists c. set_solver.
Qed.

Lemma propagateRef_tracked n p seen v typ ci st x vp cj :
  scanOK n p seen st → tracked p v typ ci st → vp ≠ v → (alias p v x → alias p v vp) →
  tracked p v typ ci (propagateRef x vp cj st).
Proof.
  intros [_ H2 _] (r & ref & Hv & Hr & Et & Ec & Hc & Ha) Hne Hal. unfold propagateRef.
  destruct (rs_names st !! x) as [r'|] eqn:Er; [|by exists r, ref]. destruct (decide (r' = r)) as [->|Hne'].
  - exists r. eexists. simpl. rewrite list_lookup_alter_eq, Hr, lookup_insert_ne by done. split_and!; [done|done|done|..]; simpl; [|done|].
    + by apply lookup_app_l_Some.
    + apply Forall_app_2; [done|]. constructor; [|done]. apply Hal. destruct (H2 _ _ Er) as (? & ? & Hin). simplify_eq.
      by eapply Forall_forall in Hin.
  - exists r, ref. simpl. by rewrite list_lookup_alter_ne, lookup_insert_ne.
Qed.

(** A call acquires, releases or propagates, or none of these. *)
Lemma acquire_kind p call z :
  isRefAcquireCall p call = Ret z → z ≠ (-1)%Z → h_Enum (c_Helper call) ∈ acquireHelpers z ∧ (z = 1 ∨ z = 2)%Z.
Proof.
  unfold isRefAcquireCall. cbv zeta. generalize (h_Enum (c_Helper call)). intros e H Hz.
  match type of H with mbind _ ?m = _ => destruct m as [b| |] eqn:Em; [|done..] end. simpl in H.
  case_bool_decide as E2; [simplify_eq; split; [by apply list_elem_of_singleton|by right]|].
  destruct b; simplify_eq. split; [|by left]. change (e ∈ [BPF_FUNC_sk_lookup_tcp; BPF_FUNC_sk_lookup_udp; BPF_FUNC_skc_lookup_tcp; BPF_FUNC_map_lookup_elem]).
  rewrite !elem_of_cons. repeat case_bool_decide; simplify_eq/=; tauto.
Qed.

Lemma acquire_only call z : h_Enum (c_Helper call) ∈ acquireHelpers z → isRefReleaseCall call = (-1)%Z ∧ isRefPropagateCall call = (-1)%Z.
Proof.
  unfold isRefReleaseCall, isRefPropagateCall, acquireHelpers. generalize (h_Enum (c_Helper call)). intros e.
  case_bool_decide; [|case_bool_decide]; rewrite ?elem_of_cons, ?elem_of_nil; [|by intros [->|[]]|done].
  by intros [->|[->|[->|[->|[]]]]].
Qed.

Lemma release_kind call : isRefReleaseCall call ≠ (-1)%Z → h_Enum (c_Helper call) ∈ refHelpers ∧ isRefPropagateCall call = (-1)%Z.
Proof.
  unfold isRefReleaseCall, isRefPropagateCall. cbv zeta. generalize (h_Enum (c_Helper call)). intros e H.
  assert (He : e ∈ [BPF_FUNC_sk_release; BPF_FUNC_ringbuf_submit; BPF_FUNC_ringbuf_discard]).
  { rewrite !elem_of_cons. repeat case_bool_decide; subst; simpl in *; try done; auto. }
  split; [apply elem_of_app; by right|]. rewrite !elem_of_cons, elem_of_nil in He. by destruct He as [->|[->|[->|[]]]].
Qed.

Lemma propagate_kind call : isRefPropagateCall call ≠ (-1)%Z → h_Enum (c_Helper call) ∈ refSources.
Proof.
  unfold isRefPropagateCall. case_bool_decide as H; [|done]. intros _. apply elem_of_app. right. apply elem_of_app. by right.
Qed.

Lemma concat_unique {A B} (f : A → list B) (l : list A) i j x y v :
  NoDup (concat (f <$> l)) → l !! i = Some x → l !! j = Some y → v ∈ f x → v ∈ f y → i = j.
Proof.
  revert i j. induction l as [|z l IH]; intros i j Hn Hi Hj Hx Hy; [done|]. simpl in Hn. apply NoDup_app in Hn as (_ & Hd & Hn).
  assert (Hin : ∀ k w, l !! k = Some w → v ∈ f w → v ∈ concat (f <$> l)).
  { intros k w Hk Hw. apply list_elem_of_In, in_concat. exists (f w).
    split; apply list_elem_of_In; [by eapply list_elem_of_fmap_2, list_elem_of_lookup_2|done]. }
  destruct i as [|i], j as [|j]; simplify_eq/=; [done|exfalso; by eapply Hd, Hin..|]. f_equal. by apply IH.
Qed.

Section scan.
Context (pt : BpfProgType) (Href : refReady pt = true) (s : GState) (Hi : inv pt s).
Notation p := (g_prog s).
Notation n := (length (p_calls (g_prog s))).

Lemma source_usable c call :
  p_calls p !! c = Some call → h_Enum (c_Helper call) ∈ refSources → c_Ret call ∈ usable p ∧ retDecl call = [c_Ret call].
Proof using Href Hi.
  intros Hc He. pose proof (Forall_lookup_1 _ _ _ _ (i_calls _ _ Hi) Hc) as [Hsh _ _ Hr _].
  assert (Hres : c_RetType call ≠ EmptyString) by (apply Hr, (ref_result pt Href); [apply Hsh|done]).
  split; [apply usable_ret; [by eapply list_elem_of_lookup_2|done]|]. unfold retDecl. by rewrite bool_decide_false.
Qed.

(** Every name is the result of one call. *)
Lemma result_unique c c' call call' :
  p_calls p !! c = Some call → p_calls p !! c' = Some call' → h_Enum (c_Helper call) ∈ refSources →
  h_Enum (c_Helper call') ∈ refSources → c_Ret call = c_Ret call' → c = c'.
Proof using Href Hi.
  intros Hc Hc' He He' E. destruct (source_usable _ _ Hc He) as [_ Ed], (source_usable _ _ Hc' He') as [_ Ed'].
  destruct (decide (c = c')) as [|Hne]; [done|exfalso]. pose proof (i_nodup _ _ Hi) as Hn.
  unfold declared in Hn. apply NoDup_app in Hn as (_ & _ & Hn).
  apply Hne. apply (concat_unique callDecl _ _ _ _ _ (c_Ret call) Hn Hc Hc'); unfold callDecl; rewrite ?Ed, ?Ed', E; set_solver.
Qed.

(** [ci] acquires an object as [v] that no call releases. *)
Definition leaking (v : string) (typ : Z) (ci : nat) : Prop :=
  leaks p v ∧ typ ≠ (-1)%Z ∧ ∃ call, p_calls p !! ci = Some call ∧ isRefAcquireCall p call = Ret typ ∧ c_Ret call = v.

Lemma acquire_source call typ : isRefAcquireCall p call = Ret typ → typ ≠ (-1)%Z → h_Enum (c_Helper call) ∈ refSources.
Proof. intros H1 H2. destruct (acquire_kind _ _ _ H1 H2) as [? _]. by eapply acquire_sources. Qed.

(** What one call does to the objects. *)
Definition scanPost (seen : list nat) (c : nat) (st st' : RefState) : Prop :=
  scanOK n p (seen ++ [c]) st' ∧
  (∀ v typ ci, leaking v typ ci → ci ≠ c → tracked p v typ ci st → tracked p v typ ci st') ∧
  (∀ v typ, leaking v typ c → c ∉ seen → tracked p v typ c st').

Lemma scan_acquire seen c call st typ :
  seen ⊆ p_Calls p → p_calls p !! c = Some call → scanOK n p seen st → isRefAcquireCall p call = Ret typ → typ ≠ (-1)%Z →
  scanPost seen c st (countRef (c_Ret call) typ 1 c (c_ArgMap call) st).
Proof using Href Hi.
  intros Hsub Hc Hst Ha Ht. pose proof (acquire_source _ _ Ha Ht) as Hs.
  pose proof (Forall_lookup_1 _ _ _ _ (i_calls _ _ Hi) Hc) as [Hsh _ _ _ _].
  split; [|split].
  - apply countRef_OK; [done|by eapply lookup_lt_Some|done|apply elem_of_app; by left|apply Hsh| |].
    + constructor. by eapply source_usable.
    + exists call. split; [done|by left].
  - intros v typ' ci _ _ Htr. eapply countRef_tracked; [done|done|]. by left.
  - intros v typ' (Hl & _ & call' & ? & ? & Ev) Hns. simplify_eq. unfold countRef.
    destruct (rs_names st !! c_Ret call) as [r|] eqn:Er.
    + exfalso. destruct (so_seen _ _ _ _ Hst (c_Ret call)) as (c' & Hin & call' & Hc' & [[Hs' E]|(Hr & a & Ea & E)]); [done|..].
      * apply Hns. by rewrite (result_unique c c' call call').
      * apply (Hl c' call' a); [by apply Hsub|done..|]. rewrite E. constructor.
    + exists (length (rs_refs st)). eexists. simpl. rewrite lookup_insert_eq, lookup_app_r, Nat.sub_diag by done.
      split_and!; try done; simpl; [congruence|repeat constructor].
Qed.

Lemma scan_release seen c call st a :
  c ∈ p_Calls p → p_calls p !! c = Some call → scanOK n p seen st → isRefReleaseCall call ≠ (-1)%Z → arg0 call = Ret a →
  resolves p (usable p) (a_Name a) →
  scanPost seen c st (countRef (a_Name a) (isRefReleaseCall call) (-1) c (c_ArgMap call) st).
Proof using Href Hi.
  intros Hin Hc Hst Hr Ea Hres. pose proof (Forall_lookup_1 _ _ _ _ (i_calls _ _ Hi) Hc) as [Hsh _ _ _ _].
  destruct (release_kind _ Hr) as [Hk _]. split; [|split].
  - apply countRef_OK; [done|by eapply lookup_lt_Some|done|done|apply Hsh|done|]. exists call. split; [done|]. right. eauto.
  - intros v typ' ci (Hl & _) _ Htr. eapply countRef_tracked; [done|done|]. right. by eapply Hl.
  - intros v typ (_ & Ht & call' & ? & Ha & _) _. simplify_eq. destruct (acquire_kind _ _ _ Ha Ht) as [Hk' _].
    apply acquire_only in Hk' as [? _]. done.
Qed.

Lemma scan_propagate seen c call st a :
  c ∈ p_Calls p → p_calls p !! c = Some call → scanOK n p seen st → isRefPropagateCall call ≠ (-1)%Z → arg0 call = Ret a →
  scanPost seen c st (propagateRef (a_Name a) (c_Ret call) c st).
Proof using Href Hi.
  intros Hin Hc Hst Hp Ea. pose proof (propagate_kind _ Hp) as Hs. split; [|split].
  - eapply propagateRef_OK; [done|done| |].
    + constructor. by eapply source_usable.
    + exists call. split; [done|by left].
  - intros v typ' ci (_ & Ht & call' & Hc' & Ha & Ev) Hne Htr. eapply propagateRef_tracked; [done|done| |].
    + intros Hv. apply Hne. eapply (result_unique _ _ call' call); try done; [by eapply acquire_source|congruence].
    + intros Hal. by eapply alias_propagated.
  - intros v typ (_ & Ht & call' & ? & Ha & _) _. simplify_eq. destruct (acquire_kind _ _ _ Ha Ht) as [Hk' _].
    apply acquire_only in Hk' as [_ ?]. done.
Qed.

Lemma scan_other seen c call st :
  p_calls p !! c = Some call → scanOK n p seen st → isRefAcquireCall p call = Ret (-1)%Z → scanPost seen c st st.
Proof.
  intros Hc [H1 H2 H3] Ha. split; [|split].
  - split; try done. intros x (c' & ? & ?)%H3. exists c'. split; [set_solver|done].
  - done.
  - intros v typ (_ & Ht & call' & ? & ? & _) _. simplify_eq. congruence.
Qed.

Context (Hready : genReady pt = true).

Lemma scanCall_spec seen c st :
  seen ⊆ p_Calls p → c ∈ p_Calls p → scanOK n p seen st → ∃ st', scanCall p c st = Ret st' ∧ scanPost seen c st st'.
Proof using Href Hi Hready.
  intros Hsub Hin Hst. pose proof (proj1 (Forall_forall _ _) (i_order _ _ Hi) _ Hin) as [call Hc]%lookup_lt_is_Some.
  pose proof (Forall_lookup_1 _ _ _ _ (i_calls _ _ Hi) Hc) as [Hsh Hsc _ _ _].
  unfold scanCall. rewrite Hc. simpl.
  assert (∃ z, isRefAcquireCall p call = Ret z) as [z Ez] by (by eapply (isRefAcquireCall_ret pt Hready)). rewrite Ez. simpl.
  destruct (decide (z = -1)%Z) as [->|Hz].
  2:{ destruct (acquire_kind _ _ _ Ez Hz) as [Hk _]. apply acquire_only in Hk as [-> ->]. simpl.
    rewrite bool_decide_true by done. eexists. split; [done|]. by apply scan_acquire. }
  simpl. destruct (decide (isRefReleaseCall call = -1)%Z) as [->|Hr]; simpl.
  - destruct (decide (isRefPropagateCall call = -1)%Z) as [->|Hp]; simpl; [eexists; split; [done|by eapply scan_other]|].
    rewrite bool_decide_true by done. pose proof (propagate_kind _ Hp) as Hk.
    destruct (call_arg0 pt Href _ _ _ Hi Hc) as (t & ts & a & args & _ & _ & Ea & _ & _ & Hres); [apply elem_of_app; by left|].
    assert (E0 : arg0 call = Ret a) by (unfold arg0; by rewrite Ea). rewrite E0. eexists. split; [done|]. by apply scan_propagate.
  - rewrite (bool_decide_true (isRefReleaseCall call ≠ (-1)%Z)) by done.
    destruct (release_kind _ Hr) as [Hk ->]. destruct (call_arg0 pt Href _ _ _ Hi Hc Hk) as (t & ts & a & args & _ & _ & Ea & _ & _ & Hres).
    assert (E0 : arg0 call = Ret a) by (unfold arg0; by rewrite Ea). rewrite E0. eexists. split; [done|]. by apply scan_release.
Qed.

Lemma scanCalls_spec seen cs st :
  p_Calls p = seen ++ cs → scanOK n p seen st →
  ∃ st', scanCalls p cs st = Ret st' ∧ scanOK n p (seen ++ cs) st' ∧
    (NoDup (p_Calls p) →
     (∀ v typ ci, leaking v typ ci → ci ∉ cs → tracked p v typ ci st → tracked p v typ ci st') ∧
     (∀ v typ ci, leaking v typ ci → ci ∈ cs → tracked p v typ ci st')).
Proof using Href Hi Hready.
  revert seen st. induction cs as [|c cs IH]; intros seen st E Hst.
  { exists st. rewrite app_nil_r. split; [done|]. split; [done|]. intros _. split; [done|]. by intros ? ? ? _ ?%not_elem_of_nil. }
  destruct (scanCall_spec seen c st) as (st1 & E1 & Hok & Hold & Hnew); [rewrite E; set_solver..|done|].
  destruct (IH (seen ++ [c]) st1) as (st2 & E2 & Hok2 & Ht2); [by rewrite <- app_assoc|done|].
  exists st2. simpl. rewrite E1. simpl. rewrite <- app_assoc in Hok2. split; [done|]. split; [done|].
  intros Hnd. destruct (Ht2 Hnd) as [Hold2 Hnew2]. rewrite E in Hnd. apply NoDup_app in Hnd as (_ & Hd & [Hc _]%NoDup_cons). split.
  - intros v typ ci Hl Hni Htr. apply not_elem_of_cons in Hni as [? ?]. apply Hold2; [done..|]. by apply Hold.
  - intros v typ ci Hl [->|?]%elem_of_cons; [|by apply Hnew2]. apply Hold2; [done..|]. apply Hnew; [done|].
    intros Hs. apply (Hd c); set_solver.
Qed.

End scan.

(** ** [FixRef] *)

(** Go's range over a map visits every entry once, in any order. *)
Class RangeOrder (rangeRefs : gmap string nat → list nat) : Prop :=
  range_order : ∀ m, rangeRefs m ≡ₚ (map_to_list m).*2.

#[global] Instance RangeOrder_values : RangeOrder (λ m, (map_to_list m).*2).
Proof. by intros m. Qed.

(** The object acquired by the call [ci] of [p] as [v] is released in [p']: a
    socket by a call after [ci], a record by a call that was added. *)
Definition releasedIn (p p' : BpfProg) (v : string) (typ : Z) (ci : nat) : Prop :=
  if bool_decide (typ = 1%Z)
  then ∃ call post, p_calls p' !! ci = Some call ∧ post ∈ c_PostCalls call ∧ releases 1 (alias p v) post
  else ∃ c call, length (p_calls p) ≤ c ∧ c ∈ p_Calls p' ∧ p_calls p' !! c = Some call ∧ releases 2 (alias p v) call.

Lemma releases_alias p v typ vars c : Forall (alias p v) vars → releases typ (.∈ vars) c → releases typ (alias p v) c.
Proof.
  rewrite Forall_forall. intros Hv (? & a & args & ? & ?). split; [done|]. exists a, args. split; [done|]. by apply Hv.
Qed.

Lemma scanOK_empty n p : scanOK n p [] (mkRefs [] ∅).
Proof. split; simpl; [constructor|intros ? ? H|intros ? [? H]]; by rewrite lookup_empty in H. Qed.

Lemma FixRef_spec tot newMap rangeRefs `{!MapMaker tot newMap} `{!RangeOrder rangeRefs} pt s :
  genReady pt = true → refReady pt = true → inv pt s → (0 ≤ g_rd s)%Z →
  gens tot (FixRef pt newMap rangeRefs) s (λ _ s', stepTo pt (length (p_calls (g_prog s))) s s' ∧
    (NoDup (p_Calls (g_prog s)) → ∀ v typ ci, leaking s v typ ci → ci ∈ p_Calls (g_prog s) →
       getHelpers pt (releaseHelpers typ) ≠ [] → releasedIn (g_prog s) (g_prog s') v typ ci)).
Proof.
  intros Hready Href Hi Hrd. set (n := length (p_calls (g_prog s))). unfold FixRef. gsteps.
  destruct (scanCalls_spec pt Href s Hi Hready [] (p_Calls (g_prog s)) (mkRefs [] ∅)) as (st & Est & [H1 H2 _] & Ht);
    [done|apply scanOK_empty|].
  eapply gens_need; [exact Est|]. pose proof (range_order (rs_names st)) as Hperm. eapply gens_mono.
  { apply (fixRefs_spec pt Href tot Hready newMap n); [done|done|done|done|]. apply Forall_forall. intros r. rewrite Hperm.
    intros ([x r'] & -> & Hx%elem_of_map_to_list)%list_elem_of_fmap. destruct (H2 _ _ Hx) as (ref & Hr & _). by eapply lookup_lt_Some. }
  intros _ s' [Hs Hrel]. split; [done|]. intros Hnd v typ ci Hl Hci Hh. destruct (Ht Hnd) as [_ Hnew].
  destruct (Hnew _ _ _ Hl Hci) as (r & ref & Hv & Hr & Ety & Ec & Hcount & Hal).
  assert (Hin : r ∈ rangeRefs (rs_names st)).
  { rewrite Hperm. apply list_elem_of_fmap. exists (v, r). split; [done|]. by apply elem_of_map_to_list. }
  subst typ. specialize (Hrel r ref Hin Hr Hcount Hh). unfold released, releasedIn in *. case_bool_decide.
  - destruct Hrel as (c & call & post & ? & ? & ? & ?). simplify_eq. exists call, post. split; [done|]. split; [done|]. by eapply releases_alias.
  - destruct Hrel as (c & call & ? & ? & ? & ?). exists c, call. split; [done|]. split; [done|]. split; [done|]. by eapply releases_alias.
Qed.
