(* ===== verification/BpfSpinLock.v ===== *)
(** * Balancing spin locks

    [FixSpinLock] of [prog/brf_legacy.go] inserts the missing half of a
    lock/unlock pair into the calls of a generated program.  It grows [p.Calls]
    while it ranges over it.  The range keeps the array it started with and its
    length; [append] writes into that array while the capacity lasts and moves
    [p.Calls] to a new array afterwards.  The calls are those of [BpfCallGen]: a
    heap of calls and the slice [p.Calls] of pointers, here with its capacity and
    the array of the range once it differs from that of [p.Calls]. *)

From stdpp Require Import base numbers strings gmap list.
From S2P Require Import Prelude BpfTypes BpfHelperTable BpfInit BpfRegTypes BpfNewMap BpfCallGen BpfFixRef.

Local Open Scope string_scope.
Local Open Scope list_scope.
Local Open Scope nat_scope.

Record FixState := mkFix {
  f_heap : list BpfCall;
  f_calls : list nat;
  f_cap : nat;
  (** the array of the range, when [p.Calls] has moved away from it *)
  f_range : option (list nat);
  f_held : string;
}.

(** [call.Helper.Enum]. *)
Definition enumOf (c : BpfCall) : BpfHelperEnum := h_Enum (c_Helper c).

(** [call.Args[0].Name]. *)
Definition arg0Name (c : BpfCall) : res string := a ← arg0 c; Ret (a_Name a).

(** [NewBpfCall(helper, hint)] with [Args[0]] set to [NewBpfArg(helper, 0)] and
    the name [a]. *)
Definition newCallOn (h : BpfHelper) (a : string) : res BpfCall :=
  a0 ← NewBpfArg h 0;
  setArg 0 (named a (a_IsNotNull a0) a0) (NewBpfCall h (newBpfCallGenHint None)).

(** [p.Calls[i]]. *)
Definition callAt (st : FixState) (i : nat) : res BpfCall :=
  c ← of_option (f_calls st !! i); of_option (f_heap st !! c).

(** The pointer the range reads in round [i]. *)
Definition rangeAt (st : FixState) (i : nat) : res nat :=
  of_option (default (f_calls st) (f_range st) !! i).

Section fix_spin_lock.
(** The capacity [append] picks when it has to move a slice of the given length;
    it is at least that length. *)
Variable grow : nat → nat.

(** [p.Calls = append(p.Calls[:i+1], p.Calls[i:]...); p.Calls[j] = call], with the
    lock then held. *)
Definition insertCall (st : FixState) (i j : nat) (c : BpfCall) (held : string) : FixState :=
  let len := S (length (f_calls st)) in
  let calls := <[j := length (f_heap st)]> (take (S i) (f_calls st) ++ drop i (f_calls st)) in
  if bool_decide (len ≤ f_cap st)
  then mkFix (f_heap st ++ [c]) calls (f_cap st) (f_range st) held
  else mkFix (f_heap st ++ [c]) calls (len `max` grow len)
         (Some (default (f_calls st) (f_range st))) held.

(** One round of the loop; the flag tells that it breaks. *)
Definition fixStep (pt : BpfProgType) (i : nat) (st : FixState) : res (FixState * bool) :=
  ptr ← rangeAt st i;
  call ← of_option (f_heap st !! ptr);
  if bool_decide (enumOf call = BPF_FUNC_spin_unlock) then
    if bool_decide (f_held st = EmptyString) then
      match getHelper pt BPF_FUNC_spin_lock with
      | Some helper =>
          cur ← callAt st i;
          a ← arg0Name cur;
          new ← newCallOn helper a;
          Ret (insertCall st i i new a, false)
      | None => Ret (st, true)
      end
    else
      a ← arg0Name call;
      if bool_decide (f_held st = a)
      then Ret (mkFix (f_heap st) (f_calls st) (f_cap st) (f_range st) EmptyString, false)
      else
        call ← renameArg0 (f_held st) call;
        Ret (mkFix (<[ptr := call]> (f_heap st)) (f_calls st) (f_cap st) (f_range st) (f_held st), false)
  else if bool_decide (enumOf call = BPF_FUNC_spin_lock) then
    lonely ← (if bool_decide (S i = length (f_calls st)) then Ret true
              else next ← callAt st (S i);
                   Ret (negb (bool_decide (enumOf next = BPF_FUNC_spin_unlock))));
    if (lonely : bool) then
      match getHelper pt BPF_FUNC_spin_unlock with
      | Some helper =>
          cur ← callAt st i;
          a ← arg0Name cur;
          new ← newCallOn helper a;
          Ret (insertCall st i (S i) new a, false)
      | None => Ret (st, true)
      end
    else
      a ← arg0Name call;
      Ret (mkFix (f_heap st) (f_calls st) (f_cap st) (f_range st) a, false)
  else Ret (st, false).

(** The [k] rounds that are left from round [i] on. *)
Fixpoint fixLoop (pt : BpfProgType) (k i : nat) (st : FixState) : res FixState :=
  match k with
  | O => Ret st
  | S k =>
      '(st, stop) ← fixStep pt i st;
      if (stop : bool) then Ret st else fixLoop pt k (S i) st
  end.

(** The heap and [p.Calls] after the loop, for a slice with the given capacity. *)
Definition fixCalls (pt : BpfProgType) (cap : nat) (heap : list BpfCall) (calls : list nat) : res (list BpfCall * list nat) :=
  st ← fixLoop pt (length calls) 0 (mkFix heap calls (length calls `max` cap) None EmptyString);
  Ret (f_heap st, f_calls st).

Definition FixSpinLock (pt : BpfProgType) (cap : nat) : G unit :=
  p ← getProg;
  r ← need (fixCalls pt cap (p_calls p) (p_Calls p));
  modProg (withCalls r.1 r.2).

(** The calls in order, before and after, of a program with the calls [l]. *)
Definition fixList (pt : BpfProgType) (cap : nat) (l : list BpfCall) : res (list BpfCall) :=
  r ← fixCalls pt cap l (seq 0 (length l)); of_option (mapM (λ c, r.1 !! c) r.2).
End fix_spin_lock.

(** ** What the verifier asks for *)

(** At most one lock is held at a time, it is released through the same pointer,
    and none is held at the end. *)
Fixpoint spinBalanced (held : option string) (l : list BpfCall) : bool :=
  match l with
  | [] => bool_decide (held = None)
  | c :: l =>
      if bool_decide (enumOf c = BPF_FUNC_spin_lock) then
        match held, arg0Name c with
        | None, Ret a => spinBalanced (Some a) l
        | _, _ => false
        end
      else if bool_decide (enumOf c = BPF_FUNC_spin_unlock) then
        match held, arg0Name c with
        | Some h, Ret a => bool_decide (h = a) && spinBalanced None l
        | _, _ => false
        end
      else spinBalanced held l
  end.

Definition nonSpin (c : BpfCall) : Prop :=
  enumOf c ≠ BPF_FUNC_spin_lock ∧ enumOf c ≠ BPF_FUNC_spin_unlock.

(** The helper of a lock, or of its unlock. *)
Definition spinEnum (isLock : bool) : BpfHelperEnum := if isLock then BPF_FUNC_spin_lock else BPF_FUNC_spin_unlock.

(** A call on the lock [a]. *)
Definition spinCall (isLock : bool) (a : string) (c : BpfCall) : Prop :=
  enumOf c = spinEnum isLock ∧ arg0Name c = Ret a.

(** A pointer to such a call. *)
Definition nonSpinAt (h : list BpfCall) (p : nat) : Prop := ∃ c, h !! p = Some c ∧ nonSpin c.

(** The program type offers both helpers, with the prototype of the kernel. *)
Definition offersSpin (pt : BpfProgType) : Prop :=
  ∀ isLock, ∃ h, getHelper pt (spinEnum isLock) = Some h ∧ h_Args h = ["ARG_PTR_TO_SPIN_LOCK"].

(** A program in which every lock is directly followed by an unlock, of
    whichever name: what [FixSpinLock] meets when it sees a program again after
    an argument was mutated. *)
Inductive block :=
| Other (c : BpfCall)
| Pair (a : string) (c d : BpfCall).

Definition blockOK (b : block) : Prop :=
  match b with
  | Other c => nonSpin c
  | Pair a c d => a ≠ EmptyString ∧ spinCall true a c ∧ ∃ b, spinCall false b d
  end.

Definition blockCalls (b : block) : list BpfCall :=
  match b with
  | Other c => [c]
  | Pair a c d => [c; d]
  end.

(** The unlock takes the name of the lock before it. *)
Definition repair (b : block) : block :=
  match b with
  | Other c => Other c
  | Pair a c d =>
      Pair a c (match arg0Name d, renameArg0 a d with
                | Ret b, Ret d' => if bool_decide (a = b) then d else d'
                | _, _ => d
                end)
  end.

(** ** Lemmas *)

Lemma renameArg0_spec isLock a b d :
  spinCall isLock b d → ∃ d', renameArg0 a d = Ret d' ∧ spinCall isLock a d'.
Proof.
  intros [He Ha]. unfold arg0Name, renameArg0, arg0 in *. destruct (c_Args d) as [|[x|] xs] eqn:E; [done| |done].
  eexists. split; [done|]. split; [exact He|]. simpl. unfold arg0Name, arg0. simpl. by rewrite E.
Qed.

Lemma fixStep_other grow pt i st p c :
  rangeAt st i = Ret p → f_heap st !! p = Some c → nonSpin c →
  fixStep grow pt i st = Ret (st, false).
Proof.
  intros Hr Hh [H1 H2]. unfold fixStep. rewrite Hr. unfold mbind, res_bind at 1. rewrite Hh.
  unfold of_option, res_bind. by rewrite !bool_decide_false.
Qed.

(** Rounds that only see other calls change nothing. *)
Lemma fixLoop_skip grow pt k m i st :
  (∀ j, i ≤ j < i + k → ∃ p, rangeAt st j = Ret p ∧ nonSpinAt (f_heap st) p) →
  fixLoop grow pt (k + m) i st = fixLoop grow pt m (i + k) st.
Proof.
  revert i. induction k as [|k IH]; intros i Hs; simpl; [by rewrite Nat.add_0_r|].
  destruct (Hs i) as (p & Hr & c & Hh & Hc); [lia|].
  rewrite (fixStep_other _ _ _ _ p c Hr Hh Hc). unfold mbind, res_bind. simpl.
  rewrite IH by (intros j Hj; apply Hs; lia). f_equal. lia.
Qed.

Lemma spinBalanced_other held l1 l2 :
  Forall nonSpin l1 → spinBalanced held (l1 ++ l2) = spinBalanced held l2.
Proof.
  induction 1 as [|c l1 [H1 H2] _ IH]; simpl; [done|]. by rewrite !bool_decide_false.
Qed.

Lemma spinBalanced_lock a c l : spinCall true a c → spinBalanced None (c :: l) = spinBalanced (Some a) l.
Proof. intros [He Ha]. simpl in *. by rewrite He, Ha. Qed.

Lemma spinBalanced_unlock a c l : spinCall false a c → spinBalanced (Some a) (c :: l) = spinBalanced None l.
Proof. intros [He Ha]. simpl in *. rewrite He, Ha. simpl. by rewrite bool_decide_true. Qed.

Lemma spinBalanced_pair l1 a c d l2 :
  Forall nonSpin l1 → Forall nonSpin l2 → spinCall true a c → spinCall false a d →
  spinBalanced None (l1 ++ c :: d :: l2) = true.
Proof.
  intros H1 H2 Hc Hd. rewrite spinBalanced_other, (spinBalanced_lock a), (spinBalanced_unlock a) by done.
  rewrite <- (app_nil_r l2). by rewrite spinBalanced_other.
Qed.

Lemma repair_pair a c d b :
  spinCall false b d → ∃ d', repair (Pair a c d) = Pair a c d' ∧ spinCall false a d' ∧
    (if bool_decide (a = b) then d' = d else renameArg0 a d = Ret d').
Proof.
  intros Hd. destruct (renameArg0_spec false a b d Hd) as (d' & Hr & Hs). unfold repair. rewrite (proj2 Hd), Hr.
  case_bool_decide; subst; eauto.
Qed.

Lemma spinBalanced_repaired bs :
  Forall blockOK bs → spinBalanced None (concat (blockCalls <$> (repair <$> bs))) = true.
Proof.
  induction 1 as [|[c|a c d] bs Hb _ IH]; [done|..]; rewrite !fmap_cons.
  - destruct Hb as [H1 H2]. simpl. by rewrite !bool_decide_false.
  - destruct Hb as (Ha & Hc & b & Hd). destruct (repair_pair a c d b Hd) as (d' & -> & Hd' & _). cbn [blockCalls concat app].
    by rewrite (spinBalanced_lock a), (spinBalanced_unlock a).
Qed.

(** The slice after an insertion at a known place. *)
Lemma dup_insert {A} (l1 l2 : list A) (x y : A) (isLock : bool) :
  <[if isLock then S (length l1) else length l1 := y]>
    (take (S (length l1)) (l1 ++ x :: l2) ++ drop (length l1) (l1 ++ x :: l2))
  = l1 ++ (if isLock then [x; y] else [y; x]) ++ l2.
Proof.
  rewrite drop_app_length, take_app_ge, Nat.sub_succ_l, Nat.sub_diag by lia. simpl.
  rewrite <- app_assoc. destruct isLock.
  - replace (S (length l1)) with (length l1 + 1) by lia. by rewrite insert_app_r.
  - replace (length l1) with (length l1 + 0) by lia. by rewrite insert_app_r.
Qed.

Lemma getHelper_elem pt e h : getHelper pt e = Some h → h_Enum h = e ∧ h ∈ pt_Helpers pt.
Proof.
  unfold getHelper. intros ([j h'] & Hf & Hs)%bind_Some.
  apply list_find_Some in Hf as (Hj & He & _). simplify_eq/=. split; [done|]. by eapply list_elem_of_lookup_2.
Qed.

(** The call that [FixSpinLock] makes. *)
Lemma newCallOn_spin pt isLock h a :
  getHelper pt (spinEnum isLock) = Some h → h_Args h = ["ARG_PTR_TO_SPIN_LOCK"] →
  ∃ new, newCallOn h a = Ret new ∧ spinCall isLock a new ∧ c_Helper new = h ∧
    ∃ a0, c_Args new = [Some (named a false a0)] ∧ a_ArgType a0 = "ARG_PTR_TO_SPIN_LOCK" ∧ a_Prepare a0 = EmptyString ∧
      new = withArg 0 (named a false a0) (NewBpfCall h (newBpfCallGenHint None)).
Proof.
  intros [He _]%getHelper_elem Ha. unfold newCallOn, NewBpfArg. rewrite Ha. simpl. unfold setArg. simpl. rewrite Ha. simpl.
  eexists. split; [done|]. split; [split; [exact He|]|split; [done|]].
  - unfold arg0Name, arg0, withArg. simpl. by rewrite Ha.
  - refine (ex_intro _ _ (conj _ (conj _ (conj _ eq_refl)))); simpl; by rewrite ?Ha.
Qed.

(** Reading back a slice of pointers. *)
Lemma read_seq (h l : list BpfCall) i :
  (∀ j, j < length l → h !! (i + j) = l !! j) →
  Forall2 (λ p c, h !! p = Some c) (seq i (length l)) l.
Proof.
  intros Hj. apply Forall2_same_length_lookup. split; [by rewrite length_seq|].
  intros j p c [-> Hl]%lookup_seq Hc. by rewrite Hj.
Qed.

(** ** One call on a lock *)

Section single.
Context (grow : nat → nat) (pt : BpfProgType) (h : list BpfCall) (pp pq : list nat) (x : nat) (isLock : bool).
Context (a : string) (c new : BpfCall) (helper : BpfHelper).
Context (Hx : h !! x = Some c) (Hc : spinCall isLock a c) (Ha : a ≠ EmptyString).
Context (Hhelper : getHelper pt (spinEnum (negb isLock)) = Some helper) (Hnew : newCallOn helper a = Ret new).
Context (Hspin : spinCall (negb isLock) a new).
Context (Hpp : Forall (nonSpinAt h) pp) (Hpq : Forall (nonSpinAt h) pq).

Notation calls := (pp ++ x :: pq).
Notation calls' := (pp ++ (if isLock then [x; length h] else [length h; x]) ++ pq).

Lemma calls_mid : calls !! length pp = Some x.
Proof. by rewrite lookup_app_r, Nat.sub_diag. Qed.

Lemma calls_next k : calls !! (S (length pp) + k) = pq !! k.
Proof. rewrite lookup_app_r by lia. by replace (S (length pp) + k - length pp) with (S k) by lia. Qed.

Lemma fixStep_single cap :
  fixStep grow pt (length pp) (mkFix h calls cap None EmptyString) =
  Ret (insertCall grow (mkFix h calls cap None EmptyString) (length pp)
         (if isLock then S (length pp) else length pp) new a, false).
Proof using Hx Hc Hhelper Hnew Hspin Hpq.
  assert (Hr : rangeAt (mkFix h calls cap None EmptyString) (length pp) = Ret x).
  { unfold rangeAt. simpl. by rewrite calls_mid. }
  assert (Hcur : callAt (mkFix h calls cap None EmptyString) (length pp) = Ret c).
  { unfold callAt. cbn [f_calls f_heap]. rewrite calls_mid. simpl. by rewrite Hx. }
  unfold fixStep. rewrite Hr. unfold mbind, res_bind at 1. cbn [f_heap]. rewrite Hx. destruct Hc as [He Hn]. destruct isLock; simpl in He.
  - unfold of_option, res_bind. rewrite He. rewrite bool_decide_false, bool_decide_true by done. cbn [f_calls].
    simpl in Hhelper. rewrite Hhelper, Hcur, Hn, Hnew. case_bool_decide as Hend; [done|].
    rewrite length_app in Hend. simpl in Hend. destruct (lookup_lt_is_Some_2 pq 0) as [y Hy]; [lia|].
    destruct (Forall_lookup_1 _ _ _ _ Hpq Hy) as (d & Hd & [_ Hd2]).
    unfold callAt. cbn [f_calls f_heap]. rewrite <- (Nat.add_0_r (S (length pp))), calls_next, Hy. simpl. rewrite Hd. simpl.
    by rewrite (bool_decide_false (enumOf d = _)).
  - unfold of_option, res_bind. rewrite He. rewrite bool_decide_true by done. cbn [f_held]. rewrite bool_decide_true by done.
    simpl in Hhelper. by rewrite Hhelper, Hcur, Hn, Hnew.
Qed.

Lemma insertCall_at cap held held' :
  ∃ cap' range, insertCall grow (mkFix h calls cap None held) (length pp)
      (if isLock then S (length pp) else length pp) new held' = mkFix (h ++ [new]) calls' cap' range held' ∧
    (range = None ∨ range = Some calls).
Proof using Type.
  unfold insertCall. cbn [f_calls f_heap f_cap f_range]. rewrite dup_insert.
  case_bool_decide; eexists _, _; (split; [done|by (left + right)]).
Qed.

Lemma later_nonSpin p k : pq !! k = Some p → nonSpinAt (h ++ [new]) p.
Proof using Hpq.
  intros Hk. destruct (Forall_lookup_1 _ _ _ _ Hpq Hk) as (d & Hd & ?). exists d. split; [by apply lookup_app_l_Some|done].
Qed.

(** After the insertion the remaining rounds change nothing but the lock held:
    they see the unlock of the pair, when it is in sight, and other calls. *)
Lemma fixLoop_rest cap range :
  range = None ∨ range = Some calls →
  ∃ held, fixLoop grow pt (length pq) (S (length pp)) (mkFix (h ++ [new]) calls' cap range a) =
    Ret (mkFix (h ++ [new]) calls' cap range held).
Proof using Hx Hc Ha Hhelper Hspin Hpq.
  intros [-> | ->].
  2:{ exists a. rewrite <- (Nat.add_0_r (length pq)), fixLoop_skip; [done|]. intros j Hj.
    destruct (lookup_lt_is_Some_2 pq (j - S (length pp))) as [y Hy]; [lia|]. exists y.
    unfold rangeAt. cbn [f_range default f_heap]. replace j with (S (length pp) + (j - S (length pp))) by lia.
    rewrite calls_next, Hy. split; [done|]. by eapply later_nonSpin. }
  destruct (length pq) as [|k] eqn:Ek; [by exists a|]. exists EmptyString. cbn [fixLoop].
  set (st := mkFix _ _ _ _ _). assert (∃ u d, rangeAt st (S (length pp)) = Ret u ∧ (h ++ [new]) !! u = Some d ∧ spinCall false a d) as (u & d & Hu & Hd & Hs).
  { exists (if isLock then length h else x), (if isLock then new else c). split_and!.
    - unfold rangeAt. simpl. rewrite lookup_app_r by lia. replace (S (length pp) - length pp) with 1 by lia. by destruct isLock.
    - destruct isLock; [by rewrite lookup_app_r, Nat.sub_diag|by apply lookup_app_l_Some].
    - by destruct isLock. }
  destruct Hs as [He Hn].
  assert (Hstep : fixStep grow pt (S (length pp)) st = Ret (mkFix (h ++ [new]) calls' cap None EmptyString, false)).
  { unfold fixStep. rewrite Hu. unfold mbind, res_bind at 1. cbn [f_heap st]. rewrite Hd. unfold of_option, res_bind.
    rewrite He. rewrite bool_decide_true by done. cbn [f_held st]. rewrite bool_decide_false by done.
    rewrite Hn. by rewrite bool_decide_true. }
  rewrite Hstep. unfold mbind, res_bind. rewrite <- (Nat.add_0_r k), fixLoop_skip; [done|]. intros j Hj.
  destruct (lookup_lt_is_Some_2 pq (j - S (S (length pp)))) as [y Hy]; [lia|]. exists y.
  unfold rangeAt. cbn [f_range default f_heap f_calls]. rewrite lookup_app_r by lia.
  rewrite lookup_app_r by (destruct isLock; simpl; lia).
  replace (j - length pp - _) with (j - S (S (length pp))) by (destruct isLock; simpl; lia).
  rewrite Hy. split; [done|]. by eapply later_nonSpin.
Qed.

(** The new call is directly beside the call on the lock. *)
Lemma fixCalls_single cap : fixCalls grow pt cap h calls = Ret (h ++ [new], calls').
Proof using Hx Hc Ha Hhelper Hnew Hspin Hpp Hpq.
  unfold fixCalls. rewrite length_app at 1. rewrite fixLoop_skip.
  - cbn [length fixLoop Nat.add]. rewrite fixStep_single. unfold mbind, res_bind.
    destruct (insertCall_at (length calls `max` cap) EmptyString a) as (cap' & range & -> & Hr).
    destruct (fixLoop_rest cap' range Hr) as [held ->]. done.
  - intros j Hj. destruct (lookup_lt_is_Some_2 pp j) as [y Hy]; [lia|]. exists y. unfold rangeAt. simpl.
    rewrite lookup_app_l by lia. rewrite Hy. split; [done|]. by eapply Forall_lookup_1 in Hpp.
Qed.

End single.

(** ** Locks with their unlocks *)

(** The slice as it is before anything is inserted. *)
Lemma rangeAt_seq h cap held n i : i < n → rangeAt (mkFix h (seq 0 n) cap None held) i = Ret i.
Proof. intros Hi. unfold rangeAt. simpl. by rewrite lookup_seq_lt. Qed.

Lemma callAt_seq h cap held n i c :
  i < n → h !! i = Some c → callAt (mkFix h (seq 0 n) cap None held) i = Ret c.
Proof.
  intros Hi Hc. unfold callAt, mbind, res_bind. simpl. rewrite lookup_seq_lt by done. simpl.
  by rewrite Hc.
Qed.

Lemma fixStep_pair_lock grow pt pre post a c b d n cap held :
  S (length pre) < n → spinCall true a c → spinCall false b d →
  fixStep grow pt (length pre) (mkFix (pre ++ c :: d :: post) (seq 0 n) cap None held) =
  Ret (mkFix (pre ++ c :: d :: post) (seq 0 n) cap None a, false).
Proof.
  intros Hn [He Ha] [He' _]. unfold fixStep. rewrite rangeAt_seq by lia. unfold mbind, res_bind at 1. cbn [f_heap].
  rewrite lookup_app_r, Nat.sub_diag by lia. unfold of_option, res_bind. simpl in He. cbn [lookup list_lookup]. rewrite He.
  rewrite bool_decide_false, bool_decide_true by done. cbn [f_calls]. rewrite length_seq, bool_decide_false by lia.
  rewrite (callAt_seq _ _ _ _ (S (length pre)) d); [|lia|rewrite lookup_app_r, Nat.sub_succ_l, Nat.sub_diag by lia; done].
  rewrite He', Ha. by rewrite bool_decide_true.
Qed.

Lemma fixStep_pair_unlock grow pt pre post a c d d' b n cap :
  S (length pre) < n → a ≠ EmptyString → spinCall false b d →
  (if bool_decide (a = b) then d' = d else renameArg0 a d = Ret d') →
  fixStep grow pt (S (length pre)) (mkFix (pre ++ c :: d :: post) (seq 0 n) cap None a) =
  Ret (mkFix (pre ++ c :: d' :: post) (seq 0 n) cap None (if bool_decide (a = b) then EmptyString else a), false).
Proof.
  intros Hn Ha [He Hb] Hd. unfold fixStep. rewrite rangeAt_seq by lia. unfold mbind, res_bind at 1. cbn [f_heap].
  rewrite lookup_app_r, Nat.sub_succ_l, Nat.sub_diag by lia. unfold of_option, res_bind. cbn [lookup list_lookup].
  rewrite He. rewrite bool_decide_true by done. cbn [f_held]. rewrite (bool_decide_false (a = EmptyString)) by done. rewrite Hb.
  case_bool_decide; [by subst|]. rewrite Hd. replace (S (length pre)) with (length pre + 1) by lia. by rewrite insert_app_r.
Qed.

(** The pairs of a program of blocks are repaired in place. *)
Lemma fixLoop_blocks grow pt bs pre cap held n :
  Forall blockOK bs → n = length pre + length (concat (blockCalls <$> bs)) →
  ∃ held', fixLoop grow pt (length (concat (blockCalls <$> bs))) (length pre)
    (mkFix (pre ++ concat (blockCalls <$> bs)) (seq 0 n) cap None held) =
  Ret (mkFix (pre ++ concat (blockCalls <$> (repair <$> bs))) (seq 0 n) cap None held').
Proof.
  intros Hok. revert pre held. induction Hok as [|[c|a c d] bs Hb Hbs IH]; intros pre held Hn.
  - by exists held.
  - rewrite ?fmap_cons in *. cbn [blockCalls repair concat app length fixLoop] in *.
    destruct (IH (pre ++ [c]) held) as [held' IH']; [rewrite length_app; simpl; lia|].
    exists held'. rewrite length_app, Nat.add_1_r, <- !app_assoc in IH'. cbn [app length] in IH'.
    rewrite (fixStep_other _ _ _ _ (length pre) c); [exact IH'| | |done].
    + apply rangeAt_seq. lia.
    + simpl. by rewrite lookup_app_r, Nat.sub_diag by lia.
  - destruct Hb as (Ha & Hc & b & Hd). destruct (repair_pair a c d b Hd) as (d' & E & _ & Hd').
    rewrite ?fmap_cons in *. rewrite E. cbn [blockCalls concat app length fixLoop] in *.
    destruct (IH (pre ++ [c; d']) (if bool_decide (a = b) then EmptyString else a)) as [held' IH'];
      [rewrite length_app; simpl; lia|].
    exists held'. rewrite length_app, Nat.add_comm, <- !app_assoc in IH'. cbn [app length] in IH'.
    rewrite (fixStep_pair_lock _ _ _ _ a c b d) by (done || lia). cbn.
    rewrite (fixStep_pair_unlock _ _ _ _ a c d d' b) by (done || lia). exact IH'.
Qed.

Lemma read_nonSpin h ps :
  Forall (nonSpinAt h) ps → ∃ l, Forall2 (λ p c, h !! p = Some c) ps l ∧ Forall nonSpin l.
Proof.
  induction 1 as [|p ps (c & Hc & Hn) _ (l & H1 & H2)]; [by exists []|]. exists (c :: l). by split; constructor.
Qed.

(** The state after the missing half was inserted. *)
Lemma FixSpinLock_insert (grow : nat → nat) (pt : BpfProgType) (cap : nat) (s : GState)
    (pp pq : list nat) (x : nat) (c : BpfCall) (isLock : bool) (a : string) :
  offersSpin pt → p_Calls (g_prog s) = pp ++ x :: pq → p_calls (g_prog s) !! x = Some c → spinCall isLock a c →
  a ≠ EmptyString → Forall (nonSpinAt (p_calls (g_prog s))) (pp ++ pq) →
  ∃ helper new, getHelper pt (spinEnum (negb isLock)) = Some helper ∧ newCallOn helper a = Ret new ∧ spinCall (negb isLock) a new ∧
    let heap := p_calls (g_prog s) ++ [new] in
    let y := length (p_calls (g_prog s)) in
    let calls := pp ++ (if isLock then [x; y] else [y; x]) ++ pq in
    (∀ r, FixSpinLock grow pt cap s r = Ret (tt, mkGS (g_store s) (g_rd s) (withCalls heap calls (g_prog s)), r)) ∧
    ∃ l, mapM (λ p, heap !! p) calls = Some l ∧ spinBalanced None l = true.
Proof.
  intros Hoff Ecalls Hx Hc Ha [Hpp Hpq]%Forall_app. destruct (Hoff (negb isLock)) as (h & Hh & Hargs).
  destruct (newCallOn_spin pt (negb isLock) h a Hh Hargs) as (new & Hnew & Hs & _).
  exists h, new. split; [done|]. split; [done|]. split; [done|]. intros heap y calls. split.
  - intros r. change (FixSpinLock grow pt cap s r)
      with ((res ← need (fixCalls grow pt cap (p_calls (g_prog s)) (p_Calls (g_prog s))); modProg (withCalls res.1 res.2)) s r).
    rewrite Ecalls.
    by rewrite (fixCalls_single grow pt _ pp pq x isLock a c new h Hx Hc Ha Hh Hnew Hs Hpp Hpq).
  - assert (Hmono : ∀ ps, Forall (nonSpinAt (p_calls (g_prog s))) ps → Forall (nonSpinAt heap) ps).
    { intros ps Hps. eapply Forall_impl; [exact Hps|]. intros p (d & Hd & ?). exists d. split; [by apply lookup_app_l_Some|done]. }
    destruct (read_nonSpin heap pp) as (l1 & H1 & N1), (read_nonSpin heap pq) as (l2 & H2 & N2); [by apply Hmono..|].
    assert (Hx' : heap !! x = Some c) by (by apply lookup_app_l_Some).
    assert (Hy' : heap !! y = Some new) by (unfold heap, y; by rewrite lookup_app_r, Nat.sub_diag).
    exists (l1 ++ (if isLock then [c; new] else [new; c]) ++ l2). split.
    + apply mapM_Some. apply Forall2_app; [done|]. apply Forall2_app; [|done]. destruct isLock; by repeat constructor.
    + destruct isLock; by apply (spinBalanced_pair _ a).
Qed.

(** A program type that offers the two helpers and nothing else. *)
Definition spinProgType : BpfProgType :=
  mkProgType "lsm" EmptyString EmptyString BPF_PROG_TYPE_LSM [] []
    (omap (λ f, assoc f HelperFuncMap) ["bpf_spin_lock_proto"; "bpf_spin_unlock_proto"]) None.

Lemma spinProgType_offers : offersSpin spinProgType.
Proof. intros []; eexists; split; vm_compute; reflexivity. Qed.

(** Calls for examples. *)
Definition exampleCalls (isLock : bool) (a : string) : list BpfCall :=
  match getHelper spinProgType (spinEnum isLock) with
  | Some h => match newCallOn h a with Ret c => [c] | _ => [] end
  | None => []
  end.

Definition otherCalls : list BpfCall :=
  match assoc "bpf_ktime_get_ns_proto" HelperFuncMap with Some h => [NewBpfCall h (newBpfCallGenHint None)] | None => [] end.

(** The state of a program with the calls [l] and nothing else. *)
Definition exampleState (l : list BpfCall) : GState :=
  mkGS initArray 0 (mkBpfProg 10 (scratchProg BPF_PROG_TYPE_LSM) l (seq 0 (length l)) ∅ ∅ ∅ 0 EmptyString 0
                      (varName <$> seq 0 10) 0 None).

(** ** Properties *)

(** C24: a program with one spin lock call anywhere among other calls gets the
    missing half directly beside it, on the same lock, and nothing else changes;
    the calls are then balanced.  This holds for every capacity of the slice and
    for every way [append] grows it. *)
Theorem fixSpinLock_single (grow : nat → nat) (pt : BpfProgType) (cap : nat) (s : GState)
    (pp pq : list nat) (x : nat) (c : BpfCall) (isLock : bool) (a : string) :
  offersSpin pt → p_Calls (g_prog s) = pp ++ x :: pq → p_calls (g_prog s) !! x = Some c → spinCall isLock a c →
  a ≠ EmptyString → Forall (nonSpinAt (p_calls (g_prog s))) (pp ++ pq) →
  ∃ new, spinCall (negb isLock) a new ∧
    let heap := p_calls (g_prog s) ++ [new] in
    let y := length (p_calls (g_prog s)) in
    let calls := pp ++ (if isLock then [x; y] else [y; x]) ++ pq in
    (∀ r, FixSpinLock grow pt cap s r = Ret (tt, mkGS (g_store s) (g_rd s) (withCalls heap calls (g_prog s)), r)) ∧
    ∃ l, mapM (λ p, heap !! p) calls = Some l ∧ spinBalanced None l = true.
Proof.
  intros Hoff Ecalls Hx Hc Ha Hn.
  destruct (FixSpinLock_insert grow pt cap s pp pq x c isLock a Hoff Ecalls Hx Hc Ha Hn) as (h & new & _ & _ & H). by exists new.
Qed.

Lemma fixSpinLock_single_witness :
  ∃ new l, spinCall false "v1" new ∧
    mapM (λ p, ((otherCalls ++ exampleCalls true "v1") ++ [new]) !! p) [0; 1; 2] = Some l ∧ spinBalanced None l = true.
Proof.
  destruct (fixSpinLock_single (λ n, 2 * n) spinProgType 2 (exampleState (otherCalls ++ exampleCalls true "v1")) [0] [] 1
    (default (NewBpfCall (mkHelper EmptyString BPF_FUNC_spin_lock EmptyString EmptyString [] [] EmptyString EmptyString false false)
       (newBpfCallGenHint None)) (exampleCalls true "v1" !! 0)) true "v1" spinProgType_offers)
    as (new & Hn & _ & l & Hl & Hb).
  - vm_compute. reflexivity.
  - vm_compute. reflexivity.
  - split; vm_compute; reflexivity.
  - discriminate.
  - constructor; [|constructor]. eexists. split; [vm_compute; reflexivity|]. split; vm_compute; discriminate.
  - exists new, l. split; [exact Hn|]. split; [exact Hl|exact Hb].
Defined.

(** On a program in which every lock is directly followed by an unlock,
    [FixSpinLock] only gives each unlock the name of its lock, and the result is
    balanced; so a program it has fixed stays as it is, and one whose argument
    was mutated since is repaired. *)
Theorem fixSpinLock_repairs (grow : nat → nat) (pt : BpfProgType) (cap : nat) (bs : list block) :
  Forall blockOK bs →
  fixList grow pt cap (concat (blockCalls <$> bs)) = Ret (concat (blockCalls <$> (repair <$> bs))) ∧
  spinBalanced None (concat (blockCalls <$> (repair <$> bs))) = true.
Proof.
  intros Hok. split; [|by apply spinBalanced_repaired]. unfold fixList, fixCalls.
  set (l := concat (blockCalls <$> bs)). rewrite length_seq.
  destruct (fixLoop_blocks grow pt bs [] (length l `max` cap) EmptyString (length l) Hok eq_refl)
    as [held Hl]. simpl in Hl. fold l in Hl. rewrite Hl. unfold mbind, res_bind. cbn [f_heap f_calls fst snd].
  assert (Hlen : length l = length (concat (blockCalls <$> (repair <$> bs)))).
  { unfold l. clear. induction bs as [|[c|a c d] bs IH]; [done|..]; rewrite ?fmap_cons;
      simpl; by rewrite ?IH. }
  rewrite Hlen. unfold of_option. erewrite (proj2 (mapM_Some _ _ _)); [done|].
  by apply read_seq.
Qed.

