(* ===== verification/BpfCallKinds.v ===== *)
(** * Which helpers a generated program calls

    Calls are only added by [genBpfHelperCall], and the calls it generates for
    the arguments of another call have a result.  So at most the last call of a
    generated program has none; in particular a program has at most one call on
    a spin lock when [FixSpinLock] meets it.  The facts hold whatever the state
    of the program is, so they are proved by a logic of their own. *)

From stdpp Require Import base numbers strings pretty gmap list.
From S2P Require Import Prelude BpfTypes BpfHelperTable BpfProgTable BpfCtxTable BpfInit BpfRegTypes BpfMaps BpfNewMap Rand.
From S2P Require Import StructOpsModel BpfCallGen BpfCallSpec BpfCallSafe BpfCallRec BpfCallProg.

Local Open Scope string_scope.
Local Open Scope list_scope.
Local Open Scope nat_scope.

Definition helpersOf (p : BpfProg) : list BpfHelper := c_Helper <$> p_calls p.

(** Every call of the heap is in the program, once. *)
Definition allListed (p : BpfProg) : Prop := p_Calls p ≡ₚ seq 0 (length (p_calls p)).

(** Only calls of helpers in [K] were added. *)
Definition added (K : BpfHelper → Prop) (s s' : GState) : Prop :=
  (∃ l, helpersOf (g_prog s') = helpersOf (g_prog s) ++ l ∧ Forall K l) ∧ (allListed (g_prog s) → allListed (g_prog s')).

#[global] Instance added_preorder K : PreOrder (added K).
Proof.
  split; [intros s; split; [exists []; by rewrite app_nil_r|done]|].
  intros s1 s2 s3 [(l1 & E1 & H1) A1] [(l2 & E2 & H2) A2]. split; [|auto].
  exists (l1 ++ l2). rewrite E2, E1, app_assoc. split; [done|]. by apply Forall_app_2.
Qed.

Lemma added_same K s s' :
  p_calls (g_prog s') = p_calls (g_prog s) → p_Calls (g_prog s') = p_Calls (g_prog s) → added K s s'.
Proof. intros E1 E2. unfold added, helpersOf, allListed. rewrite E1, E2. split; [exists []; by rewrite app_nil_r|done]. Qed.

(** Whatever the state, the computation only adds calls of helpers in [K], and
    its value satisfies [P]. *)
Definition adds (K : BpfHelper → Prop) {A} (m : G A) (P : A → Prop) : Prop :=
  ∀ s, partial (m s) (λ r, added K s r.2 ∧ P r.1).

Lemma part_bind {A B} (m : G A) (k : A → G B) s (P : A * GState → Prop) (Q : B * GState → Prop) :
  partial (m s) P → (∀ a s', P (a, s') → partial (k a s') Q) → partial ((m ≫= k) s) Q.
Proof. intros Hm Hk. eapply partial_bind; [exact Hm|]. intros [a s'] H. by apply Hk. Qed.

Lemma partial_draw {A} (m : Gen A) s : partial (draw m s) (λ r, r.2 = s).
Proof. eapply partial_bind; [apply partial_any|]. intros a _. by apply partial_ret. Qed.

Section logic.
Context (K : BpfHelper → Prop).

Lemma adds_ret {A} (a : A) (P : A → Prop) : P a → adds K (mret a) P.
Proof. intros H s. apply partial_ret. split; [done|exact H]. Qed.

Lemma adds_bind {A B} (m : G A) (k : A → G B) (P : A → Prop) (Q : B → Prop) :
  adds K m P → (∀ a, P a → adds K (k a) Q) → adds K (m ≫= k) Q.
Proof.
  intros Hm Hk s. eapply partial_bind; [apply Hm|]. intros [a s1] [H1 Ha] r. specialize (Hk a Ha s1 r).
  simpl in *. destruct (k a s1 r) as [[[b s2] ?]| |]; [|done..]. destruct Hk as [H2 ?]. split; [by trans s1|done].
Qed.

Lemma adds_mono {A} (m : G A) (P Q : A → Prop) : adds K m P → (∀ a, P a → Q a) → adds K m Q.
Proof.
  intros Hm H s r. specialize (Hm s r). destruct (m s r) as [[[a s'] ?]| |]; [|done..]. destruct Hm. auto.
Qed.

Lemma adds_draw {A} (m : Gen A) : adds K (draw m) (λ _, True).
Proof. intros s. eapply partial_bind; [apply partial_any|]. intros a _. by apply partial_ret. Qed.

Lemma adds_pick {A} (l : list A) : adds K (draw (pick l)) (.∈ l).
Proof. intros s. eapply partial_bind; [apply partial_pick|]. intros a ?. by apply partial_ret. Qed.

Lemma adds_get : adds K getProg (λ _, True).
Proof. intros s. by apply partial_ret. Qed.

Lemma adds_mod f : (∀ p, p_calls (f p) = p_calls p ∧ p_Calls (f p) = p_Calls p) → adds K (modProg f) (λ _, True).
Proof. intros Hf s r. split; [|done]. apply added_same; apply Hf. Qed.

Lemma adds_newVar : adds K newVar (λ _, True).
Proof. intros s r. split; [|done]. by apply added_same. Qed.

Lemma adds_getRd : adds K getRd (λ _, True).
Proof. intros s. by apply partial_ret. Qed.

Lemma adds_setRd rd : adds K (setRd rd) (λ _, True).
Proof. intros s r. split; [|done]. by apply added_same. Qed.

Lemma adds_compat pt h arg : adds K (compatRegTypes pt h arg) (λ _, True).
Proof.
  intros s. eapply partial_bind; [apply partial_any|]. intros [[st sl] b] _. apply partial_ret. split; [|done]. by apply added_same.
Qed.

End logic.

Create HintDb adds.

#[export] Hint Resolve adds_draw adds_pick adds_get adds_newVar adds_getRd adds_setRd adds_compat : adds.
#[export] Hint Extern 2 (adds _ (modProg _) _) => (apply adds_mod; done) : adds.
#[export] Hint Extern 1 (adds _ (need _) _) => (apply adds_draw) : adds.

(** Runs a computation through its branches; a step is a known one. *)
Ltac adds_step :=
  lazymatch goal with
  | |- adds _ (mret _) _ => apply adds_ret
  | |- adds _ (mbind _ _) _ => eapply adds_bind; [|intros]
  | |- adds _ (if ?b then _ else _) _ => destruct b
  | |- adds _ (match ?x with _ => _ end) _ => destruct x
  | |- adds _ _ _ => first [eassumption | solve [eauto 2 with adds]]
  end.

Ltac adds_run := repeat (cbv beta zeta; adds_step); simpl in *; try done; try congruence.

Section kinds.
Context (K : BpfHelper → Prop) (pt : BpfProgType).
Context (newMap : MapProg → BpfMapType → list ArgHint → Z → Gen (option nat * MapProg * list ArgHint)).

(** The call that is built keeps its helper. *)
Definition sameHelper {A} (call : BpfCall) (r : A * BpfCall) : Prop := c_Helper r.2 = c_Helper call.

Lemma genScalar_adds call arg : adds K (genScalar call arg) (sameHelper call).
Proof. unfold genScalar. adds_run. Qed.

Lemma genStackPtr_adds call arg : adds K (genStackPtr call arg) (sameHelper call).
Proof. unfold genStackPtr. adds_run. Qed.

Lemma useMap_adds a call i : adds K (useMap a call i) (sameHelper call).
Proof. unfold useMap. adds_run. Qed.

Local Hint Resolve genScalar_adds genStackPtr_adds useMap_adds : adds.

Lemma genNewMap_adds a call : adds K (genNewMap newMap a call) (sameHelper call).
Proof.
  unfold genNewMap. eapply adds_bind; [apply adds_get|]. intros p _. cbv zeta. adds_step; [by apply adds_ret|].
  eapply (adds_bind K _ _ (λ _, True)); [by adds_run|]. intros [mt|] _; [|by apply adds_ret].
  eapply adds_bind; [apply adds_draw|]. intros [[o mp] hints] _. eapply adds_bind; [eauto with adds|]. intros _ _.
  destruct o as [i|]; [|by apply adds_ret]. eapply adds_bind; [eauto with adds|]. intros _ _.
  exact (useMap_adds a (withArgHints hints call) i).
Qed.

Lemma genMapPtr_adds call arg : adds K (genMapPtr newMap call arg) (sameHelper call).
Proof.
  unfold genMapPtr. eapply adds_bind; [apply adds_draw|]. intros a _.
  destruct (PreferredMap (c_Hint call)); [apply useMap_adds|]. destruct (c_ArgMap call); [apply useMap_adds|].
  eapply adds_bind; [apply adds_get|]. intros p _. cbv zeta. eapply (adds_bind K _ _ (λ _, True)); [by adds_run|].
  intros [] _; [|apply genNewMap_adds]. eapply adds_bind; [apply adds_draw|]. intros i _. apply useMap_adds.
Qed.

Local Hint Resolve genMapPtr_adds : adds.

Lemma Generate_adds t call arg : adds K (Generate newMap t call arg) (sameHelper call).
Proof. destruct t; simpl; adds_run. Qed.

Lemma directLoop_adds n types call arg : adds K (directLoop newMap n types call arg) (sameHelper call).
Proof.
  revert call. induction n as [|n IH]; intros call; simpl; [by apply adds_ret|].
  eapply adds_bind; [apply adds_draw|]. intros rt _. eapply adds_bind; [apply Generate_adds|].
  intros [[a|] c] E; [by apply adds_ret|]. eapply adds_mono; [apply IH|]. intros r. unfold sameHelper in *. simpl in *. congruence.
Qed.

Lemma genRandDirectAccess_adds call arg : adds K (genRandDirectAccess pt newMap call arg) (sameHelper call).
Proof. unfold genRandDirectAccess. eapply adds_bind; [apply adds_compat|]. intros r _. apply directLoop_adds. Qed.

Lemma ctxVar_adds field typ : adds K (ctxVar field typ) (λ _, True).
Proof. unfold ctxVar. adds_run. Qed.

Lemma packetAccess_adds call t : adds K (packetAccess call t) (sameHelper call).
Proof. unfold packetAccess. adds_run. Qed.

Local Hint Resolve ctxVar_adds packetAccess_adds : adds.

Lemma ctxArg_adds a call rt field : adds K (ctxArg a call rt field) (sameHelper call).
Proof. unfold ctxArg. adds_run. Qed.

Lemma ctxLoop_adds n types call arg : adds K (ctxLoop pt n types call arg) (sameHelper call).
Proof.
  induction n as [|n IH]; simpl; [by apply adds_ret|]. do 3 (eapply adds_bind; [apply adds_draw|intros ? _]).
  case_match; [apply ctxArg_adds|apply IH].
Qed.

Lemma genRandBpfCtxAccess_adds call arg : adds K (genRandBpfCtxAccess pt call arg) (sameHelper call).
Proof. unfold genRandBpfCtxAccess. eapply adds_bind; [apply adds_compat|]. intros r _. apply ctxLoop_adds. Qed.

Lemma genHint_adds producer call arg : adds K (genHint producer call arg) (λ _, True).
Proof.
  unfold genHint. eapply adds_bind; [apply adds_draw|]. intros t _. cbv zeta.
  eapply (adds_bind K _ _ (λ _, True)); [by adds_run|]. intros hints _. adds_run.
Qed.

Lemma nameResult_adds a call prod t : adds K (nameResult a call prod t) (sameHelper call).
Proof.
  unfold nameResult. eapply adds_bind; [apply adds_get|]. intros p _. eapply adds_bind; [apply adds_draw|]. intros rs _. cbv zeta.
  do 3 (adds_step; [by apply adds_ret|]). eapply (adds_bind K _ _ (λ _, True)); [by adds_run|]. intros val _. adds_run.
Qed.

(** ** The recursion *)

Section recursion.
Context (genCall : BpfHelper → BpfCallGenHint → bool → G (option BpfCall)).
Context (Hrec : ∀ helper hint prepend, helper ∈ pt_Helpers pt → hasResult helper = true → adds K (genCall helper hint prepend) (λ _, True)).

Lemma genRandBpfHelperCall_adds call arg : adds K (genRandBpfHelperCall pt genCall call arg) (sameHelper call).
Proof using Hrec.
  unfold genRandBpfHelperCall. eapply adds_bind; [apply adds_draw|]. intros a _. eapply adds_bind; [apply adds_compat|]. intros r _.
  cbv zeta. adds_step; [by apply adds_ret|]. eapply adds_bind; [apply adds_pick|]. intros helper [Hin (rt & _ & Hrt)]%compatHelpers_elem.
  eapply adds_bind; [apply genHint_adds|]. intros hint _. apply helperCanReturn_spec in Hrt as [Hres _].
  eapply adds_bind; [by apply Hrec|]. intros [prod|] _; [|by apply adds_ret].
  eapply adds_bind; [apply nameResult_adds|]. intros [[a'|] c] E; [|by apply adds_ret]. cbv zeta.
  eapply (adds_bind K _ _ (λ _, True)); [by adds_run|]. intros _ _. by apply adds_ret.
Qed.

Lemma orElse_adds (o : option BpfArg) call c0 (m : BpfCall → G (option BpfArg * BpfCall)) :
  sameHelper call (o, c0) → (∀ c, adds K (m c) (sameHelper c)) →
  adds K (match (o, c0) with (Some a, call) => mret (Some a, call) | (None, call) => m call end) (sameHelper call).
Proof using Type.
  intros E Hm. destruct o; [by apply adds_ret|]. eapply adds_mono; [apply Hm|]. intros r. unfold sameHelper in *. simpl in *. congruence.
Qed.

Lemma genBpfHelperCallArg_adds call arg : adds K (genBpfHelperCallArg pt newMap genCall call arg) (sameHelper call).
Proof using Hrec.
  unfold genBpfHelperCallArg. eapply adds_bind; [apply adds_draw|]. intros t _.
  eapply (adds_bind K _ _ (sameHelper call)).
  - adds_step; [by adds_run|]. eapply adds_bind; [apply adds_draw|]. intros b _.
    eapply (adds_bind K _ _ (sameHelper call)); [destruct b; [apply genRandBpfHelperCall_adds|by apply adds_ret]|].
    intros [o c0] E. apply (orElse_adds o call c0 (λ call,
      b ← draw (nOutOf 1 2);
      r ← (if (b : bool) then genRandBpfCtxAccess pt call arg else mret (None, call));
      match r with (Some a, call) => mret (Some a, call) | (None, call) => genRandDirectAccess pt newMap call arg end)); [done|].
    intros c. eapply adds_bind; [apply adds_draw|]. intros b' _.
    eapply (adds_bind K _ _ (sameHelper c)); [destruct b'; [apply genRandBpfCtxAccess_adds|by apply adds_ret]|].
    intros [o1 c1] E1. apply (orElse_adds o1 c c1 (λ call, genRandDirectAccess pt newMap call arg)); [done|].
    intros c2. apply genRandDirectAccess_adds.
  - intros [[a|] c] E; [|by apply adds_ret]. cbv zeta. adds_run.
Qed.

Lemma tryArg_adds n call arg : adds K (tryArg pt newMap genCall n call arg) (sameHelper call).
Proof using Hrec.
  revert call. induction n as [|n IH]; intros call; simpl; [by apply adds_ret|].
  eapply adds_bind; [apply genBpfHelperCallArg_adds|]. intros [[] c] E; simpl; [by apply adds_ret|].
  eapply adds_mono; [apply IH|]. intros r. unfold sameHelper in *. simpl in *. congruence.
Qed.

Lemma argsLoop_adds todo i call : adds K (argsLoop pt newMap genCall todo i call) (sameHelper call).
Proof using Hrec.
  revert i call. induction todo as [|todo IH]; intros i call; [by apply adds_ret|]. cbn [argsLoop].
  eapply adds_bind; [apply tryArg_adds|]. intros [[] c] E; cbn [fst snd]; [|by apply adds_ret].
  eapply adds_mono; [apply IH|]. intros r. unfold sameHelper in *. simpl in *. congruence.
Qed.

End recursion.

(** The calls of a run of [genBpfHelperCall]: producers, and at the end the call
    itself when it succeeds. *)
Definition addedLast (helper : BpfHelper) (s s' : GState) : Prop :=
  (∃ l, (helpersOf (g_prog s') = helpersOf (g_prog s) ++ l ∨ helpersOf (g_prog s') = helpersOf (g_prog s) ++ l ++ [helper]) ∧
        Forall K l) ∧ (allListed (g_prog s) → allListed (g_prog s')).

Lemma added_addedLast helper s s' : added K s s' → addedLast helper s s'.
Proof. intros [(l & E & H) ?]. split; [|done]. exists l. by split; [left|]. Qed.

Lemma addedLast_added helper s s' : K helper → addedLast helper s s' → added K s s'.
Proof.
  intros HK [(l & [E|E] & H) ?]; (split; [|done]); [by exists l|]. exists (l ++ [helper]). split; [done|].
  apply Forall_app_2; [done|by constructor].
Qed.

Lemma addedLast_push helper s s' call (prepend : bool) rd n :
  added K s s' → c_Helper call = helper →
  addedLast helper s (mkGS (g_store s') rd (withCalls (p_calls (g_prog s') ++ [call])
    (if prepend then length (p_calls (g_prog s')) :: p_Calls (g_prog s') else p_Calls (g_prog s') ++ [length (p_calls (g_prog s'))])
    (withVarId n (g_prog s')))).
Proof.
  intros [(l & E & H) Hl] Eh. unfold helpersOf in *. split; cbn [g_prog].
  - exists l. split; [right|done]. unfold helpersOf. simpl. rewrite fmap_app, E, <- app_assoc. simpl. by rewrite Eh.
  - intros Ha%Hl. unfold allListed in *. simpl. rewrite length_app. simpl. rewrite seq_app. simpl.
    destruct prepend; rewrite Ha; [|done]. apply Permutation_cons_append.
Qed.

Context (HK : ∀ h, h ∈ pt_Helpers pt → hasResult h = true → K h).

Lemma genBpfHelperCall_adds fuel helper hint prepend s :
  partial (genBpfHelperCall pt newMap fuel helper hint prepend s) (λ r, addedLast helper s r.2).
Proof using HK.
  revert helper hint prepend s. induction fuel as [|fuel IH]; intros helper hint prepend s; [done|]. cbn [genBpfHelperCall].
  assert (Hrec : ∀ helper hint prepend, helper ∈ pt_Helpers pt → hasResult helper = true → adds K (genBpfHelperCall pt newMap fuel helper hint prepend) (λ _, True)).
  { intros h hi pr Hin Hres s0 r. specialize (IH h hi pr s0 r). destruct (genBpfHelperCall _ _ _ _ _ _ _ _) as [[? ?]| |]; [|done..].
    split; [|done]. by eapply addedLast_added, IH; apply HK. }
  set (s1 := mkGS (g_store s) (g_rd s + 1) (g_prog s)). assert (H1 : added K s s1) by (by apply added_same).
  apply (part_bind _ _ _ (λ r, r = (g_rd s, s))); [by apply partial_ret|]. intros rd s0 [= -> ->].
  apply (part_bind _ _ _ (λ r, r = (tt, s1))); [by apply partial_ret|]. intros [] s0 [= ->].
  case_bool_decide; [by apply partial_ret, added_addedLast|].
  eapply part_bind; [apply (argsLoop_adds (genBpfHelperCall pt newMap fuel) Hrec)|]. intros [ok call] s2 [H2 E]. cbn [fst snd] in *.
  assert (H12 : added K s s2) by (by trans s1). destruct ok; cbn [negb]; [|by apply partial_ret, added_addedLast].
  cbv zeta. apply (part_bind _ _ _ (λ r, r = (g_prog s2, s2))); [by apply partial_ret|]. intros p s0 [= -> ->].
  apply (part_bind _ _ _ (λ r, r.2 = s2)); [apply partial_draw|]. intros z s0 [= ->].
  case_match; [by apply partial_ret, added_addedLast|].
  apply (part_bind _ _ _ (λ r, r.2 = s2)); [apply partial_draw|]. intros typ s0 [= ->].
  intros r. by apply addedLast_push.
Qed.

End kinds.
