(* ===== verification/BpfCSource.v ===== *)
(** * The C text of a helper-call program

    [getArgConstraints], [BpfMap.FlagsStr], [BpfMap.String] and [genCSource] of
    [prog/brf_legacy.go].  The function body is a list of lines, each with the
    names it declares and uses, so that the order of declarations and uses in
    the text can be stated; the text is their concatenation.  The order in which
    Go ranges over the maps [Externs] and [CtxVars] is a parameter. *)

From stdpp Require Import base numbers strings pretty gmap list.
From S2P Require Import Prelude BpfTypes BpfHelperTable BpfProgTable BpfCtxTable BpfInit BpfRegTypes BpfMaps BpfNewMap.
From S2P Require Import StructOpsModel StructOpsTyping StructOpsRender BpfCallGen BpfCallSpec BpfCallProg BpfFixRef BpfSpinLock.

Local Open Scope string_scope.
Local Open Scope list_scope.
Local Open Scope nat_scope.

(** ** Conditions on arguments *)

(** [p.CtxVars[field]], empty when there is none. *)
Definition ctxVarOf (p : BpfProg) (field : string) : string := default EmptyString (p_CtxVars p !! field).

(** The variable behind a name: without the address operator in front and the
    member behind; the slice panics if they are in the wrong order. *)
Definition baseVar (name : string) : res string :=
  let varStart := match String.index 0 "&" name with Some i => S i | None => 0 end in
  match String.index 0 "->" name with
  | Some idx => if bool_decide (varStart ≤ idx) then Ret (String.substring varStart (idx - varStart) name) else Panic
  | None => Ret (String.substring varStart (String.length name - varStart) name)
  end.

(** The body of the loop of [getArgConstraints]; a nil argument panics. *)
Definition argConstraints (p : BpfProg) (o : option BpfArg) : res (list string) :=
  arg ← of_option o;
  if a_IsPktMetaAccess arg
  then Ret [ctxVarOf p "data_meta" +:+ " + " +:+ pretty (a_AccessSize arg) +:+ " < " +:+ ctxVarOf p "data"]
  else if a_IsPktAccess arg
  then Ret [ctxVarOf p "data" +:+ " + " +:+ pretty (a_AccessSize arg) +:+ " < " +:+ ctxVarOf p "data_end"]
  else if negb (a_CanBeNull arg) && negb (a_IsNotNull arg)
  then v ← baseVar (a_Name arg); Ret [v]
  else
    let umin :=
      if bool_decide (a_Umin arg ≠ -1)%Z then
        if bool_decide (a_Umin arg = 0)%Z
        then ["(" +:+ a_Name arg +:+ " != 0 && (" +:+ a_Name arg +:+ " & 0x8000000000000000UL == 0))"]
        else [a_Name arg +:+ " > " +:+ pretty (a_Umin arg)]
      else [] in
    let umax := if bool_decide (a_Umax arg ≠ -1)%Z then [a_Name arg +:+ " < " +:+ pretty (a_Umax arg)] else [] in
    Ret (umin ++ umax).

(** The results of a loop over a list, in order. *)
Fixpoint resMap {A B} (f : A → res B) (l : list A) : res (list B) :=
  match l with
  | [] => Ret []
  | x :: l => y ← f x; ys ← resMap f l; Ret (y :: ys)
  end.

Definition getArgConstraints (p : BpfProg) (call : BpfCall) : res (list string) :=
  cs ← resMap (argConstraints p) (c_Args call); Ret (concat cs).

(** ** Maps and structs *)

Definition FlagsStr (m : BpfMap) : string := foldl (λ flags f, flags +:+ " | " +:+ f) "0" (m_Flags m).

(** [m.String()]; the inner map is a pointer into [p.Maps]. *)
Definition mapString (maps : list BpfMap) (m : BpfMap) : res string :=
  close ← match m_InnerMap m with
          | Some i =>
              inner ← of_option (maps !! i);
              Ret ("} " +:+ m_Name m +:+ " SEC(" +:+ dq +:+ ".maps" +:+ dq +:+ ") = { .value = {&" +:+ m_Name inner +:+ "}, };" +:+ nl)
          | None => Ret ("} " +:+ m_Name m +:+ " SEC(" +:+ dq +:+ ".maps" +:+ dq +:+ ");" +:+ nl)
          end;
  Ret ("struct {" +:+ nl +:+
       "    __uint(type, " +:+ m_Type m +:+ ");" +:+ nl +:+
       "    __uint(map_flags, " +:+ FlagsStr m +:+ ");" +:+ nl +:+
       "    __uint(max_entries, " +:+ pretty (m_MaxEntries m) +:+ ");" +:+ nl +:+
       match m_Key m with Some k => "    __type(key, " +:+ sd_Name k +:+ ");" +:+ nl | None => EmptyString end +:+
       match m_Val m with Some v => "    __type(value, " +:+ sd_Name v +:+ ");" +:+ nl | None => EmptyString end +:+ close).

(** The field [i] of a struct. *)
Definition memberText (i : nat) (m : string) : string :=
  if bool_decide (m = "char [8]") then "    char e" +:+ pretty i +:+ "[8];" +:+ nl
  else "    " +:+ m +:+ " e" +:+ pretty i +:+ ";" +:+ nl.

Definition catStrings (l : list string) : string := foldr String.app EmptyString l.

Definition structText (t : StructDef) : string :=
  if negb (sd_IsStruct t) then EmptyString
  else "typedef struct " +:+ sd_Name t +:+ " {" +:+ nl +:+ catStrings (imap memberText (sd_FieldTypes t)) +:+
       "} " +:+ sd_Name t +:+ ";" +:+ nl +:+ nl.

(** ** Lines *)

Record line := mkLine { l_text : string; l_decls : list string; l_uses : list string }.

(** The names of arguments; a nil argument panics. *)
Definition argNames (args : list (option BpfArg)) : res (list string) :=
  resMap (λ o, a ← of_option o; Ret (a_Name a)) args.

Definition commaList (names : list string) : string := String.concat ", " names.

(** The texts that prepare the arguments. *)
Definition prepareLine (o : option BpfArg) : res (list line) :=
  arg ← of_option o;
  Ret (if bool_decide (a_Prepare arg ≠ EmptyString) then [mkLine (a_Prepare arg) [a_Name arg] []] else []).

Definition postLine (indent : string) (pcall : BpfCall) : res line :=
  names ← argNames (c_Args pcall);
  Ret (mkLine (indent +:+ tab +:+ h_Uname (c_Helper pcall) +:+ "(" +:+ commaList names +:+ ");" +:+ nl) [] names).

(** The lines of one call. *)
Definition callLines (p : BpfProg) (call : BpfCall) : res (list line) :=
  prep ← resMap prepareLine (c_Args call);
  let typed := bool_decide (c_RetType call ≠ EmptyString) in
  let decl := if typed then [mkLine (tab +:+ c_RetType call +:+ " " +:+ c_Ret call +:+ " = 0;" +:+ nl) [c_Ret call] []] else [] in
  constraints ← getArgConstraints p call;
  names ← argNames (c_Args call);
  let guarded := bool_decide (constraints ≠ []) in
  let guard := if guarded then [mkLine (tab +:+ "if (" +:+ String.concat " && " constraints +:+ ") {" +:+ nl) [] names] else [] in
  let indent := if guarded then tab else EmptyString in
  let ret := if typed then c_Ret call +:+ " = " else EmptyString in
  let text := indent +:+ tab +:+ ret +:+ h_Uname (c_Helper call) +:+ "(" +:+ commaList names +:+ ");" +:+ nl in
  post ← resMap (postLine indent) (c_PostCalls call);
  Ret (concat prep ++ decl ++ guard ++ [mkLine text [] names] ++ post ++
       (if guarded then [mkLine (tab +:+ "}" +:+ nl) [] []] else [])).

Section Source.

Context (pt : BpfProgType).

(** The entries of a map in the order of Go's range. *)
Context (rangeMap : gmap string string → list (string * string)).

Definition ctxLine (p : BpfProg) (e : string * string) : line :=
  mkLine (tab +:+ default EmptyString (p_CtxTypes p !! e.1) +:+ " " +:+ e.2 +:+ " = ctx->" +:+ e.1 +:+ ";" +:+ nl) [e.2] [].

(** The lookup of scratch buffer [i]. *)
Definition scratchLine (p : BpfProg) (i : nat) : res line :=
  v ← of_option (p_ScratchMapVars p !! i);
  Ret (mkLine ("        char *" +:+ v +:+ " = bpf_map_lookup_elem(&scratch_map, &scratch_key);" +:+ nl +:+
               "        if (!" +:+ v +:+ ") return 0;" +:+ nl +:+
               "        scratch_key++;" +:+ nl) [v] []).

(** The body of the function. *)
Definition bodyLines (p : BpfProg) : res (list line) :=
  scratch ← resMap (scratchLine p) (seq 0 10);
  calls ← resMap (λ c, call ← of_option (p_calls p !! c); callLines p call) (p_Calls p);
  Ret ((ctxLine p <$> rangeMap (p_CtxVars p)) ++ [mkLine ("        uint32_t scratch_key = 0;" +:+ nl) [] []] ++ scratch ++ concat calls).

Definition genCSource (p : BpfProg) : res string :=
  maps ← resMap (mapString (BpfMaps.p_Maps (p_maps p))) (BpfMaps.p_Maps (p_maps p));
  lines ← bodyLines p;
  Ret ("#include " +:+ dq +:+ "vmlinux.h" +:+ dq +:+ nl +:+
       "#include <bpf/bpf_helpers.h>" +:+ nl +:+ nl +:+
       catStrings (structText <$> p_Structs (p_maps p)) +:+
       catStrings ((λ e, "extern const " +:+ e.2 +:+ " " +:+ e.1 +:+ " __ksym;" +:+ nl +:+ nl) <$> rangeMap (p_Externs p)) +:+
       catStrings ((λ m, m +:+ nl) <$> maps) +:+
       p_SecStr p +:+
       "int func(" +:+ pt_User pt +:+ " *ctx) {" +:+ nl +:+
       catStrings (l_text <$> lines) +:+
       tab +:+ "return " +:+ pretty (p_RetVal p) +:+ ";" +:+ nl +:+
       "}" +:+ nl +:+ nl +:+
       "char _license[] SEC(" +:+ dq +:+ "license" +:+ dq +:+ ") = " +:+ dq +:+ "GPL" +:+ dq +:+ ";" +:+ nl).

(** The text [writeCSource] writes, without the built-in test program. *)
Definition sourceText (p : BpfProg) : res string :=
  match p_StructOps p with
  | Some sop => of_option (genStructOpsSource sop)
  | None => genCSource p
  end.

End Source.

(** ** The order of declarations and uses *)

(** Every name that a line uses stands for something where the variables [D] and
    those of the lines before are declared. *)
Fixpoint linesScoped (p : BpfProg) (D : list string) (ls : list line) : Prop :=
  match ls with
  | [] => True
  | l :: ls => Forall (resolves p D) (l_uses l) ∧ linesScoped p (D ++ l_decls l) ls
  end.

Definition linesDecls (ls : list line) : list string := concat (l_decls <$> ls).

(** ** Lemmas *)

Lemma linesScoped_app p D l1 l2 :
  linesScoped p D (l1 ++ l2) ↔ linesScoped p D l1 ∧ linesScoped p (D ++ linesDecls l1) l2.
Proof.
  revert D. induction l1 as [|l l1 IH]; intros D; simpl; [unfold linesDecls; simpl; rewrite app_nil_r; tauto|].
  rewrite IH. unfold linesDecls. simpl. rewrite <- app_assoc. tauto.
Qed.

Lemma linesDecls_app l1 l2 : linesDecls (l1 ++ l2) = linesDecls l1 ++ linesDecls l2.
Proof. unfold linesDecls. by rewrite fmap_app, concat_app. Qed.

(** Lines that use nothing. *)
Lemma linesScoped_quiet p D ls : Forall (λ l, l_uses l = []) ls → linesScoped p D ls.
Proof. intros H. revert D. induction H as [|l ls E _ IH]; intros D; [done|]. split; [by rewrite E|done]. Qed.

Lemma resMap_ret {A B} (f : A → res B) (l : list A) (Q : A → B → Prop) :
  Forall (λ x, ∃ y, f x = Ret y ∧ Q x y) l → ∃ ys, resMap f l = Ret ys ∧ Forall2 Q l ys.
Proof.
  induction 1 as [|x l (y & E & Hy) _ (ys & Es & Hys)]; [by exists []|]. exists (y :: ys). simpl. rewrite E. simpl. rewrite Es.
  split; [done|by constructor].
Qed.

Definition ampFree (s : string) : bool := all_chars (λ c, negb (Ascii.eqb c (Ascii.ascii_of_nat 38))) s.

Lemma index_ampFree s : ampFree s = true → String.index 0 "&" s = None.
Proof.
  induction s as [|c s IH]; [done|]. unfold ampFree. cbn [all_chars]. rewrite andb_true_iff, negb_true_iff. intros [Hc Hs].
  assert (Hp : String.prefix "&" (String c s) = false) by (cbn; case_match; [by subst c|done]).
  cbn [String.index]. by rewrite Hp, IH.
Qed.

Lemma index_arrow s i : String.index 0 "->" (String (Ascii.ascii_of_nat 38) s) = Some i → 1 ≤ i.
Proof. simpl. destruct (String.index 0 "->" s); intros; simplify_eq; lia. Qed.

Lemma ampFree_app s1 s2 : ampFree (s1 +:+ s2) = ampFree s1 && ampFree s2.
Proof. apply all_chars_app. Qed.

Lemma ampFree_N (n : N) : ampFree (pretty n) = true.
Proof. apply all_chars_pretty_N. intros k. unfold pretty_N_char. by repeat case_match. Qed.

Lemma ampFree_varName n : ampFree (varName n) = true.
Proof. unfold varName. rewrite ampFree_app. apply andb_true_iff. split; [done|]. apply (ampFree_N (N.of_nat n)). Qed.

Lemma ampFree_Z (z : Z) : ampFree (pretty z) = true.
Proof.
  destruct z as [|x|x]; [done|apply (ampFree_N (Npos x))|]. change (pretty (Zneg x)) with ("-" +:+ pretty (Npos x)).
  rewrite ampFree_app. by rewrite ampFree_N.
Qed.

(** The variable behind a name that stands for something. *)
Lemma baseVar_ret p D name :
  resolves p D name → Forall (λ v, ampFree v = true) D → ∃ v, baseVar name = Ret v.
Proof.
  intros Hr HD. rewrite Forall_forall in HD.
  assert (Hamp : ∀ s, ∃ v, baseVar ("&" +:+ s) = Ret v).
  { intros s. unfold baseVar. change ("&" +:+ s) with (String (Ascii.ascii_of_nat 38) s). destruct (String.index 0 "->" (String (Ascii.ascii_of_nat 38) s)) as [i|] eqn:E; [|by eexists].
    apply index_arrow in E. assert (E' : String.index 0 "&" (String (Ascii.ascii_of_nat 38) s) = Some 0) by (by destruct s).
    rewrite E', bool_decide_true by lia. by eexists. }
  assert (Hfree : ∀ s, ampFree s = true → ∃ v, baseVar s = Ret v).
  { intros s Hs. unfold baseVar. rewrite index_ampFree by done. destruct (String.index 0 "->" s); [|by eexists].
    rewrite bool_decide_true by lia. by eexists. }
  destruct Hr as [| |i m _|v t _|v Hv|v k Hv|v k Hv]; try (by apply Hamp); try (by apply Hfree); [by apply Hfree, HD|].
  apply Hfree. rewrite !ampFree_app, HD, ampFree_Z by done. done.
Qed.

(** What the arguments of a call contribute. *)
Lemma scoped_args p D c :
  scopedCall p D c →
  Forall (λ o, ∃ a, o = Some a ∧ resolves p (D ++ argDecls c) (a_Name a)) (c_Args c).
Proof.
  intros H. apply Forall_forall. intros o Ho. pose proof Ho as Hin. apply list_elem_of_lookup in Ho as [i Hi].
  destruct (Forall2_lookup_r _ _ _ _ _ H Hi) as (t & _ & a & -> & _ & _ & Hr). exists a. split; [done|].
  eapply resolves_mono; [apply grown_refl| |exact Hr]. apply list_subseteq_app_iff_l. split.
  - apply list_subseteq_app_l. done.
  - intros x Hx. apply elem_of_app. right. unfold argDecls. apply elem_of_concat_fmap. by exists (Some a).
Qed.

Section args.
Context (p : BpfProg) (D : list string) (c : BpfCall) (Hc : scopedCall p D c).
Context (Hamp : Forall (λ v, ampFree v = true) (D ++ argDecls c)).

Lemma argNames_ret : ∃ names, argNames (c_Args c) = Ret names ∧ Forall (resolves p (D ++ argDecls c)) names.
Proof using Hc.
  destruct (resMap_ret (λ o, a ← of_option o; Ret (a_Name a)) (c_Args c) (λ _ n, resolves p (D ++ argDecls c) n)) as (names & E & Hn).
  - eapply Forall_impl; [by apply scoped_args|]. intros o (a & -> & Ha). by eexists.
  - exists names. split; [done|]. by eapply Forall2_Forall_r, Forall_true.
Qed.

Lemma getArgConstraints_ret : ∃ cs, getArgConstraints p c = Ret cs.
Proof using Hc Hamp.
  destruct (resMap_ret (argConstraints p) (c_Args c) (λ _ _, True)) as (cs & E & _).
  - eapply Forall_impl; [by apply scoped_args|]. intros o (a & -> & Ha). unfold argConstraints. simpl.
    destruct (a_IsPktMetaAccess a); [by eexists|]. destruct (a_IsPktAccess a); [by eexists|]. destruct (_ && _); [|by eexists].
    destruct (baseVar_ret _ _ _ Ha Hamp) as [v ->]. by eexists.
  - exists (concat cs). unfold getArgConstraints. by rewrite E.
Qed.

Lemma prepare_ret :
  ∃ prep, resMap prepareLine (c_Args c) = Ret prep ∧ linesDecls (concat prep) = argDecls c ∧
    Forall (λ l, l_uses l = []) (concat prep).
Proof using Hc.
  destruct (resMap_ret prepareLine (c_Args c) (λ o ls, linesDecls ls = argDecl o ∧ Forall (λ l, l_uses l = []) ls)) as (prep & E & Hp).
  - eapply Forall_impl; [by apply scoped_args|]. intros o (a & -> & Ha). unfold prepareLine. simpl. eexists. split; [done|].
    destruct (decide (a_Prepare a = EmptyString)) as [E|E].
    + rewrite bool_decide_false, bool_decide_true by (done || tauto). split; [done|constructor].
    + rewrite bool_decide_true, bool_decide_false by done. split; [done|by constructor].
  - exists prep. split; [done|]. clear E. unfold argDecls. induction Hp as [|o ls args prep [E1 E2] _ [IH1 IH2]]; [done|]. simpl.
    rewrite linesDecls_app, E1, IH1. split; [done|]. by apply Forall_app_2.
Qed.

End args.

(** The calls that are attached to a call. *)
Lemma postLine_ret p D indent c :
  scopedCall p D c → argDecls c = [] → ∃ l, postLine indent c = Ret l ∧ l_decls l = [] ∧ Forall (resolves p D) (l_uses l).
Proof.
  intros Hc Ed. destruct (argNames_ret p D c Hc) as (names & E & Hn). unfold postLine. rewrite E. simpl. eexists. split; [done|].
  split; [done|]. simpl. by rewrite Ed, app_nil_r in Hn.
Qed.

Lemma linesDecls_posts post :
  Forall (λ l, l_decls l = []) post → linesDecls post = [].
Proof. induction 1 as [|l post E _ IH]; [done|]. unfold linesDecls in *. simpl. rewrite E. exact IH. Qed.

Lemma linesScoped_posts p D post :
  Forall (λ l, l_decls l = [] ∧ Forall (resolves p D) (l_uses l)) post → linesScoped p D post.
Proof. induction 1 as [|l post [E Hu] _ IH]; [done|]. split; [done|]. by rewrite E, app_nil_r. Qed.

(** A call in scope is rendered, in scope, and its lines declare what the call
    declares. *)
Lemma callLines_ret p D c :
  scopedCall p D c → Forall (postCall p (D ++ argDecls c ++ retDecl c)) (c_PostCalls c) →
  Forall (λ v, ampFree v = true) (D ++ argDecls c) →
  ∃ ls, callLines p c = Ret ls ∧ linesScoped p D ls ∧ linesDecls ls = callDecl c.
Proof.
  intros Hc Hpost Hamp. unfold callLines.
  destruct (prepare_ret p D c Hc) as (prep & -> & Ep & Hprep), (getArgConstraints_ret p D c Hc Hamp) as (cs & Ecs),
    (argNames_ret p D c Hc) as (names & En & Hn).
  simpl. rewrite Ecs. simpl. rewrite En. simpl.
  set (decl := if bool_decide (c_RetType c ≠ EmptyString) then _ else _).
  assert (Ed : linesDecls decl = retDecl c ∧ linesScoped p (D ++ argDecls c) decl).
  { unfold decl, retDecl. destruct (decide (c_RetType c = EmptyString)).
    - rewrite bool_decide_false, bool_decide_true by (done || tauto). done.
    - rewrite bool_decide_true, bool_decide_false by done. done. }
  destruct Ed as [Ed Hd]. set (indent := if bool_decide (cs ≠ []) then tab else EmptyString).
  destruct (resMap_ret (postLine indent) (c_PostCalls c)
    (λ _ l, l_decls l = [] ∧ Forall (resolves p (D ++ argDecls c ++ retDecl c)) (l_uses l))) as (post & Eps & Hps).
  { eapply Forall_impl; [exact Hpost|]. intros x [Hx Hx0]. by eapply postLine_ret. }
  rewrite Eps. simpl. eexists. split; [done|].
  assert (Hps' : Forall (λ l, l_decls l = [] ∧ Forall (resolves p (D ++ argDecls c ++ retDecl c)) (l_uses l)) post).
  { by eapply Forall2_Forall_r, Forall_true. }
  assert (Eps0 : linesDecls post = []).
  { apply linesDecls_posts. eapply Forall_impl; [exact Hps'|]. by intros l [? _]. }
  assert (Hn' : Forall (resolves p (D ++ argDecls c ++ retDecl c)) names).
  { eapply Forall_impl; [exact Hn|]. intros v. apply resolves_mono; [apply grown_refl|]. rewrite app_assoc. by apply list_subseteq_app_l. }
  split.
  - rewrite linesScoped_app, Ep. split; [by apply linesScoped_quiet|]. rewrite linesScoped_app, Ed, <- app_assoc. split; [done|].
    rewrite linesScoped_app. split; [by destruct (bool_decide (cs ≠ []))|].
    assert (Eg : linesDecls (if bool_decide (cs ≠ []) then [mkLine (tab +:+ "if (" +:+ String.concat " && " cs +:+ ") {" +:+ nl) [] names] else []) = [])
      by (by destruct (bool_decide (cs ≠ []))).
    rewrite Eg, app_nil_r. cbn [app linesScoped l_uses l_decls]. rewrite app_nil_r. split; [done|].
    rewrite linesScoped_app, Eps0, app_nil_r. split; [by apply linesScoped_posts|]. by destruct (bool_decide (cs ≠ [])).
  - rewrite !linesDecls_app, Ep, Ed. unfold callDecl. f_equal. rewrite <- (app_nil_r (retDecl c)) at 2. f_equal.
    change (linesDecls (mkLine _ [] names :: ?x)) with (linesDecls x). rewrite linesDecls_app, Eps0. by destruct (bool_decide (cs ≠ [])).
Qed.

(** ** Programs *)

Lemma linesScoped_mono p D D' ls : D ⊆ D' → linesScoped p D ls → linesScoped p D' ls.
Proof.
  revert D D'. induction ls as [|l ls IH]; intros D D' HD; [done|]. intros [Hu Hl]. split.
  - eapply Forall_impl; [exact Hu|]. intros v. by apply resolves_mono, HD; apply grown_refl.
  - eapply IH; [|done]. set_solver.
Qed.

Lemma callsLines_ret p D cs :
  scopedCalls p D cs → Forall (λ v, ampFree v = true) (D ++ concat (callDecl <$> cs)) →
  ∃ lss, resMap (callLines p) cs = Ret lss ∧ linesScoped p D (concat lss) ∧ linesDecls (concat lss) = concat (callDecl <$> cs).
Proof.
  revert D. induction cs as [|c cs IH]; intros D Hs Hamp; [by exists []|]. destruct Hs as (Hc & Hp & Hcs). simpl in Hamp.
  destruct (callLines_ret p D c Hc Hp) as (ls & E & Hl & Ed).
  { eapply Forall_forall. intros v Hv. rewrite Forall_forall in Hamp. apply Hamp. unfold callDecl. set_solver. }
  destruct (IH (D ++ callDecl c)) as (lss & Es & Hls & Eds).
  { eapply scopedCalls_mono; [apply grown_refl| |exact Hcs]. unfold callDecl. set_solver. }
  { by rewrite <- app_assoc. }
  exists (ls :: lss). simpl. rewrite E. simpl. rewrite Es. split; [done|]. rewrite linesScoped_app, linesDecls_app, Ed, Eds. done.
Qed.

(** Reading calls through pointers. *)
Lemma resMap_read {B} (f : BpfCall → res B) (heap : list BpfCall) (ptrs : list nat) cs :
  Forall2 (λ i c, heap !! i = Some c) ptrs cs → resMap (λ i, c ← of_option (heap !! i); f c) ptrs = resMap f cs.
Proof. induction 1 as [|i c ptrs cs Hi _ IH]; [done|]. simpl. rewrite Hi. simpl. by rewrite IH. Qed.

Lemma older_ampFree n l : Forall (older n) l → Forall (λ v, ampFree v = true) l.
Proof. intros H. eapply Forall_impl; [exact H|]. intros v (k & _ & ->). apply ampFree_varName. Qed.

(** Go's range over a map visits every entry once, in any order. *)
Class MapRange (rangeMap : gmap string string → list (string * string)) : Prop :=
  map_range : ∀ m, rangeMap m ≡ₚ map_to_list m.

#[global] Instance MapRange_list : MapRange map_to_list.
Proof. by intros m. Qed.

Section programs.
Context (pt : BpfProgType) (rangeMap : gmap string string → list (string * string)) `{!MapRange rangeMap}.

Lemma scratch_lines s :
  inv pt s → ∃ ls, resMap (scratchLine (g_prog s)) (seq 0 10) = Ret ls ∧ linesDecls ls = p_ScratchMapVars (g_prog s) ∧
    Forall (λ l, l_uses l = []) ls.
Proof using Type.
  intros Hi. pose proof (i_scratch _ _ Hi) as E. unfold scratchLine. rewrite E. eexists. split; [reflexivity|].
  split; [reflexivity|]. by repeat constructor.
Qed.

Lemma ctx_lines p :
  linesDecls (ctxLine p <$> rangeMap (p_CtxVars p)) ≡ₚ (map_to_list (p_CtxVars p)).*2 ∧
  Forall (λ l, l_uses l = []) (ctxLine p <$> rangeMap (p_CtxVars p)).
Proof using MapRange0.
  assert (Hd : ∀ l, linesDecls (ctxLine p <$> l) = l.*2) by (induction l as [|e l IH]; [done|unfold linesDecls in *; simpl; f_equal; exact IH]).
  rewrite Hd. split; [by rewrite map_range|]. apply Forall_fmap, Forall_true. done.
Qed.

(** The body of a program of the generator is rendered. *)
Lemma bodyLines_ret s : inv pt s → ∃ ls, bodyLines rangeMap (g_prog s) = Ret ls.
Proof using MapRange0.
  intros Hi. unfold bodyLines. destruct (scratch_lines s Hi) as (scr & -> & _). simpl.
  destruct (resMap_ret (λ c, call ← of_option (p_calls (g_prog s) !! c); callLines (g_prog s) call) (p_Calls (g_prog s)) (λ _ _, True))
    as (cs & -> & _); [|by eexists].
  eapply Forall_impl; [apply Hi|]. intros i [c Hc]%lookup_lt_is_Some. rewrite Hc. simpl.
  pose proof (Forall_lookup_1 _ _ _ _ (i_calls _ _ Hi) Hc) as [_ Hsc Hpo _ _].
  destruct (callLines_ret (g_prog s) (usable (g_prog s)) c Hsc) as (ls & -> & _); [| |by eexists].
  - eapply postCalls_mono; [apply grown_refl| |done]. set_solver.
  - eapply Forall_forall. intros v Hv. pose proof (older_ampFree _ _ (i_older _ _ Hi)) as Ho. rewrite Forall_forall in Ho.
    apply Ho. apply elem_of_app in Hv as [Hv|Hv]; [by apply usable_declared|]. unfold declared. apply elem_of_app. right.
    apply elem_of_concat_fmap. exists c. split; [by eapply list_elem_of_lookup_2|]. unfold callDecl. set_solver.
Qed.

(** The body of a program in scope uses a name only where it stands for
    something, and declares what the program declares. *)
Lemma bodyLines_scoped s :
  good pt true s →
  ∃ ls, bodyLines rangeMap (g_prog s) = Ret ls ∧ linesScoped (g_prog s) [] ls ∧ linesDecls ls ≡ₚ declared (g_prog s).
Proof using MapRange0.
  intros [Hi Hs]. destruct (Hs eq_refl) as [E1 E2]. destruct (scratch_lines s Hi) as (scr & Es & Escr & Hscr).
  pose proof (older_ampFree _ _ (i_older _ _ Hi)) as Hamp. set (p := g_prog s) in *. unfold bodyLines.
  destruct (ctx_lines p) as [Ectx Hctx]. rewrite Es. simpl.
  destruct (callsLines_ret p (baseDecl p) (p_calls p) E2 Hamp) as (lss & El & Hl & Ed).
  rewrite E1, (resMap_read _ _ _ (p_calls p)), El by (by apply read_seq). simpl. eexists. split; [done|].
  change (mkLine ?t [] [] :: ?x) with ([mkLine t [] []] ++ x).
  assert (Eb : linesDecls (ctxLine p <$> rangeMap (p_CtxVars p)) ++ linesDecls scr ≡ₚ baseDecl p).
  { rewrite Ectx, Escr. apply Permutation_app_comm. }
  rewrite !linesScoped_app, !linesDecls_app, Ed. cbn [linesDecls l_decls fmap list_fmap concat app linesScoped l_uses]. rewrite app_nil_r. split.
  - split_and!; [by apply linesScoped_quiet|done|done|by apply linesScoped_quiet|]. eapply linesScoped_mono; [|exact Hl].
    intros v. by rewrite <- Eb.
  - unfold declared. rewrite <- Eb. by rewrite app_assoc.
Qed.

Lemma mapString_ret p m i : progOK p → BpfMaps.p_Maps p !! i = Some m → ∃ t, mapString (BpfMaps.p_Maps p) m = Ret t.
Proof using Type.
  intros Hp Hi. unfold mapString. destruct (m_InnerMap m) as [j|] eqn:Ej; [|by eexists].
  pose proof (ok_inner _ Hp _ _ _ Hi Ej). apply lookup_lt_Some in Hi. destruct (lookup_lt_is_Some_2 (BpfMaps.p_Maps p) j) as [inner E]; [lia|].
  rewrite E. by eexists.
Qed.

Lemma genCSource_ret s : inv pt s → ∃ src, genCSource pt rangeMap (g_prog s) = Ret src.
Proof using MapRange0.
  intros Hi. unfold genCSource. destruct (resMap_ret (mapString (BpfMaps.p_Maps (p_maps (g_prog s)))) (BpfMaps.p_Maps (p_maps (g_prog s))) (λ _ _, True))
    as (maps & -> & _).
  - apply Forall_forall. intros m [i Hm]%list_elem_of_lookup. destruct (mapString_ret _ _ _ (i_maps _ _ Hi) Hm) as [t Et]. by exists t.
  - destruct (bodyLines_ret s Hi) as [ls Els]. simpl. rewrite Els. by eexists.
Qed.

Lemma sourceText_ret s :
  inv pt s → match p_StructOps (g_prog s) with Some so => progPost so | None => True end →
  ∃ src, sourceText pt rangeMap (g_prog s) = Ret src.
Proof using MapRange0.
  intros Hi Hso. unfold sourceText. destruct (p_StructOps (g_prog s)) as [so|]; [|by apply genCSource_ret].
  destruct (progPost_renders _ Hso) as (src & -> & _). by eexists.
Qed.

End programs.

(** ** Properties *)

(** C6: every helper-call program that [GenBpfProg] returns is rendered to C
    without a panic, and its function body is in order: each name that a line
    uses stands for a constant, the context, a map, an extern or a variable that
    a line before declares, and no variable is declared twice.  This holds for
    every way Go ranges over its maps; if [newMap] terminates, so does the
    generator. *)
Theorem generated_source_scoped (tot : bool) newMap `{!MapMaker tot newMap}
    (rangeMap : gmap string string → list (string * string)) `{!MapRange rangeMap}
    (pts : list (BpfProgTypeEnum * BpfProgType)) (st : Store) (rd : Z) :
  initialised pts → storeOK st → (0 ≤ rd)%Z →
  ensures tot (GenBpfProg newMap pts st rd) (λ r,
    let '(pt, s, ok) := r in
    p_StructOps (g_prog s) = None →
    ∃ src ls, genCSource pt rangeMap (g_prog s) = Ret src ∧ bodyLines rangeMap (g_prog s) = Ret ls ∧
      linesScoped (g_prog s) [] ls ∧ NoDup (linesDecls ls)).
Proof.
  intros Hi Hst Hrd. eapply ensures_mono; [by apply (GenBpfProg_spec tot newMap)|]. intros [[pt s] ok] (_ & Hg & _ & _) _.
  destruct (genCSource_ret pt rangeMap s (proj1 Hg)) as [src Es], (bodyLines_scoped pt rangeMap s Hg) as (ls & El & Hs & Hd).
  exists src, ls. split_and!; [done..|]. rewrite Hd. apply Hg.
Qed.

Lemma generated_source_scoped_witness :
  ensures true (GenBpfProg flatMap progTypes initArray 0) (λ r,
    let '(pt, s, ok) := r in
    p_StructOps (g_prog s) = None →
    ∃ src ls, genCSource pt map_to_list (g_prog s) = Ret src ∧ bodyLines map_to_list (g_prog s) = Ret ls ∧
      linesScoped (g_prog s) [] ls ∧ NoDup (linesDecls ls)).
Proof.
  refine (generated_source_scoped true flatMap map_to_list progTypes initArray 0 _ _ _).
  - apply progTypes_init.
  - apply initArray_OK.
  - discriminate.
Defined.

(** A program that looks up a socket and uses it as a TCP socket. *)
Definition sockType : BpfProgType :=
  mkProgType "sched_cls" "struct __sk_buff" "struct sk_buff" BPF_PROG_TYPE_SCHED_CLS [] []
    (omap (λ f, assoc f HelperFuncMap) ["bpf_sk_lookup_tcp_proto"; "bpf_tcp_sock_proto"; "bpf_sk_release_proto"]) None.

Definition exampleArg (t name : string) : option BpfArg := Some (mkArg name t EmptyString false true (-1) (-1) false false 0).

(** A call of the helper [e] of [sockType] with arguments of these names. *)
Definition sockCall (e : BpfHelperEnum) (names : list string) (ret typ : string) : list BpfCall :=
  match getHelper sockType e with
  | Some h => [mkBpfCall h (zip_with exampleArg (h_Args h) names) None ret typ 0 (newBpfCallGenHint None) []]
  | None => []
  end.

Definition sockState : GState :=
  exampleState (sockCall BPF_FUNC_sk_lookup_tcp ["ctx"; "v0"; "0"; "0"; "0"] "v10" "struct bpf_sock*" ++
                sockCall BPF_FUNC_tcp_sock ["v10"] "v11" "struct bpf_tcp_sock*").

(** The places of the first use and the first declaration of [v]. *)
Definition firstUse (v : string) (ls : list line) : option nat := fst <$> list_find (λ l, v ∈ l_uses l) ls.

Definition firstDecl (v : string) (ls : list line) : option nat := fst <$> list_find (λ l, v ∈ l_decls l) ls.


(** ** What a condition means in C

    Expressions as a C compiler reads them, for the operators of the conditions:
    comparison binds tighter than bitwise and, which binds tighter than logical
    and.  Values are 64-bit unsigned integers. *)
Inductive cop := OpNe | OpEq | OpAnd | OpLogAnd.

Inductive cexpr :=
  | CName (x : string)
  | CConst (text : string) (v : Z)
  | CParen (e : cexpr)
  | CBin (op : cop) (l r : cexpr).

Definition copText (op : cop) : string :=
  match op with OpNe => " != " | OpEq => " == " | OpAnd => " & " | OpLogAnd => " && " end.

Definition copLevel (op : cop) : nat :=
  match op with OpNe | OpEq => 3 | OpAnd => 2 | OpLogAnd => 1 end.

Definition level (e : cexpr) : nat := match e with CBin op _ _ => copLevel op | _ => 4 end.

Fixpoint cText (e : cexpr) : string :=
  match e with
  | CName x => x
  | CConst text _ => text
  | CParen e => "(" +:+ cText e +:+ ")"
  | CBin op l r => cText l +:+ copText op +:+ cText r
  end.

(** The tree is the one that the grammar gives its text. *)
Fixpoint parsed (e : cexpr) : Prop :=
  match e with
  | CBin op l r => parsed l ∧ parsed r ∧ copLevel op ≤ level l ∧ copLevel op < level r
  | CParen e => parsed e
  | _ => True
  end.

Fixpoint cEval (env : string → Z) (e : cexpr) : Z :=
  match e with
  | CName x => env x
  | CConst _ v => v
  | CParen e => cEval env e
  | CBin OpNe l r => if bool_decide (cEval env l = cEval env r) then 0 else 1
  | CBin OpEq l r => if bool_decide (cEval env l = cEval env r) then 1 else 0
  | CBin OpAnd l r => Z.land (cEval env l) (cEval env r)
  | CBin OpLogAnd l r => if bool_decide (cEval env l = 0 ∨ cEval env r = 0)%Z then 0 else 1
  end%Z.

(** The condition on a size, as it is parsed. *)
Definition sizeGuard (x : string) : cexpr :=
  CParen (CBin OpLogAnd (CBin OpNe (CName x) (CConst "0" 0))
    (CParen (CBin OpAnd (CName x) (CBin OpEq (CConst "0x8000000000000000UL" (2 ^ 63)) (CConst "0" 0))))).

(** C39: the condition that guards a call with a size argument is never true: the
    text compares the mask with zero before it is applied to the size.  A call
    of a helper with an argument of type [ARG_CONST_SIZE] is never executed. *)
Theorem size_guard_never_true (p : BpfProg) (h : BpfHelper) (i : nat) (name : string) (notNull : bool) :
  h_Args h !! i = Some "ARG_CONST_SIZE" →
  ∃ a rest, NewBpfArg h i = Ret a ∧
    argConstraints p (Some (named name notNull a)) = Ret (cText (sizeGuard name) :: rest) ∧
    parsed (sizeGuard name) ∧ ∀ env, cEval env (sizeGuard name) = 0%Z.
Proof.
  intros Hi. unfold NewBpfArg. rewrite Hi. simpl. eexists _, _. split; [done|].
  split; [rewrite <- !string_app_assoc; reflexivity|]. split; [lia|].
  intros env. rewrite Z.land_0_r. by rewrite bool_decide_true by (by right).
Qed.

Lemma size_guard_never_true_witness :
  ∃ h a rest, assoc "bpf_sk_lookup_tcp_proto" HelperFuncMap = Some h ∧ NewBpfArg h 2 = Ret a ∧
    argConstraints (g_prog sockState) (Some (named "v12" true a)) = Ret (cText (sizeGuard "v12") :: rest) ∧
    cEval (λ _, 16%Z) (sizeGuard "v12") = 0%Z.
Proof.
  eexists. destruct (size_guard_never_true (g_prog sockState)
    (default (c_Helper (NewBpfCall (mkHelper EmptyString BPF_FUNC_unspec EmptyString EmptyString [] [] EmptyString EmptyString false false)
       (newBpfCallGenHint None))) (assoc "bpf_sk_lookup_tcp_proto" HelperFuncMap)) 2 "v12" true) as (a & rest & H1 & H2 & _ & H3).
  - vm_compute. reflexivity.
  - exists a, rest. split; [vm_compute; reflexivity|]. split; [exact H1|]. split; [exact H2|apply H3].
Defined.
