(* ===== verification/BpfSeed.v ===== *)
(** * From the generator to the C file

    [genSeedBpfProg] of [prog/brf.go]: a program is generated, its references and
    spin locks are balanced, and its text is written, with up to 20 attempts.
    Writing the files and running the compiler are outside of the model: their
    results are parameters.  The theorems put the parts together: no step
    panics, and the locks of the result are balanced because at most one call of
    a generated program is on a lock. *)

From stdpp Require Import base numbers strings pretty gmap list.
From S2P Require Import Prelude BpfTypes BpfHelperTable BpfProgTable BpfCtxTable BpfInit BpfRegTypes BpfMaps BpfNewMap Rand.
From S2P Require Import StructOpsModel StructOpsTyping BpfCallGen BpfCallSpec BpfCallSafe BpfCallRec BpfCallProg BpfFixRef BpfRefSafe.
From S2P Require Import BpfSpinLock BpfCallKinds BpfCSource.

Local Open Scope string_scope.
Local Open Scope list_scope.
Local Open Scope nat_scope.

(** ** [genSeedBpfProg] *)

Section Seed.

Context (newMap : MapProg → BpfMapType → list ArgHint → Z → Gen (option nat * MapProg * list ArgHint)).
Context (rangeRefs : gmap string nat → list nat) (rangeMap : gmap string string → list (string * string)).

(** How [append] grows a slice, and the capacity of [p.Calls]. *)
Context (grow : nat → nat) (cap : nat).

(** Whether the text and the serialized program of an attempt can be written, and
    whether it compiles. *)
Context (writeCSource writeGob compileBpfProg : nat → bool).

(** A program with its type and text, and the state of the package. *)
Record Seed := mkSeed { sd_type : BpfProgType; sd_state : GState; sd_text : string }.

(** One attempt up to the text, [None] when [GenBpfProg] fails. *)
Definition seedProg (pts : list (BpfProgTypeEnum * BpfProgType)) (st : Store) (rd : Z) : Gen (option Seed * Store * Z) :=
  r ← GenBpfProg newMap pts st rd;
  let '(pt, s, ok) := r in
  if negb ok then mret (None, g_store s, g_rd s)
  else
    r ← FixRef pt newMap rangeRefs s;
    r ← FixSpinLock grow pt cap r.2;
    src ← liftRes (sourceText pt rangeMap (g_prog r.2));
    mret (Some (mkSeed pt r.2 src), g_store r.2, g_rd r.2).

(** The attempts from [i] on. *)
Fixpoint seedLoop (todo i : nat) (pts : list (BpfProgTypeEnum * BpfProgType)) (st : Store) (rd : Z) : Gen (option Seed * Store * Z) :=
  match todo with
  | O => mret (None, st, rd)
  | S todo =>
      r ← seedProg pts st rd;
      match r with
      | (None, st, rd) => seedLoop todo (S i) pts st rd
      | (Some seed, st, rd) =>
          if negb (writeCSource i) then mret (None, st, rd)
          else if negb (writeGob i) then mret (None, st, rd)
          else if negb (compileBpfProg i) then seedLoop todo (S i) pts st rd
          else mret (Some seed, st, rd)
      end
  end.

Definition genSeedBpfProg (pts : list (BpfProgTypeEnum * BpfProgType)) (st : Store) (rd : Z) : Gen (option Seed * Store * Z) :=
  seedLoop 20 0 pts st rd.

End Seed.

(** ** Spin locks of generated programs *)

Definition spinHelper (h : BpfHelper) : Prop := h_Enum h = BPF_FUNC_spin_lock ∨ h_Enum h = BPF_FUNC_spin_unlock.

#[global] Instance spinHelper_dec h : Decision (spinHelper h).
Proof. unfold spinHelper. apply _. Defined.

Definition otherHelper (h : BpfHelper) : Prop := ¬ spinHelper h.

(** What [FixSpinLock] needs of the tables, as a check: calls on locks have no
    result and take the lock, and both helpers come together. *)
Definition spinReady (pt : BpfProgType) : bool :=
  forallb (λ h, negb (bool_decide (spinHelper h)) ||
    negb (hasResult h) && bool_decide (h_Args h = ["ARG_PTR_TO_SPIN_LOCK"]) &&
    bool_decide (is_Some (getHelper pt BPF_FUNC_spin_lock)) && bool_decide (is_Some (getHelper pt BPF_FUNC_spin_unlock))) (pt_Helpers pt).

(** The program types that can be drawn pass the checks of both fixes. *)
Lemma tables_fix_ready :
  initCheck (InitFromSrc HelperFuncMap ProgTypeMap CtxAccessMap) (λ l,
    forallb (λ e, match progTypeOf l e with Some pt => refReady pt && spinReady pt | None => true end) progChoices) = true.
Proof. vm_compute. reflexivity. Qed.

Lemma choice_fix_ready pts e pt :
  initialised pts → e ∈ progChoices → progTypeOf pts e = Some pt → refReady pt = true ∧ spinReady pt = true.
Proof.
  intros [pts' Hi] He Hpt. pose proof tables_fix_ready as H. rewrite Hi in H. clear Hi. cbn [initCheck] in H.
  rewrite forallb_forall in H. apply list_elem_of_In, H in He. rewrite Hpt in He. by apply andb_true_iff in He.
Qed.

(** At most one call of the heap is on a lock. *)
Definition oneSpin (p : BpfProg) : Prop :=
  ∀ i j h h', helpersOf p !! i = Some h → helpersOf p !! j = Some h' → spinHelper h → spinHelper h' → i = j.

Lemma oneSpin_added s s' : added otherHelper s s' → oneSpin (g_prog s) → oneSpin (g_prog s').
Proof.
  intros [(l & E & Hl) _] H i j h h'. rewrite E, !lookup_app_Some. intros [Hi|[_ Hi]] [Hj|[_ Hj]] Hh Hh'.
  - by eapply H.
  - by destruct (Forall_lookup_1 _ _ _ _ Hl Hj).
  - by destruct (Forall_lookup_1 _ _ _ _ Hl Hi).
  - by destruct (Forall_lookup_1 _ _ _ _ Hl Hi).
Qed.

Lemma oneSpin_addedLast h s s' :
  addedLast otherHelper h s s' → p_calls (g_prog s) = [] → oneSpin (g_prog s').
Proof.
  intros [(l & E & Hl) _] Hnil. unfold helpersOf in E at 2 4. rewrite Hnil in E.
  assert (Hone : oneSpin (g_prog s') ∨ helpersOf (g_prog s') = l ++ [h]).
  { destruct E as [E|E]; [left|by right]. intros i j h1 h2 Hi _ Hs _. rewrite E in Hi. by destruct (Forall_lookup_1 _ _ _ _ Hl Hi). }
  destruct Hone as [|E']; [done|]. intros i j h1 h2 Hi Hj Hs1 Hs2. rewrite E' in Hi, Hj.
  apply lookup_snoc_Some in Hi as [[_ Hi]|[-> _]]; [by destruct (Forall_lookup_1 _ _ _ _ Hl Hi)|].
  apply lookup_snoc_Some in Hj as [[_ Hj]|[-> _]]; [by destruct (Forall_lookup_1 _ _ _ _ Hl Hj)|done].
Qed.

Section kinds.
Context (pt : BpfProgType) (Href : refReady pt = true) (Hspin : spinReady pt = true).
Context (newMap : MapProg → BpfMapType → list ArgHint → Z → Gen (option nat * MapProg * list ArgHint)).
Context (rangeRefs : gmap string nat → list nat).

Lemma spin_helper h :
  h ∈ pt_Helpers pt → spinHelper h →
  hasResult h = false ∧ h_Args h = ["ARG_PTR_TO_SPIN_LOCK"] ∧ ∀ isLock, is_Some (getHelper pt (spinEnum isLock)).
Proof using Hspin.
  intros Hin Hs. unfold spinReady in Hspin. rewrite forallb_forall in Hspin.
  apply list_elem_of_In, Hspin in Hin. rewrite bool_decide_true in Hin by done. simpl in Hin.
  rewrite !andb_true_iff, negb_true_iff, !bool_decide_eq_true in Hin. destruct Hin as [[[? ?] ?] ?]. split_and!; [done..|]. by intros [].
Qed.

(** Calls change in place without a new helper. *)
Lemma setCall_adds K c f :
  (∀ call call', f call = Ret call' → c_Helper call' = c_Helper call) → adds K (setCall c f) (λ _, True).
Proof using Type.
  intros Hf s. apply (part_bind _ _ _ (λ r, r = (g_prog s, s))); [by apply partial_ret|]. intros p s0 [= -> ->].
  apply (part_bind _ _ _ (λ r, r.2 = s ∧ p_calls (g_prog s) !! c = Some r.1)).
  { intros r. unfold need, draw, liftRes, of_option. by destruct (p_calls (g_prog s) !! c). }
  intros call s0 [[= ->] Hc]. simpl in Hc.
  apply (part_bind _ _ _ (λ r, r.2 = s ∧ f call = Ret r.1)).
  { intros r. unfold need, draw, liftRes. by destruct (f call). }
  intros call' s0 [[= ->] Hc'] r. simpl in Hc'. split; [|done]. split; simpl.
  - exists []. rewrite app_nil_r. split; [|done]. unfold helpersOf. simpl. rewrite list_fmap_insert.
    apply list_insert_id. rewrite list_lookup_fmap, Hc. simpl. by rewrite (Hf _ _ Hc').
  - unfold allListed. simpl. by rewrite length_insert.
Qed.

Lemma renameArg0_helper v call call' : renameArg0 v call = Ret call' → c_Helper call' = c_Helper call.
Proof using Type. unfold renameArg0, arg0. destruct (c_Args call) as [|[a|] args]; [done| |done]. by intros [= <-]. Qed.

Lemma result_other h : h ∈ pt_Helpers pt → hasResult h = true → otherHelper h.
Proof using Hspin. intros Hin Hr Hs. destruct (spin_helper h Hin Hs) as [? _]. congruence. Qed.

Lemma addAcquire_adds ref : adds otherHelper (addAcquire pt newMap ref) (λ _, True).
Proof using Href Hspin.
  unfold addAcquire. cbv zeta. adds_step; [by apply adds_ret|]. eapply adds_bind; [apply adds_pick|].
  intros helper [Hin He]%getHelpers_elem. eapply (adds_bind _ _ _ (λ _, True)).
  - intros s r. pose proof (genBpfHelperCall_adds otherHelper pt newMap result_other callFuel helper
      (newBpfCallGenHint (r_objMap ref)) true s r) as H.
    destruct (genBpfHelperCall _ _ _ _ _ _ _ _) as [[? ?]| |]; [|done..]. split; [|done].
    eapply addedLast_added, H. apply result_other; [done|]. apply (ref_result pt Href); [done|]. by eapply acquire_sources.
  - intros [prod|] _; [|by apply adds_ret]. eapply adds_bind; [apply adds_draw|]. intros c _.
    apply setCall_adds. intros call call'. apply renameArg0_helper.
Qed.

Lemma addRelease_adds ref : adds otherHelper (addRelease pt ref) (λ _, True).
Proof using Type.
  unfold addRelease. cbv zeta. adds_step; [by apply adds_ret|]. do 5 (eapply adds_bind; [apply adds_draw|intros ? _]).
  eapply adds_bind; [apply setCall_adds; by intros call call' [= <-]|]. intros _ _. by apply adds_ret.
Qed.

Lemma release_other h : h ∈ getHelpers pt [BPF_FUNC_ringbuf_submit; BPF_FUNC_ringbuf_discard] → otherHelper h.
Proof using Type.
  intros [_ He]%getHelpers_elem [E|E]; rewrite E in He; by repeat (apply elem_of_cons in He as [?|He]; [done|]); apply not_elem_of_nil in He.
Qed.

Lemma addSubmit_adds ref : adds otherHelper (addSubmit pt ref) (λ _, True).
Proof using Type.
  unfold addSubmit. cbv zeta. adds_step; [by apply adds_ret|]. eapply adds_bind; [apply adds_pick|]. intros h Hh%release_other.
  do 2 (eapply adds_bind; [apply adds_draw|intros ? _]).
  eapply (adds_bind _ _ _ (λ c, c_Helper c = h)).
  { intros s r. unfold need, draw, liftRes, setArg. by case_bool_decide. }
  intros c Hc. eapply adds_bind; [apply adds_draw|]. intros a1 _.
  eapply (adds_bind _ _ _ (λ c, c_Helper c = h)).
  { intros s r. unfold need, draw, liftRes, setArg. by case_bool_decide. }
  intros c' Hc'. eapply (adds_bind _ _ _ (λ _, True)); [|intros _ _; by apply adds_ret].
  intros s r. split; [|done]. eapply (addedLast_added otherHelper h); [done|].
  apply (addedLast_push otherHelper h s s c' false (g_rd s) (p_VarId (g_prog s))); [done|done].
Qed.

Lemma fixRefs_adds refs rs : adds otherHelper (fixRefs pt newMap refs rs) (λ _, True).
Proof using Href Hspin.
  revert refs. induction rs as [|r rs IH]; intros refs; [by apply adds_ret|]. cbn [fixRefs].
  eapply (adds_bind _ _ _ (λ _, True)); [|intros refs' _; apply IH].
  unfold fixOne. eapply adds_bind; [apply adds_draw|]. intros ref _.
  adds_step; [eapply adds_bind; [apply addAcquire_adds|intros _ _; by apply adds_ret]|].
  adds_step; [|by apply adds_ret].
  eapply (adds_bind _ _ _ (λ _, True)); [|intros b _; by apply adds_ret].
  adds_step; [apply addRelease_adds|]. adds_step; [apply addSubmit_adds|by apply adds_ret].
Qed.

Lemma FixRef_adds s : partial (FixRef pt newMap rangeRefs s) (λ r, added otherHelper s r.2).
Proof using Href Hspin.
  assert (H : adds otherHelper (FixRef pt newMap rangeRefs) (λ _, True)).
  { unfold FixRef. eapply adds_bind; [apply adds_get|]. intros p _. eapply adds_bind; [apply adds_draw|]. intros st _. apply fixRefs_adds. }
  intros r. specialize (H s r). destruct (FixRef _ _ _ _ _) as [[? ?]| |]; [|done..]. apply H.
Qed.

End kinds.

(** ** [FixSpinLock] on a generated program *)

(** The order of the calls does not matter to the invariant. *)
Lemma inv_reorder pt s calls :
  inv pt s → Forall (λ i, i < length (p_calls (g_prog s))) calls →
  inv pt (mkGS (g_store s) (g_rd s) (withCalls (p_calls (g_prog s)) calls (g_prog s))).
Proof.
  intros [] Hc. split; try done. simpl. eapply Forall_impl; [exact i_calls|]. intros c [Hsh Hsc Hpo ? ?].
  split; try done; [by destruct Hsh|..].
  - eapply scopedCall_mono; [apply withCalls_grown| |exact Hsc]. done.
  - eapply postCalls_mono; [apply withCalls_grown| |exact Hpo]. done.
Qed.

Lemma resolves_nonempty pt s v : inv pt s → resolves (g_prog s) (usable (g_prog s)) v → v ≠ EmptyString.
Proof.
  intros Hi Hr. destruct Hr as [| |i m _|x t _|x Hx|x k _|x k Hx]; try done.
  - intros ->. apply usable_declared in Hx. pose proof (i_older _ _ Hi) as Ho. rewrite Forall_forall in Ho.
    destruct (Ho _ Hx) as (n & _ & E). done.
  - by destruct x.
Qed.

(** The calls of a program, in order, leave no lock held. *)
Definition locksBalanced (p : BpfProg) : Prop :=
  ∃ l, mapM (λ c, p_calls p !! c) (p_Calls p) = Some l ∧ spinBalanced None l = true.

Lemma helper_at p i c : p_calls p !! i = Some c → helpersOf p !! i = Some (c_Helper c).
Proof. intros Hc. unfold helpersOf. by rewrite list_lookup_fmap, Hc. Qed.

Lemma nonSpin_helper c : nonSpin c ↔ otherHelper (c_Helper c).
Proof. unfold nonSpin, otherHelper, spinHelper, enumOf. tauto. Qed.

Definition spinAt (p : BpfProg) (i : nat) : bool :=
  match p_calls p !! i with Some c => bool_decide (spinHelper (c_Helper c)) | None => false end.

Section spin.
Context (pt : BpfProgType) (Hspin : spinReady pt = true) (grow : nat → nat) (cap : nat).

(** A call on a lock has the lock as its argument. *)
Lemma spin_arg s x c :
  inv pt s → p_calls (g_prog s) !! x = Some c → spinHelper (c_Helper c) →
  ∃ isLock a, spinCall isLock a c ∧ resolves (g_prog s) (usable (g_prog s)) a ∧ a ≠ EmptyString.
Proof using Hspin.
  intros Hi Hx Hs. pose proof (Forall_lookup_1 _ _ _ _ (i_calls _ _ Hi) Hx) as [Hsh _ _ _ _].
  destruct (spin_helper pt Hspin (c_Helper c)) as (_ & Ea & _); [apply Hsh|done|].
  destruct (plain_arg0 pt s x c _ _ Hi Hx Ea) as (a & args & Eargs & _ & _ & Hr); [by vm_compute|].
  exists (bool_decide (enumOf c = BPF_FUNC_spin_lock)), (a_Name a). split; [|split; [done|by eapply resolves_nonempty]].
  split; [|unfold arg0Name, arg0; by rewrite Eargs]. destruct Hs as [E|E]; unfold enumOf; by rewrite E.
Qed.

(** The other half is a call like any other. *)
Lemma inv_insert s isLock helper a new calls :
  inv pt s → getHelper pt (spinEnum isLock) = Some helper → newCallOn helper a = Ret new →
  resolves (g_prog s) (usable (g_prog s)) a → Forall (λ i, i < S (length (p_calls (g_prog s)))) calls →
  inv pt (mkGS (g_store s) (g_rd s) (withCalls (p_calls (g_prog s) ++ [new]) calls (g_prog s))).
Proof using Hspin.
  intros Hi Hh Hn Hr Hc. destruct (getHelper_elem _ _ _ Hh) as [He Hin].
  destruct (spin_helper pt Hspin helper Hin) as (Hres & Ea & _); [destruct isLock; [by left|by right]|].
  destruct (newCallOn_spin pt isLock helper a Hh Ea) as (new' & Hn' & _ & Eh & a0 & Eargs & Et & Ep & Enew).
  assert (new' = new) as -> by congruence.
  assert (Edecl : callDecl new = []).
  { unfold callDecl, argDecls. rewrite Eargs. simpl. rewrite Ep. simpl. by rewrite Enew. }
  assert (Hg : good pt (false && negb false) (mkGS (g_store s) (g_rd s) (withCalls (p_calls (g_prog s) ++ [new])
      (p_Calls (g_prog s) ++ [length (p_calls (g_prog s))]) (g_prog s)))).
  { apply (good_push pt false s new false); [by split|..].
    - split; [by rewrite Eh|by rewrite Eargs, Eh, Ea|rewrite Enew; by apply hintOK_new|by rewrite Enew|].
      intros i b Hib. rewrite Eargs in Hib. destruct i as [|i]; simplify_eq/=. by rewrite Et.
    - unfold scopedCall. rewrite Eargs, Eh, Ea. constructor; [|constructor]. eexists. split; [done|]. by apply argOK_named.
    - by rewrite Enew.
    - rewrite Eh. congruence.
    - by rewrite Enew.
    - rewrite Edecl, app_nil_r. apply Hi.
    - by rewrite Edecl. }
  apply (inv_reorder pt _ calls (proj1 Hg)). simpl. rewrite length_app, Nat.add_1_r. exact Hc.
Qed.

(** What [FixSpinLock] gives: the calls that were there stay. *)
Definition spinPost (s s' : GState) : Prop :=
  inv pt s' ∧ g_rd s' = g_rd s ∧ locksBalanced (g_prog s') ∧ p_StructOps (g_prog s') = p_StructOps (g_prog s) ∧
  p_calls (g_prog s) `prefix_of` p_calls (g_prog s') ∧ p_Calls (g_prog s) `sublist_of` p_Calls (g_prog s').

Lemma FixSpinLock_none s :
  inv pt s → Forall (nonSpinAt (p_calls (g_prog s))) (p_Calls (g_prog s)) →
  ∀ r, ∃ s', FixSpinLock grow pt cap s r = Ret (tt, s', r) ∧ spinPost s s'.
Proof using Type.
  intros Hi Hn r. exists (mkGS (g_store s) (g_rd s) (withCalls (p_calls (g_prog s)) (p_Calls (g_prog s)) (g_prog s))). split.
  - change (FixSpinLock grow pt cap s r)
      with ((res ← need (fixCalls grow pt cap (p_calls (g_prog s)) (p_Calls (g_prog s))); modProg (withCalls res.1 res.2)) s r).
    assert (E : fixCalls grow pt cap (p_calls (g_prog s)) (p_Calls (g_prog s)) = Ret (p_calls (g_prog s), p_Calls (g_prog s))).
    { unfold fixCalls. rewrite <- (Nat.add_0_r (length (p_Calls (g_prog s)))) at 1. rewrite fixLoop_skip; [done|]. intros j Hj.
      destruct (lookup_lt_is_Some_2 (p_Calls (g_prog s)) j) as [y Hy]; [lia|]. exists y. unfold rangeAt. simpl. rewrite Hy.
      split; [done|]. by eapply Forall_lookup_1 in Hn. }
    by rewrite E.
  - split; [apply inv_reorder; [done|apply Hi]|]. split_and!; try done. destruct (read_nonSpin _ _ Hn) as (l & Hl & Hnl).
    exists l. split; [by apply mapM_Some|]. rewrite <- (app_nil_r l). by rewrite spinBalanced_other.
Qed.

Lemma FixSpinLock_spec s :
  inv pt s → allListed (g_prog s) → oneSpin (g_prog s) →
  ∀ r, ∃ s', FixSpinLock grow pt cap s r = Ret (tt, s', r) ∧ spinPost s s'.
Proof using Hspin.
  intros Hi Hl Ho. assert (Hptr : ∀ i, i ∈ p_Calls (g_prog s) → ∃ c, p_calls (g_prog s) !! i = Some c).
  { intros i Hin. pose proof (i_order _ _ Hi) as H. rewrite Forall_forall in H. apply H in Hin. by apply lookup_lt_is_Some in Hin as [c ?]; exists c. }
  destruct (decide (Exists (λ i, spinAt (g_prog s) i = true) (p_Calls (g_prog s)))) as [Hex|Hno].
  2:{ apply FixSpinLock_none; [done|]. apply Forall_forall. intros i Hin. destruct (Hptr i Hin) as [c Hc]. exists c. split; [done|].
    apply nonSpin_helper. intros Hs. apply Hno, Exists_exists. exists i. unfold spinAt. rewrite Hc. by rewrite bool_decide_true. }
  apply Exists_exists in Hex as (x & Hin & Hx). destruct (Hptr x Hin) as [c Hc]. unfold spinAt in Hx. rewrite Hc in Hx.
  apply bool_decide_eq_true in Hx.
  destruct (spin_arg s x c Hi Hc Hx) as (isLock & a & Hcall & Hr & Ha).
  pose proof (Forall_lookup_1 _ _ _ _ (i_calls _ _ Hi) Hc) as [Hsh _ _ _ _].
  destruct (spin_helper pt Hspin (c_Helper c)) as (_ & _ & Hoff); [apply Hsh|done|].
  assert (Hoffers : offersSpin pt).
  { intros b. destruct (Hoff b) as [h Hh]. exists h. split; [done|]. destruct (getHelper_elem _ _ _ Hh) as [He Hhin].
    apply (spin_helper pt Hspin); [done|]. destruct b; [by left|by right]. }
  apply list_elem_of_split in Hin as (pp & pq & E).
  assert (Hnd : NoDup (p_Calls (g_prog s))) by (unfold allListed in Hl; rewrite Hl; apply NoDup_seq). rewrite E in Hnd.
  assert (Hrest : Forall (nonSpinAt (p_calls (g_prog s))) (pp ++ pq)).
  { apply Forall_forall. intros i Hi'. assert (Hii : i ∈ p_Calls (g_prog s)) by (rewrite E; set_solver).
    destruct (Hptr i Hii) as [d Hd]. exists d. split; [done|]. apply nonSpin_helper. intros Hs.
    assert (i = x) as -> by (eapply Ho; [by apply helper_at..|done|done]).
    apply NoDup_app in Hnd as (_ & Hd1 & [Hd2 _]%NoDup_cons). apply elem_of_app in Hi' as [?|?]; [eapply Hd1; set_solver|done]. }
  destruct (FixSpinLock_insert grow pt cap s pp pq x c isLock a Hoffers E Hc Hcall Ha Hrest) as (helper & new & Hh & Hnew & _ & Hrun & Hbal).
  intros r. eexists. split; [apply Hrun|]. pose proof (i_order _ _ Hi) as Hord. rewrite E in Hord.
  assert (Hlt : Forall (λ i, i < S (length (p_calls (g_prog s)))) (pp ++ (if isLock then [x; length (p_calls (g_prog s))] else [length (p_calls (g_prog s)); x]) ++ pq)).
  { apply Forall_forall. intros i Hi'. rewrite Forall_forall in Hord. destruct (decide (i = length (p_calls (g_prog s)))) as [->|]; [lia|].
    assert (i < length (p_calls (g_prog s))); [apply Hord|lia]. destruct isLock; set_solver. }
  split; [by eapply (inv_insert s (negb isLock))|]. split; [done|]. split; [exact Hbal|]. split; [done|]. simpl. split; [by apply prefix_app_r|].
  rewrite E. apply sublist_app; [done|]. destruct isLock; simpl; [by apply sublist_skip, sublist_cons|]. by apply sublist_cons.
Qed.

End spin.

(** ** The attempts *)

Lemma NewBpfProg_empty pt : partial (NewBpfProg pt) (λ p, p_calls p = [] ∧ p_Calls p = []).
Proof.
  unfold NewBpfProg. do 3 (eapply partial_bind; [apply partial_any|intros ? _]). by apply partial_ret.
Qed.

Lemma empty_kinds p : p_calls p = [] → p_Calls p = [] → allListed p ∧ oneSpin p.
Proof.
  intros E1 E2. unfold allListed, oneSpin, helpersOf. rewrite E1, E2. split; [done|]. by intros i j h h' Hi.
Qed.

(** All calls of a generated program are listed, and one is on a lock at most. *)
Lemma GenBpfProg_kinds newMap pts st rd :
  initialised pts → partial (GenBpfProg newMap pts st rd) (λ r, allListed (g_prog r.1.2) ∧ oneSpin (g_prog r.1.2)).
Proof.
  intros Hi. unfold GenBpfProg. eapply partial_bind; [apply partial_pick|]. intros e He.
  eapply (partial_bind _ _ (λ pt, progTypeOf pts e = Some pt)).
  { intros r. unfold liftRes, of_option. by destruct (progTypeOf pts e). }
  intros pt Hpt. destruct (choice_fix_ready _ _ _ Hi He Hpt) as [_ Hsp]. case_bool_decide.
  - unfold genStructOpsBpfProg.
    eapply (partial_bind _ _ (λ r, allListed (g_prog r.1) ∧ oneSpin (g_prog r.1))); [|intros r H'; by apply partial_ret].
    eapply partial_bind; [apply NewBpfProg_empty|]. intros p [E1 E2]. eapply partial_bind; [apply partial_any|]. intros so _.
    apply partial_ret. by apply empty_kinds.
  - eapply partial_bind; [apply partial_any|]. intros helper _. eapply partial_bind; [apply NewBpfProg_empty|]. intros p [E1 E2].
    eapply partial_bind; [apply (genBpfHelperCall_adds otherHelper pt newMap (result_other pt Hsp))|].
    intros [o s'] Ha. apply partial_ret. simpl in *. split; [|by eapply oneSpin_addedLast].
    apply (proj2 Ha). by apply empty_kinds.
Qed.

Section attempts.
Context (tot : bool) (newMap : MapProg → BpfMapType → list ArgHint → Z → Gen (option nat * MapProg * list ArgHint)).
Context `{!MapMaker tot newMap}.
Context (rangeRefs : gmap string nat → list nat) `{!RangeOrder rangeRefs}.
Context (rangeMap : gmap string string → list (string * string)) `{!MapRange rangeMap} (grow : nat → nat) (cap : nat).
Context (pts : list (BpfProgTypeEnum * BpfProgType)) (Hpts : initialised pts).

(** A program that is written: it has the text of its state, the state is well
    formed, no variable is declared twice, and no lock is left held. *)
Record seedOK (seed : Seed) : Prop := {
  so_text : sourceText (sd_type seed) rangeMap (g_prog (sd_state seed)) = Ret (sd_text seed);
  so_inv : inv (sd_type seed) (sd_state seed);
  so_locks : locksBalanced (g_prog (sd_state seed));
  so_ops : match p_StructOps (g_prog (sd_state seed)) with
           | Some so => wellTyped so
           | None => p_Calls (g_prog (sd_state seed)) ≠ []
           end;
}.

Definition seedPost (r : option Seed * Store * Z) : Prop :=
  storeOK r.1.2 ∧ (0 ≤ r.2)%Z ∧ ∀ seed, r.1.1 = Some seed → seedOK seed.

(** The two fixes and the text, on a program of the generator. *)
Lemma fixes_spec pt s :
  genResult pts pt s true → allListed (g_prog s) → oneSpin (g_prog s) →
  ensures tot
    (r ← FixRef pt newMap rangeRefs s;
     r ← FixSpinLock grow pt cap r.2;
     src ← liftRes (sourceText pt rangeMap (g_prog r.2));
     mret (Some (mkSeed pt r.2 src), g_store r.2, g_rd r.2)) seedPost.
Proof using Hpts MapMaker0 RangeOrder0 MapRange0.
  intros ((e & He & Hpt) & [Hi _] & Hrd & Hso) Hl Ho. destruct (choice_fix_ready _ _ _ Hpts He Hpt) as [Href Hsp].
  destruct (choice_ready _ _ Hpts He) as (pt' & Hpt' & _ & Hr & _). assert (pt' = pt) as -> by congruence.
  eapply ensures_bind.
  { apply ensures_partial; [by apply (FixRef_spec tot newMap rangeRefs pt s)|by apply FixRef_adds]. }
  intros [[] s1] [[(Hi1 & Hrd1 & Ha1) _] Hk1]. cbn [fst snd] in *.
  assert (Ho1 : oneSpin (g_prog s1)) by (by eapply oneSpin_added). assert (Hl1 : allListed (g_prog s1)) by (by apply Hk1).
  assert (E : ∀ r, ∃ s2, FixSpinLock grow pt cap s1 r = Ret (tt, s2, r) ∧ spinPost pt s1 s2) by (by apply FixSpinLock_spec).
  apply (ensures_bind _ _ _ (λ r, spinPost pt s1 r.2)).
  { intros r. destruct (E r) as (s2 & -> & ?). done. }
  intros [[] s2] (Hi2 & Erd & Hb & Eops & _ & Hsub). cbn [fst snd] in *.
  assert (Hops : match p_StructOps (g_prog s2) with Some so => progPost so | None => p_Calls (g_prog s2) ≠ [] end).
  { rewrite Eops, (af_ops _ _ _ Ha1). destruct (p_StructOps (g_prog s)) as [so|]; [apply Hso|]. intros En. rewrite En in Hsub.
    apply sublist_nil_r in Hsub. apply (Hso eq_refl). apply list_nil_subseteq. rewrite <- Hsub. apply Ha1. }
  destruct (sourceText_ret pt rangeMap s2 Hi2) as [src Es]; [by destruct (p_StructOps (g_prog s2))|].
  eapply ensures_bind; [apply ensures_wp; by eapply (wp_liftRes _ src (λ x, x = src))|]. intros ? ->.
  apply ensures_ret. split; [apply Hi2|]. split; [by rewrite Erd|]. intros seed [= <-].
  split; [done..|]. simpl. destruct (p_StructOps (g_prog s2)); [by apply progPost_wellTyped|done].
Qed.

Lemma seedProg_spec st rd :
  storeOK st → (0 ≤ rd)%Z → ensures tot (seedProg newMap rangeRefs rangeMap grow cap pts st rd) seedPost.
Proof using Hpts MapMaker0 RangeOrder0 MapRange0.
  intros Hst Hrd. unfold seedProg. eapply ensures_bind.
  { apply ensures_partial; [by apply (GenBpfProg_spec tot newMap)|by apply GenBpfProg_kinds]. }
  intros [[pt s] ok] [Hg [Hl Ho]]. cbn [fst snd] in *. destruct ok; cbn [negb]; [by apply fixes_spec|].
  apply ensures_ret. destruct Hg as (_ & [Hi _] & ? & _). split; [apply Hi|]. done.
Qed.

Lemma seedLoop_spec writeCSource writeGob compileBpfProg todo i st rd :
  storeOK st → (0 ≤ rd)%Z →
  ensures tot (seedLoop newMap rangeRefs rangeMap grow cap writeCSource writeGob compileBpfProg todo i pts st rd) seedPost.
Proof using Hpts MapMaker0 RangeOrder0 MapRange0.
  revert i st rd. induction todo as [|todo IH]; intros i st rd Hst Hrd; cbn [seedLoop]; [by apply ensures_ret|].
  eapply ensures_bind; [by apply seedProg_spec|]. intros [[[seed|] st'] rd'] (Hst' & Hrd' & Hs); cbn [fst snd] in *; [|by apply IH].
  destruct (negb _); [by apply ensures_ret|]. destruct (negb _); [by apply ensures_ret|]. destruct (negb _); [by apply IH|].
  by apply ensures_ret.
Qed.

End attempts.

(** ** Properties *)



(** C13: [FixRef] on a program of the generator never panics and leaves no
    reference behind that the program type can release: for every call that
    acquires a socket or a ring buffer record which no call of the program
    releases under any of its names, a call that releases it under one of its
    names has been added, in whichever order Go's range visits the objects. *)
Theorem generated_references_released (tot : bool) newMap `{!MapMaker tot newMap}
    (rangeRefs : gmap string nat → list nat) `{!RangeOrder rangeRefs}
    (pts : list (BpfProgTypeEnum * BpfProgType)) (st : Store) (rd : Z) :
  initialised pts → storeOK st → (0 ≤ rd)%Z →
  ensures tot
    (r ← GenBpfProg newMap pts st rd; r' ← FixRef r.1.1 newMap rangeRefs r.1.2; mret (r.1.1, r.1.2, r'.2))
    (λ r, let '(pt, s, s') := r in ∀ v typ c, c ∈ p_Calls (g_prog s) → leaking s v typ c →
       getHelpers pt (releaseHelpers typ) ≠ [] → releasedIn (g_prog s) (g_prog s') v typ c).
Proof.
  intros Hi Hst Hrd. eapply ensures_bind.
  { apply ensures_partial; [by apply (GenBpfProg_spec tot newMap)|by apply GenBpfProg_kinds]. }
  intros [[pt s] ok] [((e & He & Hpt) & [Hinv _] & Hrd' & _) [Hl _]]. cbn [fst snd] in *.
  destruct (choice_fix_ready _ _ _ Hi He Hpt) as [Href _].
  destruct (choice_ready _ _ Hi He) as (pt' & Hpt' & _ & Hr & _). assert (pt' = pt) as -> by congruence.
  eapply ensures_bind; [by apply (FixRef_spec tot newMap rangeRefs pt s)|]. intros [[] s'] [_ Hrel]. apply ensures_ret.
  intros v typ c Hc Hlk Hh. apply Hrel; [|done..]. unfold allListed in Hl. rewrite Hl. apply NoDup_seq.
Qed.

Lemma generated_references_released_witness :
  ensures true
    (r ← GenBpfProg flatMap progTypes initArray 0; r' ← FixRef r.1.1 flatMap (λ m, (map_to_list m).*2) r.1.2; mret (r.1.1, r.1.2, r'.2))
    (λ r, let '(pt, s, s') := r in ∀ v typ c, c ∈ p_Calls (g_prog s) → leaking s v typ c →
       getHelpers pt (releaseHelpers typ) ≠ [] → releasedIn (g_prog s) (g_prog s') v typ c).
Proof.
  refine (generated_references_released true flatMap (λ m, (map_to_list m).*2) progTypes initArray 0 _ _ _).
  - apply progTypes_init.
  - apply initArray_OK.
  - discriminate.
Defined.

(** C20: [MutBpfProg] on a well-formed program of a type that can be drawn never
    panics and leaves it well formed, so that the result can be mutated again,
    balanced by [FixRef] and rendered. *)
Theorem mutated_programs_render (tot : bool) newMap `{!MapMaker tot newMap}
    (rangeRefs : gmap string nat → list nat) `{!RangeOrder rangeRefs}
    (rangeMap : gmap string string → list (string * string)) `{!MapRange rangeMap}
    (pts : list (BpfProgTypeEnum * BpfProgType)) (e : BpfProgTypeEnum) (pt : BpfProgType) (s : GState) :
  initialised pts → e ∈ progChoices → progTypeOf pts e = Some pt → inv pt s → (0 ≤ g_rd s)%Z →
  gens tot (_ ← MutBpfProg newMap pt; FixRef pt newMap rangeRefs) s
    (λ _ s', inv pt s' ∧ (0 ≤ g_rd s')%Z ∧ ∃ src, sourceText pt rangeMap (g_prog s') = Ret src).
Proof.
  intros Hi He Hpt Hinv Hrd. destruct (choice_fix_ready _ _ _ Hi He Hpt) as [Href _].
  destruct (choice_ready _ _ Hi He) as (pt' & Hpt' & _ & Hr & _). assert (pt' = pt) as -> by congruence.
  eapply gens_bind; [by apply (MutBpfProg_spec tot newMap pt false)|]. intros b s1 (Hi1 & Hrd1 & Hso).
  eapply gens_mono; [by apply (FixRef_spec tot newMap rangeRefs pt s1)|]. intros [] s2 [(Hi2 & Hrd2 & Ha) _].
  split; [done|]. split; [done|]. apply (sourceText_ret pt rangeMap s2); [done|]. rewrite (af_ops _ _ _ Ha). by destruct (p_StructOps (g_prog s1)).
Qed.

Lemma mutated_programs_render_witness :
  ∃ pt s, progTypeOf progTypes BPF_PROG_TYPE_LSM = Some pt ∧
    gens true (_ ← MutBpfProg flatMap pt; FixRef pt flatMap (λ m, (map_to_list m).*2)) s
      (λ _ s', inv pt s' ∧ (0 ≤ g_rd s')%Z ∧ ∃ src, sourceText pt map_to_list (g_prog s') = Ret src).
Proof.
  destruct (choice_ready progTypes BPF_PROG_TYPE_LSM progTypes_init) as (pt & Hpt & _ & Hr & _); [left|].
  destruct (wp_run _ _ (mkRng (λ _, 0%Z) 0) (NewBpfProg_spec pt initArray 0 Hr initArray_OK)) as (p & _ & [Hg _] & _).
  exists pt, (mkGS initArray 0 p). split; [exact Hpt|].
  refine (mutated_programs_render true flatMap (λ m, (map_to_list m).*2) map_to_list progTypes BPF_PROG_TYPE_LSM pt (mkGS initArray 0 p)
    progTypes_init _ Hpt Hg _).
  - left.
  - discriminate.
Defined.
