(* ===== verification/Hints.v ===== *)
(** * Comparison hints

    [prog/hints.go]: the operands of the comparisons that the kernel made are
    matched against the integers of a program, at several widths, with sign
    extension and in both byte orders, and a match is replaced by the other
    operand. *)

From stdpp Require Import base numbers strings gmap list sorting.
From S2P Require Import Prelude Word Rand.

Local Open Scope Z_scope.

(** ** Comparisons *)

Definition CompMap : Type := gmap Z (gset Z).

Definition maxDataLength : Z := 100.

Definition AddComp (m : CompMap) (arg1 arg2 : Z) : CompMap :=
  <[arg1 := {[ arg2 ]} ∪ default ∅ (m !! arg1)]> m.

(** The operands that a value has been compared with. *)
Definition compsOf (m : CompMap) (v : Z) : list Z := elements (default ∅ (m !! v)).

(** ** Replacers *)

(** [^x] and [1<<size - 1] on 64 bits. *)
Definition not64 (z : Z) : Z := Z.lxor z (2 ^ 64 - 1).

Definition maskOf (size : Z) : Z := u64 (u64 (Z.shiftl 1 size) - 1).

Definition iwidths : list Z := [8; 4; 2; 1; -4; -2; -1].

(** The width, the size in bits and the value to look for; [None] is [continue]. *)
Definition mutantOf (v bitsize iwidth : Z) : option (Z * Z * Z) :=
  if bool_decide (0 < iwidth) then
    let size := iwidth * 8 in
    Some (iwidth, size, Z.land v (maskOf size))
  else
    let width := - iwidth in
    let size := width * 8 in
    let size := if bool_decide (bitsize < size) then bitsize else size in
    if bool_decide (Z.land v (u64 (Z.shiftl 1 (size - 1))) = 0) then None
    else Some (width, size, Z.lor v (not64 (maskOf size))).

(** Values that are too common in images. *)
Definition skipImage (image : bool) (width size mutant : Z) : bool :=
  image && (bool_decide (width < 4) ||
            (bool_decide (mutant = 0) || bool_decide (Z.lor mutant (not64 (maskOf size)) = 2 ^ 64 - 1))).

(** The replacer for the operand [newV]; [None] is [continue]. *)
Definition replacerOf (v bitsize : Z) (image : bool) (width size : Z) (bigendian : bool) (newV : Z) : res (option Z) :=
  let limit := maskOf bitsize in
  let negative := not64 (Z.shiftr limit 1) in
  if bool_decide (limit < newV) && bool_decide (Z.land negative newV ≠ negative) then Ret None
  else
    let mask := maskOf size in
    let newHi := Z.land newV (not64 mask) in
    let newV := Z.land newV mask in
    if bool_decide (newHi ≠ 0) && bool_decide (Z.lxor newHi (not64 mask) ≠ 0) then Ret None
    else
      newV ← (if bigendian then swapInt newV width else Ret newV);
      if negb image && bool_decide (newV ∈ specialInts) then Ret None
      else
        let replacer := Z.lor (Z.land v (not64 mask)) newV in
        if bool_decide (replacer = v) then Ret None
        else replacer ← truncateToBitSize replacer bitsize; Ret (Some replacer).

(** The replacers that a loop adds to the set. *)
Fixpoint addAll {A} (f : A → res (gset Z)) (l : list A) : res (gset Z) :=
  match l with
  | [] => Ret ∅
  | x :: l => s ← f x; s' ← addAll f l; Ret (s ∪ s')
  end.

Definition addReplacer (v bitsize : Z) (image : bool) (width size : Z) (bigendian : bool) (newV : Z) : res (gset Z) :=
  r ← replacerOf v bitsize image width size bigendian newV;
  Ret (match r with Some r => {[ r ]} | None => ∅ end).

Definition addEndian (v : Z) (compMap : CompMap) (bitsize : Z) (image : bool) (width size mutant : Z) (bigendian : bool) :
    res (gset Z) :=
  if bigendian && bool_decide (width = 1) then Ret ∅
  else
    mutant ← (if bigendian then swapInt mutant width else Ret mutant);
    addAll (addReplacer v bitsize image width size bigendian) (compsOf compMap mutant).

Definition addWidth (v : Z) (compMap : CompMap) (bitsize : Z) (image : bool) (iwidth : Z) : res (gset Z) :=
  match mutantOf v bitsize iwidth with
  | None => Ret ∅
  | Some (width, size, mutant) =>
      if skipImage image width size mutant then Ret ∅
      else addAll (addEndian v compMap bitsize image width size mutant) [false; true]
  end.

Definition shrinkExpand (v : Z) (compMap : CompMap) (bitsize : Z) (image : bool) : res (list Z) :=
  v ← truncateToBitSize v bitsize;
  replacers ← addAll (addWidth v compMap bitsize image) iwidths;
  Ret (merge_sort Z.le (elements replacers)).

(** ** The arithmetic of replacers *)

(** A window of [size] low bits, seen as an integer of [width] bytes: zero
    extended, or sign extended with its top bit set. *)
Inductive window (v bitsize : Z) : Z → Z → Z → Prop :=
  | window_zero width : width ∈ [1; 2; 4; 8] → window v bitsize width (8 * width) (v `mod` 2 ^ (8 * width))
  | window_sign width : width ∈ [1; 2; 4] → let size := Z.min (8 * width) bitsize in
      2 ^ (size - 1) ≤ v `mod` 2 ^ size →
      window v bitsize width size (v `mod` 2 ^ size + (2 ^ 64 - 2 ^ size)).

(** The operand is a number of [size] bits, zero or sign extended. *)
Definition extends (n size : Z) : Prop := n < 2 ^ size ∨ 2 ^ 64 - 2 ^ size ≤ n.

(** The byte order in which the program and the comparison see the integer. *)
Definition inOrder (bigendian : bool) (width z : Z) : Z := if bigendian then revBytes (Z.to_nat width) z else z.

(** What justifies the replacer [r] of [v]: an integer in a window of [v] was
    compared with [n], which fits the window and the field, and [r] has [n] in
    the place of the window. *)
Definition justified (v : Z) (compMap : CompMap) (bitsize : Z) (image : bool) (r : Z) : Prop :=
  ∃ width size op (bigendian : bool) n,
    window v bitsize width size op ∧ (bigendian = true → width ≠ 1) ∧
    (image = true → 4 ≤ width ∧ op ≠ 0 ∧ op `mod` 2 ^ size ≠ 2 ^ size - 1) ∧
    n ∈ compsOf compMap (inOrder bigendian width op) ∧
    (n < 2 ^ bitsize ∨ 2 ^ 64 - 2 ^ (bitsize - 1) ≤ n) ∧ extends n size ∧
    let new := inOrder bigendian width (n `mod` 2 ^ size) in
    (image = false → new ∉ specialInts) ∧
    v - v `mod` 2 ^ size + new ≠ v ∧ r = (v - v `mod` 2 ^ size + new) `mod` 2 ^ bitsize.

(** ** From bits to arithmetic *)

Lemma maskOf_ones size : 1 ≤ size ≤ 64 → maskOf size = 2 ^ size - 1.
Proof. apply mask_ones. Qed.

Lemma not64_sub z : isU64 z → not64 z = 2 ^ 64 - 1 - z.
Proof.
  intros Hz. unfold not64. assert (Hl : Z.land z (Z.lxor z (2 ^ 64 - 1)) = 0).
  { apply Z.bits_inj'. intros i Hi. rewrite Z.land_spec, Z.lxor_spec, Z.bits_0.
    destruct (decide (i < 64)) as [Hlt|Hge].
    - change (2 ^ 64 - 1) with (Z.ones 64). rewrite Z.ones_spec_low by lia. by destruct (Z.testbit z i).
    - by rewrite (testbit_high z 64 i) by (unfold isU64 in Hz; lia). }
  pose proof (Z.add_nocarry_lxor z (Z.lxor z (2 ^ 64 - 1)) Hl) as Ha.
  rewrite <- Z.lxor_assoc, Z.lxor_nilpotent, Z.lxor_0_l in Ha. lia.
Qed.

Lemma pow_range size : 0 ≤ size ≤ 64 → 1 ≤ 2 ^ size ≤ 2 ^ 64.
Proof. intros Hs. split; [pose proof (Z.pow_pos_nonneg 2 size); lia|apply Z.pow_le_mono_r; lia]. Qed.

Lemma not64_mask size : 0 ≤ size ≤ 64 → not64 (2 ^ size - 1) = 2 ^ 64 - 2 ^ size.
Proof. intros Hs. pose proof (pow_range size Hs). rewrite not64_sub; unfold isU64; lia. Qed.

Lemma high_testbit size i : 0 ≤ size ≤ 64 → 0 ≤ i → Z.testbit (2 ^ 64 - 2 ^ size) i = bool_decide (size ≤ i < 64).
Proof.
  intros Hs Hi. rewrite <- not64_mask by done. unfold not64. rewrite Z.lxor_spec.
  change (2 ^ 64 - 1) with (Z.ones 64). replace (2 ^ size - 1) with (Z.ones size) by (rewrite Z.ones_equiv; lia).
  rewrite !Z.testbit_ones_nonneg by lia. case_bool_decide as Hb;
    destruct (Z.ltb_spec i size), (Z.ltb_spec i 64); try done; lia.
Qed.

Lemma land_high v size : isU64 v → 0 ≤ size ≤ 64 → Z.land v (2 ^ 64 - 2 ^ size) = v - v `mod` 2 ^ size.
Proof.
  intros Hv Hs. replace (v - v `mod` 2 ^ size) with (Z.shiftl (Z.shiftr v size) size).
  2:{ rewrite Z.shiftl_mul_pow2, Z.shiftr_div_pow2 by lia. pose proof (Z.div_mod v (2 ^ size)). pose proof (pow_range size Hs). lia. }
  apply Z.bits_inj'. intros i Hi. rewrite Z.land_spec, high_testbit by lia.
  destruct (decide (i < size)) as [Hlt|Hge].
  - rewrite bool_decide_false by lia. rewrite Z.shiftl_spec_low by lia. by rewrite andb_false_r.
  - rewrite Z.shiftl_spec_high by lia. rewrite Z.shiftr_spec by lia. replace (i - size + size) with i by lia.
    destruct (decide (i < 64)).
    + rewrite bool_decide_true by lia. by rewrite andb_true_r.
    + rewrite (testbit_high v 64 i) by (unfold isU64 in Hv; lia). done.
Qed.

Lemma lor_high v size : isU64 v → 0 ≤ size ≤ 64 → Z.lor v (2 ^ 64 - 2 ^ size) = v `mod` 2 ^ size + (2 ^ 64 - 2 ^ size).
Proof.
  intros Hv Hs. assert (Hor : Z.lor v (2 ^ 64 - 2 ^ size) = Z.lor (v `mod` 2 ^ size) (2 ^ 64 - 2 ^ size)).
  { apply Z.bits_inj'. intros i Hi. rewrite !Z.lor_spec, high_testbit by lia. destruct (decide (i < size)) as [Hlt|Hge].
    - by rewrite Z.mod_pow2_bits_low by lia.
    - rewrite Z.mod_pow2_bits_high by lia. destruct (decide (i < 64)).
      + rewrite bool_decide_true by lia. by rewrite !orb_true_r.
      + by rewrite (testbit_high v 64 i) by (unfold isU64 in Hv; lia). }
  rewrite Hor. symmetry. rewrite Z.add_nocarry_lxor, Z.lxor_lor; try done; apply Z.bits_inj'; intros i Hi;
    rewrite Z.land_spec, high_testbit, Z.bits_0 by lia; (destruct (decide (i < size));
      [rewrite bool_decide_false by lia; by rewrite andb_false_r|by rewrite Z.mod_pow2_bits_high by lia]).
Qed.

(** The test of the sign bit of a window. *)
Lemma sign_bit v size : 1 ≤ size ≤ 64 → Z.land v (u64 (Z.shiftl 1 (size - 1))) = 0 ↔ v `mod` 2 ^ size < 2 ^ (size - 1).
Proof.
  intros Hs. rewrite Z.shiftl_mul_pow2, Z.mul_1_l by lia. pose proof (pow_range (size - 1)) as Hp.
  assert (H2 : 2 ^ size = 2 * 2 ^ (size - 1)) by (rewrite <- Z.pow_succ_r by lia; f_equal; lia).
  assert (Hle : 2 ^ (size - 1) < 2 ^ 64) by (apply Z.pow_lt_mono_r; lia). rewrite u64_id by (unfold isU64; lia).
  assert (Hbit : Z.land v (2 ^ (size - 1)) = 0 ↔ Z.testbit v (size - 1) = false).
  { split.
    - intros Hz. destruct (Z.testbit v (size - 1)) eqn:E; [|done]. exfalso.
      assert (Z.testbit (Z.land v (2 ^ (size - 1))) (size - 1) = true) as Ht by (rewrite Z.land_spec, E, Z.pow2_bits_true by lia; done).
      rewrite Hz, Z.bits_0 in Ht. done.
    - intros Hz. apply Z.bits_inj'. intros i Hi. rewrite Z.land_spec, Z.bits_0. destruct (decide (i = size - 1)) as [->|Hne].
      + by rewrite Hz.
      + by rewrite Z.pow2_bits_false, andb_false_r by lia. }
  rewrite Hbit. replace (Z.testbit v (size - 1)) with (Z.testbit (v `mod` 2 ^ size) (size - 1)) by (by rewrite Z.mod_pow2_bits_low by lia).
  pose proof (Z.mod_pos_bound v (2 ^ size) ltac:(lia)) as Hm. rewrite Z.testbit_eqb by lia. split.
  - intros Hb. apply Z.eqb_neq in Hb. destruct (decide (v `mod` 2 ^ size < 2 ^ (size - 1))) as [|Hge]; [done|]. exfalso. apply Hb.
    replace ((v `mod` 2 ^ size) `div` 2 ^ (size - 1)) with 1; [done|]. apply Z.div_unique with (v `mod` 2 ^ size - 2 ^ (size - 1)); lia.
  - intros Hlt. rewrite Z.div_small by lia. done.
Qed.

(** A number with ones from [size] on. *)
Lemma high_eq n size : isU64 n → 0 ≤ size ≤ 64 → n - n `mod` 2 ^ size = 2 ^ 64 - 2 ^ size ↔ 2 ^ 64 - 2 ^ size ≤ n.
Proof.
  intros Hn Hs. pose proof (pow_range size Hs). pose proof (Z.mod_pos_bound n (2 ^ size) ltac:(lia)). unfold isU64 in Hn.
  split; [lia|]. intros Hge. assert (Hq : n `div` 2 ^ size = 2 ^ (64 - size) - 1).
  { symmetry. apply Z.div_unique with (n - (2 ^ 64 - 2 ^ size)); [left; lia|].
    replace (2 ^ 64) with (2 ^ size * 2 ^ (64 - size)) at 1 by (rewrite <- Z.pow_add_r by lia; f_equal; lia). lia. }
  pose proof (Z.div_mod n (2 ^ size) ltac:(lia)) as Hd. rewrite Hq in Hd.
  assert (Hp : 2 ^ size * 2 ^ (64 - size) = 2 ^ 64) by (rewrite <- Z.pow_add_r by lia; f_equal; lia). lia.
Qed.

Lemma low_eq n size : isU64 n → 0 ≤ size ≤ 64 → n - n `mod` 2 ^ size = 0 ↔ n < 2 ^ size.
Proof.
  intros Hn Hs. pose proof (pow_range size Hs). pose proof (Z.mod_pos_bound n (2 ^ size) ltac:(lia)). unfold isU64 in Hn.
  split; [lia|]. intros Hlt. rewrite Z.mod_small; lia.
Qed.

(** The operand fits the field. *)
Lemma limit_check n bitsize (limit := maskOf bitsize) (negative := not64 (Z.shiftr limit 1)) : isU64 n → 1 ≤ bitsize ≤ 64 →
  bool_decide (limit < n) && bool_decide (Z.land negative n ≠ negative) = false ↔ n < 2 ^ bitsize ∨ 2 ^ 64 - 2 ^ (bitsize - 1) ≤ n.
Proof.
  intros Hn Hb. subst negative limit. rewrite maskOf_ones by done.
  assert (H2 : 2 ^ bitsize = 2 * 2 ^ (bitsize - 1)) by (rewrite <- Z.pow_succ_r by lia; f_equal; lia).
  replace (Z.shiftr (2 ^ bitsize - 1) 1) with (2 ^ (bitsize - 1) - 1).
  2:{ rewrite Z.shiftr_div_pow2 by lia. change (2 ^ 1) with 2. rewrite H2. apply Z.div_unique with 1; lia. }
  rewrite not64_mask by lia. rewrite Z.land_comm, land_high by (done || lia).
  pose proof (high_eq n (bitsize - 1) Hn ltac:(lia)) as He. rewrite andb_false_iff, !bool_decide_eq_false. split.
  - intros [Hlt|Hne]; [left; lia|right]. apply He, dec_stable. done.
  - intros [Hlt|Hge]; [left; lia|right]. intros Hne. by apply Hne, He.
Qed.

(** The operand fits the window. *)
Lemma window_check n size : isU64 n → 1 ≤ size ≤ 64 →
  bool_decide (Z.land n (not64 (maskOf size)) ≠ 0) && bool_decide (Z.lxor (Z.land n (not64 (maskOf size))) (not64 (maskOf size)) ≠ 0) = false
  ↔ extends n size.
Proof.
  intros Hn Hs. rewrite maskOf_ones, not64_mask, land_high by (done || lia).
  rewrite andb_false_iff, !bool_decide_eq_false, Z.lxor_eq_0_iff. unfold extends.
  rewrite <- (low_eq n size), <- (high_eq n size) by (done || lia).
  split; intros [Hz|Hz]; [left|right|left|right]; try (by apply dec_stable); tauto.
Qed.

Lemma leBytes_mod n v k : Z.of_nat n * 8 ≤ k → leBytes n (v `mod` 2 ^ k) = leBytes n v.
Proof.
  intros Hk. apply list_eq. intros i. destruct (decide (i < n)%nat) as [Hi|Hi].
  - rewrite !byteAt_leBytes by done. f_equal. unfold byteAt, u8. apply Z.bits_inj'. intros j Hj.
    destruct (decide (j < 8)).
    + rewrite !Z.mod_pow2_bits_low, !Z.shiftr_spec by lia. by rewrite Z.mod_pow2_bits_low by lia.
    + by rewrite !Z.mod_pow2_bits_high by lia.
  - by rewrite !lookup_ge_None_2 by (rewrite leBytes_length; lia).
Qed.

Lemma swapInt_inOrder v width : width ∈ [1; 2; 4; 8] → width ≠ 1 → swapInt v width = Ret (inOrder true width v).
Proof.
  intros Hw H1. rewrite !elem_of_cons, elem_of_nil in Hw. destruct Hw as [->|[->|[->|[->|[]]]]]; [done|..].
  - unfold swapInt, inOrder. rewrite bool_decide_false, bool_decide_true by done. rewrite swap16_rev.
    unfold revBytes, u16. change (Z.to_nat 2) with 2%nat. by rewrite leBytes_mod.
  - unfold swapInt, inOrder. rewrite !bool_decide_false, bool_decide_true by done. rewrite swap32_rev.
    unfold revBytes, u32. change (Z.to_nat 4) with 4%nat. by rewrite leBytes_mod.
  - unfold swapInt, inOrder. rewrite !bool_decide_false, bool_decide_true by done. by rewrite swap64_rev.
Qed.

(** ** Replacers are exactly the justified values *)

Lemma addAll_spec {A} (f : A → res (gset Z)) l (P : A → Z → Prop) :
  (∀ x, x ∈ l → ∃ s, f x = Ret s ∧ ∀ r, r ∈ s ↔ P x r) →
  ∃ s, addAll f l = Ret s ∧ ∀ r, r ∈ s ↔ ∃ x, x ∈ l ∧ P x r.
Proof.
  induction l as [|x l IH]; intros Hf.
  - exists ∅. split; [done|]. intros r. rewrite elem_of_empty. split; [done|]. by intros (x & ?%elem_of_nil & _).
  - destruct (Hf x) as (s1 & H1 & Hs1); [by left|]. destruct IH as (s2 & H2 & Hs2); [intros; apply Hf; by right|].
    exists (s1 ∪ s2). cbn [addAll]. rewrite H1. cbn [mbind res_bind]. rewrite H2. split; [done|].
    intros r. rewrite elem_of_union, Hs1, Hs2. split.
    + intros [HP|(y & Hy & HP)]; [exists x|exists y]; (split; [|done]); [by left|by right].
    + intros (y & [->|Hy]%elem_of_cons & HP); [by left|right; by exists y].
Qed.

Section Replacers.

Context (v : Z) (compMap : CompMap) (bitsize : Z) (image : bool).
Context (Hbits : 1 ≤ bitsize ≤ 64) (Hv : 0 ≤ v < 2 ^ bitsize).

Lemma v_u64 : isU64 v.
Proof using Hbits Hv. pose proof (pow_range bitsize). unfold isU64. lia. Qed.

Lemma min_size width : (if bool_decide (bitsize < width * 8) then bitsize else width * 8) = Z.min (8 * width) bitsize.
Proof. case_bool_decide; lia. Qed.

(** The windows that the loop visits. *)
Definition windowShape (width size : Z) : Prop :=
  width ∈ [1; 2; 4; 8] ∧ 1 ≤ size ≤ 64 ∧ (size = 8 * width ∨ size = bitsize).

Lemma window_shape width size op : window v bitsize width size op → windowShape width size.
Proof using Hbits Hv.
  intros Hw. destruct Hw as [width Hw|width Hw size' _]; rewrite !elem_of_cons, elem_of_nil in Hw;
    unfold windowShape; rewrite !elem_of_cons; [|subst size']; (split; [tauto|]); (split; [lia|]); lia.
Qed.

Lemma mutantOf_window iwidth width size op : iwidth ∈ iwidths → mutantOf v bitsize iwidth = Some (width, size, op) →
  window v bitsize width size op.
Proof using Hbits Hv.
  intros Hi Hm. unfold mutantOf in Hm. case_bool_decide as Hpos.
  - injection Hm as <- <- <-. assert (Hw : iwidth ∈ [1; 2; 4; 8]).
    { unfold iwidths in Hi. rewrite !elem_of_cons, elem_of_nil in Hi. rewrite !elem_of_cons. lia. }
    assert (1 ≤ iwidth ≤ 8) by (rewrite !elem_of_cons, elem_of_nil in Hw; lia).
    rewrite Z.mul_comm, maskOf_ones, land_ones_mod by lia. by constructor.
  - assert (Hw : - iwidth ∈ [1; 2; 4]).
    { unfold iwidths in Hi. rewrite !elem_of_cons, elem_of_nil in Hi. rewrite !elem_of_cons. lia. }
    assert (1 ≤ - iwidth ≤ 4) by (rewrite !elem_of_cons, elem_of_nil in Hw; lia).
    rewrite min_size in Hm. rewrite maskOf_ones, not64_mask, lor_high in Hm by (apply v_u64 || lia).
    destruct (bool_decide (Z.land v (u64 (Z.shiftl 1 (Z.min (8 * - iwidth) bitsize - 1))) = 0)) eqn:Hs; [done|].
    apply bool_decide_eq_false in Hs. rewrite sign_bit in Hs by lia. injection Hm as <- <- <-. constructor; [done|lia].
Qed.

Lemma window_mutantOf width size op : window v bitsize width size op →
  ∃ iwidth, iwidth ∈ iwidths ∧ mutantOf v bitsize iwidth = Some (width, size, op).
Proof using Hbits Hv.
  intros [width' Hw|width' Hw size' Hs]; rewrite !elem_of_cons, elem_of_nil in Hw.
  - exists width'. split; [unfold iwidths; rewrite !elem_of_cons; lia|]. unfold mutantOf.
    rewrite bool_decide_true by lia. rewrite maskOf_ones, land_ones_mod by lia. by rewrite Z.mul_comm.
  - exists (- width'). split; [unfold iwidths; rewrite !elem_of_cons; lia|]. unfold mutantOf.
    rewrite bool_decide_false, Z.opp_involutive by lia.
    rewrite min_size. fold size'. assert (1 ≤ size' ≤ 64) by lia. rewrite bool_decide_false by (rewrite sign_bit by lia; lia).
    by rewrite maskOf_ones, not64_mask, lor_high by (apply v_u64 || lia).
Qed.

Lemma skipImage_spec width size op : windowShape width size → isU64 op →
  skipImage image width size op = false ↔ (image = true → 4 ≤ width ∧ op ≠ 0 ∧ op `mod` 2 ^ size ≠ 2 ^ size - 1).
Proof using Hbits Hv.
  intros (_ & Hs & _) Hop. unfold skipImage. destruct image; [|by split].
  rewrite maskOf_ones, not64_mask, lor_high by (done || lia). cbn [andb].
  rewrite !orb_false_iff, !bool_decide_eq_false. pose proof (pow_range size). split; [intros (H1 & H2 & H3) _|intros Hx; specialize (Hx eq_refl)]; lia.
Qed.

Lemma window_u64 width size op : window v bitsize width size op → isU64 op.
Proof using Hbits Hv.
  intros Hw. pose proof (window_shape _ _ _ Hw) as (_ & Hs & _). pose proof (pow_range size ltac:(lia)).
  destruct Hw as [width' _|width' _ size' _]; unfold isU64;
    [pose proof (Z.mod_pos_bound v (2 ^ (8 * width')))|pose proof (Z.mod_pos_bound v (2 ^ size'))]; lia.
Qed.

(** What the operand [n] gives in a window. *)
Definition replaces (width size : Z) (bigendian : bool) (n r : Z) : Prop :=
  (n < 2 ^ bitsize ∨ 2 ^ 64 - 2 ^ (bitsize - 1) ≤ n) ∧ extends n size ∧
  let new := inOrder bigendian width (n `mod` 2 ^ size) in
  (image = false → new ∉ specialInts) ∧
  v - v `mod` 2 ^ size + new ≠ v ∧ r = (v - v `mod` 2 ^ size + new) `mod` 2 ^ bitsize.

(** The new window does not overlap the rest. *)
Lemma replacer_sum width size bigendian n (new := inOrder bigendian width (n `mod` 2 ^ size)) : windowShape width size →
  Z.lor (Z.land v (not64 (maskOf size))) new = v - v `mod` 2 ^ size + new.
Proof using Hbits Hv.
  intros (Hw & Hs & Hsz). rewrite maskOf_ones, not64_mask, land_high by (apply v_u64 || lia).
  pose proof (pow_range size ltac:(lia)). pose proof (Z.mod_pos_bound n (2 ^ size) ltac:(lia)) as Hm.
  destruct Hsz as [Hsz|Hsz].
  - assert (Hnew : 0 ≤ new < 2 ^ size).
    { subst new. unfold inOrder. destruct bigendian; [|done]. pose proof (revBytes_range (Z.to_nat width) (n `mod` 2 ^ size)) as Hr.
      rewrite Z2Nat.id in Hr by (rewrite !elem_of_cons, elem_of_nil in Hw; lia).
      change 256 with (2 ^ 8) in Hr. rewrite <- Z.pow_mul_r in Hr by (rewrite !elem_of_cons, elem_of_nil in Hw; lia).
      rewrite <- Hsz in Hr; exact Hr. }
    rewrite Z.lor_comm. pose proof (Z.div_mod v (2 ^ size) ltac:(lia)).
    replace (v - v `mod` 2 ^ size) with (Z.shiftl (v `div` 2 ^ size) size) by (rewrite Z.shiftl_mul_pow2 by lia; lia).
    rewrite lor_shiftl_add by (done || lia). rewrite Z.shiftl_mul_pow2 by lia. lia.
  - rewrite (Z.mod_small v) by (by rewrite Hsz). by rewrite Z.sub_diag, Z.lor_0_l.
Qed.

Lemma replacerOf_spec width size bigendian n : windowShape width size → isU64 n → (bigendian = true → width ≠ 1) →
  ∃ o, replacerOf v bitsize image width size bigendian n = Ret o ∧ ∀ r, o = Some r ↔ replaces width size bigendian n r.
Proof using Hbits Hv.
  intros Hsh Hn Hbe. pose proof Hsh as (Hw & Hs & _). unfold replacerOf, replaces.
  pose proof (limit_check n bitsize Hn Hbits) as Hlim. cbv zeta in Hlim |- *.
  destruct (bool_decide (maskOf bitsize < n) && _) eqn:E1.
  { exists None. split; [done|]. intros r. split; [done|]. intros (Hl & _). apply Hlim in Hl. congruence. }
  pose proof (window_check n size Hn Hs) as Hwin. destruct (bool_decide (Z.land n (not64 (maskOf size)) ≠ 0) && _) eqn:E2.
  { exists None. split; [done|]. intros r. split; [done|]. intros (_ & He & _). apply Hwin in He. congruence. }
  rewrite (maskOf_ones size Hs), land_ones_mod by lia. rewrite <- (maskOf_ones size Hs).
  assert (Hswap : (if bigendian then swapInt (n `mod` 2 ^ size) width else Ret (n `mod` 2 ^ size)) =
    Ret (inOrder bigendian width (n `mod` 2 ^ size))).
  { destruct bigendian; [|done]. apply swapInt_inOrder; [done|by apply Hbe]. }
  rewrite Hswap. cbn [mbind res_bind]. rewrite replacer_sum by done.
  set (new := inOrder bigendian width (n `mod` 2 ^ size)).
  destruct (negb image && bool_decide (new ∈ specialInts)) eqn:E3.
  { exists None. split; [done|]. intros r. split; [done|]. intros (_ & _ & Hsp & _). destruct image; [done|].
    apply bool_decide_eq_true in E3. by destruct (Hsp eq_refl E3). }
  destruct (bool_decide (v - v `mod` 2 ^ size + new = v)) eqn:E4.
  { exists None. split; [done|]. intros r. split; [done|]. intros (_ & _ & _ & Hne & _). by apply bool_decide_eq_true in E4. }
  rewrite truncateToBitSize_mod by done. eexists. split; [done|]. intros r. apply bool_decide_eq_false in E4. split.
  - intros [= <-]. split; [by apply Hlim|]. split; [by apply Hwin|]. split; [|done]. intros Hi. rewrite Hi in E3.
    by apply bool_decide_eq_false in E3.
  - by intros (_ & _ & _ & _ & ->).
Qed.

Lemma addReplacer_spec width size bigendian n : windowShape width size → isU64 n → (bigendian = true → width ≠ 1) →
  ∃ s, addReplacer v bitsize image width size bigendian n = Ret s ∧ ∀ r, r ∈ s ↔ replaces width size bigendian n r.
Proof using Hbits Hv.
  intros Hsh Hn Hbe. destruct (replacerOf_spec width size bigendian n Hsh Hn Hbe) as (o & Ho & Hr).
  unfold addReplacer. rewrite Ho. eexists. split; [done|]. intros r. rewrite <- Hr. destruct o; set_solver.
Qed.

Context (Hcomps : ∀ k n, n ∈ compsOf compMap k → isU64 n).

Lemma addEndian_spec width size op bigendian : windowShape width size →
  ∃ s, addEndian v compMap bitsize image width size op bigendian = Ret s ∧
    ∀ r, r ∈ s ↔ (bigendian = true → width ≠ 1) ∧
      ∃ n, n ∈ compsOf compMap (inOrder bigendian width op) ∧ replaces width size bigendian n r.
Proof using Hbits Hv Hcomps.
  intros Hsh. unfold addEndian. destruct (bigendian && bool_decide (width = 1)) eqn:E.
  { exists ∅. split; [done|]. intros r. apply andb_true_iff in E as [-> E]. apply bool_decide_eq_true in E. set_solver. }
  assert (Hbe : bigendian = true → width ≠ 1).
  { intros ->. cbn [andb] in E. by apply bool_decide_eq_false in E. }
  assert (Hswap : (if bigendian then swapInt op width else Ret op) = Ret (inOrder bigendian width op)).
  { destruct bigendian; [|done]. apply swapInt_inOrder; [apply Hsh|by apply Hbe]. }
  rewrite Hswap. cbn [mbind res_bind].
  destruct (addAll_spec (addReplacer v bitsize image width size bigendian) (compsOf compMap (inOrder bigendian width op))
    (replaces width size bigendian)) as (s & Hs & Hr).
  { intros n Hn. apply addReplacer_spec; [done|by eapply Hcomps|done]. }
  exists s. split; [done|]. intros r. rewrite Hr. split; [intros Hx; by split|by intros [_ Hx]].
Qed.

(** What a window of the value gives. *)
Definition widthGives (width size op r : Z) : Prop :=
  (image = true → 4 ≤ width ∧ op ≠ 0 ∧ op `mod` 2 ^ size ≠ 2 ^ size - 1) ∧
  ∃ bigendian : bool, (bigendian = true → width ≠ 1) ∧
    ∃ n, n ∈ compsOf compMap (inOrder bigendian width op) ∧ replaces width size bigendian n r.

Lemma addWidth_spec iwidth : iwidth ∈ iwidths →
  ∃ s, addWidth v compMap bitsize image iwidth = Ret s ∧
    ∀ r, r ∈ s ↔ ∃ width size op, mutantOf v bitsize iwidth = Some (width, size, op) ∧ widthGives width size op r.
Proof using Hbits Hv Hcomps.
  intros Hi. unfold addWidth. destruct (mutantOf v bitsize iwidth) as [[[width size] op]|] eqn:Em.
  2:{ exists ∅. split; [done|]. intros r. split; [set_solver|]. by intros (? & ? & ? & ? & _). }
  pose proof (mutantOf_window iwidth width size op Hi Em) as Hw. pose proof (window_shape _ _ _ Hw) as Hsh.
  pose proof (skipImage_spec width size op Hsh (window_u64 _ _ _ Hw)) as Hskip.
  destruct (skipImage image width size op).
  { exists ∅. split; [done|]. intros r. split; [set_solver|]. intros (? & ? & ? & [= <- <- <-] & Hsk & _). by apply Hskip in Hsk. }
  destruct (addAll_spec (addEndian v compMap bitsize image width size op) [false; true]
    (λ bigendian r, (bigendian = true → width ≠ 1) ∧
      ∃ n, n ∈ compsOf compMap (inOrder bigendian width op) ∧ replaces width size bigendian n r)) as (s & Hs & Hr).
  { intros bigendian _. by apply addEndian_spec. }
  exists s. split; [done|]. intros r. rewrite Hr. split.
  - intros (b & _ & Hb). exists width, size, op. split; [done|]. split; [by apply Hskip|]. by exists b.
  - intros (? & ? & ? & [= <- <- <-] & _ & b & Hb). exists b. split; [|done]. rewrite !elem_of_cons. destruct b; tauto.
Qed.

Lemma allWidths_spec : ∃ s, addAll (addWidth v compMap bitsize image) iwidths = Ret s ∧
  ∀ r, r ∈ s ↔ justified v compMap bitsize image r.
Proof using Hbits Hv Hcomps.
  destruct (addAll_spec (addWidth v compMap bitsize image) iwidths (λ iwidth r,
    ∃ width size op, mutantOf v bitsize iwidth = Some (width, size, op) ∧ widthGives width size op r)) as (s & Hs & Hr).
  { apply addWidth_spec. }
  exists s. split; [done|]. intros r. rewrite Hr. unfold justified, widthGives, replaces. split.
  - intros (iw & Hi & width & size & op & Hm & Him & b & Hb & n & Hn & Hl & He & Hrest).
    exists width, size, op, b, n. split; [by eapply mutantOf_window|]. done.
  - intros (width & size & op & b & n & Hw & Hb & Him & Hn & Hl & He & Hrest).
    destruct (window_mutantOf width size op Hw) as (iw & Hi & Hm). exists iw. split; [done|].
    exists width, size, op. split; [done|]. split; [done|]. exists b. split; [done|]. exists n. done.
Qed.

End Replacers.

Lemma sorted_strict (s : gset Z) : StronglySorted Z.lt (merge_sort Z.le (elements s)).
Proof.
  assert (Hs : StronglySorted Z.le (merge_sort Z.le (elements s))) by (apply (StronglySorted_merge_sort Z.le)).
  assert (Hn : NoDup (merge_sort Z.le (elements s))) by (rewrite merge_sort_Permutation; apply NoDup_elements).
  induction Hs as [|x l _ IH Hx]; [constructor|]. apply NoDup_cons in Hn as [Hnx Hn]. constructor; [by apply IH|].
  apply Forall_forall. intros y Hy. rewrite Forall_forall in Hx. specialize (Hx y Hy). assert (x ≠ y) by (by intros ->). lia.
Qed.

(** The operands of comparisons are 64-bit integers. *)
Definition compsOK (compMap : CompMap) : Prop := ∀ k n, n ∈ compsOf compMap k → isU64 n.

Lemma shrinkExpand_spec (v bitsize : Z) (compMap : CompMap) (image : bool) :
  1 ≤ bitsize ≤ 64 → compsOK compMap →
  ∃ rs, shrinkExpand v compMap bitsize image = Ret rs ∧ StronglySorted Z.lt rs ∧
    ∀ r, r ∈ rs ↔ justified (v `mod` 2 ^ bitsize) compMap bitsize image r.
Proof.
  intros Hb Hc. unfold shrinkExpand. rewrite truncateToBitSize_mod by done. cbn [mbind res_bind].
  destruct (allWidths_spec (v `mod` 2 ^ bitsize) compMap bitsize image) as (s & Hs & Hr); [done| |done|].
  { apply Z.mod_pos_bound. pose proof (pow_range bitsize). lia. }
  rewrite Hs. cbn [mbind res_bind]. eexists. split; [done|]. split; [apply sorted_strict|].
  intros r. by rewrite merge_sort_Permutation, elem_of_elements, Hr.
Qed.

(** C23: [shrinkExpand] returns, in increasing order and without duplicates, exactly
    the values that a comparison justifies: a window of the low bits of the value
    (1, 2, 4 or 8 bytes, zero or sign extended, in either byte order) was compared
    with an operand that fits the window and the field and is not a special
    integer, and the replacer is the value with that operand in the window, cut to
    the size of the field. It does not panic for a size of 1 to 64 bits. *)
Theorem shrinkExpand_justified (v bitsize : Z) (compMap : CompMap) (image : bool) :
  1 ≤ bitsize ≤ 64 → compsOK compMap →
  ∃ rs, shrinkExpand v compMap bitsize image = Ret rs ∧ StronglySorted Z.lt rs ∧
    ∀ r, r ∈ rs ↔ justified (v `mod` 2 ^ bitsize) compMap bitsize image r.
Proof. apply shrinkExpand_spec. Qed.

(** The example of the source: 0x34 was compared with 0xab. *)
Definition exampleComps : CompMap := AddComp ∅ 0x34 0xab.

Lemma shrinkExpand_justified_witness :
  ∃ rs, shrinkExpand 0x1234 exampleComps 16 false = Ret rs ∧ StronglySorted Z.lt rs ∧ rs = [0x12ab].
Proof.
  destruct (shrinkExpand_justified 0x1234 16 exampleComps false) as (rs & Hrs & Hs & _).
  - lia.
  - intros k n. unfold compsOf, exampleComps, AddComp, CompMap. rewrite elem_of_elements.
    destruct (decide (k = 0x34)) as [->|Hne].
    + rewrite lookup_insert_eq. intros Hn. assert (n = 0xab) as -> by set_solver. unfold isU64. lia.
    + rewrite lookup_insert_ne by done. rewrite lookup_empty. set_solver.
  - exists rs. split; [exact Hrs|]. split; [exact Hs|]. vm_compute in Hrs. injection Hrs as <-. reflexivity.
Defined.

(** Whether the replacer differs from the value is checked before the
    replacer is cut to the size of the field, so a hint can be the value itself:
    in a field of 12 bits, 0x80b, seen as 0x0b08 in the other byte order and
    compared with 0x0b18, is replaced by itself. *)
Theorem shrinkExpand_replaces_by_itself : shrinkExpand 0x80b (AddComp ∅ 0x0b08 0x0b18) 12 false = Ret [0x80b].
Proof. vm_compute. reflexivity. Qed.
