(* ===== verification/HintArgs.v ===== *)
(** * Mutation of programs with hints

    [MutateWithHints] of [prog/hints.go]: every integer and every window of every
    buffer of a call is replaced in place by the values the comparisons give, the
    program is handed on, and the argument is restored. *)

From stdpp Require Import base numbers strings gmap list.
From S2P Require Import Prelude Word Rand Hints ProgTypes ProgArgs ProgTree ProgValidate ProgDefault ExecSafe ProgLinks ProgClone ProgTrace ProgLife ProgInv.

Local Open Scope Z_scope.

(** ** Arguments *)

(** [copy(data[i:], bytes)]. *)
Definition copyAt (i : nat) (bytes data : list Z) : list Z :=
  let k := Nat.min (length bytes) (length data - i) in
  take i data ++ take k bytes ++ drop (i + k) data.

(** The eight bytes of [data] from [i] on, padded with zeroes. *)
Definition windowAt (i : nat) (data : list Z) : list Z := copyAt 0 (drop i data) (replicate 8 0).

(** A check of an argument: the values that it has when [exec] is called, and the
    value it has at the end. *)
Local Notation hintRun := (list Arg * Arg)%type.

Definition checkConstArg (tbl : list Typ) (compMap : CompMap) (a : ArgCommon) (val : Z) : res hintRun :=
  let original := val in
  t ← typeOf tbl (a_ref a);
  bits ← TypeBitSize t;
  rs ← shrinkExpand original compMap bits false;
  Ret ((λ replacer, ConstArg a replacer) <$> (rs : list Z), ConstArg a original).

(** The loop over the replacers at [i]: the contents at each call, and at the end. *)
Fixpoint replaceWindows (i : nat) (rs : list Z) (data : list Z) : list (list Z) * list Z :=
  match rs with
  | [] => ([], data)
  | replacer :: rs =>
      let data := copyAt i (leBytes 8 replacer) data in
      let r := replaceWindows i rs data in
      (data :: r.1, r.2)
  end.

Fixpoint dataLoop (compMap : CompMap) (image : bool) (idxs : list nat) (data : list Z) : res (list (list Z) * list Z) :=
  match idxs with
  | [] => Ret ([], data)
  | i :: idxs =>
      let original := windowAt i data in
      rs ← shrinkExpand (leVal original) compMap 64 image;
      let r := replaceWindows i rs data in
      let data := copyAt i original r.2 in
      r' ← dataLoop compMap image idxs data;
      Ret (r.1 ++ r'.1, r'.2)
  end.

Definition checkDataArg (compMap : CompMap) (a : ArgCommon) (data : list Z) (size : Z) : res hintRun :=
  data ← dataOf (a_dir a) data;
  let n := Z.to_nat (Z.min (Z.of_nat (length data)) maxDataLength) in
  r ← dataLoop compMap false (seq 0 n) data;
  Ret ((λ d, DataArg a d size) <$> (r.1 : list (list Z)), DataArg a r.2 size).

(** The indices [0, 4, ...] below [n]. *)
Definition everyFourth (n : nat) : list nat := (λ k, 4 * k)%nat <$> seq 0 ((n + 3) / 4).

Section Image.

(** [Compress] and [MustDecompress] of [pkg/image]. *)
Context (Compress : list Z → list Z) (MustDecompress : list Z → res (list Z)).

Definition checkCompressedArg (compMap : CompMap) (a : ArgCommon) (data0 : list Z) (size : Z) : res hintRun :=
  data0 ← dataOf (a_dir a) data0;
  data ← MustDecompress data0;
  r ← dataLoop compMap true (everyFourth (length data)) data;
  Ret ((λ d, DataArg a (Compress d) size) <$> (r.1 : list (list Z)), DataArg a data0 size).

(** Types whose values are not replaced. *)
Definition notHinted (t : Typ) : bool :=
  match t with
  | ProcType _ _ _ | CsumType _ _ _ _ => true
  | ConstType _ _ _ => IsPad t
  | BufferType _ BufferFilename _ _ _ _ _ _ => true
  | BufferType _ (BufferString | BufferGlob) _ _ _ _ values _ => bool_decide (values ≠ [])
  | _ => false
  end.

Definition generateHints (tbl : list Typ) (h : Heap) (compMap : CompMap) (arg : Arg) : res hintRun :=
  t ← argType tbl h arg;
  d ← argDir h arg;
  if bool_decide (d = DirOut) || notHinted t then Ret ([], arg)
  else
    match arg with
    | ConstArg a val => checkConstArg tbl compMap a val
    | DataArg a data size =>
        match t with
        | BufferType _ BufferCompressed _ _ _ _ _ _ => checkCompressedArg compMap a data size
        | BufferType _ _ _ _ _ _ _ _ => checkDataArg compMap a data size
        | _ => Panic
        end
    | _ => Ret ([], arg)
    end.

(** ** Programs *)

(** The node [i] of a tree becomes [new]. *)
Fixpoint replaceNode (i : id) (new arg : Arg) : Arg :=
  if bool_decide (argId arg = i) then new
  else
    match arg with
    | PointerArg a address vmaSize (Some x) => PointerArg a address vmaSize (Some (replaceNode i new x))
    | GroupArg a inner => GroupArg a (replaceNode i new <$> inner)
    | UnionArg a opt index => UnionArg a (replaceNode i new opt) index
    | _ => arg
    end.

Definition replaceInCall (i : id) (new : Arg) (c : Call) : Call :=
  mkCall (c_Meta c) (replaceNode i new <$> c_Args c) (c_Ret c) (c_Props c).

(** [target.sanitize(c, false) != nil], of a target that rejects calls but does
    not rewrite them. *)
Context (rejected : Call → bool).

(** The arguments of the walk are only written by their own check, so each has
    its initial value when it is met; a check that calls [exec] writes the final
    value of the argument. *)
Fixpoint hintVisits (tbl : list Typ) (h : Heap) (compMap : CompMap) (vs : list visit) (c : Call) : res (list Call * Call) :=
  match vs with
  | [] => Ret ([], c)
  | v :: vs =>
      r ← generateHints tbl h compMap (v_arg v);
      let i := argId (v_arg v) in
      let mutants := filter (λ c1, rejected c1 = false) ((λ new, replaceInCall i new c) <$> (r.1 : list Arg)) in
      r' ← hintVisits tbl h compMap vs (match r.1 with [] => c | _ => replaceInCall i r.2 c end);
      Ret (mutants ++ r'.1, r'.2)
  end.

(** The heap, which the walk reads. *)
Definition h_ask : H Heap := λ h, Ret (h, h).

(** The programs that are handed to [exec], in order. *)
Definition MutateWithHints (tbl : list Typ) (calls : list Call) (callIndex : nat) (compMap : CompMap) : H (list (list Call)) :=
  calls ← Clone calls;
  c ← h_lift (of_option (calls !! callIndex));
  h ← h_ask;
  vs ← h_lift (ForeachArg tbl h c);
  r ← h_lift (hintVisits tbl h compMap vs c);
  mret ((λ c1, <[callIndex := c1]> calls) <$> (r.1 : list Call)).

End Image.

(** ** Windows of buffers *)

Lemma copyAt_length i bytes data : length (copyAt i bytes data) = length data.
Proof. unfold copyAt. cbv zeta. rewrite !length_app, !length_take, length_drop. lia. Qed.

Lemma copyAt_lookup i bytes data j : copyAt i bytes data !! j =
  if bool_decide (i ≤ j < length data ∧ j < i + length bytes)%nat then bytes !! (j - i)%nat else data !! j.
Proof.
  unfold copyAt. cbv zeta. set (k := Nat.min (length bytes) (length data - i)).
  destruct (decide (j < i)%nat) as [Hlt|Hge].
  - rewrite bool_decide_false by lia. destruct (decide (j < length data)%nat).
    + rewrite lookup_app_l by (rewrite length_take; lia). by rewrite lookup_take_lt.
    + rewrite (lookup_ge_None_2 data) by lia. apply lookup_ge_None_2. rewrite !length_app, !length_take, length_drop. lia.
  - destruct (decide (i ≤ length data)%nat) as [Hi|Hi].
    + rewrite lookup_app_r by (rewrite length_take; lia). rewrite length_take. replace (i `min` length data)%nat with i by lia.
      case_bool_decide as Hb.
      * rewrite lookup_app_l by (rewrite length_take; lia). rewrite lookup_take_lt by lia. done.
      * rewrite lookup_app_r by (rewrite length_take; lia). rewrite length_take, lookup_drop.
        destruct (decide (j < i + k)%nat); [lia|]. f_equal. lia.
    + rewrite bool_decide_false by lia. rewrite (lookup_ge_None_2 data) by lia. apply lookup_ge_None_2.
      rewrite !length_app, !length_take, length_drop. lia.
Qed.

(** A later write at a place covers an earlier one. *)
Lemma copyAt_copyAt i bytes bytes' data : length bytes = length bytes' →
  copyAt i bytes (copyAt i bytes' data) = copyAt i bytes data.
Proof.
  intros Hl. apply list_eq. intros j. rewrite !copyAt_lookup, copyAt_length. case_bool_decide; [done|].
  by rewrite bool_decide_false by lia.
Qed.

Lemma windowAt_length i data : length (windowAt i data) = 8%nat.
Proof. unfold windowAt. by rewrite copyAt_length, length_replicate. Qed.

(** The window put back. *)
Lemma copyAt_window i data : copyAt i (windowAt i data) data = data.
Proof.
  apply list_eq. intros j. rewrite copyAt_lookup, windowAt_length. case_bool_decide as Hb; [|done].
  unfold windowAt. rewrite copyAt_lookup, length_drop, length_replicate. rewrite bool_decide_true by lia.
  rewrite lookup_drop. f_equal. lia.
Qed.

(** The loop over the replacers of one place: each write starts from the data. *)
Lemma replaceWindows_spec i rs data base : copyAt i (windowAt i base) data = base → length data = length base →
  (replaceWindows i rs data).1 = (λ r, copyAt i (leBytes 8 r) base) <$> rs ∧
  copyAt i (windowAt i base) (replaceWindows i rs data).2 = base ∧ length (replaceWindows i rs data).2 = length base.
Proof.
  revert data. induction rs as [|r rs IH]; intros data Hd Hl; [done|]. cbn [replaceWindows fst snd fmap list_fmap].
  assert (Hr : copyAt i (leBytes 8 r) data = copyAt i (leBytes 8 r) base).
  { rewrite <- Hd. by rewrite copyAt_copyAt by (rewrite leBytes_length, windowAt_length; done). }
  destruct (IH (copyAt i (leBytes 8 r) data)) as (H1 & H2 & H3).
  - rewrite copyAt_copyAt by (rewrite leBytes_length, windowAt_length; done). done.
  - by rewrite copyAt_length.
  - split; [by rewrite H1, Hr|done].
Qed.

(** The replacement of a window of [data] that a comparison justifies. *)
Definition windowHint (compMap : CompMap) (image : bool) (data : list Z) (i : nat) (d : list Z) : Prop :=
  ∃ r, justified (leVal (windowAt i data) `mod` 2 ^ 64) compMap 64 image r ∧ d = copyAt i (leBytes 8 r) data.

Lemma dataLoop_spec compMap image idxs data : compsOK compMap →
  ∃ ds, dataLoop compMap image idxs data = Ret (ds, data) ∧
    ∀ d, d ∈ ds ↔ ∃ i, i ∈ idxs ∧ windowHint compMap image data i d.
Proof.
  intros Hc. induction idxs as [|i idxs IH]; [exists []; split; [done|]; set_solver|].
  destruct (shrinkExpand_spec (leVal (windowAt i data)) 64 compMap image) as (rs & Hrs & _ & Hj); [lia|done|].
  destruct (replaceWindows_spec i rs data data (copyAt_window i data) eq_refl) as (H1 & H2 & _).
  destruct IH as (ds & Hds & Hd). cbn [dataLoop]. rewrite Hrs. cbn [mbind res_bind]. rewrite H2, Hds. cbn [mbind res_bind fst snd].
  eexists. split; [done|]. intros d. rewrite elem_of_app, H1, Hd, list_elem_of_fmap. split.
  - intros [(r & -> & Hr)|(i' & Hi & Hw)].
    + exists i. split; [by left|]. exists r. split; [by apply Hj|done].
    + exists i'. split; [by right|done].
  - intros (i' & [->|Hi]%elem_of_cons & Hw); [left|right; eauto]. destruct Hw as (r & Hr & ->). exists r. split; [done|by apply Hj].
Qed.

(** ** The nodes of a tree *)

Fixpoint subArgs (arg : Arg) : list Arg :=
  arg ::
  match arg with
  | PointerArg _ _ _ (Some x) => subArgs x
  | GroupArg _ inner => concat (subArgs <$> inner)
  | UnionArg _ opt _ => subArgs opt
  | _ => []
  end.

Lemma subArgs_children arg : subArgs arg = arg :: concat (subArgs <$> childrenOf arg).
Proof. destruct arg as [| ? ? ? [?|] | | | |]; try done; cbn; by rewrite app_nil_r. Qed.

Lemma subArgs_nodes arg : argId <$> subArgs arg = nodesOf arg.
Proof.
  induction arg as [p|arg Hn IH] using tree_ind; [done|]. rewrite subArgs_children, nodesOf_children. cbn [fmap list_fmap]. f_equal.
  induction IH as [|x l Hx _ IHl]; [done|]. cbn [fmap list_fmap concat]. rewrite fmap_app. f_equal; [exact Hx|exact IHl].
Qed.

Lemma subArgs_child arg x y : x ∈ childrenOf arg → y ∈ subArgs x → y ∈ subArgs arg.
Proof. intros Hx Hy. rewrite subArgs_children. right. apply elem_concat_fmap. eauto. Qed.

(** The walk meets every node, in this order. *)
Lemma foreachArgImpl_args tbl h arg base off vs : foreachArgImpl tbl h base off arg = Ret vs → v_arg <$> vs = subArgs arg.
Proof.
  revert base off vs.
  induction arg as [| |a address vmaSize arg IH| |a inner IH|a opt index IH|p] using Arg_tree_ind; intros base off vs Hv;
    cbn [foreachArgImpl] in Hv; try (by injection Hv as <-).
  - destruct (foreachArgImpl _ _ _ _ arg) as [vs'| |] eqn:E; try done. injection Hv as <-. cbn. by rewrite (IH _ _ _ E).
  - destruct (typeOf tbl (a_ref a)) as [t| |]; try done. cbn [mbind res_bind] in Hv.
    match type of Hv with ?F 0%nat off inner ≫= _ = _ =>
      assert (Hloop : ∀ off' i vs, F i off' inner = Ret vs → v_arg <$> vs = concat (subArgs <$> inner));
      [|destruct (F 0%nat off inner) as [vs'| |] eqn:E; try done; injection Hv as <-; cbn; by rewrite (Hloop _ _ _ E)] end.
    clear Hv vs. induction IH as [|arg l Hx _ IHl]; intros off' i vs Hv; [by injection Hv as <-|].
    destruct (foreachArgImpl tbl h _ _ arg) as [vs1| |] eqn:E1; try done. cbn [mbind res_bind] in Hv.
    destruct (argSize tbl h arg) as [size| |]; try done. cbn [mbind res_bind] in Hv.
    match type of Hv with ?r ≫= _ = _ => destruct r as [vs2| |] eqn:E2; try done end. injection Hv as <-.
    rewrite fmap_app. cbn [fmap list_fmap concat]. f_equal; [by apply (Hx _ _ _ E1)|by apply (IHl _ _ _ E2)].
  - destruct (foreachArgImpl _ _ _ _ opt) as [vs'| |] eqn:E; try done. injection Hv as <-. cbn. by rewrite (IH _ _ _ E).
Qed.

Definition callArgs (c : Call) : list Arg := (ResultArg <$> retList c) ++ concat (subArgs <$> c_Args c).

Lemma mapM_res_concat {A B C} (f : A → res (list B)) (g : B → C) (k : A → list C) l vss :
  (∀ x vs, x ∈ l → f x = Ret vs → g <$> vs = k x) → mapM f l = Ret vss → g <$> concat vss = concat (k <$> l).
Proof.
  revert vss. induction l as [|x l IH]; intros vss Hf E; cbn [mapM] in E; [by injection E as <-|].
  destruct (f x) as [vs| |] eqn:E1; try done. cbn [mbind res_bind] in E. destruct (mapM f l) as [vss'| |] eqn:E2; try done.
  injection E as <-. cbn [fmap list_fmap concat]. rewrite fmap_app. f_equal; [apply Hf; [by left|done]|].
  apply IH; [|done]. intros y vs' Hy. apply Hf. by right.
Qed.

Lemma ForeachArg_args tbl h c vs : ForeachArg tbl h c = Ret vs → v_arg <$> vs = callArgs c.
Proof.
  unfold ForeachArg, callArgs, retList. intros Hv. apply bind_ret_inv in Hv as (rs & Hr & Hv). apply bind_ret_inv in Hv as (vss & Ha & Hv).
  injection Hv as <-. rewrite fmap_app. f_equal.
  - destruct (c_Ret c); by injection Hr as <-.
  - eapply mapM_res_concat; [|exact Ha]. intros x vs' _. apply foreachArgImpl_args.
Qed.

Lemma callArgs_nodes c : argId <$> callArgs c ≡ₚ validNodes c.
Proof.
  unfold callArgs, validNodes. rewrite fmap_app, Permutation_app_comm. f_equiv.
  - generalize (c_Args c). intros l. induction l as [|x l IH]; [done|]. cbn [fmap list_fmap concat]. rewrite fmap_app. f_equiv; [|exact IH].
    by rewrite subArgs_nodes.
  - rewrite <- list_fmap_compose. unfold compose. cbn [argId]. by rewrite list_fmap_id.
Qed.

(** ** Replacement of a value *)

Lemma replaceNode_absent i new arg : i ∉ nodesOf arg → replaceNode i new arg = arg.
Proof.
  induction arg as [| |a ad vm x IH| |a inner IH|a opt index IH|p] using Arg_tree_ind; intros Hi;
    rewrite nodesOf_children in Hi; apply not_elem_of_cons in Hi as [Hne Hi]; cbn [replaceNode childrenOf] in *;
    rewrite bool_decide_false by congruence; try done.
  - cbn in Hi. rewrite app_nil_r in Hi. by rewrite IH.
  - f_equal. induction IH as [|x l Hx _ IHl]; [done|]. cbn [fmap list_fmap concat] in *. apply not_elem_of_app in Hi as [Hi1 Hi2].
    f_equal; [by apply Hx|by apply IHl].
  - cbn in Hi. rewrite app_nil_r in Hi. by rewrite IH.
Qed.

Section Replace.

(** A value of a tree in which no other node has its address. *)
Context (x new : Arg) (Hvalue : isValue x) (Hvalue1 : isValue new) (Hid : argId new = argId x).

Definition only (arg : Arg) : Prop := ∀ y, y ∈ subArgs arg → argId y = argId x → y = x.

Local Notation repl := (replaceNode (argId x) new).

Lemma only_child arg y : only arg → y ∈ childrenOf arg → only y.
Proof using Type. intros Ho Hy z Hz. apply Ho. by eapply subArgs_child. Qed.

(** Induction over a tree: the value, or a node whose children are edited. *)
Lemma replace_ind_ne (P : Arg → Arg → Prop) :
  P x new → (∀ arg, argId arg ≠ argId x → childrenOf arg = [] → P arg arg) →
  (∀ a ad vm y y1, a_id a ≠ argId x → P y y1 → P (PointerArg a ad vm (Some y)) (PointerArg a ad vm (Some y1))) →
  (∀ a inner inner1, a_id a ≠ argId x → Forall2 P inner inner1 → P (GroupArg a inner) (GroupArg a inner1)) →
  (∀ a opt opt1 index, a_id a ≠ argId x → P opt opt1 → P (UnionArg a opt index) (UnionArg a opt1 index)) →
  ∀ arg, only arg → P arg (repl arg).
Proof using Type.
  intros Hx Hleaf Hptr Hgroup Hunion arg.
  induction arg as [| |a ad vm y IH| |a inner IH|a opt index IH|p] using Arg_tree_ind; intros Ho; cbn [replaceNode];
    (case_bool_decide as Hb; [rewrite (Ho _ ltac:(rewrite subArgs_children; by left) Hb); exact Hx|]); try (by apply Hleaf).
  - apply Hptr, IH; [done|]. eapply only_child; [exact Ho|]. by left.
  - apply Hgroup; [done|]. assert (Hall : ∀ y, y ∈ inner → only y) by (intros y Hy; by eapply only_child).
    clear Ho Hb. induction IH as [|y l Hy _ IHl]; constructor; [apply Hy, Hall; by left|]. apply IHl. intros z Hz. apply Hall. by right.
  - apply Hunion, IH; [done|]. eapply only_child; [exact Ho|]. by left.
Qed.

Lemma replace_ind (P : Arg → Arg → Prop) :
  P x new → (∀ arg, argId arg ≠ argId x → childrenOf arg = [] → P arg arg) →
  (∀ a ad vm y y1, P y y1 → P (PointerArg a ad vm (Some y)) (PointerArg a ad vm (Some y1))) →
  (∀ a inner inner1, Forall2 P inner inner1 → P (GroupArg a inner) (GroupArg a inner1)) →
  (∀ a opt opt1 index, P opt opt1 → P (UnionArg a opt index) (UnionArg a opt1 index)) →
  ∀ arg, only arg → P arg (repl arg).
Proof using Type. intros. by apply replace_ind_ne; auto. Qed.

Lemma replace_nodes arg : only arg → nodesOf (repl arg) = nodesOf arg.
Proof using Hvalue Hvalue1 Hid.
  apply (replace_ind (λ arg arg1, nodesOf arg1 = nodesOf arg)); try done.
  - destruct x, new; try done; cbn in *; by rewrite Hid.
  - intros a ad vm y y1 Hy. cbn. by rewrite Hy.
  - intros a inner inner1 Hf. cbn. f_equal. induction Hf as [|? ? ? ? Hy _ IH]; [done|]. cbn. by rewrite Hy, IH.
  - intros a opt opt1 index Hy. cbn. by rewrite Hy.
Qed.

Lemma replace_results arg : only arg → resultsOf (repl arg) = resultsOf arg.
Proof using Hvalue Hvalue1 Hid.
  apply (replace_ind (λ arg arg1, resultsOf arg1 = resultsOf arg)); try done.
  - by destruct x, new.
  - intros a inner inner1 Hf. cbn [resultsOf]. induction Hf as [|? ? ? ? Hy _ IH]; [done|]. cbn. by rewrite Hy, IH.
Qed.

Lemma replace_wf h arg : wfArg h new → only arg → wfArg h arg → wfArg h (repl arg).
Proof using Hvalue Hvalue1 Hid.
  intros Hnew. apply (replace_ind (λ arg arg1, wfArg h arg → wfArg h arg1)); try done.
  - intros a ad vm y y1 Hy [Hi Hw]. split; [done|by apply Hy].
  - intros a inner inner1 Hf [Hi Hw]%wfArg_children; [|done]. apply wfArg_node; [done|]. split; [done|]. split; [done|].
    cbn [childrenOf] in *. induction Hf as [|? ? ? ? Hy _ IH]; constructor; apply Forall_cons in Hw as [Hw1 Hw]; [by apply Hy|by apply IH].
  - intros a opt opt1 index Hy [Hi Hw]. split; [done|by apply Hy].
Qed.

Lemma replace_copy leaf X arg : (∀ y, isValue y → leaf y y) → copyTree leaf (idMap X) x new → only arg →
  (∀ p, p ∈ resultsOf arg → p ∈ X) → copyTree leaf (idMap X) arg (repl arg).
Proof using Hvalue Hvalue1 Hid.
  intros Hrefl Hnew. apply (replace_ind (λ arg arg1, (∀ p, p ∈ resultsOf arg → p ∈ X) → copyTree leaf (idMap X) arg arg1)); try done.
  - intros [a v|a ad vm [y|]|a d s|a inner|a o i|p] _ Hc Hp; try done.
    + split; [done|]. by apply Hrefl.
    + split; [done|]. by apply Hrefl.
    + apply copyArg_group. cbn [childrenOf] in Hc. subst inner. split; [done|constructor].
    + cbn [copyTree]. apply idMap_lookup. split; [apply Hp; by left|done].
  - intros a ad vm y y1 Hy Hp. split; [done|]. split; [done|]. split; [done|]. by apply Hy.
  - intros a inner inner1 Hf Hp. apply copyArg_group. split; [done|]. cbn [resultsOf] in Hp.
    induction Hf as [|? ? ? ? Hy _ IH]; constructor; cbn [fmap list_fmap concat] in Hp.
    + apply Hy. intros p Hin. apply Hp, elem_of_app. by left.
    + apply IH. intros p Hin. apply Hp, elem_of_app. by right.
  - intros a opt opt1 index Hy Hp. split; [done|]. split; [by apply Hy|done].
Qed.

End Replace.

Lemma replace_same x arg : only x arg → replaceNode (argId x) x arg = arg.
Proof.
  intros Ho. symmetry. apply (replace_ind x x eq); try done.
  - by intros a ad vm y y1 ->.
  - intros a inner inner1 Hf. f_equal. induction Hf as [|? ? ? ? -> _ IH]; [done|]. by rewrite IH.
  - by intros a opt opt1 index ->.
Qed.

(** ** The hints of an argument *)

(** The sizes of the fields that hints replace. *)
Definition bitsFit (tbl : list Typ) : Prop :=
  ∀ ref t bits, typeOf tbl ref = Ret t → notHinted t = false → TypeBitSize t = Ret bits → 1 ≤ bits ≤ 64.

Definition compressed (tbl : list Typ) (arg : Arg) : bool :=
  match arg with
  | DataArg a _ _ => match typeOf tbl (a_ref a) with Ret (BufferType _ BufferCompressed _ _ _ _ _ _) => true | _ => false end
  | _ => false
  end.

Definition valueKind (arg : Arg) (t : Typ) : Prop :=
  match arg with
  | ConstArg _ _ => intCommon t ≠ None
  | DataArg _ _ _ => match t with BufferType _ _ _ _ _ _ _ _ => True | _ => False end
  | _ => True
  end.

(** What validation gives of every node. *)
Definition ready (tbl : list Typ) (h : Heap) (arg : Arg) : Prop :=
  ∃ t d, argType tbl h arg = Ret t ∧ argDir h arg = Ret d ∧ valueKind arg t.

(** [new] is what the comparisons make of the value [arg]. *)
Definition hinted (tbl : list Typ) (h : Heap) (compMap : CompMap) (arg new : Arg) : Prop :=
  argDir h arg ≠ Ret DirOut ∧ ∃ t, argType tbl h arg = Ret t ∧ notHinted t = false ∧
  match arg with
  | ConstArg a val => ∃ bits r, TypeBitSize t = Ret bits ∧ justified (val `mod` 2 ^ bits) compMap bits false r ∧ new = ConstArg a r
  | DataArg a data size => ∃ i d, Z.of_nat i < Z.min (Z.of_nat (length data)) maxDataLength ∧ windowHint compMap false data i d ∧
      new = DataArg a d size
  | _ => False
  end.

Lemma TypeBitSize_int t : intCommon t ≠ None → ∃ bits, TypeBitSize t = Ret bits.
Proof. unfold TypeBitSize. destruct (intCommon t) as [c|]; [|done]. intros _. destruct (ArgFormat c); eauto. Qed.

Lemma generateHints_spec Compress MustDecompress tbl h compMap arg : bitsFit tbl → compsOK compMap → compressed tbl arg = false → ready tbl h arg →
  ∃ news, generateHints Compress MustDecompress tbl h compMap arg = Ret (news, arg) ∧ ∀ new, new ∈ news ↔ hinted tbl h compMap arg new.
Proof.
  intros Hbits Hcomps Hplain (t & d & Ht & Hd & Hk). unfold generateHints, hinted. rewrite Ht, Hd. cbn [mbind res_bind].
  destruct (bool_decide (d = DirOut)) eqn:Ho.
  { apply bool_decide_eq_true in Ho as ->. exists []. split; [done|]. intros new. split; [by intros ?%elem_of_nil|by intros [? _]]. }
  apply bool_decide_eq_false in Ho. destruct (notHinted t) eqn:Hh.
  { exists []. split; [done|]. intros new. split; [by intros ?%elem_of_nil|]. intros (_ & t' & [= <-] & Hh' & _). congruence. }
  cbn [orb]. assert (Hspec : ∀ P : Typ → Prop, (Ret d ≠ Ret DirOut ∧ ∃ t', Ret t = Ret t' ∧ notHinted t' = false ∧ P t') ↔ P t).
  { intros P. split; [by intros (_ & t' & [= <-] & _ & HP)|]. intros HP. split; [congruence|]. by exists t. }
  destruct arg as [a val|a ad vm x|a data size|a inner|a opt index|p]; cbn [valueKind] in Hk.
  2,4,5,6: exists []; split; [done|]; intros new; rewrite Hspec; split; [by intros ?%elem_of_nil|done].
  - destruct (TypeBitSize_int t Hk) as [bits Hb]. unfold argType in Ht. cbn [argRef mbind res_bind] in Ht.
    unfold checkConstArg. rewrite Ht. cbn [mbind res_bind]. rewrite Hb. cbn [mbind res_bind].
    destruct (shrinkExpand_spec val bits compMap false) as (rs & Hrs & _ & Hj); [by eapply Hbits|done|].
    rewrite Hrs. cbn [mbind res_bind]. eexists. split; [done|]. intros new. rewrite Hspec, list_elem_of_fmap. split.
    + intros (r & -> & Hr%Hj). eauto.
    + intros (bits' & r & Hb' & Hr & ->). assert (bits' = bits) as -> by congruence. exists r. split; [done|by apply Hj].
  - destruct t; try done. unfold argType in Ht. cbn [argRef mbind res_bind] in Ht. cbn [compressed] in Hplain. rewrite Ht in Hplain.
    cbn [argDir] in Hd. injection Hd as Hd. unfold checkDataArg, dataOf. rewrite Hd, bool_decide_false by done. cbn [mbind res_bind].
    set (n := Z.to_nat _). destruct (dataLoop_spec compMap false (seq 0 n) data Hcomps) as (ds & Hds & Hj).
    exists ((λ d, DataArg a d size) <$> ds). split; [rewrite Hds; by destruct Kind|]. intros new. rewrite Hspec, list_elem_of_fmap. split.
    + intros (d' & -> & (i & Hi%elem_of_seq & Hw)%Hj). exists i, d'. split; [lia|done].
    + intros (i & d' & Hi & Hw & ->). exists d'. split; [done|]. apply Hj. exists i. split; [apply elem_of_seq; lia|done].
Qed.

(** ** Edited values *)

Definition replaceable (tbl : list Typ) (a : ArgCommon) : Prop :=
  a_dir a ≠ DirOut ∧ ∃ t, typeOf tbl (a_ref a) = Ret t ∧ notHinted t = false.

Definition edited (tbl : list Typ) (x y : Arg) : Prop :=
  match x, y with
  | ConstArg a v, ConstArg _ v1 => v1 = v ∨ replaceable tbl a
  | DataArg a d s, DataArg _ d1 s1 => s1 = s ∧ (d1 = d ∨ replaceable tbl a ∧ length d1 = length d)
  | _, _ => False
  end.

Lemma edited_refl tbl y : isValue y → edited tbl y y.
Proof. destruct y; try done; intros _; cbn; auto. Qed.

Lemma nil_length {A B} (l : list A) (k : list B) : length l = length k → l = [] ↔ k = [].
Proof. destruct l, k; try done. Qed.

Lemma edited_size target h h1 m x y : isValue x → copyTree (edited (typeRefs target)) m x y →
  argSize (typeRefs target) h1 y = argSize (typeRefs target) h x.
Proof.
  destruct x as [a val| |a data size| | |], y as [b val1|? ? ? []|b data1 size1| | |]; try done; intros _.
  - intros [[Hr _] _]. cbn [argSize]. by rewrite Hr.
  - intros (_ & -> & Hd). assert (Hl : length data1 = length data) by (destruct Hd as [->|[_ ?]]; done).
    cbn [argSize]. rewrite Hl. by rewrite (bool_decide_ext (data1 ≠ []) (data ≠ [])) by (by rewrite (nil_length data1 data Hl)).
Qed.

Lemma edited_const m tbl h h1 x y t dir v v1 : dir ≠ DirOut → notHinted t = false →
  simV m (validateConst tbl h t x dir v) (validateConst tbl h1 t y dir v1) [].
Proof.
  intros Hd Hn. unfold validateConst. rewrite !bool_decide_false by done.
  destruct t; try (by apply simV_uniform; [apply uniform_seq; auto with uniform|]); try done; by intros ????.
Qed.

Lemma edited_data m t dir d d1 s : dir ≠ DirOut → notHinted t = false → length d1 = length d →
  simV m (validateData t dir d s) (validateData t dir d1 s) [].
Proof.
  intros Hd Hn Hl. apply simV_uniform; [apply uniform_data|]. intros c. unfold validateData. rewrite Hl.
  rewrite (bool_decide_ext (d1 ≠ []) (d ≠ [])) by (by rewrite (nil_length d1 d Hl)).
  rewrite (bool_decide_ext (dir = DirOut ∧ d1 ≠ []) (dir = DirOut ∧ d ≠ [])) by naive_solver.
  destruct t; try done. by destruct Kind.
Qed.

Lemma edited_method target h h1 m x y t dir : isValue x → copyTree (edited (typeRefs target)) m x y →
  argType (typeRefs target) h x = Ret t →
  simV m (validateMethod target h x t dir) (validateMethod target h1 y t dir) [].
Proof.
  intros Hv Hc Ht. destruct x as [a val| |a data size| | |], y as [b val1|? ? ? []|b data1 size1| | |]; try done.
  - destruct Hc as [[Hr Hd] [->|[Ho (t' & Ht' & Hn)]]].
    + apply same_method; [done| |done]. by split.
    + assert (t' = t) as -> by (unfold argType in Ht; cbn in Ht; congruence). unfold validateMethod. rewrite Hd. by apply edited_const.
  - destruct Hc as ([Hr Hd] & -> & [->|[[Ho (t' & Ht' & Hn)] Hl]]).
    + apply same_method; [done| |done]. by split.
    + assert (t' = t) as -> by (unfold argType in Ht; cbn in Ht; congruence). unfold validateMethod. rewrite Hd. by apply edited_data.
Qed.

Lemma hinted_value tbl h compMap x new : hinted tbl h compMap x new → isValue x ∧ isValue new ∧ argId new = argId x.
Proof. intros (_ & t & _ & _ & Hk). destruct x; try done; naive_solver. Qed.

Lemma hinted_edit tbl h compMap m x new : hinted tbl h compMap x new → copyTree (edited tbl) m x new.
Proof.
  intros (Hd & t & Ht & Hn & Hk). destruct x as [a val| |a data size| | |]; try done.
  - destruct Hk as (bits & r & _ & _ & ->). split; [done|]. right. split; [by intros He; apply Hd; cbn; rewrite He|eauto].
  - destruct Hk as (i & d & _ & (r & _ & ->) & ->). split; [done|]. split; [done|]. right. rewrite copyAt_length. split; [|done].
    split; [by intros He; apply Hd; cbn; rewrite He|eauto].
Qed.

Lemma hinted_wf tbl h compMap x new : bitsFit tbl → hinted tbl h compMap x new → wfArg h x → wfArg h new.
Proof.
  intros Hbits (_ & t & Ht & Hn & Hk) Hw. destruct x as [a val| |a data size| | |]; try done.
  - destruct Hk as (bits & r & Hb & Hj & ->). destruct Hw as [Hid _]. split; [done|].
    destruct Hj as (w & s & op & be & n & _ & _ & _ & _ & _ & _ & _ & _ & ->). specialize (Hbits _ _ _ Ht Hn Hb).
    pose proof (pow_range bits). pose proof (Z.pow_le_mono_r 2 bits 64). unfold isU64.
    match goal with |- 0 ≤ ?z `mod` _ < _ => pose proof (Z.mod_pos_bound z (2 ^ bits)) end. lia.
  - destruct Hk as (i & d & _ & (r & _ & ->) & ->). destruct Hw as (Hid & Hl & Hs & He). split; [done|]. rewrite copyAt_length.
    split; [done|]. split; [done|]. intros Hnil. apply He. apply (nil_length _ data) in Hnil; [done|apply copyAt_length].
Qed.

(** ** Valid programs are ready *)

Section Visits.

(** What validation of a node implies holds of all nodes of a valid program. *)
Context (target : Target) (h : Heap) (Htable : tableFits target) (Hheap : wfHeap h).

Local Notation tbl := (typeRefs target).

Context (P : Arg → Prop).
Context (HP : ∀ arg t d dir ctx ctx', argType tbl h arg = Ret t → argDir h arg = Ret d →
  validateMethod target h arg t dir ctx = Ret (inr ctx') → P arg).

Definition visits (arg : Arg) : Prop := ∀ typ dir ctx ctx', validateArg target h arg typ dir ctx = Ret (inr ctx') →
  Forall P (subArgs arg).

Lemma visits_list l : Forall visits l → ∀ tds ctx ctx', length l = length tds →
  validateList target h l tds ctx = Ret (inr ctx') → Forall P (concat (subArgs <$> l)).
Proof using Type.
  induction 1 as [|x l Hx _ IH]; intros [|td tds] ctx ctx' Hlen Hv; try done.
  apply v_seq_inv in Hv as (c1 & H1 & H2). cbn [fmap list_fmap concat]. apply Forall_app. split; [by eapply Hx|].
  eapply IH; [|done]. cbn in Hlen. lia.
Qed.

Lemma visits_arg arg : visits arg.
Proof using Htable Hheap HP.
  induction arg as [p|arg Hn IH] using tree_ind; intros typ dir ctx ctx' Hv;
    apply validateArg_inv in Hv as (dir' & t & d & _ & Ht & _ & Hd & _ & _ & Hm).
  - constructor; [by eapply HP|constructor].
  - rewrite subArgs_children. constructor; [by eapply HP|].
    apply (validateMethod_children target h Htable Hheap) in Hm as (tds & Hlen & Hl); [|done]. by eapply visits_list.
Qed.

Lemma visits_args args : ∀ fields ctx ctx', validateArgs target h args fields ctx = Ret (inr ctx') →
  length args = length fields → Forall P (concat (subArgs <$> args)).
Proof using Htable Hheap HP.
  induction args as [|arg args IH]; intros [|f fields] ctx ctx' Hv Hlen; try done.
  apply v_seq_inv in Hv as (c1 & H1 & H2). cbn [fmap list_fmap concat]. apply Forall_app. split; [by eapply visits_arg|].
  eapply IH; [done|]. cbn in Hlen. lia.
Qed.

Lemma visits_call c ctx ctx' : validateCall target h c ctx = Ret (inr ctx') → Forall P (callArgs c).
Proof using Htable Hheap HP.
  intros (Hlen & c1 & H1 & H2)%validateCall_inv. apply Forall_app. split; [|by eapply visits_args].
  unfold validateRet, retList in *. destruct (sc_Ret (c_Meta c)) as [t|], (c_Ret c) as [p|]; try done.
  apply bind_ret_inv in H2 as (r & _ & H2). apply v_seq_inv in H2 as (c2 & _ & H2).
  by apply visits_arg in H2.
Qed.

Lemma visits_prog calls c : validate target h calls = Ret None → c ∈ calls → Forall P (callArgs c).
Proof using Htable Hheap HP.
  intros [ctx' Hv]%validate_inv [l1 [l2 ->]]%list_elem_of_split. apply v_all_app in Hv as (c1 & _ & (c2 & Hv & _)%v_seq_inv).
  by eapply visits_call.
Qed.

End Visits.

Lemma method_kind target h arg t dir ctx ctx' : validateMethod target h arg t dir ctx = Ret (inr ctx') → valueKind arg t.
Proof.
  destruct arg as [a val| |a data size| | |]; try done; unfold validateMethod, valueKind.
  - intros (c1 & H1 & _)%v_seq_inv. by destruct t.
  - by destruct t.
Qed.

Lemma ready_prog target h (Htable : tableFits target) (Hheap : wfHeap h) calls c : validate target h calls = Ret None → c ∈ calls →
  Forall (ready (typeRefs target) h) (callArgs c).
Proof.
  apply visits_prog; [done|done|]. intros arg t d dir ctx ctx' Ht Hd Hm. exists t, d. split; [done|]. split; [done|].
  by eapply method_kind.
Qed.

(** ** Programs with an edited value *)

Lemma NoDup_fmap_inj {A B} (f : A → B) l y z : NoDup (f <$> l) → y ∈ l → z ∈ l → f y = f z → y = z.
Proof.
  intros Hnd [i Hi]%list_elem_of_lookup [j Hj]%list_elem_of_lookup He.
  assert (i = j) as ->; [|congruence]. eapply NoDup_lookup; [exact Hnd| |]; rewrite list_lookup_fmap; [by rewrite Hi|by rewrite Hj, He].
Qed.

Lemma NoDup_concat_index {A B} (f : A → list B) l i j a b x : NoDup (concat (f <$> l)) →
  l !! i = Some a → l !! j = Some b → x ∈ f a → x ∈ f b → i = j.
Proof.
  revert i j. induction l as [|c l IH]; intros i j Hnd Hi Hj Ha Hb; [done|]. cbn [fmap list_fmap concat] in Hnd.
  apply NoDup_app in Hnd as (_ & Hdis & Hnd). destruct i as [|i], j as [|j]; cbn in Hi, Hj; try done.
  - injection Hi as ->. exfalso. apply (Hdis x Ha), elem_concat_fmap. exists b. split; [by eapply list_elem_of_lookup_2|done].
  - injection Hj as ->. exfalso. apply (Hdis x Hb), elem_concat_fmap. exists a. split; [by eapply list_elem_of_lookup_2|done].
  - f_equal. by eapply IH.
Qed.

Lemma wfArg_sub h arg : wfArg h arg → Forall (wfArg h) (subArgs arg).
Proof.
  induction arg as [p|arg Hn IH] using tree_ind; intros Hw; [by constructor|]. rewrite subArgs_children. constructor; [done|].
  apply wfArg_children in Hw as [_ Hw]; [|done]. induction IH as [|y l Hy _ IHl]; [constructor|]. apply Forall_cons in Hw as [Hwy Hw].
  cbn [fmap list_fmap concat]. apply Forall_app. split; [by apply Hy|by apply IHl].
Qed.

Lemma value_sub c x : x ∈ callArgs c → isValue x → ∃ arg, arg ∈ c_Args c ∧ x ∈ subArgs arg.
Proof.
  intros [Hx|Hx]%elem_of_app Hv; [by apply list_elem_of_fmap in Hx as (p & -> & _)|]. by apply elem_concat_fmap in Hx.
Qed.

Lemma progArgs_nodes calls : argId <$> concat (callArgs <$> calls) ≡ₚ concat (validNodes <$> calls).
Proof.
  induction calls as [|c calls IH]; [done|]. cbn [fmap list_fmap concat]. rewrite fmap_app. f_equiv; [apply callArgs_nodes|exact IH].
Qed.

Lemma prog_only calls c x : NoDup (concat (validNodes <$> calls)) → c ∈ calls → x ∈ callArgs c →
  ∀ c' arg, c' ∈ calls → arg ∈ c_Args c' → only x arg.
Proof.
  intros Hnd Hc Hx c' arg Hc' Harg y Hy He. rewrite <- progArgs_nodes in Hnd. eapply (NoDup_fmap_inj argId); [exact Hnd| | |done].
  - apply elem_concat_fmap. exists c'. split; [done|]. apply elem_of_app. right. apply elem_concat_fmap. eauto.
  - apply elem_concat_fmap. eauto.
Qed.

(** Only the call that has the node changes. *)
Lemma replace_program calls idx c i new : NoDup (concat (validNodes <$> calls)) → calls !! idx = Some c → i ∈ validNodes c →
  <[idx := replaceInCall i new c]> calls = replaceInCall i new <$> calls.
Proof.
  intros Hnd Hc Hi. apply list_eq. intros j. rewrite list_lookup_fmap. destruct (decide (j = idx)) as [->|Hne].
  { rewrite Hc. apply list_lookup_insert_eq. by eapply lookup_lt_Some. }
  rewrite list_lookup_insert_ne by done. destruct (calls !! j) as [c'|] eqn:Hj; [|done]. cbn. f_equal.
  assert (Hno : i ∉ validNodes c') by (intros Hin; apply Hne; by eapply (NoDup_concat_index validNodes)).
  apply not_elem_of_app in Hno as [Hno _]. destruct c' as [meta args ret props]. unfold replaceInCall. cbn in *. f_equal.
  clear -Hno. induction args as [|arg args IH]; [done|]. cbn [fmap list_fmap concat] in *. apply not_elem_of_app in Hno as [H1 H2].
  f_equal; [by rewrite replaceNode_absent|by apply IH].
Qed.

Section Edited.

Context (target : Target) (h : Heap) (calls : list Call) (Hok : progOK target h calls).
Context (c : Call) (x new : Arg) (Hc : c ∈ calls) (Hx : x ∈ callArgs c) (compMap : CompMap).
Context (Hbits : bitsFit (typeRefs target)) (Hhint : hinted (typeRefs target) h compMap x new).

Local Notation tbl := (typeRefs target).
Local Notation repl := (replaceInCall (argId x) new).

Lemma edited_nodup : NoDup (concat (validNodes <$> calls)).
Proof using Hok.
  destruct Hok as [Ht Hh _ Hw _ Hv _]. destruct (valid_trace target h Ht Hh calls Hw Hv) as (ctx & _ & Htr & _). by destruct Htr.
Qed.

Lemma edited_only c' arg : c' ∈ calls → arg ∈ c_Args c' → only x arg.
Proof using Hok Hc Hx. intros. by eapply (prog_only calls c x edited_nodup). Qed.

Lemma fmap_args {B} (f : Arg → B) c' : c' ∈ calls → (∀ arg, only x arg → f (replaceNode (argId x) new arg) = f arg) →
  f <$> c_Args (repl c') = f <$> c_Args c'.
Proof using Hok Hc Hx.
  intros Hc' Hf. cbn [replaceInCall c_Args]. rewrite <- list_fmap_compose. apply list_fmap_ext. intros i arg Hi.
  apply Hf. eapply edited_only; [exact Hc'|]. by eapply list_elem_of_lookup_2.
Qed.

Lemma edited_nodes : concat (validNodes <$> (repl <$> calls)) = concat (validNodes <$> calls).
Proof using Hok Hc Hx Hhint Hbits.
  destruct (hinted_value _ _ _ _ _ Hhint) as (Hv & Hv1 & Hid). rewrite <- list_fmap_compose. f_equal. apply list_fmap_ext.
  intros i c' Hi%list_elem_of_lookup_2. unfold compose, validNodes. f_equal. f_equal. apply fmap_args; [done|].
  intros arg Ho. by apply replace_nodes.
Qed.

Lemma edited_results : progResults (repl <$> calls) = progResults calls.
Proof using Hok Hc Hx Hhint Hbits.
  destruct (hinted_value _ _ _ _ _ Hhint) as (Hv & Hv1 & Hid). unfold progResults. rewrite <- list_fmap_compose. f_equal. apply list_fmap_ext.
  intros i c' Hi%list_elem_of_lookup_2. unfold compose, callResults. f_equal. f_equal. apply fmap_args; [done|].
  intros arg Ho. by apply replace_results.
Qed.

Lemma edited_copies : Forall2 (copyCallBy (edited tbl) (idMap (list_to_set (progResults calls) ∖ ∅))) calls (repl <$> calls).
Proof using Hok Hc Hx Hhint Hbits.
  destruct (hinted_value _ _ _ _ _ Hhint) as (Hv & Hv1 & Hid). apply Forall2_fmap_r, Forall_Forall2_diag, Forall_forall. intros c' Hc'.
  set (X := list_to_set (progResults calls) ∖ ∅ : gset id).
  assert (Hin : ∀ p, p ∈ callResults c' → p ∈ X).
  { intros p Hp. apply elem_of_difference. split; [|set_solver]. apply elem_of_list_to_set, elem_concat_fmap. eauto. }
  split; [done|]. split; [done|]. split.
  - cbn [replaceInCall c_Args]. apply Forall2_fmap_r, Forall_Forall2_diag, Forall_forall. intros arg Harg.
    apply replace_copy; [done|done|done|apply edited_refl|by eapply hinted_edit|by eapply edited_only|].
    intros p Hp. apply Hin, elem_of_app. left. apply elem_concat_fmap. eauto.
  - cbn [replaceInCall c_Ret]. destruct (c_Ret c') as [p|] eqn:Er; [|done]. apply idMap_lookup. split; [|done]. apply Hin, elem_of_app.
    right. rewrite Er. by left.
Qed.

Lemma edited_calls : Forall (wfCall target h) (repl <$> calls).
Proof using Hok Hc Hx Hhint Hbits.
  destruct (hinted_value _ _ _ _ _ Hhint) as (Hv & Hv1 & Hid). pose proof (po_calls _ _ _ Hok) as Hw. rewrite Forall_forall in Hw.
  assert (Hwn : wfArg h new).
  { eapply hinted_wf; [done..|]. destruct (value_sub c x Hx Hv) as (arg & Harg & Hsub). pose proof (wc_args _ _ _ (Hw c Hc)) as Ha.
    rewrite Forall_forall in Ha. specialize (Ha arg Harg). apply wfArg_sub in Ha. rewrite Forall_forall in Ha. by apply Ha. }
  apply Forall_fmap, Forall_forall. intros c' Hc'. destruct (Hw c' Hc') as [Ha Hm Hi Hn Ht Hf Hr]. constructor; try done.
  cbn [replaceInCall c_Args]. apply Forall_fmap. rewrite Forall_forall in Ha |- *. intros arg Harg.
  apply replace_wf; [done|done|done|done|by eapply edited_only|by apply Ha].
Qed.

Lemma edited_keeps : progOK target h (repl <$> calls).
Proof using Hok Hc Hx Hhint Hbits.
  pose proof edited_nodup as Hnd. destruct Hok as [Ht Hh Hal Hw Hn Hv Hs].
  destruct (valid_links target h Ht Hh calls Hw Hv) as (Hl & _ & _).
  destruct (valid_trace target h Ht Hh calls Hw Hv) as (ctx & Hall & _ & Huses).
  set (m := idMap (list_to_set (progResults calls) ∖ ∅)).
  assert (Hsim : ∀ p p1, m !! p = Some p1 → ∃ r r1, h_results h !! p = Some r ∧ h_results h !! p1 = Some r1 ∧ simObj target m r r1).
  { intros p p1 [[Hp _]%elem_of_difference ->]%idMap_lookup. destruct (Hl p Hp) as (r & Hr & _). exists r, r. split; [done|].
    split; [done|]. rewrite <- (detach_empty tbl r) at 2. by eapply detach_sim. }
  destruct (sim_calls target h h m Ht Hsim (edited tbl) (edited_size target h h m) (edited_method target h h m) calls (repl <$> calls)
    edited_copies Hw _ _ _ Hall (simCtx_start _)) as (d & Hd & Hsd & _); [by rewrite edited_nodes|set_solver|].
  split; [done|done|done|exact edited_calls|by rewrite edited_nodes|by eapply (sim_valid target h h m Ht Hsim)|by rewrite edited_results].
Qed.

End Edited.

(** ** The walk over a call *)

Lemma hintVisits_spec Compress MustDecompress rejected target h calls c compMap vs : progOK target h calls → c ∈ calls →
  bitsFit (typeRefs target) → compsOK compMap → (∀ v, v ∈ vs → v_arg v ∈ callArgs c) →
  (∀ x, x ∈ callArgs c → compressed (typeRefs target) x = false) →
  ∃ cs, hintVisits Compress MustDecompress rejected (typeRefs target) h compMap vs c = Ret (cs, c) ∧
    ∀ c2, c2 ∈ cs ↔ ∃ v new, v ∈ vs ∧ hinted (typeRefs target) h compMap (v_arg v) new ∧
      c2 = replaceInCall (argId (v_arg v)) new c ∧ rejected c2 = false.
Proof.
  intros Hok Hc Hbits Hcomps Hvs Hplain. pose proof (ready_prog target h (po_table _ _ _ Hok) (po_heap _ _ _ Hok) calls c (po_valid _ _ _ Hok) Hc) as Hr.
  rewrite Forall_forall in Hr. induction vs as [|v vs IH]; [exists []; split; [done|]; set_solver|].
  assert (Hv : v_arg v ∈ callArgs c) by (apply Hvs; by left).
  destruct (generateHints_spec Compress MustDecompress (typeRefs target) h compMap (v_arg v)) as (news & Hg & Hn); [done|done|by apply Hplain|by apply Hr|].
  destruct IH as (cs & Hcs & Hin); [intros; apply Hvs; by right|]. cbn [hintVisits]. rewrite Hg. cbn [mbind res_bind fst snd].
  assert (Hsame : replaceInCall (argId (v_arg v)) (v_arg v) c = c).
  { destruct c as [meta args ret props]. unfold replaceInCall. cbn [c_Meta c_Args c_Ret c_Props]. f_equal.
    rewrite <- (list_fmap_id args) at 2. apply list_fmap_ext. intros i arg Hi%list_elem_of_lookup_2. apply replace_same.
    by eapply (prog_only calls _ _ (edited_nodup target h calls Hok) Hc Hv). }
  assert (Hmatch : match news with [] => c | _ => replaceInCall (argId (v_arg v)) (v_arg v) c end = c) by (by destruct news).
  rewrite Hmatch, Hcs. cbn [mbind res_bind fst snd]. eexists. split; [done|]. intros c2.
  rewrite elem_of_app, Hin, list_elem_of_filter, list_elem_of_fmap. split.
  - intros [(Hrej & new & -> & Hnew%Hn)|(v' & new & Hv' & Hrest)].
    + exists v, new. split; [by left|done].
    + exists v', new. split; [by right|done].
  - intros (v' & new & [->|Hv']%elem_of_cons & Hh & -> & Hrej); [left; split; [done|]; exists new; split; [done|by apply Hn]|right; eauto 10].
Qed.

Lemma copy_subArgs leaf m arg arg1 : copyTree leaf m arg arg1 → Forall2 (copyTree leaf m) (subArgs arg) (subArgs arg1).
Proof.
  revert arg1. induction arg as [a v|a ad vm|a ad vm y IH|a d s|a inner IH|a opt index IH|p] using Arg_tree_ind;
    intros [b val1|b ad1 vm1 [z|]|b d1 s1|b inner1|b o1 i1|p1] Hc; try done; cbn [subArgs]; constructor; try done; try constructor.
  - apply IH. by destruct Hc as (_ & _ & _ & ?).
  - apply copyArg_group in Hc as [_ Hf]. revert inner1 Hf. induction IH as [|x l Hx _ IHl]; intros inner1 Hf; inversion Hf; subst; [constructor|].
    cbn [fmap list_fmap concat]. apply Forall2_app; [by apply Hx|by apply IHl].
  - apply IH. by destruct Hc as (_ & ? & _).
Qed.

Lemma copy_callArgs leaf m c c1 : copyCallBy leaf m c c1 → Forall2 (copyTree leaf m) (callArgs c) (callArgs c1).
Proof.
  intros (_ & _ & Hargs & Hret). apply Forall2_app.
  - unfold retList. destruct (c_Ret c), (c_Ret c1); try done; by repeat constructor.
  - eapply Forall2_concat_fmap; [|exact Hargs]. apply copy_subArgs.
Qed.

Lemma copy_compressed leaf m tbl x y : copyTree leaf m x y → compressed tbl y = compressed tbl x.
Proof.
  destruct x as [| ? ? ? [?|] |a d s| | |], y as [| ? ? ? [?|] |b d1 s1| | |]; try done. intros [[Hr _] _]. cbn. by rewrite Hr.
Qed.

Lemma copy_plain leaf m tbl c c1 : copyCallBy leaf m c c1 → (∀ x, x ∈ callArgs c → compressed tbl x = false) →
  ∀ x, x ∈ callArgs c1 → compressed tbl x = false.
Proof.
  intros Hc Hp x [i Hi]%list_elem_of_lookup. destruct (Forall2_lookup_r _ _ _ i x (copy_callArgs _ _ _ _ Hc) Hi) as (y & Hy & Hxy).
  rewrite (copy_compressed _ _ _ _ _ Hxy). apply Hp. by eapply list_elem_of_lookup_2.
Qed.

Lemma walk_prog target h calls c : progOK target h calls → c ∈ calls → ∃ vs, ForeachArg (typeRefs target) h c = Ret vs.
Proof.
  intros [Ht Hh _ Hw _ Hv _] Hc. rewrite Forall_forall in Hw. specialize (Hw c Hc).
  apply validate_inv in Hv as [ctx' Hv]. apply list_elem_of_split in Hc as [l1 [l2 ->]].
  apply v_all_app in Hv as (c1 & _ & (c2 & Hv & _)%v_seq_inv). by eapply valid_walk.
Qed.


Lemma example_bits : bitsFit exampleTypes.
Proof.
  intros ref t bits Ht Hn Hb. unfold typeOf in Ht. case_bool_decide; [done|].
  do 8 (destruct ref as [|ref]; [first [done | cbn in Ht; injection Ht as <-; cbn in Hb; first [done | vm_compute in Hb; injection Hb as <-; lia]]|]).
  done.
Qed.

