(* ===== verification/ProgSize.v ===== *)
(** * Length fields

    [prog/size.go]: the values of the fields that hold the size of another
    argument.  [assignSizes] computes what is written and where; nothing it does
    reads the value of a constant, so the values are put into the tree at the
    end. *)

From stdpp Require Import base numbers strings gmap list.
From S2P Require Import Prelude Word ProgTypes ProgArgs ProgTree ProgValidate ProgDefault ExecSafe ProgLinks ProgClone ProgTrace ProgLife ProgInv HintArgs.

Local Open Scope Z_scope.

Definition ParentRef : string := "parent".

Definition SyscallRef : string := "syscall".

Definition noOffset : Z := 2 ^ 64 - 1.

(** [parentsMap]; the key [None] is nil, of a field whose pointer is nil. *)
Notation parentsMap := (gmap (option id) Arg).

Section Sizes.

(** [target.any.ptrPtr] and [target.any.ptr64]. *)
Context (tbl : list Typ) (ptrPtr ptr64 : Ref) (h : Heap).

(** A division of Go, which panics for a zero divisor. *)
Definition divU (x y : Z) : res Z := if bool_decide (y = 0) then Panic else Ret (u64 x `div` y).

Definition computeSize (arg : Arg) (offset bitSize0 : Z) (isOffset : bool) : res Z :=
  if isOffset then
    if bool_decide (offset = noOffset) then Panic else divU (offset * 8) bitSize0
  else
    let bitSize := if bool_decide (bitSize0 = 0) then 8 else bitSize0 in
    t ← argType tbl h arg;
    match t, arg with
    | VmaType _ _ _, PointerArg _ _ vmaSize _ => divU (vmaSize * 8) bitSize
    | VmaType _ _ _, _ => Panic
    | ArrayType _ _ _ _ _, GroupArg _ inner =>
        if bool_decide (bitSize0 ≠ 0) then size ← argSize tbl h arg; divU (size * 8) bitSize
        else Ret (u64 (Z.of_nat (length inner)))
    | ArrayType _ _ _ _ _, _ => Panic
    | _, _ => size ← argSize tbl h arg; divU (size * 8) bitSize
    end.

(** The loop of [assignSize] over [args]: the argument with the name [elem] and its
    offset. *)
Fixpoint findField (elem : string) (fields : list Field) (overlay i : nat) (offset : Z) (args : list Arg) :
    res (option (Arg * Z)) :=
  match args with
  | [] => Ret None
  | buf :: args =>
      let offset := if bool_decide (i = overlay) then 0 else offset in
      f ← of_option (fields !! i);
      if bool_decide (elem ≠ f_Name f) then
        size ← argSize tbl h buf;
        findField elem fields overlay (S i) (u64 (offset + size)) args
      else Ret (Some (buf, offset))
  end.

(** The loop over the parents of [pos] up to the one of the template [elem]. *)
Fixpoint climb (fuel : nat) (elem : string) (parents : parentsMap) (pos : option id) : res (option Arg) :=
  match fuel with
  | O => NoFuel
  | S fuel =>
      match parents !! pos with
      | None => Ret None
      | Some buf =>
          t ← argType tbl h buf;
          if bool_decide (elem ≠ TemplateName t) then climb fuel elem parents (Some (argId buf))
          else Ret (Some buf)
      end
  end.

Definition assignSizeStruct (assign : option id → list Arg → list Field → nat → res (option Z)) (buf : option Arg) : res (option Z) :=
  match buf with
  | Some (GroupArg a inner) =>
      t ← typeOf tbl (a_ref a);
      match t with
      | StructType _ fields _ overlay => assign (Some (a_id a)) inner fields overlay
      | _ => Panic
      end
  | _ => Panic
  end.

(** The end of a path gives the size of [buf], and a longer path leads into it. *)
Definition assignFrom (assign : option id → list Arg → list Field → nat → res (option Z)) (bitSize : Z) (isOffset : bool)
    (path : list string) (buf : option Arg) (offset : Z) : res (option Z) :=
  match path with
  | [] => buf ← of_option buf; v ← computeSize buf offset bitSize isOffset; Ret (Some v)
  | _ => assignSizeStruct assign buf
  end.

(** [assignSize]: what is written to [dst.Val], if anything.  The length has the
    attributes [bitSize] and [isOffset]. *)
Fixpoint assignSize (bitSize : Z) (isOffset : bool) (parents : parentsMap) (path : list string) (pos : option id)
    (args : list Arg) (fields : list Field) (overlay : nat) : res (option Z) :=
  match path with
  | [] => Panic
  | elem :: path =>
      let from := assignFrom (assignSize bitSize isOffset parents path) bitSize isOffset path in
      found ← findField elem fields overlay 0 0 args;
      match found with
      | Some (buf, offset) =>
          ref ← argRef h buf;
          _ ← typeOf tbl ref;
          if bool_decide (ref = ptrPtr ∨ ref = ptr64) then Ret None
          else
            inner ← InnerArg tbl h buf;
            match inner with
            | None => Ret (Some 0)
            | Some buf => from (Some buf) offset
            end
      | None =>
          if bool_decide (elem = ParentRef) then from (parents !! pos) noOffset
          else
            buf ← climb (S (size parents)) elem parents pos;
            match buf with
            | Some buf => from (Some buf) noOffset
            | None => Panic
            end
      end
  end.

(** The values that are written, and what is left of [autos]. *)
Local Notation sizeRun := (list (id * Z) * option (gset id))%type.

(** One round of the loop of [assignSizes]. *)
Definition assignSizes1 (args : list Arg) (fields : list Field) (parents : parentsMap)
    (syscallArgs : list Arg) (syscallFields : list Field) (overlay : nat) (arg : Arg) (autos : option (gset id)) : res sizeRun :=
  inner ← InnerArg tbl h arg;
  match inner with
  | None => Ret ([], autos)
  | Some arg =>
      t ← argType tbl h arg;
      match t with
      | LenType _ bitSize isOffset path =>
          if match autos with Some s => bool_decide (argId arg ∉ s) | None => false end then Ret ([], autos)
          else
            let autos := (λ s : gset id, s ∖ {[ argId arg ]}) <$> autos in
            match arg with
            | ConstArg a _ =>
                elem ← of_option (head path);
                v ← (if bool_decide (elem = SyscallRef)
                     then assignSize bitSize isOffset parents (tail path) None syscallArgs syscallFields 0
                     else assignSize bitSize isOffset parents path (Some (a_id a)) args fields overlay);
                Ret (match v with Some v => [(a_id a, v)] | None => [] end, autos)
            | _ => Panic
            end
      | _ => Ret ([], autos)
      end
  end.

(** A loop that collects the writes. *)
Definition collect {A} (f : A → option (gset id) → res sizeRun) : list A → option (gset id) → res sizeRun :=
  fix go l autos :=
    match l with
    | [] => Ret ([], autos)
    | x :: l => r ← f x autos; r' ← go l r.2; Ret (r.1 ++ r'.1, r'.2)
    end.

Definition assignSizes (args : list Arg) (fields : list Field) (parents : parentsMap)
    (syscallArgs : list Arg) (syscallFields : list Field) (overlay : nat) (autos : option (gset id)) : res sizeRun :=
  collect (assignSizes1 args fields parents syscallArgs syscallFields overlay) args autos.

(** The structs of a walk. *)
Definition structOf (v : visit) : res (option (Arg * list Arg * list Field * nat)) :=
  t ← argType tbl h (v_arg v);
  match t with
  | StructType _ fields _ overlay =>
      match v_arg v with
      | GroupArg _ inner => Ret (Some (v_arg v, inner, fields, overlay))
      | _ => Panic
      end
  | _ => Ret None
  end.

(** [parentsMap[InnerArg(field)] = arg] for the fields of a struct. *)
Fixpoint addParents (arg : Arg) (inner : list Arg) (parents : parentsMap) : res parentsMap :=
  match inner with
  | [] => Ret parents
  | field :: inner =>
      buf ← InnerArg tbl h field;
      addParents arg inner (<[argId <$> buf := arg]> parents)
  end.

Fixpoint parentsOf (vs : list visit) (parents : parentsMap) : res parentsMap :=
  match vs with
  | [] => Ret parents
  | v :: vs =>
      s ← structOf v;
      parents ← match s with Some (arg, inner, _, _) => addParents arg inner parents | None => Ret parents end;
      parentsOf vs parents
  end.

Definition assignSizesArray (args : list Arg) (fields : list Field) (autos : option (gset id)) : res sizeRun :=
  vss ← mapM (ForeachSubArg tbl h) args;
  parents ← parentsOf (concat vss) ∅;
  r ← assignSizes args fields parents args fields 0 autos;
  r' ← collect (λ v autos,
         s ← structOf v;
         match s with
         | Some (_, inner, fs, overlay) => assignSizes inner fs parents args fields overlay autos
         | None => Ret ([], autos)
         end) (concat vss) r.2;
  Ret (r.1 ++ r'.1, r'.2).

End Sizes.

(** The values [ws] in the constants of a tree. *)
Fixpoint setVals (ws : gmap id Z) (arg : Arg) : Arg :=
  match arg with
  | ConstArg a val => ConstArg a (default val (ws !! a_id a))
  | PointerArg a address vmaSize (Some x) => PointerArg a address vmaSize (Some (setVals ws x))
  | GroupArg a inner => GroupArg a (setVals ws <$> inner)
  | UnionArg a opt index => UnionArg a (setVals ws opt) index
  | _ => arg
  end.

(** Later writes win. *)
Definition writesMap (ws : list (id * Z)) : gmap id Z := foldl (λ m w, <[w.1 := w.2]> m) ∅ ws.

Definition assignSizesCall (tbl : list Typ) (ptrPtr ptr64 : Ref) (h : Heap) (c : Call) : res Call :=
  r ← assignSizesArray tbl ptrPtr ptr64 h (c_Args c) (sc_Args (c_Meta c)) None;
  Ret (mkCall (c_Meta c) (setVals (writesMap r.1) <$> c_Args c) (c_Ret c) (c_Props c)).

(** ** What the sizes depend on *)

Section Alike.

(** With [exact], buffers are the same, and all that is computed is the same;
    without it, what is computed may differ or fail, but the same fields are
    written.  [Q] is what may happen to a constant. *)
Context (exact : bool) (Q : ArgCommon → Z → Z → Prop).

Inductive alike : Arg → Arg → Prop :=
  | al_const a v v1 : Q a v v1 → alike (ConstArg a v) (ConstArg a v1)
  | al_nil a ad vm : alike (PointerArg a ad vm None) (PointerArg a ad vm None)
  | al_ptr a ad vm x y : alike x y → alike (PointerArg a ad vm (Some x)) (PointerArg a ad vm (Some y))
  | al_data a d s d1 : (exact = true → d1 = d) → alike (DataArg a d s) (DataArg a d1 s)
  | al_group a l l1 : Forall2 alike l l1 → alike (GroupArg a l) (GroupArg a l1)
  | al_union a x y i : alike x y → alike (UnionArg a x i) (UnionArg a y i)
  | al_result p : alike (ResultArg p) (ResultArg p).

(** Results that are related, or failures. *)
Definition rr {A B} (P : A → B → Prop) (m : res A) (m1 : res B) : Prop :=
  match m, m1 with
  | Ret a, Ret b => P a b
  | Panic, Panic | NoFuel, NoFuel => True
  | _, _ => exact = false
  end.

Definition vv (v v1 : Z) : Prop := exact = true → v1 = v.

Lemma rr_bind {A B A1 B1} (P : A → A1 → Prop) (R : B → B1 → Prop) m m1 (k : A → res B) (k1 : A1 → res B1) :
  rr P m m1 → (∀ a b, P a b → rr R (k a) (k1 b)) → rr R (m ≫= k) (m1 ≫= k1).
Proof.
  destruct m, m1; cbn [rr mbind res_bind]; intros Hm Hk; try done; try (by apply Hk);
    try (destruct (k _); done); try (destruct (k1 _); done).
Qed.

Lemma rr_refl {A} (m : res A) : rr eq m m.
Proof. by destruct m. Qed.

Lemma rr_impl {A B} (P R : A → B → Prop) m m1 : (∀ a b, P a b → R a b) → rr P m m1 → rr R m m1.
Proof. intros HPR. destruct m, m1; cbn; auto. Qed.

Lemma rr_mapM {A A1 B B1} (R : A → A1 → Prop) (P : B → B1 → Prop) f f1 l l1 : (∀ x y, R x y → rr P (f x) (f1 y)) → Forall2 R l l1 →
  rr (Forall2 P) (mapM f l) (mapM f1 l1).
Proof.
  intros Hf. induction 1 as [|x y l l1 Hx _ IH]; [by constructor|]. cbn [mapM]. eapply rr_bind; [by apply Hf|].
  intros a b Hab. eapply rr_bind; [exact IH|]. intros. by constructor.
Qed.

Section Heap.

Context (tbl : list Typ) (ptrPtr ptr64 : Ref) (h : Heap).

Lemma alike_id x y : alike x y → argId y = argId x.
Proof. by inversion 1. Qed.

Lemma alike_ref x y : alike x y → argRef h y = argRef h x.
Proof. by inversion 1. Qed.

Lemma alike_type x y : alike x y → argType tbl h y = argType tbl h x.
Proof. intros Ha. unfold argType. by rewrite (alike_ref x y Ha). Qed.

Lemma rr_type x y : alike x y → rr eq (argType tbl h x) (argType tbl h y).
Proof. intros Ha. rewrite (alike_type x y Ha). apply rr_refl. Qed.

Lemma structSize_vv align overlay n : ∀ sizes sizes1 i size size1 offset offset1, Forall2 vv sizes sizes1 → vv size size1 → vv offset offset1 →
  vv (structSize align overlay n i size offset sizes) (structSize align overlay n i size1 offset1 sizes1).
Proof using Type.
  intros sizes sizes1 i size size1 offset offset1 Hf Hs Ho He. rewrite Hs, Ho by done. f_equal.
  clear -Hf He. induction Hf as [|x y l l1 Hx _ IH]; [done|]. by rewrite Hx, IH.
Qed.

Lemma alike_size x y : alike x y → rr vv (argSize tbl h x) (argSize tbl h y).
Proof using Type.
  revert y. induction x as [a v|a ad vm|a ad vm x IH|a d s|a inner IH|a opt index IH|p] using Arg_tree_ind; intros y Ha; inversion Ha; subst.
  1,2,3,7: eapply rr_impl; [|apply rr_refl]; by intros ? ? ->.
  - cbn. intros He. match goal with H : exact = true → _ |- _ => by rewrite H end.
  - match goal with H : Forall2 alike _ _ |- _ => rename H into Hf end.
    assert (Hm : rr (Forall2 vv) (mapM (argSize tbl h) inner) (mapM (argSize tbl h) l1)).
    { clear -IH Hf. revert l1 Hf. induction IH as [|x l Hx _ IHl]; intros l1 Hf; inversion Hf; subst; [by constructor|]. cbn [mapM].
      eapply rr_bind; [by apply Hx|]. intros a b Hab. eapply rr_bind; [by apply IHl|]. intros. by constructor. }
    cbn [argSize]. eapply rr_bind; [apply rr_refl|]. intros t ? <-.
    destruct (negb (Varlen t)); [eapply rr_impl; [|apply rr_refl]; by intros ? ? ->|].
    destruct t; try done; (eapply rr_bind; [exact Hm|]); intros sizes sizes1 Hs; cbn [rr].
    + intros He. f_equal. clear -Hs He. induction Hs as [|? ? ? ? Hx _ IHs]; [done|]. by rewrite Hx, IHs.
    + rewrite <- (Forall2_length _ _ _ Hf). by apply structSize_vv.
  - cbn [argSize]. eapply rr_bind; [apply rr_refl|]. intros t ? <-.
    destruct (negb (Varlen t)); [eapply rr_impl; [|apply rr_refl]; by intros ? ? ->|]. by apply IH.
Qed.

Lemma alike_inner x y : alike x y → rr (option_Forall2 alike) (InnerArg tbl h x) (InnerArg tbl h y).
Proof using Type.
  revert y. induction x as [a v|a ad vm|a ad vm x IH|a d s|a inner IH|a opt index IH|p] using Arg_tree_ind; intros y Ha;
    pose proof (rr_type _ _ Ha) as Ht; inversion Ha; subst; cbn [InnerArg];
    (eapply rr_bind; [exact Ht|]; intros t ? <-; destruct t; try done; try (by constructor)).
  by apply IH.
Qed.

Lemma divU_vv x y d : vv x y → rr vv (divU x d) (divU y d).
Proof using Type. intros Hv. unfold divU. case_bool_decide; [done|]. cbn. intros He. by rewrite Hv. Qed.

Lemma alike_length l l1 : Forall2 alike l l1 → length l1 = length l.
Proof. intros Hf. by rewrite (Forall2_length _ _ _ Hf). Qed.

Lemma alike_computeSize x y off off1 b o : alike x y → vv off off1 →
  rr vv (computeSize tbl h x off b o) (computeSize tbl h y off1 b o).
Proof using Type.
  intros Ha Hoff. unfold computeSize. destruct o.
  - destruct exact eqn:E.
    + assert (off1 = off) as -> by by apply Hoff. eapply rr_impl; [|apply rr_refl]. by intros ? ? ->.
    + unfold divU, rr. repeat case_bool_decide; done || (cbn; unfold vv; rewrite E; done).
  - assert (Hs : rr vv (size ← argSize tbl h x; divU (size * 8) (if bool_decide (b = 0) then 8 else b))
      (size ← argSize tbl h y; divU (size * 8) (if bool_decide (b = 0) then 8 else b))).
    { eapply rr_bind; [by apply alike_size|]. intros s s1 Hs. apply divU_vv. intros He. by rewrite Hs. }
    eapply rr_bind; [by apply rr_type|]. intros t ? <-.
    destruct t; try exact Hs; inversion Ha; subst; try done; try (by apply divU_vv).
    destruct (bool_decide (b ≠ 0)); [exact Hs|]. cbn. intros _. by rewrite (alike_length l l1).
Qed.

Lemma alike_findField elem fields overlay : ∀ l l1, Forall2 alike l l1 → ∀ i off off1, vv off off1 →
  rr (option_Forall2 (λ r r1, alike r.1 r1.1 ∧ vv r.2 r1.2)) (findField tbl h elem fields overlay i off l)
    (findField tbl h elem fields overlay i off1 l1).
Proof using Type.
  induction 1 as [|x y l l1 Hx _ IH]; intros i off off1 Hoff; [by constructor|]. cbn [findField]. eapply rr_bind; [apply rr_refl|].
  intros f ? <-. assert (Ho : vv (if bool_decide (i = overlay) then 0 else off) (if bool_decide (i = overlay) then 0 else off1)).
  { by case_bool_decide. }
  destruct (bool_decide (elem ≠ f_Name f)); [|by constructor]. eapply rr_bind; [by apply alike_size|]. intros s s1 Hs. apply IH. intros He. by rewrite Ho, Hs.
Qed.

(** Maps of parents that are alike. *)
Definition alikeMaps (m m1 : parentsMap) : Prop := ∀ k, option_Forall2 alike (m !! k) (m1 !! k).

Lemma alikeMaps_size m m1 : alikeMaps m m1 → size m1 = size m.
Proof using Type.
  intros Hm. rewrite <- (size_dom (D := gset (option id)) m), <- (size_dom (D := gset (option id)) m1). f_equal. apply set_eq. intros k.
  rewrite !elem_of_dom. destruct (Hm k) as [x y _|]; split; intros [? ?]; done || by eexists.
Qed.

Lemma alike_climb elem m m1 fuel : alikeMaps m m1 → ∀ pos,
  rr (option_Forall2 alike) (climb tbl h fuel elem m pos) (climb tbl h fuel elem m1 pos).
Proof using Type.
  intros Hm. induction fuel as [|fuel IH]; intros pos; [done|]. cbn [climb].
  destruct (Hm pos) as [x y Hxy|]; [|by constructor].
  eapply rr_bind; [by apply rr_type|]. intros t ? <-. case_bool_decide; [rewrite (alike_id _ _ Hxy); apply IH|by constructor].
Qed.

Lemma alike_assignSize b o m m1 path : alikeMaps m m1 → ∀ pos l l1 fields overlay, Forall2 alike l l1 →
  rr (option_Forall2 vv) (assignSize tbl ptrPtr ptr64 h b o m path pos l fields overlay)
    (assignSize tbl ptrPtr ptr64 h b o m1 path pos l1 fields overlay).
Proof using Type.
  intros Hm. induction path as [|elem path IH]; intros pos l l1 fields overlay Hf; [done|]. cbn [assignSize].
  set (F := assignFrom _ _ (assignSize _ _ _ _ _ _ m _) _ _ _). set (G := assignFrom _ _ (assignSize _ _ _ _ _ _ m1 _) _ _ _).
  assert (Hfrom : ∀ buf buf1 off off1, option_Forall2 alike buf buf1 → vv off off1 → rr (option_Forall2 vv) (F buf off) (G buf1 off1)).
  { intros buf buf1 off off1 Hb Ho. subst F G. unfold assignFrom. destruct path as [|p path].
    - destruct Hb as [x y Hxy|]; [|done]. eapply (rr_bind alike); [exact Hxy|]. intros x' y' Hxy'.
      eapply rr_bind; [by apply alike_computeSize|]. intros v v1 Hv. by constructor.
    - destruct Hb as [x y Hxy|]; [|done]. inversion Hxy; subst; try done. eapply rr_bind; [apply rr_refl|]. intros t ? <-.
      destruct t; try done. by apply IH. }
  eapply rr_bind; [by apply alike_findField|]. intros r r1 Hr. destruct Hr as [[x off] [y off1] [Hxy Ho]|].
  - cbn [fst snd] in Hxy, Ho. rewrite (alike_ref _ _ Hxy). eapply rr_bind; [apply rr_refl|]. intros ref ? <-. eapply rr_bind; [apply rr_refl|].
    intros _ _ _. case_bool_decide; [by constructor|]. eapply rr_bind; [by apply alike_inner|]. intros i i1 Hi.
    pose proof Hi as Hi'. destruct Hi; [by apply Hfrom|by constructor].
  - case_bool_decide; [apply Hfrom; [by apply Hm|done]|].
    rewrite (alikeMaps_size m m1 Hm). eapply rr_bind; [by apply alike_climb|]. intros c c1 Hc. pose proof Hc as Hc'. destruct Hc; [by apply Hfrom|done].
Qed.

(** Writes to the same places. *)
Definition sameWrites (r r1 : list (id * Z) * option (gset id)) : Prop :=
  Forall2 (λ w w1, w1.1 = w.1 ∧ vv w.2 w1.2) r.1 r1.1 ∧ r1.2 = r.2.

Lemma alike_assign1 l l1 fields m m1 sl sl1 sfields overlay x y autos : Forall2 alike l l1 → Forall2 alike sl sl1 → alikeMaps m m1 →
  alike x y → rr sameWrites (assignSizes1 tbl ptrPtr ptr64 h l fields m sl sfields overlay x autos)
    (assignSizes1 tbl ptrPtr ptr64 h l1 fields m1 sl1 sfields overlay y autos).
Proof using Type.
  intros Hl Hsl Hm Hxy. unfold assignSizes1. eapply rr_bind; [by apply alike_inner|]. intros i i1 Hi. destruct Hi as [x' y' Hxy'|]; [|by split].
  eapply rr_bind; [by apply rr_type|]. intros t ? <-. destruct t; try by split. rewrite (alike_id _ _ Hxy').
  destruct (match autos with Some s => bool_decide (argId x' ∉ s) | None => false end); [by split|].
  inversion Hxy'; subst; try done. eapply rr_bind; [apply rr_refl|]. intros elem ? <-.
  eapply (rr_bind (option_Forall2 vv)); [case_bool_decide; by apply alike_assignSize|]. intros w w1 Hw. split; [|done].
  destruct Hw; [|constructor]. by repeat constructor.
Qed.

Lemma alike_collect {A B} (R : A → B → Prop) f f1 l l1 : (∀ x y autos, R x y → rr sameWrites (f x autos) (f1 y autos)) → Forall2 R l l1 →
  ∀ autos, rr sameWrites (collect f l autos) (collect f1 l1 autos).
Proof using Type.
  intros Hf. induction 1 as [|x y l l1 Hx _ IH]; intros autos; [by split|]. cbn [collect]. eapply rr_bind; [by apply Hf|].
  intros r r1 [Hw ->]. eapply rr_bind; [apply IH|]. intros r' r1' [Hw' ->]. split; [by apply Forall2_app|done].
Qed.

Lemma alike_assign l l1 fields m m1 sl sl1 sfields overlay autos : Forall2 alike l l1 → Forall2 alike sl sl1 → alikeMaps m m1 →
  rr sameWrites (assignSizes tbl ptrPtr ptr64 h l fields m sl sfields overlay autos)
    (assignSizes tbl ptrPtr ptr64 h l1 fields m1 sl1 sfields overlay autos).
Proof using Type.
  intros Hl Hsl Hm. unfold assignSizes. eapply alike_collect; [|exact Hl]. intros x y autos' Hxy. by apply alike_assign1.
Qed.

Definition alikeVisits (v v1 : visit) : Prop := alike (v_arg v) (v_arg v1).

Lemma alike_foreach x y : alike x y → ∀ base base1 off off1,
  rr (Forall2 alikeVisits) (foreachArgImpl tbl h base off x) (foreachArgImpl tbl h base1 off1 y).
Proof using Type.
  revert y. induction x as [a v|a ad vm|a ad vm x IH|a d s|a inner IH|a opt index IH|p] using Arg_tree_ind; intros y Ha base base1 off off1;
    pose proof Ha as Ha'; inversion Ha'; subst; cbn [foreachArgImpl]; try (by constructor).
  - eapply rr_bind; [by apply IH|]. intros. by constructor.
  - eapply rr_bind; [apply rr_refl|]. intros t ? <-. match goal with H : Forall2 alike _ _ |- _ => rename H into Hf end.
    match goal with |- rr _ (?F 0%nat off inner ≫= _) (?G 0%nat off1 l1 ≫= _) =>
      assert (Hloop : ∀ i o o1, rr (Forall2 alikeVisits) (F i o inner) (G i o1 l1)) end.
    { clear -IH Hf. revert l1 Hf. induction IH as [|x l Hx _ IHl]; intros l1 Hf i o o1; inversion Hf; subst; [by constructor|].
      eapply rr_bind; [by apply Hx|]. intros vs vs1 Hvs. eapply rr_bind; [by apply alike_size|]. intros sz sz1 _.
      eapply rr_bind; [by apply IHl|]. intros vs' vs1' Hvs'. by apply Forall2_app. }
    eapply rr_bind; [apply Hloop|]. intros. by constructor.
  - eapply rr_bind; [by apply IH|]. intros. by constructor.
Qed.

Definition alikeStructs (s s1 : option (Arg * list Arg * list Field * nat)) : Prop :=
  match s, s1 with
  | Some (x, l, fs, o), Some (y, l1, fs1, o1) => alike x y ∧ Forall2 alike l l1 ∧ fs1 = fs ∧ o1 = o
  | None, None => True
  | _, _ => False
  end.

Lemma alike_struct v v1 : alikeVisits v v1 → rr alikeStructs (structOf tbl h v) (structOf tbl h v1).
Proof using Type.
  intros Hv. unfold structOf. eapply rr_bind; [by apply rr_type|]. intros t ? <-. destruct t; try done.
  unfold alikeVisits in Hv. destruct v as [x ? ?], v1 as [y ? ?]. cbn [v_arg] in *. pose proof Hv as Hv'. by inversion Hv'; subst.
Qed.

Lemma alike_addParents x y l l1 : alike x y → Forall2 alike l l1 → ∀ m m1, alikeMaps m m1 →
  rr alikeMaps (addParents tbl h x l m) (addParents tbl h y l1 m1).
Proof using Type.
  intros Hxy. induction 1 as [|f f1 l l1 Hf _ IH]; intros m m1 Hm; [done|]. cbn [addParents].
  eapply rr_bind; [by apply alike_inner|]. intros b b1 Hb. apply IH. assert (argId <$> b1 = argId <$> b) as ->.
  { destruct Hb as [? ? Hb|]; [|done]. cbn. by rewrite (alike_id _ _ Hb). }
  intros k. destruct (decide (k = argId <$> b)) as [->|Hne]; [rewrite !lookup_insert_eq; by constructor|].
  rewrite !lookup_insert_ne by done. apply Hm.
Qed.

Lemma alike_parents vs vs1 : Forall2 alikeVisits vs vs1 → ∀ m m1, alikeMaps m m1 →
  rr alikeMaps (parentsOf tbl h vs m) (parentsOf tbl h vs1 m1).
Proof using Type.
  induction 1 as [|v v1 vs vs1 Hv _ IH]; intros m m1 Hm; [done|]. cbn [parentsOf]. eapply rr_bind; [by apply alike_struct|].
  intros s s1 Hs. eapply (rr_bind alikeMaps); [|intros; by apply IH].
  destruct s as [[[[x l] fs] o]|], s1 as [[[[y l1] fs1] o1]|]; try done. destruct Hs as (Hxy & Hl & _). by apply alike_addParents.
Qed.

Lemma alike_array l l1 fields autos : Forall2 alike l l1 →
  rr sameWrites (assignSizesArray tbl ptrPtr ptr64 h l fields autos) (assignSizesArray tbl ptrPtr ptr64 h l1 fields autos).
Proof using Type.
  intros Hl. unfold assignSizesArray. eapply rr_bind; [eapply rr_mapM; [|exact Hl]; intros; by apply alike_foreach|].
  intros vss vss1 Hvss. assert (Hc : Forall2 alikeVisits (concat vss) (concat vss1)).
  { induction Hvss; [constructor|]. cbn. by apply Forall2_app. }
  eapply rr_bind; [apply alike_parents; [exact Hc|]; intros k; rewrite !lookup_empty; constructor|]. intros m m1 Hm.
  eapply rr_bind; [by apply alike_assign|]. intros r r1 [Hr ->]. eapply rr_bind.
  - eapply alike_collect; [|exact Hc]. intros v v1 autos' Hv. eapply rr_bind; [by apply alike_struct|].
    intros s s1 Hs. destruct s as [[[[x sl] fs] o]|], s1 as [[[[y sl1] fs1] o1]|]; try done.
    destruct Hs as (Hxy & Hsl & -> & ->). by apply alike_assign.
  - intros r' r1' [Hr' ->]. split; [by apply Forall2_app|done].
Qed.

End Heap.

Lemma alike_refl arg : (∀ a v, Q a v v) → alike arg arg.
Proof using Type.
  intros Hq. induction arg using Arg_tree_ind; constructor; try done. by apply Forall_Forall2_diag.
Qed.

(** Values put into a tree. *)
Lemma alike_setVals ws arg : (∀ a v, Q a v v) → (∀ a v w, ConstArg a v ∈ subArgs arg → ws !! a_id a = Some w → Q a v w) →
  alike arg (setVals ws arg).
Proof using Type.
  intros Hq. induction arg as [a v|a ad vm|a ad vm x IH|a d s|a inner IH|a opt index IH|p] using Arg_tree_ind; intros Hw; cbn [setVals]; try (by constructor).
  - constructor. destruct (ws !! a_id a) as [w|] eqn:E; [|apply Hq]. apply Hw; [by left|done].
  - constructor. apply IH. intros b v w Hin. apply Hw. by right.
  - constructor. cbn [subArgs] in Hw. assert (Hin : ∀ b v w, ConstArg b v ∈ concat (subArgs <$> inner) → ws !! a_id b = Some w → Q b v w).
    { intros b v w Hb. apply Hw. by right. }
    clear Hw. induction IH as [|x l Hx _ IHl]; [constructor|]. cbn [fmap list_fmap concat] in Hin |- *. constructor.
    + apply Hx. intros b v w Hb. apply Hin, elem_of_app. by left.
    + apply IHl. intros b v w Hb. apply Hin, elem_of_app. by right.
  - constructor. apply IH. intros b v w Hin. apply Hw. by right.
Qed.

End Alike.

(** ** What is written *)

(** Attributes of lengths are 64-bit numbers. *)
Definition lensFit (tbl : list Typ) : Prop :=
  ∀ ref c bitSize isOffset path, tbl !! ref = Some (LenType c bitSize isOffset path) → isU64 bitSize.

(** A length that is written. *)
Definition lenWrite (tbl : list Typ) (args : list Arg) (w : id * Z) : Prop :=
  isU64 w.2 ∧ ∃ a v c b o p, ConstArg a v ∈ concat (subArgs <$> args) ∧ a_id a = w.1 ∧ typeOf tbl (a_ref a) = Ret (LenType c b o p).

Section Writes.

Context (tbl : list Typ) (ptrPtr ptr64 : Ref) (h : Heap) (Hlens : lensFit tbl).

Lemma divU_u64 x y v : 0 ≤ y → divU x y = Ret v → isU64 v.
Proof using Type.
  intros Hy. unfold divU. case_bool_decide; [done|]. intros [= <-]. pose proof (u64_range x) as Hx. unfold isU64 in *. split.
  - apply Z.div_pos; lia.
  - apply Z.le_lt_trans with (u64 x); [|lia]. apply Z.div_le_upper_bound; [lia|]. nia.
Qed.

Lemma computeSize_u64 arg off b o v : isU64 b → computeSize tbl h arg off b o = Ret v → isU64 v.
Proof using Type.
  intros Hb. unfold computeSize, isU64 in *. destruct o.
  - case_bool_decide; [done|]. intros Hv. eapply divU_u64; [|exact Hv]. lia.
  - assert (Hy : 0 ≤ (if bool_decide (b = 0) then 8 else b)) by (case_bool_decide; lia).
    assert (Hs : ∀ m, (size ← m; divU (size * 8) (if bool_decide (b = 0) then 8 else b)) = Ret v → isU64 v).
    { intros m (s & _ & Hv)%bind_ret_inv. by eapply divU_u64. }
    intros (t & _ & Hv)%bind_ret_inv. destruct t; try (by eapply Hs); destruct arg; try done; try (by eapply divU_u64).
    destruct (bool_decide (b ≠ 0)); [by eapply Hs|]. injection Hv as <-. apply u64_range.
Qed.

Lemma assignSize_u64 b o parents path : isU64 b → ∀ pos l fields overlay v,
  assignSize tbl ptrPtr ptr64 h b o parents path pos l fields overlay = Ret (Some v) → isU64 v.
Proof using Type.
  intros Hb. induction path as [|elem path IH]; intros pos l fields overlay v; [done|]. cbn [assignSize].
  set (F := assignFrom _ _ _ _ _ _). assert (Hfrom : ∀ buf off, F buf off = Ret (Some v) → isU64 v).
  { intros buf off. subst F. unfold assignFrom, assignSizeStruct. destruct path as [|p path].
    - intros (x & _ & Hv)%bind_ret_inv. apply bind_ret_inv in Hv as (w & Hw & [= ->]). by eapply computeSize_u64.
    - destruct buf as [[]|]; try done. intros (t & _ & Hv)%bind_ret_inv. destruct t; try done. by eapply IH. }
  intros (r & _ & Hv)%bind_ret_inv. destruct r as [[x off]|].
  - apply bind_ret_inv in Hv as (ref & _ & Hv). apply bind_ret_inv in Hv as (t & _ & Hv). case_bool_decide; [done|].
    apply bind_ret_inv in Hv as ([y|] & _ & Hv); [by eapply Hfrom|]. injection Hv as <-. unfold isU64. lia.
  - case_bool_decide; [by eapply Hfrom|]. apply bind_ret_inv in Hv as ([y|] & _ & Hv); [by eapply Hfrom|done].
Qed.

Lemma typeOf_elem ref t : typeOf tbl ref = Ret t → tbl !! ref = Some t.
Proof using Type. unfold typeOf. case_bool_decide; [done|]. apply of_option_inv. Qed.

Lemma subArgs_trans x y z : y ∈ subArgs z → x ∈ subArgs y → x ∈ subArgs z.
Proof using Type.
  intros Hy Hx. induction z as [p|z Hn IH] using tree_ind; rewrite subArgs_children in Hy; apply elem_of_cons in Hy as [->|Hy]; try done.
  - by apply elem_of_nil in Hy.
  - apply elem_concat_fmap in Hy as (c & Hc & Hin). rewrite Forall_forall in IH. eapply subArgs_child; [exact Hc|]. by apply IH.
Qed.

Lemma InnerArg_sub x y : InnerArg tbl h x = Ret (Some y) → y ∈ subArgs x.
Proof using Type.
  induction x as [a v|a ad vm|a ad vm x IH|a d s|a inner IH|a opt index IH|p] using Arg_tree_ind; cbn [InnerArg];
    intros (t & _ & Hv)%bind_ret_inv; destruct t; try done; try (injection Hv as <-; rewrite subArgs_children; by left).
  rewrite subArgs_children. right. cbn. rewrite app_nil_r. by apply IH.
Qed.

Lemma assign1_writes args l fields parents sl sfields overlay x autos r : (∀ y, y ∈ subArgs x → y ∈ concat (subArgs <$> args)) →
  assignSizes1 tbl ptrPtr ptr64 h l fields parents sl sfields overlay x autos = Ret r → Forall (lenWrite tbl args) r.1.
Proof using Hlens.
  intros Hx. unfold assignSizes1. intros ([y|] & Hi & Hv)%bind_ret_inv; [|by injection Hv as <-; constructor].
  apply InnerArg_sub, Hx in Hi. apply bind_ret_inv in Hv as (t & Ht & Hv). destruct t; try (by injection Hv as <-; constructor).
  destruct (match autos with Some _ => _ | None => _ end); [by injection Hv as <-; constructor|]. destruct y; try done.
  apply bind_ret_inv in Hv as (elem & _ & Hv). apply bind_ret_inv in Hv as (v & Hw & [= <-]).
  destruct v as [v|]; [|constructor]. constructor; [|constructor].
  unfold argType in Ht. cbn [argRef mbind res_bind] in Ht. split; [|by repeat eexists].
  assert (isU64 BitSize) by (eapply Hlens; by apply typeOf_elem).
  cbn [snd]. case_bool_decide; by eapply assignSize_u64.
Qed.

Lemma collect_writes {A} (P : id * Z → Prop) (f : A → option (gset id) → res (list (id * Z) * option (gset id))) l autos r :
  (∀ x autos r, x ∈ l → f x autos = Ret r → Forall P r.1) → collect f l autos = Ret r → Forall P r.1.
Proof using Type.
  revert autos r. induction l as [|x l IH]; intros autos r Hf Hr; cbn [collect] in Hr; [by injection Hr as <-|].
  apply bind_ret_inv in Hr as (r1 & H1 & Hr). apply bind_ret_inv in Hr as (r2 & H2 & [= <-]). apply Forall_app. split.
  - eapply Hf; [by left|exact H1].
  - eapply IH; [|exact H2]. intros y autos' r' Hy. apply Hf. by right.
Qed.

Lemma array_writes args fields autos r : assignSizesArray tbl ptrPtr ptr64 h args fields autos = Ret r → Forall (lenWrite tbl args) r.1.
Proof using Hlens.
  unfold assignSizesArray. intros (vss & Hvss & Hr)%bind_ret_inv. apply bind_ret_inv in Hr as (m & _ & Hr).
  apply bind_ret_inv in Hr as (r1 & H1 & Hr). apply bind_ret_inv in Hr as (r2 & H2 & [= <-]).
  assert (Hvs : v_arg <$> concat vss = concat (subArgs <$> args)).
  { eapply mapM_res_concat; [|exact Hvss]. intros x vs _. apply foreachArgImpl_args. }
  apply Forall_app. split.
  - eapply collect_writes; [|exact H1]. intros x autos' r Hx. apply assign1_writes. intros y Hy. apply elem_concat_fmap. eauto.
  - eapply collect_writes; [|exact H2]. intros v autos' r Hv (s & Hs & Hr)%bind_ret_inv. unfold structOf in Hs.
    apply bind_ret_inv in Hs as (t & _ & Hs). assert (Hin : v_arg v ∈ concat (subArgs <$> args)) by (rewrite <- Hvs; by apply list_elem_of_fmap_2).
    destruct t; try (injection Hs as <-; by injection Hr as <-; constructor). destruct (v_arg v) as [| | |a inner| |] eqn:Ea; try done.
    injection Hs as <-. eapply collect_writes; [|exact Hr]. intros x autos'' r' Hx. apply assign1_writes. intros y Hy.
    apply elem_concat_fmap in Hin as (z & Hz & Hin). apply elem_concat_fmap. exists z. split; [done|].
    eapply subArgs_trans; [exact Hin|]. by eapply subArgs_child.
Qed.

End Writes.

(** ** Calls *)

(** A constant is kept, or it is a length. *)
Definition lenOnly (tbl : list Typ) (a : ArgCommon) (v v1 : Z) : Prop :=
  v1 = v ∨ isU64 v1 ∧ ∃ c b o p, typeOf tbl (a_ref a) = Ret (LenType c b o p).

Lemma lenOnly_refl tbl a v : lenOnly tbl a v v.
Proof. by left. Qed.

Lemma writesMap_snoc ws w : writesMap (ws ++ [w]) = <[w.1 := w.2]> (writesMap ws).
Proof. unfold writesMap. by rewrite foldl_app. Qed.

Lemma writesMap_elem ws i v : writesMap ws !! i = Some v → (i, v) ∈ ws.
Proof.
  induction ws as [|[j w] ws IH] using rev_ind; [done|]. rewrite writesMap_snoc. intros [[<- <-]|[_ Hi]]%lookup_insert_Some; apply elem_of_app.
  - right. by apply list_elem_of_singleton.
  - left. by apply IH.
Qed.

Lemma writesMap_in ws i : (∃ v, (i, v) ∈ ws) → is_Some (writesMap ws !! i).
Proof.
  intros (v & Hv). induction ws as [|w ws IH] using rev_ind; [by apply elem_of_nil in Hv|]. rewrite writesMap_snoc, lookup_insert_is_Some'.
  apply elem_of_app in Hv as [Hv|Hv]; [right; by apply IH|left; by apply list_elem_of_singleton in Hv as <-].
Qed.

Lemma writesMap_dom ws ws1 i : ws1.*1 = ws.*1 → is_Some (writesMap ws1 !! i) → is_Some (writesMap ws !! i).
Proof.
  revert ws1. induction ws as [|[j w] ws IH] using rev_ind; intros ws1 Heq; [by destruct ws1|].
  destruct ws1 as [|[j1 w1] ws1 _] using rev_ind; [by rewrite fmap_app in Heq; destruct (ws.*1)|].
  rewrite !fmap_app in Heq. apply app_inj_tail in Heq as [Heq [= ->]]. rewrite !writesMap_snoc, !lookup_insert_is_Some. cbn [fst].
  intros [?|[? ?]]; [by left|right; split; [done|by eapply IH]].
Qed.

Lemma sameWrites_ids exact r r1 : sameWrites exact r r1 → r1.1.*1 = r.1.*1.
Proof. intros [Hf _]. induction Hf as [|? ? ? ? [Hw _] _ IH]; [done|]. cbn. by rewrite Hw, IH. Qed.

Lemma sameWrites_eq r r1 : sameWrites true r r1 → r1 = r.
Proof.
  destruct r as [ws au], r1 as [ws1 au1]. intros [Hf Hau]. cbn in *. subst au1. f_equal.
  induction Hf as [|[? ?] [? ?] ? ? [Hw Hv] _ IH]; [done|]. cbn in *. by rewrite Hw, (Hv eq_refl), IH.
Qed.

Lemma setVals_twice ws arg : setVals ws (setVals ws arg) = setVals ws arg.
Proof.
  induction arg as [a v|a ad vm|a ad vm x IH|a d s|a inner IH|a opt index IH|p] using Arg_tree_ind; cbn [setVals]; try done.
  - by destruct (ws !! a_id a).
  - by rewrite IH.
  - f_equal. rewrite <- list_fmap_compose. induction IH as [|x l Hx _ IHl]; [done|]. cbn. by rewrite Hx, IHl.
  - by rewrite IH.
Qed.

(** A later write covers an earlier one to the same fields. *)
Lemma setVals_cover ws ws1 arg : (∀ i, is_Some (ws1 !! i) → is_Some (ws !! i)) → setVals ws (setVals ws1 arg) = setVals ws arg.
Proof.
  intros Hd. induction arg as [a v|a ad vm|a ad vm x IH|a d s|a inner IH|a opt index IH|p] using Arg_tree_ind; cbn [setVals]; try done.
  - destruct (ws !! a_id a) as [w|] eqn:E; [done|]. destruct (ws1 !! a_id a) as [w1|] eqn:E1; [|done].
    destruct (Hd (a_id a)) as [? ?]; [by eexists|congruence].
  - by rewrite IH.
  - f_equal. rewrite <- list_fmap_compose. induction IH as [|x l Hx _ IHl]; [done|]. cbn. by rewrite Hx, IHl.
  - by rewrite IH.
Qed.

Lemma lens_alike tbl ptrPtr ptr64 h args fields autos r : lensFit tbl → NoDup (concat (nodesOf <$> args)) →
  assignSizesArray tbl ptrPtr ptr64 h args fields autos = Ret r → Forall2 (alike true (lenOnly tbl)) args (setVals (writesMap r.1) <$> args).
Proof.
  intros Hl Hnd Hr. apply array_writes in Hr; [|done]. rewrite Forall_forall in Hr.
  assert (Hids : argId <$> concat (subArgs <$> args) = concat (nodesOf <$> args)).
  { clear. induction args as [|x l IH]; [done|]. cbn [fmap list_fmap concat]. rewrite fmap_app. f_equal; [apply subArgs_nodes|exact IH]. }
  rewrite <- Hids in Hnd. apply Forall2_fmap_r, Forall_Forall2_diag, Forall_forall. intros x Hx.
  apply alike_setVals; [apply lenOnly_refl|]. intros a v w Hin Hw%writesMap_elem%Hr.
  destruct Hw as (Hu & b & v' & c & bs & o & p & Hb & Hid & Ht). cbn [fst snd] in *. right. split; [done|].
  assert (Heq : ConstArg b v' = ConstArg a v); [|injection Heq as -> _; eauto].
  eapply (NoDup_fmap_inj argId); [exact Hnd|done| |done]. apply elem_concat_fmap. eauto.
Qed.

(** Assigning the sizes of a call whose sizes have been assigned changes nothing. *)
Lemma assignSizesCall_again tbl ptrPtr ptr64 h c c1 : assignSizesCall tbl ptrPtr ptr64 h c = Ret c1 →
  assignSizesCall tbl ptrPtr ptr64 h c1 = Ret c1.
Proof.
  unfold assignSizesCall. intros (r & Hr & [= <-])%bind_ret_inv. cbn [c_Args c_Meta c_Ret c_Props].
  assert (Ha : Forall2 (alike true (λ _ _ _, True)) (c_Args c) (setVals (writesMap r.1) <$> c_Args c)).
  { apply Forall2_fmap_r, Forall_Forall2_diag, Forall_true. intros x. by apply alike_setVals. }
  pose proof (alike_array true _ tbl ptrPtr ptr64 h _ _ (sc_Args (c_Meta c)) None Ha) as Hrr. rewrite Hr in Hrr.
  destruct (assignSizesArray _ _ _ _ (setVals _ <$> _) _ _) as [r1| |]; try done. cbn [rr] in Hrr. apply sameWrites_eq in Hrr as ->.
  cbn [mbind res_bind]. f_equal. f_equal. rewrite <- list_fmap_compose. apply list_fmap_ext. intros _ x _. apply setVals_twice.
Qed.

(** ** Lengths of arguments *)

Section Runs.

Context (tbl : list Typ) (ptrPtr ptr64 : Ref) (h : Heap).

(** Runs without a set of fields to fill in. *)
Lemma assign1_none l fs parents sl sfields overlay z r : assignSizes1 tbl ptrPtr ptr64 h l fs parents sl sfields overlay z None = Ret r → r.2 = None.
Proof using Type.
  unfold assignSizes1. intros ([u|] & _ & Hv)%bind_ret_inv; [|by injection Hv as <-]. apply bind_ret_inv in Hv as (t & _ & Hv).
  destruct t; try (by injection Hv as <-). destruct u; try done. apply bind_ret_inv in Hv as (? & _ & Hv). by apply bind_ret_inv in Hv as (? & _ & [= <-]).
Qed.

Lemma collect_none {A} (g : A → option (gset id) → res (list (id * Z) * option (gset id))) l r :
  (∀ z r, g z None = Ret r → r.2 = None) → collect g l None = Ret r → r.2 = None ∧ ∀ w, w ∈ r.1 ↔ ∃ z rz, z ∈ l ∧ g z None = Ret rz ∧ w ∈ rz.1.
Proof using Type.
  intros Hg. revert r. induction l as [|z l IH]; intros r Hr; cbn [collect] in Hr; [injection Hr as <-; split; [done|]; intros w; cbn; set_solver|].
  apply bind_ret_inv in Hr as (r1 & H1 & Hr). rewrite (Hg _ _ H1) in Hr. apply bind_ret_inv in Hr as (r2 & H2 & [= <-]). destruct (IH r2 H2) as [Hn Hin]. split; [done|].
  intros w. cbn [fst]. rewrite elem_of_app, Hin. split.
  - intros [Hw|(z' & rz & Hz & Hrz & Hw)]; [exists z, r1; split; [by left|done]|]. exists z', rz. split; [by right|done].
  - intros (z' & rz & [->|Hz]%elem_of_cons & Hrz & Hw); [left; rewrite H1 in Hrz; by injection Hrz as <-|]. right. eauto.
Qed.

(** A write goes to the argument that the loop has reached. *)
Lemma assign1_elem l fs parents sl sfields overlay z r w : assignSizes1 tbl ptrPtr ptr64 h l fs parents sl sfields overlay z None = Ret r → w ∈ r.1 →
  ∃ u, u ∈ subArgs z ∧ argId u = w.1.
Proof using Type.
  unfold assignSizes1. intros ([u|] & Hu & Hv)%bind_ret_inv; [apply InnerArg_sub in Hu|injection Hv as <-; by intros ?%elem_of_nil].
  apply bind_ret_inv in Hv as (t & _ & Hv). destruct t; try (injection Hv as <-; by intros ?%elem_of_nil). destruct u as [b v0| | | | |]; try done.
  apply bind_ret_inv in Hv as (? & _ & Hv). apply bind_ret_inv in Hv as ([w0|] & _ & [= <-]); [|by intros ?%elem_of_nil].
  intros ->%list_elem_of_singleton. by exists (ConstArg b v0).
Qed.

End Runs.

Section Lengths.

Context (tbl : list Typ) (ptrPtr ptr64 : Ref) (h : Heap) (args : list Arg) (fields : list Field) (Hnd : NoDup (concat (nodesOf <$> args))).

(** The argument [j] is the length of what the argument [k] holds. *)
Context (j k : nat) (a : ArgCommon) (v : Z) (c : IntTypeCommon) (bits : Z) (f : Field) (x y : Arg) (ref : Ref).
Context (Hj : args !! j = Some (ConstArg a v)) (Ht : typeOf tbl (a_ref a) = Ret (LenType c bits false [f_Name f])) (Hsys : f_Name f ≠ SyscallRef).
Context (Hf : fields !! k = Some f) (Hfirst : ∀ k' f', (k' < k)%nat → fields !! k' = Some f' → f_Name f' ≠ f_Name f).
Context (Hx : args !! k = Some x) (Href : argRef h x = Ret ref) (Hany : ref ≠ ptrPtr ∧ ref ≠ ptr64) (Hinner : InnerArg tbl h x = Ret (Some y)).

Lemma find_named l fs overlay n : ∀ i off r, l !! n = Some x → fs !! (i + n)%nat = Some f → (∀ n' f', (n' < n)%nat → fs !! (i + n')%nat = Some f' → f_Name f' ≠ f_Name f) →
  findField tbl h (f_Name f) fs overlay i off l = Ret r → ∃ off', r = Some (x, off').
Proof using Hany.
  revert l. induction n as [|n IH]; intros [|z l] i off r Hl Hfs Hno Hr; try done; cbn [findField] in Hr; cbv zeta in Hr.
  - injection Hl as ->. rewrite Nat.add_0_r in Hfs. rewrite Hfs in Hr. cbn [of_option mbind res_bind] in Hr. rewrite bool_decide_false in Hr by (intros E; by apply E). injection Hr as <-. eauto.
  - apply bind_ret_inv in Hr as (f' & Hf'%of_option_inv & Hr). rewrite bool_decide_true in Hr.
    + apply bind_ret_inv in Hr as (sz & _ & Hr). eapply (IH l (S i)); [done| | |exact Hr]; [by rewrite <- plus_n_Sm in Hfs|].
      intros n' f1 Hlt Hf1. apply (Hno (S n')); [lia|]. by rewrite <- plus_n_Sm.
    + intros E. apply (Hno 0%nat f'); [lia|by rewrite Nat.add_0_r|done].
Qed.

(** What is written to the length. *)
Lemma length_value parents sl sfields overlay autos r : assignSizes1 tbl ptrPtr ptr64 h args fields parents sl sfields overlay (ConstArg a v) autos = Ret r → autos = None →
  ∃ w, computeSize tbl h y 0 bits false = Ret w ∧ r = ([(a_id a, w)], None).
Proof using Type*.
  intros Hr ->. unfold assignSizes1 in Hr. cbn [InnerArg] in Hr. unfold argType, argRef in Hr. cbn [mbind res_bind] in Hr. rewrite Ht in Hr. cbn [mbind res_bind] in Hr.
  rewrite Ht in Hr. cbn [mbind res_bind head of_option fmap option_fmap option_map] in Hr. rewrite bool_decide_false in Hr by done.
  apply bind_ret_inv in Hr as (w & Hw & [= <-]). cbn [assignSize] in Hw. apply bind_ret_inv in Hw as (found & Hfound & Hw).
  destruct (find_named args fields overlay k 0 0 found Hx Hf) as (off & ->); [intros n' f' Hlt; by apply Hfirst|exact Hfound|].
  rewrite Href in Hw. cbn [mbind res_bind] in Hw. apply bind_ret_inv in Hw as (t & _ & Hw). rewrite bool_decide_false in Hw by naive_solver.
  rewrite Hinner in Hw. cbn [mbind res_bind assignFrom of_option] in Hw. apply bind_ret_inv in Hw as (w' & Hw' & [= <-]). exists w'. split; [exact Hw'|done].
Qed.

Lemma same_node u z n : u ∈ subArgs z → args !! n = Some z → argId u = a_id a → n = j ∧ z = ConstArg a v ∧ u = ConstArg a v.
Proof using Hnd Hj Hany.
  intros Hu Hz Hid. assert (n = j) as ->.
  { apply (NoDup_concat_index nodesOf args n j z (ConstArg a v) (a_id a)); [exact Hnd|exact Hz|exact Hj| |by left]. rewrite <- Hid, <- subArgs_nodes. by apply list_elem_of_fmap_2. }
  rewrite Hj in Hz. injection Hz as <-. split; [done|]. split; [done|]. by apply list_elem_of_singleton in Hu.
Qed.

Lemma length_written r : assignSizesArray tbl ptrPtr ptr64 h args fields None = Ret r → ∃ w, computeSize tbl h y 0 bits false = Ret w ∧ writesMap r.1 !! a_id a = Some w.
Proof using Type*.
  unfold assignSizesArray. intros (vss & Hvss & Hr)%bind_ret_inv. apply bind_ret_inv in Hr as (m & _ & Hr).
  apply bind_ret_inv in Hr as (r1 & H1 & Hr). apply bind_ret_inv in Hr as (r2 & H2 & [= <-]). cbn [fst].
  assert (Hvs : v_arg <$> concat vss = concat (subArgs <$> args)) by (eapply mapM_res_concat; [|exact Hvss]; intros z vs _; apply foreachArgImpl_args).
  unfold assignSizes in H1. destruct (collect_none _ _ _ (λ z r, assign1_none tbl ptrPtr ptr64 h _ _ _ _ _ _ z r) H1) as [Hn1 Hin1]. rewrite Hn1 in H2.
  apply collect_none in H2 as [_ Hin2].
  2: { intros vi ri (s & _ & Hri)%bind_ret_inv. destruct s as [[[[? inner] fs] overlay]|]; [|by injection Hri as <-].
    by eapply (collect_none _ _ _ (λ z r, assign1_none tbl ptrPtr ptr64 h _ _ _ _ _ _ z r)) in Hri as [? _]. }
  assert (Hown : ∃ rz w, assignSizes1 tbl ptrPtr ptr64 h args fields m args fields 0 (ConstArg a v) None = Ret rz ∧ computeSize tbl h y 0 bits false = Ret w ∧ rz = ([(a_id a, w)], None)).
  { assert (Hdone : ∀ l r, ConstArg a v ∈ l → collect (assignSizes1 tbl ptrPtr ptr64 h args fields m args fields 0) l None = Ret r →
      ∃ rz, assignSizes1 tbl ptrPtr ptr64 h args fields m args fields 0 (ConstArg a v) None = Ret rz).
    { induction l as [|z l IH]; intros r' Hz Hr'; [by apply elem_of_nil in Hz|]. cbn [collect] in Hr'. apply bind_ret_inv in Hr' as (ra & Ha & Hr').
      apply elem_of_cons in Hz as [<-|Hz]; [by eexists|].
      rewrite (assign1_none _ _ _ _ _ _ _ _ _ _ _ _ Ha) in Hr'. apply bind_ret_inv in Hr' as (rb & Hb & _). by eapply IH. }
    destruct (Hdone _ _ (list_elem_of_lookup_2 _ _ _ Hj) H1) as [rz Hrz]. destruct (length_value _ _ _ _ _ _ Hrz eq_refl) as (w & Hw & ->). eauto. }
  destruct Hown as (rz & w & Hrz & Hw & ->). exists w. split; [done|].
  assert (Hall : ∀ w', (a_id a, w') ∈ r1.1 ++ r2.1 → w' = w).
  { intros w' [Hw'|Hw']%elem_of_app.
    - apply Hin1 in Hw' as (z & rz & Hz & Hrz' & Hw'). destruct (assign1_elem _ _ _ _ _ _ _ _ _ _ _ _ _ Hrz' Hw') as (u & Hu & Hid). apply list_elem_of_lookup in Hz as [n Hz].
      destruct (same_node u z n Hu Hz Hid) as (-> & -> & ->). rewrite Hrz in Hrz'. injection Hrz' as <-. by apply list_elem_of_singleton in Hw' as [= ->].
    - exfalso. apply Hin2 in Hw' as (vi & ri & Hvi & Hri & Hw'). apply bind_ret_inv in Hri as (s & Hs & Hri). unfold structOf in Hs. apply bind_ret_inv in Hs as (t & _ & Hs).
      assert (Hin : v_arg vi ∈ concat (subArgs <$> args)) by (rewrite <- Hvs; by apply list_elem_of_fmap_2).
      destruct t; try (injection Hs as <-; injection Hri as <-; by apply elem_of_nil in Hw'). destruct (v_arg vi) as [| | |b inner| |]; try done. injection Hs as <-.
      apply (collect_none _ _ _ (λ z r, assign1_none tbl ptrPtr ptr64 h _ _ _ _ _ _ z r)) in Hri as [_ Hri]. apply Hri in Hw' as (z & rz & Hz & Hrz' & Hw').
      destruct (assign1_elem _ _ _ _ _ _ _ _ _ _ _ _ _ Hrz' Hw') as (u & Hu & Hid). apply elem_concat_fmap in Hin as (top & Htop & Hin). apply list_elem_of_lookup in Htop as [n Htop].
      assert (Hut : u ∈ subArgs top) by (eapply subArgs_trans; [exact Hin|]; by eapply subArgs_child).
      destruct (same_node u top n Hut Htop Hid) as (-> & -> & ->). by apply list_elem_of_singleton in Hin. }
  assert (Hsome : is_Some (writesMap (r1.1 ++ r2.1) !! a_id a)).
  { apply writesMap_in. exists w. apply elem_of_app. left. apply Hin1. exists (ConstArg a v), ([(a_id a, w)], None). split; [by eapply list_elem_of_lookup_2|]. split; [done|by left]. }
  destruct Hsome as [w' Hw']. rewrite Hw'. f_equal. by apply Hall, writesMap_elem.
Qed.

End Lengths.

Lemma setVals_nodes ws arg : nodesOf (setVals ws arg) = nodesOf arg.
Proof.
  induction arg as [a v|a ad vm|a ad vm x IH|a d s|a inner IH|a opt index IH|p] using Arg_tree_ind; cbn [setVals nodesOf argId]; try done; f_equal; try done.
  induction IH as [|x l Hx _ IHl]; [done|]. cbn [fmap list_fmap concat]. by rewrite Hx, IHl.
Qed.

(** C16: sizes are assigned consistently. When [assignSizesCall] returns, assigning
    again changes nothing, only length fields have changed, and each length among the
    arguments of the call that names another argument has the size of what that
    argument points to or is. *)
Theorem assignSizesCall_sizes (tbl : list Typ) (ptrPtr ptr64 : Ref) (h : Heap) (c c1 : Call) :
  lensFit tbl → NoDup (concat (nodesOf <$> c_Args c)) → assignSizesCall tbl ptrPtr ptr64 h c = Ret c1 →
  assignSizesCall tbl ptrPtr ptr64 h c1 = Ret c1 ∧ Forall2 (alike true (lenOnly tbl)) (c_Args c) (c_Args c1) ∧
  ∀ j k a v t bits f x y ref,
    c_Args c1 !! j = Some (ConstArg a v) → typeOf tbl (a_ref a) = Ret (LenType t bits false [f_Name f]) → f_Name f ≠ SyscallRef →
    sc_Args (c_Meta c) !! k = Some f → (∀ k' f', (k' < k)%nat → sc_Args (c_Meta c) !! k' = Some f' → f_Name f' ≠ f_Name f) →
    c_Args c1 !! k = Some x → argRef h x = Ret ref → ref ≠ ptrPtr ∧ ref ≠ ptr64 → InnerArg tbl h x = Ret (Some y) →
    computeSize tbl h y 0 bits false = Ret v.
Proof.
  intros Hl Hnd Hc. pose proof (assignSizesCall_again _ _ _ _ _ _ Hc) as Hagain. split; [done|]. unfold assignSizesCall in Hc. apply bind_ret_inv in Hc as (r & Hr & [= <-]).
  cbn [c_Args c_Meta] in *. split; [by eapply lens_alike|]. intros j k a v t bits f x y ref Hj Ht Hsys Hf Hfirst Hx Href Hany Hinner.
  unfold assignSizesCall in Hagain. apply bind_ret_inv in Hagain as (r1 & Hr1 & Heq). cbn [c_Args c_Meta] in *. injection Heq as Heq.
  assert (Hnd1 : NoDup (concat (nodesOf <$> (setVals (writesMap r.1) <$> c_Args c)))).
  { rewrite <- list_fmap_compose. erewrite list_fmap_ext; [exact Hnd|]. intros ? z ?. apply setVals_nodes. }
  destruct (length_written tbl ptrPtr ptr64 h _ _ Hnd1 j k a v t bits f x y ref Hj Ht Hsys Hf Hfirst Hx Href Hany Hinner r1 Hr1) as (w & Hw & Hset).
  rewrite Hw. apply (f_equal (.!! j)) in Heq. rewrite (list_lookup_fmap (setVals (writesMap r1.1))), Hj in Heq. cbn in Heq. rewrite Hset in Heq. by injection Heq as ->.
Qed.

(** A call that writes a buffer of a given length, and one that got the wrong length. *)
Definition sizeTypes : list Typ :=
  let c size := mkTC "t" size 1 false false in
  let ic size := mkITC (c size) FormatNative 0 0 0 0 in
  [ ConstType (ic 0) 0 false; BufferType (mkTC "buf" 0 1 false true) BufferBlobRand 0 0 TextTarget EmptyString [] false; PtrType (c 8) 1 DirIn; LenType (ic 8) 8 false ["buf"] ].

Definition sizeCall (n : Z) : Call :=
  mkCall (mkSyscall 0 "write" [mkField "buf" 2 false DirIn; mkField "n" 3 false DirIn] None false)
    [PointerArg (mkAC 1 2 DirIn) 0 0 (Some (DataArg (mkAC 2 1 DirIn) [7; 8; 9] 0)); ConstArg (mkAC 3 3 DirIn) n] None (mkProps 0 false 0).

Lemma assignSizesCall_sizes_witness :
  assignSizesCall sizeTypes 0 0 (mkHeap 4 ∅) (sizeCall 100) = Ret (sizeCall 3) ∧
  computeSize sizeTypes (mkHeap 4 ∅) (DataArg (mkAC 2 1 DirIn) [7; 8; 9] 0) 0 8 false = Ret 3.
Proof.
  assert (Hrun : assignSizesCall sizeTypes 0 0 (mkHeap 4 ∅) (sizeCall 100) = Ret (sizeCall 3)) by (vm_compute; reflexivity).
  split; [exact Hrun|]. destruct (assignSizesCall_sizes sizeTypes 0 0 (mkHeap 4 ∅) (sizeCall 100) (sizeCall 3)) as (_ & _ & Hlen).
  - intros ref c b o path Ht. do 4 (destruct ref as [|ref]; [done || (injection Ht as <- <- <- <-; by vm_compute)|]). done.
  - apply (bool_decide_unpack _). vm_compute. exact I.
  - exact Hrun.
  - apply (Hlen 1%nat 0%nat (mkAC 3 3 DirIn) 3 (mkITC (mkTC "t" 8 1 false false) FormatNative 0 0 0 0) 8 (mkField "buf" 2 false DirIn) (PointerArg (mkAC 1 2 DirIn) 0 0 (Some (DataArg (mkAC 2 1 DirIn) [7; 8; 9] 0))) _ 2%nat);
      [done|done|done|done|intros k' f' Hk'; lia|done|done|done|done].
Defined.
