(* ===== verification/ProgShrink.v ===== *)
(** * Smaller programs

    The steps by which [prog/minimization.go] simplifies a program replace values,
    cut buffers, take elements out of arrays and targets away from pointers, and
    unlink results.  [shrunk] relates an argument to one made smaller in this way,
    and a valid program stays valid. *)

From stdpp Require Import base numbers strings gmap list.
From S2P Require Import Prelude Word ProgTypes ProgArgs ProgTree ProgValidate ProgDefault ExecRoundtrip ExecSafe ProgLinks ProgClone ProgTrace ProgLife ProgInv HintArgs ProgSize.

Local Open Scope Z_scope.

(** ** File names *)

Definition specialFileLenPad : Z := 97.

(** [bytes.TrimRight(data, specialFileLenPad+"\x00")]. *)
Fixpoint trimRight (data : list Z) : list Z :=
  match data with
  | [] => []
  | b :: data =>
      match trimRight data with
      | [] => if bool_decide (b = specialFileLenPad ∨ b = 0) then [] else [b]
      | rest => b :: rest
      end
  end.

(** What minimization makes of a file name. *)
Definition trimFile (noZ : bool) (data : list Z) : list Z := trimRight data ++ (if noZ then [] else [0]).

(** ** Room

    The size of an argument without wrap-around, with the room that its file names
    may need: a name without a terminating zero gets one. *)

Definition dataRoom (tbl : list Typ) (a : ArgCommon) (data : list Z) (size : Z) : Z :=
  let sz := if bool_decide (data ≠ []) then Z.of_nat (length data) else size in
  match typeOf tbl (a_ref a) with
  | Ret (BufferType _ BufferFilename _ _ _ _ _ noZ) => Z.max sz (Z.of_nat (length (trimFile noZ data)))
  | _ => sz
  end.

Definition alignTo (align : Z) (last : bool) (x : Z) : Z :=
  if last && bool_decide (align ≠ 0 ∧ x `mod` align ≠ 0) then x + (align - x `mod` align) else x.

(** The loop of [structSize] on unbounded integers. *)
Fixpoint trueStructSize (alignAttr : Z) (overlay n i : nat) (size offset : Z) (sizes : list Z) : Z :=
  match sizes with
  | [] => size
  | fld :: sizes =>
      let offset := alignTo alignAttr (bool_decide (S i = n ∨ S i = overlay)) ((if bool_decide (i = overlay) then 0 else offset) + fld) in
      trueStructSize alignAttr overlay n (S i) (Z.max size offset) offset sizes
  end.

Fixpoint roomSize (tbl : list Typ) (h : Heap) (arg : Arg) : res Z :=
  match arg with
  | GroupArg a inner =>
      t ← typeOf tbl (a_ref a);
      if negb (Varlen t) then typSize t
      else
        match t with
        | StructType _ _ alignAttr overlay =>
            sizes ← mapM (roomSize tbl h) inner;
            Ret (trueStructSize alignAttr overlay (length inner) 0 0 0 sizes)
        | ArrayType _ _ _ _ _ => sizes ← mapM (roomSize tbl h) inner; Ret (sumZ sizes)
        | _ => Panic
        end
  | UnionArg a opt _ =>
      t ← typeOf tbl (a_ref a);
      if negb (Varlen t) then typSize t else roomSize tbl h opt
  | DataArg a data size => Ret (dataRoom tbl a data size)
  | _ => argSize tbl h arg
  end.

(** A file name stays inside the working directory when it is trimmed, and a length. *)
Definition fileOK (tbl : list Typ) (a : ArgCommon) (data : list Z) : Prop :=
  match typeOf tbl (a_ref a) with
  | Ret (BufferType _ BufferFilename _ _ _ _ _ noZ) =>
      escapingFilename (trimFile noZ data) = false ∧ Z.of_nat (length (trimFile noZ data)) < 2 ^ 63
  | _ => True
  end.

(** The targets of pointers fit into the data area with their room, only an output
    buffer has a size of its own, and file names may be trimmed. *)
Fixpoint roomy (target : Target) (h : Heap) (arg : Arg) : Prop :=
  match arg with
  | PointerArg _ address _ (Some x) =>
      0 ≤ address ∧ (∃ size, roomSize (typeRefs target) h x = Ret size ∧ address + size ≤ u64 (NumPages target * PageSize target)) ∧
      roomy target h x
  | DataArg a data size => (a_dir a ≠ DirOut → size = 0) ∧ fileOK (typeRefs target) a data
  | GroupArg _ inner =>
      (fix go (l : list Arg) : Prop := match l with [] => True | x :: l => roomy target h x ∧ go l end) inner
  | UnionArg _ opt _ => roomy target h opt
  | _ => True
  end.

(** Alignments of structs are not negative, a blob of a fixed size has a range of one
    length, and there is a null pointer. *)
Record shrinkTable (target : Target) : Prop := {
  st_fits : tableFits target;
  st_blobs : ∀ ref c kind b e text sub values noZ, typeRefs target !! ref = Some (BufferType c kind b e text sub values noZ) →
    kind = BufferBlobRand ∨ kind = BufferBlobRange → 0 ≤ b < 2 ^ 63 ∧ (IsVarlen c = false → b = TypeSize c);
  st_aligns : ∀ ref c fields align overlay, typeRefs target !! ref = Some (StructType c fields align overlay) → 0 ≤ align;
  st_null : SpecialPointers target ≠ [];
}.

(** A name without a terminating zero may escape once it has got one: [..x/..] is the
    current directory, but followed by a zero it is a name that starts with [..]. *)
Lemma trimFile_escapes : ∃ name, escapingFilename name = false ∧ escapingFilename (trimFile false name) = true.
Proof. by exists [46; 46; 120; 47; 46; 46]. Qed.

Lemma alignUp_mono align x y : 0 < align → x ≤ y →
  (if bool_decide (x `mod` align ≠ 0) then x + (align - x `mod` align) else x) ≤
  (if bool_decide (y `mod` align ≠ 0) then y + (align - y `mod` align) else y).
Proof.
  intros Ha Hxy. assert (Hup : ∀ z, (if bool_decide (z `mod` align ≠ 0) then z + (align - z `mod` align) else z) = align * ((z + align - 1) / align)).
  { intros z. pose proof (Z.div_mod z align ltac:(lia)) as Hz. pose proof (Z.mod_pos_bound z align Ha) as Hm. case_bool_decide as Hb.
    - replace (z + align - 1) with ((z `mod` align - 1) + (z / align + 1) * align) by lia. rewrite Z.div_add by lia.
      rewrite Z.div_small by lia. lia.
    - assert (z `mod` align = 0) as Hz0 by lia. replace (z + align - 1) with ((align - 1) + z / align * align) by lia.
      rewrite Z.div_add by lia. rewrite Z.div_small by lia. lia. }
  rewrite !Hup. apply Z.mul_le_mono_nonneg_l; [lia|]. apply Z.div_le_mono; lia.
Qed.

Lemma alignTo_mono align last x y : 0 ≤ align → x ≤ y → alignTo align last x ≤ alignTo align last y.
Proof.
  intros Ha Hxy. unfold alignTo. destruct last; cbn [andb]; [|done]. destruct (decide (align = 0)) as [->|Hne].
  - by rewrite !bool_decide_false by naive_solver.
  - pose proof (alignUp_mono align x y ltac:(lia) Hxy) as Hup.
    rewrite (bool_decide_ext (align ≠ 0 ∧ x `mod` align ≠ 0) (x `mod` align ≠ 0)) by naive_solver.
    rewrite (bool_decide_ext (align ≠ 0 ∧ y `mod` align ≠ 0) (y `mod` align ≠ 0)) by naive_solver. done.
Qed.

Lemma alignTo_ge align last x : 0 ≤ align → x ≤ alignTo align last x.
Proof.
  intros Ha. unfold alignTo. destruct last; cbn [andb]; [|done]. case_bool_decide as Hb; [|done]. pose proof (Z.mod_pos_bound x align). lia.
Qed.

Lemma trueStructSize_mono align overlay n : 0 ≤ align → ∀ sizes1 sizes i size1 size offset1 offset, Forall2 Z.le sizes1 sizes →
  size1 ≤ size → offset1 ≤ offset → trueStructSize align overlay n i size1 offset1 sizes1 ≤ trueStructSize align overlay n i size offset sizes.
Proof.
  intros Ha sizes1 sizes i size1 size offset1 offset Hf. revert i size1 size offset1 offset.
  induction Hf as [|s1 s sizes1 sizes Hs _ IH]; intros i size1 size offset1 offset Hsz Hoff; [done|]. cbn [trueStructSize]. cbv zeta.
  assert (Hstep : (if bool_decide (i = overlay) then 0 else offset1) + s1 ≤ (if bool_decide (i = overlay) then 0 else offset) + s) by (case_bool_decide; lia).
  pose proof (alignTo_mono align (bool_decide (S i = n ∨ S i = overlay)) _ _ Ha Hstep) as Hal. apply IH; [lia|exact Hal].
Qed.

(** The size is at least what has been counted and at least each part. *)
Lemma trueStructSize_ge align overlay n : 0 ≤ align → ∀ sizes i size offset, Forall (λ s, 0 ≤ s) sizes → 0 ≤ offset →
  size ≤ trueStructSize align overlay n i size offset sizes ∧
  Forall (λ s, s ≤ trueStructSize align overlay n i size offset sizes) sizes.
Proof.
  intros Ha sizes i size offset Hf. revert i size offset. induction Hf as [|s sizes Hs _ IH]; intros i size offset Ho; [done|].
  cbn [trueStructSize]. cbv zeta. set (off := (if bool_decide (i = overlay) then 0 else offset) + s).
  assert (Hoff : s ≤ off) by (subst off; case_bool_decide; lia).
  pose proof (alignTo_ge align (bool_decide (S i = n ∨ S i = overlay)) off Ha) as Hal. set (off1 := alignTo _ _ off) in *.
  destruct (IH (S i) (Z.max size off1) off1) as [H1 H2]; [lia|]. split; [lia|]. constructor; [lia|done].
Qed.

Lemma bool_max x y : (if bool_decide (x < y) then y else x) = Z.max x y.
Proof. case_bool_decide; lia. Qed.

Lemma structSize_true align overlay n : 0 ≤ align → ∀ sizes i size offset, Forall (λ s, 0 ≤ s) sizes → 0 ≤ offset →
  trueStructSize align overlay n i size offset sizes < 2 ^ 64 →
  structSize align overlay n i size offset sizes = trueStructSize align overlay n i size offset sizes.
Proof.
  intros Ha sizes i size offset Hf. revert i size offset. induction Hf as [|s sizes Hs Hf IH]; intros i size offset Ho Hlt; [done|].
  cbn [structSize trueStructSize] in *. cbv zeta in *. set (off0 := if bool_decide (i = overlay) then 0 else offset) in *.
  assert (Hoff0 : 0 ≤ off0) by (unfold off0; clear -Ho; case_bool_decide; lia). set (last := bool_decide (S i = n ∨ S i = overlay)) in *.
  pose proof (alignTo_ge align last (off0 + s) Ha) as Hal.
  destruct (trueStructSize_ge align overlay n Ha sizes (S i) (Z.max size (alignTo align last (off0 + s))) (alignTo align last (off0 + s)) Hf ltac:(lia)) as [Hge _].
  rewrite (u64_id (off0 + s)) by (unfold isU64; lia).
  assert (Heq : (if last && bool_decide (align ≠ 0 ∧ (off0 + s) `mod` align ≠ 0)
    then u64 (off0 + s + (align - (off0 + s) `mod` align)) else off0 + s) = alignTo align last (off0 + s)).
  { assert (Hb : 0 ≤ alignTo align last (off0 + s) < 2 ^ 64) by lia. revert Hb. unfold alignTo. destruct (last && _); [|done]. intros Hb. by apply u64_id. }
  rewrite Heq, bool_max. apply IH; [lia|done].
Qed.

Lemma sumZ_ge sizes : Forall (λ s, 0 ≤ s) sizes → 0 ≤ sumZ sizes ∧ Forall (λ s, s ≤ sumZ sizes) sizes.
Proof.
  induction 1 as [|s sizes Hs _ [IH0 IH]]; [done|]. unfold sumZ in *. cbn. split; [lia|]. constructor; [lia|].
  eapply Forall_impl; [exact IH|]. simpl. lia.
Qed.

Lemma sumZ_mono sizes1 sizes : Forall2 Z.le sizes1 sizes → sumZ sizes1 ≤ sumZ sizes.
Proof. induction 1; unfold sumZ in *; cbn; lia. Qed.

Lemma sumZ_delete k sizes : Forall (λ s, 0 ≤ s) sizes → sumZ (delete k sizes) ≤ sumZ sizes.
Proof.
  intros Hf. revert k. induction Hf as [|s sizes Hs Hf IH]; intros [|k]; try done.
  - change (sumZ sizes ≤ s + sumZ sizes). lia.
  - change (s + sumZ (delete k sizes) ≤ s + sumZ sizes). specialize (IH k). lia.
Qed.

(** The size of an argument is below its room. *)
Section Room.

Context (target : Target) (h : Heap) (Htable : shrinkTable target).

Local Notation tbl := (typeRefs target).

Lemma typSize_nonneg ref t s : typeOf tbl ref = Ret t → typSize t = Ret s → 0 ≤ s.
Proof using Htable.
  intros Ht%typeOf_lookup. unfold typSize. destruct (IsVarlen _); [done|]. intros [= <-].
  pose proof (tf_types _ (st_fits _ Htable) _ _ Ht) as Hf. destruct t; cbn in Hf; unfold isU64, isU8, typeCommon in *; cbn; try lia; destruct Hf as (_ & ? & _); lia.
Qed.

Lemma dataRoom_size a data size : isU64 size → 0 ≤ (if bool_decide (data ≠ []) then Z.of_nat (length data) else size) ≤ dataRoom tbl a data size.
Proof using Type.
  intros Hs. unfold isU64 in Hs. unfold dataRoom. cbv zeta. assert (0 ≤ (if bool_decide (data ≠ []) then Z.of_nat (length data) else size)) by (case_bool_decide; lia).
  destruct (typeOf tbl (a_ref a)) as [[]| |]; try lia. destruct Kind; lia.
Qed.

Definition hasRoom (arg : Arg) : Prop := ∀ s, wfArg h arg → roomSize tbl h arg = Ret s →
  0 ≤ s ∧ (s < 2 ^ 64 → ∃ s1, argSize tbl h arg = Ret s1 ∧ 0 ≤ s1 ≤ s).

Lemma mapM_room l : Forall hasRoom l → Forall (wfArg h) l → ∀ sizes, mapM (roomSize tbl h) l = Ret sizes →
  Forall (λ s, 0 ≤ s) sizes ∧ (Forall (λ s, s < 2 ^ 64) sizes →
    ∃ sizes1, mapM (argSize tbl h) l = Ret sizes1 ∧ Forall (λ s, 0 ≤ s) sizes1 ∧ Forall2 Z.le sizes1 sizes).
Proof using Type.
  induction 1 as [|x l Hx _ IH]; intros Hw sizes Hm; cbn [mapM] in Hm.
  { injection Hm as <-. split; [done|]. intros _. by exists []. }
  apply Forall_cons in Hw as [Hwx Hw]. apply bind_ret_inv in Hm as (s & Hs & Hm). apply bind_ret_inv in Hm as (ss & Hss & [= <-]).
  destruct (Hx s Hwx Hs) as [H0 Hlt]. destruct (IH Hw ss Hss) as [H0s Hlts]. split; [by constructor|].
  intros [H1 H2]%Forall_cons. destruct (Hlt H1) as (s1 & Hs1 & Hle). destruct (Hlts H2) as (ss1 & Hss1 & H0' & Hle'). exists (s1 :: ss1).
  cbn [mapM]. rewrite Hs1. cbn [mbind res_bind]. rewrite Hss1. split; [done|]. split; constructor; try done; lia.
Qed.

Lemma all_room arg : hasRoom arg.
Proof using Htable.
  induction arg as [a v|a ad vm|a ad vm x IH|a d s|a inner IH|a opt index IH|p] using Arg_tree_ind; intros sz Hw Hs; cbn [roomSize] in Hs.
  1,2,3: (assert (0 ≤ sz); [cbn [argSize] in Hs; apply bind_ret_inv in Hs as (t & Ht & Hs); by eapply typSize_nonneg|]);
    (split; [done|]); intros _; exists sz; (split; [exact Hs|lia]).
  - injection Hs as <-. destruct Hw as (_ & Hl & Hsz & _). pose proof (dataRoom_size a d s Hsz) as Hr. split; [lia|]. intros _.
    eexists. split; [done|]. exact Hr.
  - apply wfArg_group in Hw. apply bind_ret_inv in Hs as (t & Ht & Hs). cbn [argSize]. rewrite Ht. cbn [mbind res_bind].
    destruct (negb (Varlen t)); [pose proof (typSize_nonneg _ _ _ Ht Hs); split; [done|]; intros _; exists sz; split; [exact Hs|lia]|].
    destruct t; try done; apply bind_ret_inv in Hs as (sizes & Hm & [= <-]); destruct (mapM_room _ IH Hw _ Hm) as [H0 Hlts].
    + destruct (sumZ_ge sizes H0) as [Hge Hall]. split; [done|]. intros Hlt.
      destruct Hlts as (sizes1 & -> & H01 & Hle); [eapply Forall_impl; [exact Hall|]; simpl; lia|]. cbn [mbind res_bind].
      pose proof (sumZ_mono _ _ Hle). destruct (sumZ_ge sizes1 H01) as [Hge1 _]. eexists. split; [done|].
      rewrite arraySize_bound by (done || lia). lia.
    + apply typeOf_lookup in Ht. pose proof (st_aligns _ Htable _ _ _ _ _ Ht) as Ha.
      destruct (trueStructSize_ge AlignAttr OverlayField (length inner) Ha sizes 0 0 0 H0 ltac:(lia)) as [Hge Hall].
      split; [done|]. intros Hlt. destruct Hlts as (sizes1 & -> & H01 & Hle); [eapply Forall_impl; [exact Hall|]; simpl; lia|]. cbn [mbind res_bind].
      pose proof (trueStructSize_mono AlignAttr OverlayField (length inner) Ha _ _ 0 0 0 0 0 Hle ltac:(lia) ltac:(lia)) as Hmono.
      destruct (trueStructSize_ge AlignAttr OverlayField (length inner) Ha sizes1 0 0 0 H01 ltac:(lia)) as [Hge1 _].
      eexists. split; [done|]. rewrite structSize_true by (done || lia). lia.
  - destruct Hw as [_ Hw]. apply bind_ret_inv in Hs as (t & Ht & Hs). cbn [argSize]. rewrite Ht. cbn [mbind res_bind].
    destruct (negb (Varlen t)); [pose proof (typSize_nonneg _ _ _ Ht Hs); split; [done|]; intros _; exists sz; split; [exact Hs|lia]|].
    by apply IH.
  - assert (0 ≤ sz).
    { cbn [argSize] in Hs. apply bind_ret_inv in Hs as (r & _ & Hs). apply bind_ret_inv in Hs as (t & Ht & Hs). by eapply typSize_nonneg. }
    split; [done|]. intros _. exists sz. split; [exact Hs|lia].
Qed.

End Room.

(** ** Smaller arguments *)

(** A valid value of a constant. *)
Definition constOK (target : Target) (a : ArgCommon) (v : Z) : Prop :=
  isU64 v ∧ ∃ t, typeOf (typeRefs target) (a_ref a) = Ret t ∧
    ∀ h ctx, validateConst (typeRefs target) h t (ConstArg a v) (a_dir a) v ctx = Ret (inr ctx).

(** Valid contents of a buffer that do not take more room. *)
Definition dataOK (target : Target) (a : ArgCommon) (d : list Z) (s : Z) (d1 : list Z) : Prop :=
  Z.of_nat (length d1) < 2 ^ 63 ∧ dataRoom (typeRefs target) a d1 s ≤ dataRoom (typeRefs target) a d s ∧ fileOK (typeRefs target) a d1 ∧
  ∃ t, typeOf (typeRefs target) (a_ref a) = Ret t ∧ ∀ ctx, validateData t (a_dir a) d1 s ctx = Ret (inr ctx).

(** An element may be taken out of an array. *)
Definition removable (kind : ArrayKind) (b : Z) (n : nat) : Prop := kind = ArrayRandLen ∨ kind = ArrayRangeLen ∧ b < Z.of_nat n.

Definition nullOf (a : ArgCommon) : Arg := PointerArg (mkAC (a_id a) (a_ref a) DirIn) 0 0 None.

(** [K] are the results that are kept. *)
Inductive shrunk (target : Target) (K : gset id) : Arg → Arg → Prop :=
  | sh_const a v v1 : v1 = v ∨ constOK target a v1 → shrunk target K (ConstArg a v) (ConstArg a v1)
  | sh_data a d s d1 : d1 = d ∨ dataOK target a d s d1 → shrunk target K (DataArg a d s) (DataArg a d1 s)
  | sh_nil a ad vm : shrunk target K (PointerArg a ad vm None) (PointerArg a ad vm None)
  | sh_ptr a ad vm x y : shrunk target K x y → shrunk target K (PointerArg a ad vm (Some x)) (PointerArg a ad vm (Some y))
  | sh_cut a ad vm x c e d : typeOf (typeRefs target) (a_ref a) = Ret (PtrType c e d) → (∀ p, p ∈ resultsOf x → p ∉ K) →
      shrunk target K (PointerArg a ad vm (Some x)) (nullOf a)
  | sh_group a l l1 : Forall2 (shrunk target K) l l1 → shrunk target K (GroupArg a l) (GroupArg a l1)
  | sh_drop a l l1 k x c e kind b en : typeOf (typeRefs target) (a_ref a) = Ret (ArrayType c e kind b en) → l !! k = Some x →
      removable kind b (length l) → (∀ p, p ∈ resultsOf x → p ∉ K) → Forall2 (shrunk target K) (delete k l) l1 →
      shrunk target K (GroupArg a l) (GroupArg a l1)
  | sh_union a x y i : shrunk target K x y → shrunk target K (UnionArg a x i) (UnionArg a y i)
  | sh_result p : p ∈ K → shrunk target K (ResultArg p) (ResultArg p).

(** What may happen to a result that is kept. *)
Record keptObj (target : Target) (r r1 : ResultObj) : Prop := {
  ko_ref : r_ref r1 = r_ref r;
  ko_dir : r_dir r1 = r_dir r;
  ko_res q : r_Res r1 = Some q → r_Res r = Some q;
  ko_uses : r_uses r1 ⊆ r_uses r;
  ko_val : r_Val r1 = r_Val r ∨ r_Val r1 = defaultVal (typeRefs target) (r_ref r);
  ko_same : r_Res r = None → r_Val r1 = r_Val r ∧ r_OpDiv r1 = r_OpDiv r ∧ r_OpAdd r1 = r_OpAdd r;
}.

Lemma simV_pass m v v1 : uniform v → (∀ c c', v c = Ret (inr c') → ∀ c1, v1 c1 = Ret (inr c1)) → simV m v v1 [].
Proof.
  intros Hu Hv c c' c1 Hc Hs _ _. pose proof (Hv c c' Hc c1) as H1. apply Hu in Hc as [-> _]. exists c1. split; [done|]. split; [done|].
  cbn. set_solver.
Qed.

Lemma simV_nil m v : uniform v → simV m v v [].
Proof. intros Hu. by apply simV_uniform. Qed.

Section Shrink.

Context (target : Target) (h h1 : Heap) (K : gset id) (Htable : shrinkTable target) (Hheap : wfHeap h).

Local Notation tbl := (typeRefs target).
Local Notation m := (idMap K).

Context (Hkept : ∀ p, p ∈ K → ∃ r r1, h_results h !! p = Some r ∧ h_results h1 !! p = Some r1 ∧ keptObj target r r1).
Context (Hlinked : linked h1 K).

(** A part that the smaller program does not have. *)
Lemma shrink_skip v nodes rs : (∀ c c', v c = Ret (inr c') → trace target h nodes rs c c') → (∀ p, p ∈ rs → p ∉ K) → simV m v v_ok [].
Proof using Type*.
  intros Htr Hno c c' c1 Hv [Hargs Hus] _ _. destruct (Htr c c' Hv) as [_ _ Ha _ Hu _ Hres]. exists c1. split; [done|]. split; [|cbn; set_solver].
  split.
  - intros p p1 Hp. rewrite Ha. intros [Hin|Hin]%elem_of_union; [|by eapply Hargs]. apply idMap_lookup in Hp as [Hp ->].
    destruct (Hkept p Hp) as (r & _ & Hr & _). apply elem_of_list_to_set, Hres in Hin; [|by eexists]. by apply Hno in Hin.
  - intros u1 Hu1. destruct (Hus u1 Hu1) as (u & Hm & Hin). exists u. split; [done|]. set_solver.
Qed.

Lemma shrunk_id x y : shrunk target K x y → argId y = argId x.
Proof using Type. by inversion 1. Qed.

Lemma shrunk_ref x y : shrunk target K x y → argRef h1 y = argRef h x.
Proof using Type*. inversion 1; subst; try done. cbn. match goal with H : _ ∈ K |- _ => destruct (Hkept _ H) as (r & r1 & -> & -> & []) end. cbn. by f_equal. Qed.

Lemma shrunk_type x y : shrunk target K x y → argType tbl h1 y = argType tbl h x.
Proof using Type*. intros Hs. unfold argType. by rewrite (shrunk_ref x y Hs). Qed.

(** ** Results *)

Lemma shrink_value r r1 c f d ctx ctx' c1 : keptObj target r r1 → typeOf tbl (r_ref r) = Ret (ResourceType c f d) →
  (if bool_decide (r_dir r = DirOut ∧ r_Val r ≠ 0)
   then λ ctx, def ← resourceDefault d; v_check (bool_decide (r_Val r ≠ def)) EOutResource ctx else v_ok) ctx = Ret (inr ctx') →
  (if bool_decide (r_dir r1 = DirOut ∧ r_Val r1 ≠ 0)
   then λ ctx, def ← resourceDefault d; v_check (bool_decide (r_Val r1 ≠ def)) EOutResource ctx else v_ok) c1 = Ret (inr c1).
Proof using Type*.
  intros [_ Hdir _ _ Hval _] Ht Hv. destruct (bool_decide (r_dir r1 = DirOut ∧ r_Val r1 ≠ 0)) eqn:Hb; [|done].
  apply bool_decide_eq_true in Hb. destruct (tf_types _ (st_fits _ Htable) (r_ref r) _ (typeOf_lookup _ _ _ Ht)) as (_ & _ & _ & Hne & _).
  assert (∃ def, resourceDefault d = Ret def) as [def Ed].
  { unfold resourceDefault. destruct (rd_Values d); [done|]. by eexists. }
  rewrite Ed in *. cbn [mbind res_bind] in *. rewrite bool_decide_false; [done|]. intros Hbad. destruct Hval as [Hval|Hval].
  - rewrite Hval, Hdir in *. rewrite bool_decide_true in Hv by done. apply v_check_inv in Hv as [Hf _]. by apply bool_decide_eq_false in Hf.
  - apply Hbad. rewrite Hval. unfold defaultVal. by rewrite Ht, Ed.
Qed.

Lemma shrink_result t p r r1 c c' c1 : p ∈ K → h_results h !! p = Some r → h_results h1 !! p = Some r1 → keptObj target r r1 →
  typeOf tbl (r_ref r) = Ret t → validateResult tbl h t p r c = Ret (inr c') → simCtx m c c1 →
  ∃ c1', validateResult tbl h1 t p r1 c1 = Ret (inr c1') ∧ simCtx m c' c1' ∧ vc_args c1' = vc_args c1.
Proof using Type*.
  intros Hp Hr Hr1 Hobj Ht Hv [Hargs Hus]. destruct (validateResult_uses _ _ _ _ _ _ _ Hv) as [Hd Hu].
  pose proof (validateResult_inv _ _ _ _ _ _ _ Hv) as ((cc & f & d & ->) & Ha & Hq & Hin).
  destruct (Hlinked p Hp) as (r1' & Hr1' & Hu1 & Hq1). rewrite Hr1 in Hr1'. injection Hr1' as <-. pose proof Hobj as [_ Hdir Hres Huses _ _].
  destruct (validateUses_intro h1 p (elements (r_uses r1)) c1) as (c1' & Hl & Ha1 & Hd1).
  { intros u Hin'%elem_of_elements. apply Hu1 in Hin' as (_ & ru & Hru & Hrr). eauto. }
  rewrite list_to_set_elements_L in Hd1.
  assert (Hctx : simCtx m c' c1').
  { split.
    - intros q q1 Hqm Hq'. rewrite Ha1. rewrite Ha in Hq'. by eapply Hargs.
    - intros u. rewrite Hd1. intros [Hu'|Hu']%elem_of_union.
      + exists u. split; [apply idMap_lookup; split; [by apply Hu1 in Hu' as [? _]|done]|]. rewrite Hd. set_solver.
      + destruct (Hus u Hu') as (u0 & Hm & Hin'). exists u0. split; [done|]. rewrite Hd. set_solver. }
  exists c1'. split; [|done]. cbn [validateResult] in Hv |- *. rewrite (v_seq_ok _ _ _ _ Hl).
  apply v_seq_inv in Hv as (c2 & _ & Hv). apply v_seq_inv in Hv as (c3 & Hv1 & Hv).
  apply v_seq_inv in Hv as (c4 & _ & Hv). apply v_seq_inv in Hv as (c5 & _ & Hv2).
  rewrite (v_seq_ok _ _ _ _ (shrink_value r r1 _ _ _ _ _ c1' Hobj Ht Hv1)).
  assert (Href : (match r_Res r1 with
    | Some q => λ ctx, if bool_decide (q ∉ vc_args ctx) then Ret (inl EOutOfTree)
                else obj ← of_option (h_results h1 !! q); v_check (bool_decide (p ∉ r_uses obj)) EBrokenLink ctx
    | None => v_ok end) c1' = Ret (inr c1')).
  { destruct (r_Res r1) as [q|] eqn:Er; [|done]. destruct (Hq q (Hres q eq_refl)) as (HqT & _). specialize (Hq1 q eq_refl).
    rewrite bool_decide_false. 2:{ intros Hn. apply Hn. rewrite Ha1. eapply Hargs; [by apply idMap_lookup|done]. }
    destruct (Hlinked q Hq1) as (rq & Hrq & Huq & _). rewrite Hrq. cbn [of_option mbind res_bind].
    rewrite bool_decide_false; [done|]. intros Hn. apply Hn, Huq. split; [done|]. by exists r1. }
  rewrite (v_seq_ok _ _ _ _ Href). rewrite (v_seq_ok _ _ c1' c1').
  2:{ unfold v_check. rewrite bool_decide_false; [done|]. intros [Hdi Hne]. apply Hne. rewrite Hdir in Hdi. rewrite (Hin Hdi) in Huses. set_solver. }
  destruct (bool_decide (r_uses r1 ≠ ∅)) eqn:Hne1; [|done]. apply bool_decide_eq_true in Hne1.
  rewrite bool_decide_true in Hv2 by set_solver.
  apply bind_ret_inv in Hv2 as (size & -> & [Hs _]%v_check_inv). cbn [mbind res_bind]. by rewrite Hs.
Qed.

(** ** Sizes *)

Lemma mapM_delete {A B} (f : A → res B) l k ys : mapM f l = Ret ys → mapM f (delete k l) = Ret (delete k ys).
Proof using Type.
  revert k ys. induction l as [|x l IH]; intros k ys Hm; cbn [mapM] in Hm; [by injection Hm as <-|].
  apply bind_ret_inv in Hm as (y & Hy & Hm). apply bind_ret_inv in Hm as (ys' & Hys & [= <-]). destruct k as [|k]; [done|].
  change (mapM f (x :: delete k l) = Ret (y :: delete k ys')). cbn [mapM]. rewrite Hy. cbn [mbind res_bind]. by rewrite (IH k ys' Hys).
Qed.

Definition shrinksRoom (x : Arg) : Prop := ∀ y s, shrunk target K x y → wfArg h x → roomSize tbl h x = Ret s →
  ∃ s1, roomSize tbl h1 y = Ret s1 ∧ s1 ≤ s.

Lemma mapM_shrunk l : Forall shrinksRoom l → Forall (wfArg h) l → ∀ l1 sizes, Forall2 (shrunk target K) l l1 →
  mapM (roomSize tbl h) l = Ret sizes → ∃ sizes1, mapM (roomSize tbl h1) l1 = Ret sizes1 ∧ Forall2 Z.le sizes1 sizes.
Proof using Type.
  induction 1 as [|x l Hx _ IH]; intros Hw l1 sizes Hf Hm; inversion Hf; subst; cbn [mapM] in Hm.
  { injection Hm as <-. by exists []. }
  apply Forall_cons in Hw as [Hwx Hw]. apply bind_ret_inv in Hm as (s & Hs & Hm). apply bind_ret_inv in Hm as (ss & Hss & [= <-]).
  destruct (Hx y s) as (s1 & Hs1 & Hle); [done..|]. destruct (IH Hw l' ss) as (ss1 & Hss1 & Hles); [done..|]. exists (s1 :: ss1).
  cbn [mapM]. rewrite Hs1. cbn [mbind res_bind]. rewrite Hss1. split; [done|by constructor].
Qed.

Lemma room_shrunk x : shrinksRoom x.
Proof using Type*.
  induction x as [a v|a ad vm|a ad vm x IH|a d s|a inner IH|a opt index IH|p] using Arg_tree_ind; intros y sz Hs Hw Hr; inversion Hs; subst.
  1,2,3,4: exists sz; split; [exact Hr|done].
  - injection Hr as <-. eexists. split; [done|]. match goal with H : _ ∨ dataOK _ _ _ _ _ |- _ => destruct H as [->|(_ & ? & _)] end; done.
  - match goal with H : Forall2 _ _ _ |- _ => rename H into Hf end. apply wfArg_group in Hw. cbn [roomSize] in Hr |- *.
    apply bind_ret_inv in Hr as (t & Ht & Hr). rewrite Ht. cbn [mbind res_bind]. destruct (negb (Varlen t)); [by exists sz|].
    destruct t; try done; apply bind_ret_inv in Hr as (sizes & Hm & [= <-]); destruct (mapM_shrunk _ IH Hw _ _ Hf Hm) as (sizes1 & -> & Hle);
      cbn [mbind res_bind]; (eexists; split; [done|]).
    + by apply sumZ_mono.
    + rewrite <- (Forall2_length _ _ _ Hf). apply trueStructSize_mono; [|done|done|done]. apply typeOf_lookup in Ht. by eapply (st_aligns _ Htable).
  - match goal with H : Forall2 _ _ _ |- _ => rename H into Hf end. apply wfArg_group in Hw. cbn [roomSize] in Hr |- *.
    match goal with H : typeOf _ _ = Ret (ArrayType _ _ _ _ _) |- _ => rewrite H in Hr |- * end. cbn [mbind res_bind] in Hr |- *.
    destruct (negb (Varlen _)); [by exists sz|]. apply bind_ret_inv in Hr as (sizes & Hm & [= <-]).
    destruct (mapM_room target h inner (Forall_true _ _ (all_room target h Htable)) Hw sizes Hm) as [H0 _].
    destruct (mapM_shrunk (delete k inner)) with (l1 := l1) (sizes := delete k sizes) as (sizes1 & -> & Hle).
    { by apply Forall_delete. } { by apply Forall_delete. } { done. } { by apply mapM_delete. }
    cbn [mbind res_bind]. eexists. split; [done|]. etrans; [by apply sumZ_mono|by apply sumZ_delete].
  - destruct Hw as [_ Hw]. cbn [roomSize] in Hr |- *. apply bind_ret_inv in Hr as (t & Ht & Hr). rewrite Ht. cbn [mbind res_bind].
    destruct (negb (Varlen t)); [by exists sz|]. by apply IH.
  - exists sz. split; [|done]. cbn [roomSize argSize] in Hr |- *. match goal with H : _ ∈ K |- _ => destruct (Hkept _ H) as (r & r1 & Hr0 & Hr1 & []) end.
    rewrite Hr0 in Hr. rewrite Hr1. cbn [of_option mbind res_bind] in Hr |- *. congruence.
Qed.

Lemma roomy_group a l : roomy target h (GroupArg a l) ↔ Forall (roomy target h) l.
Proof using Type. cbn [roomy]. induction l as [|x l IH]; [done|]. rewrite Forall_cons, <- IH. done. Qed.

(** ** The validation of smaller arguments *)

(** A node that is not a result, given the part that depends on its kind. *)
Lemma shrink_node arg arg1 typ dir : argId arg1 = argId arg → argRef h1 arg1 = argRef h arg → h_results h !! argId arg = None →
  (∀ t d dir' c c', argType tbl h arg = Ret t → argDir h arg = Ret d → d = dir' ∨ dir' = DirInOut →
     validateMethod target h arg t dir' c = Ret (inr c') → ∃ d1, argDir h1 arg1 = Ret d1 ∧ (d1 = dir' ∨ dir' = DirInOut)) →
  (∀ t dir', argType tbl h arg = Ret t → simV m (validateMethod target h arg t dir') (validateMethod target h1 arg1 t dir')
     (concat (nodesOf <$> childrenOf arg1))) →
  simV m (validateArg target h arg typ dir) (validateArg target h1 arg1 typ dir) (nodesOf arg1).
Proof using Type*.
  intros Hi Href Hid Hdir Hm c c' c1 Hv [Hargs Hus] Hnd Hf.
  apply validateArg_inv in Hv as (dir' & t & d & Hp & Ht & Hnin & Hd & Hdd & Hr & Hv).
  rewrite nodesOf_children in Hnd, Hf |- *. apply NoDup_cons in Hnd as [Hni Hnd].
  destruct (Hdir t d dir' _ _ Ht Hd Hdd Hv) as (d1 & Hd1 & Hdd1).
  rewrite (validateArg_intro target h1 arg1 typ dir dir' t d1 c1); [|done|unfold argType in *; by rewrite Href|apply Hf; by left|done|done|by rewrite Href].
  destruct (Hm t dir' Ht _ c' (mkCtx ({[ argId arg1 ]} ∪ vc_args c1) (vc_uses c1)) Hv) as (c1' & H1 & Hs & Ha); [|done| |].
  - split; [|done]. cbn [vc_args]. intros p p1 Hp1. rewrite !elem_of_union, elem_of_singleton. intros [->|Hin].
    + apply idMap_lookup in Hp1 as [Hp1 _]. destruct (Hkept _ Hp1) as (r & _ & Hr' & _). congruence.
    + right. by eapply Hargs.
  - intros n Hn'. cbn [vc_args]. apply not_elem_of_union. split; [|apply Hf; by right]. intros ->%elem_of_singleton. done.
  - exists c1'. split; [done|]. split; [done|]. rewrite Ha. cbn [vc_args list_to_set]. set_solver.
Qed.

(** The same direction. *)
Lemma same_dir arg arg1 : argDir h1 arg1 = argDir h arg → ∀ t d dir' c c', argType tbl h arg = Ret t → argDir h arg = Ret d →
  d = dir' ∨ dir' = DirInOut → validateMethod target h arg t dir' c = Ret (inr c') → ∃ d1, argDir h1 arg1 = Ret d1 ∧ (d1 = dir' ∨ dir' = DirInOut).
Proof using Type. intros He t d dir' c c' _ Hd Hdd _. exists d. by rewrite He. Qed.

Lemma shrink_address ad vm x y : shrunk target K x y → wfArg h x → wfArg h1 y → roomy target h (PointerArg (mkAC 0 0 DirIn) ad vm (Some x)) →
  simV m (validateAddress target h ad vm (Some x)) (validateAddress target h1 ad vm (Some y)) [].
Proof using Type*.
  intros Hs Hw Hw1 (Had & (sz & Hsz & Hle) & _). apply simV_pass; [apply uniform_address|]. intros c c' Hv c1. unfold validateAddress in *.
  assert (He : ∀ z, IsSpecial ad vm (Some z) = false) by (intros z; unfold IsSpecial; by rewrite andb_false_r). rewrite He in Hv |- *.
  apply bind_ret_inv in Hv as (s & Hsize & [Hb _]%v_check_inv). destruct (decide (vm = 0)) as [Hvm|Hvm].
  2:{ rewrite (bool_decide_false (vm = 0)) in Hsize |- * by done. injection Hsize as <-. cbn [mbind res_bind]. by rewrite Hb. }
  rewrite (bool_decide_true (vm = 0)) by done.
  pose proof (u64_range (NumPages target * PageSize target)) as Hmax. unfold isU64 in Hmax.
  destruct (room_shrunk x y sz Hs Hw Hsz) as (s1 & Hs1 & Hs1le).
  destruct (all_room target h1 Htable y s1 Hw1 Hs1) as [H0 Hlt]. destruct Hlt as (s2 & Hs2 & Hle2); [lia|]. rewrite Hs2. cbn [mbind res_bind].
  unfold v_check. rewrite bool_decide_false; [done|]. apply bool_decide_eq_false in Hb. rewrite (u64_id (ad + s2)) by (unfold isU64; lia). lia.
Qed.

(** ** Nodes *)

Lemma sublist_concat {A B} (f g : A → list B) (R : A → A → Prop) l l1 : Forall (λ x, ∀ y, R x y → f y `sublist_of` f x) l → Forall2 R l l1 →
  concat (f <$> l1) `sublist_of` concat (f <$> l).
Proof using Type.
  intros Hl. revert l1. induction Hl as [|x l Hx _ IH]; intros l1 Hf; inversion Hf; subst; [done|]. cbn [fmap list_fmap concat].
  apply sublist_app; [by apply Hx|by apply IH].
Qed.

Lemma sublist_delete_concat {A B} (f : A → list B) k l : concat (f <$> delete k l) `sublist_of` concat (f <$> l).
Proof using Type.
  revert k. induction l as [|x l IH]; intros k; [done|]. destruct k as [|k].
  - cbn. by apply sublist_inserts_l.
  - change (f x ++ concat (f <$> delete k l) `sublist_of` f x ++ concat (f <$> l)). by apply sublist_app.
Qed.

(** A list of the nodes of a tree gets smaller. *)
Lemma shrunk_sublist (f : Arg → list id) x y :
  (∀ z z1, argId z1 = argId z → notResult z → notResult z1 → concat (f <$> childrenOf z1) `sublist_of` concat (f <$> childrenOf z) → f z1 `sublist_of` f z) →
  shrunk target K x y → f y `sublist_of` f x.
Proof using Type.
  intros Hstep. revert y. induction x as [a v|a ad vm|a ad vm x IH|a d s|a inner IH|a opt index IH|p] using Arg_tree_ind; intros y Hs; inversion Hs; subst;
    try (apply Hstep; [done|done|done|]; cbn [childrenOf]); try done.
  - cbn. rewrite !app_nil_r. by apply IH.
  - by apply sublist_nil_l.
  - eapply (sublist_concat f f); [|done]. exact IH.
  - etrans; [|apply (sublist_delete_concat f k)]. eapply (sublist_concat f f); [|done]. by apply Forall_delete.
  - cbn. rewrite !app_nil_r. by apply IH.
Qed.

Lemma shrunk_nodes x y : shrunk target K x y → nodesOf y `sublist_of` nodesOf x.
Proof using Type.
  apply shrunk_sublist. intros z z1 Hid _ _ Hc. rewrite !nodesOf_children, Hid. by apply sublist_skip.
Qed.

Lemma shrunk_others x y : shrunk target K x y → othersOf y `sublist_of` othersOf x.
Proof using Type.
  apply shrunk_sublist. intros z z1 Hid Hn Hn1 Hc. rewrite !othersOf_children, Hid by done. by apply sublist_skip.
Qed.

Lemma shrunk_results x y : shrunk target K x y → resultsOf y `sublist_of` resultsOf x.
Proof using Type.
  apply shrunk_sublist. intros z z1 Hid Hn Hn1 Hc. by rewrite !resultsOf_children by done.
Qed.

Lemma shrunk_kept x y : shrunk target K x y → ∀ p, p ∈ resultsOf y → p ∈ K.
Proof using Type.
  assert (Hl : ∀ l l1, Forall (λ x, ∀ y, shrunk target K x y → ∀ p, p ∈ resultsOf y → p ∈ K) l → Forall2 (shrunk target K) l l1 →
    ∀ p, p ∈ concat (resultsOf <$> l1) → p ∈ K).
  { intros l l1 Hl. revert l1. induction Hl as [|z l Hz _ IHl]; intros l1 Hf p Hp; inversion Hf; subst; [by apply elem_of_nil in Hp|].
    cbn [fmap list_fmap concat] in Hp. apply elem_of_app in Hp as [Hp|Hp]; [by eapply Hz|by eapply IHl]. }
  revert y. induction x as [a v|a ad vm|a ad vm x IH|a d s|a inner IH|a opt index IH|p] using Arg_tree_ind; intros y Hs; inversion Hs; subst; cbn [resultsOf];
    try (by intros ? ?%elem_of_nil); try (by apply IH).
  - by apply (Hl inner).
  - apply (Hl (delete k inner)); [by apply Forall_delete|done].
  - by intros ? ->%list_elem_of_singleton.
Qed.

(** An argument of a program whose other nodes do not become results. *)
Definition shrinkable (x : Arg) : Prop := wfArg h x ∧ roomy target h x ∧ ∀ n, n ∈ othersOf x → h_results h1 !! n = None.

Lemma shrinkable_children x : shrinkable x → notResult x → h_results h1 !! argId x = None ∧ Forall shrinkable (childrenOf x).
Proof using Type.
  intros (Hw & Hr & Ho) Hn. rewrite othersOf_children in Ho by done. split; [apply Ho; by left|].
  apply wfArg_children in Hw as [_ Hw]; [|done]. rewrite Forall_forall in Hw |- *. intros y Hy. split; [by apply Hw|]. split.
  - destruct x as [| ? ? ? [?|] | |a inner| |]; cbn [childrenOf] in Hy; try (by apply elem_of_nil in Hy).
    + apply list_elem_of_singleton in Hy as ->. by destruct Hr as (_ & _ & ?).
    + apply roomy_group in Hr. rewrite Forall_forall in Hr. by apply Hr.
    + by apply list_elem_of_singleton in Hy as ->.
  - intros n Hin. apply Ho. right. apply elem_concat_fmap. eauto.
Qed.

Lemma Forall2_transfer {A} (R : A → A → Prop) (P Q : A → Prop) l l1 : Forall (λ x, ∀ y, R x y → P x → Q y) l → Forall P l → Forall2 R l l1 → Forall Q l1.
Proof using Type.
  intros Hl. revert l1. induction Hl as [|x l Hx _ IH]; intros l1 HP Hf; inversion Hf; subst; [constructor|].
  apply Forall_cons in HP as [HPx HP]. constructor; [by apply Hx|by apply IH].
Qed.

Lemma wf_shrunk x y : shrunk target K x y → shrinkable x → wfArg h1 y.
Proof using Type.
  revert y. induction x as [a v|a ad vm|a ad vm x IH|a d s|a inner IH|a opt index IH|p] using Arg_tree_ind; intros y Hs Hx; try (by inversion Hs; subst);
    destruct (shrinkable_children _ Hx I) as [Hid Hc]; cbn [argId childrenOf] in *.
  - inversion Hs; subst. split; [done|]. destruct Hx as ([_ Hu] & _). match goal with H : _ ∨ constOK _ _ _ |- _ => destruct H as [->|[? _]] end; done.
  - inversion Hs; subst. by split.
  - rewrite Forall_singleton in Hc. inversion Hs; subst; (split; [done|]); [by apply IH|done].
  - inversion Hs; subst. destruct Hx as ((_ & Hl & Hsz & _) & [Hr _] & _). split; [done|]. match goal with H : _ ∨ dataOK _ _ _ _ _ |- _ => destruct H as [->|[? _]] end; done.
  - inversion Hs; subst; apply wfArg_node; try done; (split; [done|]); (split; [done|]); cbn [childrenOf].
    + by eapply Forall2_transfer.
    + eapply (Forall2_transfer _ _ _ (delete k inner)); [by apply Forall_delete|by apply Forall_delete|done].
  - rewrite Forall_singleton in Hc. inversion Hs; subst. split; [done|]. by apply IH.
Qed.

Lemma roomy_shrunk_group a l : Forall (roomy target h1) l → roomy target h1 (GroupArg a l).
Proof using Type. cbn [roomy]. induction 1; by split. Qed.

Lemma roomy_shrunk x y : shrunk target K x y → shrinkable x → roomy target h1 y.
Proof using Type*.
  revert y. induction x as [a v|a ad vm|a ad vm x IH|a d s|a inner IH|a opt index IH|p] using Arg_tree_ind; intros y Hs Hx; try (by inversion Hs; subst);
    destruct (shrinkable_children _ Hx I) as [Hid Hc]; cbn [childrenOf] in *.
  - rewrite Forall_singleton in Hc. inversion Hs; subst; [|done]. destruct Hx as ([_ Hw] & (Had & (sz & Hsz & Hle) & _) & _).
    split; [done|]. split; [|by apply IH]. destruct (room_shrunk x y0 sz) as (s1 & Hs1 & Hs1le); [done..|]. exists s1. split; [done|lia].
  - inversion Hs; subst. destruct Hx as (_ & [Hr Hfile] & _). split; [done|]. match goal with H : _ ∨ dataOK _ _ _ _ _ |- _ => destruct H as [->|(_ & _ & ? & _)] end; done.
  - inversion Hs; subst; apply roomy_shrunk_group.
    + by eapply Forall2_transfer.
    + eapply (Forall2_transfer _ _ _ (delete k inner)); [by apply Forall_delete|by apply Forall_delete|done].
  - rewrite Forall_singleton in Hc. inversion Hs; subst. cbn [roomy]. by apply IH.
Qed.

(** ** The validation of smaller arguments *)

Definition shrinks (x : Arg) : Prop := ∀ y typ dir, shrunk target K x y → shrinkable x →
  simV m (validateArg target h x typ dir) (validateArg target h1 y typ dir) (nodesOf y).

Lemma shrink_list l : Forall shrinks l → Forall shrinkable l → ∀ l1 tds, Forall2 (shrunk target K) l l1 → length l = length tds →
  simV m (validateList target h l tds) (validateList target h1 l1 tds) (concat (nodesOf <$> l1)).
Proof using Type.
  induction 1 as [|x l Hx _ IH]; intros Hw l1 [|td tds] Hf Hlen; try done; inversion Hf; subst.
  { by apply simV_nil, uniform_ok. }
  apply Forall_cons in Hw as [Hwx Hw]. cbn [fmap list_fmap concat validateList]. apply simV_seq.
  - by apply Hx.
  - apply IH; [done|done|]. cbn in Hlen. lia.
Qed.

Lemma shrink_const a v v1 t dir : v1 = v ∨ constOK target a v1 → argType tbl h (ConstArg a v) = Ret t →
  simV m (validateMethod target h (ConstArg a v) t dir) (validateMethod target h1 (ConstArg a v1) t dir) [].
Proof using Type.
  intros [->|(_ & t' & Ht' & Hok)] Ht; [by apply same_method|]. unfold argType in Ht. cbn in Ht. rewrite Ht in Ht'. injection Ht' as <-.
  apply simV_pass; [apply uniform_const|]. intros c c' _ c1. apply Hok.
Qed.

Lemma shrink_data a d s d1 t dir : d1 = d ∨ dataOK target a d s d1 → argType tbl h (DataArg a d s) = Ret t →
  simV m (validateMethod target h (DataArg a d s) t dir) (validateMethod target h1 (DataArg a d1 s) t dir) [].
Proof using Type.
  intros [->|(_ & _ & _ & t' & Ht' & Hok)] Ht; [by apply same_method|]. unfold argType in Ht. cbn in Ht. rewrite Ht in Ht'. injection Ht' as <-.
  apply simV_pass; [apply uniform_data|]. intros c c' _ c1. apply Hok.
Qed.

Lemma shrink_ptr a ad vm x y t dir : shrunk target K x y → shrinkable (PointerArg a ad vm (Some x)) → shrinks x →
  simV m (validateMethod target h (PointerArg a ad vm (Some x)) t dir) (validateMethod target h1 (PointerArg a ad vm (Some y)) t dir) (nodesOf y).
Proof using Type*.
  intros Hs Hx IH. destruct (shrinkable_children _ Hx I) as [_ Hc]. cbn [childrenOf] in Hc. rewrite Forall_singleton in Hc.
  unfold validateMethod. rewrite <- (app_nil_r (nodesOf y)). apply simV_seq.
  - destruct t; try apply simV_err. rewrite <- (app_nil_r (nodesOf y)). apply simV_seq; [by apply IH|]. apply simV_nil. auto with uniform.
  - apply shrink_address; [done|by destruct Hc|by eapply wf_shrunk|]. by destruct Hx as (_ & Hr & _).
Qed.

Lemma null_valid a c e d dir ctx : validateMethod target h1 (nullOf a) (PtrType c e d) dir ctx = Ret (inr ctx).
Proof using Type*.
  unfold nullOf. cbn [validateMethod a_dir]. unfold v_seq, v_ok, v_check, validateAddress. cbn [mbind res_bind].
  destruct (bool_decide (0 ≠ 0)) eqn:E0; [by apply bool_decide_eq_true in E0|]. cbn [mbind res_bind v_ok].
  destruct (bool_decide (DirIn = DirOut)) eqn:E1; [by apply bool_decide_eq_true in E1|]. cbn [mbind res_bind v_ok].
  change (IsSpecial 0 0 None) with true. cbv iota. rewrite bool_decide_false; [done|]. pose proof (st_null _ Htable).
  destruct (SpecialPointers target); [done|]. change (u64 (- 0)) with 0. cbn [length]. lia.
Qed.

Lemma shrink_cut a ad vm x c e d dir : (∀ p, p ∈ resultsOf x → p ∉ K) → shrinkable (PointerArg a ad vm (Some x)) →
  simV m (validateMethod target h (PointerArg a ad vm (Some x)) (PtrType c e d) dir) (validateMethod target h1 (nullOf a) (PtrType c e d) dir) [].
Proof using Type*.
  intros Hno Hx. destruct (shrinkable_children _ Hx I) as [_ Hc]. cbn [childrenOf] in Hc. rewrite Forall_singleton in Hc.
  eapply (simV_ext _ _ _ v_ok); [done|intros; apply null_valid|]. pose proof (st_fits _ Htable) as Ht.
  eapply (shrink_skip _ (concat (nodesOf <$> [x])) (concat (resultsOf <$> [x]))).
  - intros c0 c' (tds & Hlen & Hl)%(validateMethod_children target h Ht Hheap); [|done]. cbn [childrenOf] in *. eapply traced_list; [| |exact Hlen|exact Hl].
    + apply Forall_singleton, all_traced; done.
    + apply Forall_singleton. by destruct Hc.
  - cbn. by rewrite app_nil_r.
Qed.

Lemma shrink_delete td l k x : Forall shrinks l → Forall shrinkable l → l !! k = Some x → (∀ p, p ∈ resultsOf x → p ∉ K) → ∀ l1,
  Forall2 (shrunk target K) (delete k l) l1 →
  simV m (validateList target h l (replicate (length l) td)) (validateList target h1 l1 (replicate (length l1) td)) (concat (nodesOf <$> l1)).
Proof using Type*.
  intros Hl. revert k. induction Hl as [|z l Hz Hl IH]; intros k Hw Hk Hno l1 Hf; [done|]. apply Forall_cons in Hw as [Hwz Hw]. destruct k as [|k].
  - injection Hk as ->. change (delete 0%nat (x :: l)) with l in Hf. cbn [length replicate validateList]. rewrite <- (app_nil_l (concat _)).
    eapply (simV_ext _ _ _ (v_seq v_ok _)); [done| |apply simV_seq].
    + intros c. symmetry. by apply v_seq_ok.
    + eapply (shrink_skip _ (nodesOf x) (resultsOf x)); [|done]. intros c c' Hv. eapply (all_traced target h (st_fits _ Htable) Hheap); [by destruct Hwz|exact Hv].
    + rewrite <- (Forall2_length _ _ _ Hf). apply shrink_list; [done|done|done|by rewrite length_replicate].
  - change (delete (S k) (z :: l)) with (z :: delete k l) in Hf. inversion Hf; subst. cbn [length replicate validateList fmap list_fmap concat]. apply simV_seq.
    + by apply Hz.
    + by eapply IH.
Qed.

Lemma removable_check kind b e n : removable kind b n → ¬ (kind = ArrayRangeLen ∧ b = e ∧ Z.of_nat n ≠ b) → ∀ n1 : nat,
  ¬ (kind = ArrayRangeLen ∧ b = e ∧ Z.of_nat n1 ≠ b).
Proof using Type. intros [->|[-> Hb]] Hn n1 (Hk & -> & _); [done|]. apply Hn. split; [done|]. split; [done|lia]. Qed.

Lemma shrink_method x y t dir : notResult x → shrunk target K x y → shrinkable x → Forall shrinks (childrenOf x) → argType tbl h x = Ret t →
  simV m (validateMethod target h x t dir) (validateMethod target h1 y t dir) (concat (nodesOf <$> childrenOf y)).
Proof using Type*.
  intros Hn Hs Hx IH Ht. destruct (shrinkable_children x Hx Hn) as [_ Hc]. inversion Hs; subst; try done; cbn [childrenOf] in IH, Hc |- *.
  - by apply shrink_const.
  - by apply shrink_data.
  - unfold validateMethod. apply simV_nil. destruct t; try apply uniform_seq; try apply uniform_err; try apply uniform_address; auto with uniform.
  - cbn. rewrite app_nil_r. rewrite Forall_singleton in IH. by apply shrink_ptr.
  - unfold argType in Ht. cbn in Ht. match goal with H : typeOf _ _ = Ret (PtrType _ _ _) |- _ => rewrite H in Ht end. injection Ht as <-. by apply shrink_cut.
  - match goal with H : Forall2 _ _ _ |- _ => rename H into Hf end. pose proof (Forall2_length _ _ _ Hf) as Hlen. unfold validateMethod.
    destruct t; try (intros ??? Hbad; discriminate Hbad); rewrite <- Hlen; (case_bool_decide; [intros ??? Hbad; discriminate Hbad|]).
    + eapply simV_ext; [intros; apply validate_elems|intros; apply validate_elems|]. rewrite <- Hlen. by apply shrink_list; [..|rewrite length_replicate].
    + eapply simV_ext; [intros; apply validate_fields|intros; apply validate_fields|]. apply shrink_list; [done..|]. unfold fieldTds. rewrite length_fmap. lia.
  - match goal with H : Forall2 _ _ _ |- _ => rename H into Hf end. unfold argType in Ht. cbn in Ht.
    match goal with H : typeOf _ _ = Ret (ArrayType _ _ _ _ _) |- _ => rewrite H in Ht end. injection Ht as <-. unfold validateMethod.
    destruct (decide (kind = ArrayRangeLen ∧ b = en ∧ Z.of_nat (length l) ≠ b)) as [Hb|Hb].
    { rewrite (bool_decide_true _ Hb). intros ??? Hbad. discriminate Hbad. }
    rewrite (bool_decide_false _ Hb). rewrite (bool_decide_false (_ ∧ _ ∧ Z.of_nat (length l1) ≠ b)) by by eapply removable_check.
    eapply simV_ext; [intros; apply validate_elems|intros; apply validate_elems|]. by eapply shrink_delete.
  - unfold validateMethod. destruct t; try (intros ??? Hbad; discriminate Hbad). case_bool_decide; [intros ??? Hbad; discriminate Hbad|].
    destruct (_ !! _) as [f|]; [|intros ??? Hbad; discriminate Hbad]. rewrite Forall_singleton in IH, Hc. cbn. rewrite app_nil_r. by apply IH.
Qed.

(** A smaller argument keeps its direction, which is never out for a pointer. *)
Lemma shrink_dir x y : notResult x → shrunk target K x y → ∀ t d dir' c c', argType tbl h x = Ret t → argDir h x = Ret d →
  d = dir' ∨ dir' = DirInOut → validateMethod target h x t dir' c = Ret (inr c') → ∃ d1, argDir h1 y = Ret d1 ∧ (d1 = dir' ∨ dir' = DirInOut).
Proof using Type.
  intros Hn Hs t d dir' c c' Ht Hd Hdd Hm. inversion Hs; subst; try done; try (exists d; by split).
  exists DirIn. split; [done|]. unfold argType in Ht. cbn in Ht. match goal with H : typeOf _ _ = Ret (PtrType _ _ _) |- _ => rewrite H in Ht end. injection Ht as <-.
  injection Hd as <-. unfold validateMethod in Hm. apply v_seq_inv in Hm as (c1 & Hm & _). apply v_seq_inv in Hm as (c2 & _ & Hm).
  apply v_seq_inv in Hm as (c3 & _ & [Hb _]%v_check_inv). apply bool_decide_eq_false in Hb.
  destruct Hdd as [Hdd|]; [|by right]. destruct dir'; [by left|done|by right].
Qed.

Lemma shrink_arg x : shrinks x.
Proof using Type*.
  induction x as [p|x Hn IH] using tree_ind; intros y typ dir Hs Hx.
  2:{ destruct (shrinkable_children x Hx Hn) as [_ Hc]. pose proof Hx as (Hw & _). apply wfArg_children in Hw as [Hid _]; [|done].
      apply shrink_node; [by apply shrunk_id|by apply shrunk_ref|done|by apply shrink_dir|]. intros t dir' Ht. by apply shrink_method. }
  inversion Hs; subst. match goal with H : _ ∈ K |- _ => rename H into Hp end. destruct (Hkept p Hp) as (r & r1 & Hr & Hr1 & Hobj). pose proof Hobj as [Href Hdir _ _ _ _].
  intros c c' c1 Hv Hctx _ Hf. pose proof Hctx as [Hargs Hus].
  apply validateArg_inv in Hv as (dir' & t & d & Hpd & Ht & Hnin & Hd & Hdd & Hrr & Hv). cbn [validateMethod argId] in *.
  rewrite (validateArg_intro target h1 (ResultArg p) typ dir dir' t d c1); [|done|by rewrite (shrunk_type _ _ Hs)|apply Hf; by left| |done|by rewrite (shrunk_ref _ _ Hs)].
  2:{ cbn [argDir] in Hd |- *. rewrite Hr in Hd. rewrite Hr1. cbn in Hd |- *. by rewrite Hdir. }
  cbn [validateMethod argId]. rewrite Hr in Hv. rewrite Hr1. cbn [of_option mbind res_bind] in Hv |- *.
  destruct (shrink_result t p r r1 (mkCtx ({[ p ]} ∪ vc_args c) (vc_uses c)) c' (mkCtx ({[ p ]} ∪ vc_args c1) (vc_uses c1))) as (c1' & H1 & Hsc & Ha); try done.
  - unfold argType in Ht. cbn [argRef] in Ht. by rewrite Hr in Ht.
  - split; [|done]. cbn [vc_args]. intros q q1 Hq1. rewrite !elem_of_union, !elem_of_singleton. intros [->|Hin].
    + left. by apply idMap_lookup in Hq1 as [_ ->].
    + right. by eapply Hargs.
  - exists c1'. split; [done|]. split; [done|]. rewrite Ha. cbn. set_solver.
Qed.

(** ** Calls *)

Lemma shrink_args l l1 fields : Forall2 (shrunk target K) l l1 → Forall shrinkable l → length l = length fields →
  simV m (validateArgs target h l fields) (validateArgs target h1 l1 fields) (concat (nodesOf <$> l1)).
Proof using Type*.
  intros Hf. revert fields. induction Hf as [|x y l l1 Hx _ IH]; intros [|f fields] Hw Hlen; try done.
  { by apply simV_nil, uniform_ok. }
  apply Forall_cons in Hw as [Hwx Hw]. cbn [validateArgs fmap list_fmap concat]. apply simV_seq; [by apply shrink_arg|].
  apply IH; [done|]. cbn in Hlen. lia.
Qed.

End Shrink.

(** Fault injection and repetition are kept or dropped. *)
Definition lessProps (p p1 : CallProps) : Prop := (FailNth p1 = FailNth p ∨ FailNth p1 = 0) ∧ (Rerun p1 = Rerun p ∨ Rerun p1 = 0).

Definition shrunkCall (target : Target) (K : gset id) (c c1 : Call) : Prop :=
  c_Meta c1 = c_Meta c ∧ c_Ret c1 = c_Ret c ∧ lessProps (c_Props c) (c_Props c1) ∧ Forall2 (shrunk target K) (c_Args c) (c_Args c1) ∧
  ∀ p, c_Ret c = Some p → p ∈ K.

(** A program whose pointers have room. *)
Record good (target : Target) (h : Heap) (calls : list Call) : Prop := {
  gd_ok : progOK target h calls;
  gd_room c : c ∈ calls → Forall (roomy target h) (c_Args c);
}.

(** What an edit that keeps the results [K] does to the heap. *)
Record keeps (target : Target) (K : gset id) (h h1 : Heap) : Prop := {
  ke_heap : wfHeap h1;
  ke_alloc : heapOK h1;
  ke_next : (h_next h ≤ h_next h1)%nat;
  ke_none n : (n < h_next h)%nat → h_results h !! n = None → h_results h1 !! n = None;
  ke_kept p : p ∈ K → ∃ r r1, h_results h !! p = Some r ∧ h_results h1 !! p = Some r1 ∧ keptObj target r r1;
  ke_linked : linked h1 K;
}.

Section ShrinkProg.

Context (target : Target) (h h1 : Heap) (K : gset id) (Htable : shrinkTable target) (Hheap : wfHeap h) (Hkeeps : keeps target K h h1).

Local Notation m := (idMap K).

Lemma shrink_ret c c1 : shrunkCall target K c c1 → simV m (validateRet target h c) (validateRet target h1 c1) (retList c1).
Proof using Type*.
  intros (Hmeta & Hret & _ & _ & HK). unfold validateRet, retList. rewrite Hmeta, Hret.
  destruct (sc_Ret (c_Meta c)) as [t|], (c_Ret c) as [p|]; try done; try (intros ??? Hbad; discriminate Hbad); [|by apply simV_nil, uniform_ok].
  specialize (HK p eq_refl). destruct (ke_kept _ _ _ _ Hkeeps p HK) as (r & r1 & Hr & Hr1 & [_ _ Hres _ _ Hsame]). rewrite Hr, Hr1. cbn [of_option mbind res_bind].
  intros d d' d1 (d2 & [Hb ->]%v_check_inv & Hv)%v_seq_inv Hctx Hnd Hf. rewrite (v_seq_ok _ _ d1 d1).
  - refine (shrink_arg target h h1 K Htable Hheap (ke_kept _ _ _ _ Hkeeps) (ke_linked _ _ _ _ Hkeeps) (ResultArg p) (ResultArg p) t DirOut _ _ d d' d1 Hv Hctx Hnd Hf).
    + by constructor.
    + split; [done|]. split; [done|]. by intros n ?%elem_of_nil.
  - unfold v_check. rewrite bool_decide_false; [done|]. apply bool_decide_eq_false in Hb.
    destruct (r_Res r) eqn:Er; [exfalso; apply Hb; by left|]. destruct (Hsame eq_refl) as (-> & -> & ->). intros [Hn|Hn]; [|apply Hb; by right].
    destruct (r_Res r1) eqn:Er1; [|done]. by specialize (Hres _ eq_refl).
Qed.

Lemma shrink_call c c1 : shrunkCall target K c c1 → Forall (shrinkable target h h1) (c_Args c) →
  simV m (validateCall target h c) (validateCall target h1 c1) (validNodes c1).
Proof using Type*.
  intros Hc Hw d d' d1 Hv Hctx Hnd Hf. pose proof (validateCall_inv _ _ _ _ _ Hv) as (Hlen & _).
  pose proof Hc as (Hmeta & _ & [Hfail Hrerun] & Hargs & _). revert d d' d1 Hv Hctx Hnd Hf. unfold validateCall.
  rewrite Hmeta, <- (Forall2_length _ _ _ Hargs).
  apply (simV_seq m _ _ _ _ []); [by apply simV_nil, uniform_check|].
  apply (simV_seq m _ _ _ _ []).
  { apply simV_pass; [apply uniform_check|]. intros c0 c' [Hb _]%v_check_inv c2. unfold v_check. apply bool_decide_eq_false in Hb.
    rewrite bool_decide_false; [done|]. intros [H1 H2]. apply Hb. destruct Hfail as [<-|Hz], Hrerun as [<-|Hz']; [done|lia..]. }
  apply (simV_seq m _ _ _ _ []); [by apply simV_nil, uniform_check|].
  apply simV_seq; [|by apply shrink_ret]. by apply shrink_args; [| |exact (ke_kept _ _ _ _ Hkeeps)|exact (ke_linked _ _ _ _ Hkeeps)| | |].
Qed.

Lemma shrink_calls calls calls1 : Forall2 (shrunkCall target K) calls calls1 → Forall (λ c, Forall (shrinkable target h h1) (c_Args c)) calls →
  simV m (v_all (validateCall target h) calls) (v_all (validateCall target h1) calls1) (concat (validNodes <$> calls1)).
Proof using Type*.
  induction 1 as [|c c1 calls calls1 Hc _ IH]; intros Hw; [by apply simV_nil, uniform_ok|].
  apply Forall_cons in Hw as [Hwc Hw]. cbn [v_all fmap list_fmap concat]. apply simV_seq; [by apply shrink_call|by apply IH].
Qed.

End ShrinkProg.

(** ** Programs *)

Lemma sim_validate target h1 m calls1 ctx ctx1 : v_all (validateCall target h1) calls1 (mkCtx ∅ ∅) = Ret (inr ctx1) →
  simCtx m ctx ctx1 → dom (vc_uses ctx) ⊆ vc_args ctx → validate target h1 calls1 = Ret None.
Proof.
  intros Hv [Hargs Hus] Hin. unfold validate. rewrite Hv. cbn [mbind res_bind].
  assert (Hall : forallb (λ u, bool_decide (u ∈ vc_args ctx1)) (map_to_list (vc_uses ctx1)).*1 = true); [|by rewrite Hall].
  apply forallb_forall. intros u1 Hu1. apply bool_decide_eq_true. apply list_elem_of_In, list_elem_of_fmap in Hu1 as ([u' p'] & -> & Hu1).
  apply elem_of_map_to_list in Hu1. destruct (Hus u') as (u & Hm & Hu); [by apply elem_of_dom; eexists|].
  eapply Hargs; [exact Hm|]. by apply Hin.
Qed.

Lemma shrunkCall_nodes target K c c1 : shrunkCall target K c c1 → validNodes c1 `sublist_of` validNodes c.
Proof.
  intros (_ & Hret & _ & Hargs & _). unfold validNodes, retList. rewrite Hret. apply sublist_app; [|done].
  eapply (sublist_concat nodesOf nodesOf); [|exact Hargs]. apply Forall_true. intros x y. apply shrunk_nodes.
Qed.

Lemma shrunkCalls_nodes target K calls calls1 : Forall2 (shrunkCall target K) calls calls1 →
  concat (validNodes <$> calls1) `sublist_of` concat (validNodes <$> calls).
Proof. intros Hf. eapply (sublist_concat validNodes validNodes); [|exact Hf]. apply Forall_true. intros c c1. apply shrunkCall_nodes. Qed.

Lemma shrunkCalls_results target K calls calls1 : Forall2 (shrunkCall target K) calls calls1 → progResults calls1 `sublist_of` progResults calls.
Proof.
  intros Hf. unfold progResults. eapply (sublist_concat callResults callResults); [|exact Hf]. apply Forall_true.
  intros c c1 (_ & Hret & _ & Hargs & _). unfold callResults. rewrite Hret. apply sublist_app; [|done].
  eapply (sublist_concat resultsOf resultsOf); [|exact Hargs]. apply Forall_true. intros x y. apply shrunk_results.
Qed.

Lemma shrunkCalls_kept target K calls calls1 p : Forall2 (shrunkCall target K) calls calls1 → p ∈ progResults calls1 → p ∈ K.
Proof.
  induction 1 as [|c c1 calls calls1 Hc _ IH]; [by intros ?%elem_of_nil|]. unfold progResults. cbn [fmap list_fmap concat].
  intros [Hp|Hp]%elem_of_app; [|by apply IH]. destruct Hc as (_ & Hret & _ & Hargs & HK). unfold callResults in Hp. rewrite Hret in Hp.
  apply elem_of_app in Hp as [Hp|Hp].
  - clear -Hp Hargs. induction Hargs as [|x y l l1 Hx _ IH]; [by apply elem_of_nil in Hp|]. cbn [fmap list_fmap concat] in Hp.
    apply elem_of_app in Hp as [Hp|Hp]; [by eapply shrunk_kept|by apply IH].
  - destruct (c_Ret c) as [q|]; [|by apply elem_of_nil in Hp]. apply list_elem_of_singleton in Hp as ->. by apply HK.
Qed.

Lemma good_shrinkable target K h h1 calls : keeps target K h h1 → good target h calls → Forall (λ c, Forall (shrinkable target h h1) (c_Args c)) calls.
Proof.
  intros Hk [[_ _ _ Hw Hn _ _] Hro]. rewrite Forall_forall in Hw |- *. intros c Hc. specialize (Hw c Hc). destruct Hw as [Hargs _ _ _ _ _ _].
  specialize (Hro c Hc). rewrite Forall_forall in Hargs, Hro |- *. intros x Hx. specialize (Hargs x Hx). split; [done|]. split; [by apply Hro|].
  intros n Hin. apply (ke_none _ _ _ _ Hk); [|by eapply wfArg_others]. apply Hn, elem_concat_fmap. exists c. split; [done|]. rewrite validNodes_split.
  apply elem_of_app. left. apply elem_concat_fmap. eauto.
Qed.

Lemma shrunk_wfCall target K h h1 c c1 : keeps target K h h1 → shrunkCall target K c c1 → wfCall target h c →
  Forall (shrinkable target h h1) (c_Args c) → wfCall target h1 c1.
Proof.
  intros Hk (Hmeta & _ & [Hfail Hrerun] & Hargs & _) [_ Hm Hi Hc Ht Hf Hr] Hw. constructor; rewrite ?Hmeta; try done.
  - eapply (Forall2_transfer (shrunk target K) (shrinkable target h h1)); [|exact Hw|exact Hargs]. apply Forall_true. intros x y Hs Hx. by eapply wf_shrunk.
  - destruct Hfail as [->| ->]; [done|lia].
  - destruct Hrerun as [->| ->]; [done|lia].
Qed.

(** A smaller program is as good. *)
Lemma shrink_keeps target K h h1 calls calls1 : shrinkTable target → good target h calls → keeps target K h h1 →
  Forall2 (shrunkCall target K) calls calls1 → good target h1 calls1.
Proof.
  intros Ht Hg Hk Hs. pose proof (good_shrinkable _ _ _ _ _ Hk Hg) as Hsh. destruct Hg as [[Htf Hh Hok Hw Hn Hv Hself] Hro].
  destruct (valid_trace target h Htf Hh calls Hw Hv) as (ctx & Hall & Htr & Huses).
  assert (Hlist : Forall2 (λ c c1, shrunkCall target K c c1 ∧ wfCall target h c ∧ Forall (shrinkable target h h1) (c_Args c)) calls calls1).
  { clear -Hs Hw Hsh. induction Hs; [constructor|]. apply Forall_cons in Hw as [? ?], Hsh as [? ?]. constructor; [done|by apply IHHs]. }
  split; [split|].
  - done.
  - by destruct Hk.
  - by destruct Hk.
  - eapply (Forall2_transfer (λ c c1, shrunkCall target K c c1 ∧ wfCall target h c ∧ Forall (shrinkable target h h1) (c_Args c)) (λ _, True)); [| |exact Hlist].
    + apply Forall_true. intros c c1 (Hc & Hwc & Hsc) _. by eapply shrunk_wfCall.
    + by apply Forall_true.
  - intros n Hin. eapply Nat.lt_le_trans; [|exact (ke_next _ _ _ _ Hk)]. apply Hn. eapply elem_of_submseteq; [exact Hin|].
    by eapply sublist_submseteq, shrunkCalls_nodes.
  - destruct (shrink_calls target h h1 K Ht Hh Hk calls calls1 Hs Hsh _ _ _ Hall (simCtx_start _)) as (d & Hd & Hsd & _).
    + eapply sublist_NoDup; [exact (tr_nodup _ _ _ _ _ _ Htr)|]. by eapply shrunkCalls_nodes.
    + set_solver.
    + by eapply sim_validate.
  - intros p r1 Hp Hr1 Hbad. pose proof (shrunkCalls_kept _ _ _ _ _ Hs Hp) as HpK. destruct (ke_kept _ _ _ _ Hk p HpK) as (r & r1' & Hr & Hr1' & [_ _ Hres _ _ _]).
    rewrite Hr1 in Hr1'. injection Hr1' as <-. apply (Hself p r); [|done|by apply Hres]. eapply elem_of_submseteq; [exact Hp|].
    by eapply sublist_submseteq, shrunkCalls_results.
  - intros c1 [i Hi]%list_elem_of_lookup. destruct (Forall2_lookup_r _ _ _ i c1 Hlist Hi) as (c & _ & (_ & _ & _ & Hargs & _) & _ & Hsc).
    eapply (Forall2_transfer (shrunk target K) (shrinkable target h h1)); [|exact Hsc|exact Hargs]. apply Forall_true. intros x y Hxy Hx.
    by eapply (roomy_shrunk target h h1 K Ht Hh (ke_kept _ _ _ _ Hk) (ke_linked _ _ _ _ Hk)).
Qed.
