(* ===== verification/ProgEdits.v ===== *)
(** * The steps of minimization

    Each step of [prog/minimization.go] (a copy, the removal of a call, of an element
    or of a target, new values and sizes, an unlinked result) leaves a good program
    behind. *)

From stdpp Require Import base numbers strings gmap list.
From S2P Require Import Prelude Word ProgTypes ProgArgs ProgTree ProgValidate ProgDefault ExecRoundtrip ExecSafe ProgLinks ProgClone ProgTrace ProgLife ProgInv HintArgs ProgSize ProgShrink.

Local Open Scope Z_scope.

(** ** Links *)

(** [a.Res, a.Val = nil, typ.Default()] and back. *)
Definition unlink (p q : id) (v : Z) : H unit :=
  _ ← deleteUse q p;
  a ← h_get p;
  h_set p (mkResult (r_ref a) (r_dir a) None (r_OpDiv a) (r_OpAdd a) v (r_uses a)).

Definition relink (p q : id) : H unit :=
  a ← h_get p;
  _ ← h_set p (mkResult (r_ref a) (r_dir a) (Some q) (r_OpDiv a) (r_OpAdd a) 0 (r_uses a));
  obj ← h_get q;
  h_set q (withUses (λ uses, {[ p ]} ∪ uses) obj).

(** ** Copies *)

Section Copies.

Context (target : Target) (h h1 : Heap) (m : gmap id id).

Local Notation tbl := (typeRefs target).

Context (Hrefs : ∀ p p1, m !! p = Some p1 → r_ref <$> h_results h1 !! p1 = r_ref <$> h_results h !! p).

Lemma copy_room x y : copyArg m x y → roomSize tbl h1 y = roomSize tbl h x.
Proof using Hrefs.
  revert y. induction x as [a v|a ad vm|a ad vm x IH|a d s|a inner IH|a opt index IH|p] using Arg_tree_ind; intros y Hc;
    destruct y as [b v1|b ad1 vm1 [y|]|b d1 s1|b inner1|b opt1 index1|p1]; try done.
  - destruct Hc as [[Hr _] _]. cbn. by rewrite Hr.
  - destruct Hc as [[Hr _] _]. cbn. by rewrite Hr.
  - destruct Hc as [[Hr _] _]. cbn. by rewrite Hr.
  - destruct Hc as [[Hr _] [-> ->]]. cbn. unfold dataRoom. by rewrite Hr.
  - apply copyArg_group in Hc as [[Hr _] Hf]. cbn [roomSize]. rewrite Hr, (Forall2_length _ _ _ Hf).
    assert (Hm : mapM (roomSize tbl h1) inner1 = mapM (roomSize tbl h) inner); [|by rewrite Hm].
    clear Hr. revert IH. induction Hf as [|x y l l1 Hx _ IHl]; intros IH; [done|]. apply Forall_cons in IH as [Hx' IH]. cbn [mapM].
    by rewrite (Hx' _ Hx), IHl.
  - destruct Hc as ([Hr _] & Hx & ->). cbn [roomSize]. by rewrite Hr, (IH _ Hx).
  - cbn [roomSize argSize]. specialize (Hrefs p p1 Hc). destruct (h_results h !! p), (h_results h1 !! p1); try done. injection Hrefs as Hr.
    cbn. by rewrite Hr.
Qed.

Lemma copy_roomy x y : copyArg m x y → roomy target h x → roomy target h1 y.
Proof using Hrefs.
  revert y. induction x as [a v|a ad vm|a ad vm x IH|a d s|a inner IH|a opt index IH|p] using Arg_tree_ind; intros y Hc Hx;
    destruct y as [b v1|b ad1 vm1 [y|]|b d1 s1|b inner1|b opt1 index1|p1]; try done.
  - destruct Hc as (_ & -> & -> & Hc). destruct Hx as (? & (sz & Hsz & Hle) & Hx). split; [done|]. split; [|by apply IH].
    exists sz. split; [|done]. by rewrite (copy_room _ _ Hc).
  - destruct Hc as [[Hr Hd] [-> ->]]. cbn [roomy] in *. rewrite Hd. unfold fileOK. by rewrite Hr.
  - apply copyArg_group in Hc as [_ Hf]. apply roomy_group in Hx. apply roomy_group.
    revert IH Hx. induction Hf as [|x y l l1 Hc _ IHl]; intros IH Hx; [done|]. apply Forall_cons in IH as [IHx IH], Hx as [Hx Hxs].
    constructor; [by apply IHx|by apply IHl].
  - destruct Hc as (_ & Hc & ->). exact (IH _ Hc Hx).
Qed.

End Copies.

(** What lies below [base] in the heap is left alone. *)
Record frame (base : nat) (h h1 : Heap) : Prop := {
  fr_next : (h_next h ≤ h_next h1)%nat;
  fr_old p : (p < base)%nat → h_results h1 !! p = h_results h !! p;
}.

Lemma frame_refl base h : frame base h h.
Proof. by split. Qed.

Lemma frame_trans base base1 h h1 h2 : (base ≤ base1)%nat → frame base h h1 → frame base1 h1 h2 → frame base h h2.
Proof. intros Hle [Hn Ho] [Hn1 Ho1]. split; [lia|]. intros p Hp. rewrite Ho1 by lia. by apply Ho. Qed.

Lemma good_below target h calls p : good target h calls → p ∈ progResults calls → (p < h_next h)%nat ∧ is_Some (h_results h !! p).
Proof.
  intros [[Htf Hh Hok Hw _ Hv _] _] Hp. destruct (valid_links target h Htf Hh calls Hw Hv) as (Hl & _ & _).
  destruct (Hl p) as (r & Hr & _); [by apply elem_of_list_to_set|]. assert (is_Some (h_results h !! p)) by (by eexists). split; [by apply Hok|done].
Qed.

Lemma good_frame target h h1 calls : good target h calls → wfHeap h1 → heapOK h1 → frame (h_next h) h h1 → good target h1 calls.
Proof.
  intros Hg Hw Hok [Hn Hold]. split; [by apply (unchanged_keeps target h h1 calls (gd_ok _ _ _ Hg))|].
  intros c Hc. pose proof (gd_room _ _ _ Hg c Hc) as Hr. rewrite Forall_forall in Hr |- *. intros x Hx.
  apply (copy_roomy target h h1 (idMap (list_to_set (progResults calls))) ltac:(intros p p1 [Hp ->]%idMap_lookup; apply elem_of_list_to_set in Hp;
    destruct (good_below _ _ _ _ Hg Hp); by rewrite Hold) x); [|by apply Hr].
  apply copyArg_refl. intros p Hp. apply elem_of_list_to_set, elem_concat_fmap. exists c. split; [done|]. apply elem_of_app. left. apply elem_concat_fmap. eauto.
Qed.

Lemma good_clone target h calls : good target h calls → ∃ m h1 calls1, Clone calls h = Ret (calls1, h1) ∧ good target h1 calls1 ∧
  frame (h_next h) h h1 ∧ (∀ p, p ∈ progResults calls1 → (h_next h ≤ p)%nat) ∧ Forall2 (copyCall m) calls calls1.
Proof.
  intros [Hok Hro]. destruct (Clone_keeps target h calls Hok) as (m & h1 & calls1 & Hc & Hok1 & Hcp & Hdom & Hf & _).
  exists m, h1, calls1. split; [done|]. split; [|split; [|split; [|done]]].
  - split; [done|]. intros c1 [i Hi]%list_elem_of_lookup. destruct (Forall2_lookup_r _ _ _ i c1 Hf Hi) as (c & Hc' & (_ & _ & Ha & _)).
    specialize (Hro c (list_elem_of_lookup_2 _ _ _ Hc')). clear -Hro Ha Hcp. induction Ha as [|x y l l1 Hx _ IH]; [done|].
    apply Forall_cons in Hro as [Hro1 Hro]. constructor; [|by apply IH]. eapply copy_roomy; [|exact Hx|exact Hro1].
    intros p p1 Hp. destruct (cp_new _ _ _ _ Hcp p p1 Hp) as (_ & _ & r & -> & -> & _). done.
  - destruct Hcp. by split.
  - intros p Hp. by eapply copies_new.
Qed.

Lemma good_RemoveCall target h calls i c base : good target h calls → calls !! i = Some c → (∀ p, p ∈ progResults calls → (base ≤ p)%nat) →
  (base ≤ h_next h)%nat →
  ∃ h1, RemoveCall (typeRefs target) calls i h = Ret (take i calls ++ drop (S i) calls, h1) ∧
    good target h1 (take i calls ++ drop (S i) calls) ∧ frame base h h1.
Proof.
  intros Hg Hi Hb Hbase. pose proof Hg as [Hok Hro]. destruct (RemoveCall_keeps target h calls i c Hok Hi) as (h1 & Hc & Hok1 & Hrem).
  exists h1. split; [done|]. split.
  - split; [done|]. intros c1 Hc1%(remaining_calls calls i c Hi). pose proof (Hro c1 Hc1) as Hr. rewrite Forall_forall in Hr |- *. intros x Hx.
    apply (copy_roomy target h h1 (idMap (list_to_set (progResults calls))) ltac:(intros p p1 [Hp ->]%idMap_lookup; apply elem_of_list_to_set in Hp;
      destruct (good_below _ _ _ _ Hg Hp); by apply (removed_refs _ _ _ _ _ Hrem)) x); [|by apply Hr].
    apply copyArg_refl. intros p Hp. apply elem_of_list_to_set, elem_concat_fmap. exists c1. split; [done|]. apply elem_of_app. left. apply elem_concat_fmap. eauto.
  - split; [by destruct Hrem|]. intros p Hp. apply (removed_out _ _ _ _ _ Hrem); [lia|]. rewrite elem_of_list_to_set. intros Hin%Hb. lia.
Qed.

(** ** New values *)

(** A constant keeps its value or gets a valid one. *)
Definition okVal (target : Target) (a : ArgCommon) (v v1 : Z) : Prop := v1 = v ∨ constOK target a v1.

Lemma lenOnly_ok target a v v1 : lenOnly (typeRefs target) a v v1 → okVal target a v v1.
Proof.
  intros [->|(Hu & c & b & o & p & Ht)]; [by left|]. right. split; [done|]. exists (LenType c b o p). split; [done|].
  intros h ctx. unfold validateConst, v_seq. cbn [mbind res_bind v_ok]. by destruct (bool_decide (a_dir a = DirOut)).
Qed.

Lemma shrunk_refl target K x : (∀ p, p ∈ resultsOf x → p ∈ K) → shrunk target K x x.
Proof.
  induction x as [a v|a ad vm|a ad vm x IH|a d s|a inner IH|a opt index IH|p] using Arg_tree_ind; intros Hin; try (constructor; auto; fail).
  - constructor. cbn [resultsOf] in Hin. induction IH as [|x l Hx _ IHl]; constructor.
    + apply Hx. intros p Hp. apply Hin. cbn. apply elem_of_app. by left.
    + apply IHl. intros p Hp. apply Hin. cbn. apply elem_of_app. by right.
  - constructor. apply Hin. cbn. set_solver.
Qed.

Lemma alike_shrunk target K x y : alike true (okVal target) x y → (∀ p, p ∈ resultsOf x → p ∈ K) → shrunk target K x y.
Proof.
  revert y. induction x as [a v|a ad vm|a ad vm x IH|a d s|a inner IH|a opt index IH|p] using Arg_tree_ind; intros y Ha Hin; inversion Ha; subst.
  - by constructor.
  - constructor.
  - constructor. by apply IH.
  - constructor. left. auto.
  - constructor. cbn [resultsOf] in Hin. match goal with H : Forall2 _ inner _ |- _ => revert H end. clear Ha. revert l1.
    induction IH as [|x l Hx _ IHl]; intros l1 Hf; inversion Hf; subst; constructor.
    + apply Hx; [done|]. intros p Hp. apply Hin. cbn. apply elem_of_app. by left.
    + apply IHl; [|done]. intros p Hp. apply Hin. cbn. apply elem_of_app. by right.
  - constructor. by apply IH.
  - constructor. apply Hin. cbn. set_solver.
Qed.

Lemma keptObj_refl target r : keptObj target r r.
Proof. constructor; auto. Qed.

Lemma keeps_same target h calls : progOK target h calls → keeps target (list_to_set (progResults calls)) h h.
Proof.
  intros [Htf Hh Hok Hw _ Hv _]. destruct (valid_links target h Htf Hh calls Hw Hv) as (Hl & _ & _). constructor; try done.
  intros p Hp. destruct (Hl p Hp) as (r & Hr & _). exists r, r. split; [done|]. split; [done|apply keptObj_refl].
Qed.

(** The call keeps its form. *)
Definition alikeCall (Q : ArgCommon → Z → Z → Prop) (c c1 : Call) : Prop :=
  c_Meta c1 = c_Meta c ∧ c_Ret c1 = c_Ret c ∧ c_Props c1 = c_Props c ∧ Forall2 (alike true Q) (c_Args c) (c_Args c1).

Lemma callResults_in calls c p : c ∈ calls → p ∈ callResults c → p ∈ progResults calls.
Proof. intros Hc Hp. apply elem_concat_fmap. eauto. Qed.

Lemma argResults_in c x p : x ∈ c_Args c → p ∈ resultsOf x → p ∈ callResults c.
Proof. intros Hc Hp. apply elem_of_app. left. apply elem_concat_fmap. eauto. Qed.

Lemma retResults_in c p : c_Ret c = Some p → p ∈ callResults c.
Proof. intros Hc. apply elem_of_app. right. rewrite Hc. set_solver. Qed.

Lemma lessProps_refl p : lessProps p p.
Proof. split; by left. Qed.

Lemma alikeCall_shrunk target K c c1 : alikeCall (okVal target) c c1 → (∀ p, p ∈ callResults c → p ∈ K) → shrunkCall target K c c1.
Proof.
  intros (Hm & Hr & Hp & Ha) HK. split; [done|]. split; [done|]. rewrite Hp. split; [apply lessProps_refl|]. split.
  - assert (Hin : ∀ x p, x ∈ c_Args c → p ∈ resultsOf x → p ∈ K) by (intros; by eapply HK, argResults_in). clear -Ha Hin.
    induction Ha as [|x y l l1 Hx _ IH]; constructor; [apply alike_shrunk; [done|]; set_solver|apply IH; set_solver].
  - intros p Hpr. by apply HK, retResults_in.
Qed.

Lemma good_alike target h calls calls1 : shrinkTable target → good target h calls → Forall2 (alikeCall (okVal target)) calls calls1 → good target h calls1.
Proof.
  intros Ht Hg Hf. eapply (shrink_keeps target _ h h); [done|exact Hg|apply keeps_same, Hg|].
  assert (Hin : ∀ c p, c ∈ calls → p ∈ callResults c → p ∈ (list_to_set (progResults calls) : gset id))
    by (intros; by apply elem_of_list_to_set; eapply callResults_in).
  revert Hin. generalize (list_to_set (progResults calls) : gset id). intros K Hin. clear -Hf Hin.
  induction Hf as [|c c1 l l1 Hc _ IH]; constructor; [apply alikeCall_shrunk; [done|]; set_solver|apply IH; set_solver].
Qed.

(** ** A new node *)

Section Node.

Context (x new : Arg).

Local Notation repl := (replaceNode (argId x) new).

(** The results of [x] give way to those of [new]. *)
Definition swapped (rs rs1 : list id) : Prop := ∃ l1 l2, rs = l1 ++ resultsOf x ++ l2 ∧ rs1 = l1 ++ resultsOf new ++ l2.

Lemma swapped_app l l' rs rs1 : swapped rs rs1 → swapped (l ++ rs ++ l') (l ++ rs1 ++ l').
Proof using Type. intros (l1 & l2 & -> & ->). exists (l ++ l1), (l2 ++ l'). by rewrite <- !(assoc_L (++)). Qed.

Lemma repl_absent (l : list Arg) : (∀ y, y ∈ l → argId x ∉ nodesOf y) → repl <$> l = l.
Proof using Type.
  induction l as [|y l IH]; intros Hn; [done|]. cbn [fmap list_fmap]. rewrite replaceNode_absent by (apply Hn; set_solver). f_equal. apply IH. set_solver.
Qed.

Lemma sub_node y arg : y ∈ subArgs arg → argId y ∈ nodesOf arg.
Proof using Type. intros Hy. rewrite <- subArgs_nodes. by apply list_elem_of_fmap_2. Qed.

Lemma swapped_list (l : list Arg) : NoDup (concat (nodesOf <$> l)) → x ∈ concat (subArgs <$> l) →
  (∀ y, y ∈ l → x ∈ subArgs y → NoDup (nodesOf y) → swapped (resultsOf y) (resultsOf (repl y))) →
  swapped (concat (resultsOf <$> l)) (concat (resultsOf <$> (repl <$> l))).
Proof using Type.
  intros Hnd (y & Hy & Hx)%elem_concat_fmap IH. pose proof Hy as Hy'. apply list_elem_of_split in Hy' as (l1 & l2 & ->).
  rewrite !fmap_app, !fmap_cons, !concat_app in Hnd. cbn [concat] in Hnd. apply NoDup_app in Hnd as (_ & H1 & Hnd). apply NoDup_app in Hnd as (Hndy & H2 & _).
  assert (Hxy : argId x ∈ nodesOf y) by (by apply sub_node).
  rewrite (fmap_app repl), (fmap_cons repl), (repl_absent l1), (repl_absent l2).
  - rewrite !fmap_app, !fmap_cons, !concat_app. cbn [concat]. apply swapped_app. by apply IH.
  - intros z Hz Hin. apply (H2 _ Hxy), elem_concat_fmap. eauto.
  - intros z Hz Hin. apply (H1 (argId x)); [apply elem_concat_fmap; eauto|set_solver].
Qed.

Lemma sub_eq arg y : NoDup (nodesOf arg) → x ∈ subArgs arg → y ∈ subArgs arg → argId y = argId x → y = x.
Proof using Type. intros Hnd Hx Hy Hid. rewrite <- subArgs_nodes in Hnd. by eapply NoDup_fmap_inj. Qed.

Lemma self_sub arg : arg ∈ subArgs arg.
Proof using Type. rewrite subArgs_children. set_solver. Qed.

Lemma swapped_arg arg : NoDup (nodesOf arg) → x ∈ subArgs arg → swapped (resultsOf arg) (resultsOf (repl arg)).
Proof using Type.
  assert (Hself : ∀ arg, NoDup (nodesOf arg) → x ∈ subArgs arg → argId arg = argId x → swapped (resultsOf arg) (resultsOf (repl arg))).
  { intros z Hnd Hx Hid. assert (z = x) as -> by (eapply sub_eq; try done; apply self_sub). exists [], [].
    destruct x; cbn [replaceNode]; rewrite bool_decide_true by done; by rewrite !app_nil_r. }
  induction arg as [a v|a ad vm|a ad vm z IH|a d s|a inner IH|a opt index IH|p] using Arg_tree_ind; intros Hnd Hx;
    match goal with |- swapped (resultsOf ?z) _ => destruct (decide (argId z = argId x)) as [Hid|Hid]; [by apply Hself|] end.
  1,2,4,7: apply list_elem_of_singleton in Hx as ->; done.
  all: apply elem_of_cons in Hx as [->|Hx]; [done|]; cbn [replaceNode]; rewrite bool_decide_false by done; cbn [resultsOf nodesOf] in *; apply NoDup_cons in Hnd as [_ Hnd].
  - by apply IH.
  - apply swapped_list; [done|done|]. rewrite Forall_forall in IH. eauto.
  - by apply IH.
Qed.

Lemma replace_shrunk target K arg : shrunk target K x new → only x arg → (∀ p, p ∈ resultsOf (repl arg) → p ∈ K) → shrunk target K arg (repl arg).
Proof using Type.
  intros Hnew Ho. revert arg Ho. apply (replace_ind x new (λ arg arg1, (∀ p, p ∈ resultsOf arg1 → p ∈ K) → shrunk target K arg arg1)).
  - done.
  - intros arg _ _. apply shrunk_refl.
  - intros a ad vm y y1 IH HK. constructor. by apply IH.
  - intros a l l1 Hf HK. constructor. cbn [resultsOf] in HK. induction Hf as [|y y1 l l1 Hy _ IH]; constructor.
    + apply Hy. intros p Hp. apply HK. cbn. apply elem_of_app. by left.
    + apply IH. intros p Hp. apply HK. cbn. apply elem_of_app. by right.
  - intros a y y1 i IH HK. constructor. by apply IH.
Qed.

End Node.

Lemma good_nodup target h calls : good target h calls → NoDup (concat (validNodes <$> calls)).
Proof. intros [Hok _]. eapply edited_nodup, Hok. Qed.

Lemma good_call_nodup target h calls c : good target h calls → c ∈ calls → NoDup (concat (nodesOf <$> c_Args c)).
Proof.
  intros Hg%good_nodup Hc. apply list_elem_of_split in Hc as (l1 & l2 & ->). rewrite fmap_app, fmap_cons, concat_app in Hg. cbn [concat] in Hg.
  apply NoDup_app in Hg as (_ & _ & Hg). apply NoDup_app in Hg as (Hg & _). unfold validNodes in Hg. by apply NoDup_app in Hg as (? & _).
Qed.

Lemma good_links target h calls (L := list_to_set (progResults calls) : gset id) : good target h calls →
  linked h L ∧ typedResults (typeRefs target) h L ∧ NoDup (progResults calls).
Proof. intros [[Htf Hh Hok Hw _ Hv _] _]. by apply valid_links. Qed.

Lemma swapped_prog target h calls i c x new : good target h calls → calls !! i = Some c → x ∈ concat (subArgs <$> c_Args c) →
  swapped x new (progResults calls) (progResults (<[i := replaceInCall (argId x) new c]> calls)).
Proof.
  intros Hg Hi Hx. pose proof (good_call_nodup _ _ _ _ Hg (list_elem_of_lookup_2 _ _ _ Hi)) as Hnd.
  rewrite insert_take_drop by (by eapply lookup_lt_Some). rewrite <- (take_drop_middle calls i c Hi) at 1. unfold progResults.
  rewrite !fmap_app, !fmap_cons, !concat_app. cbn [concat]. apply swapped_app. unfold callResults, replaceInCall. cbn [c_Args c_Ret].
  apply (swapped_app x new [] _). apply swapped_list; [done|done|]. intros y _ Hy Hndy. by apply swapped_arg.
Qed.

Lemma replace_kept target K h calls i c x new : good target h calls → calls !! i = Some c → x ∈ concat (subArgs <$> c_Args c) →
  shrunk target K x new → (∀ p, p ∈ progResults calls → p ∉ resultsOf x → p ∈ K) →
  ∀ p, p ∈ progResults (<[i := replaceInCall (argId x) new c]> calls) → p ∈ K.
Proof.
  intros Hg Hi Hx Hs HK p. pose proof (good_links _ _ _ Hg) as (_ & _ & Hnd). destruct (swapped_prog _ _ _ _ _ _ new Hg Hi Hx) as (l1 & l2 & E & ->).
  rewrite E in Hnd, HK. apply NoDup_app in Hnd as (_ & H1 & Hnd). apply NoDup_app in Hnd as (_ & H2 & _).
  rewrite !elem_of_app. intros [Hp|[Hp|Hp]].
  - apply HK; [set_solver|]. intros Hin. apply (H1 p Hp). set_solver.
  - by eapply shrunk_kept.
  - apply HK; [set_solver|]. intros Hin. by apply (H2 p Hin).
Qed.

Lemma sub_call c x : x ∈ concat (subArgs <$> c_Args c) → x ∈ callArgs c.
Proof. intros Hx. apply elem_of_app. by right. Qed.

(** A program in which a node has been replaced by a smaller one. *)
Lemma replace_shrunkCalls target K h calls i c x new : good target h calls → calls !! i = Some c → x ∈ concat (subArgs <$> c_Args c) →
  shrunk target K x new → (∀ p, p ∈ progResults calls → p ∉ resultsOf x → p ∈ K) →
  Forall2 (shrunkCall target K) calls (<[i := replaceInCall (argId x) new c]> calls).
Proof.
  intros Hg Hi Hx Hs HK. pose proof (replace_kept _ _ _ _ _ _ _ _ Hg Hi Hx Hs HK) as Hall. pose proof (list_elem_of_lookup_2 _ _ _ Hi) as Hc.
  pose proof (prog_only calls c x (good_nodup _ _ _ Hg) Hc (sub_call _ _ Hx)) as Ho.
  apply Forall2_same_length_lookup_2; [by rewrite length_insert|]. intros j c1 c2 Hj Hj'.
  assert (HK2 : ∀ p, p ∈ callResults c2 → p ∈ K) by (intros p Hp; eapply Hall, callResults_in; [by eapply list_elem_of_lookup_2|done]).
  destruct (decide (i = j)) as [<-|Hne].
  - rewrite list_lookup_insert_eq in Hj' by (by eapply lookup_lt_Some). injection Hj' as <-. rewrite Hi in Hj. injection Hj as <-.
    split; [done|]. split; [done|]. split; [apply lessProps_refl|]. split; [|intros p Hp; by apply HK2, retResults_in].
    cbn [replaceInCall c_Args] in *. apply Forall2_fmap_r, Forall2_same_length_lookup_2; [done|]. intros k y y' Hy Hy'. rewrite Hy in Hy'. injection Hy' as <-.
    apply replace_shrunk; [done|eapply Ho; [done|by eapply list_elem_of_lookup_2]|]. intros p Hp. eapply HK2, argResults_in; [|exact Hp].
    apply list_elem_of_fmap_2. by eapply list_elem_of_lookup_2.
  - rewrite list_lookup_insert_ne in Hj' by done. rewrite Hj in Hj'. injection Hj' as <-.
    split; [done|]. split; [done|]. split; [apply lessProps_refl|]. split; [|intros p Hp; by apply HK2, retResults_in].
    apply Forall2_same_length_lookup_2; [done|]. intros k y y' Hy Hy'. rewrite Hy in Hy'. injection Hy' as <-. apply shrunk_refl.
    intros p Hp. eapply HK2, argResults_in; [|exact Hp]. by eapply list_elem_of_lookup_2.
Qed.

(** ** Removal *)

Section Walk.

Context (tbl : list Typ) (h : Heap).

(** Where a tree can be walked its parts can. *)
Definition walks (arg : Arg) : Prop := ∀ base off, ∃ vs, foreachArgImpl tbl h base off arg = Ret vs.

Lemma walk_sub arg : ∀ base off vs, foreachArgImpl tbl h base off arg = Ret vs → Forall walks (subArgs arg).
Proof using Type.
  induction arg as [a v|a ad vm|a ad vm x IH|a d s|a inner IH|a opt index IH|p] using Arg_tree_ind; intros base off vs Hv; cbn [foreachArgImpl subArgs] in *;
    try (constructor; [|done]; intros ??; by eexists).
  - apply bind_ret_inv in Hv as (vs1 & Hv & _). specialize (IH _ _ _ Hv). constructor; [|done]. rewrite subArgs_children in IH. apply Forall_cons in IH as [IH _].
    intros b o. cbn [foreachArgImpl]. destruct (IH (Some (PointerArg a ad vm (Some x))) 0) as [w ->]. by eexists.
  - apply bind_ret_inv in Hv as (t & Ht & Hv). apply bind_ret_inv in Hv as (vs1 & Hv & _).
    assert (Hall : Forall (λ x, Forall walks (subArgs x) ∧ ∃ s, argSize tbl h x = Ret s) inner).
    { match type of Hv with ?F 0%nat off inner = _ => assert (Hloop : ∀ i o' w, F i o' inner = Ret w → Forall (λ x, Forall walks (subArgs x) ∧ ∃ s, argSize tbl h x = Ret s) inner) end;
        [|by eapply Hloop]. clear Hv vs1. induction IH as [|x l Hx _ IHl]; intros i off1 w0 Hv; [done|].
      apply bind_ret_inv in Hv as (w & Hw & Hv). apply bind_ret_inv in Hv as (s & Hs & Hv). apply bind_ret_inv in Hv as (w' & Hw' & _).
      constructor; [split; [by eapply Hx|by eexists]|by eapply IHl]. }
    constructor.
    + intros b o. cbn [foreachArgImpl]. rewrite Ht. cbn [mbind res_bind].
      match goal with |- ∃ w, ?F 0%nat o inner ≫= _ = _ => assert (Hloop : ∀ i o', ∃ w, F i o' inner = Ret w) end.
      { clear -Hall. induction Hall as [|x l [Hx [s Hs]] _ IHl]; intros i o'; [by eexists|]. rewrite subArgs_children in Hx. apply Forall_cons in Hx as [Hx _].
        edestruct Hx as [w Hw]. rewrite Hw. cbn [mbind res_bind]. rewrite Hs. cbn [mbind res_bind]. edestruct IHl as [w' Hw']. rewrite Hw'. by eexists. }
      destruct (Hloop 0%nat o) as [w ->]. by eexists.
    + clear -Hall. induction Hall as [|x l [Hx _] _ IHl]; [done|]. cbn [fmap list_fmap concat]. by apply Forall_app.
  - apply bind_ret_inv in Hv as (vs1 & Hv & _). specialize (IH _ _ _ Hv). constructor; [|done]. rewrite subArgs_children in IH. apply Forall_cons in IH as [IH _].
    intros b o. cbn [foreachArgImpl]. destruct (IH b o) as [w ->]. by eexists.
Qed.

End Walk.

Lemma keptObj_detach target D r : keptObj target r (detach (typeRefs target) D r).
Proof.
  unfold detach. constructor; cbn; try (destruct (r_Res r) as [q|] eqn:E; [case_bool_decide|]; cbn; try rewrite E; set_solver).
Qed.

Lemma keeps_removed target h h1 calls D (L := list_to_set (progResults calls) : gset id) : good target h calls →
  removed (typeRefs target) L D h h1 → wfHeap h1 → keeps target (L ∖ D) h h1.
Proof.
  intros Hg Hrem Hw. destruct (good_links _ _ _ Hg) as (Hl & _ & _). constructor; try done; try (by destruct Hrem).
  - intros n Hn Hnone. rewrite (removed_out _ _ _ _ _ Hrem); [done|done|]. intros Hin. destruct (Hl n Hin) as (r & Hr & _). congruence.
  - intros p [HpL HpD]%elem_of_difference. destruct (Hl p HpL) as (r & Hr & _). exists r, (detach (typeRefs target) D r). split; [done|].
    split; [by apply (removed_rest _ _ _ _ _ Hrem)|apply keptObj_detach].
  - by eapply linked_removed.
Qed.

Lemma sub_split target h calls c x : good target h calls → c ∈ calls → x ∈ concat (subArgs <$> c_Args c) → ∃ l1 l2, progResults calls = l1 ++ resultsOf x ++ l2.
Proof. intros Hg [i Hi]%list_elem_of_lookup Hx. destruct (swapped_prog _ _ _ _ _ _ x Hg Hi Hx) as (l1 & l2 & E & _). eauto. Qed.

Lemma sub_walkable target h calls c x : good target h calls → c ∈ calls → x ∈ concat (subArgs <$> c_Args c) → walkable (typeRefs target) h x.
Proof.
  intros [Hok _] Hc (arg & Harg & Hx)%elem_concat_fmap. destruct (walk_prog target h calls c Hok Hc) as (vs & Hv). unfold ForeachArg in Hv.
  apply bind_ret_inv in Hv as (rs & _ & Hv). apply bind_ret_inv in Hv as (vss & Hv & _). apply mapM_res_walk in Hv. rewrite Forall_forall in Hv.
  destruct (Hv arg Harg) as (w & Hw%walk_sub). rewrite Forall_forall in Hw. apply (Hw x Hx).
Qed.

(** The removal of the results of a part of the program. *)
Lemma remove_sub target h calls c x base : shrinkTable target → good target h calls → c ∈ calls → x ∈ concat (subArgs <$> c_Args c) →
  (∀ p, p ∈ progResults calls → (base ≤ p)%nat) → (base ≤ h_next h)%nat →
  ∃ h1, removeArg (typeRefs target) x h = Ret (tt, h1) ∧
    keeps target (list_to_set (progResults calls) ∖ list_to_set (resultsOf x)) h h1 ∧ frame base h h1.
Proof.
  intros Ht Hg Hc Hx Hb Hbase. destruct (good_links _ _ _ Hg) as (Hl & Hty & Hnd). destruct (sub_split _ _ _ _ _ Hg Hc Hx) as (l1 & l2 & E).
  pose proof (sub_walkable _ _ _ _ _ Hg Hc Hx) as Hwalk. pose proof Hg as [[_ Hh Hok _ _ _ _] _].
  assert (Hndx : NoDup (resultsOf x)). { rewrite E in Hnd. apply NoDup_app in Hnd as (_ & _ & Hnd). by apply NoDup_app in Hnd as (? & _). }
  destruct (removeArg_spec (typeRefs target) x h _ Hok Hl Hty Hwalk Hndx) as (h1 & Hrm & Hrem).
  { rewrite E, !list_to_set_app. set_solver. }
  destruct (fits_removeArg target (st_fits _ Ht) x h tt h1 Hh Hrm) as [Hh1 _].
  exists h1. split; [done|]. split; [by apply keeps_removed|]. split; [by destruct Hrem|]. intros p Hp.
  apply (removed_out _ _ _ _ _ Hrem); [lia|]. rewrite elem_of_list_to_set. intros Hin%Hb. lia.
Qed.

Lemma keeps_bump target K h h1 h2 : keeps target K h h1 → h_results h2 = h_results h1 → (h_next h1 ≤ h_next h2)%nat → keeps target K h h2.
Proof.
  intros [Hw Hok Hn Hnone Hk Hl] E Hle. constructor; unfold wfHeap, heapOK, linked in *; rewrite ?E; try done; [|lia].
  intros p Hp%Hok. lia.
Qed.

(** ** Unlinked results *)

Lemma H_get h p r : h_results h !! p = Some r → ∀ B (k : ResultObj → H B), (h_get p ≫= k) h = k r h.
Proof. intros Hp B k. unfold mbind, H_bind, h_get. by rewrite Hp. Qed.

Lemma H_set h p r B (k : unit → H B) : (h_set p r ≫= k) h = k tt (mkHeap (h_next h) (<[p := r]> (h_results h))).
Proof. done. Qed.

Section Unlink.

Context (target : Target) (h : Heap) (calls : list Call) (Ht : shrinkTable target) (Hg : good target h calls).
Context (p q : id) (r : ResultObj) (c : TypeCommon) (f : BinaryFormat) (d : ResourceDesc) (v : Z).
Context (Hp : p ∈ progResults calls) (Hr : h_results h !! p = Some r) (Hq : r_Res r = Some q).

Local Notation L := (list_to_set (progResults calls) : gset id).

Definition unlinkedObj : ResultObj := mkResult (r_ref r) (r_dir r) None (r_OpDiv r) (r_OpAdd r) v (r_uses r).

Lemma unlink_ret : ∃ rq, h_results h !! q = Some rq ∧ p ≠ q ∧ q ∈ L ∧
  unlink p q v h = Ret (tt, mkHeap (h_next h) (<[p := unlinkedObj]> (<[q := withUses (λ uses, uses ∖ {[ p ]}) rq]> (h_results h)))).
Proof using Hg Hp Hr Hq.
  destruct (good_links _ _ _ Hg) as (Hl & _ & _). destruct (Hl p) as (r' & Hr' & _ & Hin); [by apply elem_of_list_to_set|].
  rewrite Hr in Hr'. injection Hr' as <-. specialize (Hin q Hq). destruct (Hl q Hin) as (rq & Hrq & _). exists rq. split; [done|].
  assert (Hne : p ≠ q). { intros <-. by apply (po_self _ _ _ (gd_ok _ _ _ Hg) p r). }
  split; [done|]. split; [done|]. unfold unlink. unfold mbind, H_bind. rewrite (deleteUse_ret h q p rq Hrq). unfold h_get. cbn [h_results].
  rewrite lookup_insert_ne by done. rewrite Hr. done.
Qed.

Context (rq : ResultObj) (Hrq : h_results h !! q = Some rq) (Hne : p ≠ q) (HqL : q ∈ L).

Local Notation h1 := (mkHeap (h_next h) (<[p := unlinkedObj]> (<[q := withUses (λ uses, uses ∖ {[ p ]}) rq]> (h_results h)))).

Lemma unlinked_res u s : (∃ ru, h_results h1 !! u = Some ru ∧ r_Res ru = Some s) ↔ u ≠ p ∧ ∃ ru, h_results h !! u = Some ru ∧ r_Res ru = Some s.
Proof using Hrq Hne.
  cbn [h_results]. destruct (decide (u = p)) as [->|Hup].
  { rewrite lookup_insert_eq. split; [intros (ru & [= <-] & Hbad); done|by intros []]. }
  rewrite lookup_insert_ne by done. destruct (decide (u = q)) as [->|Huq].
  - rewrite lookup_insert_eq, Hrq. split; [intros (ru & [= <-] & Hs); split; [done|]; by exists rq|intros (_ & ru & [= <-] & Hs); by eexists].
  - rewrite lookup_insert_ne by done. naive_solver.
Qed.

Lemma unlinked_linked : linked h1 L.
Proof using Hg Hp Hr Hq Hrq Hne HqL.
  destruct (good_links _ _ _ Hg) as (Hl & _ & _). intros s Hs. destruct (Hl s Hs) as (rs & Hrs & Hu & Hres).
  setoid_rewrite unlinked_res. cbn [h_results]. destruct (decide (s = p)) as [->|Hsp]; [|destruct (decide (s = q)) as [->|Hsq]].
  - rewrite Hr in Hrs. injection Hrs as <-. rewrite lookup_insert_eq. eexists. split; [done|]. split; [|done]. intros u. cbn [unlinkedObj r_uses].
    rewrite Hu. split; [|naive_solver]. intros (HuL & ru & Hru & Hup). split; [done|]. split; [|by eexists]. intros ->. congruence.
  - rewrite Hrq in Hrs. injection Hrs as <-. rewrite lookup_insert_ne, lookup_insert_eq by done. eexists. split; [done|]. split; [|exact Hres].
    intros u. cbn [withUses r_uses]. rewrite elem_of_difference, Hu, elem_of_singleton. naive_solver.
  - rewrite !lookup_insert_ne by done. exists rs. split; [done|]. split; [|exact Hres]. intros u. rewrite Hu. split; [|naive_solver].
    intros (HuL & ru & Hru & Hus). split; [done|]. split; [|by eexists]. intros ->. congruence.
Qed.

Lemma unlinked_kept s : s ∈ L → typeOf (typeRefs target) (r_ref r) = Ret (ResourceType c f d) → resourceDefault d = Ret v →
  ∃ rs rs1, h_results h !! s = Some rs ∧ h_results h1 !! s = Some rs1 ∧ keptObj target rs rs1.
Proof using Type*.
  destruct (good_links _ _ _ Hg) as (Hl & _ & _). intros Hs Hty Hv. destruct (Hl s Hs) as (rs & Hrs & _). exists rs. cbn [h_results].
  destruct (decide (s = p)) as [->|Hsp]; [|destruct (decide (s = q)) as [->|Hsq]].
  - rewrite Hr in Hrs. injection Hrs as <-. rewrite lookup_insert_eq. eexists. split; [done|]. split; [done|]. constructor; cbn [unlinkedObj r_ref r_dir r_Res r_uses r_Val]; try done.
    + right. unfold defaultVal. by rewrite Hty, Hv.
    + congruence.
  - rewrite Hrq in Hrs. injection Hrs as <-. rewrite lookup_insert_ne, lookup_insert_eq by done. eexists. split; [done|]. split; [done|].
    constructor; cbn [withUses r_ref r_dir r_Res r_uses r_Val r_OpDiv r_OpAdd]; auto; set_solver.
  - rewrite !lookup_insert_ne by done. exists rs. split; [done|]. split; [done|apply keptObj_refl].
Qed.

Lemma default_u64 : typeOf (typeRefs target) (r_ref r) = Ret (ResourceType c f d) → resourceDefault d = Ret v → isU64 v.
Proof using Ht.
  intros Hty%typeOf_lookup Hv. apply (tf_types _ (st_fits _ Ht)) in Hty as (_ & _ & _ & _ & Hvals). unfold resourceDefault in Hv.
  destruct (rd_Values d) as [|w ws]; [done|]. injection Hv as ->. by apply Forall_cons in Hvals as [? _].
Qed.

(** The heap without the link. *)
Lemma unlinked_keeps base : (base ≤ p)%nat → (base ≤ q)%nat → typeOf (typeRefs target) (r_ref r) = Ret (ResourceType c f d) → resourceDefault d = Ret v →
  keeps target L h h1 ∧ frame base h h1.
Proof using Type*.
  intros Hbp Hbq Hty Hv. pose proof Hg as [[_ Hh Hok _ _ _ _] _]. split.
  - constructor; try done.
    + intros s rs. cbn [h_results]. destruct (decide (s = p)) as [->|Hsp]; [|destruct (decide (s = q)) as [->|Hsq]].
      * rewrite lookup_insert_eq. intros [= <-]. destruct (Hh p r Hr) as (_ & ? & ?). split; [|done]. by eapply default_u64.
      * rewrite lookup_insert_ne, lookup_insert_eq by done. intros [= <-]. apply (Hh q rq Hrq).
      * rewrite !lookup_insert_ne by done. apply Hh.
    + intros s. cbn [h_results h_next]. rewrite !lookup_insert_is_Some. intros [<-|[_ [<-|[_ Hs]]]]; [apply Hok; by eexists|apply Hok; by eexists|by apply Hok].
    + intros n _ Hn. cbn [h_results]. rewrite !lookup_insert_ne by congruence. done.
    + intros s Hs. by eapply unlinked_kept.
    + apply unlinked_linked.
  - split; [done|]. intros s Hs. cbn [h_results]. rewrite !lookup_insert_ne by lia. done.
Qed.

End Unlink.

Lemma relink_ret h p q r rq base : wfHeap h → heapOK h → h_results h !! p = Some r → h_results h !! q = Some rq → p ≠ q → (base ≤ p)%nat → (base ≤ q)%nat →
  ∃ h1, relink p q h = Ret (tt, h1) ∧ wfHeap h1 ∧ heapOK h1 ∧ frame base h h1.
Proof.
  intros Hh Hok Hr Hrq Hne Hbp Hbq. unfold relink. rewrite (H_get h p r Hr), H_set. erewrite H_get by (cbn [h_results]; rewrite lookup_insert_ne by done; exact Hrq).
  eexists. split; [done|]. cbn [h_next h_results]. destruct (Hh p r Hr) as (? & ? & ?). destruct (Hh q rq Hrq) as (? & ? & ?). split; [|split].
  - intros s rs. cbn [h_results]. rewrite !lookup_insert_Some. intros [[<- <-]|[_ [[<- <-]|[_ Hs]]]]; [done|split; [apply isU64_0|done]|by eapply Hh].
  - intros s. cbn [h_results h_next]. rewrite !lookup_insert_is_Some. intros [<-|[_ [<-|[_ Hs]]]]; [apply Hok; by eexists|apply Hok; by eexists|by apply Hok].
  - split; [done|]. intros s Hs. cbn [h_results]. rewrite !lookup_insert_ne by lia. done.
Qed.

(** ** Nodes of a good program *)

(** Validation has passed the node. *)
Definition sound (target : Target) (h : Heap) (arg : Arg) : Prop :=
  ∃ t dir ctx ctx', argType (typeRefs target) h arg = Ret t ∧ validateMethod target h arg t dir ctx = Ret (inr ctx').

Lemma roomy_sub target h arg : roomy target h arg → Forall (roomy target h) (subArgs arg).
Proof.
  induction arg as [a v|a ad vm|a ad vm x IH|a d s|a inner IH|a opt index IH|p] using Arg_tree_ind; intros Hr; (constructor; [exact Hr|]); try done.
  - apply IH. by destruct Hr as (_ & _ & ?).
  - apply roomy_group in Hr. cbn [subArgs]. revert Hr. induction IH as [|x l Hx _ IHl]; intros Hr; [done|]. apply Forall_cons in Hr as [Hr1 Hr].
    cbn [fmap list_fmap concat]. apply Forall_app. split; [by apply Hx|by apply IHl].
  - by apply IH.
Qed.

Lemma good_node target h calls c x : good target h calls → c ∈ calls → x ∈ concat (subArgs <$> c_Args c) →
  sound target h x ∧ wfArg h x ∧ roomy target h x.
Proof.
  intros [[Htf Hh _ Hw _ Hv _] Hro] Hc Hx. split.
  - assert (Hall : Forall (sound target h) (callArgs c)).
    { eapply (visits_prog target h Htf Hh); [|done|done]. intros arg t d dir ctx ctx' Ht _ Hm. by exists t, dir, ctx, ctx'. }
    rewrite Forall_forall in Hall. by apply Hall, sub_call.
  - apply elem_concat_fmap in Hx as (arg & Harg & Hx). rewrite Forall_forall in Hw. specialize (Hw c Hc). destruct Hw as [Hargs _ _ _ _ _ _].
    specialize (Hro c Hc). rewrite Forall_forall in Hargs, Hro. pose proof (wfArg_sub _ _ (Hargs _ Harg)) as Hws. pose proof (roomy_sub _ _ _ (Hro _ Harg)) as Hrs.
    rewrite Forall_forall in Hws, Hrs. split; [by apply Hws|by apply Hrs].
Qed.

(** ** Buffers *)

Lemma trimRight_le d : (length (trimRight d) ≤ length d)%nat.
Proof. induction d as [|b d IH]; [done|]. cbn [trimRight]. destruct (trimRight d); [case_bool_decide; cbn; lia|cbn in *; lia]. Qed.

Lemma trimRight_pad d k : Forall (λ b, b = specialFileLenPad ∨ b = 0) k → trimRight (d ++ k) = trimRight d.
Proof.
  intros Hk. assert (Hz : trimRight k = []). { induction Hk as [|b k Hb _ IH]; [done|]. cbn [trimRight]. by rewrite IH, bool_decide_true. }
  induction d as [|b d IH]; [done|]. cbn [app trimRight]. by rewrite IH.
Qed.

Lemma trimRight_twice d : trimRight (trimRight d) = trimRight d.
Proof.
  induction d as [|b d IH]; [done|]. cbn [trimRight]. destruct (trimRight d) as [|b' d'] eqn:E.
  - case_bool_decide as Hb; [done|]. cbn [trimRight]. by rewrite bool_decide_false.
  - change (trimRight (b :: b' :: d')) with (match trimRight (b' :: d') with [] => if bool_decide (b = specialFileLenPad ∨ b = 0) then [] else [b] | rest => b :: rest end).
    by rewrite IH.
Qed.

Lemma trimFile_twice noZ d : trimFile noZ (trimFile noZ d) = trimFile noZ d.
Proof.
  unfold trimFile. destruct noZ; [by rewrite !app_nil_r, trimRight_twice|]. rewrite trimRight_pad, trimRight_twice by (repeat constructor; by right). done.
Qed.

Section Buffers.

Context (target : Target) (h : Heap) (Ht : shrinkTable target).
Context (a : ArgCommon) (d : list Z) (s : Z) (Hdir : a_dir a ≠ DirOut).
Context (Hw : wfArg h (DataArg a d s)) (Hr : roomy target h (DataArg a d s)).
Context (c : TypeCommon) (kind : BufferKind) (b e : Z) (text : TextKind) (sub : string) (values : list (list Z)) (noZ : bool).

Local Notation tbl := (typeRefs target).
Local Notation t := (BufferType c kind b e text sub values noZ).

Context (Hty : typeOf tbl (a_ref a) = Ret t).

Lemma trim_ok : kind = BufferFilename → Varlen t = true → dataOK target a d s (trimFile noZ d).
Proof using Hdir Hw Hr Hty.
  intros Hk Hvar. destruct Hr as [Hs Hfile]. specialize (Hs Hdir) as ->. unfold fileOK in Hfile. rewrite Hty, Hk in Hfile. destruct Hfile as [Hesc Hlen].
  split; [done|]. split; [|split].
  - unfold dataRoom. rewrite Hty, Hk, trimFile_twice. cbv zeta. repeat case_bool_decide; lia.
  - unfold fileOK. by rewrite Hty, Hk, trimFile_twice.
  - exists t. split; [done|]. intros ctx. unfold validateData. rewrite Hvar, Hk. unfold v_seq, v_check, v_ok. rewrite bool_decide_false by (by intros [? _]).
    cbn [mbind res_bind]. by rewrite Hesc.
Qed.

Lemma cut_ok n : sound target h (DataArg a d s) → kind = BufferBlobRand ∨ kind = BufferBlobRange → b ≤ Z.of_nat n → dataOK target a d s (take n d).
Proof using Ht Hdir Hw Hr Hty.
  intros (t' & dir & ctx & ctx' & Ht' & Hv) Hk Hn. unfold argType, argRef in Ht'. cbn in Ht'. rewrite Hty in Ht'. injection Ht' as <-. cbn [validateMethod] in Hv.
  destruct (st_blobs _ Ht _ _ _ _ _ _ _ _ _ (typeOf_lookup _ _ _ Hty) Hk) as [Hb Hfix]. destruct Hw as (_ & Hlen & _). destruct Hr as [Hs _]. specialize (Hs Hdir) as ->.
  pose proof (length_take_le d n) as Hle0. assert (Htl : length (take n d) = Nat.min n (length d)) by apply length_take.
  assert (Hsize : ∀ l : list Z, (if bool_decide (l ≠ []) then Z.of_nat (length l) else 0) = Z.of_nat (length l)) by (intros [|]; done).
  split; [lia|]. split; [|split].
  - unfold dataRoom. rewrite Hty, !Hsize. cbv zeta. destruct Hk as [->| ->]; lia.
  - unfold fileOK. rewrite Hty. by destruct Hk as [->| ->].
  - exists t. split; [done|]. intros ctx1. revert Hv. unfold validateData. rewrite !Hsize. intros (c1 & _ & (c2 & Hv & _)%v_seq_inv)%v_seq_inv.
    unfold v_seq, v_ok, v_check at 1. rewrite (bool_decide_false (a_dir a = DirOut ∧ take n d ≠ [])) by (by intros [? _]). cbn [mbind res_bind v_ok].
    unfold Varlen, typSize in *. cbn [typeCommon] in *. destruct (IsVarlen c); cbn [mbind res_bind] in *.
    + destruct Hk as [->| ->]; done.
    + apply v_check_inv in Hv as [Hb0%bool_decide_eq_false _]. specialize (Hfix eq_refl). unfold v_check. rewrite (bool_decide_false (TypeSize c ≠ Z.of_nat (length (take n d)))) by lia. cbn [mbind res_bind v_ok].
      destruct Hk as [->| ->]; done.
Qed.

End Buffers.

(** ** Trees of the same form *)

Definition anyVal (a : ArgCommon) (v v1 : Z) : Prop := True.

Lemma alike_weaken e (Q Q1 : ArgCommon → Z → Z → Prop) x y : (∀ a v v1, Q a v v1 → Q1 a v v1) → alike e Q x y → alike e Q1 x y.
Proof.
  intros HQ. revert y. induction x as [a v|a ad vm|a ad vm x IH|a d s|a inner IH|a opt index IH|p] using Arg_tree_ind; intros y Ha; inversion Ha; subst; constructor; auto; try done.
  clear Ha. match goal with H : Forall2 _ inner _ |- _ => revert H end. revert l1. induction IH; intros l1 Hf; inversion Hf; subst; constructor; auto.
Qed.

Section Forms.

Context (Q : ArgCommon → Z → Z → Prop) (Hrefl : ∀ a v, Q a v v) (Htrans : ∀ a u v w, Q a u v → Q a v w → Q a u w).

Lemma alike_any e x y : alike e Q x y → alike e anyVal x y.
Proof using Type. by apply alike_weaken. Qed.

Lemma alike_trans x y z : alike true Q x y → alike true Q y z → alike true Q x z.
Proof using Htrans.
  revert y z. induction x as [a v|a ad vm|a ad vm x IH|a d s|a inner IH|a opt index IH|p] using Arg_tree_ind; intros y z Ha Hb; inversion Ha; subst; inversion Hb; subst;
    constructor; eauto; try done.
  - intros _. repeat match goal with H : true = true → _ |- _ => specialize (H eq_refl) end. by subst.
  - clear Ha Hb. match goal with H : Forall2 _ inner ?k, H' : Forall2 _ ?k ?k' |- _ => revert k k' H H' end. induction IH as [|x l Hx _ IHl]; intros l1 l2 Hf Hf2; inversion Hf; subst; inversion Hf2; subst; constructor; eauto.
Qed.

Lemma alike_list_trans l l1 l2 : Forall2 (alike true Q) l l1 → Forall2 (alike true Q) l1 l2 → Forall2 (alike true Q) l l2.
Proof using Htrans.
  intros Hf. revert l2. induction Hf as [|x y l l1 Hx _ IH]; intros l2 Hf2; inversion Hf2; subst; constructor; [by eapply alike_trans|by apply IH].
Qed.

Lemma alike_subs e x y : alike e Q x y → Forall2 (alike e Q) (subArgs x) (subArgs y).
Proof using Type.
  revert y. induction x as [a v|a ad vm|a ad vm x IH|a d s|a inner IH|a opt index IH|p] using Arg_tree_ind; intros y Ha; inversion Ha; subst; cbn [subArgs]; (constructor; [done|]); auto.
  clear Ha. match goal with H : Forall2 _ inner _ |- _ => revert H end. revert l1.
  induction IH as [|x l Hx _ IHl]; intros l1 Hf; inversion Hf; subst; [constructor|]. cbn [fmap list_fmap concat]. apply Forall2_app; auto.
Qed.

Lemma alike_list_subs e l l1 : Forall2 (alike e Q) l l1 → Forall2 (alike e Q) (concat (subArgs <$> l)) (concat (subArgs <$> l1)).
Proof using Type. induction 1; [constructor|]. cbn [fmap list_fmap concat]. apply Forall2_app; [by apply alike_subs|done]. Qed.

Lemma alike_find e l l1 x : Forall2 (alike e Q) l l1 → x ∈ concat (subArgs <$> l) → ∃ y, y ∈ concat (subArgs <$> l1) ∧ alike e Q x y.
Proof using Type.
  intros Hf%alike_list_subs [i Hi]%list_elem_of_lookup. destruct (Forall2_lookup_l _ _ _ _ _ Hf Hi) as (y & Hy & Ha). exists y. split; [by eapply list_elem_of_lookup_2|done].
Qed.

Lemma alike_repl e x new arg : alike e Q x new → only x arg → alike e Q arg (replaceNode (argId x) new arg).
Proof using Hrefl.
  intros Hnew Ho. revert arg Ho. apply (replace_ind x new (alike e Q)); try (intros; constructor; done); [done|]. intros. by apply alike_refl.
Qed.

(** The contents of a buffer are put back. *)
Lemma alike_restore a d d1 s arg arg3 : only (DataArg a d s) arg → alike true Q (replaceNode (a_id a) (DataArg a d1 s) arg) arg3 →
  alike true Q arg (replaceNode (a_id a) (DataArg a d s) arg3).
Proof using Hrefl Htrans.
  intros Ho. revert arg3. pattern arg, (replaceNode (a_id a) (DataArg a d1 s) arg). revert arg Ho.
  apply (replace_ind_ne (DataArg a d s) (DataArg a d1 s)); cbn [argId].
  - intros arg3 H3. inversion H3; subst. cbn [replaceNode argId]. rewrite bool_decide_true by done. by apply alike_refl.
  - intros arg Hne Hc arg3 H3. rewrite replaceNode_absent; [done|]. pose proof (alike_id _ _ _ _ H3) as Hid. inversion H3; subst; cbn in *; try set_solver.
    cbn in Hc. subst. match goal with H : Forall2 _ [] _ |- _ => inversion H; subst; set_solver end.
  - intros b ad vm y y1 Hne IH arg3 H3. inversion H3; subst. cbn [replaceNode argId]. rewrite bool_decide_false by done. constructor. auto.
  - intros b inner inner1 Hne IH arg3 H3. inversion H3; subst. cbn [replaceNode argId]. rewrite bool_decide_false by done. constructor. clear H3.
    match goal with H : Forall2 _ inner1 _ |- _ => revert H end. revert l1. induction IH as [|y y1 l l' Hy _ IHl]; intros l1 Hf; inversion Hf; subst; constructor; auto.
  - intros b y y1 i Hne IH arg3 H3. inversion H3; subst. cbn [replaceNode argId]. rewrite bool_decide_false by done. constructor. auto.
Qed.

End Forms.

Lemma setVals_restore ws a d d1 s arg : only (DataArg a d s) arg →
  replaceNode (a_id a) (DataArg a d s) (setVals ws (replaceNode (a_id a) (DataArg a d1 s) arg)) = setVals ws arg.
Proof.
  intros Ho. pattern arg, (replaceNode (a_id a) (DataArg a d1 s) arg). revert arg Ho.
  apply (replace_ind_ne (DataArg a d s) (DataArg a d1 s)); cbn [argId].
  - cbn [setVals replaceNode argId]. by rewrite bool_decide_true.
  - intros arg Hne Hc. apply replaceNode_absent. destruct arg as [| ? ? ? [|] | | ? [|] | |]; cbn in *; try done; set_solver.
  - intros b ad vm y y1 Hne IH. cbn [setVals replaceNode argId]. rewrite bool_decide_false by done. by rewrite IH.
  - intros b inner inner1 Hne IH. cbn [setVals replaceNode argId]. rewrite bool_decide_false by done. f_equal.
    induction IH as [|y y1 l l1 Hy _ IHl]; [done|]. cbn [fmap list_fmap]. by rewrite Hy, IHl.
  - intros b y y1 i Hne IH. cbn [setVals replaceNode argId]. rewrite bool_decide_false by done. by rewrite IH.
Qed.

Lemma okVal_refl target a v : okVal target a v v.
Proof. by left. Qed.

Lemma okVal_trans target a u v w : okVal target a u v → okVal target a v w → okVal target a u w.
Proof. intros Hu [->|Hw]; [done|by right]. Qed.

(** A new node is part of the program. *)
Lemma replaced_sub x new arg : x ∈ subArgs arg → NoDup (nodesOf arg) → new ∈ subArgs (replaceNode (argId x) new arg).
Proof.
  induction arg as [a v|a ad vm|a ad vm z IH|a d s|a inner IH|a opt index IH|p] using Arg_tree_ind; intros Hx Hnd; cbn [replaceNode]; (case_bool_decide as Hid; [apply self_sub|]).
  1,2,4,7: apply list_elem_of_singleton in Hx as ->; done.
  all: apply elem_of_cons in Hx as [->|Hx]; [done|]; cbn [subArgs nodesOf] in *; apply NoDup_cons in Hnd as [_ Hnd]; apply elem_of_cons; right.
  - by apply IH.
  - apply elem_concat_fmap in Hx as (y & Hy & Hx). apply elem_concat_fmap. exists (replaceNode (argId x) new y). split; [by apply list_elem_of_fmap_2|].
    rewrite Forall_forall in IH. apply IH; [done|done|]. apply list_elem_of_split in Hy as (l1 & l2 & ->).
    rewrite fmap_app, fmap_cons, concat_app in Hnd. cbn [concat] in Hnd. apply NoDup_app in Hnd as (_ & _ & Hnd). by apply NoDup_app in Hnd as (? & _).
  - by apply IH.
Qed.

(** ** Constants *)

Lemma const_ok target h a v : sound target h (ConstArg a v) → wfArg h (ConstArg a v) → constOK target a v.
Proof.
  intros (t & dir & ctx & ctx' & Ht & Hv) [_ Hu]. split; [done|]. exists t. split; [done|]. intros h1 ctx1. cbn [validateMethod] in Hv.
  apply (uniform_const (typeRefs target) h) in Hv as [_ Hall]. exact (Hall ctx1).
Qed.

(** The values that [minimizeInt] sets. *)
Definition plainDefault (t : Typ) : option Z :=
  match t with
  | IntType _ _ _ _ _ | FlagsType _ _ _ => Some 0
  | ProcType _ _ _ => Some procDefaultValue
  | _ => None
  end.

Lemma default_ok target a t v : typeOf (typeRefs target) (a_ref a) = Ret t → plainDefault t = Some v → constOK target a v.
Proof.
  intros Ht Hd. assert (Hdef : ∀ h, isDefault (typeRefs target) h (ConstArg a v) = Ret true).
  { intros h. cbn [isDefault]. unfold argType, argRef. cbn [mbind res_bind]. rewrite Ht. cbn [mbind res_bind]. destruct t; try done; injection Hd as <-; by rewrite bool_decide_true. }
  split; [destruct t; try done; injection Hd as <-; unfold isU64, procDefaultValue; lia|]. exists t. split; [done|]. intros h ctx.
  unfold validateConst. destruct t; try done; unfold v_seq, v_ok, v_check; rewrite Hdef; cbn [mbind res_bind negb];
    repeat (match goal with |- context [if bool_decide ?P then _ else _] => destruct (bool_decide P) end; cbn [mbind res_bind]); done.
Qed.

Lemma DefaultArg_plain tbl ref dir h t v : typeOf tbl ref = Ret t → plainDefault t = Some v →
  DefaultArg 1 tbl ref dir h = Ret (ConstArg (mkAC (h_next h) ref dir) v, mkHeap (S (h_next h)) (h_results h)).
Proof.
  intros Ht Hd. cbn [DefaultArg]. unfold mbind, H_bind, h_lift. rewrite Ht. cbn. destruct t; try done; by injection Hd as <-.
Qed.
