(* ===== verification/ProgMinimize.v ===== *)
(** * Minimization of programs

    [prog/minimization.go]: [Minimize] tries simpler programs, one change at a time,
    and keeps those that an equivalence predicate accepts. *)

From stdpp Require Import base numbers strings pretty gmap list.
From S2P Require Import Prelude Word ProgTypes ProgArgs ProgTree ProgValidate ProgDefault ExecRoundtrip ExecSafe ProgLinks ProgClone ProgTrace ProgLife ProgInv HintArgs ProgSize ProgShrink ProgEdits.

Local Open Scope Z_scope.

(** ** Programs and queries *)

(** The heap, and the number of calls of the predicate so far. *)
Definition World : Type := Heap * nat.

Definition W (A : Type) : Type := World → res (A * World).

#[global] Instance W_ret : MRet W := λ A a w, Ret (a, w).

#[global] Instance W_bind : MBind W := λ A B k m w,
  match m w with
  | Ret (a, w') => k a w'
  | Panic => Panic
  | NoFuel => NoFuel
  end.

Definition w_lift {A} (m : res A) : W A := λ w, a ← m; Ret (a, w).

Definition w_heap {A} (m : H A) : W A := λ w, '(a, h) ← m w.1; Ret (a, (h, w.2)).

Definition w_ask : W Heap := λ w, Ret (w.1, w).

(** What a program looks like from outside: the values of its results. *)
Definition progView (h : Heap) (calls : list Call) : list (option ResultObj) := (λ p, h_results h !! p) <$> progResults calls.

(** [int(x)] of a [uint64]. *)
Definition toInt (x : Z) : Z := (x + 2 ^ 63) `mod` 2 ^ 64 - 2 ^ 63.

Definition noProps : CallProps := mkProps 0 false 0.

Definition withProps (props : CallProps) (c : Call) : Call := mkCall (c_Meta c) (c_Args c) (c_Ret c) props.

(** A call of a program is replaced. *)
Definition updateCall (i : nat) (f : Call → Call) (calls : list Call) : W (list Call) :=
  c ← w_lift (of_option (calls !! i)); mret (<[i := f c]> calls).

Section Minimize.

Context (target : Target) (ptrPtr ptr64 : Ref).

(** [target.Neutralize], which rewrites a call or fails, and [debug]. *)
Context (Neutralize : Call → res (option Call)) (debug : bool).

(** The answers of [pred0], by the number of the query. *)
Context (pred0 : nat → list Call → list (option ResultObj) → Z → bool).

Local Notation tbl := (typeRefs target).

Definition sanitizeFix (calls : list Call) : res (list Call) := mapM (λ c, o ← Neutralize c; of_option o) calls.

Definition debugValidate (calls : list Call) : W unit := λ w,
  if debug then e ← validate target w.1 calls; match e with None => Ret (tt, w) | Some _ => Panic end else Ret (tt, w).

(** The answer, and the program as sanitizing has left it. *)
Definition pred (calls : list Call) (callIndex : Z) : W (bool * list Call) :=
  calls ← w_lift (sanitizeFix calls);
  _ ← debugValidate calls;
  (λ w, Ret ((pred0 w.2 calls (progView w.1 calls) callIndex, calls), (w.1, S w.2))) : W (bool * list Call).

Definition cloneProg (calls : list Call) : W (list Call) :=
  calls ← w_heap (Clone calls); _ ← debugValidate calls; mret calls.

(** ** Calls and their properties *)

(** The loop of [removeCalls] over the calls below [n]. *)
Fixpoint removeCallsLoop (n : nat) (p0 : list Call) (callIndex0 : Z) : W (list Call * Z) :=
  match n with
  | O => mret (p0, callIndex0)
  | S i =>
      if bool_decide (Z.of_nat i = callIndex0) then removeCallsLoop i p0 callIndex0
      else
        let callIndex := if bool_decide (Z.of_nat i < callIndex0) then callIndex0 - 1 else callIndex0 in
        p ← cloneProg p0;
        p ← w_heap (RemoveCall tbl p i);
        '(ok, p) ← pred p callIndex;
        if ok : bool then removeCallsLoop i p callIndex else removeCallsLoop i p0 callIndex0
  end.

Definition removeCalls (p0 : list Call) (callIndex0 : Z) : W (list Call * Z) := removeCallsLoop (length p0) p0 callIndex0.

Definition resetCallProps (p0 : list Call) (callIndex0 : Z) : W (list Call) :=
  p ← cloneProg p0;
  let anyDifferent := existsb (λ c, bool_decide (c_Props c ≠ noProps)) p in
  let p := withProps noProps <$> p in
  if anyDifferent then '(ok, p) ← pred p callIndex0; mret (if ok : bool then p else p0) else mret p0.

(** One try of [minimizeCallProps], when the property is set. *)
Definition tryProps (isSet : bool) (callIndex : nat) (f : CallProps → CallProps) (p0 : list Call) (callIndex0 : Z) : W (list Call) :=
  if isSet then
    p ← cloneProg p0;
    p ← updateCall callIndex (λ c, withProps (f (c_Props c)) c) p;
    '(ok, p) ← pred p callIndex0;
    mret (if ok : bool then p else p0)
  else mret p0.

Definition minimizeCallProps (p0 : list Call) (callIndex : nat) (callIndex0 : Z) : W (list Call) :=
  c ← w_lift (of_option (p0 !! callIndex));
  let props := c_Props c in
  p0 ← tryProps (bool_decide (0 < FailNth props)) callIndex (λ p, mkProps 0 (Async p) (Rerun p)) p0 callIndex0;
  p0 ← tryProps (Async props) callIndex (λ p, mkProps (FailNth p) false (Rerun p)) p0 callIndex0;
  tryProps (bool_decide (0 < Rerun props)) callIndex (λ p, mkProps (FailNth p) (Async p) 0) p0 callIndex0.

(** ** Arguments *)

(** [minimizeArgsCtx]: the world, [triedPaths], [ctx.p], and whether [ctx.p] has been
    committed, so that [*ctx.p0] is [ctx.p]. *)
Record Ctx := mkMin {
  x_world : World;
  x_tried : gset string;
  x_p : list Call;
  x_committed : bool;
}.

Definition R (A : Type) : Type := Ctx → res (A * Ctx).

#[global] Instance R_ret : MRet R := λ A a x, Ret (a, x).

#[global] Instance R_bind : MBind R := λ A B k m x,
  match m x with
  | Ret (a, x') => k a x'
  | Panic => Panic
  | NoFuel => NoFuel
  end.

Definition r_panic {A} : R A := λ _, Panic.

Definition r_lift {A} (m : res A) : R A := λ x, a ← m; Ret (a, x).

Definition r_world {A} (m : W A) : R A := λ x,
  '(a, w) ← m (x_world x); Ret (a, mkMin w (x_tried x) (x_p x) (x_committed x)).

Definition r_heap {A} (m : H A) : R A := r_world (w_heap m).

Definition r_ask : R Ctx := λ x, Ret (x, x).

Definition r_try (path : string) : R unit := λ x,
  Ret (tt, mkMin (x_world x) ({[ path ]} ∪ x_tried x) (x_p x) (x_committed x)).

Definition r_setProg (p : list Call) : R unit := λ x, Ret (tt, mkMin (x_world x) (x_tried x) p (x_committed x)).

(** [*ctx.p0 = ctx.p]. *)
Definition r_commit (ok : bool) : R unit := λ x, Ret (tt, mkMin (x_world x) (x_tried x) (x_p x) (ok || x_committed x)).

Definition r_pred (callIndex0 : Z) : R bool :=
  x ← r_ask; '(ok, p) ← r_world (pred (x_p x) callIndex0); _ ← r_setProg p; mret ok.

Section Args.

(** The call at hand, and the parameters of the minimization. *)
Context (callIndex : nat) (callIndex0 : Z) (crash : bool).

Definition r_call : R Call := x ← r_ask; r_lift (of_option (x_p x !! callIndex)).

Definition r_setCall (c : Call) : R unit := x ← r_ask; r_setProg (<[callIndex := c]> (x_p x)).

(** The argument at an address, as it is now, and the assignment of its contents. *)
Definition r_load (i : id) : R Arg :=
  c ← r_call; r_lift (of_option (head (filter (λ y, argId y = i) (concat (subArgs <$> c_Args c))))).

Definition r_store (new : Arg) : R unit := c ← r_call; r_setCall (replaceInCall (argId new) new c).

(** [ctx.target.assignSizesCall(ctx.call)]. *)
Definition r_assignSizes : R unit :=
  x ← r_ask; c ← r_call; c ← r_lift (assignSizesCall tbl ptrPtr ptr64 (x_world x).1 c); r_setCall c.

(** The predicate on [ctx.p], which is committed if it holds. *)
Definition r_offer : R bool := ok ← r_pred callIndex0; _ ← r_commit ok; mret ok.

(** [do] for the method [minimize] of the type of an argument. *)
Definition do (minimize : string → R bool) (field path : string) : R bool :=
  let path := (path +:+ "-" +:+ field)%string in
  x ← r_ask;
  if bool_decide (path ∈ x_tried x) then mret false
  else
    b ← minimize path;
    if b : bool then mret true
    else
      x' ← r_ask;
      if x_committed x' || bool_decide (x_committed x' ≠ x_committed x) then r_panic
      else _ ← r_try path; mret false.

Definition minimizeInt (i : id) (path : string) : R bool :=
  if crash then mret false
  else
    arg ← r_load i;
    match arg with
    | ConstArg a v0 =>
        def ← r_heap (DefaultArg 1 tbl (a_ref a) (a_dir a));
        match def with
        | ConstArg _ defVal =>
            if bool_decide (v0 = defVal) then mret false
            else
              _ ← r_store (ConstArg a defVal);
              ok ← r_offer;
              if ok : bool then _ ← r_try path; mret true
              else _ ← r_store (ConstArg a v0); mret false
        | _ => r_panic
        end
    | _ => r_panic
    end.

Definition minimizeResource (d : ResourceDesc) (p : id) (path : string) : R bool :=
  if crash then mret false
  else
    a ← r_heap (h_get p);
    match r_Res a with
    | None => mret false
    | Some r0 =>
        v ← r_lift (resourceDefault d);
        _ ← r_heap (unlink p r0 v);
        ok ← r_offer;
        _ ← (if ok : bool then mret tt else r_heap (relink p r0));
        _ ← r_try path;
        mret true
    end.

(** The contents of a buffer. *)
Definition r_data (i : id) : R (ArgCommon * list Z * Z) :=
  arg ← r_load i;
  match arg with
  | DataArg a data size => data ← r_lift (dataOf (a_dir a) data); mret (a, data, size)
  | _ => r_panic
  end.

(** [s[:n]] of a slice of [backing], which is taken to end with its array. *)
Definition reslice (backing : list Z) (n : Z) : res (list Z) :=
  if bool_decide (0 ≤ n ≤ Z.of_nat (length backing)) then Ret (take (Z.to_nat n) backing) else Panic.

Fixpoint blobLoop (fuel : nat) (i : id) (backing : list Z) (minLen step : Z) : R unit :=
  match fuel with
  | O => λ _, NoFuel
  | S fuel =>
      '(a, data, size) ← r_data i;
      let len := Z.of_nat (length data) in
      if bool_decide (minLen < len ∧ 0 < step) then
        let next := if crash then mret tt else blobLoop fuel i backing minLen (Z.quot step 2) in
        if bool_decide (minLen ≤ len - step) then
          data ← r_lift (reslice data (len - step));
          _ ← r_store (DataArg a data size);
          _ ← r_assignSizes;
          ok ← r_pred callIndex0;
          if ok : bool then blobLoop fuel i backing minLen step
          else
            '(a, data, size) ← r_data i;
            data ← r_lift (reslice backing (Z.of_nat (length data) + step));
            _ ← r_store (DataArg a data size);
            _ ← r_assignSizes;
            next
        else next
      else mret tt
  end.

Definition minimizeBlob (i : id) (rangeBegin : Z) (path : string) : R bool :=
  '(_, data, _) ← r_data i;
  let len0 := Z.of_nat (length data) in
  let minLen := toInt rangeBegin in
  let step := len0 - minLen in
  _ ← blobLoop (S (length data + Z.to_nat step)) i data minLen step;
  '(_, data, _) ← r_data i;
  if bool_decide (Z.of_nat (length data) ≠ len0) then
    _ ← r_commit true; _ ← r_try path; mret true
  else mret false.

Definition minimizeFilename (t : Typ) (noZ : bool) (i : id) (path : string) : R bool :=
  if negb (Varlen t) then mret false
  else
    '(a, data0, size) ← r_data i;
    let data := trimFile noZ data0 in
    _ ← r_store (DataArg a data size);
    if bool_decide (data = data0) then mret false
    else _ ← r_assignSizes; ok ← r_offer; _ ← r_try path; mret true.

Definition minimizeBuffer (t : Typ) (kind : BufferKind) (rangeBegin : Z) (noZ : bool) (a : ArgCommon) (path : string) : R bool :=
  if bool_decide (a_dir a = DirOut) then mret false
  else
    match kind with
    | BufferCompressed => r_panic
    | BufferBlobRand | BufferBlobRange => minimizeBlob (a_id a) rangeBegin path
    | BufferFilename => minimizeFilename t noZ (a_id a) path
    | _ => mret false
    end.

(** The removal of the target of a pointer. *)
Definition dropTarget (a : ArgCommon) : R bool :=
  arg ← r_load (a_id a);
  match arg with
  | PointerArg _ _ _ (Some target1) =>
      _ ← r_heap (removeArg tbl target1);
      new ← r_heap (MakeSpecialPointerArg tbl (a_ref a) (a_dir a) 0);
      match new with
      | PointerArg b address vmaSize res => r_store (PointerArg (mkAC (a_id a) (a_ref b) (a_dir b)) address vmaSize res)
      | _ => r_panic
      end;;
      _ ← r_assignSizes;
      r_offer
  | _ => r_panic
  end.

(** The removal of an element of an array. *)
Definition dropElem (a : ArgCommon) (i : nat) : R bool :=
  arg ← r_load (a_id a);
  match arg with
  | GroupArg b inner =>
      elem ← r_lift (of_option (inner !! i));
      _ ← r_store (GroupArg b (delete i inner));
      _ ← r_heap (removeArg tbl elem);
      _ ← r_assignSizes;
      r_offer
  | _ => r_panic
  end.

(** The methods [minimize] of the types.  The shape of an argument does not change
    while it is walked, its values may. *)
Fixpoint minimize (arg : Arg) (path : string) : R bool :=
  x ← r_ask;
  t ← r_lift (argType tbl (x_world x).1 arg);
  match t, arg with
  | StructType _ fields _ _, GroupArg _ inner =>
      (fix loop (i : nat) (l : list Arg) : R bool :=
         match l with
         | [] => mret false
         | x :: l =>
             f ← r_lift (of_option (fields !! i));
             b ← do (minimize x) (f_Name f) path;
             if b : bool then mret true else loop (S i) l
         end) 0%nat inner
  | UnionType _ fields, UnionArg _ opt index =>
      f ← r_lift (if bool_decide (index < 0) then Panic else of_option (fields !! Z.to_nat index));
      do (minimize opt) (f_Name f) path
  | PtrType _ _ _, PointerArg a _ _ pointee =>
      match pointee with
      | None => mret false
      | Some x =>
          let path1 := (path +:+ ">")%string in
          s ← r_ask;
          if bool_decide (path1 ∈ x_tried s) then do (minimize x) EmptyString path
          else _ ← dropTarget a; _ ← r_try path1; mret true
      end
  | ArrayType _ _ kind rangeBegin _, GroupArg a inner =>
      (fix loop (i : nat) (l : list Arg) : R bool :=
         match l with
         | [] => mret false
         | x :: l =>
             b ← loop (S i) l;
             if b : bool then mret true
             else
               let elemPath := (path +:+ "-" +:+ pretty i)%string in
               s ← r_ask;
               if negb crash && bool_decide (elemPath ∉ x_tried s) &&
                  (bool_decide (kind = ArrayRandLen) ||
                   bool_decide (kind = ArrayRangeLen) && bool_decide (rangeBegin < u64 (Z.of_nat (length inner)))) then
                 _ ← r_try elemPath; _ ← dropElem a i; mret true
               else do (minimize x) EmptyString elemPath
         end) 0%nat inner
  | (IntType _ _ _ _ _ | FlagsType _ _ _), ConstArg a _ => minimizeInt (a_id a) path
  | ProcType _ _ _, ConstArg a _ => if negb (Optional t) then mret false else minimizeInt (a_id a) path
  | ResourceType _ _ d, ResultArg p => minimizeResource d p path
  | BufferType _ kind rangeBegin _ _ _ _ noZ, DataArg a _ _ => minimizeBuffer t kind rangeBegin noZ a path
  | (ConstType _ _ _ | LenType _ _ _ _ | CsumType _ _ _ _ | VmaType _ _ _), _ => mret false
  | _, _ => r_panic
  end.

(** The loop over the arguments of the call. *)
Fixpoint minimizeArgs (j : nat) (fields : list Field) : R bool :=
  match fields with
  | [] => mret false
  | field :: fields =>
      c ← r_call;
      arg ← r_lift (of_option (c_Args c !! j));
      b ← do (minimize arg) (f_Name field) EmptyString;
      if b : bool then mret true else minimizeArgs (S j) fields
  end.

(** A round works on a clone of the program and ends when a program has been tried. *)
Definition round (tried : gset string) (p0 : list Call) : W (bool * gset string * list Call) :=
  p ← cloneProg p0;
  (λ w, '(b, x) ← (c ← r_call; minimizeArgs 0 (sc_Args (c_Meta c))) (mkMin w tried p false);
        Ret ((b, x_tried x, if x_committed x then x_p x else p0), x_world x)) : W (bool * gset string * list Call).

(** The label [again]. *)
Fixpoint again (fuel : nat) (tried : gset string) (p0 : list Call) : W (list Call) :=
  match fuel with
  | O => λ _, NoFuel
  | S fuel => '(b, tried, p0) ← round tried p0; if b : bool then again fuel tried p0 else mret p0
  end.

End Args.

(** [Attrs.NoMinimize] of a call, and the number of rounds for each call. *)
Context (noMinimize : Syscall → bool) (crash : bool) (rounds : nat).

Fixpoint minimizeCalls (n i : nat) (p0 : list Call) (callIndex0 : Z) : W (list Call) :=
  match n with
  | O => mret p0
  | S n =>
      c ← w_lift (of_option (p0 !! i));
      p0 ← (if noMinimize (c_Meta c) then mret p0
            else p0 ← again i callIndex0 crash rounds ∅ p0; minimizeCallProps p0 i callIndex0);
      minimizeCalls n (S i) p0 callIndex0
  end.

(** The name of the call at an index, which panics out of range. *)
Definition nameAt (p : list Call) (callIndex : Z) : res string :=
  if bool_decide (callIndex < 0) then Panic
  else c ← of_option (p !! Z.to_nat callIndex); Ret (sc_Name (c_Meta c)).

Definition Minimize (p0 : list Call) (callIndex0 : Z) : W (list Call * Z) :=
  name0 ← (if bool_decide (callIndex0 = -1) then mret EmptyString else w_lift (nameAt p0 callIndex0));
  '(p0, callIndex0) ← removeCalls p0 callIndex0;
  p0 ← resetCallProps p0 callIndex0;
  p0 ← minimizeCalls (length p0) 0 p0 callIndex0;
  if bool_decide (callIndex0 = -1) then mret (p0, callIndex0)
  else
    name ← w_lift (nameAt p0 callIndex0);
    if bool_decide (name0 ≠ name) then w_lift Panic else mret (p0, callIndex0).

End Minimize.

(** ** The paths of a call

    [triedPaths] stays inside this set, and each round that goes on adds to it. *)

Fixpoint pathsOf (tbl : list Typ) (arg : Arg) (path : string) : gset string :=
  {[ path ]} ∪
  match arg with
  | PointerArg _ _ _ (Some x) => {[ (path +:+ ">")%string ]} ∪ pathsOf tbl x (path +:+ "-" +:+ EmptyString)
  | GroupArg a inner =>
      match typeOf tbl (a_ref a) with
      | Ret (StructType _ fields _ _) => ⋃ zip_with (λ x f, pathsOf tbl x (path +:+ "-" +:+ f_Name f)) inner fields
      | Ret (ArrayType _ _ _ _ _) =>
          ⋃ ((λ i : nat, {[ (path +:+ "-" +:+ pretty i)%string ]} ∪
                ⋃ ((λ x, pathsOf tbl x ((path +:+ "-" +:+ pretty i) +:+ "-" +:+ EmptyString)) <$> inner)) <$> seq 0 (length inner))
      | _ => ∅
      end
  | UnionArg a opt index =>
      match typeOf tbl (a_ref a) with
      | Ret (UnionType _ fields) =>
          match fields !! Z.to_nat index with Some f => pathsOf tbl opt (path +:+ "-" +:+ f_Name f) | None => ∅ end
      | _ => ∅
      end
  | _ => ∅
  end.

Definition argsPaths (tbl : list Typ) (args : list Arg) (fields : list Field) : gset string :=
  ⋃ zip_with (λ x f, pathsOf tbl x (EmptyString +:+ "-" +:+ f_Name f)) args fields.

Definition callPaths (tbl : list Typ) (c : Call) : gset string := argsPaths tbl (c_Args c) (sc_Args (c_Meta c)).

Section Paths.

Context (tbl : list Typ).

(** No new paths. *)
Definition slim (x y : Arg) : Prop := ∀ path, pathsOf tbl y path ⊆ pathsOf tbl x path.

Lemma pathsOf_self arg path : path ∈ pathsOf tbl arg path.
Proof using Type. destruct arg; cbn [pathsOf]; set_solver. Qed.

Lemma slim_zip l l1 (fields : list Field) (g : Field → string) : Forall2 slim l l1 →
  ⋃ zip_with (λ x f, pathsOf tbl x (g f)) l1 fields ⊆ ⋃ zip_with (λ x f, pathsOf tbl x (g f)) l fields.
Proof using Type.
  intros Hf. revert fields. induction Hf as [|x y l l1 Hx _ IH]; intros [|f fields]; try done. cbn [zip_with union_list foldr]. specialize (Hx (g f)). specialize (IH fields). set_solver.
Qed.

Lemma union_list_mono {A} (f g : A → gset string) (l l1 : list A) : (∀ y, y ∈ l1 → ∃ x, x ∈ l ∧ g y ⊆ f x) → ⋃ (g <$> l1) ⊆ ⋃ (f <$> l).
Proof using Type.
  intros Hl s (X & HX & Hs)%elem_of_union_list. apply list_elem_of_fmap in HX as (y & -> & Hy). destruct (Hl y Hy) as (x & Hx & Hsub).
  apply elem_of_union_list. exists (f x). split; [by apply list_elem_of_fmap_2|by apply Hsub].
Qed.

(** Elements of an array have the same paths. *)
Lemma slim_array a b l l1 c e kind rb re : a_ref b = a_ref a → typeOf tbl (a_ref a) = Ret (ArrayType c e kind rb re) → (length l1 ≤ length l)%nat →
  (∀ y, y ∈ l1 → ∃ x, x ∈ l ∧ slim x y) → slim (GroupArg a l) (GroupArg b l1).
Proof using Type.
  intros Hr Ht Hlen Hl path. cbn [pathsOf]. rewrite Hr, Ht. apply union_mono_l. apply union_list_mono. intros i Hi. exists i. split; [apply elem_of_seq in Hi; apply elem_of_seq; lia|].
  apply union_mono_l, union_list_mono. intros y Hy. destruct (Hl y Hy) as (x & Hx & Hs). exists x. split; [done|apply Hs].
Qed.

Lemma slim_group a b l l1 : a_ref b = a_ref a → Forall2 slim l l1 → slim (GroupArg a l) (GroupArg b l1).
Proof using Type.
  intros Hr Hf path. destruct (typeOf tbl (a_ref a)) as [t| |] eqn:Ht; [|cbn [pathsOf]; rewrite Hr, Ht; done..].
  destruct t; try (cbn [pathsOf]; rewrite Hr, Ht; done).
  - eapply slim_array; [done|done|by rewrite (Forall2_length _ _ _ Hf)|]. intros y [k Hk]%list_elem_of_lookup. destruct (Forall2_lookup_r _ _ _ _ _ Hf Hk) as (x & Hx & Hs).
    exists x. split; [by eapply list_elem_of_lookup_2|done].
  - cbn [pathsOf]. rewrite Hr, Ht. apply union_mono_l. by apply slim_zip.
Qed.

Lemma slim_ptr a b ad vm ad1 vm1 x y : slim x y → slim (PointerArg a ad vm (Some x)) (PointerArg b ad1 vm1 (Some y)).
Proof using Type. intros Hs path. cbn [pathsOf]. specialize (Hs (path +:+ "-" +:+ EmptyString)). set_solver. Qed.

Lemma slim_union a b x y i : a_ref b = a_ref a → slim x y → slim (UnionArg a x i) (UnionArg b y i).
Proof using Type.
  intros Hr Hs path. cbn [pathsOf]. rewrite Hr. apply union_mono_l. destruct (typeOf tbl (a_ref a)) as [[]| |]; try done. destruct (_ !! _); [apply Hs|done].
Qed.

Lemma slim_alike e Q x y : alike e Q x y → slim x y.
Proof using Type.
  revert y. induction x as [a v|a ad vm|a ad vm x IH|a d s|a inner IH|a opt index IH|p] using Arg_tree_ind; intros y Ha; inversion Ha; subst; try (intros path; reflexivity).
  - by apply slim_ptr, IH.
  - apply slim_group; [done|]. clear Ha. match goal with H : Forall2 _ inner _ |- _ => revert H end. revert l1.
    induction IH as [|x l Hx _ IHl]; intros l1 Hf; inversion Hf; subst; constructor; auto.
  - apply slim_union; [done|]. by apply IH.
Qed.

Lemma slim_copy m x y : copyArg m x y → slim x y.
Proof using Type.
  revert y. induction x as [a v|a ad vm|a ad vm x IH|a d s|a inner IH|a opt index IH|p] using Arg_tree_ind; intros y Hc;
    destruct y as [b v1|b ad1 vm1 [y|]|b d1 s1|b inner1|b opt1 index1|p1]; try done; try (intros path; reflexivity).
  - apply slim_ptr, IH. by destruct Hc as (_ & _ & _ & ?).
  - apply copyArg_group in Hc as [[Hr _] Hf]. apply slim_group; [done|]. revert IH. induction Hf as [|x y l l1 Hx _ IHl]; intros IH; [constructor|].
    apply Forall_cons in IH as [IHx IH]. constructor; [by apply IHx|by apply IHl].
  - destruct Hc as ([Hr _] & Hc & ->). apply slim_union; [done|]. by apply IH.
Qed.

End Paths.

Lemma slim_shrunk target K x y : shrunk target K x y → slim (typeRefs target) x y.
Proof.
  revert y. induction x as [a v|a ad vm|a ad vm x IH|a d s|a inner IH|a opt index IH|p] using Arg_tree_ind; intros y Hs; inversion Hs; subst; try (intros path; reflexivity).
  - by apply slim_ptr, IH.
  - intros path. cbn [nullOf pathsOf]. set_solver.
  - apply slim_group; [done|]. clear Hs. match goal with H : Forall2 _ inner _ |- _ => revert H end. revert l1.
    induction IH as [|x l Hx _ IHl]; intros l1 Hf; inversion Hf; subst; constructor; auto.
  - match goal with H : Forall2 _ (delete k inner) _ |- _ => rename H into Hf end.
    eapply slim_array; [done|done| |].
    + rewrite <- (Forall2_length _ _ _ Hf). rewrite length_delete by (by eexists). lia.
    + intros y [j Hj]%list_elem_of_lookup. destruct (Forall2_lookup_r _ _ _ _ _ Hf Hj) as (z & Hz & Hzy). exists z.
      assert (Hin : z ∈ inner) by (apply list_elem_of_lookup_2 in Hz; eapply elem_of_submseteq; [exact Hz|]; apply sublist_submseteq, sublist_delete).
      split; [done|]. rewrite Forall_forall in IH. by apply IH.
  - apply slim_union; [done|]. by apply IH.
Qed.

Definition slimCall (tbl : list Typ) (c c1 : Call) : Prop := c_Meta c1 = c_Meta c ∧ callPaths tbl c1 ⊆ callPaths tbl c.

Notation slimmer tbl := (Forall2 (slimCall tbl)).

Lemma slimCall_args tbl c c1 : c_Meta c1 = c_Meta c → Forall2 (slim tbl) (c_Args c) (c_Args c1) → slimCall tbl c c1.
Proof. intros Hm Hf. split; [done|]. unfold callPaths, argsPaths. rewrite Hm. by apply slim_zip. Qed.

#[global] Instance slimCall_refl tbl : Reflexive (slimCall tbl).
Proof. by split. Qed.

#[global] Instance slimCall_trans tbl : Transitive (slimCall tbl).
Proof. intros c c1 c2 [Hm Hp] [Hm1 Hp1]. split; [congruence|set_solver]. Qed.

Lemma slim_alikeCall tbl Q c c1 : alikeCall Q c c1 → slimCall tbl c c1.
Proof. intros (Hm & _ & _ & Hf). apply slimCall_args; [done|]. eapply Forall2_impl; [exact Hf|]. intros x y. apply slim_alike. Qed.

Lemma slim_copyCall tbl m c c1 : copyCall m c c1 → slimCall tbl c c1.
Proof. intros (Hm & _ & Hf & _). apply slimCall_args; [done|]. eapply Forall2_impl; [exact Hf|]. intros x y. apply slim_copy. Qed.

Lemma slim_shrunkCall target K c c1 : shrunkCall target K c c1 → slimCall (typeRefs target) c c1.
Proof. intros (Hm & _ & _ & Hf & _). apply slimCall_args; [done|]. eapply Forall2_impl; [exact Hf|]. intros x y. apply slim_shrunk. Qed.

Lemma slimmer_metas tbl p p1 : slimmer tbl p p1 → c_Meta <$> p1 = c_Meta <$> p.
Proof. induction 1 as [|c c1 p p1 [Hm _] _ IH]; [done|]. cbn [fmap list_fmap]. by rewrite Hm, IH. Qed.

(** ** What minimization relies on *)

(** The table of types, a [Neutralize] that only sets valid values, sizes that can be
    computed, and no images in the calls that are minimized. *)
Record minTarget (target : Target) (ptrPtr ptr64 : Ref) (Neutralize : Call → res (option Call)) (noMinimize : Syscall → bool) : Prop := {
  mt_table : shrinkTable target;
  mt_lens : lensFit (typeRefs target);
  mt_sizes h calls c : good target h calls → c ∈ calls → ∃ c1, assignSizesCall (typeRefs target) ptrPtr ptr64 h c = Ret c1;
  mt_neutral h calls c : good target h calls → c ∈ calls → ∃ c1, Neutralize c = Ret (Some c1) ∧ alikeCall (okVal target) c c1;
  mt_plain h calls c x : good target h calls → c ∈ calls → noMinimize (c_Meta c) = false → x ∈ callArgs c → compressed (typeRefs target) x = false;
}.

Lemma W_bind_ret {A B} (m : W A) (k : A → W B) w a w1 : m w = Ret (a, w1) → (m ≫= k) w = k a w1.
Proof. intros Hm. unfold mbind, W_bind. by rewrite Hm. Qed.

Lemma R_bind_ret {A B} (m : R A) (k : A → R B) x a x1 : m x = Ret (a, x1) → (m ≫= k) x = k a x1.
Proof. intros Hm. unfold mbind, R_bind. by rewrite Hm. Qed.

Lemma R_bind3 {A B C D} (m : R A) (m1 : R B) (m2 : R C) (k : C → R D) x c x1 : (_ ← m; _ ← m1; m2) x = Ret (c, x1) →
  (_ ← m; _ ← m1; c ← m2; k c) x = k c x1.
Proof.
  unfold mbind, R_bind. destruct (m x) as [[a y]| |]; try done. destruct (m1 y) as [[b z]| |]; try done. by intros ->.
Qed.

Lemma R_bind2 {A B D} (m : R A) (m1 : R B) (k : B → R D) x b x1 : (_ ← m; m1) x = Ret (b, x1) → (_ ← m; b ← m1; k b) x = k b x1.
Proof. unfold mbind, R_bind. destruct (m x) as [[a y]| |]; try done. by intros ->. Qed.

Lemma good_heap target h calls : good target h calls → wfHeap h ∧ heapOK h.
Proof. by intros [[_ Hh Hok _ _ _ _] _]. Qed.

Section Correct.

Context (target : Target) (ptrPtr ptr64 : Ref) (Neutralize : Call → res (option Call)) (debug : bool) (noMinimize : Syscall → bool).
Context (pred0 : nat → list Call → list (option ResultObj) → Z → bool).
Context (Hmt : minTarget target ptrPtr ptr64 Neutralize noMinimize).

Local Notation tbl := (typeRefs target).
Local Notation pred := (pred target Neutralize debug pred0).
Local Notation cloneProg := (cloneProg target debug).

(** [Neutralize] finds nothing to change. *)
Definition idle : Prop := ∀ c, Neutralize c = Ret (Some c).

Lemma debugValidate_ret calls w : good target w.1 calls → debugValidate target debug calls w = Ret (tt, w).
Proof using Type. intros [Hok _]. unfold debugValidate. destruct debug; [|done]. by rewrite (po_valid _ _ _ Hok). Qed.

Lemma sanitizeFix_ret h calls : good target h calls →
  ∃ calls1, sanitizeFix Neutralize calls = Ret calls1 ∧ Forall2 (alikeCall (okVal target)) calls calls1 ∧ (idle → calls1 = calls).
Proof using Hmt.
  intros Hg. assert (Hall : ∀ c, c ∈ calls → ∃ c1, Neutralize c = Ret (Some c1) ∧ alikeCall (okVal target) c c1) by (intros; by eapply mt_neutral).
  clear Hg. unfold sanitizeFix. induction calls as [|c calls IH]; [by exists []|]. cbn [mapM].
  destruct (Hall c) as (c1 & Hn & Ha); [by left|]. rewrite Hn. cbn [mbind res_bind of_option]. destruct IH as (calls1 & -> & Hf & Hid); [intros c' Hc'; apply Hall; by right|].
  exists (c1 :: calls1). split; [done|]. split; [by constructor|]. intros Hidle. rewrite Hid by done. rewrite Hidle in Hn. by injection Hn as <-.
Qed.

Lemma pred_ret calls idx w : good target w.1 calls → ∃ calls1,
  pred calls idx w = Ret ((pred0 w.2 calls1 (progView w.1 calls1) idx, calls1), (w.1, S w.2)) ∧
  Forall2 (alikeCall (okVal target)) calls calls1 ∧ good target w.1 calls1 ∧ (idle → calls1 = calls).
Proof using Hmt.
  intros Hg. destruct (sanitizeFix_ret _ _ Hg) as (calls1 & Hs & Hf & Hid). pose proof (good_alike _ _ _ _ (mt_table _ _ _ _ _ Hmt) Hg Hf) as Hg1.
  exists calls1. split; [|done]. unfold ProgMinimize.pred. rewrite (W_bind_ret _ _ w calls1 w); [|unfold w_lift; by rewrite Hs].
  by rewrite (W_bind_ret _ _ w tt w (debugValidate_ret _ _ Hg1)).
Qed.

Lemma cloneProg_ret p0 w : good target w.1 p0 → ∃ m p h1, cloneProg p0 w = Ret (p, (h1, w.2)) ∧ good target h1 p ∧ frame (h_next w.1) w.1 h1 ∧
  (∀ q, q ∈ progResults p → (h_next w.1 ≤ q)%nat) ∧ Forall2 (copyCall m) p0 p.
Proof using Type.
  intros Hg. destruct (good_clone _ _ _ Hg) as (m & h1 & p & Hc & Hg1 & Hfr & Hb & Hf). exists m, p, h1. split; [|done].
  unfold ProgMinimize.cloneProg. rewrite (W_bind_ret _ _ w p (h1, w.2)); [|unfold w_heap; by rewrite Hc]. by rewrite (W_bind_ret _ _ _ tt (h1, w.2)) by (by apply debugValidate_ret).
Qed.

(** ** Programs on the way *)

Context (orig : list Call) (h0 : Heap) (idx0 : Z) (name0 : string) (rounds : nat).

(** The program is good, comes from the original, keeps the call of interest, and has
    been accepted; the original has not changed. *)
Record okProg (w : World) (p : list Call) (idx : Z) : Prop := {
  op_good : good target w.1 p;
  op_frame : frame (h_next h0) h0 w.1;
  op_metas : (c_Meta <$> p) `sublist_of` (c_Meta <$> orig);
  op_fuel c : c ∈ p → (size (callPaths tbl c) < rounds)%nat;
  op_name : idx0 = -1 ∧ idx = -1 ∨ idx0 ≠ -1 ∧ nameAt p idx = Ret name0;
  op_acc : idle → (p = orig ∧ idx = idx0) ∨ ∃ k, (k < w.2)%nat ∧ pred0 k p (progView w.1 p) idx = true;
}.

Lemma progView_frame h h1 base p : frame base h h1 → (∀ q, q ∈ progResults p → (q < base)%nat) → progView h1 p = progView h p.
Proof using Type. intros [_ Hold] Hb. apply list_fmap_ext. intros i q Hq%list_elem_of_lookup_2. by apply Hold, Hb. Qed.

(** Nothing below the next address has changed. *)
Lemma okProg_keep w w1 p idx : okProg w p idx → wfHeap w1.1 → heapOK w1.1 → frame (h_next w.1) w.1 w1.1 → (w.2 ≤ w1.2)%nat → okProg w1 p idx.
Proof using Type.
  intros [Hg Hfr Hm Hf Hn Hacc] Hw Hok Hfr1 Hle. constructor; try done.
  - by eapply good_frame.
  - eapply frame_trans; [|exact Hfr|exact Hfr1]. apply Hfr.
  - intros Hid. destruct (Hacc Hid) as [?|(k & Hk & Hp)]; [by left|]. right. exists k. split; [lia|].
    rewrite (progView_frame w.1 w1.1 (h_next w.1)); [done|done|]. intros q Hq. by eapply good_below.
Qed.

Lemma slimmer_fuel p p1 : slimmer tbl p p1 → (∀ c, c ∈ p → (size (callPaths tbl c) < rounds)%nat) → ∀ c, c ∈ p1 → (size (callPaths tbl c) < rounds)%nat.
Proof using Type.
  intros Hf Hall c1 [i Hi]%list_elem_of_lookup. destruct (Forall2_lookup_r _ _ _ _ _ Hf Hi) as (c & Hc & [_ Hp]).
  specialize (Hall c (list_elem_of_lookup_2 _ _ _ Hc)). pose proof (subseteq_size _ _ Hp). lia.
Qed.

Lemma nameAt_metas p p1 idx : c_Meta <$> p1 = c_Meta <$> p → nameAt p1 idx = nameAt p idx.
Proof using Type.
  intros Hm. unfold nameAt. case_bool_decide; [done|]. apply (f_equal (.!! Z.to_nat idx)) in Hm. rewrite !list_lookup_fmap in Hm.
  destruct (p !! _) as [c|], (p1 !! _) as [c1|]; try done. injection Hm as Hm. cbn. by rewrite Hm.
Qed.

(** A program that may take the place of the one at hand. *)
Record candidate (p : list Call) (idx : Z) : Prop := {
  cd_metas : (c_Meta <$> p) `sublist_of` (c_Meta <$> orig);
  cd_fuel c : c ∈ p → (size (callPaths tbl c) < rounds)%nat;
  cd_name : idx0 = -1 ∧ idx = -1 ∨ idx0 ≠ -1 ∧ nameAt p idx = Ret name0;
}.

Lemma candidate_slim p p1 idx : candidate p idx → slimmer tbl p p1 → candidate p1 idx.
Proof using Type.
  intros [Hm Hf Hn] Hs. pose proof (slimmer_metas _ _ _ Hs) as Hm1. constructor; [by rewrite Hm1|by eapply slimmer_fuel|by rewrite (nameAt_metas _ _ _ Hm1)].
Qed.

Lemma okProg_candidate w p idx : okProg w p idx → candidate p idx.
Proof using Type. by intros []. Qed.

Lemma okProg_take w w1 p0 p idx idx1 : okProg w p0 idx → candidate p idx1 → good target w1.1 p → frame (h_next w.1) w.1 w1.1 →
  (idle → ∃ k, (k < w1.2)%nat ∧ pred0 k p (progView w1.1 p) idx1 = true) → okProg w1 p idx1.
Proof using Type.
  intros [Hg Hfr Hm Hf Hn Hacc] [Hm1 Hf1 Hn1] Hg1 Hfr1 Hk. constructor; try done.
  - eapply frame_trans; [|exact Hfr|exact Hfr1]. apply Hfr.
  - intros Hid. right. by apply Hk.
Qed.

(** A question about a candidate. *)
Lemma attempt w h1 p0 p idx idx1 : okProg w p0 idx → candidate p idx1 → good target h1 p → frame (h_next w.1) w.1 h1 →
  ∃ (ok : bool) p1, pred p idx1 (h1, w.2) = Ret ((ok, p1), (h1, S w.2)) ∧ okProg (h1, S w.2) p0 idx ∧ (ok = true → okProg (h1, S w.2) p1 idx1).
Proof using Hmt.
  intros Hok Hcd Hg Hfr. destruct (pred_ret p idx1 (h1, w.2) Hg) as (p1 & Hp & Hf & Hg1 & _). eexists _, p1. split; [exact Hp|]. split.
  - eapply okProg_keep; [exact Hok|by eapply good_heap|by eapply good_heap|done|cbn; lia].
  - intros Htrue. eapply okProg_take; [exact Hok| |done|done|].
    + eapply candidate_slim; [exact Hcd|]. eapply Forall2_impl; [exact Hf|]. intros c c1. apply slim_alikeCall.
    + intros _. exists w.2. split; [cbn; lia|done].
Qed.

(** ** Removal of calls *)

Lemma removed_metas (p p0 : list Call) i : c_Meta <$> p = c_Meta <$> p0 → c_Meta <$> (take i p ++ drop (S i) p) `sublist_of` (c_Meta <$> p0).
Proof using Type.
  intros <-. rewrite fmap_app, fmap_take, fmap_drop, <- delete_take_drop. apply sublist_delete.
Qed.

Lemma nameAt_removed p i idx : Z.of_nat i ≠ idx → idx ≠ -1 → (i < length p)%nat →
  nameAt (take i p ++ drop (S i) p) (if bool_decide (Z.of_nat i < idx) then idx - 1 else idx) = nameAt p idx.
Proof using Type.
  intros Hne Hm1 Hlt. unfold nameAt. destruct (decide (Z.of_nat i < idx)) as [Hi|Hi].
  - rewrite (bool_decide_true (Z.of_nat i < idx)) by done. rewrite !bool_decide_false by lia.
    rewrite lookup_app_r; rewrite length_take; [|lia]. rewrite lookup_drop. repeat f_equal. lia.
  - rewrite (bool_decide_false (Z.of_nat i < idx)) by done. case_bool_decide; [done|]. rewrite lookup_app_l by (rewrite length_take; lia).
    rewrite lookup_take_lt by lia. done.
Qed.

Lemma removeCallsLoop_ok n : ∀ p0 idx w, okProg w p0 idx → (n ≤ length p0)%nat →
  ∃ p idx1 w1, removeCallsLoop target Neutralize debug pred0 n p0 idx w = Ret ((p, idx1), w1) ∧ okProg w1 p idx1.
Proof using Hmt.
  induction n as [|i IH]; intros p0 idx w Hok Hlen; [by eexists _, _, _|]. cbn [removeCallsLoop].
  destruct (decide (Z.of_nat i = idx)) as [He|Hne]; [rewrite bool_decide_true by done; apply IH; [done|lia]|]. rewrite (bool_decide_false (Z.of_nat i = idx)) by done. cbv zeta.
  set (idx1 := if bool_decide (Z.of_nat i < idx) then idx - 1 else idx).
  destruct (cloneProg_ret p0 w (op_good _ _ _ Hok)) as (m & p & h1 & Hc & Hg1 & Hfr1 & Hb & Hcp). rewrite (W_bind_ret _ _ w _ _ Hc).
  assert (Hslim : slimmer tbl p0 p) by (eapply Forall2_impl; [exact Hcp|]; intros; by eapply slim_copyCall).
  pose proof (slimmer_metas _ _ _ Hslim) as Hm. pose proof (Forall2_length _ _ _ Hcp) as Hl.
  destruct (lookup_lt_is_Some_2 p i) as [c Hi]; [lia|].
  destruct (good_RemoveCall target h1 p i c (h_next w.1) Hg1 Hi Hb) as (h2 & Hrm & Hg2 & Hfr2); [apply Hfr1|].
  rewrite (W_bind_ret _ _ (h1, w.2) (take i p ++ drop (S i) p) (h2, w.2)); [|unfold w_heap; cbn [fst snd]; by rewrite Hrm].
  assert (Hcd : candidate (take i p ++ drop (S i) p) idx1).
  { destruct (candidate_slim _ _ _ (okProg_candidate _ _ _ Hok) Hslim) as [Hm1 Hf1 Hn1]. constructor.
    - rewrite <- Hm1. by apply removed_metas.
    - intros c' Hc'. apply Hf1. by eapply remaining_calls.
    - destruct Hn1 as [[Hm0 ->]|[Hm0 Hn1]]; [left; unfold idx1; rewrite bool_decide_false by lia; done|]. right. split; [done|]. unfold idx1. rewrite nameAt_removed; [done|done| |lia].
      intros ->. done. }
  destruct (attempt w h2 p0 (take i p ++ drop (S i) p) idx idx1 Hok Hcd Hg2) as (ok & p1 & Hp & Hkeep & Htake); [by eapply frame_trans|].
  rewrite (W_bind_ret _ _ _ _ _ Hp). destruct ok; [|apply IH; [done|lia]]. apply IH; [by apply Htake|].
  assert (Hlp : length p1 = length (take i p ++ drop (S i) p)); [|rewrite Hlp, length_app, length_take, length_drop; lia].
  destruct (pred_ret (take i p ++ drop (S i) p) idx1 (h2, w.2) Hg2) as (p1' & Hp' & Hf' & _). rewrite Hp' in Hp. injection Hp as _ <-. symmetry. by eapply Forall2_length.
Qed.

(** ** Properties of calls *)

Lemma good_props h p p1 : good target h p → Forall2 (λ c c1, ∃ props, c1 = withProps props c ∧ lessProps (c_Props c) props) p p1 →
  good target h p1 ∧ slimmer tbl p p1.
Proof using Hmt.
  intros Hg Hf. assert (Hs : Forall2 (shrunkCall target (list_to_set (progResults p))) p p1).
  { apply Forall2_same_length_lookup_2; [by eapply Forall2_length|]. intros i c c1 Hc Hc1. destruct (Forall2_lookup_lr _ _ _ _ _ _ Hf Hc Hc1) as (props & -> & Hless).
    assert (Hin : ∀ q, q ∈ callResults c → q ∈ (list_to_set (progResults p) : gset id))
      by (intros q Hq; apply elem_of_list_to_set; eapply callResults_in; [by eapply list_elem_of_lookup_2|done]).
    split; [done|]. split; [done|]. split; [done|]. split; [|intros q Hq; by apply Hin, retResults_in]. cbn [withProps c_Args].
    apply Forall2_same_length_lookup_2; [done|]. intros j x y Hx Hy. rewrite Hx in Hy. injection Hy as <-. apply shrunk_refl. intros q Hq.
    eapply Hin, argResults_in; [|exact Hq]. by eapply list_elem_of_lookup_2. }
  split.
  - eapply shrink_keeps; [by eapply mt_table|exact Hg|apply keeps_same, Hg|exact Hs].
  - eapply Forall2_impl; [exact Hs|]. intros c c1. apply slim_shrunkCall.
Qed.

Lemma cloned_props p0 idx w p : okProg w p0 idx → ∀ m h1 pm, cloneProg p0 w = Ret (pm, (h1, w.2)) → good target h1 pm → frame (h_next w.1) w.1 h1 →
  Forall2 (copyCall m) p0 pm → Forall2 (λ c c1, ∃ props, c1 = withProps props c ∧ lessProps (c_Props c) props) pm p →
  ∃ (ok : bool) p1, pred p idx (h1, w.2) = Ret ((ok, p1), (h1, S w.2)) ∧ okProg (h1, S w.2) (if ok then p1 else p0) idx.
Proof using Hmt.
  intros Hok m h1 pm _ Hg1 Hfr Hcp Hpr. destruct (good_props _ _ _ Hg1 Hpr) as [Hg2 Hs2].
  assert (Hslim : slimmer tbl p0 pm) by (eapply Forall2_impl; [exact Hcp|]; intros; by eapply slim_copyCall).
  destruct (attempt w h1 p0 p idx idx Hok) as (ok & p1 & Hp & Hkeep & Htake); [|done|done|].
  - eapply candidate_slim; [|exact Hs2]. eapply candidate_slim; [by eapply okProg_candidate|exact Hslim].
  - exists ok, p1. split; [done|]. destruct ok; [by apply Htake|done].
Qed.

Lemma resetCallProps_ok p0 idx w : okProg w p0 idx →
  ∃ p w1, resetCallProps target Neutralize debug pred0 p0 idx w = Ret (p, w1) ∧ okProg w1 p idx.
Proof using Hmt.
  intros Hok. unfold resetCallProps. destruct (cloneProg_ret p0 w (op_good _ _ _ Hok)) as (m & p & h1 & Hc & Hg1 & Hfr & Hb & Hcp). rewrite (W_bind_ret _ _ w _ _ Hc). cbv zeta.
  destruct (existsb _ p).
  - destruct (cloned_props p0 idx w (withProps noProps <$> p) Hok m h1 p Hc Hg1 Hfr Hcp) as (ok & p1 & Hp & Hok1).
    { apply Forall2_fmap_r, Forall2_same_length_lookup_2; [done|]. intros i c c1 Hi Hi1. rewrite Hi in Hi1. injection Hi1 as <-. exists noProps. split; [done|]. split; by right. }
    rewrite (W_bind_ret _ _ _ _ _ Hp). by eexists _, _.
  - eexists p0, _. split; [done|]. eapply okProg_keep; [exact Hok|by eapply good_heap|by eapply good_heap|done|done].
Qed.

Lemma tryProps_ok isSet i (f : CallProps → CallProps) p0 idx w : okProg w p0 idx → (i < length p0)%nat → (∀ props, lessProps props (f props)) →
  ∃ p w1, tryProps target Neutralize debug pred0 isSet i f p0 idx w = Ret (p, w1) ∧ okProg w1 p idx ∧ length p = length p0.
Proof using Hmt.
  intros Hok Hi Hless. unfold tryProps. destruct isSet; [|by eexists _, _].
  destruct (cloneProg_ret p0 w (op_good _ _ _ Hok)) as (m & p & h1 & Hc & Hg1 & Hfr & Hb & Hcp). rewrite (W_bind_ret _ _ w _ _ Hc).
  pose proof (Forall2_length _ _ _ Hcp) as Hl. destruct (lookup_lt_is_Some_2 p i) as [c Hci]; [lia|].
  unfold updateCall. rewrite (W_bind_ret _ _ (h1, w.2) (<[i := withProps (f (c_Props c)) c]> p) (h1, w.2)); [|unfold w_lift, mbind, W_bind; by rewrite Hci].
  assert (Hpr : Forall2 (λ c c1, ∃ props, c1 = withProps props c ∧ lessProps (c_Props c) props) p (<[i := withProps (f (c_Props c)) c]> p)).
  { apply Forall2_same_length_lookup_2; [by rewrite length_insert|]. intros j d d1 Hd Hd1. destruct (decide (i = j)) as [<-|Hne].
    - rewrite list_lookup_insert_eq in Hd1 by lia. injection Hd1 as <-. rewrite Hci in Hd. injection Hd as <-. eexists. split; [done|apply Hless].
    - rewrite list_lookup_insert_ne, Hd in Hd1 by done. injection Hd1 as <-. exists (c_Props d). split; [by destruct d|apply lessProps_refl]. }
  destruct (cloned_props p0 idx w _ Hok m h1 p Hc Hg1 Hfr Hcp Hpr) as (ok & p1 & Hp & Hok1).
  rewrite (W_bind_ret _ _ _ _ _ Hp). eexists _, _. split; [done|]. split; [done|]. destruct ok; [|done].
  destruct (pred_ret _ idx (h1, w.2) (proj1 (good_props _ _ _ Hg1 Hpr))) as (p1' & Hp' & Hf' & _). rewrite Hp' in Hp. injection Hp as _ <-.
  rewrite <- (Forall2_length _ _ _ Hf'), length_insert. lia.
Qed.

Lemma minimizeCallProps_ok i p0 idx w : okProg w p0 idx → (i < length p0)%nat →
  ∃ p w1, minimizeCallProps target Neutralize debug pred0 p0 i idx w = Ret (p, w1) ∧ okProg w1 p idx ∧ length p = length p0.
Proof using Hmt.
  intros Hok Hi. unfold minimizeCallProps. destruct (lookup_lt_is_Some_2 p0 i Hi) as [c Hc].
  rewrite (W_bind_ret _ _ w c w); [|unfold w_lift; by rewrite Hc]. cbv zeta.
  destruct (tryProps_ok (bool_decide (0 < FailNth (c_Props c))) i (λ p, mkProps 0 (Async p) (Rerun p)) p0 idx w Hok Hi) as (p1 & w1 & H1 & Hok1 & Hl1); [intros; split; [by right|by left]|].
  rewrite (W_bind_ret _ _ _ _ _ H1).
  destruct (tryProps_ok (Async (c_Props c)) i (λ p, mkProps (FailNth p) false (Rerun p)) p1 idx w1 Hok1) as (p2 & w2 & H2 & Hok2 & Hl2); [lia|intros; split; by left|].
  rewrite (W_bind_ret _ _ _ _ _ H2).
  destruct (tryProps_ok (bool_decide (0 < Rerun (c_Props c))) i (λ p, mkProps (FailNth p) (Async p) 0) p2 idx w2 Hok2) as (p3 & w3 & H3 & Hok3 & Hl3); [lia|intros; split; [by left|by right]|].
  exists p3, w3. split; [done|]. split; [done|]. lia.
Qed.

(** ** Rounds *)

Section Round.

(** A round for the call [i], on a clone of [p0] made in the world [w]; [c0] is the
    call in the clone. *)
Context (i : nat) (idx : Z) (crash : bool) (w : World) (p0 : list Call) (c0 : Call).

Local Notation base := (h_next w.1).

(** The program of the round is good, and apart from what was there before. *)
Record inv (u : World) (p : list Call) : Prop := {
  iv_good : good target u.1 p;
  iv_base q : q ∈ progResults p → (base ≤ q)%nat;
  iv_frame : frame base w.1 u.1;
  iv_slim : slimmer tbl p0 p;
  iv_count : (w.2 ≤ u.2)%nat;
}.

Lemma inv_shrink u h1 p p1 K : inv u p → keeps target K u.1 h1 → frame base u.1 h1 → Forall2 (shrunkCall target K) p p1 → inv (h1, u.2) p1.
Proof using Hmt.
  intros [Hg Hb Hfr Hs Hc] Hk Hfr1 Hf. constructor; try done.
  - eapply shrink_keeps; [by eapply mt_table|exact Hg|exact Hk|exact Hf].
  - intros q Hq. apply Hb. eapply elem_of_submseteq; [exact Hq|]. by eapply sublist_submseteq, shrunkCalls_results.
  - by eapply frame_trans.
  - etrans; [exact Hs|]. eapply Forall2_impl; [exact Hf|]. intros c c1. apply slim_shrunkCall.
Qed.

Lemma inv_alike u p p1 : inv u p → Forall2 (alikeCall (okVal target)) p p1 → inv u p1.
Proof using Hmt.
  intros Hi Hf. destruct u as [h k]. eapply (inv_shrink (h, k) h p p1); [exact Hi|apply keeps_same, Hi|apply frame_refl|].
  assert (Hin : ∀ c q, c ∈ p → q ∈ callResults c → q ∈ (list_to_set (progResults p) : gset id)) by (intros; by apply elem_of_list_to_set; eapply callResults_in).
  revert Hin. generalize (list_to_set (progResults p) : gset id). intros K Hin. clear -Hf Hin.
  induction Hf as [|c c1 l l1 Hc _ IH]; constructor; [apply alikeCall_shrunk; [done|]; intros; eapply Hin; [by left|done]|].
  apply IH. intros; eapply Hin; [by right|done].
Qed.

Lemma inv_bump h h1 k k1 p : inv (h, k) p → h_results h1 = h_results h → (h_next h ≤ h_next h1)%nat → (k ≤ k1)%nat → inv (h1, k1) p.
Proof using Type.
  intros [Hg Hb Hfr Hs Hc] E Hle Hk. cbn in *. destruct (good_heap _ _ _ Hg) as [Hw Hal]. constructor; try done; cbn; [|split; [|intros q Hq; rewrite E; by apply Hfr]|lia].
  - eapply good_frame; [exact Hg| | |split; [done|by rewrite E]]; unfold wfHeap, heapOK in *; rewrite E; [done|]. intros q Hq%Hal. lia.
  - destruct Hfr. lia.
Qed.

(** The program has been accepted. *)
Definition acc (u : World) (p : list Call) : Prop := idle → ∃ k, (k < u.2)%nat ∧ pred0 k p (progView u.1 p) idx = true.

(** Nothing is committed, and the call still has its form. *)
Record open (x : Ctx) : Prop := {
  oc_inv : inv (x_world x) (x_p x);
  oc_open : x_committed x = false;
  oc_call : ∃ c, x_p x !! i = Some c ∧ alikeCall anyVal c0 c;
}.

(** A program has been tried. *)
Record closed (x : Ctx) : Prop := {
  cc_heap : wfHeap (x_world x).1;
  cc_alloc : heapOK (x_world x).1;
  cc_frame : frame base w.1 (x_world x).1;
  cc_count : (w.2 ≤ (x_world x).2)%nat;
  cc_commit : x_committed x = true → inv (x_world x) (x_p x) ∧ acc (x_world x) (x_p x);
}.

Lemma inv_closed x : inv (x_world x) (x_p x) → (x_committed x = true → acc (x_world x) (x_p x)) → closed x.
Proof using Type. intros Hi Ha. pose proof Hi as [Hg _ Hfr _ Hc]. destruct (good_heap _ _ _ Hg). constructor; auto. Qed.

(** A step tries only paths of [T]; if it ends the round it has tried a new one. *)
Definition step (T : gset string) (x : Ctx) (m : R bool) : Prop :=
  ∃ b x', m x = Ret (b, x') ∧ x_tried x ⊆ x_tried x' ∧ x_tried x' ⊆ x_tried x ∪ T ∧
    if b : bool then closed x' ∧ x_tried x' ≠ x_tried x else open x'.

Lemma step_false T x : open x → step T x (mret false).
Proof using Type*. intros Hx. exists false, x. split; [done|]. split; [done|]. split; [set_solver|done]. Qed.

Lemma step_mono T T1 x m : T ⊆ T1 → step T x m → step T1 x m.
Proof using Type*. intros HT (b & x' & Hm & Hs & Hs1 & Hb). exists b, x'. split; [done|]. split; [done|]. split; [set_solver|done]. Qed.

Lemma step_seq T T1 T2 x m m1 : step T1 x m → T1 ⊆ T → T2 ⊆ T → (∀ x', open x' → step T2 x' m1) →
  step T x (b ← m; if b : bool then mret true else m1).
Proof using Type*.
  intros (b & x' & Hm & Hs & Hs1 & Hb) HT1 HT2 Hnext. destruct b.
  - exists true, x'. rewrite (R_bind_ret _ _ _ _ _ Hm). split; [done|]. split; [done|]. split; [set_solver|done].
  - destruct (Hnext x' Hb) as (b & x2 & Hm2 & Hs2 & Hs3 & Hb2). exists b, x2. rewrite (R_bind_ret _ _ _ _ _ Hm). split; [done|]. split; [set_solver|]. split; [set_solver|].
    destruct b; [|done]. destruct Hb2 as [? Hne]. split; [done|]. intros E. apply Hne. set_solver.
Qed.

(** ** Single operations *)

Lemma node_unique u p c y z : inv u p → p !! i = Some c → y ∈ concat (subArgs <$> c_Args c) → z ∈ concat (subArgs <$> c_Args c) → argId z = argId y → z = y.
Proof using Type.
  intros Hi Hc Hy Hz Hid. pose proof (good_call_nodup _ _ _ _ (iv_good _ _ Hi) (list_elem_of_lookup_2 _ _ _ Hc)) as Hnd.
  eapply (NoDup_fmap_inj argId (concat (subArgs <$> c_Args c))); try done. clear -Hnd. induction (c_Args c) as [|x l IH]; [done|]. cbn [fmap list_fmap concat] in *.
  rewrite fmap_app, subArgs_nodes. apply NoDup_app in Hnd as (H1 & H2 & H3). apply NoDup_app. split; [done|]. split; [|by apply IH].
  intros n Hn. specialize (H2 n Hn). intros Hbad. apply H2. clear -Hbad. induction l as [|y l IH]; [done|]. cbn [fmap list_fmap concat] in *.
  rewrite fmap_app, subArgs_nodes in Hbad. apply elem_of_app in Hbad as [?|?]; apply elem_of_app; [by left|right; by apply IH].
Qed.

Lemma load_ret u T p com c y : inv u p → p !! i = Some c → y ∈ concat (subArgs <$> c_Args c) → r_load i (argId y) (mkMin u T p com) = Ret (y, mkMin u T p com).
Proof using Type.
  intros Hi Hc Hy. unfold r_load, r_call, r_lift, r_ask, mbind, R_bind. cbn [x_p]. rewrite Hc. cbn [of_option mbind res_bind].
  destruct (filter _ _) as [|z l] eqn:E.
  - exfalso. assert (Hin : y ∈ filter (λ z, argId z = argId y) (concat (subArgs <$> c_Args c))) by (by apply list_elem_of_filter). rewrite E in Hin. by apply elem_of_nil in Hin.
  - assert (Hz : z ∈ filter (λ z, argId z = argId y) (concat (subArgs <$> c_Args c))) by (rewrite E; by left). apply list_elem_of_filter in Hz as [Hid Hz].
    cbn. by rewrite (node_unique u p c y z).
Qed.

Lemma store_ret u T p com c new : p !! i = Some c →
  r_store i new (mkMin u T p com) = Ret (tt, mkMin u T (<[i := replaceInCall (argId new) new c]> p) com).
Proof using Type. intros Hc. unfold r_store, r_call, r_setCall, r_lift, r_ask, r_setProg, mbind, R_bind. cbn [x_p]. by rewrite Hc. Qed.

Lemma rpred_ret u T p com : inv u p → ∃ (ok : bool) p1, r_pred target Neutralize debug pred0 idx (mkMin u T p com) = Ret (ok, mkMin (u.1, S u.2) T p1 com) ∧
  inv (u.1, S u.2) p1 ∧ Forall2 (alikeCall (okVal target)) p p1 ∧ (ok = true → acc (u.1, S u.2) p1) ∧ (idle → p1 = p).
Proof using Hmt.
  intros Hi. destruct (pred_ret p idx u (iv_good _ _ Hi)) as (p1 & Hp & Hf & _ & Hid). eexists _, p1. split; [|split; [|split; [done|split; [|done]]]].
  - unfold r_pred, r_ask, r_world, r_setProg, mbind, R_bind. cbn [x_p x_world]. rewrite Hp. done.
  - destruct u as [h k]. eapply (inv_bump h h k); [by eapply inv_alike|done|done|cbn; lia].
  - intros Htrue _. exists u.2. split; [cbn; lia|done].
Qed.

Lemma offer_ret u T p com : inv u p → ∃ (ok : bool) p1, r_offer target Neutralize debug pred0 idx (mkMin u T p com) = Ret (ok, mkMin (u.1, S u.2) T p1 (ok || com)) ∧
  inv (u.1, S u.2) p1 ∧ Forall2 (alikeCall (okVal target)) p p1 ∧ (ok = true → acc (u.1, S u.2) p1).
Proof using Hmt.
  intros Hi. destruct (rpred_ret u T p com Hi) as (ok & p1 & Hp & Hi1 & Hf & Ha & _). exists ok, p1. split; [|done].
  unfold r_offer. by rewrite (R_bind_ret _ _ _ _ _ Hp).
Qed.

Lemma insert_alike p c c1 : p !! i = Some c → alikeCall (okVal target) c c1 → Forall2 (alikeCall (okVal target)) p (<[i := c1]> p).
Proof using Type.
  intros Hc Ha. apply Forall2_same_length_lookup_2; [by rewrite length_insert|]. intros j d d1 Hd Hd1. destruct (decide (i = j)) as [<-|Hne].
  - rewrite list_lookup_insert_eq in Hd1 by (by eapply lookup_lt_Some). injection Hd1 as <-. rewrite Hc in Hd. by injection Hd as <-.
  - rewrite list_lookup_insert_ne, Hd in Hd1 by done. injection Hd1 as <-. split; [done|]. split; [done|]. split; [done|].
    apply Forall2_same_length_lookup_2; [done|]. intros k x y Hx Hy. rewrite Hx in Hy. injection Hy as <-. apply alike_refl. intros. apply okVal_refl.
Qed.

Lemma assign_ret u T p com c : inv u p → p !! i = Some c → ∃ c1, r_assignSizes target ptrPtr ptr64 i (mkMin u T p com) = Ret (tt, mkMin u T (<[i := c1]> p) com) ∧
  assignSizesCall tbl ptrPtr ptr64 u.1 c = Ret c1 ∧ alikeCall (okVal target) c c1 ∧ inv u (<[i := c1]> p).
Proof using Hmt.
  intros Hi Hc. pose proof (list_elem_of_lookup_2 _ _ _ Hc) as Hin. destruct (mt_sizes _ _ _ _ _ Hmt u.1 p c (iv_good _ _ Hi) Hin) as (c1 & Hs). exists c1.
  split; [|split; [done|]].
  - unfold r_assignSizes, r_call, r_setCall, r_lift, r_ask, r_setProg, mbind, R_bind. cbn [x_p x_world]. rewrite Hc. cbn [of_option mbind res_bind x_world]. by rewrite Hs.
  - assert (Ha : alikeCall (okVal target) c c1); [|split; [done|]; eapply inv_alike; [done|by eapply insert_alike]].
    unfold assignSizesCall in Hs. apply bind_ret_inv in Hs as (r & Hr & [= <-]). split; [done|]. split; [done|]. split; [done|]. cbn [c_Args].
    pose proof (lens_alike _ _ _ _ _ _ _ _ (mt_lens _ _ _ _ _ Hmt) (good_call_nodup _ _ _ _ (iv_good _ _ Hi) Hin) Hr) as Hl.
    eapply Forall2_impl; [exact Hl|]. intros x y. apply alike_weaken. intros a v v1. apply lenOnly_ok.
Qed.

(** ** Nodes *)

Lemma open_node x arg : open x → arg ∈ concat (subArgs <$> c_Args c0) → ∃ c y, x_p x !! i = Some c ∧ alikeCall anyVal c0 c ∧
  y ∈ concat (subArgs <$> c_Args c) ∧ alike true anyVal arg y.
Proof using Type.
  intros [_ _ (c & Hc & Ha)] Harg. pose proof Ha as (_ & _ & _ & Hf). destruct (alike_find _ _ _ _ _ Hf Harg) as (y & Hy & Hay). by exists c, y.
Qed.

Lemma alikeCall_trans c c1 c2 : alikeCall anyVal c c1 → alikeCall anyVal c1 c2 → alikeCall anyVal c c2.
Proof using Type.
  intros (Hm & Hr & Hp & Hf) (Hm1 & Hr1 & Hp1 & Hf1). split; [congruence|]. split; [congruence|]. split; [congruence|]. by eapply alike_list_trans.
Qed.

Lemma alikeCall_any c c1 : alikeCall (okVal target) c c1 → alikeCall anyVal c c1.
Proof using Type. intros (Hm & Hr & Hp & Hf). split; [done|]. split; [done|]. split; [done|]. eapply Forall2_impl; [exact Hf|]. intros x y. apply alike_any. Qed.

Lemma node_only u p c y arg : inv u p → p !! i = Some c → y ∈ concat (subArgs <$> c_Args c) → arg ∈ c_Args c → only y arg.
Proof using Type.
  intros Hi Hc Hy Harg. pose proof (list_elem_of_lookup_2 _ _ _ Hc) as Hin. eapply prog_only; [by eapply good_nodup, Hi|exact Hin|by apply sub_call|exact Hin|done].
Qed.

Lemma alikeCall_store Q u p c y new : (∀ a v, Q a v v) → inv u p → p !! i = Some c → y ∈ concat (subArgs <$> c_Args c) → alike true Q y new →
  alikeCall Q c (replaceInCall (argId y) new c).
Proof using Type.
  intros Hrefl Hi Hc Hy Ha. split; [done|]. split; [done|]. split; [done|]. cbn [replaceInCall c_Args]. apply Forall2_fmap_r, Forall2_same_length_lookup_2; [done|].
  intros k z z' Hz Hz'. rewrite Hz in Hz'. injection Hz' as <-. apply alike_repl; [done|done|]. eapply node_only; try done. by eapply list_elem_of_lookup_2.
Qed.

Lemma store_sub u p c y new : inv u p → p !! i = Some c → y ∈ concat (subArgs <$> c_Args c) → new ∈ concat (subArgs <$> c_Args (replaceInCall (argId y) new c)).
Proof using Type.
  intros Hi Hc Hy. pose proof (good_call_nodup _ _ _ _ (iv_good _ _ Hi) (list_elem_of_lookup_2 _ _ _ Hc)) as Hnd. cbn [replaceInCall c_Args].
  apply elem_concat_fmap in Hy as (z & Hz & Hy). apply elem_concat_fmap. exists (replaceNode (argId y) new z). split; [by apply list_elem_of_fmap_2|].
  apply replaced_sub; [done|]. apply list_elem_of_split in Hz as (l1 & l2 & E). rewrite E, fmap_app, fmap_cons, concat_app in Hnd. cbn [concat] in Hnd.
  apply NoDup_app in Hnd as (_ & _ & Hnd). by apply NoDup_app in Hnd as (? & _).
Qed.

(** A smaller node with the same results. *)
Lemma inv_store u p c y new : inv u p → p !! i = Some c → y ∈ concat (subArgs <$> c_Args c) →
  shrunk target (list_to_set (progResults p)) y new → inv u (<[i := replaceInCall (argId y) new c]> p).
Proof using Hmt.
  intros Hi Hc Hy Hs. destruct u as [h k]. eapply (inv_shrink (h, k) h p); [exact Hi|apply keeps_same, Hi|apply frame_refl|].
  eapply replace_shrunkCalls; [apply Hi|done|done|exact Hs|]. intros q Hq _. by apply elem_of_list_to_set.
Qed.

Lemma node_facts u p c y : inv u p → p !! i = Some c → y ∈ concat (subArgs <$> c_Args c) → sound target u.1 y ∧ wfArg u.1 y ∧ roomy target u.1 y.
Proof using Type. intros Hi Hc Hy. eapply good_node; [apply Hi|by eapply list_elem_of_lookup_2|done]. Qed.

Lemma lookup_store (p : list Call) c c1 : p !! i = Some c → <[i := c1]> p !! i = Some c1.
Proof using Type. intros Hc. apply list_lookup_insert_eq. by eapply lookup_lt_Some. Qed.

(** ** Integers *)

Lemma minimizeInt_step a v t def path x : open x → ConstArg a v ∈ concat (subArgs <$> c_Args c0) → typeOf tbl (a_ref a) = Ret t → plainDefault t = Some def →
  path ∉ x_tried x → step {[ path ]} x (minimizeInt target Neutralize debug pred0 i idx crash (a_id a) path).
Proof using Hmt.
  intros Hx Harg Ht Hd Hpath. unfold minimizeInt. destruct crash; [by apply step_false|].
  destruct (open_node x _ Hx Harg) as (c & y & Hc & Hca & Hy & Hay). inversion Hay; subst. rename v1 into v0. destruct x as [[h k] T p com]. destruct Hx as [Hi Ho _]. cbn in Hi, Ho, Hc, Hpath. subst com.
  unfold step. setoid_rewrite (R_bind_ret _ _ _ _ _ (load_ret (h, k) T p false c _ Hi Hc Hy)).
  set (h1 := mkHeap (S (h_next h)) (h_results h)).
  assert (Hdef : r_heap (DefaultArg 1 tbl (a_ref a) (a_dir a)) (mkMin (h, k) T p false) = Ret (ConstArg (mkAC (h_next h) (a_ref a) (a_dir a)) def, mkMin (h1, k) T p false)).
  { unfold r_heap, r_world, w_heap. cbn [x_world fst snd]. by rewrite (DefaultArg_plain _ _ _ _ _ _ Ht Hd). }
  setoid_rewrite (R_bind_ret _ _ _ _ _ Hdef). cbn [x_tried].
  assert (Hi1 : inv (h1, k) p) by (eapply inv_bump; [exact Hi|done|cbn; lia|done]).
  destruct (bool_decide (v0 = def)) eqn:Ev.
  { eexists false, _. split; [done|]. cbn [x_tried]. split; [done|]. split; [set_solver|]. constructor; [done|done|]. eauto. }
  destruct (node_facts _ _ _ _ Hi1 Hc Hy) as (Hsound & Hwf & _).
  setoid_rewrite (R_bind_ret _ _ _ _ _ (store_ret (h1, k) T p false c (ConstArg a def) Hc)). cbn [argId].
  assert (Hi2 : inv (h1, k) (<[i := replaceInCall (a_id a) (ConstArg a def) c]> p)).
  { apply (inv_store (h1, k) p c (ConstArg a v0)); [done|done|done|]. constructor. right. by eapply default_ok. }
  destruct (offer_ret (h1, k) T _ false Hi2) as (ok & p1 & Hp & Hi3 & Hf & Hacc). setoid_rewrite (R_bind_ret _ _ _ _ _ Hp). cbn [fst snd] in *.
  destruct ok; cbn [orb].
  { eexists true, _. split; [done|]. cbn [x_tried r_try]. split; [set_solver|]. split; [set_solver|]. split; [|set_solver]. apply inv_closed; cbn; auto. }
  destruct (Forall2_lookup_l _ _ _ _ _ Hf (lookup_store p c _ Hc)) as (c1 & Hc1 & Ha1).
  setoid_rewrite (R_bind_ret _ _ _ _ _ (store_ret (h1, S k) T p1 false c1 (ConstArg a v0) Hc1)). cbn [argId].
  pose proof (store_sub _ _ _ _ (ConstArg a def) Hi1 Hc Hy) as Hnew. cbn [argId] in Hnew.
  destruct (alike_find _ _ _ _ _ (proj2 (proj2 (proj2 Ha1))) Hnew) as (y1 & Hy1 & Hay1). inversion Hay1; subst.
  eexists false, _. split; [done|]. cbn [x_tried]. split; [done|]. split; [set_solver|]. constructor; cbn [x_world x_p x_committed]; [|done|].
  - apply (inv_store (h1, S k) p1 c1 (ConstArg a v2)); [done|done|done|]. constructor. right. by eapply const_ok.
  - eexists. split; [by eapply lookup_store|]. eapply alikeCall_trans; [exact Hca|].
    eapply alikeCall_trans; [by apply (alikeCall_store anyVal (h1, k) p c (ConstArg a v0) (ConstArg a def)); [| | | |constructor]|].
    eapply alikeCall_trans; [by apply alikeCall_any|]. by apply (alikeCall_store anyVal (h1, S k) p1 c1 (ConstArg a v2) (ConstArg a v0)); [| | | |constructor].
Qed.

(** ** Resources *)

Lemma same_shrunk (p : list Call) : Forall2 (shrunkCall target (list_to_set (progResults p))) p p.
Proof using Type.
  apply Forall2_same_length_lookup_2; [done|]. intros j c c1 Hc Hc1. rewrite Hc in Hc1. injection Hc1 as <-. pose proof (list_elem_of_lookup_2 _ _ _ Hc) as Hin.
  apply alikeCall_shrunk; [|intros q Hq; apply elem_of_list_to_set; by eapply callResults_in]. split; [done|]. split; [done|]. split; [done|].
  apply Forall2_same_length_lookup_2; [done|]. intros k x y Hx Hy. rewrite Hx in Hy. injection Hy as <-. apply alike_refl. intros. apply okVal_refl.
Qed.

Lemma sub_result u p c q : inv u p → p !! i = Some c → ResultArg q ∈ concat (subArgs <$> c_Args c) → q ∈ progResults p.
Proof using Type.
  intros Hi Hc Hq. destruct (sub_split _ _ _ _ _ (iv_good _ _ Hi) (list_elem_of_lookup_2 _ _ _ Hc) Hq) as (l1 & l2 & ->). cbn [resultsOf]. apply elem_of_app. right. by left.
Qed.

Lemma minimizeResource_step q tc f d path x : open x → ResultArg q ∈ concat (subArgs <$> c_Args c0) →
  argType tbl (x_world x).1 (ResultArg q) = Ret (ResourceType tc f d) → path ∉ x_tried x →
  step {[ path ]} x (minimizeResource target Neutralize debug pred0 idx crash d q path).
Proof using Hmt.
  intros Hx Harg Ht Hpath. unfold minimizeResource. destruct crash; [by apply step_false|].
  destruct (open_node x _ Hx Harg) as (c & y & Hc & Hca & Hy & Hay). inversion Hay; subst. pose proof Hx as [Hi Ho _].
  destruct x as [[h k] T p com]. cbn [x_world x_p x_tried x_committed fst] in *. subst com. pose proof (sub_result _ _ _ _ Hi Hc Hy) as Hq.
  unfold argType, argRef in Ht. destruct (h_results h !! q) as [r|] eqn:Hr; [|done]. cbn [of_option mbind res_bind] in Ht.
  unfold step. assert (Hget : r_heap (h_get q) (mkMin (h, k) T p false) = Ret (r, mkMin (h, k) T p false)).
  { unfold r_heap, r_world, w_heap. cbn [x_world fst snd]. by rewrite (h_get_ret _ _ _ Hr). }
  setoid_rewrite (R_bind_ret _ _ _ _ _ Hget). destruct (r_Res r) as [q0|] eqn:Hres.
  2: { exists false. eexists. split; [done|]. split; [done|]. split; [set_solver|done]. }
  destruct (resourceDefault_fits target h (st_fits _ (mt_table _ _ _ _ _ Hmt)) (proj1 (good_heap _ _ _ (iv_good _ _ Hi))) _ _ _ _ Ht) as [v Hv].
  rewrite Hv. setoid_rewrite (R_bind_ret _ _ _ v (mkMin (h, k) T p false)); [|done].
  destruct (unlink_ret target h p (iv_good _ _ Hi) q q0 r v Hq Hr Hres) as (rq & Hrq & Hne & HqL & Hun).
  assert (Hbq : (h_next w.1 ≤ q)%nat) by (by apply (iv_base _ _ Hi)). assert (Hbq0 : (h_next w.1 ≤ q0)%nat) by (apply (iv_base _ _ Hi); by apply elem_of_list_to_set in HqL).
  destruct (unlinked_keeps target h p (mt_table _ _ _ _ _ Hmt) (iv_good _ _ Hi) q q0 r tc f d v Hq Hr Hres rq Hrq Hne HqL _ Hbq Hbq0 Ht Hv) as [Hk Hfr].
  set (h1 := mkHeap _ _) in Hun, Hk, Hfr. assert (Hunr : r_heap (unlink q q0 v) (mkMin (h, k) T p false) = Ret (tt, mkMin (h1, k) T p false)).
  { unfold r_heap, r_world, w_heap. cbn [x_world fst snd]. by rewrite Hun. }
  setoid_rewrite (R_bind_ret _ _ _ _ _ Hunr).
  assert (Hi1 : inv (h1, k) p).
  { eapply (inv_shrink (h, k) h1 p p); [exact Hi|exact Hk|exact Hfr|]. apply same_shrunk. }
  destruct (offer_ret (h1, k) T p false Hi1) as (ok & p1 & Hp & Hi2 & Hf & Hacc). setoid_rewrite (R_bind_ret _ _ _ _ _ Hp). cbn [fst snd] in *. destruct ok; cbn [orb].
  - eexists true, _. split; [done|]. cbn [x_tried]. split; [set_solver|]. split; [set_solver|]. split; [|set_solver]. apply inv_closed; cbn; auto.
  - destruct (good_heap _ _ _ (iv_good _ _ Hi2)) as [Hw1 Hal1]. cbn [fst] in Hw1, Hal1.
    destruct (relink_ret h1 q q0 (unlinkedObj r v) (withUses (λ uses, uses ∖ {[ q ]}) rq) (h_next w.1) Hw1 Hal1) as (h2 & Hre & Hw2 & Hal2 & Hfr2); [cbn; apply lookup_insert_eq|cbn; by rewrite lookup_insert_ne, lookup_insert_eq|done|done|done|].
    assert (Hrer : r_heap (relink q q0) (mkMin (h1, S k) T p1 false) = Ret (tt, mkMin (h2, S k) T p1 false)).
    { unfold r_heap, r_world, w_heap. cbn [x_world fst snd]. by rewrite Hre. }
    setoid_rewrite (R_bind_ret _ _ _ _ _ Hrer). eexists true, _. split; [done|]. cbn [x_tried]. split; [set_solver|]. split; [set_solver|]. split; [|set_solver].
    constructor; cbn; try done; [|apply (iv_count _ _ Hi2)]. eapply frame_trans; [|apply (iv_frame _ _ Hi2)|exact Hfr2]. done.
Qed.

(** ** Pointers and arrays *)

Lemma finish_ret u T p c : inv u p → p !! i = Some c → ∃ ok x',
  (_ ← r_assignSizes target ptrPtr ptr64 i; r_offer target Neutralize debug pred0 idx) (mkMin u T p false) = Ret (ok, x') ∧ closed x' ∧ x_tried x' = T.
Proof using Hmt.
  intros Hi Hc. destruct (assign_ret u T p false c Hi Hc) as (c1 & Has & _ & _ & Hi1). rewrite (R_bind_ret _ _ _ _ _ Has).
  destruct (offer_ret u T _ false Hi1) as (ok & p1 & Hp & Hi2 & _ & Hacc). eexists ok, _. split; [exact Hp|]. split; [|done].
  apply inv_closed; [done|]. cbn [x_committed x_world x_p]. intros [Hok%Is_true_true|?]%orb_true_iff; [|done]. apply Hacc. by apply Is_true_true.
Qed.

Lemma inv_remove u h1 p c y z new : inv u p → p !! i = Some c → y ∈ concat (subArgs <$> c_Args c) →
  keeps target (list_to_set (progResults p) ∖ list_to_set (resultsOf z)) u.1 h1 → frame base u.1 h1 → (∀ q, q ∈ resultsOf z → q ∈ resultsOf y) →
  shrunk target (list_to_set (progResults p) ∖ list_to_set (resultsOf z)) y new →
  inv (h1, u.2) (<[i := replaceInCall (argId y) new c]> p).
Proof using Hmt.
  intros Hi Hc Hy Hk Hfr Hsub Hs. eapply inv_shrink; [exact Hi|exact Hk|exact Hfr|]. eapply replace_shrunkCalls; [apply Hi|done|done|exact Hs|].
  intros q Hq Hny. apply elem_of_difference. rewrite !elem_of_list_to_set. split; [done|]. intros Hz. by apply Hny, Hsub.
Qed.

Lemma sub_trans (c : Call) y z : y ∈ concat (subArgs <$> c_Args c) → z ∈ subArgs y → z ∈ concat (subArgs <$> c_Args c).
Proof using Type. intros (x & Hx & Hy)%elem_concat_fmap Hz. apply elem_concat_fmap. exists x. split; [done|]. by eapply subArgs_trans. Qed.

Lemma remove_ret u T p c z : inv u p → p !! i = Some c → z ∈ concat (subArgs <$> c_Args c) → ∃ h1, (∀ p', r_heap (removeArg tbl z) (mkMin u T p' false) = Ret (tt, mkMin (h1, u.2) T p' false)) ∧
  keeps target (list_to_set (progResults p) ∖ list_to_set (resultsOf z)) u.1 h1 ∧ frame base u.1 h1.
Proof using Hmt.
  intros Hi Hc Hz. destruct (remove_sub target u.1 p c z (h_next w.1) (mt_table _ _ _ _ _ Hmt) (iv_good _ _ Hi) (list_elem_of_lookup_2 _ _ _ Hc) Hz (iv_base _ _ Hi)) as (h1 & Hrm & Hk & Hfr).
  { apply (iv_frame _ _ Hi). }
  exists h1. split; [|done]. intros p'. unfold r_heap, r_world, w_heap. cbn [x_world]. by rewrite Hrm.
Qed.

Lemma dropTarget_ret a ad vm z tc e d x : open x → PointerArg a ad vm (Some z) ∈ concat (subArgs <$> c_Args c0) → typeOf tbl (a_ref a) = Ret (PtrType tc e d) →
  ∃ ok x', dropTarget target ptrPtr ptr64 Neutralize debug pred0 i idx a x = Ret (ok, x') ∧ closed x' ∧ x_tried x' = x_tried x.
Proof using Hmt.
  intros Hx Harg Ht. destruct (open_node x _ Hx Harg) as (c & y & Hc & _ & Hy & Hay). inversion Hay; subst. rename y0 into z1. pose proof Hx as [Hi Ho _].
  destruct x as [[h k] T p com]. cbn [x_world x_p x_tried x_committed fst] in *. subst com. unfold dropTarget.
  assert (Hz : z1 ∈ concat (subArgs <$> c_Args c)) by (eapply sub_trans; [exact Hy|]; cbn [subArgs]; apply elem_of_cons; right; apply self_sub).
  setoid_rewrite (R_bind_ret _ _ _ _ _ (load_ret (h, k) T p false c _ Hi Hc Hy)). cbn [argId].
  destruct (remove_ret (h, k) T p c z1 Hi Hc Hz) as (h1 & Hrm & Hk & Hfr). setoid_rewrite (R_bind_ret _ _ _ _ _ (Hrm p)).
  set (h2 := mkHeap (S (h_next h1)) (h_results h1)).
  assert (Hnull : r_heap (MakeSpecialPointerArg tbl (a_ref a) (a_dir a) 0) (mkMin (h1, k) T p false) = Ret (PointerArg (mkAC (h_next h1) (a_ref a) DirIn) 0 0 None, mkMin (h2, k) T p false)).
  { unfold r_heap, r_world, w_heap, MakeSpecialPointerArg. cbn [x_world fst snd]. rewrite bool_decide_false by (unfold maxSpecialPointers; lia).
    unfold mbind, H_bind, h_lift. rewrite Ht. done. }
  setoid_rewrite (R_bind_ret _ _ _ _ _ Hnull). cbn [a_ref a_dir]. change (PointerArg (mkAC (a_id a) (a_ref a) DirIn) 0 0 None) with (nullOf a).
  setoid_rewrite (R_bind_ret _ _ _ _ _ (store_ret (h2, k) T p false c (nullOf a) Hc)).
  apply finish_ret with (c := replaceInCall (a_id a) (nullOf a) c); [|by eapply lookup_store].
  apply (inv_remove (h, k) h2 p c (PointerArg a ad vm (Some z1)) z1 (nullOf a)); try done.
  - eapply keeps_bump; [exact Hk|done|cbn; lia].
  - destruct Hfr as [Hn Hold]. split; [cbn in *; lia|exact Hold].
  - eapply sh_cut; [exact Ht|]. intros q Hq. rewrite elem_of_difference, !elem_of_list_to_set. naive_solver.
Qed.

Lemma delete_results k (l : list Arg) z (K : gset id) : NoDup (concat (resultsOf <$> l)) → l !! k = Some z → (∀ q, q ∈ concat (resultsOf <$> l) → q ∉ resultsOf z → q ∈ K) →
  ∀ x q, x ∈ delete k l → q ∈ resultsOf x → q ∈ K.
Proof using Type.
  intros Hnd Hk HK x q. rewrite <- (take_drop_middle l k z Hk) in Hnd. rewrite delete_take_drop. rewrite fmap_app, fmap_cons, concat_app in Hnd. cbn [concat] in Hnd.
  apply NoDup_app in Hnd as (_ & H1 & Hnd). apply NoDup_app in Hnd as (_ & H2 & _). intros [Hx|Hx]%elem_of_app Hq; apply HK.
  - apply elem_concat_fmap. exists x. split; [by eapply elem_of_take in Hx as (? & ? & _); eapply list_elem_of_lookup_2|done].
  - intros Hz. apply (H1 q); [apply elem_concat_fmap; eauto|]. apply elem_of_app. by left.
  - apply elem_concat_fmap. exists x. split; [|done]. apply list_elem_of_lookup in Hx as [j Hj]. rewrite lookup_drop in Hj. by eapply list_elem_of_lookup_2.
  - intros Hz. apply (H2 q Hz). apply elem_concat_fmap. eauto.
Qed.

Lemma dropElem_ret a inner k tc e kind b re x : open x → GroupArg a inner ∈ concat (subArgs <$> c_Args c0) → typeOf tbl (a_ref a) = Ret (ArrayType tc e kind b re) →
  (k < length inner)%nat → removable kind b (length inner) →
  ∃ ok x', dropElem target ptrPtr ptr64 Neutralize debug pred0 i idx a k x = Ret (ok, x') ∧ closed x' ∧ x_tried x' = x_tried x.
Proof using Hmt.
  intros Hx Harg Ht Hlt Hrem. destruct (open_node x _ Hx Harg) as (c & y & Hc & _ & Hy & Hay). inversion Hay; subst. rename l1 into inner1. pose proof Hx as [Hi Ho _].
  assert (Hlen : length inner1 = length inner) by (symmetry; by eapply Forall2_length). clear Hay H2 Harg Hx.
  destruct x as [[h n] T p com]. cbn [x_world x_p x_tried x_committed fst] in *. subst com. unfold dropElem. destruct (lookup_lt_is_Some_2 inner1 k) as [z Hk]; [lia|].
  assert (Hzy : z ∈ subArgs (GroupArg a inner1)).
  { cbn [subArgs]. apply elem_of_cons. right. apply elem_concat_fmap. exists z. split; [by eapply list_elem_of_lookup_2|apply self_sub]. }
  setoid_rewrite (R_bind_ret _ _ _ _ _ (load_ret (h, n) T p false c _ Hi Hc Hy)). cbn [argId]. rewrite Hk. cbn [of_option].
  setoid_rewrite (R_bind_ret _ _ _ z (mkMin (h, n) T p false)); [|done].
  setoid_rewrite (R_bind_ret _ _ _ _ _ (store_ret (h, n) T p false c (GroupArg a (delete k inner1)) Hc)). cbn [argId].
  destruct (remove_ret (h, n) T p c z Hi Hc (sub_trans _ _ _ Hy Hzy)) as (h1 & Hrm & Hke & Hfr). setoid_rewrite (R_bind_ret _ _ _ _ _ (Hrm _)).
  apply finish_ret with (c := replaceInCall (a_id a) (GroupArg a (delete k inner1)) c); [|by eapply lookup_store].
  apply (inv_remove (h, n) h1 p c (GroupArg a inner1) z (GroupArg a (delete k inner1))); try done.
  - intros q Hq. cbn [resultsOf]. apply elem_concat_fmap. exists z. split; [by eapply list_elem_of_lookup_2|done].
  - destruct (good_links _ _ _ (iv_good _ _ Hi)) as (_ & _ & Hnd). destruct (sub_split _ _ _ _ _ (iv_good _ _ Hi) (list_elem_of_lookup_2 _ _ _ Hc) Hy) as (l1 & l2 & E).
    rewrite E in Hnd. apply NoDup_app in Hnd as (_ & _ & Hnd). apply NoDup_app in Hnd as (Hnd & _ & _). cbn [resultsOf] in Hnd, E.
    eapply sh_drop; [exact Ht|exact Hk|by rewrite Hlen| |].
    + intros q Hq. rewrite elem_of_difference, !elem_of_list_to_set. naive_solver.
    + apply Forall2_same_length_lookup_2; [done|]. intros j x x' Hj Hj'. rewrite Hj in Hj'. injection Hj' as <-. apply shrunk_refl. intros q Hq.
      eapply (delete_results k inner1 z); [done|done| |by eapply list_elem_of_lookup_2|exact Hq]. intros q' Hq' Hnz.
      rewrite elem_of_difference, !elem_of_list_to_set. split; [|done]. rewrite E. apply elem_of_app. right. apply elem_of_app. by left.
Qed.

(** ** Buffers *)

Lemma data_ret u T p com c a d s : inv u p → p !! i = Some c → DataArg a d s ∈ concat (subArgs <$> c_Args c) → a_dir a ≠ DirOut →
  r_data i (a_id a) (mkMin u T p com) = Ret ((a, d, s), mkMin u T p com).
Proof using Type.
  intros Hi Hc Hy Hd. unfold r_data. setoid_rewrite (R_bind_ret _ _ _ _ _ (load_ret u T p com c (DataArg a d s) Hi Hc Hy)).
  unfold dataOf. by rewrite bool_decide_false.
Qed.

Lemma minimizeFilename_step a d s tc b e text sub values noZ path x (t := BufferType tc BufferFilename b e text sub values noZ) : open x →
  DataArg a d s ∈ concat (subArgs <$> c_Args c0) → a_dir a ≠ DirOut → typeOf tbl (a_ref a) = Ret t → path ∉ x_tried x →
  step {[ path ]} x (minimizeFilename target ptrPtr ptr64 Neutralize debug pred0 i idx t noZ (a_id a) path).
Proof using Hmt.
  intros Hx Harg Hdir Ht Hpath. unfold minimizeFilename. destruct (Varlen t) eqn:Hvar; cbn [negb]; [|by apply step_false].
  destruct (open_node x _ Hx Harg) as (c & y & Hc & Hca & Hy & Hay). inversion Hay; subst. match goal with H : true = true → _ |- _ => specialize (H eq_refl); subst end.
  pose proof Hx as [Hi Ho _]. destruct x as [[h k] T p com]. cbn [x_world x_p x_tried x_committed fst] in *. subst com.
  destruct (node_facts _ _ _ _ Hi Hc Hy) as (Hsound & Hwf & Hroom). cbn [fst] in *.
  unfold step. setoid_rewrite (R_bind_ret _ _ _ _ _ (data_ret (h, k) T p false c a d s Hi Hc Hy Hdir)). cbv zeta beta iota.
  setoid_rewrite (R_bind_ret _ _ _ _ _ (store_ret (h, k) T p false c (DataArg a (trimFile noZ d) s) Hc)). cbn [argId x_tried].
  assert (Hi1 : inv (h, k) (<[i := replaceInCall (a_id a) (DataArg a (trimFile noZ d) s) c]> p)).
  { apply (inv_store (h, k) p c (DataArg a d s)); [done|done|done|]. constructor. right. by eapply (trim_ok target h a d s). }
  destruct (bool_decide (trimFile noZ d = d)) eqn:Eq.
  - apply bool_decide_eq_true in Eq. eexists false, _. split; [done|]. cbn [x_tried]. split; [done|]. split; [set_solver|]. constructor; cbn [x_world x_p x_committed]; [done|done|].
    eexists. split; [by eapply lookup_store|]. eapply alikeCall_trans; [exact Hca|].
    by apply (alikeCall_store anyVal (h, k) p c (DataArg a d s)); [| | | |constructor].
  - destruct (finish_ret (h, k) T _ _ Hi1 (lookup_store p c _ Hc)) as (ok & x' & Hfin & Hcl & HT). destruct x' as [u' T' p' com']. cbn [x_tried] in HT. subst T'.
    eexists true, (mkMin u' ({[ path ]} ∪ T) p' com').
    split; [|cbn [x_tried]; split; [set_solver|split; [set_solver|split; [by destruct Hcl|set_solver]]]].
    revert Hfin. unfold mbind, R_bind. destruct (r_assignSizes _ _ _ _ _) as [[[] x1]| |]; try done. by intros ->.
Qed.

Lemma okCall_trans c c1 c2 : alikeCall (okVal target) c c1 → alikeCall (okVal target) c1 c2 → alikeCall (okVal target) c c2.
Proof using Type.
  intros (Hm & Hr & Hp & Ha) (Hm1 & Hr1 & Hp1 & Ha1). split; [congruence|]. split; [congruence|]. split; [congruence|].
  eapply alike_list_trans; [apply okVal_trans|exact Ha|exact Ha1].
Qed.

Lemma okCalls_trans (p p1 p2 : list Call) : Forall2 (alikeCall (okVal target)) p p1 → Forall2 (alikeCall (okVal target)) p1 p2 → Forall2 (alikeCall (okVal target)) p p2.
Proof using Type.
  intros Hf. revert p2. induction Hf as [|c c1 p p1 Hc _ IH]; intros p2 Hf2; inversion Hf2; subst; constructor; [by eapply okCall_trans|by apply IH].
Qed.

(** The call is as [assignSizesCall] leaves it. *)
Definition sized (h : Heap) (c : Call) : Prop := assignSizesCall tbl ptrPtr ptr64 h c = Ret c.

(** The state of the loop over a blob of which [n] bytes are left: nothing has been cut
    off, or the program has been accepted. *)
Record cutting (a : ArgCommon) (s : Z) (d : list Z) (n : nat) (x : Ctx) : Prop := {
  cut_inv : inv (x_world x) (x_p x);
  cut_open : x_committed x = false;
  cut_len : (n ≤ length d)%nat;
  cut_call : ∃ c, x_p x !! i = Some c ∧ DataArg a (take n d) s ∈ concat (subArgs <$> c_Args c) ∧
    ((n = length d ∧ alikeCall anyVal c0 c) ∨ ((n < length d)%nat ∧ acc (x_world x) (x_p x) ∧ (idle → sized (x_world x).1 c)));
}.

(** Cutting a buffer, assigning sizes and undoing both leaves the call as it was. *)
Lemma resize_same h c c2 c5 a d d1 s : (∀ arg, arg ∈ c_Args c → only (DataArg a d s) arg) → sized h c →
  assignSizesCall tbl ptrPtr ptr64 h (replaceInCall (a_id a) (DataArg a d1 s) c) = Ret c2 →
  assignSizesCall tbl ptrPtr ptr64 h (replaceInCall (a_id a) (DataArg a d s) c2) = Ret c5 → c5 = c.
Proof using Type.
  intros Ho Hs H2 H5. unfold sized, assignSizesCall in *. apply bind_ret_inv in Hs as (rP & HP & EP). apply bind_ret_inv in H2 as (r1 & H1 & [= <-]).
  apply bind_ret_inv in H5 as (r4 & H4 & [= <-]). cbn [replaceInCall c_Args c_Meta c_Ret c_Props] in *.
  assert (E4 : replaceNode (a_id a) (DataArg a d s) <$> (setVals (writesMap r1.1) <$> (replaceNode (a_id a) (DataArg a d1 s) <$> c_Args c)) = setVals (writesMap r1.1) <$> c_Args c).
  { rewrite <- !list_fmap_compose. apply list_fmap_ext. intros j arg Hj%list_elem_of_lookup_2. by apply setVals_restore, Ho. }
  rewrite E4 in H4 |- *.
  assert (Hsame : r4 = rP).
  { apply sameWrites_eq. pose proof (alike_array true anyVal tbl ptrPtr ptr64 h (c_Args c) (setVals (writesMap r1.1) <$> c_Args c) (sc_Args (c_Meta c)) None) as Ha.
    rewrite HP, H4 in Ha. apply Ha. apply Forall2_fmap_r, Forall2_same_length_lookup_2; [done|]. intros j y y' Hy Hy'. rewrite Hy in Hy'. injection Hy' as <-. by apply alike_setVals. }
  subst r4.
  assert (Hdom : ∀ j, is_Some (writesMap r1.1 !! j) → is_Some (writesMap rP.1 !! j)).
  { intros j. apply writesMap_dom. pose proof (alike_array false anyVal tbl ptrPtr ptr64 h (c_Args c) (replaceNode (a_id a) (DataArg a d1 s) <$> c_Args c) (sc_Args (c_Meta c)) None) as Ha.
    rewrite HP, H1 in Ha. apply (sameWrites_ids false), Ha. apply Forall2_fmap_r, Forall2_same_length_lookup_2; [done|]. intros k y y' Hy Hy'. rewrite Hy in Hy'. injection Hy' as <-.
    apply (alike_repl anyVal ltac:(done) false (DataArg a d s)); [by constructor|]. by eapply Ho, list_elem_of_lookup_2. }
  assert (E5 : setVals (writesMap rP.1) <$> (setVals (writesMap r1.1) <$> c_Args c) = setVals (writesMap rP.1) <$> c_Args c).
  { rewrite <- list_fmap_compose. apply list_fmap_ext. intros j arg _. by apply setVals_cover. }
  rewrite E5. by injection EP.
Qed.

Lemma acc_later u p : acc u p → acc (u.1, S u.2) p.
Proof using Type. intros Ha Hid. destruct (Ha Hid) as (k & Hk & Hp). exists k. split; [cbn; lia|done]. Qed.

Section Cut.

Context (a : ArgCommon) (s : Z) (d : list Z) (Hdir : a_dir a ≠ DirOut).
Context (tc : TypeCommon) (kind : BufferKind) (b e : Z) (text : TextKind) (sub : string) (values : list (list Z)) (noZ : bool).
Context (Ht : typeOf tbl (a_ref a) = Ret (BufferType tc kind b e text sub values noZ)) (Hkind : kind = BufferBlobRand ∨ kind = BufferBlobRange).

Local Notation short := (λ n : nat, DataArg a (take n d) s).

(** What is known after a question about the program with [n1] bytes. *)
Lemma cut_try u T p c n n1 : inv u p → p !! i = Some c → short n ∈ concat (subArgs <$> c_Args c) → (n1 ≤ n)%nat → b ≤ Z.of_nat n1 →
  ∃ (ok : bool) c2 p3 c3,
    (_ ← r_store i (short n1); _ ← r_assignSizes target ptrPtr ptr64 i; r_pred target Neutralize debug pred0 idx) (mkMin u T p false) =
      Ret (ok, mkMin (u.1, S u.2) T p3 false) ∧
    assignSizesCall tbl ptrPtr ptr64 u.1 (replaceInCall (a_id a) (short n1) c) = Ret c2 ∧
    inv (u.1, S u.2) p3 ∧ p3 !! i = Some c3 ∧ short n1 ∈ concat (subArgs <$> c_Args c3) ∧
    Forall2 (alikeCall (okVal target)) (<[i := replaceInCall (a_id a) (short n1) c]> p) p3 ∧
    (ok = true → acc (u.1, S u.2) p3) ∧ (idle → p3 = <[i := c2]> p).
Proof using Hmt Hdir Ht Hkind.
  intros Hi Hc Hy Hn Hb. destruct (node_facts _ _ _ _ Hi Hc Hy) as (Hsound & Hwf & Hroom).
  rewrite (R_bind_ret _ _ _ _ _ (store_ret u T p false c (short n1) Hc)). cbn [argId].
  set (p1 := <[i := replaceInCall (a_id a) (short n1) c]> p).
  assert (Hi1 : inv u p1).
  { apply (inv_store u p c (short n)); [done|done|done|]. constructor. right. replace (take n1 d) with (take n1 (take n d)) by (rewrite take_take; f_equal; lia).
    by eapply (cut_ok target u.1 (mt_table _ _ _ _ _ Hmt)). }
  assert (Hc1 : p1 !! i = Some (replaceInCall (a_id a) (short n1) c)) by (by eapply lookup_store).
  destruct (assign_ret u T p1 false _ Hi1 Hc1) as (c2 & Has & Hs2 & Ha2 & Hi2). rewrite (R_bind_ret _ _ _ _ _ Has).
  destruct (rpred_ret u T _ false Hi2) as (ok & p3 & Hp & Hi3 & Hf & Hacc & Hid).
  destruct (Forall2_lookup_l _ _ _ _ _ Hf (lookup_store p1 _ c2 Hc1)) as (c3 & Hc3 & Ha3).
  exists ok, c2, p3, c3. split; [exact Hp|]. split; [done|]. split; [done|]. split; [done|]. split; [|split; [|split; [done|]]].
  - pose proof (store_sub _ _ _ _ (short n1) Hi Hc Hy) as Hnew. cbn [argId] in Hnew.
    destruct (alike_find _ _ _ _ _ (proj2 (proj2 (proj2 Ha2))) Hnew) as (y2 & Hy2 & Hay2). inversion Hay2; subst. match goal with H : true = true → _ |- _ => specialize (H eq_refl); subst end.
    destruct (alike_find _ _ _ _ _ (proj2 (proj2 (proj2 Ha3))) Hy2) as (y3 & Hy3 & Hay3). inversion Hay3; subst. match goal with H : true = true → _ |- _ => specialize (H eq_refl); subst end. done.
  - eapply (okCalls_trans p1); [by eapply insert_alike|exact Hf].
  - intros Hidle. rewrite (Hid Hidle). unfold p1. by rewrite list_insert_insert_eq.
Qed.

Lemma cut_restored u p c n n1 p3 c3 : inv u p → p !! i = Some c → short n ∈ concat (subArgs <$> c_Args c) →
  Forall2 (alikeCall (okVal target)) (<[i := replaceInCall (a_id a) (short n1) c]> p) p3 → p3 !! i = Some c3 →
  alikeCall (okVal target) c (replaceInCall (a_id a) (short n) c3) ∧
  Forall2 (alikeCall (okVal target)) p (<[i := replaceInCall (a_id a) (short n) c3]> p3).
Proof using Type.
  intros Hi Hc Hy Hf Hc3. destruct (Forall2_lookup_lr _ _ _ _ _ _ Hf (lookup_store p c _ Hc) Hc3) as (Hm & Hr & Hp & Ha). cbn [replaceInCall c_Meta c_Ret c_Props c_Args] in *.
  assert (Hcall : alikeCall (okVal target) c (replaceInCall (a_id a) (short n) c3)).
  { split; [done|]. split; [done|]. split; [done|]. cbn [replaceInCall c_Args]. rewrite Forall2_fmap_l in Ha. apply Forall2_fmap_r.
    apply Forall2_same_length_lookup_2; [by eapply Forall2_length|]. intros k x y Hx Hyk. pose proof (Forall2_lookup_lr _ _ _ _ _ _ Ha Hx Hyk) as Hxy.
    eapply (alike_restore _ (okVal_refl target) (okVal_trans target)); [|exact Hxy]. eapply node_only; try done. by eapply list_elem_of_lookup_2. }
  split; [done|]. pose proof (Forall2_length _ _ _ Hf) as Hl. rewrite length_insert in Hl.
  apply Forall2_same_length_lookup_2; [by rewrite length_insert|]. intros j x y Hx Hyj. destruct (decide (i = j)) as [<-|Hne].
  - rewrite Hc in Hx. injection Hx as <-. rewrite (lookup_store p3 c3 _ Hc3) in Hyj. by injection Hyj as <-.
  - rewrite list_lookup_insert_ne in Hyj by done. eapply (Forall2_lookup_lr _ _ _ j _ _ Hf); [by rewrite list_lookup_insert_ne|done].
Qed.

(** The cut is undone. *)
Lemma cut_undo u T p c n n1 c2 p3 c3 : inv u p → p !! i = Some c → short n ∈ concat (subArgs <$> c_Args c) →
  assignSizesCall tbl ptrPtr ptr64 u.1 (replaceInCall (a_id a) (short n1) c) = Ret c2 →
  inv (u.1, S u.2) p3 → p3 !! i = Some c3 → short n1 ∈ concat (subArgs <$> c_Args c3) →
  Forall2 (alikeCall (okVal target)) (<[i := replaceInCall (a_id a) (short n1) c]> p) p3 → (idle → p3 = <[i := c2]> p) →
  ∃ c5 p5, (_ ← r_store i (short n); r_assignSizes target ptrPtr ptr64 i) (mkMin (u.1, S u.2) T p3 false) = Ret (tt, mkMin (u.1, S u.2) T p5 false) ∧
    inv (u.1, S u.2) p5 ∧ p5 !! i = Some c5 ∧ short n ∈ concat (subArgs <$> c_Args c5) ∧ alikeCall (okVal target) c c5 ∧ (idle → sized u.1 c → p5 = p).
Proof using Hmt.
  intros Hi Hc Hy H2 Hi3 Hc3 Hy3 Hf Hid. destruct (cut_restored u p c n n1 p3 c3 Hi Hc Hy Hf Hc3) as [Hac Hap].
  rewrite (R_bind_ret _ _ _ _ _ (store_ret (u.1, S u.2) T p3 false c3 (short n) Hc3)). cbn [argId].
  set (p4 := <[i := replaceInCall (a_id a) (short n) c3]> p3) in *. assert (Hc4 : p4 !! i = Some (replaceInCall (a_id a) (short n) c3)) by (by eapply lookup_store).
  assert (Hi4 : inv (u.1, S u.2) p4).
  { destruct u as [h k]. eapply (inv_bump h h k); [by eapply (inv_alike (h, k) p)|done|done|cbn; lia]. }
  destruct (assign_ret (u.1, S u.2) T p4 false _ Hi4 Hc4) as (c5 & Has & Hs5 & Ha5 & Hi5). exists c5, (<[i := c5]> p4). split; [exact Has|]. split; [done|].
  split; [by eapply lookup_store|]. split; [|split].
  - pose proof (store_sub _ _ _ _ (short n) Hi3 Hc3 Hy3) as Hnew. cbn [argId] in Hnew.
    destruct (alike_find _ _ _ _ _ (proj2 (proj2 (proj2 Ha5))) Hnew) as (y5 & Hy5 & Hay5). inversion Hay5; subst. match goal with H : true = true → _ |- _ => specialize (H eq_refl); subst end. done.
  - by eapply okCall_trans.
  - intros Hidle Hsz. specialize (Hid Hidle). assert (c3 = c2) as ->. { rewrite Hid, (lookup_store p c _ Hc) in Hc3. by injection Hc3. }
    assert (c5 = c) as ->. { eapply (resize_same u.1 c c2 c5 a (take n d) (take n1 d) s); try done. intros arg Harg. by apply (node_only u p c (DataArg a (take n d) s)). }
    unfold p4. rewrite Hid, !list_insert_insert_eq. by apply list_insert_id.
Qed.

Lemma reslice_ret (l : list Z) (m : Z) : 0 ≤ m ≤ Z.of_nat (length l) → reslice l m = Ret (take (Z.to_nat m) l).
Proof using Type. intros Hm. unfold reslice. by rewrite bool_decide_true. Qed.

Lemma blobLoop_ok (Hb : 0 ≤ b) fuel : ∀ n stp x, cutting a s d n x → (n + Z.to_nat stp < fuel)%nat →
  ∃ x' n', blobLoop target ptrPtr ptr64 Neutralize debug pred0 i idx crash fuel (a_id a) d b stp x = Ret (tt, x') ∧ cutting a s d n' x' ∧ x_tried x' = x_tried x.
Proof using Hmt Hdir Ht Hkind.
  induction fuel as [|fuel IH]; intros n stp x Hx Hfuel; [lia|]. cbn [blobLoop]. pose proof Hx as [Hi Ho Hlen (c & Hc & Hy & Hcase)].
  destruct x as [u T p com]. cbn [x_world x_p x_tried x_committed] in *. subst com. assert (Hl : length (take n d) = n) by (rewrite length_take; lia).
  rewrite (R_bind_ret _ _ _ _ _ (data_ret u T p false c a (take n d) s Hi Hc Hy Hdir)). cbv beta iota zeta. rewrite Hl.
  destruct (decide (b < Z.of_nat n ∧ 0 < stp)) as [[Hbn Hstp]|Hno]; [|rewrite (bool_decide_false (b < _ ∧ _)) by done; by eexists _, n].
  rewrite (bool_decide_true (b < _ ∧ _)) by done. set (next := if crash then mret tt else _).
  assert (Hnext : ∀ x1, cutting a s d n x1 → ∃ x' n', next x1 = Ret (tt, x') ∧ cutting a s d n' x' ∧ x_tried x' = x_tried x1).
  { intros x1 Hx1. unfold next. destruct crash; [by eexists x1, n|]. apply (IH n); [done|]. pose proof (Z.quot_lt stp 2). pose proof (Z.quot_pos stp 2). lia. }
  destruct (decide (b ≤ Z.of_nat n - stp)) as [Hle|Hnle]; [|rewrite (bool_decide_false (b ≤ _)) by done; by apply (Hnext _ Hx)].
  rewrite (bool_decide_true (b ≤ _)) by done. set (n1 := Z.to_nat (Z.of_nat n - stp)).
  rewrite (R_bind_ret _ _ _ (take n1 d) (mkMin u T p false)); [|unfold r_lift; rewrite reslice_ret by lia; cbn; by rewrite take_take, Nat.min_l by lia].
  destruct (cut_try u T p c n n1 Hi Hc Hy) as (ok & c2 & p3 & c3 & Hrun & H2 & Hi3 & Hc3 & Hy3 & Hf & Hacc & Hid); [lia|lia|].
  rewrite (R_bind3 _ _ _ _ _ _ _ Hrun). destruct ok.
  { apply (IH n1); [|lia]. constructor; cbn [x_world x_p x_committed fst]; [done|done|lia|]. exists c3. split; [done|]. split; [done|]. right. split; [lia|]. split; [by apply Hacc|].
    intros Hidle. rewrite (Hid Hidle), (lookup_store p c _ Hc) in Hc3. injection Hc3 as <-. unfold sized. by eapply assignSizesCall_again. }
  rewrite (R_bind_ret _ _ _ _ _ (data_ret _ T p3 false c3 a (take n1 d) s Hi3 Hc3 Hy3 Hdir)). cbv beta iota zeta.
  assert (Hl1 : length (take n1 d) = n1) by (rewrite length_take; lia). rewrite Hl1.
  rewrite (R_bind_ret _ _ _ (take n d) (mkMin (u.1, S u.2) T p3 false)); [|unfold r_lift; rewrite reslice_ret by lia; cbn; do 3 f_equal; lia].
  destruct (cut_undo u T p c n n1 c2 p3 c3 Hi Hc Hy H2 Hi3 Hc3 Hy3 Hf Hid) as (c5 & p5 & Hun & Hi5 & Hc5 & Hy5 & Ha5 & Hback).
  rewrite (R_bind2 _ _ _ _ _ _ Hun). apply (Hnext (mkMin (u.1, S u.2) T p5 false)). constructor; cbn [x_world x_p x_committed fst]; [done|done|done|]. exists c5. split; [done|]. split; [done|].
  destruct Hcase as [[Hn Hal]|(Hn & Ha & Hsz)]; [left; split; [done|]; eapply alikeCall_trans; [exact Hal|by apply alikeCall_any]|]. right. split; [done|]. split.
  - intros Hidle. specialize (Hback Hidle (Hsz Hidle)) as ->. by apply acc_later.
  - intros Hidle. pose proof (Hback Hidle (Hsz Hidle)) as ->. rewrite Hc in Hc5. injection Hc5 as <-. by apply Hsz.
Qed.

Lemma minimizeBlob_step path x : open x → DataArg a d s ∈ concat (subArgs <$> c_Args c0) → path ∉ x_tried x →
  step {[ path ]} x (minimizeBlob target ptrPtr ptr64 Neutralize debug pred0 i idx crash (a_id a) b path).
Proof using Hmt Hdir Ht Hkind.
  intros Hx Harg Hpath. destruct (st_blobs _ (mt_table _ _ _ _ _ Hmt) _ _ _ _ _ _ _ _ _ (typeOf_lookup _ _ _ Ht) Hkind) as [Hb _].
  assert (Hint : toInt b = b) by (unfold toInt; rewrite Z.mod_small; lia). unfold minimizeBlob. rewrite Hint.
  destruct (open_node x _ Hx Harg) as (c & y & Hc & Hca & Hy & Hay). inversion Hay; subst. match goal with H : true = true → _ |- _ => specialize (H eq_refl); subst end.
  assert (Hcut : cutting a s d (length d) x).
  { pose proof Hx as [Hi Ho _]. constructor; [done|done|done|]. exists c. split; [done|]. split; [by rewrite firstn_all|]. by left. }
  pose proof Hx as [Hi Ho _]. destruct x as [u T p com]. cbn [x_world x_p x_tried x_committed] in *. subst com. unfold step.
  setoid_rewrite (R_bind_ret _ _ _ _ _ (data_ret u T p false c a d s Hi Hc Hy Hdir)). cbv beta iota zeta.
  destruct (blobLoop_ok ltac:(lia) (S (length d + Z.to_nat (Z.of_nat (length d) - b))) _ (Z.of_nat (length d) - b) _ Hcut ltac:(lia)) as (x' & n & Hloop & Hx' & HT).
  setoid_rewrite (R_bind_ret _ _ _ _ _ Hloop). pose proof Hx' as [Hi1 Ho1 Hlen (c1 & Hc1 & Hy1 & Hcase)]. destruct x' as [u1 T1 p1 com1].
  cbn [x_world x_p x_tried x_committed] in *. subst com1 T1. setoid_rewrite (R_bind_ret _ _ _ _ _ (data_ret u1 T p1 false c1 a (take n d) s Hi1 Hc1 Hy1 Hdir)). cbv beta iota zeta.
  assert (Hl : length (take n d) = n) by (rewrite length_take; lia). rewrite Hl. destruct Hcase as [[Hn Hal]|(Hn & Ha & _)].
  - rewrite bool_decide_false by lia. eexists false, _. split; [done|]. cbn [x_tried]. split; [done|]. split; [set_solver|]. constructor; cbn; eauto.
  - rewrite bool_decide_true by lia. eexists true, _. split; [done|]. cbn [x_tried]. split; [set_solver|]. split; [set_solver|]. split; [|set_solver]. by apply inv_closed.
Qed.

End Cut.

(** ** All arguments *)

Context (Hmin : noMinimize (c_Meta c0) = false).

Lemma minimizeBuffer_step a d s tc kind b e text sub values noZ path x (t := BufferType tc kind b e text sub values noZ) : open x →
  DataArg a d s ∈ concat (subArgs <$> c_Args c0) → typeOf tbl (a_ref a) = Ret t → path ∉ x_tried x →
  step {[ path ]} x (minimizeBuffer target ptrPtr ptr64 Neutralize debug pred0 i idx crash t kind b noZ a path).
Proof using Hmt Hmin.
  intros Hx Harg Ht Hpath. unfold minimizeBuffer. case_bool_decide as Hd; [by apply step_false|]. destruct kind; try (by apply step_false).
  - eapply minimizeBlob_step; [done|exact Ht|by left|done|exact Harg|done].
  - eapply minimizeBlob_step; [done|exact Ht|by right|done|exact Harg|done].
  - by eapply minimizeFilename_step.
  - exfalso. destruct (open_node x _ Hx Harg) as (c & y & Hc & Hca & Hy & Hay). inversion Hay; subst.
    assert (Hbad : compressed tbl (DataArg a d1 s) = false).
    { eapply (mt_plain _ _ _ _ _ Hmt (x_world x).1 (x_p x) c); [apply Hx|by eapply list_elem_of_lookup_2| |by apply sub_call]. by rewrite (proj1 Hca). }
    cbn in Hbad. by rewrite Ht in Hbad.
Qed.

Lemma open_try x path : open x → open (mkMin (x_world x) ({[ path ]} ∪ x_tried x) (x_p x) (x_committed x)).
Proof using Type. intros [Hi Ho Hc]. by constructor. Qed.

Lemma do_step T m field path x (path1 := (path +:+ "-" +:+ field)%string) : (∀ x', open x' → path1 ∉ x_tried x' → step T x' (m path1)) → path1 ∈ T → open x →
  step T x (do m field path).
Proof using Type*.
  intros Hm HT Hx. unfold step, do. setoid_rewrite (R_bind_ret r_ask _ x x x eq_refl). fold path1. cbv zeta. case_bool_decide as Hp.
  - exists false, x. split; [done|]. split; [done|]. split; [set_solver|done].
  - destruct (Hm x Hx Hp) as (b & x' & Hrun & Hs & Hs1 & Hb). setoid_rewrite (R_bind_ret _ _ _ _ _ Hrun). destruct b.
    + exists true, x'. by split.
    + setoid_rewrite (R_bind_ret r_ask _ x' x' x' eq_refl). rewrite (oc_open _ Hb), (oc_open _ Hx). cbn [orb]. rewrite bool_decide_false by (intros Hn; by apply Hn).
      eexists false, _. split; [done|]. cbn [x_tried]. split; [set_solver|]. split; [set_solver|]. by apply open_try.
Qed.

Local Notation minimize := (minimize target ptrPtr ptr64 Neutralize debug pred0 i idx crash).

Definition minimizes (arg : Arg) : Prop := arg ∈ concat (subArgs <$> c_Args c0) → ∀ path x, open x → path ∉ x_tried x →
  step (pathsOf tbl arg path) x (minimize arg path).

Lemma struct_step fields g (F : nat → list Arg → R bool) inner :
  (∀ k, F k [] = mret false) →
  (∀ k x l, F k (x :: l) = (f ← r_lift (of_option (fields !! k)); b ← do (minimize x) (f_Name f) g; if b : bool then mret true else F (S k) l)) →
  ∀ k, Forall minimizes inner → (∀ x, x ∈ inner → x ∈ concat (subArgs <$> c_Args c0)) → (k + length inner = length fields)%nat → ∀ x, open x →
  step (⋃ zip_with (λ y f, pathsOf tbl y (g +:+ "-" +:+ f_Name f)) inner (drop k fields)) x (F k inner).
Proof using Type*.
  intros Hnil Hcons k Hall. revert k. induction Hall as [|y l Hy _ IH]; intros k Hin Hlen x Hx; [rewrite Hnil; by apply step_false|]. cbn [length] in Hlen.
  destruct (lookup_lt_is_Some_2 fields k) as [f Hf]; [lia|]. rewrite Hcons, (drop_S _ _ _ Hf). cbn [zip_with union_list foldr].
  assert (Hstep : step (pathsOf tbl y (g +:+ "-" +:+ f_Name f) ∪ ⋃ zip_with (λ y f, pathsOf tbl y (g +:+ "-" +:+ f_Name f)) l (drop (S k) fields)) x
    (b ← do (minimize y) (f_Name f) g; if b : bool then mret true else F (S k) l)).
  { eapply step_seq; [|apply union_subseteq_l|apply union_subseteq_r|].
    - apply do_step; [|apply pathsOf_self|done]. intros x' Hx' Hp. apply Hy; [apply Hin; by left|done|done].
    - intros x' Hx'. apply IH; [intros z Hz; apply Hin; by right|lia|done]. }
  destruct Hstep as (b & x' & Hrun & Hrest). exists b, x'. split; [|done]. unfold r_lift. rewrite Hf. cbn [of_option]. by rewrite (R_bind_ret _ _ _ f x).
Qed.

Lemma array_paths a inner tc e kind b re path k x : typeOf tbl (a_ref a) = Ret (ArrayType tc e kind b re) → inner !! k = Some x →
  let elemPath := (path +:+ "-" +:+ pretty k)%string in
  elemPath ∈ pathsOf tbl (GroupArg a inner) path ∧ pathsOf tbl x (elemPath +:+ "-" +:+ EmptyString) ⊆ pathsOf tbl (GroupArg a inner) path.
Proof using Type.
  intros Ht Hk elemPath. set (P := λ j : nat, {[ (path +:+ "-" +:+ pretty j)%string ]} ∪
    ⋃ ((λ x, pathsOf tbl x ((path +:+ "-" +:+ pretty j) +:+ "-" +:+ EmptyString)) <$> inner)).
  assert (HP : P k ⊆ pathsOf tbl (GroupArg a inner) path).
  { cbn [pathsOf]. rewrite Ht. intros q Hq. apply elem_of_union. right. apply elem_of_union_list. exists (P k). split; [|done]. apply (list_elem_of_fmap_2 P).
    apply elem_of_seq. apply lookup_lt_Some in Hk. lia. }
  split; [apply HP, elem_of_union; left; by apply elem_of_singleton|]. intros q Hq. apply HP, elem_of_union. right. apply elem_of_union_list.
  eexists. split; [|exact Hq]. apply (list_elem_of_fmap_2 (λ x, pathsOf tbl x ((path +:+ "-" +:+ pretty k) +:+ "-" +:+ EmptyString))). by eapply list_elem_of_lookup_2.
Qed.

Lemma elem_step a inner tc e kind b re path k x z : GroupArg a inner ∈ concat (subArgs <$> c_Args c0) → typeOf tbl (a_ref a) = Ret (ArrayType tc e kind b re) →
  minimizes z → z ∈ concat (subArgs <$> c_Args c0) → inner !! k = Some z → open x →
  let elemPath := (path +:+ "-" +:+ pretty k)%string in
  step (pathsOf tbl (GroupArg a inner) path) x
    (s ← r_ask;
     if negb crash && bool_decide (elemPath ∉ x_tried s) &&
        (bool_decide (kind = ArrayRandLen) || bool_decide (kind = ArrayRangeLen) && bool_decide (b < u64 (Z.of_nat (length inner)))) then
       _ ← r_try elemPath; _ ← dropElem target ptrPtr ptr64 Neutralize debug pred0 i idx a k; mret true
     else do (minimize z) EmptyString elemPath).
Proof using Type*.
  intros Harg Ht Hz Hzin Hk Hx elemPath. destruct (array_paths a inner tc e kind b re path k z Ht Hk) as [Hp Hsub]. fold elemPath in Hp, Hsub.
  unfold step. setoid_rewrite (R_bind_ret r_ask _ x x x eq_refl). fold elemPath.
  destruct (negb crash && _ && _) eqn:Econd.
  - apply andb_true_iff in Econd as [[_ Hnew%bool_decide_eq_true]%andb_true_iff Hkind].
    assert (Hrem : removable kind b (length inner)).
    { apply orb_true_iff in Hkind as [Hr%bool_decide_eq_true|[Hr%bool_decide_eq_true Hlt%bool_decide_eq_true]%andb_true_iff]; [by left|]. right. split; [done|].
      unfold u64 in Hlt. pose proof (Z.mod_le (Z.of_nat (length inner)) (2 ^ 64)). lia. }
    setoid_rewrite (R_bind_ret (r_try elemPath) _ x tt (mkMin (x_world x) ({[ elemPath ]} ∪ x_tried x) (x_p x) (x_committed x)) eq_refl).
    destruct (dropElem_ret a inner k tc e kind b re _ (open_try x elemPath Hx) Harg Ht (lookup_lt_Some _ _ _ Hk) Hrem) as (ok & x' & Hd & Hcl & HT).
    setoid_rewrite (R_bind_ret _ _ _ _ _ Hd). exists true, x'. split; [done|]. rewrite HT. cbn [x_tried]. split; [set_solver|]. split; [set_solver|]. split; [done|set_solver].
  - assert (Hstep : step (pathsOf tbl (GroupArg a inner) path) x (do (minimize z) EmptyString elemPath)); [|exact Hstep].
    apply do_step; [|apply Hsub, pathsOf_self|done]. intros x' Hx' Hp'. eapply step_mono; [exact Hsub|]. by apply Hz.
Qed.

Lemma array_step a inner tc e kind b re path (F : nat → list Arg → R bool) : GroupArg a inner ∈ concat (subArgs <$> c_Args c0) →
  typeOf tbl (a_ref a) = Ret (ArrayType tc e kind b re) → Forall minimizes inner →
  (∀ k, F k [] = mret false) →
  (∀ k z l, F k (z :: l) =
     (b' ← F (S k) l;
      if b' : bool then mret true
      else
        let elemPath := (path +:+ "-" +:+ pretty k)%string in
        s ← r_ask;
        if negb crash && bool_decide (elemPath ∉ x_tried s) &&
           (bool_decide (kind = ArrayRandLen) || bool_decide (kind = ArrayRangeLen) && bool_decide (b < u64 (Z.of_nat (length inner)))) then
          _ ← r_try elemPath; _ ← dropElem target ptrPtr ptr64 Neutralize debug pred0 i idx a k; mret true
        else do (minimize z) EmptyString elemPath)) →
  ∀ l k x, l = drop k inner → open x → step (pathsOf tbl (GroupArg a inner) path) x (F k l).
Proof using Type*.
  intros Harg Ht Hall Hnil Hcons l. induction l as [|z l IH]; intros k x El Hx; [rewrite Hnil; by apply step_false|].
  assert (Hk : inner !! k = Some z) by (rewrite <- (Nat.add_0_r k), <- lookup_drop, <- El; done). rewrite (drop_S _ _ _ Hk) in El. injection El as El.
  rewrite Hcons. eapply step_seq; [by apply IH|done|done|]. intros x' Hx'. rewrite Forall_forall in Hall. pose proof (list_elem_of_lookup_2 _ _ _ Hk) as Hz.
  eapply elem_step; try done; [by apply Hall|]. eapply sub_trans; [exact Harg|]. cbn [subArgs]. apply elem_of_cons. right. apply elem_concat_fmap. exists z. split; [done|apply self_sub].
Qed.

Lemma sound_type x arg : open x → arg ∈ concat (subArgs <$> c_Args c0) → ∃ t y dir ctx ctx', argType tbl (x_world x).1 arg = Ret t ∧
  alike true anyVal arg y ∧ validateMethod target (x_world x).1 y t dir ctx = Ret (inr ctx').
Proof using Type.
  intros Hx Harg. destruct (open_node x _ Hx Harg) as (c & y & Hc & _ & Hy & Hay). pose proof Hx as [Hi _ _].
  destruct (node_facts _ _ _ _ Hi Hc Hy) as ((t & dir & ctx & ctx' & Ht & Hv) & _). exists t, y, dir, ctx, ctx'. split; [|done].
  by rewrite <- (alike_type _ _ tbl _ _ _ Hay).
Qed.

(** The method of the type, once the type is known. *)
Ltac open_minimize x t Ht :=
  cbn [ProgMinimize.minimize]; unfold step; setoid_rewrite (R_bind_ret r_ask _ x x x eq_refl);
  let H := fresh in
  match type of Ht with
  | ?A = _ => assert (H : r_lift A x = Ret (t, x)) by (unfold r_lift; rewrite Ht; done); setoid_rewrite (R_bind_ret _ _ _ _ _ H); clear H
  end.

Lemma step_leaf arg path x m : step {[ path ]} x m → step (pathsOf tbl arg path) x m.
Proof using Type*. apply step_mono. intros q ->%elem_of_singleton. apply pathsOf_self. Qed.

Lemma minimize_const a v : minimizes (ConstArg a v).
Proof using Type*.
  intros Harg path x Hx Hpath. destruct (sound_type x _ Hx Harg) as (t & y & dir & ctx & ctx' & Ht & Hay & Hv). inversion Hay; subst. cbn [validateMethod] in Hv.
  apply validateConst_inv in Hv as [Hint _]. open_minimize x t Ht. change (typeOf tbl (a_ref a) = Ret t) in Ht.
  destruct t; try done; try (apply (step_false (pathsOf tbl (ConstArg a v) path) x Hx)).
  - by apply (step_leaf (ConstArg a v)); eapply minimizeInt_step.
  - by apply (step_leaf (ConstArg a v)); eapply minimizeInt_step.
  - destruct (negb _); [apply (step_false (pathsOf tbl (ConstArg a v) path) x Hx)|]. by apply (step_leaf (ConstArg a v)); eapply minimizeInt_step.
Qed.

Lemma minimize_data a d s : minimizes (DataArg a d s).
Proof using Type*.
  intros Harg path x Hx Hpath. destruct (sound_type x _ Hx Harg) as (t & y & dir & ctx & ctx' & Ht & Hay & Hv). inversion Hay; subst. cbn [validateMethod] in Hv.
  open_minimize x t Ht. change (typeOf tbl (a_ref a) = Ret t) in Ht. destruct t; try done. apply (step_leaf (DataArg a d s)). by eapply minimizeBuffer_step.
Qed.

Lemma minimize_result q : minimizes (ResultArg q).
Proof using Type*.
  intros Harg path x Hx Hpath. destruct (sound_type x _ Hx Harg) as (t & y & dir & ctx & ctx' & Ht & Hay & Hv). inversion Hay; subst. cbn [validateMethod] in Hv.
  apply bind_ret_inv in Hv as (r & _ & Hv). open_minimize x t Ht. destruct t; try done. apply (step_leaf (ResultArg q)). by eapply minimizeResource_step.
Qed.

Lemma minimize_nil a ad vm : minimizes (PointerArg a ad vm None).
Proof using Type*.
  intros Harg path x Hx Hpath. destruct (sound_type x _ Hx Harg) as (t & y & dir & ctx & ctx' & Ht & Hay & Hv). inversion Hay; subst. cbn [validateMethod] in Hv.
  apply v_seq_inv in Hv as (c1 & Hv & _). open_minimize x t Ht. destruct t; try done; apply (step_false (pathsOf tbl (PointerArg a ad vm None) path) x Hx).
Qed.

Lemma minimize_ptr a ad vm z : minimizes z → minimizes (PointerArg a ad vm (Some z)).
Proof using Type*.
  intros Hz Harg path x Hx Hpath. destruct (sound_type x _ Hx Harg) as (t & y & dir & ctx & ctx' & Ht & Hay & Hv). inversion Hay; subst. cbn [validateMethod] in Hv.
  apply v_seq_inv in Hv as (c1 & Hv & _). open_minimize x t Ht. change (typeOf tbl (a_ref a) = Ret t) in Ht. destruct t; try done. clear Hv. cbv zeta.
  setoid_rewrite (R_bind_ret r_ask _ x x x eq_refl). case_bool_decide as Hp.
  - assert (Hstep : step (pathsOf tbl (PointerArg a ad vm (Some z)) path) x (do (minimize z) EmptyString path)); [|exact Hstep].
    apply (step_mono (pathsOf tbl z (path +:+ "-" +:+ EmptyString))); [cbn [pathsOf]; set_solver|]. apply do_step; [|apply pathsOf_self|done]. intros x' Hx' Hp'.
    apply Hz; [|done|done]. eapply sub_trans; [exact Harg|]. cbn [subArgs]. apply elem_of_cons. right. apply self_sub.
  - destruct (dropTarget_ret a ad vm z _ _ _ x Hx Harg Ht) as (ok & x' & Hd & Hcl & HT). setoid_rewrite (R_bind_ret _ _ _ _ _ Hd).
    eexists true, _. split; [done|]. cbn [x_tried]. rewrite HT. split; [set_solver|]. split; [cbn [pathsOf]; set_solver|]. split; [by destruct Hcl|set_solver].
Qed.

Lemma minimize_union a opt index : minimizes opt → minimizes (UnionArg a opt index).
Proof using Type*.
  intros Hz Harg path x Hx Hpath. destruct (sound_type x _ Hx Harg) as (t & y & dir & ctx & ctx' & Ht & Hay & Hv). inversion Hay; subst. cbn [validateMethod] in Hv.
  open_minimize x t Ht. change (typeOf tbl (a_ref a) = Ret t) in Ht. destruct t; try done. revert Hv. destruct (bool_decide (index < 0)); [done|].
  destruct (Fields !! Z.to_nat index) as [f|] eqn:Hf; [|done]. intros _. cbn [of_option].
  setoid_rewrite (R_bind_ret (r_lift (Ret f)) _ x f x eq_refl).
  assert (Hstep : step (pathsOf tbl (UnionArg a opt index) path) x (do (minimize opt) (f_Name f) path)); [|exact Hstep].
  apply (step_mono (pathsOf tbl opt (path +:+ "-" +:+ f_Name f))); [cbn [pathsOf]; rewrite Ht, Hf; set_solver|]. apply do_step; [|apply pathsOf_self|done]. intros x' Hx' Hp'.
  apply Hz; [|done|done]. eapply sub_trans; [exact Harg|]. cbn [subArgs]. apply elem_of_cons. right. apply self_sub.
Qed.

Lemma minimize_group a inner : Forall minimizes inner → minimizes (GroupArg a inner).
Proof using Type*.
  intros Hz Harg path x Hx Hpath. destruct (sound_type x _ Hx Harg) as (t & y & dir & ctx & ctx' & Ht & Hay & Hv). inversion Hay; subst. cbn [validateMethod] in Hv.
  open_minimize x t Ht. change (typeOf tbl (a_ref a) = Ret t) in Ht. destruct t; try done.
  - match goal with |- ∃ b x', ?F 0%nat inner x = _ ∧ _ => pose proof (array_step a inner _ _ _ _ _ path F Harg Ht Hz) as Hstep end.
    apply Hstep; [done|done|by rewrite drop_0|done].
  - destruct (decide (length l1 = length Fields)) as [Hl|Hl]; [|by rewrite bool_decide_true in Hv]. clear Hv. match goal with H : Forall2 _ inner _ |- _ => pose proof (Forall2_length _ _ _ H) as Hlen end.
    match goal with |- ∃ b x', ?F 0%nat inner x = _ ∧ _ => pose proof (struct_step Fields path F inner) as Hstep end.
    eapply (step_mono (⋃ zip_with (λ y f, pathsOf tbl y (path +:+ "-" +:+ f_Name f)) inner Fields)); [cbn [pathsOf]; rewrite Ht; apply union_subseteq_r|].
    apply (Hstep ltac:(done) ltac:(done) 0%nat Hz); [|cbn; lia|done]. intros z Hzin. eapply sub_trans; [exact Harg|]. cbn [subArgs]. apply elem_of_cons. right.
    apply elem_concat_fmap. exists z. split; [done|apply self_sub].
Qed.

Lemma minimize_step arg : minimizes arg.
Proof using Type*.
  induction arg using Arg_tree_ind;
    [apply minimize_const|apply minimize_nil|by apply minimize_ptr|apply minimize_data|by apply minimize_group|by apply minimize_union|apply minimize_result].
Qed.

End Round.

(** ** Rounds until nothing is left to try *)

Section Again.

Context (i : nat) (idx : Z) (crash : bool).

Local Notation step w p0 := (step i idx w p0).
Local Notation open w p0 := (open i w p0).
Local Notation minimize := (minimize target ptrPtr ptr64 Neutralize debug pred0 i idx crash).
Local Notation minimizeArgs := (minimizeArgs target ptrPtr ptr64 Neutralize debug pred0 i idx crash).

Lemma step_rebase w p0 c0 c T x m : alikeCall anyVal c0 c → step w p0 c T x m → step w p0 c0 T x m.
Proof using Type.
  intros Ha (b & x' & Hm & Hs & Hs1 & Hb). exists b, x'. split; [done|]. split; [done|]. split; [done|]. destruct b; [done|].
  destruct Hb as [Hi Ho (c' & Hc' & Ha')]. constructor; [done|done|]. exists c'. split; [done|]. by eapply alikeCall_trans.
Qed.

Lemma minimizeArgs_step w p0 c0 : noMinimize (c_Meta c0) = false → length (c_Args c0) = length (sc_Args (c_Meta c0)) → ∀ fields j x,
  fields = drop j (sc_Args (c_Meta c0)) → open w p0 c0 x → step w p0 c0 (argsPaths tbl (drop j (c_Args c0)) fields) x (minimizeArgs j fields).
Proof using Hmt.
  intros Hmin Hlen fields. induction fields as [|f fields IH]; intros j x Ef Hx; [by apply step_false|].
  assert (Hj : sc_Args (c_Meta c0) !! j = Some f) by (rewrite <- (Nat.add_0_r j), <- lookup_drop, <- Ef; done). rewrite (drop_S _ _ _ Hj) in Ef. injection Ef as Ef.
  pose proof Hx as [Hi Ho (c & Hc & Ha)]. pose proof Ha as (Hm & _ & _ & Hargs).
  destruct (lookup_lt_is_Some_2 (c_Args c0) j) as [x0 Hx0]; [rewrite Hlen; by eapply lookup_lt_Some|].
  destruct (Forall2_lookup_l _ _ _ _ _ Hargs Hx0) as (y & Hy & Hxy). rewrite (drop_S _ _ _ Hx0). unfold argsPaths. cbn [zip_with union_list foldr].
  assert (Hcall : r_call i x = Ret (c, x)) by (unfold r_call, r_ask, r_lift, mbind, R_bind; by rewrite Hc).
  assert (Hstep : step w p0 c0 (pathsOf tbl x0 (EmptyString +:+ "-" +:+ f_Name f) ∪ argsPaths tbl (drop (S j) (c_Args c0)) fields) x
    (b ← do (minimize y) (f_Name f) EmptyString; if b : bool then mret true else minimizeArgs (S j) fields)).
  { eapply step_seq; [|apply union_subseteq_l|apply union_subseteq_r|intros x1 Hx1; by apply IH].
    apply (step_rebase w p0 c0 c); [done|]. assert (Hmin' : noMinimize (c_Meta c) = false) by (by rewrite Hm).
    eapply do_step; [exact Hmin'| |apply pathsOf_self|].
    - intros x' Hx' Hp'. eapply step_mono; [by eapply slim_alike|].
      apply minimize_step; [done| |done|done]. apply elem_concat_fmap. exists y.
      split; [by eapply list_elem_of_lookup_2|apply self_sub].
    - constructor; [done|done|]. exists c. split; [done|]. split; [done|]. split; [done|]. split; [done|]. apply Forall2_same_length_lookup_2; [done|].
      intros k z z' Hz Hz'. rewrite Hz in Hz'. injection Hz' as <-. by apply alike_refl. }
  destruct Hstep as (b & x' & Hrun & Hrest). exists b, x'. split; [|exact Hrest]. cbn [ProgMinimize.minimizeArgs]. rewrite (R_bind_ret _ _ _ _ _ Hcall).
  rewrite (R_bind_ret _ _ _ y x) by (unfold r_lift; by rewrite Hy). exact Hrun.
Qed.

Lemma copies_args m c c1 : copyCall m c c1 → callPaths tbl c1 ⊆ callPaths tbl c.
Proof using Type. intros Hc. by apply (slim_copyCall tbl) in Hc as [_ ?]. Qed.

Lemma call_length w p c : good target w p → c ∈ p → length (c_Args c) = length (sc_Args (c_Meta c)).
Proof using Type.
  intros [[Htf Hh _ _ _ Hv _] _] Hc. apply validate_inv in Hv as [ctx' Hv]. apply list_elem_of_split in Hc as (l1 & l2 & ->).
  apply v_all_app in Hv as (c1 & _ & (c2 & Hv & _)%v_seq_inv). by apply validateCall_inv in Hv as (Hlen & _).
Qed.

(** A round ends with a new path or leaves the program alone. *)
Lemma round_ok tried p0 c w : okProg w p0 idx → p0 !! i = Some c → noMinimize (c_Meta c) = false →
  ∃ (b : bool) tried1 p1 w1 c1, round target ptrPtr ptr64 Neutralize debug pred0 i idx crash tried p0 w = Ret ((b, tried1, p1), w1) ∧
    okProg w1 p1 idx ∧ p1 !! i = Some c1 ∧ slimCall tbl c c1 ∧ length p1 = length p0 ∧ tried ⊆ tried1 ∧ tried1 ⊆ tried ∪ callPaths tbl c ∧ (b = true → tried1 ≠ tried).
Proof using Hmt.
  intros Hok Hc Hmin. destruct (cloneProg_ret p0 w (op_good _ _ _ Hok)) as (m & p & h1 & Hcl & Hg1 & Hfr & Hb & Hcp).
  destruct (Forall2_lookup_l _ _ _ _ _ Hcp Hc) as (c0 & Hc0 & Hcc). pose proof (proj1 Hcc) as Hm.
  assert (Hslim : slimmer tbl p0 p) by (eapply Forall2_impl; [exact Hcp|]; intros; by eapply slim_copyCall).
  set (x0 := mkMin (h1, w.2) tried p false).
  assert (Hx0 : open w p0 c0 x0).
  { constructor; [constructor; [exact Hg1|exact Hb|exact Hfr|exact Hslim|done]|done|]. exists c0. split; [done|]. split; [done|]. split; [done|]. split; [done|].
    apply Forall2_same_length_lookup_2; [done|]. intros k z z' Hz Hz'. rewrite Hz in Hz'. injection Hz' as <-. by apply alike_refl. }
  destruct (minimizeArgs_step w p0 c0 ltac:(by rewrite Hm) (call_length _ _ _ Hg1 (list_elem_of_lookup_2 _ _ _ Hc0)) (sc_Args (c_Meta c0)) 0 x0 eq_refl Hx0)
    as (b & x' & Hrun & Hs & Hs1 & Hres). rewrite drop_0 in Hs1. change (argsPaths tbl (c_Args c0) (sc_Args (c_Meta c0))) with (callPaths tbl c0) in Hs1.
  unfold round. rewrite (W_bind_ret _ _ w p (h1, w.2) Hcl). fold x0.
  rewrite (R_bind_ret _ _ x0 c0 x0) by (unfold r_call, r_ask, r_lift, mbind, R_bind; cbn [x_p x0]; by rewrite Hc0). rewrite Hrun. cbn [mbind res_bind].
  assert (Htried : x_tried x' ⊆ tried ∪ callPaths tbl c) by (pose proof (copies_args _ _ _ Hcc); cbn [x_tried x0] in Hs1; set_solver).
  assert (Hkeep : wfHeap (x_world x').1 → heapOK (x_world x').1 → frame (h_next w.1) w.1 (x_world x').1 → (w.2 ≤ (x_world x').2)%nat → okProg (x_world x') p0 idx)
    by (intros; by eapply okProg_keep).
  destruct b.
  - destruct Hres as [[Hw Hal Hfr1 Hcnt Hcom] Hne]. destruct (x_committed x').
    + destruct (Hcom eq_refl) as [Hi Hacc]. destruct (Forall2_lookup_l _ _ _ _ _ (iv_slim _ _ _ _ Hi) Hc) as (c1 & Hc1 & Hs3).
      eexists true, _, _, _, c1. split; [done|]. split; [|split; [done|split; [done|split; [symmetry; eapply Forall2_length, Hi|done]]]].
      eapply okProg_take; [exact Hok| |apply Hi|done|exact Hacc]. eapply candidate_slim; [by eapply okProg_candidate|apply Hi].
    + eexists true, _, _, _, c. split; [done|]. split; [by apply Hkeep|]. done.
  - pose proof Hres as [Hi Ho _]. rewrite Ho. destruct (good_heap _ _ _ (iv_good _ _ _ _ Hi)). eexists false, _, _, _, c. split; [done|].
    split; [apply Hkeep; [done|done|apply Hi|apply Hi]|]. done.
Qed.

Lemma again_ok fuel : ∀ tried p0 c w, okProg w p0 idx → p0 !! i = Some c → noMinimize (c_Meta c) = false → (size (callPaths tbl c ∖ tried) < fuel)%nat →
  ∃ p1 w1, again target ptrPtr ptr64 Neutralize debug pred0 i idx crash fuel tried p0 w = Ret (p1, w1) ∧ okProg w1 p1 idx ∧ length p1 = length p0.
Proof using Hmt.
  induction fuel as [|fuel IH]; intros tried p0 c w Hok Hc Hmin Hfuel; [lia|]. cbn [again].
  destruct (round_ok tried p0 c w Hok Hc Hmin) as (b & tried1 & p1 & w1 & c1 & Hr & Hok1 & Hc1 & [Hm1 Hp1] & Hl & Hs & Hs1 & Hne).
  rewrite (W_bind_ret _ _ w _ _ Hr). destruct b; [|by exists p1, w1].
  destruct (IH tried1 p1 c1 w1 Hok1 Hc1) as (p2 & w2 & Hrun & Hok2 & Hl2); [by rewrite Hm1| |exists p2, w2; split; [done|]; split; [done|lia]].
  assert (Hlt : (size (callPaths tbl c ∖ tried1) < size (callPaths tbl c ∖ tried))%nat); [|assert (Hle : (size (callPaths tbl c1 ∖ tried1) ≤ size (callPaths tbl c ∖ tried1))%nat); [apply subseteq_size; clear -Hp1; set_solver|lia]].
  apply subset_size. split; [clear -Hs; set_solver|]. intros Hsub. apply (Hne eq_refl). clear -Hs Hs1 Hsub. apply set_eq. intros q. split; [|by apply Hs].
  intros Hq. destruct (decide (q ∈ tried)) as [|Hn]; [done|]. specialize (Hs1 q Hq). specialize (Hsub q). clear Hs. set_solver.
Qed.

End Again.

Lemma minimizeCalls_ok crash idx n : ∀ i p0 w, okProg w p0 idx → (i + n = length p0)%nat →
  ∃ p1 w1, minimizeCalls target ptrPtr ptr64 Neutralize debug pred0 noMinimize crash rounds n i p0 idx w = Ret (p1, w1) ∧ okProg w1 p1 idx.
Proof using Hmt.
  induction n as [|n IH]; intros i p0 w Hok Hlen; [by exists p0, w|]. cbn [minimizeCalls]. destruct (lookup_lt_is_Some_2 p0 i) as [c Hc]; [lia|].
  rewrite (W_bind_ret _ _ w c w) by (unfold w_lift; by rewrite Hc). destruct (noMinimize (c_Meta c)) eqn:Hmin.
  - rewrite (W_bind_ret _ _ w p0 w) by done. apply IH; [done|lia].
  - destruct (again_ok i idx crash rounds ∅ p0 c w Hok Hc Hmin) as (p1 & w1 & Hrun & Hok1 & Hl1).
    { rewrite difference_empty_L. apply (op_fuel _ _ _ Hok). by eapply list_elem_of_lookup_2. }
    destruct (minimizeCallProps_ok i p1 idx w1 Hok1) as (p2 & w2 & Hrun2 & Hok2 & Hl2); [lia|].
    rewrite (W_bind_ret _ _ w p2 w2) by (by rewrite (W_bind_ret _ _ _ _ _ Hrun)). apply IH; [done|lia].
Qed.

Lemma Minimize_ok crash w : okProg w orig idx0 → (idx0 = -1 → name0 = EmptyString) →
  ∃ p idx w1, Minimize target ptrPtr ptr64 Neutralize debug pred0 noMinimize crash rounds orig idx0 w = Ret ((p, idx), w1) ∧ okProg w1 p idx.
Proof using Hmt.
  intros Hok Hn0. unfold Minimize.
  assert (Hname : (if bool_decide (idx0 = -1) then mret EmptyString else w_lift (nameAt orig idx0) : W string) w = Ret (name0, w)).
  { destruct (op_name _ _ _ Hok) as [[-> _]|[Hne Hn]]; [by rewrite Hn0|]. rewrite bool_decide_false by done. unfold w_lift. by rewrite Hn. }
  rewrite (W_bind_ret _ _ _ _ _ Hname). destruct (removeCallsLoop_ok (length orig) orig idx0 w Hok) as (p1 & idx1 & w1 & Hr1 & Hok1); [done|].
  unfold removeCalls. rewrite (W_bind_ret _ _ _ _ _ Hr1). destruct (resetCallProps_ok p1 idx1 w1 Hok1) as (p2 & w2 & Hr2 & Hok2). rewrite (W_bind_ret _ _ _ _ _ Hr2).
  destruct (minimizeCalls_ok crash idx1 (length p2) 0 p2 w2 Hok2) as (p3 & w3 & Hr3 & Hok3); [done|]. rewrite (W_bind_ret _ _ _ _ _ Hr3).
  exists p3, idx1, w3. split; [|done]. destruct (op_name _ _ _ Hok3) as [[_ ->]|[Hne Hn]]; [done|].
  rewrite bool_decide_false by (intros ->; done). rewrite (W_bind_ret _ _ w3 name0 w3) by (unfold w_lift; by rewrite Hn). by rewrite bool_decide_false by (intros Hbad; by apply Hbad).
Qed.

End Correct.

(** ** A sample *)

(** A call that makes a resource, and one that writes a buffer of a given length. *)
Definition writeTypes : list Typ :=
  let c size := mkTC "t" size 1 false false in
  let ic size := mkITC (c size) FormatNative 0 0 0 0 in
  [ ConstType (ic 0) 0 false;
    ResourceType (c 4) FormatNative (mkResourceDesc "fd" ["fd"] [0xffffffffffffffff]);
    BufferType (mkTC "buf" 0 1 false true) BufferBlobRand 0 0 TextTarget EmptyString [] false;
    PtrType (c 8) 2 DirIn;
    LenType (ic 8) 8 false ["buf"] ].

Definition openCall : Syscall := mkSyscall 0 "open" [] (Some 1%nat) false.

Definition writeCall : Syscall :=
  mkSyscall 1 "write" [mkField "fd" 1 false DirIn; mkField "buf" 3 false DirIn; mkField "n" 4 false DirIn] None false.

Definition writeTarget : Target := mkTarget writeTypes 4096 16 0x20000000 [0] [openCall; writeCall] 0.

Definition writeHeap : Heap :=
  mkHeap 10 (<[1%nat := mkResult 1 DirOut None 0 0 0 {[ 2%nat ]}]> (<[2%nat := mkResult 1 DirIn (Some 1%nat) 0 0 0 ∅]> ∅)).

Definition writeProg : list Call :=
  [ mkCall openCall [] (Some 1%nat) (mkProps 0 true 0);
    mkCall writeCall
      [ ResultArg 2; PointerArg (mkAC 3 3 DirIn) 64 0 (Some (DataArg (mkAC 4 2 DirIn) [1; 2; 3; 4; 5] 0)); ConstArg (mkAC 5 4 DirIn) 7 ]
      None (mkProps 0 false 2) ].

(** At least two bytes are written. *)
Definition writesTwo (k : nat) (calls : list Call) (view : list (option ResultObj)) (idx : Z) : bool :=
  existsb (λ c, existsb (λ x, match x with DataArg _ d _ => bool_decide (2 ≤ length d)%nat | _ => false end) (callArgs c)) calls.


Lemma write_fits : tableFits writeTarget.
Proof.
  split; [|repeat constructor; by vm_compute]. intros ref t Ht.
  do 5 (destruct ref as [|ref]; [injection Ht as <-; cbn; unfold isU8, isU64, Varlen; cbn;
    split_and?; try done; try lia; try (intros c [= <-]; cbn; unfold isU8; lia); try (repeat constructor; by vm_compute)|]).
  done.
Qed.

Lemma write_table : shrinkTable writeTarget.
Proof.
  split; [exact write_fits| | |done].
  - intros ref c kind b e text sub values noZ Ht _. do 5 (destruct ref as [|ref]; [done || (injection Ht as <- <- <- <- <- <- <- <-; cbn; split; [lia|done])|]). done.
  - intros ref c fields align overlay Ht. do 5 (destruct ref as [|ref]; [done|]). done.
Qed.

Lemma write_lens : lensFit (typeRefs writeTarget).
Proof. intros ref c b o path Ht. do 5 (destruct ref as [|ref]; [done || (injection Ht as <- <- <- <-; by vm_compute)|]). done. Qed.

(** The arguments of a valid call. *)
Lemma write_arg h x ref dir ctx ctx' : validateArg writeTarget h x ref dir ctx = Ret (inr ctx') →
  ∃ t dir' ctx1, argType writeTypes h x = Ret t ∧ argRef h x = Ret ref ∧ validateMethod writeTarget h x t dir' ctx1 = Ret (inr ctx').
Proof.
  intros Hv. apply validateArg_inv in Hv as (dir' & t & d & Hd & Ht & Hn & Hdir & Hdd & Hany & Hm). eexists t, dir', _. split; [exact Ht|]. split; [|exact Hm].
  destruct Hany as [Hany|Hany]; [|done]. unfold isAnyPtr in Hany. destruct t; try done. apply bool_decide_eq_true in Hany. cbn in Hany. subst.
  unfold argType in Ht. apply bind_ret_inv in Ht as (r & _ & Ht%typeOf_lookup). do 5 (destruct r as [|r]; [done|]). done.
Qed.

(** The type of an argument decides its kind. *)
Ltac write_kind Hv x :=
  apply write_arg in Hv as (?t & ?dir & ?ctx & Ht & Hr & Hm); unfold argType in Ht; rewrite Hr in Ht; injection Ht as <-;
  destruct x as [[i ref d] v|[i ref d] ad vm o|[i ref d] data size|[i ref d] inner|[i ref d] opt index|p]; try (injection Hr as ->); cbn in Hm; try done;
  try (cbn in Hr; destruct (h_results _ !! p) as [r|] eqn:Hp; [|done]; cbn in Hr; injection Hr as Hr); try done.

Lemma write_buffer h x dir ctx ctx' : validateArg writeTarget h x 2 dir ctx = Ret (inr ctx') → ∃ i d data size, x = DataArg (mkAC i 2 d) data size.
Proof. intros Hv. write_kind Hv x. eauto. Qed.

Lemma write_fd h x dir ctx ctx' : validateArg writeTarget h x 1 dir ctx = Ret (inr ctx') → ∃ p r, x = ResultArg p ∧ h_results h !! p = Some r ∧ r_ref r = 1%nat.
Proof. intros Hv. write_kind Hv x. eauto. Qed.

Lemma write_len h x dir ctx ctx' : validateArg writeTarget h x 4 dir ctx = Ret (inr ctx') → ∃ i d v, x = ConstArg (mkAC i 4 d) v.
Proof. intros Hv. write_kind Hv x. eauto. Qed.

Lemma write_ptr h x dir ctx ctx' : validateArg writeTarget h x 3 dir ctx = Ret (inr ctx') →
  ∃ i d ad vm o, x = PointerArg (mkAC i 3 d) ad vm o ∧ ∀ y, o = Some y → ∃ i d data size, y = DataArg (mkAC i 2 d) data size.
Proof.
  intros Hv. write_kind Hv x. exists i, d, ad, vm, o. split; [done|]. intros y ->. apply v_seq_inv in Hm as (c1 & Hm & _). apply v_seq_inv in Hm as (c2 & Hm & _). by eapply write_buffer.
Qed.

Lemma write_metas c : Syscalls writeTarget !! sc_ID (c_Meta c) = Some (c_Meta c) → c_Meta c = openCall ∨ c_Meta c = writeCall.
Proof. intros Hm. destruct (sc_ID (c_Meta c)) as [|[|n]]; [left|right|done]; by injection Hm. Qed.

(** Evaluation, where a result is known. *)
Ltac write_run Hp Hr :=
  repeat (progress (cbn; rewrite ?Hp, ?Hr;
    repeat match goal with
    | |- context [typeOf writeTypes ?n] => let t := eval vm_compute in (typeOf writeTypes n) in change (typeOf writeTypes n) with t
    | |- context [bool_decide ?P] =>
        let b := eval vm_compute in (bool_decide P) in
        match b with true => change (bool_decide P) with true | false => change (bool_decide P) with false end
    end)).

Lemma write_sizes h calls c : good writeTarget h calls → c ∈ calls → ∃ c1, assignSizesCall (typeRefs writeTarget) 0 0 h c = Ret c1.
Proof.
  intros [[_ _ _ Hw _ Hv _] _] Hc. rewrite Forall_forall in Hw. pose proof (wc_meta _ _ _ (Hw c Hc)) as Hmeta%write_metas.
  apply validate_inv in Hv as [ctx' Hv]. apply list_elem_of_split in Hc as (l1 & l2 & ->). apply v_all_app in Hv as (c1 & _ & (c2 & Hv & _)%v_seq_inv).
  apply validateCall_inv in Hv as (Hlen & c3 & Hargs & _). unfold assignSizesCall. destruct Hmeta as [Hm|Hm]; rewrite Hm in *.
  - destruct (c_Args c); [|done]. by eexists.
  - destruct (c_Args c) as [|x [|y [|z [|]]]]; try done. apply v_seq_inv in Hargs as (d1 & Hx & Hargs). apply v_seq_inv in Hargs as (d2 & Hy & Hargs).
    apply v_seq_inv in Hargs as (d3 & Hz & _). apply write_fd in Hx as (p & r & -> & Hp & Hr). apply write_ptr in Hy as (i & d & ad & vm & o & -> & Ho).
    apply write_len in Hz as (j & e & v & ->). unfold assignSizesArray. cbn [mapM]. destruct o as [y|].
    + destruct (Ho y eq_refl) as (k & f & data & size & ->). write_run Hp Hr. eauto.
    + write_run Hp Hr. eauto.
Qed.

Lemma write_min : minTarget writeTarget 0 0 (λ c, Ret (Some c)) (λ _, false).
Proof.
  split; [exact write_table|exact write_lens|exact write_sizes| |].
  - intros h calls c _ _. exists c. split; [done|]. split; [done|]. split; [done|]. split; [done|]. apply Forall2_same_length_lookup_2; [done|].
    intros k x y Hx Hy. rewrite Hx in Hy. injection Hy as <-. apply alike_refl. intros. apply okVal_refl.
  - intros h calls c x _ _ _ _. destruct x as [| |a data size| | |]; try done. unfold compressed. destruct (typeOf (typeRefs writeTarget) (a_ref a)) as [t| |] eqn:Et; try done.
    apply typeOf_lookup in Et. revert Et. generalize (a_ref a). intros ref Et. do 5 (destruct ref as [|ref]; [by injection Et as <-|]). done.
Qed.

Lemma write_heap : wfHeap writeHeap ∧ heapOK writeHeap.
Proof.
  split.
  - intros p r. unfold writeHeap. cbn [h_results]. rewrite !lookup_insert_Some. intros [[_ <-]|[_ [[_ <-]|[_ Hp]]]]; [..|by rewrite lookup_empty in Hp]; by vm_compute.
  - intros p [r Hr]. unfold writeHeap in *. cbn [h_results h_next] in *. rewrite !lookup_insert_Some in Hr.
    destruct Hr as [[<- _]|[_ [[<- _]|[_ Hp]]]]; [lia|lia|by rewrite lookup_empty in Hp].
Qed.

Lemma write_good : good writeTarget writeHeap writeProg.
Proof.
  destruct write_heap as [Hh Hok]. split; [split; [exact write_fits|exact Hh|exact Hok| | | |]|].
  - repeat constructor; cbn; try lia; try (by vm_compute); try done.
    + by intros f t Hf%not_elem_of_nil.
    + intros f t Hf Ht. repeat (apply elem_of_cons in Hf as [->|Hf]; [vm_compute in Ht; injection Ht as <-; exact I|]). by apply not_elem_of_nil in Hf.
  - intros n Hn. cut (forallb (λ n, bool_decide (n < h_next writeHeap)%nat) (concat (validNodes <$> writeProg)) = true).
    { rewrite forallb_forall. intros Hall. apply list_elem_of_In in Hn. specialize (Hall n Hn). by apply bool_decide_eq_true in Hall. }
    vm_compute. reflexivity.
  - vm_compute. reflexivity.
  - intros p r Hp Hr. unfold writeHeap in Hr. cbn [h_results] in Hr. rewrite !lookup_insert_Some in Hr.
    destruct Hr as [[<- <-]|[_ [[<- <-]|[_ Hr]]]]; [done|done|by rewrite lookup_empty in Hr].
  - intros c [->|[->|[]%elem_of_nil]%elem_of_cons]%elem_of_cons; cbn [c_Args]; repeat constructor; try done.
    exists 5. split; [by vm_compute|by vm_compute].
Qed.

(** ** The theorem *)


